(* ===== verification/_CoqProject ===== *)
-Q . S2P
Prelude.v
XdpPacket.v
SynFlood.v
ConnTrack.v
Maglev.v
F64.v
TokenBucket.v
Simulator.v
SimAffinity.v
Health.v
LutPublish.v
LutConcurrent.v
Agent.v
Bytes.v
HomaPacket.v
HomaSender.v
HomaReceiver.v
HomaReassembly.v
HomaTxQueue.v
HomaGso.v
HomaTransport.v
HomaGro.v
HomaThreads.v
HomaRpc.v
HomaRpcTimed.v
MoqCodec.v
MoqDropQueue.v
MoqCache.v
MoqHub.v
MoqRelay.v
MoqForward.v
MoqClient.v
MoqServer.v
RustStr.v
XdpMetrics.v
GmCrypto.v
GmSession.v
GmCookie.v
GmPsk.v
GmTrust.v
GmKem.v
GmHandshake.v
GmApi.v
MoqGmPq.v
MoqGmAccept.v
P2pProto.v
P2pPunch.v
P2pPath.v
P2pCrypto.v
P2pRelay.v
P2pQuic.v
P2pNode.v
P2pNodeLink.v
P2pNodeSafe.v
P2pLink.v
P2pMcp.v
NetSim.v
FuzzEngine.v
FuzzTargets.v
FuzzHoma.v
FuzzHomaSafe.v
FuzzGm.v
FuzzAll.v
GmRng.v
P2pFiles.v
P2pStart.v
TlsPins.v
P2pReader.v
HomaPool.v
MoqDial.v
