(* ===== verification/Prelude.v ===== *)
(** * Directwire: a verification development

    Directwire is a networking workspace in Rust.  This library models its
    cores in a shallow embedding and proves what makes them correct.  Every
    definition is executable and named after the source; a panic, an
    overflow of a checked operation or an index out of range is [None].

    ** What is modelled, and where

    The XDP load balancer, [src/crates/xdp-edge/src]:
    - [XdpPacket]: [packet.rs], five-tuples, packets, verdicts;
    - [SynFlood]: [synflood.rs], windows per source and the verdict;
    - [ConnTrack]: [conntrack.rs], the connection table: a slab of nodes with
      an intrusive doubly linked list, a hash map and a free list.  The module
      [LruSpec] is what it promises: a bounded recency list;
    - [Maglev]: [maglev.rs], consistent hashing;
    - [F64], [TokenBucket]: [token_bucket.rs], with IEEE binary64 arithmetic
      as [SpecFloat] defines it;
    - [Simulator], [SimAffinity]: [simulator.rs], the pipeline that composes
      the above, and its runs with changes of the backends;
    - [Health]: [control/health.rs], probes and debouncing;
    - [LutPublish]: [control/lut_publish.rs], the double-buffered table and
      its sequential operations; [LutConcurrent]: one writer and any number of
      readers over a memory with the acquire and release orderings of the code;
    - [Agent]: [control/sweeper.rs] and [control/agent.rs], the control loop;
    - [XdpMetrics]: [metrics.rs], the text a scraper reads.

    The Homa message transport, [src/crates/homa-rpc/src/transport]:
    - [Bytes]: bytes, little-endian integers and slices;
    - [HomaPacket]: [packet.rs], [priority.rs], and the actions and the
      configuration of [mod.rs];
    - [HomaSender]: [sender.rs];
    - [HomaReceiver]: [receiver.rs]; [HomaReassembly]: a receiver and the
      senders of its datagrams over an unreliable network;
    - [HomaTxQueue], [HomaGso]: [txqueue.rs], [gso.rs];
    - [HomaTransport]: the state machine part of [mod.rs], which composes
      the cores;
    - [HomaGro]: [gro.rs], what the Windows receive path reads from its buffers;
    - [HomaThreads]: the threads, calls and shutdown of [mod.rs] and the
      waiting of [txqueue.rs], as interleaved steps;
    - [HomaRpc]: [rpc/mod.rs], frames, the deduplicating server with its
      worker pool and the client with its retries, over an unreliable network;
      [HomaRpcTimed] holds the calls of the benchmarks and the TCP echo,
      [HomaPool] the pool with its lock and condition variable.

    The media relay, [src/crates/moq-live/src]:
    - [MoqCodec]: [varint.rs], [track.rs], [message.rs] and the frame reader
      of [net.rs];
    - [MoqDropQueue], [MoqCache]: [dropq.rs], [cache.rs];
    - [MoqHub]: [hub.rs], tracks, publication and subscription over a bounded
      broadcast channel;
    - [MoqRelay]: the control loop, the alias negotiation and the ingestion
      of [relay.rs], and the group reader of [client.rs];
    - [MoqForward]: the forwarder of [relay.rs], its reader and its writer as
      interleaved steps over the shared queue;
    - [MoqClient]: [control.rs] and [client.rs], the control channel, the
      publisher, and the calls of a subscriber interleaved with its control
      task and with the relay;
    - [MoqServer]: the accept loop, the life of a connection and the shutdown
      of [relay.rs];
    - [MoqDial]: the dialling of [client.rs] and the opening of a control
      channel of [relay.rs];
    - [MoqGmPq], [MoqGmAccept]: [gmpq.rs], the bridge between a session and
      its stream, and the handshake workers with the ticket cache they share.

    The secure channel, [src/crates/gm-pq-stack/src]:
    - [GmCrypto]: [crypto.rs] over the class [Primitives];
    - [GmSession], [GmCookie], [GmPsk]: [handshake/session.rs], [cookie.rs]
      and [psk.rs];
    - [GmTrust]: [trust.rs]; what it uses of Rust strings is in [RustStr];
    - [GmRng]: [rng.rs], the adapter of the system's random source;
    - [GmKem]: [kem/], the two traits as classes, the adapters and the hybrid;
    - [GmHandshake]: [handshake/mod.rs], every method of both parties in a
      state-and-error monad that keeps the state changed before an error;
    - [GmApi]: [api.rs], the connection functions over a byte stream.

    The peer-to-peer mesh, [src/crates/p2p-mesh/src]:
    - [P2pProto]: [proto.rs], frames and their codec, over the class [Wire]
      of a reader and a writer that belong together;
    - [P2pPunch], [P2pPath]: [holepunch/mod.rs], [path/mod.rs];
    - [P2pCrypto]: [identity/mod.rs], [crypto.rs] and the binding of
      [gmpq.rs], over the class [MeshPrimitives];
    - [P2pRelay]: [relay/server.rs] and [client.rs], the connections as
      interleaved steps on the shared table;
    - [P2pReader]: the reading task of [relay/client.rs] and the operator's
      view of [relay/server.rs];
    - [P2pQuic]: [quic/mod.rs], certificates, verifiers, messages, dialling;
    - [TlsPins]: the verifiers as the TLS library sees them and the
      configurations of [quic/mod.rs] and of [moq-live/src/net.rs];
    - [P2pNode]: [node.rs], the actor with all its handlers, in a state
      monad with outputs; [P2pNodeLink], [P2pNodeSafe] and [P2pLink] hold
      its theorems: single runs, freedom from panics, two nodes on a relay;
    - [P2pMcp]: [mcp.rs], the tool server: a handler is a program that waits
      on the node's channels, interleaved with the node's tasks;
    - [P2pFiles]: the identity file of [identity/mod.rs] and the pin file of
      [gm-pq-stack/src/trust.rs], over a file system with permissions;
    - [P2pStart]: [Node::start] of [node.rs], what it does before it returns or
      fails, and the tasks it leaves running, as interleaved steps.

    The link simulator, [src/crates/net-sim/src/lib.rs], is [NetSim].

    The fuzz harness, [src/fuzz-harness/src]:
    - [FuzzEngine]: [mutator.rs], [engine.rs] and the options of
      [bin/driver.rs];
    - [FuzzTargets]: the targets of the media codec, the relay protocol and
      the packet pipeline, run on the models of what they test;
    - [FuzzHoma], [FuzzHomaSafe]: the target of the message transport, and the
      inputs on which it returns;
    - [FuzzGm]: the target of the handshake;
    - [FuzzAll]: the registry of [targets/mod.rs] and whole runs.

    ** How components meet

    The simulator's theorems use the connection table only through
    [represents], the relation between a table and its recency list, and the
    Maglev table only through [mg_ok].  The agent uses the publisher through
    [publish_ok] and [publish_effect] and the health checker through its
    history relation [hc_tracks].  The transport uses the receiver through
    [handle_data_cases] and the sender through [chunks].  The iteration order
    of a hash map is an instance of the class [HashOrder] below, which every
    operation that iterates takes as an argument and of which only
    completeness is known, so the theorems hold for every order.  The hub
    sees its broadcast channel through the class [Broadcast]; a ring buffer is
    its instance.  The secure channel sees the cryptographic libraries through
    [Primitives], [Sm2Lib] and [MlKemLib] and the parties see a scheme through
    [Kem] and [StaticAuth] with their laws, which the hybrid scheme discharges
    from those of its two halves; each class has a concrete instance, on
    which the witnesses run.

    ** What the theorems show

    - [ConnTrack]: the linked slab refines the recency list for every
      sequence of operations; the table is bounded; insert and lookup.
    - [Maglev]: primality test, termination and totality of the
      construction, balance of the slots, totality of the lookup.
    - [SynFlood], [TokenBucket]: verdicts, isolation of sources, bounds.
    - [Simulator], [SimAffinity]: no panic on any trace, accounting, connection
      affinity up to the idle timeout and the capacity of the table.
    - [Health], [LutPublish], [Agent]: the debounced state is a function of
      the history; the table in force follows the health of the backends.
    - [LutConcurrent]: readers hold complete and immutable tables in every run
      in which two named loads are not stale, and a torn one in a run allowed
      by the orderings alone.
    - [HomaPacket]: the codec accepts exactly the encodings.
    - [HomaSender], [HomaReceiver], [HomaReassembly], [HomaTransport]: flow
      control, intact reassembly, scheduling by shortest remaining bytes with a starvation
      guard, allocation bounds, delivery from end to end.
    - [HomaTxQueue], [HomaGso], [HomaGro]: priority order without loss;
      segmentation and coalescing are transparent, given that the kernel cuts
      segments of up to 64 KB and reports a size as documented.
    - [HomaThreads]: in every interleaving nothing queued is lost or sent
      twice, and each delivered message goes to one caller, in order.
    - [XdpMetrics]: a scraper reads back every counter; printed numbers are
      the nearest decimals.
    - [HomaRpc], [HomaRpcTimed]: at most one execution per client address and
      request id in the life of a server, and the answer of that execution, in
      every interleaving of network, threads, timeouts and restarts of clients;
      the echo.
    - [HomaPool]: every job is run once, in order of submission, and no wake-up
      is lost before the drop.
    - [Moq...]: framing independent of the chunks, decoding of hostile bytes,
      the window of groups, subscriptions that lose objects only when told so,
      the bounded queue that
      keeps group heads, well-formed forwarding in every interleaving; a
      published group arrives under its track whatever its alias is; calls of
      a subscriber settle; a dial and the relay's opening meet; a GM-PQ control
      session is set up or resumed and
      carries the messages of both ends in order; the table holds the served
      connections and the shutdown tells each once before it closes any.
    - [Gm...]: the replay window is exact; sessions deliver at most once;
      cookies, tickets and pin files; the handshake completes between honest
      parties, authenticates both and binds the session to the transcript;
      connections from end to end, and safety against any client.  Where a
      conclusion excepts a hash collision, the colliding inputs are named.
    - [P2p...]: the codec accepts exactly the encodings; punching ends, and
      finds the peer exactly if its packet comes in time; the chain of path switches; the relay forwards
      authentic messages and counts them in every interleaving; dialling by
      public key authenticates; the node of the default build never panics;
      two nodes settle on one direct connection, and over an order-keeping
      relay on one session that delivers every message once and in order; the
      tool server answers each request once and hands on each message once.
      A node that started has the trust anchor its configuration asks for; its
      identity survives restarts; its probes keep their period.  The handshake
      of two configurations succeeds exactly if the dialler expects the node.
    - [NetSim]: the generator has full period; the relay keeps every packet
      and its delay; what loss and bandwidth limits do.
    - [Fuzz...]: a run of the engine ends, mutates within its bound and logs
      exactly the inputs that crash; every target but that of the transport
      returns on every input, so whole runs of them report no crash; that of
      the transport returns on every input but one kind of packet.
    - Defects, each with a concrete run or an exact statement: a lost GRANT corrupts a message, a
      forged length panics the receiver, an empty message is never sent, a
      snapshot's version can be newer than its table, a counter miscounts, a
      late group panics the cache, a repeated subscription leaks a forwarder,
      a restarted client gets stale answers, a panicked handler blocks its
      request, a ticket replays in its last second, a pin file panics, a
      ciphertext that looks like a handshake ends a session, a payload of one
      byte panics a node with the GM-PQ feature, a stray frame drops its
      session, the relay keeps ended and loses live sessions, a message can
      overtake the registration, candidates and long messages are cut, a
      call hangs after its control task ended, a silent client locks out all
      others, a part of a message blocks the other direction, a tool server
      that only sends stalls and a malformed target ends it, a bandwidth
      limit holds packets back for ever, a sending thread misses the shutdown,
      a report of an earlier size cuts a packet, an answer is lost between a
      send and its waiter, a late connection is not told of the shutdown, a
      configured address is replaced, an accept loop outlives its node, a seed
      is readable while it is saved and a torn one is kept, a pinned
      certificate is accepted without proof of its key, a worker misses the
      drop of its pool, a fuzz target
      crashes by its own packet and a phase of it does nothing.

    ** Bounds and fuel

    Unsigned integers are [Z] with their ranges written out below.  Loops
    that are not structural run on fuel, and each has a lemma that the fuel
    is enough: [is_prime_loop_spec] (square root of the argument),
    [build_lut_ok] (the table size), [pump_loop_ok], [resend_loop_ok] (the
    message length).  Counters of events are bounded by the length of the
    trace in the theorems that need it.

    ** What is not modelled

    Sockets, the creation of threads, text output for debugging, relaxed
    orderings of counters (the publisher's acquire and release orderings are
    in [LutConcurrent]), [SocketAddr] beyond equality and order, and instants beyond integers.  Clocks and randomness are arguments.  Writes
    to a stream do not fail in [GmApi]; ML-KEM's negligible decapsulation
    failure is excluded by the laws of [MlKemLib].  What the mesh node's start
    gets from the system is an argument; the QUIC and TLS libraries and the
    set-up of sockets are not modelled, nor are the parser and printer of JSON, which the
    tool server takes as parameters, the benchmark of the fuzz harness, and
    the example programs. *)

From Stdlib Require Export ZArith Lia.
From stdpp Require Export sorting.
From stdpp Require Export prelude gmap fin_maps option list.

#[global] Open Scope Z_scope.

(** ** Machine integers

    Unsigned integers of the source are [Z]; every operation that can
    leave the type's range writes the range out.  A checked operation
    returns [None], which stands for the panic of a build with overflow
    checks; a result [Some v] is therefore what every build profile
    computes. *)

Definition u8_max : Z := 255.
Definition u16_max : Z := 65535.
Definition u32_max : Z := 4294967295.
Definition u64_max : Z := 18446744073709551615.

Definition is_u8 (x : Z) : Prop := 0 ≤ x ≤ u8_max.
Definition is_u16 (x : Z) : Prop := 0 ≤ x ≤ u16_max.
Definition is_u32 (x : Z) : Prop := 0 ≤ x ≤ u32_max.
Definition is_u64 (x : Z) : Prop := 0 ≤ x ≤ u64_max.

(** [a + b] at a type whose greatest value is [mx]. *)
Definition add_chk (mx a b : Z) : option Z :=
  if a + b <=? mx then Some (a + b) else None.

(** [a - b] at an unsigned type. *)
Definition sub_chk (a b : Z) : option Z :=
  if b <=? a then Some (a - b) else None.

(** [a * b] at a type whose greatest value is [mx]. *)
Definition mul_chk (mx a b : Z) : option Z :=
  if a * b <=? mx then Some (a * b) else None.

(** [saturating_sub] and [saturating_mul]. *)
Definition sat_sub (a b : Z) : Z := Z.max 0 (a - b).
Definition sat_mul (mx a b : Z) : Z := Z.min mx (a * b).

(** [wrapping_add] and [wrapping_mul] on [u64]. *)
Definition wrap64 (x : Z) : Z := x mod 2 ^ 64.

(** ** Vectors

    A [Vec<T>] is a list; indexing out of range panics. *)

Definition vget {A} (l : list A) (i : Z) : option A :=
  if 0 <=? i then l !! Z.to_nat i else None.

Definition vset {A} (l : list A) (i : Z) (x : A) : option (list A) :=
  if (0 <=? i) && (i <? Z.of_nat (length l))
  then Some (<[Z.to_nat i := x]> l) else None.

Definition zlen {A} (l : list A) : Z := Z.of_nat (length l).

(** ** Hash maps

    [HashMap] iterates in an order its hasher chooses.  The order is a
    parameter of every operation that iterates: all that is known of it
    is that it enumerates the entries, each once. *)

Class HashOrder (K A : Type) `{Countable K} := {
  hm_iter : gmap K A → list (K * A);
  hm_iter_perm : ∀ m, hm_iter m ≡ₚ map_to_list m
}.

Arguments hm_iter {K A _ _ _} _.
Arguments hm_iter_perm {K A _ _ _} _.

(** One such order, for evaluation. *)
Definition default_order {K A} `{Countable K} : HashOrder K A :=
  {| hm_iter := map_to_list; hm_iter_perm := λ m, Permutation_refl _ |}.

Lemma elem_of_hm_iter `{HashOrder K A} (m : gmap K A) k x :
  (k, x) ∈ hm_iter m ↔ m !! k = Some x.
Proof. rewrite hm_iter_perm. apply elem_of_map_to_list. Qed.

Lemma hm_iter_NoDup_fst `{HashOrder K A} (m : gmap K A) : NoDup (hm_iter m).*1.
Proof. rewrite hm_iter_perm. apply NoDup_fst_map_to_list. Qed.

Lemma hm_iter_NoDup `{HashOrder K A} (m : gmap K A) : NoDup (hm_iter m).
Proof. rewrite hm_iter_perm. apply NoDup_map_to_list. Qed.

Lemma length_hm_iter `{HashOrder K A} (m : gmap K A) : length (hm_iter m) = size m.
Proof. rewrite hm_iter_perm. apply length_map_to_list. Qed.

(** ** Lemmas on the integer operations *)

Create HintDb wire.
Create Rewrite HintDb wire.

Lemma add_chk_Some mx a b c : add_chk mx a b = Some c ↔ c = a + b ∧ a + b ≤ mx.
Proof. unfold add_chk. destruct (Z.leb_spec (a + b) mx); split; intros; simplify_eq; intuition (auto; lia || congruence). Qed.

Lemma add_chk_ok mx a b : a + b ≤ mx → add_chk mx a b = Some (a + b).
Proof. intros. apply add_chk_Some. auto. Qed.

Lemma sub_chk_Some a b c : sub_chk a b = Some c ↔ c = a - b ∧ b ≤ a.
Proof. unfold sub_chk. destruct (Z.leb_spec b a); split; intros; simplify_eq; intuition (auto; lia || congruence). Qed.

Lemma mul_chk_ok mx a b : a * b ≤ mx → mul_chk mx a b = Some (a * b).
Proof. intros. unfold mul_chk. by rewrite (proj2 (Z.leb_le _ _)). Qed.

(** ** Lemmas on vectors *)

Lemma vget_Some {A} (l : list A) i x :
  vget l i = Some x ↔ 0 ≤ i ∧ l !! Z.to_nat i = Some x.
Proof. unfold vget. destruct (Z.leb_spec 0 i); naive_solver lia. Qed.

Lemma vget_bound {A} (l : list A) i x : vget l i = Some x → 0 ≤ i < zlen l.
Proof. intros [? ?%lookup_lt_Some]%vget_Some. unfold zlen. lia. Qed.

Lemma vget_cons {A} (x : A) l i :
  vget (x :: l) i = if i =? 0 then Some x else vget l (i - 1).
Proof.
  unfold vget. destruct (Z.eqb_spec i 0) as [->|]; [done|]. destruct (Z.leb_spec 0 i), (Z.leb_spec 0 (i - 1)); try lia; [|done].
  by replace (Z.to_nat i) with (S (Z.to_nat (i - 1))) by lia.
Qed.

Lemma vget_lt_is_Some {A} (l : list A) i : 0 ≤ i < zlen l → is_Some (vget l i).
Proof.
  unfold zlen, vget. intros. rewrite (proj2 (Z.leb_le _ _)) by lia.
  apply lookup_lt_is_Some_2. lia.
Qed.

Lemma vset_Some {A} (l : list A) i x l' :
  vset l i x = Some l' ↔ 0 ≤ i < zlen l ∧ l' = <[Z.to_nat i := x]> l.
Proof.
  unfold vset, zlen.
  destruct (Z.leb_spec 0 i), (Z.ltb_spec i (Z.of_nat (length l))); simpl;
    split; intros; simplify_eq; intuition (auto; lia || congruence).
Qed.

Lemma vset_ok {A} (l : list A) i x :
  0 ≤ i < zlen l → vset l i x = Some (<[Z.to_nat i := x]> l).
Proof. intros. by apply vset_Some. Qed.

Lemma vget_vset {A} (l l' : list A) i j x :
  vset l i x = Some l' → 0 ≤ j →
  vget l' j = if decide (i = j) then Some x else vget l j.
Proof.
  intros [Hi ->]%vset_Some Hj. unfold vget, zlen in *.
  rewrite (proj2 (Z.leb_le 0 j)) by lia. case_decide; subst.
  - apply list_lookup_insert_eq. lia.
  - apply list_lookup_insert_ne. lia.
Qed.

Lemma zlen_insert {A} (l : list A) i x : zlen (<[i := x]> l) = zlen l.
Proof. unfold zlen. by rewrite length_insert. Qed.

Lemma zlen_app {A} (l k : list A) : zlen (l ++ k) = zlen l + zlen k.
Proof. unfold zlen. rewrite length_app. lia. Qed.

Lemma zlen_cons {A} (x : A) l : zlen (x :: l) = 1 + zlen l.
Proof. unfold zlen. simpl. lia. Qed.

Lemma zlen_nil {A} : zlen (@nil A) = 0.
Proof. reflexivity. Qed.

Lemma zlen_nonneg {A} (l : list A) : 0 ≤ zlen l.
Proof. unfold zlen. lia. Qed.

#[export] Hint Resolve zlen_nonneg : wire.
#[export] Hint Rewrite @zlen_insert @zlen_app @zlen_cons @zlen_nil : wire.

(** ** Lemmas on lists *)

Lemma filter_ext_in {A} (P Q : A → Prop) `{!∀ x, Decision (P x)} `{!∀ x, Decision (Q x)} (l : list A) :
  (∀ x, x ∈ l → (P x ↔ Q x)) → filter P l = filter Q l.
Proof.
  induction l as [|x l IH]; intros Hl; [done|].
  rewrite !filter_cons, IH by set_solver. pose proof (Hl x ltac:(set_solver)).
  do 2 case_decide; tauto.
Qed.

Lemma filter_all_in {A} (P : A → Prop) `{!∀ x, Decision (P x)} (l : list A) :
  (∀ x, x ∈ l → P x) → filter P l = l.
Proof.
  induction l as [|x l IH]; intros Hl; [done|].
  rewrite filter_cons, decide_True by (apply Hl; set_solver). f_equal. apply IH. set_solver.
Qed.

Lemma filter_none_in {A} (P : A → Prop) `{!∀ x, Decision (P x)} (l : list A) :
  (∀ x, x ∈ l → ¬ P x) → filter P l = [].
Proof.
  induction l as [|x l IH]; intros Hl; [done|].
  rewrite filter_cons, decide_False by (apply Hl; set_solver). apply IH. set_solver.
Qed.

Lemma filter_fmap_comm {A B} (f : A → B) (P : B → Prop) `{!∀ x, Decision (P x)} (l : list A) :
  filter P (f <$> l) = f <$> filter (λ x, P (f x)) l.
Proof.
  induction l as [|x l IH]; [done|]. rewrite fmap_cons, !filter_cons.
  case_decide; rewrite ?fmap_cons; congruence.
Qed.

Lemma Forall2_in_l {A B} (R : A → B → Prop) l k x : Forall2 R l k → x ∈ l → ∃ y, y ∈ k ∧ R x y.
Proof.
  induction 1 as [|a b l k Hab _ IH]; [set_solver|]. rewrite elem_of_cons. intros [->|Hx].
  - exists b. split; [by left|done].
  - destruct (IH Hx) as (y & ? & ?). exists y. split; [by right|done].
Qed.

Lemma Forall2_in_r {A B} (R : A → B → Prop) l k y : Forall2 R l k → y ∈ k → ∃ x, x ∈ l ∧ R x y.
Proof. intros H%Forall2_flip. apply (Forall2_in_l _ _ _ _ H). Qed.

Lemma elem_of_concat {A} (x : A) ll : x ∈ concat ll ↔ ∃ l, x ∈ l ∧ l ∈ ll.
Proof. induction ll as [|l ll IH]; cbn; [set_solver|]. rewrite elem_of_app, IH. set_solver. Qed.

(** ** Fallible operations

    An operation that returns [Result<A, E>] and may panic is an
    [option (E + A)]: [None] is a panic, [Some (inl e)] an error,
    [Some (inr a)] a success.  [x ←? e; k] is the [?] operator. *)

Abbreviation res E A := (option (E + A)).

Definition ok {E A} (a : A) : res E A := Some (inr a).
Definition err {E A} (e : E) : res E A := Some (inl e).

Definition try_bind {E A B} (r : res E A) (k : A → res E B) : res E B :=
  match r with
  | None => None
  | Some (inl e) => Some (inl e)
  | Some (inr a) => k a
  end.

Notation "x ←? r ; k" := (try_bind r (λ x, k))
  (at level 20, r at level 100, k at level 200, right associativity) : stdpp_scope.
Notation "' x ←? r ; k" := (try_bind r (λ x, k))
  (at level 20, x pattern, r at level 100, k at level 200, right associativity) : stdpp_scope.

Lemma try_bind_ok {E A B} (r : res E A) (k : A → res E B) b :
  try_bind r k = ok b ↔ ∃ a, r = ok a ∧ k a = ok b.
Proof. unfold ok. destruct r as [[e|a]|]; simpl; naive_solver. Qed.

Lemma try_bind_total {E A B} (r : res E A) (k : A → res E B) :
  is_Some r → (∀ a, r = ok a → is_Some (k a)) → is_Some (try_bind r k).
Proof. intros [[e|a] ->] Hk; simpl; [by eexists|]. by apply Hk. Qed.

(** [try_with E] takes one step of a goal about [x ←? r; k] with the
    equation [E : r = ok v]. *)
Ltac try_with E := rewrite E; cbn [try_bind ok].

(** ** Option chains

    [opt_inv] opens a hypothesis [(x ← a; b) = Some y] into the
    equations of its steps. *)
Ltac opt_inv :=
  repeat (progress simplify_option_eq
    || match goal with
       | H : add_chk _ _ _ = Some _ |- _ => apply add_chk_Some in H as [-> ?]
       | H : sub_chk _ _ = Some _ |- _ => apply sub_chk_Some in H as [-> ?]
       end).

(** [bind_inv] does the same one bind at a time, without simplifying the
    steps themselves. *)
Ltac bind_inv :=
  repeat match goal with
    | H : (_ ≫= _) = Some _ |- _ =>
        let E := fresh "E" in apply bind_Some in H as (? & E & H)
    | H : add_chk _ _ _ = Some _ |- _ => apply add_chk_Some in H as [-> ?]
    | H : sub_chk _ _ = Some _ |- _ => apply sub_chk_Some in H as [-> ?]
    | H : Some _ = Some _ |- _ => injection H as H; subst
    end.

(** [bind_with E] takes one step of a goal [(x ← a; b) = Some y] with the
    equation [E : a = Some v]. *)
Ltac bind_with E := apply bind_Some; eexists; split; [exact E|]; cbn beta iota.

(** Closed arithmetic side conditions, by evaluation. *)
Ltac by_eval := vm_compute; intuition congruence.
