(* ===== verification/XdpPacket.v ===== *)
(** * Packets and verdicts of the XDP data plane

    Models [crates/xdp-edge/src/packet.rs]: the five-tuple that keys
    connection tracking, the simulated packet with its TCP flags, and the
    verdict of the pipeline. *)

From S2P Require Import Prelude.

Definition TCP_SYN : Z := 2.
Definition TCP_ACK : Z := 16.
Definition PROTO_TCP : Z := 6.

Record FiveTuple := mkFiveTuple {
  src_ip : Z;
  dst_ip : Z;
  src_port : Z;
  dst_port : Z;
  protocol : Z
}.

#[export] Instance FiveTuple_eq_dec : EqDecision FiveTuple.
Proof. solve_decision. Defined.

#[export] Instance FiveTuple_countable : Countable FiveTuple.
Proof.
  refine (inj_countable'
    (λ t, (src_ip t, dst_ip t, src_port t, dst_port t, protocol t))
    (λ '(a, b, c, d, e), mkFiveTuple a b c d e) _).
  by intros [].
Defined.

(** The widths of the fields: [u32], [u32], [u16], [u16], [u8]. *)
Definition wf_tuple (t : FiveTuple) : Prop :=
  is_u32 (src_ip t) ∧ is_u32 (dst_ip t) ∧ is_u16 (src_port t) ∧
  is_u16 (dst_port t) ∧ is_u8 (protocol t).

Record Packet := mkPacket {
  tuple : FiveTuple;
  tcp_flags : Z;
  len : Z
}.

(** [self.tcp_flags & TCP_SYN != 0 && self.tcp_flags & TCP_ACK == 0] *)
Definition is_syn (p : Packet) : bool :=
  negb (Z.land (tcp_flags p) TCP_SYN =? 0) && (Z.land (tcp_flags p) TCP_ACK =? 0).

Definition is_ack (p : Packet) : bool :=
  negb (Z.land (tcp_flags p) TCP_ACK =? 0).

Inductive Action :=
  | Drop
  | Pass
  | Forward (backend_ip : Z).

Definition is_drop (a : Action) : bool :=
  match a with Drop => true | _ => false end.

(** A packet is never counted on both sides of the SYN/ACK ratio. *)
Lemma is_syn_not_ack p : is_syn p = true → is_ack p = false.
Proof. unfold is_syn, is_ack. intros [_ ->]%andb_true_iff. done. Qed.
