(* ===== verification/SynFlood.v ===== *)
(** * SYN-flood detection

    Models [crates/xdp-edge/src/synflood.rs]: per source a window of SYN
    and ACK counts that restarts when it is older than [window_ns]. *)

From S2P Require Import Prelude.

Record Window := mkWindow {
  w_syn : Z;
  w_ack : Z;
  w_start_ns : Z;
  w_init : bool
}.

Definition default_window : Window := mkWindow 0 0 0 false.

Record SynFloodGuard := mkGuard {
  windows : gmap Z Window;
  window_ns : Z;
  syn_threshold : Z;
  ack_ratio : Z;
  flagged_sources : Z
}.

Definition guard_new (window_ns syn_threshold ack_ratio : Z) : SynFloodGuard :=
  mkGuard ∅ window_ns syn_threshold ack_ratio 0.

(** The window an observation at [now_ns] counts into: a fresh one when
    the source has none or the old one has slid past. *)
Definition current_window (window_ns : Z) (w : Window) (now_ns : Z) : Window :=
  if negb (w_init w) || (window_ns <=? sat_sub now_ns (w_start_ns w))
  then mkWindow 0 0 now_ns true else w.

Definition count (is_syn is_ack : bool) (w : Window) : option Window :=
  if is_syn then
    s ← add_chk u32_max (w_syn w) 1;
    Some (mkWindow s (w_ack w) (w_start_ns w) (w_init w))
  else if is_ack then
    a ← add_chk u32_max (w_ack w) 1;
    Some (mkWindow (w_syn w) a (w_start_ns w) (w_init w))
  else Some w.

Definition is_flagged (syn_threshold ack_ratio : Z) (w : Window) : bool :=
  (syn_threshold <=? w_syn w) && (sat_mul u32_max (w_ack w) ack_ratio <? w_syn w).

Definition observe (g : SynFloodGuard) (src_ip : Z) (is_syn is_ack : bool) (now_ns : Z)
    : option (SynFloodGuard * bool) :=
  let w := default default_window (windows g !! src_ip) in
  w ← count is_syn is_ack (current_window (window_ns g) w now_ns);
  let flagged := is_flagged (syn_threshold g) (ack_ratio g) w in
  fs ← (if flagged && (w_syn w =? syn_threshold g)
        then add_chk u64_max (flagged_sources g) 1
        else Some (flagged_sources g));
  Some (mkGuard (<[src_ip := w]> (windows g)) (window_ns g) (syn_threshold g)
          (ack_ratio g) fs, flagged).

Definition tracked_sources (g : SynFloodGuard) : Z := Z.of_nat (size (windows g)).

(** ** Traces

    An observation of one source: its SYN flag, its ACK flag, its time. *)

Abbreviation obs := (bool * bool * Z)%type.

Fixpoint observe_all (g : SynFloodGuard) (src_ip : Z) (tr : list obs)
    : option (SynFloodGuard * bool) :=
  match tr with
  | [] => Some (g, false)
  | [(s, a, t)] => observe g src_ip s a t
  | (s, a, t) :: tr' =>
      '(g', _) ← observe g src_ip s a t;
      observe_all g' src_ip tr'
  end.

Definition count_syn (tr : list obs) : Z := zlen (filter (λ o, o.1.1 = true) tr).
Definition count_ack (tr : list obs) : Z :=
  zlen (filter (λ o, o.1.1 = false ∧ o.1.2 = true) tr).

(** The specification of a verdict over a whole window: enough SYNs, and
    more of them than the ACKs justify. *)
Definition flood (thr ratio : Z) (tr : list obs) : bool :=
  (thr <=? count_syn tr) && (sat_mul u32_max (count_ack tr) ratio <? count_syn tr).

(** ** Frame and bounds *)

Lemma observe_config g src s a t g' v :
  observe g src s a t = Some (g', v) →
  window_ns g' = window_ns g ∧ syn_threshold g' = syn_threshold g ∧
  ack_ratio g' = ack_ratio g.
Proof. unfold observe. intros. by opt_inv. Qed.

Lemma observe_other g src src' s a t g' v :
  observe g src s a t = Some (g', v) → src' ≠ src →
  windows g' !! src' = windows g !! src'.
Proof. unfold observe. intros ? ?. opt_inv. by rewrite lookup_insert_ne. Qed.

Lemma count_syn_cons s a t tr :
  count_syn ((s, a, t) :: tr) = count_syn tr + (if s then 1 else 0).
Proof.
  unfold count_syn. rewrite filter_cons. simpl.
  destruct s; [rewrite decide_True by done; rewrite zlen_cons | rewrite decide_False by done]; lia.
Qed.

Lemma count_ack_cons s a t tr :
  count_ack ((s, a, t) :: tr) = count_ack tr + (if negb s && a then 1 else 0).
Proof.
  unfold count_ack. rewrite filter_cons.
  case_decide as Hd; simpl in Hd; destruct s, a; simpl; rewrite ?zlen_cons;
    naive_solver lia.
Qed.

Lemma count_syn_bound tr : 0 ≤ count_syn tr ≤ zlen tr.
Proof.
  induction tr as [|[[s a] t] tr IH]; [done|].
  rewrite count_syn_cons, zlen_cons. destruct s; lia.
Qed.

Lemma count_ack_bound tr : 0 ≤ count_ack tr ≤ zlen tr.
Proof.
  induction tr as [|[[s a] t] tr IH]; [done|].
  rewrite count_ack_cons, zlen_cons. destruct (negb s && a); lia.
Qed.

(** One observation inside a live window adds its own contribution. *)
Lemma observe_live g src s a t w :
  windows g !! src = Some w → w_init w = true →
  sat_sub t (w_start_ns w) < window_ns g →
  w_syn w < u32_max → w_ack w < u32_max → flagged_sources g < u64_max →
  ∃ g' w', observe g src s a t = Some (g', is_flagged (syn_threshold g) (ack_ratio g) w') ∧
    windows g' !! src = Some w' ∧
    w' = mkWindow (w_syn w + (if s then 1 else 0))
           (w_ack w + (if negb s && a then 1 else 0)) (w_start_ns w) true ∧
    flagged_sources g ≤ flagged_sources g' ≤ flagged_sources g + 1.
Proof.
  intros Hw Hi Ht Hs Ha Hf. unfold observe, current_window. rewrite Hw. simpl.
  rewrite Hi, (proj2 (Z.leb_gt _ _)) by done. simpl.
  destruct w as [ws wa wt wi]; simpl in *; subst.
  destruct s, a; unfold count; simpl;
    rewrite ?add_chk_ok by lia; simpl;
    match goal with |- context [if ?b then _ else _] => destruct b end;
    rewrite ?add_chk_ok by lia; simpl; do 2 eexists;
    (split; [reflexivity|]); simpl; rewrite lookup_insert_eq, ?Z.add_0_r;
    (split; [reflexivity|]); (split; [done|]); lia.
Qed.

(** Over a run inside one live window the stored counts are the counts of
    the run added to the counts before it. *)
Lemma observe_all_live src tr : ∀ g w,
  tr ≠ [] → windows g !! src = Some w → w_init w = true →
  Forall (λ o : obs, sat_sub o.2 (w_start_ns w) < window_ns g) tr →
  w_syn w + zlen tr ≤ u32_max → w_ack w + zlen tr ≤ u32_max →
  flagged_sources g + zlen tr ≤ u64_max →
  ∃ g' w', observe_all g src tr =
      Some (g', is_flagged (syn_threshold g) (ack_ratio g) w') ∧
    w_syn w' = w_syn w + count_syn tr ∧ w_ack w' = w_ack w + count_ack tr ∧
    windows g' !! src = Some w'.
Proof.
  induction tr as [|[[s a] t] tr IH]; [done|]. intros g w _ Hw Hi Hall Hs Ha Hf.
  apply Forall_cons in Hall as [Ht Hall]. simpl in Ht.
  rewrite zlen_cons in Hs, Ha, Hf. pose proof (zlen_nonneg tr).
  destruct (observe_live g src s a t w) as (g1 & w1 & Ho & Hl1 & Hw1 & Hf1); try done; try lia.
  destruct tr as [|o tr'].
  - exists g1, w1. rewrite count_syn_cons, count_ack_cons. subst w1. simpl.
    split; [exact Ho|]. unfold count_syn, count_ack. simpl. auto with lia.
  - destruct (observe_config _ _ _ _ _ _ _ Ho) as (Ec1 & Ec2 & Ec3).
    edestruct (IH g1 w1) as (g2 & w2 & Ho2 & E1 & E2 & E3); try done.
    + by subst w1.
    + subst w1. simpl. by rewrite Ec1.
    + subst w1. simpl. destruct s; lia.
    + subst w1. simpl. destruct (negb s && a); lia.
    + lia.
    + exists g2, w2. rewrite Ec2, Ec3 in Ho2.
      rewrite count_syn_cons, count_ack_cons. subst w1. simpl in E1, E2.
      split; [|auto with lia].
      change (observe_all g src ((s, a, t) :: o :: tr'))
        with ('(g', _) ← observe g src s a t; observe_all g' src (o :: tr')).
      rewrite Ho. exact Ho2.
Qed.

(** The verdict of a run of observations of one source, all within
    one window that the first of them opens, is the one the counts of the
    whole run give: at least [syn_threshold] SYNs and more SYNs than
    [ack_ratio] times the ACKs.  No step of the run panics. *)
Theorem observe_all_flood g src s a t0 tr :
  windows g !! src = None →
  0 < window_ns g →
  Forall (λ o : obs, t0 ≤ o.2 < t0 + window_ns g) tr →
  zlen tr < u32_max → 0 ≤ flagged_sources g → flagged_sources g + zlen tr < u64_max →
  ∃ g', observe_all g src ((s, a, t0) :: tr) =
    Some (g', flood (syn_threshold g) (ack_ratio g) ((s, a, t0) :: tr)).
Proof.
  intros Hn Hwn Hall Hl Hf0 Hf.
  set (g0 := mkGuard (<[src := mkWindow 0 0 t0 true]> (windows g)) (window_ns g)
               (syn_threshold g) (ack_ratio g) (flagged_sources g)).
  assert (E : observe_all g src ((s, a, t0) :: tr) = observe_all g0 src ((s, a, t0) :: tr)).
  { assert (E1 : observe g src s a t0 = observe g0 src s a t0).
    { unfold observe, current_window. rewrite Hn. subst g0. simpl.
      rewrite lookup_insert_eq. simpl. unfold sat_sub.
      rewrite (proj2 (Z.leb_gt _ _)) by lia. simpl.
      destruct (count s a (mkWindow 0 0 t0 true)); [|done]. simpl.
      by rewrite insert_insert_eq. }
    destruct tr; [exact E1|]. simpl. by rewrite E1. }
  rewrite E.
  destruct (observe_all_live src ((s, a, t0) :: tr) g0 (mkWindow 0 0 t0 true))
    as (g' & w' & Ho & E1 & E2 & _).
  - done.
  - subst g0. simpl. apply lookup_insert_eq.
  - done.
  - subst g0. simpl. constructor; simpl; [unfold sat_sub; lia|].
    eapply Forall_impl; [exact Hall|]. simpl. unfold sat_sub. lia.
  - rewrite zlen_cons. simpl. lia.
  - rewrite zlen_cons. simpl. lia.
  - rewrite zlen_cons. subst g0. simpl. lia.
  - exists g'. rewrite Ho. f_equal. f_equal. unfold is_flagged, flood.
    rewrite E1, E2. done.
Qed.

Lemma observe_all_flood_witness :
  ∃ g', observe_all (guard_new 1000 3 4) 7 ((true, false, 0) :: [(true, false, 1); (true, false, 2)]) =
    Some (g', flood 3 4 ((true, false, 0) :: [(true, false, 1); (true, false, 2)])).
Proof.
  apply (observe_all_flood (guard_new 1000 3 4) 7 true false 0 [(true, false, 1); (true, false, 2)]);
    try reflexivity; try done.
  repeat constructor; simpl; lia.
Defined.

(** An observation of one source leaves the window of every other
    source as it was, so a flood from one address cannot change the verdict
    on another. *)
Theorem observe_isolated g src src' s a t g' v s' a' t' :
  src' ≠ src →
  observe g src s a t = Some (g', v) →
  flagged_sources g + 2 ≤ u64_max → flagged_sources g' + 2 ≤ u64_max →
  snd <$> observe g' src' s' a' t' = snd <$> observe g src' s' a' t'.
Proof.
  intros Hne Ho Hf Hf'.
  pose proof (observe_other _ _ _ _ _ _ _ _ Ho Hne) as E.
  destruct (observe_config _ _ _ _ _ _ _ Ho) as (E1 & E2 & E3).
  unfold observe. rewrite E, E1, E2, E3.
  destruct (count _ _ _); simpl; [|done].
  repeat match goal with |- context [if ?b then _ else _] => destruct b end;
    rewrite ?add_chk_ok by lia; done.
Qed.

Lemma observe_isolated_witness :
  ∃ g' v, observe (guard_new 1000 3 4) 7 true false 0 = Some (g', v) ∧
    (snd <$> observe g' 8 true false 5) = (snd <$> observe (guard_new 1000 3 4) 8 true false 5).
Proof.
  do 2 eexists. split; [reflexivity|].
  eapply (observe_isolated (guard_new 1000 3 4) 7 8 true false 0);
    [done|reflexivity|done|done].
Defined.

(** The counter [flagged_sources] is not the number of sources
    judged to be attacking: within one window a single source that is
    still flagged raises it again with every later ACK, and a source that
    is first flagged beyond the threshold never raises it. *)
Theorem flagged_sources_miscounts :
  (∃ g, observe_all (guard_new 1000 2 0) 7
          [(true, false, 0); (true, false, 1); (false, true, 2); (false, true, 3)] = Some (g, true)
        ∧ tracked_sources g = 1 ∧ flagged_sources g = 3) ∧
  (∃ g, observe_all (guard_new 1000 2 2) 7
          [(false, true, 0); (true, false, 1); (true, false, 2); (true, false, 3)] = Some (g, true)
        ∧ tracked_sources g = 1 ∧ flagged_sources g = 0).
Proof. split; eexists; (split; [vm_compute; reflexivity|]); split; reflexivity. Qed.
