(* ===== verification/ConnTrack.v ===== *)
(** * Connection tracking: an LRU table on a slab of linked nodes

    Models [crates/xdp-edge/src/conntrack.rs].  The table is a hash map
    from five-tuples to slab indices, a slab [Vec] of nodes linked in both
    directions by their [u32] indices with the sentinel [NIL], and a stack
    of free indices.  Every index into the slab is checked, so a result
    [None] is a panic of the source.

    [LruSpec] is what the table promises: a list of connections, most
    recently used first.  The section [Refinement] proves that every
    operation of the linked table behaves as the operation of the list and
    never panics. *)

From S2P Require Import Prelude XdpPacket.

Record ConnEntry := mkConnEntry {
  backend_ip : Z;
  last_seen_ns : Z
}.

Record Node := mkNode {
  n_key : FiveTuple;
  n_value : ConnEntry;
  n_prev : Z;
  n_next : Z;
  n_used : bool
}.

Definition NIL : Z := u32_max.

(** The stack [free] has its top first. *)
Record ConnTrack := mkConnTrack {
  ct_map : gmap FiveTuple Z;
  ct_nodes : list Node;
  ct_free : list Z;
  ct_head : Z;
  ct_tail : Z;
  ct_capacity : Z;
  ct_timeout_ns : Z;
  ct_evictions : Z
}.

(** [assert!(capacity > 0)] *)
Definition ct_new (capacity timeout_ns : Z) : option ConnTrack :=
  if 0 <? capacity
  then Some (mkConnTrack ∅ [] [] NIL NIL capacity timeout_ns 0)
  else None.

(** ** Field assignments of the source *)

Definition set_prev (p : Z) (n : Node) : Node :=
  mkNode (n_key n) (n_value n) p (n_next n) (n_used n).
Definition set_next (x : Z) (n : Node) : Node :=
  mkNode (n_key n) (n_value n) (n_prev n) x (n_used n).
Definition set_value (v : ConnEntry) (n : Node) : Node :=
  mkNode (n_key n) v (n_prev n) (n_next n) (n_used n).
Definition set_unused (n : Node) : Node :=
  mkNode (n_key n) (n_value n) (n_prev n) (n_next n) false.
Definition set_last_seen (t : Z) (e : ConnEntry) : ConnEntry :=
  mkConnEntry (backend_ip e) t.

Definition with_nodes (ns : list Node) (c : ConnTrack) : ConnTrack :=
  mkConnTrack (ct_map c) ns (ct_free c) (ct_head c) (ct_tail c)
    (ct_capacity c) (ct_timeout_ns c) (ct_evictions c).
Definition with_head (h : Z) (c : ConnTrack) : ConnTrack :=
  mkConnTrack (ct_map c) (ct_nodes c) (ct_free c) h (ct_tail c)
    (ct_capacity c) (ct_timeout_ns c) (ct_evictions c).
Definition with_tail (t : Z) (c : ConnTrack) : ConnTrack :=
  mkConnTrack (ct_map c) (ct_nodes c) (ct_free c) (ct_head c) t
    (ct_capacity c) (ct_timeout_ns c) (ct_evictions c).
Definition with_map (m : gmap FiveTuple Z) (c : ConnTrack) : ConnTrack :=
  mkConnTrack m (ct_nodes c) (ct_free c) (ct_head c) (ct_tail c)
    (ct_capacity c) (ct_timeout_ns c) (ct_evictions c).
Definition with_free (f : list Z) (c : ConnTrack) : ConnTrack :=
  mkConnTrack (ct_map c) (ct_nodes c) f (ct_head c) (ct_tail c)
    (ct_capacity c) (ct_timeout_ns c) (ct_evictions c).
Definition with_evictions (e : Z) (c : ConnTrack) : ConnTrack :=
  mkConnTrack (ct_map c) (ct_nodes c) (ct_free c) (ct_head c) (ct_tail c)
    (ct_capacity c) (ct_timeout_ns c) e.

(** [self.nodes[idx as usize].field = ...] *)
Definition mod_node (idx : Z) (f : Node → Node) (c : ConnTrack) : option ConnTrack :=
  nd ← vget (ct_nodes c) idx;
  ns ← vset (ct_nodes c) idx (f nd);
  Some (with_nodes ns c).

(** ** Slab and linked list *)

Definition alloc_node (key : FiveTuple) (value : ConnEntry) (c : ConnTrack)
    : option (ConnTrack * Z) :=
  let nd := mkNode key value NIL NIL true in
  match ct_free c with
  | idx :: free' =>
      ns ← vset (ct_nodes c) idx nd;
      Some (with_nodes ns (with_free free' c), idx)
  | [] =>
      Some (with_nodes (ct_nodes c ++ [nd]) c, zlen (ct_nodes c) mod 2 ^ 32)
  end.

Definition push_head (idx : Z) (c : ConnTrack) : option ConnTrack :=
  c ← mod_node idx (set_prev NIL) c;
  c ← mod_node idx (set_next (ct_head c)) c;
  c ← (if ct_head c =? NIL then Some c
       else mod_node (ct_head c) (set_prev idx) c);
  let c := with_head idx c in
  Some (if ct_tail c =? NIL then with_tail idx c else c).

Definition unlink (idx : Z) (c : ConnTrack) : option ConnTrack :=
  n ← vget (ct_nodes c) idx;
  let prev := n_prev n in
  let next := n_next n in
  c ← (if prev =? NIL then Some (with_head next c)
       else mod_node prev (set_next next) c);
  (if next =? NIL then Some (with_tail prev c)
   else mod_node next (set_prev prev) c).

Definition move_to_head (idx : Z) (c : ConnTrack) : option ConnTrack :=
  if ct_head c =? idx then Some c
  else c ← unlink idx c; push_head idx c.

Definition remove_at (idx : Z) (c : ConnTrack) : option ConnTrack :=
  c ← unlink idx c;
  n ← vget (ct_nodes c) idx;
  let c := with_map (delete (n_key n) (ct_map c)) c in
  c ← mod_node idx set_unused c;
  Some (with_free (idx :: ct_free c) c).

(** ** Operations of the table *)

Definition is_expired (timeout_ns now_ns : Z) (e : ConnEntry) : bool :=
  timeout_ns <? sat_sub now_ns (last_seen_ns e).

Definition ct_lookup (key : FiveTuple) (now_ns : Z) (c : ConnTrack)
    : option (ConnTrack * option ConnEntry) :=
  match ct_map c !! key with
  | None => Some (c, None)
  | Some idx =>
      n ← vget (ct_nodes c) idx;
      let entry := n_value n in
      if is_expired (ct_timeout_ns c) now_ns entry then
        c ← remove_at idx c; Some (c, None)
      else
        c ← mod_node idx (λ n, set_value (set_last_seen now_ns (n_value n)) n) c;
        c ← move_to_head idx c;
        Some (c, Some entry)
  end.

Definition ct_insert (key : FiveTuple) (value : ConnEntry) (c : ConnTrack)
    : option ConnTrack :=
  match ct_map c !! key with
  | Some idx =>
      c ← mod_node idx (set_value value) c;
      move_to_head idx c
  | None =>
      c ← (if ct_capacity c <=? Z.of_nat (size (ct_map c)) then
             let victim := ct_tail c in
             if victim =? NIL then None else
             ev ← add_chk u64_max (ct_evictions c) 1;
             remove_at victim (with_evictions ev c)
           else Some c);
      '(c, idx) ← alloc_node key value c;
      c ← push_head idx c;
      Some (with_map (<[key := idx]> (ct_map c)) c)
  end.

Definition ct_len (c : ConnTrack) : Z := Z.of_nat (size (ct_map c)).

Fixpoint remove_all (victims : list Z) (c : ConnTrack) : option ConnTrack :=
  match victims with
  | [] => Some c
  | idx :: vs => c ← remove_at idx c; remove_all vs c
  end.

(** The indices of the expired connections, in the map's iteration order. *)
Fixpoint collect_expired (now_ns : Z) (c : ConnTrack) (vals : list Z) : option (list Z) :=
  match vals with
  | [] => Some []
  | idx :: vs =>
      e ← vget (ct_nodes c) idx;
      rest ← collect_expired now_ns c vs;
      Some (if is_expired (ct_timeout_ns c) now_ns (n_value e) then idx :: rest else rest)
  end.

Definition sweep_expired `{!HashOrder FiveTuple Z} (now_ns : Z) (c : ConnTrack)
    : option (ConnTrack * Z) :=
  victims ← collect_expired now_ns c (hm_iter (ct_map c)).*2;
  c ← remove_all victims c;
  Some (c, zlen victims).

(** ** What the table promises *)

Module LruSpec.

(** Connections, most recently used first. *)
Record t := mk {
  entries : list (FiveTuple * ConnEntry);
  capacity : Z;
  timeout_ns : Z;
  evictions : Z
}.

Fixpoint find (key : FiveTuple) (l : list (FiveTuple * ConnEntry)) : option ConnEntry :=
  match l with
  | [] => None
  | (k, e) :: l' => if decide (k = key) then Some e else find key l'
  end.

Definition remove (key : FiveTuple) (l : list (FiveTuple * ConnEntry)) :=
  filter (λ p, p.1 ≠ key) l.

Definition lookup (key : FiveTuple) (now_ns : Z) (s : t) : t * option ConnEntry :=
  match find key (entries s) with
  | None => (s, None)
  | Some e =>
      if is_expired (timeout_ns s) now_ns e
      then (mk (remove key (entries s)) (capacity s) (timeout_ns s) (evictions s), None)
      else (mk ((key, set_last_seen now_ns e) :: remove key (entries s))
              (capacity s) (timeout_ns s) (evictions s), Some e)
  end.

Definition insert (key : FiveTuple) (value : ConnEntry) (s : t) : t :=
  match find key (entries s) with
  | Some _ => mk ((key, value) :: remove key (entries s))
                (capacity s) (timeout_ns s) (evictions s)
  | None =>
      if capacity s <=? zlen (entries s)
      then mk ((key, value) :: removelast (entries s))
             (capacity s) (timeout_ns s) (evictions s + 1)
      else mk ((key, value) :: entries s) (capacity s) (timeout_ns s) (evictions s)
  end.

Definition sweep (now_ns : Z) (s : t) : t * Z :=
  (mk (filter (λ p, is_expired (timeout_ns s) now_ns p.2 = false) (entries s))
     (capacity s) (timeout_ns s) (evictions s),
   zlen (filter (λ p, is_expired (timeout_ns s) now_ns p.2 = true) (entries s))).

End LruSpec.

(** ** The linked list on the slab *)

Definition hdd (d : Z) (l : list Z) : Z := default d (head l).
Definition lastd (d : Z) (l : list Z) : Z := default d (last l).

(** An element of the represented list: its slab index, key and value. *)
Abbreviation cell := (Z * (FiveTuple * ConnEntry))%type.

(** The nodes of [xs] are linked in order, between [p] and [nx]. *)
Fixpoint dseg (ns : list Node) (p : Z) (xs : list cell) (nx : Z) : Prop :=
  match xs with
  | [] => True
  | (i, (k, v)) :: t =>
      vget ns i = Some (mkNode k v p (hdd nx t.*1) true) ∧ dseg ns i t nx
  end.

Definition dlist (c : ConnTrack) (xs : list cell) : Prop :=
  dseg (ct_nodes c) NIL xs NIL ∧
  ct_head c = hdd NIL xs.*1 ∧ ct_tail c = lastd NIL xs.*1.

(** Link updates keep everything but the links. *)
Definition same_frame (c c' : ConnTrack) : Prop :=
  ct_map c' = ct_map c ∧ ct_free c' = ct_free c ∧ ct_capacity c' = ct_capacity c ∧
  ct_timeout_ns c' = ct_timeout_ns c ∧ ct_evictions c' = ct_evictions c ∧
  zlen (ct_nodes c') = zlen (ct_nodes c).

Lemma hdd_app d (l k : list Z) : hdd d (l ++ k) = hdd (hdd d k) l.
Proof. by destruct l. Qed.

Lemma lastd_snoc d (l : list Z) x : lastd d (l ++ [x]) = x.
Proof. unfold lastd. by rewrite last_snoc. Qed.

Lemma lastd_cons d x (l : list Z) : lastd d (x :: l) = lastd x l.
Proof. unfold lastd. rewrite last_cons. by destruct (last l). Qed.

Lemma lastd_app d (l k : list Z) : lastd d (l ++ k) = lastd (lastd d l) k.
Proof. unfold lastd. rewrite last_app. by destruct (last k). Qed.

Lemma dseg_app ns p xs ys nx :
  dseg ns p (xs ++ ys) nx ↔
  dseg ns p xs (hdd nx ys.*1) ∧ dseg ns (lastd p xs.*1) ys nx.
Proof.
  revert p. induction xs as [|[i [k v]] xs IH]; intros p; simpl.
  - unfold lastd. simpl. tauto.
  - rewrite lastd_cons, fmap_app, hdd_app, IH. tauto.
Qed.

Lemma dseg_frame ns ns' p xs nx :
  (∀ i, i ∈ xs.*1 → vget ns' i = vget ns i) →
  dseg ns p xs nx → dseg ns' p xs nx.
Proof.
  revert p. induction xs as [|[i [k v]] xs IH]; intros p Hf; simpl in *; [done|].
  intros [Hn Hs]. split.
  - rewrite Hf by set_solver. done.
  - apply IH; [set_solver|done].
Qed.

Lemma dseg_lookup ns p xs nx i kv :
  dseg ns p xs nx → (i, kv) ∈ xs → ∃ nd, vget ns i = Some nd ∧
    n_key nd = kv.1 ∧ n_value nd = kv.2.
Proof.
  revert p. induction xs as [|[j [k v]] xs IH]; intros p; simpl; [set_solver|].
  intros [Hn Hs] [?|?]%elem_of_cons; simplify_eq; eauto.
Qed.

(** [mod_node] on an index in range is a single checked update. *)
Lemma mod_node_Some c i f nd :
  vget (ct_nodes c) i = Some nd →
  ∃ c', mod_node i f c = Some c' ∧ same_frame c c' ∧
    ct_head c' = ct_head c ∧ ct_tail c' = ct_tail c ∧
    (∀ j, 0 ≤ j → vget (ct_nodes c') j = if decide (i = j) then Some (f nd) else vget (ct_nodes c) j).
Proof.
  intros Hn. unfold mod_node. rewrite Hn. simpl.
  pose proof (vget_bound _ _ _ Hn) as Hb. rewrite vset_ok by done. simpl.
  eexists. split; [reflexivity|]. unfold same_frame. simpl. rewrite zlen_insert.
  repeat (split; [done|]). intros j Hj.
  eapply vget_vset; [by apply vset_ok|done].
Qed.

Lemma dseg_range ns p xs nx i :
  dseg ns p xs nx → i ∈ xs.*1 → 0 ≤ i < zlen ns.
Proof.
  intros Hs [[j kv] [-> Hin]]%list_elem_of_fmap.
  destruct (dseg_lookup _ _ _ _ _ _ Hs Hin) as (nd & Hn & _).
  by apply vget_bound in Hn.
Qed.

(** Redirecting the last node's [next], the first node's [prev]. *)
Lemma dseg_relink_next ns ns' p l j kv nx nx' nd :
  dseg ns p (l ++ [(j, kv)]) nx → NoDup (l ++ [(j, kv)]).*1 →
  vget ns j = Some nd →
  (∀ x, 0 ≤ x → vget ns' x = if decide (j = x) then Some (set_next nx' nd) else vget ns x) →
  dseg ns' p (l ++ [(j, kv)]) nx'.
Proof.
  destruct kv as [k v]. rewrite fmap_app. intros Hs Hnd Hj Hf.
  pose proof Hs as Hs0. apply dseg_app in Hs as [Hl Hn]. apply dseg_app. simpl in *.
  destruct Hn as [Hn _]. rewrite Hj in Hn. simplify_eq.
  pose proof (vget_bound _ _ _ Hj).
  split; [|split; [|done]].
  - eapply dseg_frame; [|exact Hl]. intros x Hx.
    pose proof (dseg_range _ _ _ _ _ Hl Hx).
    rewrite Hf by lia. rewrite decide_False; [done|]. intros ->.
    apply NoDup_app in Hnd as (_ & Hd & _). set_solver.
  - rewrite Hf, decide_True by lia || done. done.
Qed.

Lemma dseg_relink_prev ns ns' p p' j kv l nx nd :
  dseg ns p ((j, kv) :: l) nx → NoDup ((j, kv) :: l).*1 →
  vget ns j = Some nd →
  (∀ x, 0 ≤ x → vget ns' x = if decide (j = x) then Some (set_prev p' nd) else vget ns x) →
  dseg ns' p' ((j, kv) :: l) nx.
Proof.
  destruct kv as [k v]. simpl. intros [Hn Hl] [Hni Hnd]%NoDup_cons Hj Hf.
  rewrite Hj in Hn. simplify_eq. pose proof (vget_bound _ _ _ Hj).
  split.
  - rewrite Hf, decide_True by lia || done. done.
  - eapply dseg_frame; [|exact Hl]. intros x Hx.
    pose proof (dseg_range _ _ _ _ _ Hl Hx).
    rewrite Hf by lia. rewrite decide_False; [done|]. by intros ->.
Qed.

Lemma same_frame_refl c : same_frame c c.
Proof. by repeat split. Qed.

Lemma same_frame_trans a b c : same_frame a b → same_frame b c → same_frame a c.
Proof. intros (?&?&?&?&?&?) (?&?&?&?&?&?). repeat split; congruence. Qed.

#[export] Hint Resolve same_frame_refl same_frame_trans : wire.

Lemma push_head_dlist c xs i k v p0 n0 :
  dlist c xs → zlen (ct_nodes c) ≤ NIL → NoDup xs.*1 → i ∉ xs.*1 →
  vget (ct_nodes c) i = Some (mkNode k v p0 n0 true) →
  ∃ c', push_head i c = Some c' ∧ dlist c' ((i, (k, v)) :: xs) ∧ same_frame c c'.
Proof.
  intros (Hs & Hh & Ht) Hz Hnd Hni Hn. unfold push_head.
  pose proof (vget_bound _ _ _ Hn) as Hb.
  destruct (mod_node_Some c i (set_prev NIL) _ Hn) as (c1 & -> & F1 & H1 & T1 & G1). simpl.
  assert (Hn1 : vget (ct_nodes c1) i = Some (mkNode k v NIL n0 true)).
  { rewrite G1 by lia. by rewrite decide_True. }
  destruct (mod_node_Some c1 i (set_next (ct_head c1)) _ Hn1) as (c2 & -> & F2 & H2 & T2 & G2). simpl.
  assert (Hn2 : vget (ct_nodes c2) i = Some (mkNode k v NIL (ct_head c) true)).
  { rewrite G2 by lia. rewrite decide_True by done. by rewrite H1. }
  assert (Hs2 : dseg (ct_nodes c2) NIL xs NIL).
  { eapply dseg_frame; [|exact Hs]. intros x Hx. pose proof (dseg_range _ _ _ _ _ Hs Hx).
    rewrite G2, G1 by lia. by rewrite !decide_False by (intros ->; done). }
  assert (F12 : same_frame c c2) by eauto with wire.
  destruct xs as [|[j [kj vj]] xs'].
  - unfold hdd, lastd in *. simpl in *.
    rewrite H2, H1, Hh, Z.eqb_refl. simpl. rewrite T2, T1, Ht, Z.eqb_refl.
    eexists. split; [reflexivity|]. split; [|exact F12].
    split; [|done]. simpl. rewrite Hn2, Hh. done.
  - assert (Hj : j ≠ NIL ∧ 0 ≤ j).
    { pose proof (dseg_range _ _ _ _ j Hs ltac:(set_solver)). lia. }
    assert (Ht' : ct_tail c ≠ NIL).
    { rewrite Ht. intros E.
      assert (Hin : lastd NIL ((j, (kj, vj)) :: xs').*1 ∈ ((j, (kj, vj)) :: xs').*1).
      { unfold lastd. destruct (last _) eqn:El; simpl.
        - by apply last_Some_elem_of.
        - by apply last_None in El. }
      pose proof (dseg_range _ _ _ _ _ Hs Hin). lia. }
    unfold hdd in Hh. simpl in Hh. rewrite H2, H1, Hh.
    rewrite (proj2 (Z.eqb_neq j NIL)) by tauto.
    destruct Hs2 as [Hj2 Hs2].
    destruct (mod_node_Some c2 j (set_prev i) _ Hj2) as (c3 & -> & F3 & H3 & T3 & G3). simpl.
    rewrite T3, T2, T1, (proj2 (Z.eqb_neq _ NIL)) by done.
    eexists. split; [reflexivity|]. split; [|eauto with wire].
    assert (Hij : j ≠ i) by (intros ->; set_solver).
    split; [split|split].
    + simpl. rewrite G3 by lia. rewrite decide_False, Hn2, Hh by done. done.
    + change (dseg (ct_nodes c3) i ((j, (kj, vj)) :: xs') NIL).
      eapply dseg_relink_prev; [split; [exact Hj2|exact Hs2]|exact Hnd|exact Hj2|exact G3].
    + done.
    + simpl. by rewrite T3, T2, T1, Ht.
Qed.

(** The neighbours of a node in the middle of the list. *)
Lemma dseg_mid ns p l1 i k v l2 nx :
  dseg ns p (l1 ++ (i, (k, v)) :: l2) nx →
  vget ns i = Some (mkNode k v (lastd p l1.*1) (hdd nx l2.*1) true) ∧
  dseg ns p l1 i ∧ dseg ns i l2 nx.
Proof. intros [H1 H2]%dseg_app. simpl in H2. tauto. Qed.

(** First half of [unlink]: the predecessor, or the head, skips [i]. *)
Lemma unlink_before c l1 i n1 :
  dseg (ct_nodes c) NIL l1 i → NoDup l1.*1 → zlen (ct_nodes c) ≤ NIL →
  ∃ c', (if lastd NIL l1.*1 =? NIL then Some (with_head n1 c)
         else mod_node (lastd NIL l1.*1) (set_next n1) c) = Some c' ∧
    dseg (ct_nodes c') NIL l1 n1 ∧ same_frame c c' ∧ ct_tail c' = ct_tail c ∧
    (ct_head c = hdd i l1.*1 → ct_head c' = hdd n1 l1.*1) ∧
    (∀ x, 0 ≤ x → x ∉ l1.*1 → vget (ct_nodes c') x = vget (ct_nodes c) x).
Proof.
  intros Hs Hnd Hz. destruct l1 as [|[j kj] l1' _] using rev_ind.
  - unfold lastd. simpl. exists (with_head n1 c). by repeat split.
  - rewrite fmap_app in *. simpl in *. rewrite lastd_snoc.
    assert (Hj : 0 ≤ j < zlen (ct_nodes c)).
    { eapply dseg_range; [exact Hs|]. rewrite fmap_app. set_solver. }
    rewrite (proj2 (Z.eqb_neq j NIL)) by lia.
    destruct (vget_lt_is_Some _ _ Hj) as [nd Hn].
    destruct (mod_node_Some c j (set_next n1) _ Hn) as (c1 & -> & F1 & H1 & T1 & G1).
    exists c1. split; [done|]. split; [|split; [done|split; [done|split]]].
    + eapply dseg_relink_next; [exact Hs| |exact Hn|exact G1]. by rewrite fmap_app.
    + rewrite H1, !hdd_app. by destruct l1'.
    + intros x Hx Hni. rewrite G1 by done. rewrite decide_False; [done|].
      intros ->. set_solver.
Qed.

(** Second half: the successor, or the tail, points back past it. *)
Lemma unlink_after c l2 p i :
  dseg (ct_nodes c) i l2 NIL → NoDup l2.*1 → zlen (ct_nodes c) ≤ NIL →
  ∃ c', (if hdd NIL l2.*1 =? NIL then Some (with_tail p c)
         else mod_node (hdd NIL l2.*1) (set_prev p) c) = Some c' ∧
    dseg (ct_nodes c') p l2 NIL ∧ same_frame c c' ∧ ct_head c' = ct_head c ∧
    (ct_tail c = lastd i l2.*1 → ct_tail c' = lastd p l2.*1) ∧
    (∀ x, 0 ≤ x → x ∉ l2.*1 → vget (ct_nodes c') x = vget (ct_nodes c) x).
Proof.
  intros Hs Hnd Hz. destruct l2 as [|[j kj] l2'].
  - unfold hdd, lastd. simpl. exists (with_tail p c). by repeat split.
  - assert (Hj : 0 ≤ j < zlen (ct_nodes c)).
    { eapply dseg_range; [exact Hs|]. set_solver. }
    unfold hdd. simpl head. simpl default. rewrite (proj2 (Z.eqb_neq j NIL)) by lia.
    destruct (vget_lt_is_Some _ _ Hj) as [nd Hn].
    destruct (mod_node_Some c j (set_prev p) _ Hn) as (c1 & -> & F1 & H1 & T1 & G1).
    exists c1. split; [done|]. split; [|split; [done|split; [done|split]]].
    + eapply dseg_relink_prev; [exact Hs|exact Hnd|exact Hn|exact G1].
    + rewrite T1, fmap_cons, !lastd_cons. done.
    + intros x Hx Hni. rewrite G1 by done. rewrite decide_False; [done|].
      intros ->. set_solver.
Qed.

Lemma unlink_dlist c l1 i k v l2 :
  dlist c (l1 ++ (i, (k, v)) :: l2) → NoDup (l1 ++ (i, (k, v)) :: l2).*1 →
  zlen (ct_nodes c) ≤ NIL →
  ∃ c' nd, unlink i c = Some c' ∧ dlist c' (l1 ++ l2) ∧ same_frame c c' ∧
    vget (ct_nodes c') i = Some nd ∧ n_key nd = k ∧ n_value nd = v ∧ n_used nd = true.
Proof.
  intros (Hs & Hh & Ht) Hnd Hz. rewrite fmap_app in *. simpl in *.
  apply NoDup_app in Hnd as (Hnd1 & Hd & [Hni Hnd2]%NoDup_cons).
  destruct (dseg_mid _ _ _ _ _ _ _ _ Hs) as (Hn & Hs1 & Hs2).
  pose proof (vget_bound _ _ _ Hn) as Hb.
  unfold unlink. rewrite Hn. simpl.
  destruct (unlink_before c l1 i (hdd NIL l2.*1) Hs1 Hnd1 Hz)
    as (c1 & -> & D1 & F1 & T1 & H1 & G1). simpl.
  assert (Hs2' : dseg (ct_nodes c1) i l2 NIL).
  { eapply dseg_frame; [|exact Hs2]. intros x Hx.
    pose proof (dseg_range _ _ _ _ _ Hs2 Hx). apply G1; [lia|]. set_solver. }
  assert (Hz1 : zlen (ct_nodes c1) ≤ NIL) by (destruct F1 as (_&_&_&_&_&->); done).
  destruct (unlink_after c1 l2 (lastd NIL l1.*1) i Hs2' Hnd2 Hz1)
    as (c2 & -> & D2 & F2 & H2 & T2 & G2).
  exists c2. eexists. split; [done|]. split; [|split; [eauto with wire|]].
  - split; [|split].
    + apply dseg_app. split; [|done].
      eapply dseg_frame; [|exact D1]. intros x Hx.
      pose proof (dseg_range _ _ _ _ _ Hs1 Hx). apply G2; [lia|]. set_solver.
    + rewrite H2, fmap_app, hdd_app. apply H1. by rewrite Hh, hdd_app.
    + rewrite fmap_app. etrans; [apply T2|].
      * rewrite T1, Ht, lastd_app, lastd_cons. done.
      * by rewrite lastd_app.
  - rewrite G2, G1 by (set_solver || lia). rewrite Hn. done.
Qed.

(** ** The representation invariant *)

Record ct_inv (c : ConnTrack) (xs : list cell) : Prop := {
  inv_dlist : dlist c xs;
  inv_keys : NoDup xs.*2.*1;
  inv_map : ∀ k i, ct_map c !! k = Some i ↔ ∃ v, (i, (k, v)) ∈ xs;
  inv_slab : ct_free c ++ xs.*1 ≡ₚ seqZ 0 (zlen (ct_nodes c));
  inv_cap : zlen (ct_nodes c) ≤ ct_capacity c ≤ NIL;
  inv_pos : 0 < ct_capacity c
}.

Definition same_config (c c' : ConnTrack) : Prop :=
  ct_capacity c' = ct_capacity c ∧ ct_timeout_ns c' = ct_timeout_ns c ∧
  ct_evictions c' = ct_evictions c.

Lemma same_frame_config c c' : same_frame c c' → same_config c c'.
Proof. intros (?&?&?&?&?&?). by repeat split. Qed.

Lemma inv_ids c xs : ct_inv c xs → NoDup xs.*1.
Proof.
  intros H. eapply NoDup_app. rewrite (inv_slab _ _ H). apply NoDup_seqZ.
Qed.

Lemma inv_nodes_NIL c xs : ct_inv c xs → zlen (ct_nodes c) ≤ NIL.
Proof. intros H. pose proof (inv_cap _ _ H). lia. Qed.

Lemma inv_length c xs : ct_inv c xs → zlen (ct_free c) + zlen xs = zlen (ct_nodes c).
Proof.
  intros H. pose proof (Permutation_length (inv_slab _ _ H)) as E.
  rewrite length_app, length_fmap, length_seqZ in E. unfold zlen in *. lia.
Qed.

Definition pairs (xs : list cell) : list (FiveTuple * Z) := (λ x, (x.2.1, x.1)) <$> xs.

Lemma fst_pairs xs : (pairs xs).*1 = xs.*2.*1.
Proof. unfold pairs. rewrite <-!list_fmap_compose. by apply list_fmap_ext. Qed.

Lemma snd_pairs xs : (pairs xs).*2 = xs.*1.
Proof. unfold pairs. rewrite <-!list_fmap_compose. by apply list_fmap_ext. Qed.

Lemma inv_map_pairs c xs : ct_inv c xs → ct_map c = list_to_map (pairs xs).
Proof.
  intros H. apply map_eq. intros k. apply option_eq. intros i.
  rewrite (inv_map _ _ H), <-elem_of_list_to_map by (rewrite fst_pairs; apply (inv_keys _ _ H)).
  unfold pairs. rewrite list_elem_of_fmap. split.
  - intros [v Hv]. by exists (i, (k, v)).
  - intros ([j [k' v]] & E & Hin). simpl in E. simplify_eq. eauto.
Qed.

Lemma inv_iter c xs : ct_inv c xs → map_to_list (ct_map c) ≡ₚ pairs xs.
Proof.
  intros H. rewrite (inv_map_pairs _ _ H). apply map_to_list_to_map.
  rewrite fst_pairs. apply (inv_keys _ _ H).
Qed.

Lemma inv_size c xs : ct_inv c xs → ct_len c = zlen xs.
Proof.
  intros H. unfold ct_len, zlen. rewrite <-length_map_to_list, (inv_iter _ _ H).
  unfold pairs. by rewrite length_fmap.
Qed.

(** A key that is present sits at one place of the list. *)
Lemma inv_split c xs k i : ct_inv c xs → ct_map c !! k = Some i →
  ∃ l1 v l2, xs = l1 ++ (i, (k, v)) :: l2.
Proof.
  intros H [v Hv]%(inv_map _ _ H). apply list_elem_of_split in Hv as (l1 & l2 & ->). eauto.
Qed.

Lemma map_mid_ne l1 i k v l2 k' j v' :
  NoDup (l1 ++ (i, (k, v)) :: l2 : list cell).*2.*1 → (j, (k', v')) ∈ l1 ++ l2 → k' ≠ k.
Proof.
  rewrite !fmap_app. simpl. intros Hnd Hin ->.
  apply NoDup_app in Hnd as (_ & Hd & [Hni _]%NoDup_cons).
  apply elem_of_app in Hin as [Hin|Hin].
  - apply (Hd k); [|set_solver]. apply list_elem_of_fmap. exists (k, v').
    split; [done|]. apply list_elem_of_fmap. by exists (j, (k, v')).
  - apply Hni. apply list_elem_of_fmap. exists (k, v').
    split; [done|]. apply list_elem_of_fmap. by exists (j, (k, v')).
Qed.

Lemma keys_mid l1 x l2 :
  NoDup (l1 ++ x :: l2 : list cell).*2.*1 → NoDup (l1 ++ l2).*2.*1.
Proof.
  rewrite !fmap_app. simpl. intros (H1 & H2 & [_ H3]%NoDup_cons)%NoDup_app.
  apply NoDup_app. set_solver.
Qed.

Lemma remove_at_inv c l1 i k v l2 :
  ct_inv c (l1 ++ (i, (k, v)) :: l2) →
  ∃ c', remove_at i c = Some c' ∧ ct_inv c' (l1 ++ l2) ∧ same_config c c'.
Proof.
  intros H. pose proof (inv_ids _ _ H) as Hids. pose proof (inv_keys _ _ H) as Hk.
  destruct (unlink_dlist c l1 i k v l2 (inv_dlist _ _ H) Hids (inv_nodes_NIL _ _ H))
    as (c1 & nd & E1 & D1 & F1 & Hn1 & <- & <- & Hu).
  unfold remove_at. rewrite E1. simpl. rewrite Hn1. simpl.
  set (c2 := with_map _ c1).
  destruct (mod_node_Some c2 i set_unused nd Hn1) as (c3 & -> & F3 & H3 & T3 & G3). simpl.
  eexists. split; [reflexivity|].
  destruct F1 as (M1 & Fr1 & C1 & To1 & Ev1 & Z1), F3 as (M3 & Fr3 & C3 & To3 & Ev3 & Z3).
  subst c2. simpl in *. pose proof (inv_cap _ _ H). pose proof (inv_pos _ _ H).
  split; [|repeat split; simpl; congruence].
  destruct D1 as (S1 & Hh1 & Ht1).
  constructor; simpl.
  - split; [|split; simpl; congruence]. eapply dseg_frame; [|exact S1].
    intros x Hx. pose proof (dseg_range _ _ _ _ _ S1 Hx). rewrite G3 by lia.
    rewrite decide_False; [done|]. intros ->.
    rewrite !fmap_app in *. simpl in *. apply NoDup_app in Hids as (? & ? & [? ?]%NoDup_cons). set_solver.
  - by eapply keys_mid.
  - intros k' j. rewrite M3. simpl. rewrite M1, lookup_delete_Some, (inv_map _ _ H).
    split.
    + intros [Hne [v' Hin]]. exists v'. set_solver.
    + intros [v' Hin]. split; [|exists v'; set_solver].
      intros <-. by eapply (map_mid_ne _ _ _ _ _ _ _ _ Hk).
  - rewrite Fr3, Fr1, Z3, Z1, <-(inv_slab _ _ H), !fmap_app. simpl. solve_Permutation.
  - rewrite Z3, Z1, C3, C1. done.
  - rewrite C3, C1. done.
Qed.

Lemma mod_value_inv c l1 i k v l2 f v' :
  (∀ nd, n_value nd = v → f nd = set_value v' nd) →
  ct_inv c (l1 ++ (i, (k, v)) :: l2) →
  ∃ c', mod_node i f c = Some c' ∧ ct_inv c' (l1 ++ (i, (k, v')) :: l2) ∧ same_config c c'.
Proof.
  intros Hf H. pose proof (inv_ids _ _ H) as Hids.
  destruct (inv_dlist _ _ H) as (S & Hh & Ht).
  destruct (dseg_mid _ _ _ _ _ _ _ _ S) as (Hn & S1 & S2).
  destruct (mod_node_Some c i f _ Hn) as (c' & -> & F & H1 & T1 & G).
  exists c'. split; [done|]. split; [|by apply same_frame_config].
  rewrite Hf in G by done. pose proof (vget_bound _ _ _ Hn).
  destruct F as (M & Fr & C & To & Ev & Zn).
  rewrite fmap_app in Hids. simpl in Hids.
  apply NoDup_app in Hids as (_ & Hd & [Hni _]%NoDup_cons).
  assert (Hfr : ∀ x, x ∈ l1.*1 ++ l2.*1 → 0 ≤ x → vget (ct_nodes c') x = vget (ct_nodes c) x).
  { intros x Hx ?. rewrite G by lia. rewrite decide_False; [done|]. intros ->. set_solver. }
  constructor.
  - split; [|rewrite H1, T1, Hh, Ht, !fmap_app; done].
    apply dseg_app. simpl. split; [|split].
    + eapply dseg_frame; [|exact S1]. intros x Hx.
      pose proof (dseg_range _ _ _ _ _ S1 Hx). apply Hfr; [set_solver|lia].
    + rewrite G by lia. by rewrite decide_True.
    + eapply dseg_frame; [|exact S2]. intros x Hx.
      pose proof (dseg_range _ _ _ _ _ S2 Hx). apply Hfr; [set_solver|lia].
  - pose proof (inv_keys _ _ H) as Hk. rewrite !fmap_app in *. done.
  - intros k' j. rewrite M, (inv_map _ _ H). split; intros [v0 Hin].
    + apply elem_of_app in Hin as [?|[?|?]%elem_of_cons]; simplify_eq;
        [exists v0|exists v'|exists v0]; set_solver.
    + apply elem_of_app in Hin as [?|[?|?]%elem_of_cons]; simplify_eq;
        [exists v0|exists v|exists v0]; set_solver.
  - rewrite Fr, Zn, <-(inv_slab _ _ H), !fmap_app. done.
  - rewrite Zn, C. apply (inv_cap _ _ H).
  - rewrite C. apply (inv_pos _ _ H).
Qed.

Lemma move_to_head_inv c l1 i k v l2 :
  ct_inv c (l1 ++ (i, (k, v)) :: l2) →
  ∃ c', move_to_head i c = Some c' ∧ ct_inv c' ((i, (k, v)) :: l1 ++ l2) ∧ same_config c c'.
Proof.
  intros H. pose proof (inv_ids _ _ H) as Hids. pose proof (inv_nodes_NIL _ _ H) as Hz.
  unfold move_to_head. destruct (Z.eqb_spec (ct_head c) i) as [E|E].
  - exists c. split; [done|]. destruct (inv_dlist _ _ H) as (_ & Hh & _).
    destruct l1 as [|[j kj] l1]; [split; [done|by repeat split]|].
    unfold hdd in Hh. simpl in Hh. simplify_eq.
    rewrite <-app_comm_cons, fmap_cons, fmap_app in Hids.
    apply NoDup_cons in Hids as [Hni _]. set_solver.
  - destruct (unlink_dlist c l1 i k v l2 (inv_dlist _ _ H) Hids Hz)
      as (c1 & nd & -> & D1 & F1 & Hn1 & <- & <- & Hu). simpl.
    rewrite fmap_app in Hids. simpl in Hids.
    apply NoDup_app in Hids as (? & ? & [? ?]%NoDup_cons).
    destruct nd as [k0 v0 p0 n0 u0]. simpl in Hu. subst u0.
    destruct (push_head_dlist c1 (l1 ++ l2) i k0 v0 p0 n0 D1) as (c2 & -> & D2 & F2).
    + destruct F1 as (_&_&_&_&_&->). done.
    + rewrite fmap_app. apply NoDup_app. set_solver.
    + rewrite fmap_app. set_solver.
    + done.
    + exists c2. split; [done|].
      assert (F : same_frame c c2) by eauto with wire.
      split; [|by apply same_frame_config]. destruct F as (M & Fr & C & To & Ev & Zn).
      assert (P : (i, (k0, v0)) :: l1 ++ l2 ≡ₚ l1 ++ (i, (k0, v0)) :: l2) by solve_Permutation.
      constructor; simpl.
      * done.
      * pose proof (inv_keys _ _ H) as Hk. rewrite <-P in Hk. done.
      * intros k' j. rewrite M, (inv_map _ _ H). by setoid_rewrite P.
      * pose proof (inv_slab _ _ H) as Hs. rewrite <-P in Hs. by rewrite Fr, Zn.
      * rewrite Zn, C. apply (inv_cap _ _ H).
      * rewrite C. apply (inv_pos _ _ H).
Qed.

Lemma seqZ_snoc n : 0 ≤ n → seqZ 0 (n + 1) = seqZ 0 n ++ [n].
Proof.
  intros. rewrite seqZ_app by lia. f_equal.
Qed.

(** Allocating a node takes an index that no element uses. *)
Lemma alloc_node_inv c xs k v :
  ct_inv c xs → zlen xs < ct_capacity c →
  ∃ c' i, alloc_node k v c = Some (c', i) ∧ dlist c' xs ∧ i ∉ xs.*1 ∧
    vget (ct_nodes c') i = Some (mkNode k v NIL NIL true) ∧
    ct_free c' ++ i :: xs.*1 ≡ₚ seqZ 0 (zlen (ct_nodes c')) ∧
    zlen (ct_nodes c') ≤ ct_capacity c ∧ ct_map c' = ct_map c ∧ same_config c c'.
Proof.
  intros H Hlt. destruct (inv_dlist _ _ H) as (S & Hh & Ht).
  pose proof (inv_slab _ _ H) as P. pose proof (inv_cap _ _ H) as Hc.
  pose proof (inv_length _ _ H) as L. unfold alloc_node.
  destruct (ct_free c) as [|i fr] eqn:Ef.
  - unfold zlen in L at 1. simpl in L, P. pose proof (zlen_nonneg (ct_nodes c)).
    assert (Hi : zlen (ct_nodes c) mod 2 ^ 32 = zlen (ct_nodes c)).
    { apply Z.mod_small. unfold NIL, u32_max in Hc. lia. }
    rewrite Hi. do 2 eexists. split; [reflexivity|]. simpl. rewrite zlen_app.
    change (zlen [mkNode k v NIL NIL true]) with 1.
    assert (G : ∀ x, 0 ≤ x < zlen (ct_nodes c) →
      vget (ct_nodes c ++ [mkNode k v NIL NIL true]) x = vget (ct_nodes c) x).
    { intros x Hx. unfold vget, zlen in *. rewrite (proj2 (Z.leb_le 0 x)) by lia.
      apply lookup_app_l. lia. }
    repeat split.
    + eapply dseg_frame; [|exact S]. intros x Hx. apply G. by eapply dseg_range.
    + done.
    + done.
    + rewrite P. intros [??]%elem_of_seqZ. lia.
    + unfold vget, zlen. rewrite (proj2 (Z.leb_le _ _)) by lia.
      rewrite Nat2Z.id, lookup_app_r, Nat.sub_diag by lia. done.
    + rewrite Ef. simpl. rewrite P, seqZ_snoc by done. solve_Permutation.
    + lia.
  - assert (Hi : 0 ≤ i < zlen (ct_nodes c)).
    { cut (i ∈ seqZ 0 (zlen (ct_nodes c))); [intros ?%elem_of_seqZ; lia|]. rewrite <-P. set_solver. }
    assert (Hni : i ∉ xs.*1).
    { assert (Hnd : NoDup ((i :: fr) ++ xs.*1)) by (rewrite P; apply NoDup_seqZ).
      simpl in Hnd. apply NoDup_cons in Hnd as [? _]. set_solver. }
    rewrite vset_ok by done. simpl. do 2 eexists. split; [reflexivity|]. simpl.
    rewrite zlen_insert.
    assert (G : ∀ x, 0 ≤ x → vget (<[Z.to_nat i := mkNode k v NIL NIL true]> (ct_nodes c)) x =
        if decide (i = x) then Some (mkNode k v NIL NIL true) else vget (ct_nodes c) x).
    { intros x Hx. eapply vget_vset; [by apply vset_ok|done]. }
    repeat split; try done; try lia.
    + eapply dseg_frame; [|exact S]. intros x Hx. pose proof (dseg_range _ _ _ _ _ S Hx).
      simpl. rewrite G by lia. rewrite decide_False; [done|]. by intros ->.
    + rewrite G by lia. by rewrite decide_True.
    + rewrite <-P. solve_Permutation.
Qed.

(** ** Refinement *)

(** The linked table [c] represents the abstract table [s]. *)
Definition represents (c : ConnTrack) (s : LruSpec.t) : Prop :=
  ∃ xs, ct_inv c xs ∧ LruSpec.entries s = xs.*2 ∧
    LruSpec.capacity s = ct_capacity c ∧ LruSpec.timeout_ns s = ct_timeout_ns c ∧
    LruSpec.evictions s = ct_evictions c.

Lemma find_mid k (l1 : list cell) i v l2 :
  NoDup (l1 ++ (i, (k, v)) :: l2).*2.*1 →
  LruSpec.find k (l1 ++ (i, (k, v)) :: l2).*2 = Some v.
Proof.
  induction l1 as [|[j [k' v']] l1 IH]; simpl.
  - intros _. by rewrite decide_True.
  - intros [Hni Hnd]%NoDup_cons. rewrite decide_False; [by apply IH|].
    intros ->. apply Hni. rewrite !fmap_app. set_solver.
Qed.

Lemma find_None_iff k l : LruSpec.find k l = None ↔ k ∉ l.*1.
Proof.
  induction l as [|[k' v'] l IH]; simpl; [set_solver|].
  case_decide; set_solver.
Qed.

Lemma remove_mid k (l1 : list cell) i v l2 :
  NoDup (l1 ++ (i, (k, v)) :: l2).*2.*1 →
  LruSpec.remove k (l1 ++ (i, (k, v)) :: l2).*2 = (l1 ++ l2).*2.
Proof.
  intros Hnd.
  assert (Hall : ∀ l : list cell, (∀ j k' v', (j, (k', v')) ∈ l → k' ≠ k) →
    filter (λ p : FiveTuple * ConnEntry, p.1 ≠ k) l.*2 = l.*2).
  { intros l Hl. induction l as [|[j [k' v']] l IH]; [done|]. rewrite fmap_cons, filter_cons.
    rewrite decide_True by (apply (Hl j k' v'); set_solver). f_equal. apply IH.
    intros j0 k0 v0 ?. apply (Hl j0 k0 v0). set_solver. }
  unfold LruSpec.remove. rewrite !fmap_app, fmap_cons, filter_app, filter_cons.
  rewrite decide_False by (simpl; auto).
  rewrite !Hall; [done|..]; intros j k' v' Hin;
    apply (map_mid_ne _ _ _ _ _ _ j v' Hnd); set_solver.
Qed.

Lemma inv_absent c xs k : ct_inv c xs → ct_map c !! k = None → LruSpec.find k xs.*2 = None.
Proof.
  intros H Hn. apply find_None_iff. intros [[k' v] [E Hin]]%list_elem_of_fmap.
  apply list_elem_of_fmap in Hin as [[i kv] [E2 Hin]]. simpl in E, E2. subst.
  assert (Hs : ct_map c !! k' = Some i) by (apply (inv_map _ _ H); eauto). congruence.
Qed.

(** The table a constructor returns is empty. *)
Lemma ct_new_represents cap ttl :
  0 < cap ≤ NIL →
  ∃ c, ct_new cap ttl = Some c ∧ represents c (LruSpec.mk [] cap ttl 0).
Proof.
  intros. unfold ct_new. rewrite (proj2 (Z.ltb_lt _ _)) by lia.
  eexists. split; [done|]. exists []. split; [|done].
  constructor; simpl; try done.
  - constructor.
  - intros k i. rewrite lookup_empty. set_solver.
  - unfold zlen. simpl. lia.
  - lia.
Qed.

Lemma ct_lookup_represents c s k now :
  represents c s →
  ∃ c', ct_lookup k now c = Some (c', (LruSpec.lookup k now s).2) ∧
    represents c' (LruSpec.lookup k now s).1.
Proof.
  intros (xs & H & E & Ec & Et & Ev). unfold ct_lookup, LruSpec.lookup. rewrite E, Et.
  destruct (ct_map c !! k) as [i|] eqn:Hm.
  - destruct (inv_split _ _ _ _ H Hm) as (l1 & v & l2 & ->).
    pose proof (inv_keys _ _ H) as Hk. rewrite (find_mid _ _ _ _ _ Hk), (remove_mid _ _ _ _ _ Hk).
    destruct (inv_dlist _ _ H) as (S & _).
    destruct (dseg_mid _ _ _ _ _ _ _ _ S) as (Hn & _). rewrite Hn. simpl.
    destruct (is_expired (ct_timeout_ns c) now v).
    + destruct (remove_at_inv _ _ _ _ _ _ H) as (c' & -> & H' & C1 & C2 & C3). simpl.
      exists c'. split; [done|]. exists (l1 ++ l2). simpl. split; [done|]. rewrite C1, C2, C3. done.
    + destruct (mod_value_inv c l1 i k v l2
        (λ n, set_value (set_last_seen now (n_value n)) n) (set_last_seen now v)) as (c1 & -> & H1 & C1 & C2 & C3);
        [by intros nd ->|done|]. simpl.
      destruct (move_to_head_inv _ _ _ _ _ _ H1) as (c2 & -> & H2 & D1 & D2 & D3). simpl.
      exists c2. split; [done|]. exists ((i, (k, set_last_seen now v)) :: l1 ++ l2). simpl.
      rewrite D1, D2, D3, C1, C2, C3. done.
  - rewrite (inv_absent _ _ _ H Hm). simpl. exists c. split; [done|]. by exists xs.
Qed.

(** Making room: the last element of the list goes. *)
Lemma evict_inv c xs :
  ct_inv c xs → ct_capacity c ≤ zlen xs → ct_evictions c < u64_max →
  ∃ c' xs', (if ct_tail c =? NIL then None else
     ev ← add_chk u64_max (ct_evictions c) 1; remove_at (ct_tail c) (with_evictions ev c)) = Some c' ∧
    ct_inv c' xs' ∧ xs'.*2 = removelast xs.*2 ∧ ct_capacity c' = ct_capacity c ∧
    ct_timeout_ns c' = ct_timeout_ns c ∧ ct_evictions c' = ct_evictions c + 1 ∧
    zlen xs' = zlen xs - 1 ∧ (∀ k, k ∉ xs.*2.*1 → k ∉ xs'.*2.*1).
Proof.
  intros H Hc He. pose proof (inv_pos _ _ H).
  destruct xs as [|[i [k v]] l1 _] using rev_ind; [unfold zlen in Hc; simpl in Hc; lia|].
  destruct (inv_dlist _ _ H) as (S & _ & Ht). rewrite fmap_app in Ht. simpl in Ht.
  rewrite lastd_snoc in Ht.
  assert (Hi : 0 ≤ i < zlen (ct_nodes c)).
  { eapply dseg_range; [exact S|]. rewrite fmap_app. set_solver. }
  pose proof (inv_nodes_NIL _ _ H). rewrite Ht, (proj2 (Z.eqb_neq i NIL)) by lia.
  rewrite add_chk_ok by lia. simpl.
  assert (H' : ct_inv (with_evictions (ct_evictions c + 1) c) (l1 ++ (i, (k, v)) :: [])).
  { destruct H. by constructor. }
  destruct (remove_at_inv _ _ _ _ _ _ H') as (c' & -> & Hi' & C1 & C2 & C3).
  rewrite app_nil_r in Hi'. exists c', l1. simpl in *.
  rewrite !fmap_app. simpl. rewrite removelast_last, zlen_app.
  change (zlen [(i, (k, v))]) with 1. split_and!; try done; [lia|set_solver].
Qed.

Lemma fresh_insert_inv c xs k v :
  ct_inv c xs → zlen xs < ct_capacity c → k ∉ xs.*2.*1 →
  ∃ c' i, ('(c, idx) ← alloc_node k v c; c ← push_head idx c;
      Some (with_map (<[k := idx]> (ct_map c)) c)) = Some c' ∧
    ct_inv c' ((i, (k, v)) :: xs) ∧ same_config c c'.
Proof.
  intros H Hlt Hk.
  destruct (alloc_node_inv c xs k v H Hlt) as (c1 & i & -> & D1 & Hni & Hn & P & Hz & M & C1 & C2 & C3).
  pose proof (inv_cap _ _ H) as [_ Hcap].
  destruct (push_head_dlist c1 xs i k v NIL NIL D1) as (c2 & E2 & D2 & F2);
    [lia|by eapply inv_ids|done|done|]. simpl. rewrite E2. simpl.
  destruct F2 as (M2 & Fr2 & Ca2 & To2 & Ev2 & Zn2).
  do 2 eexists. split; [reflexivity|]. split; [|repeat split; simpl; congruence].
  constructor; simpl.
  - exact D2.
  - apply NoDup_cons. split; [done|apply (inv_keys _ _ H)].
  - intros k' j. rewrite M2, M. destruct (decide (k = k')) as [<-|Hne].
    + rewrite lookup_insert_eq. split.
      * intros [= <-]. exists v. set_solver.
      * intros [v' [?|Hin]%elem_of_cons]; [by simplify_eq|].
        destruct Hk. apply list_elem_of_fmap. exists (k, v'). split; [done|].
        apply list_elem_of_fmap. by exists (j, (k, v')).
    + rewrite lookup_insert_ne, (inv_map _ _ H) by done. split.
      * intros [v' ?]. exists v'. set_solver.
      * intros [v' [?|?]%elem_of_cons]; [by simplify_eq|]. eauto.
  - rewrite Fr2, Zn2. exact P.
  - rewrite Zn2, Ca2, C1. pose proof (inv_cap _ _ H). lia.
  - rewrite Ca2, C1. apply (inv_pos _ _ H).
Qed.

Lemma ct_insert_represents c s k v :
  represents c s → ct_evictions c < u64_max →
  ∃ c', ct_insert k v c = Some c' ∧ represents c' (LruSpec.insert k v s).
Proof.
  intros (xs & H & E & Ec & Et & Ev) He. unfold ct_insert, LruSpec.insert. rewrite E, Ec, Et, Ev.
  destruct (ct_map c !! k) as [i|] eqn:Hm.
  - destruct (inv_split _ _ _ _ H Hm) as (l1 & v0 & l2 & ->).
    pose proof (inv_keys _ _ H) as Hk. rewrite (find_mid _ _ _ _ _ Hk), (remove_mid _ _ _ _ _ Hk).
    destruct (mod_value_inv c l1 i k v0 l2 (set_value v) v) as (c1 & -> & H1 & C1 & C2 & C3);
      [done|done|]. simpl.
    destruct (move_to_head_inv _ _ _ _ _ _ H1) as (c2 & -> & H2 & D1 & D2 & D3).
    exists c2. split; [done|]. exists ((i, (k, v)) :: l1 ++ l2). simpl.
    rewrite D1, D2, D3, C1, C2, C3. done.
  - pose proof (inv_absent _ _ _ H Hm) as Hf. rewrite Hf. apply find_None_iff in Hf.
    fold (ct_len c). rewrite (inv_size _ _ H).
    replace (zlen xs.*2) with (zlen xs) by (unfold zlen; by rewrite length_fmap).
    destruct (Z.leb_spec (ct_capacity c) (zlen xs)).
    + destruct (evict_inv c xs H) as (c1 & xs1 & -> & H1 & E1 & C1 & C2 & C3 & L1 & K1); [done|done|].
      simpl. pose proof (inv_length _ _ H). pose proof (inv_cap _ _ H). pose proof (zlen_nonneg (ct_free c)).
      destruct (fresh_insert_inv c1 xs1 k v H1) as (c2 & i & -> & Hi2 & D1 & D2 & D3); [lia|auto|].
      exists c2. split; [done|]. exists ((i, (k, v)) :: xs1).
      split; [exact Hi2|]. split; [by rewrite fmap_cons, E1|]. simpl.
      rewrite D1, D2, D3, C1, C2, C3. done.
    + simpl. destruct (fresh_insert_inv c xs k v H) as (c2 & i & -> & Hi2 & D1 & D2 & D3); [done|done|].
      exists c2. split; [done|]. exists ((i, (k, v)) :: xs). simpl.
      rewrite D1, D2, D3. done.
Qed.

#[export] Instance ConnEntry_eq_dec : EqDecision ConnEntry.
Proof. solve_decision. Defined.

Lemma collect_expired_cells now c xs ys nx p :
  dseg (ct_nodes c) p xs nx → (∀ y, y ∈ ys → y ∈ xs) →
  collect_expired now c ys.*1 =
    Some (filter (λ y : cell, is_expired (ct_timeout_ns c) now y.2.2 = true) ys).*1.
Proof.
  intros Hs. induction ys as [|[i [k v]] ys IH]; intros Hin; [done|].
  destruct (dseg_lookup _ _ _ _ i (k, v) Hs) as (nd & Hn & Hk & Hv); [apply Hin; set_solver|].
  rewrite fmap_cons. simpl. rewrite Hn. simpl. rewrite IH by set_solver. simpl.
  rewrite filter_cons, Hv. simpl.
  destruct (is_expired _ _ v); [by rewrite decide_True|by rewrite decide_False].
Qed.

Lemma filter_mid_removed (z : cell) zs l1 l2 :
  NoDup (l1 ++ z :: l2) →
  filter (λ x, x ∉ z :: zs) (l1 ++ z :: l2) = filter (λ x, x ∉ zs) (l1 ++ l2).
Proof.
  intros Hnd. rewrite !filter_app, filter_cons, decide_False by set_solver.
  apply NoDup_app in Hnd as (_ & Hd & [Hni _]%NoDup_cons).
  f_equal; apply filter_ext_in; set_solver.
Qed.

Lemma remove_all_inv zs : ∀ c xs,
  ct_inv c xs → NoDup zs → (∀ z, z ∈ zs → z ∈ xs) →
  ∃ c', remove_all zs.*1 c = Some c' ∧ ct_inv c' (filter (λ x, x ∉ zs) xs) ∧ same_config c c'.
Proof.
  induction zs as [|[i [k v]] zs IH]; intros c xs H Hnd Hin.
  - exists c. simpl. rewrite filter_all_in by set_solver. by split_and!.
  - apply NoDup_cons in Hnd as [Hni Hnd].
    pose proof (Hin (i, (k, v)) ltac:(set_solver)) as Hz.
    apply list_elem_of_split in Hz as (l1 & l2 & ->).
    destruct (remove_at_inv _ _ _ _ _ _ H) as (c1 & E1 & H1 & C1 & C2 & C3).
    destruct (IH c1 (l1 ++ l2) H1 Hnd) as (c2 & E2 & H2 & D1 & D2 & D3).
    { intros z Hz. specialize (Hin z ltac:(set_solver)). set_solver. }
    exists c2. rewrite fmap_cons. simpl. rewrite E1. simpl. split; [done|].
    rewrite filter_mid_removed.
    + split; [done|]. repeat split; congruence.
    + eapply NoDup_fmap_1. apply (inv_ids _ _ H).
Qed.

Section Sweep.
Context `{!HashOrder FiveTuple Z}.

Lemma sweep_represents c s now :
  represents c s →
  ∃ c', sweep_expired now c = Some (c', (LruSpec.sweep now s).2) ∧
    represents c' (LruSpec.sweep now s).1.
Proof.
  intros (xs & H & E & Ec & Et & Ev). destruct (inv_dlist _ _ H) as (S & _).
  assert (P : (hm_iter (ct_map c)).*2 ≡ₚ xs.*1).
  { by rewrite (hm_iter_perm (ct_map c)), (inv_iter _ _ H), snd_pairs. }
  destruct (Permutation_map_inv _ _ P) as (ys & Ey & Py).
  unfold sweep_expired. rewrite Ey. change (map fst ys) with (ys.*1).
  rewrite (collect_expired_cells now c xs ys NIL NIL S) by (intros y; by rewrite Py). simpl.
  set (q := λ y : cell, is_expired (ct_timeout_ns c) now y.2.2 = true).
  destruct (remove_all_inv (filter q ys) c xs H) as (c' & -> & H' & C1 & C2 & C3).
  - apply NoDup_filter. rewrite <-Py. eapply NoDup_fmap_1. apply (inv_ids _ _ H).
  - intros z [_ Hz]%list_elem_of_filter. by rewrite Py.
  - simpl. exists c'. split.
    + do 2 f_equal. rewrite E, Et. unfold zlen. rewrite length_fmap, <-Py.
      by rewrite filter_fmap_comm, length_fmap.
    + exists (filter (λ x, x ∉ filter q ys) xs). split; [done|]. simpl.
      rewrite C1, C2, C3. split_and!; try done. rewrite E, Et.
      assert (Ef : filter (λ x, x ∉ filter q ys) xs =
                   filter (λ x : cell, is_expired (ct_timeout_ns c) now x.2.2 = false) xs).
      { apply filter_ext_in. intros x Hx.
        rewrite list_elem_of_filter, <-Py. subst q. simpl.
        destruct (is_expired _ now x.2.2); naive_solver. }
      by rewrite Ef, filter_fmap_comm.
Qed.

(** ** Sequences of operations *)

Inductive ct_op :=
  | OpLookup (key : FiveTuple) (now_ns : Z)
  | OpInsert (key : FiveTuple) (value : ConnEntry)
  | OpSweep (now_ns : Z).

Inductive ct_out :=
  | OutLookup (r : option ConnEntry)
  | OutInsert
  | OutSweep (n : Z).

Definition ct_step (op : ct_op) (c : ConnTrack) : option (ConnTrack * ct_out) :=
  match op with
  | OpLookup k now => '(c, r) ← ct_lookup k now c; Some (c, OutLookup r)
  | OpInsert k v => c ← ct_insert k v c; Some (c, OutInsert)
  | OpSweep now => '(c, n) ← sweep_expired now c; Some (c, OutSweep n)
  end.

Definition lru_step (op : ct_op) (s : LruSpec.t) : LruSpec.t * ct_out :=
  match op with
  | OpLookup k now => let '(s, r) := LruSpec.lookup k now s in (s, OutLookup r)
  | OpInsert k v => (LruSpec.insert k v s, OutInsert)
  | OpSweep now => let '(s, n) := LruSpec.sweep now s in (s, OutSweep n)
  end.

Fixpoint ct_run (ops : list ct_op) (c : ConnTrack) : option (ConnTrack * list ct_out) :=
  match ops with
  | [] => Some (c, [])
  | op :: ops' =>
      '(c, o) ← ct_step op c;
      '(c, os) ← ct_run ops' c;
      Some (c, o :: os)
  end.

Fixpoint lru_run (ops : list ct_op) (s : LruSpec.t) : LruSpec.t * list ct_out :=
  match ops with
  | [] => (s, [])
  | op :: ops' =>
      let '(s, o) := lru_step op s in
      let '(s, os) := lru_run ops' s in (s, o :: os)
  end.

Lemma lru_step_evictions op s :
  LruSpec.evictions s ≤ LruSpec.evictions (lru_step op s).1 ≤ LruSpec.evictions s + 1.
Proof.
  destruct op; simpl.
  - unfold LruSpec.lookup. repeat case_match; simplify_eq; simpl in *; simplify_eq; lia.
  - unfold LruSpec.insert. repeat case_match; simpl; lia.
  - lia.
Qed.

Lemma ct_step_represents op c s :
  represents c s → ct_evictions c < u64_max →
  ∃ c', ct_step op c = Some (c', (lru_step op s).2) ∧ represents c' (lru_step op s).1.
Proof.
  intros H He. destruct op as [k now|k v|now]; simpl.
  - destruct (ct_lookup_represents c s k now H) as (c' & -> & H'). simpl.
    destruct (LruSpec.lookup k now s). eauto.
  - destruct (ct_insert_represents c s k v H He) as (c' & -> & H'). simpl. eauto.
  - destruct (sweep_represents c s now H) as (c' & -> & H'). simpl. eauto.
Qed.

Lemma represents_timeout c s : represents c s → LruSpec.timeout_ns s = ct_timeout_ns c.
Proof. by intros (xs & _ & _ & _ & ? & _). Qed.

Lemma represents_evictions c s : represents c s → LruSpec.evictions s = ct_evictions c.
Proof. by intros (xs & _ & _ & _ & _ & ?). Qed.

Lemma ct_run_represents ops : ∀ c s,
  represents c s → ct_evictions c + zlen ops ≤ u64_max →
  ∃ c', ct_run ops c = Some (c', (lru_run ops s).2) ∧ represents c' (lru_run ops s).1.
Proof.
  induction ops as [|op ops IH]; intros c s H He; simpl; [eauto|].
  rewrite zlen_cons in He. pose proof (zlen_nonneg ops).
  destruct (ct_step_represents op c s H) as (c1 & -> & H1); [lia|].
  pose proof (lru_step_evictions op s) as Hev.
  destruct (lru_step op s) as [s1 o]. simpl in *.
  rewrite (represents_evictions _ _ H), (represents_evictions _ _ H1) in Hev.
  destruct (IH c1 s1 H1) as (c2 & -> & H2); [lia|].
  destruct (lru_run ops s1) as [s2 os]. simpl in *. eauto.
Qed.

(** [C1] Every sequence of lookups, insertions and sweeps on a new
    connection table runs to its end without a panic (no slab index out of
    range, no walk to [NIL], whatever order the hash map iterates in) and
    answers exactly as a list ordered by recency of use does; afterwards the
    linked slab still represents that list. *)
Theorem conntrack_refines_lru cap ttl ops :
  0 < cap ≤ NIL → zlen ops ≤ u64_max →
  ∃ c0 c, ct_new cap ttl = Some c0 ∧
    ct_run ops c0 = Some (c, (lru_run ops (LruSpec.mk [] cap ttl 0)).2) ∧
    represents c (lru_run ops (LruSpec.mk [] cap ttl 0)).1.
Proof.
  intros Hc Ho. destruct (ct_new_represents cap ttl Hc) as (c0 & E0 & H0).
  destruct (ct_run_represents ops c0 _ H0) as (c & E & H).
  - rewrite <-(represents_evictions _ _ H0). simpl. lia.
  - eauto.
Qed.

End Sweep.

Definition ex_key (p : Z) : FiveTuple := mkFiveTuple 167772161 167772162 p 80 PROTO_TCP.

Lemma conntrack_refines_lru_witness :
  ∃ c0 c, ct_new 3 1000 = Some c0 ∧
    @ct_run default_order [OpInsert (ex_key 1) (mkConnEntry 7 0); OpLookup (ex_key 1) 3; OpSweep 2000] c0 =
      Some (c, [OutInsert; OutLookup (Some (mkConnEntry 7 0)); OutSweep 1]) ∧
    represents c (lru_run [OpInsert (ex_key 1) (mkConnEntry 7 0); OpLookup (ex_key 1) 3; OpSweep 2000]
      (LruSpec.mk [] 3 1000 0)).1.
Proof.
  apply (@conntrack_refines_lru default_order 3 1000
    [OpInsert (ex_key 1) (mkConnEntry 7 0); OpLookup (ex_key 1) 3; OpSweep 2000]); by_eval.
Defined.

Lemma represents_size c s :
  represents c s → zlen (LruSpec.entries s) ≤ ct_capacity c ∧ ct_capacity c ≤ NIL.
Proof.
  intros (xs & H & E & _). pose proof (inv_length _ _ H). pose proof (inv_cap _ _ H).
  pose proof (zlen_nonneg (ct_free c)). rewrite E. unfold zlen in *. rewrite length_fmap. lia.
Qed.

(** A table that represents a list of connections never holds more of
    them than its capacity, and its slab never has more nodes. *)
Theorem conntrack_bounded c s :
  represents c s →
  ct_len c ≤ ct_capacity c ∧ zlen (ct_nodes c) ≤ ct_capacity c ∧
  ct_len c = zlen (LruSpec.entries s).
Proof.
  intros (xs & H & E & _). pose proof (inv_size _ _ H). pose proof (inv_length _ _ H).
  pose proof (inv_cap _ _ H). pose proof (zlen_nonneg (ct_free c)).
  split_and!; [lia|lia|]. rewrite E. unfold zlen. rewrite length_fmap. done.
Qed.

Lemma conntrack_bounded_witness :
  ∃ c, ct_new 3 1000 = Some c ∧ represents c (LruSpec.mk [] 3 1000 0) ∧ ct_len c ≤ ct_capacity c.
Proof.
  destruct (ct_new_represents 3 1000) as (c & E & H); [by_eval|].
  exists c. split; [exact E|]. split; [exact H|].
  exact (proj1 (conntrack_bounded c _ H)).
Defined.

(** A lookup after an insertion of the same key, while it is fresh. *)
Lemma lru_find_insert k v s : LruSpec.find k (LruSpec.entries (LruSpec.insert k v s)) = Some v.
Proof. unfold LruSpec.insert. repeat case_match; simpl; by rewrite decide_True. Qed.

Lemma lru_find_elem k e l : LruSpec.find k l = Some e → (k, e) ∈ l.
Proof.
  induction l as [|[k' e'] l IH]; simpl; [done|].
  case_decide; intros; simplify_eq; [by left|right; auto].
Qed.

Lemma elem_of_removelast {A} (x : A) l : x ∈ removelast l → x ∈ l.
Proof.
  induction l as [|y [|z l] IH]; simpl; [done|set_solver|]. rewrite !elem_of_cons. intros [->|?]; auto.
  right. apply elem_of_cons. simpl in IH. set_solver.
Qed.

Lemma lru_insert_timeout k v s : LruSpec.timeout_ns (LruSpec.insert k v s) = LruSpec.timeout_ns s.
Proof. unfold LruSpec.insert. by repeat case_match. Qed.

(** An inserted connection is found again with the backend it was
    inserted with, until it has been idle for longer than the timeout; past
    that it is reported as a miss. *)
Theorem conntrack_insert_lookup c s k v now :
  represents c s → ct_evictions c < u64_max →
  ∃ c1 c2, ct_insert k v c = Some c1 ∧
    ct_lookup k now c1 = Some (c2, if is_expired (ct_timeout_ns c) now v then None else Some v).
Proof.
  intros H He. destruct (ct_insert_represents c s k v H He) as (c1 & E1 & H1).
  destruct (ct_lookup_represents c1 _ k now H1) as (c2 & E2 & _).
  exists c1, c2. split; [done|]. rewrite E2. do 2 f_equal.
  unfold LruSpec.lookup. rewrite lru_find_insert, lru_insert_timeout.
  destruct H as (xs & _ & _ & _ & -> & _). by destruct (is_expired _ _ _).
Qed.

Lemma conntrack_insert_lookup_witness :
  ∃ c c1 c2, ct_new 3 1000 = Some c ∧ ct_insert (ex_key 9) (mkConnEntry 7 100) c = Some c1 ∧
    ct_lookup (ex_key 9) 500 c1 = Some (c2, Some (mkConnEntry 7 100)).
Proof.
  destruct (ct_new_represents 3 1000) as (c & E & H); [by_eval|].
  exists c. injection E as <-.
  destruct (conntrack_insert_lookup _ _ (ex_key 9) (mkConnEntry 7 100) 500 H) as (c1 & c2 & E1 & E2);
    [reflexivity|].
  exists c1, c2. split; [reflexivity|]. split; [exact E1|exact E2].
Defined.
