(* ===== verification/Maglev.v ===== *)
(** * Maglev consistent hashing

    Models [crates/xdp-edge/src/maglev.rs]: the 64-bit mixers, the primality
    test by trial division, the construction of the lookup table by turns
    ([build_lut]) and the table object the data plane reads.

    The loops run on fuel.  [is_prime] needs at most [sqrt n] turns; a
    search for a free slot visits at most [m] slots because, [m] being prime,
    a backend's probe sequence is a permutation of the slots; the outer loop
    fills at least one slot per round.  [build_lut_ok] proves that the fuel
    given here is enough. *)

From Stdlib Require Import Znumtheory.
From S2P Require Import Prelude XdpPacket.

(** ** Primality and hashing *)

(** [while i * i <= n { if n % i == 0 { return false; } i += 1; } true] *)
Fixpoint is_prime_loop (fuel : nat) (n i : Z) : option bool :=
  match fuel with
  | O => None
  | S fuel' =>
      if i * i <=? n then
        if n mod i =? 0 then Some false else is_prime_loop fuel' n (i + 1)
      else Some true
  end.

Definition is_prime (n : Z) : option bool :=
  if n <? 2 then Some false else is_prime_loop (Z.to_nat (Z.sqrt n)) n 2.

Definition mix64 (x : Z) : Z :=
  let x := Z.lxor x (Z.shiftr x 30) in
  let x := wrap64 (x * 0xbf58476d1ce4e5b9) in
  let x := Z.lxor x (Z.shiftr x 27) in
  let x := wrap64 (x * 0x94d049bb133111eb) in
  Z.lxor x (Z.shiftr x 31).

Definition hash_offset (backend m : Z) : Z :=
  mix64 (Z.lxor backend 0x9e3779b97f4a7c15) mod m.

Definition hash_skip (backend m : Z) : Z :=
  mix64 (Z.lxor backend 0xc2b2ae3d27d4eb4f) mod (m - 1) + 1.

Definition flow_hash (t : FiveTuple) : Z :=
  let x := Z.lor (Z.shiftl (src_ip t) 32) (dst_ip t) in
  let x := wrap64 (x * 0x100000001b3) in
  let x := Z.lxor x (Z.lor (Z.shiftl (src_port t) 16) (dst_port t)) in
  let x := Z.lxor x (Z.shiftl (protocol t) 48) in
  mix64 x.

(** ** Construction of the table *)

(** The slot the cursor [nx] of a backend points at. *)
Definition probe (m off skip nx : Z) : Z := wrap64 (off + wrap64 (nx * skip)) mod m.

(** The inner [loop]: along the backend's sequence to the next free slot. *)
Fixpoint find_slot (fuel : nat) (m off skip : Z) (table : list Z) (nx : Z)
    : option (Z * Z) :=
  match fuel with
  | O => None
  | S fuel' =>
      let c := probe m off skip nx in
      nx ← add_chk u64_max nx 1;
      v ← vget table c;
      if v =? u32_max then Some (c, nx) else find_slot fuel' m off skip table nx
  end.

Record lut_state := mkLut {
  lt_table : list Z;
  lt_next : list Z;
  lt_filled : Z
}.

(** One pass of [for i in 0..n], leaving when the table is full. *)
Fixpoint lut_round (m : Z) (perms : list (Z * Z)) (i : Z) (st : lut_state)
    : option lut_state :=
  match perms with
  | [] => Some st
  | (off, skip) :: perms' =>
      nx ← vget (lt_next st) i;
      '(c, nx) ← find_slot (Z.to_nat m) m off skip (lt_table st) nx;
      table ← vset (lt_table st) c (i mod 2 ^ 32);
      next ← vset (lt_next st) i nx;
      let st := mkLut table next (lt_filled st + 1) in
      if lt_filled st =? m then Some st else lut_round m perms' (i + 1) st
  end.

(** [while filled < m] *)
Fixpoint lut_fill (fuel : nat) (m : Z) (perms : list (Z * Z)) (st : lut_state)
    : option lut_state :=
  if lt_filled st <? m then
    match fuel with
    | O => None
    | S fuel' => st ← lut_round m perms 0 st; lut_fill fuel' m perms st
    end
  else Some st.

Definition perms_of (m : Z) (backends : list Z) : list (Z * Z) :=
  (λ b, (hash_offset b m, hash_skip b m)) <$> backends.

Definition build_lut (m : Z) (backends : list Z) : option (list Z) :=
  p ← is_prime m;
  if negb p then None else
  if bool_decide (backends = []) then None else
  st ← lut_fill (Z.to_nat m) m (perms_of m backends)
         (mkLut (replicate (Z.to_nat m) u32_max) (replicate (length backends) 0) 0);
  Some (lt_table st).

(** ** The table object *)

Record Maglev := mkMaglev {
  mg_m : Z;
  mg_table : list Z;
  mg_backends : list Z
}.

Definition mg_new (m : Z) : option Maglev :=
  p ← is_prime m;
  if negb p then None else Some (mkMaglev m (replicate (Z.to_nat m) u32_max) []).

Definition mg_rebuild (backends : list Z) (g : Maglev) : option Maglev :=
  table ← build_lut (mg_m g) backends;
  Some (mkMaglev (mg_m g) table backends).

(** The two assertions of [load_table], then the switch. *)
Definition mg_load_table (backends table : list Z) (g : Maglev) : option Maglev :=
  if negb (zlen table =? mg_m g) then None else
  if forallb (λ v, v <? zlen backends) table
  then Some (mkMaglev (mg_m g) table backends) else None.

Definition mg_lookup (flow_key : Z) (g : Maglev) : option Z :=
  v ← vget (mg_table g) (flow_key mod mg_m g);
  vget (mg_backends g) v.

Fixpoint count_slots (table counts : list Z) : option (list Z) :=
  match table with
  | [] => Some counts
  | v :: table' =>
      c ← vget counts v;
      counts ← vset counts v (c + 1);
      count_slots table' counts
  end.

Definition mg_slot_counts (g : Maglev) : option (list Z) :=
  count_slots (mg_table g) (replicate (length (mg_backends g)) 0).

(** ** The primality test *)

(** A number without divisor up to its square root is prime. *)
Lemma prime_of_no_divisor n i :
  2 ≤ n → n < i * i → 2 ≤ i → (∀ d, 2 ≤ d < i → ¬ (d | n)) → prime n.
Proof.
  intros Hn Hi Hi2 Hd. apply prime_alt. split; [lia|].
  intros d Hdn [q Hq]. assert (2 ≤ q < n) by nia.
  destruct (Z.lt_ge_cases d i).
  - apply (Hd d); [lia|]. by exists q.
  - apply (Hd q); [nia|]. exists d. lia.
Qed.

Lemma is_prime_loop_spec fuel n i :
  2 ≤ i → 2 ≤ n → Z.sqrt n + 2 ≤ Z.of_nat fuel + i →
  (∀ d, 2 ≤ d < i → ¬ (d | n)) → i ≤ Z.sqrt n + 1 →
  ∃ b, is_prime_loop fuel n i = Some b ∧ (b = true ↔ prime n).
Proof.
  revert i. induction fuel as [|fuel IH]; intros i Hi Hn Hf Hd Hs; [lia|]. simpl.
  pose proof (Z.sqrt_spec n ltac:(lia)) as Hsq. simpl in Hsq.
  destruct (Z.leb_spec (i * i) n).
  - destruct (Z.eqb_spec (n mod i) 0) as [E|E].
    + exists false. split; [done|]. split; [done|]. intros [_ Hp]%prime_alt.
      exfalso. apply (Hp i); [nia|]. by apply Z.mod_divide; [lia|].
    + apply IH; [lia|lia|lia| |].
      * intros d Hd2. destruct (decide (d = i)) as [->|]; [|apply Hd; lia].
        intros Hdv%Z.mod_divide; [done|lia].
      * assert (i ≤ Z.sqrt n) by (apply Z.sqrt_le_square; lia). lia.
  - exists true. split; [done|]. split; [|done]. intros _. by eapply prime_of_no_divisor.
Qed.

Lemma is_prime_spec n : ∃ b, is_prime n = Some b ∧ (b = true ↔ prime n).
Proof.
  unfold is_prime. destruct (Z.ltb_spec n 2).
  - exists false. split; [done|]. split; [done|]. intros ?%prime_ge_2. lia.
  - assert (1 ≤ Z.sqrt n) by (apply Z.sqrt_le_square; lia).
    apply is_prime_loop_spec; lia.
Qed.

Lemma is_prime_sound n : is_prime n = Some true → prime n.
Proof. destruct (is_prime_spec n) as (b & -> & Hb). intros. simplify_eq. tauto. Qed.

(** The trial-division test terminates on every input and accepts
    exactly the primes. *)
Theorem is_prime_correct n : is_prime n = Some true ↔ prime n.
Proof. destruct (is_prime_spec n) as (b & -> & <-). split; congruence. Qed.

(** ** Probe sequences are permutations *)

Lemma probe_nowrap m off skip nx :
  0 < m ≤ 2 ^ 32 → 0 ≤ off < m → 1 ≤ skip < m ∨ skip = 1 → 0 ≤ nx < m →
  probe m off skip nx = (off + nx * skip) mod m.
Proof.
  intros Hm Ho Hs Hn. unfold probe, wrap64.
  assert (0 ≤ nx * skip < 2 ^ 64 - 2 ^ 32).
  { destruct Hs as [Hs| ->]; [|nia].
    assert (nx * skip ≤ (m - 1) * (m - 1)) by nia. nia. }
  rewrite (Z.mod_small (nx * skip)) by lia. rewrite (Z.mod_small (off + _)) by lia. done.
Qed.

(** Every slot is on the sequence, within the first [m] probes. *)
Lemma probe_covers m off skip e :
  prime m → 1 ≤ skip < m → 0 ≤ e < m →
  ∃ j, 0 ≤ j < m ∧ (off + j * skip) mod m = e.
Proof.
  intros Hp Hs He. pose proof (prime_ge_2 _ Hp).
  assert (Hr : rel_prime skip m).
  { apply rel_prime_sym, prime_rel_prime; [done|]. intros ?%Z.divide_pos_le; lia. }
  destruct (rel_prime_bezout _ _ Hr) as [u v Huv].
  exists (((e - off) * u) mod m). split; [apply Z.mod_pos_bound; lia|].
  rewrite <-Z.add_mod_idemp_r, Z.mul_mod_idemp_l, Z.add_mod_idemp_r by lia.
  replace (off + (e - off) * u * skip) with (e + ((off - e) * v) * m)
    by (rewrite <-(Z.mul_assoc (e - off)), (ltac:(lia) : u * skip = 1 - v * m); ring).
  rewrite Z.mod_add by lia. by apply Z.mod_small.
Qed.

Lemma hash_skip_range b m : 2 ≤ m → 1 ≤ hash_skip b m < m ∨ hash_skip b m = 1.
Proof.
  intros. unfold hash_skip. destruct (decide (m = 2)) as [->|].
  - right. by rewrite Z.mod_1_r.
  - left. pose proof (Z.mod_pos_bound (mix64 (Z.lxor b 0xc2b2ae3d27d4eb4f)) (m - 1) ltac:(lia)). lia.
Qed.

Lemma hash_skip_range' b m : 2 ≤ m → 1 ≤ hash_skip b m < m.
Proof. intros. destruct (hash_skip_range b m) as [?| ->]; lia. Qed.

Lemma hash_offset_range b m : 0 < m → 0 ≤ hash_offset b m < m.
Proof. intros. by apply Z.mod_pos_bound. Qed.

(** ** Occurrences in the table *)

Definition cnt (x : Z) (l : list Z) : Z := zlen (filter (λ y, y = x) l).

Lemma cnt_cons x y l : cnt x (y :: l) = cnt x l + (if decide (y = x) then 1 else 0).
Proof. unfold cnt. rewrite filter_cons. case_decide; rewrite ?zlen_cons; lia. Qed.

Lemma cnt_insert x l i old new :
  l !! i = Some old →
  cnt x (<[i := new]> l) =
    cnt x l - (if decide (old = x) then 1 else 0) + (if decide (new = x) then 1 else 0).
Proof.
  revert i. induction l as [|y l IH]; intros [|i] Hl; simpl in *; simplify_eq.
  - rewrite !cnt_cons. lia.
  - rewrite !cnt_cons, (IH _ Hl). lia.
Qed.

Lemma cnt_replicate_eq x n : cnt x (replicate n x) = Z.of_nat n.
Proof. induction n as [|n IH]; simpl; [done|]. rewrite cnt_cons, decide_True, IH by done. lia. Qed.

Lemma cnt_replicate_ne x y n : y ≠ x → cnt x (replicate n y) = 0.
Proof. intros. induction n as [|n IH]; simpl; [done|]. rewrite cnt_cons, decide_False, IH by done. lia. Qed.

Lemma cnt_pos x l : 0 < cnt x l → ∃ i, l !! i = Some x.
Proof.
  induction l as [|y l IH]; [done|]. rewrite cnt_cons. case_decide as E.
  - intros. by exists 0%nat; subst.
  - intros. destruct IH as [i ?]; [lia|]. by exists (S i).
Qed.

Lemma cnt_zero x l i y : cnt x l = 0 → l !! i = Some y → y ≠ x.
Proof.
  revert i. induction l as [|z l IH]; intros [|i]; rewrite ?cnt_cons; intros Hc Hl; simpl in *; simplify_eq.
  - assert (0 ≤ cnt x l) by apply zlen_nonneg. case_decide; lia || done.
  - assert (0 ≤ cnt x l) by apply zlen_nonneg. eapply IH; [|done]. case_decide; lia.
Qed.

(** ** The invariant of the construction *)

Section Build.
Context (m : Z) (backends : list Z).
Context (Hprime : prime m) (Hm : m ≤ 2 ^ 32).
Context (Hne : backends ≠ []) (Hn : zlen backends ≤ u32_max).

Let n := zlen backends.
Let perms := perms_of m backends.

Local Lemma m_ge_2 : 2 ≤ m.
Proof. by apply prime_ge_2. Qed.

Local Lemma n_pos : 0 < n.
Proof.
  unfold n, zlen. destruct (decide (length backends = 0%nat)) as [E|]; [|lia].
  by apply nil_length_inv in E.
Qed.

(** [visited table b nx]: the first [nx] slots of [b]'s sequence are taken. *)
Definition visited (table : list Z) (b nx : Z) : Prop :=
  ∀ j, 0 ≤ j < nx → ∃ v,
    vget table ((hash_offset b m + j * hash_skip b m) mod m) = Some v ∧ v ≠ u32_max.

(** About to serve backend [i] in round [r]. *)
Record lut_inv (r i : Z) (st : lut_state) : Prop := {
  li_len : zlen (lt_table st) = m;
  li_next_len : zlen (lt_next st) = n;
  li_vals : ∀ j v, lt_table st !! j = Some v → v = u32_max ∨ 0 ≤ v < n;
  li_filled : lt_filled st = r * n + i;
  li_empty : cnt u32_max (lt_table st) = m - lt_filled st;
  li_cnt : ∀ b, 0 ≤ b < n → cnt b (lt_table st) = r + (if decide (b < i) then 1 else 0);
  li_next : ∀ k b nx, backends !! k = Some b → lt_next st !! k = Some nx →
    0 ≤ nx ≤ m ∧ visited (lt_table st) b nx
}.

Lemma find_slot_ok fuel table b nx e j :
  zlen table = m → visited table b nx → 0 ≤ nx ≤ j → j < m →
  (hash_offset b m + j * hash_skip b m) mod m = e → vget table e = Some u32_max →
  j - nx < Z.of_nat fuel →
  ∃ c nx', find_slot fuel m (hash_offset b m) (hash_skip b m) table nx = Some (c, nx') ∧
    vget table c = Some u32_max ∧ nx < nx' ≤ m ∧ visited table b (nx' - 1) ∧
    c = (hash_offset b m + (nx' - 1) * hash_skip b m) mod m.
Proof.
  pose proof m_ge_2. revert nx. induction fuel as [|fuel IH];
    intros nx Hl Hv Hnx Hj He Hem Hf; [lia|]. simpl.
  rewrite probe_nowrap by first [lia | apply hash_offset_range; lia | apply hash_skip_range; lia].
  rewrite add_chk_ok by (unfold u64_max; lia). simpl.
  set (c := (hash_offset b m + nx * hash_skip b m) mod m).
  assert (Hc : 0 ≤ c < m) by (apply Z.mod_pos_bound; lia).
  destruct (vget_lt_is_Some table c) as [v Hv0]; [lia|]. rewrite Hv0. simpl.
  destruct (Z.eqb_spec v u32_max) as [->|Hne'].
  - exists c, (nx + 1). replace (nx + 1 - 1) with nx by lia. split_and!; try done; lia.
  - assert (nx ≠ j) by (intros ->; subst e c; congruence).
    destruct (IH (nx + 1)) as (c' & nx' & ? & ? & ? & ? & ?); try done; try lia.
    + intros j' Hj'. destruct (decide (j' = nx)) as [->|]; [eauto|]. apply Hv. lia.
    + exists c', nx'. split_and!; try done; lia.
Qed.

(** Serving one backend while a slot is free. *)
Lemma lut_turn r st k b :
  lut_inv r (Z.of_nat k) st → backends !! k = Some b → lt_filled st < m →
  ∃ nx c nx' table next,
    vget (lt_next st) (Z.of_nat k) = Some nx ∧
    find_slot (Z.to_nat m) m (hash_offset b m) (hash_skip b m) (lt_table st) nx = Some (c, nx') ∧
    vset (lt_table st) c (Z.of_nat k mod 2 ^ 32) = Some table ∧
    vset (lt_next st) (Z.of_nat k) nx' = Some next ∧
    lut_inv r (Z.of_nat k + 1) (mkLut table next (lt_filled st + 1)).
Proof.
  intros H Hb Hlt. pose proof m_ge_2.
  pose proof (lookup_lt_Some _ _ _ Hb) as Hk.
  assert (Hkn : 0 ≤ Z.of_nat k < n) by (unfold n, zlen; lia).
  destruct (vget_lt_is_Some (lt_next st) (Z.of_nat k)) as [nx Hnx];
    [rewrite (li_next_len _ _ _ H); done|].
  pose proof Hnx as [_ Hnx']%vget_Some. rewrite Nat2Z.id in Hnx'.
  destruct (li_next _ _ _ H k b nx Hb Hnx') as [Hr Hv].
  destruct (cnt_pos u32_max (lt_table st)) as [e He]; [rewrite (li_empty _ _ _ H); lia|].
  pose proof (lookup_lt_Some _ _ _ He) as Hel. pose proof (li_len _ _ _ H) as Hlen.
  destruct (probe_covers m (hash_offset b m) (hash_skip b m) (Z.of_nat e)) as (j & Hj & Ej);
    [done|by apply hash_skip_range'|unfold zlen in Hlen; lia|].
  assert (Hee : vget (lt_table st) (Z.of_nat e) = Some u32_max).
  { apply vget_Some. rewrite Nat2Z.id. split; [lia|done]. }
  assert (Hnj : nx ≤ j).
  { destruct (Z.lt_ge_cases j nx); [|lia]. destruct (Hv j) as (v & Hv1 & Hv2); [lia|].
    rewrite Ej, Hee in Hv1. congruence. }
  destruct (find_slot_ok (Z.to_nat m) (lt_table st) b nx (Z.of_nat e) j Hlen Hv) as (c & nx' & E1 & Hc & Hn' & Hv' & Ec);
    [lia|lia|exact Ej|exact Hee|lia|].
  pose proof (vget_bound _ _ _ Hc) as Hcb.
  assert (Hmod : Z.of_nat k mod 2 ^ 32 = Z.of_nat k).
  { apply Z.mod_small. unfold n, u32_max in *. lia. }
  rewrite Hmod. do 5 eexists.
  split; [exact Hnx|]. split; [exact E1|]. split; [by apply vset_ok|].
  split; [apply vset_ok; rewrite (li_next_len _ _ _ H); done|].
  pose proof Hc as [_ Hc']%vget_Some.
  constructor; simpl.
  - by rewrite zlen_insert.
  - rewrite zlen_insert. apply (li_next_len _ _ _ H).
  - intros j' v. rewrite list_lookup_insert_Some. intros [(_ & <- & _)|[_ ?]]; [by right|].
    by eapply (li_vals _ _ _ H).
  - rewrite (li_filled _ _ _ H). lia.
  - rewrite (cnt_insert _ _ _ _ _ Hc'), (li_empty _ _ _ H), decide_True by done.
    rewrite decide_False by (unfold n in *; lia). lia.
  - intros b' Hb'. rewrite (cnt_insert _ _ _ _ _ Hc'), (li_cnt _ _ _ H b' Hb').
    rewrite (decide_False (P := u32_max = b')) by (unfold n in *; lia).
    repeat case_decide; lia.
  - intros k' b0 nx0 Hb0. rewrite list_lookup_insert_Some, Nat2Z.id.
    assert (Hmono : ∀ b nx, visited (lt_table st) b nx →
      visited (<[Z.to_nat c:=Z.of_nat k]> (lt_table st)) b nx).
    { intros b1 nx1 Hv1 j1 Hj1. destruct (Hv1 j1 Hj1) as (v & Hv2 & Hv3).
      rewrite (vget_vset _ _ c _ (Z.of_nat k)) by first [by apply vset_ok | apply vget_bound in Hv2; lia].
      case_decide; [|eauto]. eexists. split; [done|]. unfold n in *; lia. }
    intros [(<- & <- & _)|[Hne' Hnx0]].
    + rewrite Hb in Hb0. injection Hb0 as <-. split; [lia|]. intros j' Hj'.
      destruct (decide (j' = nx' - 1)) as [->|].
      * rewrite <-Ec. exists (Z.of_nat k). split; [|unfold n in *; lia].
        rewrite (vget_vset _ _ c _ (Z.of_nat k)) by first [by apply vset_ok | lia]. by rewrite decide_True.
      * apply (Hmono _ _ Hv'). lia.
    + destruct (li_next _ _ _ H k' b0 nx0 Hb0 Hnx0). split; [done|]. by apply Hmono.
Qed.

(** A round serves each remaining backend once, or ends with a full table. *)
Lemma lut_round_ok r rest : ∀ k st,
  lut_inv r (Z.of_nat k) st → lt_filled st < m →
  drop k backends = rest →
  ∃ st', lut_round m (perms_of m rest) (Z.of_nat k) st = Some st' ∧
    ((lut_inv r n st' ∧ lt_filled st' < m) ∨
     (lt_filled st' = m ∧ ∃ i, 0 < i ≤ n ∧ lut_inv r i st') ∨ (rest = [] ∧ st' = st)).
Proof.
  induction rest as [|b rest IH]; intros k st H Hlt Hd; simpl.
  - eexists. split; [done|]. auto.
  - assert (Hb : backends !! k = Some b).
    { rewrite <-(Nat.add_0_r k), <-lookup_drop, Hd. done. }
    assert (Hd' : drop (S k) backends = rest).
    { rewrite <-Nat.add_1_r, <-drop_drop, Hd. done. }
    pose proof (lookup_lt_Some _ _ _ Hb) as Hk.
    destruct (lut_turn r st k b H Hb Hlt) as (nx & c & nx' & table & next & E1 & E2 & E3 & E4 & H').
    fold (perms_of m rest).
    rewrite E1. simpl. rewrite E2. simpl. rewrite E3. simpl. rewrite E4. simpl.
    assert (Hfill : lt_filled st + 1 ≤ m) by lia.
    destruct (Z.eqb_spec (lt_filled st + 1) m) as [Ef|Ef].
    + eexists. split; [done|]. right. left. split; [exact Ef|].
      exists (Z.of_nat k + 1). split; [unfold n, zlen; lia|exact H'].
    + replace (Z.of_nat k + 1) with (Z.of_nat (S k)) in * by lia.
      destruct (IH (S k) _ H') as (st' & -> & Hst'); [simpl; lia|done|].
      eexists. split; [done|]. destruct Hst' as [?|[?|[-> ->]]]; [by left|by right; left|].
      left. split; [|simpl; lia].
      replace n with (Z.of_nat (S k)); [exact H'|].
      apply (f_equal length) in Hd'. rewrite length_drop in Hd'. simpl in Hd'.
      unfold n, zlen. lia.
Qed.

Lemma lut_inv_next_round r st : lut_inv r n st → lut_inv (r + 1) 0 st.
Proof.
  intros H. constructor; try apply H.
  - rewrite (li_filled _ _ _ H). lia.
  - intros b Hb. rewrite (li_cnt _ _ _ H b Hb).
    rewrite decide_True, decide_False by lia. lia.
Qed.

Lemma lut_fill_ok fuel : ∀ r st,
  lut_inv r 0 st → lt_filled st ≤ m → m - lt_filled st ≤ Z.of_nat fuel →
  ∃ st' r' i, lut_fill fuel m perms st = Some st' ∧ lt_filled st' = m ∧
    0 ≤ i ≤ n ∧ lut_inv r' i st'.
Proof.
  pose proof n_pos as Hn0.
  induction fuel as [|fuel IH]; intros r st H Hle Hf; simpl.
  - rewrite (proj2 (Z.ltb_ge _ _)) by lia. exists st, r, 0. split_and!; done || lia.
  - destruct (Z.ltb_spec (lt_filled st) m); [|exists st, r, 0; split_and!; done || lia].
    destruct (lut_round_ok r backends 0 st H) as (st' & E & Hst'); [lia|done|].
    change (perms_of m backends) with perms in E. change (Z.of_nat 0) with 0 in E. rewrite E. simpl.
    destruct Hst' as [[H1 H2]|[[H1 (i & Hi & H2)]|[? _]]]; [| |done].
    + apply (IH (r + 1)); [by apply lut_inv_next_round|lia|].
      rewrite (li_filled _ _ _ H1). rewrite (li_filled _ _ _ H) in Hf. lia.
    + exists st', r, i. split_and!; try done; try lia.
      destruct fuel; simpl; by rewrite H1, Z.ltb_irrefl.
Qed.

Lemma build_lut_ok :
  ∃ table, build_lut m backends = Some table ∧ zlen table = m ∧
    (∀ v, v ∈ table → 0 ≤ v < n) ∧
    (∀ b, 0 ≤ b < n → cnt b table = m / n + (if decide (b < m mod n) then 1 else 0)).
Proof.
  pose proof m_ge_2. unfold build_lut.
  destruct (is_prime_spec m) as (p & -> & Hp). rewrite (proj2 Hp Hprime). simpl.
  rewrite bool_decide_eq_false_2 by done.
  set (st0 := mkLut _ _ _).
  assert (H0 : lut_inv 0 0 st0).
  { constructor; simpl.
    - unfold zlen. rewrite length_replicate. lia.
    - unfold n, zlen. by rewrite length_replicate.
    - intros j v [-> _]%lookup_replicate. by left.
    - lia.
    - rewrite cnt_replicate_eq. lia.
    - intros b Hb. rewrite cnt_replicate_ne by (unfold n in *; lia). case_decide; lia.
    - intros k b nx _ [-> _]%lookup_replicate. split; [lia|]. intros j ?. lia. }
  change (perms_of m backends) with perms.
  destruct (lut_fill_ok (Z.to_nat m) 0 st0 H0) as (st & r & i & -> & Ef & Hi & H1); [simpl; lia|simpl; lia|].
  simpl. eexists. split; [done|]. split; [apply (li_len _ _ _ H1)|].
  pose proof n_pos as Hn0.
  pose proof (li_filled _ _ _ H1) as Efi. split.
  - intros v [j Hj]%list_elem_of_lookup. destruct (li_vals _ _ _ H1 _ _ Hj) as [->|?]; [|done].
    exfalso. eapply cnt_zero; [|exact Hj|done]. rewrite (li_empty _ _ _ H1). lia.
  - intros b Hb. rewrite (li_cnt _ _ _ H1 b Hb).
    destruct (decide (i = n)) as [->|].
    + rewrite decide_True by lia.
      assert (E : m = (r + 1) * n) by lia. rewrite E, Z.div_mul, Z.mod_mul by lia.
      rewrite decide_False by lia. lia.
    + assert (E : m / n = r) by (symmetry; apply (Z.div_unique_pos m n r i); lia).
      assert (E' : m mod n = i) by (symmetry; apply (Z.mod_unique_pos m n r i); lia).
      rewrite E, E'. done.
Qed.

End Build.

Lemma build_lut_panics m backends : ¬ prime m ∨ backends = [] → build_lut m backends = None.
Proof.
  intros Hor. unfold build_lut. destruct (is_prime_spec m) as (p & -> & Hp). simpl.
  destruct p; simpl; [|done]. destruct Hor as [?| ->]; [tauto|]. done.
Qed.

(** [C26] For a table size within 32 bits and fewer than [u32::MAX]
    backends, building the lookup table succeeds exactly when the size is
    prime and there is a backend. *)
Theorem build_lut_total m backends :
  m ≤ 2 ^ 32 → zlen backends ≤ u32_max →
  is_Some (build_lut m backends) ↔ prime m ∧ backends ≠ [].
Proof.
  intros Hm Hn. split.
  - intros Hs. destruct (prime_dec m) as [Hp|Hp].
    + split; [done|]. intros ->. rewrite build_lut_panics in Hs by auto. by destruct Hs.
    + rewrite build_lut_panics in Hs by auto. by destruct Hs.
  - intros [Hp Hne]. destruct (build_lut_ok m backends Hp Hm Hne Hn) as (t & -> & _). done.
Qed.

Lemma build_lut_total_witness : is_Some (build_lut 11 [10; 20; 30]) ↔ prime 11 ∧ [10; 20; 30] ≠ [].
Proof. apply build_lut_total; by_eval. Defined.

(** A built table has one slot per residue, every slot holds the index of
    a backend, and the slots are balanced. *)
Lemma build_lut_balanced m backends table :
  m ≤ 2 ^ 32 → zlen backends ≤ u32_max → build_lut m backends = Some table →
  zlen table = m ∧ (∀ v, v ∈ table → 0 ≤ v < zlen backends) ∧
  ∀ b, 0 ≤ b < zlen backends →
    cnt b table = m / zlen backends + (if decide (b < m mod zlen backends) then 1 else 0).
Proof.
  intros Hm Hn Hb. assert (Hs : is_Some (build_lut m backends)) by eauto.
  assert (Hpn : prime m ∧ backends ≠ []).
  { destruct (prime_dec m) as [Hp|Hp], (decide (backends = [])) as [He|He]; [| by split| |];
      rewrite build_lut_panics in Hb by auto; done. }
  destruct (build_lut_ok m backends (proj1 Hpn) Hm (proj2 Hpn) Hn) as (t & E & H).
  rewrite E in Hb. by simplify_eq.
Qed.

(** ** The table object *)

(** Every slot can be looked up. *)
Definition mg_ok (g : Maglev) : Prop :=
  0 < mg_m g ∧ zlen (mg_table g) = mg_m g ∧
  ∀ v, v ∈ mg_table g → 0 ≤ v < zlen (mg_backends g).

Lemma mg_ok_lookup g key : mg_ok g → ∃ b, mg_lookup key g = Some b ∧ b ∈ mg_backends g.
Proof.
  intros (Hm & Hl & Hv). unfold mg_lookup.
  pose proof (Z.mod_pos_bound key (mg_m g) Hm) as Hb.
  destruct (vget_lt_is_Some (mg_table g) (key mod mg_m g)) as [v E]; [lia|]. rewrite E. simpl.
  apply vget_Some in E as [_ E]. apply list_elem_of_lookup_2 in E.
  destruct (vget_lt_is_Some (mg_backends g) v) as [b Eb]; [by apply Hv|].
  exists b. split; [done|]. apply vget_Some in Eb as [_ Eb]. by apply list_elem_of_lookup_2 in Eb.
Qed.

Lemma mg_rebuild_ok g backends g' :
  mg_m g ≤ 2 ^ 32 → zlen backends ≤ u32_max →
  mg_rebuild backends g = Some g' → mg_ok g' ∧ mg_backends g' = backends ∧ mg_m g' = mg_m g.
Proof.
  unfold mg_rebuild. intros Hm Hn Hr. destruct (build_lut (mg_m g) backends) as [t|] eqn:E; simplify_eq/=.
  assert (Hs : is_Some (build_lut (mg_m g) backends)) by eauto.
  assert (Hp : prime (mg_m g)).
  { destruct (prime_dec (mg_m g)); [done|]. rewrite build_lut_panics in E by auto. done. }
  pose proof (prime_ge_2 _ Hp).
  assert (backends ≠ []). { intros ->. rewrite build_lut_panics in E by auto. done. }
  destruct (build_lut_ok (mg_m g) backends) as (t' & E' & H1 & H2 & _); try done.
  rewrite E in E'. simplify_eq. split; [|done]. split_and!; simpl; [lia|done|done].
Qed.

Lemma mg_load_table_ok g backends table g' :
  0 < mg_m g → Forall (λ v, 0 ≤ v) table →
  mg_load_table backends table g = Some g' →
  mg_ok g' ∧ mg_backends g' = backends ∧ mg_m g' = mg_m g.
Proof.
  intros Hm Hnn. unfold mg_load_table. destruct (Z.eqb_spec (zlen table) (mg_m g)); [|done]. simpl.
  destruct (forallb _ table) eqn:Ef; [|done]. intros. simplify_eq/=. split; [|done].
  split_and!; [done|done|]. intros v Hv. simpl in *.
  rewrite forallb_forall in Ef. rewrite Forall_forall in Hnn.
  split; [by apply Hnn|]. apply Z.ltb_lt, Ef. by apply list_elem_of_In.
Qed.

(** After a rebuild, or after loading a table the control plane built
    that passes the two assertions, every flow key is answered, without a
    panic, by one of the backends just installed. *)
Theorem maglev_lookup_total g g' backends table key :
  0 < mg_m g ≤ 2 ^ 32 → zlen backends ≤ u32_max → Forall (λ v, 0 ≤ v) table →
  mg_rebuild backends g = Some g' ∨ mg_load_table backends table g = Some g' →
  ∃ b, mg_lookup key g' = Some b ∧ b ∈ backends.
Proof.
  intros Hm Hn Hv [Hr|Hl].
  - destruct (mg_rebuild_ok g backends g') as (Hok & <- & _); try done; [lia|]. by apply mg_ok_lookup.
  - destruct (mg_load_table_ok g backends table g') as (Hok & <- & _); try done; [lia|].
    by apply mg_ok_lookup.
Qed.

Lemma maglev_lookup_total_witness :
  ∃ g g', mg_new 11 = Some g ∧ mg_rebuild [10; 20; 30] g = Some g' ∧
    ∃ b, mg_lookup 12345 g' = Some b ∧ b ∈ [10; 20; 30].
Proof.
  exists (mkMaglev 11 (replicate 11 u32_max) []).
  eexists. split; [vm_compute; reflexivity|]. split; [vm_compute; reflexivity|].
  eapply (maglev_lookup_total (mkMaglev 11 (replicate 11 u32_max) []) _ [10; 20; 30] []);
    [by_eval|by_eval|by constructor|].
  left. vm_compute. reflexivity.
Defined.

Lemma count_slots_spec table : ∀ counts,
  (∀ v, v ∈ table → 0 ≤ v < zlen counts) →
  ∃ counts', count_slots table counts = Some counts' ∧ zlen counts' = zlen counts ∧
    ∀ b c, vget counts b = Some c → vget counts' b = Some (c + cnt b table).
Proof.
  induction table as [|v table IH]; intros counts Hv; simpl.
  - exists counts. split_and!; [done|done|]. intros b c Hc. rewrite Hc. f_equal. unfold cnt, zlen. simpl. lia.
  - destruct (vget_lt_is_Some counts v) as [c Ec]; [apply Hv; set_solver|]. rewrite Ec. simpl.
    pose proof (vget_bound _ _ _ Ec) as Hb. rewrite vset_ok by done. simpl.
    destruct (IH (<[Z.to_nat v := c + 1]> counts)) as (counts' & -> & Hl & Hc).
    { intros. rewrite zlen_insert. apply Hv. set_solver. }
    exists counts'. split; [done|]. split; [by rewrite Hl, zlen_insert|].
    intros b c0 Hc0. rewrite cnt_cons. pose proof (vget_bound _ _ _ Hc0).
    assert (E : vget (<[Z.to_nat v := c + 1]> counts) b = if decide (v = b) then Some (c + 1) else vget counts b).
    { eapply vget_vset; [by apply vset_ok|lia]. }
    case_decide as Evb; subst; rewrite ?decide_True, ?decide_False in E by done.
    + rewrite (Hc _ _ E). rewrite Hc0 in Ec. simplify_eq. f_equal. lia.
    + rewrite Hc0 in E. rewrite (Hc _ _ E). f_equal. lia.
Qed.

(** [C6] After a rebuild the table has one slot per residue, every slot
    holds the index of a backend (none is left unassigned) and the slots are
    balanced: of [n] backends each owns [m / n] slots, the first [m mod n]
    of them one more. *)
Theorem maglev_slots_balanced g backends g' :
  mg_m g ≤ 2 ^ 32 → zlen backends ≤ u32_max → mg_rebuild backends g = Some g' →
  zlen (mg_table g') = mg_m g ∧ (∀ v, v ∈ mg_table g' → 0 ≤ v < zlen backends) ∧
  ∃ counts, mg_slot_counts g' = Some counts ∧
    ∀ b, 0 ≤ b < zlen backends → vget counts b =
      Some (mg_m g / zlen backends + (if decide (b < mg_m g mod zlen backends) then 1 else 0)).
Proof.
  intros Hm Hn Hr. unfold mg_rebuild in Hr.
  destruct (build_lut (mg_m g) backends) as [t|] eqn:E; simplify_eq/=.
  destruct (build_lut_balanced _ _ _ Hm Hn E) as (Hl & Hv & Hc).
  split; [done|]. split; [done|]. unfold mg_slot_counts. simpl.
  destruct (count_slots_spec t (replicate (length backends) 0)) as (counts & -> & _ & Hcs).
  { unfold zlen. rewrite length_replicate. exact Hv. }
  exists counts. split; [done|]. intros b Hb. rewrite (Hcs b 0).
  - by rewrite (Hc b Hb).
  - apply vget_Some. split; [lia|]. apply lookup_replicate. unfold zlen in Hb. split; [done|lia].
Qed.

Lemma maglev_slots_balanced_witness :
  ∃ g', mg_rebuild [10; 20; 30] (mkMaglev 11 (replicate 11 u32_max) []) = Some g' ∧
    zlen (mg_table g') = 11.
Proof.
  eexists. split; [vm_compute; reflexivity|].
  eapply (maglev_slots_balanced (mkMaglev 11 (replicate 11 u32_max) []) [10; 20; 30]);
    [by_eval|by_eval|vm_compute; reflexivity].
Defined.
