(* ===== verification/F64.v ===== *)
(** * IEEE 754 double precision

    The [f64] of the source, as the Standard Library's executable
    specification of binary floating point ([SpecFloat]) at precision 53 and
    maximal exponent 1024, rounding to nearest even.  Comparisons with NaN
    are false, as in the source. *)

From Stdlib Require Import SpecFloat.
From S2P Require Import Prelude.

Abbreviation f64 := spec_float.

Definition f_add : f64 → f64 → f64 := SFadd 53 1024.
Definition f_sub : f64 → f64 → f64 := SFsub 53 1024.
Definition f_mul : f64 → f64 → f64 := SFmul 53 1024.
Definition f_div : f64 → f64 → f64 := SFdiv 53 1024.

(** [z as f64], and a literal with an integer value. *)
Definition f_of_Z (z : Z) : f64 := binary_normalize 53 1024 z 0 false.

(** [a <= b] and [a < b]. *)
Definition f_leb (a b : f64) : bool := SFleb a b.
Definition f_ltb (a b : f64) : bool := SFltb a b.

Definition f_is_nan (a : f64) : bool :=
  match a with S754_nan => true | _ => false end.

(** [f64::min]: the lesser operand, the other one when one is NaN. *)
Definition f_min (a b : f64) : f64 :=
  if f_is_nan b || f_ltb a b then a else b.

Lemma f_leb_refl a : f_is_nan a = false → f_leb a a = true.
Proof.
  destruct a as [s|s| |s m e]; unfold f_leb, SFleb; simpl; try done.
  - intros _. by destruct s.
  - intros _. destruct s; simpl; rewrite ?Z.compare_refl, ?Pos.compare_cont_refl; done.
Qed.

Lemma f_ltb_leb a b : f_ltb a b = true → f_leb a b = true.
Proof. unfold f_ltb, f_leb, SFltb, SFleb. by destruct (SFcompare a b) as [[]|]. Qed.

Lemma f_min_le a b : f_is_nan b = false → f_leb (f_min a b) b = true.
Proof.
  intros Hb. unfold f_min. rewrite Hb. simpl.
  destruct (f_ltb a b) eqn:E; [by apply f_ltb_leb|by apply f_leb_refl].
Qed.
