(* ===== verification/TokenBucket.v ===== *)
(** * Token-bucket rate limiting

    Models [crates/xdp-edge/src/token_bucket.rs]: one bucket per source
    address, in double-precision arithmetic, and the limiter that keeps at
    most [max_entries] of them. *)

From S2P Require Import Prelude F64.

Record TokenBucket := mkBucket {
  rate_per_ns : f64;
  burst : f64;
  tokens : f64;
  last_refill_ns : Z
}.

Definition f_one : f64 := f_of_Z 1.
Definition f_1e9 : f64 := f_of_Z 1000000000.

(** [assert!(rate > 0.0 && burst >= 1.0)] *)
Definition bucket_new (rate burst : f64) : option TokenBucket :=
  if f_ltb (f_of_Z 0) rate && f_leb f_one burst
  then Some (mkBucket (f_div rate f_1e9) burst burst 0)
  else None.

Definition refill (now_ns : Z) (b : TokenBucket) : TokenBucket :=
  if last_refill_ns b <? now_ns then
    let elapsed := f_of_Z (now_ns - last_refill_ns b) in
    mkBucket (rate_per_ns b) (burst b)
      (f_min (f_add (tokens b) (f_mul elapsed (rate_per_ns b))) (burst b)) now_ns
  else b.

Definition bucket_allow (now_ns : Z) (b : TokenBucket) : TokenBucket * bool :=
  let b := refill now_ns b in
  if f_leb f_one (tokens b)
  then (mkBucket (rate_per_ns b) (burst b) (f_sub (tokens b) f_one) (last_refill_ns b), true)
  else (b, false).

Record RateLimiter := mkLimiter {
  buckets : gmap Z TokenBucket;
  rl_rate : f64;
  rl_burst : f64;
  max_entries : Z;
  overflow_count : Z
}.

Definition limiter_new (rate_per_sec burst : f64) (max_entries : Z) : RateLimiter :=
  mkLimiter ∅ rate_per_sec burst max_entries 0.

Definition limiter_allow (src_ip now_ns : Z) (l : RateLimiter) : option (RateLimiter * bool) :=
  match buckets l !! src_ip with
  | Some b =>
      let '(b, ok) := bucket_allow now_ns b in
      Some (mkLimiter (<[src_ip := b]> (buckets l)) (rl_rate l) (rl_burst l)
              (max_entries l) (overflow_count l), ok)
  | None =>
      if max_entries l <=? Z.of_nat (size (buckets l)) then
        oc ← add_chk u64_max (overflow_count l) 1;
        Some (mkLimiter (buckets l) (rl_rate l) (rl_burst l) (max_entries l) oc, true)
      else
        b ← bucket_new (rl_rate l) (rl_burst l);
        let '(b, ok) := bucket_allow now_ns b in
        Some (mkLimiter (<[src_ip := b]> (buckets l)) (rl_rate l) (rl_burst l)
                (max_entries l) (overflow_count l), ok)
  end.

Definition entry_count (l : RateLimiter) : Z := Z.of_nat (size (buckets l)).

(** ** The bucket *)

(** The clock of a bucket never runs backwards, and a refill never leaves
    more tokens than the burst. *)
Lemma refill_capped now b :
  f_is_nan (burst b) = false → last_refill_ns b < now →
  f_leb (tokens (refill now b)) (burst b) = true.
Proof.
  intros Hb Hn. unfold refill. rewrite (proj2 (Z.ltb_lt _ _)) by done. by apply f_min_le.
Qed.

Lemma refill_past now b : now ≤ last_refill_ns b → refill now b = b.
Proof. intros. unfold refill. by rewrite (proj2 (Z.ltb_ge _ _)). Qed.

Lemma bucket_allow_config now b :
  rate_per_ns (bucket_allow now b).1 = rate_per_ns b ∧ burst (bucket_allow now b).1 = burst b ∧
  last_refill_ns (bucket_allow now b).1 = Z.max (last_refill_ns b) now.
Proof.
  unfold bucket_allow, refill. destruct (Z.ltb_spec (last_refill_ns b) now); simpl;
    destruct (f_leb _ _); simpl; split_and!; try done; lia.
Qed.

(** A packet is admitted exactly when a whole token is there after the
    refill; a refill brings at most [burst] tokens, a refusal takes none and
    an observation at an earlier time than the last one refills nothing. *)
Theorem bucket_allow_spec now b :
  f_is_nan (burst b) = false →
  (bucket_allow now b).2 = f_leb f_one (tokens (refill now b)) ∧
  ((bucket_allow now b).2 = false → (bucket_allow now b).1 = refill now b) ∧
  (last_refill_ns b < now → f_leb (tokens (refill now b)) (burst b) = true) ∧
  (now ≤ last_refill_ns b → refill now b = b).
Proof.
  intros Hb. unfold bucket_allow. split_and!.
  - by destruct (f_leb _ _).
  - by destruct (f_leb _ _).
  - by apply refill_capped.
  - apply refill_past.
Qed.

Definition ex_bucket : TokenBucket :=
  mkBucket (f_div (f_of_Z 1000) f_1e9) (f_of_Z 10) (f_of_Z 0) 0.

Lemma bucket_allow_spec_witness :
  f_is_nan (burst ex_bucket) = false ∧
  (bucket_allow 5000000 ex_bucket).2 = f_leb f_one (tokens (refill 5000000 ex_bucket)).
Proof.
  split; [reflexivity|]. exact (proj1 (bucket_allow_spec 5000000 ex_bucket eq_refl)).
Defined.

(** A run of calls at one instant. *)
Fixpoint allow_n (n : nat) (now : Z) (b : TokenBucket) : TokenBucket * Z :=
  match n with
  | O => (b, 0)
  | S n' => let '(b, ok) := bucket_allow now b in
            let '(b, k) := allow_n n' now b in (b, (if ok then 1 else 0) + k)
  end.

(** A fresh bucket of ten passes ten packets of fifteen at one instant and,
    refilled at 1000 per second, five more after five milliseconds. *)
Example burst_then_throttle :
  ∃ b, bucket_new (f_of_Z 1000) (f_of_Z 10) = Some b ∧
    (allow_n 15 0 b).2 = 10 ∧ (allow_n 15 5000000 (allow_n 15 0 b).1).2 = 5.
Proof. eexists. split; [vm_compute; reflexivity|]. split; vm_compute; reflexivity. Qed.

(** ** The limiter *)

Lemma limiter_allow_other l src src' now l' ok :
  limiter_allow src now l = Some (l', ok) → src' ≠ src → buckets l' !! src' = buckets l !! src'.
Proof.
  unfold limiter_allow. intros Ha Hne. destruct (buckets l !! src) as [b|].
  - destruct (bucket_allow now b). simplify_eq/=. by rewrite lookup_insert_ne.
  - destruct (max_entries l <=? _); [by opt_inv|].
    destruct (bucket_new _ _) as [b|]; [|done]. simpl in Ha.
    destruct (bucket_allow now b). simplify_eq/=. by rewrite lookup_insert_ne.
Qed.

Lemma limiter_allow_config l src now l' ok :
  limiter_allow src now l = Some (l', ok) →
  rl_rate l' = rl_rate l ∧ rl_burst l' = rl_burst l ∧ max_entries l' = max_entries l.
Proof.
  unfold limiter_allow. intros Ha. destruct (buckets l !! src) as [b|].
  - by destruct (bucket_allow now b); simplify_eq/=.
  - destruct (max_entries l <=? _); [by opt_inv|].
    destruct (bucket_new _ _) as [b|]; [|done]. simpl in Ha.
    by destruct (bucket_allow now b); simplify_eq/=.
Qed.

(** The limiter keeps at most [max_entries] buckets and never touches
    the bucket of another source; a source it has no room for is admitted
    and counted, and leaves no state behind. *)
Theorem limiter_allow_bounded l src now l' ok :
  limiter_allow src now l = Some (l', ok) →
  entry_count l ≤ max_entries l →
  entry_count l' ≤ max_entries l' ∧
  (∀ src', src' ≠ src → buckets l' !! src' = buckets l !! src') ∧
  (buckets l !! src = None → entry_count l = max_entries l →
    ok = true ∧ buckets l' = buckets l ∧ overflow_count l' = overflow_count l + 1).
Proof.
  intros Ha Hb. destruct (limiter_allow_config _ _ _ _ _ Ha) as (_ & _ & Em).
  split; [|split; [intros; by eapply limiter_allow_other|]].
  - rewrite Em. unfold limiter_allow in Ha. unfold entry_count in *.
    destruct (buckets l !! src) as [b|] eqn:E.
    + destruct (bucket_allow now b). simplify_eq/=. rewrite map_size_insert_Some by eauto. done.
    + destruct (Z.leb_spec (max_entries l) (Z.of_nat (size (buckets l)))).
      * by opt_inv.
      * destruct (bucket_new _ _) as [b|]; [|done]. simpl in Ha.
        destruct (bucket_allow now b). simplify_eq/=. rewrite map_size_insert_None by done. lia.
  - intros Hn Hf. unfold limiter_allow in Ha. unfold entry_count in Hf. rewrite Hn, Hf, Z.leb_refl in Ha.
    by opt_inv.
Qed.

Lemma limiter_allow_bounded_witness :
  ∃ l' ok, limiter_allow 7 0 (limiter_new (f_of_Z 1000) (f_of_Z 10) 4) = Some (l', ok) ∧
    entry_count l' ≤ max_entries l'.
Proof.
  do 2 eexists. split; [vm_compute; reflexivity|].
  eapply (limiter_allow_bounded (limiter_new (f_of_Z 1000) (f_of_Z 10) 4) 7 0);
    [vm_compute; reflexivity|by_eval].
Defined.
