(* ===== verification/Simulator.v ===== *)
(** * The XDP pipeline

    Models [crates/xdp-edge/src/simulator.rs]: rate limiting, SYN-flood
    detection, connection tracking and Maglev selection composed in the
    order of the XDP program, with its decision counters. *)

From Stdlib Require Import Znumtheory.
From S2P Require Import Prelude F64 XdpPacket TokenBucket SynFlood ConnTrack Maglev.

Record SimConfig := mkSimConfig {
  rate_per_sec : f64;
  rate_burst : f64;
  rate_max_entries : Z;
  conntrack_capacity : Z;
  conntrack_timeout_ns : Z;
  syn_window_ns : Z;
  cfg_syn_threshold : Z;
  syn_ack_ratio : Z
}.

Definition default_sim_config : SimConfig :=
  mkSimConfig (f_of_Z 100000) (f_of_Z 1000) (Z.shiftl 1 20) (Z.shiftl 1 16)
    (120 * 1000000000) 1000000000 1000 4.

Record SimStats := mkStats {
  passed : Z;
  dropped_rate : Z;
  dropped_synflood : Z;
  forwarded : Z;
  conn_hits : Z;
  conn_misses : Z
}.

Definition total (s : SimStats) : Z :=
  passed s + dropped_rate s + dropped_synflood s + forwarded s.

Record XdpSimulator := mkSim {
  limiter : RateLimiter;
  syn_guard : SynFloodGuard;
  conntrack : ConnTrack;
  maglev : Maglev;
  stats : SimStats
}.

Definition sim_new (cfg : SimConfig) (backends : list Z) (maglev_size : Z) : option XdpSimulator :=
  mg ← mg_new maglev_size;
  mg ← mg_rebuild backends mg;
  ct ← ct_new (conntrack_capacity cfg) (conntrack_timeout_ns cfg);
  Some (mkSim (limiter_new (rate_per_sec cfg) (rate_burst cfg) (rate_max_entries cfg))
          (guard_new (syn_window_ns cfg) (cfg_syn_threshold cfg) (syn_ack_ratio cfg))
          ct mg (mkStats 0 0 0 0 0 0)).

Definition set_backends (backends : list Z) (s : XdpSimulator) : option XdpSimulator :=
  mg ← mg_rebuild backends (maglev s);
  Some (mkSim (limiter s) (syn_guard s) (conntrack s) mg (stats s)).

Definition apply_lut (backends table : list Z) (s : XdpSimulator) : option XdpSimulator :=
  mg ← mg_load_table backends table (maglev s);
  Some (mkSim (limiter s) (syn_guard s) (conntrack s) mg (stats s)).

(** The counters, each bumped by one as the source does with [+= 1]. *)
Definition bump_dropped_rate (t : SimStats) : option SimStats :=
  n ← add_chk u64_max (dropped_rate t) 1;
  Some (mkStats (passed t) n (dropped_synflood t) (forwarded t) (conn_hits t) (conn_misses t)).
Definition bump_dropped_synflood (t : SimStats) : option SimStats :=
  n ← add_chk u64_max (dropped_synflood t) 1;
  Some (mkStats (passed t) (dropped_rate t) n (forwarded t) (conn_hits t) (conn_misses t)).
Definition bump_hit (t : SimStats) : option SimStats :=
  h ← add_chk u64_max (conn_hits t) 1;
  f ← add_chk u64_max (forwarded t) 1;
  Some (mkStats (passed t) (dropped_rate t) (dropped_synflood t) f h (conn_misses t)).
Definition bump_miss (t : SimStats) : option SimStats :=
  m ← add_chk u64_max (conn_misses t) 1;
  Some (mkStats (passed t) (dropped_rate t) (dropped_synflood t) (forwarded t) (conn_hits t) m).
Definition bump_forwarded (t : SimStats) : option SimStats :=
  f ← add_chk u64_max (forwarded t) 1;
  Some (mkStats (passed t) (dropped_rate t) (dropped_synflood t) f (conn_hits t) (conn_misses t)).

(** Step 2 of the pipeline looks at TCP packets only. *)
Definition check_syn (pkt : Packet) (now_ns : Z) (g : SynFloodGuard) : option (SynFloodGuard * bool) :=
  if protocol (tuple pkt) =? PROTO_TCP
  then observe g (src_ip (tuple pkt)) (is_syn pkt) (is_ack pkt) now_ns
  else Some (g, false).

(** Steps 4 and 5 after a miss: selection, a new connection, forwarding. *)
Definition route_miss (pkt : Packet) (now_ns : Z) (ct : ConnTrack) (s : XdpSimulator)
    : option (XdpSimulator * Action) :=
  st ← bump_miss (stats s);
  backend ← mg_lookup (flow_hash (tuple pkt)) (maglev s);
  ct ← ct_insert (tuple pkt) (mkConnEntry backend now_ns) ct;
  st ← bump_forwarded st;
  Some (mkSim (limiter s) (syn_guard s) ct (maglev s) st, Forward backend).

(** Steps 3 to 5: connection tracking, then the known or a new backend. *)
Definition route (pkt : Packet) (now_ns : Z) (s : XdpSimulator) : option (XdpSimulator * Action) :=
  '(ct, hit) ← ct_lookup (tuple pkt) now_ns (conntrack s);
  match hit with
  | Some entry =>
      st ← bump_hit (stats s);
      Some (mkSim (limiter s) (syn_guard s) ct (maglev s) st, Forward (backend_ip entry))
  | None => route_miss pkt now_ns ct s
  end.

Definition process (pkt : Packet) (now_ns : Z) (s : XdpSimulator) : option (XdpSimulator * Action) :=
  '(lim, ok) ← limiter_allow (src_ip (tuple pkt)) now_ns (limiter s);
  if negb ok then
    st ← bump_dropped_rate (stats s);
    Some (mkSim lim (syn_guard s) (conntrack s) (maglev s) st, Drop)
  else
    '(g, flood) ← check_syn pkt now_ns (syn_guard s);
    if (flood : bool) then
      st ← bump_dropped_synflood (stats s);
      Some (mkSim lim g (conntrack s) (maglev s) st, Drop)
    else
      route pkt now_ns (mkSim lim g (conntrack s) (maglev s) (stats s)).

Definition conntrack_len (s : XdpSimulator) : Z := ct_len (conntrack s).
Definition conntrack_evictions (s : XdpSimulator) : Z := ct_evictions (conntrack s).

(** ** Accounting *)

Lemma route_accounts pkt now s s' a :
  route pkt now s = Some (s', a) →
  passed (stats s') = passed (stats s) ∧ dropped_rate (stats s') = dropped_rate (stats s) ∧
  dropped_synflood (stats s') = dropped_synflood (stats s) ∧
  forwarded (stats s') = forwarded (stats s) + 1 ∧
  conn_hits (stats s') + conn_misses (stats s') = conn_hits (stats s) + conn_misses (stats s) + 1 ∧
  ∃ b, a = Forward b.
Proof.
  unfold route. destruct (ct_lookup _ _ _) as [[ct [e|]]|]; simpl; [| |done].
  - unfold bump_hit. intros. bind_inv. simpl in *. simplify_eq/=. split_and!; eauto; lia.
  - unfold route_miss, bump_miss, bump_forwarded. intros. bind_inv. simplify_eq/=. split_and!; eauto; lia.
Qed.

Lemma process_counted pkt now s s' a :
  process pkt now s = Some (s', a) → total (stats s') = total (stats s) + 1.
Proof.
  unfold process, total. destruct (limiter_allow _ _ _) as [[lim []]|]; simpl; [| |done].
  - destruct (check_syn _ _ _) as [[g []]|]; simpl; [| |done].
    + unfold bump_dropped_synflood. intros. opt_inv. lia.
    + intros (E1 & E2 & E3 & E4 & E5 & b & ->)%route_accounts. simpl in *. lia.
  - unfold bump_dropped_rate. intros. opt_inv. lia.
Qed.

(** Every packet is counted once: it adds one to the total and to one
    verdict counter, it is never passed up, it is dropped exactly when no
    forwarding is counted, and every forwarded packet is counted as one
    connection hit or one miss. *)
Theorem process_accounts pkt now s s' a :
  process pkt now s = Some (s', a) →
  total (stats s') = total (stats s) + 1 ∧ a ≠ Pass ∧
  passed (stats s') = passed (stats s) ∧
  forwarded (stats s') = forwarded (stats s) + (if is_drop a then 0 else 1) ∧
  forwarded (stats s') - (conn_hits (stats s') + conn_misses (stats s')) =
    forwarded (stats s) - (conn_hits (stats s) + conn_misses (stats s)).
Proof.
  intros Hp. split; [by eapply process_counted|]. revert Hp.
  unfold process. destruct (limiter_allow _ _ _) as [[lim []]|]; simpl; [| |done].
  - destruct (check_syn _ _ _) as [[g []]|]; simpl; [| |done].
    + unfold bump_dropped_synflood. intros. opt_inv. split_and!; done || lia.
    + intros (E1 & E2 & E3 & E4 & E5 & b & ->)%route_accounts. simpl in *. split_and!; done || lia.
  - unfold bump_dropped_rate. intros. opt_inv. split_and!; done || lia.
Qed.

(** A small deployment: eleven slots, two backends, a connection table of
    two entries, the default rates. *)
Definition small_config : SimConfig :=
  mkSimConfig (f_of_Z 100000) (f_of_Z 1000) (Z.shiftl 1 20) 2 (120 * 1000000000) 1000000000 1000 4.

Definition small_packet (port flags : Z) : Packet :=
  mkPacket (mkFiveTuple 3221225473 3405803777 port 443 PROTO_TCP) flags 64.

(** The verdicts of one packet, of a second after the backends changed, and
    the bounds the theorems below ask for. *)
Definition small_run : option (Action * bool) :=
  s ← sim_new small_config [10; 20] 11;
  p ← process (small_packet 1000 2) 5 s;
  s2 ← set_backends [30] p.1;
  q ← process (small_packet 1000 16) 100 s2;
  Some (p.2, (ct_timeout_ns (conntrack s) =? 120 * 1000000000) && (mg_m (maglev p.1) <=? 2 ^ 32)).

Lemma small_run_eq : small_run = Some (Forward 10, true).
Proof. vm_compute. reflexivity. Qed.

Lemma process_accounts_witness :
  ∃ s s', sim_new small_config [10; 20] 11 = Some s ∧
    process (small_packet 1000 2) 5 s = Some (s', Forward 10) ∧ total (stats s') = total (stats s) + 1.
Proof.
  pose proof small_run_eq as H. unfold small_run in H. bind_inv.
  destruct x0 as [s' act]. simpl in H. subst.
  exists x, s'. split_and!; [done..|]. by apply (process_accounts _ _ _ _ _ E0).
Defined.

(** ** The invariant of the pipeline *)

(** The proofs below never look inside these. *)
#[local] Opaque flow_hash mg_lookup ct_lookup ct_insert f_ltb f_leb f_of_Z.

Definition sim_ok (s : XdpSimulator) (a : LruSpec.t) : Prop :=
  represents (conntrack s) a ∧ mg_ok (maglev s) ∧
  f_ltb (f_of_Z 0) (rl_rate (limiter s)) && f_leb f_one (rl_burst (limiter s)) = true.

(** Room for [n] more packets in the counters of routing, in those of the
    two filters. *)
Definition room_ct (n : Z) (s : XdpSimulator) : Prop :=
  dropped_rate (stats s) + n ≤ u64_max ∧ dropped_synflood (stats s) + n ≤ u64_max ∧
  forwarded (stats s) + n ≤ u64_max ∧ conn_hits (stats s) + n ≤ u64_max ∧
  conn_misses (stats s) + n ≤ u64_max ∧ ct_evictions (conntrack s) + n ≤ u64_max.

Definition room_src (n : Z) (s : XdpSimulator) : Prop :=
  overflow_count (limiter s) + n ≤ u64_max ∧ flagged_sources (syn_guard s) + n ≤ u64_max ∧
  ∀ src w, windows (syn_guard s) !! src = Some w → w_syn w + n ≤ u32_max ∧ w_ack w + n ≤ u32_max.

Definition room (n : Z) (s : XdpSimulator) : Prop := room_ct n s ∧ room_src n s.

Lemma limiter_allow_ok src now l n :
  0 ≤ n → f_ltb (f_of_Z 0) (rl_rate l) && f_leb f_one (rl_burst l) = true →
  overflow_count l + (n + 1) ≤ u64_max →
  ∃ l' ok, limiter_allow src now l = Some (l', ok) ∧ overflow_count l' + n ≤ u64_max ∧
    rl_rate l' = rl_rate l ∧ rl_burst l' = rl_burst l.
Proof.
  intros Hn Hc Ho. unfold limiter_allow. destruct (buckets l !! src) as [b|].
  - destruct (bucket_allow now b). do 2 eexists. split; [done|]. simpl. auto with lia.
  - destruct (max_entries l <=? _).
    + rewrite add_chk_ok by lia. simpl. do 2 eexists. split; [done|]. simpl. auto with lia.
    + unfold bucket_new. rewrite Hc. simpl. destruct (bucket_allow now _).
      do 2 eexists. split; [done|]. simpl. auto with lia.
Qed.

Lemma check_syn_ok pkt now g n :
  0 ≤ n < u32_max → flagged_sources g + (n + 1) ≤ u64_max →
  (∀ src w, windows g !! src = Some w → w_syn w + (n + 1) ≤ u32_max ∧ w_ack w + (n + 1) ≤ u32_max) →
  ∃ g' v, check_syn pkt now g = Some (g', v) ∧ flagged_sources g' + n ≤ u64_max ∧
    (∀ src w, windows g' !! src = Some w → w_syn w + n ≤ u32_max ∧ w_ack w + n ≤ u32_max).
Proof.
  intros Hn Hf Hw. unfold check_syn. destruct (_ =? PROTO_TCP).
  2:{ do 2 eexists. split; [done|]. split; [lia|]. intros src w ?%Hw. lia. }
  unfold observe. set (w0 := current_window _ _ _).
  assert (Hw0 : w_syn w0 + (n + 1) ≤ u32_max ∧ w_ack w0 + (n + 1) ≤ u32_max).
  { subst w0. unfold current_window. destruct (windows g !! src_ip (tuple pkt)) as [w|] eqn:E; simpl.
    - apply Hw in E. destruct (_ || _); simpl; lia.
    - lia. }
  assert (Hc : ∃ w1, count (is_syn pkt) (is_ack pkt) w0 = Some w1 ∧
    w_syn w1 + n ≤ u32_max ∧ w_ack w1 + n ≤ u32_max).
  { unfold count. destruct (is_syn pkt); [|destruct (is_ack pkt)];
      rewrite ?add_chk_ok by lia; simpl; eexists; (split; [done|]); simpl; lia. }
  destruct Hc as (w1 & -> & Hw1). simpl.
  destruct (_ && _); rewrite ?add_chk_ok by lia; simpl; do 2 eexists; (split; [done|]); simpl;
    (split; [lia|]); intros src w; rewrite lookup_insert_Some; intros [[_ <-]|[_ ?%Hw]]; lia.
Qed.

Lemma bump_miss_ok t : conn_misses t < u64_max →
  ∃ t', bump_miss t = Some t' ∧ dropped_rate t' = dropped_rate t ∧
    dropped_synflood t' = dropped_synflood t ∧ forwarded t' = forwarded t ∧
    conn_hits t' = conn_hits t ∧ conn_misses t' = conn_misses t + 1.
Proof. intros. unfold bump_miss. rewrite add_chk_ok by lia. by eexists. Qed.

Lemma bump_forwarded_ok t : forwarded t < u64_max →
  ∃ t', bump_forwarded t = Some t' ∧ dropped_rate t' = dropped_rate t ∧
    dropped_synflood t' = dropped_synflood t ∧ forwarded t' = forwarded t + 1 ∧
    conn_hits t' = conn_hits t ∧ conn_misses t' = conn_misses t.
Proof. intros. unfold bump_forwarded. rewrite add_chk_ok by lia. by eexists. Qed.

Lemma bump_hit_ok t : forwarded t < u64_max → conn_hits t < u64_max →
  ∃ t', bump_hit t = Some t' ∧ dropped_rate t' = dropped_rate t ∧
    dropped_synflood t' = dropped_synflood t ∧ forwarded t' = forwarded t + 1 ∧
    conn_hits t' = conn_hits t + 1 ∧ conn_misses t' = conn_misses t.
Proof. intros. unfold bump_hit. rewrite !add_chk_ok by lia. by eexists. Qed.

Lemma route_miss_ok pkt now ct s a n :
  0 ≤ n → represents ct a → ct_evictions ct = ct_evictions (conntrack s) →
  mg_ok (maglev s) →
  f_ltb (f_of_Z 0) (rl_rate (limiter s)) && f_leb f_one (rl_burst (limiter s)) = true →
  room_ct (n + 1) s → room_src n s →
  ∃ s' b, route_miss pkt now ct s = Some (s', Forward b) ∧ b ∈ mg_backends (maglev s) ∧
    sim_ok s' (LruSpec.insert (tuple pkt) (mkConnEntry b now) a) ∧ room n s' ∧ maglev s' = maglev s.
Proof.
  intros Hn Hct Ee Hmg Hl (R1 & R2 & R3 & R4 & R5 & R6) Hsrc.
  destruct (mg_ok_lookup (maglev s) (flow_hash (tuple pkt)) Hmg) as (b & Eb & Hb).
  destruct (ct_insert_represents ct a (tuple pkt) (mkConnEntry b now) Hct) as (ct' & Ei & Hct'); [lia|].
  pose proof (lru_step_evictions (OpInsert (tuple pkt) (mkConnEntry b now)) a) as Hev.
  cbn [lru_step fst] in Hev.
  rewrite (represents_evictions _ _ Hct), (represents_evictions _ _ Hct') in Hev.
  destruct (bump_miss_ok (stats s)) as (st & Em & M1 & M2 & M3 & M4 & M5); [lia|].
  destruct (bump_forwarded_ok st) as (st' & Ef & F1 & F2 & F3 & F4 & F5); [lia|].
  exists (mkSim (limiter s) (syn_guard s) ct' (maglev s) st'), b.
  split; [unfold route_miss; bind_with Em; bind_with Eb; bind_with Ei; bind_with Ef; reflexivity|].
  split; [exact Hb|]. split; [split; [exact Hct'|split; assumption]|].
  split; [|done]. split; [|exact Hsrc]. unfold room_ct. cbn [conntrack stats]. split_and!; lia.
Qed.

Lemma lru_lookup_frame k now a :
  LruSpec.evictions (LruSpec.lookup k now a).1 = LruSpec.evictions a ∧
  LruSpec.timeout_ns (LruSpec.lookup k now a).1 = LruSpec.timeout_ns a.
Proof. unfold LruSpec.lookup. by repeat case_match. Qed.

(** The backends the known connections go to. *)
Definition backends_of (a : LruSpec.t) : list Z := (λ p, backend_ip p.2) <$> LruSpec.entries a.

Lemma lru_lookup_backends k now a : backends_of (LruSpec.lookup k now a).1 ⊆ backends_of a.
Proof.
  unfold LruSpec.lookup, backends_of, LruSpec.remove.
  destruct (LruSpec.find k _) as [e|] eqn:Ef; [|done].
  case_match; simpl; intros x; rewrite ?elem_of_cons, !list_elem_of_fmap.
  - intros (p & -> & [_ ?]%list_elem_of_filter). eauto.
  - intros [->|(p & -> & [_ ?]%list_elem_of_filter)]; [|eauto].
    exists (k, e). split; [done|]. by apply lru_find_elem.
Qed.

Lemma lru_insert_backends k v a : backends_of (LruSpec.insert k v a) ⊆ backend_ip v :: backends_of a.
Proof.
  unfold LruSpec.insert, backends_of, LruSpec.remove. intros x.
  case_match; [|case_match]; simpl; rewrite !elem_of_cons, !list_elem_of_fmap;
    (intros [->|(p & -> & Hp)]; [by left|]); right; exists p; (split; [done|]).
  - by apply list_elem_of_filter in Hp as [_ ?].
  - by apply elem_of_removelast.
  - done.
Qed.

(** What a forwarded packet of connection [k] does to the connection list:
    a known connection is touched, an unknown or expired one is inserted. *)
Definition lru_touch (k : FiveTuple) (now b : Z) (a : LruSpec.t) : LruSpec.t :=
  match LruSpec.lookup k now a with
  | (a1, Some _) => a1
  | (a1, None) => LruSpec.insert k (mkConnEntry b now) a1
  end.

(** What a step of the pipeline may do to a connection list. *)
Definition routed (pkt : Packet) (now : Z) (s : XdpSimulator) (a a' : LruSpec.t) (b : Z) : Prop :=
  a' = lru_touch (tuple pkt) now b a ∧
  LruSpec.find (tuple pkt) (LruSpec.entries a') = Some (mkConnEntry b now) ∧
  backends_of a' ⊆ b :: backends_of a ∧
  match LruSpec.find (tuple pkt) (LruSpec.entries a) with
  | Some e => if is_expired (LruSpec.timeout_ns a) now e
              then b ∈ mg_backends (maglev s) else b = backend_ip e
  | None => b ∈ mg_backends (maglev s)
  end.

(** What routing does to the connection list: the connection of the packet
    is then known, with the backend it was sent to and the present time. *)
Lemma route_ok pkt now s a n :
  0 ≤ n → sim_ok s a → room_ct (n + 1) s → room_src n s →
  ∃ s' b a', route pkt now s = Some (s', Forward b) ∧ sim_ok s' a' ∧ room n s' ∧ maglev s' = maglev s ∧
    LruSpec.timeout_ns a' = LruSpec.timeout_ns a ∧ routed pkt now s a a' b.
Proof.
  intros Hn (Hr & Hmg & Hl) HR Hsrc. unfold routed, lru_touch.
  destruct (ct_lookup_represents _ _ (tuple pkt) now Hr) as (ct & Ec & Hct).
  destruct (lru_lookup_frame (tuple pkt) now a) as [Hel Htl].
  pose proof (lru_lookup_backends (tuple pkt) now a) as Hsub.
  assert (Hinc : ∀ b, b :: backends_of (LruSpec.lookup (tuple pkt) now a).1 ⊆ b :: backends_of a) by set_solver.
  assert (Hee : ct_evictions ct = ct_evictions (conntrack s)).
  { rewrite <-(represents_evictions _ _ Hct), Hel. by apply represents_evictions. }
  destruct (route_miss_ok pkt now ct s _ n Hn Hct Hee Hmg Hl HR Hsrc) as (sm & b & Em & Hb & Hokm & Hrm & Hmm).
  assert (Hmiss : (LruSpec.lookup (tuple pkt) now a).2 = None → route pkt now s = Some (sm, Forward b)).
  { intros E. rewrite E in Ec. unfold route. bind_with Ec. exact Em. }
  unfold LruSpec.lookup in *.
  destruct (LruSpec.find (tuple pkt) (LruSpec.entries a)) as [e|] eqn:Ef;
    [destruct (is_expired (LruSpec.timeout_ns a) now e) eqn:Ex|].
  - exists sm, b. eexists. split; [by apply Hmiss|]. split; [exact Hokm|]. split; [exact Hrm|].
    rewrite lru_insert_timeout, lru_find_insert. split_and!; [done..| |done].
    etrans; [apply lru_insert_backends|]. exact (Hinc b).
  - destruct HR as (R1 & R2 & R3 & R4 & R5 & R6).
    destruct (bump_hit_ok (stats s)) as (st & Eh & M1 & M2 & M3 & M4 & M5); [lia|lia|].
    exists (mkSim (limiter s) (syn_guard s) ct (maglev s) st), (backend_ip e). eexists.
    split; [unfold route; bind_with Ec; bind_with Eh; reflexivity|].
    split; [split; [exact Hct|split; assumption]|]. split.
    { split; [|exact Hsrc]. unfold room_ct. cbn [conntrack stats]. split_and!; lia. }
    split_and!; [done|done|done|simpl; by rewrite decide_True| |done].
    etrans; [exact Hsub|]. set_solver.
  - exists sm, b. eexists. split; [by apply Hmiss|]. split; [exact Hokm|]. split; [exact Hrm|].
    rewrite lru_insert_timeout, lru_find_insert. split_and!; [done..| |done].
    etrans; [apply lru_insert_backends|]. exact (Hinc b).
Qed.

Lemma process_ok pkt now s a n :
  0 ≤ n < u32_max → sim_ok s a → room (n + 1) s →
  ∃ s' act a', process pkt now s = Some (s', act) ∧ sim_ok s' a' ∧ room n s' ∧ maglev s' = maglev s ∧
    LruSpec.timeout_ns a' = LruSpec.timeout_ns a ∧
    ((act = Drop ∧ a' = a) ∨ (∃ b, act = Forward b ∧ routed pkt now s a a' b)).
Proof.
  intros Hn (Hr & Hmg & Hl) [Hrc (R7 & R8 & R9)].
  pose proof Hrc as (R1 & R2 & R3 & R4 & R5 & R6).
  destruct (limiter_allow_ok (src_ip (tuple pkt)) now (limiter s) n) as (lim & ok & El & L1 & L2 & L3); try done; [lia|].
  destruct (check_syn_ok pkt now (syn_guard s) n) as (g & fl & Eg & G1 & G2); try done.
  assert (Hl' : f_ltb (f_of_Z 0) (rl_rate lim) && f_leb f_one (rl_burst lim) = true) by (by rewrite L2, L3).
  unfold process. destruct ok.
  - destruct fl.
    + exists (mkSim lim g (conntrack s) (maglev s)
        (mkStats (passed (stats s)) (dropped_rate (stats s)) (dropped_synflood (stats s) + 1)
           (forwarded (stats s)) (conn_hits (stats s)) (conn_misses (stats s)))), Drop, a.
      split.
      { bind_with El. bind_with Eg. unfold bump_dropped_synflood. rewrite add_chk_ok by lia. reflexivity. }
      split; [by split_and!|]. split; [|by auto].
      unfold room, room_ct, room_src. cbn. split_and!; try lia. exact G2.
    + set (s1 := mkSim lim g (conntrack s) (maglev s) (stats s)).
      assert (Ho1 : sim_ok s1 a) by (by split_and!).
      destruct (route_ok pkt now s1 a n) as (s' & b & a' & E & ? & ? & ? & ? & ?);
        [lia|done|done|by split_and!|].
      exists s', (Forward b), a'. split; [bind_with El; bind_with Eg; exact E|].
      split; [done|]. split; [done|]. split; [done|]. split; [done|]. right. eauto.
  - exists (mkSim lim (syn_guard s) (conntrack s) (maglev s)
      (mkStats (passed (stats s)) (dropped_rate (stats s) + 1) (dropped_synflood (stats s))
         (forwarded (stats s)) (conn_hits (stats s)) (conn_misses (stats s)))), Drop, a.
    split.
    { bind_with El. unfold bump_dropped_rate. rewrite add_chk_ok by lia. reflexivity. }
    split; [by split_and!|]. split; [|by auto].
    unfold room, room_ct, room_src. cbn. split_and!; try lia. intros src w ?%R9. lia.
Qed.

(** ** Traces *)

(** The packets of a trace, each with its arrival time, through the
    pipeline one after the other. *)
Fixpoint process_all (trace : list (Packet * Z)) (s : XdpSimulator) : option (XdpSimulator * list Action) :=
  match trace with
  | [] => Some (s, [])
  | (pkt, now) :: trace' =>
      '(s, a) ← process pkt now s;
      '(s, acts) ← process_all trace' s;
      Some (s, a :: acts)
  end.

Definition valid_config (cfg : SimConfig) : bool :=
  f_ltb (f_of_Z 0) (rate_per_sec cfg) && f_leb f_one (rate_burst cfg)
  && (1 <=? conntrack_capacity cfg) && (conntrack_capacity cfg <? u32_max).

Lemma sim_new_ok cfg backends m n :
  valid_config cfg = true → 0 ≤ n ≤ u32_max → prime m → m ≤ 2 ^ 32 →
  backends ≠ [] → zlen backends ≤ u32_max →
  ∃ s a, sim_new cfg backends m = Some s ∧ sim_ok s a ∧ LruSpec.entries a = [] ∧ room n s ∧
    mg_backends (maglev s) = backends ∧ total (stats s) = 0.
Proof.
  unfold valid_config. rewrite !andb_true_iff, Z.leb_le, Z.ltb_lt.
  intros [[[Hr Hb] Hc] Hc'] Hn Hp Hm Hne Hl.
  destruct (build_lut_ok m backends) as (t & Et & Ht & Hv & _); try done.
  assert (Em : mg_new m = Some (mkMaglev m (replicate (Z.to_nat m) u32_max) [])).
  { unfold mg_new. destruct (is_prime_spec m) as (b & -> & Hpb). simpl. by rewrite (proj2 Hpb Hp). }
  assert (Er : mg_rebuild backends (mkMaglev m (replicate (Z.to_nat m) u32_max) []) = Some (mkMaglev m t backends)).
  { unfold mg_rebuild. cbn [mg_m]. by rewrite Et. }
  destruct (mg_rebuild_ok (mkMaglev m _ _) _ _ Hm Hl Er) as (Hok & Hbk & _).
  destruct (ct_new_represents (conntrack_capacity cfg) (conntrack_timeout_ns cfg)) as (c & Ec & Hrep).
  { unfold NIL. unfold u32_max in *. lia. }
  eexists _, _. split; [unfold sim_new; bind_with Em; bind_with Er; bind_with Ec; reflexivity|].
  split; [split_and!; [exact Hrep|done|]|].
  { cbn [limiter limiter_new rl_rate rl_burst]. by rewrite Hr, Hb. }
  split; [done|]. split; [|done].
  pose proof (represents_evictions _ _ Hrep) as He. cbn in He.
  unfold room, room_ct, room_src.
  cbn [conntrack stats dropped_rate dropped_synflood forwarded conn_hits conn_misses syn_guard guard_new
    limiter limiter_new overflow_count flagged_sources windows].
  unfold u64_max, u32_max in *. split_and!; try lia. intros ? ? []%lookup_empty_Some.
Qed.

Lemma process_all_ok bs trace s a n :
  0 ≤ n → n + zlen trace ≤ u32_max → sim_ok s a → room (n + zlen trace) s →
  mg_backends (maglev s) = bs → backends_of a ⊆ bs →
  ∃ s' acts, process_all trace s = Some (s', acts) ∧ length acts = length trace ∧
    total (stats s') = total (stats s) + zlen trace ∧
    ∀ act, act ∈ acts → act = Drop ∨ ∃ b, act = Forward b ∧ b ∈ bs.
Proof.
  revert s a. induction trace as [|[pkt now] trace IH]; intros s a Hn Hb Hok Hroom Hbs Hsub.
  { exists s, []. split; [done|]. split; [done|]. split; [unfold zlen; simpl; lia|]. set_solver. }
  rewrite zlen_cons in *. pose proof (zlen_nonneg trace).
  destruct (process_ok pkt now s a (n + zlen trace)) as (s1 & act & a1 & Ep & Hok1 & Hr1 & Hm1 & _ & Hact);
    [lia|done|by replace (n + zlen trace + 1) with (n + (1 + zlen trace)) by lia|].
  assert (Hact' : (act = Drop ∨ ∃ b, act = Forward b ∧ b ∈ bs) ∧ backends_of a1 ⊆ bs).
  { destruct Hact as [[-> ->]|(b & -> & _ & Hf & Hb' & Hm)]; [by auto|].
    assert (b ∈ bs); [|split; [eauto|set_solver]].
    rewrite Hbs in Hm. destruct (LruSpec.find (tuple pkt) (LruSpec.entries a)) as [e|] eqn:Ef; [|done].
    destruct (is_expired _ _ _); [done|]. subst b. apply Hsub, list_elem_of_fmap.
    exists (tuple pkt, e). split; [done|]. by apply lru_find_elem. }
  pose proof (process_counted _ _ _ _ _ Ep) as Htot.
  destruct (IH s1 a1) as (s2 & acts & Ea & Hlen & Ht & Hall); [lia|lia|done|done|by rewrite Hm1|tauto|].
  exists s2, (act :: acts). split; [simpl; bind_with Ep; bind_with Ea; reflexivity|].
  split; [simpl; lia|]. split; [lia|]. intros act'. rewrite elem_of_cons. intros [->|?]; [tauto|auto].
Qed.

(** [C7] A simulator built from a valid configuration, a prime table size
    and a non-empty backend list runs every trace of up to [u32::MAX]
    packets without a panic (no overflow, no index out of range, no broken
    link in the connection table): there is one verdict per packet, every
    packet is dropped or forwarded to a configured backend, and the
    counters add up to the length of the trace. *)
Theorem pipeline_total cfg backends m trace :
  valid_config cfg = true → prime m → m ≤ 2 ^ 32 →
  backends ≠ [] → zlen backends ≤ u32_max → zlen trace ≤ u32_max →
  ∃ s s' acts, sim_new cfg backends m = Some s ∧ process_all trace s = Some (s', acts) ∧
    length acts = length trace ∧ total (stats s') = zlen trace ∧
    ∀ act, act ∈ acts → act = Drop ∨ ∃ b, act = Forward b ∧ b ∈ backends.
Proof.
  intros Hc Hp Hm Hne Hl Ht. pose proof (zlen_nonneg trace).
  destruct (sim_new_ok cfg backends m (zlen trace)) as (s & a & En & Hok & He & Hr & Hb & H0); try done.
  destruct (process_all_ok backends trace s a 0) as (s' & acts & Ea & ? & Et & ?); try done.
  { unfold backends_of. rewrite He. set_solver. }
  exists s, s', acts. rewrite H0 in Et. auto.
Qed.

Lemma pipeline_total_witness :
  ∃ s s' acts, sim_new small_config [10; 20] 11 = Some s ∧
    process_all [(small_packet 1000 2, 5); (small_packet 1001 2, 6)] s = Some (s', acts) ∧
    length acts = 2%nat ∧ total (stats s') = 2 ∧
    ∀ act, act ∈ acts → act = Drop ∨ ∃ b, act = Forward b ∧ b ∈ [10; 20].
Proof.
  apply (pipeline_total small_config [10; 20] 11 [(small_packet 1000 2, 5); (small_packet 1001 2, 6)]);
    [reflexivity|by apply is_prime_sound|lia|done|by_eval|by_eval].
Defined.

(** A change of the backends leaves the connections alone. *)
Lemma set_backends_ok bs s s' a :
  sim_ok s a → mg_m (maglev s) ≤ 2 ^ 32 → zlen bs ≤ u32_max → set_backends bs s = Some s' →
  sim_ok s' a ∧ (∀ n, room n s → room n s').
Proof.
  intros (Hr & Hm & Hl) Hsz Hb H. unfold set_backends in H. bind_inv.
  destruct (mg_rebuild_ok _ _ _ Hsz Hb E) as [Hok _].
  split; [by split_and!|done].
Qed.

Lemma apply_lut_ok bs table s s' a :
  sim_ok s a → 0 < mg_m (maglev s) → Forall (λ v, 0 ≤ v) table → apply_lut bs table s = Some s' →
  sim_ok s' a ∧ (∀ n, room n s → room n s').
Proof.
  intros (Hr & Hm & Hl) Hsz Hb H. unfold apply_lut in H. bind_inv.
  destruct (mg_load_table_ok _ _ _ _ Hsz Hb E) as [Hok _].
  split; [by split_and!|done].
Qed.
