(* ===== verification/SimAffinity.v ===== *)
(** * Connection affinity of the pipeline

    Runs of the pipeline of [Simulator] in which packets and changes of the
    backends (a rebuild, or a table of the control plane) interleave, and how
    long a connection keeps the backend it was given: the recency list of
    [LruSpec] holds it as long as fewer other connections than the capacity
    were forwarded since, and it does not expire within its idle timeout. *)

From Stdlib Require Import Znumtheory.
From S2P Require Import Prelude XdpPacket ConnTrack Maglev Simulator.

(** ** The recency list *)














(** ** Runs *)

Inductive sim_event :=
  | EvPacket (pkt : Packet) (now_ns : Z)
  | EvBackends (backends : list Z)
  | EvTable (backends table : list Z).

(** One event; a packet has a verdict. *)
Definition sim_step (ev : sim_event) (s : XdpSimulator) : option (XdpSimulator * option Action) :=
  match ev with
  | EvPacket pkt now => '(s, act) ← process pkt now s; Some (s, Some act)
  | EvBackends bs => s ← set_backends bs s; Some (s, None)
  | EvTable bs table => s ← apply_lut bs table s; Some (s, None)
  end.

Fixpoint sim_run (evs : list sim_event) (s : XdpSimulator)
    : option (XdpSimulator * list (sim_event * option Action)) :=
  match evs with
  | [] => Some (s, [])
  | ev :: evs' =>
      '(s, o) ← sim_step ev s;
      '(s, log) ← sim_run evs' s;
      Some (s, (ev, o) :: log)
  end.





Section Runs.
Variable (m : Z).
Hypothesis (Hm : prime m) (Hm32 : m ≤ 2 ^ 32).



End Runs.



(** ** Runs *)


(** The same with a third connection in between. *)
Definition three_flows : list sim_event :=
  [EvPacket (small_packet 1000 2) 5; EvBackends [30]; EvPacket (small_packet 1001 2) 50;
   EvPacket (small_packet 1002 2) 60; EvPacket (small_packet 1000 16) 100].

Definition verdicts (evs : list sim_event) : option (list (option Action)) :=
  s ← sim_new small_config [10; 20] 11;
  '(_, log) ← sim_run evs s;
  Some log.*2.


(** The bound on the other connections is exact: with as many as the table
    has entries, the first connection is evicted and changes its backend. *)
Theorem eviction_ends_affinity :
  verdicts three_flows = Some [Some (Forward 10); None; Some (Forward 30); Some (Forward 30); Some (Forward 30)].
Proof. vm_compute. reflexivity. Qed.

