(* ===== verification/Health.v ===== *)
(** * Backend health checking

    Models [crates/xdp-edge/src/control/health.rs]: the per-backend probe
    state, the debounced transition between [Unknown], [Up] and [Down], the
    schedule of probes and the set of backends that take traffic.

    The reference is [spec_state]: a function of the history of probe
    results alone, with no counter to reset. *)

From S2P Require Import Prelude.

Inductive Health :=
  | Unknown
  | Up
  | Down.

#[export] Instance Health_eq_dec : EqDecision Health.
Proof. solve_decision. Defined.

Record BackendHealth := mkBackendHealth {
  bh_state : Health;
  last_ok : option bool;
  streak : Z;
  last_probe_ns : Z
}.

Record HealthChecker := mkHealthChecker {
  hc_backends : gmap Z BackendHealth;
  interval_ns : Z;
  fall : Z;
  rise : Z
}.

(** [assert!(fall >= 1 && rise >= 1)] *)
Definition hc_new (interval fall rise : Z) : option HealthChecker :=
  if (1 <=? fall) && (1 <=? rise) then Some (mkHealthChecker ∅ interval fall rise) else None.

Definition with_backends (m : gmap Z BackendHealth) (c : HealthChecker) : HealthChecker :=
  mkHealthChecker m (interval_ns c) (fall c) (rise c).

Definition register (backend : Z) (c : HealthChecker) : HealthChecker :=
  with_backends (<[backend := mkBackendHealth Unknown None 0 u64_max]> (hc_backends c)) c.

Definition unregister (backend : Z) (c : HealthChecker) : HealthChecker :=
  with_backends (delete backend (hc_backends c)) c.

(** [sort_unstable] on integers. *)
Definition sort_u32 (l : list Z) : list Z := merge_sort Z.le l.

Definition probe_due (now_ns interval : Z) (h : BackendHealth) : bool :=
  (last_probe_ns h =? u64_max) || (interval <=? sat_sub now_ns (last_probe_ns h)).

Definition probes_due `{!HashOrder Z BackendHealth} (now_ns : Z) (c : HealthChecker) : list Z :=
  sort_u32 (filter (λ p, probe_due now_ns (interval_ns c) p.2) (hm_iter (hc_backends c))).*1.

(** The new state, before it is compared with the old one. *)
Definition next_state (fall rise streak : Z) (ok : bool) (old : Health) : Health :=
  if ok && (rise <=? streak) then Up
  else if negb ok && (fall <=? streak) then Down
  else old.

(** The update of one entry, and whether it flipped. *)
Definition report_entry (fall rise : Z) (ok : bool) (now_ns : Z) (h : BackendHealth)
    : option (BackendHealth * bool) :=
  streak ← (if decide (last_ok h = Some ok) then add_chk u32_max (streak h) 1 else Some 1);
  let new := next_state fall rise streak ok (bh_state h) in
  if decide (new ≠ bh_state h)
  then Some (mkBackendHealth new (Some ok) 0 now_ns, true)
  else Some (mkBackendHealth (bh_state h) (Some ok) streak now_ns, false).

Definition report (backend : Z) (ok : bool) (now_ns : Z) (c : HealthChecker)
    : option (HealthChecker * bool) :=
  match hc_backends c !! backend with
  | None => Some (c, false)
  | Some h =>
      '(h, flipped) ← report_entry (fall c) (rise c) ok now_ns h;
      Some (with_backends (<[backend := h]> (hc_backends c)) c, flipped)
  end.

Definition alive_backends `{!HashOrder Z BackendHealth} (c : HealthChecker) : list Z :=
  sort_u32 (filter (λ p, bh_state p.2 = Up) (hm_iter (hc_backends c))).*1.

Definition state (backend : Z) (c : HealthChecker) : option Health :=
  bh_state <$> hc_backends c !! backend.

(** ** The reference: a backend's state as a function of its history *)

(** The length of the run of equal results at the end of a history, which
    is kept latest first. *)
Fixpoint run (ok : bool) (hist : list bool) : Z :=
  match hist with
  | [] => 0
  | b :: hist' => if decide (b = ok) then 1 + run ok hist' else 0
  end.

Fixpoint spec_state (fall rise : Z) (hist : list bool) : Health :=
  match hist with
  | [] => Unknown
  | ok :: hist' =>
      if ok && (rise <=? run true hist) then Up
      else if negb ok && (fall <=? run false hist) then Down
      else spec_state fall rise hist'
  end.

(** The entry agrees with the history: the stored streak is the run of the
    history, or it was reset by a flip and counts from there. *)
Definition tracks (fall rise : Z) (hist : list bool) (h : BackendHealth) : Prop :=
  bh_state h = spec_state fall rise hist ∧ last_ok h = head hist ∧
  0 ≤ streak h ≤ zlen hist ∧
  ∀ ok, last_ok h = Some ok →
    streak h = run ok hist ∨
    (streak h < run ok hist ∧ bh_state h = if ok then Up else Down).

Lemma run_bound ok hist : 0 ≤ run ok hist ≤ zlen hist.
Proof. induction hist as [|b hist IH]; [done|]. rewrite zlen_cons. simpl. case_decide; lia. Qed.

Lemma run_other ok b hist : run ok (b :: hist) = if decide (b = ok) then 1 + run ok hist else 0.
Proof. done. Qed.

Lemma run_head ok hist : head hist ≠ Some ok → run ok hist = 0.
Proof. destruct hist as [|b hist]; [done|]. simpl. intros. by rewrite decide_False by congruence. Qed.

Lemma spec_state_next fall rise ok hist :
  spec_state fall rise (ok :: hist) =
    next_state fall rise (run ok (ok :: hist)) ok (spec_state fall rise hist).
Proof. unfold next_state. by destruct ok. Qed.

(** A streak that was reset makes no difference: it could only confirm the
    state the entry is in. *)
Lemma next_state_reset (fall rise s s' : Z) (ok : bool) (old : Health) :
  s = s' ∨ (s < s' ∧ old = if ok then Up else Down) →
  next_state fall rise s ok old = next_state fall rise s' ok old.
Proof.
  intros [->|[Hs ->]]; [done|]. unfold next_state. destruct ok; simpl; repeat case_match; done || lia.
Qed.

Lemma report_entry_tracks fall rise hist h ok now :
  tracks fall rise hist h → zlen hist < u32_max →
  ∃ h', report_entry fall rise ok now h =
      Some (h', bool_decide (spec_state fall rise (ok :: hist) ≠ spec_state fall rise hist)) ∧
    tracks fall rise (ok :: hist) h' ∧ last_probe_ns h' = now.
Proof.
  intros (Hst & Hlast & Hb & Hrun) Hlen.
  set (s := if decide (last_ok h = Some ok) then streak h + 1 else 1).
  assert (Es : (if decide (last_ok h = Some ok) then add_chk u32_max (streak h) 1 else Some 1) = Some s).
  { subst s. case_decide; [|done]. apply add_chk_ok. lia. }
  assert (Hs : s = run ok (ok :: hist) ∨
    (s < run ok (ok :: hist) ∧ bh_state h = if ok then Up else Down)).
  { subst s. simpl. rewrite (decide_True (P := ok = ok)) by done. case_decide as Hd.
    - destruct (Hrun _ Hd) as [->|[? ?]]; [left; lia|right; split; [lia|done]].
    - rewrite run_head by congruence. by left. }
  assert (0 < s ≤ zlen (ok :: hist)).
  { rewrite zlen_cons. pose proof (zlen_nonneg hist). subst s. case_decide; lia. }
  unfold report_entry. rewrite Es. cbn [mbind option_bind].
  rewrite (next_state_reset _ _ _ _ _ _ Hs), Hst, <-spec_state_next.
  destruct (decide (spec_state fall rise (ok :: hist) ≠ spec_state fall rise hist)) as [Hne|He].
  - eexists. rewrite bool_decide_eq_true_2 by done. split; [done|]. split; [|done].
    split; [done|]. split; [done|]. split; [simpl; lia|]. intros ok'. simpl. intros [= <-]. right.
    rewrite decide_True by done. pose proof (run_bound ok hist). split; [lia|].
    revert Hne. simpl. destruct ok; simpl; repeat case_match; done.
  - apply dec_stable in He.
    eexists. rewrite bool_decide_eq_false_2 by tauto. split; [done|]. split; [|done].
    split; [done|]. split; [done|]. split; [simpl; lia|]. intros ok'. simpl. intros [= <-].
    destruct Hs as [Hs|[Hs Hs']]; [by left|right]. split; [exact Hs|congruence].
Qed.

(** ** Sequences of reports *)

(** A report: backend, result, time. *)
Abbreviation probe := (Z * bool * Z)%type.

Fixpoint report_all (trace : list probe) (c : HealthChecker) : option (HealthChecker * list bool) :=
  match trace with
  | [] => Some (c, [])
  | (backend, ok, now) :: trace' =>
      '(c, f) ← report backend ok now c;
      '(c, fs) ← report_all trace' c;
      Some (c, f :: fs)
  end.

Definition register_all (backends : list Z) (c : HealthChecker) : HealthChecker :=
  foldl (λ c b, register b c) c backends.

(** The results of one backend in a trace, latest first, on top of an
    earlier history. *)
Fixpoint history (backend : Z) (trace : list probe) (hist : list bool) : list bool :=
  match trace with
  | [] => hist
  | (b, ok, _) :: trace' => history backend trace' (if decide (b = backend) then ok :: hist else hist)
  end.

(** Every registered backend is tracked by its history. *)
Definition hc_tracks (c : HealthChecker) (hists : gmap Z (list bool)) : Prop :=
  ∀ b, match hc_backends c !! b, hists !! b with
       | Some h, Some hist => tracks (fall c) (rise c) hist h
       | None, None => True
       | _, _ => False
       end.

Lemma report_tracks backend ok now c hists :
  hc_tracks c hists → (∀ b hist, hists !! b = Some hist → zlen hist < u32_max) →
  ∃ c' f, report backend ok now c = Some (c', f) ∧ fall c' = fall c ∧ rise c' = rise c ∧
    hc_tracks c' (alter (cons ok) backend hists).
Proof.
  intros Ht Hl. unfold report. pose proof (Ht backend) as Hb.
  destruct (hc_backends c !! backend) as [h|] eqn:Eh, (hists !! backend) as [hist|] eqn:Ehist; try done.
  - destruct (report_entry_tracks _ _ _ _ ok now Hb (Hl _ _ Ehist)) as (h' & -> & Hh' & _). simpl.
    do 2 eexists. split; [done|]. split; [done|]. split; [done|]. intros b. simpl.
    destruct (decide (backend = b)) as [<-|].
    + by rewrite lookup_insert_eq, lookup_alter_eq, Ehist.
    + rewrite lookup_insert_ne, lookup_alter_ne by done. apply Ht.
  - exists c, false. do 3 (split; [done|]). intros b.
    destruct (decide (backend = b)) as [<-|].
    + by rewrite lookup_alter_eq, Eh, Ehist.
    + rewrite lookup_alter_ne by done. apply Ht.
Qed.

Lemma report_all_tracks trace : ∀ c hists,
  hc_tracks c hists → (∀ b hist, hists !! b = Some hist → zlen hist + zlen trace ≤ u32_max) →
  ∃ c' fs, report_all trace c = Some (c', fs) ∧ length fs = length trace ∧
    fall c' = fall c ∧ rise c' = rise c ∧
    hc_tracks c' (map_imap (λ b hist, Some (history b trace hist)) hists).
Proof.
  induction trace as [|[[b ok] now] trace IH]; intros c hists Ht Hl.
  { exists c, []. do 4 (split; [done|]). intros b. rewrite map_lookup_imap.
    specialize (Ht b). by destruct (hists !! b). }
  setoid_rewrite zlen_cons in Hl. pose proof (zlen_nonneg trace).
  destruct (report_tracks b ok now c hists Ht) as (c1 & f & E1 & Hf1 & Hr1 & Ht1).
  { intros b' hist Hb'. specialize (Hl _ _ Hb'). lia. }
  destruct (IH c1 _ Ht1) as (c2 & fs & E2 & Hlen & Hf2 & Hr2 & Ht2).
  { intros b' hist. destruct (decide (b = b')) as [<-|].
    - rewrite lookup_alter_eq. destruct (hists !! b) eqn:E; simpl; [|done]. intros [= <-].
      specialize (Hl _ _ E). rewrite zlen_cons. lia.
    - rewrite lookup_alter_ne by done. intros Hb'. specialize (Hl _ _ Hb'). lia. }
  exists c2, (f :: fs). split; [simpl; rewrite E1; simpl; by rewrite E2|].
  split; [simpl; lia|]. split; [congruence|]. split; [congruence|].
  intros b'. specialize (Ht2 b'). rewrite map_lookup_imap in *. simpl.
  destruct (decide (b = b')) as [<-|].
  - rewrite lookup_alter_eq in Ht2. by destruct (hists !! b).
  - rewrite lookup_alter_ne in Ht2 by done. by destruct (hists !! b').
Qed.

Lemma lookup_register_all bs c b :
  hc_backends (register_all bs c) !! b =
    if decide (b ∈ bs) then Some (mkBackendHealth Unknown None 0 u64_max) else hc_backends c !! b.
Proof.
  unfold register_all. induction bs as [|b' bs IH] using rev_ind.
  { by rewrite decide_False by set_solver. }
  rewrite foldl_app. cbn [foldl register with_backends hc_backends]. destruct (decide (b' = b)) as [<-|].
  - rewrite lookup_insert_eq, decide_True by set_solver. done.
  - rewrite lookup_insert_ne, IH by done. do 2 case_decide; set_solver.
Qed.

Lemma register_all_params bs c :
  fall (register_all bs c) = fall c ∧ rise (register_all bs c) = rise c.
Proof.
  unfold register_all. induction bs as [|b bs IH] using rev_ind; [done|]. by rewrite foldl_app.
Qed.

Lemma register_all_tracks bs c :
  hc_backends c = ∅ → hc_tracks (register_all bs c) (gset_to_gmap [] (list_to_set bs)).
Proof.
  intros Hc b. destruct (register_all_params bs c) as [-> ->].
  rewrite lookup_register_all, Hc, lookup_empty, lookup_gset_to_gmap.
  case_decide as Hb.
  - rewrite option_guard_True by set_solver. by split_and!.
  - by rewrite option_guard_False by set_solver.
Qed.

(** [C25] A checker that starts with a set of backends handles every
    sequence of up to [u32::MAX] reports without a panic; afterwards each
    registered backend is in the state its history of results prescribes:
    [Up] from [rise] successes in a row on, [Down] from [fall] failures in a
    row on, unchanged otherwise.  Reports of one backend do not affect
    another, and reports of unknown backends do nothing. *)
Theorem health_refines_history interval fl rs bs trace c :
  hc_new interval fl rs = Some c → zlen trace ≤ u32_max →
  ∃ c' fs, report_all trace (register_all bs c) = Some (c', fs) ∧
    ∀ b, state b c' = if decide (b ∈ bs) then Some (spec_state fl rs (history b trace [])) else None.
Proof.
  unfold hc_new. intros Hc Hl. destruct (_ && _); [|done]. injection Hc as <-.
  set (c0 := mkHealthChecker _ _ _ _).
  destruct (register_all_params bs c0) as [Hf Hr].
  destruct (report_all_tracks trace _ _ (register_all_tracks bs c0 eq_refl)) as (c' & fs & E & _ & Hf' & Hr' & Ht).
  { intros b hist. rewrite lookup_gset_to_gmap_Some. intros [_ <-]. unfold zlen in *. simpl. lia. }
  exists c', fs. split; [done|]. intros b. specialize (Ht b).
  rewrite map_lookup_imap, lookup_gset_to_gmap in Ht. unfold state.
  destruct (decide (b ∈ bs)) as [Hb|Hb].
  - rewrite option_guard_True in Ht by set_solver. simpl in Ht.
    destruct (hc_backends c' !! b) as [h|]; [|done]. destruct Ht as [Hs _].
    rewrite Hf', Hr', Hf, Hr in Hs. cbn. f_equal. exact Hs.
  - rewrite option_guard_False in Ht by set_solver. simpl in Ht. by destruct (hc_backends c' !! b).
Qed.

Lemma health_refines_history_witness :
  ∃ c c' fs, hc_new 1000 3 2 = Some c ∧
    report_all [(20, true, 0); (20, true, 1); (20, false, 2); (20, false, 3); (20, true, 4)]
      (register_all [20; 30] c) = Some (c', fs) ∧
    state 20 c' = Some Up ∧ state 30 c' = Some Unknown ∧ state 40 c' = None.
Proof.
  destruct (health_refines_history 1000 3 2 [20; 30]
    [(20, true, 0); (20, true, 1); (20, false, 2); (20, false, 3); (20, true, 4)]
    (mkHealthChecker ∅ 1000 3 2)) as (c' & fs & E & Hs); [reflexivity|by_eval|].
  exists (mkHealthChecker ∅ 1000 3 2), c', fs. rewrite !Hs. split_and!; [reflexivity|exact E|reflexivity..].
Defined.

(** ** Debouncing *)

Lemma run_take ok n hist : Z.of_nat n ≤ run ok hist → Forall (λ b, b = ok) (take n hist).
Proof.
  revert n. induction hist as [|b hist IH]; intros [|n]; simpl; try by constructor.
  case_decide; [|lia]. intros. constructor; [done|]. apply IH. lia.
Qed.

Lemma spec_state_flip fl rs ok hist :
  spec_state fl rs (ok :: hist) ≠ spec_state fl rs hist →
  spec_state fl rs (ok :: hist) = (if ok then Up else Down) ∧
  (if ok then rs else fl) ≤ run ok (ok :: hist).
Proof.
  rewrite spec_state_next. generalize (run ok (ok :: hist)) (spec_state fl rs hist). unfold next_state.
  intros r old. destruct ok; simpl.
  - destruct (Z.leb_spec rs r); [by auto|done].
  - destruct (Z.leb_spec fl r); [by auto|done].
Qed.

(** No flapping: a report flips a backend only at the end of a full
    run: the last [fall] results all failed and the backend goes down, or
    the last [rise] all succeeded and it comes up. *)
Theorem flip_needs_full_run hist h ok now fl rs h' :
  tracks fl rs hist h → zlen hist < u32_max → report_entry fl rs ok now h = Some (h', true) →
  bh_state h' = (if ok then Up else Down) ∧
  Forall (λ b, b = ok) (take (Z.to_nat (if ok then rs else fl)) (ok :: hist)) ∧
  (if ok then rs else fl) ≤ zlen (ok :: hist).
Proof.
  intros Ht Hl E. destruct (report_entry_tracks _ _ _ _ ok now Ht Hl) as (h1 & E1 & Ht1 & _).
  rewrite E in E1. injection E1 as <- Hfl. symmetry in Hfl. apply bool_decide_eq_true in Hfl.
  apply spec_state_flip in Hfl as [Hs Hr]. destruct Ht1 as [-> _]. split; [done|].
  pose proof (run_bound ok (ok :: hist)). split; [|lia]. apply run_take. lia.
Qed.

Lemma flip_needs_full_run_witness :
  report_entry 3 2 false 9 (mkBackendHealth Up (Some false) 2 8) =
    Some (mkBackendHealth Down (Some false) 0 9, true) ∧
  Forall (λ b, b = false) (take 3 [false; false; false; true; true]).
Proof.
  split; [reflexivity|].
  apply (flip_needs_full_run [false; false; true; true] (mkBackendHealth Up (Some false) 2 8) false 9 3 2
    (mkBackendHealth Down (Some false) 0 9)); [|by_eval|reflexivity].
  split_and!; [reflexivity..|by_eval|by_eval|]. intros ok [= <-]. by left.
Defined.

(** ** The two lists the agent reads *)

Lemma sort_u32_spec (l : list Z) : NoDup l → StronglySorted Z.lt (sort_u32 l) ∧ sort_u32 l ≡ₚ l.
Proof.
  intros Hnd. unfold sort_u32. split; [|apply merge_sort_Permutation].
  assert (Hs : StronglySorted Z.le (merge_sort Z.le l)) by (apply StronglySorted_merge_sort; [intros ???; lia|intros ??; lia]).
  assert (Hn : NoDup (merge_sort Z.le l)) by (by rewrite merge_sort_Permutation).
  induction Hs as [|x k Hk IH Hx]; [constructor|]. apply NoDup_cons in Hn as [Hni Hn].
  constructor; [auto|]. rewrite Forall_forall in *. intros y Hy. specialize (Hx y Hy).
  assert (x ≠ y) by (intros ->; done). lia.
Qed.

Lemma sort_u32_perm l k : l ≡ₚ k → sort_u32 l = sort_u32 k.
Proof.
  intros H. unfold sort_u32. apply (StronglySorted_unique Z.le).
  1-2: apply StronglySorted_merge_sort; [intros ???; lia|intros ??; lia].
  by rewrite !merge_sort_Permutation.
Qed.

Lemma NoDup_selection `{!HashOrder Z BackendHealth} (P : Z * BackendHealth → Prop)
    `{!∀ p, Decision (P p)} (m : gmap Z BackendHealth) : NoDup (filter P (hm_iter m)).*1.
Proof. eapply sublist_NoDup; [apply hm_iter_NoDup_fst|]. apply fmap_sublist, sublist_filter. Qed.

(** What it means for a list to be the sorted list of the backends that
    satisfy a predicate: strictly increasing, with exactly those members. *)
Lemma sorted_selection `{!HashOrder Z BackendHealth} (P : Z * BackendHealth → Prop)
    `{!∀ p, Decision (P p)} (m : gmap Z BackendHealth) b :
  StronglySorted Z.lt (sort_u32 (filter P (hm_iter m)).*1) ∧
  (b ∈ sort_u32 (filter P (hm_iter m)).*1 ↔ ∃ h, m !! b = Some h ∧ P (b, h)).
Proof.
  destruct (sort_u32_spec _ (NoDup_selection P m)) as [Hs Hp]. split; [done|].
  rewrite Hp, list_elem_of_fmap. split.
  - intros ([b' h] & -> & [HP Hin]%list_elem_of_filter). rewrite elem_of_hm_iter in Hin. eauto.
  - intros (h & Hb & HP). exists (b, h). split; [done|]. apply list_elem_of_filter.
    by rewrite elem_of_hm_iter.
Qed.

Lemma selection_order_free (o1 o2 : HashOrder Z BackendHealth) (P : Z * BackendHealth → Prop)
    `{!∀ p, Decision (P p)} (m : gmap Z BackendHealth) :
  sort_u32 (filter P (@hm_iter _ _ _ _ o1 m)).*1 = sort_u32 (filter P (@hm_iter _ _ _ _ o2 m)).*1.
Proof. apply sort_u32_perm. by rewrite (@hm_iter_perm _ _ _ _ o1), (@hm_iter_perm _ _ _ _ o2). Qed.

(** The alive list is the strictly increasing list of exactly the
    backends that are [Up], and the probe list that of exactly the
    registered backends that were never probed or not within the interval;
    neither depends on the hash map's iteration order. *)
Theorem health_lists_exact (o1 o2 : HashOrder Z BackendHealth) c now b :
  (StronglySorted Z.lt (alive_backends c) ∧
   (b ∈ alive_backends c ↔ state b c = Some Up) ∧
   @alive_backends o1 c = @alive_backends o2 c) ∧
  (StronglySorted Z.lt (probes_due now c) ∧
   (b ∈ probes_due now c ↔ ∃ h, hc_backends c !! b = Some h ∧
      (last_probe_ns h = u64_max ∨ interval_ns c ≤ sat_sub now (last_probe_ns h))) ∧
   @probes_due o1 now c = @probes_due o2 now c).
Proof.
  unfold alive_backends, probes_due. split.
  - destruct (sorted_selection (λ p, bh_state p.2 = Up) (hc_backends c) b) as [Hs Hm].
    split; [exact Hs|]. split; [|apply selection_order_free].
    rewrite Hm. unfold state. rewrite fmap_Some. naive_solver.
  - destruct (sorted_selection (λ p, probe_due now (interval_ns c) p.2) (hc_backends c) b) as [Hs Hm].
    split; [exact Hs|]. split; [|apply selection_order_free].
    rewrite Hm. unfold probe_due. setoid_rewrite Is_true_true. setoid_rewrite orb_true_iff.
    setoid_rewrite Z.eqb_eq. setoid_rewrite Z.leb_le. done.
Qed.

(** Two checkers with the same live backends list them alike. *)
Lemma alive_ext `{!HashOrder Z BackendHealth} c c' :
  (∀ b, state b c = Some Up ↔ state b c' = Some Up) → alive_backends c = alive_backends c'.
Proof.
  intros H. unfold alive_backends. apply sort_u32_perm. apply NoDup_Permutation.
  1-2: apply NoDup_selection.
  assert (Hs : ∀ c b, b ∈ (filter (λ p, bh_state p.2 = Up) (hm_iter (hc_backends c))).*1 ↔ state b c = Some Up).
  { intros c0 b. rewrite <-(proj2 (sort_u32_spec _ (NoDup_selection _ (hc_backends c0)))).
    rewrite (proj2 (sorted_selection (λ p, bh_state p.2 = Up) (hc_backends c0) b)).
    unfold state. rewrite fmap_Some. naive_solver. }
  intros b. by rewrite !Hs.
Qed.

(** A report that flips nothing leaves every state alone. *)
Lemma report_no_flip backend ok now c c' :
  report backend ok now c = Some (c', false) → ∀ b, state b c' = state b c.
Proof.
  unfold report, state. intros H b. destruct (hc_backends c !! backend) as [h|] eqn:E; [|by simplify_eq].
  unfold report_entry in H. destruct (if decide _ then _ else _) as [st|]; [|done]. cbn [mbind option_bind] in H.
  destruct (decide _) as [Hne|He]; cbn in H; simplify_eq. simpl.
  destruct (decide (backend = b)) as [<-|]; [by rewrite lookup_insert_eq, E|by rewrite lookup_insert_ne].
Qed.

(** Reports keep the set of registered backends. *)
Lemma report_dom backend ok now c c' f :
  report backend ok now c = Some (c', f) → dom (hc_backends c') = dom (hc_backends c).
Proof.
  unfold report. destruct (hc_backends c !! backend) as [h|] eqn:E; [|intros; by simplify_eq].
  destruct (report_entry _ _ _ _ _) as [[h' f']|]; cbn; intros; simplify_eq. simpl.
  apply dom_insert_lookup_L. eauto.
Qed.

Lemma alive_size `{!HashOrder Z BackendHealth} c : zlen (alive_backends c) ≤ Z.of_nat (size (hc_backends c)).
Proof.
  unfold alive_backends, sort_u32, zlen. rewrite merge_sort_Permutation, length_fmap.
  apply inj_le. etrans; [apply length_filter|]. by rewrite length_hm_iter.
Qed.
