(* ===== verification/LutPublish.v ===== *)
(** * Publication of lookup tables: the data and the sequential operations

    Models [crates/xdp-edge/src/control/lut_publish.rs]: two buffers, an
    active index, a reader count per buffer and a version, as the values they
    have with no thread in the middle of an operation.  The threads, with the
    orderings of their atomic accesses, are in [LutConcurrent].  An index into
    the pair of buffers is a [bool]: [false] is buffer 0, [true] is buffer 1,
    so [1 - cur] is [negb cur]. *)

From Stdlib Require Import Znumtheory.
From S2P Require Import Prelude XdpPacket Maglev.

(** ** Data *)

(** An array of two. *)
Record pair2 (A : Type) := mkPair2 { at0 : A; at1 : A }.
Arguments mkPair2 {A} _ _.
Arguments at0 {A} _.
Arguments at1 {A} _.

Definition sel {A} (i : bool) (p : pair2 A) : A := if i then at1 p else at0 p.
Definition upd {A} (i : bool) (x : A) (p : pair2 A) : pair2 A :=
  if i then mkPair2 (at0 p) x else mkPair2 x (at1 p).

Lemma sel_upd {A} i j (x : A) p : sel i (upd j x p) = if decide (i = j) then x else sel i p.
Proof. by destruct i, j. Qed.

Record LutPublisher := mkPublisher {
  pub_m : Z;
  pub_backends : pair2 (list Z);
  pub_tables : pair2 (list Z);
  readers : pair2 Z;
  active : bool;
  version : Z
}.

Definition publisher_new (m : Z) (initial_backends : list Z) : option LutPublisher :=
  table ← build_lut m initial_backends;
  Some (mkPublisher m (mkPair2 initial_backends [])
          (mkPair2 table (replicate (Z.to_nat m) u32_max)) (mkPair2 0 0) false 1).

Definition set_table (i : bool) (t : list Z) (p : LutPublisher) : LutPublisher :=
  mkPublisher (pub_m p) (pub_backends p) (upd i t (pub_tables p)) (readers p) (active p) (version p).
Definition set_pub_backends (i : bool) (b : list Z) (p : LutPublisher) : LutPublisher :=
  mkPublisher (pub_m p) (upd i b (pub_backends p)) (pub_tables p) (readers p) (active p) (version p).
Definition set_readers (i : bool) (n : Z) (p : LutPublisher) : LutPublisher :=
  mkPublisher (pub_m p) (pub_backends p) (pub_tables p) (upd i n (readers p)) (active p) (version p).
Definition set_active (i : bool) (p : LutPublisher) : LutPublisher :=
  mkPublisher (pub_m p) (pub_backends p) (pub_tables p) (readers p) i (version p).
Definition set_version (v : Z) (p : LutPublisher) : LutPublisher :=
  mkPublisher (pub_m p) (pub_backends p) (pub_tables p) (readers p) (active p) v.

(** [LutSnapshot::lookup] on the buffer the snapshot borrows. *)
Definition snap_lookup (p : LutPublisher) (idx : bool) (flow_key : Z) : option Z :=
  let table := sel idx (pub_tables p) in
  if zlen table =? 0 then None else
  v ← vget table (flow_key mod zlen table);
  vget (sel idx (pub_backends p)) v.

(** Buffer [i] holds a backend list with its own table. *)
Definition complete (p : LutPublisher) (i : bool) : Prop :=
  build_lut (pub_m p) (sel i (pub_backends p)) = Some (sel i (pub_tables p)).

Lemma complete_lookup p i key :
  pub_m p ≤ 2 ^ 32 → zlen (sel i (pub_backends p)) ≤ u32_max → complete p i →
  ∃ b, snap_lookup p i key = Some b ∧ b ∈ sel i (pub_backends p).
Proof.
  intros Hm Hl Hc. destruct (build_lut_balanced _ _ _ Hm Hl Hc) as (Ht & Hv & _).
  assert (Hs : is_Some (build_lut (pub_m p) (sel i (pub_backends p)))) by eauto.
  assert (Hp : prime (pub_m p)).
  { destruct (prime_dec (pub_m p)); [done|]. unfold complete in Hc. rewrite build_lut_panics in Hc by auto. done. }
  pose proof (prime_ge_2 _ Hp). unfold snap_lookup. rewrite Ht.
  destruct (Z.eqb_spec (pub_m p) 0); [lia|].
  destruct (vget_lt_is_Some (sel i (pub_tables p)) (key mod pub_m p)) as [v Ev].
  { rewrite Ht. apply Z.mod_pos_bound. lia. }
  rewrite Ev. simpl.
  assert (Hvb : 0 ≤ v < zlen (sel i (pub_backends p))).
  { apply Hv. apply vget_Some in Ev as [_ Ev]. by eapply list_elem_of_lookup_2. }
  destruct (vget_lt_is_Some _ _ Hvb) as [b Eb]. exists b. split; [done|].
  apply vget_Some in Eb as [_ Eb]. by eapply list_elem_of_lookup_2.
Qed.

(** ** The sequential operations *)

(** [publish] run alone.  It does not return while a reader holds the shadow
    buffer; [None] also stands for the panics of [build_lut]. *)
Definition publish (bs : list Z) (p : LutPublisher) : option (LutPublisher * Z) :=
  let cur := active p in
  let shadow := negb cur in
  if negb (sel shadow (readers p) =? 0) then None else
  table ← build_lut (pub_m p) bs;
  let p := set_table shadow table p in
  let p := set_pub_backends shadow bs p in
  ver ← add_chk u64_max (version p) 1;
  let p := set_version ver p in
  Some (set_active shadow p, ver).

(** A snapshot taken with no writer running. *)
Definition snapshot (p : LutPublisher) : Z * list Z * list Z :=
  (version p, sel (active p) (pub_backends p), sel (active p) (pub_tables p)).

Lemma publish_effect bs p p' ver :
  publish bs p = Some (p', ver) →
  ver = version p + 1 ∧ version p' = ver ∧ readers p' = readers p ∧ pub_m p' = pub_m p ∧
  sel (active p') (pub_backends p') = bs ∧ complete p' (active p').
Proof.
  unfold publish. destruct (_ =? 0); [|done]. simpl.
  destruct (build_lut (pub_m p) bs) as [table|] eqn:Eb; [|done]. simpl.
  destruct (add_chk u64_max (version p) 1) as [v|] eqn:Ev; [|done]. intros [= <- <-].
  apply add_chk_Some in Ev as [-> _]. unfold complete. simpl. rewrite !sel_upd, !decide_True by done. done.
Qed.

Lemma publish_ok bs p :
  sel (negb (active p)) (readers p) = 0 → prime (pub_m p) → pub_m p ≤ 2 ^ 32 →
  bs ≠ [] → zlen bs ≤ u32_max → version p < u64_max →
  ∃ p' ver, publish bs p = Some (p', ver).
Proof.
  intros Hr Hp Hm Hne Hl Hv. unfold publish. rewrite Hr. simpl.
  destruct (build_lut_ok (pub_m p) bs) as (t & -> & _); try done. simpl.
  rewrite add_chk_ok by lia. simpl. eauto.
Qed.
