(* ===== verification/LutConcurrent.v ===== *)
(** * Publication of lookup tables: the threads

    Models the concurrency of [crates/xdp-edge/src/control/lut_publish.rs]:
    one writer in [publish] and any number of readers in [snapshot] and
    [drop], over a memory with the orderings the code asks for.

    Every atomic location keeps the history of its messages, each with the
    view its writer released; a thread has a view of its own.  An [Acquire]
    load may return any message that the thread's view does not exclude, and
    joins the message's view; a [Release] store releases the thread's view; a
    read-modify-write reads the newest message and continues its release
    sequence.  The buffers are plain memory: a write is counted, and a view
    says how many of the writes of a buffer happen before its thread's next
    action.

    The parameter [fresh] restricts the runs.  With [fresh = true] the two
    loads that decide about the reuse of a buffer, the writer's load of the
    count (line 85) and a reader's second load of the index (line 109),
    return the newest message; every other load may be stale.  With [fresh =
    false] nothing is assumed beyond the orderings in the source.  The
    snapshots are sound in the first case and not in the second. *)

From S2P Require Import Prelude XdpPacket Maglev LutPublish.

(** ** Views *)

(** How much of each location a thread has seen: the number of the newest
    message of an atomic location, the number of plain writes of a buffer. *)
Record View := mkView {
  v_active : nat;
  v_readers : pair2 nat;
  v_version : nat;
  v_writes : pair2 nat
}.

Definition pmax (p q : pair2 nat) : pair2 nat :=
  mkPair2 (Nat.max (at0 p) (at0 q)) (Nat.max (at1 p) (at1 q)).

#[export] Instance view_join : Join View := λ V W,
  mkView (Nat.max (v_active V) (v_active W)) (pmax (v_readers V) (v_readers W))
    (Nat.max (v_version V) (v_version W)) (pmax (v_writes V) (v_writes W)).

Definition view0 : View := mkView 0 (mkPair2 0%nat 0%nat) 0 (mkPair2 0%nat 0%nat).

Definition at_active (k : nat) (V : View) : View :=
  mkView k (v_readers V) (v_version V) (v_writes V).
Definition at_readers (i : bool) (k : nat) (V : View) : View :=
  mkView (v_active V) (upd i k (v_readers V)) (v_version V) (v_writes V).
Definition at_version (k : nat) (V : View) : View :=
  mkView (v_active V) (v_readers V) k (v_writes V).
Definition at_writes (i : bool) (k : nat) (V : View) : View :=
  mkView (v_active V) (v_readers V) (v_version V) (upd i k (v_writes V)).

Lemma sel_pmax i p q : sel i (pmax p q) = Nat.max (sel i p) (sel i q).
Proof. by destruct i. Qed.

(** ** The memory *)

(** The messages of an atomic location, oldest first. *)
Definition history (A : Type) : Type := list (A * View).

Definition newest {A} (d : A) (h : history A) : A :=
  match last h with Some (x, _) => x | None => d end.

Record Mem := mkMem {
  me_m : Z;
  me_backends : pair2 (list Z);
  me_tables : pair2 (list Z);
  me_writes : pair2 nat;
  me_readers : pair2 (history Z);
  me_active : history bool;
  me_version : history Z
}.

(** The publisher with every cell at its newest value. *)
Definition now (M : Mem) : LutPublisher :=
  mkPublisher (me_m M) (me_backends M) (me_tables M)
    (mkPair2 (newest 0 (at0 (me_readers M))) (newest 0 (at1 (me_readers M))))
    (newest false (me_active M)) (newest 0 (me_version M)).

(** The memory [LutPublisher::new] hands out. *)
Definition mem_of (p : LutPublisher) : Mem :=
  mkMem (pub_m p) (pub_backends p) (pub_tables p) (mkPair2 0%nat 0%nat)
    (mkPair2 [(at0 (readers p), view0)] [(at1 (readers p), view0)])
    [(active p, view0)] [(version p, view0)].

Definition put_table (i : bool) (t : list Z) (M : Mem) : Mem :=
  mkMem (me_m M) (me_backends M) (upd i t (me_tables M)) (upd i (S (sel i (me_writes M))) (me_writes M))
    (me_readers M) (me_active M) (me_version M).
Definition put_backends (i : bool) (b : list Z) (M : Mem) : Mem :=
  mkMem (me_m M) (upd i b (me_backends M)) (me_tables M) (upd i (S (sel i (me_writes M))) (me_writes M))
    (me_readers M) (me_active M) (me_version M).
Definition put_readers (i : bool) (x : Z * View) (M : Mem) : Mem :=
  mkMem (me_m M) (me_backends M) (me_tables M) (me_writes M)
    (upd i (sel i (me_readers M) ++ [x]) (me_readers M)) (me_active M) (me_version M).
Definition put_active (x : bool * View) (M : Mem) : Mem :=
  mkMem (me_m M) (me_backends M) (me_tables M) (me_writes M)
    (me_readers M) (me_active M ++ [x]) (me_version M).
Definition put_version (x : Z * View) (M : Mem) : Mem :=
  mkMem (me_m M) (me_backends M) (me_tables M) (me_writes M)
    (me_readers M) (me_active M) (me_version M ++ [x]).

(** A load returns message [k], which must be no older than the thread's own
    view [ts] of the location. *)
Definition reads {A} (h : history A) (ts k : nat) (x : A) (W : View) : Prop :=
  h !! k = Some (x, W) ∧ (ts ≤ k)%nat.

(** ... and, where [fresh] asks for it, is the newest one. *)
Definition reads_fresh {A} (fresh : bool) (h : history A) (ts k : nat) (x : A) (W : View) : Prop :=
  reads h ts k x W ∧ (fresh = true → S k = length h).

(** ** The writer, step by step *)

(** Where the writer is in [publish]: before the call, spinning on the
    readers of the shadow buffer, with the table built, with the table
    written, with the backends written, with the version taken. *)
Inductive wpc :=
  | WIdle
  | WWait (cur : bool) (bs : list Z)
  | WBuilt (cur : bool) (bs table : list Z)
  | WTable (cur : bool) (bs : list Z)
  | WBoth (cur : bool)
  | WVersioned (cur : bool) (ver : Z).

Inductive wstep (fresh : bool) : Mem → View → wpc → Mem → View → wpc → Prop :=
  | wstep_load M V bs k cur W :
      reads (me_active M) (v_active V) k cur W →
      wstep fresh M V WIdle M (V ⊔ W) (WWait cur bs)
  | wstep_spin M V cur bs k n W :
      reads (sel (negb cur) (me_readers M)) (sel (negb cur) (v_readers V)) k n W → n ≠ 0 →
      wstep fresh M V (WWait cur bs) M (V ⊔ W) (WWait cur bs)
  | wstep_build M V cur bs k W table :
      reads_fresh fresh (sel (negb cur) (me_readers M)) (sel (negb cur) (v_readers V)) k 0 W →
      build_lut (me_m M) bs = Some table →
      wstep fresh M V (WWait cur bs) M (V ⊔ W) (WBuilt cur bs table)
  | wstep_table M V cur bs table :
      wstep fresh M V (WBuilt cur bs table)
        (put_table (negb cur) table M)
        (at_writes (negb cur) (S (sel (negb cur) (me_writes M))) V) (WTable cur bs)
  | wstep_backends M V cur bs :
      wstep fresh M V (WTable cur bs)
        (put_backends (negb cur) bs M)
        (at_writes (negb cur) (S (sel (negb cur) (me_writes M))) V) (WBoth cur)
  | wstep_version M V cur v W ver V' :
      last (me_version M) = Some (v, W) → add_chk u64_max v 1 = Some ver →
      V' = at_version (length (me_version M)) (V ⊔ W) →
      wstep fresh M V (WBoth cur) (put_version (ver, V') M) V' (WVersioned cur ver)
  | wstep_flip M V cur ver V' :
      V' = at_active (length (me_active M)) V →
      wstep fresh M V (WVersioned cur ver) (put_active (negb cur, V') M) V' WIdle.

(** ** A reader, step by step *)

(** Where a reader is in the loop of [snapshot]: outside, with the index
    loaded, counted, about to undo a count that came too late, past the
    check, holding a snapshot. *)
Inductive rpc :=
  | RIdle
  | RLoaded (idx : bool)
  | RCounted (idx : bool)
  | RRetry (idx : bool)
  | RChecked (idx : bool)
  | RHold (idx : bool) (ver : Z).

(** [readers[idx].fetch_sub(1, Release)]: the thread's view is released, what
    the previous message released is not acquired. *)
Inductive uncount (idx : bool) (M : Mem) (V : View) : Mem → View → Prop :=
  | uncount_intro n W V' :
      last (sel idx (me_readers M)) = Some (n, W) →
      V' = at_readers idx (length (sel idx (me_readers M))) V →
      uncount idx M V (put_readers idx (wrap64 (n - 1), V' ⊔ W) M) V'.

Inductive rstep (fresh : bool) : Mem → View → rpc → Mem → View → rpc → Prop :=
  | rstep_load M V k idx W :
      reads (me_active M) (v_active V) k idx W →
      rstep fresh M V RIdle M (V ⊔ W) (RLoaded idx)
  | rstep_count M V idx n W V' :
      last (sel idx (me_readers M)) = Some (n, W) →
      V' = at_readers idx (length (sel idx (me_readers M))) (V ⊔ W) →
      rstep fresh M V (RLoaded idx) (put_readers idx (wrap64 (n + 1), V') M) V' (RCounted idx)
  | rstep_check M V idx k W :
      reads_fresh fresh (me_active M) (v_active V) k idx W →
      rstep fresh M V (RCounted idx) M (V ⊔ W) (RChecked idx)
  | rstep_late M V idx k a W :
      reads (me_active M) (v_active V) k a W → a ≠ idx →
      rstep fresh M V (RCounted idx) M (V ⊔ W) (RRetry idx)
  | rstep_retry M V idx M' V' :
      uncount idx M V M' V' → rstep fresh M V (RRetry idx) M' V' RIdle
  | rstep_version M V idx k ver W :
      reads (me_version M) (v_version V) k ver W →
      rstep fresh M V (RChecked idx) M (V ⊔ W) (RHold idx ver)
  | rstep_drop M V idx ver M' V' :
      uncount idx M V M' V' → rstep fresh M V (RHold idx ver) M' V' RIdle.

(** ** The system *)

Record sys := mkSys {
  mem : Mem;
  writer : wpc * View;
  threads : gmap nat (rpc * View)
}.

Inductive step (fresh : bool) : sys → sys → Prop :=
  | step_writer M V w M' V' w' ths :
      wstep fresh M V w M' V' w' → step fresh (mkSys M (w, V) ths) (mkSys M' (w', V') ths)
  | step_reader M wr ths t V pc M' V' pc' :
      ths !! t = Some (pc, V) → rstep fresh M V pc M' V' pc' →
      step fresh (mkSys M wr ths) (mkSys M' wr (<[t := (pc', V')]> ths)).

(** A published table, an idle writer and a fixed set of idle readers. *)
Definition init (m : Z) (bs : list Z) (tids : gset nat) (s : sys) : Prop :=
  ∃ p, publisher_new m bs = Some p ∧
    s = mkSys (mem_of p) (WIdle, view0) (gset_to_gmap (RIdle, view0) tids).

Definition reachable (fresh : bool) (m : Z) (bs : list Z) (tids : gset nat) (s : sys) : Prop :=
  ∃ s0, init m bs tids s0 ∧ rtc (step fresh) s0 s.

(** ** The invariant *)

(** The threads that a reader count includes, and those past the check. *)
Definition counts (i : bool) (pc : rpc) : bool :=
  match pc with
  | RCounted j | RRetry j | RChecked j | RHold j _ => Bool.eqb i j
  | _ => false
  end.

Definition holds (i : bool) (pc : rpc) : bool :=
  match pc with
  | RChecked j | RHold j _ => Bool.eqb i j
  | _ => false
  end.

Definition count (i : bool) (ths : gmap nat (rpc * View)) : Z :=
  Z.of_nat (size (filter (λ p, counts i p.2.1 = true) ths)).

(** The writer may be writing buffer [i]. *)
Definition writing (i : bool) (w : wpc) : bool :=
  match w with
  | WBuilt cur _ _ | WTable cur _ | WBoth cur | WVersioned cur _ => Bool.eqb i (negb cur)
  | _ => false
  end.

Definition w_cur (w : wpc) : option bool :=
  match w with
  | WIdle => None
  | WWait cur _ | WBuilt cur _ _ | WTable cur _ | WBoth cur | WVersioned cur _ => Some cur
  end.

(** What the writer has done to the shadow buffer so far. *)
Definition progress (p : LutPublisher) (w : wpc) : Prop :=
  match w with
  | WBuilt _ bs table => build_lut (pub_m p) bs = Some table
  | WTable cur bs => build_lut (pub_m p) bs = Some (sel (negb cur) (pub_tables p))
  | WBoth cur | WVersioned cur _ => complete p (negb cur)
  | _ => True
  end.

(** View [V] includes every write of buffer [i]. *)
Definition covers (M : Mem) (V : View) (i : bool) : Prop :=
  (sel i (me_writes M) ≤ sel i (v_writes V))%nat.

Record inv (s : sys) : Prop := mkInv {
  inv_count : ∀ i, ∃ W, last (sel i (me_readers (mem s))) = Some (count i (threads s), W);
  inv_active : ∃ a W, last (me_active (mem s)) = Some (a, W) ∧
    complete (now (mem s)) a ∧ covers (mem s) W a ∧
    (∀ cur, w_cur (writer s).1 = Some cur → cur = a);
  inv_seen : (length (me_active (mem s)) ≤ S (v_active (writer s).2))%nat;
  inv_own : ∀ i, covers (mem s) (writer s).2 i;
  inv_progress : progress (now (mem s)) (writer s).1;
  inv_held : ∀ t pc V i, threads s !! t = Some (pc, V) → holds i pc = true →
    complete (now (mem s)) i ∧ covers (mem s) V i ∧ writing i (writer s).1 = false
}.

(** ** Counting *)

Lemma count_bound i ths : 0 ≤ count i ths ≤ Z.of_nat (size ths).
Proof. unfold count. split; [lia|]. apply inj_le, map_size_filter. Qed.

Lemma count_fresh i t x ths :
  ths !! t = None → count i (<[t := x]> ths) = (if counts i x.1 then 1 else 0) + count i ths.
Proof.
  intros Ht. unfold count. destruct (counts i x.1) eqn:E.
  - rewrite map_filter_insert_True by done. rewrite map_size_insert_None; [lia|].
    by apply map_lookup_filter_None_2; left.
  - rewrite map_filter_insert_False by (simpl; congruence). rewrite delete_id by done. lia.
Qed.

(** The count after one thread moved. *)
Lemma count_move i t x x' ths :
  ths !! t = Some x →
  count i (<[t := x']> ths) =
    count i ths - (if counts i x.1 then 1 else 0) + (if counts i x'.1 then 1 else 0).
Proof.
  intros Ht. assert (Hd : delete t ths !! t = None) by apply lookup_delete_eq.
  rewrite <-(insert_delete_id ths t x Ht) at 2. rewrite <-insert_delete_eq.
  rewrite !count_fresh by done. lia.
Qed.

Lemma count_pos i t x ths : ths !! t = Some x → counts i x.1 = true → 0 < count i ths.
Proof.
  intros Ht Hc. pose proof (count_move i t x (RIdle, view0) ths Ht) as E. rewrite Hc in E. simpl in E.
  pose proof (count_bound i (<[t := (RIdle, view0)]> ths)). lia.
Qed.

Lemma holds_counts i pc : holds i pc = true → counts i pc = true.
Proof. by destruct pc. Qed.

(** ** What a view covers *)

Lemma covers_join_l M V W i : covers M V i → covers M (V ⊔ W) i.
Proof. unfold covers. cbn [v_writes join view_join]. rewrite sel_pmax. lia. Qed.

Lemma covers_join_r M V W i : covers M W i → covers M (V ⊔ W) i.
Proof. unfold covers. cbn [v_writes join view_join]. rewrite sel_pmax. lia. Qed.

Create HintDb lutview.
#[export] Hint Resolve covers_join_l covers_join_r : lutview.

Lemma reads_last {A} (h : history A) ts k x W :
  reads h ts k x W → S k = length h → last h = Some (x, W).
Proof. intros [Hk _] Hl. rewrite last_lookup, <-Hl. done. Qed.

Lemma reads_own {A} (h : history A) ts k x W :
  reads h ts k x W → (length h ≤ S ts)%nat → last h = Some (x, W).
Proof.
  intros Hr Hl. eapply reads_last; [done|]. destruct Hr as [Hk Hts].
  apply lookup_lt_Some in Hk. lia.
Qed.

(** ** Preservation *)

Lemma inv_init m bs tids s : init m bs tids s → inv s.
Proof.
  intros (p & Hp & ->). unfold publisher_new in Hp. destruct (build_lut m bs) as [table|] eqn:E; [|done].
  simplify_eq/=.
  assert (H0 : ∀ i, count i (gset_to_gmap (RIdle, view0) tids) = 0).
  { intros i. unfold count. rewrite map_empty_filter_2; [done|].
    intros t pc [_ <-]%lookup_gset_to_gmap_Some. done. }
  constructor; simpl; try done.
  - intros i. rewrite H0. destruct i; eexists; done.
  - exists false, view0. split_and!; try done. unfold covers. simpl. lia.
  - intros []; unfold covers; simpl; lia.
  - intros t pc V i [_ [= <- <-]]%lookup_gset_to_gmap_Some. done.
Qed.

(** A write of the shadow buffer leaves the other one and its views alone. *)
Lemma put_table_other i j t M : i ≠ j →
  (complete (now (put_table j t M)) i ↔ complete (now M) i) ∧
  (∀ V, covers (put_table j t M) V i ↔ covers M V i).
Proof. intros Hn. unfold complete, covers. simpl. by rewrite !sel_upd, !decide_False. Qed.

Lemma put_backends_other i j b M : i ≠ j →
  (complete (now (put_backends j b M)) i ↔ complete (now M) i) ∧
  (∀ V, covers (put_backends j b M) V i ↔ covers M V i).
Proof. intros Hn. unfold complete, covers. simpl. by rewrite !sel_upd, !decide_False. Qed.

Lemma writing_ne i cur : Bool.eqb i (negb cur) = false → i ≠ negb cur.
Proof. intros H ->. by rewrite eqb_reflx in H. Qed.

(** A thread's own write is in its view. *)
Lemma own_write M M' V j :
  me_writes M' = upd j (S (sel j (me_writes M))) (me_writes M) →
  (∀ i, covers M V i) → ∀ i, covers M' (at_writes j (S (sel j (me_writes M))) V) i.
Proof.
  intros E Hc i. unfold covers in *. rewrite E. cbn [v_writes at_writes]. rewrite !sel_upd.
  case_decide; [done|]. apply Hc.
Qed.

Lemma inv_wstep M V w M' V' w' ths :
  wstep true M V w M' V' w' → inv (mkSys M (w, V) ths) → inv (mkSys M' (w', V') ths).
Proof.
  intros Hs [Hc (a & Wa & Ela & Hca & Hva & Hcur) Hseen Hown Hp Hh]. simpl in *.
  destruct Hs as [M V bs k cur W Hr|M V cur bs k n W Hr Hn|M V cur bs k W table [Hr Hf] Hb
    |M V cur bs table|M V cur bs|M V cur v W ver V' Hl Hv ->|M V cur ver V' ->].
  - assert (E : cur = a). { pose proof (reads_own _ _ _ _ _ Hr Hseen). congruence. }
    constructor; simpl in *; eauto with lutview; [|lia].
    exists a, Wa. split_and!; try done. by intros ? [= <-].
  - constructor; simpl in *; eauto with lutview; [|lia].
    exists a, Wa. split_and!; try done.
  - pose proof (reads_last _ _ _ _ _ Hr (Hf eq_refl)) as El.
    constructor; simpl in *; eauto with lutview; [exists a, Wa; split_and!; done|lia|].
    intros t pc V0 i Ht Hi. destruct (Hh t pc V0 i Ht Hi) as (Hco & Hcv & _). split_and!; [done..|].
    destruct (Bool.eqb i (negb cur)) eqn:E; [|done]. apply eqb_prop in E as ->.
    pose proof (count_pos (negb cur) t _ ths Ht (holds_counts _ _ Hi)). destruct (Hc (negb cur)) as [W0 E0].
    rewrite El in E0. simplify_eq. lia.
  - pose proof (Hcur cur eq_refl) as <-.
    assert (Hne : cur ≠ negb cur) by (by destruct cur).
    constructor; simpl; try done.
    + exists cur, Wa. split_and!; try done; by apply put_table_other.
    + by apply own_write.
    + rewrite sel_upd, decide_True by done. done.
    + intros t pc V0 i Ht Hi. destruct (Hh t pc V0 i Ht Hi) as (Hco & Hcv & Hw).
      destruct (put_table_other i (negb cur) table M) as [E1 E2]; [by apply writing_ne|].
      split_and!; [by apply E1|by apply E2|done].
  - pose proof (Hcur cur eq_refl) as <-.
    assert (Hne : cur ≠ negb cur) by (by destruct cur).
    constructor; simpl; try done.
    + exists cur, Wa. split_and!; try done; by apply put_backends_other.
    + by apply own_write.
    + unfold complete. simpl. rewrite sel_upd, decide_True by done. done.
    + intros t pc V0 i Ht Hi. destruct (Hh t pc V0 i Ht Hi) as (Hco & Hcv & Hw).
      destruct (put_backends_other i (negb cur) bs M) as [E1 E2]; [by apply writing_ne|].
      split_and!; [by apply E1|by apply E2|done].
  - constructor; simpl in *; try done; [exists a, Wa; split_and!; done|lia|].
    intros i. apply (covers_join_l M V W), Hown.
  - constructor; simpl in *; try done; [|rewrite length_app; simpl; lia|].
    + exists (negb cur), (at_active (length (me_active M)) V). rewrite last_snoc. split_and!; try done. apply Hown.
    + intros t pc V0 i Ht Hi. destruct (Hh t pc V0 i Ht Hi) as (Hco & Hcv & Hw). done.
Qed.

Lemma wrap64_small x : 0 ≤ x < 2 ^ 64 → wrap64 x = x.
Proof. intros. unfold wrap64. by rewrite Z.mod_small. Qed.

(** What a step of a reader leaves alone: everything but the counts. *)
Lemma rstep_frame fresh M V pc M' V' pc' :
  rstep fresh M V pc M' V' pc' →
  me_m M' = me_m M ∧ me_backends M' = me_backends M ∧ me_tables M' = me_tables M ∧
  me_writes M' = me_writes M ∧ me_active M' = me_active M ∧ me_version M' = me_version M ∧
  (pc ≠ RIdle → ∀ i, covers M V i → pc' ≠ RIdle → covers M' V' i).
Proof.
  destruct 1; try (by split_and!; eauto with lutview); try (match goal with H : uncount _ _ _ _ _ |- _ => destruct H end);
    split_and!; try done; intros _ i Hcv _; subst.
  by apply (covers_join_l M V W).
Qed.

(** ... and the counts stay exact. *)
Lemma rstep_counts fresh M t V pc M' V' pc' ths :
  rstep fresh M V pc M' V' pc' → ths !! t = Some (pc, V) → Z.of_nat (size ths) < 2 ^ 64 →
  (∀ i, ∃ W, last (sel i (me_readers M)) = Some (count i ths, W)) →
  ∀ i, ∃ W, last (sel i (me_readers M')) = Some (count i (<[t := (pc', V')]> ths), W).
Proof.
  intros Hs Ht Hsz Hc i. pose proof (count_bound i ths). pose proof (count_bound i (<[t := (pc', V')]> ths)) as Hb.
  rewrite map_size_insert_Some in Hb by (rewrite Ht; eauto).
  destruct (Hc i) as [Wi Ei]. rewrite (count_move i t (pc, V)) in * by done. simpl in *.
  destruct Hs; simpl in *; try (rewrite Ei; eexists; do 2 f_equal; repeat case_match; lia).
  all: try match goal with H : uncount _ _ _ _ _ |- _ => destruct H as [n W V' Hl ->] end.
  all: simpl; rewrite sel_upd; case_decide as Hd;
    [subst i; rewrite last_snoc; eexists; rewrite eqb_reflx in *; simplify_eq; rewrite wrap64_small by lia; do 2 f_equal; lia|].
  all: assert (E : Bool.eqb i idx = false) by (by apply eqb_false_iff); rewrite E in *;
    rewrite Ei; eexists; do 2 f_equal; lia.
Qed.

Lemma inv_rstep M t V pc M' V' pc' wr ths :
  rstep true M V pc M' V' pc' → ths !! t = Some (pc, V) → Z.of_nat (size ths) < 2 ^ 64 →
  inv (mkSys M wr ths) → inv (mkSys M' wr (<[t := (pc', V')]> ths)).
Proof.
  intros Hs Ht Hsz [Hc (a & Wa & Ela & Hca & Hva & Hcur) Hseen Hown Hp Hh]. simpl in *.
  destruct (rstep_frame _ _ _ _ _ _ _ Hs) as (Em & Eb & Et & Ew & Ea & Ev & Hcv).
  assert (Hcomp : ∀ i, complete (now M') i ↔ complete (now M) i) by (intros i; unfold complete; simpl; by rewrite Em, Eb, Et).
  assert (Hcov : ∀ W i, covers M' W i ↔ covers M W i) by (intros W i; unfold covers; by rewrite Ew).
  constructor; simpl.
  - by eapply rstep_counts.
  - rewrite Ea. exists a, Wa. split_and!; try done; [by apply Hcomp|by apply Hcov].
  - by rewrite Ea.
  - intros i. by apply Hcov.
  - unfold progress in *. simpl in *. rewrite ?Em, ?Et. destruct wr.1; try done; by apply Hcomp.
  - intros t' pc0 V0 i. rewrite Hcomp, Hcov. rewrite lookup_insert_Some. intros [[<- [= <- <-]]|[_ Ht']] Hi; [|by eapply Hh].
    destruct Hs as [| |M V idx k W [Hr Hf]| | |M V idx k ver W Hr|]; simpl in Hi; try done; apply eqb_prop in Hi as ->.
    + pose proof (reads_last _ _ _ _ _ Hr (Hf eq_refl)) as El. simplify_eq. split_and!; [done|by eauto with lutview|].
      destruct wr.1; simpl in *; try done; rewrite (Hcur _ eq_refl); by destruct a.
    + destruct (Hh t (RChecked idx) V idx) as (? & ? & ?); [done|simpl; by rewrite eqb_reflx|].
      split_and!; eauto with lutview.
Qed.

Lemma inv_step s s' : Z.of_nat (size (threads s)) < 2 ^ 64 → step true s s' → inv s → inv s'.
Proof.
  intros Hsz Hs. destruct Hs; simpl in *; [by eapply inv_wstep|by eapply inv_rstep].
Qed.

Lemma step_threads fresh s s' : step fresh s s' → dom (threads s') = dom (threads s).
Proof.
  intros []; simpl; [done|]. apply dom_insert_lookup_L. eauto.
Qed.

Lemma reachable_inv m bs tids s : Z.of_nat (size tids) < 2 ^ 64 → reachable true m bs tids s → inv s.
Proof.
  intros Hsz (s0 & Hi & Hr).
  assert (Hd : dom (threads s0) = tids).
  { destruct Hi as (p & _ & ->). simpl. apply dom_gset_to_gmap. }
  pose proof (inv_init _ _ _ _ Hi) as Hinv. clear Hi.
  induction Hr as [s|s s1 s2 H1 _ IH]; [done|].
  apply IH; [by rewrite (step_threads _ _ _ H1)|].
  eapply inv_step; [|done..]. by rewrite <-size_dom, Hd.
Qed.

Lemma step_me_m fresh s s' : step fresh s s' → me_m (mem s') = me_m (mem s).
Proof.
  intros [? ? ? ? ? ? ? Hs|? ? ? ? ? ? ? ? ? ? Hs]; simpl; [by destruct Hs|].
  by destruct (rstep_frame _ _ _ _ _ _ _ Hs) as (-> & _).
Qed.

Lemma reachable_me_m fresh m bs tids s : reachable fresh m bs tids s → me_m (mem s) = m.
Proof.
  intros (s0 & (p & Hp & ->) & Hr). unfold publisher_new in Hp.
  destruct (build_lut m bs) as [table|] eqn:E; simplify_eq/=.
  remember (mkSys _ _ _) as s0 eqn:E0.
  assert (Hm : me_m (mem s0) = m) by (by subst). clear E0 E.
  induction Hr as [|s1 s2 s3 H12 _ IH]; [done|]. apply IH. by rewrite (step_me_m _ _ _ H12).
Qed.

(** ** Safety of the readers *)

(** [C3] In every run of one writer and any number of readers under the
    code's acquire and release orderings, in which the writer's load that
    finds no reader and a reader's load that confirms the index return the
    newest value (every other load may be stale): a reader that holds a
    snapshot borrows a complete table.  The table is the one built from the
    backend list it borrows; all writes of that buffer happen before the
    reader's accesses; the writer is not writing the buffer; and a lookup
    neither panics nor returns anything but one of those backends. *)
Theorem snapshot_complete m bs tids s t idx ver V key :
  Z.of_nat (size tids) < 2 ^ 64 → reachable true m bs tids s → m ≤ 2 ^ 32 →
  threads s !! t = Some (RHold idx ver, V) → zlen (sel idx (me_backends (mem s))) ≤ u32_max →
  build_lut m (sel idx (me_backends (mem s))) = Some (sel idx (me_tables (mem s))) ∧
  (sel idx (me_writes (mem s)) ≤ sel idx (v_writes V))%nat ∧
  writing idx (writer s).1 = false ∧
  ∃ b, snap_lookup (now (mem s)) idx key = Some b ∧ b ∈ sel idx (me_backends (mem s)).
Proof.
  intros Hsz Hr Hm Ht Hl. pose proof (reachable_inv _ _ _ _ Hsz Hr) as Hi.
  pose proof (reachable_me_m _ _ _ _ _ Hr) as Em.
  destruct (inv_held _ Hi t (RHold idx ver) V idx Ht) as (Hc & Hv & Hw); [simpl; apply eqb_reflx|].
  split_and!; [by rewrite <-Em|done..|].
  apply (complete_lookup (now (mem s))); [simpl; by rewrite Em|done|done].
Qed.

(** Steps during which thread [t] keeps its snapshot. *)
Definition step_holding (t : nat) (idx : bool) (ver : Z) (s s' : sys) : Prop :=
  step true s s' ∧ ∃ V, threads s' !! t = Some (RHold idx ver, V).

Lemma step_held_buffer s s' t idx ver V :
  inv s → threads s !! t = Some (RHold idx ver, V) → step true s s' →
  sel idx (me_tables (mem s')) = sel idx (me_tables (mem s)) ∧
  sel idx (me_backends (mem s')) = sel idx (me_backends (mem s)).
Proof.
  intros Hi Ht Hs. destruct (inv_held _ Hi t _ _ idx Ht) as (_ & _ & Hw); [simpl; apply eqb_reflx|].
  destruct Hs as [M V0 w M' V' w' ths Hs|M wr ths t' V0 pc M' V' pc' Ht' Hs]; simpl in *.
  - destruct Hs; simpl in *; rewrite ?sel_upd; try done;
      (rewrite decide_False; [done|by apply writing_ne]).
  - by destruct (rstep_frame _ _ _ _ _ _ _ Hs) as (_ & -> & -> & _).
Qed.

(** A snapshot is immutable while it is held: however many tables the
    writer publishes meanwhile, every lookup through the snapshot returns
    what it returned when the snapshot was taken. *)
Theorem snapshot_immutable m bs tids s s' t idx ver V key :
  Z.of_nat (size tids) < 2 ^ 64 → reachable true m bs tids s →
  threads s !! t = Some (RHold idx ver, V) → rtc (step_holding t idx ver) s s' →
  snap_lookup (now (mem s')) idx key = snap_lookup (now (mem s)) idx key.
Proof.
  intros Hsz Hr Ht Hs. revert V Ht. induction Hs as [s|s s1 s2 [H1 [V1 Ht1]] _ IH]; intros V Ht; [done|].
  assert (Hr1 : reachable true m bs tids s1).
  { destruct Hr as (s0 & ? & ?). exists s0. split; [done|]. by eapply rtc_r. }
  rewrite (IH Hr1 V1 Ht1). unfold snap_lookup. simpl.
  destruct (step_held_buffer s s1 t idx ver V) as [-> ->]; [by eapply reachable_inv|done..].
Qed.

(** ** The sequential [publish] is a run of the writer's steps alone *)

(** The messages that view [V] names exist. *)
Definition in_range (M : Mem) (V : View) : Prop :=
  (v_active V < length (me_active M))%nat ∧
  ∀ i, (sel i (v_readers V) < length (sel i (me_readers M)))%nat.

Lemma in_range_join M V W : in_range M V → in_range M W → in_range M (V ⊔ W).
Proof.
  intros [H1 H2] [H3 H4]. split; cbn [v_active v_readers join view_join]; [lia|].
  intros i. rewrite sel_pmax. specialize (H2 i). specialize (H4 i). lia.
Qed.

Lemma reads_newest {A} (h : history A) ts x W :
  last h = Some (x, W) → (ts < length h)%nat → ∃ k, reads h ts k x W ∧ S k = length h.
Proof.
  intros Hl Hts. exists (pred (length h)). rewrite last_lookup in Hl.
  split; [split; [done|lia]|]. destruct h; simpl in *; lia.
Qed.

Definition step_keeping (fresh : bool) (ths : gmap nat (rpc * View)) (s s' : sys) : Prop :=
  step fresh s s' ∧ threads s' = ths.

Lemma wstep_keeping fresh M V w M' V' w' ths :
  wstep fresh M V w M' V' w' → step_keeping fresh ths (mkSys M (w, V) ths) (mkSys M' (w', V') ths).
Proof. intros. split; [by constructor|done]. Qed.

Lemma newest_snoc {A} (d x : A) W h : newest d (h ++ [(x, W)]) = x.
Proof. unfold newest. by rewrite last_snoc. Qed.

Lemma newest_readers M i : sel i (readers (now M)) = newest 0 (sel i (me_readers M)).
Proof. by destruct i. Qed.

Lemma newest_Some {A} (d : A) h : h ≠ [] → ∃ W, last h = Some (newest d h, W).
Proof.
  intros Hne. unfold newest. destruct (last h) as [[x W]|] eqn:E; [eauto|]. by apply last_None in E.
Qed.

Lemma publish_steps fresh bs M V W p' ver ths :
  publish bs (now M) = Some (p', ver) →
  last (me_active M) = Some (active (now M), W) → me_version M ≠ [] →
  in_range M V → in_range M W →
  ∃ M' V', rtc (step_keeping fresh ths) (mkSys M (WIdle, V) ths) (mkSys M' (WIdle, V') ths) ∧ now M' = p'.
Proof.
  intros Hpub Hla Hne HV HW. set (cur := active (now M)) in *.
  unfold publish in Hpub. fold cur in Hpub. rewrite newest_readers in Hpub.
  destruct (Z.eqb_spec (newest 0 (sel (negb cur) (me_readers M))) 0) as [E0|]; [|done]. cbn [negb] in Hpub.
  apply bind_Some in Hpub as (table & Eb & (v & Ev & [= <- <-])%bind_Some).
  pose proof (in_range_join _ _ _ HV HW) as HVW.
  destruct (reads_newest _ (v_active V) _ _ Hla (proj1 HV)) as (k & Hk & _).
  destruct (newest_Some 0 (sel (negb cur) (me_readers M))) as [W1 Hl1].
  { intros E. pose proof (proj2 HVW (negb cur)) as Hlt. rewrite E in Hlt. simpl in Hlt. lia. }
  rewrite E0 in Hl1.
  destruct (reads_newest _ (sel (negb cur) (v_readers (V ⊔ W))) _ _ Hl1) as (k1 & Hk1 & Hk1'); [apply HVW|].
  destruct (newest_Some 0 (me_version M) Hne) as [W2 Hl2].
  eexists _, _. split.
  - eapply rtc_l; [apply wstep_keeping, (wstep_load fresh M V bs _ _ _ Hk)|].
    eapply rtc_l; [apply wstep_keeping, (wstep_build fresh M _ cur bs k1 W1 table); [by split|exact Eb]|].
    eapply rtc_l; [apply wstep_keeping, wstep_table|].
    eapply rtc_l; [apply wstep_keeping, wstep_backends|].
    eapply rtc_l; [apply wstep_keeping; eapply wstep_version; [exact Hl2|exact Ev|reflexivity]|].
    eapply rtc_l; [apply wstep_keeping; eapply wstep_flip; reflexivity|]. apply rtc_refl.
  - unfold put_active, put_version, put_backends, put_table, now.
    cbn -[newest]. by rewrite !newest_snoc.
Qed.

(** ** Runs *)

(** Three slots, one backend, one reader. *)
Definition tiny : LutPublisher :=
  mkPublisher 3 (mkPair2 [10] []) (mkPair2 [0; 0; 0] (replicate 3 u32_max)) (mkPair2 0 0) false 1.

Definition idle : gmap nat (rpc * View) := gset_to_gmap (RIdle, view0) {[0%nat]}.

Definition tiny_start : sys := mkSys (mem_of tiny) (WIdle, view0) idle.

Lemma tiny_init : init 3 [10] {[0%nat]} tiny_start.
Proof. exists tiny. split; [vm_compute; reflexivity|done]. Qed.

(** One step of the writer, one of reader 0; the constructor of the step is
    given, with the message it loads. *)
Ltac load_done := repeat first [exact eq_refl | by_eval | done | (simpl; lia) | split | intros _].
Ltac norm_state :=
  match goal with |- rtc ?R ?s _ => let s' := eval vm_compute in s in change s with s' end.
Ltac by_writer c := eapply rtc_l; [eapply step_writer; eapply c; load_done|]; norm_state.
Ltac by_writer' c := eapply rtc_l; [split; [eapply step_writer; eapply c; load_done|exact eq_refl]|].
Ltac by_reader c :=
  eapply rtc_l; [eapply (step_reader _ _ _ _ 0%nat); [exact eq_refl|eapply c; load_done]|]; norm_state.

(** The reader takes a snapshot; the writer then publishes a second table
    while the snapshot is held. *)
Lemma tiny_held : ∃ s s' V, reachable true 3 [10] {[0%nat]} s ∧
  threads s !! 0%nat = Some (RHold false 1, V) ∧
  rtc (step_keeping true (threads s)) s s' ∧ threads s' = threads s ∧
  sel false (me_backends (mem s)) = [10] ∧ active (now (mem s')) = true ∧
  sel true (me_backends (mem s')) = [20; 30].
Proof.
  eexists _, _, _. split; [|split; [|split; [|split_and!]]].
  - eexists. split; [apply tiny_init|].
    by_reader (λ M V, rstep_load true M V 0%nat).
    by_reader rstep_count.
    by_reader (λ M V i, rstep_check true M V i 0%nat).
    by_reader (λ M V i, rstep_version true M V i 0%nat).
    apply rtc_refl.
  - exact eq_refl.
  - by_writer' (λ M V, wstep_load true M V [20; 30] 0%nat).
    by_writer' (λ M V c b W, wstep_build true M V c b 0%nat W [0; 1; 0]).
    by_writer' wstep_table.
    by_writer' wstep_backends.
    by_writer' wstep_version.
    by_writer' wstep_flip.
    apply rtc_refl.
  - exact eq_refl.
  - exact eq_refl.
  - exact eq_refl.
  - exact eq_refl.
Qed.

Lemma snapshot_complete_witness : ∃ s b,
  reachable true 3 [10] {[0%nat]} s ∧ snap_lookup (now (mem s)) false 77 = Some b ∧ b ∈ [10].
Proof.
  destruct tiny_held as (s & s' & V & Hr & Ht & _ & _ & Eb & _).
  destruct (snapshot_complete 3 [10] {[0%nat]} s 0 false 1 V 77) as (_ & _ & _ & b & Hb & Hin);
    [by_eval|done|by_eval|done|rewrite Eb; by_eval|].
  exists s, b. split_and!; [done..|]. by rewrite Eb in Hin.
Defined.

Lemma snapshot_immutable_witness : ∃ s s',
  reachable true 3 [10] {[0%nat]} s ∧ active (now (mem s')) = true ∧
  snap_lookup (now (mem s')) false 77 = snap_lookup (now (mem s)) false 77.
Proof.
  destruct tiny_held as (s & s' & V & Hr & Ht & Hs & _ & _ & Ha & _).
  exists s, s'. split_and!; [done..|].
  apply (snapshot_immutable 3 [10] {[0%nat]} s s' 0 false 1 V 77); [by_eval|done..|].
  eapply rtc_subrel; [|exact Hs]. intros s1 s2 [H1 H2]. split; [exact H1|]. rewrite H2. eauto.
Defined.

(** ** What the orderings of the source do not give *)

(** Nothing beyond the orderings of the source assumed: the writer
    publishes a second table; a reader's two loads of the index both return
    the value from before the flip; in between, the writer of the third table
    finds no reader of the old buffer and begins to overwrite it.  The reader
    then holds a snapshot whose table was built for another backend list,
    from writes that do not happen before its reads, and a lookup indexes past
    the end of the list. *)
Theorem stale_index_tears_snapshot : ∃ s V,
  reachable false 3 [10] {[0%nat]} s ∧
  threads s !! 0%nat = Some (RHold false 1, V) ∧
  (sel false (v_writes V) < sel false (me_writes (mem s)))%nat ∧
  writing false (writer s).1 = true ∧
  snap_lookup (now (mem s)) false 1 = None.
Proof.
  eexists _, _. split; [|split_and!].
  - eexists. split; [apply tiny_init|].
    by_writer (λ M V, wstep_load false M V [20] 0%nat).
    by_writer (λ M V c b W, wstep_build false M V c b 0%nat W [0; 0; 0]).
    by_writer wstep_table.
    by_writer wstep_backends.
    by_writer wstep_version.
    by_writer wstep_flip.
    by_reader (λ M V, rstep_load false M V 0%nat).
    by_writer (λ M V, wstep_load false M V [20; 30] 1%nat).
    by_writer (λ M V c b W, wstep_build false M V c b 0%nat W [0; 1; 0]).
    by_reader rstep_count.
    by_reader (λ M V i, rstep_check false M V i 0%nat).
    by_reader (λ M V i, rstep_version false M V i 0%nat).
    by_writer wstep_table.
    apply rtc_refl.
  - exact eq_refl.
  - vm_compute. lia.
  - exact eq_refl.
  - vm_compute. exact eq_refl.
Qed.

(** The state between the version increment and the flip, then a reader. *)
Lemma skew_reachable : ∃ s V, reachable true 3 [10] {[0%nat]} s ∧
  threads s !! 0%nat = Some (RHold false 2, V) ∧ sel false (me_backends (mem s)) = [10].
Proof.
  eexists _, _. split; [eexists; split; [apply tiny_init|]|].
  by_writer (λ M V, wstep_load true M V [20] 0%nat).
  by_writer (λ M V c b W, wstep_build true M V c b 0%nat W [0; 0; 0]).
  by_writer wstep_table.
  by_writer wstep_backends.
  by_writer wstep_version.
  by_reader (λ M V, rstep_load true M V 0%nat).
  by_reader rstep_count.
  by_reader (λ M V i, rstep_check true M V i 0%nat).
  by_reader (λ M V i, rstep_version true M V i 1%nat).
  { apply rtc_refl. }
  split; exact eq_refl.
Qed.

(** ... and the state after the flip, then a reader. *)
Lemma flip_reachable : ∃ s V, reachable true 3 [10] {[0%nat]} s ∧
  threads s !! 0%nat = Some (RHold true 2, V) ∧ sel true (me_backends (mem s)) = [20].
Proof.
  eexists _, _. split; [eexists; split; [apply tiny_init|]|].
  by_writer (λ M V, wstep_load true M V [20] 0%nat).
  by_writer (λ M V c b W, wstep_build true M V c b 0%nat W [0; 0; 0]).
  by_writer wstep_table.
  by_writer wstep_backends.
  by_writer wstep_version.
  by_writer wstep_flip.
  by_reader (λ M V, rstep_load true M V 1%nat).
  by_reader rstep_count.
  by_reader (λ M V i, rstep_check true M V i 1%nat).
  by_reader (λ M V i, rstep_version true M V i 1%nat).
  { apply rtc_refl. }
  split; exact eq_refl.
Qed.

(** A version number does not identify a table: the writer increments
    the version before it flips the active index, so a snapshot taken in
    between pairs the new version with the old table.  Two runs of the same
    publication can yield version 2 with the old backends and with the new
    ones. *)
Theorem version_table_skew :
  ∃ s s' i i' V V', reachable true 3 [10] {[0%nat]} s ∧ reachable true 3 [10] {[0%nat]} s' ∧
    threads s !! 0%nat = Some (RHold i 2, V) ∧ threads s' !! 0%nat = Some (RHold i' 2, V') ∧
    sel i (me_backends (mem s)) = [10] ∧ sel i' (me_backends (mem s')) = [20].
Proof.
  destruct skew_reachable as (s & V & ? & ? & ?), flip_reachable as (s' & V' & ? & ? & ?).
  exists s, s', false, true, V, V'. done.
Qed.
