(* ===== verification/Agent.v ===== *)
(** * The control plane: sweeper and agent

    Models [crates/xdp-edge/src/control/sweeper.rs] and
    [crates/xdp-edge/src/control/agent.rs].  The agent composes the health
    checker, the table publisher and the periodic sweep of the connection
    table; [report_probe] republishes the lookup table when a probe result
    changes the set of live backends. *)

From Stdlib Require Import Znumtheory.
From S2P Require Import Prelude XdpPacket ConnTrack Maglev Health LutPublish.

(** ** The sweeper *)

Record ConntrackSweeper := mkSweeper {
  sw_interval_ns : Z;
  next_run_ns : Z;
  total_swept : Z;
  rounds : Z
}.

Definition sweeper_new (interval : Z) : ConntrackSweeper := mkSweeper interval interval 0 0.

Definition sweeper_tick `{!HashOrder FiveTuple Z} (now_ns : Z) (w : ConntrackSweeper) (ct : ConnTrack)
    : option (ConntrackSweeper * ConnTrack * option Z) :=
  if now_ns <? next_run_ns w then Some (w, ct, None)
  else
    next ← add_chk u64_max now_ns (sw_interval_ns w);
    '(ct, n) ← sweep_expired now_ns ct;
    swept ← add_chk u64_max (total_swept w) n;
    rounds ← add_chk u64_max (rounds w) 1;
    Some (mkSweeper (sw_interval_ns w) next swept rounds, ct, Some n).

(** ** The agent *)

Record AgentConfig := mkAgentConfig {
  probe_interval_ns : Z;
  cfg_fall : Z;
  cfg_rise : Z;
  sweep_interval_ns : Z;
  lut_size : Z
}.

Definition default_agent_config : AgentConfig :=
  mkAgentConfig 1000000000 3 2 30000000000 65537.

Record ControlAgent := mkAgent {
  health : HealthChecker;
  lut : LutPublisher;
  sweeper : ConntrackSweeper;
  last_published : list Z;
  publish_count : Z
}.

Definition agent_new (cfg : AgentConfig) (backends : list Z) : option ControlAgent :=
  health ← hc_new (probe_interval_ns cfg) (cfg_fall cfg) (cfg_rise cfg);
  let health := register_all backends health in
  lut ← publisher_new (lut_size cfg) backends;
  Some (mkAgent health lut (sweeper_new (sweep_interval_ns cfg)) backends 1).

Section Agent.
Context `{!HashOrder FiveTuple Z} `{!HashOrder Z BackendHealth}.

(** The sweep, then the backends whose probe is due. *)
Definition agent_tick (now_ns : Z) (g : ControlAgent) (ct : ConnTrack)
    : option (ControlAgent * ConnTrack * list Z) :=
  '(w, ct, _) ← sweeper_tick now_ns (sweeper g) ct;
  let g := mkAgent (health g) (lut g) w (last_published g) (publish_count g) in
  Some (g, ct, probes_due now_ns (health g)).

Definition report_probe (backend : Z) (ok : bool) (now_ns : Z) (g : ControlAgent)
    : option (ControlAgent * option Z) :=
  '(h, flipped) ← report backend ok now_ns (health g);
  let g := mkAgent h (lut g) (sweeper g) (last_published g) (publish_count g) in
  if negb flipped then Some (g, None) else
  let alive := alive_backends h in
  if bool_decide (alive = []) || bool_decide (alive = last_published g) then Some (g, None) else
  '(l, ver) ← publish alive (lut g);
  n ← add_chk u64_max (publish_count g) 1;
  Some (mkAgent h l (sweeper g) alive n, Some ver).

Definition agent_alive (g : ControlAgent) : list Z := alive_backends (health g).

(** ** What the sweeper does *)

(** Sweeping on schedule: before its time a tick changes nothing; at
    its time it removes exactly the connections that have been idle for
    longer than the timeout, whatever the order of the hash map, returns and
    records their number, and schedules the next round an interval later. *)
Theorem sweeper_tick_refines w ct s now :
  represents ct s → now + sw_interval_ns w ≤ u64_max →
  total_swept w + zlen (LruSpec.entries s) ≤ u64_max → rounds w < u64_max →
  if now <? next_run_ns w then sweeper_tick now w ct = Some (w, ct, None)
  else ∃ ct', sweeper_tick now w ct =
      Some (mkSweeper (sw_interval_ns w) (now + sw_interval_ns w)
              (total_swept w + (LruSpec.sweep now s).2) (rounds w + 1),
            ct', Some (LruSpec.sweep now s).2) ∧
    represents ct' (LruSpec.sweep now s).1.
Proof.
  intros Hr Hn Ht Hro. unfold sweeper_tick. destruct (now <? next_run_ns w); [done|].
  destruct (sweep_represents ct s now Hr) as (ct' & E & Hr'). exists ct'. split; [|done].
  assert ((LruSpec.sweep now s).2 ≤ zlen (LruSpec.entries s)).
  { unfold LruSpec.sweep, zlen. simpl. apply inj_le, length_filter. }
  bind_with (add_chk_ok _ _ _ Hn). bind_with E.
  bind_with (add_chk_ok u64_max (total_swept w) (LruSpec.sweep now s).2 ltac:(lia)).
  by bind_with (add_chk_ok u64_max (rounds w) 1 ltac:(lia)).
Qed.

(** ** The agent's invariant *)

(** The table in force is complete and was built from [last_published]; no
    reader is stuck in the shadow buffer; and whenever a backend is alive,
    [last_published] is the list of the live ones. *)
Record agent_ok (g : ControlAgent) : Prop := mkAgentOk {
  ok_complete : complete (lut g) (active (lut g));
  ok_published : sel (active (lut g)) (pub_backends (lut g)) = last_published g;
  ok_count : version (lut g) = publish_count g;
  ok_readers : readers (lut g) = mkPair2 0 0;
  ok_prime : prime (pub_m (lut g)) ∧ pub_m (lut g) ≤ 2 ^ 32;
  ok_alive : agent_alive g = [] ∨ last_published g = agent_alive g
}.

Lemma report_total c hists b ok now :
  hc_tracks c hists → (∀ b hist, hists !! b = Some hist → zlen hist < u32_max) →
  ∃ c' f, report b ok now c = Some (c', f) ∧ hc_tracks c' (alter (cons ok) b hists).
Proof. intros Ht Hl. destruct (report_tracks b ok now c hists Ht Hl) as (c' & f & E & _ & _ & ?). eauto. Qed.

(** One report: it returns, keeps the invariant, and touches the table only
    when it returns a new version. *)
Lemma report_probe_ok backend ok now g hists :
  agent_ok g → hc_tracks (health g) hists →
  (∀ b hist, hists !! b = Some hist → zlen hist < u32_max) →
  Z.of_nat (size (hc_backends (health g))) ≤ u32_max → publish_count g < u64_max →
  ∃ g' r, report_probe backend ok now g = Some (g', r) ∧ agent_ok g' ∧
    hc_tracks (health g') (alter (cons ok) backend hists) ∧
    size (hc_backends (health g')) = size (hc_backends (health g)) ∧
    publish_count g ≤ publish_count g' ≤ publish_count g + 1 ∧
    match r with
    | Some ver => ver = version (lut g) + 1 ∧ version (lut g') = ver ∧ agent_alive g' ≠ last_published g
    | None => lut g' = lut g
    end.
Proof.
  intros [Hc Hp Hn Hr [Hpr Hm] Ha] Ht Hl Hsz Hpc.
  destruct (report_total _ _ backend ok now Ht Hl) as (c' & f & E & Ht').
  pose proof (report_dom _ _ _ _ _ _ E) as Hd.
  assert (Hs' : size (hc_backends c') = size (hc_backends (health g))) by (by rewrite <-!size_dom, Hd).
  unfold report_probe. rewrite E. cbn [mbind option_bind]. destruct f; simpl.
  - destruct (bool_decide_reflect (alive_backends c' = [])) as [He|Hne];
      [|destruct (bool_decide_reflect (alive_backends c' = last_published g)) as [He|Hnl]]; simpl.
    + do 2 eexists. split; [done|]. split; [|split_and!; done || (simpl; lia)]. constructor; simpl; try done. by left.
    + do 2 eexists. split; [done|]. split; [|split_and!; done || (simpl; lia)]. constructor; simpl; try done. by right.
    + destruct (publish_ok (alive_backends c') (lut g)) as (l & ver & Ep); try done.
      { rewrite Hr. by destruct (active (lut g)). }
      { pose proof (alive_size c'). lia. }
      { lia. }
      rewrite Ep. simpl. rewrite add_chk_ok by lia. simpl.
      destruct (publish_effect _ _ _ _ Ep) as (Ev & Ev' & Er & Em & Eb & Ec).
      do 2 eexists. split; [done|]. split; [|simpl; split_and!; done || lia].
      constructor; simpl; try done; [lia|congruence|by rewrite Em|by right].
  - do 2 eexists. split; [done|]. split; [|split_and!; done || (simpl; lia)].
    constructor; simpl; try done. unfold agent_alive in *. simpl.
    rewrite (alive_ext c' (health g)); [done|]. intros b. by rewrite (report_no_flip _ _ _ _ _ E).
Qed.

(** ** Runs of the agent *)

Inductive agent_op :=
  | AgTick (now_ns : Z)
  | AgReport (backend : Z) (ok : bool) (now_ns : Z).

Definition agent_step (op : agent_op) (g : ControlAgent) (ct : ConnTrack) : option (ControlAgent * ConnTrack) :=
  match op with
  | AgTick now => '(g, ct, _) ← agent_tick now g ct; Some (g, ct)
  | AgReport b ok now => '(g, _) ← report_probe b ok now g; Some (g, ct)
  end.

Fixpoint agent_run (ops : list agent_op) (g : ControlAgent) (ct : ConnTrack) : option (ControlAgent * ConnTrack) :=
  match ops with
  | [] => Some (g, ct)
  | op :: ops' => '(g, ct) ← agent_step op g ct; agent_run ops' g ct
  end.

(** Everything an agent needs for [n] more operations to return. *)
Record ready (n : Z) (g : ControlAgent) (ct : ConnTrack) : Prop := mkReady {
  rd_ok : agent_ok g;
  rd_hists : ∃ hists, hc_tracks (health g) hists ∧
    ∀ b hist, hists !! b = Some hist → zlen hist + n ≤ u32_max;
  rd_size : Z.of_nat (size (hc_backends (health g))) ≤ u32_max;
  rd_count : publish_count g + n ≤ u64_max;
  rd_ct : ∃ s, represents ct s;
  rd_swept : total_swept (sweeper g) + n * u32_max ≤ u64_max;
  rd_rounds : rounds (sweeper g) + n ≤ u64_max
}.

(** The times of an operation leave room for the next sweep time. *)
Definition op_in_time (interval : Z) (op : agent_op) : Prop :=
  match op with AgTick now => now + interval ≤ u64_max | AgReport _ _ _ => True end.

Lemma report_step n b ok now g ct :
  0 ≤ n → ready (n + 1) g ct →
  ∃ g' r, report_probe b ok now g = Some (g', r) ∧ ready n g' ct ∧ sweeper g' = sweeper g.
Proof.
  intros Hn [Hok (hists & Ht & Hl) Hsz Hc Hct Hsw Hro].
  destruct (report_probe_ok b ok now g hists) as (g' & r & E & Hok' & Ht' & Hsz' & Hc' & _); try done; [|lia|].
  { intros b' hist Hb. specialize (Hl _ _ Hb). lia. }
  assert (Hs : sweeper g' = sweeper g).
  { unfold report_probe in E. destruct (report _ _ _ _) as [[h f]|]; [|done]. cbn [mbind option_bind] in E.
    destruct f; simpl in E; [|by simplify_eq]. destruct (_ || _); [by simplify_eq|].
    destruct (publish _ _) as [[l v]|]; [|done]. simpl in E. destruct (add_chk _ _ _); by simplify_eq/=. }
  exists g', r. split; [done|]. split; [|done].
  constructor; rewrite ?Hs, ?Hsz'; try done; try lia.
  exists (alter (cons ok) b hists). split; [done|]. intros b' hist. destruct (decide (b = b')) as [<-|].
  - rewrite lookup_alter_eq. destruct (hists !! b) as [h0|] eqn:E0; simpl; [|done]. intros [= <-].
    specialize (Hl _ _ E0). rewrite zlen_cons. lia.
  - rewrite lookup_alter_ne by done. intros Hb. specialize (Hl _ _ Hb). lia.
Qed.

Lemma tick_step n now g ct :
  0 ≤ n → now + sw_interval_ns (sweeper g) ≤ u64_max → ready (n + 1) g ct →
  ∃ g' ct' due, agent_tick now g ct = Some (g', ct', due) ∧ ready n g' ct' ∧
    sw_interval_ns (sweeper g') = sw_interval_ns (sweeper g).
Proof.
  intros Hn Hnow [Hok (hists & Ht & Hl) Hsz Hc [s Hct] Hsw Hro].
  assert (Hes : zlen (LruSpec.entries s) ≤ u32_max).
  { destruct (represents_size _ _ Hct) as [H1 H2]. unfold NIL in *. lia. }
  assert (Hl' : ∀ b hist, hists !! b = Some hist → zlen hist + n ≤ u32_max).
  { intros b hist Hb. specialize (Hl _ _ Hb). lia. }
  assert (Hst : ∃ w ct' o, sweeper_tick now (sweeper g) ct = Some (w, ct', o) ∧ (∃ s, represents ct' s) ∧
    sw_interval_ns w = sw_interval_ns (sweeper g) ∧ total_swept w + n * u32_max ≤ u64_max ∧
    rounds w + n ≤ u64_max).
  { unfold sweeper_tick. destruct (now <? _).
    - do 3 eexists. split; [done|]. unfold u32_max, u64_max in *. split_and!; eauto; lia.
    - destruct (sweep_represents ct s now Hct) as (ct' & E & Hr').
      assert (0 ≤ (LruSpec.sweep now s).2 ≤ zlen (LruSpec.entries s)).
      { unfold LruSpec.sweep, zlen. simpl. split; [lia|]. apply inj_le, length_filter. }
      assert (Hsum : total_swept (sweeper g) + (LruSpec.sweep now s).2 + n * u32_max ≤ u64_max).
      { unfold u32_max, u64_max in *. lia. }
      assert (Hsum' : total_swept (sweeper g) + (LruSpec.sweep now s).2 ≤ u64_max).
      { unfold u32_max, u64_max in *. lia. }
      do 3 eexists. split.
      + bind_with (add_chk_ok _ _ _ Hnow). bind_with E. bind_with (add_chk_ok _ _ _ Hsum').
        bind_with (add_chk_ok u64_max (rounds (sweeper g)) 1 ltac:(lia)). reflexivity.
      + cbn [sw_interval_ns total_swept rounds]. split_and!; eauto; lia. }
  destruct Hst as (w & ct' & o & E & Hr' & Hi & Hsw' & Hro').
  do 3 eexists. split; [unfold agent_tick; bind_with E; reflexivity|]. split; [|done].
  constructor; cbn [health lut sweeper last_published publish_count]; try done; [|eauto|lia].
  by destruct Hok.
Qed.

Lemma agent_run_ready ops g ct n :
  0 ≤ n → ready (n + zlen ops) g ct → Forall (op_in_time (sw_interval_ns (sweeper g))) ops →
  ∃ g' ct', agent_run ops g ct = Some (g', ct') ∧ ready n g' ct'.
Proof.
  intros Hn. revert g ct. induction ops as [|op ops IH]; intros g ct Hr Hops.
  { exists g, ct. split; [done|]. unfold zlen in Hr. by rewrite Z.add_0_r in Hr. }
  apply Forall_cons in Hops as [Hop Hops]. rewrite zlen_cons in Hr. pose proof (zlen_nonneg ops).
  replace (n + (1 + zlen ops)) with ((n + zlen ops) + 1) in Hr by lia.
  simpl. destruct op as [now|b ok now].
  - destruct (tick_step (n + zlen ops) now g ct) as (g1 & ct1 & due & E & Hr1 & Hi); [lia|done|done|].
    simpl. rewrite E. simpl. apply IH; [done|]. by rewrite Hi.
  - destruct (report_step (n + zlen ops) b ok now g ct) as (g1 & r & E & Hr1 & Hs); [lia|done|].
    simpl. rewrite E. simpl. apply IH; [done|]. by rewrite Hs.
Qed.

Lemma size_list_to_set_le (l : list Z) : (size (list_to_set l : gset Z) ≤ length l)%nat.
Proof.
  induction l as [|x l IH]; [done|]. simpl. rewrite size_union_alt, size_singleton.
  assert (size ((list_to_set l : gset Z) ∖ {[x]}) ≤ size (list_to_set l : gset Z))%nat
    by (apply subseteq_size; set_solver). lia.
Qed.

Lemma agent_new_ready cfg bs g ct s n :
  agent_new cfg bs = Some g → lut_size cfg ≤ 2 ^ 32 → represents ct s →
  zlen bs ≤ u32_max → 0 ≤ n ≤ u32_max →
  ready n g ct ∧ sw_interval_ns (sweeper g) = sweep_interval_ns cfg ∧ pub_m (lut g) = lut_size cfg.
Proof.
  intros Hg Hm Hct Hl Hn. unfold agent_new in Hg.
  destruct (hc_new _ _ _) as [c|] eqn:Ec; [|done]. simpl in Hg.
  unfold publisher_new in Hg. destruct (build_lut (lut_size cfg) bs) as [t|] eqn:Et; [|done].
  simplify_eq/=. split; [|done].
  assert (Hp : prime (lut_size cfg)).
  { destruct (prime_dec (lut_size cfg)); [done|]. rewrite build_lut_panics in Et by auto. done. }
  assert (He : hc_backends c = ∅).
  { unfold hc_new in Ec. destruct (_ && _); by simplify_eq/=. }
  constructor; simpl; try done.
  - constructor; simpl; try done. left. unfold agent_alive. simpl.
    rewrite (alive_ext _ c); [unfold alive_backends; rewrite He|].
    + assert (E : hm_iter (∅ : gmap Z BackendHealth) = []) by (apply Permutation_nil_r; by rewrite hm_iter_perm, map_to_list_empty).
      by rewrite E.
    + intros b. unfold state. rewrite lookup_register_all, He, lookup_empty. by case_decide.
  - exists (gset_to_gmap [] (list_to_set bs)). split; [by apply register_all_tracks|].
    intros b hist. rewrite lookup_gset_to_gmap_Some. intros [_ <-]. unfold zlen. simpl. lia.
  - rewrite <-size_dom. assert (Hd : dom (hc_backends (register_all bs c)) ⊆ (list_to_set bs : gset Z)).
    { intros b. rewrite elem_of_dom, lookup_register_all, He, lookup_empty, elem_of_list_to_set.
      case_decide; [done|]. by intros []. }
    apply subseteq_size in Hd. pose proof (size_list_to_set_le bs). unfold zlen in Hl. lia.
  - unfold u32_max, u64_max in *. lia.
  - eauto.
  - unfold u32_max, u64_max in *. lia.
  - unfold u32_max, u64_max in *. lia.
Qed.

(** [C8] The control loop keeps the table in force in step with the health
    of the backends: an agent started on a valid configuration handles every
    sequence of ticks and probe results without a panic, and at every point
    the table in force is the Maglev table of its own backend list, its
    version is the number of publications, and that list is exactly the list
    of live backends whenever any backend is alive (with none alive, the
    last table stays). *)
Theorem agent_table_tracks_health cfg bs g ct s ops :
  agent_new cfg bs = Some g → lut_size cfg ≤ 2 ^ 32 → represents ct s →
  zlen bs ≤ u32_max → zlen ops ≤ u32_max → Forall (op_in_time (sweep_interval_ns cfg)) ops →
  ∃ g' ct' ver backends table, agent_run ops g ct = Some (g', ct') ∧
    snapshot (lut g') = (ver, backends, table) ∧ ver = publish_count g' ∧
    build_lut (pub_m (lut g')) backends = Some table ∧
    (agent_alive g' = [] ∨ backends = agent_alive g').
Proof.
  intros Hg Hm Hct Hl Ho Hops. pose proof (zlen_nonneg ops).
  destruct (agent_new_ready cfg bs g ct s (zlen ops)) as (Hr & Hi & _); try done.
  destruct (agent_run_ready ops g ct 0) as (g' & ct' & E & [[Hc Hp Hn _ _ Ha] _ _ _ _ _ _]);
    [done|done|by rewrite Hi|].
  do 5 eexists. split; [exact E|]. split; [done|]. split; [done|]. split; [exact Hc|].
  rewrite Hp. done.
Qed.

(** Publishing is minimal: a probe result of a ready agent either
    leaves the table untouched, or publishes the next version; it publishes
    only when the live backends are a non-empty list that differs from the
    one in force. *)
Theorem report_probe_publishes_changes n b ok now g ct :
  0 ≤ n → ready (n + 1) g ct →
  ∃ g' r, report_probe b ok now g = Some (g', r) ∧ ready n g' ct ∧
    match r with
    | None => lut g' = lut g ∧ last_published g' = last_published g
    | Some ver => ver = version (lut g) + 1 ∧ version (lut g') = ver ∧
        last_published g' = agent_alive g' ∧ agent_alive g' ≠ [] ∧ agent_alive g' ≠ last_published g
    end.
Proof.
  intros Hn Hr. destruct (report_step n b ok now g ct Hn Hr) as (g' & r & E & Hr' & _).
  exists g', r. split; [done|]. split; [done|]. revert E. unfold report_probe.
  destruct (report _ _ _ _) as [[h f]|]; [|done]. cbn [mbind option_bind].
  destruct f; simpl; [|intros; by simplify_eq/=].
  destruct (bool_decide_reflect (alive_backends h = [])) as [He|Hne];
    [|destruct (bool_decide_reflect (alive_backends h = last_published g)) as [He|Hnl]]; simpl;
    [intros; by simplify_eq/=..|].
  destruct (publish _ _) as [[l v]|] eqn:Ep; [|done]. simpl.
  destruct (publish_effect _ _ _ _ Ep) as (Ev & Ev' & _).
  destruct (add_chk _ _ _); intros; by simplify_eq/=.
Qed.

End Agent.

(** ** Witnesses *)

Definition ex_agent_config : AgentConfig := mkAgentConfig 1000 3 2 30000 11.

Lemma sweeper_tick_refines_witness :
  ∃ ct ct', ct_new 3 1000 = Some ct ∧
    @sweeper_tick default_order 5000 (mkSweeper 2000 4000 7 1) ct =
      Some (mkSweeper 2000 7000 7 2, ct', Some 0).
Proof.
  destruct (ct_new_represents 3 1000) as (ct & E & H); [by_eval|].
  destruct (@sweeper_tick_refines default_order (mkSweeper 2000 4000 7 1) ct _ 5000 H) as (ct' & E' & _);
    [by_eval..|]. exists ct, ct'. split; [exact E|exact E'].
Defined.

Lemma agent_table_tracks_health_witness :
  ∃ g ct g' ct' ver backends table, agent_new ex_agent_config [10; 20] = Some g ∧ ct_new 3 1000 = Some ct ∧
    @agent_run default_order default_order
      [AgReport 10 true 0; AgTick 5; AgReport 10 true 6; AgReport 20 true 7] g ct = Some (g', ct') ∧
    snapshot (lut g') = (ver, backends, table) ∧ (@agent_alive default_order g' = [] ∨ backends = @agent_alive default_order g').
Proof.
  destruct (ct_new_represents 3 1000) as (ct & Ec & H); [by_eval|].
  destruct (agent_new ex_agent_config [10; 20]) as [g|] eqn:Eg; [|vm_compute in Eg; discriminate].
  destruct (@agent_table_tracks_health default_order default_order ex_agent_config [10; 20] g ct _
    [AgReport 10 true 0; AgTick 5; AgReport 10 true 6; AgReport 20 true 7] Eg ltac:(by_eval) H
    ltac:(by_eval) ltac:(by_eval)) as (g' & ct' & ver & bs & t & E1 & E2 & _ & _ & E5).
  { repeat constructor; by_eval. }
  exists g, ct, g', ct', ver, bs, t. split; [reflexivity|]. repeat (split; [assumption|]). assumption.
Defined.

Lemma report_probe_publishes_changes_witness :
  ∃ g ct g' r, agent_new ex_agent_config [10; 20] = Some g ∧ @ready default_order 1 g ct ∧
    @report_probe default_order 10 true 0 g = Some (g', r) ∧ @ready default_order 0 g' ct.
Proof.
  destruct (ct_new_represents 3 1000) as (ct & Ec & H); [by_eval|].
  destruct (agent_new ex_agent_config [10; 20]) as [g|] eqn:Eg; [|vm_compute in Eg; discriminate].
  destruct (@agent_new_ready default_order ex_agent_config [10; 20] g ct _ 1 Eg ltac:(by_eval) H
    ltac:(by_eval) ltac:(by_eval)) as (Hr & _).
  destruct (@report_probe_publishes_changes default_order 0 10 true 0 g ct ltac:(lia) Hr) as (g' & r & E & Hr' & _).
  exists g, ct, g', r. split; [reflexivity|]. repeat (split; [assumption|]). assumption.
Defined.
