(* ===== verification/Bytes.v ===== *)
(** * Bytes and fixed-width integers on the wire

    A byte is a [Z] between 0 and 255.  [to_le_bytes]/[from_le_bytes] and
    their big-endian counterparts of the Rust integer types, slices, and the
    lemmas the codecs share. *)

From S2P Require Import Prelude.

Definition is_byte (b : Z) : Prop := is_u8 b.

(** [x.to_le_bytes()] for an [n]-byte unsigned integer. *)
Fixpoint to_le (n : nat) (x : Z) : list Z :=
  match n with
  | O => []
  | S n' => x mod 256 :: to_le n' (x / 256)
  end.

Fixpoint from_le (l : list Z) : Z :=
  match l with
  | [] => 0
  | b :: l' => b + 256 * from_le l'
  end.

Definition to_be (n : nat) (x : Z) : list Z := reverse (to_le n x).
Definition from_be (l : list Z) : Z := from_le (reverse l).

(** [&l[a..b]]; out of range it panics. *)
Definition slice {A} (l : list A) (a b : Z) : option (list A) :=
  if (0 <=? a) && (a <=? b) && (b <=? zlen l)
  then Some (take (Z.to_nat (b - a)) (drop (Z.to_nat a) l)) else None.

(** [x as u32], [x as u8]. *)
Definition as_u32 (x : Z) : Z := x mod 2 ^ 32.
Definition as_u8 (x : Z) : Z := x mod 256.

(** ** UTF-8

    [String::from_utf8] accepts the well-formed byte sequences of the
    Unicode standard, table 3-7. *)

Definition in_rng (lo hi b : Z) : bool := (lo <=? b) && (b <=? hi).
Definition is_cont (b : Z) : bool := in_rng 0x80 0xBF b.

(** The number of continuation bytes a leading byte asks for and the range
    of the first of them. *)
Definition utf8_lead (b : Z) : option (nat * Z * Z) :=
  if in_rng 0 0x7F b then Some (0%nat, 0, 0)
  else if in_rng 0xC2 0xDF b then Some (1%nat, 0x80, 0xBF)
  else if b =? 0xE0 then Some (2%nat, 0xA0, 0xBF)
  else if in_rng 0xE1 0xEC b || in_rng 0xEE 0xEF b then Some (2%nat, 0x80, 0xBF)
  else if b =? 0xED then Some (2%nat, 0x80, 0x9F)
  else if b =? 0xF0 then Some (3%nat, 0x90, 0xBF)
  else if in_rng 0xF1 0xF3 b then Some (3%nat, 0x80, 0xBF)
  else if b =? 0xF4 then Some (3%nat, 0x80, 0x8F)
  else None.

(** [st] holds the continuation bytes still due and the range of the next. *)
Fixpoint utf8_run (st : nat * Z * Z) (s : list Z) : bool :=
  match s, st with
  | [], (O, _, _) => true
  | [], _ => false
  | b :: s', (O, _, _) => match utf8_lead b with Some st' => utf8_run st' s' | None => false end
  | b :: s', (S n, lo, hi) => in_rng lo hi b && utf8_run (n, 0x80, 0xBF) s'
  end.

Definition utf8_valid (s : list Z) : bool := utf8_run (0%nat, 0, 0) s.

(** ** Lemmas *)

Lemma cons_inv {A} (x y : A) l k : x :: l = y :: k → x = y ∧ l = k.
Proof. by intros [= -> ->]. Qed.

Lemma length_to_le n x : length (to_le n x) = n.
Proof. revert x. induction n; intros; simpl; auto. Qed.

Lemma to_le_bytes n x : Forall is_byte (to_le n x).
Proof.
  revert x. induction n as [|n IH]; intros x; simpl; constructor; [|done].
  pose proof (Z.mod_pos_bound x 256). unfold is_byte, is_u8, u8_max. lia.
Qed.

Lemma from_to_le n x : 0 ≤ x < 256 ^ Z.of_nat n → from_le (to_le n x) = x.
Proof.
  revert x. induction n as [|n IH]; intros x Hx; simpl; [simpl in Hx; lia|].
  rewrite IH.
  - pose proof (Z.div_mod x 256). lia.
  - rewrite Nat2Z.inj_succ, Z.pow_succ_r in Hx by lia. split.
    + apply Z.div_pos; lia.
    + apply Z.div_lt_upper_bound; lia.
Qed.

Lemma from_le_bound l : Forall is_byte l → 0 ≤ from_le l < 256 ^ zlen l.
Proof.
  induction 1 as [|b l Hb Hl IH]; [done|]. rewrite zlen_cons, Z.pow_add_r by (unfold zlen; lia).
  simpl from_le. unfold is_byte, is_u8, u8_max in Hb. lia.
Qed.

Lemma to_from_le l : Forall is_byte l → to_le (length l) (from_le l) = l.
Proof.
  induction 1 as [|b l Hb Hl IH]; [done|]. simpl. unfold is_byte, is_u8, u8_max in Hb.
  rewrite (Z.mul_comm 256), Z.mod_add by lia. rewrite Z.mod_small by lia. f_equal.
  rewrite Z.div_add by lia. rewrite Z.div_small by lia. exact IH.
Qed.

Lemma length_to_be n x : length (to_be n x) = n.
Proof. unfold to_be. by rewrite length_reverse, length_to_le. Qed.

Lemma from_to_be n x : 0 ≤ x < 256 ^ Z.of_nat n → from_be (to_be n x) = x.
Proof. intros. unfold from_be, to_be. by rewrite reverse_involutive, from_to_le. Qed.

Lemma slice_Some {A} (l : list A) a b k :
  slice l a b = Some k ↔ 0 ≤ a ≤ b ∧ b ≤ zlen l ∧ k = take (Z.to_nat (b - a)) (drop (Z.to_nat a) l).
Proof.
  unfold slice. destruct (Z.leb_spec 0 a), (Z.leb_spec a b), (Z.leb_spec b (zlen l)); simpl;
    split; intros; simplify_eq; intuition (auto; lia || congruence).
Qed.

Lemma slice_ok {A} (l : list A) a b :
  0 ≤ a ≤ b → b ≤ zlen l → slice l a b = Some (take (Z.to_nat (b - a)) (drop (Z.to_nat a) l)).
Proof. intros. by apply slice_Some. Qed.

(** A slice of an append: the part that lies in a known middle. *)
Lemma slice_app3 {A} (p m s : list A) a b :
  a = zlen p → b = zlen p + zlen m → slice (p ++ m ++ s) a b = Some m.
Proof.
  intros -> ->. pose proof (zlen_nonneg p). pose proof (zlen_nonneg m). pose proof (zlen_nonneg s).
  apply slice_Some. rewrite !zlen_app. split; [lia|]. split; [lia|].
  replace (zlen p + zlen m - zlen p) with (zlen m) by lia. unfold zlen.
  rewrite !Nat2Z.id, drop_app_length, take_app_length. done.
Qed.

(** [&l[a..]] *)
Lemma slice_tail {A} (p s : list A) a n : a = zlen p → n = zlen (p ++ s) → slice (p ++ s) a n = Some s.
Proof. intros -> ->. rewrite zlen_app. rewrite <-(app_nil_r s) at 1. by apply slice_app3. Qed.

(** [&l[..a]] *)
Lemma slice_head {A} (p s : list A) a : a = zlen p → slice (p ++ s) 0 a = Some p.
Proof. intros ->. by apply (slice_app3 [] p s). Qed.

Lemma length_slice {A} (l : list A) a b k : slice l a b = Some k → zlen k = b - a.
Proof.
  intros (H1 & H2 & ->)%slice_Some. unfold zlen in *. rewrite length_take, length_drop. lia.
Qed.

#[export] Hint Rewrite length_to_le length_to_be : wire.

(** ** Big-endian integers byte by byte *)

Lemma from_le_app l k : from_le (l ++ k) = from_le l + 256 ^ zlen l * from_le k.
Proof.
  induction l as [|b l IH]; cbn [from_le app]; [cbn [zlen length]; unfold zlen; simpl; lia|].
  rewrite IH, zlen_cons, Z.pow_add_r by (unfold zlen; lia). lia.
Qed.

Lemma from_be_cons b l : from_be (b :: l) = b * 256 ^ zlen l + from_be l.
Proof.
  unfold from_be. rewrite reverse_cons, from_le_app. unfold zlen. rewrite length_reverse.
  cbn [from_le]. lia.
Qed.

Lemma to_le_snoc n x : to_le (S n) x = to_le n x ++ [x / 256 ^ Z.of_nat n mod 256].
Proof.
  revert x. induction n as [|n IH]; intros x.
  - cbn. by rewrite Z.div_1_r.
  - rewrite Nat2Z.inj_succ, Z.pow_succ_r by lia. rewrite <-Z.div_div by lia.
    change (to_le (S (S n)) x) with (x mod 256 :: to_le (S n) (x / 256)). rewrite IH. done.
Qed.

Lemma to_be_S n x : to_be (S n) x = x / 256 ^ Z.of_nat n mod 256 :: to_be n x.
Proof. unfold to_be. rewrite to_le_snoc, reverse_app. done. Qed.

Lemma to_be_bytes n x : Forall is_byte (to_be n x).
Proof. unfold to_be. rewrite Forall_reverse. apply to_le_bytes. Qed.

Lemma to_le_mod n x : to_le n (x mod 256 ^ Z.of_nat n) = to_le n x.
Proof.
  revert x. induction n as [|n IH]; intros x; [done|].
  rewrite Nat2Z.inj_succ, Z.pow_succ_r by lia. cbn [to_le].
  rewrite Z.rem_mul_r by lia. rewrite (Z.mul_comm 256), Z.mod_add, Z.mod_mod by lia. f_equal.
  rewrite Z.div_add, Z.div_small by (try lia; apply Z.mod_pos_bound; lia). apply IH.
Qed.

Lemma from_to_be_mod n x : from_be (to_be n x) = x mod 256 ^ Z.of_nat n.
Proof.
  unfold to_be, from_be. rewrite reverse_involutive, <-to_le_mod. apply from_to_le.
  apply Z.mod_pos_bound. lia.
Qed.

Lemma to_from_be b : Forall is_byte b → to_be (length b) (from_be b) = b.
Proof.
  intros Hb. unfold to_be, from_be. rewrite <-(length_reverse b), to_from_le by (by apply Forall_reverse). apply reverse_involutive.
Qed.

Lemma to_from_be_u64 b : Forall is_byte b → (length b ≤ 8)%nat → to_be (length b) (from_be b) = b ∧ is_u64 (from_be b).
Proof.
  intros Hb Hl. split; [by apply to_from_be|].
  pose proof (from_le_bound (reverse b)) as Hf. rewrite Forall_reverse in Hf. specialize (Hf Hb).
  unfold zlen in Hf. rewrite length_reverse in Hf. unfold is_u64, u64_max, from_be.
  assert (256 ^ Z.of_nat (length b) ≤ 256 ^ 8) by (apply Z.pow_le_mono_r; lia). lia.
Qed.

(** Three adjoining slices make up the whole. *)
Lemma slice_three {A} (l x y z : list A) a b :
  slice l 0 a = Some x → slice l a b = Some y → slice l b (zlen l) = Some z →
  l = x ++ y ++ z ∧ zlen x = a ∧ zlen y = b - a.
Proof.
  intros H1 H2 H3. pose proof (length_slice _ _ _ _ H1). pose proof (length_slice _ _ _ _ H2).
  apply slice_Some in H1 as (? & ? & ->), H2 as (? & ? & ->), H3 as (? & ? & ->). split; [|lia].
  change (drop (Z.to_nat 0) l) with l. rewrite Z.sub_0_r.
  rewrite (take_ge (drop (Z.to_nat b) l)) by (rewrite length_drop; unfold zlen in *; lia).
  replace (Z.to_nat b) with (Z.to_nat a + Z.to_nat (b - a))%nat by lia. rewrite <-drop_drop, take_drop. by rewrite take_drop.
Qed.
