(* ===== verification/HomaPacket.v ===== *)
(** * Homa packets and priorities

    Models [crates/homa-rpc/src/transport/packet.rs] (the 22-byte
    little-endian header and its codec), [transport/priority.rs] (the eight
    priority levels) and the configuration and actions of
    [transport/mod.rs] that the two protocol cores share.  A socket address
    is an integer; an instant is an integer number of nanoseconds. *)

From S2P Require Import Prelude Bytes.

Definition HEADER_LEN : Z := 22.

Inductive PacketType :=
  | Data
  | Grant
  | Resend
  | Busy.

#[export] Instance PacketType_eq_dec : EqDecision PacketType.
Proof. solve_decision. Defined.

(** [self.typ as u8] *)
Definition to_u8 (t : PacketType) : Z :=
  match t with Data => 0 | Grant => 1 | Resend => 2 | Busy => 3 end.

Definition from_u8 (v : Z) : option PacketType :=
  if v =? 0 then Some Data else if v =? 1 then Some Grant else
  if v =? 2 then Some Resend else if v =? 3 then Some Busy else None.

Record Packet := mkPkt {
  typ : PacketType;
  priority : Z;
  msg_id : Z;
  msg_len : Z;
  offset : Z;
  length_ : Z
}.

Definition encode (p : Packet) (payload : list Z) : list Z :=
  to_u8 (typ p) :: priority p ::
  to_le 8 (msg_id p) ++ to_le 4 (msg_len p) ++ to_le 4 (offset p) ++ to_le 4 (length_ p) ++ payload.

Inductive DecodeError :=
  | TooShort
  | UnknownType
  | LengthMismatch.

(** [None] is a panic of a slice or an index, [Some (inl e)] an error. *)
Definition decode (datagram : list Z) : option (DecodeError + Packet * list Z) :=
  if zlen datagram <? HEADER_LEN then Some (inl TooShort) else
  b0 ← vget datagram 0;
  match from_u8 b0 with
  | None => Some (inl UnknownType)
  | Some typ =>
      priority ← vget datagram 1;
      msg_id ← slice datagram 2 10;
      msg_len ← slice datagram 10 14;
      offset ← slice datagram 14 18;
      len ← slice datagram 18 22;
      let pkt := mkPkt typ priority (from_le msg_id) (from_le msg_len) (from_le offset) (from_le len) in
      payload ← slice datagram HEADER_LEN (zlen datagram);
      if bool_decide (typ = Data) && negb (zlen payload =? length_ pkt)
      then Some (inl LengthMismatch) else Some (inr (pkt, payload))
  end.

(** ** Priorities *)

Definition NUM_PRIORITIES : Z := 8.

Definition THRESHOLDS : list Z :=
  [100; 1000; 10000; 100000; 1000000; 10000000; 100000000; u64_max].

Fixpoint priority_scan (i len : Z) (uppers : list Z) : option Z :=
  match uppers with
  | [] => None
  | upper :: rest => if len <=? upper then Some i else priority_scan (i + 1) len rest
  end.

Definition priority_for_len (len : Z) : Z :=
  match priority_scan 0 len THRESHOLDS with Some i => i | None => NUM_PRIORITIES - 1 end.

(** ** Actions and configuration *)

Inductive Action :=
  | Send (dest : Z) (bytes : list Z)
  | Deliver (src msg_id : Z) (data : list Z).

Record TransportConfig := mkCfg {
  packet_size : Z;
  unscheduled_bytes : Z;
  grant_increment : Z;
  resend_timeout : Z;
  grant_timeout : Z;
  poke_timeout : Z;
  retransmit_timeout : Z;
  linger : Z;
  send_timeout : Z;
  max_incoming : Z;
  overcommit : Z;
  starve_threshold : Z
}.

Definition default_transport_config : TransportConfig :=
  mkCfg 1200 10240 262144 20000000 40000000 50000000 500000000 5000000000 30000000000 1024 2 200000000.

(** [now.duration_since(t)], which saturates at zero. *)
Definition duration_since (now t : Z) : Z := sat_sub now t.

#[global] Arguments encode : simpl never.
#[global] Arguments decode : simpl never.

(** ** The codec *)

Definition wf_pkt (p : Packet) : Prop :=
  is_u8 (priority p) ∧ is_u64 (msg_id p) ∧ is_u32 (msg_len p) ∧ is_u32 (offset p) ∧ is_u32 (length_ p).

Lemma from_to_u8 t : from_u8 (to_u8 t) = Some t.
Proof. by destruct t. Qed.

Lemma from_u8_Some v t : from_u8 v = Some t → v = to_u8 t.
Proof. unfold from_u8. intros. repeat case_match; simplify_eq; simpl; lia. Qed.

Lemma zlen_encode p payload : zlen (encode p payload) = HEADER_LEN + zlen payload.
Proof. unfold encode, HEADER_LEN. rewrite !zlen_cons, !zlen_app. unfold zlen. rewrite !length_to_le. lia. Qed.

(** The fields of a long enough list. *)
Lemma split_header (d : list Z) : HEADER_LEN ≤ zlen d →
  ∃ b0 b1 f1 f2 f3 f4 payload, d = b0 :: b1 :: f1 ++ f2 ++ f3 ++ f4 ++ payload ∧
    length f1 = 8%nat ∧ length f2 = 4%nat ∧ length f3 = 4%nat ∧ length f4 = 4%nat.
Proof.
  intros H. destruct d as [|b0 [|b1 d]]; [by vm_compute in H..|].
  rewrite !zlen_cons in H. unfold HEADER_LEN, zlen in H.
  exists b0, b1, (take 8 d), (take 4 (drop 8 d)), (take 4 (drop 12 d)), (take 4 (drop 16 d)), (drop 20 d).
  rewrite !length_take, !length_drop. split; [|lia].
  rewrite <-(take_drop 8 d) at 1. f_equal. f_equal. f_equal.
  rewrite <-(take_drop 4 (drop 8 d)) at 1. rewrite drop_drop. f_equal.
  rewrite <-(take_drop 4 (drop (8 + 4) d)) at 1. rewrite drop_drop. f_equal.
  rewrite <-(take_drop 4 (drop (8 + 4 + 4) d)) at 1. rewrite drop_drop. f_equal.
Qed.

(** What [decode] computes on a list with its fields laid out. *)
Lemma decode_fields b0 b1 f1 f2 f3 f4 payload :
  length f1 = 8%nat → length f2 = 4%nat → length f3 = 4%nat → length f4 = 4%nat →
  decode (b0 :: b1 :: f1 ++ f2 ++ f3 ++ f4 ++ payload) =
    match from_u8 b0 with
    | None => Some (inl UnknownType)
    | Some t =>
        if bool_decide (t = Data) && negb (zlen payload =? from_le f4) then Some (inl LengthMismatch)
        else Some (inr (mkPkt t b1 (from_le f1) (from_le f2) (from_le f3) (from_le f4), payload))
    end.
Proof.
  intros H1 H2 H3 H4. set (d := b0 :: b1 :: _).
  assert (Hlen : zlen d = 22 + zlen payload).
  { subst d. unfold zlen. simpl length. rewrite !length_app. lia. }
  pose proof (zlen_nonneg payload).
  assert (S1 : slice d 2 10 = Some f1).
  { apply (slice_app3 [b0; b1] f1); unfold zlen; simpl; lia. }
  assert (S2 : slice d 10 14 = Some f2).
  { subst d. replace (b0 :: b1 :: f1 ++ f2 ++ f3 ++ f4 ++ payload)
      with ((b0 :: b1 :: f1) ++ f2 ++ f3 ++ f4 ++ payload) by done.
    apply slice_app3; unfold zlen; simpl length; lia. }
  assert (S3 : slice d 14 18 = Some f3).
  { subst d. replace (b0 :: b1 :: f1 ++ f2 ++ f3 ++ f4 ++ payload)
      with ((b0 :: b1 :: f1 ++ f2) ++ f3 ++ f4 ++ payload) by (simpl; by rewrite <-app_assoc).
    apply slice_app3; unfold zlen; simpl length; rewrite ?length_app; lia. }
  assert (S4 : slice d 18 22 = Some f4).
  { subst d. replace (b0 :: b1 :: f1 ++ f2 ++ f3 ++ f4 ++ payload)
      with ((b0 :: b1 :: f1 ++ f2 ++ f3) ++ f4 ++ payload) by (simpl; by rewrite <-!app_assoc).
    apply slice_app3; unfold zlen; simpl length; rewrite ?length_app; lia. }
  assert (S5 : slice d HEADER_LEN (zlen d) = Some payload).
  { rewrite Hlen. subst d. replace (b0 :: b1 :: f1 ++ f2 ++ f3 ++ f4 ++ payload)
      with ((b0 :: b1 :: f1 ++ f2 ++ f3 ++ f4) ++ payload ++ []) by (simpl; by rewrite <-!app_assoc, app_nil_r).
    apply slice_app3; unfold zlen, HEADER_LEN; simpl length; rewrite ?length_app; lia. }
  unfold decode. rewrite (proj2 (Z.ltb_ge _ _)) by (unfold HEADER_LEN; lia).
  change (vget d 0) with (Some b0). change (vget d 1) with (Some b1). simpl mbind.
  destruct (from_u8 b0) as [t|]; [|done].
  rewrite S1, S2, S3, S4, S5. done.
Qed.

(** [C24] The codec of the transport: no datagram makes [decode] panic, and
    a datagram of bytes is accepted exactly when it is the encoding of a
    packet whose fields fit their widths and, for DATA, whose length field
    is the length of the payload; what is decoded is that packet and that
    payload. *)
Theorem homa_codec_exact datagram :
  Forall is_byte datagram →
  is_Some (decode datagram) ∧
  ∀ p payload, decode datagram = Some (inr (p, payload)) ↔
    datagram = encode p payload ∧ wf_pkt p ∧ (typ p = Data → length_ p = zlen payload).
Proof.
  intros Hb. destruct (Z.ltb_spec (zlen datagram) HEADER_LEN) as [Hs|Hl].
  - unfold decode. rewrite (proj2 (Z.ltb_lt _ _)) by done. split; [done|]. intros p payload. split; [done|].
    intros (-> & _). rewrite zlen_encode in Hs. pose proof (zlen_nonneg payload). lia.
  - destruct (split_header _ Hl) as (b0 & b1 & f1 & f2 & f3 & f4 & pl & -> & L1 & L2 & L3 & L4).
    rewrite decode_fields by done. split; [by destruct (from_u8 b0); [destruct (_ && _)|]|].
    rewrite !Forall_cons, !Forall_app in Hb. destruct Hb as (B0 & B1 & B2 & B3 & B4 & B5 & _).
    intros p payload. split.
    + destruct (from_u8 b0) as [t|] eqn:Et; [|done]. apply from_u8_Some in Et as ->.
      destruct (_ && _) eqn:Em; [done|]. intros. simplify_eq. split; [|split].
      * unfold encode. cbn [typ priority msg_id msg_len offset length_].
        rewrite <-L1 at 1. rewrite to_from_le by done.
        rewrite <-L2 at 1. rewrite to_from_le by done.
        rewrite <-L3 at 1. rewrite to_from_le by done.
        rewrite <-L4 at 1. by rewrite to_from_le by done.
      * pose proof (from_le_bound f1 B2) as Q1. pose proof (from_le_bound f2 B3) as Q2.
        pose proof (from_le_bound f3 B4) as Q3. pose proof (from_le_bound f4 B5) as Q4.
        unfold zlen in *. rewrite L1 in Q1. rewrite L2 in Q2. rewrite L3 in Q3. rewrite L4 in Q4.
        unfold wf_pkt, is_u64, is_u32, u64_max, u32_max; simpl in *. split_and!; try done; lia.
      * simpl. intros ->. rewrite bool_decide_eq_true_2 in Em by done. simpl in Em.
        apply negb_false_iff, Z.eqb_eq in Em. done.
    + intros (He & (W1 & W2 & W3 & W4 & W5) & Hd). unfold encode in He.
      apply cons_inv in He as [-> He]. apply cons_inv in He as [-> He].
      apply app_inj_1 in He as [-> He]; [|by rewrite L1, length_to_le].
      apply app_inj_1 in He as [-> He]; [|by rewrite L2, length_to_le].
      apply app_inj_1 in He as [-> He]; [|by rewrite L3, length_to_le].
      apply app_inj_1 in He as [-> ->]; [|by rewrite L4, length_to_le].
      unfold is_u64, is_u32, u64_max, u32_max in *.
      rewrite from_to_u8, !from_to_le by (simpl; lia).
      destruct p as [t pr mi ml o ln]. simpl in *. case_bool_decide; simpl; [|done].
      rewrite (Hd H). by rewrite Z.eqb_refl.
Qed.

Lemma homa_codec_exact_witness :
  decode (encode (mkPkt Data 3 3735928559 5000 2400 3) [104; 105; 33]) =
    Some (inr (mkPkt Data 3 3735928559 5000 2400 3, [104; 105; 33])).
Proof.
  apply (proj2 (homa_codec_exact (encode (mkPkt Data 3 3735928559 5000 2400 3) [104; 105; 33])
    ltac:(repeat constructor; by_eval))). split; [reflexivity|]. split; [repeat split; by_eval|reflexivity].
Defined.

(** The form the protocol cores use. *)
Lemma decode_encode p payload :
  wf_pkt p → (typ p = Data → length_ p = zlen payload) →
  decode (encode p payload) = Some (inr (p, payload)).
Proof.
  intros (W1 & W2 & W3 & W4 & W5) Hd. unfold encode.
  rewrite decode_fields by apply length_to_le. rewrite from_to_u8.
  unfold is_u64, is_u32, u64_max, u32_max in *.
  rewrite !from_to_le by (simpl; lia).
  destruct p as [t pr mi ml o ln]. simpl in *. case_bool_decide; simpl; [|done].
  rewrite (Hd H). by rewrite Z.eqb_refl.
Qed.

(** Shorter messages never get a worse priority, and every priority is
    one of the eight levels. *)
Lemma priority_monotone len len' :
  len ≤ len' → 0 ≤ priority_for_len len ≤ priority_for_len len' ∧ priority_for_len len' < NUM_PRIORITIES.
Proof.
  intros H. unfold priority_for_len, THRESHOLDS, NUM_PRIORITIES, u64_max. simpl.
  repeat match goal with |- context [?a <=? ?b] => destruct (Z.leb_spec a b) end; simpl; lia.
Qed.
