(* ===== verification/HomaSender.v ===== *)
(** * The sending core of the Homa transport

    Models [crates/homa-rpc/src/transport/sender.rs]: a pure state machine
    that cuts messages into chunks, sends the unscheduled window at once and
    the rest as it is granted, answers RESEND, probes when it stalls and
    forgets finished messages after a linger time.

    The loops run on fuel: each turn of [pump_loop] and [resend_loop]
    advances an offset that is bounded by the length of the message, so
    [S (length data)] turns are enough whenever the packet size is not zero
    ([pump_loop_ok], [resend_loop_ok]); with packet size zero the source
    divides by zero or does not terminate, and the model returns [None]. *)

From S2P Require Import Prelude Bytes HomaPacket.

(** Destination (or source) address and message id. *)
Abbreviation MsgKey := (Z * Z)%type.

Record OutMsg := mkOutMsg {
  o_data : list Z;
  o_granted_to : Z;
  next_send : Z;
  done_at : option Z;
  o_last_progress : Z;
  retransmit : bool
}.

Record SenderCore := mkSender {
  s_cfg : TransportConfig;
  out : gmap MsgKey OutMsg;
  retransmits : Z
}.

Definition sender_new (cfg : TransportConfig) : SenderCore := mkSender cfg ∅ 0.

Definition with_out (m : gmap MsgKey OutMsg) (s : SenderCore) : SenderCore :=
  mkSender (s_cfg s) m (retransmits s).

Definition set_last_progress (now : Z) (m : OutMsg) : OutMsg :=
  mkOutMsg (o_data m) (o_granted_to m) (next_send m) (done_at m) now (retransmit m).

(** The chunk that holds [off]: its start and its end. *)
Definition chunk_range (off packet_size len : Z) : option (Z * Z) :=
  if packet_size =? 0 then None else
  let start := off / packet_size * packet_size in
  Some (start, Z.min (start + packet_size) len).

Definition data_packet (data : list Z) (msg_id start end_ : Z) : option (list Z) :=
  payload ← slice data start end_;
  Some (encode (mkPkt Data (priority_for_len (zlen data)) msg_id (as_u32 (zlen data))
                  (as_u32 start) (as_u32 (zlen payload))) payload).

(** [while msg.next_send < limit { ... }]: the new [next_send] and the
    packets sent. *)
Fixpoint pump_loop (fuel : nat) (key : MsgKey) (ps limit : Z) (data : list Z) (next : Z)
    : option (Z * list Action) :=
  match fuel with
  | O => None
  | S fuel' =>
      if next <? limit then
        let e := Z.min (next + ps) (zlen data) in
        bytes ← data_packet data key.2 next e;
        '(next, acts) ← pump_loop fuel' key ps limit data e;
        Some (next, Send key.1 bytes :: acts)
      else Some (next, [])
  end.

Definition pump (key : MsgKey) (limit now : Z) (s : SenderCore) : option (SenderCore * list Action) :=
  match out s !! key with
  | None => Some (s, [])
  | Some msg =>
      if bool_decide (is_Some (done_at msg)) then Some (s, []) else
      let limit := Z.min limit (zlen (o_data msg)) in
      '(next, acts) ← pump_loop (S (length (o_data msg))) key (packet_size (s_cfg s)) limit
                        (o_data msg) (next_send msg);
      let done := if zlen (o_data msg) <=? next then Some now else done_at msg in
      Some (with_out (<[key := mkOutMsg (o_data msg) (Z.max (o_granted_to msg) limit) next done now
                                 (retransmit msg)]> (out s)) s, acts)
  end.

Definition start_inner (dest msg_id : Z) (data : list Z) (now : Z) (retransmit : bool) (s : SenderCore)
    : option (SenderCore * list Action) :=
  let unscheduled := Z.min (unscheduled_bytes (s_cfg s)) (zlen data) in
  let msg := mkOutMsg data unscheduled 0 None now retransmit in
  pump (dest, msg_id) unscheduled now (with_out (<[(dest, msg_id) := msg]> (out s)) s).

Definition start (dest msg_id : Z) (data : list Z) (now : Z) (s : SenderCore) :=
  start_inner dest msg_id data now false s.

Definition start_retransmit (dest msg_id : Z) (data : list Z) (now : Z) (s : SenderCore) :=
  start_inner dest msg_id data now true s.

Definition handle_grant (src : Z) (pkt : Packet) (now : Z) (s : SenderCore)
    : option (SenderCore * list Action) :=
  let key := (src, msg_id pkt) in
  let new_limit := Z.min (offset pkt) (match out s !! key with Some m => zlen (o_data m) | None => 0 end) in
  match out s !! key with
  | None => Some (s, [])
  | Some msg => if new_limit <=? o_granted_to msg then Some (s, []) else pump key new_limit now s
  end.

(** [while off < end { ... off = e.max(s + 1); }] *)
Fixpoint resend_loop (fuel : nat) (src msg_id ps : Z) (data : list Z) (off end_ : Z) : option (list Action) :=
  match fuel with
  | O => None
  | S fuel' =>
      if off <? end_ then
        '(s, e) ← chunk_range off ps (zlen data);
        bytes ← data_packet data msg_id s e;
        acts ← resend_loop fuel' src msg_id ps data (Z.max e (s + 1)) end_;
        Some (Send src bytes :: acts)
      else Some []
  end.

Definition handle_resend (src : Z) (pkt : Packet) (now : Z) (s : SenderCore)
    : option (SenderCore * list Action) :=
  let key := (src, msg_id pkt) in
  match out s !! key with
  | None => Some (s, [])
  | Some msg =>
      let len := zlen (o_data msg) in
      let start := Z.min (offset pkt) len in
      let end_ := Z.min (start + length_ pkt) len in
      acts ← resend_loop (S (length (o_data msg))) src (msg_id pkt) (packet_size (s_cfg s))
               (o_data msg) start end_;
      let granted := Z.max (o_granted_to msg) end_ in
      let '(next, done) :=
        if next_send msg <? end_
        then (end_, if (len <=? end_) && bool_decide (done_at msg = None) then Some now else done_at msg)
        else (next_send msg, done_at msg) in
      Some (with_out (<[key := mkOutMsg (o_data msg) granted next done now (retransmit msg)]> (out s)) s, acts)
  end.

Definition handle_busy (src : Z) (pkt : Packet) (now : Z) (s : SenderCore) : SenderCore :=
  match out s !! (src, msg_id pkt) with
  | None => s
  | Some m => with_out (<[(src, msg_id pkt) := set_last_progress now m]> (out s)) s
  end.

(** Whether [tick] keeps a message: it is not done, or it lingers. *)
Definition lingers (now linger : Z) (m : OutMsg) : bool :=
  match done_at m with None => true | Some t => duration_since now t <? linger end.

(** The body of the loop of [tick] for one key. *)
Definition tick_key (now : Z) (key : MsgKey) (s : SenderCore) : option (SenderCore * list Action) :=
  match out s !! key with
  | None => Some (s, [])
  | Some msg =>
      let ps := packet_size (s_cfg s) in
      let touched := <[key := set_last_progress now msg]> (out s) in
      if bool_decide (is_Some (done_at msg)) then
        if retransmit msg && (retransmit_timeout (s_cfg s) <=? duration_since now (o_last_progress msg)) then
          bytes ← data_packet (o_data msg) key.2 0 (Z.min ps (zlen (o_data msg)));
          n ← add_chk u64_max (retransmits s) 1;
          Some (mkSender (s_cfg s) touched n, [Send key.1 bytes])
        else Some (s, [])
      else if duration_since now (o_last_progress msg) <? poke_timeout (s_cfg s) then Some (s, [])
      else
        last_off ← (if next_send msg =? 0 then Some 0
                    else if ps =? 0 then None else Some ((next_send msg - 1) / ps * ps));
        '(st, e) ← chunk_range last_off ps (zlen (o_data msg));
        bytes ← data_packet (o_data msg) key.2 st e;
        Some (with_out touched s, [Send key.1 bytes])
  end.

Fixpoint tick_keys (now : Z) (keys : list MsgKey) (s : SenderCore) : option (SenderCore * list Action) :=
  match keys with
  | [] => Some (s, [])
  | key :: keys' =>
      '(s, a) ← tick_key now key s;
      '(s, b) ← tick_keys now keys' s;
      Some (s, a ++ b)
  end.

Definition sender_tick `{!HashOrder MsgKey OutMsg} (now : Z) (s : SenderCore)
    : option (SenderCore * list Action) :=
  let kept := filter (λ p, lingers now (linger (s_cfg s)) p.2) (out s) in
  tick_keys now (hm_iter kept).*1 (with_out kept s).

Definition is_done (dest msg_id : Z) (s : SenderCore) : bool :=
  match out s !! (dest, msg_id) with
  | None => true
  | Some m => bool_decide (is_Some (done_at m))
  end.

Definition finish (dest msg_id : Z) (s : SenderCore) : SenderCore :=
  with_out (delete (dest, msg_id) (out s)) s.

Definition confirm (dest msg_id : Z) (s : SenderCore) : SenderCore :=
  match out s !! (dest, msg_id) with
  | None => s
  | Some m =>
      match done_at m with
      | Some _ => with_out (delete (dest, msg_id) (out s)) s
      | None => with_out (<[(dest, msg_id) :=
          mkOutMsg (o_data m) (o_granted_to m) (next_send m) (done_at m) (o_last_progress m) false]> (out s)) s
      end
  end.

Definition retransmit_count (s : SenderCore) : Z := retransmits s.

(** ** Chunks *)

(** The bytes of [data] from [a] to [b]. *)
Definition sub (data : list Z) (a b : Z) : list Z := take (Z.to_nat (b - a)) (drop (Z.to_nat a) data).

Lemma sub_app data a b c : 0 ≤ a ≤ b → b ≤ c → sub data a b ++ sub data b c = sub data a c.
Proof.
  intros Ha Hb. unfold sub. replace (Z.to_nat (c - a)) with (Z.to_nat (b - a) + Z.to_nat (c - b))%nat by lia.
  rewrite <-take_take_drop. f_equal. rewrite drop_drop. f_equal. f_equal. lia.
Qed.

Lemma zlen_sub data a b : 0 ≤ a ≤ b → b ≤ zlen data → zlen (sub data a b) = b - a.
Proof. intros. unfold sub, zlen in *. rewrite length_take, length_drop. lia. Qed.

Lemma sub_whole data : sub data 0 (zlen data) = data.
Proof. unfold sub, zlen. rewrite drop_0, take_ge by lia. done. Qed.

(** A DATA packet of a message, as its receiver decodes it. *)
Definition data_header (data : list Z) (mid st e : Z) : Packet :=
  mkPkt Data (priority_for_len (zlen data)) mid (as_u32 (zlen data)) (as_u32 st) (as_u32 (e - st)).

Lemma data_packet_ok data mid st e :
  0 ≤ st ≤ e → e ≤ zlen data →
  data_packet data mid st e = Some (encode (data_header data mid st e) (sub data st e)).
Proof.
  intros Hs He. unfold data_packet. rewrite slice_ok by done. simpl.
  change (take _ (drop _ data)) with (sub data st e). by rewrite zlen_sub.
Qed.

Lemma priority_u8 len : is_u8 (priority_for_len len).
Proof.
  unfold priority_for_len, THRESHOLDS, NUM_PRIORITIES, u64_max. simpl.
  repeat match goal with |- context [?a <=? ?b] => destruct (Z.leb_spec a b) end; by_eval.
Qed.

Lemma as_u32_small x : 0 ≤ x ≤ u32_max → as_u32 x = x.
Proof. intros. unfold as_u32. apply Z.mod_small. unfold u32_max in *. lia. Qed.

Lemma decode_data data mid st e :
  0 ≤ st ≤ e → e ≤ zlen data → zlen data ≤ u32_max → is_u64 mid →
  decode (encode (data_header data mid st e) (sub data st e)) =
    Some (inr (mkPkt Data (priority_for_len (zlen data)) mid (zlen data) st (e - st), sub data st e)).
Proof.
  intros Hs He Hl Hm. unfold data_header. rewrite !as_u32_small by lia.
  apply decode_encode.
  - unfold wf_pkt, is_u32. cbn. split_and!; try apply priority_u8; try apply Hm; lia.
  - intros _. cbn. by rewrite zlen_sub.
Qed.

(** The packets of [acts] are consecutive chunks of [data], from [n] to
    [n'], each of [ps] bytes or up to the end of the message. *)
Inductive chunks (key : MsgKey) (data : list Z) (ps : Z) : Z → Z → list Action → Prop :=
  | chunks_nil n : chunks key data ps n n []
  | chunks_cons n e n' acts :
      0 ≤ n < e → e = Z.min (n + ps) (zlen data) → chunks key data ps e n' acts →
      chunks key data ps n n' (Send key.1 (encode (data_header data key.2 n e) (sub data n e)) :: acts).

Lemma pump_loop_ok fuel key ps limit data next :
  0 < ps → 0 ≤ next ≤ zlen data → limit ≤ zlen data → zlen data - next < Z.of_nat fuel →
  ∃ next' acts, pump_loop fuel key ps limit data next = Some (next', acts) ∧
    chunks key data ps next next' acts ∧ next ≤ next' ≤ zlen data ∧
    (if next <? limit then limit ≤ next' < limit + ps else next' = next).
Proof.
  intros Hps. revert next. induction fuel as [|fuel IH]; intros next Hn Hl Hf; [lia|]. simpl.
  destruct (Z.ltb_spec next limit) as [Hlt|Hge].
  - rewrite data_packet_ok by lia. simpl.
    destruct (IH (Z.min (next + ps) (zlen data))) as (next' & acts & -> & Hc & Hb & Hlim); [lia..|].
    simpl. do 2 eexists. split; [done|]. split; [constructor; [lia|done|done]|]. split; [lia|].
    destruct (Z.ltb_spec (Z.min (next + ps) (zlen data)) limit); lia.
  - do 2 eexists. split; [done|]. split; [constructor|]. split; [lia|done].
Qed.

(** ** The invariant of the sender *)

Record out_ok (ps : Z) (m : OutMsg) : Prop := mkOutOk {
  oo_next : 0 ≤ next_send m ≤ zlen (o_data m);
  oo_granted : 0 ≤ o_granted_to m ≤ zlen (o_data m);
  oo_window : next_send m < o_granted_to m + ps;
  oo_done : is_Some (done_at m) ↔ next_send m = zlen (o_data m)
}.

Definition sender_ok (s : SenderCore) : Prop :=
  0 < packet_size (s_cfg s) ∧ 0 ≤ unscheduled_bytes (s_cfg s) ∧
  ∀ k m, out s !! k = Some m → out_ok (packet_size (s_cfg s)) m.

(** A packet the flow control allows: a chunk of the message, of at most one
    packet, that starts less than one packet beyond the grant. *)
Definition allowed (ps : Z) (key : MsgKey) (m : OutMsg) (a : Action) : Prop :=
  ∃ st e, 0 ≤ st ≤ e ∧ e ≤ zlen (o_data m) ∧ e - st ≤ ps ∧ (st = 0 ∨ st < o_granted_to m + ps) ∧
    a = Send key.1 (encode (data_header (o_data m) key.2 st e) (sub (o_data m) st e)).

Lemma chunks_le key data ps n n' acts : chunks key data ps n n' acts → n ≤ n'.
Proof. induction 1; lia. Qed.

Lemma chunks_allowed key data ps n n' acts m limit :
  chunks key data ps n n' acts → o_data m = data → n' < limit + ps → limit ≤ o_granted_to m →
  Forall (allowed ps key m) acts.
Proof.
  intros Hc Hd Hn Hl. induction Hc as [n|n e n' acts Hne He Hc IH]; constructor; [|by apply IH].
  exists n, e. rewrite Hd. split_and!; try lia; [|done]. right.
  pose proof (chunks_le _ _ _ _ _ _ Hc). lia.
Qed.

Lemma chunks_empty key data ps n acts : chunks key data ps n n acts → acts = [].
Proof.
  intros Hc. inversion Hc as [|? e ? acts' H1 H2 H3]; [done|]. pose proof (chunks_le _ _ _ _ _ _ H3). lia.
Qed.

Lemma sender_ok_insert s k m :
  sender_ok s → out_ok (packet_size (s_cfg s)) m → sender_ok (with_out (<[k := m]> (out s)) s).
Proof.
  intros (Hp & Hu & Hs) Hm. split_and!; [done..|]. intros k' m'. simpl.
  rewrite lookup_insert_Some. intros [[<- <-]|[_ ?]]; eauto.
Qed.

Lemma done_iff (len next now : Z) :
  next ≤ len → is_Some (if len <=? next then Some now else None) ↔ next = len.
Proof.
  intros Hn. destruct (Z.leb_spec len next); split.
  - intros _. lia.
  - intros _. by eexists.
  - by intros [??].
  - lia.
Qed.

Lemma pump_ok key limit now s m :
  sender_ok s → out s !! key = Some m → done_at m = None → o_granted_to m ≤ limit ≤ zlen (o_data m) →
  ∃ m' acts, pump key limit now s = Some (with_out (<[key := m']> (out s)) s, acts) ∧
    out_ok (packet_size (s_cfg s)) m' ∧ o_data m' = o_data m ∧ o_granted_to m' = limit ∧
    retransmit m' = retransmit m ∧
    limit ≤ next_send m' ∧ chunks key (o_data m) (packet_size (s_cfg s)) (next_send m) (next_send m') acts ∧
    Forall (allowed (packet_size (s_cfg s)) key m') acts.
Proof.
  intros (Hp & Hu & Hs) Hm Hd Hl. destruct (Hs _ _ Hm) as [Hn Hg Hw Hdone].
  unfold pump. rewrite Hm, bool_decide_eq_false_2 by (rewrite Hd; by intros []).
  rewrite Z.min_l by lia.
  destruct (pump_loop_ok (S (length (o_data m))) key (packet_size (s_cfg s)) limit (o_data m) (next_send m))
    as (next' & acts & -> & Hc & Hb & Hlim); [done|lia|lia|unfold zlen in *; lia|].
  cbn [mbind option_bind]. rewrite Z.max_r by lia. rewrite Hd.
  do 2 eexists. split; [reflexivity|]. cbn.
  destruct (Z.ltb_spec (next_send m) limit); [|subst next'].
  - split_and!; try done; [|lia|].
    + constructor; cbn; try lia. apply done_iff. lia.
    + eapply chunks_allowed; [done|done|apply Hlim|done].
  - pose proof (chunks_empty _ _ _ _ _ Hc) as ->.
    split_and!; try done. constructor; cbn; try lia. apply done_iff. lia.
Qed.

Lemma start_ok dest mid data now rt s :
  sender_ok s →
  ∃ m acts, start_inner dest mid data now rt s = Some (with_out (<[(dest, mid) := m]> (out s)) s, acts) ∧
    out_ok (packet_size (s_cfg s)) m ∧ o_data m = data ∧
    chunks (dest, mid) data (packet_size (s_cfg s)) 0 (next_send m) acts ∧
    Z.min (unscheduled_bytes (s_cfg s)) (zlen data) ≤ next_send m ∧
    Forall (allowed (packet_size (s_cfg s)) (dest, mid) m) acts.
Proof.
  intros Hs. pose proof Hs as (Hp & Hu & Ho). pose proof (zlen_nonneg data).
  set (u := Z.min (unscheduled_bytes (s_cfg s)) (zlen data)).
  destruct (decide (zlen data = 0)) as [Hz|Hz].
  { (* an empty message is finished before anything is sent *)
    assert (Hu0 : u = 0) by lia. unfold start_inner, pump. fold u. rewrite Hu0. simpl.
    rewrite lookup_insert_eq. simpl. rewrite Hz. simpl.
    do 2 eexists. split; [unfold with_out; simpl; by rewrite insert_insert_eq|].
    split; [constructor; simpl; rewrite ?Hz; lia || done|].
    split; [done|]. simpl. split; [constructor|]. split; [lia|constructor]. }
  assert (Hok : sender_ok (with_out (<[(dest, mid) := mkOutMsg data u 0 None now rt]> (out s)) s)).
  { apply sender_ok_insert; [done|]. constructor; simpl; try lia. split; [by intros [??]|lia]. }
  destruct (pump_ok (dest, mid) u now _ (mkOutMsg data u 0 None now rt) Hok)
    as (m' & acts & E & Hm' & Hd & Hg & Hr & Hn & Hc & Ha); [apply lookup_insert_eq|done|simpl; lia|].
  exists m', acts. simpl in *. rewrite insert_insert_eq in E. split; [exact E|]. split_and!; done.
Qed.

Lemma resend_loop_ok fuel src mid ps data off end_ :
  0 < ps → 0 ≤ off → end_ ≤ zlen data → Z.max 0 (end_ - off) < Z.of_nat fuel →
  ∃ acts, resend_loop fuel src mid ps data off end_ = Some acts ∧
    (∀ a, a ∈ acts → ∃ st e, 0 ≤ st ≤ e ∧ e ≤ zlen data ∧ e - st ≤ ps ∧ st < end_ ∧ (ps | st) ∧
      a = Send src (encode (data_header data mid st e) (sub data st e))) ∧
    (∀ x, off ≤ x < end_ →
      ∃ st e, 0 ≤ st ≤ x ∧ x < e ≤ zlen data ∧
        Send src (encode (data_header data mid st e) (sub data st e)) ∈ acts).
Proof.
  intros Hps. revert off. induction fuel as [|fuel IH]; intros off Ho He Hf; [lia|]. simpl.
  destruct (Z.ltb_spec off end_) as [Hlt|Hge].
  2:{ eexists. split; [done|]. split; [set_solver|lia]. }
  unfold chunk_range. destruct (Z.eqb_spec ps 0); [lia|]. simpl.
  pose proof (Z.mul_div_le off ps Hps) as H1. pose proof (Z.mul_succ_div_gt off ps Hps) as H2.
  assert (0 ≤ off / ps) by (apply Z.div_pos; lia).
  set (st := off / ps * ps). assert (Hst : 0 ≤ st ≤ off ∧ off < st + ps) by (subst st; nia).
  set (e := Z.min (st + ps) (zlen data)).
  rewrite data_packet_ok by lia. cbn [mbind option_bind].
  destruct (IH (Z.max e (st + 1))) as (acts & -> & Ha & Hcov); [lia..|].
  simpl. eexists. split; [done|]. split.
  - intros a [->|Hin]%elem_of_cons; [|by apply Ha]. exists st, e.
    split_and!; try lia; [|done]. exists (off / ps). subst st. lia.
  - intros x Hx. destruct (decide (x < e)).
    + exists st, e. split; [lia|]. split; [lia|]. by left.
    + destruct (Hcov x) as (st' & e' & ? & ? & ?); [lia|]. exists st', e'. do 2 (split; [done|]). by right.
Qed.

(** What a RESEND does to its message. *)
Lemma resend_ok src pkt now s m :
  sender_ok s → out s !! (src, msg_id pkt) = Some m → 0 ≤ offset pkt → 0 ≤ length_ pkt →
  ∃ m' acts, handle_resend src pkt now s = Some (with_out (<[(src, msg_id pkt) := m']> (out s)) s, acts) ∧
    out_ok (packet_size (s_cfg s)) m' ∧ o_data m' = o_data m ∧
    Forall (allowed (packet_size (s_cfg s)) (src, msg_id pkt) m') acts ∧
    ∀ x, offset pkt ≤ x < offset pkt + length_ pkt → x < zlen (o_data m) →
      ∃ st e, 0 ≤ st ≤ x ∧ x < e ≤ zlen (o_data m) ∧
        Send src (encode (data_header (o_data m) (msg_id pkt) st e) (sub (o_data m) st e)) ∈ acts.
Proof.
  intros (Hp & Hu & Hs) Hm Ho Hl. destruct (Hs _ _ Hm) as [Hn Hg Hw Hdone].
  unfold handle_resend. rewrite Hm. pose proof (zlen_nonneg (o_data m)).
  set (st := Z.min (offset pkt) _). set (en := Z.min (st + _) _).
  destruct (resend_loop_ok (S (length (o_data m))) src (msg_id pkt) (packet_size (s_cfg s)) (o_data m) st en)
    as (acts & -> & Ha & Hcov); [lia|lia|lia|unfold zlen in *; lia|]. cbn [mbind option_bind].
  set (nd := if next_send m <? en then _ else _).
  assert (Hnd : nd.1 = Z.max (next_send m) en ∧ (is_Some nd.2 ↔ Z.max (next_send m) en = zlen (o_data m))).
  { subst nd. destruct (Z.ltb_spec (next_send m) en); cbn.
    - split; [lia|]. rewrite Z.max_r by lia. destruct (Z.leb_spec (zlen (o_data m)) en); cbn.
      + assert (en = zlen (o_data m)) by lia. case_bool_decide as Hd; [by split; eauto|].
        split; [done|]. intros _. destruct (done_at m); [by eauto|done].
      + rewrite Hdone. lia.
    - split; [lia|]. rewrite Hdone. lia. }
  destruct nd as [next done]. cbn in Hnd. destruct Hnd as [-> Hd].
  do 2 eexists. split; [reflexivity|]. cbn. split; [constructor; cbn; [lia|lia|lia|exact Hd]|]. split; [done|].
  split.
  - apply Forall_forall. intros a (s0 & e0 & ? & ? & ? & ? & _ & ->)%Ha. exists s0, e0. cbn.
    split_and!; try lia. done.
  - intros x Hx Hx'. apply Hcov. lia.
Qed.

(** ** Events *)

Inductive sender_op :=
  | SStart (dest mid : Z) (data : list Z) (now : Z) (rt : bool)
  | SGrant (src : Z) (pkt : Packet) (now : Z)
  | SResend (src : Z) (pkt : Packet) (now : Z)
  | SBusy (src : Z) (pkt : Packet) (now : Z)
  | STick (now : Z)
  | SFinish (dest mid : Z)
  | SConfirm (dest mid : Z).

Section Events.
Context `{!HashOrder MsgKey OutMsg}.

Definition sender_step (op : sender_op) (s : SenderCore) : option (SenderCore * list Action) :=
  match op with
  | SStart dest mid data now rt => start_inner dest mid data now rt s
  | SGrant src pkt now => handle_grant src pkt now s
  | SResend src pkt now => handle_resend src pkt now s
  | SBusy src pkt now => Some (handle_busy src pkt now s, [])
  | STick now => sender_tick now s
  | SFinish dest mid => Some (finish dest mid s, [])
  | SConfirm dest mid => Some (confirm dest mid s, [])
  end.

Definition op_wf (op : sender_op) : Prop :=
  match op with SResend _ pkt _ => 0 ≤ offset pkt ∧ 0 ≤ length_ pkt | _ => True end.

(** Every packet sent is one the flow control allows for its message. *)
Definition all_allowed (s : SenderCore) (acts : list Action) : Prop :=
  ∀ a, a ∈ acts → ∃ key m, out s !! key = Some m ∧ allowed (packet_size (s_cfg s)) key m a.

Lemma all_allowed_insert s key m acts :
  Forall (allowed (packet_size (s_cfg s)) key m) acts →
  all_allowed (with_out (<[key := m]> (out s)) s) acts.
Proof.
  intros Hf a Ha. exists key, m. rewrite Forall_forall in Hf. split; [apply lookup_insert_eq|auto].
Qed.

Lemma sender_ok_sub s m' :
  sender_ok s → m' ⊆ out s → sender_ok (with_out m' s).
Proof.
  intros (Hp & Hu & Hs) Hsub. split_and!; [done..|]. intros k m Hk. simpl in *.
  eapply Hs, lookup_weaken; eauto.
Qed.

(** Messages that differ at most in when they last made progress. *)
Definition touched (m m' : OutMsg) : Prop :=
  o_data m' = o_data m ∧ o_granted_to m' = o_granted_to m ∧ next_send m' = next_send m ∧
  done_at m' = done_at m.

Definition touched_all (s s' : SenderCore) : Prop :=
  s_cfg s' = s_cfg s ∧ ∀ k m, out s !! k = Some m → ∃ m', out s' !! k = Some m' ∧ touched m m'.

Lemma all_allowed_touched s s' acts : touched_all s s' → all_allowed s acts → all_allowed s' acts.
Proof.
  intros [Hc Ht] H a Ha. destruct (H a Ha) as (k & m & Hm & Hal). destruct (Ht _ _ Hm) as (m' & Hm' & Hd & Hg & _).
  exists k, m'. split; [done|]. unfold allowed in *. by rewrite Hc, Hd, Hg.
Qed.

Lemma touched_insert s key m now n :
  out s !! key = Some m →
  touched_all s (mkSender (s_cfg s) (<[key := set_last_progress now m]> (out s)) n).
Proof.
  intros Hm. split; [done|]. intros k m' Hk. simpl. destruct (decide (key = k)) as [<-|].
  - rewrite lookup_insert_eq. eexists. split; [done|]. rewrite Hm in Hk. simplify_eq. by split_and!.
  - rewrite lookup_insert_ne by done. exists m'. by split_and!.
Qed.

Lemma touched_refl s : touched_all s s.
Proof. split; [done|]. intros k m Hk. exists m. by split_and!. Qed.

Lemma touched_trans s1 s2 s3 : touched_all s1 s2 → touched_all s2 s3 → touched_all s1 s3.
Proof.
  intros [C1 H1] [C2 H2]. split; [congruence|]. intros k m Hm.
  destruct (H1 _ _ Hm) as (m1 & Hm1 & T1). destruct (H2 _ _ Hm1) as (m2 & Hm2 & T2).
  exists m2. split; [done|]. unfold touched in *. intuition congruence.
Qed.

Lemma out_ok_touched ps m now : out_ok ps m → out_ok ps (set_last_progress now m).
Proof. by intros []; constructor. Qed.

Lemma tick_key_ok now key s :
  sender_ok s → retransmits s < u64_max →
  ∃ s' acts, tick_key now key s = Some (s', acts) ∧ sender_ok s' ∧ touched_all s s' ∧
    retransmits s ≤ retransmits s' ≤ retransmits s + 1 ∧ all_allowed s' acts.
Proof.
  intros Hok Hr. pose proof Hok as (Hp & Hu & Hs). unfold tick_key.
  destruct (out s !! key) as [m|] eqn:Hm.
  2:{ exists s, []. split_and!; try done; try lia; try apply touched_refl. set_solver. }
  destruct (Hs _ _ Hm) as [Hn Hg Hw Hdone]. pose proof (zlen_nonneg (o_data m)).
  assert (Hok' : ∀ n, sender_ok (mkSender (s_cfg s) (<[key := set_last_progress now m]> (out s)) n)).
  { intros n. destruct (sender_ok_insert s key (set_last_progress now m)) as (? & ? & ?); [done|by eapply out_ok_touched, Hs|].
    by split_and!. }
  assert (Hal : ∀ st e n, 0 ≤ st ≤ e → e ≤ zlen (o_data m) → e - st ≤ packet_size (s_cfg s) →
    st = 0 ∨ st < o_granted_to m + packet_size (s_cfg s) →
    all_allowed (mkSender (s_cfg s) (<[key := set_last_progress now m]> (out s)) n)
      [Send key.1 (encode (data_header (o_data m) key.2 st e) (sub (o_data m) st e))]).
  { intros st e n ? ? ? ? a ->%list_elem_of_singleton. exists key, (set_last_progress now m).
    split; [apply lookup_insert_eq|]. exists st, e. simpl. split_and!; try lia; done. }
  case_bool_decide as Hd.
  - destruct (_ && _).
    + rewrite data_packet_ok by lia. cbn [mbind option_bind]. rewrite add_chk_ok by lia. cbn [mbind option_bind].
      do 2 eexists. split; [done|]. split; [apply Hok'|]. split; [by apply touched_insert|].
      split; [simpl; lia|]. apply Hal; lia.
    + exists s, []. split_and!; try done; try lia; try apply touched_refl. set_solver.
  - destruct (_ <? _).
    { exists s, []. split_and!; try done; try lia; try apply touched_refl. set_solver. }
    assert (Hlast : ∃ lo, (if next_send m =? 0 then Some 0
        else if packet_size (s_cfg s) =? 0 then None
        else Some ((next_send m - 1) / packet_size (s_cfg s) * packet_size (s_cfg s))) = Some lo ∧
      0 ≤ lo ∧ (packet_size (s_cfg s) | lo) ∧ (lo = 0 ∨ lo < next_send m)).
    { destruct (Z.eqb_spec (next_send m) 0).
      - eexists. split; [done|]. split; [lia|]. split; [apply Z.divide_0_r|lia].
      - destruct (Z.eqb_spec (packet_size (s_cfg s)) 0); [lia|]. eexists. split; [done|].
        pose proof (Z.mul_div_le (next_send m - 1) (packet_size (s_cfg s)) Hp).
        assert (0 ≤ (next_send m - 1) / packet_size (s_cfg s)) by (apply Z.div_pos; lia).
        split; [nia|]. split; [apply Z.divide_factor_r|]. right. lia. }
    destruct Hlast as (lo & -> & Hlo & [q Hq] & Hlo'). cbn [mbind option_bind].
    unfold chunk_range. destruct (Z.eqb_spec (packet_size (s_cfg s)) 0); [lia|]. cbn [mbind option_bind].
    rewrite Hq, Z.div_mul by lia. rewrite <-Hq.
    assert (lo ≤ zlen (o_data m)) by lia.
    rewrite data_packet_ok by lia. cbn [mbind option_bind].
    do 2 eexists. split; [done|]. split; [apply Hok'|]. split; [by apply touched_insert|].
    split; [simpl; lia|]. apply Hal; lia.
Qed.

Lemma tick_keys_ok now keys : ∀ s,
  sender_ok s → retransmits s + zlen keys ≤ u64_max →
  ∃ s' acts, tick_keys now keys s = Some (s', acts) ∧ sender_ok s' ∧ touched_all s s' ∧ all_allowed s' acts.
Proof.
  induction keys as [|key keys IH]; intros s Hok Hr.
  { exists s, []. split; [done|]. split; [done|]. split; [apply touched_refl|set_solver]. }
  rewrite zlen_cons in Hr. pose proof (zlen_nonneg keys).
  destruct (tick_key_ok now key s Hok) as (s1 & a & E1 & Hok1 & T1 & R1 & A1); [lia|].
  destruct (IH s1 Hok1) as (s2 & b & E2 & Hok2 & T2 & A2); [lia|].
  exists s2, (a ++ b). simpl. rewrite E1. cbn [mbind option_bind]. rewrite E2. split; [done|]. split; [done|].
  split; [by eapply touched_trans|]. intros x [Hx|Hx]%elem_of_app; [|by apply A2].
  by eapply all_allowed_touched.
Qed.

Lemma all_allowed_nil s : all_allowed s [].
Proof. intros a. set_solver. Qed.

(** [C9] Receiver-driven flow control: whatever events a sender handles, in
    whatever order (new messages, grants, resend requests, busy signals,
    ticks, confirmations), no step panics or loops, every message keeps
    [next_send] within the message and less than one packet beyond its
    grant, with [done_at] set exactly when all of it was sent, and every
    datagram that leaves is a chunk of one of the messages, of at most one
    packet, that starts less than one packet beyond what was granted. *)
Theorem sender_step_safe op s :
  sender_ok s → op_wf op → retransmits s + Z.of_nat (size (out s)) ≤ u64_max →
  ∃ s' acts, sender_step op s = Some (s', acts) ∧ sender_ok s' ∧ all_allowed s' acts.
Proof.
  intros Hok Hw Hr. pose proof Hok as (Hp & Hu & Hs). destruct op as [dest mid data now rt|src pkt now|src pkt now|src pkt now|now|dest mid|dest mid]; simpl.
  - destruct (start_ok dest mid data now rt s Hok) as (m & acts & E & Hm & _ & _ & _ & Ha).
    do 2 eexists. split; [exact E|]. split; [by apply sender_ok_insert|by apply all_allowed_insert].
  - unfold handle_grant. destruct (out s !! (src, msg_id pkt)) as [m|] eqn:Hm.
    2:{ do 2 eexists. split; [done|]. auto using all_allowed_nil. }
    destruct (Z.leb_spec (Z.min (offset pkt) (zlen (o_data m))) (o_granted_to m)).
    { do 2 eexists. split; [done|]. auto using all_allowed_nil. }
    destruct (done_at m) as [t|] eqn:Hd.
    { unfold pump. rewrite Hm, bool_decide_eq_true_2 by (rewrite Hd; eauto).
      do 2 eexists. split; [done|]. auto using all_allowed_nil. }
    destruct (pump_ok (src, msg_id pkt) (Z.min (offset pkt) (zlen (o_data m))) now s m Hok Hm Hd)
      as (m' & acts & E & Hm' & _ & _ & _ & _ & _ & Ha); [lia|].
    do 2 eexists. split; [exact E|]. split; [by apply sender_ok_insert|by apply all_allowed_insert].
  - destruct Hw as [Hw1 Hw2]. destruct (out s !! (src, msg_id pkt)) as [m|] eqn:Hm.
    2:{ unfold handle_resend. rewrite Hm. do 2 eexists. split; [done|]. auto using all_allowed_nil. }
    destruct (resend_ok src pkt now s m Hok Hm Hw1 Hw2) as (m' & acts & E & Hm' & _ & Ha & _).
    do 2 eexists. split; [exact E|]. split; [by apply sender_ok_insert|by apply all_allowed_insert].
  - do 2 eexists. split; [done|]. split; [|apply all_allowed_nil]. unfold handle_busy.
    destruct (out s !! _) as [m|] eqn:Hm; [|done]. apply sender_ok_insert; [done|].
    by eapply out_ok_touched, Hs.
  - unfold sender_tick. set (kept := filter _ (out s)).
    assert (Hsub : kept ⊆ out s) by apply map_filter_subseteq.
    destruct (tick_keys_ok now (hm_iter kept).*1 (with_out kept s)) as (s' & acts & E & ? & _ & ?).
    { by apply sender_ok_sub. }
    { unfold zlen. rewrite length_fmap, length_hm_iter. apply map_subseteq_size in Hsub. simpl. lia. }
    eauto.
  - do 2 eexists. split; [done|]. split; [|apply all_allowed_nil]. apply sender_ok_sub; [done|apply delete_subseteq].
  - do 2 eexists. split; [done|]. split; [|apply all_allowed_nil]. unfold confirm.
    destruct (out s !! (dest, mid)) as [m|] eqn:Hm; [|done]. destruct (done_at m) eqn:Hd.
    + apply sender_ok_sub; [done|apply delete_subseteq].
    + apply sender_ok_insert; [done|]. rewrite <-Hd. destruct (Hs _ _ Hm). by constructor.
Qed.

End Events.

(** ** What the receiver sees *)

(** The payloads of the datagrams among [acts], one after the other. *)
Fixpoint payloads (acts : list Action) : list Z :=
  match acts with
  | Send _ bytes :: acts' =>
      match decode bytes with
      | Some (inr (_, payload)) => payload ++ payloads acts'
      | _ => payloads acts'
      end
  | _ :: acts' => payloads acts'
  | [] => []
  end.

Lemma chunks_payloads key data ps n n' acts :
  chunks key data ps n n' acts → 0 ≤ n → zlen data ≤ u32_max → is_u64 key.2 →
  payloads acts = sub data n n' ∧ n ≤ n'.
Proof.
  intros Hc Hn Hl Hk. induction Hc as [n|n e n' acts Hne He Hc IH].
  - split; [|lia]. unfold sub. by rewrite Z.sub_diag.
  - cbn [payloads]. rewrite decode_data by (done || lia). destruct IH as [-> ?]; [lia|].
    rewrite sub_app by lia. split; [done|lia].
Qed.

Lemma chunks_elem key data ps n n' acts a :
  chunks key data ps n n' acts → a ∈ acts →
  ∃ st e, 0 ≤ st < e ∧ e ≤ zlen data ∧ e - st ≤ ps ∧
    a = Send key.1 (encode (data_header data key.2 st e) (sub data st e)).
Proof.
  intros Hc. induction Hc as [|n e n' acts Hne He Hc IH]; [set_solver|].
  intros [->|?]%elem_of_cons; [|by apply IH]. exists n, e. split_and!; try lia. done.
Qed.

(** Chunks that start at a multiple of the packet size are cut at multiples
    of it, and none is left out. *)
Lemma chunks_aligned key data ps n n' acts :
  chunks key data ps n n' acts → 0 < ps → (ps | n) →
  (∀ a, a ∈ acts → ∃ i, 0 ≤ i ∧ i * ps < zlen data ∧
     a = Send key.1 (encode (data_header data key.2 (i * ps) (Z.min (i * ps + ps) (zlen data)))
           (sub data (i * ps) (Z.min (i * ps + ps) (zlen data))))) ∧
  (n' = zlen data → ∀ i, n ≤ i * ps < zlen data →
     Send key.1 (encode (data_header data key.2 (i * ps) (Z.min (i * ps + ps) (zlen data)))
           (sub data (i * ps) (Z.min (i * ps + ps) (zlen data)))) ∈ acts).
Proof.
  intros Hc Hps. induction Hc as [n|n e n' acts Hne He Hc IH]; intros [q Hq].
  { split; [set_solver|lia]. }
  assert (Hend : e = zlen data → acts = []).
  { intros ->. inversion Hc; subst; [done|]. lia. }
  destruct (decide (n + ps ≤ zlen data)) as [Hfit|Hlast].
  - assert (Ee : e = n + ps) by lia. destruct IH as [IH1 IH2]; [exists (q + 1); lia|]. split.
    + intros a [->|Ha]%elem_of_cons; [|by apply IH1]. exists q. rewrite <-Hq, <-He.
      split; [nia|]. split; [lia|done].
    + intros En i Hi. destruct (decide (i = q)) as [->|].
      * rewrite <-Hq, <-He. by left.
      * right. apply IH2; [done|]. nia.
  - assert (Ee : e = zlen data) by lia. rewrite (Hend Ee). split.
    + intros a ->%list_elem_of_singleton. exists q. rewrite <-Hq, <-He. split; [nia|]. split; [lia|done].
    + intros _ i Hi. assert (i = q) as -> by nia. rewrite <-Hq, <-He. by left.
Qed.

(** A message no longer than the unscheduled window is sent at once and
    in full: the datagrams that [start] emits carry, one after the other,
    exactly the bytes of the message, and the message is done. *)
Theorem short_message_sent_in_full dest mid data now rt s :
  sender_ok s → zlen data ≤ unscheduled_bytes (s_cfg s) → zlen data ≤ u32_max → is_u64 mid →
  ∃ s' acts, start_inner dest mid data now rt s = Some (s', acts) ∧
    payloads acts = data ∧ is_done dest mid s' = true ∧
    ∀ a, a ∈ acts → ∃ st e, 0 ≤ st < e ∧ e ≤ zlen data ∧ e - st ≤ packet_size (s_cfg s) ∧
      a = Send dest (encode (data_header data mid st e) (sub data st e)).
Proof.
  intros Hok Hu Hl Hm. destruct (start_ok dest mid data now rt s Hok) as (m & acts & E & Hmo & Hd & Hc & Hn & _).
  rewrite Z.min_r in Hn by lia. destruct Hmo as [Hnext Hg Hw Hdone].
  assert (En : next_send m = zlen data) by (rewrite Hd in Hnext; lia).
  do 2 eexists. split; [exact E|]. rewrite En in Hc. split; [|split].
  - destruct (chunks_payloads _ _ _ _ _ _ Hc) as [-> _]; try done. apply sub_whole.
  - unfold is_done. simpl. rewrite lookup_insert_eq. apply bool_decide_eq_true_2, Hdone. congruence.
  - intros a (st & e & ? & ? & ? & ->)%(chunks_elem _ _ _ _ _ _ _ Hc). exists st, e. split_and!; try lia. done.
Qed.

(** A resend request is answered in full: for every byte of the
    message in the requested range, one of the datagrams sent decodes to a
    DATA packet of the message whose payload covers that byte. *)
Theorem resend_covers_request src pkt now s m :
  sender_ok s → out s !! (src, msg_id pkt) = Some m → 0 ≤ offset pkt → 0 ≤ length_ pkt →
  zlen (o_data m) ≤ u32_max → is_u64 (msg_id pkt) →
  ∃ s' acts, handle_resend src pkt now s = Some (s', acts) ∧
    ∀ x, offset pkt ≤ x < offset pkt + length_ pkt → x < zlen (o_data m) →
      ∃ bytes h payload, Send src bytes ∈ acts ∧ decode bytes = Some (inr (h, payload)) ∧
        msg_len h = zlen (o_data m) ∧ offset h ≤ x < offset h + zlen payload ∧
        payload = sub (o_data m) (offset h) (offset h + zlen payload).
Proof.
  intros Hok Hm Ho Hl Hlen Hid.
  destruct (resend_ok src pkt now s m Hok Hm Ho Hl) as (m' & acts & E & _ & _ & _ & Hcov).
  do 2 eexists. split; [exact E|]. intros x Hx Hx'. destruct (Hcov x Hx Hx') as (st & e & Hst & He & Hin).
  do 3 eexists. split; [exact Hin|]. split; [apply decode_data; lia || done|]. cbn [msg_len offset].
  rewrite zlen_sub by lia. split; [done|]. split; [lia|]. f_equal. lia.
Qed.

(** An empty message is never sent: [start] marks it done without
    emitting a datagram, although the receiver has a case that delivers an
    empty message on its first packet. *)
Theorem empty_message_not_sent dest mid now rt s :
  ∃ s', start_inner dest mid [] now rt s = Some (s', []) ∧ is_done dest mid s' = true.
Proof.
  unfold start_inner, pump. cbn [out with_out]. rewrite lookup_insert_eq. cbn [done_at].
  rewrite bool_decide_eq_false_2 by (by intros []). simpl.
  assert (E : Z.min (Z.min (unscheduled_bytes (s_cfg s)) (zlen (@nil Z))) (zlen (@nil Z)) ≤ 0) by (unfold zlen; simpl; lia).
  destruct (Z.ltb_spec 0 (Z.min (Z.min (unscheduled_bytes (s_cfg s)) (zlen (@nil Z))) (zlen (@nil Z)))); [lia|].
  simpl. eexists. split; [done|]. unfold is_done. simpl. by rewrite lookup_insert_eq.
Qed.

(** ** Witnesses *)

Definition ex_cfg : TransportConfig := mkCfg 4 10 7 20 40 50 500 5000 30000 8 2 200.

Lemma ex_sender_ok : sender_ok (sender_new ex_cfg).
Proof. split_and!; [by_eval..|]. intros k m. simpl. by rewrite lookup_empty. Qed.

Definition ex_message : list Z := [1; 2; 3; 4; 5; 6; 7; 8; 9].

Lemma sender_step_safe_witness :
  ∃ s' acts, @sender_step default_order (SStart 7 1 ex_message 0 true) (sender_new ex_cfg) = Some (s', acts) ∧
    sender_ok s' ∧ all_allowed s' acts.
Proof.
  apply (@sender_step_safe default_order (SStart 7 1 ex_message 0 true) (sender_new ex_cfg));
    [apply ex_sender_ok|exact I|by_eval].
Defined.

Lemma short_message_sent_in_full_witness :
  ∃ s' acts, start_inner 7 1 ex_message 0 true (sender_new ex_cfg) = Some (s', acts) ∧
    payloads acts = ex_message ∧ is_done 7 1 s' = true.
Proof.
  destruct (short_message_sent_in_full 7 1 ex_message 0 true (sender_new ex_cfg)) as (s' & acts & E & Hp & Hd & _);
    [apply ex_sender_ok|by_eval..|]. exists s', acts. auto.
Defined.

Lemma resend_covers_request_witness :
  ∃ s acts0 s' acts, start_inner 7 1 ex_message 0 true (sender_new ex_cfg) = Some (s, acts0) ∧
    handle_resend 7 (mkPkt Resend 0 1 0 5 2) 9 s = Some (s', acts) ∧
    ∃ bytes, Send 7 bytes ∈ acts.
Proof.
  destruct (start_ok 7 1 ex_message 0 true (sender_new ex_cfg) ex_sender_ok) as (m & acts0 & E & Hm & Hd & _).
  exists (with_out (<[(7, 1) := m]> ∅) (sender_new ex_cfg)), acts0.
  destruct (resend_covers_request 7 (mkPkt Resend 0 1 0 5 2) 9 (with_out (<[(7, 1) := m]> ∅) (sender_new ex_cfg)) m)
    as (s' & acts & E' & Hc).
  - apply (sender_ok_insert (sender_new ex_cfg)); [apply ex_sender_ok|done].
  - reflexivity.
  - by_eval.
  - by_eval.
  - rewrite Hd. by_eval.
  - by_eval.
  - exists s', acts. split; [exact E|]. split; [exact E'|].
    destruct (Hc 5) as (b & h & pl & Hin & _); [by_eval|rewrite Hd; by_eval|]. by exists b.
Defined.
