(* ===== verification/HomaReceiver.v ===== *)
(** * The receiving core of the Homa transport

    Models [crates/homa-rpc/src/transport/receiver.rs]: reassembly by chunk
    bitmap, the SRPT grant scheduler with overcommitment and a starvation
    guard, RESEND requests and delivery with deduplication.

    The binary heap of starvation candidates is the sorted list of its
    entries: [push] inserts, [peek] and [pop] take the least entry.  The
    iteration order of [incoming] is a parameter ([HashOrder]). *)

From S2P Require Import Prelude Bytes HomaPacket HomaSender.

Record InMsg := mkInMsg {
  total_len : Z;
  buf : list Z;
  received : list bool;
  received_bytes : Z;
  granted_to : Z;
  last_progress : Z;
  last_grant : Z;
  unanswered_resends : Z
}.

Definition MAX_UNANSWERED_RESENDS : Z := 40.
Definition COMPLETED_CACHE : Z := 4096.
Definition MAX_MSG_LEN : Z := Z.shiftl 16 20.

Definition remaining (m : InMsg) : option Z := sub_chk (total_len m) (received_bytes m).
Definition complete_msg (m : InMsg) : bool := received_bytes m =? total_len m.

(** The index of the first [false]. *)
Fixpoint first_false (i : Z) (l : list bool) : option Z :=
  match l with
  | [] => None
  | r :: l' => if r then first_false (i + 1) l' else Some i
  end.

Definition first_missing_offset (pkt_size : Z) (m : InMsg) : option Z :=
  i ← first_false 0 (received m); Some (i * pkt_size).

Record ReceiverCore := mkReceiver {
  r_cfg : TransportConfig;
  incoming : gmap MsgKey InMsg;
  granting : list MsgKey;
  completed : gset MsgKey;
  completed_order : list MsgKey;
  starve_queue : list (Z * MsgKey)
}.

Definition receiver_new (cfg : TransportConfig) : ReceiverCore := mkReceiver cfg ∅ [] ∅ [] [].

Definition with_incoming (m : gmap MsgKey InMsg) (r : ReceiverCore) : ReceiverCore :=
  mkReceiver (r_cfg r) m (granting r) (completed r) (completed_order r) (starve_queue r).
Definition with_granting (g : list MsgKey) (r : ReceiverCore) : ReceiverCore :=
  mkReceiver (r_cfg r) (incoming r) g (completed r) (completed_order r) (starve_queue r).
Definition with_queue (q : list (Z * MsgKey)) (r : ReceiverCore) : ReceiverCore :=
  mkReceiver (r_cfg r) (incoming r) (granting r) (completed r) (completed_order r) q.

(** The order of the heap: expiry, then address, then message id. *)
Definition heap_leb (x y : Z * MsgKey) : bool :=
  (x.1 <? y.1) || (x.1 =? y.1) &&
    ((x.2.1 <? y.2.1) || (x.2.1 =? y.2.1) && (x.2.2 <=? y.2.2)).

Fixpoint heap_push (x : Z * MsgKey) (q : list (Z * MsgKey)) : list (Z * MsgKey) :=
  match q with
  | [] => [x]
  | y :: q' => if heap_leb x y then x :: q else y :: heap_push x q'
  end.

Definition push_starve (now : Z) (key : MsgKey) (r : ReceiverCore) : ReceiverCore :=
  with_queue (heap_push (now + starve_threshold (r_cfg r), key) (starve_queue r)) r.

Definition control_packet (t : PacketType) (prio mid off len : Z) : list Z :=
  encode (mkPkt t prio mid 0 off len) [].

(** Widen the grant of one message, throttled unless forced. *)
Definition issue_grant (key : MsgKey) (now : Z) (force : bool) (r : ReceiverCore) : ReceiverCore * list Action :=
  let increment := grant_increment (r_cfg r) in
  match incoming r !! key with
  | None => (r, [])
  | Some msg =>
      let outstanding := sat_sub (granted_to msg) (received_bytes msg) in
      if negb force && (increment / 2 <=? outstanding) then (r, []) else
      let target := Z.max (Z.min (received_bytes msg + increment) (total_len msg)) (granted_to msg) in
      if (target =? granted_to msg) && negb force then (r, []) else
      let added := sat_sub target (granted_to msg) in
      let msg' := mkInMsg (total_len msg) (buf msg) (received msg) (received_bytes msg) target
                    (last_progress msg) now (unanswered_resends msg) in
      let bytes := control_packet Grant (priority_for_len (total_len msg)) key.2 (as_u32 target) (as_u32 added) in
      (push_starve now key (with_incoming (<[key := msg']> (incoming r)) r), [Send key.1 bytes])
  end.

Fixpoint issue_grants (keys : list MsgKey) (now : Z) (r : ReceiverCore) : ReceiverCore * list Action :=
  match keys with
  | [] => (r, [])
  | key :: keys' =>
      let '(r, a) := issue_grant key now false r in
      let '(r, b) := issue_grants keys' now r in
      (r, a ++ b)
  end.

(** [sort_by_key] is stable: insertion keeps the order of equal keys. *)
Fixpoint insert_by_rem (x : MsgKey * Z) (l : list (MsgKey * Z)) : list (MsgKey * Z) :=
  match l with
  | [] => [x]
  | y :: l' => if x.2 <=? y.2 then x :: l else y :: insert_by_rem x l'
  end.
Definition sort_by_rem (l : list (MsgKey * Z)) : list (MsgKey * Z) := foldr insert_by_rem [] l.

(** A message that still needs grants. *)
Definition needs_grant (m : InMsg) : bool := negb (complete_msg m) && (granted_to m <? total_len m).

Definition starving (now starve : Z) (m : InMsg) : bool := starve <=? duration_since now (last_grant m).

Section Receiver.
Context `{!HashOrder MsgKey InMsg}.

(** The candidates with their remaining bytes. *)
Definition candidates (r : ReceiverCore) : option (list (MsgKey * Z)) :=
  mapM (λ p, rem ← remaining p.2; Some (p.1, rem))
    (filter (λ p, needs_grant p.2) (hm_iter (incoming r))).

(** The keys that join the grant set because they starve. *)
Fixpoint add_starving (now starve : Z) (l : list (MsgKey * InMsg)) (selected : list MsgKey) : list MsgKey :=
  match l with
  | [] => selected
  | (key, m) :: l' =>
      if needs_grant m && starving now starve m && negb (bool_decide (key ∈ selected))
      then add_starving now starve l' (selected ++ [key])
      else add_starving now starve l' selected
  end.

Definition select (now : Z) (r : ReceiverCore) : option (list MsgKey) :=
  let k := Z.max (overcommit (r_cfg r)) 1 in
  cands ← candidates r;
  let selected := (take (Z.to_nat k) (sort_by_rem cands)).*1 in
  Some (add_starving now (starve_threshold (r_cfg r)) (hm_iter (incoming r)) selected).

Definition schedule (now : Z) (r : ReceiverCore) : option (ReceiverCore * list Action) :=
  selected ← select now r;
  Some (issue_grants selected now (with_granting selected r)).

Definition starved (now : Z) (k : MsgKey) (r : ReceiverCore) : bool :=
  match incoming r !! k with
  | None => false
  | Some m => negb (bool_decide (k ∈ granting r)) && (granted_to m <? total_len m)
              && starving now (starve_threshold (r_cfg r)) m
  end.

Fixpoint starve_loop (now : Z) (q : list (Z * MsgKey)) (r : ReceiverCore) : option (ReceiverCore * list Action) :=
  match q with
  | [] => Some (with_queue [] r, [])
  | (t, k) :: q' =>
      if now <? t then Some (with_queue q r, [])
      else if starved now k r then schedule now (with_queue q' r)
      else starve_loop now q' r
  end.

Definition starve_check (now : Z) (r : ReceiverCore) : option (ReceiverCore * list Action) :=
  starve_loop now (starve_queue r) r.

Definition deliver (key : MsgKey) (src : Z) (data : list Z) (r : ReceiverCore) : ReceiverCore * list Action :=
  let order := completed_order r ++ [key] in
  let done := {[key]} ∪ completed r in
  let '(order, done) :=
    if COMPLETED_CACHE <? zlen order
    then match order with old :: order' => (order', done ∖ {[old]}) | [] => (order, done) end
    else (order, done) in
  (mkReceiver (r_cfg r) (delete key (incoming r)) (filter (λ k, k ≠ key) (granting r)) done order (starve_queue r),
   [Deliver src key.2 data]).

(** [buf[offset..offset + payload.len()].copy_from_slice(payload)] *)
Definition copy_into (b : list Z) (off : Z) (payload : list Z) : option (list Z) :=
  if (0 <=? off) && (off + zlen payload <=? zlen b)
  then Some (take (Z.to_nat off) b ++ payload ++ drop (Z.to_nat (off + zlen payload)) b) else None.

Definition fresh_msg (total unscheduled chunks now : Z) : InMsg :=
  mkInMsg total (replicate (Z.to_nat total) 0) (replicate (Z.to_nat chunks) false) 0 unscheduled now now 0.

(** [total_len.div_ceil(pkt_size).max(1)] *)
Definition chunk_count (total pkt_size : Z) : option Z :=
  if pkt_size =? 0 then None else Some (Z.max ((total + pkt_size - 1) / pkt_size) 1).

(** Write a chunk into a message, if it is new and fits. *)
Definition write_chunk (pkt_size off total : Z) (payload : list Z) (now : Z) (m : InMsg) : option InMsg :=
  if pkt_size =? 0 then None else
  let idx := off / pkt_size in
  let new := match vget (received m) idx with Some false => true | _ => false end in
  if new && (off + zlen payload <=? total) then
    b ← copy_into (buf m) off payload;
    rec ← vset (received m) idx true;
    Some (mkInMsg (total_len m) b rec (received_bytes m + zlen payload) (granted_to m) now (last_grant m) 0)
  else Some m.

(** After a chunk: deliver a complete message, or schedule. *)
Definition after_chunk (key : MsgKey) (src now : Z) (is_new : bool) (msg : InMsg) (r : ReceiverCore)
    : option (ReceiverCore * list Action) :=
  if complete_msg msg then
    let '(r, a) := deliver key src (buf msg) r in
    '(r, b) ← schedule now r;
    Some (r, a ++ b)
  else
    '(r, a) ← (if is_new then schedule now r
               else if bool_decide (key ∈ granting r) then Some (issue_grant key now false r)
               else Some (r, []));
    '(r, b) ← starve_check now r;
    Some (r, a ++ b).

Definition handle_data (src : Z) (pkt : Packet) (payload : list Z) (now : Z) (r : ReceiverCore)
    : option (ReceiverCore * list Action) :=
  let key := (src, msg_id pkt) in
  if bool_decide (key ∈ completed r) then Some (r, []) else
  let total := msg_len pkt in
  if MAX_MSG_LEN <? total then Some (r, []) else
  let pkt_size := packet_size (r_cfg r) in
  let is_new := bool_decide (incoming r !! key = None) in
  if is_new && (max_incoming (r_cfg r) <=? Z.of_nat (size (incoming r)))
  then Some (r, [Send src (control_packet Busy 0 (msg_id pkt) 0 0)]) else
  let unscheduled := Z.min (unscheduled_bytes (r_cfg r)) total in
  let r := if is_new then push_starve now key r else r in
  msg ← match incoming r !! key with
        | Some m => Some m
        | None => chunks ← chunk_count total pkt_size; Some (fresh_msg total unscheduled chunks now)
        end;
  let r := with_incoming (<[key := msg]> (incoming r)) r in
  if total =? 0 then
    let '(r, a) := deliver key src [] r in
    '(r, b) ← schedule now r;
    Some (r, a ++ b)
  else
    msg ← write_chunk pkt_size (offset pkt) total payload now msg;
    after_chunk key src now is_new msg (with_incoming (<[key := msg]> (incoming r)) r).

(** The body of the loop of [tick] for one key. *)
Definition rtick_key (now : Z) (key : MsgKey) (r : ReceiverCore) : option (ReceiverCore * list Action) :=
  match incoming r !! key with
  | None => Some (r, [])
  | Some msg =>
      if duration_since now (last_progress msg) <? resend_timeout (r_cfg r) then Some (r, []) else
      let stall :=
        if grant_timeout (r_cfg r) <=? duration_since now (last_progress msg) then
          let msg' := mkInMsg (total_len msg) (buf msg) (received msg) (received_bytes msg) (granted_to msg)
                        now (last_grant msg) (unanswered_resends msg) in
          let r := with_incoming (<[key := msg']> (incoming r)) r in
          if bool_decide (key ∈ granting r) then Some (issue_grant key now true r) else Some (r, [])
        else Some (r, []) in
      match first_missing_offset (packet_size (r_cfg r)) msg with
      | Some off =>
          if off <? granted_to msg then
            let span := Z.min (granted_to msg - off) (grant_increment (r_cfg r)) in
            let bytes := control_packet Resend (priority_for_len (total_len msg)) key.2 (as_u32 off) (as_u32 span) in
            n ← add_chk u32_max (unanswered_resends msg) 1;
            let msg' := mkInMsg (total_len msg) (buf msg) (received msg) (received_bytes msg) (granted_to msg)
                          now (last_grant msg) n in
            let r := with_incoming (<[key := msg']> (incoming r)) r in
            let r := if MAX_UNANSWERED_RESENDS <? n
                     then with_granting (filter (λ k, k ≠ key) (granting r)) (with_incoming (delete key (incoming r)) r)
                     else r in
            Some (r, [Send key.1 bytes])
          else stall
      | None => stall
      end
  end.

Fixpoint rtick_keys (now : Z) (keys : list MsgKey) (r : ReceiverCore) : option (ReceiverCore * list Action) :=
  match keys with
  | [] => Some (r, [])
  | key :: keys' =>
      '(r, a) ← rtick_key now key r;
      '(r, b) ← rtick_keys now keys' r;
      Some (r, a ++ b)
  end.

Definition receiver_tick (now : Z) (r : ReceiverCore) : option (ReceiverCore * list Action) :=
  '(r, a) ← rtick_keys now (hm_iter (incoming r)).*1 r;
  '(r, b) ← schedule now r;
  Some (r, a ++ b).

Definition in_flight (r : ReceiverCore) : Z := Z.of_nat (size (incoming r)).

End Receiver.

(** ** Reassembly of one message *)

(** Where chunk [i] starts in a message of [len] bytes, cut off at its end. *)
Definition cut (ps len i : Z) : Z := Z.min (i * ps) len.

(** The bytes of the chunks that a bitmap marks, from chunk [i] on. *)
Fixpoint recv_sum (ps len i : Z) (l : list bool) : Z :=
  match l with
  | [] => 0
  | r :: l' => (if r then cut ps len (i + 1) - cut ps len i else 0) + recv_sum ps len (i + 1) l'
  end.

(** A message under reassembly agrees with the message [D] that was sent. *)
Record in_ok (D : list Z) (ps : Z) (m : InMsg) : Prop := mkInOk {
  io_total : total_len m = zlen D;
  io_buf : zlen (buf m) = zlen D;
  io_chunks : chunk_count (zlen D) ps = Some (zlen (received m));
  io_bytes : ∀ x, 0 ≤ x < zlen D → vget (received m) (x / ps) = Some true → vget (buf m) x = vget D x;
  io_sum : received_bytes m = recv_sum ps (zlen D) 0 (received m)
}.

Lemma cut_mono ps len i j : 0 < ps → i ≤ j → cut ps len i ≤ cut ps len j.
Proof. intros. unfold cut. nia. Qed.

Lemma recv_sum_le ps len i l :
  0 < ps → 0 ≤ recv_sum ps len i l ≤ cut ps len (i + zlen l) - cut ps len i.
Proof.
  intros Hps. revert i. induction l as [|r l IH]; intros i; simpl.
  - unfold zlen. simpl. rewrite Z.add_0_r. lia.
  - rewrite zlen_cons. specialize (IH (i + 1)). replace (i + (1 + zlen l)) with (i + 1 + zlen l) by lia.
    pose proof (cut_mono ps len i (i + 1) Hps ltac:(lia)). destruct r; lia.
Qed.

(** The sum is the whole only if every chunk is marked. *)
Lemma recv_sum_full ps len i l :
  0 < ps → (i + zlen l - 1) * ps < len →
  recv_sum ps len i l = cut ps len (i + zlen l) - cut ps len i → Forall (λ r, r = true) l.
Proof.
  intros Hps. revert i. induction l as [|r l IH]; intros i Hl Hs; [constructor|].
  rewrite zlen_cons in *. pose proof (zlen_nonneg l). simpl in Hs.
  pose proof (recv_sum_le ps len (i + 1) l Hps).
  replace (i + (1 + zlen l)) with (i + 1 + zlen l) in * by lia.
  assert (cut ps len i < cut ps len (i + 1)) by (unfold cut; nia).
  destruct r; [|lia]. constructor; [done|]. apply (IH (i + 1)); [lia|lia].
Qed.

Lemma recv_sum_set ps len i l j :
  0 ≤ j → vget l j = Some false →
  recv_sum ps len i (<[Z.to_nat j := true]> l) =
    recv_sum ps len i l + (cut ps len (i + j + 1) - cut ps len (i + j)).
Proof.
  intros Hj [_ Hl]%vget_Some. revert i j Hj Hl. induction l as [|r l IH]; intros i j Hj Hl; [done|].
  destruct (Z.to_nat j) as [|k] eqn:E; simpl in *.
  - simplify_eq. replace j with 0 by lia. rewrite Z.add_0_r. lia.
  - rewrite <-(Nat2Z.id k), (IH (i + 1) (Z.of_nat k)); [|lia|by rewrite Nat2Z.id].
    replace (i + 1 + Z.of_nat k) with (i + j) by lia. lia.
Qed.

Lemma recv_sum_all ps len i l :
  Forall (λ r, r = true) l → recv_sum ps len i l = cut ps len (i + zlen l) - cut ps len i.
Proof.
  intros H. revert i. induction H as [|r l -> H IH]; intros i; simpl.
  - unfold zlen. simpl. rewrite Z.add_0_r. lia.
  - rewrite IH, zlen_cons. replace (i + (1 + zlen l)) with (i + 1 + zlen l) by lia. lia.
Qed.

Lemma chunk_count_bounds len ps n :
  0 < ps → 0 < len → chunk_count len ps = Some n → (n - 1) * ps < len ≤ n * ps ∧ 1 ≤ n.
Proof.
  intros Hps Hl. unfold chunk_count. destruct (Z.eqb_spec ps 0); [lia|]. intros [= <-].
  pose proof (Z.div_mod (len + ps - 1) ps ltac:(lia)).
  pose proof (Z.mod_pos_bound (len + ps - 1) ps Hps).
  assert (1 ≤ (len + ps - 1) / ps) by (apply Z.div_le_lower_bound; lia).
  rewrite Z.max_l by lia. nia.
Qed.

Lemma recv_sum_complete ps len n l :
  0 < ps → 0 < len → chunk_count len ps = Some (zlen l) → n = recv_sum ps len 0 l →
  0 ≤ n ≤ len ∧ (n = len ↔ Forall (λ r, r = true) l).
Proof.
  intros Hps Hl Hc ->. destruct (chunk_count_bounds _ _ _ Hps Hl Hc) as [Hb Hn].
  assert (E : cut ps len (0 + zlen l) - cut ps len 0 = len) by (unfold cut; lia).
  pose proof (recv_sum_le ps len 0 l Hps). split; [lia|]. split.
  - intros. apply (recv_sum_full ps len 0); [done|lia|lia].
  - intros H'. by rewrite recv_sum_all, E.
Qed.

(** ** Writing a chunk *)

Lemma vget_copy_into b off p b' x :
  copy_into b off p = Some b' → 0 ≤ x < zlen b →
  zlen b' = zlen b ∧
  vget b' x = if decide (off ≤ x < off + zlen p) then vget p (x - off) else vget b x.
Proof.
  unfold copy_into. destruct (Z.leb_spec 0 off), (Z.leb_spec (off + zlen p) (zlen b)); simpl; try done.
  intros [= <-] Hx. pose proof (zlen_nonneg p). split.
  - unfold zlen in *. rewrite !length_app, length_take, length_drop. lia.
  - unfold vget. rewrite (proj2 (Z.leb_le 0 x)) by lia. unfold zlen in *. case_decide.
    + rewrite (proj2 (Z.leb_le 0 (x - off))) by lia.
      rewrite lookup_app_r by (rewrite length_take; lia). rewrite length_take, Nat.min_l by lia.
      rewrite lookup_app_l by lia. f_equal. lia.
    + destruct (Z.lt_ge_cases x off).
      * rewrite lookup_app_l by (rewrite length_take; lia). rewrite lookup_take_lt by lia. done.
      * rewrite lookup_app_r by (rewrite length_take; lia). rewrite length_take, Nat.min_l by lia.
        rewrite lookup_app_r by lia. rewrite lookup_drop. f_equal. lia.
Qed.

Lemma copy_into_ok b off p : 0 ≤ off → off + zlen p ≤ zlen b → ∃ b', copy_into b off p = Some b'.
Proof.
  intros. unfold copy_into. rewrite !(proj2 (Z.leb_le _ _)) by lia. simpl. eauto.
Qed.

Lemma vget_sub data a b x : 0 ≤ a ≤ x → x < b → b ≤ zlen data → vget (sub data a b) (x - a) = vget data x.
Proof.
  intros. unfold vget, sub. rewrite !(proj2 (Z.leb_le 0 _)) by lia.
  rewrite lookup_take_lt by lia. rewrite lookup_drop. f_equal. lia.
Qed.

(** The chunk with index [i] of the message [D]. *)
Definition chunk (D : list Z) (ps i : Z) : list Z := sub D (i * ps) (Z.min (i * ps + ps) (zlen D)).

Lemma zlen_chunk D ps i : 0 < ps → 0 ≤ i → i * ps < zlen D → zlen (chunk D ps i) = cut ps (zlen D) (i + 1) - cut ps (zlen D) i.
Proof. intros. unfold chunk, cut. rewrite zlen_sub by nia. nia. Qed.

(** A chunk of the message keeps the agreement and marks its index. *)
Lemma write_chunk_ok D ps m i now :
  0 < ps → in_ok D ps m → 0 ≤ i → i * ps < zlen D →
  ∃ m', write_chunk ps (i * ps) (zlen D) (chunk D ps i) now m = Some m' ∧ in_ok D ps m' ∧
    received m' = <[Z.to_nat i := true]> (received m).
Proof.
  intros Hps [Ht Hb Hc Hby Hs] Hi Hd.
  assert (0 ≤ i * ps) by nia. assert (HD : 0 < zlen D) by lia.
  destruct (chunk_count_bounds _ _ _ Hps HD Hc) as [Hn Hn1].
  assert (Hin : 0 ≤ i < zlen (received m)) by nia.
  pose proof (zlen_chunk D ps i Hps Hi Hd) as Hlen.
  unfold write_chunk. destruct (Z.eqb_spec ps 0); [lia|]. rewrite Z.div_mul by lia.
  destruct (vget_lt_is_Some _ _ Hin) as [[|] Hg]; rewrite Hg; cbn [andb].
  - exists m. split; [done|]. split; [done|]. symmetry. apply list_insert_id. by apply vget_Some in Hg as [_ ?].
  - rewrite (proj2 (Z.leb_le _ _)) by (rewrite Hlen; unfold cut; nia).
    destruct (copy_into_ok (buf m) (i * ps) (chunk D ps i)) as [b' Eb]; [nia|rewrite Hlen, Hb; unfold cut; nia|].
    rewrite Eb. cbn [mbind option_bind]. rewrite vset_ok by lia. cbn [mbind option_bind].
    eexists. split; [done|]. split; [|done].
    assert (Hl0 : zlen b' = zlen D).
    { destruct (vget_copy_into _ _ _ _ 0 Eb) as [-> _]; [lia|done]. }
    constructor; cbn [total_len buf received received_bytes]; [done|done|by rewrite zlen_insert| |].
    + intros x Hx Hr. destruct (vget_copy_into _ _ _ _ x Eb) as [_ ->]; [lia|]. case_decide as Hd'.
      * unfold chunk. rewrite vget_sub; [done|nia|unfold cut in *; lia|lia].
      * apply Hby; [done|]. assert (0 ≤ x / ps) by (apply Z.div_pos; lia).
        assert (Hne : x / ps ≠ i).
        { intros E. apply Hd'. pose proof (Z.div_mod x ps ltac:(lia)).
          pose proof (Z.mod_pos_bound x ps Hps). rewrite Hlen. unfold cut. nia. }
        unfold vget in *. rewrite (proj2 (Z.leb_le 0 _)) in * by lia.
        rewrite list_lookup_insert_ne in Hr by lia. done.
    + rewrite Hs, recv_sum_set by done. rewrite Hlen. rewrite Z.add_0_l. lia.
Qed.

Lemma in_ok_complete D ps m : 0 < ps → 0 < zlen D → in_ok D ps m → complete_msg m = true → buf m = D.
Proof.
  intros Hps HD [Ht Hb Hc Hby Hs] E. unfold complete_msg in E. apply Z.eqb_eq in E. rewrite Ht in E.
  destruct (recv_sum_complete ps (zlen D) (received_bytes m) (received m) Hps HD Hc Hs) as [_ [Hall _]].
  specialize (Hall E). destruct (chunk_count_bounds _ _ _ Hps HD Hc) as [Hn _].
  apply list_eq. intros k. destruct (decide (Z.of_nat k < zlen D)) as [Hk|Hk].
  - specialize (Hby (Z.of_nat k) ltac:(lia)). unfold vget in Hby at 2 3.
    rewrite (proj2 (Z.leb_le 0 (Z.of_nat k))), Nat2Z.id in Hby by lia. apply Hby.
    assert (H1 : 0 ≤ Z.of_nat k / ps) by (apply Z.div_pos; lia).
    assert (H2 : Z.of_nat k / ps < zlen (received m)) by (apply Z.div_lt_upper_bound; nia).
    destruct (vget_lt_is_Some (received m) (Z.of_nat k / ps) ltac:(lia)) as [b Eb]. rewrite Eb. f_equal.
    rewrite Forall_forall in Hall. apply Hall. apply vget_Some in Eb as [_ Eb]. by eapply list_elem_of_lookup_2.
  - unfold zlen in *. rewrite !lookup_ge_None_2 by lia. done.
Qed.

Lemma recv_sum_none ps len i k : recv_sum ps len i (replicate k false) = 0.
Proof. revert i. induction k as [|k IH]; intros i; simpl; [done|]. by rewrite IH. Qed.

Lemma fresh_in_ok D ps n u now :
  0 < ps → chunk_count (zlen D) ps = Some n → 0 ≤ n → in_ok D ps (fresh_msg (zlen D) u n now).
Proof.
  intros Hps Hc Hn. unfold fresh_msg. pose proof (zlen_nonneg D).
  assert (Hr : zlen (replicate (Z.to_nat n) false) = n) by (unfold zlen; rewrite length_replicate; lia).
  constructor; simpl.
  - done.
  - unfold zlen. rewrite length_replicate. lia.
  - by rewrite Hr.
  - intros x _ [_ [Hr0 _]%lookup_replicate]%vget_Some. discriminate Hr0.
  - by rewrite recv_sum_none.
Qed.

(** ** What scheduling leaves alone *)

(** The part of a message that reassembly reads. *)
Definition core (m : InMsg) : Z * list Z * list bool * Z :=
  (total_len m, buf m, received m, received_bytes m).

(** Everything but grants, timers and the scheduler's own sets. *)
Definition frame (r r' : ReceiverCore) : Prop :=
  r_cfg r' = r_cfg r ∧ completed r' = completed r ∧ completed_order r' = completed_order r ∧
  core <$> incoming r' = core <$> incoming r.

(** A GRANT, RESEND or BUSY packet. *)
Definition is_send (a : Action) : Prop :=
  match a with
  | Send _ b => ∃ t prio mid off len, t ≠ Data ∧ b = control_packet t prio mid off len
  | Deliver _ _ _ => False
  end.

Lemma frame_refl r : frame r r.
Proof. by split_and!. Qed.

Lemma frame_trans r1 r2 r3 : frame r1 r2 → frame r2 r3 → frame r1 r3.
Proof. unfold frame. intuition congruence. Qed.

#[local] Hint Resolve frame_refl : wire.

Lemma core_lookup r r' key m' :
  frame r r' → incoming r' !! key = Some m' → ∃ m, incoming r !! key = Some m ∧ core m' = core m.
Proof.
  intros (_ & _ & _ & H) Hm. assert (E : (core <$> incoming r') !! key = Some (core m')) by (by rewrite lookup_fmap, Hm).
  rewrite H, lookup_fmap in E. apply fmap_Some in E as (m & ? & ?). eauto.
Qed.

Lemma core_insert (i : gmap MsgKey InMsg) key m m' :
  i !! key = Some m → core m' = core m → core <$> <[key := m']> i = core <$> i.
Proof. intros Hm E. rewrite fmap_insert. apply insert_id. by rewrite lookup_fmap, Hm, E. Qed.

Lemma in_ok_core D ps m m' : core m' = core m → in_ok D ps m → in_ok D ps m' ∧ complete_msg m' = complete_msg m.
Proof.
  destruct m, m'. unfold core. simpl. intros [= -> -> -> ->] []. split; [by constructor|done].
Qed.

Lemma issue_grant_frame key now force r :
  frame r (issue_grant key now force r).1 ∧ Forall is_send (issue_grant key now force r).2.
Proof.
  unfold issue_grant. destruct (incoming r !! key) as [m|] eqn:Hm; [|by split; auto with wire].
  destruct (_ && _); [by split; auto with wire|]. destruct (_ && _); [by split; auto with wire|].
  cbn [fst snd]. split; [|by apply Forall_singleton; do 5 eexists; split; [|done]]. split_and!; try done. simpl. by eapply core_insert.
Qed.

Lemma issue_grants_frame keys now r :
  frame r (issue_grants keys now r).1 ∧ Forall is_send (issue_grants keys now r).2.
Proof.
  revert r. induction keys as [|key keys IH]; intros r; simpl; [by auto with wire|].
  destruct (issue_grant_frame key now false r) as [F1 S1].
  destruct (issue_grant key now false r) as [r1 a]. simpl in *.
  destruct (IH r1) as [F2 S2]. destruct (issue_grants keys now r1) as [r2 b]. simpl in *.
  split; [by eapply frame_trans|by apply Forall_app].
Qed.

(** The messages in reassembly are those of [msgs], none complete yet. *)
Definition r_ok (msgs : gmap MsgKey (list Z)) (r : ReceiverCore) : Prop :=
  0 < packet_size (r_cfg r) ∧
  ∀ key m, incoming r !! key = Some m →
    ∃ D, msgs !! key = Some D ∧ 0 < zlen D ∧ in_ok D (packet_size (r_cfg r)) m ∧ complete_msg m = false.

Lemma r_ok_frame msgs r r' : frame r r' → r_ok msgs r → r_ok msgs r'.
Proof.
  intros F [Hp Hr]. pose proof F as (Ec & _). split; [by rewrite Ec|]. intros key m' Hm'.
  destruct (core_lookup _ _ _ _ F Hm') as (m & Hm & E). destruct (Hr _ _ Hm) as (D & ? & ? & Hok & Hc).
  destruct (in_ok_core D _ m m' E Hok) as [Hok' Ecm]. exists D. rewrite Ec, Ecm. done.
Qed.

Section Scheduling.
Context `{!HashOrder MsgKey InMsg}.

Lemma candidates_ok msgs r : r_ok msgs r → is_Some (candidates r).
Proof.
  intros [Hp Hr]. unfold candidates. apply mapM_is_Some_2, Forall_forall.
  intros [key m] [_ Hin]%list_elem_of_filter. rewrite elem_of_hm_iter in Hin.
  destruct (Hr _ _ Hin) as (D & _ & HD & [Ht _ Hc _ Hs] & _).
  destruct (recv_sum_complete _ _ _ _ Hp HD Hc Hs) as [? _].
  unfold remaining, sub_chk. simpl. rewrite (proj2 (Z.leb_le _ _)) by lia. simpl. eauto.
Qed.

Lemma schedule_ok msgs now r : r_ok msgs r →
  ∃ r' a, schedule now r = Some (r', a) ∧ frame r r' ∧ Forall is_send a.
Proof.
  intros Hr. unfold schedule, select. destruct (candidates_ok _ _ Hr) as [cands ->]. cbn [mbind option_bind].
  set (sel := add_starving _ _ _ _).
  destruct (issue_grants_frame sel now (with_granting sel r)) as [F S].
  destruct (issue_grants sel now _) as [r' a]. do 2 eexists. split; [done|]. split; [exact F|exact S].
Qed.

Lemma starve_loop_ok msgs now q r : r_ok msgs r →
  ∃ r' a, starve_loop now q r = Some (r', a) ∧ frame r r' ∧ Forall is_send a.
Proof.
  intros Hr. induction q as [|[t k] q IH]; simpl.
  - do 2 eexists. split; [done|]. split; [by split_and!|constructor].
  - destruct (now <? t).
    { do 2 eexists. split; [done|]. split; [by split_and!|constructor]. }
    destruct (starved now k r); [|done].
    destruct (schedule_ok msgs now (with_queue q r)) as (r' & a & E & F & S); [by eapply r_ok_frame; [|exact Hr]; split_and!|].
    do 2 eexists. split; [exact E|]. split; [exact F|exact S].
Qed.

(** What [after_chunk] does with a message that agrees with [D]. *)
Lemma after_chunk_ok msgs key now is_new msg r D :
  r_ok msgs (with_incoming (delete key (incoming r)) r) → incoming r !! key = Some msg →
  msgs !! key = Some D → 0 < zlen D → in_ok D (packet_size (r_cfg r)) msg →
  ∃ r' acts, after_chunk key key.1 now is_new msg r = Some (r', acts) ∧ r_ok msgs r' ∧
    if complete_msg msg
    then ∃ sends, acts = Deliver key.1 key.2 D :: sends ∧ Forall is_send sends ∧
         frame (deliver key key.1 D r).1 r'
    else Forall is_send acts ∧ frame r r'.
Proof.
  intros [Hp Hr] Hm HD Hl Hok. unfold after_chunk. simpl in Hp.
  destruct (complete_msg msg) eqn:Ec.
  - rewrite (in_ok_complete D _ msg Hp Hl Hok Ec).
    set (dl := deliver key key.1 D r). assert (Hd : r_ok msgs dl.1 ∧ dl.2 = [Deliver key.1 key.2 D]).
    { subst dl. unfold deliver.
      destruct (COMPLETED_CACHE <? _); [destruct (completed_order r ++ [key])|];
        (split; [split; [done|exact Hr]|done]). }
    destruct Hd as [Hd1 Hd2]. rewrite (surjective_pairing dl). 
    destruct (schedule_ok msgs now dl.1 Hd1) as (r' & a & -> & F & S). cbn [mbind option_bind].
    do 2 eexists. split; [done|]. split; [by eapply r_ok_frame|]. exists a. rewrite Hd2. done.
  - assert (Hrr : r_ok msgs r).
    { split; [done|]. intros k m Hk. destruct (decide (k = key)) as [->|].
      - rewrite Hm in Hk. simplify_eq. by exists D.
      - apply (Hr k m). simpl. by rewrite lookup_delete_ne. }
    assert (H1 : ∃ r1 a, (if is_new then schedule now r
               else if bool_decide (key ∈ granting r) then Some (issue_grant key now false r)
               else Some (r, [])) = Some (r1, a) ∧ frame r r1 ∧ Forall is_send a).
    { destruct is_new; [by eapply schedule_ok|]. case_bool_decide.
      - destruct (issue_grant_frame key now false r). destruct (issue_grant _ _ _ _). eauto.
      - exists r, []. auto with wire. }
    destruct H1 as (r1 & a & -> & F1 & S1). cbn [mbind option_bind]. unfold starve_check.
    destruct (starve_loop_ok msgs now (starve_queue r1) r1) as (r2 & b & -> & F2 & S2); [by eapply r_ok_frame|].
    cbn [mbind option_bind]. do 2 eexists. split; [done|].
    pose proof (frame_trans _ _ _ F1 F2) as F. split; [by eapply r_ok_frame|]. split; [by apply Forall_app|done].
Qed.

(** A DATA packet of a message of [msgs], cut at a multiple of the packet
    size. *)
Definition honest (msgs : gmap MsgKey (list Z)) (ps src : Z) (pkt : Packet) (payload D : list Z) (i : Z) : Prop :=
  msgs !! (src, msg_id pkt) = Some D ∧ 0 < zlen D ≤ MAX_MSG_LEN ∧ msg_len pkt = zlen D ∧
  0 ≤ i ∧ i * ps < zlen D ∧ offset pkt = i * ps ∧ payload = chunk D ps i.

(** The message a packet is added to. *)
Definition current (r : ReceiverCore) (key : MsgKey) (D : list Z) (now : Z) (m : InMsg) : Prop :=
  incoming r !! key = Some m ∨
  (incoming r !! key = None ∧ ∃ n, chunk_count (zlen D) (packet_size (r_cfg r)) = Some n ∧
    m = fresh_msg (zlen D) (Z.min (unscheduled_bytes (r_cfg r)) (zlen D)) n now).

Lemma deliver_frame key src D r r1 :
  r_cfg r1 = r_cfg r → completed r1 = completed r → completed_order r1 = completed_order r →
  delete key (incoming r1) = delete key (incoming r) →
  frame (deliver key src D r).1 (deliver key src D r1).1.
Proof.
  intros E1 E2 E3 E4. unfold deliver. rewrite E2, E3.
  destruct (COMPLETED_CACHE <? _); [destruct (completed_order r ++ [key])|]; split_and!; simpl; congruence.
Qed.

Lemma current_ok msgs r key D now :
  r_ok msgs r → msgs !! key = Some D → 0 < zlen D →
  ∃ m, (match incoming r !! key with
        | Some m => Some m
        | None => chunks ← chunk_count (zlen D) (packet_size (r_cfg r));
            Some (fresh_msg (zlen D) (Z.min (unscheduled_bytes (r_cfg r)) (zlen D)) chunks now)
        end) = Some m ∧ current r key D now m ∧ in_ok D (packet_size (r_cfg r)) m.
Proof.
  intros [Hp Hr] HD Hl. unfold current. destruct (incoming r !! key) as [m|] eqn:Hm.
  - exists m. destruct (Hr _ _ Hm) as (D' & ? & ? & ? & _). simplify_eq. eauto.
  - destruct (chunk_count (zlen D) (packet_size (r_cfg r))) as [n|] eqn:En.
    + destruct (chunk_count_bounds _ _ _ Hp Hl En) as [_ ?]. eexists. split; [done|].
      split; [right; eauto|]. apply fresh_in_ok; [done|done|lia].
    + unfold chunk_count in En. destruct (Z.eqb_spec (packet_size (r_cfg r)) 0); [lia|done].
Qed.

Lemma handle_data_cases msgs r src pkt payload now D i :
  r_ok msgs r → honest msgs (packet_size (r_cfg r)) src pkt payload D i →
  let key := (src, msg_id pkt) in
  ∃ r' acts, handle_data src pkt payload now r = Some (r', acts) ∧ r_ok msgs r' ∧
    ((key ∈ completed r ∧ r' = r ∧ acts = []) ∨
     (key ∉ completed r ∧ incoming r !! key = None ∧
      max_incoming (r_cfg r) ≤ Z.of_nat (size (incoming r)) ∧ r' = r ∧ Forall is_send acts) ∨
     (key ∉ completed r ∧ ∃ m0 m1, current r key D now m0 ∧ in_ok D (packet_size (r_cfg r)) m1 ∧
      received m1 = <[Z.to_nat i := true]> (received m0) ∧
      if complete_msg m1
      then ∃ sends, acts = Deliver src (msg_id pkt) D :: sends ∧ Forall is_send sends ∧
           frame (deliver key src D r).1 r'
      else Forall is_send acts ∧ frame (with_incoming (<[key := m1]> (incoming r)) r) r')).
Proof.
  intros Hr (HD & [Hl Hmx] & Elen & Hi & Hi' & Eo & ->) key. pose proof Hr as [Hp Hin].
  unfold handle_data. fold key. case_bool_decide as Hc.
  { exists r, []. split_and!; try done. by left. }
  rewrite Elen. rewrite (proj2 (Z.ltb_ge _ _)) by lia.
  destruct (_ && _) eqn:Ebusy.
  { apply andb_true_iff in Ebusy as [En%bool_decide_eq_true Hs%Z.leb_le].
    do 2 eexists. split; [done|]. split; [done|]. right. left. split_and!; try done.
    by apply Forall_singleton; do 5 eexists; split; [|done]. }
  destruct (current_ok msgs r key D now Hr HD Hl) as (m0 & E0 & Hcur & Hok0).
  set (new := bool_decide (incoming r !! key = None)) in *.
  set (rp := if new then push_starve now key r else r).
  assert (Hrp : incoming rp = incoming r ∧ r_cfg rp = r_cfg r ∧ completed rp = completed r ∧
    completed_order rp = completed_order r) by (subst rp; by destruct new).
  destruct Hrp as (Ei & Ecf & Ecm & Eco). rewrite Ei, E0. cbn [mbind option_bind].
  destruct (Z.eqb_spec (zlen D) 0); [lia|]. rewrite Eo.
  destruct (write_chunk_ok D _ m0 i now Hp Hok0 Hi Hi') as (m1 & -> & Hok1 & Erec). cbn [mbind option_bind].
  set (r1 := with_incoming (<[key := m1]> (incoming (with_incoming (<[key := m0]> (incoming r)) rp)))
               (with_incoming (<[key := m0]> (incoming r)) rp)).
  assert (Ei1 : incoming r1 = <[key := m1]> (incoming r)) by (subst r1; simpl; by rewrite insert_insert_eq).
  destruct (after_chunk_ok msgs key now new m1 r1 D) as (r' & acts & E & Hr' & Hout).
  - split; [by rewrite <-Ecf in Hp|]. simpl. intros k m. rewrite insert_insert_eq, delete_insert_eq.
    intros [_ Hk]%lookup_delete_Some. rewrite Ecf. by apply Hin.
  - rewrite Ei1. apply lookup_insert_eq.
  - done.
  - done.
  - change (r_cfg r1) with (r_cfg rp). by rewrite Ecf.
  - exists r', acts. split; [exact E|]. split; [done|]. right. right. split; [done|].
    exists m0, m1. split_and!; try done. destruct (complete_msg m1).
    + destruct Hout as (sends & -> & Hs & F). exists sends. split_and!; try done.
      eapply frame_trans; [|exact F]. apply deliver_frame; try done.
      by rewrite Ei1, delete_insert_eq.
    + destruct Hout as [Hs F]. split; [done|]. eapply frame_trans; [|exact F].
      split_and!; try done. simpl. by rewrite insert_insert_eq.
Qed.

(** ** The allocation bound *)

Lemma schedule_frame now r r' a : schedule now r = Some (r', a) → frame r r'.
Proof.
  unfold schedule. destruct (select now r) as [sel|]; [|done]. cbn [mbind option_bind]. intros [= E].
  destruct (issue_grants_frame sel now (with_granting sel r)) as [F _]. by rewrite E in F.
Qed.

Lemma starve_loop_frame now q r r' a : starve_loop now q r = Some (r', a) → frame r r'.
Proof.
  induction q as [|[t k] q IH]; simpl; [intros; simplify_eq; by split_and!|].
  destruct (now <? t); [intros; simplify_eq; by split_and!|].
  destruct (starved now k r); [|done]. intros H%schedule_frame. exact H.
Qed.

(** At most [max_incoming] messages in reassembly, none with a buffer of
    more than [MAX_MSG_LEN] bytes. *)
Definition bounded (r : ReceiverCore) : Prop :=
  Z.of_nat (size (incoming r)) ≤ max_incoming (r_cfg r) ∧
  ∀ key m, incoming r !! key = Some m → zlen (buf m) ≤ MAX_MSG_LEN.

Lemma bounded_frame r r' : frame r r' → bounded r → bounded r'.
Proof.
  intros F [Hs Hb]. pose proof F as (Ec & _ & _ & Ei). split.
  - rewrite Ec. assert (E : size (core <$> incoming r') = size (core <$> incoming r)) by (by rewrite Ei).
    rewrite !map_size_fmap in E. by rewrite E.
  - intros key m' Hm'. destruct (core_lookup _ _ _ _ F Hm') as (m & Hm & E).
    specialize (Hb _ _ Hm). unfold core in E. congruence.
Qed.

Lemma bounded_deliver key src D r : bounded r → bounded (deliver key src D r).1.
Proof.
  intros [Hs Hb].
  assert (H : Z.of_nat (size (delete key (incoming r))) ≤ max_incoming (r_cfg r) ∧
    ∀ k m, delete key (incoming r) !! k = Some m → zlen (buf m) ≤ MAX_MSG_LEN).
  { split; [|by intros k m [_ ?]%lookup_delete_Some; eauto].
    assert (size (delete key (incoming r)) ≤ size (incoming r))%nat; [|lia].
    apply map_subseteq_size, delete_subseteq. }
  unfold deliver. destruct (COMPLETED_CACHE <? _); [destruct (completed_order r ++ [key])|]; exact H.
Qed.

Lemma write_chunk_buf ps off total payload now m m' :
  write_chunk ps off total payload now m = Some m' → zlen (buf m') = zlen (buf m).
Proof.
  unfold write_chunk. destruct (ps =? 0); [done|]. destruct (_ && _); [|intros; by simplify_eq].
  destruct (copy_into (buf m) off payload) as [b|] eqn:Eb; [|done]. cbn [mbind option_bind].
  destruct (vset _ _ _); intros; simplify_eq/=. unfold copy_into in Eb. destruct (_ && _) eqn:E; [|done].
  apply andb_true_iff in E as [?%Z.leb_le ?%Z.leb_le]. injection Eb as <-.
  unfold zlen in *. rewrite !length_app, length_take, length_drop. lia.
Qed.

Lemma after_chunk_bounded key src now is_new msg r r' acts :
  bounded r → after_chunk key src now is_new msg r = Some (r', acts) → bounded r'.
Proof.
  intros Hb. unfold after_chunk. destruct (complete_msg msg).
  - pose proof (bounded_deliver key src (buf msg) r Hb) as Hd. destruct (deliver _ _ _ _) as [r1 a].
    destruct (schedule now r1) as [[r2 b]|] eqn:E; [|done]. intros; simplify_eq/=.
    eapply bounded_frame; [by eapply schedule_frame|done].
  - destruct (if is_new then _ else _) as [[r1 a]|] eqn:E1; [|done]. cbn [mbind option_bind].
    assert (F1 : frame r r1).
    { destruct is_new; [by eapply schedule_frame|]. case_bool_decide; [|simplify_eq; apply frame_refl].
      destruct (issue_grant_frame key now false r) as [F _]. destruct (issue_grant _ _ _ _). by simplify_eq. }
    unfold starve_check. destruct (starve_loop now _ r1) as [[r2 b]|] eqn:E2; [|done]. intros; simplify_eq/=.
    eapply bounded_frame; [|exact Hb]. eapply frame_trans; [exact F1|by eapply starve_loop_frame].
Qed.

(** No allocation bomb: whatever packet arrives, honest or forged, a
    receiver within its bounds stays within them: at most [max_incoming]
    messages in reassembly, each with a buffer of at most 16 MiB, although
    the header can claim 4 GiB. *)
Theorem receiver_bounded src pkt payload now r r' acts :
  bounded r → handle_data src pkt payload now r = Some (r', acts) → bounded r'.
Proof.
  intros Hb. unfold handle_data. case_bool_decide; [intros; by simplify_eq|].
  destruct (Z.ltb_spec MAX_MSG_LEN (msg_len pkt)) as [|Hmx]; [intros; by simplify_eq|].
  destruct (bool_decide _ && _) eqn:Ebusy; [intros; by simplify_eq|].
  set (key := (src, msg_id pkt)) in *.
  set (rp := if bool_decide (incoming r !! key = None) then push_starve now key r else r).
  assert (Hrp : incoming rp = incoming r ∧ r_cfg rp = r_cfg r) by (subst rp; by case_bool_decide).
  destruct Hrp as [Ei Ec]. destruct (match incoming rp !! key with Some _ => _ | None => _ end) as [m0|] eqn:E0; [|done].
  cbn [mbind option_bind].
  assert (H0 : zlen (buf m0) ≤ MAX_MSG_LEN ∧ bounded (with_incoming (<[key := m0]> (incoming rp)) rp) ∧
    ∀ m, zlen (buf m) ≤ MAX_MSG_LEN → bounded (with_incoming (<[key := m]> (<[key := m0]> (incoming rp))) (with_incoming (<[key := m0]> (incoming rp)) rp))).
  { rewrite Ei in *. assert (Hm0 : zlen (buf m0) ≤ MAX_MSG_LEN).
    { destruct (incoming r !! key) as [m|] eqn:Em; [simplify_eq; by eapply Hb|].
      destruct (chunk_count _ _); [|done]. simplify_eq/=. unfold zlen. rewrite length_replicate.
      assert (0 ≤ MAX_MSG_LEN) by by_eval. lia. }
    assert (Hins : ∀ m, zlen (buf m) ≤ MAX_MSG_LEN → Z.of_nat (size (<[key := m]> (incoming r))) ≤ max_incoming (r_cfg r) ∧
      ∀ k m', <[key := m]> (incoming r) !! k = Some m' → zlen (buf m') ≤ MAX_MSG_LEN).
    { intros m Hm. split.
      - destruct (incoming r !! key) eqn:Em.
        + rewrite map_size_insert_Some by eauto. apply Hb.
        + rewrite map_size_insert_None by done. rewrite bool_decide_eq_true_2 in Ebusy by done. simpl in Ebusy.
          apply Z.leb_gt in Ebusy. lia.
      - intros k m'. rewrite lookup_insert_Some. intros [[_ <-]|[_ Hk]]; [done|]. by eapply Hb. }
    split; [done|]. rewrite <-Ec in Hins. split; [by apply Hins|]. intros m Hm. unfold bounded. simpl.
    rewrite insert_insert_eq. by apply Hins. }
  destruct H0 as (Hm0 & Hb0 & Hb1).
  destruct (msg_len pkt =? 0).
  - pose proof (bounded_deliver key src [] _ Hb0) as Hd. destruct (deliver _ _ _ _) as [r1 a].
    destruct (schedule now r1) as [[r2 b]|] eqn:E; [|done]. intros; simplify_eq/=.
    eapply bounded_frame; [by eapply schedule_frame|done].
  - destruct (write_chunk _ _ _ _ _ m0) as [m1|] eqn:Ew; [|done]. cbn [mbind option_bind].
    apply after_chunk_bounded, Hb1. by rewrite (write_chunk_buf _ _ _ _ _ _ _ Ew).
Qed.

(** ** Shortest remaining first *)

Definition rem_le (x y : MsgKey * Z) : Prop := x.2 ≤ y.2.

Lemma insert_by_rem_perm x l : insert_by_rem x l ≡ₚ x :: l.
Proof.
  induction l as [|y l IH]; simpl; [done|]. destruct (_ <=? _); [done|]. rewrite IH. constructor.
Qed.

Lemma insert_by_rem_sorted x l : StronglySorted rem_le l → StronglySorted rem_le (insert_by_rem x l).
Proof.
  induction 1 as [|y l Hl IH Hy]; simpl; [by repeat constructor|].
  destruct (Z.leb_spec x.2 y.2).
  - constructor; [by constructor|]. constructor; [done|]. eapply Forall_impl; [exact Hy|].
    unfold rem_le. simpl. lia.
  - constructor; [done|]. apply Forall_forall. intros z. rewrite insert_by_rem_perm, elem_of_cons.
    rewrite Forall_forall in Hy. intros [->|?]; [unfold rem_le; lia|by apply Hy].
Qed.

Lemma sort_by_rem_spec l : StronglySorted rem_le (sort_by_rem l) ∧ sort_by_rem l ≡ₚ l.
Proof.
  induction l as [|x l [IH1 IH2]]; simpl; [by split; constructor|].
  split; [by apply insert_by_rem_sorted|]. by rewrite insert_by_rem_perm, IH2.
Qed.

Lemma sorted_take_drop n l x y :
  StronglySorted rem_le l → x ∈ take n l → y ∈ drop n l → rem_le x y.
Proof.
  intros Hs. revert n. induction Hs as [|z l Hl IH Hz]; intros [|n]; simpl; try set_solver.
  rewrite elem_of_cons. rewrite Forall_forall in Hz. intros [->|?] Hy; [|by eapply IH].
  apply Hz. eapply elem_of_submseteq; [exact Hy|]. apply submseteq_drop.
Qed.

Lemma add_starving_grows now starve l : ∀ sel k, k ∈ sel → k ∈ add_starving now starve l sel.
Proof.
  induction l as [|[key m] l IH]; intros sel k Hk; simpl; [done|].
  destruct (_ && _); apply IH; set_solver.
Qed.

Lemma add_starving_all now starve l : ∀ sel key m,
  (key, m) ∈ l → needs_grant m = true → starving now starve m = true → key ∈ add_starving now starve l sel.
Proof.
  induction l as [|[k m'] l IH]; intros sel key m; [set_solver|]. rewrite elem_of_cons.
  intros [[= -> ->]|Hin] Hn Hs; simpl.
  - rewrite Hn, Hs. simpl. case_bool_decide; simpl; apply add_starving_grows; set_solver.
  - destruct (_ && _); by eapply IH.
Qed.

(** Shortest remaining first, with a starvation guard: a message that
    still needs grants and is left out of the grant set has not waited past
    the starvation threshold, and at least [overcommit] messages of the
    grant set have no more bytes left to receive than it. *)
Theorem schedule_srpt now r sel key m :
  select now r = Some sel → incoming r !! key = Some m → needs_grant m = true → key ∉ sel →
  starving now (starve_threshold (r_cfg r)) m = false ∧
  ∃ ahead rem, remaining m = Some rem ∧ (ahead.*1 ⊆ sel) ∧ NoDup ahead.*1 ∧
    zlen ahead = Z.max (overcommit (r_cfg r)) 1 ∧
    ∀ k n, (k, n) ∈ ahead → n ≤ rem ∧ ∃ m', incoming r !! k = Some m' ∧ remaining m' = Some n.
Proof.
  unfold select. destruct (candidates r) as [cands|] eqn:Ec; [|done]. cbn [mbind option_bind].
  intros [= <-] Hm Hn Hni. set (k := Z.max (overcommit (r_cfg r)) 1) in *.
  assert (Hin : (key, m) ∈ hm_iter (incoming r)) by (by rewrite elem_of_hm_iter).
  split.
  { destruct (starving now _ m) eqn:Es; [|done]. exfalso. apply Hni. by eapply add_starving_all. }
  unfold candidates in Ec. apply mapM_Some in Ec.
  assert (Hcand : ∀ x n, (x, n) ∈ cands → ∃ m', incoming r !! x = Some m' ∧ remaining m' = Some n).
  { intros x n Hx. destruct (Forall2_in_r _ _ _ _ Ec Hx) as ([x' m'] & [_ Hx']%list_elem_of_filter & E).
    simpl in E. destruct (remaining m') eqn:Er; [|done]. simplify_eq/=. rewrite elem_of_hm_iter in Hx'. eauto. }
  assert (Hrem : ∃ rem, remaining m = Some rem ∧ (key, rem) ∈ cands).
  { destruct (Forall2_in_l _ _ _ (key, m) Ec) as ([k' rem] & Hk & E).
    - apply list_elem_of_filter. split; [by apply Is_true_true|done].
    - simpl in E. destruct (remaining m) eqn:Er; [|done]. simplify_eq/=. eauto. }
  destruct Hrem as (rem & Er & Hc). destruct (sort_by_rem_spec cands) as [Hs Hp].
  set (ahead := take (Z.to_nat k) (sort_by_rem cands)).
  assert (Hdrop : (key, rem) ∈ drop (Z.to_nat k) (sort_by_rem cands)).
  { assert (H : (key, rem) ∈ sort_by_rem cands) by (by rewrite Hp).
    rewrite <-(take_drop (Z.to_nat k) (sort_by_rem cands)) in H. apply elem_of_app in H as [H|H]; [|done].
    exfalso. apply Hni, add_starving_grows, list_elem_of_fmap. by exists (key, rem). }
  exists ahead, rem. split; [done|]. split; [|split; [|split]].
  - intros x Hx. by apply add_starving_grows.
  - assert (Hnd : NoDup cands.*1).
    { assert (E : cands.*1 = (filter (λ p, needs_grant p.2) (hm_iter (incoming r))).*1).
      { clear -Ec. induction Ec as [|[x mx] [y n] l l' E _ IH]; [done|]. simpl in E.
        destruct (remaining mx); simplify_eq/=. by f_equal. }
      rewrite E. eapply sublist_NoDup; [apply hm_iter_NoDup_fst|]. apply fmap_sublist, sublist_filter. }
    rewrite <-Hp in Hnd. eapply sublist_NoDup; [exact Hnd|]. apply fmap_sublist, sublist_take.
  - unfold zlen, ahead. rewrite length_take.
    assert (Z.to_nat k < length (sort_by_rem cands))%nat; [|lia].
    destruct (decide (Z.to_nat k < length (sort_by_rem cands))%nat); [done|].
    rewrite drop_ge in Hdrop by lia. by apply not_elem_of_nil in Hdrop.
  - intros x n Hx. split.
    + by apply (sorted_take_drop _ _ (x, n) (key, rem) Hs Hx Hdrop).
    + apply Hcand. rewrite <-Hp. eapply elem_of_submseteq; [exact Hx|]. apply submseteq_take.
Qed.

End Scheduling.

(** ** Witnesses *)

#[local] Instance ex_order : HashOrder MsgKey InMsg := default_order.

Lemma receiver_bounded_witness :
  ∃ r' acts, handle_data 1 (mkPkt Data 0 7 6 4 2) [5; 6] 0 (receiver_new ex_cfg) = Some (r', acts) ∧ bounded r'.
Proof.
  destruct (handle_data 1 (mkPkt Data 0 7 6 4 2) [5; 6] 0 (receiver_new ex_cfg)) as [[r' acts]|] eqn:E;
    [|vm_compute in E; discriminate].
  exists r', acts. split; [reflexivity|].
  apply (receiver_bounded 1 (mkPkt Data 0 7 6 4 2) [5; 6] 0 (receiver_new ex_cfg) r' acts); [|exact E].
  split; [by_eval|]. intros k m. cbn. by rewrite lookup_empty.
Defined.

(** Two messages, one of them far from complete. *)
Definition two_messages : ReceiverCore :=
  with_incoming {[(1, 7) := mkInMsg 100 [] [] 10 20 0 0 0; (1, 8) := mkInMsg 50 [] [] 10 20 0 0 0;
    (1, 9) := mkInMsg 90 [] [] 10 20 0 0 0]} (receiver_new ex_cfg).

Lemma schedule_srpt_witness :
  ∃ sel, select 5 two_messages = Some sel ∧ (1, 7) ∉ sel ∧
    starving 5 200 (mkInMsg 100 [] [] 10 20 0 0 0) = false.
Proof.
  destruct (select 5 two_messages) as [sel|] eqn:E; [|vm_compute in E; discriminate].
  exists sel. assert (Hn : (1, 7) ∉ sel).
  { vm_compute in E. injection E as <-. rewrite !not_elem_of_cons. split_and!; try done. apply not_elem_of_nil. }
  split; [reflexivity|]. split; [exact Hn|].
  apply (schedule_srpt 5 two_messages sel (1, 7) (mkInMsg 100 [] [] 10 20 0 0 0) E); [reflexivity|reflexivity|exact Hn].
Defined.
