(* ===== verification/HomaReassembly.v ===== *)
(** * Reassembly of the messages that senders send

    Puts [HomaSender] and [HomaReceiver] together over a network that loses,
    reorders and repeats datagrams: a receiver that handles datagrams of any
    number of senders, interleaved with its own ticks.  The senders start
    messages, handle grants, busy signals, confirmations and ticks, and those
    resend requests that end on a chunk boundary or at the end of the message
    ([lost_grant_corrupts_message] of [HomaTransport] is what other requests
    lead to). *)

From S2P Require Import Prelude Bytes HomaPacket HomaSender HomaReceiver.

(** ** The datagrams of a sender *)

Section SenderSide.
Context `{!HashOrder MsgKey OutMsg}.

Fixpoint sender_run (ops : list sender_op) (s : SenderCore) : option (SenderCore * list Action) :=
  match ops with
  | [] => Some (s, [])
  | op :: ops' =>
      '(s, a) ← sender_step op s;
      '(s, b) ← sender_run ops' s;
      Some (s, a ++ b)
  end.

(** The sender at address [src], the receiver at [me], and what is sent to
    it: the message of each id, not empty and within the receiver's limit. *)
Variables (msgs : gmap MsgKey (list Z)) (src me ps : Z).

(** An operation that keeps the chunks of the messages to [me] where the
    receiver expects them. *)
Definition op_cut (op : sender_op) : Prop :=
  op_wf op ∧
  match op with
  | SStart dest mid data _ _ => dest = me →
      msgs !! (src, mid) = Some data ∧ 0 < zlen data ≤ MAX_MSG_LEN ∧ is_u64 mid
  | SResend from pkt _ => from = me →
      (ps | offset pkt + length_ pkt) ∨
      ∀ D, msgs !! (src, msg_id pkt) = Some D → zlen D ≤ offset pkt + length_ pkt
  | _ => True
  end.

(** The datagram with chunk [i] of message [mid]. *)
Definition chunk_of (mid : Z) (D : list Z) (i : Z) : list Z :=
  encode (data_header D mid (i * ps) (Z.min (i * ps + ps) (zlen D))) (chunk D ps i).

Definition cut_action (a : Action) : Prop :=
  ∀ bytes, a = Send me bytes → ∃ mid D i, msgs !! (src, mid) = Some D ∧ 0 < zlen D ≤ MAX_MSG_LEN ∧ is_u64 mid ∧
    0 ≤ i ∧ i * ps < zlen D ∧ bytes = chunk_of mid D i.

(** The next byte to send is on a chunk boundary, or the message was sent. *)
Definition out_cut (key : MsgKey) (m : OutMsg) : Prop :=
  key.1 = me → msgs !! (src, key.2) = Some (o_data m) ∧ 0 < zlen (o_data m) ≤ MAX_MSG_LEN ∧ is_u64 key.2 ∧
    ((ps | next_send m) ∨ next_send m = zlen (o_data m)).

Definition sender_cut (s : SenderCore) : Prop :=
  sender_ok s ∧ packet_size (s_cfg s) = ps ∧ ∀ k m, out s !! k = Some m → out_cut k m.

Lemma sender_cut_insert s k m :
  sender_cut s → out_ok (packet_size (s_cfg s)) m → out_cut k m → sender_cut (with_out (<[k := m]> (out s)) s).
Proof.
  intros (Hok & Hp & Hs) Hm Hc. split_and!; [by apply sender_ok_insert|done|]. intros k' m'. simpl.
  rewrite lookup_insert_Some. intros [[<- <-]|[_ ?]]; eauto.
Qed.

Lemma sender_cut_sub s o : sender_cut s → o ⊆ out s → sender_cut (with_out o s).
Proof.
  intros (Hok & Hp & Hs) Ho. split_and!; [by apply sender_ok_sub|done|]. intros k m Hm.
  apply Hs. by eapply lookup_weaken.
Qed.

(** Consecutive chunks end on a boundary or at the end of the message. *)
Lemma chunks_end key data n n' acts :
  chunks key data ps n n' acts → (ps | n) ∨ n = zlen data → (ps | n') ∨ n' = zlen data.
Proof.
  induction 1 as [n|n e n' acts Hne He Hc IH]; [done|]. intros [[q Hq]|Hq]; apply IH; [|right; lia].
  destruct (decide (n + ps ≤ zlen data)); [left; exists (q + 1); lia|right; lia].
Qed.

Lemma chunks_cut key D n n' acts :
  0 < ps → (key.1 = me → msgs !! (src, key.2) = Some D ∧ 0 < zlen D ≤ MAX_MSG_LEN ∧ is_u64 key.2 ∧ (ps | n)) →
  chunks key D ps n n' acts → Forall cut_action acts.
Proof.
  intros Hps Hc Hch. apply Forall_forall. intros a Ha bytes ->.
  assert (Hme : key.1 = me).
  { clear Hc. induction Hch as [|? ? ? ? ? ? ? IH]; [set_solver|]. apply elem_of_cons in Ha as [[= -> _]|Ha]; auto. }
  destruct (Hc Hme) as (Hm & Hl & Hid & Hd).
  destruct (chunks_aligned _ _ _ _ _ _ Hch Hps Hd) as [Hin _].
  destruct (Hin _ Ha) as (i & Hi & Hi' & [= _ ->]). exists key.2, D, i. done.
Qed.

(** [pump] on a message that is not done. *)
Lemma pump_cut key limit now s m s' acts :
  sender_cut s → out s !! key = Some m → done_at m = None → o_granted_to m ≤ limit ≤ zlen (o_data m) →
  pump key limit now s = Some (s', acts) → sender_cut s' ∧ Forall cut_action acts.
Proof.
  intros Hs Hm Hd Hl E. pose proof Hs as (Hok & Hp & Hc).
  destruct (pump_ok key limit now s m Hok Hm Hd Hl) as (m' & acts' & E' & Hm' & Ed & _ & _ & _ & Hch & _).
  rewrite E in E'. injection E' as -> ->. destruct (proj2 (proj2 Hok) _ _ Hm) as [Hn _ _ Hdone].
  assert (Hlt : next_send m < zlen (o_data m)).
  { destruct (decide (next_send m = zlen (o_data m))) as [En|]; [|lia]. apply Hdone in En as [? En]. congruence. }
  rewrite Hp in Hch. split.
  2:{ eapply chunks_cut; [rewrite <-Hp; apply Hok| |exact Hch]. intros Hme.
      destruct (Hc _ _ Hm Hme) as (? & ? & ? & [?|?]); [done|lia]. }
  apply sender_cut_insert; [done|done|]. intros Hme. destruct (Hc _ _ Hm Hme) as (? & ? & ? & Hal).
  rewrite Ed. split_and!; try done; try lia. by eapply chunks_end.
Qed.

Lemma resend_loop_cut fuel mid D : ∀ off end_ acts,
  0 < ps → msgs !! (src, mid) = Some D → 0 < zlen D ≤ MAX_MSG_LEN → is_u64 mid → 0 ≤ off → end_ ≤ zlen D →
  resend_loop fuel me mid ps D off end_ = Some acts → Forall cut_action acts.
Proof.
  induction fuel as [|fuel IH]; intros off end_ acts Hps HD Hl Hid Ho He E; [done|]. cbn [resend_loop] in E.
  destruct (Z.ltb_spec off end_) as [Hlt|]; [|by simplify_eq].
  unfold chunk_range in E. destruct (Z.eqb_spec ps 0); [lia|]. cbn [mbind option_bind] in E.
  pose proof (Z.mul_div_le off ps Hps). pose proof (Z.div_pos off ps Ho Hps).
  rewrite data_packet_ok in E by nia. cbn [mbind option_bind] in E. apply bind_Some in E as (rest & Er & [= <-]).
  constructor; [|eapply IH; [done..| |done|exact Er]; lia].
  intros bytes [= <-]. exists mid, D, (off / ps). split_and!; try done; lia.
Qed.

Lemma resend_loop_dest fuel dest mid D : ∀ off end_ acts a b,
  resend_loop fuel dest mid ps D off end_ = Some acts → Send a b ∈ acts → a = dest.
Proof.
  induction fuel as [|fuel IH]; intros off end_ acts a b E; [done|]. cbn [resend_loop] in E.
  destruct (_ <? _); [|simplify_eq; set_solver]. apply bind_Some in E as ([st e] & _ & (bs & _ & (rest & Er & [= <-])%bind_Some)%bind_Some).
  intros [[= -> _]|?]%elem_of_cons; [done|eauto].
Qed.

Lemma resend_cut from pkt now s s' acts :
  sender_cut s → op_cut (SResend from pkt now) → handle_resend from pkt now s = Some (s', acts) →
  sender_cut s' ∧ Forall cut_action acts.
Proof.
  intros Hs [[Ho Hl] Hcut] E. pose proof Hs as (Hok & Hp & Hc). pose proof (proj1 Hok) as Hps. rewrite Hp in Hps.
  destruct (out s !! (from, msg_id pkt)) as [m|] eqn:Hm; [|unfold handle_resend in E; rewrite Hm in E; by simplify_eq].
  destruct (resend_ok from pkt now s m Hok Hm Ho Hl) as (m' & acts' & E' & Hm' & _).
  pose proof E as E0. rewrite E in E'. injection E' as -> ->.
  unfold handle_resend in E. rewrite Hm in E. apply bind_Some in E as (a & Ea & E). rewrite Hp in Ea. pose proof (zlen_nonneg (o_data m)).
  set (len := zlen (o_data m)) in *. set (en := Z.min (Z.min (offset pkt) len + length_ pkt) len) in *.
  destruct (if next_send m <? en then _ else _) as [next done] eqn:En. injection E as E ->.
  apply (f_equal (λ o, o !! (from, msg_id pkt))) in E. rewrite !lookup_insert_eq in E. injection E as <-.
  split.
  - apply sender_cut_insert; [done|done|]. intros Hme. destruct (Hc _ _ Hm Hme) as (HD & ? & ? & Hal). cbn [o_data next_send snd] in *.
    split_and!; try done; try lia. simpl in Hme. specialize (Hcut Hme).
    destruct (Z.ltb_spec (next_send m) en) as [Hlt|]; injection En as <- <-; [|done]. fold len. destruct (decide (en = len)); [by right|].
    left. destruct Hcut as [Hd|Hd]; [|specialize (Hd _ HD); fold len in Hd; lia]. replace en with (offset pkt + length_ pkt) by lia. done.
  - destruct (decide (from = me)) as [->|Hne].
    + destruct (Hc _ _ Hm eq_refl) as (HD & Hlen & Hid & _). eapply (resend_loop_cut _ _ _ _ _ _ Hps HD Hlen Hid); [| |exact Ea]; subst en len; lia.
    + apply Forall_forall. intros x Hx bytes ->. by rewrite (resend_loop_dest _ _ _ _ _ _ _ _ _ Ea Hx) in Hne.
Qed.

Lemma tick_key_cut now key s s' acts :
  sender_cut s → tick_key now key s = Some (s', acts) → sender_cut s' ∧ Forall cut_action acts.
Proof.
  intros Hs E. pose proof Hs as (Hok & Hp & Hc). pose proof (proj1 Hok) as Hps. rewrite Hp in Hps.
  unfold tick_key in E. destruct (out s !! key) as [m|] eqn:Hm; [|by simplify_eq].
  destruct (proj2 (proj2 Hok) _ _ Hm) as [Hn Hg Hw Hdone]. pose proof (zlen_nonneg (o_data m)).
  assert (Hset : ∀ n, sender_cut (mkSender (s_cfg s) (<[key := set_last_progress now m]> (out s)) n)).
  { intros n. apply (sender_cut_insert s key (set_last_progress now m)); [done|by eapply out_ok_touched, Hok|by apply (Hc _ _ Hm)]. }
  assert (Hal : ∀ i b, 0 ≤ i → i = 0 ∨ i * ps < zlen (o_data m) →
    data_packet (o_data m) key.2 (i * ps) (Z.min (i * ps + ps) (zlen (o_data m))) = Some b →
    Forall cut_action [Send key.1 b]).
  { intros i b Hi Hlt Eb. rewrite data_packet_ok in Eb by nia. injection Eb as <-. constructor; [|done].
    intros bytes [= Hme <-]. destruct (Hc _ _ Hm Hme) as (? & ? & ? & _). exists key.2, (o_data m), i. split_and!; try done; lia. }
  rewrite Hp in E. case_bool_decide.
  - destruct (_ && _); [|by simplify_eq]. apply bind_Some in E as (b & Eb & (n & _ & [= <- <-])%bind_Some).
    split; [apply Hset|]. apply (Hal 0); [lia|by left|]. exact Eb.
  - destruct (_ <? _); [by simplify_eq|]. apply bind_Some in E as (lo & El & ([st e] & Ec & (b & Eb & [= <- <-])%bind_Some)%bind_Some).
    split; [apply (Hset (retransmits s))|]. unfold chunk_range in Ec. destruct (Z.eqb_spec ps 0); [lia|]. injection Ec as <- <-.
    assert (Hlo : 0 ≤ lo ∧ (lo = 0 ∨ lo < next_send m)).
    { destruct (Z.eqb_spec (next_send m) 0); simplify_eq; [lia|].
      pose proof (Z.mul_div_le (next_send m - 1) ps Hps). pose proof (Z.div_pos (next_send m - 1) ps ltac:(lia) Hps). nia. }
    pose proof (Z.mul_div_le lo ps Hps). pose proof (Z.div_pos lo ps ltac:(lia) Hps).
    apply (Hal (lo / ps)); [lia| |exact Eb]. destruct (decide (lo / ps = 0)); [by left|right; nia].
Qed.

Lemma tick_keys_cut now keys : ∀ s s' acts,
  sender_cut s → tick_keys now keys s = Some (s', acts) → sender_cut s' ∧ Forall cut_action acts.
Proof.
  induction keys as [|key keys IH]; intros s s' acts Hs E; cbn [tick_keys] in E; [by simplify_eq|].
  apply bind_Some in E as ([s1 a] & E1 & ([s2 b] & E2 & [= <- <-])%bind_Some).
  destruct (tick_key_cut _ _ _ _ _ Hs E1) as [Hs1 Ha]. destruct (IH _ _ _ Hs1 E2). split; [done|]. by apply Forall_app.
Qed.

Lemma sender_step_cut op s s' acts :
  sender_cut s → op_cut op → sender_step op s = Some (s', acts) → sender_cut s' ∧ Forall cut_action acts.
Proof.
  intros Hs Hop E. pose proof Hs as (Hok & Hp & Hc).
  destruct op as [dest mid data now rt|from pkt now|from pkt now|from pkt now|now|dest mid|dest mid]; simpl in E.
  - destruct Hop as [_ Hop]. pose proof (proj1 Hok) as Hps. rewrite Hp in Hps.
    destruct (start_ok dest mid data now rt s Hok) as (m & acts' & E' & Hm & Ed & Hch & _).
    rewrite E in E'. injection E' as -> ->. rewrite Hp in Hch. split.
    + apply sender_cut_insert; [done..|]. simpl. intros Hme. destruct (Hop Hme) as (? & ? & ?). rewrite Ed.
      split_and!; try done; try lia. eapply chunks_end; [exact Hch|]. left. apply Z.divide_0_r.
    + eapply chunks_cut; [done| |exact Hch]. simpl. intros Hme. destruct (Hop Hme) as (? & ? & ?).
      split_and!; try done; try lia. apply Z.divide_0_r.
  - unfold handle_grant in E. destruct (out s !! (from, msg_id pkt)) as [m|] eqn:Hm; [|by simplify_eq].
    destruct (Z.leb_spec (Z.min (offset pkt) (zlen (o_data m))) (o_granted_to m)); [by simplify_eq|].
    destruct (done_at m) as [t|] eqn:Hd.
    { unfold pump in E. rewrite Hm, bool_decide_eq_true_2 in E by (rewrite Hd; eauto). by simplify_eq. }
    eapply pump_cut; [done|exact Hm|done| |exact E]. lia.
  - by eapply resend_cut.
  - simplify_eq. split; [|done]. unfold handle_busy. destruct (out s !! _) as [m|] eqn:Hm; [|done].
    apply sender_cut_insert; [done|by eapply out_ok_touched, Hok|by apply (Hc _ _ Hm)].
  - unfold sender_tick in E. eapply tick_keys_cut; [|exact E]. apply sender_cut_sub; [done|apply map_filter_subseteq].
  - simplify_eq. split; [|done]. apply sender_cut_sub; [done|apply delete_subseteq].
  - simplify_eq. split; [|done]. unfold confirm. destruct (out s !! (dest, mid)) as [m|] eqn:Hm; [|done]. destruct (done_at m) eqn:Hd.
    + apply sender_cut_sub; [done|apply delete_subseteq].
    + apply sender_cut_insert; [done| |by apply (Hc _ _ Hm)]. rewrite <-Hd. destruct (proj2 (proj2 Hok) _ _ Hm). by constructor.
Qed.

Lemma sender_run_cut ops : ∀ s s' acts,
  sender_cut s → Forall op_cut ops → sender_run ops s = Some (s', acts) → sender_cut s' ∧ Forall cut_action acts.
Proof.
  induction ops as [|op ops IH]; intros s s' acts Hs Hops E; cbn [sender_run] in E; [by simplify_eq|].
  inversion Hops; subst. apply bind_Some in E as ([s1 a] & E1 & ([s2 b] & E2 & [= <- <-])%bind_Some).
  destruct (sender_step_cut _ _ _ _ Hs ltac:(done) E1) as [Hs1 Ha]. destruct (IH _ _ _ Hs1 ltac:(done) E2).
  split; [done|]. by apply Forall_app.
Qed.

(** What such a sender emits is what the receiver can put together. *)
Lemma sender_honest cfg ops s acts bytes pkt payload :
  packet_size cfg = ps → 0 < ps → 0 ≤ unscheduled_bytes cfg → Forall op_cut ops →
  sender_run ops (sender_new cfg) = Some (s, acts) → Send me bytes ∈ acts → decode bytes = Some (inr (pkt, payload)) →
  ∃ D i, honest msgs ps src pkt payload D i.
Proof.
  intros Hp Hps Hu Hops E Hin Hdec.
  destruct (sender_run_cut ops (sender_new cfg) s acts) as [_ Ha]; [|done..|].
  { split; [split; [simpl; lia|split; [done|]]|split; [done|]]; intros k m; simpl; by rewrite lookup_empty. }
  rewrite Forall_forall in Ha. destruct (Ha _ Hin bytes eq_refl) as (mid & D & i & HD & Hl & Hid & Hi & Hi' & ->).
  assert (MAX_MSG_LEN ≤ u32_max) by by_eval.
  unfold chunk_of, chunk in Hdec. rewrite decode_data in Hdec by (done || lia). injection Hdec as <- <-.
  exists D, i. split_and!; try done; simpl; lia.
Qed.

End SenderSide.

(** ** The receiver's events *)

Inductive recv_event :=
  | RData (src : Z) (pkt : Packet) (payload : list Z) (now : Z)
  | RTick (now : Z).

Section ReceiverSide.
Context `{!HashOrder MsgKey InMsg} `{!HashOrder MsgKey OutMsg}.

Definition recv_step (ev : recv_event) (r : ReceiverCore) : option (ReceiverCore * list Action) :=
  match ev with
  | RData src pkt payload now => handle_data src pkt payload now r
  | RTick now => receiver_tick now r
  end.

Fixpoint recv_run (evs : list recv_event) (r : ReceiverCore) : option (ReceiverCore * list Action) :=
  match evs with
  | [] => Some (r, [])
  | ev :: evs' =>
      '(r, a) ← recv_step ev r;
      '(r, b) ← recv_run evs' r;
      Some (r, a ++ b)
  end.

(** A tick, or a datagram that some sender at [src] with the same packet size
    sent to [me] in a run as above. *)
Definition genuine (msgs : gmap MsgKey (list Z)) (me ps : Z) (ev : recv_event) : Prop :=
  match ev with
  | RTick _ => True
  | RData src pkt payload _ => ∃ cfg ops s acts bytes,
      packet_size cfg = ps ∧ 0 ≤ unscheduled_bytes cfg ∧ Forall (op_cut msgs src me ps) ops ∧
      sender_run ops (sender_new cfg) = Some (s, acts) ∧ Send me bytes ∈ acts ∧
      decode bytes = Some (inr (pkt, payload))
  end.

(** The address and id of each delivery. *)
Fixpoint delivered (acts : list Action) : list MsgKey :=
  match acts with
  | Deliver s m _ :: acts' => (s, m) :: delivered acts'
  | _ :: acts' => delivered acts'
  | [] => []
  end.

Lemma delivered_app a b : delivered (a ++ b) = delivered a ++ delivered b.
Proof. induction a as [|[] a IH]; simpl; [done|done|by rewrite IH]. Qed.

Lemma delivered_sends a : Forall is_send a → delivered a = [].
Proof. induction 1 as [|[] a Ha Hf IH]; simpl; [done|done|by destruct Ha]. Qed.

(** *** The resend counters *)

Definition resends_ok (r : ReceiverCore) : Prop :=
  ∀ k m, incoming r !! k = Some m → 0 ≤ unanswered_resends m ≤ MAX_UNANSWERED_RESENDS.

Lemma resends_insert r k m :
  resends_ok r → 0 ≤ unanswered_resends m ≤ MAX_UNANSWERED_RESENDS → resends_ok (with_incoming (<[k := m]> (incoming r)) r).
Proof. intros Hr Hm k' m'. simpl. rewrite lookup_insert_Some. intros [[<- <-]|[_ ?]]; eauto. Qed.

Lemma resends_delete r k : resends_ok r → resends_ok (with_incoming (delete k (incoming r)) r).
Proof. intros Hr k' m'. simpl. intros [_ ?]%lookup_delete_Some. eauto. Qed.

Lemma issue_grant_resends k now force r : resends_ok r → resends_ok (issue_grant k now force r).1.
Proof.
  intros Hr. unfold issue_grant. destruct (incoming r !! k) as [m|] eqn:Hm; [|done].
  destruct (_ && _); [done|]. destruct (_ && _); [done|]. apply (resends_insert r k); [done|]. exact (Hr k m Hm).
Qed.

Lemma issue_grants_resends keys now : ∀ r, resends_ok r → resends_ok (issue_grants keys now r).1.
Proof.
  induction keys as [|k keys IH]; intros r Hr; cbn [issue_grants]; [done|].
  pose proof (issue_grant_resends k now false r Hr) as H1. destruct (issue_grant k now false r) as [r1 a].
  specialize (IH r1 H1). by destruct (issue_grants keys now r1) as [r2 b].
Qed.

Lemma schedule_resends now r r' a : schedule now r = Some (r', a) → resends_ok r → resends_ok r'.
Proof.
  unfold schedule. destruct (select now r) as [sel|]; [|done]. cbn [mbind option_bind]. intros [= E] Hr.
  pose proof (issue_grants_resends sel now (with_granting sel r) Hr) as H. by rewrite E in H.
Qed.

Lemma starve_loop_resends now q r r' a : starve_loop now q r = Some (r', a) → resends_ok r → resends_ok r'.
Proof.
  induction q as [|[t k] q IH]; simpl; [intros; by simplify_eq|].
  destruct (now <? t); [intros; by simplify_eq|]. destruct (starved now k r); [|done]. intros H Hr.
  eapply schedule_resends; [exact H|]. exact Hr.
Qed.

Lemma deliver_resends k src D r : resends_ok r → resends_ok (deliver k src D r).1.
Proof.
  intros Hr. unfold deliver.
  destruct (COMPLETED_CACHE <? _); [destruct (completed_order r ++ [k])|]; by apply (resends_delete r k).
Qed.

Lemma after_chunk_resends k src now is_new m r r' a :
  after_chunk k src now is_new m r = Some (r', a) → resends_ok r → resends_ok r'.
Proof.
  unfold after_chunk. intros E Hr. destruct (complete_msg m).
  - pose proof (deliver_resends k src (buf m) r Hr) as Hd. destruct (deliver _ _ _ _) as [r1 b].
    apply bind_Some in E as ([r2 c] & E & [= <- <-]). by eapply schedule_resends.
  - apply bind_Some in E as ([r1 b] & E1 & ([r2 c] & E2 & [= <- <-])%bind_Some).
    eapply starve_loop_resends; [exact E2|]. destruct is_new; [by eapply schedule_resends|].
    case_bool_decide; [|by simplify_eq]. pose proof (issue_grant_resends k now false r Hr) as Hg.
    injection E1 as E1. by rewrite E1 in Hg.
Qed.

Lemma write_chunk_resends ps off total p now m m' :
  write_chunk ps off total p now m = Some m' → unanswered_resends m' = 0 ∨ unanswered_resends m' = unanswered_resends m.
Proof.
  unfold write_chunk. destruct (ps =? 0); [done|]. destruct (_ && _); [|intros [= <-]; by right].
  intros (b' & _ & (rec & _ & [= <-])%bind_Some)%bind_Some. by left.
Qed.

Lemma handle_data_resends src pkt payload now r r' a :
  handle_data src pkt payload now r = Some (r', a) → resends_ok r → resends_ok r'.
Proof.
  unfold handle_data. intros E Hr. case_bool_decide; [by simplify_eq|]. destruct (_ <? _); [by simplify_eq|].
  destruct (_ && _); [by simplify_eq|]. set (key := (src, msg_id pkt)) in *.
  set (rp := if bool_decide (incoming r !! key = None) then push_starve now key r else r) in *.
  assert (Hrp : resends_ok rp) by (subst rp; by case_bool_decide).
  apply bind_Some in E as (m0 & E0 & E).
  assert (H0 : 0 ≤ unanswered_resends m0 ≤ MAX_UNANSWERED_RESENDS).
  { destruct (incoming rp !! key) as [m|] eqn:Em; [simplify_eq; by apply (Hrp key)|].
    apply bind_Some in E0 as (n & _ & [= <-]). simpl. by_eval. }
  pose proof (resends_insert rp key m0 Hrp H0) as Hr0. destruct (msg_len pkt =? 0).
  - pose proof (deliver_resends key src [] _ Hr0) as Hd. destruct (deliver _ _ _ _) as [r1 b].
    apply bind_Some in E as ([r2 c] & E & [= <- <-]). by eapply schedule_resends.
  - apply bind_Some in E as (m1 & E1 & E). eapply after_chunk_resends; [exact E|].
    apply resends_insert; [exact Hr0|]. destruct (write_chunk_resends _ _ _ _ _ _ _ E1) as [->| ->]; [by_eval|done].
Qed.

(** *** The tick *)

(** The cache of delivered messages is as it was. *)
Definition same_done (r r' : ReceiverCore) : Prop :=
  r_cfg r' = r_cfg r ∧ completed r' = completed r ∧ completed_order r' = completed_order r.

Lemma frame_same_done r r' : frame r r' → same_done r r'.
Proof. intros (? & ? & ? & _). by split_and!. Qed.

Lemma same_done_trans r1 r2 r3 : same_done r1 r2 → same_done r2 r3 → same_done r1 r3.
Proof. unfold same_done. intuition congruence. Qed.

(** A step that sends control packets only and keeps what was received. *)
Definition quiet (msgs : gmap MsgKey (list Z)) (r : ReceiverCore) (o : option (ReceiverCore * list Action)) : Prop :=
  ∃ r' a, o = Some (r', a) ∧ r_ok msgs r' ∧ resends_ok r' ∧ same_done r r' ∧ Forall is_send a.

Lemma quiet_schedule msgs now r : r_ok msgs r → resends_ok r → quiet msgs r (schedule now r).
Proof.
  intros Hr Hu. destruct (schedule_ok msgs now r Hr) as (r' & a & E & F & S). exists r', a.
  split_and!; [done|by eapply r_ok_frame|by eapply schedule_resends|by apply frame_same_done..|done].
Qed.

Lemma quiet_touch msgs r k m m' :
  r_ok msgs r → resends_ok r → incoming r !! k = Some m → core m' = core m →
  0 ≤ unanswered_resends m' ≤ MAX_UNANSWERED_RESENDS →
  let r' := with_incoming (<[k := m']> (incoming r)) r in r_ok msgs r' ∧ resends_ok r' ∧ same_done r r'.
Proof.
  intros Hr Hu Hm E Hm' r'. split_and!; try done; [|by apply resends_insert].
  eapply r_ok_frame; [|exact Hr]. split_and!; try done. by eapply core_insert.
Qed.

Lemma rtick_key_quiet msgs now k r : r_ok msgs r → resends_ok r → quiet msgs r (rtick_key now k r).
Proof.
  intros Hr Hu. unfold rtick_key.
  assert (Hsame : quiet msgs r (Some (r, []))) by (exists r, []; split_and!; done).
  destruct (incoming r !! k) as [m|] eqn:Hm; [|done]. destruct (_ <? _); [done|]. cbv zeta.
  match goal with |- quiet _ _ (match _ with Some off => if _ then _ else ?st | None => _ end) => assert (Hstall : quiet msgs r st) end.
  { destruct (_ <=? _); [|done]. pose proof (Hu _ _ Hm) as Hum.
    match goal with |- context [with_incoming ?i r] =>
      destruct (quiet_touch msgs r k m (mkInMsg (total_len m) (buf m) (received m) (received_bytes m) (granted_to m)
        now (last_grant m) (unanswered_resends m)) Hr Hu Hm eq_refl Hum) as (H1 & H2 & H3); set (r1 := with_incoming i r) in * end.
    case_bool_decide; [|exists r1, []; split_and!; done].
    destruct (issue_grant_frame k now true r1) as [F S]. pose proof (issue_grant_resends k now true r1 H2).
    destruct (issue_grant k now true r1) as [r2 a]. exists r2, a.
    split; [done|]. split; [by eapply r_ok_frame|]. split; [done|]. split; [|done].
    eapply same_done_trans; [exact H3|by apply frame_same_done]. }
  destruct (first_missing_offset _ m) as [off|]; [|done]. destruct (off <? granted_to m); [|done].
  pose proof (Hu _ _ Hm) as Hum. unfold MAX_UNANSWERED_RESENDS in Hum.
  rewrite add_chk_ok by (unfold u32_max; lia). cbn [mbind option_bind].
  do 2 eexists. split; [done|].
  assert (Hsend : ∀ b, (∃ p mid o l, b = control_packet Resend p mid o l) → Forall is_send [Send k.1 b]).
  { intros b (p & mid & o & l & ->). apply Forall_singleton. by exists Resend, p, mid, o, l. }
  destruct (Z.ltb_spec MAX_UNANSWERED_RESENDS (unanswered_resends m + 1)) as [|Hle].
  - split; [|split; [|split; [done|by apply Hsend; eauto]]].
    + destruct Hr as [Hp Hr]. split; [done|]. simpl. rewrite delete_insert_eq. intros k' m' [_ ?]%lookup_delete_Some. eauto.
    + intros k' m'. simpl. rewrite delete_insert_eq. intros [_ ?]%lookup_delete_Some. eauto.
  - match goal with |- context [<[k := ?m']> (incoming r)] =>
      destruct (quiet_touch msgs r k m m' Hr Hu Hm eq_refl) as (H1 & H2 & H3); [simpl; lia|] end.
    split; [exact H1|]. split; [exact H2|]. split; [exact H3|]. apply Hsend. eauto.
Qed.

Lemma rtick_keys_quiet msgs now ks : ∀ r, r_ok msgs r → resends_ok r → quiet msgs r (rtick_keys now ks r).
Proof.
  induction ks as [|k ks IH]; intros r Hr Hu; cbn [rtick_keys]; [exists r, []; split_and!; done|].
  destruct (rtick_key_quiet msgs now k r Hr Hu) as (r1 & a & -> & H1 & H2 & H3 & Ha). cbn [mbind option_bind].
  destruct (IH r1 H1 H2) as (r2 & b & -> & H4 & H5 & H6 & Hb). do 2 eexists. split; [done|].
  split; [done|]. split; [done|]. split; [by eapply same_done_trans|by apply Forall_app].
Qed.

Lemma receiver_tick_quiet msgs now r : r_ok msgs r → resends_ok r → quiet msgs r (receiver_tick now r).
Proof.
  intros Hr Hu. unfold receiver_tick.
  destruct (rtick_keys_quiet msgs now (hm_iter (incoming r)).*1 r Hr Hu) as (r1 & a & -> & H1 & H2 & H3 & Ha). cbn [mbind option_bind].
  destruct (quiet_schedule msgs now r1 H1 H2) as (r2 & b & -> & H4 & H5 & H6 & Hb). do 2 eexists. split; [done|].
  split; [done|]. split; [done|]. split; [by eapply same_done_trans|by apply Forall_app].
Qed.

(** *** The cache of delivered messages *)

Definition cache_size : nat := Z.to_nat COMPLETED_CACHE.

(** No key comes again within the size of the cache. *)
Definition spaced (dl : list MsgKey) : Prop :=
  ∀ i j k, dl !! i = Some k → dl !! j = Some k → (i < j)%nat → (i + cache_size < j)%nat.

(** The cache holds the last deliveries. *)
Definition cached (dl : list MsgKey) (r : ReceiverCore) : Prop :=
  completed_order r = drop (length dl - cache_size) dl ∧
  completed r = list_to_set (completed_order r) ∧ NoDup (completed_order r) ∧ spaced dl.

Lemma cached_same dl r r' : same_done r r' → cached dl r → cached dl r'.
Proof. intros (_ & E1 & E2). unfold cached. by rewrite E1, E2. Qed.

Lemma spaced_snoc dl k :
  spaced dl → k ∉ drop (length dl - cache_size) dl → spaced (dl ++ [k]).
Proof.
  intros Hs Hk i j x Hi Hj Hlt. destruct (decide (j < length dl)%nat) as [Hjl|Hjl].
  - rewrite lookup_app_l in Hj by done. rewrite lookup_app_l in Hi by lia. by apply (Hs i j x).
  - pose proof (lookup_lt_Some _ _ _ Hj) as Hb. rewrite length_app in Hb. simpl in Hb. assert (j = length dl) as -> by lia.
    rewrite lookup_app_r, Nat.sub_diag in Hj by lia. injection Hj as <-. rewrite lookup_app_l in Hi by lia.
    destruct (decide (i + cache_size < length dl)%nat); [done|]. exfalso. apply Hk. apply list_elem_of_lookup.
    exists (i - (length dl - cache_size))%nat. rewrite lookup_drop. rewrite <-Hi. f_equal. lia.
Qed.

Lemma cached_deliver dl r key src D :
  cached dl r → key ∉ completed r → cached (dl ++ [key]) (deliver key src D r).1.
Proof.
  intros (Eo & Ec & Hn & Hs) Hk. assert (Hk' : key ∉ completed_order r) by (rewrite Ec in Hk; set_solver).
  assert (Hs' : spaced (dl ++ [key])) by (apply spaced_snoc; [done|by rewrite <-Eo]).
  assert (Hcs : (0 < cache_size)%nat) by (unfold cache_size, COMPLETED_CACHE; lia).
  assert (Hn' : NoDup (completed_order r ++ [key])).
  { apply NoDup_app. split_and!; [done| |apply NoDup_singleton]. intros x Hx. rewrite list_elem_of_singleton. by intros ->. }
  assert (Hlen : length (completed_order r) = Nat.min (length dl) cache_size) by (rewrite Eo, length_drop; lia).
  unfold deliver. destruct (Z.ltb_spec COMPLETED_CACHE (zlen (completed_order r ++ [key]))) as [Hfull|Hfull].
  - assert (Hl : length (completed_order r) = cache_size).
    { unfold zlen in Hfull. rewrite length_app in Hfull. simpl in Hfull. unfold cache_size in *. lia. }
    assert (Ed : completed_order r ++ [key] = drop (length dl - cache_size) (dl ++ [key])).
    { rewrite Eo, drop_app_le by lia. done. }
    destruct (completed_order r) as [|old order] eqn:Eor; [simpl in Hl; lia|]. simpl. split_and!.
    + assert (E1 : drop 1 ((old :: order) ++ [key]) = order ++ [key]) by done. simpl. rewrite <-E1, Ed, drop_drop.
      f_equal. rewrite length_app. simpl. lia.
    + simpl. rewrite Ec. simpl. simpl in Hn'. apply NoDup_cons in Hn' as [Ho _]. apply leibniz_equiv.
      intros x. set_unfold. destruct (decide (x = old)); naive_solver.
    + by apply NoDup_cons in Hn' as [_ ?].
    + done.
  - simpl. split_and!; [|rewrite Ec|done|done].
    + assert (Hl : (length dl < cache_size)%nat).
      { unfold zlen in Hfull. rewrite length_app in Hfull. simpl in Hfull. unfold cache_size in *. lia. }
      rewrite Eo. rewrite length_app. simpl. replace (length dl - cache_size)%nat with 0%nat by lia.
      replace (length dl + 1 - cache_size)%nat with 0%nat by lia. done.
    + simpl. apply leibniz_equiv. rewrite list_to_set_app. set_solver.
Qed.

(** *** Runs *)

Definition run_ok (msgs : gmap MsgKey (list Z)) (dl : list MsgKey) (r : ReceiverCore) : Prop :=
  r_ok msgs r ∧ resends_ok r ∧ cached dl r.

Lemma recv_step_ok msgs me dl r ev :
  run_ok msgs dl r → genuine msgs me (packet_size (r_cfg r)) ev →
  ∃ r' acts, recv_step ev r = Some (r', acts) ∧ run_ok msgs (dl ++ delivered acts) r' ∧ r_cfg r' = r_cfg r ∧
    ∀ s m d, Deliver s m d ∈ acts → msgs !! (s, m) = Some d.
Proof.
  intros (Hr & Hu & Hc) Hg. assert (Hns : ∀ acts, Forall is_send acts → ∀ s m d, Deliver s m d ∈ acts → msgs !! (s, m) = Some d).
  { intros acts Hf s m d Hin. rewrite Forall_forall in Hf. by destruct (Hf _ Hin). }
  destruct ev as [src pkt payload now|now]; cbn [recv_step genuine] in *.
  - destruct Hg as (cfg & ops & s0 & acts0 & bytes & Hp & Hun & Hops & Erun & Hin & Hdec). rewrite <-Hp in *.
    destruct (sender_honest msgs src me (packet_size cfg) cfg ops s0 acts0 bytes pkt payload) as (D & i & Hh); try done.
    { rewrite Hp. apply Hr. }
    rewrite Hp in Hh. pose proof Hh as (HD & _).
    destruct (handle_data_cases msgs r src pkt payload now D i Hr Hh) as (r' & acts & E & Hr' & Hcases).
    exists r', acts. split; [done|]. pose proof (handle_data_resends _ _ _ _ _ _ _ E Hu) as Hu'.
    destruct Hcases as [(_ & -> & ->)|[(_ & _ & _ & -> & Hs)|(Hnk & m0 & m1 & _ & _ & _ & Hout)]].
    + rewrite app_nil_r. split; [done|]. split; [done|]. intros ? ? ? ?%not_elem_of_nil. done.
    + rewrite (delivered_sends _ Hs), app_nil_r. split_and!; try done. by apply Hns.
    + destruct (complete_msg m1).
      * destruct Hout as (sends & -> & Hs & F). simpl. rewrite (delivered_sends _ Hs).
        pose proof (frame_same_done _ _ F) as Fd. split; [|split].
        -- split_and!; try done. eapply cached_same; [exact Fd|]. by apply cached_deliver.
        -- destruct Fd as [-> _]. unfold deliver. destruct (COMPLETED_CACHE <? _); [by destruct (completed_order r ++ _)|done].
        -- intros s m d [Hd|Hd]%elem_of_cons; [by simplify_eq|by eapply Hns].
      * destruct Hout as [Hs F]. rewrite (delivered_sends _ Hs), app_nil_r. pose proof (frame_same_done _ _ F) as Fd.
        split; [|split; [by destruct Fd as [-> _]|by apply Hns]]. split_and!; try done. by eapply cached_same.
  - destruct (receiver_tick_quiet msgs now r Hr Hu) as (r' & a & E & Hr' & Hu' & Hsd & Hs).
    exists r', a. rewrite (delivered_sends _ Hs), app_nil_r. split; [done|].
    split; [|split; [by destruct Hsd as [-> _]|by apply Hns]]. split_and!; try done. by eapply cached_same.
Qed.

Lemma recv_run_ok msgs me evs : ∀ dl r,
  run_ok msgs dl r → Forall (genuine msgs me (packet_size (r_cfg r))) evs →
  ∃ r' acts, recv_run evs r = Some (r', acts) ∧ run_ok msgs (dl ++ delivered acts) r' ∧
    ∀ s m d, Deliver s m d ∈ acts → msgs !! (s, m) = Some d.
Proof.
  induction evs as [|ev evs IH]; intros dl r Hr Hev; cbn [recv_run].
  { exists r, []. rewrite app_nil_r. split; [done|]. split; [done|]. intros ? ? ? ?%not_elem_of_nil. done. }
  inversion Hev as [|? ? Hg Hrest]; subst.
  destruct (recv_step_ok msgs me dl r ev Hr Hg) as (r1 & a & -> & H1 & Ec & Ha). cbn [mbind option_bind].
  destruct (IH _ r1 H1) as (r2 & b & -> & H2 & Hb); [by rewrite Ec|]. cbn [mbind option_bind].
  do 2 eexists. split; [done|]. rewrite delivered_app, app_assoc. split; [done|].
  intros s m d [?|?]%elem_of_app; eauto.
Qed.

(** [C2] Messages arrive intact.  A receiver handles, in any order and any
    number of times, datagrams of any number of senders with the same packet
    size, interleaved with its own ticks; the senders have sent non-empty
    messages of at most [MAX_MSG_LEN] bytes, one per address and id, and have
    handled grants, busy signals, confirmations, ticks and those resend
    requests that end on a multiple of the packet size or at the end of the
    message.  Then the receiver never panics, every message it delivers is
    byte for byte the one sent under that address and id, and the same
    address and id is delivered again only after at least
    [COMPLETED_CACHE] other deliveries. *)
Theorem reassembly_sound cfg msgs me evs :
  0 < packet_size cfg → Forall (genuine msgs me (packet_size cfg)) evs →
  ∃ r acts, recv_run evs (receiver_new cfg) = Some (r, acts) ∧
    (∀ s m d, Deliver s m d ∈ acts → msgs !! (s, m) = Some d) ∧
    ∀ i j key, delivered acts !! i = Some key → delivered acts !! j = Some key → (i < j)%nat →
      COMPLETED_CACHE < Z.of_nat (j - i).
Proof.
  intros Hp Hev. destruct (recv_run_ok msgs me evs [] (receiver_new cfg)) as (r & acts & E & (_ & _ & _ & _ & _ & Hs) & Hd); [|done|].
  { split; [split; [done|by intros k m; simpl; rewrite lookup_empty]|]. split; [by intros k m; simpl; rewrite lookup_empty|].
    split; [done|]. split; [done|]. split; [constructor|by intros i j k Hi]. }
  exists r, acts. split; [done|]. split; [done|]. intros i j key Hi Hj Hlt. specialize (Hs i j key Hi Hj Hlt).
  unfold cache_size in Hs. lia.
Qed.

End ReceiverSide.

(** ** Witnesses *)

#[local] Instance ex_in_order : HashOrder MsgKey InMsg := default_order.
#[local] Instance ex_out_order : HashOrder MsgKey OutMsg := default_order.

(** Nine bytes in three chunks of four; the second and the third datagram of
    the sender, and the first after a tick, with the second once more. *)
Definition nine : list Z := [1; 2; 3; 4; 5; 6; 7; 8; 9].
Definition nine_ops : list sender_op := [SStart 2 7 nine 0 false].
Definition nine_event (i : Z) (now : Z) : recv_event :=
  RData 1 (mkPkt Data (priority_for_len 9) 7 9 (i * 4) (Z.min (i * 4 + 4) 9 - i * 4)) (chunk nine 4 i) now.

Lemma nine_genuine i now : 0 ≤ i < 3 → genuine {[(1, 7) := nine]} 2 4 (nine_event i now).
Proof.
  intros Hi. destruct (sender_run nine_ops (sender_new ex_cfg)) as [[s acts]|] eqn:E; [|vm_compute in E; discriminate].
  exists ex_cfg, nine_ops, s, acts, (chunk_of 4 7 nine i).
  assert (Hcase : i = 0 ∨ i = 1 ∨ i = 2) by lia. split; [reflexivity|]. split; [by_eval|]. split; [|split; [exact E|split]].
  - repeat constructor; by_eval.
  - vm_compute in E. injection E as <- <-. destruct Hcase as [->|[->| ->]]; vm_compute; repeat constructor.
  - destruct Hcase as [->|[->| ->]]; vm_compute; reflexivity.
Qed.

Lemma reassembly_sound_witness :
  ∃ r acts, recv_run [nine_event 1 0; nine_event 2 1; RTick 100; nine_event 1 101; nine_event 0 102; nine_event 0 103]
      (receiver_new ex_cfg) = Some (r, acts) ∧
    delivered acts = [(1, 7)] ∧ ∀ d, Deliver 1 7 d ∈ acts → d = nine.
Proof.
  destruct (reassembly_sound ex_cfg {[(1, 7) := nine]} 2
    [nine_event 1 0; nine_event 2 1; RTick 100; nine_event 1 101; nine_event 0 102; nine_event 0 103])
    as (r & acts & E & Hd & _).
  - by_eval.
  - repeat (constructor; [first [exact I | apply nine_genuine; lia]|]). constructor.
  - exists r, acts. split; [exact E|]. split.
    + vm_compute in E. injection E as <- <-. vm_compute. reflexivity.
    + intros d Hin. specialize (Hd _ _ _ Hin). rewrite lookup_singleton_eq in Hd. congruence.
Defined.
