(* ===== verification/HomaTxQueue.v ===== *)
(** * The send queues of the Homa transport

    Models [crates/homa-rpc/src/transport/txqueue.rs]: the control queue and
    the eight DATA queues, and how a batch is taken from them.  Locks and
    condition variables are not modelled here (see [HomaThreads]): [push] and
    one pass of [wait_batch] run under one mutex, so each is one operation. *)

From S2P Require Import Prelude Bytes HomaPacket.

(** A datagram with its destination. *)
Abbreviation datagram := (Z * list Z)%type.

Definition FLUSH_BUDGET : Z := 1024.

Record TxInner := mkTx {
  control : list datagram;
  queues : list (list datagram)
}.

Definition tx_new : TxInner := mkTx [] (replicate (Z.to_nat NUM_PRIORITIES) []).

(** [push]: DATA by the priority byte of its header, the rest to control. *)
Definition tx_push (dest : Z) (bytes : list Z) (t : TxInner) : option TxInner :=
  is_data ← (if 2 <=? zlen bytes then b0 ← vget bytes 0; Some (b0 =? to_u8 Data) else Some false);
  if is_data : bool then
    b1 ← vget bytes 1;
    let prio := Z.min b1 (NUM_PRIORITIES - 1) in
    q ← vget (queues t) prio;
    qs ← vset (queues t) prio (q ++ [(dest, bytes)]);
    Some (mkTx (control t) qs)
  else Some (mkTx (control t ++ [(dest, bytes)]) (queues t)).

(** The loop over the DATA queues, with [room] left in the budget: what is
    taken, and the queues left. *)
Fixpoint take_queues (room : nat) (qs : list (list datagram)) : list datagram * list (list datagram) :=
  match qs with
  | [] => ([], [])
  | q :: qs' =>
      let taken := take room q in
      if (room - length taken =? 0)%nat then (taken, drop room q :: qs')
      else let '(rest, qs'') := take_queues (room - length taken) qs' in
           (taken ++ rest, drop room q :: qs'')
  end.

(** One pass of [wait_batch]; an empty batch means the caller waits. *)
Definition take_batch (budget : Z) (t : TxInner) : list datagram * TxInner :=
  let room := Z.to_nat (budget - zlen (control t)) in
  if budget <=? zlen (control t) then
    (control t, mkTx [] (queues t))
  else let '(data, qs) := take_queues room (queues t) in (control t ++ data, mkTx [] qs).

Definition tx_is_empty (t : TxInner) : bool :=
  bool_decide (control t = []) && forallb (λ q, bool_decide (q = [])) (queues t).

Definition backlog (t : TxInner) : Z := zlen (concat (queues t)) + zlen (control t).

(** ** Nothing is lost, nothing overtakes *)

Lemma take_queues_spec room qs :
  let r := take_queues room qs in
  r.1 ++ concat r.2 ≡ₚ concat qs ∧ length r.2 = length qs ∧
  (∃ k, r.1 = take k (concat qs) ∧ concat r.2 = drop k (concat qs)) ∧ (length r.1 ≤ room)%nat.
Proof.
  revert room. induction qs as [|q qs IH]; intros room; simpl.
  { split; [done|]. split; [done|]. split; [by exists O|simpl; lia]. }
  destruct (Nat.eqb_spec (room - length (take room q)) 0) as [E|E]; simpl.
  - rewrite length_take in *. rewrite app_assoc, take_drop. split; [done|]. split; [done|]. split; [|lia].
    exists (Nat.min room (length q)). rewrite take_app_le, drop_app_le by lia. split.
    + destruct (Nat.le_gt_cases room (length q)); [by rewrite Nat.min_l|].
      by rewrite Nat.min_r, !take_ge by lia.
    + destruct (Nat.le_gt_cases room (length q)); [by rewrite Nat.min_l|].
      by rewrite Nat.min_r, !drop_ge by lia.
  - rewrite length_take in *. assert (Hq : (length q < room)%nat) by lia.
    rewrite Nat.min_r in * by lia. rewrite take_ge, drop_ge by lia.
    destruct (IH (room - length q)%nat) as (P & L & (k & E1 & E2) & B).
    destruct (take_queues _ qs) as [rest qs'']. simpl in *.
    split; [by rewrite <-app_assoc, P|]. split; [lia|]. split; [|rewrite length_app; lia].
    exists (length q + k)%nat. rewrite take_app_add, drop_app_add. by rewrite E1, E2.
Qed.

(** The queues lose and duplicate nothing, and order what they hold: a
    batch is all control packets followed by a prefix of the DATA packets in
    order of priority and, within a priority, of arrival; what stays behind
    is the rest of that order, and the batch exceeds the budget only by
    control packets. *)
Theorem take_batch_prefix budget t :
  0 ≤ budget →
  let '(batch, t') := take_batch budget t in
  ∃ data, batch = control t ++ data ∧ data ++ concat (queues t') = concat (queues t) ∧ control t' = [] ∧
    length (queues t') = length (queues t) ∧ (data = [] ∨ zlen batch ≤ budget).
Proof.
  intros Hb. unfold take_batch. destruct (Z.leb_spec budget (zlen (control t))).
  - exists []. rewrite app_nil_r. by split_and!; [..|left].
  - destruct (take_queues_spec (Z.to_nat (budget - zlen (control t))) (queues t)) as (_ & L & (k & E1 & E2) & B).
    destruct (take_queues _ _) as [data qs]. simpl in *. exists data.
    split; [done|]. split; [by rewrite E1, E2, take_drop|]. split; [done|]. split; [done|].
    right. rewrite zlen_app. unfold zlen in *. lia.
Qed.

Lemma take_batch_prefix_witness :
  let t := mkTx [(1, [9])] ([(2, [0; 0])] :: [(3, [0; 1])] :: replicate 6 []) in
  ∃ data, (take_batch 2 t).1 = control t ++ data ∧ data ++ concat (queues (take_batch 2 t).2) = concat (queues t).
Proof.
  pose proof (take_batch_prefix 2 (mkTx [(1, [9])] ([(2, [0; 0])] :: [(3, [0; 1])] :: replicate 6 [])) ltac:(lia)) as H.
  destruct (take_batch 2 _) as [b t'] eqn:E in H. destruct H as (data & H1 & H2 & _). exists data.
  cbv zeta. rewrite E. split; [exact H1|exact H2].
Defined.
