(* ===== verification/HomaGso.v ===== *)
(** * Segmentation offload of the Homa transport

    Models [crates/homa-rpc/src/transport/gso.rs]: the aggregator that packs
    consecutive full DATA packets of one message into a segment, and the body
    of the send loop of [transport/mod.rs] (on Windows) that uses it on one
    batch, down to the system calls it makes.  What the kernel does with a call is a
    parameter: it cuts a segment of at most 64 KB at the given size and
    refuses a longer one. *)

From S2P Require Import Prelude Bytes HomaPacket HomaTxQueue.

Definition MAX_GSO_BYTES : Z := Z.shiftl 64 10.

Record GsoAggregator := mkGso {
  mss : Z;
  stride : Z;
  dest : option Z;
  g_msg_id : Z;
  next_offset : Z;
  g_buf : list Z;
  g_count : Z
}.

Definition gso_new (packet_size : Z) : GsoAggregator :=
  mkGso (HEADER_LEN + packet_size) packet_size None 0 0 [] 0.

(** [bytes.len() != self.mss || bytes[0] != PacketType::Data as u8] *)
Definition not_full_data (bytes : list Z) (g : GsoAggregator) : option bool :=
  if negb (zlen bytes =? mss g) then Some true else
  b0 ← vget bytes 0; Some (negb (b0 =? to_u8 Data)).

Definition can_append (d : Z) (bytes : list Z) (g : GsoAggregator) : option bool :=
  if g_count g =? 0 then Some false else
  nf ← not_full_data bytes g;
  if nf : bool then Some false else
  match dest g with
  | None => Some false
  | Some d' =>
      id ← slice bytes 2 10;
      off ← slice bytes 14 18;
      Some ((d' =? d) && (g_msg_id g =? from_le id) && (next_offset g =? from_le off)
            && (zlen (g_buf g) + mss g <=? MAX_GSO_BYTES))
  end.

Definition append (bytes : list Z) (g : GsoAggregator) : GsoAggregator :=
  mkGso (mss g) (stride g) (dest g) (g_msg_id g) (next_offset g + stride g) (g_buf g ++ bytes) (g_count g + 1).

Definition gso_start (d : Z) (bytes : list Z) (g : GsoAggregator) : option (GsoAggregator * bool) :=
  nf ← not_full_data bytes g;
  if nf : bool then Some (g, false) else
  id ← slice bytes 2 10;
  off ← slice bytes 14 18;
  Some (mkGso (mss g) (stride g) (Some d) (from_le id) (from_le off + stride g) bytes 1, true).

Definition try_push (d : Z) (bytes : list Z) (g : GsoAggregator) : option (GsoAggregator * bool) :=
  c ← can_append d bytes g;
  if c : bool then Some (append bytes g, true)
  else if g_count g =? 0 then gso_start d bytes g
  else Some (g, false).

Definition gso_finish (g : GsoAggregator) : option (GsoAggregator * option (Z * list Z * Z)) :=
  if g_count g =? 0 then Some (g, None) else
  d ← dest g;
  Some (mkGso (mss g) (stride g) None (g_msg_id g) (next_offset g) [] 0, Some (d, g_buf g, g_count g)).

(** The system calls: [send_to], and [sendmsg] with the size at which the
    kernel is to cut. *)
Inductive TxCall :=
  | SendTo (d : Z) (bytes : list Z)
  | SendMsg (d : Z) (seg : list Z) (size : Z).

(** [send_segment]: a single packet is sent as it is. *)
Definition send_segment (size : Z) (seg : Z * list Z * Z) : TxCall :=
  let '(d, bytes, n) := seg in if n <=? 1 then SendTo d bytes else SendMsg d bytes size.

(** The counters of [Inner]. *)
Record TxStats := mkTxStats {
  send_syscalls : Z;
  gso_segments : Z
}.

Definition count_call (st : TxStats) : TxStats := mkTxStats (wrap64 (send_syscalls st + 1)) (gso_segments st).

Definition count_segment (n : Z) (st : TxStats) : TxStats :=
  mkTxStats (wrap64 (send_syscalls st + 1)) (wrap64 (gso_segments st + n)).

(** [if let Some((d, seg, n)) = agg.finish() {..}] *)
Definition flush (g : GsoAggregator) (st : TxStats) : option (GsoAggregator * TxStats * list TxCall) :=
  '(g, seg) ← gso_finish g;
  Some (match seg with
        | None => (g, st, [])
        | Some seg => (g, count_segment seg.2 st, [send_segment (mss g) seg])
        end).

(** The body of [send_loop] for one batch. *)
Fixpoint send_batch (batch : list datagram) (g : GsoAggregator) (st : TxStats) : option (GsoAggregator * TxStats * list TxCall) :=
  match batch with
  | [] => flush g st
  | (d, bytes) :: batch' =>
      '(g, pushed) ← try_push d bytes g;
      if pushed : bool then send_batch batch' g st
      else
        '(g, st, c1) ← flush g st;
        '(g, st, c2) ← send_batch batch' g (count_call st);
        Some (g, st, c1 ++ SendTo d bytes :: c2)
  end.

(** ** What a segment holds *)

(** Full DATA packets of the message [id], one after the other from [off]. *)
Definition packet_run (ps id off : Z) (pkts : list (list Z)) : Prop :=
  ∀ i p, pkts !! i = Some p → zlen p = HEADER_LEN + ps ∧ vget p 0 = Some (to_u8 Data) ∧
    from_le <$> slice p 2 10 = Some id ∧ from_le <$> slice p 14 18 = Some (off + Z.of_nat i * ps).

Lemma packet_run_snoc ps id off pkts p : packet_run ps id off pkts → packet_run ps id (off + zlen pkts * ps) [p] →
  packet_run ps id off (pkts ++ [p]).
Proof.
  intros H1 H2 i q Hq. destruct (decide (i < length pkts)%nat) as [Hi|Hi].
  - rewrite lookup_app_l in Hq by done. by apply H1.
  - rewrite lookup_app_r in Hq by lia. apply list_lookup_singleton_Some in Hq as [Hi0 <-].
    destruct (H2 0%nat p eq_refl) as (? & ? & ? & E). split_and!; [done..|]. rewrite E. f_equal. assert (i = length pkts) as -> by lia. unfold zlen. lia.
Qed.

(** One packet is a run exactly if it is a full DATA packet. *)
Lemma packet_run_1 ps id off p : packet_run ps id off [p] ↔
  zlen p = HEADER_LEN + ps ∧ vget p 0 = Some (to_u8 Data) ∧
  from_le <$> slice p 2 10 = Some id ∧ from_le <$> slice p 14 18 = Some off.
Proof.
  split.
  - intros H. destruct (H 0%nat p eq_refl) as (? & ? & ? & ->). split_and!; [done..|]. f_equal. lia.
  - intros (? & ? & ? & E) i q [-> <-]%list_lookup_singleton_Some. split_and!; [done..|]. rewrite E. f_equal. lia.
Qed.

(** The segment under construction holds the packets [pkts]. *)
Definition holding (ps : Z) (pkts : list datagram) (g : GsoAggregator) : Prop :=
  mss g = HEADER_LEN + ps ∧ stride g = ps ∧ g_count g = zlen pkts ∧
  (pkts ≠ [] → ∃ d off, dest g = Some d ∧ pkts = pair d <$> pkts.*2 ∧ g_buf g = concat pkts.*2 ∧
     packet_run ps (g_msg_id g) off pkts.*2 ∧ next_offset g = off + zlen pkts * ps ∧
     (1 < zlen pkts → zlen (g_buf g) ≤ MAX_GSO_BYTES)).

Lemma holding_nil ps g : mss g = HEADER_LEN + ps → stride g = ps → g_count g = 0 → holding ps [] g.
Proof. intros. split_and!; try done. Qed.

(** What [flush] sends of it. *)
Definition held_calls (ps : Z) (pkts : list datagram) : list TxCall :=
  match pkts with
  | [] => []
  | [(d, b)] => [SendTo d b]
  | (d, _) :: _ => [SendMsg d (concat pkts.*2) (HEADER_LEN + ps)]
  end.

Definition held_stats (pkts : list datagram) (st : TxStats) : TxStats :=
  if zlen pkts =? 0 then st else count_segment (zlen pkts) st.

Lemma flush_ok ps pkts g st : holding ps pkts g →
  ∃ g', flush g st = Some (g', held_stats pkts st, held_calls ps pkts) ∧ holding ps [] g'.
Proof.
  intros (Hm & Hs & Hc & Hp). unfold flush, gso_finish, held_stats. rewrite Hc.
  destruct pkts as [|[d0 b0] pkts].
  { change (zlen (@nil datagram) =? 0) with true. cbn [mbind option_bind].
    eexists. split; [done|]. by apply holding_nil. }
  destruct (Hp ltac:(done)) as (d & off & Ed & Epk & Eb & _ & _ & _). pose proof (zlen_nonneg pkts).
  rewrite (proj2 (Z.eqb_neq _ _)) by (rewrite zlen_cons; lia). rewrite Ed. cbn [mbind option_bind].
  eexists. split; [cbn [snd]; do 3 f_equal|by apply holding_nil]. unfold send_segment. cbn [mss]. rewrite Eb, Hm.
  injection Epk as -> _. unfold held_calls. destruct pkts as [|x pkts].
  - cbn. by rewrite app_nil_r.
  - pose proof (zlen_nonneg pkts). rewrite (proj2 (Z.leb_gt _ _)) by (rewrite !zlen_cons; lia). done.
Qed.

(** [not_full_data] says whether a packet is no full DATA packet. *)
Lemma not_full_data_ok ps bytes g : 0 ≤ ps → mss g = HEADER_LEN + ps →
  ∃ nf, not_full_data bytes g = Some nf ∧
    (nf = false ↔ zlen bytes = HEADER_LEN + ps ∧ vget bytes 0 = Some (to_u8 Data)).
Proof.
  intros Hps Hm. unfold not_full_data. rewrite Hm. destruct (Z.eqb_spec (zlen bytes) (HEADER_LEN + ps)) as [E|E]; cbn [negb].
  - destruct (vget_lt_is_Some bytes 0) as [b0 E0]; [unfold HEADER_LEN in E; lia|]. rewrite E0. cbn [mbind option_bind]. eexists. split; [done|].
    rewrite negb_false_iff, Z.eqb_eq. split; [intros ->; done|intros [_ [= ->]]; done].
  - eexists. split; [done|]. split; [done|]. tauto.
Qed.

Lemma slice_full (bytes : list Z) a b :
  0 ≤ a ≤ b → b ≤ zlen bytes → ∃ l, slice bytes a b = Some l.
Proof. intros. rewrite slice_ok by done. eauto. Qed.

(** A packet that starts a segment. *)
Lemma gso_start_ok ps d bytes g : 0 ≤ ps → holding ps [] g →
  ∃ g' p, gso_start d bytes g = Some (g', p) ∧
    if p then holding ps [(d, bytes)] g' ∧ dest g' = Some d ∧ packet_run ps (g_msg_id g') (next_offset g' - ps) [bytes]
    else g' = g ∧ ∀ id off, ¬ packet_run ps id off [bytes].
Proof.
  intros Hps (Hm & Hs & _). unfold gso_start. destruct (not_full_data_ok ps bytes g Hps Hm) as (nf & -> & Hnf).
  cbn [mbind option_bind]. destruct nf.
  - do 2 eexists. split; [done|]. split; [done|]. intros id off (H1 & H2 & _)%packet_run_1.
    discriminate (proj2 Hnf (conj H1 H2)).
  - destruct (proj1 Hnf eq_refl) as [Hl Hd0]. unfold HEADER_LEN in Hl.
    destruct (slice_full bytes 2 10) as [l1 E1]; [lia|lia|]. destruct (slice_full bytes 14 18) as [l2 E2]; [lia|lia|].
    rewrite E1, E2. cbn [mbind option_bind]. do 2 eexists. split; [done|]. cbn beta iota.
    assert (packet_run ps (from_le l1) (from_le l2) [bytes]) as Hr.
    { apply packet_run_1. rewrite E1, E2. done. }
    split; [|split; [done|]].
    + split_and!; [done..|]. intros _. exists d, (from_le l2). cbn. rewrite app_nil_r, Hs.
      change (zlen [(d, bytes)]) with 1. split_and!; [done..|lia|lia].
    + cbn. rewrite Hs. by replace (from_le l2 + ps - ps) with (from_le l2) by lia.
Qed.

(** A packet that may join the segment under construction. *)
Definition joins (ps d : Z) (bytes : list Z) (g : GsoAggregator) : Prop :=
  dest g = Some d ∧ packet_run ps (g_msg_id g) (next_offset g) [bytes] ∧ zlen (g_buf g) + mss g ≤ MAX_GSO_BYTES.

Lemma can_append_ok ps pkts d bytes g : 0 ≤ ps → holding ps pkts g → pkts ≠ [] →
  ∃ c, can_append d bytes g = Some c ∧ (c = true ↔ joins ps d bytes g).
Proof.
  intros Hps (Hm & Hs & Hc & Hp) Hne. destruct (Hp Hne) as (d' & off & Ed & _). unfold can_append, joins.
  rewrite (proj2 (Z.eqb_neq (g_count g) 0)).
  2:{ rewrite Hc. destruct pkts as [|x pkts]; [done|]. rewrite zlen_cons. pose proof (zlen_nonneg pkts). lia. }
  destruct (not_full_data_ok ps bytes g Hps Hm) as (nf & -> & Hnf). cbn [mbind option_bind].
  destruct nf; [eexists; split; [done|]; split; [done|]; intros (_ & (H1 & H2 & _)%packet_run_1 & _);
    discriminate (proj2 Hnf (conj H1 H2))|].
  destruct (proj1 Hnf eq_refl) as [Hl Hd0]. rewrite Ed. unfold HEADER_LEN in Hl.
  destruct (slice_full bytes 2 10) as [l1 E1]; [lia|lia|]. destruct (slice_full bytes 14 18) as [l2 E2]; [lia|lia|].
  rewrite E1, E2. cbn [mbind option_bind]. eexists. split; [done|].
  rewrite !andb_true_iff, !Z.eqb_eq, Z.leb_le. split.
  - intros [[[-> Hid] Hoff] ?]. split_and!; [done| |done]. apply packet_run_1. rewrite E1, E2, Hid, Hoff. done.
  - intros ([= ->] & (_ & _ & Hid & Hoff)%packet_run_1 & ?). rewrite E1 in Hid. rewrite E2 in Hoff.
    injection Hid as <-. injection Hoff as <-. done.
Qed.

Lemma append_ok ps pkts d bytes g : holding ps pkts g → pkts ≠ [] → joins ps d bytes g →
  holding ps (pkts ++ [(d, bytes)]) (append bytes g).
Proof.
  intros (Hm & Hs & Hc & Hp) Hne (Hd & Hr & Hmax). destruct (Hp Hne) as (d' & off & Ed & Epk & Eb & Hrun & Hoff & _).
  rewrite Hd in Ed. injection Ed as <-. split_and!; [done..| |].
  - cbn. rewrite zlen_app, zlen_cons, zlen_nil. lia.
  - intros _. exists d, off. cbn. rewrite fmap_app, concat_app, fmap_app. cbn. rewrite app_nil_r.
    split_and!; [done|by rewrite Epk at 1|by rewrite Eb| | |].
    + apply packet_run_snoc; [done|]. unfold zlen in *. rewrite length_fmap. by rewrite <-Hoff.
    + rewrite Hoff, Hs, zlen_app, zlen_cons, zlen_nil. lia.
    + intros _. apply packet_run_1 in Hr as (Hl & _). rewrite zlen_app. lia.
Qed.

(** What [try_push] does: it takes a packet exactly if it may join, or
    starts a segment. *)
Lemma try_push_ok ps pkts d bytes g : 0 ≤ ps → holding ps pkts g →
  ∃ g' p, try_push d bytes g = Some (g', p) ∧
    (if p then holding ps (pkts ++ [(d, bytes)]) g' else g' = g) ∧
    (pkts = [] → (∃ id off, packet_run ps id off [bytes]) → p = true) ∧
    (pkts ≠ [] → joins ps d bytes g → p = true).
Proof.
  intros Hps H. unfold try_push. destruct (decide (pkts = [])) as [->|Hne].
  - assert (g_count g = 0) as E0 by apply H. unfold can_append. rewrite E0. cbn [Z.eqb mbind option_bind].
    destruct (gso_start_ok ps d bytes g Hps H) as (g' & p & -> & Hp). exists g', p.
    destruct p; split_and!; try done; [apply Hp|apply Hp|]. intros _ (id & off & Hr). by destruct (proj2 Hp id off).
  - destruct (can_append_ok ps pkts d bytes g Hps H Hne) as (c & -> & Hc). cbn [mbind option_bind]. destruct c.
    + exists (append bytes g), true. split_and!; try done. apply append_ok; [done..|]. by apply Hc.
    + rewrite (proj2 (Z.eqb_neq (g_count g) 0)).
      2:{ destruct H as (_ & _ & -> & _). destruct pkts as [|x pkts]; [done|]. rewrite zlen_cons.
          pose proof (zlen_nonneg pkts). lia. }
      exists g, false. split_and!; try done. intros _ Hj. by apply Hc in Hj.
Qed.

(** ** A batch *)

(** The most the kernel takes in one segment. *)
Definition SEGMENT_LIMIT : Z := 65536.

(** What the kernel makes of a segment to be cut at [size]: packets of that
    size come out as they went in if the segment is within the limit; a
    longer segment is refused, and nothing is sent. *)
Class UdpKernel := {
  kernel_cut : Z → list Z → list (list Z);
  kernel_cut_packets size pkts : 0 < size → Forall (λ p, zlen p = size) pkts →
    zlen (concat pkts) ≤ SEGMENT_LIMIT → kernel_cut size (concat pkts) = pkts;
  kernel_cut_refuses size seg : SEGMENT_LIMIT < zlen seg → kernel_cut size seg = []
}.

Section Wire.
Context `{K : UdpKernel}.

(** The datagrams a call puts on the wire. *)
Definition wire (c : TxCall) : list datagram :=
  match c with SendTo d bytes => [(d, bytes)] | SendMsg d seg size => pair d <$> kernel_cut size seg end.

(** The rule for segments of [gso.rs]: at least two full packets of one
    message, one after the other, to be cut between them, and no more than
    [MAX_GSO_BYTES]. *)
Definition call_ok (ps : Z) (c : TxCall) : Prop :=
  match c with
  | SendTo _ _ => True
  | SendMsg d seg size => size = HEADER_LEN + ps ∧ zlen seg ≤ MAX_GSO_BYTES ∧
      ∃ id off pkts, seg = concat pkts ∧ 2 ≤ zlen pkts ∧ packet_run ps id off pkts
  end.

Lemma held_calls_ok ps pkts g : 0 ≤ ps → holding ps pkts g →
  held_calls ps pkts ≫= wire = pkts ∧ Forall (call_ok ps) (held_calls ps pkts).
Proof.
  intros Hps (Hm & _ & _ & Hp). destruct pkts as [|[d0 b0] [|x pkts]]; [done|split; [done|by repeat constructor]|].
  set (l := (d0, b0) :: x :: pkts) in *. destruct (Hp ltac:(done)) as (d & off & _ & El & Eb & Hrun & _ & Hmax).
  assert (2 ≤ zlen l) as Hl by (subst l; rewrite !zlen_cons; pose proof (zlen_nonneg pkts); lia).
  rewrite Eb in Hmax. specialize (Hmax ltac:(lia)).
  assert (held_calls ps l = [SendMsg d (concat l.*2) (HEADER_LEN + ps)]) as ->.
  { subst l. cbn in El. injection El as -> _ _. done. }
  split.
  - change ((pair d <$> kernel_cut (HEADER_LEN + ps) (concat l.*2)) ++ [] = l).
    rewrite app_nil_r, kernel_cut_packets; [done|unfold HEADER_LEN; lia| |exact Hmax].
    apply Forall_lookup. intros i b Hi. by apply (Hrun i).
  - repeat constructor; [done|]. exists (g_msg_id g), off, l.*2. split_and!; [done| |done].
    unfold zlen in *. by rewrite length_fmap.
Qed.

(** Counting modulo [2 ^ 64]. *)
Lemma wrap64_add_l x y : wrap64 (wrap64 x + y) = wrap64 (x + y).
Proof. unfold wrap64. by rewrite Zplus_mod_idemp_l. Qed.

Lemma wrap64_twice x : wrap64 (wrap64 x) = wrap64 x.
Proof. unfold wrap64. by rewrite Zmod_mod. Qed.

Lemma held_stats_calls ps pkts st :
  wrap64 (send_syscalls (held_stats pkts st)) = wrap64 (send_syscalls st + zlen (held_calls ps pkts)).
Proof.
  unfold held_stats. destruct pkts as [|[d b] [|x pkts]].
  - by rewrite Z.add_0_r.
  - apply wrap64_twice.
  - pose proof (zlen_nonneg pkts). rewrite (proj2 (Z.eqb_neq _ _)) by (rewrite !zlen_cons; lia).
    apply wrap64_twice.
Qed.

Lemma send_batch_ok ps batch : ∀ pkts g st,
  0 ≤ ps → holding ps pkts g →
  ∃ g' st' calls, send_batch batch g st = Some (g', st', calls) ∧ calls ≫= wire = pkts ++ batch ∧
    Forall (call_ok ps) calls ∧ holding ps [] g' ∧
    wrap64 (send_syscalls st') = wrap64 (send_syscalls st + zlen calls).
Proof.
  induction batch as [|[d bytes] batch IH]; intros pkts g st Hps H; cbn [send_batch];
    destruct (held_calls_ok ps pkts g Hps H) as [Hw Hok]; destruct (flush_ok ps pkts g st H) as (g1 & Ef & H1);
    pose proof (held_stats_calls ps pkts st) as Hst.
  { exists g1, (held_stats pkts st), (held_calls ps pkts). rewrite app_nil_r. done. }
  destruct (try_push_ok ps pkts d bytes g Hps H) as (g2 & p & -> & Hp & _). cbn [mbind option_bind].
  destruct p.
  - destruct (IH _ _ st Hps Hp) as (g3 & st3 & calls & E & Ew & ?). exists g3, st3, calls. rewrite <-app_assoc in Ew. done.
  - subst g2. rewrite Ef. cbn [mbind option_bind].
    destruct (IH _ _ (count_call (held_stats pkts st)) Hps H1) as (g3 & st3 & calls & -> & Ew & Hc & H3 & Hn).
    cbn [mbind option_bind]. do 3 eexists. split; [done|].
    split_and!; [rewrite bind_app, Hw; cbn; by rewrite Ew|apply Forall_app; split; [done|by constructor]|done|].
    rewrite Hn. cbn [count_call send_syscalls]. rewrite wrap64_add_l, zlen_app, zlen_cons.
    rewrite <-Z.add_assoc, <-wrap64_add_l, Hst, wrap64_add_l. f_equal. lia.
Qed.

(** ** A run goes in one call *)

Lemma packet_run_head ps id off id' off' p pkts q pkts' : packet_run ps id off (p :: pkts) →
  packet_run ps id' off' (q :: pkts') → p = q → id = id' ∧ off = off'.
Proof.
  intros H H' <-. destruct (H 0%nat p eq_refl) as (_ & _ & E1 & E2). destruct (H' 0%nat p eq_refl) as (_ & _ & E3 & E4).
  rewrite E1 in E3. rewrite E2 in E4. injection E3. injection E4. lia.
Qed.

Lemma packet_run_last ps id off pkts p l : packet_run ps id off (pkts ++ p :: l) →
  packet_run ps id (off + zlen pkts * ps) [p].
Proof.
  intros H. apply packet_run_1. destruct (H (length pkts) p) as (? & ? & ? & E); [by rewrite list_lookup_middle|].
  split_and!; [done..|]. rewrite E. done.
Qed.

Lemma send_run ps d id off batch : ∀ pkts g st,
  0 ≤ ps → holding ps pkts g → pkts ++ batch = pair d <$> (pkts ++ batch).*2 →
  packet_run ps id off (pkts ++ batch).*2 → zlen (concat (pkts ++ batch).*2) ≤ MAX_GSO_BYTES →
  ∃ g' st', send_batch batch g st = Some (g', st', held_calls ps (pkts ++ batch)).
Proof.
  induction batch as [|[d1 bytes] batch IH]; intros pkts g st Hps H Hd Hrun Hmax; cbn [send_batch].
  { rewrite app_nil_r. destruct (flush_ok ps pkts g st H) as (g1 & -> & _). eauto. }
  assert (d1 = d) as ->.
  { assert ((pkts ++ (d1, bytes) :: batch) !! length pkts = Some (d1, bytes)) as E by by rewrite list_lookup_middle.
    rewrite Hd, list_lookup_fmap, list_lookup_fmap, list_lookup_middle in E by done. by injection E. }
  rewrite fmap_app in Hrun. cbn in Hrun. pose proof (packet_run_last _ _ _ _ _ _ Hrun) as Hlast.
  destruct (try_push_ok ps pkts d bytes g Hps H) as (g2 & p & -> & Hp & Hstart & Hjoin). cbn [mbind option_bind].
  assert (p = true) as ->.
  { destruct (decide (pkts = [])) as [->|Hne]; [apply Hstart; eauto|]. apply Hjoin; [done|].
    destruct H as (Hm & Hs & Hc & Hh). destruct (Hh Hne) as (d' & off' & Ed & Epk & Eb & Hrun' & Hoff & _).
    destruct pkts as [|[d0 b0] pkts]; [done|]. cbn in Hrun, Hrun'.
    destruct (packet_run_head _ _ _ _ _ _ _ _ _ Hrun Hrun' eq_refl) as [-> ->].
    cbn in Hd, Epk. injection Hd as Hd0 _. injection Epk as Epk _. split_and!; [congruence| |].
    - rewrite Hoff. unfold zlen in *. cbn in Hlast |- *. by rewrite length_fmap in Hlast.
    - rewrite Eb, Hm. apply packet_run_1 in Hlast as (Hl & _).
      rewrite fmap_app, concat_app, zlen_app in Hmax. cbn in Hmax |- *. rewrite (zlen_app bytes) in Hmax.
      pose proof (zlen_nonneg (concat batch.*2)). lia. }
  replace (pkts ++ (d, bytes) :: batch) with ((pkts ++ [(d, bytes)]) ++ batch) in * by (by rewrite <-app_assoc).
  eapply IH; [done..| |done]. by rewrite <-app_assoc, fmap_app.
Qed.

(** [C28] Segmentation offload is transparent: whatever batch the send loop
    takes from the queues, the datagrams its system calls put on the wire are
    those of the batch, unchanged and in the same order, and the aggregator
    is empty again at the end.  Every segment consists of at least two full
    DATA packets of one message to one address, one after the other, is cut
    exactly between them and stays within [MAX_GSO_BYTES], without which the
    kernel would send nothing of it; every call is counted.  And a batch that
    is one such run goes out in a single call. *)
Theorem gso_transparent ps batch st : 0 ≤ ps →
  ∃ g st' calls, send_batch batch (gso_new ps) st = Some (g, st', calls) ∧
    calls ≫= wire = batch ∧ Forall (call_ok ps) calls ∧ g_count g = 0 ∧
    wrap64 (send_syscalls st') = wrap64 (send_syscalls st + zlen calls) ∧
    ∀ d id off, batch = pair d <$> batch.*2 → packet_run ps id off batch.*2 → 2 ≤ zlen batch →
      zlen (concat batch.*2) ≤ MAX_GSO_BYTES → calls = [SendMsg d (concat batch.*2) (HEADER_LEN + ps)].
Proof.
  intros Hps. assert (holding ps [] (gso_new ps)) as H0 by by apply holding_nil.
  destruct (send_batch_ok ps batch [] (gso_new ps) st Hps H0) as (g & st' & calls & E & Ew & Hok & H & Hn).
  exists g, st', calls. split_and!; [done..|apply H|done|]. intros d id off Hd Hrun H2 Hmax.
  destruct (send_run ps d id off batch [] (gso_new ps) st Hps H0 Hd Hrun Hmax) as (g1 & st1 & E1).
  rewrite E in E1. injection E1 as _ _ ->. destruct batch as [|[d0 b0] [|x batch]]; [done..|].
  cbn in Hd. by injection Hd as -> _ _.
Qed.

End Wire.

(** A kernel that cuts every [size] bytes. *)
Fixpoint cut_every (fuel size : nat) (l : list Z) : list (list Z) :=
  match fuel, l with
  | O, _ => []
  | _, [] => []
  | S fuel', _ => take size l :: cut_every fuel' size (drop size l)
  end.

Definition ex_cut (size : Z) (l : list Z) : list (list Z) :=
  if SEGMENT_LIMIT <? zlen l then [] else cut_every (length l) (Z.to_nat size) l.

Lemma ex_cut_packets size pkts :
  0 < size → Forall (λ p, zlen p = size) pkts → zlen (concat pkts) ≤ SEGMENT_LIMIT → ex_cut size (concat pkts) = pkts.
Proof.
  intros Hs H Hl. unfold ex_cut. rewrite (proj2 (Z.ltb_ge _ _)) by done. clear Hl.
  assert (Hf : ∀ fuel, (length (concat pkts) ≤ fuel)%nat → cut_every fuel (Z.to_nat size) (concat pkts) = pkts).
  { induction H as [|p pkts Hp _ IH]; intros fuel Hf; [by destruct fuel|].
    assert (Hl : length p = Z.to_nat size) by (unfold zlen in Hp; lia).
    simpl in Hf. rewrite length_app in Hf. destruct fuel as [|fuel]; [lia|]. simpl.
    destruct (p ++ concat pkts) eqn:E; [apply app_eq_nil in E as [-> _]; simpl in Hl; lia|].
    rewrite <-E, <-Hl, take_app_length, drop_app_length. f_equal. rewrite Hl. apply IH. lia. }
  apply Hf. done.
Qed.

Lemma ex_cut_refuses size seg : SEGMENT_LIMIT < zlen seg → ex_cut size seg = [].
Proof. intros H. unfold ex_cut. by rewrite (proj2 (Z.ltb_lt _ _)). Qed.

Definition ex_kernel : UdpKernel :=
  {| kernel_cut := ex_cut; kernel_cut_packets := ex_cut_packets; kernel_cut_refuses := ex_cut_refuses |}.

Definition ex_gso_batch : list datagram :=
  [(9, encode (mkPkt Data 0 1 4 0 2) [5; 6]); (9, encode (mkPkt Data 0 1 4 2 2) [7; 8]);
   (9, encode (mkPkt Data 0 2 4 0 2) [1; 2]); (9, encode (mkPkt Data 0 2 4 2 2) [3; 4])].

(** Two messages: the first goes as a segment, the first packet of the
    second ends it. *)
Lemma gso_transparent_witness :
  ∃ g st' calls, send_batch ex_gso_batch (gso_new 2) (mkTxStats 0 0) = Some (g, st', calls) ∧
    calls ≫= wire (K := ex_kernel) = ex_gso_batch ∧ st' = mkTxStats 3 3 ∧
    (λ c, match c with SendTo _ b => zlen b | SendMsg _ seg _ => zlen seg end) <$> calls = [48; 24; 24].
Proof.
  destruct (@gso_transparent ex_kernel 2 ex_gso_batch (mkTxStats 0 0)) as (g & st' & calls & E & Ew & _); [lia|].
  exists g, st', calls. split; [exact E|]. split; [exact Ew|]. vm_compute in E. injection E as _ <- <-. split; reflexivity.
Defined.
