(* ===== verification/HomaTransport.v ===== *)
(** * The Homa transport: the two cores behind one lock

    Models the state machine part of
    [crates/homa-rpc/src/transport/mod.rs]: the shared state, the handling
    of received datagrams ([process_batch]), the dispatch of the actions of
    the cores ([drain]), the periodic tick of the IO loop and the queue of
    delivered messages.  Sockets, threads, condition variables and the debug
    counters are not modelled; the clock is an argument. *)

From S2P Require Import Prelude Bytes HomaPacket HomaSender HomaReceiver HomaTxQueue.

Record State := mkState {
  st_sender : SenderCore;
  st_receiver : ReceiverCore;
  st_completed : list (Z * list Z)
}.

Definition state_new (cfg : TransportConfig) : State := mkState (sender_new cfg) (receiver_new cfg) [].

(** Deliveries go to the completed queue, packets to the send queues. *)
Fixpoint drain (actions : list Action) (st : State) (tx : TxInner) : option (State * TxInner) :=
  match actions with
  | [] => Some (st, tx)
  | Deliver src _ data :: rest =>
      drain rest (mkState (st_sender st) (st_receiver st) (st_completed st ++ [(src, data)])) tx
  | Send dest bytes :: rest =>
      tx ← tx_push dest bytes tx;
      drain rest st tx
  end.

Section Transport.
Context `{!HashOrder MsgKey InMsg} `{!HashOrder MsgKey OutMsg}.

(** One datagram of a batch. *)
Definition process_datagram (src now : Z) (chunk : list Z) (st : State) : option (State * list Action) :=
  decoded ← decode chunk;
  match decoded with
  | inl _ => Some (st, [])
  | inr (pkt, payload) =>
      match typ pkt with
      | Data =>
          '(r, a) ← handle_data src pkt payload now (st_receiver st);
          Some (mkState (st_sender st) r (st_completed st), a)
      | Grant =>
          '(s, a) ← handle_grant src pkt now (st_sender st);
          Some (mkState s (st_receiver st) (st_completed st), a)
      | Resend =>
          '(s, a) ← handle_resend src pkt now (st_sender st);
          Some (mkState s (st_receiver st) (st_completed st), a)
      | Busy => Some (mkState (handle_busy src pkt now (st_sender st)) (st_receiver st) (st_completed st), [])
      end
  end.

(** [while off < data.len() { ... off += stride; }], on the bytes left.  A
    turn takes at least one byte, so the length of the data is fuel enough. *)
Fixpoint process_chunks (fuel : nat) (src now : Z) (data : list Z) (stride : Z) (st : State)
    : option (State * list Action) :=
  match fuel with
  | O => Some (st, [])
  | S fuel' =>
      if zlen data =? 0 then Some (st, []) else
      let step := Z.min stride (zlen data) in
      '(st, a) ← process_datagram src now (take (Z.to_nat step) data) st;
      '(st, b) ← process_chunks fuel' src now (drop (Z.to_nat stride) data) stride st;
      Some (st, a ++ b)
  end.

Definition process_batch (src now : Z) (data : list Z) (stride : Z) (st : State) (tx : TxInner)
    : option (State * TxInner) :=
  let stride := if stride =? 0 then zlen data else stride in
  '(st, actions) ← process_chunks (length data) src now data stride st;
  drain actions st tx.

(** The tick of [io_loop]. *)
Definition transport_tick (now : Z) (st : State) (tx : TxInner) : option (State * TxInner) :=
  '(s, a) ← sender_tick now (st_sender st);
  '(r, b) ← receiver_tick now (st_receiver st);
  drain (a ++ b) (mkState s r (st_completed st)) tx.

(** The part of [send_impl] under the lock: the retransmission window is
    open only to messages within the unscheduled window. *)
Definition send_start (dest msg_id : Z) (data : list Z) (now : Z) (retransmit : bool) (st : State)
    : option (State * list Action) :=
  let retransmit := retransmit && (zlen data <=? unscheduled_bytes (s_cfg (st_sender st))) in
  '(s, a) ← (if retransmit then start_retransmit dest msg_id data now (st_sender st)
             else start dest msg_id data now (st_sender st));
  Some (mkState s (st_receiver st) (st_completed st), a).

(** [recv]: the oldest delivered message, or the caller waits. *)
Definition recv (st : State) : State * option (Z * list Z) :=
  match st_completed st with
  | [] => (st, None)
  | m :: rest => (mkState (st_sender st) (st_receiver st) rest, Some m)
  end.

Definition transport_confirm (dest msg_id : Z) (st : State) : State :=
  mkState (confirm dest msg_id (st_sender st)) (st_receiver st) (st_completed st).

Definition transport_finish (dest msg_id : Z) (st : State) : State :=
  mkState (finish dest msg_id (st_sender st)) (st_receiver st) (st_completed st).

(** Datagrams from one sender, each received on its own at its time. *)
Fixpoint arrive (src : Z) (l : list (Z * list Z)) (st : State) (tx : TxInner) : option (State * TxInner) :=
  match l with
  | [] => Some (st, tx)
  | (now, bytes) :: l' =>
      '(st, tx) ← process_batch src now bytes (zlen bytes) st tx;
      arrive src l' st tx
  end.

(** ** One datagram, one batch *)

Lemma process_batch_single src now bytes st tx :
  bytes ≠ [] →
  process_batch src now bytes (zlen bytes) st tx =
    ('(st, a) ← process_datagram src now bytes st; drain a st tx).
Proof.
  intros Hne. unfold process_batch.
  assert (Hl : 0 < zlen bytes) by (unfold zlen; destruct bytes; [done|simpl; lia]).
  rewrite (proj2 (Z.eqb_neq _ _)) by lia.
  destruct bytes as [|b bytes'] eqn:E; [done|]. rewrite <-E in *.
  replace (length bytes) with (S (length bytes')) by (by subst). cbn [process_chunks].
  rewrite (proj2 (Z.eqb_neq _ _)) by lia. rewrite Z.min_id.
  rewrite take_ge, drop_ge by (unfold zlen in *; lia).
  destruct (process_datagram src now bytes st) as [[st' a]|]; [|done]. cbn [mbind option_bind].
  assert (Ec : process_chunks (length bytes') src now [] (zlen bytes) st' = Some (st', [])) by (by destruct (length bytes')).
  rewrite Ec. cbn [mbind option_bind]. by rewrite app_nil_r.
Qed.

(** Draining control packets reaches the end and leaves the state alone. *)
Lemma drain_control acts : ∀ st tx,
  Forall is_send acts → ∃ tx', drain acts st tx = Some (st, tx').
Proof.
  induction acts as [|a acts IH]; intros st tx Hs; [by eexists|].
  apply Forall_cons in Hs as [Ha Hs]. destruct a as [d b|]; [|done].
  destruct Ha as (t & prio & mid & off & len & Ht & ->). cbn [drain].
  assert (E : tx_push d (control_packet t prio mid off len) tx =
    Some (mkTx (control tx ++ [(d, control_packet t prio mid off len)]) (queues tx))).
  { unfold tx_push, control_packet. rewrite zlen_encode.
    change (2 <=? HEADER_LEN + zlen (@nil Z)) with true. cbn iota.
    change (vget (encode (mkPkt t prio mid 0 off len) []) 0) with (Some (to_u8 t)). cbn [mbind option_bind].
    destruct t; [done|reflexivity..]. }
  rewrite E. cbn [mbind option_bind]. by apply IH.
Qed.

(** ** A short message from end to end *)

Section EndToEnd.
Context (cfg : TransportConfig) (src mid : Z) (D : list Z).
Context (Hps : 0 < packet_size cfg) (Hmax : 1 ≤ max_incoming cfg).
Context (HD : 0 < zlen D ≤ MAX_MSG_LEN) (Hmid : is_u64 mid).

Definition chunk_datagram (i : Z) : list Z :=
  encode (data_header D mid (i * packet_size cfg) (Z.min (i * packet_size cfg + packet_size cfg) (zlen D)))
    (sub D (i * packet_size cfg) (Z.min (i * packet_size cfg + packet_size cfg) (zlen D))).

Definition valid_index (i : Z) : Prop := 0 ≤ i ∧ i * packet_size cfg < zlen D.

(** The chunks with an index in [I] have arrived: the message is delivered,
    or nothing came yet, or it is in reassembly with those chunks marked. *)
Definition arrived (I : list Z) (st : State) : Prop :=
  r_ok {[(src, mid) := D]} (st_receiver st) ∧ r_cfg (st_receiver st) = cfg ∧
  (((src, mid) ∈ completed (st_receiver st) ∧ st_completed st = [(src, D)]) ∨
   ((src, mid) ∉ completed (st_receiver st) ∧ completed_order (st_receiver st) = [] ∧ st_completed st = [] ∧
    ((I = [] ∧ incoming (st_receiver st) = ∅) ∨
     ∃ m, incoming (st_receiver st) !! (src, mid) = Some m ∧
       ∀ i, i ∈ I → valid_index i → vget (received m) i = Some true))).

Lemma chunk_datagram_decode i :
  valid_index i →
  decode (chunk_datagram i) = Some (inr (mkPkt Data (priority_for_len (zlen D)) mid (zlen D) (i * packet_size cfg)
    (Z.min (i * packet_size cfg + packet_size cfg) (zlen D) - i * packet_size cfg), chunk D (packet_size cfg) i)).
Proof.
  intros [Hi Hi']. unfold chunk_datagram. rewrite decode_data; [done|nia|lia| |done].
  assert (MAX_MSG_LEN ≤ u32_max) by by_eval. lia.
Qed.

Lemma chunk_datagram_inj i j :
  valid_index i → valid_index j → chunk_datagram i = chunk_datagram j → i = j.
Proof.
  intros Hi Hj E. pose proof (chunk_datagram_decode i Hi) as H1. rewrite E, chunk_datagram_decode in H1 by done.
  injection H1 as H1 _ _. nia.
Qed.

Lemma arrived_new : arrived [] (state_new cfg).
Proof.
  split; [split; [done|intros k m; cbn; by rewrite lookup_empty]|]. split; [done|]. right.
  split; [set_solver|]. split; [done|]. split; [done|]. by left.
Qed.

Lemma arrived_step now i I st tx :
  valid_index i → arrived I st →
  ∃ st' tx', process_batch src now (chunk_datagram i) (zlen (chunk_datagram i)) st tx = Some (st', tx') ∧
    arrived (i :: I) st'.
Proof.
  intros Hi (Hr & Ec & Hcase). rewrite process_batch_single by done.
  unfold process_datagram. rewrite chunk_datagram_decode by done. cbn [mbind option_bind typ].
  set (pkt := mkPkt Data _ _ _ _ _).
  assert (Hh : honest {[(src, mid) := D]} (packet_size (r_cfg (st_receiver st))) src pkt (chunk D (packet_size cfg) i) D i).
  { rewrite Ec. split_and!; cbn; try apply Hi; try lia; try done. apply lookup_singleton_eq. }
  destruct (handle_data_cases _ _ src pkt _ now D i Hr Hh) as (r' & acts & E & Hr' & Hout).
  rewrite E. cbn [mbind option_bind]. change (msg_id pkt) with mid in Hout.
  destruct Hout as [(Hc & -> & ->)|[(Hc & Hn & Hs & -> & Ha)|(Hc & m0 & m1 & Hcur & Hok1 & Erec & Hout)]].
  - do 2 eexists. split; [done|]. split; [done|]. split; [done|]. left. by destruct Hcase as [[_ ?]|[? _]].
  - exfalso. destruct Hcase as [[? _]|(_ & _ & _ & [[_ He]|(m & Hm & _)])]; [done| |congruence].
    rewrite He, map_size_empty, Ec in Hs. lia.
  - destruct Hcase as [[? _]|(_ & Ho & Hq & Hprog)]; [done|].
    destruct (complete_msg m1) eqn:Ecm.
    + destruct Hout as (sends & -> & Hs & F). cbn [drain].
      destruct (drain_control sends (mkState (st_sender st) r' (st_completed st ++ [(src, D)])) tx Hs) as [tx' Ed].
      cbn [st_sender st_receiver st_completed]. do 2 eexists. split; [exact Ed|].
      pose proof F as (Fc & Fd & _). cbn [st_receiver st_completed].
      assert (Hdl : (deliver (src, mid) src D (st_receiver st)).1 =
        mkReceiver (r_cfg (st_receiver st)) (delete (src, mid) (incoming (st_receiver st)))
          (filter (λ k, k ≠ (src, mid)) (granting (st_receiver st))) ({[(src, mid)]} ∪ completed (st_receiver st))
          [(src, mid)] (starve_queue (st_receiver st))).
      { unfold deliver. by rewrite Ho. }
      rewrite Hdl in Fc, Fd. cbn in Fc, Fd. split; [done|]. split; [cbn; congruence|]. left. cbn. rewrite Fd, Hq.
      split; [set_solver|done].
    + destruct Hout as [Hs F]. cbn [st_sender st_receiver st_completed].
      destruct (drain_control acts (mkState (st_sender st) r' (st_completed st)) tx Hs) as [tx' Ed].
      do 2 eexists. split; [exact Ed|]. pose proof F as (Fc & Fd & Fo & Fi). cbn in Fc, Fd, Fo.
      split; [done|]. split; [cbn; congruence|]. right. cbn. rewrite Fd, Fo.
      split; [done|]. split; [done|]. split; [done|]. right.
      assert (Hm' : (core <$> incoming r') !! (src, mid) = Some (core m1)).
      { rewrite Fi. cbn. by rewrite fmap_insert, lookup_insert_eq. }
      rewrite lookup_fmap in Hm'. apply fmap_Some in Hm' as (m' & Hm' & Ecore). exists m'. split; [done|].
      assert (Er : received m' = <[Z.to_nat i := true]> (received m0)).
      { rewrite <-Erec. unfold core in Ecore. congruence. }
      intros j Hj [Hj0 Hj']. rewrite Er.
      assert (Hlen : 0 ≤ j < zlen (received m0)).
      { destruct Hok1 as [_ _ Hch _ _]. rewrite Erec, zlen_insert, Ec in Hch.
        destruct (chunk_count_bounds _ _ _ Hps (proj1 HD) Hch) as [? _]. nia. }
      unfold vget. rewrite (proj2 (Z.leb_le 0 j)) by lia. unfold zlen in Hlen.
      destruct (decide (j = i)) as [->|Hne]; [apply list_lookup_insert_eq; lia|].
      destruct Hi as [Hi0 _]. rewrite list_lookup_insert_ne by lia.
      apply elem_of_cons in Hj as [->|Hj]; [done|].
      destruct Hprog as [[-> _]|(m & Hm & Hall)]; [set_solver|].
      destruct Hcur as [Hcur|[Hcur _]]; [|congruence]. rewrite Hm in Hcur. injection Hcur as <-.
      specialize (Hall j Hj ltac:(done)). by apply vget_Some in Hall as [_ ?].
Qed.

Lemma arrived_all l : ∀ I st tx,
  (∀ x, x ∈ l → ∃ i, valid_index i ∧ x.2 = chunk_datagram i) → arrived I st →
  ∃ st' tx' J, arrive src l st tx = Some (st', tx') ∧ arrived J st' ∧ I ⊆ J ∧
    ∀ i, chunk_datagram i ∈ l.*2 → valid_index i → i ∈ J.
Proof.
  induction l as [|[now bytes] l IH]; intros I st tx Hl Ha.
  { exists st, tx, I. split; [done|]. split; [done|]. split; [done|]. set_solver. }
  destruct (Hl (now, bytes)) as (i & Hi & E); [by left|]. simpl in E. subst bytes.
  destruct (arrived_step now i I st tx Hi Ha) as (st1 & tx1 & E1 & Ha1).
  destruct (IH (i :: I) st1 tx1) as (st2 & tx2 & J & E2 & Ha2 & Hsub & Hin); [by intros; apply Hl; right|done|].
  exists st2, tx2, J. split; [cbn [arrive]; rewrite E1; exact E2|]. split; [done|]. split; [set_solver|].
  intros j Hj Hvj. rewrite fmap_cons, elem_of_cons in Hj. destruct Hj as [Hj|Hj].
  - apply chunk_datagram_inj in Hj as ->; [|done..]. set_solver.
  - by apply Hin.
Qed.

Lemma arrived_delivered I st :
  arrived I st → (∀ i, valid_index i → i ∈ I) → st_completed st = [(src, D)].
Proof.
  intros ([_ Hr] & Ec & [[_ ?]|(_ & _ & _ & Hprog)]) Hall; [done|].
  assert (H0 : valid_index 0) by (split; lia).
  destruct Hprog as [[-> _]|(m & Hm & Hrec)]; [by apply Hall in H0; apply not_elem_of_nil in H0|].
  destruct (Hr _ _ Hm) as (D' & HD' & _ & [Ht _ Hch _ Hsum] & Hcm).
  rewrite lookup_singleton_eq in HD'. injection HD' as <-. rewrite Ec in *.
  destruct (recv_sum_complete _ _ _ _ Hps (proj1 HD) Hch Hsum) as [_ [_ Hfull]].
  destruct (chunk_count_bounds _ _ _ Hps (proj1 HD) Hch) as [Hb _].
  unfold complete_msg in Hcm. rewrite Ht, Hfull, Z.eqb_refl in Hcm; [done|].
  apply Forall_forall. intros b [k Hk]%list_elem_of_lookup_1.
  pose proof (lookup_lt_Some _ _ _ Hk). assert (Hv : valid_index (Z.of_nat k)).
  { split; [lia|]. unfold zlen in *. nia. }
  specialize (Hrec _ (Hall _ Hv) Hv). apply vget_Some in Hrec as [_ Hrec]. rewrite Nat2Z.id in Hrec. congruence.
Qed.

End EndToEnd.

(** [C4] A short message from end to end: a sender starts a message of at
    most the unscheduled window; its datagrams travel through a network that
    may reorder and duplicate them at will but loses none of them for good,
    to a fresh peer with the same configuration.  The peer then has exactly
    that message in its queue, once, byte for byte. *)
Theorem short_message_end_to_end cfg src dest mid D now rt s s' acts arrivals tx :
  s_cfg s = cfg → sender_ok s → 1 ≤ max_incoming cfg →
  0 < zlen D ≤ MAX_MSG_LEN → zlen D ≤ unscheduled_bytes cfg → is_u64 mid →
  start_inner dest mid D now rt s = Some (s', acts) →
  (∀ b, Send dest b ∈ acts ↔ b ∈ arrivals.*2) →
  ∃ st' tx', arrive src arrivals (state_new cfg) tx = Some (st', tx') ∧ st_completed st' = [(src, D)].
Proof.
  intros <- Hok Hmax HD Hu Hmid E Harr. pose proof Hok as (Hps & _ & _).
  destruct (start_ok dest mid D now rt s Hok) as (m & acts' & E' & Hm & Hd & Hc & Hn & _).
  rewrite E in E'. injection E' as _ <-.
  assert (Hend : next_send m = zlen D) by (destruct Hm as [H1 _ _ _]; rewrite Hd in H1; lia).
  destruct (chunks_aligned _ _ _ _ _ _ Hc Hps (Z.divide_0_r _)) as [Hal Hcov]. specialize (Hcov Hend).
  destruct (arrived_all (s_cfg s) src mid D Hps Hmax HD Hmid arrivals [] (state_new (s_cfg s)) tx)
    as (st' & tx' & J & Ea & Ha & _ & Hin); [|by apply arrived_new|].
  - intros x Hx. destruct (Hal (Send dest x.2)) as (i & ? & ? & Ei).
    { apply Harr, list_elem_of_fmap. by exists x. }
    injection Ei as Ei. by exists i.
  - exists st', tx'. split; [done|]. apply (arrived_delivered (s_cfg s) src mid D Hps HD J); [done|].
    intros i Hi. apply Hin; [|done]. apply Harr, Hcov. destruct Hi. nia.
Qed.

End Transport.

(** ** Two defects *)

#[local] Instance in_order : HashOrder MsgKey InMsg := default_order.
#[local] Instance out_order : HashOrder MsgKey OutMsg := default_order.

(** The datagrams among some actions. *)
Fixpoint datagrams (acts : list Action) : list (list Z) :=
  match acts with
  | Send _ b :: acts' => b :: datagrams acts'
  | _ :: acts' => datagrams acts'
  | [] => []
  end.

(** Hand every datagram of one side to the other, collecting its answers. *)
Fixpoint exchange (src now : Z) (l : list (list Z)) (st : State) : option (State * list Action) :=
  match l with
  | [] => Some (st, [])
  | b :: l' =>
      '(st, a) ← process_datagram src now b st;
      '(st, c) ← exchange src now l' st;
      Some (st, a ++ c)
  end.

(** Four-byte chunks, a window of four, grants of six. *)
Definition small_cfg : TransportConfig := mkCfg 4 4 6 20 40 50 500 5000 30000 8 2 200.
Definition small_message : list Z := [1; 2; 3; 4; 5; 6; 7; 8; 9; 10; 11; 12; 13; 14; 15; 16; 17; 18].

(** A sends [small_message] to B.  B's first GRANT is lost; B's resend
    request goes out on the next tick; everything after that arrives. *)
Definition lost_grant_run : option (list Action * list Action) :=
  '(sa, a) ← send_start 2 7 small_message 0 false (state_new small_cfg);
  '(sb, lost) ← exchange 1 1 (datagrams a) (state_new small_cfg);
  '(r, b) ← receiver_tick 30 (st_receiver sb);
  let sb := mkState (st_sender sb) r (st_completed sb) in
  '(sa, a) ← exchange 2 31 (datagrams b) sa;
  '(sb, b) ← exchange 1 32 (datagrams a) sb;
  '(sa, a) ← exchange 2 33 (datagrams b) sa;
  '(sb, b) ← exchange 1 34 (datagrams a) sb;
  '(r, b) ← receiver_tick 60 (st_receiver sb);
  let sb := mkState (st_sender sb) r (st_completed sb) in
  '(sa, a) ← exchange 2 61 (datagrams b) sa;
  '(sb, b) ← exchange 1 62 (datagrams a) sb;
  Some (lost, b).

(** One lost GRANT corrupts a message.  Answering the resend request,
    the sender sets [next_send] to the end of the requested range, which
    need not be a multiple of the packet size; from then on its chunks are
    cut at offsets the receiver's bitmap does not distinguish.  The receiver
    drops one of them as a duplicate, counts another towards the bytes it
    lacks, and delivers the message with two bytes that were never
    received. *)
Theorem lost_grant_corrupts_message :
  ∃ lost, length lost = 1%nat ∧
    lost_grant_run = Some (lost, [Deliver 1 7 [1; 2; 3; 4; 5; 6; 7; 8; 9; 10; 11; 12; 0; 0; 15; 16; 17; 18]]) ∧
    small_message ≠ [1; 2; 3; 4; 5; 6; 7; 8; 9; 10; 11; 12; 0; 0; 15; 16; 17; 18].
Proof. eexists. split; [|split; [vm_compute; reflexivity|done]]. reflexivity. Qed.

(** A peer can crash the receiver with two packets of one message id:
    the bound of a chunk is checked against the length the packet claims,
    but the buffer was sized by the length the first packet claimed. *)
Theorem forged_length_panics :
  ∃ r acts, handle_data 1 (mkPkt Data 0 7 10 0 4) [1; 2; 3; 4] 0 (receiver_new small_cfg) = Some (r, acts) ∧
    handle_data 1 (mkPkt Data 0 7 100 8 4) [1; 2; 3; 4] 1 r = None.
Proof. do 2 eexists. split; [vm_compute; reflexivity|vm_compute; reflexivity]. Qed.

Lemma short_message_end_to_end_witness :
  ∃ s acts st tx, start_inner 2 7 [1; 2; 3; 4; 5; 6] 0 true (sender_new ex_cfg) = Some (s, acts) ∧
    arrive 1 ((λ b, (3, b)) <$> (reverse (datagrams acts) ++ datagrams acts)) (state_new ex_cfg) tx_new = Some (st, tx) ∧
    st_completed st = [(1, [1; 2; 3; 4; 5; 6])].
Proof.
  destruct (start_inner 2 7 [1; 2; 3; 4; 5; 6] 0 true (sender_new ex_cfg)) as [[s acts]|] eqn:E;
    [|vm_compute in E; discriminate].
  assert (Ha : ∀ b, Send 2 b ∈ acts ↔ b ∈ datagrams acts).
  { vm_compute in E. injection E as _ <-. intros b. cbn [datagrams]. set_solver. }
  exists s, acts.
  destruct (short_message_end_to_end ex_cfg 1 2 7 [1; 2; 3; 4; 5; 6] 0 true (sender_new ex_cfg) s acts
    ((λ b, (3, b)) <$> (reverse (datagrams acts) ++ datagrams acts)) tx_new) as (st & tx & E1 & E2);
    [reflexivity|apply ex_sender_ok|by_eval..|exact E| |].
  - intros b. rewrite Ha, <-list_fmap_compose. unfold compose. simpl. rewrite list_fmap_id.
    rewrite elem_of_app, elem_of_reverse. tauto.
  - exists st, tx. split; [reflexivity|]. split; [exact E1|exact E2].
Defined.
