(* ===== verification/HomaGro.v ===== *)
(** * The Homa transport: receive offload

    Models [crates/homa-rpc/src/transport/gro.rs], the Windows receive path:
    one call returns several datagrams of equal size, with the size in a
    control message.  The system call is a parameter: it gives the bytes it
    wrote at the front of the data, control and name buffers, or an error;
    what it does not write keeps its value, and the control buffer is used
    again from call to call. *)

From S2P Require Import Prelude Bytes HomaPacket HomaSender HomaReceiver HomaTxQueue HomaTransport.

Definition RECV_BUF_SIZE : Z := Z.shiftl 1 17.
Definition IPPROTO_UDP : Z := 17.
Definition UDP_COALESCED_INFO : Z := 3.
Definition CMSGHDR_SIZE : Z := 16.

(** What [WSARecvMsg] wrote: [rm_n] bytes of data, the control messages and
    the address of the sender. *)
Record RecvMsg := mkRecvMsg {
  rm_data : list Z;
  rm_control : list Z;
  rm_name : list Z
}.

(** A write at the front of a buffer. *)
Definition written (bytes buf : list Z) : list Z := bytes ++ drop (length bytes) buf.

(** The fields of a header at [off]: its length and the two numbers, all
    little-endian. *)
Definition cmsg_len (ctrl : list Z) (off : Z) : Z := from_le (sub ctrl off (off + 8)).
Definition cmsg_level (ctrl : list Z) (off : Z) : Z := from_le (sub ctrl (off + 8) (off + 12)).
Definition cmsg_type (ctrl : list Z) (off : Z) : Z := from_le (sub ctrl (off + 12) (off + 16)).

(** The loop over the control messages; [None] is an addition that overflows
    or a read past the end of the buffer.  Every turn moves on by at least
    sixteen bytes. *)
Fixpoint control_loop (fuel : nat) (ctrl : list Z) (off stride : Z) : option Z :=
  match fuel with
  | O => Some stride
  | S fuel' =>
      if zlen ctrl <? off + CMSGHDR_SIZE then Some stride
      else if cmsg_len ctrl off <? CMSGHDR_SIZE then Some stride
      else
        stride ← (if (cmsg_level ctrl off =? IPPROTO_UDP) && (cmsg_type ctrl off =? UDP_COALESCED_INFO)
                  then if zlen ctrl <? off + 20 then None else Some (from_le (sub ctrl (off + 16) (off + 20)))
                  else Some stride);
        len ← add_chk u64_max (cmsg_len ctrl off) 7;
        off' ← add_chk u64_max off (len / 8 * 8);
        control_loop fuel' ctrl off' stride
  end.

Definition decode_stride (n : Z) (ctrl : list Z) : option Z := control_loop (length ctrl) ctrl 0 n.

(** An address as the family, the port and the octets. *)
Inductive Source :=
  | SourceV4 (port : Z) (octets : list Z)
  | SourceV6 (port : Z) (octets : list Z)
  | Unspecified.

Definition be16 (l : list Z) : Z := from_le (reverse l).

Definition decode_source (name : list Z) : Source :=
  let family := from_le (sub name 0 2) in
  if family =? 2 then SourceV4 (be16 (sub name 2 4)) (sub name 4 8)
  else if family =? 23 then SourceV6 (be16 (sub name 2 4)) (sub name 8 24)
  else Unspecified.

(** [Gro::recv]: the number of bytes, the size of a datagram and the sender,
    with the control buffer as the call leaves it. *)
Definition gro_recv (m : RecvMsg) (ctrl : list Z) : option (list Z * (Z * Z * Source)) :=
  let ctrl := written (rm_control m) ctrl in
  stride ← decode_stride (zlen (rm_data m)) ctrl;
  Some (ctrl, (zlen (rm_data m), stride, decode_source (written (rm_name m) (replicate 128 0)))).

(** A control message with the size of a datagram, as the system writes it:
    twenty bytes, padded to twenty-four. *)
Definition coalesced_info (size : Z) : list Z :=
  to_le 8 20 ++ to_le 4 IPPROTO_UDP ++ to_le 4 UDP_COALESCED_INFO ++ to_le 4 size ++ replicate 4 0.

(** ** The batch is cut back into its datagrams *)

(** Datagrams of one size, of which the last may be shorter. *)
Inductive coalesced (size : Z) : list (list Z) → Prop :=
  | co_last d : 0 < zlen d ≤ size → coalesced size [d]
  | co_next d ds : zlen d = size → coalesced size ds → coalesced size (d :: ds).

Section split.
Context `{!HashOrder MsgKey InMsg} `{!HashOrder MsgKey OutMsg}.

(** The datagrams one after the other. *)
Fixpoint process_each (src now : Z) (ds : list (list Z)) (st : State) : option (State * list Action) :=
  match ds with
  | [] => Some (st, [])
  | d :: ds' =>
      '(st, a) ← process_datagram src now d st;
      '(st, b) ← process_each src now ds' st;
      Some (st, a ++ b)
  end.

Lemma process_chunks_nil fuel src now stride st : process_chunks fuel src now [] stride st = Some (st, []).
Proof. by destruct fuel. Qed.

(** More fuel than bytes changes nothing. *)
Lemma process_chunks_fuel n m src now data size st : (length data ≤ n)%nat → (length data ≤ m)%nat → 0 < size →
  process_chunks n src now data size st = process_chunks m src now data size st.
Proof.
  revert m data st. induction n as [|n IH]; intros m data st Hn Hm Hs.
  { destruct data; [by rewrite !process_chunks_nil|cbn in Hn; lia]. }
  destruct m as [|m]; [destruct data; [done|cbn in Hm; lia]|]. cbn [process_chunks].
  destruct (Z.eqb_spec (zlen data) 0); [done|]. destruct (process_datagram _ _ _ _) as [[st1 a]|]; [|done]. cbn [mbind option_bind].
  rewrite (IH m); [done|..]; unfold zlen in *; rewrite ?length_drop; lia.
Qed.

Lemma process_chunks_split src now size ds : 0 < size → coalesced size ds →
  ∀ fuel st, (length (concat ds) ≤ fuel)%nat → process_chunks fuel src now (concat ds) size st = process_each src now ds st.
Proof.
  intros Hs. induction 1 as [d Hd|d ds Hd Hc IH]; intros fuel st Hf; cbn [concat] in Hf |- *.
  - rewrite app_nil_r in Hf |- *. unfold zlen in Hd. destruct fuel as [|fuel]; [lia|]. cbn [process_chunks process_each].
    rewrite (proj2 (Z.eqb_neq _ _)), take_ge, drop_ge by (unfold zlen; lia).
    destruct (process_datagram src now d st) as [[st1 a]|]; [|done]. cbn [mbind option_bind]. by rewrite process_chunks_nil.
  - rewrite length_app in Hf. unfold zlen in Hd. destruct fuel as [|fuel]; [lia|]. cbn [process_chunks process_each].
    rewrite (proj2 (Z.eqb_neq _ _)) by (unfold zlen; rewrite length_app; lia).
    rewrite Z.min_l by (unfold zlen; rewrite length_app; lia).
    replace (Z.to_nat size) with (length d) by lia. rewrite take_app_length, drop_app_length.
    destruct (process_datagram src now d st) as [[st1 a]|]; [|done]. cbn [mbind option_bind]. rewrite IH by lia. done.
Qed.
End split.

(** ** The control messages *)

Lemma sub_at (pre mid post : list Z) a b : a = zlen pre → b = a + zlen mid → sub (pre ++ mid ++ post) a b = mid.
Proof.
  intros -> ->. unfold sub, zlen. rewrite drop_app_length' by lia.
  rewrite take_app_length' by lia. done.
Qed.

(** The rest of the buffer holds no header. *)
Definition clean (ctrl : list Z) : Prop := zlen ctrl = 128 ∧ Forall is_byte ctrl ∧ cmsg_len ctrl 24 < CMSGHDR_SIZE.

Lemma from_le_field n pre x post a : a = zlen pre → 0 ≤ x < 256 ^ Z.of_nat n →
  from_le (sub (pre ++ to_le n x ++ post) a (a + Z.of_nat n)) = x.
Proof.
  intros Ha Hx. rewrite sub_at by (unfold zlen; rewrite ?length_to_le; done). by apply from_to_le.
Qed.

Definition reported (size : Z) (rest : list Z) : list Z := coalesced_info size ++ rest.

Lemma reported_fields size rest : is_u32 size →
  cmsg_len (reported size rest) 0 = 20 ∧ cmsg_level (reported size rest) 0 = IPPROTO_UDP ∧
  cmsg_type (reported size rest) 0 = UDP_COALESCED_INFO ∧ from_le (sub (reported size rest) (0 + 16) (0 + 20)) = size.
Proof.
  intros Hs. unfold reported, coalesced_info, cmsg_len, cmsg_level, cmsg_type. rewrite <-!app_assoc. split_and!.
  - by apply (from_le_field 8 [] 20).
  - rewrite (app_assoc (to_le 8 20)). by apply (from_le_field 4 (to_le 8 20) IPPROTO_UDP).
  - rewrite (app_assoc (to_le 8 20)). by apply (from_le_field 4 (to_le 8 20 ++ to_le 4 IPPROTO_UDP) UDP_COALESCED_INFO).
  - rewrite (app_assoc (to_le 8 20)), (app_assoc (to_le 8 20 ++ _)). apply (from_le_field 4 (to_le 8 20 ++ to_le 4 IPPROTO_UDP ++ to_le 4 UDP_COALESCED_INFO) size); [done|].
    change (256 ^ Z.of_nat 4) with (u32_max + 1). unfold is_u32 in Hs. lia.
Qed.

Lemma decode_reported n size rest : is_u32 size → zlen rest = 104 → cmsg_len (reported size rest) 24 < CMSGHDR_SIZE →
  decode_stride n (reported size rest) = Some size.
Proof.
  intros Hs Hl Hc. destruct (reported_fields size rest Hs) as (E1 & E2 & E3 & E4).
  assert (Hz : zlen (reported size rest) = 128) by (unfold reported, zlen in *; rewrite length_app; cbn; lia).
  unfold decode_stride. replace (length (reported size rest)) with 128%nat by (unfold zlen in Hz; lia).
  cbn [control_loop]. rewrite Hz. cbn [Z.ltb Z.compare]. change (128 <? 0 + CMSGHDR_SIZE) with false. cbn iota. rewrite E1, E2, E3, E4.
  change (20 <? CMSGHDR_SIZE) with false. rewrite !Z.eqb_refl. cbn [andb]. change (128 <? 0 + 20) with false. cbn [mbind option_bind].
  change (add_chk u64_max 20 7) with (Some 27). cbn [mbind option_bind]. change (add_chk u64_max 0 (27 / 8 * 8)) with (Some 24). cbn [mbind option_bind].
  change (128 <? 24 + CMSGHDR_SIZE) with false. cbn iota. by rewrite (proj2 (Z.ltb_lt _ _)).
Qed.

(** The control buffer as the calls leave it: as it was made, or with the last
    report in front. *)
Definition buffer_ok (ctrl : list Z) : Prop := ctrl = replicate 128 0 ∨ ∃ size, is_u32 size ∧ ctrl = reported size (replicate 104 0).

Lemma written_report size ctrl : buffer_ok ctrl → written (coalesced_info size) ctrl = reported size (replicate 104 0).
Proof.
  intros [->|(size' & _ & ->)]; unfold written, reported; [reflexivity|].
  by rewrite (drop_app_length' (coalesced_info size')) by done.
Qed.

Lemma zeros_clean size : cmsg_len (reported size (replicate 104 0)) 24 < CMSGHDR_SIZE.
Proof.
  unfold cmsg_len, reported. rewrite <-(app_nil_r (replicate 104 0)). change (replicate 104 0) with (replicate 8 0 ++ replicate 96 0).
  rewrite <-!app_assoc. rewrite (sub_at (coalesced_info size) (replicate 8 0)) by done. done.
Qed.

(** Datagrams that the system coalesced and whose size it reports are
    handled exactly as if each had been received on its own, with one lock and
    in the same order. *)
Theorem gro_transparent `{!HashOrder MsgKey InMsg} `{!HashOrder MsgKey OutMsg} src now size ds name ctrl st tx :
  is_u32 size → 0 < size → coalesced size ds → buffer_ok ctrl →
  ∃ ctrl' from, gro_recv (mkRecvMsg (concat ds) (coalesced_info size) name) ctrl = Some (ctrl', (zlen (concat ds), size, from)) ∧ buffer_ok ctrl' ∧
    process_batch src now (concat ds) size st tx = ('(st, acts) ← process_each src now ds st; drain acts st tx).
Proof.
  intros Hs Hp Hc Hb. unfold gro_recv. cbn [rm_control rm_data rm_name]. rewrite written_report by done.
  rewrite decode_reported by (done || apply zeros_clean). cbn [mbind option_bind]. do 2 eexists. split; [done|]. split; [right; by exists size|].
  unfold process_batch. rewrite (proj2 (Z.eqb_neq _ _)) by lia. by rewrite (process_chunks_split src now size ds).
Qed.

Lemma take_encode p payload n : HEADER_LEN ≤ n → take (Z.to_nat n) (encode p payload) = encode p (take (Z.to_nat (n - HEADER_LEN)) payload).
Proof.
  intros Hn. unfold HEADER_LEN in *. replace (Z.to_nat n) with (22 + Z.to_nat (n - 22))%nat by lia. reflexivity.
Qed.

(** A DATA packet without its end is refused. *)
Lemma decode_cut p payload n : wf_pkt p → typ p = Data → length_ p = zlen payload → HEADER_LEN ≤ n < zlen (encode p payload) →
  decode (take (Z.to_nat n) (encode p payload)) = Some (inl LengthMismatch).
Proof.
  intros (_ & _ & _ & _ & W5) Ht Hl Hn. rewrite zlen_encode in Hn. rewrite take_encode by lia. unfold encode.
  rewrite decode_fields by apply length_to_le. rewrite from_to_u8, Ht. unfold is_u32, u32_max in W5.
  rewrite !from_to_le by (cbn; lia). rewrite (proj2 (Z.eqb_neq _ _)); [done|]. unfold zlen in *. rewrite length_take. lia.
Qed.

(** A DATA packet that comes on its own after a report of a smaller size
    is cut at that size, because the control buffer is read to its end whatever
    the system wrote: the packet is dropped and the rest of its payload is
    taken for packets. *)
Theorem stale_report_cuts `{!HashOrder MsgKey InMsg} `{!HashOrder MsgKey OutMsg} src now size p payload name st tx :
  is_u32 size → wf_pkt p → typ p = Data → length_ p = zlen payload → HEADER_LEN ≤ size < zlen (encode p payload) →
  ∃ ctrl' from, gro_recv (mkRecvMsg (encode p payload) [] name) (reported size (replicate 104 0)) =
      Some (ctrl', (zlen (encode p payload), size, from)) ∧
    process_batch src now (encode p payload) size st tx = process_batch src now (drop (Z.to_nat size) (encode p payload)) size st tx.
Proof.
  intros Hs Hw Ht Hl Hn. unfold gro_recv. cbn [rm_control rm_data rm_name]. unfold written. cbn [length app]. rewrite drop_0.
  rewrite decode_reported by (done || apply zeros_clean). do 2 eexists. split; [done|].
  assert (H0 : HEADER_LEN = 22) by done. unfold process_batch. rewrite !(proj2 (Z.eqb_neq size 0)) by lia.
  pose proof (decode_cut p payload size Hw Ht Hl Hn) as Ed. set (d := encode p payload) in *. destruct (length d) as [|fuel] eqn:El; [unfold zlen in Hn; lia|]. cbn [process_chunks].
  rewrite (proj2 (Z.eqb_neq _ _)) by (unfold zlen in *; lia). rewrite Z.min_l by (unfold zlen in *; lia).
  unfold process_datagram at 1. rewrite Ed. cbn [mbind option_bind].
  rewrite (process_chunks_fuel fuel (length (drop (Z.to_nat size) d))) by (rewrite ?length_drop; lia).
  destruct (process_chunks _ _ _ _ _ _) as [[st1 a]|]; done.
Qed.

(** ** Evaluation *)

#[local] Instance gro_in_order : HashOrder MsgKey InMsg := default_order.
#[local] Instance gro_out_order : HashOrder MsgKey OutMsg := default_order.

Definition ex_packet : list Z := encode (mkPkt Data 0 7 8 0 8) [1; 2; 3; 4; 5; 6; 7; 8].
Definition ex_name : list Z := [2; 0; 31; 144; 10; 0; 0; 1].

Lemma gro_transparent_witness : ∃ ctrl' from,
  gro_recv (mkRecvMsg (concat [ex_packet; ex_packet; take 25 ex_packet]) (coalesced_info 30) ex_name) (replicate 128 0) =
    Some (ctrl', (85, 30, from)) ∧ buffer_ok ctrl' ∧
  process_batch 1 0 (concat [ex_packet; ex_packet; take 25 ex_packet]) 30 (state_new ex_cfg) tx_new =
    ('(st, acts) ← process_each 1 0 [ex_packet; ex_packet; take 25 ex_packet] (state_new ex_cfg); drain acts st tx_new).
Proof.
  apply (gro_transparent 1 0 30 [ex_packet; ex_packet; take 25 ex_packet] ex_name (replicate 128 0) (state_new ex_cfg) tx_new).
  - by_eval.
  - lia.
  - apply co_next; [reflexivity|]. apply co_next; [reflexivity|]. apply co_last. by_eval.
  - by left.
Defined.

(** The message arrives with the size of the datagram and not with that of
    two small packets before it. *)
Lemma stale_report_cuts_witness :
  (∃ st tx, process_batch 1 0 ex_packet 30 (state_new ex_cfg) tx_new = Some (st, tx) ∧ st_completed st = [(1, [1; 2; 3; 4; 5; 6; 7; 8])]) ∧
  (∃ st tx, process_batch 1 0 ex_packet 22 (state_new ex_cfg) tx_new = Some (st, tx) ∧ st_completed st = []) ∧
  ∃ ctrl' from, gro_recv (mkRecvMsg ex_packet [] ex_name) (reported 22 (replicate 104 0)) = Some (ctrl', (zlen ex_packet, 22, from)) ∧
    process_batch 1 0 ex_packet 22 (state_new ex_cfg) tx_new = process_batch 1 0 (drop (Z.to_nat 22) ex_packet) 22 (state_new ex_cfg) tx_new.
Proof.
  split; [|split].
  - do 2 eexists. split; vm_compute; reflexivity.
  - do 2 eexists. split; vm_compute; reflexivity.
  - apply (stale_report_cuts 1 0 22 (mkPkt Data 0 7 8 0 8) [1; 2; 3; 4; 5; 6; 7; 8] ex_name (state_new ex_cfg) tx_new); [by_eval|repeat split; by_eval|reflexivity|reflexivity|by_eval].
Defined.
