(* ===== verification/HomaThreads.v ===== *)
(** * The Homa transport: threads and calls

    Models the threads of [crates/homa-rpc/src/transport/mod.rs] around the
    state of [HomaTransport]: the receiving thread [io_loop], the sending
    threads [send_loop] with the waiting of [txqueue.rs], the calls of
    [send_impl] and [recv], and [shutdown].

    Threads interleave at will.  The state lock is held while actions are
    drained, one action at a step; the lock of the send queues is held from a
    pass of [wait_batch] that finds nothing to the wait.  A call that waits
    with a time limit looks at its condition whenever it is run; a sending
    thread that waits is only run again when it is notified, or woken without
    cause.  [th_direct], [th_queued], [th_late], [th_delivered] and [th_given] record what
    happened and are read by no step.  [None] is a step that cannot be taken
    or a panic. *)

From S2P Require Import Prelude Bytes HomaPacket HomaSender HomaReceiver HomaTxQueue HomaTransport.

(** A sending thread: about to look at the queues, holding their lock before
    it waits, waiting, sending a batch, ended. *)
Inductive SendPc :=
  | SpPass
  | SpHold
  | SpAsleep
  | SpBatch (rest : list datagram)
  | SpDone.

(** The receiving thread: at the head of its loop, draining (then at the
    tick, or at the head), before the tick, ended. *)
Inductive IoPc :=
  | IoTop
  | IoDrain (acts : list Action) (ticked : bool)
  | IoTick
  | IoDone.

Inductive IoEvent :=
  | IoPacket (src : Z) (data : list Z) (stride : Z)
  | IoTimeout
  | IoError.

(** A call of [send_impl]: before it draws its number, before it starts the
    message, sending directly, before and while draining, waiting, and its
    results. *)
Inductive CallPc :=
  | CpStart
  | CpHave (mid now deadline : Z)
  | CpDirect (mid : Z) (rest : list Action)
  | CpDispatch (mid deadline : Z) (acts : list Action)
  | CpDrain (mid deadline : Z) (acts : list Action)
  | CpWait (mid deadline : Z)
  | CpOk (mid : Z)
  | CpTimedOut (mid : Z)
  | CpFailed (mid : Z).

Record Call := mkCall {
  cl_dest : Z;
  cl_data : list Z;
  cl_retransmit : bool;
  cl_pc : CallPc
}.

Inductive RecvPc :=
  | RpWait (deadline : Z)
  | RpGot (src : Z) (data : list Z)
  | RpNone.

Inductive Owner :=
  | OIo
  | OCall (i : nat).

Record Threads := mkThreads {
  th_now : Z;
  th_st : State;
  th_lock : option Owner;
  th_tx : TxInner;
  th_counter : Z;
  th_stop : bool;
  th_txstop : bool;
  th_io : IoPc;
  th_last_tick : Z;
  th_senders : list SendPc;
  th_calls : list Call;
  th_recvs : list RecvPc;
  th_sent : list datagram;
  th_direct : list (nat * datagram);
  th_queued : list datagram;
  th_late : list datagram;
  th_delivered : list (Z * list Z);
  th_given : list (Z * list Z)
}.

Definition SEND_THREADS : nat := 2.
Definition TICK_INTERVAL : Z := 5000000.

Definition threads_new (cfg : TransportConfig) (now : Z) : Threads :=
  mkThreads now (state_new cfg) None tx_new 1 false false IoTop now (replicate SEND_THREADS SpPass) [] [] [] [] [] [] [] [].

Definition set_st (st : State) (t : Threads) : Threads :=
  mkThreads (th_now t) st (th_lock t) (th_tx t) (th_counter t) (th_stop t) (th_txstop t) (th_io t) (th_last_tick t)
    (th_senders t) (th_calls t) (th_recvs t) (th_sent t) (th_direct t) (th_queued t) (th_late t) (th_delivered t) (th_given t).
Definition set_lock (o : option Owner) (t : Threads) : Threads :=
  mkThreads (th_now t) (th_st t) o (th_tx t) (th_counter t) (th_stop t) (th_txstop t) (th_io t) (th_last_tick t)
    (th_senders t) (th_calls t) (th_recvs t) (th_sent t) (th_direct t) (th_queued t) (th_late t) (th_delivered t) (th_given t).
Definition set_io (pc : IoPc) (last : Z) (t : Threads) : Threads :=
  mkThreads (th_now t) (th_st t) (th_lock t) (th_tx t) (th_counter t) (th_stop t) (th_txstop t) pc last
    (th_senders t) (th_calls t) (th_recvs t) (th_sent t) (th_direct t) (th_queued t) (th_late t) (th_delivered t) (th_given t).
Definition set_senders (l : list SendPc) (t : Threads) : Threads :=
  mkThreads (th_now t) (th_st t) (th_lock t) (th_tx t) (th_counter t) (th_stop t) (th_txstop t) (th_io t) (th_last_tick t)
    l (th_calls t) (th_recvs t) (th_sent t) (th_direct t) (th_queued t) (th_late t) (th_delivered t) (th_given t).
Definition set_calls (l : list Call) (t : Threads) : Threads :=
  mkThreads (th_now t) (th_st t) (th_lock t) (th_tx t) (th_counter t) (th_stop t) (th_txstop t) (th_io t) (th_last_tick t)
    (th_senders t) l (th_recvs t) (th_sent t) (th_direct t) (th_queued t) (th_late t) (th_delivered t) (th_given t).
Definition set_recvs (l : list RecvPc) (given : list (Z * list Z)) (t : Threads) : Threads :=
  mkThreads (th_now t) (th_st t) (th_lock t) (th_tx t) (th_counter t) (th_stop t) (th_txstop t) (th_io t) (th_last_tick t)
    (th_senders t) (th_calls t) l (th_sent t) (th_direct t) (th_queued t) (th_late t) (th_delivered t) given.
Definition set_tx (tx : TxInner) (t : Threads) : Threads :=
  mkThreads (th_now t) (th_st t) (th_lock t) tx (th_counter t) (th_stop t) (th_txstop t) (th_io t) (th_last_tick t)
    (th_senders t) (th_calls t) (th_recvs t) (th_sent t) (th_direct t) (th_queued t) (th_late t) (th_delivered t) (th_given t).
Definition set_sent (l : list datagram) (t : Threads) : Threads :=
  mkThreads (th_now t) (th_st t) (th_lock t) (th_tx t) (th_counter t) (th_stop t) (th_txstop t) (th_io t) (th_last_tick t)
    (th_senders t) (th_calls t) (th_recvs t) l (th_direct t) (th_queued t) (th_late t) (th_delivered t) (th_given t).
Definition add_direct (i : nat) (d : datagram) (t : Threads) : Threads :=
  mkThreads (th_now t) (th_st t) (th_lock t) (th_tx t) (th_counter t) (th_stop t) (th_txstop t) (th_io t) (th_last_tick t)
    (th_senders t) (th_calls t) (th_recvs t) (th_sent t) (th_direct t ++ [(i, d)]) (th_queued t) (th_late t) (th_delivered t) (th_given t).
Definition set_counter (n : Z) (t : Threads) : Threads :=
  mkThreads (th_now t) (th_st t) (th_lock t) (th_tx t) n (th_stop t) (th_txstop t) (th_io t) (th_last_tick t)
    (th_senders t) (th_calls t) (th_recvs t) (th_sent t) (th_direct t) (th_queued t) (th_late t) (th_delivered t) (th_given t).
Definition set_flags (stop txstop : bool) (t : Threads) : Threads :=
  mkThreads (th_now t) (th_st t) (th_lock t) (th_tx t) (th_counter t) stop txstop (th_io t) (th_last_tick t)
    (th_senders t) (th_calls t) (th_recvs t) (th_sent t) (th_direct t) (th_queued t) (th_late t) (th_delivered t) (th_given t).
Definition set_now (now : Z) (t : Threads) : Threads :=
  mkThreads now (th_st t) (th_lock t) (th_tx t) (th_counter t) (th_stop t) (th_txstop t) (th_io t) (th_last_tick t)
    (th_senders t) (th_calls t) (th_recvs t) (th_sent t) (th_direct t) (th_queued t) (th_late t) (th_delivered t) (th_given t).

(** [notify_all] of the send queues. *)
Definition wake (pc : SendPc) : SendPc := match pc with SpAsleep => SpPass | _ => pc end.
Definition tx_notify (t : Threads) : Threads := set_senders (wake <$> th_senders t) t.

(** The lock of the send queues is free. *)
Definition tx_free (t : Threads) : bool := forallb (λ pc, match pc with SpHold => false | _ => true end) (th_senders t).
Definition unlocked (t : Threads) : bool := match th_lock t with None => true | Some _ => false end.

(** [TxQueues::push] *)
Definition push_tx (dest : Z) (bytes : list Z) (t : Threads) : option Threads :=
  if tx_free t then
    tx ← tx_push dest bytes (th_tx t);
    Some (tx_notify (mkThreads (th_now t) (th_st t) (th_lock t) tx (th_counter t) (th_stop t) (th_txstop t) (th_io t) (th_last_tick t)
      (th_senders t) (th_calls t) (th_recvs t) (th_sent t) (th_direct t)
      (if th_txstop t then th_queued t else th_queued t ++ [(dest, bytes)])
      (if th_txstop t then th_late t ++ [(dest, bytes)] else th_late t) (th_delivered t) (th_given t)))
  else None.

(** One turn of the loop of [drain]. *)
Definition drain_one (a : Action) (t : Threads) : option Threads :=
  match a with
  | Deliver src _ data =>
      Some (mkThreads (th_now t) (mkState (st_sender (th_st t)) (st_receiver (th_st t)) (st_completed (th_st t) ++ [(src, data)]))
        (th_lock t) (th_tx t) (th_counter t) (th_stop t) (th_txstop t) (th_io t) (th_last_tick t) (th_senders t) (th_calls t) (th_recvs t)
        (th_sent t) (th_direct t) (th_queued t) (th_late t) (th_delivered t ++ [(src, data)]) (th_given t))
  | Send dest bytes => push_tx dest bytes t
  end.

(** [send_loop] *)
Definition sender_step (i : nat) (t : Threads) : option Threads :=
  match th_senders t !! i with
  | Some SpPass =>
      if tx_free t then
        let '(batch, tx) := take_batch FLUSH_BUDGET (th_tx t) in
        match batch with
        | _ :: _ => Some (set_senders (<[i := SpBatch batch]> (th_senders t)) (set_tx tx t))
        | [] =>
            let pc := if th_txstop t then (if th_stop t then SpDone else SpPass) else SpHold in
            Some (set_senders (<[i := pc]> (th_senders t)) (set_tx tx t))
        end
      else None
  | Some SpHold => Some (set_senders (<[i := SpAsleep]> (th_senders t)) t)
  | Some (SpBatch (d :: rest)) => Some (set_senders (<[i := SpBatch rest]> (th_senders t)) (set_sent (th_sent t ++ [d]) t))
  | Some (SpBatch []) => Some (set_senders (<[i := SpPass]> (th_senders t)) t)
  | _ => None
  end.

Section threads.
Context `{!HashOrder MsgKey InMsg} `{!HashOrder MsgKey OutMsg}.

(** [io_loop]: receiving and [process_batch] up to its draining, and the tick
    when it is due. *)
Definition io_step (ev : IoEvent) (t : Threads) : option Threads :=
  match th_io t with
  | IoTop =>
      if th_stop t then Some (set_io IoDone (th_last_tick t) t)
      else match ev with
           | IoPacket src data stride =>
               if unlocked t then
                 let stride := if stride =? 0 then zlen data else stride in
                 '(st, acts) ← process_chunks (length data) src (th_now t) data stride (th_st t);
                 Some (set_io (IoDrain acts false) (th_last_tick t) (set_lock (Some OIo) (set_st st t)))
               else None
           | IoTimeout => Some (set_io IoTick (th_last_tick t) t)
           | IoError => Some (set_io (if th_stop t then IoDone else IoTick) (th_last_tick t) t)
           end
  | IoDrain (a :: acts) ticked => t ← drain_one a t; Some (set_io (IoDrain acts ticked) (th_last_tick t) t)
  | IoDrain [] ticked => Some (set_io (if ticked then IoTop else IoTick) (th_last_tick t) (set_lock None t))
  | IoTick =>
      if TICK_INTERVAL <=? duration_since (th_now t) (th_last_tick t) then
        if unlocked t then
          '(s, a) ← sender_tick (th_now t) (st_sender (th_st t));
          '(r, b) ← receiver_tick (th_now t) (st_receiver (th_st t));
          Some (set_io (IoDrain (a ++ b) true) (th_now t) (set_lock (Some OIo) (set_st (mkState s r (st_completed (th_st t))) t)))
        else None
      else Some (set_io IoTop (th_last_tick t) t)
  | IoDone => None
  end.

Definition set_call (i : nat) (c : Call) (pc : CallPc) (t : Threads) : Threads :=
  set_calls (<[i := mkCall (cl_dest c) (cl_data c) (cl_retransmit c) pc]> (th_calls t)) t.

(** [send_impl]; [ok] is whether the socket takes a datagram that is sent
    directly. *)
Definition call_step (i : nat) (ok : bool) (t : Threads) : option Threads :=
  c ← th_calls t !! i;
  let cfg := s_cfg (st_sender (th_st t)) in
  match cl_pc c with
  | CpStart => Some (set_call i c (CpHave (th_counter t) (th_now t) (th_now t + send_timeout cfg)) (set_counter (wrap64 (th_counter t + 1)) t))
  | CpHave mid now deadline =>
      if unlocked t then
        '(st, acts) ← send_start (cl_dest c) mid (cl_data c) now (cl_retransmit c) (th_st t);
        Some (set_call i c (if zlen (cl_data c) <=? unscheduled_bytes cfg then CpDirect mid acts else CpDispatch mid deadline acts) (set_st st t))
      else None
  | CpDirect mid (Send dest bytes :: rest) =>
      if ok then Some (set_call i c (CpDirect mid rest) (add_direct i (dest, bytes) t)) else Some (set_call i c (CpFailed mid) t)
  | CpDirect mid (_ :: rest) => Some (set_call i c (CpDirect mid rest) t)
  | CpDirect mid [] => Some (set_call i c (CpOk mid) t)
  | CpDispatch mid deadline acts =>
      if unlocked t then Some (set_call i c (CpDrain mid deadline acts) (set_lock (Some (OCall i)) t)) else None
  | CpDrain mid deadline (a :: acts) => t ← drain_one a t; Some (set_call i c (CpDrain mid deadline acts) t)
  | CpDrain mid deadline [] => Some (set_call i c (CpWait mid deadline) (set_lock None t))
  | CpWait mid deadline =>
      if unlocked t then
        if is_done (cl_dest c) mid (st_sender (th_st t)) then Some (set_call i c (CpOk mid) t)
        else if deadline <=? th_now t then Some (set_call i c (CpTimedOut mid) (set_st (transport_finish (cl_dest c) mid (th_st t)) t))
        else Some t
      else None
  | _ => None
  end.

(** [recv] *)
Definition recv_step (j : nat) (t : Threads) : option Threads :=
  match th_recvs t !! j with
  | Some (RpWait deadline) =>
      if unlocked t then
        match recv (th_st t) with
        | (st, Some (src, data)) => Some (set_recvs (<[j := RpGot src data]> (th_recvs t)) (th_given t ++ [(src, data)]) (set_st st t))
        | (st, None) => if deadline <=? th_now t then Some (set_recvs (<[j := RpNone]> (th_recvs t)) (th_given t) t) else Some t
        end
      else None
  | _ => None
  end.

Inductive ThEv :=
  | TeClock (ns : nat)
  | TeSend (dest : Z) (data : list Z) (retransmit : bool)
  | TeCall (i : nat) (ok : bool)
  | TeReceive (timeout : Z)
  | TeRecv (j : nat)
  | TeConfirm (dest mid : Z)
  | TeFinish (dest mid : Z)
  | TeIo (ev : IoEvent)
  | TeSender (i : nat)
  | TeSpurious (i : nat)
  | TeStop
  | TeTxStop
  | TeTxNotify.

Definition th_step (ev : ThEv) (t : Threads) : option Threads :=
  match ev with
  | TeClock ns => Some (set_now (th_now t + Z.of_nat ns) t)
  | TeSend dest data rt => Some (set_calls (th_calls t ++ [mkCall dest data rt CpStart]) t)
  | TeCall i ok => call_step i ok t
  | TeReceive timeout => Some (set_recvs (th_recvs t ++ [RpWait (th_now t + timeout)]) (th_given t) t)
  | TeRecv j => recv_step j t
  | TeConfirm dest mid => if unlocked t then Some (set_st (transport_confirm dest mid (th_st t)) t) else None
  | TeFinish dest mid => if unlocked t then Some (set_st (transport_finish dest mid (th_st t)) t) else None
  | TeIo ev => io_step ev t
  | TeSender i => sender_step i t
  | TeSpurious i => match th_senders t !! i with Some SpAsleep => Some (set_senders (<[i := SpPass]> (th_senders t)) t) | _ => None end
  | TeStop => Some (set_flags true (th_txstop t) t)
  | TeTxStop => if th_stop t then Some (set_flags true true t) else None
  | TeTxNotify => if th_txstop t then Some (tx_notify t) else None
  end.

Fixpoint th_run (evs : list ThEv) (t : Threads) : option Threads :=
  match evs with
  | [] => Some t
  | ev :: evs' => t ← th_step ev t; th_run evs' t
  end.

(** ** Nothing queued is lost or sent twice *)

Definition contents (tx : TxInner) : list datagram := control tx ++ concat (queues tx).
Definition in_flight (l : list SendPc) : list datagram := concat ((λ pc, match pc with SpBatch rest => rest | _ => [] end) <$> l).

Lemma concat_insert_app {A} (l : list (list A)) i q x : l !! i = Some q → concat (<[i := q ++ x]> l) ≡ₚ concat l ++ x.
Proof.
  revert i. induction l as [|y l IH]; intros [|i] H; simplify_eq/=.
  - rewrite <-!app_assoc. f_equiv. apply Permutation_app_comm.
  - by rewrite <-app_assoc, IH.
Qed.

Lemma tx_push_contents dest bytes tx tx' : tx_push dest bytes tx = Some tx' → contents tx' ≡ₚ contents tx ++ [(dest, bytes)].
Proof.
  unfold tx_push, contents. intros H. apply bind_Some in H as (d & _ & H). destruct d.
  - apply bind_Some in H as (b1 & _ & H). apply bind_Some in H as (q & Eq & H). apply bind_Some in H as (qs & Es & [= <-]). cbn.
    rewrite <-app_assoc. f_equiv. unfold vget in Eq. unfold vset in Es. repeat case_match; simplify_eq. by apply concat_insert_app.
  - simplify_eq. cbn. rewrite <-!app_assoc. f_equiv. apply Permutation_app_comm.
Qed.

Lemma take_batch_contents tx : contents tx ≡ₚ (take_batch FLUSH_BUDGET tx).1 ++ contents (take_batch FLUSH_BUDGET tx).2.
Proof.
  pose proof (take_batch_prefix FLUSH_BUDGET tx ltac:(done)) as H. destruct (take_batch FLUSH_BUDGET tx) as [batch tx'].
  destruct H as (data & -> & E & Ec & _). unfold contents. cbn. rewrite Ec, <-E. cbn. by rewrite app_assoc.
Qed.

Lemma app_rotate {A} (x y z : list A) : (x ++ y) ++ z ≡ₚ (z ++ y) ++ x.
Proof. rewrite Permutation_app_comm, <-app_assoc. f_equiv. apply Permutation_app_comm. Qed.

Lemma in_flight_set l i pc pc' : l !! i = Some pc →
  in_flight (<[i := pc']> l) ++ in_flight [pc] ≡ₚ in_flight l ++ in_flight [pc'].
Proof.
  unfold in_flight. revert i. induction l as [|y l IH]; intros [|i] H; simplify_eq/=; rewrite ?app_nil_r.
  - apply app_rotate.
  - rewrite <-!app_assoc. f_equiv. specialize (IH i H). cbn in IH. by rewrite !app_nil_r in IH.
Qed.

Lemma in_flight_wake l : in_flight (wake <$> l) = in_flight l.
Proof. unfold in_flight. induction l as [|[] l IH]; cbn; [done|..]; by rewrite IH. Qed.

Lemma take_queues_none room qs : (0 < room)%nat → (take_queues room qs).1 = [] → concat qs = [].
Proof.
  intros Hr. induction qs as [|q qs IH]; [done|]. cbn [take_queues]. destruct q as [|x q].
  - rewrite take_nil. cbn [length]. rewrite Nat.sub_0_r. destruct (Nat.eqb_spec room 0); [lia|].
    destruct (take_queues room qs) as [r qs']. exact IH.
  - destruct room as [|room]; [lia|]. cbn. case_match; [done|]. case_match. done.
Qed.

Lemma take_batch_none tx : (take_batch FLUSH_BUDGET tx).1 = [] → contents tx = [].
Proof.
  unfold take_batch, contents. destruct (Z.leb_spec FLUSH_BUDGET (zlen (control tx))) as [Hl|Hl]; cbn [fst].
  - intros E. rewrite E in Hl. done.
  - pose proof (take_queues_none (Z.to_nat (FLUSH_BUDGET - zlen (control tx))) (queues tx) ltac:(lia)) as Hn.
    destruct (take_queues _ _) as [data qs]. cbn [fst] in *. intros [-> ->]%app_eq_nil. cbn. by apply Hn.
Qed.

(** What was queued is sent, in the hands of a thread, or in the queues; and
    once a thread has ended the queues hold only what came after the end. *)
Record flushing (t : Threads) : Prop := {
  fl_all : th_queued t ++ th_late t ≡ₚ th_sent t ++ in_flight (th_senders t) ++ contents (th_tx t);
  fl_late : th_txstop t = false → th_late t = [];
  fl_done : SpDone ∈ th_senders t → th_txstop t = true ∧ contents (th_tx t) ⊆+ th_late t
}.

(** Steps that touch none of it. *)
Lemma flushing_frame t t' : flushing t → th_queued t' = th_queued t → th_late t' = th_late t → th_sent t' = th_sent t →
  th_senders t' = th_senders t → th_tx t' = th_tx t → th_txstop t' = th_txstop t → flushing t'.
Proof. intros [H1 H2 H3] E1 E2 E3 E4 E5 E6. split; rewrite ?E1, ?E2, ?E3, ?E4, ?E5, ?E6; done. Qed.

Lemma wake_done (l : list SendPc) : SpDone ∈ wake <$> l → SpDone ∈ l.
Proof. intros ([] & E & Hi)%list_elem_of_fmap; done. Qed.

Ltac th_cbn := cbn [th_now th_st th_lock th_tx th_counter th_stop th_txstop th_io th_last_tick th_senders th_calls th_recvs th_sent th_direct
  th_queued th_late th_delivered th_given tx_notify set_st set_lock set_io set_senders set_calls set_recvs set_tx set_sent add_direct
  set_counter set_flags set_now set_call].

Lemma flushing_notify t : flushing t → flushing (tx_notify t).
Proof. intros [H1 H2 H3]. split; th_cbn; [by rewrite in_flight_wake|done|]. intros Hd%wake_done. by apply H3. Qed.

Lemma push_tx_flushing dest bytes t t' : flushing t → push_tx dest bytes t = Some t' → flushing t'.
Proof.
  intros [H1 H2 H3] H. unfold push_tx in H. destruct (tx_free t); [|done]. apply bind_Some in H as (tx & E & [= <-]).
  apply tx_push_contents in E. apply flushing_notify. destruct (th_txstop t) eqn:Et; split; th_cbn.
  - by rewrite app_assoc, H1, E, <-!app_assoc.
  - done.
  - intros Hd. split; [done|]. rewrite E. apply submseteq_app; [by apply H3|done].
  - rewrite E, !app_assoc, <-(app_assoc (th_sent t)), <-H1. rewrite (H2 eq_refl), !app_nil_r. done.
  - intros _. by apply H2.
  - intros Hd. destruct (H3 Hd). congruence.
Qed.

Lemma drain_one_flushing a t t' : flushing t → drain_one a t = Some t' → flushing t'.
Proof. destruct a; [apply push_tx_flushing|]. intros H [= <-]. by eapply flushing_frame. Qed.

Lemma done_insert (l : list SendPc) (i : nat) pc : SpDone ∈ <[i := pc]> l → pc = SpDone ∨ SpDone ∈ l.
Proof.
  intros (j & Hj)%list_elem_of_lookup. destruct (decide (i = j)) as [->|Hn].
  - destruct (decide (j < length l)%nat); [rewrite list_lookup_insert_eq in Hj by done; left; congruence|].
    rewrite list_insert_ge in Hj by lia. right. by eapply list_elem_of_lookup_2.
  - rewrite list_lookup_insert_ne in Hj by done. right. by eapply list_elem_of_lookup_2.
Qed.

(** A sending thread goes on with nothing in its hands. *)
Lemma flushing_pc t i pc pc' : flushing t → th_senders t !! i = Some pc → in_flight [pc] = [] → in_flight [pc'] = [] → pc' ≠ SpDone →
  flushing (set_senders (<[i := pc']> (th_senders t)) t).
Proof.
  intros [H1 H2 H3] Hi E E' Hn. pose proof (in_flight_set _ _ _ pc' Hi) as Hp. rewrite E, E', !app_nil_r in Hp. split; th_cbn; [|done|].
  - by rewrite Hp.
  - intros [?|Hd]%done_insert; [done|by apply H3].
Qed.

Lemma sender_step_flushing i t t' : flushing t → sender_step i t = Some t' → flushing t'.
Proof.
  intros Hf H. pose proof Hf as [H1 H2 H3]. unfold sender_step in H. destruct (th_senders t !! i) as [pc|] eqn:Ei; [|done].
  destruct pc as [| | |[|d rest]|]; try done.
  - destruct (tx_free t); [|done]. pose proof (take_batch_contents (th_tx t)) as Hc. pose proof (take_batch_none (th_tx t)) as Hz.
    destruct (take_batch FLUSH_BUDGET (th_tx t)) as [batch tx]. cbn [fst snd] in Hc, Hz. destruct batch as [|d batch]; simplify_eq.
    + set (pc := if th_txstop t then if th_stop t then SpDone else SpPass else SpHold).
      assert (Ep : in_flight [pc] = []) by (unfold pc; by repeat case_match).
      pose proof (in_flight_set _ _ _ pc Ei) as Hp. rewrite Ep, !app_nil_r in Hp. cbn [app] in Hc. rewrite (Hz eq_refl) in Hc, H1.
      split; th_cbn; [by rewrite Hp, <-Hc|done|]. rewrite <-Hc. intros [Hd|Hd]%done_insert; [|split; [by apply H3|apply submseteq_nil_l]].
      unfold pc in Hd. destruct (th_txstop t); [|done]. split; [done|apply submseteq_nil_l].
    + pose proof (in_flight_set _ _ _ (SpBatch (d :: batch)) Ei) as Hp. change (in_flight [SpPass]) with (@nil datagram) in Hp.
      change (in_flight [SpBatch (d :: batch)]) with (concat [d :: batch]) in Hp. cbn [concat] in Hp. rewrite !app_nil_r in Hp. split; th_cbn.
      * by rewrite Hp, <-app_assoc, <-Hc.
      * done.
      * intros [?|Hd]%done_insert; [done|]. destruct (H3 Hd) as [? Hs]. split; [done|]. etrans; [|exact Hs]. rewrite Hc. apply submseteq_inserts_l. done.
  - simplify_eq. by eapply flushing_pc.
  - simplify_eq. by eapply flushing_pc.
  - simplify_eq. pose proof (in_flight_set _ _ _ (SpBatch rest) Ei) as Hp. unfold in_flight at 2 4 in Hp. cbn in Hp. rewrite !app_nil_r in Hp. split; th_cbn.
    + rewrite H1, <-!app_assoc. f_equiv. cbn [app]. rewrite app_comm_cons. f_equiv. symmetry. apply (Permutation_app_inv_r rest).
      cbn [app]. rewrite <-Hp. apply Permutation_middle.
    + done.
    + intros [?|Hd]%done_insert; [done|by apply H3].
Qed.

Lemma th_step_flushing ev t t' : flushing t → th_step ev t = Some t' → flushing t'.
Proof.
  intros Hf H. destruct ev as [ns|dest data rt|i ok|timeout|j|dest mid|dest mid|ev|i|i| | |]; cbn [th_step] in H.
  - simplify_eq. by eapply flushing_frame.
  - simplify_eq. by eapply flushing_frame.
  - unfold call_step in H. apply bind_Some in H as (c & _ & H). cbv zeta in H. destruct (cl_pc c) as [|? ? ?|? [|[] ?]|? ? ?|? ? [|a acts]|? ?| | |]; try done.
    all: try (unfold mbind, option_bind in H; repeat case_match; simplify_eq; by eapply flushing_frame).
    apply bind_Some in H as (t1 & E & [= <-]). apply (drain_one_flushing _ _ _ Hf) in E. by eapply flushing_frame.
  - simplify_eq. by eapply flushing_frame.
  - unfold recv_step in H. repeat case_match; simplify_eq; by eapply flushing_frame.
  - case_match; simplify_eq. by eapply flushing_frame.
  - case_match; simplify_eq. by eapply flushing_frame.
  - unfold io_step in H. destruct (th_io t) as [|[|a acts] ticked| |]; try done.
    + unfold mbind, option_bind in H; repeat case_match; simplify_eq; by eapply flushing_frame.
    + simplify_eq. by eapply flushing_frame.
    + apply bind_Some in H as (t1 & E & [= <-]). apply (drain_one_flushing _ _ _ Hf) in E. by eapply flushing_frame.
    + unfold mbind, option_bind in H; repeat case_match; simplify_eq; by eapply flushing_frame.
  - by eapply sender_step_flushing.
  - destruct (th_senders t !! i) as [[]|] eqn:Ei; simplify_eq. by eapply flushing_pc.
  - simplify_eq. by eapply flushing_frame.
  - case_match; simplify_eq. destruct Hf as [H1 H2 H3]. split; th_cbn; [done|done|]. intros Hd. split; [done|by apply H3].
  - case_match; simplify_eq. by apply flushing_notify.
Qed.

Lemma th_run_ind (P : Threads → Prop) evs t t' : (∀ ev t t', P t → th_step ev t = Some t' → P t') → P t → th_run evs t = Some t' → P t'.
Proof.
  intros Hs. revert t. induction evs as [|ev evs IH]; cbn; intros t Hp H; [by simplify_eq|].
  apply bind_Some in H as (t1 & E & H). by eapply IH, H; eapply Hs.
Qed.

(** [C30] However the threads and calls interleave, every datagram put into
    the send queues is sent by one sending thread, once, or is in the hands of
    one or in the queues; and when all sending threads have ended, every
    datagram queued before the shutdown has been sent. *)
Theorem shutdown_flushes cfg now evs t : th_run evs (threads_new cfg now) = Some t →
  th_queued t ++ th_late t ≡ₚ th_sent t ++ in_flight (th_senders t) ++ contents (th_tx t) ∧
  ((∀ pc, pc ∈ th_senders t → pc = SpDone) → th_senders t ≠ [] → th_queued t ⊆+ th_sent t).
Proof.
  intros H. apply (th_run_ind flushing) in H; [|intros; by eapply th_step_flushing|].
  2: { split; th_cbn; [done|done|]. by intros [? _]%elem_of_replicate. }
  destruct H as [H1 H2 H3]. split; [done|]. intros Hd Hn.
  assert (E : in_flight (th_senders t) = []).
  { unfold in_flight. clear -Hd. induction (th_senders t) as [|pc l IH]; [done|]. cbn. rewrite (Hd pc) by by left.
    apply IH. intros pc' Hpc. apply Hd. by right. }
  rewrite E in H1. cbn [app] in H1. destruct (th_senders t) as [|pc l] eqn:El; [done|].
  rewrite (Hd pc) in H3 by by left. destruct H3 as [_ Hs]; [by left|].
  apply submseteq_Permutation in Hs as (k & Hk). 
  assert (Es : th_sent t ≡ₚ th_queued t ++ k).
  { apply (Permutation_app_inv_r (contents (th_tx t))). rewrite <-H1, Hk, <-app_assoc. f_equiv. apply Permutation_app_comm. }
  rewrite Es. by apply submseteq_inserts_r.
Qed.

(** ** Every delivered message goes to one receiver, in order *)

Definition got (l : list RecvPc) : list (Z * list Z) := omap (λ pc, match pc with RpGot src data => Some (src, data) | _ => None end) l.

Record handing (t : Threads) : Prop := {
  hd_order : th_delivered t = th_given t ++ st_completed (th_st t);
  hd_given : th_given t ≡ₚ got (th_recvs t)
}.

Lemma handing_frame t t' : handing t → th_delivered t' = th_delivered t → th_given t' = th_given t → th_recvs t' = th_recvs t →
  st_completed (th_st t') = st_completed (th_st t) → handing t'.
Proof. intros [H1 H2] E1 E2 E3 E4. split; by rewrite ?E1, ?E2, ?E3, ?E4. Qed.

Lemma drain_one_handing a t t' : handing t → drain_one a t = Some t' → handing t'.
Proof.
  intros Hh H. destruct a as [dest bytes|src mid data]; cbn in H.
  - unfold push_tx in H. case_match; [|done]. apply bind_Some in H as (tx & _ & [= <-]). by eapply handing_frame.
  - simplify_eq. destruct Hh as [H1 H2]. split; th_cbn; [|done]. cbn. by rewrite H1, app_assoc.
Qed.

Lemma process_datagram_completed src now chunk st st' acts : process_datagram src now chunk st = Some (st', acts) → st_completed st' = st_completed st.
Proof. unfold process_datagram. intros H. unfold mbind, option_bind in H. repeat case_match; by simplify_eq/=. Qed.

Lemma process_chunks_completed fuel src now data stride st st' acts : process_chunks fuel src now data stride st = Some (st', acts) →
  st_completed st' = st_completed st.
Proof.
  revert data st st' acts. induction fuel as [|fuel IH]; cbn [process_chunks]; intros data st st' acts H; [by simplify_eq|].
  case_match; [by simplify_eq|]. cbv zeta in H. apply bind_Some in H as ([st1 a] & E1 & H). apply bind_Some in H as ([st2 b] & E2 & [= <- <-]).
  apply process_datagram_completed in E1. apply IH in E2. congruence.
Qed.

Lemma got_set l j pc m : l !! j = Some (RpWait pc) → got (<[j := RpGot m.1 m.2]> l) ≡ₚ got l ++ [m].
Proof.
  unfold got. destruct m as [src data]. revert j. induction l as [|y l IH]; intros [|j] H; simplify_eq/=.
  - apply Permutation_cons_append.
  - specialize (IH j H). destruct y; cbn; by rewrite IH.
Qed.

Lemma got_none l j d : l !! j = Some (RpWait d) → got (<[j := RpNone]> l) = got l.
Proof. unfold got. revert j. induction l as [|y l IH]; intros [|j] H; simplify_eq/=; [done|]. by rewrite IH. Qed.

Lemma recv_step_handing j t t' : handing t → recv_step j t = Some t' → handing t'.
Proof.
  intros Hh H. pose proof Hh as [H1 H2]. unfold recv_step in H. destruct (th_recvs t !! j) as [[d| |]|] eqn:Ej; try done.
  destruct (unlocked t); [|done]. unfold recv in H. destruct (st_completed (th_st t)) as [|[src data] rest] eqn:Es.
  - case_match; simplify_eq; [|done]. split; th_cbn; [by rewrite Es|]. by rewrite (got_none _ _ _ Ej).
  - simplify_eq. split; th_cbn; cbn [st_completed]; [by rewrite H1, <-app_assoc|].
    by rewrite (got_set _ _ _ (src, data) Ej), H2.
Qed.

Lemma th_step_handing ev t t' : handing t → th_step ev t = Some t' → handing t'.
Proof.
  intros Hh H. destruct ev as [ns|dest data rt|i ok|timeout|j|dest mid|dest mid|ev|i|i| | |]; cbn [th_step] in H.
  all: try (by simplify_eq; eapply handing_frame).
  - unfold call_step in H. apply bind_Some in H as (c & _ & H). cbv zeta in H. destruct (cl_pc c) as [|? ? ?|? [|[] ?]|? ? ?|? ? [|a acts]|? ?| | |]; try done.
    2: { destruct (unlocked t); [|done]. apply bind_Some in H as ([st acts] & E & [= <-]). apply bind_Some in E as ([s a] & _ & [= <- <-]). by eapply handing_frame. }
    all: try (repeat case_match; simplify_eq; by eapply handing_frame).
    apply bind_Some in H as (t1 & E & [= <-]). apply (drain_one_handing _ _ _ Hh) in E. by eapply handing_frame.
  - simplify_eq. destruct Hh as [H1 H2]. split; th_cbn; [done|]. unfold got in *. rewrite omap_app. cbn. by rewrite app_nil_r.
  - by eapply recv_step_handing.
  - case_match; simplify_eq. by eapply handing_frame.
  - case_match; simplify_eq. by eapply handing_frame.
  - unfold io_step in H. destruct (th_io t) as [|[|a acts] ticked| |]; try done.
    + repeat case_match; simplify_eq; try (by eapply handing_frame).
      all: apply bind_Some in H as ([st acts] & E & [= <-]); apply process_chunks_completed in E; by eapply handing_frame.
    + simplify_eq. by eapply handing_frame.
    + apply bind_Some in H as (t1 & E & [= <-]). apply (drain_one_handing _ _ _ Hh) in E. by eapply handing_frame.
    + unfold mbind, option_bind in H; repeat case_match; simplify_eq; by eapply handing_frame.
  - unfold sender_step in H. repeat case_match; simplify_eq; by eapply handing_frame.
  - repeat case_match; simplify_eq. by eapply handing_frame.
  - case_match; simplify_eq. by eapply handing_frame.
  - case_match; simplify_eq. by eapply handing_frame.
Qed.

(** Whatever the threads do, the messages the transport has delivered are
    those given to the callers of [recv], each to one call and in the order of
    their delivery, followed by those that wait. *)
Theorem receivers_share_messages cfg now evs t : th_run evs (threads_new cfg now) = Some t →
  th_delivered t = th_given t ++ st_completed (th_st t) ∧ th_given t ≡ₚ got (th_recvs t).
Proof.
  intros H. apply (th_run_ind handing) in H; [by destruct H|intros; by eapply th_step_handing|by split].
Qed.

(** ** A shutdown that is not noticed *)

(** The threads of a transport that is shut down, with nothing to send and one
    sending thread asleep. *)
Definition hung (i : nat) (t : Threads) : Prop :=
  th_senders t !! i = Some SpAsleep ∧ th_stop t = true ∧ th_txstop t = true ∧ contents (th_tx t) = [] ∧ th_io t = IoDone ∧ th_calls t = [].

(** Events of the transport that is being dropped: no call begins, nothing
    wakes a thread without cause, and [shutdown] is over. *)
Definition dropping (ev : ThEv) : Prop :=
  match ev with TeSend _ _ _ => False | TeSpurious _ => False | TeTxNotify => False | _ => True end.

Lemma take_batch_empty tx : contents tx = [] → (take_batch FLUSH_BUDGET tx).1 = [] ∧ contents (take_batch FLUSH_BUDGET tx).2 = [].
Proof.
  intros E. pose proof (take_batch_contents tx) as Hp. rewrite E in Hp. symmetry in Hp. apply Permutation_nil_r in Hp. by apply app_eq_nil in Hp.
Qed.

Lemma hung_step i ev t t' : hung i t → dropping ev → th_step ev t = Some t' → hung i t'.
Proof.
  intros (Hi & Hs & Ht & Hc & Hio & Hl) Hd H. destruct ev as [ns|dest data rt|k ok|timeout|j|dest mid|dest mid|ev|k|k| | |]; try done; cbn [th_step] in H.
  - by simplify_eq.
  - unfold call_step in H. by rewrite Hl in H.
  - by simplify_eq.
  - unfold recv_step in H. by repeat case_match; simplify_eq.
  - by case_match; simplify_eq.
  - by case_match; simplify_eq.
  - unfold io_step in H. by rewrite Hio in H.
  - unfold sender_step in H. assert (Hn : ∀ pc pc', th_senders t !! k = Some pc → pc ≠ SpAsleep → <[k := pc']> (th_senders t) !! i = Some SpAsleep).
    { intros pc pc' Ek Hne. rewrite list_lookup_insert_ne; [done|]. congruence. }
    destruct (th_senders t !! k) as [[| | |[|d rest]|]|] eqn:Ek; try done.
    + destruct (tx_free t); [|done]. destruct (take_batch_empty _ Hc) as [E1 E2].
      destruct (take_batch FLUSH_BUDGET (th_tx t)) as [batch tx]. cbn [fst snd] in E1, E2. subst batch. simplify_eq. split_and!; th_cbn; try done. by eapply Hn.
    + simplify_eq. split_and!; th_cbn; try done. by eapply Hn.
    + simplify_eq. split_and!; th_cbn; try done. by eapply Hn.
    + simplify_eq. split_and!; th_cbn; try done. by eapply Hn.
  - by simplify_eq.
  - by case_match; simplify_eq.
Qed.

(** [TxQueues::shutdown] sets its flag and notifies without the lock of
    the queues: a sending thread that has just read the flag and has not yet
    begun to wait misses it, and no step of the transport that is being
    dropped wakes it, so that joining it never returns. *)
Theorem missed_shutdown_hangs i evs t t' : hung i t → Forall dropping evs → th_run evs t = Some t' → hung i t'.
Proof.
  revert t. induction evs as [|ev evs IH]; cbn; intros t Hh Hf H; [by simplify_eq|].
  apply Forall_cons in Hf as [Hd Hf]. apply bind_Some in H as (t1 & E & H). eapply IH; [|done|done]. by eapply hung_step.
Qed.
End threads.

(** ** Evaluation *)

#[local] Instance th_in_order : HashOrder MsgKey InMsg := default_order.
#[local] Instance th_out_order : HashOrder MsgKey OutMsg := default_order.

(** The flag is set and the notification sent between the look at the flag
    and the wait. *)
Definition ex_drop : list ThEv :=
  [TeSender 1; TeSender 1; TeSender 0; TeStop; TeTxStop; TeTxNotify; TeSender 0; TeSender 1; TeIo IoTimeout].

Lemma missed_shutdown_hangs_witness : ∃ t, th_run ex_drop (threads_new ex_cfg 0) = Some t ∧ th_senders t = [SpAsleep; SpDone] ∧ hung 0 t ∧
  ∃ t', th_run [TeClock 5; TeConfirm 1 1] t = Some t' ∧ hung 0 t'.
Proof.
  assert (H : ∃ t, th_run ex_drop (threads_new ex_cfg 0) = Some t ∧ th_senders t = [SpAsleep; SpDone] ∧ hung 0 t).
  { eexists. split; [vm_compute; reflexivity|]. split; [reflexivity|]. split_and!; reflexivity. }
  destruct H as (t & E & Es & Hh). exists t. split; [exact E|]. split; [exact Es|]. split; [exact Hh|].
  destruct (th_run [TeClock 5; TeConfirm 1 1] t) as [t'|] eqn:Er.
  - exists t'. split; [reflexivity|]. apply (missed_shutdown_hangs 0 [TeClock 5; TeConfirm 1 1] t t'); [exact Hh| |exact Er].
    repeat constructor.
  - exfalso. revert Er. vm_compute in E. injection E as <-. vm_compute. discriminate.
Defined.

(** A message of three packets is queued and sent, one arrives and is given to
    a call of [recv], and the transport is shut down. *)
Definition ex_life : list ThEv :=
  [TeSend 7 [1; 2; 3; 4; 5; 6; 7; 8; 9; 10; 11; 12] false] ++ replicate 8 (TeCall 0 true) ++
  [TeReceive 100; TeRecv 0; TeIo (IoPacket 1 (encode (mkPkt Data 0 9 3 0 3) [5; 6; 7]) 0); TeIo IoTimeout; TeIo IoTimeout; TeIo IoTimeout; TeIo IoTimeout;
   TeRecv 0; TeSender 0; TeSender 1; TeSender 0; TeSender 0; TeSender 1; TeStop; TeTxStop; TeTxNotify] ++ replicate 3 (TeSender 0) ++ [TeSender 1].

Definition ex_after (t : Threads) : bool * list RecvPc * list Call * Z :=
  (forallb (λ pc, match pc with SpDone => true | _ => false end) (th_senders t), th_recvs t, th_calls t, zlen (th_queued t)).

Lemma ex_lived : ∃ t, th_run ex_life (threads_new ex_cfg 0) = Some t ∧
  ex_after t = (true, [RpGot 1 [5; 6; 7]], [mkCall 7 [1; 2; 3; 4; 5; 6; 7; 8; 9; 10; 11; 12] false (CpOk 1)], 3).
Proof. eexists. split; [vm_compute; reflexivity|]. vm_compute. reflexivity. Qed.

Lemma shutdown_flushes_witness : ∃ t, th_run ex_life (threads_new ex_cfg 0) = Some t ∧ zlen (th_queued t) = 3 ∧
  th_queued t ++ th_late t ≡ₚ th_sent t ++ in_flight (th_senders t) ++ contents (th_tx t) ∧
  ((∀ pc, pc ∈ th_senders t → pc = SpDone) → th_senders t ≠ [] → th_queued t ⊆+ th_sent t).
Proof.
  destruct ex_lived as (t & E & Ha). exists t. split; [exact E|]. split; [exact (f_equal snd Ha)|].
  exact (shutdown_flushes ex_cfg 0 ex_life t E).
Defined.

Lemma receivers_share_messages_witness : ∃ t, th_run ex_life (threads_new ex_cfg 0) = Some t ∧ got (th_recvs t) = [(1, [5; 6; 7])] ∧
  th_delivered t = th_given t ++ st_completed (th_st t) ∧ th_given t ≡ₚ got (th_recvs t).
Proof.
  destruct ex_lived as (t & E & Ha). exists t. split; [exact E|].
  split; [rewrite (f_equal (λ x, x.1.1.2) Ha : th_recvs t = _); reflexivity|]. exact (receivers_share_messages ex_cfg 0 ex_life t E).
Defined.
