(* ===== verification/HomaRpc.v ===== *)
(** * Homa RPC: calls with retries over a deduplicating server

    Models [crates/homa-rpc/src/rpc/mod.rs]: the frames, the server's receive
    loop with its deduplication table and worker pool, and the client's
    calls with their retries and the dispatcher.  The handler is an argument:
    [handler n body] is what the [n]-th invocation returns, [None] when it
    panics.

    The system is a server and clients, one per address.  A transport message
    may be lost, delayed, reordered and repeated: a delivery picks any frame
    sent so far.  An event is one step of one thread under its locks. *)

From S2P Require Import Prelude Bytes.

Definition RPC_HDR : Z := 8.
Definition DEFAULT_MAX_ATTEMPTS : Z := 5.
Definition SERVER_POOL_SIZE : Z := 32.

Definition encode_frame (rpc_id : Z) (body : list Z) : list Z := to_le 8 rpc_id ++ body.

(** The slices panic out of range; a frame too short is [Some None]. *)
Definition decode_frame (frame : list Z) : option (option (Z * list Z)) :=
  if zlen frame <? RPC_HDR then Some None else
  h ← slice frame 0 8;
  b ← slice frame RPC_HDR (zlen frame);
  Some (Some (from_le h, b)).

(** ** The server *)

Abbreviation rkey := (Z * Z)%type.

(** Jobs of the pool: run the handler on a request; with its response, fill
    the table and then send; send a response. *)
Inductive Job :=
  | JRun (src rpc_id : Z) (frame : list Z)
  | JStore (src rpc_id : Z) (resp : list Z)
  | JSend (dest : Z) (resp : list Z).

(** An invocation of the handler, for the record: the request's source and
    id, the body and what came out. *)
Record Invocation := mkInv {
  iv_key : rkey;
  iv_body : list Z;
  iv_result : option (list Z)
}.

Record Server := mkServer {
  sv_dedup : gmap rkey (option (list Z));
  sv_jobs : list Job;
  sv_running : list Job;
  sv_log : list Invocation;
  sv_sent : list (Z * list Z)
}.

Definition server_new : Server := mkServer ∅ [] [] [] [].

(** One turn of the receive loop. *)
Definition server_recv (src : Z) (frame : list Z) (s : Server) : option Server :=
  d ← decode_frame frame;
  match d with
  | None => Some s
  | Some (rpc_id, _) =>
      match sv_dedup s !! (src, rpc_id) with
      | Some (Some cached) =>
          Some (mkServer (sv_dedup s) (sv_jobs s ++ [JSend src cached]) (sv_running s) (sv_log s) (sv_sent s))
      | Some None => Some s
      | None =>
          Some (mkServer (<[(src, rpc_id) := None]> (sv_dedup s)) (sv_jobs s ++ [JRun src rpc_id frame])
            (sv_running s) (sv_log s) (sv_sent s))
      end
  end.

(** A free worker takes the first job; [None] when there is none. *)
Definition pool_take (s : Server) : option Server :=
  match sv_jobs s with
  | j :: jobs =>
      if zlen (sv_running s) <? SERVER_POOL_SIZE
      then Some (mkServer (sv_dedup s) jobs (sv_running s ++ [j]) (sv_log s) (sv_sent s)) else None
  | [] => None
  end.

(** The client's side of a call. *)
Inductive CallResult :=
  | Returned (body : list Z)
  | TimedOut
  | SendError.

Record Call := mkCall {
  ca_payload : list Z;
  ca_id : Z;
  ca_left : Z;
  ca_mailbox : option (list Z);
  ca_result : option CallResult
}.

Record Client := mkClient {
  cl_next : Z;
  cl_waiters : gmap Z Z;
  cl_calls : list Call
}.

Definition client_new : Client := mkClient 1 ∅ [].

(** [self.next_id.fetch_add(1)] *)
Definition fetch_add (x : Z) : Z := wrap64 (x + 1).

(** One attempt: the waiter is registered, then the frame is sent; an error
    of the send ends the call with the waiter in place.  The frame sent, if
    any. *)
Definition attempt (send_ok : bool) (i : Z) (k : Call) (c : Client) : option (Client * list (list Z)) :=
  let waiters := <[ca_id k := i]> (cl_waiters c) in
  let k' := mkCall (ca_payload k) (ca_id k) (ca_left k - 1) None (if send_ok then None else Some SendError) in
  calls ← vset (cl_calls c) i k';
  Some (mkClient (cl_next c) waiters calls,
        if send_ok then [encode_frame (ca_id k) (ca_payload k)] else []).

Definition call_start (send_ok : bool) (payload : list Z) (max_attempts : Z) (c : Client) : option (Client * list (list Z)) :=
  let k := mkCall payload (cl_next c) (Z.max max_attempts 1) None None in
  attempt send_ok (zlen (cl_calls c)) k (mkClient (fetch_add (cl_next c)) (cl_waiters c) (cl_calls c ++ [k])).

(** [recv_timeout] gave up: the waiter is removed, and the request is sent
    again or the call fails. *)
Definition call_timeout (send_ok : bool) (i : Z) (c : Client) : option (Client * list (list Z)) :=
  k ← vget (cl_calls c) i;
  if bool_decide (is_Some (ca_result k)) then None else
  let waiters := delete (ca_id k) (cl_waiters c) in
  if ca_left k <=? 0 then
    calls ← vset (cl_calls c) i (mkCall (ca_payload k) (ca_id k) (ca_left k) None (Some TimedOut));
    Some (mkClient (cl_next c) waiters calls, [])
  else attempt send_ok i k (mkClient (cl_next c) waiters (cl_calls c)).

(** [recv_timeout] got the body. *)
Definition call_take (i : Z) (c : Client) : option Client :=
  k ← vget (cl_calls c) i;
  match ca_mailbox k, ca_result k with
  | Some b, None =>
      calls ← vset (cl_calls c) i (mkCall (ca_payload k) (ca_id k) (ca_left k) None (Some (Returned b)));
      Some (mkClient (cl_next c) (cl_waiters c) calls)
  | _, _ => None
  end.

(** The dispatcher: the waiter of the id gets the body, whatever the source
    of the frame; without a waiter the frame is dropped. *)
Definition dispatch (frame : list Z) (c : Client) : option Client :=
  d ← decode_frame frame;
  match d with
  | None => Some c
  | Some (rpc_id, body) =>
      match cl_waiters c !! rpc_id with
      | None => Some c
      | Some i =>
          let waiters := delete rpc_id (cl_waiters c) in
          k ← vget (cl_calls c) i;
          calls ← vset (cl_calls c) i (mkCall (ca_payload k) (ca_id k) (ca_left k) (Some body) (ca_result k));
          Some (mkClient (cl_next c) waiters calls)
      end
  end.

(** ** The system *)

Section system.
Variable handler : nat → list Z → option (list Z).

(** A worker advances its job [j]: what replaces it among the running jobs. *)
Definition work (j : Job) (s : Server) : option (list Job * Server) :=
  match j with
  | JRun src rpc_id frame =>
      body ← slice frame RPC_HDR (zlen frame);
      let r := handler (length (sv_log s)) body in
      let log := sv_log s ++ [mkInv (src, rpc_id) body r] in
      Some (match r with Some resp => [JStore src rpc_id (encode_frame rpc_id resp)] | None => [] end,
            mkServer (sv_dedup s) (sv_jobs s) (sv_running s) log (sv_sent s))
  | JStore src rpc_id resp =>
      Some ([JSend src resp],
            mkServer (<[(src, rpc_id) := Some resp]> (sv_dedup s)) (sv_jobs s) (sv_running s) (sv_log s) (sv_sent s))
  | JSend dest resp =>
      Some ([], mkServer (sv_dedup s) (sv_jobs s) (sv_running s) (sv_log s) (sv_sent s ++ [(dest, resp)]))
  end.

Definition work_at (i : nat) (s : Server) : option Server :=
  j ← sv_running s !! i;
  '(js, s) ← work j s;
  Some (mkServer (sv_dedup s) (sv_jobs s) (take i (sv_running s) ++ js ++ drop (S i) (sv_running s)) (sv_log s) (sv_sent s)).

Record Sys := mkSys {
  sy_server : Server;
  sy_clients : gmap Z Client;
  sy_requests : list (Z * list Z)
}.

Inductive Event :=
  | EvCall (addr : Z) (payload : list Z) (max_attempts : Z) (send_ok : bool)
  | EvRequest (n : nat)
  | EvPool
  | EvWork (i : nat)
  | EvResponse (n : nat)
  | EvTake (addr i : Z)
  | EvTimeout (addr i : Z) (send_ok : bool)
  | EvRestart (addr : Z).

Definition set_client (a : Z) (c : Client) (y : Sys) : Sys :=
  mkSys (sy_server y) (<[a := c]> (sy_clients y)) (sy_requests y).

Definition set_server (s : Server) (y : Sys) : Sys := mkSys s (sy_clients y) (sy_requests y).

Definition sent_by (a : Z) (r : Client * list (list Z)) (y : Sys) : Sys :=
  mkSys (sy_server y) (<[a := r.1]> (sy_clients y)) (sy_requests y ++ ((a,.) <$> r.2)).

(** [None]: the event cannot happen now, or a panic. *)
Definition sys_step (e : Event) (y : Sys) : option Sys :=
  match e with
  | EvCall a payload m ok => c ← sy_clients y !! a; r ← call_start ok payload m c; Some (sent_by a r y)
  | EvRequest n => '(src, frame) ← sy_requests y !! n; s ← server_recv src frame (sy_server y); Some (set_server s y)
  | EvPool => s ← pool_take (sy_server y); Some (set_server s y)
  | EvWork i => s ← work_at i (sy_server y); Some (set_server s y)
  | EvResponse n =>
      '(dest, frame) ← sv_sent (sy_server y) !! n;
      c ← sy_clients y !! dest; c ← dispatch frame c; Some (set_client dest c y)
  | EvTake a i => c ← sy_clients y !! a; c ← call_take i c; Some (set_client a c y)
  | EvTimeout a i ok => c ← sy_clients y !! a; r ← call_timeout ok i c; Some (sent_by a r y)
  | EvRestart a => Some (set_client a client_new y)
  end.

Fixpoint sys_run (es : list Event) (y : Sys) : option Sys :=
  match es with
  | [] => Some y
  | e :: es' => y ← sys_step e y; sys_run es' y
  end.

Definition sys_new (addrs : list Z) : Sys := mkSys server_new (list_to_map ((., client_new) <$> addrs)) [].

End system.

#[global] Arguments encode_frame : simpl never.
#[global] Arguments decode_frame : simpl never.

(** ** Frames *)

Lemma zlen_to_le n x : zlen (to_le n x) = Z.of_nat n.
Proof. unfold zlen. by rewrite length_to_le. Qed.

Lemma frame_body id b : slice (encode_frame id b) RPC_HDR (zlen (encode_frame id b)) = Some b.
Proof. unfold encode_frame. apply slice_tail; [|done]. by rewrite zlen_to_le. Qed.

Lemma decode_encode_frame id b : is_u64 id → decode_frame (encode_frame id b) = Some (Some (id, b)).
Proof.
  intros Hid. unfold decode_frame. rewrite frame_body. unfold encode_frame. rewrite zlen_app, zlen_to_le.
  pose proof (zlen_nonneg b). rewrite (proj2 (Z.ltb_ge _ _)) by (unfold RPC_HDR; lia).
  rewrite slice_head by by rewrite zlen_to_le. cbn [mbind option_bind].
  by rewrite from_to_le by (unfold is_u64, u64_max in Hid; lia).
Qed.

Lemma decode_frame_total f : is_Some (decode_frame f).
Proof.
  unfold decode_frame. destruct (Z.ltb_spec (zlen f) RPC_HDR); [by eexists|].
  unfold RPC_HDR in *. rewrite !slice_ok by lia. by eexists.
Qed.

(** ** The server's invariant *)

(** The jobs that will run the handler, by key. *)
Definition run_keys (js : list Job) : list rkey :=
  omap (λ j, match j with JRun src id _ => Some (src, id) | _ => None end) js.

(** [resp] is the frame of a response the handler gave to [dest]. *)
Definition answered (log : list Invocation) (dest : Z) (resp : list Z) : Prop :=
  ∃ id b r, is_u64 id ∧ resp = encode_frame id r ∧ mkInv (dest, id) b (Some r) ∈ log.

(** [f] is the frame of a request, of which [P] holds. *)
Definition requested (P : rkey → list Z → Prop) (src : Z) (f : list Z) : Prop :=
  ∃ id b, is_u64 id ∧ f = encode_frame id b ∧ P (src, id) b.

Definition job_ok (P : rkey → list Z → Prop) (log : list Invocation) (j : Job) : Prop :=
  match j with
  | JRun src id f => is_u64 id ∧ ∃ b, f = encode_frame id b ∧ P (src, id) b
  | JStore src id resp => answered log src resp
  | JSend dest resp => answered log dest resp
  end.

Record srv_inv (P : rkey → list Z → Prop) (s : Server) : Prop := {
  si_once : NoDup (run_keys (sv_jobs s ++ sv_running s) ++ (iv_key <$> sv_log s));
  si_dedup : ∀ k, k ∈ run_keys (sv_jobs s ++ sv_running s) ++ (iv_key <$> sv_log s) → is_Some (sv_dedup s !! k);
  si_jobs : Forall (job_ok P (sv_log s)) (sv_jobs s ++ sv_running s);
  si_log : ∀ iv, iv ∈ sv_log s → P (iv_key iv) (iv_body iv);
  si_sent : ∀ d r, (d, r) ∈ sv_sent s → answered (sv_log s) d r;
  si_cached : ∀ k r, sv_dedup s !! k = Some (Some r) → answered (sv_log s) k.1 r
}.

Lemma answered_mono log log' d r : answered log d r → (∀ x, x ∈ log → x ∈ log') → answered log' d r.
Proof. intros (id & b & x & ? & ? & ?) Hs. exists id, b, x. auto. Qed.

Lemma job_ok_mono (P Q : rkey → list Z → Prop) log log' j : job_ok P log j →
  (∀ k b, P k b → Q k b) → (∀ x, x ∈ log → x ∈ log') → job_ok Q log' j.
Proof.
  destruct j; cbn; intros H HPQ Hs; [|by eapply answered_mono..].
  destruct H as (? & b & ? & ?). eauto.
Qed.

Lemma srv_inv_mono (P Q : rkey → list Z → Prop) s : srv_inv P s → (∀ k b, P k b → Q k b) → srv_inv Q s.
Proof.
  intros [] HPQ. split; auto. eapply Forall_impl; [done|]. intros. by eapply job_ok_mono.
Qed.

Lemma run_keys_app l k : run_keys (l ++ k) = run_keys l ++ run_keys k.
Proof. apply omap_app. Qed.

Lemma srv_inv_new P : srv_inv P server_new.
Proof. split; cbn; try set_solver; try constructor. Qed.

(** A new job at the end of the queue that does not run the handler. *)
Lemma srv_inv_recv P src f s : srv_inv P s → requested P src f →
  ∃ s', server_recv src f s = Some s' ∧ srv_inv P s' ∧ sv_log s' = sv_log s ∧ sv_sent s' = sv_sent s.
Proof.
  intros [Ho Hd Hj Hl Hs Hc] (id & b & Hid & -> & HP). unfold server_recv. rewrite decode_encode_frame by done.
  cbn [mbind option_bind]. destruct (sv_dedup s !! (src, id)) as [[cached|]|] eqn:E.
  - eexists. split; [done|]. split; [|done].
    assert (run_keys ((sv_jobs s ++ [JSend src cached]) ++ sv_running s) = run_keys (sv_jobs s ++ sv_running s)) as Hk.
    { rewrite !run_keys_app. cbn. by rewrite app_nil_r. }
    split; cbn [sv_jobs sv_running sv_log sv_dedup sv_sent]; rewrite ?Hk; try done.
    apply Forall_app in Hj as [? ?]. rewrite !Forall_app, Forall_singleton. split_and!; try done. by apply (Hc _ _ E).
  - eexists. split; [done|]. by split.
  - eexists. split; [done|]. split; [|done].
    assert ((run_keys ((sv_jobs s ++ [JRun src id (encode_frame id b)]) ++ sv_running s) ++ (iv_key <$> sv_log s)) ≡ₚ
      ((src, id) :: run_keys (sv_jobs s ++ sv_running s) ++ (iv_key <$> sv_log s))) as Hp.
    { rewrite !run_keys_app. change (run_keys [JRun src id _]) with [(src, id)]. rewrite <-!app_assoc. cbn [app].
      by rewrite <-Permutation_middle. }
    split; cbn [sv_jobs sv_running sv_log sv_dedup sv_sent]; try done.
    + rewrite Hp. constructor; [|done]. intros Hin%Hd. rewrite E in Hin. by destruct Hin.
    + intros k. rewrite Hp, elem_of_cons. intros [->|Hk%Hd]; [by rewrite lookup_insert_eq|].
      destruct (decide ((src, id) = k)) as [->|]; [by rewrite lookup_insert_eq|by rewrite lookup_insert_ne].
    + apply Forall_app in Hj as [? ?]. rewrite !Forall_app, Forall_singleton. split_and!; try done. cbn. eauto.
    + intros k r. rewrite lookup_insert_Some. intros [(_ & [=])|(_ & ?)]. by eapply Hc.
Qed.

(** The running jobs with the one at [i] taken out in front. *)
Lemma running_split {A} (l : list A) i x : l !! i = Some x → l ≡ₚ (x :: take i l ++ drop (S i) l).
Proof. intros Hx. rewrite <-(take_drop_middle l i x Hx) at 1. by rewrite <-Permutation_middle. Qed.

Lemma srv_inv_take P s s' : srv_inv P s → pool_take s = Some s' → srv_inv P s' ∧ sv_log s' = sv_log s ∧ sv_sent s' = sv_sent s.
Proof.
  intros [Ho Hd Hj Hl Hs Hc] E. unfold pool_take in E. destruct (sv_jobs s) as [|j jobs] eqn:Ej; [done|].
  destruct (_ <? _); [|done]. injection E as <-.
  assert ((jobs ++ sv_running s ++ [j]) ≡ₚ ((j :: jobs) ++ sv_running s)) as Hp.
  { rewrite app_assoc. by rewrite <-Permutation_cons_append. }
  assert (run_keys (jobs ++ sv_running s ++ [j]) ≡ₚ run_keys ((j :: jobs) ++ sv_running s)) as Hr.
  { unfold run_keys. by rewrite Hp. }
  split; [|done]. split; cbn [sv_jobs sv_running sv_log sv_dedup sv_sent]; try done.
  - by rewrite Hr.
  - intros k. rewrite Hr. apply Hd.
  - by rewrite Hp.
Qed.

(** A running job advances without a panic; every key keeps its one run. *)
Lemma work_inv P handler j s : srv_inv P s → job_ok P (sv_log s) j →
  ∃ js s', work handler j s = Some (js, s') ∧ sv_jobs s' = sv_jobs s ∧ sv_running s' = sv_running s ∧
    (run_keys js ++ (iv_key <$> sv_log s')) ≡ₚ (run_keys [j] ++ (iv_key <$> sv_log s)) ∧
    (∀ x, x ∈ sv_log s → x ∈ sv_log s') ∧
    Forall (job_ok P (sv_log s')) js ∧ (∀ iv, iv ∈ sv_log s' → P (iv_key iv) (iv_body iv)) ∧
    (∀ d r, (d, r) ∈ sv_sent s' → answered (sv_log s') d r) ∧
    (∀ k r, sv_dedup s' !! k = Some (Some r) → answered (sv_log s') k.1 r) ∧
    (∀ k, is_Some (sv_dedup s !! k) → is_Some (sv_dedup s' !! k)).
Proof.
  intros [Ho Hd Hj Hl Hs Hc] Hok. destruct j as [src id f|src id resp|d resp]; cbn [work].
  - destruct Hok as (Hid & b & -> & HP). rewrite frame_body. cbn [mbind option_bind].
    set (r := handler (length (sv_log s)) b). eexists _, _. split; [done|].
    cbn [sv_jobs sv_running sv_log sv_dedup sv_sent]. split_and!; try done.
    + rewrite fmap_app. cbn [fmap list_fmap iv_key]. change (run_keys [JRun src id _]) with [(src, id)].
      rewrite <-Permutation_cons_append. destruct r; done.
    + set_solver.
    + destruct r as [x|] eqn:Er; constructor; [|done]. cbn. exists id, b, x. split_and!; try done. set_solver.
    + intros iv. rewrite elem_of_app, list_elem_of_singleton. intros [?| ->]; [by apply Hl|done].
    + intros d x Hx%Hs. eapply answered_mono; [done|]. set_solver.
    + intros k x Hx%Hc. eapply answered_mono; [done|]. set_solver.
  - eexists _, _. split; [done|]. cbn [sv_jobs sv_running sv_log sv_dedup sv_sent]. split_and!; try done.
    + constructor; [|done]. exact Hok.
    + intros k x. rewrite lookup_insert_Some. intros [(<- & [= <-])|(_ & Hx)]; [exact Hok|by eapply Hc].
    + intros k Hk. destruct (decide ((src, id) = k)) as [->|]; [by rewrite lookup_insert_eq|by rewrite lookup_insert_ne].
  - eexists _, _. split; [done|]. cbn [sv_jobs sv_running sv_log sv_dedup sv_sent]. split_and!; try done.
    + intros d' x. rewrite elem_of_app, list_elem_of_singleton. intros [?|[= -> ->]]; [by apply Hs|exact Hok].
Qed.

Lemma srv_inv_work P handler i j s : srv_inv P s → sv_running s !! i = Some j →
  ∃ s', work_at handler i s = Some s' ∧ srv_inv P s' ∧ (∀ x, x ∈ sv_log s → x ∈ sv_log s').
Proof.
  intros Hinv Hi. pose proof Hinv as [Ho Hd Hj Hl Hs Hc]. pose proof (running_split _ _ _ Hi) as Hp.
  set (rest := take i (sv_running s) ++ drop (S i) (sv_running s)) in *.
  assert (job_ok P (sv_log s) j) as Hok.
  { rewrite Forall_forall in Hj. apply Hj. rewrite elem_of_app. right. by eapply list_elem_of_lookup_2. }
  destruct (work_inv P handler j s Hinv Hok) as (js & s' & E & Ej & Er & Hk & Hsub & Hjs & H1 & H2 & H3 & H4).
  unfold work_at. rewrite Hi. cbn [mbind option_bind]. rewrite E. cbn [mbind option_bind].
  eexists. split; [done|]. split; [|done]. rewrite Ej, Er.
  assert ((take i (sv_running s) ++ js ++ drop (S i) (sv_running s)) ≡ₚ (js ++ rest)) as Hp'.
  { unfold rest. rewrite app_assoc, (Permutation_app_comm (take i _) js), <-app_assoc. done. }
  assert ((run_keys (sv_jobs s ++ take i (sv_running s) ++ js ++ drop (S i) (sv_running s)) ++ (iv_key <$> sv_log s')) ≡ₚ
    (run_keys (sv_jobs s ++ sv_running s) ++ (iv_key <$> sv_log s))) as HK.
  { unfold run_keys at 1. rewrite Hp'. unfold run_keys at 1. rewrite Hp. fold (run_keys (sv_jobs s ++ js ++ rest)).
    fold (run_keys (sv_jobs s ++ j :: rest)). rewrite !run_keys_app.
    change (j :: rest) with ([j] ++ rest). rewrite run_keys_app, <-!app_assoc. f_equiv.
    rewrite (Permutation_app_comm (run_keys rest) (iv_key <$> sv_log s')), app_assoc, Hk, <-app_assoc.
    by rewrite (Permutation_app_comm (iv_key <$> sv_log s) (run_keys rest)). }
  split; cbn [sv_jobs sv_running sv_log sv_dedup sv_sent]; try done.
  - by rewrite HK.
  - intros k. rewrite HK. intros Hkk. by apply H4, Hd.
  - rewrite Hp', !Forall_app. rewrite Hp in Hj. apply Forall_app in Hj as [Hj1 Hj2].
    apply Forall_cons in Hj2 as [_ Hj2]. split_and!; [|done|];
      (eapply Forall_impl; [eassumption|]; intros; by eapply job_ok_mono).
Qed.

(** ** The client's invariant *)

(** The ids and payloads of a client's calls. *)
Definition calls_of (c : Client) : list (Z * list Z) := (λ k, (ca_id k, ca_payload k)) <$> cl_calls c.

(** The handler answered [b] to the request [id] of the client [a]. *)
Definition got (log : list Invocation) (a id : Z) (b : list Z) : Prop := ∃ body, mkInv (a, id) body (Some b) ∈ log.

Definition mail (k : Call) (b : list Z) : Prop := ca_mailbox k = Some b ∨ ca_result k = Some (Returned b).

Record cl_inv (a : Z) (log : list Invocation) (c : Client) : Prop := {
  ci_next : 1 ≤ cl_next c;
  ci_ids : Forall (λ p, 1 ≤ p.1 < cl_next c) (calls_of c);
  ci_uniq : NoDup (calls_of c).*1;
  ci_wait : ∀ id i, cl_waiters c !! id = Some i → ∃ k, vget (cl_calls c) i = Some k ∧ ca_id k = id;
  ci_mail : ∀ k b, k ∈ cl_calls c → mail k b → got log a (ca_id k) b
}.

Lemma cl_inv_mono a log log' c : cl_inv a log c → (∀ x, x ∈ log → x ∈ log') → cl_inv a log' c.
Proof. intros [] Hs. split; auto. intros k b Hk Hm. destruct (ci_mail0 k b Hk Hm) as [body ?]. exists body. auto. Qed.

Lemma cl_inv_new a log : cl_inv a log client_new.
Proof. split; cbn; try constructor; try done; set_solver. Qed.

(** An update of a call that keeps its id and payload. *)
Lemma cl_inv_update a log c i k k' waiters : cl_inv a log c → vget (cl_calls c) i = Some k →
  ca_id k' = ca_id k → ca_payload k' = ca_payload k → (∀ b, mail k' b → got log a (ca_id k) b) →
  (∀ id j, waiters !! id = Some j → cl_waiters c !! id = Some j ∨ (id = ca_id k ∧ j = i)) →
  ∃ calls, vset (cl_calls c) i k' = Some calls ∧ cl_inv a log (mkClient (cl_next c) waiters calls) ∧
    calls_of (mkClient (cl_next c) waiters calls) = calls_of c.
Proof.
  intros [Hn Hids Hu Hw Hm] Hk Eid Epl Hgot Hwait.
  pose proof (vget_bound _ _ _ Hk) as Hb. apply vget_Some in Hk as [Hi Hk].
  rewrite (vset_ok _ _ k' Hb). eexists. split; [done|].
  assert (calls_of (mkClient (cl_next c) waiters (<[Z.to_nat i := k']> (cl_calls c))) = calls_of c) as Ec.
  { unfold calls_of. cbn [cl_calls]. rewrite list_fmap_insert, Eid, Epl. apply list_insert_id.
    rewrite list_lookup_fmap, Hk. done. }
  split; [|exact Ec]. split; rewrite ?Ec; cbn [cl_next cl_waiters cl_calls]; try done.
  - intros id j Hj. assert (∃ k0, vget (cl_calls c) j = Some k0 ∧ ca_id k0 = id) as (k0 & Hk0 & <-).
    { destruct (Hwait _ _ Hj) as [?|[-> ->]]; [by apply Hw|]. exists k. split; [|done]. by apply vget_Some. }
    apply vget_Some in Hk0 as [Hj0 Hk0]. destruct (decide (Z.to_nat i = Z.to_nat j)) as [E|Hne].
    + exists k'. split; [|congruence]. apply vget_Some. split; [done|]. rewrite <-E.
      apply list_lookup_insert_eq. by eapply lookup_lt_Some.
    + exists k0. split; [|done]. apply vget_Some. split; [done|]. by rewrite list_lookup_insert_ne.
  - intros k0 b Hin Hmail. apply list_elem_of_lookup in Hin as [m Hm0].
    apply list_lookup_insert_Some in Hm0 as [(<- & <- & _)|(_ & Hm0)].
    + rewrite Eid. by apply Hgot.
    + apply (Hm k0 b); [by eapply list_elem_of_lookup_2|done].
Qed.

(** An attempt at a call that is in place. *)
Lemma attempt_inv a log ok i k c c' fs : cl_inv a log c → vget (cl_calls c) i = Some k →
  attempt ok i k c = Some (c', fs) →
  cl_inv a log c' ∧ calls_of c' = calls_of c ∧ cl_next c' = cl_next c ∧
  ∀ f, f ∈ fs → f = encode_frame (ca_id k) (ca_payload k).
Proof.
  intros Hinv Hk E. unfold attempt in E.
  destruct (cl_inv_update a log c i k
    (mkCall (ca_payload k) (ca_id k) (ca_left k - 1) None (if ok then None else Some SendError))
    (<[ca_id k := i]> (cl_waiters c)) Hinv Hk) as (calls & Ev & Hinv' & Ec); try done.
  { intros b [Hx|Hx]; [done|]. cbn in Hx. by destruct ok. }
  { intros id j. rewrite lookup_insert_Some. intros [[-> ->]|[_ ?]]; auto. }
  rewrite Ev in E. cbn [mbind option_bind] in E. injection E as <- <-.
  split_and!; try done. destruct ok; set_solver.
Qed.

Lemma call_start_inv a log ok payload m c c' fs : cl_inv a log c → cl_next c < u64_max →
  call_start ok payload m c = Some (c', fs) →
  cl_inv a log c' ∧ calls_of c' = calls_of c ++ [(cl_next c, payload)] ∧ cl_next c' = cl_next c + 1 ∧
  ∀ f, f ∈ fs → f = encode_frame (cl_next c) payload.
Proof.
  intros [Hn Hids Hu Hw Hm] Hmax E. unfold call_start in E.
  assert (fetch_add (cl_next c) = cl_next c + 1) as Ef.
  { unfold fetch_add, wrap64. apply Z.mod_small. unfold u64_max in Hmax. lia. }
  rewrite Ef in E. set (k := mkCall payload (cl_next c) (Z.max m 1) None None) in *.
  set (c0 := mkClient (cl_next c + 1) (cl_waiters c) (cl_calls c ++ [k])) in *.
  assert (calls_of c0 = calls_of c ++ [(cl_next c, payload)]) as Ec by (unfold calls_of; cbn; by rewrite fmap_app).
  assert (cl_inv a log c0) as H0.
  { split; rewrite ?Ec; cbn [c0 cl_next cl_waiters cl_calls]; [lia|..].
    - apply Forall_app. split; [eapply Forall_impl; [exact Hids|]; cbn; intros; lia|]. constructor; [cbn; lia|constructor].
    - rewrite fmap_app. apply NoDup_app. split; [done|]. split; [|by apply NoDup_singleton].
      intros id (p & Ep & Hp)%list_elem_of_fmap Hid. cbn in Hid. apply list_elem_of_singleton in Hid.
      rewrite Forall_forall in Hids. specialize (Hids p Hp). cbn in *. lia.
    - intros id i Hi. destruct (Hw _ _ Hi) as (k0 & Hk0 & ?). exists k0. split; [|done].
      apply vget_Some in Hk0 as [? ?]. apply vget_Some. split; [done|]. by apply lookup_app_l_Some.
    - intros k0 b. rewrite elem_of_app, list_elem_of_singleton. intros [?| ->] Hmail; [by apply Hm|]. by destruct Hmail. }
  assert (vget (cl_calls c0) (zlen (cl_calls c)) = Some k) as Hk.
  { apply vget_Some. split; [apply zlen_nonneg|]. unfold zlen. rewrite Nat2Z.id. cbn. by apply list_lookup_middle. }
  destruct (attempt_inv a log ok _ k c0 c' fs H0 Hk E) as (? & E1 & E2 & ?). rewrite E1, E2. done.
Qed.

Lemma call_timeout_inv a log ok i c c' fs : cl_inv a log c → call_timeout ok i c = Some (c', fs) →
  cl_inv a log c' ∧ calls_of c' = calls_of c ∧ cl_next c' = cl_next c ∧
  ∀ f, f ∈ fs → ∃ p, p ∈ calls_of c ∧ f = encode_frame p.1 p.2.
Proof.
  intros Hinv E. unfold call_timeout in E. apply bind_Some in E as (k & Hk & E).
  assert ((ca_id k, ca_payload k) ∈ calls_of c) as Hin.
  { apply vget_Some in Hk as [_ Hk]. unfold calls_of. apply list_elem_of_fmap. exists k. split; [done|].
    by eapply list_elem_of_lookup_2. }
  case_bool_decide; [done|]. destruct (ca_left k <=? 0).
  - destruct (cl_inv_update a log c i k (mkCall (ca_payload k) (ca_id k) (ca_left k) None (Some TimedOut))
      (delete (ca_id k) (cl_waiters c)) Hinv Hk) as (calls & Ev & Hinv' & Ec); try done.
    { by intros b [?|?]. }
    { intros id j. rewrite lookup_delete_Some. intros [_ ?]. auto. }
    rewrite Ev in E. cbn [mbind option_bind] in E. injection E as <- <-. split_and!; try done. set_solver.
  - assert (cl_inv a log (mkClient (cl_next c) (delete (ca_id k) (cl_waiters c)) (cl_calls c))) as H0.
    { destruct Hinv as [Hn Hids Hu Hw Hm]. split; try done. cbn. intros id j. rewrite lookup_delete_Some. intros [_ ?]. by apply Hw. }
    destruct (attempt_inv a log ok i k _ c' fs H0 Hk E) as (? & E1 & E2 & Hf). split_and!; try done.
    intros f ->%Hf. eauto.
Qed.

Lemma call_take_inv a log i c c' : cl_inv a log c → call_take i c = Some c' →
  cl_inv a log c' ∧ calls_of c' = calls_of c ∧ cl_next c' = cl_next c.
Proof.
  intros Hinv E. unfold call_take in E. apply bind_Some in E as (k & Hk & E).
  destruct (ca_mailbox k) as [b|] eqn:Em; [|done]. destruct (ca_result k) eqn:Er; [done|].
  destruct (cl_inv_update a log c i k (mkCall (ca_payload k) (ca_id k) (ca_left k) None (Some (Returned b)))
    (cl_waiters c) Hinv Hk) as (calls & Ev & Hinv' & Ec); try done; [|by auto|].
  { intros b' [?|[= <-]]; [done|]. apply (ci_mail _ _ _ Hinv k b); [|by left].
    apply vget_Some in Hk as [_ Hk]. by eapply list_elem_of_lookup_2. }
  rewrite Ev in E. cbn [mbind option_bind] in E. injection E as <-. done.
Qed.

Lemma dispatch_inv a log f c : cl_inv a log c → answered log a f →
  ∃ c', dispatch f c = Some c' ∧ cl_inv a log c' ∧ calls_of c' = calls_of c ∧ cl_next c' = cl_next c.
Proof.
  intros Hinv (id & b & r & Hid & -> & Hlog). unfold dispatch. rewrite decode_encode_frame by done. cbn [mbind option_bind].
  destruct (cl_waiters c !! id) as [i|] eqn:Ew; [|eauto].
  destruct (ci_wait _ _ _ Hinv _ _ Ew) as (k & Hk & Eid). rewrite Hk. cbn [mbind option_bind].
  destruct (cl_inv_update a log c i k (mkCall (ca_payload k) (ca_id k) (ca_left k) (Some r) (ca_result k))
    (delete id (cl_waiters c)) Hinv Hk) as (calls & Ev & Hinv' & Ec); try done.
  { intros b' [[= <-]|Hr]; [rewrite Eid; by exists b|]. apply (ci_mail _ _ _ Hinv k b'); [|by right].
    apply vget_Some in Hk as [_ Hk]. by eapply list_elem_of_lookup_2. }
  { intros id' j. rewrite lookup_delete_Some. intros [_ ?]. auto. }
  rewrite Ev. cbn [mbind option_bind]. eexists. split; [done|]. done.
Qed.

(** ** The system's invariant *)

(** The request [k.2] with payload [b] was sent from the address [k.1]; unless
    clients at that address were restarted ([R]), it is a call of the client
    there. *)
Definition asked (R : Z → Prop) (y : Sys) (k : rkey) (b : list Z) : Prop :=
  (k.1, encode_frame k.2 b) ∈ sy_requests y ∧
  ∃ c, sy_clients y !! k.1 = Some c ∧ (¬ R k.1 → (k.2, b) ∈ calls_of c).

Record sys_inv (R : Z → Prop) (n : Z) (y : Sys) : Prop := {
  yi_server : srv_inv (asked R y) (sy_server y);
  yi_clients : ∀ a c, sy_clients y !! a = Some c → cl_inv a (sv_log (sy_server y)) c ∧ cl_next c ≤ n + 1;
  yi_requests : ∀ src f, (src, f) ∈ sy_requests y → requested (asked R y) src f
}.

Lemma requested_mono (P Q : rkey → list Z → Prop) src f : requested P src f → (∀ k b, P k b → Q k b) → requested Q src f.
Proof. intros (id & b & ? & ? & ?) HPQ. exists id, b. auto. Qed.

(** Only the server changes, its log growing. *)
Lemma sys_inv_server R n y s' : sys_inv R n y → srv_inv (asked R y) s' →
  (∀ x, x ∈ sv_log (sy_server y) → x ∈ sv_log s') → sys_inv R (n + 1) (set_server s' y).
Proof.
  intros [Hs Hc Hr] Hs' Hsub. split; cbn; try done. intros a c [H1 H2]%Hc. split; [by eapply cl_inv_mono|lia].
Qed.

(** Only the client at [a] changes, keeping its calls, and [fs] are sent. *)
Lemma sys_inv_client R n y a c c' fs : sys_inv R n y → sy_clients y !! a = Some c → n < u64_max →
  cl_inv a (sv_log (sy_server y)) c' → cl_next c' ≤ cl_next c + 1 → (∀ p, p ∈ calls_of c → p ∈ calls_of c') →
  (∀ f, f ∈ fs → ∃ p, p ∈ calls_of c' ∧ f = encode_frame p.1 p.2) →
  sys_inv R (n + 1) (sent_by a (c', fs) y).
Proof.
  intros [Hs Hc Hr] Ha Hn Hc' Hnext Hsub Hfs.
  assert (∀ k b, asked R y k b → asked R (sent_by a (c', fs) y) k b) as Hask.
  { intros k b (Hreq & c0 & H0 & Hin). unfold asked. cbn. split; [set_solver|]. destruct (decide (a = k.1)) as [->|].
    - rewrite lookup_insert_eq. exists c'. split; [done|]. rewrite Ha in H0. injection H0 as <-. auto.
    - rewrite lookup_insert_ne by done. eauto. }
  split; cbn.
  - by eapply srv_inv_mono.
  - intros a0 c0. destruct (decide (a = a0)) as [->|].
    + rewrite lookup_insert_eq. intros [= <-]. destruct (Hc _ _ Ha). split; [done|lia].
    + rewrite lookup_insert_ne by done. intros [? ?]%Hc. split; [done|lia].
  - intros src f. rewrite elem_of_app. intros [Hin|Hin].
    + eapply requested_mono; [by apply Hr|done].
    + apply list_elem_of_fmap in Hin as (f' & [= -> ->] & Hf). destruct (Hfs _ Hf) as ([id b] & Hp & ->).
      exists id, b. split_and!; [|done|].
      * pose proof (ci_ids _ _ _ Hc') as Hids. rewrite Forall_forall in Hids. specialize (Hids _ Hp). cbn in Hids.
        destruct (Hc _ _ Ha). unfold is_u64, u64_max in *. lia.
      * unfold asked. cbn. rewrite lookup_insert_eq. split; [|by eauto].
        apply elem_of_app. right. apply list_elem_of_fmap. eauto.
Qed.

(** A client is replaced by a new one at the same address. *)
Lemma sys_inv_restart R n y a : sys_inv R n y → 0 ≤ n → R a → sys_inv R (n + 1) (set_client a client_new y).
Proof.
  intros [Hs Hc Hr] Hn Ha.
  assert (∀ k b, asked R y k b → asked R (set_client a client_new y) k b) as Hask.
  { intros k b (Hreq & c0 & H0 & Hin). unfold asked. cbn. split; [done|]. destruct (decide (a = k.1)) as [->|].
    - rewrite lookup_insert_eq. exists client_new. done.
    - rewrite lookup_insert_ne by done. eauto. }
  split; cbn.
  - by eapply srv_inv_mono.
  - intros a0 c0. destruct (decide (a = a0)) as [->|].
    + rewrite lookup_insert_eq. intros [= <-]. split; [apply cl_inv_new|cbn; lia].
    + rewrite lookup_insert_ne by done. intros [? ?]%Hc. split; [done|lia].
  - intros src f Hin. eapply requested_mono; [by apply Hr|done].
Qed.

Lemma set_client_sent a c y : set_client a c y = sent_by a (c, []) y.
Proof. unfold set_client, sent_by. cbn. by rewrite app_nil_r. Qed.

Lemma sys_step_inv handler R n e y y' : sys_inv R n y → 0 ≤ n < u64_max - 1 → (∀ a, e = EvRestart a → R a) →
  sys_step handler e y = Some y' → sys_inv R (n + 1) y'.
Proof.
  intros Hinv Hn He E. pose proof Hinv as [Hs Hc Hr].
  destruct e as [a payload m ok|i| |i|i|a i|a i ok|a]; cbn [sys_step] in E.
  - apply bind_Some in E as (c & Ha & ([c' fs] & E & [= <-])%bind_Some). destruct (Hc _ _ Ha) as [Hci Hnx].
    destruct (call_start_inv a _ ok payload m c c' fs Hci ltac:(lia) E) as (H1 & H2 & H3 & H4).
    eapply sys_inv_client; [done..|lia|done|lia| |].
    + intros p Hp. rewrite H2. set_solver.
    + intros f ->%H4. exists (cl_next c, payload). rewrite H2. split; [set_solver|done].
  - apply bind_Some in E as ([src f] & Hi & (s & E & [= <-])%bind_Some).
    destruct (srv_inv_recv _ src f _ Hs) as (s' & E' & Hs' & Hl & _); [apply Hr; by eapply list_elem_of_lookup_2|].
    rewrite E' in E. injection E as <-. apply sys_inv_server; [done..|]. by rewrite Hl.
  - apply bind_Some in E as (s & E & [= <-]). destruct (srv_inv_take _ _ _ Hs E) as (Hs' & Hl & _).
    apply sys_inv_server; [done..|]. by rewrite Hl.
  - apply bind_Some in E as (s & E & [= <-]).
    destruct (sv_running (sy_server y) !! i) as [j|] eqn:Hj; [|by unfold work_at in E; rewrite Hj in E].
    destruct (srv_inv_work _ handler i j _ Hs Hj) as (s' & E' & Hs' & Hl). rewrite E' in E. injection E as <-.
    by apply sys_inv_server.
  - apply bind_Some in E as ([d f] & Hi & (c & Ha & (c' & E & [= <-])%bind_Some)%bind_Some). destruct (Hc _ _ Ha) as [Hci Hnx].
    destruct (dispatch_inv d _ f c Hci) as (c1 & E1 & H1 & H2 & H3); [apply (si_sent _ _ Hs); by eapply list_elem_of_lookup_2|].
    rewrite E1 in E. injection E as <-. rewrite set_client_sent.
    eapply sys_inv_client; [done..|lia|done|lia|by rewrite H2|set_solver].
  - apply bind_Some in E as (c & Ha & (c' & E & [= <-])%bind_Some). destruct (Hc _ _ Ha) as [Hci Hnx].
    destruct (call_take_inv a _ i c c' Hci E) as (H1 & H2 & H3). rewrite set_client_sent.
    eapply sys_inv_client; [done..|lia|done|lia|by rewrite H2|set_solver].
  - apply bind_Some in E as (c & Ha & ([c' fs] & E & [= <-])%bind_Some). destruct (Hc _ _ Ha) as [Hci Hnx].
    destruct (call_timeout_inv a _ ok i c c' fs Hci E) as (H1 & H2 & H3 & H4).
    eapply sys_inv_client; [done..|lia|done|lia|by rewrite H2|]. by rewrite H2.
  - injection E as <-. apply sys_inv_restart; [done|lia|by apply He].
Qed.

Lemma sys_inv_new R addrs : sys_inv R 0 (sys_new addrs).
Proof.
  split; cbn.
  - apply srv_inv_new.
  - intros a c Ha. apply elem_of_list_to_map_2, list_elem_of_fmap in Ha as (x & [= _ ->] & _).
    split; [apply cl_inv_new|done].
  - set_solver.
Qed.

Lemma sys_run_inv handler R es n y y' : sys_inv R n y → 0 ≤ n → n + zlen es < u64_max →
  (∀ a, EvRestart a ∈ es → R a) → sys_run handler es y = Some y' → sys_inv R (n + zlen es) y'.
Proof.
  revert n y. induction es as [|e es IH]; intros n y Hinv H0 Hn Hr E; cbn [sys_run] in E.
  - injection E as <-. by rewrite zlen_nil, Z.add_0_r.
  - apply bind_Some in E as (y1 & E1 & E2). rewrite zlen_cons in *. pose proof (zlen_nonneg es).
    replace (n + (1 + zlen es)) with (n + 1 + zlen es) by lia. eapply (IH (n + 1) y1); [|lia|lia|set_solver|done].
    eapply sys_step_inv; [done|lia| |done]. intros a ->. apply (Hr a). set_solver.
Qed.

(** The addresses that a run restarts. *)
Definition restarted (es : list Event) (a : Z) : Prop := EvRestart a ∈ es.

Lemma sys_run_inv_new handler addrs es y : sys_run handler es (sys_new addrs) = Some y → zlen es < u64_max →
  sys_inv (restarted es) (zlen es) y.
Proof.
  intros E Hn. pose proof (sys_inv_new (restarted es) addrs) as H0.
  pose proof (sys_run_inv handler (restarted es) es 0 _ _ H0 ltac:(lia) ltac:(lia) (λ a Ha, Ha) E) as H.
  by rewrite Z.add_0_l in H.
Qed.

(** The record of invocations is what the handler did. *)
Definition honest (handler : nat → list Z → option (list Z)) (log : list Invocation) : Prop :=
  ∀ m iv, log !! m = Some iv → iv_result iv = handler m (iv_body iv).

Lemma work_honest handler i s s' : honest handler (sv_log s) → work_at handler i s = Some s' → honest handler (sv_log s').
Proof.
  intros Hh (j & Hj & ([js s1] & E & [= <-])%bind_Some)%bind_Some. cbn [sv_log].
  destruct j; cbn [work] in E; [|by injection E as <- <-..].
  apply bind_Some in E as (body & _ & [= <- <-]). cbn [sv_log]. intros m iv Hm.
  apply lookup_app_Some in Hm as [Hm|[Hge Hm]]; [by apply Hh|].
  apply list_lookup_singleton_Some in Hm as [Hm <-]. cbn. f_equal. lia.
Qed.

Lemma sys_step_honest handler e y y' : honest handler (sv_log (sy_server y)) →
  sys_step handler e y = Some y' → honest handler (sv_log (sy_server y')).
Proof.
  intros Hh E. destruct e as [a payload m ok|i| |i|i|a i|a i ok|a]; cbn [sys_step] in E.
  - apply bind_Some in E as (c & _ & (r & _ & [= <-])%bind_Some). done.
  - apply bind_Some in E as ([src f] & _ & (s & E & [= <-])%bind_Some). unfold server_recv in E.
    apply bind_Some in E as (d & _ & E). repeat case_match; simplify_eq; done.
  - apply bind_Some in E as (s & E & [= <-]). unfold pool_take in E. repeat case_match; simplify_eq; done.
  - apply bind_Some in E as (s & E & [= <-]). by eapply work_honest.
  - apply bind_Some in E as ([d f] & _ & (c & _ & (c' & _ & [= <-])%bind_Some)%bind_Some). done.
  - apply bind_Some in E as (c & _ & (c' & _ & [= <-])%bind_Some). done.
  - apply bind_Some in E as (c & _ & (r & _ & [= <-])%bind_Some). done.
  - by injection E as <-.
Qed.

Lemma sys_run_honest handler es y y' : honest handler (sv_log (sy_server y)) →
  sys_run handler es y = Some y' → honest handler (sv_log (sy_server y')).
Proof.
  revert y. induction es as [|e es IH]; intros y Hh E; cbn [sys_run] in E; [by injection E as <-|].
  apply bind_Some in E as (y1 & E1 & E2). eapply IH; [|done]. by eapply sys_step_honest.
Qed.

(** What a call got is what the handler gave to a payload sent from its
    address under its id: its own, unless clients there were restarted. *)
Lemma result_is_own R n y a c k b : sys_inv R n y → sy_clients y !! a = Some c → k ∈ cl_calls c → mail k b →
  ∃ body, mkInv (a, ca_id k) body (Some b) ∈ sv_log (sy_server y) ∧
    (a, encode_frame (ca_id k) body) ∈ sy_requests y ∧ (¬ R a → body = ca_payload k).
Proof.
  intros [Hs Hc _] Ha Hk Hm. destruct (Hc _ _ Ha) as [Hci _]. destruct (ci_mail _ _ _ Hci k b Hk Hm) as [body Hb].
  destruct (si_log _ _ Hs _ Hb) as (Hreq & c' & Ha' & Hin). cbn in Hreq, Ha', Hin. rewrite Ha in Ha'. injection Ha' as <-.
  exists body. split_and!; [done..|]. intros HR. specialize (Hin HR).
  assert ((ca_id k, ca_payload k) ∈ calls_of c) as Hin' by (apply list_elem_of_fmap; by exists k).
  apply list_elem_of_lookup in Hin as [i Hi]. apply list_elem_of_lookup in Hin' as [j Hj].
  assert (i = j) as ->.
  { eapply (NoDup_lookup _ _ _ (ca_id k) (ci_uniq _ _ _ Hci)); rewrite list_lookup_fmap, ?Hi, ?Hj; done. }
  congruence.
Qed.

(** ** Claims *)

(** [C29] Whatever the network does with the frames, however threads and
    timeouts interleave and whichever clients are restarted, the handler runs
    at most once per client address and request id while the server lives,
    on a payload sent from that address under that id.  A call that returns
    does so with the answer of that one run; at an address where no client
    was restarted the run had the call's own payload. *)
Theorem rpc_at_most_once handler addrs es y :
  sys_run handler es (sys_new addrs) = Some y → zlen es < u64_max →
  NoDup (iv_key <$> sv_log (sy_server y)) ∧
  (∀ iv, iv ∈ sv_log (sy_server y) → ((iv_key iv).1, encode_frame (iv_key iv).2 (iv_body iv)) ∈ sy_requests y) ∧
  ∀ a c k b, sy_clients y !! a = Some c → k ∈ cl_calls c → ca_result k = Some (Returned b) →
    ∃ m body, sv_log (sy_server y) !! m = Some (mkInv (a, ca_id k) body (Some b)) ∧
      handler m body = Some b ∧ (EvRestart a ∉ es → body = ca_payload k).
Proof.
  intros E Hn. pose proof (sys_run_inv_new handler addrs es y E Hn) as Hinv. split_and!.
  - pose proof (si_once _ _ (yi_server _ _ _ Hinv)) as Ho. by apply NoDup_app in Ho as (_ & _ & ?).
  - intros iv Hiv. by apply (si_log _ _ (yi_server _ _ _ Hinv)).
  - intros a c k b Ha Hk Hres.
    destruct (result_is_own _ _ _ _ _ _ _ Hinv Ha Hk (or_intror Hres)) as (body & Hlog & _ & Hown).
    apply list_elem_of_lookup in Hlog as [m Hm]. exists m, body. split; [done|]. split; [|exact Hown].
    assert (honest handler (sv_log (sy_server y))) as Hh.
    { eapply sys_run_honest; [|exact E]. intros i iv Hi. discriminate Hi. }
    symmetry. exact (Hh _ _ Hm).
Qed.

Definition ex_echo (n : nat) (b : list Z) : option (list Z) := Some (b ++ [Z.of_nat n]).

(** A call whose request is delivered twice and whose response comes back. *)
Definition ex_events (payload : list Z) : list Event :=
  [EvCall 7 payload 5 true; EvRequest 0; EvRequest 0; EvPool; EvWork 0; EvWork 0; EvRequest 0; EvWork 0; EvResponse 0; EvTake 7 0].

Definition results (a : Z) (y : Sys) : option (list (option CallResult)) :=
  c ← sy_clients y !! a; Some (ca_result <$> cl_calls c).

(** A second client, at the address [8], is restarted meanwhile. *)
Lemma rpc_at_most_once_witness :
  ∃ y, sys_run ex_echo (EvRestart 8 :: ex_events [5; 6]) (sys_new [7; 8]) = Some y ∧
    results 7 y = Some [Some (Returned [5; 6; 0])] ∧
    NoDup (iv_key <$> sv_log (sy_server y)) ∧
    ∀ c k b, sy_clients y !! 7 = Some c → k ∈ cl_calls c → ca_result k = Some (Returned b) →
      ∃ m, ex_echo m (ca_payload k) = Some b.
Proof.
  destruct (sys_run ex_echo (EvRestart 8 :: ex_events [5; 6]) (sys_new [7; 8])) as [y|] eqn:E; [|vm_compute in E; discriminate E].
  exists y. split; [reflexivity|]. split.
  - assert ((y ← sys_run ex_echo (EvRestart 8 :: ex_events [5; 6]) (sys_new [7; 8]); results 7 y) =
      Some [Some (Returned [5; 6; 0])]) as H by (vm_compute; reflexivity).
    rewrite E in H. exact H.
  - destruct (rpc_at_most_once ex_echo [7; 8] (EvRestart 8 :: ex_events [5; 6]) y E) as (Hn & _ & Hr); [reflexivity|].
    split; [exact Hn|]. intros c k b Hc Hk Hb. destruct (Hr 7 c k b Hc Hk Hb) as (m & body & _ & Hm & Hown).
    exists m. rewrite <-Hown; [exact Hm|]. intros Hin%list_elem_of_In.
    repeat (destruct Hin as [Hin|Hin]; [discriminate Hin|]). exact Hin.
Defined.

(** In every reachable state no thread can panic: every request sent can
    be received, every running job advanced, every response dispatched. *)
Theorem rpc_never_panics handler addrs es y :
  sys_run handler es (sys_new addrs) = Some y → zlen es < u64_max →
  (∀ n, is_Some (sy_requests y !! n) → is_Some (sys_step handler (EvRequest n) y)) ∧
  (∀ i, is_Some (sv_running (sy_server y) !! i) → is_Some (sys_step handler (EvWork i) y)) ∧
  (∀ n d f, sv_sent (sy_server y) !! n = Some (d, f) → is_Some (sys_step handler (EvResponse n) y)).
Proof.
  intros E Hn. destruct (sys_run_inv_new handler addrs es y E Hn) as [Hs Hc Hq].
  cbn [sys_step]. split_and!.
  - intros n [[src f] Hf]. rewrite Hf. cbn [mbind option_bind].
    destruct (srv_inv_recv _ src f _ Hs) as (s' & -> & _); [apply Hq; by eapply list_elem_of_lookup_2|]. by eexists.
  - intros i [j Hj]. destruct (srv_inv_work _ handler i j _ Hs Hj) as (s' & -> & _). by eexists.
  - intros n d f Hf. rewrite Hf. cbn [mbind option_bind].
    assert (answered (sv_log (sy_server y)) d f) as Ha by (apply (si_sent _ _ Hs); by eapply list_elem_of_lookup_2).
    pose proof Ha as (id & b & r & _ & _ & Hlog). destruct (si_log _ _ Hs _ Hlog) as (_ & c & Hcl & _). cbn in Hcl.
    rewrite Hcl. cbn [mbind option_bind]. destruct (Hc _ _ Hcl) as [Hci _].
    destruct (dispatch_inv d _ f c Hci Ha) as (c' & -> & _). by eexists.
Qed.

Lemma rpc_never_panics_witness :
  ∃ y, sys_run ex_echo [EvCall 7 [1] 5 true; EvRequest 0; EvPool] (sys_new [7]) = Some y ∧
    ∀ i, is_Some (sv_running (sy_server y) !! i) → is_Some (sys_step ex_echo (EvWork i) y).
Proof.
  destruct (sys_run ex_echo [EvCall 7 [1] 5 true; EvRequest 0; EvPool] (sys_new [7])) as [y|] eqn:E; [|vm_compute in E; discriminate E].
  exists y. split; [reflexivity|].
  apply (rpc_never_panics ex_echo [7] [EvCall 7 [1] 5 true; EvRequest 0; EvPool] y E). reflexivity.
Defined.

(** A request whose handler panicked is never answered, however often it
    is sent again: its place in the table stays taken, and the handler is
    not run a second time. *)
Theorem panicked_call_never_returns handler addrs es y a c k body b :
  sys_run handler es (sys_new addrs) = Some y → zlen es < u64_max →
  sy_clients y !! a = Some c → k ∈ cl_calls c →
  mkInv (a, ca_id k) body None ∈ sv_log (sy_server y) → ca_result k ≠ Some (Returned b).
Proof.
  intros E Hn Ha Hk Hp Hres. pose proof (sys_run_inv_new handler addrs es y E Hn) as Hinv.
  destruct (result_is_own _ _ _ _ _ _ _ Hinv Ha Hk (or_intror Hres)) as (body' & Hlog & _).
  pose proof (si_once _ _ (yi_server _ _ _ Hinv)) as Ho. apply NoDup_app in Ho as (_ & _ & Ho).
  apply list_elem_of_lookup in Hlog as [i Hi]. apply list_elem_of_lookup in Hp as [j Hj].
  assert (i = j) as ->; [|congruence].
  eapply (NoDup_lookup _ _ _ (a, ca_id k) Ho); rewrite list_lookup_fmap, ?Hi, ?Hj; done.
Qed.

(** A handler that fails once. *)
Definition ex_fails_once (n : nat) (b : list Z) : option (list Z) := match n with O => None | _ => Some b end.

Definition ex_retries : list Event :=
  [EvCall 7 [1] 2 true; EvRequest 0; EvPool; EvWork 0; EvTimeout 7 0 true; EvRequest 1; EvTimeout 7 0 true].

Lemma panicked_call_never_returns_witness :
  (y ← sys_run ex_fails_once ex_retries (sys_new [7]); results 7 y) = Some [Some TimedOut] ∧
  ∃ y c k, sys_run ex_fails_once ex_retries (sys_new [7]) = Some y ∧ sy_clients y !! 7 = Some c ∧ k ∈ cl_calls c ∧
    ca_result k ≠ Some (Returned [1]).
Proof.
  split; [vm_compute; reflexivity|].
  eexists _, _, (mkCall [1] 1 0 None (Some TimedOut)). split; [vm_compute; reflexivity|].
  split; [vm_compute; reflexivity|]. split; [by left|].
  eapply (panicked_call_never_returns ex_fails_once [7] ex_retries _ 7 _ (mkCall [1] 1 0 None (Some TimedOut)) [1] [1]).
  - vm_compute; reflexivity.
  - reflexivity.
  - vm_compute; reflexivity.
  - by left.
  - by left.
Defined.

(** A client that restarts on its address numbers its calls from 1 again
    and is answered from the table with the responses to its former calls:
    the call with payload [9] returns the answer to the payload [5]. *)
Theorem restarted_client_gets_stale_answer :
  (y ← sys_run ex_echo (ex_events [5] ++ [EvRestart 7; EvCall 7 [9] 5 true; EvRequest 1; EvPool; EvWork 0; EvPool; EvWork 0; EvResponse 1; EvTake 7 0])
        (sys_new [7]);
   results 7 y) = Some [Some (Returned [5; 0])].
Proof. vm_compute. reflexivity. Qed.
