(* ===== verification/HomaRpcTimed.v ===== *)
(** * Homa RPC: the calls of the benchmarks

    Models the rest of [crates/homa-rpc/src/rpc/mod.rs]: [send_only] and
    [call_timed], which send before they wait, on the clients and the server
    of [HomaRpc], and the TCP echo of [tcp_baseline] over a byte stream. *)

From S2P Require Import Prelude Bytes HomaRpc.

(** ** Calls that send first *)

(** [send_only], and [call_timed] up to its send: a number is drawn and the
    frame sent, without a waiter. *)
Definition timed_send (send_ok : bool) (payload : list Z) (c : Client) : Client * list (list Z) :=
  let k := mkCall payload (cl_next c) 0 None (if send_ok then None else Some SendError) in
  (mkClient (fetch_add (cl_next c)) (cl_waiters c) (cl_calls c ++ [k]), if send_ok then [encode_frame (cl_next c) payload] else []).

(** [call_timed] enters its waiter. *)
Definition timed_register (i : Z) (c : Client) : option Client :=
  k ← vget (cl_calls c) i;
  if bool_decide (is_Some (ca_result k)) then None
  else Some (mkClient (cl_next c) (<[ca_id k := i]> (cl_waiters c)) (cl_calls c)).

(** [recv_timeout] gave up. *)
Definition timed_timeout (i : Z) (c : Client) : option Client :=
  k ← vget (cl_calls c) i;
  if bool_decide (is_Some (ca_result k)) then None else
  calls ← vset (cl_calls c) i (mkCall (ca_payload k) (ca_id k) (ca_left k) None (Some TimedOut));
  Some (mkClient (cl_next c) (delete (ca_id k) (cl_waiters c)) calls).

Section timed.
Variable handler : nat → list Z → option (list Z).

Inductive TimedEv :=
  | TvBase (e : Event)
  | TvSend (addr : Z) (payload : list Z) (send_ok : bool)
  | TvRegister (addr i : Z)
  | TvTimeout (addr i : Z).

Definition timed_step (e : TimedEv) (y : Sys) : option Sys :=
  match e with
  | TvBase e => sys_step handler e y
  | TvSend a payload ok => c ← sy_clients y !! a; Some (sent_by a (timed_send ok payload c) y)
  | TvRegister a i => c ← sy_clients y !! a; c ← timed_register i c; Some (set_client a c y)
  | TvTimeout a i => c ← sy_clients y !! a; c ← timed_timeout i c; Some (set_client a c y)
  end.

Fixpoint timed_run (es : list TimedEv) (y : Sys) : option Sys :=
  match es with
  | [] => Some y
  | e :: es' => y ← timed_step e y; timed_run es' y
  end.

(** ** An answer that comes too early *)

(** A response whose waiter is not there leaves the client as it is. *)
Lemma dispatch_unwaited id body c : is_u64 id → cl_waiters c !! id = None → dispatch (encode_frame id body) c = Some c.
Proof. intros Hid Hw. unfold dispatch. rewrite decode_encode_frame by done. cbn [mbind option_bind]. by rewrite Hw. Qed.

(** What [call_timed] does after its send, when its answer has come before. *)
Lemma vget_snoc {A} (l : list A) x : vget (l ++ [x]) (zlen l) = Some x.
Proof.
  unfold vget, zlen. rewrite (proj2 (Z.leb_le _ _)) by lia. rewrite Nat2Z.id. by rewrite lookup_app_r, Nat.sub_diag by lia.
Qed.

Lemma vset_snoc {A} (l : list A) x y : vset (l ++ [x]) (zlen l) y = Some (l ++ [y]).
Proof.
  unfold vset, zlen. rewrite (proj2 (Z.leb_le _ _)), length_app by lia. rewrite (proj2 (Z.ltb_lt _ _)) by (cbn; lia). cbn [andb].
  rewrite Nat2Z.id. by rewrite insert_app_r_alt, Nat.sub_diag by lia.
Qed.

(** A call of [call_timed] whose answer arrives between its send and its
    entry in the table of waiters loses the answer: the dispatcher drops the
    frame, and the call, which does not send again, times out, while a call of
    [call] in the same place returns it. *)
Theorem timed_answer_lost payload body c : is_u64 (cl_next c) → cl_waiters c !! cl_next c = None →
  (∃ c1 c2 c3, (timed_send true payload c) = (c1, [encode_frame (cl_next c) payload]) ∧
     dispatch (encode_frame (cl_next c) body) c1 = Some c1 ∧ timed_register (zlen (cl_calls c)) c1 = Some c2 ∧
     call_take (zlen (cl_calls c)) c2 = None ∧ timed_timeout (zlen (cl_calls c)) c2 = Some c3 ∧
     cl_calls c3 = cl_calls c ++ [mkCall payload (cl_next c) 0 None (Some TimedOut)]) ∧
  (∃ c1 c2 c3, call_start true payload 1 c = Some (c1, [encode_frame (cl_next c) payload]) ∧
     dispatch (encode_frame (cl_next c) body) c1 = Some c2 ∧ call_take (zlen (cl_calls c)) c2 = Some c3 ∧
     cl_calls c3 = cl_calls c ++ [mkCall payload (cl_next c) 0 None (Some (Returned body))]).
Proof.
  intros Hid Hw. split.
  - do 3 eexists. split; [reflexivity|]. split; [by apply dispatch_unwaited|].
    split; [unfold timed_register; cbn [cl_calls cl_next cl_waiters]; by rewrite vget_snoc|].
    split; [unfold call_take; cbn [cl_calls]; by rewrite vget_snoc|].
    split; [unfold timed_timeout; cbn [cl_calls cl_next cl_waiters]; rewrite vget_snoc; cbn; by rewrite vset_snoc|done].
  - do 3 eexists. split; [unfold call_start, attempt; cbn [cl_calls cl_next cl_waiters]; by rewrite vset_snoc|].
    split; [unfold dispatch; rewrite decode_encode_frame by done; cbn [mbind option_bind cl_waiters cl_calls cl_next ca_id ca_payload ca_left];
            rewrite lookup_insert_eq, vget_snoc; cbn [mbind option_bind]; by rewrite vset_snoc|].
    split; [unfold call_take; cbn [cl_calls]; rewrite vget_snoc; cbn; by rewrite vset_snoc|done].
Qed.
End timed.

(** ** The TCP echo *)

(** A frame: four bytes of length, which is cut to 32 bits, and the body. *)
Definition tcp_frame (payload : list Z) : list Z := to_le 4 (zlen payload mod 2 ^ 32) ++ payload.

(** [read_exact] of [n] bytes from what is left of a stream. *)
Definition read_exact (n : Z) (s : list Z) : option (list Z * list Z) :=
  if zlen s <? n then None else Some (take (Z.to_nat n) s, drop (Z.to_nat n) s).

Definition read_body (s : list Z) : option (list Z * list Z) :=
  '(hdr, s) ← read_exact 4 s;
  read_exact (from_le hdr) s.

(** [handle_conn] until the stream ends: what it writes.  A turn takes at
    least four bytes. *)
Fixpoint handle_conn (fuel : nat) (s : list Z) : list Z :=
  match fuel with
  | O => []
  | S fuel' =>
      match read_body s with
      | None => []
      | Some (body, s) => tcp_frame body ++ handle_conn fuel' s
      end
  end.

(** [tcp_baseline::call] against the echo: the body it reads. *)
Definition tcp_call (payload : list Z) : option (list Z) :=
  let out := tcp_frame payload in
  '(body, _) ← read_body (handle_conn (length out) out);
  Some body.

Lemma tcp_read_app a b : read_exact (zlen a) (a ++ b) = Some (a, b).
Proof.
  unfold read_exact. rewrite (proj2 (Z.ltb_ge _ _)) by (rewrite zlen_app; pose proof (zlen_nonneg b); lia).
  unfold zlen. by rewrite Nat2Z.id, take_app_length, drop_app_length.
Qed.

Lemma read_body_frame payload s : zlen payload ≤ u32_max → read_body (tcp_frame payload ++ s) = Some (payload, s).
Proof.
  intros Hl. pose proof (zlen_nonneg payload). unfold u32_max in Hl. unfold read_body, tcp_frame. rewrite <-app_assoc.
  pose proof (tcp_read_app (to_le 4 (zlen payload mod 2 ^ 32)) (payload ++ s)) as E. rewrite zlen_to_le in E. change (Z.of_nat 4) with 4 in E. rewrite E. cbn [mbind option_bind].
  rewrite Z.mod_small by lia. rewrite from_to_le by (cbn; lia). apply tcp_read_app.
Qed.

(** Requests of any number on one connection are echoed in order, one
    frame each, and a call returns its payload, as long as lengths fit 32
    bits. *)
Theorem tcp_echo_exact payloads : Forall (λ p, zlen p ≤ u32_max) payloads →
  handle_conn (length (concat (tcp_frame <$> payloads))) (concat (tcp_frame <$> payloads)) = concat (tcp_frame <$> payloads) ∧
  Forall (λ p, tcp_call p = Some p) payloads.
Proof.
  assert (He : ∀ ps fuel, Forall (λ p, zlen p ≤ u32_max) ps → (length (concat (tcp_frame <$> ps)) ≤ fuel)%nat →
    handle_conn fuel (concat (tcp_frame <$> ps)) = concat (tcp_frame <$> ps)).
  { intros ps fuel Hf. revert fuel. induction Hf as [|p ps Hp _ IH]; intros [|fuel] Hl; try done.
    - cbn in Hl. rewrite length_app in Hl. cbn in Hl. lia.
    - cbn [fmap list_fmap concat handle_conn]. rewrite read_body_frame by done. f_equal. apply IH.
      cbn [fmap list_fmap concat] in Hl. rewrite length_app in Hl. unfold tcp_frame in Hl at 1. rewrite length_app, length_to_le in Hl. lia. }
  intros Hf. split; [by apply He|]. apply (Forall_impl _ _ _ Hf). intros p Hp. unfold tcp_call. cbv zeta.
  pose proof (He [p] (length (tcp_frame p))) as E. cbn [fmap list_fmap concat] in E. rewrite app_nil_r in E. rewrite E by (done || by constructor).
  pose proof (read_body_frame p [] Hp) as Er. rewrite app_nil_r in Er. by rewrite Er.
Qed.

(** ** Evaluation *)

Lemma timed_answer_lost_witness :
  (∃ c1 c2 c3, timed_send true [7] client_new = (c1, [encode_frame 1 [7]]) ∧
     dispatch (encode_frame 1 [8; 9]) c1 = Some c1 ∧ timed_register 0 c1 = Some c2 ∧ call_take 0 c2 = None ∧ timed_timeout 0 c2 = Some c3 ∧
     cl_calls c3 = [mkCall [7] 1 0 None (Some TimedOut)]) ∧
  (∃ c1 c2 c3, call_start true [7] 1 client_new = Some (c1, [encode_frame 1 [7]]) ∧
     dispatch (encode_frame 1 [8; 9]) c1 = Some c2 ∧ call_take 0 c2 = Some c3 ∧ cl_calls c3 = [mkCall [7] 1 0 None (Some (Returned [8; 9]))]).
Proof. apply (timed_answer_lost [7] [8; 9] client_new); [by_eval|reflexivity]. Defined.

(** The whole run: the request, the server's answer, and the call that misses
    it. *)
Example timed_run_loses :
  option_map (λ y, cl_calls <$> sy_clients y !! 5)
    (timed_run (λ _ b, Some (0 :: b)) [TvSend 5 [7] true; TvBase (EvRequest 0); TvBase EvPool; TvBase (EvWork 0); TvBase (EvWork 0); TvBase (EvWork 0);
       TvBase (EvResponse 0); TvRegister 5 0; TvTimeout 5 0] (sys_new [5])) =
    Some (Some [mkCall [7] 1 0 None (Some TimedOut)]).
Proof. vm_compute. reflexivity. Qed.

Lemma tcp_echo_exact_witness :
  handle_conn 9 [1; 0; 0; 0; 7; 0; 0; 0; 0] = [1; 0; 0; 0; 7; 0; 0; 0; 0] ∧ tcp_call [7] = Some [7].
Proof.
  destruct (tcp_echo_exact [[7]; []]) as [H1 H2]; [repeat constructor; by_eval|].
  split; [exact H1|]. by inversion H2.
Defined.
