(* ===== verification/MoqCodec.v ===== *)
(** * MoQ: integers, messages and framing on a stream

    Models [crates/moq-live/src/varint.rs] (QUIC variable-length integers),
    [track.rs] (tracks and objects), [message.rs] (the control and data
    messages with their codec) and, of [net.rs], the frame reader that cuts
    a stream of chunks into messages.

    A string is the list of its UTF-8 bytes; [utf8_valid] is the check of
    [String::from_utf8].  A read from a QUIC stream is an event: a chunk of
    bytes, the end of the stream or a failure. *)

From S2P Require Import Prelude Bytes.

(** ** Variable-length integers *)

Definition VARINT_MAX : Z := Z.shiftl 1 62 - 1.

(** The assertion of the last arm panics. *)
Definition encoded_len (v : Z) : option Z :=
  if v <=? 63 then Some 1
  else if v <=? 16383 then Some 2
  else if v <=? 1073741823 then Some 4
  else if v <=? VARINT_MAX then Some 8 else None.

Definition varint_encode (v : Z) (out : list Z) : option (list Z) :=
  n ← encoded_len v;
  Some (out ++
    if n =? 1 then [as_u8 v]
    else if n =? 2 then to_be 2 (Z.lor (v mod 2 ^ 16) 0x4000)
    else if n =? 4 then to_be 4 (Z.lor (as_u32 v) 0x80000000)
    else to_be 8 (Z.lor v 0xC000000000000000)).

(** The [io::ErrorKind]s these modules use. *)
Inductive IoError :=
  | UnexpectedEof
  | InvalidData
  | BrokenPipe.

Definition varint_decode (buf : list Z) : res IoError (Z * Z) :=
  match buf with
  | [] => err UnexpectedEof
  | first :: _ =>
      let len := Z.shiftl 1 (Z.shiftr first 6) in
      if zlen buf <? len then err UnexpectedEof else
      bs ← slice buf 1 len;
      ok (foldl (λ v b, Z.lor (Z.shiftl v 8) b) (Z.land first 0x3F) bs, len)
  end.

(** ** Tracks and objects *)

Record TrackId := mkTrack {
  tr_namespace : list Z;
  tr_name : list Z
}.

#[export] Instance TrackId_eq_dec : EqDecision TrackId.
Proof. solve_decision. Defined.

#[export] Instance TrackId_countable : Countable TrackId.
Proof.
  apply (inj_countable' (λ t, (tr_namespace t, tr_name t)) (λ p, mkTrack p.1 p.2)).
  by intros [].
Defined.

Record Object := mkObj {
  group_id : Z;
  object_id : Z;
  priority : Z;
  timestamp_ms : Z;
  payload : list Z
}.

#[export] Instance Object_eq_dec : EqDecision Object.
Proof. solve_decision. Defined.

Definition is_group_head (o : Object) : bool := object_id o =? 0.

Definition with_group (g : Z) (o : Object) : Object :=
  mkObj g (object_id o) (priority o) (timestamp_ms o) (payload o).

(** ** Messages *)

Definition PROTO_VERSION : Z := 0x6d6f716c.

Inductive Role := Publisher | Subscriber | Both.

Definition role_u64 (r : Role) : Z := match r with Publisher => 1 | Subscriber => 2 | Both => 3 end.

Definition role_from_u64 (v : Z) : res IoError Role :=
  if v =? 1 then ok Publisher else if v =? 2 then ok Subscriber
  else if v =? 3 then ok Both else err InvalidData.

Inductive StartMode := LatestGroup | NextObject.

Definition start_u64 (s : StartMode) : Z := match s with LatestGroup => 0 | NextObject => 1 end.

Definition start_from_u64 (v : Z) : res IoError StartMode :=
  if v =? 0 then ok LatestGroup else if v =? 1 then ok NextObject else err InvalidData.

Definition ERR_NAMESPACE_NOT_FOUND : Z := 1.

Inductive TrackRef :=
  | Alias (a : Z)
  | Full (t : TrackId).

Definition REF_ALIAS : Z := 0.
Definition REF_FULL : Z := 1.

Inductive Message :=
  | Setup (version : Z) (role : Role)
  | Announce (namespace : list Z)
  | AnnounceOk (namespace : list Z)
  | Subscribe (subscribe_id track_alias : Z) (track : TrackId) (start : StartMode) (prio : Z)
  | SubscribeOk (subscribe_id : Z)
  | SubscribeError (subscribe_id code : Z) (reason : list Z)
  | Unsubscribe (subscribe_id : Z)
  | Goaway (reason : list Z)
  | GroupHeader (track_ref : TrackRef) (group : Z)
  | ObjectMsg (object : Object).

Definition T_SETUP : Z := 0x01.
Definition T_ANNOUNCE : Z := 0x02.
Definition T_ANNOUNCE_OK : Z := 0x03.
Definition T_SUBSCRIBE : Z := 0x04.
Definition T_SUBSCRIBE_OK : Z := 0x05.
Definition T_SUBSCRIBE_ERROR : Z := 0x06.
Definition T_UNSUBSCRIBE : Z := 0x07.
Definition T_GOAWAY : Z := 0x08.
Definition T_GROUP_HEADER : Z := 0x10.
Definition T_OBJECT : Z := 0x11.

Definition encode_str (s : list Z) (out : list Z) : option (list Z) :=
  out ← varint_encode (zlen s) out; Some (out ++ s).

(** The payload and the type code of a message. *)
Definition encode_payload (m : Message) : option (list Z * Z) :=
  match m with
  | Setup version role =>
      p ← varint_encode version [];
      p ← varint_encode (role_u64 role) p;
      Some (p, T_SETUP)
  | Announce namespace => p ← encode_str namespace []; Some (p, T_ANNOUNCE)
  | AnnounceOk namespace => p ← encode_str namespace []; Some (p, T_ANNOUNCE_OK)
  | Subscribe subscribe_id track_alias track start prio =>
      p ← varint_encode subscribe_id [];
      p ← varint_encode track_alias p;
      p ← encode_str (tr_namespace track) p;
      p ← encode_str (tr_name track) p;
      p ← varint_encode (start_u64 start) p;
      p ← varint_encode prio p;
      Some (p, T_SUBSCRIBE)
  | SubscribeOk subscribe_id => p ← varint_encode subscribe_id []; Some (p, T_SUBSCRIBE_OK)
  | SubscribeError subscribe_id code reason =>
      p ← varint_encode subscribe_id [];
      p ← varint_encode code p;
      p ← encode_str reason p;
      Some (p, T_SUBSCRIBE_ERROR)
  | Unsubscribe subscribe_id => p ← varint_encode subscribe_id []; Some (p, T_UNSUBSCRIBE)
  | Goaway reason => p ← encode_str reason []; Some (p, T_GOAWAY)
  | GroupHeader track_ref group =>
      p ← match track_ref with
          | Alias a => p ← varint_encode REF_ALIAS []; varint_encode a p
          | Full t =>
              p ← varint_encode REF_FULL [];
              p ← encode_str (tr_namespace t) p;
              encode_str (tr_name t) p
          end;
      p ← varint_encode group p;
      Some (p, T_GROUP_HEADER)
  | ObjectMsg object =>
      p ← varint_encode (object_id object) [];
      p ← varint_encode (priority object) p;
      p ← varint_encode (timestamp_ms object) p;
      p ← varint_encode (zlen (payload object)) p;
      Some (p ++ payload object, T_OBJECT)
  end.

Definition message_encode (m : Message) : option (list Z) :=
  '(pl, type_code) ← encode_payload m;
  frame ← varint_encode type_code [];
  frame ← varint_encode (zlen pl) frame;
  Some (frame ++ pl).

(** *** Decoding *)

Record Reader := mkReader {
  rd_buf : list Z;
  rd_pos : Z
}.

Definition rd_varint (r : Reader) : res IoError (Z * Reader) :=
  s ← slice (rd_buf r) (rd_pos r) (zlen (rd_buf r));
  '(v, n) ←? varint_decode s;
  ok (v, mkReader (rd_buf r) (rd_pos r + n)).

Definition rd_bytes (r : Reader) : res IoError (list Z * Reader) :=
  '(len, r) ←? rd_varint r;
  avail ← sub_chk (zlen (rd_buf r)) (rd_pos r);
  if avail <? len then err UnexpectedEof else
  out ← slice (rd_buf r) (rd_pos r) (rd_pos r + len);
  ok (out, mkReader (rd_buf r) (rd_pos r + len)).

Definition rd_string (r : Reader) : res IoError (list Z * Reader) :=
  '(bs, r) ←? rd_bytes r;
  if utf8_valid bs then ok (bs, r) else err InvalidData.

Definition rd_track (r : Reader) : res IoError (TrackId * Reader) :=
  '(ns, r) ←? rd_string r;
  '(nm, r) ←? rd_string r;
  ok (mkTrack ns nm, r).

Definition decode_payload (type_code : Z) (r : Reader) : res IoError (Message * Reader) :=
  if type_code =? T_SETUP then
    '(version, r) ←? rd_varint r;
    '(v, r) ←? rd_varint r;
    role ←? role_from_u64 v;
    ok (Setup version role, r)
  else if type_code =? T_ANNOUNCE then
    '(ns, r) ←? rd_string r; ok (Announce ns, r)
  else if type_code =? T_ANNOUNCE_OK then
    '(ns, r) ←? rd_string r; ok (AnnounceOk ns, r)
  else if type_code =? T_SUBSCRIBE then
    '(subscribe_id, r) ←? rd_varint r;
    '(track_alias, r) ←? rd_varint r;
    '(track, r) ←? rd_track r;
    '(v, r) ←? rd_varint r;
    start ←? start_from_u64 v;
    '(prio, r) ←? rd_varint r;
    ok (Subscribe subscribe_id track_alias track start (as_u8 prio), r)
  else if type_code =? T_SUBSCRIBE_OK then
    '(subscribe_id, r) ←? rd_varint r; ok (SubscribeOk subscribe_id, r)
  else if type_code =? T_SUBSCRIBE_ERROR then
    '(subscribe_id, r) ←? rd_varint r;
    '(code, r) ←? rd_varint r;
    '(reason, r) ←? rd_string r;
    ok (SubscribeError subscribe_id code reason, r)
  else if type_code =? T_UNSUBSCRIBE then
    '(subscribe_id, r) ←? rd_varint r; ok (Unsubscribe subscribe_id, r)
  else if type_code =? T_GOAWAY then
    '(reason, r) ←? rd_string r; ok (Goaway reason, r)
  else if type_code =? T_GROUP_HEADER then
    '(tag, r) ←? rd_varint r;
    '(track_ref, r) ←?
      (if tag =? REF_ALIAS then '(a, r) ←? rd_varint r; ok (Alias a, r)
       else if tag =? REF_FULL then '(t, r) ←? rd_track r; ok (Full t, r)
       else err InvalidData);
    '(group, r) ←? rd_varint r;
    ok (GroupHeader track_ref group, r)
  else if type_code =? T_OBJECT then
    '(oid, r) ←? rd_varint r;
    '(prio, r) ←? rd_varint r;
    '(ts, r) ←? rd_varint r;
    '(pl, r) ←? rd_bytes r;
    ok (ObjectMsg (mkObj 0 oid (as_u8 prio) ts pl), r)
  else err InvalidData.

Definition message_decode (frame : list Z) : res IoError Message :=
  '(type_code, n1) ←? varint_decode frame;
  f1 ← slice frame n1 (zlen frame);
  '(len, n2) ←? varint_decode f1;
  pl ← slice frame (n1 + n2) (zlen frame);
  if negb (zlen pl =? len) then err InvalidData else
  '(msg, r) ←? decode_payload type_code (mkReader pl 0);
  if negb (rd_pos r =? zlen pl) then err InvalidData else ok msg.

(** ** Framing *)

(** An error of [varint::decode] here means that more data is needed. *)
Definition try_parse (buf : list Z) : res IoError (option (Message * Z)) :=
  r1 ← varint_decode buf;
  match r1 with
  | inl _ => ok None
  | inr (_, n1) =>
      b1 ← slice buf n1 (zlen buf);
      r2 ← varint_decode b1;
      match r2 with
      | inl _ => ok None
      | inr (len, n2) =>
          total ← add_chk u64_max (n1 + n2) len;
          if zlen buf <? total then ok None else
          frame ← slice buf 0 total;
          m ←? message_decode frame;
          ok (Some (m, total))
      end
  end.

(** What a read from the QUIC stream can give. *)
Inductive ReadEvent :=
  | Chunk (bytes : list Z)
  | Eof
  | ReadFailed.

(** [None] among the results of [read] is the clean end of the stream;
    [Pending] means that the reader still waits for data. *)
Inductive ReadResult :=
  | Pending
  | Ready (r : IoError + option Message).

Fixpoint reader_read (buf : list Z) (evs : list ReadEvent) : option (ReadResult * list Z * list ReadEvent) :=
  p ← try_parse buf;
  match p with
  | inl e => Some (Ready (inl e), buf, evs)
  | inr (Some (m, consumed)) => Some (Ready (inr (Some m)), drop (Z.to_nat consumed) buf, evs)
  | inr None =>
      match evs with
      | [] => Some (Pending, buf, [])
      | Chunk c :: evs' => reader_read (buf ++ c) evs'
      | Eof :: evs' =>
          if bool_decide (buf = []) then Some (Ready (inr None), buf, evs')
          else Some (Ready (inl UnexpectedEof), buf, evs')
      | ReadFailed :: evs' => Some (Ready (inl BrokenPipe), buf, evs')
      end
  end.

#[global] Arguments varint_encode : simpl never.
#[global] Arguments varint_decode : simpl never.
#[global] Arguments message_encode : simpl never.
#[global] Arguments message_decode : simpl never.
#[global] Arguments try_parse : simpl never.

(** ** The integer codec *)

(** Setting bits above a number is adding them. *)
Lemma lor_high v t k : 0 ≤ k → 0 ≤ v < 2 ^ k → Z.lor v (t * 2 ^ k) = v + t * 2 ^ k.
Proof.
  intros Hk Hv. rewrite <-Z.add_lor_land. enough (Z.land v (t * 2 ^ k) = 0) by lia.
  apply Z.bits_inj_iff. intros i. rewrite Z.land_spec, Z.bits_0, <-Z.shiftl_mul_pow2 by done.
  destruct (Z.lt_ge_cases i k).
  - rewrite Z.shiftl_spec_low by done. apply andb_false_r.
  - rewrite <-(Z.mod_small v (2 ^ k)) by done. by rewrite Z.mod_pow2_bits_high by lia.
Qed.

Lemma lor_byte v b : is_byte b → Z.lor (Z.shiftl v 8) b = v * 256 + b.
Proof.
  intros Hb. rewrite Z.lor_comm, Z.shiftl_mul_pow2 by done.
  rewrite lor_high by (unfold is_byte, is_u8, u8_max in Hb; lia). lia.
Qed.

(** The value of the bytes after the first. *)
Lemma fold_bytes l v : Forall is_byte l →
  foldl (λ v b, Z.lor (Z.shiftl v 8) b) v l = v * 256 ^ zlen l + from_be l.
Proof.
  intros Hl. revert v. induction Hl as [|b l Hb Hl IH]; intros v; [change (from_be []) with 0; change (256 ^ zlen (@nil Z)) with 1; simpl; lia|].
  cbn [foldl]. rewrite IH, lor_byte by done.
  rewrite from_be_cons, zlen_cons, Z.pow_add_r by (unfold zlen; lia).
  change (256 ^ 1) with 256. lia.
Qed.

(** The four forms, by the two bits on top of the first byte. *)
Definition vi_form (v : Z) : nat * Z :=
  if v <=? 63 then (0%nat, 0) else if v <=? 16383 then (1%nat, 1)
  else if v <=? 1073741823 then (3%nat, 2) else (7%nat, 3).

(** What [varint_encode] appends. *)
Definition vi_bytes (v : Z) : list Z :=
  let '(n, tag) := vi_form v in to_be (S n) (v + tag * 2 ^ (8 * Z.of_nat n + 6)).

Lemma VARINT_MAX_eq : VARINT_MAX = 4611686018427387903.
Proof. reflexivity. Qed.

Lemma varint_encode_spec v out : 0 ≤ v ≤ VARINT_MAX → varint_encode v out = Some (out ++ vi_bytes v).
Proof.
  unfold varint_encode, encoded_len, vi_bytes, vi_form, as_u8, as_u32. intros Hv.
  repeat case_match; try lia; cbn [mbind option_bind]; f_equal; f_equal; simplify_eq;
    cbn [Z.eqb Pos.eqb]; rewrite VARINT_MAX_eq in Hv.
  - rewrite Z.mod_small by lia. cbn. rewrite Z.add_0_r, Z.mod_small by lia. done.
  - rewrite Z.mod_small by lia. f_equal. apply (lor_high v 1 14); lia.
  - rewrite Z.mod_small by lia. f_equal. apply (lor_high v 2 30); lia.
  - f_equal. apply (lor_high v 3 62); lia.
Qed.

Lemma varint_encode_Some v out r : 0 ≤ v → varint_encode v out = Some r → v ≤ VARINT_MAX ∧ r = out ++ vi_bytes v.
Proof.
  intros Hv H. assert (v ≤ VARINT_MAX) as Hm.
  { unfold varint_encode, encoded_len in H. rewrite VARINT_MAX_eq in *. repeat case_match; simplify_eq; try lia; done. }
  rewrite varint_encode_spec in H by done. by simplify_eq.
Qed.

Lemma vi_form_bound v : 0 ≤ v ≤ VARINT_MAX →
  let '(n, tag) := vi_form v in 0 ≤ tag ≤ 3 ∧ v < 2 ^ (8 * Z.of_nat n + 6) ∧ 1 + Z.of_nat n = Z.shiftl 1 tag.
Proof.
  unfold vi_form. rewrite VARINT_MAX_eq. intros Hv. repeat case_match; simplify_eq;
    (split; [lia|]; split; [|reflexivity]); simpl Z.of_nat; lia.
Qed.

Lemma length_vi_bytes v : length (vi_bytes v) = S (vi_form v).1.
Proof. unfold vi_bytes. destruct (vi_form v). apply length_to_be. Qed.

Lemma vi_bytes_nonempty v : vi_bytes v ≠ [].
Proof. intros E. pose proof (length_vi_bytes v) as H. rewrite E in H. discriminate. Qed.

(** The first byte carries the tag, the rest of it and the other bytes the
    value. *)
Lemma vi_bytes_cons v : 0 ≤ v ≤ VARINT_MAX →
  let '(n, tag) := vi_form v in
  ∃ top l, vi_bytes v = top + tag * 64 :: l ∧ length l = n ∧ 0 ≤ top < 64 ∧
    Forall is_byte l ∧ top * 256 ^ Z.of_nat n + from_be l = v.
Proof.
  intros Hv. pose proof (vi_form_bound v Hv) as Hf. unfold vi_bytes. destruct (vi_form v) as [n tag].
  destruct Hf as (Ht & Hvn & _). set (q := 256 ^ Z.of_nat n).
  assert (2 ^ (8 * Z.of_nat n + 6) = 64 * q) as E.
  { unfold q. rewrite Z.pow_add_r, Z.pow_mul_r by lia. change (2 ^ 8) with 256. lia. }
  assert (0 < q) by (unfold q; lia). rewrite E in *. pose proof (Z.div_mod v q ltac:(lia)).
  pose proof (Z.mod_pos_bound v q ltac:(lia)).
  assert (0 ≤ v / q < 64) by (split; [apply Z.div_pos; lia|apply Z.div_lt_upper_bound; lia]).
  exists (v / q), (to_be n (v + tag * (64 * q))). rewrite to_be_S, length_to_be. fold q.
  replace (v + tag * (64 * q)) with (v + tag * 64 * q) by lia. rewrite Z.div_add by lia.
  rewrite Z.mod_small by lia. split_and!; auto using to_be_bytes; try lia.
  rewrite from_to_be_mod. fold q. rewrite Z.mod_add by lia. lia.
Qed.

Lemma lead_byte top tag : 0 ≤ top < 64 → Z.shiftr (top + tag * 64) 6 = tag ∧ Z.land (top + tag * 64) 0x3F = top.
Proof.
  intros Ht. split.
  - rewrite Z.shiftr_div_pow2 by done. change (2 ^ 6) with 64. rewrite Z.div_add, Z.div_small by lia. lia.
  - change 0x3F with (Z.ones 6). rewrite Z.land_ones by done. change (2 ^ 6) with 64.
    rewrite Z.mod_add, Z.mod_small by lia. done.
Qed.

Lemma varint_decode_bytes v s : 0 ≤ v ≤ VARINT_MAX →
  varint_decode (vi_bytes v ++ s) = ok (v, zlen (vi_bytes v)).
Proof.
  intros Hv. pose proof (vi_bytes_cons v Hv) as Hc. pose proof (vi_form_bound v Hv) as Hf.
  pose proof (length_vi_bytes v) as Hl. destruct (vi_form v) as [n tag].
  destruct Hc as (top & l & E & Hn & Htop & Hb & Hval). destruct Hf as (_ & _ & Hs). rewrite E in *.
  unfold varint_decode. cbn [app]. destruct (lead_byte top tag Htop) as [-> ->]. rewrite <-Hs.
  rewrite zlen_cons, zlen_app. pose proof (zlen_nonneg s).
  assert (zlen l = Z.of_nat n) as Hz by (unfold zlen; lia).
  rewrite (proj2 (Z.ltb_ge _ _)) by lia.
  change (_ :: l ++ s) with ([top + tag * 64] ++ l ++ s). rewrite (slice_app3 _ l s) by (unfold zlen in *; cbn [length]; lia).
  cbn [mbind option_bind]. rewrite fold_bytes, Hz by done. unfold ok. do 3 f_equal; [done|].
  rewrite zlen_cons. lia.
Qed.

(** A proper prefix of an encoding is reported as incomplete. *)
Lemma varint_decode_short v p s : 0 ≤ v ≤ VARINT_MAX → vi_bytes v = p ++ s → s ≠ [] →
  varint_decode p = err UnexpectedEof.
Proof.
  intros Hv Ep Hs. pose proof (vi_bytes_cons v Hv) as Hc. pose proof (vi_form_bound v Hv) as Hf.
  pose proof (length_vi_bytes v) as Hl. destruct (vi_form v) as [n tag].
  destruct Hc as (top & l & E & Hn & Htop & Hb & Hval). destruct Hf as (_ & _ & Hsh). rewrite Ep in *.
  destruct p as [|b p]; [done|]. cbn [app] in E. apply cons_inv in E as [-> <-].
  unfold varint_decode. destruct (lead_byte top tag Htop) as [-> _]. rewrite <-Hsh, zlen_cons.
  rewrite length_app in Hn. unfold zlen. destruct s; [done|]. cbn [length] in Hn.
  rewrite (proj2 (Z.ltb_lt _ _)) by lia. done.
Qed.

(** On any bytes decoding returns: an integer of 62 bits and how many bytes
    it took, or an error. *)
Lemma varint_decode_total buf : Forall is_byte buf →
  varint_decode buf = err UnexpectedEof ∨
  ∃ v n, varint_decode buf = ok (v, n) ∧ 0 ≤ v ≤ VARINT_MAX ∧ 1 ≤ n ≤ zlen buf.
Proof.
  intros Hb. destruct buf as [|first l]; [by left|]. apply Forall_cons in Hb as [Hf Hl].
  unfold is_byte, is_u8, u8_max in Hf. unfold varint_decode.
  assert (0 ≤ first / 64 < 4 ∧ 0 ≤ first mod 64 < 64) as [Ht Htop].
  { split; [split; [apply Z.div_pos; lia|apply Z.div_lt_upper_bound; lia]|apply Z.mod_pos_bound; lia]. }
  destruct (lead_byte (first mod 64) (first / 64) Htop) as [E1 E2].
  replace (first mod 64 + first / 64 * 64) with first in E1, E2 by (pose proof (Z.div_mod first 64); lia).
  rewrite E1, E2. set (len := Z.shiftl 1 _).
  assert (1 ≤ len ≤ 8) as Hlen.
  { unfold len. rewrite Z.shiftl_mul_pow2 by lia. split.
    - pose proof (Z.pow_le_mono_r 2 0 (first / 64)). lia.
    - pose proof (Z.pow_le_mono_r 2 (first / 64) 3). lia. }
  destruct (Z.ltb_spec (zlen (first :: l)) len) as [|Hz]; [by left|right].
  rewrite slice_ok by lia. cbn [mbind option_bind]. eexists _, _. split; [done|]. split; [|lia].
  change (drop (Z.to_nat 1) (first :: l)) with l.
  set (bs := take (Z.to_nat (len - 1)) l). assert (Forall is_byte bs) as Hbs by by apply Forall_take.
  assert (zlen bs = len - 1) as Hbl.
  { unfold bs, zlen in *. rewrite length_take. cbn [length] in Hz. lia. }
  rewrite fold_bytes by done. pose proof (from_le_bound (reverse bs)) as Hfb. rewrite Forall_reverse in Hfb.
  specialize (Hfb Hbs). unfold zlen in Hfb at 1. rewrite length_reverse in Hfb. fold (zlen bs) in Hfb.
  change (from_le (reverse bs)) with (from_be bs) in Hfb. rewrite Hbl in *.
  pose proof (Z.pow_le_mono_r 256 (len - 1) 7). rewrite VARINT_MAX_eq.
  assert (256 ^ 7 = 72057594037927936) as E7 by reflexivity. rewrite E7 in *. nia.
Qed.

(** ** The message codec *)

(** The reader stands before the bytes [s]. *)
Definition rd_at (r : Reader) (s : list Z) : Prop :=
  ∃ p, rd_buf r = p ++ s ∧ rd_pos r = zlen p.

Lemma rd_at_slice r s : rd_at r s → slice (rd_buf r) (rd_pos r) (zlen (rd_buf r)) = Some s.
Proof.
  intros (p & -> & ->). by apply slice_tail.
Qed.

Lemma rd_at_adv r p s : rd_at r (p ++ s) → rd_at (mkReader (rd_buf r) (rd_pos r + zlen p)) s.
Proof.
  intros (q & E & Ep). exists (q ++ p). cbn. rewrite E, Ep, zlen_app, app_assoc. done.
Qed.

Lemma rd_varint_at r v s : rd_at r (vi_bytes v ++ s) → 0 ≤ v ≤ VARINT_MAX →
  ∃ r', rd_varint r = ok (v, r') ∧ rd_at r' s ∧ rd_buf r' = rd_buf r.
Proof.
  intros Hr Hv. unfold rd_varint. rewrite (rd_at_slice _ _ Hr). cbn [mbind option_bind].
  try_with (varint_decode_bytes v s Hv). eexists. split; [done|]. split; [|done]. by apply rd_at_adv.
Qed.

Lemma rd_bytes_at r b s : rd_at r (vi_bytes (zlen b) ++ b ++ s) → zlen b ≤ VARINT_MAX →
  ∃ r', rd_bytes r = ok (b, r') ∧ rd_at r' s ∧ rd_buf r' = rd_buf r.
Proof.
  intros Hr Hb. pose proof (zlen_nonneg b). destruct (rd_varint_at _ _ _ Hr) as (r1 & E & H1 & Eb); [lia|].
  unfold rd_bytes. try_with E. destruct H1 as (p & Ep & Epos).
  rewrite Ep, Epos, !zlen_app. pose proof (zlen_nonneg s). unfold sub_chk.
  rewrite (proj2 (Z.leb_le _ _)) by lia. cbn [mbind option_bind].
  rewrite (proj2 (Z.ltb_ge _ _)) by lia. rewrite slice_app3 by lia. cbn [mbind option_bind].
  eexists. split; [done|]. split; [|cbn; congruence]. exists (p ++ b). cbn.
  by rewrite zlen_app, app_assoc.
Qed.

Lemma rd_string_at r b s : rd_at r (vi_bytes (zlen b) ++ b ++ s) → zlen b ≤ VARINT_MAX → utf8_valid b = true →
  ∃ r', rd_string r = ok (b, r') ∧ rd_at r' s ∧ rd_buf r' = rd_buf r.
Proof.
  intros Hr Hb Hu. destruct (rd_bytes_at _ _ _ Hr Hb) as (r1 & E & H1 & Eb).
  unfold rd_string. try_with E. rewrite Hu. eauto.
Qed.

Lemma encode_str_Some s out r : encode_str s out = Some r →
  zlen s ≤ VARINT_MAX ∧ r = out ++ vi_bytes (zlen s) ++ s.
Proof.
  unfold encode_str. intros (x & E & [= <-])%bind_Some.
  apply varint_encode_Some in E as [? ->]; [|apply zlen_nonneg]. by rewrite <-app_assoc.
Qed.

(** The messages the types of the source allow. *)
Definition wf_track (t : TrackId) : Prop := utf8_valid (tr_namespace t) = true ∧ utf8_valid (tr_name t) = true.

Definition wf_object (o : Object) : Prop :=
  is_u64 (group_id o) ∧ is_u64 (object_id o) ∧ is_u8 (priority o) ∧ is_u64 (timestamp_ms o) ∧
  Forall is_byte (payload o).

Definition wf_msg (m : Message) : Prop :=
  match m with
  | Setup v _ => is_u64 v
  | Announce s | AnnounceOk s | Goaway s => utf8_valid s = true
  | Subscribe i a t _ p => is_u64 i ∧ is_u64 a ∧ wf_track t ∧ is_u8 p
  | SubscribeOk i | Unsubscribe i => is_u64 i
  | SubscribeError i c s => is_u64 i ∧ is_u64 c ∧ utf8_valid s = true
  | GroupHeader (Alias a) g => is_u64 a ∧ is_u64 g
  | GroupHeader (Full t) g => wf_track t ∧ is_u64 g
  | ObjectMsg o => wf_object o
  end.

(** What arrives: an object travels without its group, which the header of
    its stream carries. *)
Definition wire (m : Message) : Message :=
  match m with ObjectMsg o => ObjectMsg (with_group 0 o) | _ => m end.

Lemma role_u64_nonneg r : 0 ≤ role_u64 r.
Proof. destruct r; simpl; lia. Qed.

Lemma start_u64_nonneg s : 0 ≤ start_u64 s.
Proof. destruct s; simpl; lia. Qed.

Create HintDb fields.
#[local] Hint Resolve role_u64_nonneg start_u64_nonneg zlen_nonneg : fields.

Ltac field_range :=
  try split; first [by eauto with fields
    | unfold REF_ALIAS, REF_FULL; lia
    | unfold is_u64, is_u8, u64_max, u8_max in *; rewrite ?VARINT_MAX_eq in *; intuition lia].

(** The appended bytes of each step of an encoding. *)
Ltac enc_inv :=
  repeat match goal with
    | H : (_ ≫= _) = Some _ |- _ => apply bind_Some in H as (? & ? & H)
    | H : Some _ = Some _ |- _ => injection H as; subst
    | H : varint_encode ?v _ = Some _ |- _ =>
        apply varint_encode_Some in H as [? ->]; [|field_range]
    | H : encode_str _ _ = Some _ |- _ => apply encode_str_Some in H as [? ->]
    end.

(** One read of a decoder, when the reader stands before an encoding. *)
Ltac read_step :=
  match goal with
  | H : rd_at ?r (vi_bytes _ ++ _) |- context [rd_varint ?r] =>
      let E := fresh "E" in
      destruct (rd_varint_at _ _ _ H) as (? & E & ? & ?);
        [field_range|try_with E; clear E H]
  | H : rd_at ?r (vi_bytes _ ++ _) |- context [rd_string ?r] =>
      let E := fresh "E" in
      destruct (rd_string_at _ _ _ H) as (? & E & ? & ?); [done|tauto|try_with E; clear E H]
  | H : rd_at ?r (vi_bytes _ ++ _) |- context [rd_bytes ?r] =>
      let E := fresh "E" in
      destruct (rd_bytes_at _ _ _ H) as (? & E & ? & ?); [done|try_with E; clear E H]
  end.

Lemma role_roundtrip r : role_from_u64 (role_u64 r) = ok r.
Proof. by destruct r. Qed.

Lemma start_roundtrip s : start_from_u64 (start_u64 s) = ok s.
Proof. by destruct s. Qed.

Lemma as_u8_id x : is_u8 x → as_u8 x = x.
Proof. unfold is_u8, u8_max, as_u8. intros. apply Z.mod_small. lia. Qed.

Lemma rd_at_end r s : rd_at r s → rd_at r (s ++ []).
Proof. by rewrite app_nil_r. Qed.

Lemma decode_payload_at m pl t r : wf_msg m → encode_payload m = Some (pl, t) → rd_at r pl →
  ∃ r', decode_payload t r = ok (wire m, r') ∧ rd_at r' [] ∧ rd_buf r' = rd_buf r.
Proof.
  intros Hwf Henc Hr%rd_at_end.
  destruct m as [v ro|s|s|i a [ns nm] st pr|i|i c s|i|s|[a|[ns nm]] g|[g o p ts b]];
    unfold wf_msg, wf_object, wf_track in Hwf;
    cbn [tr_namespace tr_name object_id priority timestamp_ms payload group_id] in Hwf;
    unfold encode_payload in Henc; enc_inv;
    cbn [tr_namespace tr_name object_id priority timestamp_ms payload] in *;
    unfold decode_payload, T_SETUP, T_ANNOUNCE, T_ANNOUNCE_OK, T_SUBSCRIBE, T_SUBSCRIBE_OK,
      T_SUBSCRIBE_ERROR, T_UNSUBSCRIBE, T_GOAWAY, T_GROUP_HEADER, T_OBJECT; cbn [Z.eqb Pos.eqb];
    rewrite <-?app_assoc in Hr; cbn [app] in Hr; unfold rd_track.
  all: repeat ((progress cbn [Z.eqb Pos.eqb REF_ALIAS REF_FULL try_bind ok]) || read_step
    || try_with role_roundtrip || try_with start_roundtrip).
  all: eexists; split; [|split; [eassumption|congruence]]; cbn [wire with_group];
    rewrite ?as_u8_id by tauto; reflexivity.
Qed.

Lemma encode_payload_type m pl t : encode_payload m = Some (pl, t) → 1 ≤ t ≤ 17.
Proof.
  unfold encode_payload. intros H. repeat case_match; repeat (apply bind_Some in H as (? & _ & H)); simplify_eq;
    unfold T_SETUP, T_ANNOUNCE, T_ANNOUNCE_OK, T_SUBSCRIBE, T_SUBSCRIBE_OK,
      T_SUBSCRIBE_ERROR, T_UNSUBSCRIBE, T_GOAWAY, T_GROUP_HEADER, T_OBJECT; lia.
Qed.

(** A frame is the type code, the length and the payload. *)
Lemma message_encode_Some m f : message_encode m = Some f →
  ∃ pl t, encode_payload m = Some (pl, t) ∧ 0 ≤ t ≤ VARINT_MAX ∧ zlen pl ≤ VARINT_MAX ∧
    f = vi_bytes t ++ vi_bytes (zlen pl) ++ pl.
Proof.
  unfold message_encode. intros ((pl & t) & E & (x & E1 & (y & E2 & [= <-])%bind_Some)%bind_Some)%bind_Some.
  pose proof (encode_payload_type _ _ _ E). apply varint_encode_Some in E1 as [? ->]; [|lia].
  apply varint_encode_Some in E2 as [? ->]; [|apply zlen_nonneg].
  exists pl, t. split_and!; try done; [lia|]. by rewrite <-!app_assoc.
Qed.

(** Decoding a frame, when its payload decodes. *)
Lemma message_decode_frame t pl m r : 0 ≤ t ≤ VARINT_MAX → zlen pl ≤ VARINT_MAX →
  decode_payload t (mkReader pl 0) = ok (m, r) → rd_pos r = zlen pl →
  message_decode (vi_bytes t ++ vi_bytes (zlen pl) ++ pl) = ok m.
Proof.
  intros Ht Hz Hd Hr. pose proof (zlen_nonneg pl). unfold message_decode.
  try_with (varint_decode_bytes t (vi_bytes (zlen pl) ++ pl) Ht). cbn beta iota.
  rewrite slice_tail by done. cbn [mbind option_bind].
  try_with (varint_decode_bytes (zlen pl) pl ltac:(lia)). cbn beta iota.
  rewrite app_assoc, slice_tail by (rewrite ?zlen_app; done). cbn [mbind option_bind].
  rewrite Z.eqb_refl. cbn [negb]. try_with Hd. cbn beta iota. by rewrite Hr, Z.eqb_refl.
Qed.

Lemma message_decode_encode m f : wf_msg m → message_encode m = Some f → message_decode f = ok (wire m).
Proof.
  intros Hwf (pl & t & E & Ht & Hz & ->)%message_encode_Some.
  destruct (decode_payload_at m pl t (mkReader pl 0) Hwf E) as (r & Hd & (p & Ep & Epos) & Eb).
  { by exists []. }
  eapply message_decode_frame; [done..|]. cbn in Eb. rewrite Eb, app_nil_r in Ep. congruence.
Qed.

(** ** Decoding untrusted bytes *)

Definition rd_ok (r : Reader) : Prop := Forall is_byte (rd_buf r) ∧ 0 ≤ rd_pos r ≤ zlen (rd_buf r).

(** A reading operation never panics and what it returns satisfies [Q]. *)
Definition rd_spec {A} (f : Reader → res IoError (A * Reader)) (Q : A → Prop) : Prop :=
  ∀ r, rd_ok r → ∃ x, f r = Some x ∧ match x with inl _ => True | inr (a, r') => Q a ∧ rd_ok r' end.

Lemma rd_spec_bind {A B} (f : Reader → res IoError (A * Reader)) Q (g : A * Reader → res IoError (B * Reader)) P r :
  rd_spec f Q → rd_ok r →
  (∀ a r', Q a → rd_ok r' → ∃ x, g (a, r') = Some x ∧ match x with inl _ => True | inr (b, r'') => P b ∧ rd_ok r'' end) →
  ∃ x, try_bind (f r) g = Some x ∧ match x with inl _ => True | inr (b, r'') => P b ∧ rd_ok r'' end.
Proof.
  intros Hf Hr Hg. destruct (Hf r Hr) as ([e|[a r']] & -> & H); cbn [try_bind]; [by eexists|].
  destruct H. by apply Hg.
Qed.

Lemma rd_varint_spec : rd_spec rd_varint (λ v, 0 ≤ v ≤ VARINT_MAX).
Proof.
  intros r [Hb Hp]. unfold rd_varint. rewrite slice_ok by lia. cbn [mbind option_bind].
  set (s := take _ _). assert (zlen s = zlen (rd_buf r) - rd_pos r) as Hs.
  { unfold s, zlen in *. rewrite length_take, length_drop. lia. }
  destruct (varint_decode_total s) as [->|(v & n & -> & Hv & Hn)].
  - by apply Forall_take, Forall_drop.
  - by eexists.
  - eexists. split; [done|]. split; [done|]. split; [done|]. cbn. lia.
Qed.

Lemma rd_bytes_spec : rd_spec rd_bytes (Forall is_byte).
Proof.
  intros r Hr. unfold rd_bytes. eapply rd_spec_bind; [apply rd_varint_spec|done|].
  intros len r' Hlen [Hb Hp]. cbn beta in Hlen. unfold sub_chk. rewrite (proj2 (Z.leb_le _ _)) by lia. cbn [mbind option_bind].
  destruct (Z.ltb_spec (zlen (rd_buf r') - rd_pos r') len); [by eexists|].
  rewrite slice_ok by lia. cbn [mbind option_bind]. eexists. split; [done|].
  split; [by apply Forall_take, Forall_drop|]. split; [done|]. cbn. lia.
Qed.

Lemma rd_string_spec : rd_spec rd_string (λ s, utf8_valid s = true).
Proof.
  intros r Hr. unfold rd_string. eapply rd_spec_bind; [apply rd_bytes_spec|done|].
  intros s r' _ Hr'. case_match; by eexists.
Qed.

Lemma rd_track_spec : rd_spec rd_track wf_track.
Proof.
  intros r Hr. unfold rd_track. eapply rd_spec_bind; [apply rd_string_spec|done|].
  intros ns r1 Hns Hr1. eapply rd_spec_bind; [apply rd_string_spec|done|].
  intros nm r2 Hnm Hr2. by eexists.
Qed.

Lemma try_bind_assoc {E A B D} (r : res E A) (k : A → res E B) (h : B → res E D) :
  try_bind (try_bind r k) h = try_bind r (λ a, try_bind (k a) h).
Proof. by destruct r as [[]|]. Qed.

Ltac rd_step :=
  match goal with
  | |- ∃ x, try_bind (rd_varint _) _ = _ ∧ _ => eapply rd_spec_bind; [apply rd_varint_spec|done|cbn beta; intros ? ? ? ?]
  | |- ∃ x, try_bind (rd_string _) _ = _ ∧ _ => eapply rd_spec_bind; [apply rd_string_spec|done|cbn beta; intros ? ? ? ?]
  | |- ∃ x, try_bind (rd_track _) _ = _ ∧ _ => eapply rd_spec_bind; [apply rd_track_spec|done|cbn beta; intros ? ? ? ?]
  | |- ∃ x, try_bind (rd_bytes _) _ = _ ∧ _ => eapply rd_spec_bind; [apply rd_bytes_spec|done|cbn beta; intros ? ? ? ?]
  end.

Lemma varint_u64 v : 0 ≤ v ≤ VARINT_MAX → is_u64 v.
Proof. rewrite VARINT_MAX_eq. unfold is_u64, u64_max. lia. Qed.

Lemma as_u8_is_u8 x : is_u8 (as_u8 x).
Proof. unfold is_u8, u8_max, as_u8. pose proof (Z.mod_pos_bound x 256). lia. Qed.

#[local] Hint Resolve varint_u64 as_u8_is_u8 : fields.

Lemma decode_payload_spec t : rd_spec (decode_payload t) wf_msg.
Proof.
  intros r Hr. unfold decode_payload, role_from_u64, start_from_u64. repeat case_match.
  all: repeat (rd_step || case_match || (progress cbn [try_bind ok err]) || rewrite try_bind_assoc).
  all: eexists; (split; [reflexivity|]); first [exact I|split; [|done]].
  all: unfold wf_msg, wf_object, wf_track in *; cbn [group_id object_id priority timestamp_ms payload]; split_and?; eauto with fields; try tauto.
  by unfold is_u64, u64_max.
Qed.

Lemma message_decode_total f : Forall is_byte f →
  ∃ x, message_decode f = Some x ∧ match x with inl _ => True | inr m => wf_msg m end.
Proof.
  intros Hf. unfold message_decode.
  destruct (varint_decode_total f Hf) as [->|(t & n1 & -> & Ht & Hn1)]; [by eexists|].
  cbn [try_bind ok]. rewrite slice_ok by lia. cbn [mbind option_bind].
  set (f1 := take _ _). assert (Forall is_byte f1) as Hf1 by by apply Forall_take, Forall_drop.
  assert (zlen f1 = zlen f - n1) as Hz1 by (unfold f1, zlen in *; rewrite length_take, length_drop; lia).
  destruct (varint_decode_total f1 Hf1) as [->|(len & n2 & -> & Hlen & Hn2)]; [by eexists|].
  cbn [try_bind ok]. rewrite slice_ok by lia. cbn [mbind option_bind]. set (pl := take _ _).
  destruct (zlen pl =? len); cbn [negb]; [|by eexists].
  destruct (decode_payload_spec t (mkReader pl 0)) as ([e|[m r]] & -> & Hx).
  - split; [by apply Forall_take, Forall_drop|]. cbn. pose proof (zlen_nonneg pl). lia.
  - by eexists.
  - cbn [try_bind]. case_match; eexists; split; try reflexivity; tauto.
Qed.

(** ** Framing on a stream *)

Lemma zlen_vi_bytes v : 1 ≤ zlen (vi_bytes v) ≤ 8.
Proof. unfold zlen. rewrite length_vi_bytes. unfold vi_form. repeat case_match; simpl; lia. Qed.

Lemma try_parse_complete m f s : wf_msg m → message_encode m = Some f →
  try_parse (f ++ s) = ok (Some (wire m, zlen f)).
Proof.
  intros Hwf Hm. pose proof (message_decode_encode _ _ Hwf Hm) as Hd.
  apply message_encode_Some in Hm as (pl & t & E & Ht & Hz & Ef).
  pose proof (zlen_nonneg pl). pose proof (zlen_nonneg s).
  pose proof (zlen_vi_bytes t). pose proof (zlen_vi_bytes (zlen pl)).
  assert (zlen f = zlen (vi_bytes t) + zlen (vi_bytes (zlen pl)) + zlen pl) as Hf by (rewrite Ef, !zlen_app; lia).
  assert (f ++ s = vi_bytes t ++ vi_bytes (zlen pl) ++ pl ++ s) as Efs by by rewrite Ef, <-!app_assoc.
  unfold try_parse. rewrite Efs at 1. rewrite varint_decode_bytes by done. cbn [mbind option_bind ok].
  rewrite Efs at 1 2. rewrite slice_tail by done. cbn [mbind option_bind].
  rewrite varint_decode_bytes by lia. cbn [mbind option_bind ok]. rewrite VARINT_MAX_eq in Hz.
  rewrite add_chk_ok by (unfold u64_max; lia). cbn [mbind option_bind]. rewrite <-Hf, zlen_app.
  rewrite (proj2 (Z.ltb_ge _ _)) by lia. rewrite slice_head by done. cbn [mbind option_bind].
  by try_with Hd.
Qed.

(** The length field of a frame cut short. *)
Lemma varint_decode_cut v pl k x : 0 ≤ v ≤ VARINT_MAX → vi_bytes v ++ pl = k ++ x →
  varint_decode k = err UnexpectedEof ∨ ∃ k', k = vi_bytes v ++ k' ∧ pl = k' ++ x.
Proof.
  intros Hv [(c & E & ->)|(c & -> & E)]%app_eq_inv; [|by eauto].
  destruct c as [|b c].
  - right. exists []. rewrite !app_nil_r in *. by rewrite E.
  - left. by apply (varint_decode_short v k (b :: c)).
Qed.

Lemma try_parse_partial m f b x : message_encode m = Some f → f = b ++ x → x ≠ [] → try_parse b = ok None.
Proof.
  intros (pl & t & E & Ht & Hz & ->)%message_encode_Some Hb Hx. pose proof (zlen_nonneg pl).
  unfold try_parse. destruct (varint_decode_cut _ _ _ _ Ht Hb) as [->|(k & -> & Hk)]; [done|].
  rewrite varint_decode_bytes by done. cbn [mbind option_bind ok]. rewrite slice_tail by done. cbn [mbind option_bind].
  destruct (varint_decode_cut _ _ _ _ (conj H Hz) Hk) as [->|(k' & -> & Hk')]; [done|].
  rewrite varint_decode_bytes by lia. cbn [mbind option_bind ok].
  pose proof (zlen_vi_bytes t). pose proof (zlen_vi_bytes (zlen pl)). rewrite VARINT_MAX_eq in Hz.
  rewrite add_chk_ok by (unfold u64_max; lia). cbn [mbind option_bind].
  assert (0 < zlen x) by (destruct x; [done|rewrite zlen_cons; pose proof (zlen_nonneg x); lia]).
  assert (zlen pl = zlen k' + zlen x) as Hpl by (rewrite Hk' at 1; apply zlen_app).
  rewrite !zlen_app. by rewrite (proj2 (Z.ltb_lt _ _)) by lia.
Qed.

Lemma try_parse_nil : try_parse [] = ok None.
Proof. reflexivity. Qed.

(** One step of the reader, by what the buffer parses to. *)
Lemma reader_read_more buf c evs : try_parse buf = ok None →
  reader_read buf (Chunk c :: evs) = reader_read (buf ++ c) evs.
Proof. intros E. cbn [reader_read]. by rewrite E. Qed.

Lemma reader_read_done buf evs m n : try_parse buf = ok (Some (m, n)) →
  reader_read buf evs = Some (Ready (inr (Some m)), drop (Z.to_nat n) buf, evs).
Proof. intros E. destruct evs; cbn [reader_read]; by rewrite E. Qed.

Lemma reader_read_full m f k evs : wf_msg m → message_encode m = Some f →
  reader_read (f ++ k) evs = Some (Ready (inr (Some (wire m))), k, evs).
Proof.
  intros Hwf Hm. rewrite (reader_read_done _ _ _ _ (try_parse_complete m f k Hwf Hm)).
  unfold zlen. by rewrite Nat2Z.id, drop_app_length.
Qed.

Lemma reader_read_message m f buf chunks s evs : wf_msg m → message_encode m = Some f →
  buf ++ concat chunks = f ++ s →
  ∃ buf' chunks', reader_read buf (map Chunk chunks ++ evs) =
    Some (Ready (inr (Some (wire m))), buf', map Chunk chunks' ++ evs) ∧ buf' ++ concat chunks' = s.
Proof.
  intros Hwf Hm. revert buf. induction chunks as [|c chunks IH]; intros buf Hb.
  - cbn in Hb. rewrite app_nil_r in Hb. subst. rewrite (reader_read_full m f s) by done.
    exists s, []. by rewrite app_nil_r.
  - pose proof Hb as [(k & -> & Hk)|(k & Hf & Hk)]%app_eq_inv.
    + rewrite (reader_read_full m f k) by done. by exists k, (c :: chunks).
    + destruct k as [|z k].
      * rewrite app_nil_r in Hf. subst f. rewrite <-(app_nil_r buf). rewrite (reader_read_full m buf []) by done.
        exists [], (c :: chunks). by rewrite Hk.
      * cbn [map app]. rewrite reader_read_more by (by eapply try_parse_partial). apply IH.
        cbn [concat] in Hb. by rewrite <-app_assoc.
Qed.

(** At the end of the stream: a clean end, or a frame cut short. *)
Lemma reader_read_end chunks evs : concat chunks = [] →
  reader_read [] (map Chunk chunks ++ Eof :: evs) = Some (Ready (inr None), [], evs).
Proof.
  induction chunks as [|c chunks IH]; intros H.
  - cbn [map app reader_read]. by rewrite try_parse_nil.
  - cbn [concat] in H. apply app_nil in H as [-> H]. cbn [map app].
    rewrite reader_read_more by apply try_parse_nil. by apply IH.
Qed.

Lemma reader_read_cut m f buf chunks x evs : message_encode m = Some f →
  f = (buf ++ concat chunks) ++ x → buf ++ concat chunks ≠ [] → x ≠ [] →
  reader_read buf (map Chunk chunks ++ Eof :: evs) = Some (Ready (inl UnexpectedEof), buf ++ concat chunks, evs).
Proof.
  intros Hm. revert buf. induction chunks as [|c chunks IH]; intros buf Hf Hne Hx; cbn [map concat] in *.
  - rewrite app_nil_r in *. cbn [app reader_read].
    rewrite (try_parse_partial m f buf x) by done. cbn [mbind option_bind ok]. by rewrite bool_decide_false.
  - cbn [app]. rewrite reader_read_more by (apply (try_parse_partial m f buf ((c ++ concat chunks) ++ x));
      [done|by rewrite app_assoc|by destruct x; [|destruct (c ++ concat chunks)]]).
    rewrite app_assoc in *. by apply IH.
Qed.

(** The loop every caller of the reader runs: read until a read gives no
    message.  [n] bounds the number of reads. *)
Fixpoint read_all (n : nat) (buf : list Z) (evs : list ReadEvent) : option (list Message * ReadResult) :=
  match n with
  | O => Some ([], Pending)
  | S n' =>
      '(r, buf, evs) ← reader_read buf evs;
      match r with
      | Ready (inr (Some m)) => '(ms, e) ← read_all n' buf evs; Some (m :: ms, e)
      | _ => Some ([], r)
      end
  end.

Lemma read_all_messages n ms frames buf chunks s evs r : Forall wf_msg ms → mapM message_encode ms = Some frames →
  buf ++ concat chunks = concat frames ++ s →
  (∀ buf' chunks', buf' ++ concat chunks' = s →
     read_all n buf' (map Chunk chunks' ++ evs) = Some ([], r)) →
  read_all (length ms + n) buf (map Chunk chunks ++ evs) = Some (wire <$> ms, r).
Proof.
  intros Hwf. revert frames buf chunks. induction Hwf as [|m ms Hm Hms IH]; intros frames buf chunks He Hb Hend.
  - cbn in He. injection He as <-. by apply Hend.
  - cbn [mapM] in He. apply bind_Some in He as (f & Ef & (fs & Efs & [= <-])%bind_Some).
    cbn [concat] in Hb. rewrite <-app_assoc in Hb.
    destruct (reader_read_message m f buf chunks (concat fs ++ s) evs Hm Ef Hb) as (buf' & chunks' & E & Hrest).
    cbn [length Nat.add read_all]. rewrite E. cbn [mbind option_bind].
    rewrite (IH fs buf' chunks' Efs Hrest Hend). done.
Qed.

(** ** Claims *)

(** A variable-length integer up to 62 bits is encoded in the number of
    bytes [encoded_len] announces and decoding gives back the value and
    that number, whatever follows; a greater integer panics. *)
Theorem varint_exact v out s : 0 ≤ v →
  match varint_encode v out with
  | Some r => v ≤ VARINT_MAX ∧ ∃ b, r = out ++ b ∧ encoded_len v = Some (zlen b) ∧
      varint_decode (b ++ s) = ok (v, zlen b)
  | None => VARINT_MAX < v
  end.
Proof.
  intros Hv. destruct (Z.le_gt_cases v VARINT_MAX) as [Hm|Hm].
  - rewrite varint_encode_spec by lia. split; [done|]. exists (vi_bytes v). split; [done|].
    split; [|by apply varint_decode_bytes]. unfold encoded_len, zlen. rewrite length_vi_bytes. unfold vi_form.
    repeat case_match; simplify_eq; try done; lia.
  - destruct (varint_encode v out) eqn:E; [|done]. apply varint_encode_Some in E as [? _]; lia.
Qed.

Lemma varint_exact_witness :
  varint_encode 15293 [7] = Some [7; 0x7B; 0xBD] ∧
  match varint_encode 15293 [7] with
  | Some r => 15293 ≤ VARINT_MAX ∧ ∃ b, r = [7] ++ b ∧ encoded_len 15293 = Some (zlen b) ∧
      varint_decode (b ++ [1; 2]) = ok (15293, zlen b)
  | None => VARINT_MAX < 15293
  end.
Proof. split; [vm_compute; reflexivity|]. apply (varint_exact 15293 [7] [1; 2]). lia. Defined.

(** Every message the encoder can encode is decoded as it was sent,
    except that an object arrives without its group, which the header of
    its stream carries. *)
Theorem message_roundtrip m f : wf_msg m → message_encode m = Some f → message_decode f = ok (wire m).
Proof. apply message_decode_encode. Qed.

Lemma message_roundtrip_witness :
  ∃ f, message_encode (Subscribe 1 70000 (mkTrack [0x6C; 0xC3; 0xA9] [118]) LatestGroup 3) = Some f ∧
    message_decode f = ok (Subscribe 1 70000 (mkTrack [0x6C; 0xC3; 0xA9] [118]) LatestGroup 3).
Proof.
  eexists. split; [vm_compute; reflexivity|].
  apply (message_roundtrip (Subscribe 1 70000 (mkTrack [0x6C; 0xC3; 0xA9] [118]) LatestGroup 3)).
  - repeat split; vm_compute; congruence.
  - vm_compute; reflexivity.
Defined.

(** Decoding bytes from the network never panics, and what it accepts
    is a message whose integers and strings are valid. *)
Theorem message_decode_safe f : Forall is_byte f →
  ∃ x, message_decode f = Some x ∧ match x with inl _ => True | inr m => wf_msg m end.
Proof. apply message_decode_total. Qed.

Lemma message_decode_safe_witness :
  message_decode [0x05; 0x02; 0x40] = err InvalidData ∧
  ∃ x, message_decode [0x05; 0x02; 0x40] = Some x ∧ match x with inl _ => True | inr m => wf_msg m end.
Proof.
  split; [vm_compute; reflexivity|]. apply message_decode_safe.
  repeat constructor; vm_compute; congruence.
Defined.

(** [C31] However the bytes of a sequence of messages are cut into chunks, the
    frame reader returns exactly these messages, in order, and then the
    clean end of the stream; if the stream ends within a frame, it returns
    the complete messages and then the error. *)
Theorem stream_reading_exact ms frames chunks last f x evs :
  Forall wf_msg ms → mapM message_encode ms = Some frames →
  (concat chunks = concat frames →
     read_all (length ms + 1) [] (map Chunk chunks ++ Eof :: evs) = Some (wire <$> ms, Ready (inr None))) ∧
  (message_encode last = Some (f ++ x) → f ≠ [] → x ≠ [] → concat chunks = concat frames ++ f →
     read_all (length ms + 1) [] (map Chunk chunks ++ Eof :: evs) = Some (wire <$> ms, Ready (inl UnexpectedEof))).
Proof.
  intros Hwf He. split.
  - intros Hc. eapply (read_all_messages 1 _ _ _ _ []); [done..| |].
    { by rewrite app_nil_r. }
    intros buf' chunks' [-> Hn]%app_nil. cbn [read_all]. by rewrite reader_read_end.
  - intros Hl Hf Hx Hc. eapply (read_all_messages 1 _ _ _ _ f); [done..|].
    intros buf' chunks' Hb. cbn [read_all].
    rewrite (reader_read_cut last (f ++ x) buf' chunks' x); [done|done|by rewrite Hb|by rewrite Hb|done].
Qed.

Lemma stream_reading_exact_witness :
  read_all 3 [] (map Chunk [[16; 4]; [0; 7; 64; 200; 17]; [5; 1; 9; 64; 255; 0]] ++ [Eof]) =
    Some ([GroupHeader (Alias 7) 200; ObjectMsg (mkObj 0 1 9 255 [])], Ready (inr None)).
Proof.
  refine (proj1 (stream_reading_exact [GroupHeader (Alias 7) 200; ObjectMsg (mkObj 200 1 9 255 [])]
    [[16; 4; 0; 7; 64; 200]; [17; 5; 1; 9; 64; 255; 0]]
    [[16; 4]; [0; 7; 64; 200; 17]; [5; 1; 9; 64; 255; 0]] (SubscribeOk 0) [] [] [] _ _) _).
  - repeat constructor; vm_compute; congruence.
  - vm_compute; reflexivity.
  - reflexivity.
Defined.
