(* ===== verification/MoqDropQueue.v ===== *)
(** * MoQ: the drop queue of a congested subscriber

    Models [crates/moq-live/src/dropq.rs]: a bounded queue that, when full,
    gives up the least important object that does not start a group. *)

From S2P Require Import Prelude Bytes MoqCodec.

Inductive PushOutcome :=
  | Queued
  | Evicted (o : Object)
  | DroppedSelf.

Record PriorityDropQueue := mkDQ {
  dq_capacity : Z;
  dq_queue : list Object;
  dq_dropped : Z
}.

(** The assertion on the capacity panics. *)
Definition dropq_new (capacity : Z) : option PriorityDropQueue :=
  if 0 <? capacity then Some (mkDQ capacity [] 0) else None.

(** [Iterator::max_by_key]: the last of the greatest elements. *)
Definition max_by_key {A} (key : A → Z) (l : list A) : option A :=
  foldl (λ best x, match best with
    | None => Some x
    | Some b => if key b <=? key x then Some x else Some b
    end) None l.

(** [iter().enumerate()] *)
Definition enumerate {A} (l : list A) : list (Z * A) := imap (λ i x, (Z.of_nat i, x)) l.

Definition victim (q : list Object) : option Z :=
  fst <$> max_by_key (λ p, priority p.2) (filter (λ p, is_group_head p.2 = false) (enumerate q)).

(** [VecDeque::remove], which returns [None] out of range. *)
Definition vd_remove {A} (i : Z) (l : list A) : option (A * list A) :=
  x ← vget l i; Some (x, delete (Z.to_nat i) l).

Definition dropq_push (obj : Object) (d : PriorityDropQueue) : option (PriorityDropQueue * PushOutcome) :=
  if zlen (dq_queue d) <? dq_capacity d then
    Some (mkDQ (dq_capacity d) (dq_queue d ++ [obj]) (dq_dropped d), Queued)
  else
    let drop_self :=
      n ← add_chk u64_max (dq_dropped d) 1;
      Some (mkDQ (dq_capacity d) (dq_queue d) n, DroppedSelf) in
    match victim (dq_queue d) with
    | Some i =>
        v ← vget (dq_queue d) i;
        if is_group_head obj || (priority obj <? priority v) then
          '(evicted, q) ← vd_remove i (dq_queue d);
          n ← add_chk u64_max (dq_dropped d) 1;
          Some (mkDQ (dq_capacity d) (q ++ [obj]) n, Evicted evicted)
        else drop_self
    | None => drop_self
    end.

Definition dropq_pop (d : PriorityDropQueue) : option Object * PriorityDropQueue :=
  match dq_queue d with
  | [] => (None, d)
  | o :: q => (Some o, mkDQ (dq_capacity d) q (dq_dropped d))
  end.

Definition dropq_len (d : PriorityDropQueue) : Z := zlen (dq_queue d).
Definition dropq_is_empty (d : PriorityDropQueue) : bool := bool_decide (dq_queue d = []).

(** ** The victim *)

Lemma max_by_key_snoc {A} (key : A → Z) l x :
  max_by_key key (l ++ [x]) = match max_by_key key l with
    | None => Some x
    | Some b => if key b <=? key x then Some x else Some b
    end.
Proof. unfold max_by_key. by rewrite foldl_app. Qed.

Lemma enumerate_snoc {A} (l : list A) x : enumerate (l ++ [x]) = enumerate l ++ [(zlen l, x)].
Proof. unfold enumerate. rewrite imap_app. cbn. by rewrite Nat.add_0_r. Qed.

(** The chosen entry: no non-head before it is less important, and all
    non-heads after it are more important. *)
Definition is_victim (q : list Object) (p : Z * Object) : Prop :=
  ∃ l r, q = l ++ p.2 :: r ∧ p.1 = zlen l ∧ is_group_head p.2 = false ∧
    (∀ x, x ∈ l → is_group_head x = false → priority x ≤ priority p.2) ∧
    (∀ x, x ∈ r → is_group_head x = false → priority x < priority p.2).

Lemma victim_entry q :
  match max_by_key (λ p, priority p.2) (filter (λ p, is_group_head p.2 = false) (enumerate q)) with
  | None => Forall (λ x, is_group_head x = true) q
  | Some p => is_victim q p
  end.
Proof.
  induction q as [|x q IH] using rev_ind; [by constructor|].
  rewrite enumerate_snoc, filter_app, filter_cons, filter_nil. cbn [snd]. case_decide as Hx.
  - rewrite max_by_key_snoc. destruct (max_by_key _ _) as [[i b]|]; cbn [snd].
    + destruct IH as (l & r & -> & Hi & Hb & Hl & Hr). cbn [fst snd] in *.
      destruct (Z.leb_spec (priority b) (priority x)).
      * exists (l ++ b :: r), []. cbn [fst snd]. split_and!; [done..| |set_solver].
        intros y. rewrite elem_of_app, elem_of_cons. intros [?|[->|?]] Hy; [|lia|].
        -- pose proof (Hl y ltac:(done) Hy). lia.
        -- pose proof (Hr y ltac:(done) Hy). lia.
      * exists l, (r ++ [x]). cbn [fst snd]. split_and!; [by rewrite <-app_assoc|done..|].
        intros y. rewrite elem_of_app, list_elem_of_singleton. intros [?| ->] Hy; [by apply Hr|lia].
    + exists q, []. cbn [fst snd]. rewrite Forall_forall in IH. split_and!; [done..| |set_solver].
      intros y Hy. by rewrite IH.
  - rewrite app_nil_r. apply not_false_is_true in Hx. destruct (max_by_key _ _) as [[i b]|].
    + destruct IH as (l & r & -> & Hi & Hb & Hl & Hr). cbn [fst snd] in *.
      exists l, (r ++ [x]). cbn [fst snd]. split_and!; [by rewrite <-app_assoc|done..|].
      intros y. rewrite elem_of_app, list_elem_of_singleton. intros [?| ->] Hy; [by apply Hr|congruence].
    + apply Forall_app. auto.
Qed.

Lemma victim_spec q :
  match victim q with
  | None => Forall (λ x, is_group_head x = true) q
  | Some i => ∃ e, is_victim q (i, e)
  end.
Proof.
  unfold victim. pose proof (victim_entry q) as H.
  destruct (max_by_key _ _) as [[i e]|]; cbn; [by exists e|done].
Qed.

(** ** A push *)

(** What a push may do to the queue, per outcome. *)
Definition push_effect (cap : Z) (q : list Object) (obj : Object) (q' : list Object) (out : PushOutcome) : Prop :=
  match out with
  | Queued => zlen q < cap ∧ q' = q ++ [obj]
  | Evicted e => cap ≤ zlen q ∧ ∃ l r, q = l ++ e :: r ∧ q' = l ++ r ++ [obj] ∧ is_group_head e = false ∧
      (is_group_head obj = true ∨ priority obj < priority e) ∧
      (∀ x, x ∈ l → is_group_head x = false → priority x ≤ priority e) ∧
      (∀ x, x ∈ r → is_group_head x = false → priority x < priority e)
  | DroppedSelf => cap ≤ zlen q ∧ q' = q ∧
      (if is_group_head obj then Forall (λ x, is_group_head x = true) q
       else ∀ x, x ∈ q → is_group_head x = false → priority x ≤ priority obj)
  end.

Definition drop_count (out : PushOutcome) : Z := match out with Queued => 0 | _ => 1 end.

Lemma dropq_push_effect obj d : dq_dropped d < u64_max →
  ∃ d' out, dropq_push obj d = Some (d', out) ∧ dq_capacity d' = dq_capacity d ∧
    dq_dropped d' = dq_dropped d + drop_count out ∧
    push_effect (dq_capacity d) (dq_queue d) obj (dq_queue d') out.
Proof.
  intros Hd. unfold dropq_push. destruct (Z.ltb_spec (zlen (dq_queue d)) (dq_capacity d)).
  { eexists _, _. split; [done|]. cbn. split_and!; auto; lia. }
  pose proof (victim_spec (dq_queue d)) as Hv. rewrite add_chk_ok by lia. cbn [mbind option_bind].
  destruct (victim (dq_queue d)) as [i|].
  - destruct Hv as (e & l & r & E & Hi & He & Hl & Hr). cbn [fst snd] in *.
    assert (dq_queue d !! Z.to_nat i = Some e) as Hlk.
    { rewrite E, Hi. unfold zlen. rewrite Nat2Z.id. by apply list_lookup_middle. }
    assert (vget (dq_queue d) i = Some e) as Hg by (apply vget_Some; split; [pose proof (zlen_nonneg l); lia|done]).
    rewrite Hg. cbn [mbind option_bind]. unfold vd_remove. rewrite Hg. cbn [mbind option_bind].
    destruct (is_group_head obj || (priority obj <? priority e)) eqn:Hc.
    + eexists _, _. split; [done|]. cbn [dq_capacity dq_dropped dq_queue drop_count push_effect].
      split; [done|]. split; [done|]. split; [done|]. exists l, r. split_and!; auto.
      * rewrite E, Hi. unfold zlen. rewrite Nat2Z.id, delete_middle, <-app_assoc. done.
      * apply orb_true_iff in Hc as [?|?%Z.ltb_lt]; auto.
    + eexists _, _. split; [done|]. apply orb_false_iff in Hc as [Hh Hp%Z.ltb_ge].
      cbn. rewrite Hh. split_and!; auto. rewrite E. intros x. rewrite elem_of_app, elem_of_cons.
      intros [Hx|[->|Hx]] Hxh; [specialize (Hl x Hx Hxh)| |specialize (Hr x Hx Hxh)]; lia.
  - eexists _, _. split; [done|]. cbn. split_and!; auto. destruct (is_group_head obj); [done|].
    intros x Hx Hh. rewrite Forall_forall in Hv. rewrite (Hv x Hx) in Hh. done.
Qed.

(** ** Runs *)

Inductive DqOp :=
  | OpPush (o : Object)
  | OpPop.

(** A run, with the objects popped, the objects let in, and the number of
    pushes. *)
Fixpoint dq_run (ops : list DqOp) (d : PriorityDropQueue) : option (PriorityDropQueue * list Object * list Object) :=
  match ops with
  | [] => Some (d, [], [])
  | OpPush o :: ops' =>
      '(d, out) ← dropq_push o d;
      '(d, popped, let_in) ← dq_run ops' d;
      Some (d, popped, match out with DroppedSelf => let_in | _ => o :: let_in end)
  | OpPop :: ops' =>
      let '(x, d) := dropq_pop d in
      '(d, popped, let_in) ← dq_run ops' d;
      Some (d, match x with Some o => o :: popped | None => popped end, let_in)
  end.

Definition heads (l : list Object) : list Object := filter (λ o, is_group_head o = true) l.

Fixpoint pushes (ops : list DqOp) : Z :=
  match ops with [] => 0 | OpPush _ :: ops' => 1 + pushes ops' | OpPop :: ops' => pushes ops' end.

Lemma pushes_nonneg ops : 0 ≤ pushes ops.
Proof. induction ops as [|[] ops IH]; simpl; lia. Qed.

Lemma heads_app l k : heads (l ++ k) = heads l ++ heads k.
Proof. apply filter_app. Qed.

Lemma heads_middle l e r : is_group_head e = false → heads (l ++ e :: r) = heads (l ++ r).
Proof. intros He. unfold heads. rewrite !filter_app, filter_cons, decide_False by congruence. done. Qed.

(** A push adds the new object's head to the heads, or leaves them. *)
Lemma push_effect_heads cap q obj q' out : push_effect cap q obj q' out →
  heads q' = heads q ++ match out with DroppedSelf => [] | _ => heads [obj] end.
Proof.
  destruct out; cbn [push_effect].
  - intros (_ & ->). apply heads_app.
  - intros (_ & l & r & -> & -> & He & _). rewrite (heads_middle l) by done. by rewrite app_assoc, heads_app.
  - intros (_ & -> & _). by rewrite app_nil_r.
Qed.

Lemma push_effect_len cap q obj q' out : push_effect cap q obj q' out →
  zlen q' = zlen q + 1 - drop_count out ∧ (zlen q ≤ cap → zlen q' ≤ cap).
Proof.
  destruct out; cbn [push_effect drop_count].
  - intros (? & ->). rewrite zlen_app, zlen_cons, zlen_nil. lia.
  - intros (_ & l & r & -> & -> & _). rewrite !zlen_app, !zlen_cons, zlen_nil. lia.
  - intros (_ & -> & _). lia.
Qed.

Lemma dq_run_spec ops d : zlen (dq_queue d) ≤ dq_capacity d → dq_dropped d + pushes ops ≤ u64_max →
  ∃ d' popped let_in, dq_run ops d = Some (d', popped, let_in) ∧
    dq_capacity d' = dq_capacity d ∧ zlen (dq_queue d') ≤ dq_capacity d ∧
    heads (popped ++ dq_queue d') = heads (dq_queue d ++ let_in) ∧
    zlen popped + zlen (dq_queue d') + dq_dropped d' = zlen (dq_queue d) + dq_dropped d + pushes ops.
Proof.
  revert d. induction ops as [|[o|] ops IH]; intros d Hq Hd; cbn [dq_run].
  - eexists _, _, _. split; [done|]. rewrite app_nil_r. change (pushes []) with 0 in *. rewrite zlen_nil. split_and!; auto; lia.
  - cbn [pushes] in *. pose proof (pushes_nonneg ops) as H0.
    destruct (dropq_push_effect o d) as (d1 & out & -> & Hc & Hdr & He); [lia|]. cbn [mbind option_bind].
    pose proof (push_effect_heads _ _ _ _ _ He) as Hh. destruct (push_effect_len _ _ _ _ _ He) as [Hl Hle].
    destruct (IH d1) as (d' & popped & let_in & -> & Hc' & Hl' & Hh' & Hn); [rewrite Hc; auto|destruct out; cbn in Hdr; lia|].
    cbn [mbind option_bind]. eexists _, _, _. split; [done|].
    split; [congruence|]. split; [by rewrite <-Hc|]. split; [|lia].
    rewrite Hh', !heads_app, Hh, <-app_assoc. f_equal. destruct out; try done; by rewrite <-heads_app.
  - cbn [pushes] in *.
    unfold dropq_pop. destruct (dq_queue d) as [|x q] eqn:E.
    + destruct (IH d) as (d' & popped & let_in & -> & Hc' & Hl' & Hh' & Hn); [by rewrite E|lia|].
      cbn [mbind option_bind]. eexists _, _, _. split; [done|]. rewrite E in *. split_and!; auto; lia.
    + destruct (IH (mkDQ (dq_capacity d) q (dq_dropped d))) as (d' & popped & let_in & -> & Hc' & Hl' & Hh' & Hn); cbn [dq_capacity dq_queue dq_dropped] in *.
      { rewrite zlen_cons in Hq. lia. }
      { lia. }
      cbn [mbind option_bind]. eexists _, _, _. split; [done|]. rewrite !zlen_cons. cbn [app]. split_and!; auto; [|lia].
      change (x :: popped ++ dq_queue d') with ([x] ++ popped ++ dq_queue d').
      change (x :: q ++ let_in) with ([x] ++ q ++ let_in). rewrite (heads_app [x]), Hh'. by rewrite (heads_app [x]).
Qed.

(** ** Claims *)

(** A full queue evicts the least important object that starts no group,
    the latest of equals, and only for a group head or a more important
    object; the newcomer is dropped exactly when there is no such victim.
    Nothing else moves, and a push never panics. *)
Theorem dropq_push_correct obj d : dq_dropped d < u64_max →
  ∃ d' out, dropq_push obj d = Some (d', out) ∧ dq_capacity d' = dq_capacity d ∧
    dq_dropped d' = dq_dropped d + drop_count out ∧
    push_effect (dq_capacity d) (dq_queue d) obj (dq_queue d') out.
Proof. apply dropq_push_effect. Qed.

Lemma dropq_push_correct_witness :
  let d := mkDQ 2 [mkObj 1 1 5 0 []; mkObj 1 2 5 0 []] 0 in
  dropq_push (mkObj 2 0 9 0 []) d = Some (mkDQ 2 [mkObj 1 1 5 0 []; mkObj 2 0 9 0 []] 1, Evicted (mkObj 1 2 5 0 [])) ∧
  ∃ d' out, dropq_push (mkObj 2 0 9 0 []) d = Some (d', out) ∧ dq_capacity d' = dq_capacity d ∧
    dq_dropped d' = dq_dropped d + drop_count out ∧
    push_effect (dq_capacity d) (dq_queue d) (mkObj 2 0 9 0 []) (dq_queue d') out.
Proof. intros d. split; [reflexivity|]. apply (dropq_push_correct (mkObj 2 0 9 0 []) d). reflexivity. Defined.

(** Through every sequence of pushes and pops the queue stays within its
    capacity and never panics, every group head let in leaves in order, and
    every pushed object is popped, queued or counted as dropped. *)
Theorem dropq_keeps_heads cap d ops : dropq_new cap = Some d → pushes ops ≤ u64_max →
  ∃ d' popped let_in, dq_run ops d = Some (d', popped, let_in) ∧
    dropq_len d' ≤ cap ∧ heads (popped ++ dq_queue d') = heads let_in ∧
    zlen popped + dropq_len d' + dq_dropped d' = pushes ops.
Proof.
  unfold dropq_new, dropq_len. intros Hn Hp. destruct (Z.ltb_spec 0 cap); simplify_eq.
  destruct (dq_run_spec ops (mkDQ cap [] 0)) as (d' & popped & let_in & E & _ & Hl & Hh & Hc);
    cbn [dq_queue dq_capacity dq_dropped] in *; [rewrite zlen_nil; lia|lia|].
  eexists _, _, _. split; [done|]. split_and!; auto.
Qed.

Lemma dropq_keeps_heads_witness :
  ∃ d' popped let_in,
    dq_run [OpPush (mkObj 1 0 0 0 []); OpPush (mkObj 1 1 1 0 []); OpPush (mkObj 2 0 0 0 []); OpPop] (mkDQ 2 [] 0) =
      Some (d', popped, let_in) ∧
    dropq_len d' ≤ 2 ∧ heads (popped ++ dq_queue d') = heads let_in ∧ zlen popped + dropq_len d' + dq_dropped d' = 3.
Proof.
  apply (dropq_keeps_heads 2 (mkDQ 2 [] 0) [OpPush (mkObj 1 0 0 0 []); OpPush (mkObj 1 1 1 0 []); OpPush (mkObj 2 0 0 0 []); OpPop]).
  - reflexivity.
  - vm_compute. congruence.
Defined.
