(* ===== verification/MoqCache.v ===== *)
(** * MoQ: the group cache of a track

    Models [crates/moq-live/src/cache.rs]: the last groups of a track, each
    with its objects in order, from which a late subscriber catches up. *)

From S2P Require Import Prelude Bytes MoqCodec.

Record GroupCache := mkGC {
  gc_capacity : Z;
  gc_groups : list (Z * list Object);
  gc_dropped_late : Z
}.

(** The assertion on the capacity panics. *)
Definition cache_new (capacity : Z) : option GroupCache :=
  if 0 <? capacity then Some (mkGC capacity [] 0) else None.

(** [while len > capacity { pop_front() }] *)
Fixpoint slide (capacity : Z) (groups : list (Z * list Object)) : list (Z * list Object) :=
  match groups with
  | [] => []
  | _ :: rest => if capacity <? zlen groups then slide capacity rest else groups
  end.

(** [partition_point] of a list that the predicate partitions: the length of
    the leading run. *)
Fixpoint partition_point (P : Object → bool) (l : list Object) : nat :=
  match l with
  | [] => 0%nat
  | x :: l' => if P x then S (partition_point P l') else 0%nat
  end.

(** [Vec::insert] at a position within the vector. *)
Definition vec_insert {A} (pos : nat) (x : A) (l : list A) : list A := take pos l ++ x :: drop pos l.

Definition insert_object (obj : Object) (objs : list Object) : list Object :=
  vec_insert (partition_point (λ o, object_id o <? object_id obj) objs) obj objs.

(** [iter_mut().find(..).expect(..)] and the insertion: [None] is the panic
    of the [expect]. *)
Fixpoint insert_in_group (obj : Object) (groups : list (Z * list Object)) : option (list (Z * list Object)) :=
  match groups with
  | [] => None
  | (g, objs) :: rest =>
      if g =? group_id obj then Some ((g, insert_object obj objs) :: rest)
      else rest' ← insert_in_group obj rest; Some ((g, objs) :: rest')
  end.

Definition cache_insert (obj : Object) (c : GroupCache) : option (GroupCache * bool) :=
  if match head (gc_groups c) with Some (oldest, _) => group_id obj <? oldest | None => false end then
    n ← add_chk u64_max (gc_dropped_late c) 1;
    Some (mkGC (gc_capacity c) (gc_groups c) n, false)
  else if match last (gc_groups c) with Some (g, _) => g <? group_id obj | None => true end then
    Some (mkGC (gc_capacity c) (slide (gc_capacity c) (gc_groups c ++ [(group_id obj, [obj])])) (gc_dropped_late c), true)
  else
    groups ← insert_in_group obj (gc_groups c);
    Some (mkGC (gc_capacity c) groups (gc_dropped_late c), true).

Definition cache_latest_group_id (c : GroupCache) : option Z := fst <$> last (gc_groups c).

Definition snapshot_from_latest_group (c : GroupCache) : list Object :=
  match last (gc_groups c) with Some (_, objs) => objs | None => [] end.

Definition snapshot_from_group (g0 : Z) (c : GroupCache) : list Object :=
  let out := foldl (λ out e, if g0 <=? e.1 then out ++ e.2 else out) [] (gc_groups c) in
  if bool_decide (out = []) then snapshot_from_latest_group c else out.

Definition group_count (c : GroupCache) : Z := zlen (gc_groups c).

Definition object_count (c : GroupCache) : Z := foldr (λ e n, zlen e.2 + n) 0 (gc_groups c).

(** ** The invariant *)

(** Groups in strict order; each non-empty, with objects of its own in the
    order of their ids; no more groups than the capacity. *)
Definition group_ok (e : Z * list Object) : Prop :=
  e.2 ≠ [] ∧ Forall (λ o, group_id o = e.1) e.2 ∧
  StronglySorted (λ a b, object_id a ≤ object_id b) e.2.

Definition cache_inv (c : GroupCache) : Prop :=
  0 < gc_capacity c ∧ zlen (gc_groups c) ≤ gc_capacity c ∧
  StronglySorted Z.lt (gc_groups c).*1 ∧ Forall group_ok (gc_groups c) ∧ 0 ≤ gc_dropped_late c.

Definition contents (c : GroupCache) : list Object := concat (gc_groups c).*2.

Lemma cache_inv_empty cap : 0 < cap → cache_inv (mkGC cap [] 0).
Proof. intros. unfold cache_inv. cbn [gc_capacity gc_groups gc_dropped_late]. change (zlen _) with 0. split_and!; try lia; constructor. Qed.

Lemma slide_suffix cap groups : ∃ k, groups = k ++ slide cap groups ∧
  (0 ≤ cap → zlen (slide cap groups) = Z.min cap (zlen groups)).
Proof.
  induction groups as [|e rest IH]; cbn [slide].
  - exists []. split; [done|]. intros. rewrite (@zlen_nil (Z * list Object)). lia.
  - destruct (Z.ltb_spec cap (zlen (e :: rest))).
    + destruct IH as (k & E & Hl). exists (e :: k). split; [cbn; congruence|].
      intros Hc. rewrite (Hl Hc). rewrite zlen_cons in *. lia.
    + exists []. split; [done|]. lia.
Qed.

Lemma partition_insert obj objs : StronglySorted (λ a b, object_id a ≤ object_id b) objs →
  StronglySorted (λ a b, object_id a ≤ object_id b) (insert_object obj objs).
Proof.
  unfold insert_object, vec_insert. induction objs as [|x l IH]; intros Hs; cbn.
  - by repeat constructor.
  - apply StronglySorted_inv in Hs as [Hs Hx]. destruct (Z.ltb_spec (object_id x) (object_id obj)); cbn.
    + constructor; [by apply IH|]. rewrite Forall_app, Forall_cons. split_and!; [by apply Forall_take|lia|by apply Forall_drop].
    + constructor; [by constructor|]. constructor; [lia|]. eapply Forall_impl; [done|]. cbn. intros. lia.
Qed.

Lemma insert_object_perm obj objs : insert_object obj objs ≡ₚ (obj :: objs).
Proof. unfold insert_object, vec_insert. rewrite <-Permutation_middle, take_drop. done. Qed.

Lemma insert_object_ok g obj objs : group_ok (g, objs) → group_id obj = g → group_ok (g, insert_object obj objs).
Proof.
  intros (Hne & Hg & Hs) Ho. cbn in *. split_and!; cbn.
  - intros E. pose proof (insert_object_perm obj objs) as Hp. rewrite E in Hp. by apply Permutation_nil_cons in Hp.
  - rewrite insert_object_perm. by constructor.
  - by apply partition_insert.
Qed.

Lemma insert_in_group_None obj groups : insert_in_group obj groups = None ↔ group_id obj ∉ groups.*1.
Proof.
  induction groups as [|[g objs] rest IH]; cbn [insert_in_group fmap list_fmap fst].
  - split; [set_solver|done].
  - rewrite elem_of_cons. destruct (Z.eqb_spec g (group_id obj)).
    + split; [done|]. intros []. auto.
    + rewrite bind_None. split.
      * intros [H%IH|(? & _ & ?)]; [|done]. intros [?|?]; [congruence|done].
      * intros H. left. apply IH. tauto.
Qed.

Lemma insert_in_group_Some obj groups groups' : insert_in_group obj groups = Some groups' →
  Forall group_ok groups → groups'.*1 = groups.*1 ∧ Forall group_ok groups' ∧
  concat groups'.*2 ≡ₚ (obj :: concat groups.*2).
Proof.
  revert groups'. induction groups as [|[g objs] rest IH]; intros groups' H Hok; cbn [insert_in_group] in H; [done|].
  apply Forall_cons in Hok as [Hg Hok]. destruct (Z.eqb_spec g (group_id obj)).
  - injection H as <-. cbn. split_and!; [done|constructor; [by apply insert_object_ok|done]|].
    by rewrite insert_object_perm.
  - apply bind_Some in H as (rest' & E & [= <-]). destruct (IH _ E Hok) as (H1 & H2 & H3). cbn.
    split_and!; [congruence|by constructor|]. rewrite H3. by rewrite Permutation_middle.
Qed.

(** ** Insertion *)

Lemma elem_of_contents c o : o ∈ contents c ↔ ∃ e, e ∈ gc_groups c ∧ o ∈ e.2.
Proof.
  unfold contents. rewrite elem_of_concat. split.
  - intros (objs & Ho & (e & -> & He)%list_elem_of_fmap). eauto.
  - intros (e & He & Ho). exists e.2. split; [done|]. by apply list_elem_of_fmap_2.
Qed.

(** The groups after the window has slid. *)
Lemma slide_ok cap groups k : 0 < cap → groups = k ++ slide cap groups →
  StronglySorted Z.lt groups.*1 → Forall group_ok groups →
  StronglySorted Z.lt (slide cap groups).*1 ∧ Forall group_ok (slide cap groups) ∧
  (∀ x y, x ∈ concat k.*2 → y ∈ concat (slide cap groups).*2 → group_id x < group_id y).
Proof.
  intros Hc E Hs Hok. rewrite E in Hs, Hok. rewrite fmap_app, StronglySorted_app in Hs.
  apply Forall_app in Hok as [Hk Hok]. destruct Hs as (Hlt & _ & Hs). split_and!; [done..|].
  intros x y (lx & Hx & (ex & -> & Hex)%list_elem_of_fmap)%elem_of_concat
    (ly & Hy & (ey & -> & Hey)%list_elem_of_fmap)%elem_of_concat.
  rewrite Forall_forall in Hk, Hok. destruct (Hk _ Hex) as (_ & Hgx & _). destruct (Hok _ Hey) as (_ & Hgy & _).
  rewrite Forall_forall in Hgx, Hgy. rewrite (Hgx _ Hx), (Hgy _ Hy). apply Hlt; by apply list_elem_of_fmap_2.
Qed.

Lemma sorted_le_last l m x : StronglySorted Z.lt l → last l = Some m → x ∈ l → x ≤ m.
Proof.
  intros Hs (l' & ->)%last_Some. rewrite StronglySorted_app in Hs. destruct Hs as (Hlt & _).
  rewrite elem_of_app, list_elem_of_singleton. intros [Hx| ->]; [|lia].
  specialize (Hlt x m Hx ltac:(set_solver)). lia.
Qed.

(** The groups of the window once [obj] has its group there. *)
Definition window_with (obj : Object) (c : GroupCache) : list Z :=
  (gc_groups c).*1 ++ (if bool_decide (group_id obj ∈ (gc_groups c).*1) then [] else [group_id obj]).

(** What an insertion does.  An accepted object leaves the newest [capacity]
    groups: groups go only when there are more, and only the excess. *)
Definition insert_effect (obj : Object) (c : GroupCache) (r : option (GroupCache * bool)) : Prop :=
  match r with
  | None => group_id obj ∉ (gc_groups c).*1 ∧
      ∃ g1 g2, g1 ∈ (gc_groups c).*1 ∧ g2 ∈ (gc_groups c).*1 ∧ g1 < group_id obj < g2
  | Some (c', false) => cache_inv c' ∧ gc_groups c' = gc_groups c ∧ gc_dropped_late c' = gc_dropped_late c + 1 ∧
      gc_groups c ≠ [] ∧ ∀ g, g ∈ (gc_groups c).*1 → group_id obj < g
  | Some (c', true) => cache_inv c' ∧ gc_dropped_late c' = gc_dropped_late c ∧ obj ∈ contents c' ∧
      gc_capacity c' = gc_capacity c ∧
      (gc_groups c').*1 = drop (length (window_with obj c) - Z.to_nat (gc_capacity c)) (window_with obj c) ∧
      ∃ removed, ((removed ++ contents c') ≡ₚ (obj :: contents c)) ∧
        ∀ x y, x ∈ removed → y ∈ contents c' → group_id x < group_id y
  end.

Lemma slide_drop cap groups : 0 ≤ cap → slide cap groups = drop (length groups - Z.to_nat cap) groups.
Proof.
  intros Hc. destruct (slide_suffix cap groups) as (k & E & Hl). specialize (Hl Hc).
  assert (length groups - Z.to_nat cap = length k)%nat as ->; [|by rewrite E at 2; rewrite drop_app_length].
  apply (f_equal length) in E. rewrite length_app in E. unfold zlen in Hl. lia.
Qed.

Lemma insert_new_group obj c : cache_inv c →
  (∀ g, g ∈ (gc_groups c).*1 → g < group_id obj) →
  insert_effect obj c (Some (mkGC (gc_capacity c)
    (slide (gc_capacity c) (gc_groups c ++ [(group_id obj, [obj])])) (gc_dropped_late c), true)).
Proof.
  intros (Hc & Hl & Hs & Hok & Hd) Hlt. set (G := gc_groups c ++ [(group_id obj, [obj])]).
  destruct (slide_suffix (gc_capacity c) G) as (k & E & Hlen). specialize (Hlen ltac:(lia)).
  assert (StronglySorted Z.lt G.*1) as HsG.
  { unfold G. rewrite fmap_app. apply StronglySorted_app_2; [|done|by repeat constructor].
    intros x y Hx ->%list_elem_of_singleton. by apply Hlt. }
  assert (Forall group_ok G) as HokG.
  { apply Forall_app. split; [done|]. repeat constructor. done. }
  destruct (slide_ok _ _ _ Hc E HsG HokG) as (Hs' & Hok' & Hrem). cbn [insert_effect].
  assert (zlen G = 1 + zlen (gc_groups c)) as HG by (unfold G; rewrite zlen_app, zlen_cons, zlen_nil; lia).
  pose proof (zlen_nonneg (gc_groups c)).
  split_and!; cbn [gc_dropped_late]; [unfold cache_inv; cbn; split_and!; auto; lia|done| |done| |].
  - apply elem_of_contents. exists (group_id obj, [obj]). split; [|set_solver]. cbn.
    destruct (last (slide (gc_capacity c) G)) as [e|] eqn:El.
    + pose proof El as El'. apply last_Some in El as (s & Es). rewrite Es, app_assoc in E. unfold G in E at 1.
      apply app_inj_2 in E as [_ [= <-]]; [|done]. rewrite Es. set_solver.
    + apply last_None in El. rewrite El, zlen_nil in Hlen. lia.
  - cbn [gc_groups]. rewrite slide_drop, fmap_drop by lia. unfold window_with.
    rewrite bool_decide_false by (intros Hin%Hlt; lia).
    unfold G. rewrite fmap_app, !length_app, length_fmap. done.
  - exists (concat k.*2). split; [|done]. unfold contents. cbn [gc_groups].
    rewrite <-concat_app, <-fmap_app, <-E. unfold G. rewrite fmap_app, concat_app. cbn.
    by rewrite <-Permutation_cons_append.
Qed.

Lemma cache_insert_effect obj c : cache_inv c → gc_dropped_late c < u64_max →
  insert_effect obj c (cache_insert obj c).
Proof.
  intros Hinv Hd. pose proof Hinv as (Hc & Hl & Hs & Hok & Hd0). unfold cache_insert.
  destruct (last (gc_groups c)) as [[gl ol]|] eqn:El.
  2:{ apply last_None in El. rewrite El. cbn [head app]. pose proof (insert_new_group obj c Hinv) as Hn.
      rewrite El in Hn. apply Hn. set_solver. }
  assert (last (gc_groups c).*1 = Some gl) as Egl by (rewrite fmap_last, El; done).
  destruct (gc_groups c) as [|[go oo] rest] eqn:Eg; [done|]. cbn [head].
  destruct (Z.ltb_spec (group_id obj) go) as [Ho|Ho].
  { rewrite add_chk_ok by lia. cbn [mbind option_bind insert_effect gc_groups gc_dropped_late]. rewrite Eg.
    split_and!; try done.
    - unfold cache_inv. cbn. split_and!; auto; lia.
    - intros g. cbn. rewrite elem_of_cons. cbn in Hs. apply StronglySorted_cons in Hs as [Hgo _].
      rewrite Forall_forall in Hgo. intros [->|?%Hgo]; lia. }
  rewrite <-Eg in *. destruct (Z.ltb_spec gl (group_id obj)) as [Hn|Hn].
  { apply insert_new_group; [done|]. intros g Hg. pose proof (sorted_le_last _ _ _ Hs Egl Hg). lia. }
  destruct (insert_in_group obj (gc_groups c)) as [groups'|] eqn:Ei; cbn [mbind option_bind].
  - destruct (insert_in_group_Some _ _ _ Ei Hok) as (H1 & H2 & H3). cbn [insert_effect].
    assert (zlen groups' = zlen (gc_groups c)) as Hz.
    { unfold zlen. f_equal. by rewrite <-(length_fmap fst), H1, length_fmap. }
    split_and!; [unfold cache_inv; cbn; rewrite H1; split_and!; auto; lia|done| |done| |].
    + unfold contents. cbn [gc_groups]. rewrite H3. set_solver.
    + cbn [gc_groups]. unfold window_with. destruct (decide (group_id obj ∈ (gc_groups c).*1)) as [Hin|Hin].
      * rewrite bool_decide_true, app_nil_r, H1 by done. rewrite length_fmap.
        replace (length (gc_groups c) - Z.to_nat (gc_capacity c))%nat with 0%nat by (unfold zlen in Hl; lia). done.
      * apply insert_in_group_None in Hin. congruence.
    + exists []. split; [done|]. set_solver.
  - apply insert_in_group_None in Ei. cbn [insert_effect]. split; [done|].
    assert (go ∈ (gc_groups c).*1) as Hgo by (rewrite Eg; set_solver).
    assert (gl ∈ (gc_groups c).*1) as Hgl by by apply last_Some_elem_of.
    exists go, gl. split_and!; try done; destruct (decide (group_id obj = go)), (decide (group_id obj = gl));
      subst; try done; lia.
Qed.

(** ** Snapshots *)

(** The objects of the groups from [g0] on, when groups hold their own. *)
Lemma foldl_from_group g0 groups out : Forall group_ok groups →
  foldl (λ out e, if g0 <=? e.1 then out ++ e.2 else out) out groups =
    out ++ filter (λ o, g0 ≤ group_id o) (concat groups.*2).
Proof.
  intros Hok. revert out. induction Hok as [|[g objs] rest (_ & Hg & _) _ IH]; intros out; cbn.
  - by rewrite app_nil_r.
  - rewrite IH, filter_app. cbn in Hg. rewrite Forall_forall in Hg. destruct (Z.leb_spec g0 g).
    + rewrite (filter_all_in _ objs), app_assoc; [done|]. intros o Ho. rewrite (Hg _ Ho). done.
    + assert (filter (λ o, g0 ≤ group_id o) objs = []) as ->; [|done].
      apply filter_none_in. intros o Ho. rewrite (Hg _ Ho). lia.
Qed.

Lemma snapshot_latest_filter c : cache_inv c →
  snapshot_from_latest_group c = filter (λ o, cache_latest_group_id c = Some (group_id o)) (contents c).
Proof.
  intros (_ & _ & Hs & Hok & _). unfold snapshot_from_latest_group, cache_latest_group_id, contents.
  destruct (last (gc_groups c)) as [[g objs]|] eqn:El; cbn.
  2:{ apply last_None in El. by rewrite El. }
  apply last_Some in El as (pre & E). rewrite E in *. rewrite fmap_app, concat_app, filter_app. cbn. rewrite app_nil_r.
  apply Forall_app in Hok as [Hpre Hg]. apply Forall_singleton in Hg as (_ & Hg & _). cbn in Hg.
  rewrite fmap_app, StronglySorted_app in Hs. destruct Hs as (Hlt & _).
  rewrite (filter_all_in _ objs).
  2:{ intros o Ho. rewrite Forall_forall in Hg. by rewrite (Hg _ Ho). }
  assert (filter (λ o, Some g = Some (group_id o)) (concat pre.*2) = []) as ->; [|done].
  apply filter_none_in.
  intros o (l & Ho & (e & -> & He)%list_elem_of_fmap)%elem_of_concat [= Eg].
  rewrite Forall_forall in Hpre. destruct (Hpre _ He) as (_ & Hge & _). rewrite Forall_forall in Hge.
  specialize (Hlt e.1 g ltac:(by apply list_elem_of_fmap_2) ltac:(set_solver)). rewrite (Hge _ Ho) in Eg. lia.
Qed.

(** ** Claims *)

(** [C35] An insertion keeps the groups in strict order, each with its own
    objects in order, within the capacity: an object older than the window
    is refused and counted; any other is stored, and the oldest groups are
    let go exactly as far as there are more than the capacity.  The only panic is for a group that falls between
    two groups of the window without being one. *)
Theorem cache_insert_correct obj c : cache_inv c → gc_dropped_late c < u64_max →
  insert_effect obj c (cache_insert obj c).
Proof. apply cache_insert_effect. Qed.

Lemma cache_insert_correct_witness :
  let c := mkGC 2 [(1, [mkObj 1 0 0 0 []]); (2, [mkObj 2 0 0 0 []; mkObj 2 3 0 0 []])] 0 in
  cache_insert (mkObj 2 1 0 0 []) c =
    Some (mkGC 2 [(1, [mkObj 1 0 0 0 []]); (2, [mkObj 2 0 0 0 []; mkObj 2 1 0 0 []; mkObj 2 3 0 0 []])] 0, true) ∧
  insert_effect (mkObj 2 1 0 0 []) c (cache_insert (mkObj 2 1 0 0 []) c).
Proof.
  intros c. split; [reflexivity|]. apply cache_insert_correct; [|reflexivity].
  unfold cache_inv, c. split_and!; try (vm_compute; congruence); repeat constructor; vm_compute; congruence.
Defined.

(** The catch-up snapshot is exactly the cached objects of the newest
    group; the snapshot from a group is exactly the cached objects from that
    group on, or the newest group if there are none. *)
Theorem snapshots_exact g0 c : cache_inv c →
  snapshot_from_latest_group c = filter (λ o, cache_latest_group_id c = Some (group_id o)) (contents c) ∧
  snapshot_from_group g0 c =
    (let l := filter (λ o, g0 ≤ group_id o) (contents c) in
     if bool_decide (l = []) then snapshot_from_latest_group c else l) ∧
  (snapshot_from_latest_group c = [] → contents c = []).
Proof.
  intros Hinv. split_and!.
  - by apply snapshot_latest_filter.
  - unfold snapshot_from_group. destruct Hinv as (_ & _ & _ & Hok & _).
    by rewrite (foldl_from_group g0 _ [] Hok).
  - destruct Hinv as (_ & _ & _ & Hok & _). unfold snapshot_from_latest_group, contents.
    destruct (last (gc_groups c)) as [[g objs]|] eqn:El.
    + apply last_Some in El as (pre & E). rewrite E in Hok. apply Forall_app in Hok as [_ Hg].
      apply Forall_singleton in Hg as (Hne & _). done.
    + apply last_None in El. by rewrite El.
Qed.

Lemma snapshots_exact_witness :
  let c := mkGC 2 [(1, [mkObj 1 0 0 0 []]); (2, [mkObj 2 0 0 0 []])] 0 in
  snapshot_from_group 7 c = [mkObj 2 0 0 0 []] ∧
  snapshot_from_latest_group c = filter (λ o, cache_latest_group_id c = Some (group_id o)) (contents c).
Proof.
  intros c. split; [reflexivity|]. apply (snapshots_exact 7 c).
  unfold cache_inv, c. split_and!; try (vm_compute; congruence); repeat constructor; vm_compute; congruence.
Defined.

(** Groups that overtake one another on the way panic the cache: after
    objects of two groups with a gap between them, the first object of a
    group in the gap finds no group to go into. *)
Theorem late_group_panics cap o1 o2 o : 2 ≤ cap → group_id o1 < group_id o < group_id o2 →
  (c ← cache_new cap; '(c, _) ← cache_insert o1 c; '(c, _) ← cache_insert o2 c;
   Some (cache_insert o c)) = Some None.
Proof.
  intros Hc Ho. unfold cache_new. rewrite (proj2 (Z.ltb_lt _ _)) by lia. cbn [mbind option_bind].
  unfold cache_insert. cbn [gc_groups head last gc_capacity gc_dropped_late app mbind option_bind slide].
  rewrite zlen_cons, zlen_nil, (proj2 (Z.ltb_ge cap _)) by lia. cbn [mbind option_bind gc_groups head last].
  rewrite (proj2 (Z.ltb_ge (group_id o2) _)) by lia. rewrite (proj2 (Z.ltb_lt (group_id o1) (group_id o2))) by lia.
  cbn [gc_groups head last gc_capacity gc_dropped_late app mbind option_bind slide].
  rewrite !zlen_cons, zlen_nil, (proj2 (Z.ltb_ge cap _)) by lia. cbn [mbind option_bind gc_groups head last].
  rewrite (proj2 (Z.ltb_ge (group_id o) _)) by lia. rewrite (proj2 (Z.ltb_ge (group_id o2) _)) by lia.
  cbn [insert_in_group]. rewrite !(proj2 (Z.eqb_neq _ _)) by lia. done.
Qed.

Lemma late_group_panics_witness :
  (c ← cache_new 8; '(c, _) ← cache_insert (mkObj 1 0 0 0 []) c; '(c, _) ← cache_insert (mkObj 3 0 0 0 []) c;
   Some (cache_insert (mkObj 2 0 0 0 []) c)) = Some None.
Proof. apply (late_group_panics 8 (mkObj 1 0 0 0 []) (mkObj 3 0 0 0 []) (mkObj 2 0 0 0 [])); cbn; lia. Defined.
