(* ===== verification/MoqHub.v ===== *)
(** * MoQ: the fan-out hub

    Models [crates/moq-live/src/hub.rs]: per track a group cache and a
    broadcast channel, and the registry of announced namespaces.  Every
    operation holds the track's lock while it touches the cache and the
    channel, so operations are atomic steps.

    The broadcast channel is [tokio]'s: it is a parameter, the class
    [Broadcast], with what [tokio] documents of it.  The channel is bounded:
    it keeps the last values sent, as many as its capacity rounded up to a
    power of two, and sending never waits.  A receiver is handed the values
    sent after it subscribed, in order; one whose next value is gone is told
    how many it has missed ([Lagged]) and goes on with the oldest value that
    is kept. *)

From S2P Require Import Prelude Bytes MoqCodec MoqCache.

(** What a receiver that does not wait is told. *)
Inductive Recv :=
  | RecvObject (o : Object)
  | RecvLagged (n : Z)
  | RecvEmpty.

(** The view of a receiver: how many values it has missed, and the values it
    can still read.  One more value pushes the oldest out of a full channel. *)
Definition view_push (cap : Z) (o : Object) (v : Z * list Object) : Z * list Object :=
  let l := v.2 ++ [o] in if cap <? zlen l then (v.1 + 1, tail l) else (v.1, l).

Definition view_read (v : Z * list Object) : Recv * (Z * list Object) :=
  if 0 <? v.1 then (RecvLagged v.1, (0, v.2))
  else match v.2 with [] => (RecvEmpty, v) | o :: l => (RecvObject o, (v.1, l)) end.

(** [bc_keeps n s]: the channel [s] keeps [n] values.  [bc_of r s]: the
    receiver [r] belongs to [s], and [bc_view r s] is its view. *)
Class Broadcast := {
  bc_sender : Type;
  bc_receiver : Type;
  bc_channel : Z → bc_sender;
  bc_send : Object → bc_sender → bc_sender;
  bc_subscribe : bc_sender → bc_sender * bc_receiver;
  bc_recv : bc_receiver → bc_sender → Recv * bc_receiver;
  bc_keeps : Z → bc_sender → Prop;
  bc_of : bc_receiver → bc_sender → Prop;
  bc_view : bc_receiver → bc_sender → Z * list Object;
  bc_channel_keeps n : 0 < n → bc_keeps (2 ^ Z.log2_up n) (bc_channel n);
  bc_send_keeps n o s : bc_keeps n s → bc_keeps n (bc_send o s);
  bc_subscribe_keeps n s s' r : bc_subscribe s = (s', r) → bc_keeps n s → bc_keeps n s';
  bc_subscribe_new n s s' r : bc_subscribe s = (s', r) → bc_keeps n s → bc_of r s' ∧ bc_view r s' = (0, []);
  bc_subscribe_old s s' r r' : bc_subscribe s = (s', r) → bc_of r' s →
    bc_of r' s' ∧ bc_view r' s' = bc_view r' s;
  bc_send_view n o s r : bc_keeps n s → bc_of r s →
    bc_of r (bc_send o s) ∧ bc_view r (bc_send o s) = view_push n o (bc_view r s);
  bc_recv_view n s r res r' : bc_keeps n s → bc_of r s → bc_recv r s = (res, r') →
    bc_of r' s ∧ view_read (bc_view r s) = (res, bc_view r' s)
}.

(** A ring: its capacity, how many values it has overwritten and those it
    keeps.  A receiver is the position of the value it reads next. *)
Record Ring := mkRing {
  rg_cap : Z;
  rg_gone : Z;
  rg_kept : list Object
}.

Definition ring_send (o : Object) (s : Ring) : Ring :=
  let l := rg_kept s ++ [o] in
  if rg_cap s <? zlen l then mkRing (rg_cap s) (rg_gone s + 1) (tail l) else mkRing (rg_cap s) (rg_gone s) l.

Definition ring_view (r : Z) (s : Ring) : Z * list Object :=
  if r <? rg_gone s then (rg_gone s - r, rg_kept s) else (0, drop (Z.to_nat (r - rg_gone s)) (rg_kept s)).

Definition ring_recv (r : Z) (s : Ring) : Recv * Z :=
  if r <? rg_gone s then (RecvLagged (rg_gone s - r), rg_gone s)
  else match rg_kept s !! Z.to_nat (r - rg_gone s) with
       | Some o => (RecvObject o, r + 1)
       | None => (RecvEmpty, r)
       end.

Lemma zlen_tail_snoc {A} (l : list A) x : zlen (tail (l ++ [x])) = zlen l.
Proof. destruct l as [|y l]; [done|]. cbn. rewrite zlen_app, !zlen_cons, zlen_nil. lia. Qed.

Definition ring_keeps (n : Z) (s : Ring) : Prop := rg_cap s = n ∧ 0 < n ∧ zlen (rg_kept s) ≤ n.

Definition ring_of (r : Z) (s : Ring) : Prop := r ≤ rg_gone s + zlen (rg_kept s).

Definition ring_channel (n : Z) : Ring := mkRing (2 ^ Z.log2_up n) 0 [].

Definition ring_subscribe (s : Ring) : Ring * Z := (s, rg_gone s + zlen (rg_kept s)).

Lemma ring_channel_keeps n : 0 < n → ring_keeps (2 ^ Z.log2_up n) (ring_channel n).
Proof.
  intros Hn. pose proof (Z.log2_up_nonneg n). pose proof (Z.pow_pos_nonneg 2 (Z.log2_up n) ltac:(lia) ltac:(lia)).
  unfold ring_keeps. cbn. change (zlen _) with 0. lia.
Qed.

Lemma ring_send_keeps n o s : ring_keeps n s → ring_keeps n (ring_send o s).
Proof.
  intros (<- & Hn & Hk). unfold ring_keeps, ring_send.
  destruct (Z.ltb_spec (rg_cap s) (zlen (rg_kept s ++ [o]))); cbn; rewrite ?zlen_tail_snoc; done.
Qed.

Lemma ring_subscribe_keeps n s s' r : ring_subscribe s = (s', r) → ring_keeps n s → ring_keeps n s'.
Proof. by intros [= <- _] H. Qed.

Lemma ring_subscribe_new n s s' r : ring_subscribe s = (s', r) → ring_keeps n s →
  ring_of r s' ∧ ring_view r s' = (0, []).
Proof.
  intros [= <- <-] H. split; [unfold ring_of; lia|]. unfold ring_view. pose proof (zlen_nonneg (rg_kept s)).
  rewrite (proj2 (Z.ltb_ge _ _)) by lia. f_equal. apply drop_ge. unfold zlen. lia.
Qed.

Lemma ring_subscribe_old s s' r r' : ring_subscribe s = (s', r) → ring_of r' s →
  ring_of r' s' ∧ ring_view r' s' = ring_view r' s.
Proof. by intros [= <- _] H. Qed.

Lemma ring_send_view n o s r : ring_keeps n s → ring_of r s →
  ring_of r (ring_send o s) ∧ ring_view r (ring_send o s) = view_push n o (ring_view r s).
Proof.
  intros Hkeep Hof. split.
  { unfold ring_of, ring_send in *. destruct (rg_cap s <? _); cbn; [rewrite zlen_tail_snoc; lia|].
    rewrite zlen_app, zlen_cons, zlen_nil. lia. }
  revert Hkeep Hof. destruct s as [cap gone kept]. unfold ring_keeps, ring_of. cbn. intros (-> & Hn & Hk) Hr. unfold ring_send, ring_view, view_push. cbn.
  assert (zlen (kept ++ [o]) = zlen kept + 1) as Hz by (rewrite zlen_app, zlen_cons, zlen_nil; lia).
  destruct (Z.ltb_spec r gone) as [Hlt|Hge]; cbn.
  - rewrite Hz. destruct (Z.ltb_spec n (zlen kept + 1)); cbn.
    + rewrite (proj2 (Z.ltb_lt r _)) by lia. f_equal. lia.
    + by rewrite (proj2 (Z.ltb_lt r _)).
  - assert (zlen (drop (Z.to_nat (r - gone)) kept ++ [o]) = zlen kept - (r - gone) + 1) as ->
      by (unfold zlen in *; rewrite length_app, length_drop; cbn; lia).
    rewrite Hz. destruct (Z.ltb_spec n (zlen kept + 1)) as [Hf|Hf]; cbn.
    + destruct (Z.ltb_spec r (gone + 1)) as [Hr1|Hr1].
      * rewrite (proj2 (Z.ltb_lt n _)) by lia. replace (r - gone) with 0 by lia. cbn. f_equal. lia.
      * rewrite (proj2 (Z.ltb_ge n _)) by lia. f_equal.
        replace (Z.to_nat (r - gone)) with (S (Z.to_nat (r - (gone + 1)))) by lia.
        rewrite <-drop_app_le by (unfold zlen in *; lia). by destruct kept.
    + rewrite (proj2 (Z.ltb_ge r _)), (proj2 (Z.ltb_ge n _)) by lia. f_equal.
      rewrite drop_app_le by (unfold zlen in *; lia). done.
Qed.

Lemma ring_recv_view n s r res r' : ring_keeps n s → ring_of r s → ring_recv r s = (res, r') →
  ring_of r' s ∧ view_read (ring_view r s) = (res, ring_view r' s).
Proof.
  unfold ring_recv, ring_view, view_read, ring_of. intros _ Hr E. pose proof (zlen_nonneg (rg_kept s)).
  destruct (Z.ltb_spec r (rg_gone s)) as [Hlt|Hge].
  - injection E as <- <-. cbn. rewrite (proj2 (Z.ltb_lt 0 _)), Z.ltb_irrefl, Z.sub_diag by lia. split; [lia|done].
  - cbn. destruct (rg_kept s !! Z.to_nat (r - rg_gone s)) as [o|] eqn:Eo; injection E as <- <-.
    + apply lookup_lt_Some in Eo as Hlen. rewrite (drop_S _ _ _ Eo), (proj2 (Z.ltb_ge (r + 1) _)) by lia.
      replace (Z.to_nat (r + 1 - rg_gone s)) with (S (Z.to_nat (r - rg_gone s))) by lia.
      split; [unfold zlen; lia|done].
    + apply lookup_ge_None in Eo. rewrite drop_ge by done. rewrite (proj2 (Z.ltb_ge r _)) by lia. done.
Qed.

Definition ring_broadcast : Broadcast := {|
  bc_sender := Ring;
  bc_receiver := Z;
  bc_channel := ring_channel;
  bc_send := ring_send;
  bc_subscribe := ring_subscribe;
  bc_recv := ring_recv;
  bc_keeps := ring_keeps;
  bc_of := ring_of;
  bc_view := ring_view;
  bc_channel_keeps := ring_channel_keeps;
  bc_send_keeps := ring_send_keeps;
  bc_subscribe_keeps := ring_subscribe_keeps;
  bc_subscribe_new := ring_subscribe_new;
  bc_subscribe_old := ring_subscribe_old;
  bc_send_view := ring_send_view;
  bc_recv_view := ring_recv_view
|}.

Section hub.
Context {BC : Broadcast}.

Definition BROADCAST_CAPACITY : Z := 256.

Record TrackState := mkTS {
  ts_cache : GroupCache;
  ts_sender : bc_sender
}.

Definition track_state_new (group_capacity : Z) : option TrackState :=
  c ← cache_new group_capacity; Some (mkTS c (bc_channel BROADCAST_CAPACITY)).

Record Hub := mkHub {
  hub_tracks : gmap TrackId TrackState;
  hub_namespaces : gset (list Z);
  hub_group_capacity : Z
}.

Record Subscription := mkSub {
  sub_replay : list Object;
  sub_live : bc_receiver
}.

Definition hub_new (group_capacity : Z) : Hub := mkHub ∅ ∅ group_capacity.

Definition set_track (t : TrackId) (s : TrackState) (h : Hub) : Hub :=
  mkHub (<[t := s]> (hub_tracks h)) (hub_namespaces h) (hub_group_capacity h).

Definition announce_namespace (ns : list Z) (h : Hub) : Hub :=
  mkHub (hub_tracks h) ({[ns]} ∪ hub_namespaces h) (hub_group_capacity h).

Definition namespace_announced (ns : list Z) (h : Hub) : bool := bool_decide (ns ∈ hub_namespaces h).

(** [state], which creates the track when it is new. *)
Definition hub_state (t : TrackId) (h : Hub) : option (TrackState * Hub) :=
  match hub_tracks h !! t with
  | Some s => Some (s, h)
  | None => s ← track_state_new (hub_group_capacity h); Some (s, set_track t s h)
  end.

Definition hub_announce (t : TrackId) (h : Hub) : option Hub :=
  '(_, h) ← hub_state t (announce_namespace (tr_namespace t) h); Some h.

Definition hub_publish (t : TrackId) (obj : Object) (h : Hub) : option (Hub * bool) :=
  '(s, h) ← hub_state t h;
  let h := announce_namespace (tr_namespace t) h in
  '(c, cached) ← cache_insert obj (ts_cache s);
  let sender := if (cached : bool) then bc_send obj (ts_sender s) else ts_sender s in
  Some (set_track t (mkTS c sender) h, cached).

Definition hub_subscribe (t : TrackId) (start : StartMode) (h : Hub) : option (Hub * Subscription) :=
  '(s, h) ← hub_state t h;
  let replay := match start with LatestGroup => snapshot_from_latest_group (ts_cache s) | NextObject => [] end in
  let '(sender, live) := bc_subscribe (ts_sender s) in
  Some (set_track t (mkTS (ts_cache s) sender) h, mkSub replay live).

Definition hub_latest_group_id (t : TrackId) (h : Hub) : option Z :=
  s ← hub_tracks h !! t; cache_latest_group_id (ts_cache s).

Definition track_count (h : Hub) : Z := Z.of_nat (size (hub_tracks h)).

(** ** The invariant *)

Definition hub_inv (h : Hub) : Prop :=
  0 < hub_group_capacity h ∧
  ∀ t s, hub_tracks h !! t = Some s → cache_inv (ts_cache s) ∧ bc_keeps BROADCAST_CAPACITY (ts_sender s).

Lemma track_channel_keeps : bc_keeps BROADCAST_CAPACITY (bc_channel BROADCAST_CAPACITY).
Proof. apply (bc_channel_keeps BROADCAST_CAPACITY). reflexivity. Qed.

(** A track's new state keeps the invariant. *)
Lemma set_track_inv t s h : hub_inv h → cache_inv (ts_cache s) → bc_keeps BROADCAST_CAPACITY (ts_sender s) →
  hub_inv (set_track t s h).
Proof.
  intros [Hc Ht] H1 H2. split; [done|]. intros t' s'. cbn. destruct (decide (t = t')) as [->|].
  - rewrite lookup_insert_eq. by intros [= <-].
  - rewrite lookup_insert_ne by done. apply Ht.
Qed.

Lemma hub_state_spec t h : hub_inv h → ∃ s h', hub_state t h = Some (s, h') ∧ hub_inv h' ∧
  hub_tracks h' !! t = Some s ∧ (∀ t', t' ≠ t → hub_tracks h' !! t' = hub_tracks h !! t') ∧
  (∀ s', hub_tracks h !! t = Some s' → s' = s) ∧ (hub_tracks h !! t = None → contents (ts_cache s) = []) ∧
  hub_namespaces h' = hub_namespaces h ∧ hub_group_capacity h' = hub_group_capacity h.
Proof.
  intros [Hc Ht]. unfold hub_state. destruct (hub_tracks h !! t) as [s|] eqn:E.
  - exists s, h. split_and!; try done. congruence.
  - unfold track_state_new, cache_new. rewrite (proj2 (Z.ltb_lt _ _)) by done. cbn [mbind option_bind].
    eexists _, _. split; [done|]. cbn [set_track hub_tracks hub_namespaces hub_group_capacity ts_cache].
    rewrite lookup_insert_eq. split; [|split_and!; try done].
    + apply set_track_inv; [done|by apply cache_inv_empty|apply track_channel_keeps].
    + intros t' Hne. by rewrite lookup_insert_ne.
Qed.

(** ** Operations in sequence *)

Inductive HubOp :=
  | OpAnnounceNs (ns : list Z)
  | OpAnnounce (t : TrackId)
  | OpPublish (t : TrackId) (o : Object)
  | OpSubscribe (t : TrackId) (start : StartMode).

(** One operation, with the objects it lets into the track [t0]. *)
Definition hub_step (t0 : TrackId) (op : HubOp) (h : Hub) : option (Hub * list Object) :=
  match op with
  | OpAnnounceNs ns => Some (announce_namespace ns h, [])
  | OpAnnounce t => h ← hub_announce t h; Some (h, [])
  | OpPublish t o =>
      '(h, cached) ← hub_publish t o h;
      Some (h, if (cached : bool) && bool_decide (t = t0) then [o] else [])
  | OpSubscribe t start => '(h, _) ← hub_subscribe t start h; Some (h, [])
  end.

(** ** A subscriber beside the hub's operations *)

(** The operations of the hub and the reads of one subscriber, in any order. *)
Inductive SubEv :=
  | EvHub (op : HubOp)
  | EvRecv.

(** What is to be seen of it: an object is accepted on the track, the
    subscriber reads. *)
Inductive Seen :=
  | Accepted (o : Object)
  | Read (res : Recv).

Fixpoint sub_run (t : TrackId) (evs : list SubEv) (h : Hub) (r : bc_receiver) : option (Hub * bc_receiver * list Seen) :=
  match evs with
  | [] => Some (h, r, [])
  | EvHub op :: evs' =>
      '(h, l) ← hub_step t op h;
      '(h, r, tr) ← sub_run t evs' h r;
      Some (h, r, (Accepted <$> l) ++ tr)
  | EvRecv :: evs' =>
      s ← hub_tracks h !! t;
      let '(res, r) := bc_recv r (ts_sender s) in
      '(h, r, tr) ← sub_run t evs' h r;
      Some (h, r, Read res :: tr)
  end.

(** [follows q tr q']: a subscriber that has the objects [q] before it sees
    [tr] and then has [q'] before it.  What is accepted is put behind; a read
    takes the first object, unless there are more than the channel keeps: then
    it says how many are lost, and the newest [BROADCAST_CAPACITY] remain. *)
Inductive follows : list Object → list Seen → list Object → Prop :=
  | follows_nil q : follows q [] q
  | follows_accepted q o tr q' : follows (q ++ [o]) tr q' → follows q (Accepted o :: tr) q'
  | follows_empty tr q' : follows [] tr q' → follows [] (Read RecvEmpty :: tr) q'
  | follows_object o q tr q' : zlen (o :: q) ≤ BROADCAST_CAPACITY →
      follows q tr q' → follows (o :: q) (Read (RecvObject o) :: tr) q'
  | follows_lagged lost kept tr q' : 0 < zlen lost → zlen kept = BROADCAST_CAPACITY →
      follows kept tr q' → follows (lost ++ kept) (Read (RecvLagged (zlen lost)) :: tr) q'.

Definition accepted_of (tr : list Seen) : list Object :=
  omap (λ e, match e with Accepted o => Some o | _ => None end) tr.

Definition read_of (tr : list Seen) : list Object :=
  omap (λ e, match e with Read (RecvObject o) => Some o | _ => None end) tr.

(** A subscriber that was never told of a loss has read everything, in order. *)
Lemma follows_gapless q tr q' : follows q tr q' → (∀ n, Read (RecvLagged n) ∉ tr) →
  q ++ accepted_of tr = read_of tr ++ q'.
Proof.
  induction 1 as [q|q o tr q' _ IH|tr q' _ IH|o q tr q' _ _ IH|lost kept tr q' _ _ _ IH]; intros Hn; cbn.
  - by rewrite app_nil_r.
  - rewrite <-app_assoc in IH. apply IH. set_solver.
  - apply IH. set_solver.
  - f_equal. apply IH. set_solver.
  - exfalso. apply (Hn (zlen lost)). set_solver.
Qed.

Lemma follows_app q tr q1 tr' q2 : follows q tr q1 → follows q1 tr' q2 → follows q (tr ++ tr') q2.
Proof. induction 1; intros ?; cbn; by try constructor; auto. Qed.

Lemma follows_accepts q l : follows q (Accepted <$> l) (q ++ l).
Proof.
  revert q. induction l as [|o l IH]; intros q; cbn; [rewrite app_nil_r; constructor|].
  constructor. replace (q ++ o :: l) with ((q ++ [o]) ++ l) by (by rewrite <-app_assoc). apply IH.
Qed.

(** The view once the objects [l] were accepted. *)
Definition view_pushes (l : list Object) (v : Z * list Object) : Z * list Object :=
  foldl (λ v o, view_push BROADCAST_CAPACITY o v) v l.

(** The channel's view of a receiver that has [q] before it. *)
Definition lag_view (q : list Object) : Z * list Object :=
  let n := Z.max 0 (zlen q - BROADCAST_CAPACITY) in (n, drop (Z.to_nat n) q).

Lemma lag_view_push q o : view_push BROADCAST_CAPACITY o (lag_view q) = lag_view (q ++ [o]).
Proof.
  unfold view_push, lag_view. cbn [fst snd]. set (n := Z.max 0 (zlen q - BROADCAST_CAPACITY)).
  assert (0 < BROADCAST_CAPACITY) as Hc by done. revert n. generalize BROADCAST_CAPACITY Hc. clear Hc. intros cap Hc n.
  pose proof (zlen_nonneg q). rewrite <-drop_app_le by (subst n; unfold zlen in *; lia).
  assert (zlen (drop (Z.to_nat n) (q ++ [o])) = zlen q + 1 - n) as ->
    by (subst n; unfold zlen in *; rewrite length_drop, length_app; cbn; lia).
  assert (zlen (q ++ [o]) = zlen q + 1) as -> by (unfold zlen; rewrite length_app; cbn; lia).
  destruct (Z.ltb_spec cap (zlen q + 1 - n)) as [Hlt|Hge].
  - replace (Z.max 0 (zlen q + 1 - cap)) with (n + 1) by lia. f_equal.
    replace (Z.to_nat (n + 1)) with (Z.to_nat n + 1)%nat by lia. rewrite <-drop_drop. by destruct (drop (Z.to_nat n) _).
  - by replace (Z.max 0 (zlen q + 1 - cap)) with n by lia.
Qed.

Lemma lag_view_pushes q l : view_pushes l (lag_view q) = lag_view (q ++ l).
Proof.
  revert q. induction l as [|o l IH]; intros q; cbn; [by rewrite app_nil_r|].
  rewrite lag_view_push. fold (view_pushes l (lag_view (q ++ [o]))). rewrite IH. by rewrite <-app_assoc.
Qed.

Lemma lag_view_short q : zlen q ≤ BROADCAST_CAPACITY → lag_view q = (0, q).
Proof. intros H. unfold lag_view. rewrite Z.max_l by lia. done. Qed.

(** One read of the channel is one step of [follows]. *)
Lemma lag_view_read q res v : view_read (lag_view q) = (res, v) → ∃ q', v = lag_view q' ∧ follows q [Read res] q'.
Proof.
  intros E. destruct (Z.ltb_spec BROADCAST_CAPACITY (zlen q)) as [Hlt|Hge].
  - unfold view_read, lag_view in E. cbn [fst snd] in E. rewrite Z.max_r in E by lia.
    rewrite (proj2 (Z.ltb_lt 0 _)) in E by lia. injection E as <- <-.
    set (n := Z.to_nat (zlen q - BROADCAST_CAPACITY)). assert (0 < BROADCAST_CAPACITY) as Hc by done.
    assert (zlen (drop n q) = BROADCAST_CAPACITY) as Hd by (unfold zlen in *; rewrite length_drop; lia).
    assert (zlen (take n q) = zlen q - BROADCAST_CAPACITY) as Ht by (unfold zlen in *; rewrite length_take; lia).
    exists (drop n q). split; [by rewrite lag_view_short by lia|]. rewrite <-Ht. rewrite <-(take_drop n q) at 1.
    apply follows_lagged; [lia|done|constructor].
  - rewrite lag_view_short in E by done. unfold view_read in E. cbn [fst snd] in E. cbn in E.
    destruct q as [|o q]; injection E as <- <-.
    + exists []. split; [done|]. repeat constructor.
    + exists q. rewrite zlen_cons in Hge. split; [by rewrite lag_view_short by lia|].
      apply follows_object; [rewrite zlen_cons; lia|constructor].
Qed.

(** The view of the receiver [r] of the track [t] is [v]. *)
Definition live_at (t : TrackId) (r : bc_receiver) (v : Z * list Object) (h : Hub) : Prop :=
  ∃ s, hub_tracks h !! t = Some s ∧ bc_keeps BROADCAST_CAPACITY (ts_sender s) ∧
    bc_of r (ts_sender s) ∧ bc_view r (ts_sender s) = v.

Lemma hub_state_live t t0 r v h s h' : hub_state t h = Some (s, h') → live_at t0 r v h →
  hub_tracks h' !! t = Some s ∧ live_at t0 r v h'.
Proof.
  unfold hub_state. intros H (s0 & H0 & Hof & Hp). destruct (hub_tracks h !! t) as [s1|] eqn:E.
  - simplify_eq. split; [done|]. by exists s0.
  - apply bind_Some in H as (s1 & _ & [= <- <-]). cbn. rewrite lookup_insert_eq. split; [done|].
    exists s0. split; [|done]. cbn. rewrite lookup_insert_ne by congruence. done.
Qed.

(** Replacing the state of a track keeps the receivers that the new sender
    keeps. *)
Lemma set_track_live t t0 r v v' h s c snd' : hub_tracks h !! t = Some s → live_at t0 r v h →
  (t = t0 → bc_keeps BROADCAST_CAPACITY (ts_sender s) → bc_of r (ts_sender s) → bc_view r (ts_sender s) = v →
   bc_keeps BROADCAST_CAPACITY snd' ∧ bc_of r snd' ∧ bc_view r snd' = v') →
  (t ≠ t0 → v' = v) → live_at t0 r v' (set_track t (mkTS c snd') h).
Proof.
  intros Hs (s0 & H0 & Hk & Hof & Hp) Heq Hne. unfold live_at. cbn. destruct (decide (t = t0)) as [<-|Hn].
  - simplify_eq. exists (mkTS c snd'). rewrite lookup_insert_eq. split; [done|]. by apply Heq.
  - rewrite (Hne Hn). exists s0. rewrite lookup_insert_ne by done. done.
Qed.

Lemma hub_step_live t0 r v op h h' acc : hub_step t0 op h = Some (h', acc) → live_at t0 r v h →
  live_at t0 r (view_pushes acc v) h'.
Proof.
  intros H Hl. destruct op as [ns|t|t o|t start]; cbn [hub_step] in H.
  - simplify_eq. done.
  - apply bind_Some in H as (h1 & E & [= <- <-]). unfold hub_announce in E.
    apply bind_Some in E as ([s h2] & E & [= <-]).
    eapply (hub_state_live t t0 r v) in E; [tauto|]. exact Hl.
  - apply bind_Some in H as ([h1 cached] & E & [= <- <-]). unfold hub_publish in E.
    apply bind_Some in E as ([s h2] & E1 & ([c b] & E2 & [= <- ->])%bind_Some).
    destruct (hub_state_live _ _ _ _ _ _ _ E1 Hl) as [Hs Hl2].
    apply (set_track_live t t0 r v _ (announce_namespace (tr_namespace t) h2) s); [done|exact Hl2| |].
    + intros -> Hk Hof Hp. rewrite bool_decide_true, andb_true_r by done. destruct cached; [|done].
      destruct (bc_send_view _ o _ _ Hk Hof) as [? ->]. rewrite Hp. split; [by apply bc_send_keeps|done].
    + intros Hne. by rewrite bool_decide_false, andb_false_r by done.
  - apply bind_Some in H as ([h1 sub] & E & [= <- <-]). unfold hub_subscribe in E.
    apply bind_Some in E as ([s h2] & E1 & E). destruct (bc_subscribe (ts_sender s)) as [snd' live] eqn:Eb.
    injection E as <- <-. destruct (hub_state_live _ _ _ _ _ _ _ E1 Hl) as [Hs Hl2].
    apply (set_track_live t t0 r v _ h2 s); [done..| |done].
    intros _ Hk Hof Hp. destruct (bc_subscribe_old _ _ _ r Eb Hof) as [? ->].
    split; [by eapply bc_subscribe_keeps|done].
Qed.

(** A subscription starts with an empty receiver of its track. *)
Lemma hub_subscribe_live t start h h1 sub : hub_inv h → hub_subscribe t start h = Some (h1, sub) →
  live_at t (sub_live sub) (0, []) h1.
Proof.
  intros Hinv E. unfold hub_subscribe in E. apply bind_Some in E as ([s h2] & E1 & E).
  destruct (hub_state_spec t h Hinv) as (s' & h' & E' & Hinv' & Hs & _). rewrite E' in E1. simplify_eq.
  destruct (bc_subscribe (ts_sender s)) as [snd' live] eqn:Eb. injection E as <- <-. cbn [sub_live].
  destruct (proj2 Hinv' t s Hs) as [_ Hk].
  exists (mkTS (ts_cache s) snd'). cbn. rewrite lookup_insert_eq. split; [done|].
  split; [by eapply bc_subscribe_keeps|by eapply bc_subscribe_new].
Qed.

Lemma sub_run_follows t evs h r q h' r' tr : sub_run t evs h r = Some (h', r', tr) → live_at t r (lag_view q) h →
  ∃ q', follows q tr q' ∧ live_at t r' (lag_view q') h'.
Proof.
  revert h r q tr. induction evs as [|[op|] evs IH]; intros h r q tr H Hl; cbn [sub_run] in H.
  - injection H as <- <- <-. exists q. split; [constructor|done].
  - apply bind_Some in H as ([h1 l] & E1 & ([[h2 r2] tr2] & E2 & [= <- <- <-])%bind_Some).
    pose proof (hub_step_live _ _ _ _ _ _ _ E1 Hl) as Hl1. rewrite lag_view_pushes in Hl1.
    destruct (IH _ _ _ _ E2 Hl1) as (q' & Hf & Hl2). exists q'. split; [|done].
    eapply follows_app; [apply follows_accepts|done].
  - destruct Hl as (s & Hs & Hk & Hof & Hv). rewrite Hs in H. cbn [mbind option_bind] in H.
    destruct (bc_recv r (ts_sender s)) as [res r1] eqn:Er.
    apply bind_Some in H as ([[h2 r2] tr2] & E2 & [= <- <- <-]).
    destruct (bc_recv_view _ _ _ _ _ Hk Hof Er) as [Hof1 Hr]. rewrite Hv in Hr.
    destruct (lag_view_read _ _ _ Hr) as (q1 & Hq1 & Hf1).
    destruct (IH _ _ q1 _ E2) as (q' & Hf & Hl2); [by exists s|]. exists q'. split; [|done].
    by apply (follows_app q [Read res] q1).
Qed.

Lemma hub_subscribe_replay t start h h1 sub : hub_inv h → hub_subscribe t start h = Some (h1, sub) →
  sub_replay sub = match start with
    | LatestGroup => match hub_tracks h !! t with Some s => snapshot_from_latest_group (ts_cache s) | None => [] end
    | NextObject => []
    end.
Proof.
  intros Hinv E. unfold hub_subscribe in E. apply bind_Some in E as ([s h2] & E1 & E).
  destruct (hub_state_spec t h Hinv) as (s' & h' & E' & Hinv' & Hs & _ & Hold & Hnew & _). rewrite E' in E1. simplify_eq.
  destruct (bc_subscribe (ts_sender s)) as [snd' live] eqn:Eb. injection E as <- <-. cbn [sub_replay].
  destruct start; [|done]. destruct (hub_tracks h !! t) as [s0|].
  - by rewrite (Hold s0).
  - rewrite snapshot_latest_filter by (by apply (proj2 Hinv' t s Hs)). by rewrite Hnew.
Qed.

Lemma hub_subscribe_total t start h : hub_inv h → ∃ h1 sub, hub_subscribe t start h = Some (h1, sub).
Proof.
  intros Hinv. destruct (hub_state_spec t h Hinv) as (s & h' & E & _). unfold hub_subscribe. rewrite E.
  cbn [mbind option_bind]. destruct (bc_subscribe (ts_sender s)). eauto.
Qed.

Lemma hub_subscribe_inv t start h h1 sub : hub_inv h → hub_subscribe t start h = Some (h1, sub) → hub_inv h1.
Proof.
  intros Hinv E. destruct (hub_state_spec t h Hinv) as (s & h' & E' & Hinv' & Hs & _). unfold hub_subscribe in E.
  rewrite E' in E. cbn [mbind option_bind] in E. destruct (bc_subscribe (ts_sender s)) as [snd' live] eqn:Eb.
  injection E as <- <-. destruct (proj2 Hinv' t s Hs) as [Hc Hk].
  apply set_track_inv; [done..|]. by eapply bc_subscribe_keeps.
Qed.

(** ** Claims *)

(** Publishing announces the namespace, touches no other track, keeps
    every cache well formed and hands an object to the channel exactly when
    the cache accepts it; it panics only where the cache does. *)
Theorem hub_publish_correct t o h : hub_inv h →
  (∀ s, hub_tracks h !! t = Some s → gc_dropped_late (ts_cache s) < u64_max) →
  match hub_publish t o h with
  | None => ∃ s, hub_tracks h !! t = Some s ∧ insert_effect o (ts_cache s) None
  | Some (h', cached) => hub_inv h' ∧ namespace_announced (tr_namespace t) h' = true ∧
      (∀ t', t' ≠ t → hub_tracks h' !! t' = hub_tracks h !! t') ∧
      ∃ s s', (hub_tracks h !! t = Some s ∨ hub_tracks h !! t = None ∧ contents (ts_cache s) = []) ∧
        hub_tracks h' !! t = Some s' ∧ insert_effect o (ts_cache s) (Some (ts_cache s', cached)) ∧
        ts_sender s' = if cached then bc_send o (ts_sender s) else ts_sender s
  end.
Proof.
  intros Hinv Hd. unfold hub_publish.
  destruct (hub_state_spec t h Hinv) as (s & h1 & E & Hinv1 & Hs & Hoth & Hold & Hnew & _). rewrite E. cbn [mbind option_bind].
  assert (gc_dropped_late (ts_cache s) < u64_max) as Hds.
  { destruct (hub_tracks h !! t) as [s0|] eqn:E0; [rewrite <-(Hold s0 eq_refl); by apply Hd|].
    revert E. unfold hub_state, track_state_new, cache_new. rewrite E0. intros E.
    apply bind_Some in E as (s0 & E1 & [= -> _]). apply bind_Some in E1 as (c & Ec & [= <-]).
    destruct (0 <? hub_group_capacity h); [|done]. injection Ec as <-. done. }
  destruct (proj2 Hinv1 t s Hs) as [Hcs Hks].
  pose proof (cache_insert_effect o (ts_cache s) Hcs Hds) as Heff.
  destruct (cache_insert o (ts_cache s)) as [[c cached]|] eqn:Ei; cbn [mbind option_bind].
  - split.
    + apply set_track_inv; [exact Hinv1| |]; destruct cached; try apply Heff; [by apply bc_send_keeps|done].
    + split; [unfold namespace_announced; cbn; apply bool_decide_true; set_solver|].
      split; [intros t' Hne; cbn; rewrite lookup_insert_ne by done; by apply Hoth|].
      exists s, (mkTS c (if cached then bc_send o (ts_sender s) else ts_sender s)). cbn. rewrite lookup_insert_eq.
      split_and!; try done. destruct (hub_tracks h !! t) as [s0|]; [left; f_equal; by apply Hold|right; auto].
  - destruct (hub_tracks h !! t) as [s0|] eqn:E0.
    + rewrite <-(Hold s0 eq_refl) in Heff. eauto.
    + destruct Heff as (_ & g1 & _ & Hg1 & _). pose proof Hcs as (_ & _ & _ & Hok & _).
      apply list_elem_of_fmap in Hg1 as (e & _ & He). rewrite Forall_forall in Hok. destruct (Hok e He) as (Hne & _).
      destruct e as [g [|x l]]; [done|]. exfalso. assert (x ∈ contents (ts_cache s)) as Hx.
      { apply elem_of_contents. exists (g, x :: l). split; [done|]. cbn. set_solver. }
      rewrite Hnew in Hx by done. set_solver.
Qed.

(** [C33] A subscription loses nothing silently: its replay is the newest
    group at that moment, or nothing; and in every order of the hub's later
    operations and the subscriber's reads, the reads yield the objects
    accepted on the track since, in order, except that a subscriber with more
    than [BROADCAST_CAPACITY] objects before it is told how many it has lost
    and goes on with the newest [BROADCAST_CAPACITY].  Without such a report
    it has read, or still has before it, exactly what was accepted. *)
Theorem subscription_gapless t start h : hub_inv h →
  ∃ h1 sub, hub_subscribe t start h = Some (h1, sub) ∧
    sub_replay sub = match start with
      | LatestGroup => match hub_tracks h !! t with Some s => snapshot_from_latest_group (ts_cache s) | None => [] end
      | NextObject => []
      end ∧
    ∀ evs h2 r2 tr, sub_run t evs h1 (sub_live sub) = Some (h2, r2, tr) →
      ∃ unread, follows [] tr unread ∧
        ((∀ n, Read (RecvLagged n) ∉ tr) → accepted_of tr = read_of tr ++ unread).
Proof.
  intros Hinv. destruct (hub_subscribe_total t start h Hinv) as (h1 & sub & E). exists h1, sub.
  split; [done|]. split; [by eapply hub_subscribe_replay|]. intros evs h2 r2 tr Hrun.
  destruct (sub_run_follows t evs h1 _ [] h2 r2 tr Hrun) as (q & Hf & _); [by eapply hub_subscribe_live|].
  exists q. split; [done|]. intros Hn. exact (follows_gapless _ _ _ Hf Hn).
Qed.

End hub.

Definition ex_track : TrackId := mkTrack [108] [118].

Lemma hub_publish_correct_witness :
  match @hub_publish ring_broadcast ex_track (mkObj 1 0 0 0 []) (@hub_new ring_broadcast 4) with
  | None => False
  | Some (h', cached) => cached = true ∧ @hub_inv ring_broadcast h'
  end.
Proof.
  pose proof (@hub_publish_correct ring_broadcast ex_track (mkObj 1 0 0 0 []) (@hub_new ring_broadcast 4)
    ltac:(split; [reflexivity|intros t s Hs; discriminate Hs]) ltac:(intros s Hs; discriminate Hs)) as H.
  assert (snd <$> @hub_publish ring_broadcast ex_track (mkObj 1 0 0 0 []) (@hub_new ring_broadcast 4) = Some true) as E
    by (vm_compute; reflexivity).
  destruct (@hub_publish ring_broadcast ex_track (mkObj 1 0 0 0 []) (@hub_new ring_broadcast 4)) as [[h' cached]|]; [|discriminate E].
  injection E as E. split; [exact E|apply H].
Defined.

Definition read_results (tr : list Seen) : list Recv :=
  omap (λ e, match e with Read res => Some res | _ => None end) tr.

(** A run in which the subscriber reads at once, then lets 300 objects pass
    and reads twice. *)
Definition ex_pub (g i : Z) : SubEv := EvHub (OpPublish ex_track (mkObj g i 0 0 [])).

Definition ex_lagging : list SubEv :=
  [ex_pub 7 0; EvRecv; EvRecv] ++ (ex_pub 8 <$> seqZ 0 300) ++ [EvRecv; EvRecv].

Lemma subscription_gapless_witness :
  ∃ h1 sub h2 r2 tr unread,
    @hub_subscribe ring_broadcast ex_track LatestGroup (@hub_new ring_broadcast 8) = Some (h1, sub) ∧
    sub_replay sub = [] ∧ sub_run ex_track ex_lagging h1 (sub_live sub) = Some (h2, r2, tr) ∧
    read_results tr = [RecvObject (mkObj 7 0 0 0 []); RecvEmpty; RecvLagged 44; RecvObject (mkObj 8 44 0 0 [])] ∧
    follows [] tr unread.
Proof.
  destruct (@subscription_gapless ring_broadcast ex_track LatestGroup (@hub_new ring_broadcast 8)
    ltac:(split; [reflexivity|intros t s Hs; discriminate Hs])) as (h1 & sub & E & Hr & H).
  assert (('(h, sub) ← @hub_subscribe ring_broadcast ex_track LatestGroup (@hub_new ring_broadcast 8);
           '(_, _, tr) ← sub_run ex_track ex_lagging h (sub_live sub); Some (read_results tr)) =
    Some [RecvObject (mkObj 7 0 0 0 []); RecvEmpty; RecvLagged 44; RecvObject (mkObj 8 44 0 0 [])]) as Erun
    by (vm_compute; reflexivity).
  rewrite E in Erun. cbn [mbind option_bind] in Erun.
  destruct (sub_run ex_track ex_lagging h1 (sub_live sub)) as [[[h2 r2] tr]|] eqn:Es; [|discriminate Erun].
  injection Erun as Erun. destruct (H _ _ _ _ Es) as (unread & Hf & _).
  exists h1, sub, h2, r2, tr, unread. split_and!; [done|exact Hr|done|exact Erun|exact Hf].
Defined.
