(* ===== verification/MoqRelay.v ===== *)
(** * MoQ: the relay and the subscriber's demultiplexer

    Models the state machines of [crates/moq-live/src/relay.rs] (the control
    handler, alias negotiation, ingestion of group streams and the
    forwarder of a subscription) and, of [client.rs], the subscriber's
    reader of group streams.

    A connection is an integer.  Whether a send on a connection succeeds is
    decided by the network and is an argument, [send_ok]; what was sent is
    logged.  A task is present in the map of running tasks until it is
    aborted: dropping its handle does not stop it. *)

From S2P Require Import Prelude Bytes MoqCodec MoqDropQueue MoqCache MoqHub.

Definition DROP_QUEUE_CAPACITY : Z := 64.

(** ** Publishers and aliases *)

Record PublisherReg := mkReg {
  pr_control : Z;
  pr_alias : option Z
}.

Abbreviation publishers := (gmap TrackId PublisherReg).

(** [resolve_track_ref]: the table is searched in its hash order. *)
Definition resolve_track_ref `{!HashOrder TrackId PublisherReg} (r : TrackRef) (pubs : publishers) (control : Z) :
    IoError + TrackId * publishers :=
  match r with
  | Full track =>
      let pubs := match pubs !! track with
        | Some _ => pubs
        | None => <[track := mkReg control None]> pubs
        end in
      inr (track, pubs)
  | Alias a =>
      match List.find (λ e, bool_decide (pr_alias e.2 = Some a)) (hm_iter pubs) with
      | Some (t, _) => inr (t, pubs)
      | None => inl InvalidData
      end
  end.

(** The part of the shared context the negotiation touches. *)
Record Negotiation := mkNeg {
  ng_publishers : publishers;
  ng_next_alias : Z;
  ng_sent : list (Z * Message)
}.

Definition maybe_bind_upstream_alias (send_ok : Z → bool) (track : TrackId) (n : Negotiation) : Negotiation :=
  match ng_publishers n !! track with
  | None => n
  | Some reg =>
      match pr_alias reg with
      | Some _ => n
      | None =>
          let alias := ng_next_alias n in
          let next := wrap64 (ng_next_alias n + 1) in
          let msg := Subscribe alias alias track NextObject 0 in
          if send_ok (pr_control reg) then
            mkNeg (<[track := mkReg (pr_control reg) (Some alias)]> (ng_publishers n)) next
              (ng_sent n ++ [(pr_control reg, msg)])
          else mkNeg (ng_publishers n) next (ng_sent n)
      end
  end.

(** ** Ingestion of a group stream *)

Inductive StreamEnd :=
  | Done
  | Failed (e : IoError)
  | Waiting.

Section relay.
Context {BC : Broadcast} {HO : HashOrder TrackId PublisherReg}.

(** The objects after the header, at most [n] reads. *)
Fixpoint ingest (n : nat) (track : TrackId) (g : Z) (buf : list Z) (evs : list ReadEvent) (h : Hub) : option (Hub * StreamEnd) :=
  match n with
  | O => Some (h, Waiting)
  | S n' =>
      '(r, buf, evs) ← reader_read buf evs;
      match r with
      | Pending => Some (h, Waiting)
      | Ready (inl e) => Some (h, Failed e)
      | Ready (inr None) => Some (h, Done)
      | Ready (inr (Some (ObjectMsg o))) =>
          '(h, _) ← hub_publish track (with_group g o) h;
          ingest n' track g buf evs h
      | Ready (inr (Some _)) => ingest n' track g buf evs h
      end
  end.

Definition handle_group_stream (n : nat) (evs : list ReadEvent) (pubs : publishers) (control : Z) (h : Hub) :
    option (publishers * Hub * StreamEnd) :=
  '(r, buf, evs) ← reader_read [] evs;
  match r with
  | Pending => Some (pubs, h, Waiting)
  | Ready (inl e) => Some (pubs, h, Failed e)
  | Ready (inr (Some (GroupHeader track_ref g))) =>
      match resolve_track_ref track_ref pubs control with
      | inl e => Some (pubs, h, Failed e)
      | inr (track, pubs) => '(h, e) ← ingest n track g buf evs h; Some (pubs, h, e)
      end
  | Ready (inr _) => Some (pubs, h, Failed InvalidData)
  end.

(** ** The subscriber's end *)

(** [read_group_stream]: [tx_ok] tells whether the consumer still takes an
    object after the ones it got; the result is what was handed over. *)
Fixpoint read_objects (n : nat) (tx_ok : list Object → bool) (g : Z) (buf : list Z) (evs : list ReadEvent)
    (got : list Object) : option (list Object) :=
  match n with
  | O => Some got
  | S n' =>
      '(r, buf, evs) ← reader_read buf evs;
      match r with
      | Ready (inr (Some (ObjectMsg o))) =>
          if tx_ok got then read_objects n' tx_ok g buf evs (got ++ [with_group g o]) else Some got
      | Ready (inr (Some _)) => read_objects n' tx_ok g buf evs got
      | _ => Some got
      end
  end.

(** The alias the stream is for, if it has a route, and the objects. *)
Definition read_group_stream (n : nat) (tx_ok : list Object → bool) (evs : list ReadEvent) (routes : gset Z) :
    option (IoError + option (Z * list Object)) :=
  '(r, buf, evs) ← reader_read [] evs;
  match r with
  | Pending => Some (inr None)
  | Ready (inl e) => Some (inl e)
  | Ready (inr (Some (GroupHeader (Alias a) g))) =>
      if bool_decide (a ∈ routes) then
        got ← read_objects n tx_ok g buf evs []; Some (inr (Some (a, got)))
      else Some (inr None)
  | Ready (inr _) => Some (inl InvalidData)
  end.

(** ** The control handler *)

(** A forwarder, running or not. *)
Record Forwarder := mkFwd {
  fw_alias : Z;
  fw_replay : list Object;
  fw_live : bc_receiver
}.

Record RelayCtx := mkCtx {
  cx_hub : Hub;
  cx_neg : Negotiation
}.

(** [forwarders] maps a subscription to the handle of its tasks; the tasks
    themselves run on the executor. *)
Record ConnState := mkConn {
  cn_id : Z;
  cn_forwarders : gmap Z Z;
  cn_tasks : gmap Z Forwarder;
  cn_next_task : Z
}.

(** How the control loop stands: reading on, returned, waiting for its
    forwarders after the peer closed its half, or ended by a failed send. *)
Inductive ControlEnd :=
  | Continue
  | Closed
  | Draining
  | SendFailed.

Definition log_sent (conn : Z) (m : Message) (x : RelayCtx) : RelayCtx :=
  let n := cx_neg x in mkCtx (cx_hub x) (mkNeg (ng_publishers n) (ng_next_alias n) (ng_sent n ++ [(conn, m)])).

(** The reason of a SUBSCRIBE_ERROR, in UTF-8. *)
Definition NOT_ANNOUNCED : list Z :=
  [229; 145; 189; 229; 144; 141; 231; 169; 186; 233; 151; 180; 230; 156; 170; 229; 143; 145; 229; 184; 131; 58; 32].

Definition control_step (send_ok : Z → bool) (msg : Message) (x : RelayCtx) (c : ConnState) :
    option (RelayCtx * ConnState * ControlEnd) :=
  match msg with
  | Announce ns =>
      let x := mkCtx (announce_namespace ns (cx_hub x)) (cx_neg x) in
      if send_ok (cn_id c) then Some (log_sent (cn_id c) (AnnounceOk ns) x, c, Continue)
      else Some (x, c, SendFailed)
  | Subscribe sid alias track start _ =>
      if negb (namespace_announced (tr_namespace track) (cx_hub x)) then
        if send_ok (cn_id c) then
          Some (log_sent (cn_id c) (SubscribeError sid ERR_NAMESPACE_NOT_FOUND (NOT_ANNOUNCED ++ tr_namespace track)) x, c, Continue)
        else Some (x, c, SendFailed)
      else if negb (send_ok (cn_id c)) then Some (x, c, SendFailed) else
        let x := log_sent (cn_id c) (SubscribeOk sid) x in
        let neg := maybe_bind_upstream_alias send_ok track (cx_neg x) in
        '(h, sub) ← hub_subscribe track start (cx_hub x);
        let task := cn_next_task c in
        let fwd := mkFwd alias (sub_replay sub) (sub_live sub) in
        Some (mkCtx h neg,
              mkConn (cn_id c) (<[sid := task]> (cn_forwarders c)) (<[task := fwd]> (cn_tasks c)) (task + 1),
              Continue)
  | Unsubscribe sid =>
      match cn_forwarders c !! sid with
      | Some task => Some (x, mkConn (cn_id c) (delete sid (cn_forwarders c)) (delete task (cn_tasks c)) (cn_next_task c), Continue)
      | None => Some (x, c, Continue)
      end
  | Goaway _ => Some (x, c, Closed)
  | _ => Some (x, c, Continue)
  end.

(** The end of a connection: every registered forwarder is aborted. *)
Definition conn_close (c : ConnState) : ConnState :=
  mkConn (cn_id c) ∅ (filter (λ e, e.1 ∉ (map_to_list (cn_forwarders c)).*2) (cn_tasks c)) (cn_next_task c).

(** The control loop over what [receiver.recv()] returns: a message, the
    end of the peer's half of the stream, or an error, which ends the loop
    without one. *)
Fixpoint control_run (send_ok : Z → bool) (rs : list (IoError + option Message)) (x : RelayCtx) (c : ConnState) :
    option (RelayCtx * ConnState * ControlEnd) :=
  match rs with
  | [] => Some (x, c, Continue)
  | inl _ :: _ => Some (x, c, Closed)
  | inr None :: _ => Some (x, c, Draining)
  | inr (Some m) :: rs' =>
      '(x, c, e) ← control_step send_ok m x c;
      match e with Continue => control_run send_ok rs' x c | _ => Some (x, c, e) end
  end.

(** A turn of the waiting loop: the finished forwarders are let go, and the
    loop returns once there is none left. *)
Definition drain_forwarders (finished : Z → bool) (c : ConnState) : ConnState * ControlEnd :=
  if bool_decide (cn_forwarders c = ∅) then (c, Closed) else
  (mkConn (cn_id c) (filter (λ e, finished e.2 = false) (cn_forwarders c)) (cn_tasks c) (cn_next_task c), Draining).

(** The SETUP exchange that opens a connection. *)
Definition accept_setup (m : option Message) : IoError + Role :=
  match m with
  | Some (Setup version role) => if version =? PROTO_VERSION then inr role else inl InvalidData
  | _ => inl InvalidData
  end.

(** ** Group streams carry their objects *)

(** The objects of a group published one after the other. *)
Fixpoint publish_all (track : TrackId) (objs : list Object) (h : Hub) : option Hub :=
  match objs with
  | [] => Some h
  | o :: objs' => '(h, _) ← hub_publish track o h; publish_all track objs' h
  end.

(** The frames of the objects of a stream, and of the whole stream. *)
Definition object_frames (objs : list Object) : option (list (list Z)) := mapM (λ o, message_encode (ObjectMsg o)) objs.

Lemma object_frames_cons o objs frames : object_frames (o :: objs) = Some frames →
  ∃ f fs, message_encode (ObjectMsg o) = Some f ∧ object_frames objs = Some fs ∧ frames = f :: fs.
Proof. unfold object_frames. cbn [mapM]. intros (f & ? & (fs & ? & [= <-])%bind_Some)%bind_Some. eauto. Qed.

Lemma with_group_wire g o : with_group g (with_group 0 o) = with_group g o.
Proof. done. Qed.

Lemma ingest_stream track g objs frames buf chunks h : Forall wf_object objs → object_frames objs = Some frames →
  buf ++ concat chunks = concat frames →
  ingest (length objs + 1) track g buf (map Chunk chunks ++ [Eof]) h =
    (h ← publish_all track (with_group g <$> objs) h; Some (h, Done)).
Proof.
  intros Hwf. revert frames buf chunks h. induction Hwf as [|o objs Ho Hobjs IH]; intros frames buf chunks h He Hb.
  - cbn in He. injection He as <-. cbn [concat] in Hb. apply app_nil in Hb as [-> Hc].
    cbn [length Nat.add ingest]. by rewrite (reader_read_end chunks []) by done.
  - apply object_frames_cons in He as (f & fs & Ef & Efs & ->). cbn [concat] in Hb.
    destruct (reader_read_message (ObjectMsg o) f buf chunks (concat fs) [Eof] Ho Ef Hb) as (buf' & chunks' & E & Hrest).
    cbn [length Nat.add ingest]. rewrite E. cbn [mbind option_bind wire fmap list_fmap publish_all].
    rewrite with_group_wire. destruct (hub_publish track (with_group g o) h) as [[h1 b]|]; cbn [mbind option_bind]; [|done].
    by apply (IH fs).
Qed.

Lemma read_objects_stream g objs frames buf chunks got : Forall wf_object objs → object_frames objs = Some frames →
  buf ++ concat chunks = concat frames →
  read_objects (length objs + 1) (λ _, true) g buf (map Chunk chunks ++ [Eof]) got = Some (got ++ (with_group g <$> objs)).
Proof.
  intros Hwf. revert frames buf chunks got. induction Hwf as [|o objs Ho Hobjs IH]; intros frames buf chunks got He Hb.
  - cbn in He. injection He as <-. cbn [concat] in Hb. apply app_nil in Hb as [-> Hc].
    cbn [length Nat.add read_objects]. rewrite (reader_read_end chunks []) by done. cbn [mbind option_bind fmap list_fmap].
    by rewrite app_nil_r.
  - apply object_frames_cons in He as (f & fs & Ef & Efs & ->). cbn [concat] in Hb.
    destruct (reader_read_message (ObjectMsg o) f buf chunks (concat fs) [Eof] Ho Ef Hb) as (buf' & chunks' & E & Hrest).
    cbn [length Nat.add read_objects]. rewrite E. cbn [mbind option_bind wire fmap list_fmap].
    rewrite with_group_wire, (IH fs buf' chunks') by done. by rewrite <-app_assoc.
Qed.

(** ** Aliases *)

(** Aliases in use are below the counter, and no two tracks share one. *)
Definition neg_inv (n : Negotiation) : Prop :=
  (∀ t reg a, ng_publishers n !! t = Some reg → pr_alias reg = Some a → 0 ≤ a < ng_next_alias n) ∧
  (∀ t1 t2 r1 r2 a, ng_publishers n !! t1 = Some r1 → ng_publishers n !! t2 = Some r2 →
     pr_alias r1 = Some a → pr_alias r2 = Some a → t1 = t2) ∧
  0 ≤ ng_next_alias n.

Lemma resolve_alias_unique pubs ctl t reg a :
  pubs !! t = Some reg → pr_alias reg = Some a →
  (∀ t1 t2 r1 r2 a, pubs !! t1 = Some r1 → pubs !! t2 = Some r2 →
     pr_alias r1 = Some a → pr_alias r2 = Some a → t1 = t2) →
  resolve_track_ref (Alias a) pubs ctl = inr (t, pubs).
Proof.
  intros Ht Ha Huniq. unfold resolve_track_ref.
  destruct (List.find _ _) as [[t' r']|] eqn:E.
  - apply find_some in E as [Hin Hp]. apply bool_decide_eq_true in Hp. cbn in Hp.
    apply list_elem_of_In, elem_of_hm_iter in Hin. by rewrite (Huniq t' t r' reg a).
  - exfalso. pose proof (find_none _ _ E (t, reg)) as Hn. cbn in Hn.
    rewrite bool_decide_true in Hn by done. discriminate Hn. by apply list_elem_of_In, elem_of_hm_iter.
Qed.

(** Binding changes one registration at most. *)
Lemma bind_inv_neg send_ok track n : neg_inv n → ng_next_alias n < u64_max →
  neg_inv (maybe_bind_upstream_alias send_ok track n).
Proof.
  intros (Hlt & Huniq & H0) Hn. unfold maybe_bind_upstream_alias.
  destruct (ng_publishers n !! track) as [reg|] eqn:Er; [|by split].
  destruct (pr_alias reg) as [a|] eqn:Ea; [by split|].
  assert (wrap64 (ng_next_alias n + 1) = ng_next_alias n + 1) as Ew.
  { unfold wrap64, u64_max in *. apply Z.mod_small. lia. }
  rewrite Ew. destruct (send_ok (pr_control reg)); (split; [|split]); cbn; try lia.
  - intros t r a. destruct (decide (track = t)) as [->|].
    + rewrite lookup_insert_eq. intros [= <-]. cbn. intros [= <-]. lia.
    + rewrite lookup_insert_ne by done. intros H1 H2. pose proof (Hlt _ _ _ H1 H2). lia.
  - intros t1 t2 r1 r2 a. destruct (decide (track = t1)) as [<-|], (decide (track = t2)) as [<-|];
      rewrite ?lookup_insert_eq, ?lookup_insert_ne by done; [done|..].
    + intros [= <-] H2. cbn. intros [= <-] H3. pose proof (Hlt _ _ _ H2 H3). lia.
    + intros H1 [= <-] H3. cbn. intros [= <-]. pose proof (Hlt _ _ _ H1 H3). lia.
    + apply Huniq.
  - intros t r a H1 H2. pose proof (Hlt _ _ _ H1 H2). lia.
  - apply Huniq.
Qed.

(** ** Subscriptions and their tasks *)

(** Every running task has its handle under one subscription. *)
Definition conn_inv (c : ConnState) : Prop :=
  (∀ task f, cn_tasks c !! task = Some f → task < cn_next_task c ∧ ∃ sid, cn_forwarders c !! sid = Some task) ∧
  (∀ s1 s2 task, cn_forwarders c !! s1 = Some task → cn_forwarders c !! s2 = Some task → s1 = s2) ∧
  (∀ sid task, cn_forwarders c !! sid = Some task → task < cn_next_task c).

(** The subscription ids of the SUBSCRIBE messages. *)
Definition sid_of (m : Message) : option Z := match m with Subscribe sid _ _ _ _ => Some sid | _ => None end.

Definition sids (rs : list (IoError + option Message)) : list Z :=
  omap (λ r, match r with inr (Some m) => sid_of m | _ => None end) rs.

Lemma conn_inv_subscribe c sid f : conn_inv c → cn_forwarders c !! sid = None →
  conn_inv (mkConn (cn_id c) (<[sid := cn_next_task c]> (cn_forwarders c)) (<[cn_next_task c := f]> (cn_tasks c)) (cn_next_task c + 1)).
Proof.
  intros (Ht & Hu & Hl) Hs. split; [|split]; cbn.
  - intros task f'. destruct (decide (cn_next_task c = task)) as [<-|].
    + intros _. split; [lia|]. exists sid. apply lookup_insert_eq.
    + rewrite lookup_insert_ne by done. intros [? (s & Hss)]%Ht. split; [lia|]. exists s.
      rewrite lookup_insert_ne by congruence. done.
  - intros s1 s2 task. destruct (decide (sid = s1)) as [<-|], (decide (sid = s2)) as [<-|];
      rewrite ?lookup_insert_eq, ?lookup_insert_ne by done; [done|..].
    + intros [= <-] H2%Hl. lia.
    + intros H1%Hl [= <-]. lia.
    + apply Hu.
  - intros s task. destruct (decide (sid = s)) as [<-|].
    + rewrite lookup_insert_eq. intros [= <-]. lia.
    + rewrite lookup_insert_ne by done. intros ?%Hl. lia.
Qed.

Lemma conn_inv_unsubscribe c sid task : conn_inv c → cn_forwarders c !! sid = Some task →
  conn_inv (mkConn (cn_id c) (delete sid (cn_forwarders c)) (delete task (cn_tasks c)) (cn_next_task c)).
Proof.
  intros (Ht & Hu & Hl) Hs. split; [|split]; cbn.
  - intros t f. rewrite lookup_delete_Some. intros (Hne & [? (s & Hss)]%Ht). split; [done|]. exists s.
    rewrite lookup_delete_ne; [done|]. intros ->. congruence.
  - intros s1 s2 t. rewrite !lookup_delete_Some. intros (_ & H1) (_ & H2). by eapply Hu.
  - intros s t. rewrite lookup_delete_Some. intros (_ & H1). by eapply Hl.
Qed.

(** One message: the handler returns, and the invariants hold on. *)
Lemma control_step_inv send_ok m x c : hub_inv (cx_hub x) → conn_inv c →
  (∀ sid, sid_of m = Some sid → cn_forwarders c !! sid = None) →
  ∃ x' c' e, control_step send_ok m x c = Some (x', c', e) ∧ hub_inv (cx_hub x') ∧ conn_inv c' ∧
    ∀ sid, is_Some (cn_forwarders c' !! sid) → is_Some (cn_forwarders c !! sid) ∨ sid_of m = Some sid.
Proof.
  intros Hh Hc Hf. destruct m as [| ns| |sid al t st pr| | |sid| | |]; cbn [control_step];
    try (eexists _, _, _; split_and!; [done|done|done|auto]; fail).
  - destruct (send_ok (cn_id c)); eexists _, _, _; split_and!; try done; auto.
  - cbn in Hf. destruct (namespace_announced _ _); cbn [negb].
    2:{ destruct (send_ok (cn_id c)); eexists _, _, _; split_and!; try done; auto. }
    destruct (send_ok (cn_id c)); cbn [negb]; [|eexists _, _, _; split_and!; try done; auto].
    destruct (hub_subscribe_total t st (cx_hub x) Hh) as (h1 & sub & E). cbn [log_sent cx_hub]. rewrite E.
    cbn [mbind option_bind]. eexists _, _, _. split; [done|]. split; [by eapply hub_subscribe_inv|].
    split; [apply conn_inv_subscribe; [done|by apply Hf]|]. cbn. intros s [task Hs].
    apply lookup_insert_Some in Hs as [(-> & _)|(_ & ?)]; [by right|by left].
  - destruct (cn_forwarders c !! sid) as [task|] eqn:Es; eexists _, _, _; (split; [done|]); (split; [done|]); split; auto.
    + by apply conn_inv_unsubscribe.
    + cbn. intros s [t Hs]. left. apply lookup_delete_Some in Hs as (_ & Hs). by eexists.
Qed.

Lemma sids_cons r rs : sids (r :: rs) = sids [r] ++ sids rs.
Proof. change (r :: rs) with ([r] ++ rs). apply omap_app. Qed.

Lemma control_run_inv send_ok rs x c : hub_inv (cx_hub x) → conn_inv c → NoDup (sids rs) →
  (∀ sid, sid ∈ sids rs → cn_forwarders c !! sid = None) →
  ∃ x' c' e, control_run send_ok rs x c = Some (x', c', e) ∧ conn_inv c'.
Proof.
  revert x c. induction rs as [|[e|[m|]] rs IH]; intros x c Hh Hc Hnd Hf; cbn [control_run]; [eauto..| |eauto].
  rewrite sids_cons in Hnd, Hf. apply NoDup_app in Hnd as (_ & Hdis & Hnd).
  assert (∀ sid, sid_of m = Some sid → sid ∈ sids [inr (Some m)]) as Hsid.
  { intros sid Hs. unfold sids. cbn. rewrite Hs. set_solver. }
  destruct (control_step_inv send_ok m x c Hh Hc) as (x1 & c1 & e1 & -> & Hh1 & Hc1 & Hdom); [set_solver|].
  cbn [mbind option_bind]. destruct e1; eauto. apply IH; try done.
  intros sid Hs. destruct (cn_forwarders c1 !! sid) eqn:E; [|done]. exfalso.
  destruct (Hdom sid) as [[? H1]|H1%Hsid]; [by eexists| |by eapply Hdis]. rewrite Hf in H1 by set_solver. done.
Qed.

Lemma conn_close_empty c : conn_inv c → cn_tasks (conn_close c) = ∅.
Proof.
  intros (Ht & _). cbn. apply map_empty. intros task. apply map_lookup_filter_None. right.
  intros f Hf Hn. destruct (Ht _ _ Hf) as [_ (sid & Hs)]. cbn in Hn. apply Hn.
  apply list_elem_of_fmap. exists (sid, task). split; [done|]. by apply elem_of_map_to_list.
Qed.

(** ** Claims *)

(** A group stream, however the network cuts it into chunks, publishes
    exactly its objects on the track its header names, each with the
    header's group, in order. *)
Theorem group_stream_ingested ref g objs hdr frames chunks pubs ctl track pubs' h :
  wf_msg (GroupHeader ref g) → message_encode (GroupHeader ref g) = Some hdr →
  Forall wf_object objs → object_frames objs = Some frames →
  concat chunks = hdr ++ concat frames →
  resolve_track_ref ref pubs ctl = inr (track, pubs') →
  handle_group_stream (length objs + 1) (map Chunk chunks ++ [Eof]) pubs ctl h =
    (h ← publish_all track (with_group g <$> objs) h; Some (pubs', h, Done)).
Proof.
  intros Hwf Eh Hobjs Ef Hc Hr. unfold handle_group_stream.
  destruct (reader_read_message _ hdr [] chunks (concat frames) [Eof] Hwf Eh Hc) as (buf' & chunks' & -> & Hrest).
  cbn [mbind option_bind wire]. rewrite Hr, (ingest_stream track g objs frames) by done.
  by destruct (publish_all _ _ _).
Qed.

(** The subscriber hands its consumer exactly the objects written to a
    group stream of a subscribed alias, each with the group of the header,
    in order. *)
Theorem subscriber_reads_group a g objs hdr frames chunks routes :
  is_u64 a → is_u64 g → message_encode (GroupHeader (Alias a) g) = Some hdr →
  Forall wf_object objs → object_frames objs = Some frames →
  concat chunks = hdr ++ concat frames → a ∈ routes →
  read_group_stream (length objs + 1) (λ _, true) (map Chunk chunks ++ [Eof]) routes =
    Some (inr (Some (a, with_group g <$> objs))).
Proof.
  intros Ha Hg Eh Hobjs Ef Hc Hr. unfold read_group_stream.
  destruct (reader_read_message (GroupHeader (Alias a) g) hdr [] chunks (concat frames) [Eof] (conj Ha Hg) Eh Hc)
    as (buf' & chunks' & -> & Hrest).
  cbn [mbind option_bind wire]. rewrite bool_decide_true by done.
  by rewrite (read_objects_stream g objs frames).
Qed.

(** Alias negotiation keeps aliases distinct, so that an alias resolves
    to its track whatever the order of the table; a registered publisher
    that can be reached ends up with an alias, and no alias changes. *)
Theorem alias_negotiation_sound send_ok track n : neg_inv n → ng_next_alias n < u64_max →
  let n' := maybe_bind_upstream_alias send_ok track n in
  neg_inv n' ∧
  (∀ t reg a ctl, ng_publishers n' !! t = Some reg → pr_alias reg = Some a →
     resolve_track_ref (Alias a) (ng_publishers n') ctl = inr (t, ng_publishers n')) ∧
  (∀ reg, ng_publishers n !! track = Some reg → send_ok (pr_control reg) = true →
     ∃ a, ng_publishers n' !! track = Some (mkReg (pr_control reg) (Some a))) ∧
  (∀ t reg a, ng_publishers n !! t = Some reg → pr_alias reg = Some a → ng_publishers n' !! t = Some reg).
Proof.
  intros Hinv Hn n'. pose proof (bind_inv_neg send_ok track n Hinv Hn) as Hinv'. split; [exact Hinv'|].
  split; [|split].
  - intros t reg a ctl Ht Ha. eapply resolve_alias_unique; [done..|]. apply Hinv'.
  - intros reg Hreg Hok. unfold n', maybe_bind_upstream_alias. rewrite Hreg.
    destruct (pr_alias reg) as [a|] eqn:Ea.
    + exists a. rewrite Hreg. destruct reg. cbn in *. congruence.
    + rewrite Hok. cbn. exists (ng_next_alias n). apply lookup_insert_eq.
  - intros t reg a Ht Ha. unfold n', maybe_bind_upstream_alias.
    destruct (ng_publishers n !! track) as [reg'|] eqn:Er; [|done].
    destruct (pr_alias reg') eqn:Ea; [done|]. destruct (send_ok (pr_control reg')); [|done]. cbn.
    rewrite lookup_insert_ne by congruence. done.
Qed.

(** While subscription ids are not reused, the control handler never
    panics, every running forwarder is reachable through its subscription,
    and none is left when the connection ends. *)
Theorem subscriptions_tracked send_ok rs x conn : hub_inv (cx_hub x) → NoDup (sids rs) →
  ∃ x' c' e, control_run send_ok rs x (mkConn conn ∅ ∅ 0) = Some (x', c', e) ∧
    (∀ task f, cn_tasks c' !! task = Some f → ∃ sid, cn_forwarders c' !! sid = Some task) ∧
    cn_tasks (conn_close c') = ∅.
Proof.
  intros Hh Hnd. destruct (control_run_inv send_ok rs x (mkConn conn ∅ ∅ 0) Hh) as (x' & c' & e & E & Hinv); [|done|done|].
  - split; [|split]; cbn; intros *; rewrite lookup_empty; done.
  - exists x', c', e. split; [done|]. split; [intros task f Hf; apply (proj1 Hinv _ _ Hf)|by apply conn_close_empty].
Qed.

End relay.

(** ** Examples *)

Definition ex_order : HashOrder TrackId PublisherReg := default_order.

Lemma group_stream_ingested_witness :
  ∃ h, @handle_group_stream ring_broadcast ex_order 2 (map Chunk [[16; 4]; [0; 7; 64; 200; 17]; [5; 1; 9; 64; 255; 0]] ++ [Eof])
    {[ex_track := mkReg 3 (Some 7)]} 3 (@hub_new ring_broadcast 4) = Some ({[ex_track := mkReg 3 (Some 7)]}, h, Done) ∧
  @publish_all ring_broadcast ex_track [mkObj 200 1 9 255 []] (@hub_new ring_broadcast 4) = Some h.
Proof.
  eexists. split; [|vm_compute; reflexivity].
  apply (@group_stream_ingested ring_broadcast ex_order (Alias 7) 200 [mkObj 200 1 9 255 []] [16; 4; 0; 7; 64; 200]
    [[17; 5; 1; 9; 64; 255; 0]] [[16; 4]; [0; 7; 64; 200; 17]; [5; 1; 9; 64; 255; 0]]
    {[ex_track := mkReg 3 (Some 7)]} 3 ex_track {[ex_track := mkReg 3 (Some 7)]} (@hub_new ring_broadcast 4)).
  - split; vm_compute; split; congruence.
  - vm_compute; reflexivity.
  - repeat constructor; vm_compute; congruence.
  - vm_compute; reflexivity.
  - reflexivity.
  - vm_compute; reflexivity.
Defined.

Lemma subscriber_reads_group_witness :
  read_group_stream 2 (λ _, true) (map Chunk [[16; 4]; [0; 7; 64; 200; 17]; [5; 1; 9; 64; 255; 0]] ++ [Eof]) {[7]} =
    Some (inr (Some (7, [mkObj 200 1 9 255 []]))).
Proof.
  apply (subscriber_reads_group 7 200 [mkObj 200 1 9 255 []] [16; 4; 0; 7; 64; 200]
    [[17; 5; 1; 9; 64; 255; 0]] [[16; 4]; [0; 7; 64; 200; 17]; [5; 1; 9; 64; 255; 0]] {[7]}).
  - by vm_compute.
  - by vm_compute.
  - vm_compute; reflexivity.
  - repeat constructor; vm_compute; congruence.
  - vm_compute; reflexivity.
  - reflexivity.
  - set_solver.
Defined.

Lemma alias_negotiation_sound_witness :
  let n := mkNeg {[ex_track := mkReg 3 None]} 1 [] in
  let n' := maybe_bind_upstream_alias (λ _, true) ex_track n in
  ng_sent n' = [(3, Subscribe 1 1 ex_track NextObject 0)] ∧ neg_inv n'.
Proof.
  intros n n'. split; [vm_compute; reflexivity|].
  apply (@alias_negotiation_sound ex_order (λ _, true) ex_track n); [|reflexivity].
  unfold n, neg_inv; cbn [ng_publishers ng_next_alias]. split; [|split; [|vm_compute; congruence]].
  - intros t reg a [<- <-]%lookup_singleton_Some. discriminate.
  - intros t1 t2 r1 r2 a [<- _]%lookup_singleton_Some [<- _]%lookup_singleton_Some. done.
Defined.

Definition ex_sub (sid : Z) : Message := Subscribe sid sid ex_track NextObject 0.

Definition ex_msgs (ms : list Message) : list (IoError + option Message) := (λ m, inr (Some m)) <$> ms.

Definition ex_ctx : RelayCtx (BC := ring_broadcast) := mkCtx (hub_new 4) (mkNeg ∅ 1 []).

Lemma subscriptions_tracked_witness :
  ∃ x' c' e, control_run (λ _, true) (ex_msgs [Announce [108]; ex_sub 1; ex_sub 2; Unsubscribe 1]) ex_ctx (mkConn 9 ∅ ∅ 0) = Some (x', c', e) ∧
    (∀ task f, cn_tasks c' !! task = Some f → ∃ sid, cn_forwarders c' !! sid = Some task) ∧
    cn_tasks (conn_close c') = ∅.
Proof.
  apply (subscriptions_tracked (λ _, true) (ex_msgs [Announce [108]; ex_sub 1; ex_sub 2; Unsubscribe 1]) ex_ctx 9).
  - split; [reflexivity|]. intros t s Hs. discriminate Hs.
  - change (NoDup [1; 2]). repeat constructor; set_solver.
Defined.

(** A SUBSCRIBE that reuses a live subscription id replaces the handle
    of the first forwarder without stopping it: neither UNSUBSCRIBE nor the
    end of the connection reaches it any more. *)
Theorem resubscribe_leaks_forwarder :
  (λ r, (map_to_list (cn_tasks (conn_close r.1.2))).*1) <$>
    control_run (λ _, true) (ex_msgs [Announce [108]; ex_sub 1; ex_sub 1; Unsubscribe 1]) ex_ctx (mkConn 9 ∅ ∅ 0) = Some [0].
Proof. vm_compute. reflexivity. Qed.
