(* ===== verification/MoqForward.v ===== *)
(** * MoQ: the forwarder of a subscription

    Models [spawn_forwarder] of [crates/moq-live/src/relay.rs]: a reader task
    that moves objects from the broadcast channel into the drop queue, and a
    writer task that empties the queue into one stream per group.  The two
    tasks share the queue under a lock; a run is an interleaving of their
    steps.  The connection may fail at any write. *)

From S2P Require Import Prelude Bytes MoqCodec MoqDropQueue MoqRelay.

(** What the broadcast receiver returns. *)
Inductive LiveEvent :=
  | LRecv (o : Object)
  | LLagged (n : Z)
  | LClosed.

(** What the writer puts on the connection: a new stream with its header, an
    object on the open stream, the end of the open stream. *)
Inductive WireEv :=
  | WOpen (alias g : Z)
  | WObj (o : Object)
  | WFinish.

Record Fw := mkFw {
  f_alias : Z;
  f_skip : bool;
  f_queue : PriorityDropQueue;
  f_closed : bool;
  f_current : option Z;
  f_running : bool;
  f_replay : list WireEv;
  f_out : list WireEv
}.

(** What the writer puts out first: one stream for the snapshot. *)
Definition replay_events (alias : Z) (replay : list Object) : list WireEv :=
  match replay with
  | [] => []
  | first :: _ => WOpen alias (group_id first) :: (WObj <$> replay) ++ [WFinish]
  end.

Definition fwd_init (alias : Z) (replay : list Object) : option Fw :=
  q ← dropq_new DROP_QUEUE_CAPACITY;
  Some (mkFw alias false q false None true (replay_events alias replay) []).

(** One turn of the reader's loop, with the outcome of the push if there was
    one. *)
Definition fwd_read (ev : LiveEvent) (f : Fw) : option (Fw * option PushOutcome) :=
  match ev with
  | LRecv obj =>
      if f_skip f && negb (is_group_head obj) then Some (f, None) else
      '(q, out) ← dropq_push obj (f_queue f);
      Some (mkFw (f_alias f) false q (f_closed f) (f_current f) (f_running f) (f_replay f) (f_out f), Some out)
  | LLagged _ => Some (mkFw (f_alias f) true (f_queue f) (f_closed f) (f_current f) (f_running f) (f_replay f) (f_out f), None)
  | LClosed => Some (mkFw (f_alias f) (f_skip f) (f_queue f) true (f_current f) (f_running f) (f_replay f) (f_out f), None)
  end.

(** One turn of the writer: the queue, the open stream and the rest of the
    replay after it, what it writes and whether it goes on; [None] when it
    waits. *)
Definition fwd_write (f : Fw) : option (PriorityDropQueue * option Z * list WireEv * list WireEv * bool) :=
  match f_replay f with
  | e :: rest => Some (f_queue f, f_current f, rest, [e], true)
  | [] =>
      match dropq_pop (f_queue f) with
      | (Some o, q) =>
          let switch := match f_current f with None => true | Some g => negb (g =? group_id o) end in
          let evs := if switch
            then match f_current f with Some _ => [WFinish] | None => [] end ++ [WOpen (f_alias f) (group_id o)]
            else [] in
          Some (q, Some (group_id o), [], evs ++ [WObj o], true)
      | (None, q) =>
          if f_closed f
          then Some (q, None, [], match f_current f with Some _ => [WFinish] | None => [] end, false)
          else None
      end
  end.

Inductive FLabel :=
  | FRead (ev : LiveEvent) (out : option PushOutcome)
  | FWrite
  | FFail.

#[export] Instance PushOutcome_eq_dec : EqDecision PushOutcome.
Proof. solve_decision. Defined.

#[export] Instance LiveEvent_eq_dec : EqDecision LiveEvent.
Proof. solve_decision. Defined.

#[export] Instance FLabel_eq_dec : EqDecision FLabel.
Proof. solve_decision. Defined.

(** The reader runs until its channel is closed, the writer until it has
    finished or a write fails; a failing turn may have written a part. *)
Inductive fstep : Fw → FLabel → Fw → Prop :=
  | fstep_read f ev f' out : f_closed f = false → fwd_read ev f = Some (f', out) → fstep f (FRead ev out) f'
  | fstep_write f q cur rest evs go : f_running f = true → fwd_write f = Some (q, cur, rest, evs, go) →
      fstep f FWrite (mkFw (f_alias f) (f_skip f) q (f_closed f) cur go rest (f_out f ++ evs))
  | fstep_fail f q cur rest evs go k : f_running f = true → fwd_write f = Some (q, cur, rest, evs, go) →
      fstep f FFail (mkFw (f_alias f) (f_skip f) q (f_closed f) cur false rest (f_out f ++ take k evs)).

Inductive fsteps : Fw → list FLabel → Fw → Prop :=
  | fsteps_nil f : fsteps f [] f
  | fsteps_cons f l f1 tr f2 : fstep f l f1 → fsteps f1 tr f2 → fsteps f (l :: tr) f2.

(** ** Streams *)

(** The events read as streams: [cur] is the group of the open stream; an
    object must belong to it. *)
Fixpoint streams_ok (alias : Z) (cur : option Z) (l : list WireEv) : option (option Z) :=
  match l with
  | [] => Some cur
  | WOpen a g :: l' => if bool_decide (cur = None ∧ a = alias) then streams_ok alias (Some g) l' else None
  | WObj o :: l' => if bool_decide (cur = Some (group_id o)) then streams_ok alias cur l' else None
  | WFinish :: l' => if bool_decide (is_Some cur) then streams_ok alias None l' else None
  end.

Definition written (l : list WireEv) : list Object :=
  omap (λ e, match e with WObj o => Some o | _ => None end) l.

(** The objects a trace offers to the queue, and those it lets in. *)
Definition offered (tr : list FLabel) : list Object :=
  omap (λ l, match l with FRead (LRecv o) (Some _) => Some o | _ => None end) tr.

Definition let_in (tr : list FLabel) : list Object :=
  omap (λ l, match l with
    | FRead (LRecv o) (Some Queued) | FRead (LRecv o) (Some (Evicted _)) => Some o
    | _ => None end) tr.

Lemma streams_ok_app alias cur l k :
  streams_ok alias cur (l ++ k) = (c ← streams_ok alias cur l; streams_ok alias c k).
Proof. revert cur. induction l as [|[] l IH]; intros cur; cbn; [done|..]; case_bool_decide; auto. Qed.

Lemma written_app l k : written (l ++ k) = written l ++ written k.
Proof. apply omap_app. Qed.

Lemma streams_ok_replay_objs alias g l : Forall (λ o, group_id o = g) l →
  streams_ok alias (Some g) (WObj <$> l) = Some (Some g).
Proof. induction 1 as [|o l Ho _ IH]; cbn; [done|]. by rewrite bool_decide_true by congruence. Qed.

Lemma written_objs l : written (WObj <$> l) = l.
Proof. induction l as [|o l IH]; cbn; [done|]. unfold written in IH. by rewrite IH. Qed.

Lemma replay_ok alias g replay : Forall (λ o, group_id o = g) replay →
  streams_ok alias None (replay_events alias replay) = Some None ∧ written (replay_events alias replay) = replay.
Proof.
  intros Hr. destruct replay as [|o l]; [done|]. unfold replay_events. split.
  - cbn [streams_ok]. rewrite bool_decide_true by done. rewrite streams_ok_app.
    assert (group_id o = g) as -> by by apply Forall_cons in Hr as [? _].
    rewrite streams_ok_replay_objs by done. done.
  - change (written (WOpen alias (group_id o) :: _)) with (written ((WObj <$> o :: l) ++ [WFinish])).
    rewrite written_app, written_objs. by rewrite app_nil_r.
Qed.

(** One turn of the writer continues the streams and writes what it popped. *)
Lemma fwd_write_ok f q cur rest evs go c : fwd_write f = Some (q, cur, rest, evs, go) →
  streams_ok (f_alias f) c (f_replay f) = Some (f_current f) →
  (∃ c', streams_ok (f_alias f) c evs = Some c' ∧ streams_ok (f_alias f) c' rest = Some cur) ∧
  written evs ++ written rest ++ dq_queue q = written (f_replay f) ++ dq_queue (f_queue f) ∧
  dq_capacity q = dq_capacity (f_queue f) ∧ dq_dropped q = dq_dropped (f_queue f) ∧
  zlen (dq_queue q) ≤ zlen (dq_queue (f_queue f)) ∧ (go = false → f_closed f = true ∧ dq_queue q = []).
Proof.
  unfold fwd_write, dropq_pop. destruct (f_replay f) as [|e rest'] eqn:Er.
  - intros E Hc. cbn in Hc. injection Hc as ->. destruct (dq_queue (f_queue f)) as [|o l] eqn:Eq.
    + destruct (f_closed f); [|done]. injection E as <- <- <- <- <-. rewrite Eq.
      destruct (f_current f); (split; [by eexists|]); split_and!; try done; cbn; lia.
    + injection E as <- <- <- <- <-. rewrite zlen_cons. cbn [dq_queue dq_capacity dq_dropped].
      destruct (f_current f) as [g|]; [destruct (Z.eqb_spec g (group_id o)) as [->|]|]; cbn [negb app streams_ok];
        (split; [eexists; rewrite ?bool_decide_true by (done || by eexists); split; reflexivity|]);
        split_and!; try done; lia.
  - intros [= <- <- <- <- <-] Hc. change (e :: rest') with ([e] ++ rest') in Hc |- *. rewrite streams_ok_app in Hc.
    apply bind_Some in Hc as (c' & H1 & H2). split; [by exists c'|]. rewrite written_app, <-app_assoc.
    split_and!; done.
Qed.

(** A failing turn leaves a prefix of well-formed streams. *)
Lemma streams_ok_take alias cur l k c : streams_ok alias cur l = Some c → ∃ c', streams_ok alias cur (take k l) = Some c'.
Proof.
  rewrite <-(take_drop k l) at 1. rewrite streams_ok_app. intros (c' & E & _)%bind_Some. eauto.
Qed.

(** ** Runs *)

(** [n] bounds the drops, [hs] are the heads let in so far; [good] until a
    write fails. *)
Record fw_inv (n : Z) (good : bool) (hs : list Object) (f : Fw) : Prop := {
  fi_cap : dq_capacity (f_queue f) = DROP_QUEUE_CAPACITY;
  fi_len : zlen (dq_queue (f_queue f)) ≤ DROP_QUEUE_CAPACITY;
  fi_dropped : 0 ≤ dq_dropped (f_queue f) ≤ n;
  fi_streams : ∃ c, streams_ok (f_alias f) None (f_out f) = Some c ∧
    (f_running f = true → streams_ok (f_alias f) c (f_replay f) = Some (f_current f));
  fi_heads : good = true → heads (written (f_out f) ++ written (f_replay f) ++ dq_queue (f_queue f)) = hs;
  fi_done : good = true → f_running f = false → f_closed f = true ∧ f_replay f = [] ∧ dq_queue (f_queue f) = []
}.

Lemma fwd_read_inv n good hs f ev : n < u64_max → fw_inv n good hs f →
  ∃ f' out, fwd_read ev f = Some (f', out) ∧ f_alias f' = f_alias f ∧
    (f_closed f = false → fw_inv (n + 1) good (hs ++ heads (let_in [FRead ev out])) f').
Proof.
  intros Hn [Hcap Hlen Hdr Hst Hh Hd]. destruct ev as [o|k|]; cbn [fwd_read].
  - destruct (f_skip f && negb (is_group_head o)).
    { eexists _, _. split; [done|]. split; [done|]. intros _. cbn. rewrite app_nil_r. split; try done; lia. }
    destruct (dropq_push_effect o (f_queue f)) as (q & out & -> & Hc & Hdq & He); [lia|].
    cbn [mbind option_bind]. eexists _, _. split; [done|]. split; [done|]. intros Hcl.
    pose proof (push_effect_heads _ _ _ _ _ He) as Hheads. destruct (push_effect_len _ _ _ _ _ He) as [_ Hl].
    split; cbn [f_queue f_alias f_out f_replay f_running f_current f_closed]; try done.
    + congruence.
    + rewrite Hcap in Hl. auto.
    + assert (0 ≤ drop_count out ≤ 1) by (destruct out; cbn; lia). lia.
    + intros Hg. rewrite app_assoc, heads_app, Hheads, app_assoc, <-heads_app, <-app_assoc, (Hh Hg). f_equal. by destruct out.
    + intros Hg Hr. destruct (Hd Hg Hr) as [? _]. congruence.
  - eexists _, _. split; [done|]. split; [done|]. intros _. cbn. rewrite app_nil_r. split; cbn; try done; lia.
  - eexists _, _. split; [done|]. split; [done|]. intros _. cbn. rewrite app_nil_r. split; cbn; try done; try lia.
    intros Hg Hr. destruct (Hd Hg Hr). done.
Qed.

Lemma fw_write_inv n good hs f q cur rest evs go k : fw_inv n good hs f → f_running f = true →
  fwd_write f = Some (q, cur, rest, evs, go) →
  fw_inv (n + 1) good hs (mkFw (f_alias f) (f_skip f) q (f_closed f) cur go rest (f_out f ++ evs)) ∧
  fw_inv (n + 1) false hs (mkFw (f_alias f) (f_skip f) q (f_closed f) cur false rest (f_out f ++ take k evs)).
Proof.
  intros [Hcap Hlen Hdr (c & Hst & Hc) Hh Hd] Hr E.
  destruct (fwd_write_ok _ _ _ _ _ _ _ E (Hc Hr)) as ((c' & H1 & H1') & H2 & H3 & H4 & H5 & H6).
  split; split; cbn [f_queue f_alias f_out f_replay f_running f_current f_closed];
    rewrite ?H3, ?H4, ?streams_ok_app, ?Hst; cbn [mbind option_bind]; try done; try lia.
  - eauto.
  - intros Hg. rewrite written_app, <-app_assoc, H2. auto.
  - intros Hg Hgo. destruct (H6 Hgo) as [? ?]. split_and!; try done.
    revert E. unfold fwd_write. subst go. repeat case_match; intros; simplify_eq; done.
  - destruct (streams_ok_take _ _ _ k _ H1) as [c0 E']. by exists c0.
Qed.

Lemma fsteps_inv n good hs f tr f' : fsteps f tr f' → fw_inv n good hs f → n + zlen tr ≤ u64_max → 0 ≤ n →
  fw_inv (n + zlen tr) (good && bool_decide (FFail ∉ tr)) (hs ++ heads (let_in tr)) f' ∧ f_alias f' = f_alias f.
Proof.
  intros Hs. revert n good hs. induction Hs as [f|f l f1 tr f2 H1 H2 IH]; intros n good hs Hinv Hn H0.
  - rewrite bool_decide_true by set_solver. rewrite andb_true_r, zlen_nil, Z.add_0_r, app_nil_r. done.
  - rewrite zlen_cons in *. pose proof (zlen_nonneg tr).
    assert (∃ good1, fw_inv (n + 1) good1 (hs ++ heads (let_in [l])) f1 ∧ f_alias f1 = f_alias f ∧
      good1 = (good && bool_decide (l ≠ FFail))) as (good1 & Hinv1 & Ha & Hg).
    { destruct H1 as [f ev f1 out Hcl E|f q cur rest evs go Hr E|f q cur rest evs go k Hr E].
      - destruct (fwd_read_inv n good hs f ev) as (f1' & out' & E' & Ha & Hi); [lia|done|].
        rewrite E in E'. simplify_eq. exists good. rewrite bool_decide_true, andb_true_r by done. auto.
      - exists good. rewrite bool_decide_true, andb_true_r by done. cbn. rewrite app_nil_r.
        split; [|done]. by apply (fw_write_inv n good hs f q cur rest evs go 0).
      - exists false. rewrite bool_decide_false, andb_false_r by tauto. cbn. rewrite app_nil_r.
        split; [|done]. by apply (fw_write_inv n good hs f q cur rest evs go k). }
    destruct (IH _ _ _ Hinv1) as [Hi Ha2]; [lia|lia|]. split; [|congruence].
    replace (n + (1 + zlen tr)) with (n + 1 + zlen tr) by lia.
    assert (let_in (l :: tr) = let_in [l] ++ let_in tr) as -> by (change (l :: tr) with ([l] ++ tr); apply omap_app).
    rewrite heads_app, app_assoc. replace (good && bool_decide (FFail ∉ l :: tr)) with (good1 && bool_decide (FFail ∉ tr)); [done|].
    rewrite Hg, <-andb_assoc. f_equal. rewrite <-bool_decide_and. apply bool_decide_ext. set_solver.
Qed.

Lemma fwd_init_inv alias g replay f : Forall (λ o, group_id o = g) replay → fwd_init alias replay = Some f →
  fw_inv 0 true (heads replay) f ∧ f_alias f = alias ∧ f_skip f = false.
Proof.
  intros Hr E. unfold fwd_init, dropq_new in E. cbn in E. injection E as <-.
  destruct (replay_ok alias g replay Hr) as [H1 H2]. split; [|done]. split; cbn [f_queue f_alias f_out f_replay f_running f_current f_closed dq_queue dq_capacity dq_dropped]; try done; try lia.
  - by exists None.
  - intros _. by rewrite H2, app_nil_r.
Qed.

(** ** After a lag *)

Lemma fwd_read_skip f ev f' out : fwd_read ev f = Some (f', out) → f_skip f = true →
  match offered [FRead ev out] with
  | [] => f_skip f' = true
  | o :: _ => is_group_head o = true
  end.
Proof.
  intros E Hs. destruct ev as [o|k|]; cbn [fwd_read] in E.
  - rewrite Hs in E. cbn [andb] in E. destruct (is_group_head o) eqn:Hh; cbn [negb] in E.
    + apply bind_Some in E as ([q out'] & _ & [= _ <-]). exact Hh.
    + injection E as <- <-. exact Hs.
  - injection E as <- <-. done.
  - injection E as <- <-. exact Hs.
Qed.

Lemma fsteps_skip f tr f' : fsteps f tr f' → f_skip f = true →
  ∀ o l, offered tr = o :: l → is_group_head o = true.
Proof.
  induction 1 as [|f l f1 tr f2 H1 H2 IH]; intros Hs o k Ho; [done|].
  assert (offered (l :: tr) = offered [l] ++ offered tr) as E by (change (l :: tr) with ([l] ++ tr); apply omap_app).
  rewrite E in Ho. destruct H1 as [f ev f1 out Hcl Er|f q cur rest evs go Hr Er|f q cur rest evs go j Hr Er].
  - pose proof (fwd_read_skip _ _ _ _ Er Hs) as Hx. destruct (offered [FRead ev out]) as [|x y].
    + by eapply IH.
    + cbn in Ho. apply cons_inv in Ho as [<- _]. done.
  - by apply (IH Hs o k).
  - by apply (IH Hs o k).
Qed.

(** ** Claims *)

(** [C32] In every interleaving of reader and writer, with the connection
    failing or not, the subscriber gets well-formed streams: each opened
    with the subscription's alias and carrying only objects of its group.
    The queue stays within its capacity and the reader never panics.  Until
    a write fails, the group heads written or still to be written are exactly
    those of the replay and those let into the queue, in order; when the
    writer has finished nothing is left. *)
Theorem forwarder_correct alias g replay f tr f' : Forall (λ o, group_id o = g) replay →
  fwd_init alias replay = Some f → fsteps f tr f' → zlen tr < u64_max →
  (∃ c, streams_ok alias None (f_out f') = Some c) ∧
  dropq_len (f_queue f') ≤ DROP_QUEUE_CAPACITY ∧
  (∀ ev, is_Some (fwd_read ev f')) ∧
  (FFail ∉ tr → heads (written (f_out f') ++ written (f_replay f') ++ dq_queue (f_queue f')) = heads (replay ++ let_in tr) ∧
    (f_running f' = false → f_replay f' = [] ∧ dq_queue (f_queue f') = [])).
Proof.
  intros Hr Hi Hs Hn. destruct (fwd_init_inv _ _ _ _ Hr Hi) as (Hinv & Ha & _). pose proof (zlen_nonneg tr).
  destruct (fsteps_inv 0 true _ _ _ _ Hs Hinv) as [Hinv' Ha']; [lia|lia|].
  pose proof Hinv' as [Hcap Hlen Hdr (c & Hst & _) Hh Hd]. split; [rewrite <-Ha, <-Ha'; eauto|].
  split; [exact Hlen|]. split.
  - intros ev. destruct (fwd_read_inv (0 + zlen tr) _ _ f' ev ltac:(lia) Hinv') as (f2 & out & -> & _). by eexists.
  - intros Hnf. rewrite bool_decide_true in Hh, Hd by done. rewrite (heads_app replay). split; [by apply Hh|].
    intros Hrun. by apply Hd.
Qed.

Lemma forwarder_correct_witness :
  let o := mkObj 5 0 0 0 [] in
  let tr := [FWrite; FRead (LRecv (mkObj 6 0 0 0 [])) (Some Queued); FWrite; FWrite; FWrite] in
  ∃ f f', fwd_init 7 [o] = Some f ∧ fsteps f tr f' ∧
    f_out f' = [WOpen 7 5; WObj o; WFinish; WOpen 7 6; WObj (mkObj 6 0 0 0 [])] ∧
    (∃ c, streams_ok 7 None (f_out f') = Some c).
Proof.
  intros o tr. assert (∃ f f', fwd_init 7 [o] = Some f ∧ fsteps f tr f' ∧
    f_out f' = [WOpen 7 5; WObj o; WFinish; WOpen 7 6; WObj (mkObj 6 0 0 0 [])]) as (f & f' & H1 & H2 & H3).
  { eexists _, _. split; [reflexivity|]. split.
    - eapply fsteps_cons; [by apply fstep_write|]. eapply fsteps_cons; [by apply fstep_read|].
      do 3 (eapply fsteps_cons; [by apply fstep_write|]). apply fsteps_nil.
    - reflexivity. }
  exists f, f'. split; [exact H1|]. split; [exact H2|]. split; [exact H3|].
  refine (proj1 (forwarder_correct 7 5 [o] f _ f' _ H1 H2 _)); [by repeat constructor|reflexivity].
Defined.

(** After the subscriber has lagged, the first object offered to its
    queue starts a group: it never gets objects of a group whose start it
    missed in the gap. *)
Theorem lag_resumes_at_group_head f n f1 out tr f2 o l :
  fwd_read (LLagged n) f = Some (f1, out) → fsteps f1 tr f2 → offered tr = o :: l → is_group_head o = true.
Proof. intros E Hs. cbn in E. injection E as <- <-. by eapply fsteps_skip. Qed.

Lemma lag_resumes_at_group_head_witness :
  let f := mkFw 7 false (mkDQ 64 [] 0) false None true [] [] in
  ∃ f1 out tr f2, fwd_read (LLagged 3) f = Some (f1, out) ∧ fsteps f1 tr f2 ∧
    tr = [FRead (LRecv (mkObj 6 4 0 0 [])) None; FRead (LRecv (mkObj 7 0 0 0 [])) (Some Queued)] ∧
    is_group_head (mkObj 7 0 0 0 []) = true.
Proof.
  intros f. eexists _, _, _, _. split; [reflexivity|]. split; [|split; [reflexivity|]].
  - eapply fsteps_cons; [by apply fstep_read|]. eapply fsteps_cons; [by apply fstep_read|]. apply fsteps_nil.
  - eapply (lag_resumes_at_group_head f 3 _ _
      [FRead (LRecv (mkObj 6 4 0 0 [])) None; FRead (LRecv (mkObj 7 0 0 0 [])) (Some Queued)] _ _ []);
      [reflexivity| |reflexivity].
    eapply fsteps_cons; [by apply fstep_read|]. eapply fsteps_cons; [by apply fstep_read|]. apply fsteps_nil.
Defined.
