(* ===== verification/MoqClient.v ===== *)
(** * Media relay: the clients and the control channel

    Models [crates/moq-live/src/control.rs] and, of [client.rs], the SETUP
    exchange, the publisher and the subscriber; the reader of a group stream
    is [MoqRelay.read_group_stream].

    A control channel carries frames over a stream or one message per message
    of a GM-PQ session.  A call of [subscribe] is a sequence of steps that
    interleave with those of other calls and of the control task: each step is
    what happens under one lock or up to one wait.  The receiving end of its
    channel of objects is named by the number of the call.  A send that the
    network makes fail is an argument. *)

From S2P Require Import Prelude Bytes MoqCodec MoqDropQueue MoqCache MoqHub MoqRelay.

(** ** The control channel *)

(** What was written to a stream, or handed to a session. *)
Inductive ControlSender :=
  | RawSender (written : list Z)
  | SecureSender (queued : list (list Z)).

(** [None] is a panic of the encoder. *)
Definition control_send (msg : Message) (s : ControlSender) : option ControlSender :=
  f ← message_encode msg;
  Some match s with
       | RawSender w => RawSender (w ++ f)
       | SecureSender q => SecureSender (q ++ [f])
       end.

(** A stream with the frame reader's buffer, or the messages of a session
    followed by its end. *)
Inductive ControlReceiver :=
  | RawReceiver (buf : list Z) (evs : list ReadEvent)
  | SecureReceiver (inbox : list (list Z)) (ended : bool).

Definition control_recv (r : ControlReceiver) : option (ReadResult * ControlReceiver) :=
  match r with
  | RawReceiver buf evs => '(x, buf, evs) ← reader_read buf evs; Some (x, RawReceiver buf evs)
  | SecureReceiver (bytes :: inbox) ended =>
      m ← message_decode bytes;
      Some (Ready (match m with inl e => inl e | inr m => inr (Some m) end), SecureReceiver inbox ended)
  | SecureReceiver [] ended => Some (if ended then Ready (inr None) else Pending, r)
  end.

Fixpoint recv_all (n : nat) (r : ControlReceiver) : option (list Message * ReadResult) :=
  match n with
  | O => Some ([], Pending)
  | S n' =>
      '(x, r) ← control_recv r;
      match x with
      | Ready (inr (Some m)) => '(ms, e) ← recv_all n' r; Some (m :: ms, e)
      | _ => Some ([], x)
      end
  end.

Fixpoint send_all (ms : list Message) (s : ControlSender) : option ControlSender :=
  match ms with
  | [] => Some s
  | m :: ms' => s ← control_send m s; send_all ms' s
  end.

(** ** SETUP *)

Definition setup_request (role : Role) : Message := Setup PROTO_VERSION role.

(** What the client makes of the answer. *)
Definition setup_answer (r : IoError + option Message) : IoError + unit :=
  match r with
  | inl e => inl e
  | inr (Some (Setup _ _)) => inr tt
  | inr _ => inl InvalidData
  end.

(** ** The publisher *)

Record PublisherSt := mkPublisher {
  pu_aliases : gmap TrackId Z;
  pu_out : list Message;
  pu_task : bool
}.

Definition publisher_new : PublisherSt := mkPublisher ∅ [] true.

(** The control task on what it receives; the answer to a subscription may
    fail to be sent. *)
Definition publisher_control (r : IoError + option Message) (send_ok : bool) (p : PublisherSt) : PublisherSt :=
  if pu_task p then
    match r with
    | inr (Some (Subscribe sid alias track _ _)) =>
        mkPublisher (<[track := alias]> (pu_aliases p)) (if send_ok then pu_out p ++ [SubscribeOk sid] else pu_out p) true
    | inr (Some (Goaway _)) => mkPublisher (pu_aliases p) (pu_out p) false
    | inr (Some _) => p
    | _ => mkPublisher (pu_aliases p) (pu_out p) false
    end
  else p.

Definition publisher_announce (namespace : list Z) (p : PublisherSt) : PublisherSt :=
  mkPublisher (pu_aliases p) (pu_out p ++ [Announce namespace]) (pu_task p).

Definition alias_of (track : TrackId) (p : PublisherSt) : option Z := pu_aliases p !! track.

(** A group's stream: its number and what was written. *)
Record GroupWriter := mkGroupWriter {
  gw_stream : list Z;
  gw_group : Z
}.

Definition group_ref (track : TrackId) (p : PublisherSt) : TrackRef :=
  match alias_of track p with Some a => Alias a | None => Full track end.

Definition begin_group (track : TrackId) (group_id : Z) (p : PublisherSt) : option GroupWriter :=
  f ← message_encode (GroupHeader (group_ref track p) group_id);
  Some (mkGroupWriter f group_id).

(** [debug_assert] on the group of the object: a panic in debug builds. *)
Definition write_object (o : Object) (w : GroupWriter) : option GroupWriter :=
  if negb (group_id o =? gw_group w) then None else
  f ← message_encode (ObjectMsg o);
  Some (mkGroupWriter (gw_stream w ++ f) (gw_group w)).

Fixpoint write_objects (objs : list Object) (w : GroupWriter) : option GroupWriter :=
  match objs with
  | [] => Some w
  | o :: objs' => w ← write_object o w; write_objects objs' w
  end.

(** ** The subscriber *)

(** The channel through which a call gets its answer. *)
Inductive Oneshot :=
  | OsOpen
  | OsSent (r : list Z + unit)
  | OsDropped.

(** Where a call of [subscribe] stands: before it enters its route, its
    answer channel, before it sends, waiting, before it removes its route,
    and its results. *)
Inductive CallPhase :=
  | PhRoute
  | PhPending
  | PhSend
  | PhWait
  | PhRemove (reason : list Z)
  | PhOk
  | PhRefused (reason : list Z)
  | PhSendFailed
  | PhAborted.

Record Call := mkCall {
  cl_sid : Z;
  cl_track : TrackId;
  cl_start : StartMode;
  cl_prio : Z;
  cl_phase : CallPhase;
  cl_oneshot : Oneshot
}.

Definition with_phase (ph : CallPhase) (c : Call) : Call := mkCall (cl_sid c) (cl_track c) (cl_start c) (cl_prio c) ph (cl_oneshot c).
Definition with_oneshot (o : Oneshot) (c : Call) : Call := mkCall (cl_sid c) (cl_track c) (cl_start c) (cl_prio c) (cl_phase c) o.

Record SubscriberSt := mkSubscriber {
  su_calls : list Call;
  su_routes : gmap Z nat;
  su_pending : gmap Z nat;
  su_out : list Message;
  su_task : bool;
  su_events : list (list Z)
}.

Definition subscriber_new : SubscriberSt := mkSubscriber [] ∅ ∅ [] true [].

Definition with_calls (l : list Call) (s : SubscriberSt) : SubscriberSt :=
  mkSubscriber l (su_routes s) (su_pending s) (su_out s) (su_task s) (su_events s).
Definition with_routes (m : gmap Z nat) (s : SubscriberSt) : SubscriberSt :=
  mkSubscriber (su_calls s) m (su_pending s) (su_out s) (su_task s) (su_events s).
Definition with_waiting (m : gmap Z nat) (s : SubscriberSt) : SubscriberSt :=
  mkSubscriber (su_calls s) (su_routes s) m (su_out s) (su_task s) (su_events s).
Definition sent_msg (m : Message) (s : SubscriberSt) : SubscriberSt :=
  mkSubscriber (su_calls s) (su_routes s) (su_pending s) (su_out s ++ [m]) (su_task s) (su_events s).
Definition task_ends (s : SubscriberSt) : SubscriberSt :=
  mkSubscriber (su_calls s) (su_routes s) (su_pending s) (su_out s) false (su_events s).

Definition set_phase (i : nat) (ph : CallPhase) (s : SubscriberSt) : SubscriberSt := with_calls (alter (with_phase ph) i (su_calls s)) s.

(** A oneshot sender that goes out of scope tells its receiver, unless it has
    been used. *)
Definition drop_sender (i : nat) (s : SubscriberSt) : SubscriberSt :=
  with_calls (alter (λ c, match cl_oneshot c with OsOpen => with_oneshot OsDropped c | _ => c end) i (su_calls s)) s.

(** The next step of call [i]. *)
Definition call_step (i : nat) (send_ok : bool) (s : SubscriberSt) : SubscriberSt :=
  match su_calls s !! i with
  | None => s
  | Some c =>
      match cl_phase c with
      | PhRoute => set_phase i PhPending (with_routes (<[cl_sid c := i]> (su_routes s)) s)
      | PhPending =>
          let s := match su_pending s !! cl_sid c with Some j => drop_sender j s | None => s end in
          set_phase i PhSend (with_waiting (<[cl_sid c := i]> (su_pending s)) s)
      | PhSend =>
          if send_ok then set_phase i PhWait (sent_msg (Subscribe (cl_sid c) (cl_sid c) (cl_track c) (cl_start c) (cl_prio c)) s)
          else set_phase i PhSendFailed s
      | PhWait =>
          match cl_oneshot c with
          | OsOpen => s
          | OsSent (inr _) => set_phase i PhOk s
          | OsSent (inl reason) => set_phase i (PhRemove reason) s
          | OsDropped => set_phase i PhAborted s
          end
      | PhRemove reason => set_phase i (PhRefused reason) (with_routes (delete (cl_sid c) (su_routes s)) s)
      | _ => s
      end
  end.

(** The answer to subscription [sid]. *)
Definition answer (sid : Z) (r : list Z + unit) (s : SubscriberSt) : SubscriberSt :=
  match su_pending s !! sid with
  | Some i => with_calls (alter (with_oneshot (OsSent r)) i (su_calls s)) (with_waiting (delete sid (su_pending s)) s)
  | None => s
  end.

(** The control task on what it receives. *)
Definition subscriber_control (r : IoError + option Message) (s : SubscriberSt) : SubscriberSt :=
  if su_task s then
    match r with
    | inr (Some (SubscribeOk sid)) => answer sid (inr tt) s
    | inr (Some (SubscribeError sid _ reason)) => answer sid (inl reason) s
    | inr (Some (Goaway reason)) =>
        task_ends (mkSubscriber (su_calls s) (su_routes s) (su_pending s) (su_out s) (su_task s) (su_events s ++ [reason]))
    | inr (Some _) => s
    | _ => task_ends s
    end
  else s.

Inductive SubEv :=
  | SeCall (sid : Z) (track : TrackId) (start : StartMode) (prio : Z)
  | SeStep (i : nat) (send_ok : bool)
  | SeControl (r : IoError + option Message)
  | SeUnroute (sid : Z)
  | SeUnsubscribe (sid : Z).

(** The first step of [unsubscribe] takes the route away, the second sends. *)
Definition subscriber_step (ev : SubEv) (s : SubscriberSt) : SubscriberSt :=
  match ev with
  | SeCall sid track start prio => with_calls (su_calls s ++ [mkCall sid track start prio PhRoute OsOpen]) s
  | SeStep i ok => call_step i ok s
  | SeControl r => subscriber_control r s
  | SeUnroute sid => with_routes (delete sid (su_routes s)) s
  | SeUnsubscribe sid => sent_msg (Unsubscribe sid) s
  end.

Definition subscriber_run (evs : list SubEv) (s : SubscriberSt) : SubscriberSt := foldl (λ s ev, subscriber_step ev s) s evs.

(** ** Both control channels carry the messages *)

Lemma recv_raw n buf evs : recv_all n (RawReceiver buf evs) = read_all n buf evs.
Proof.
  revert buf evs. induction n as [|n IH]; intros buf evs; [done|]. cbn [recv_all control_recv read_all].
  destruct (reader_read buf evs) as [[[x buf'] evs']|]; [|done]. cbn [mbind option_bind]. destruct x as [|[|[m|]]]; try done. by rewrite IH.
Qed.

Lemma send_all_raw ms w s : send_all ms (RawSender w) = Some s → ∃ frames, mapM message_encode ms = Some frames ∧ s = RawSender (w ++ concat frames).
Proof.
  revert w. induction ms as [|m ms IH]; intros w; cbn [send_all mapM].
  { intros [= <-]. exists []. by rewrite app_nil_r. }
  intros (s1 & (f & Ef & [= <-])%bind_Some & E)%bind_Some. rewrite Ef. apply IH in E as (fs & -> & ->). exists (f :: fs). split; [done|].
  cbn [concat]. by rewrite app_assoc.
Qed.

Lemma send_all_secure ms q s : send_all ms (SecureSender q) = Some s → ∃ frames, mapM message_encode ms = Some frames ∧ s = SecureSender (q ++ frames).
Proof.
  revert q. induction ms as [|m ms IH]; intros q; cbn [send_all mapM].
  { intros [= <-]. exists []. by rewrite app_nil_r. }
  intros (s1 & (f & Ef & [= <-])%bind_Some & E)%bind_Some. rewrite Ef. apply IH in E as (fs & -> & ->). exists (f :: fs). split; [done|].
  by rewrite <-app_assoc.
Qed.

Lemma recv_secure ms frames : Forall wf_msg ms → mapM message_encode ms = Some frames →
  recv_all (length ms + 1) (SecureReceiver frames true) = Some (wire <$> ms, Ready (inr None)).
Proof.
  intros Hwf. revert frames. induction Hwf as [|m ms Hm Hms IH]; intros frames E; cbn [mapM] in E.
  { assert (frames = []) as -> by by injection E. done. }
  apply bind_Some in E as (f & Ef & (fs & Efs & [= <-])%bind_Some). cbn [length Nat.add recv_all control_recv].
  rewrite (message_decode_encode m f Hm Ef). cbn [mbind option_bind ok]. by rewrite (IH fs Efs).
Qed.

(** The control channel of both kinds hands over exactly the messages sent, in
    order, and then its end, however the network cuts the bytes of a stream. *)
Theorem control_channel_exact ms : Forall wf_msg ms →
  (∀ w chunks, send_all ms (RawSender []) = Some (RawSender w) → concat chunks = w →
     recv_all (length ms + 1) (RawReceiver [] (map Chunk chunks ++ [Eof])) = Some (wire <$> ms, Ready (inr None))) ∧
  (∀ q, send_all ms (SecureSender []) = Some (SecureSender q) →
     recv_all (length ms + 1) (SecureReceiver q true) = Some (wire <$> ms, Ready (inr None))).
Proof.
  intros Hwf. split.
  - intros w chunks (frames & E & [= ->])%send_all_raw Hc. rewrite recv_raw. eapply (read_all_messages 1 _ _ _ _ []); [done..| |].
    + by rewrite app_nil_r.
    + intros buf' chunks' [-> Hn]%app_nil. cbn [read_all]. by rewrite reader_read_end.
  - intros q (frames & E & [= ->])%send_all_secure. by apply recv_secure.
Qed.

Lemma control_channel_exact_witness : ∃ w,
  send_all [SubscribeOk 7; Goaway [98]] (RawSender []) = Some (RawSender w) ∧
  recv_all 3 (RawReceiver [] (map Chunk [take 2 w; drop 2 w] ++ [Eof])) = Some ([SubscribeOk 7; Goaway [98]], Ready (inr None)).
Proof.
  eexists. split; [vm_compute; reflexivity|].
  refine (proj1 (control_channel_exact [SubscribeOk 7; Goaway [98]] _) _ _ _ _); [|vm_compute; reflexivity|vm_compute; reflexivity].
  repeat constructor; vm_compute; congruence.
Defined.

(** ** The publisher's groups *)

Section publisher_proofs.
Context {BC : Broadcast} {HO : HashOrder TrackId PublisherReg}.

Lemma write_objects_frames objs w w' : write_objects objs w = Some w' →
  ∃ frames, object_frames objs = Some frames ∧ gw_stream w' = gw_stream w ++ concat frames ∧ gw_group w' = gw_group w ∧ Forall (λ o, group_id o = gw_group w) objs.
Proof.
  revert w. induction objs as [|o objs IH]; intros w E; cbn [write_objects] in E.
  { injection E as <-. exists []. rewrite app_nil_r. by split_and!. }
  apply bind_Some in E as (w1 & E1 & E). unfold write_object in E1. destruct (Z.eqb_spec (group_id o) (gw_group w)) as [Hg|]; [|done]. cbn [negb] in E1.
  apply bind_Some in E1 as (f & Ef & [= <-]). apply IH in E as (fs & Efs & Hs & Hgr & Hall). cbn in Hs, Hgr, Hall.
  exists (f :: fs). split_and!.
  - unfold object_frames in *. cbn [mapM]. by rewrite Ef, Efs.
  - rewrite Hs. cbn [concat]. by rewrite app_assoc.
  - done.
  - by constructor.
Qed.

Lemma with_own_group g objs : Forall (λ o, group_id o = g) objs → with_group g <$> objs = objs.
Proof. induction 1 as [|o objs <- _ IH]; [done|]. cbn. rewrite IH. by destruct o. Qed.

(** The publisher's aliases are those of the relay's table. *)
Definition aliases_agree (p : PublisherSt) (n : Negotiation) : Prop :=
  ∀ track a, pu_aliases p !! track = Some a → ∃ reg, ng_publishers n !! track = Some reg ∧ pr_alias reg = Some a.

Lemma group_ref_resolves track p n ctl : aliases_agree p n → neg_inv n →
  ∃ pubs, resolve_track_ref (group_ref track p) (ng_publishers n) ctl = inr (track, pubs).
Proof.
  intros Hal (_ & Huniq & _). unfold group_ref, alias_of. destruct (pu_aliases p !! track) as [a|] eqn:E.
  - destruct (Hal _ _ E) as (reg & Hr & Ha). exists (ng_publishers n). by eapply resolve_alias_unique.
  - unfold resolve_track_ref. by eexists.
Qed.

(** Every alias the relay has told a publisher is in its table. *)
Definition told (n : Negotiation) : Prop :=
  ∀ c sid a t st prio, (c, Subscribe sid a t st prio) ∈ ng_sent n → ∃ reg, ng_publishers n !! t = Some reg ∧ pr_alias reg = Some a.

(** The relay and one publisher, connection [ctl]: the relay looks for an
    alias for a track, the publisher reads the next of the messages sent to
    it, or the header of a group it begins reaches the relay. *)
Inductive PubEv :=
  | PeBind (send_ok : Z → bool) (track : TrackId)
  | PeRead (send_ok : bool)
  | PeGroup (track : TrackId).

Record PubLink := mkPubLink {
  pl_publisher : PublisherSt;
  pl_neg : Negotiation;
  pl_read : nat
}.

Definition messages_to (ctl : Z) (n : Negotiation) : list Message := omap (λ e, if e.1 =? ctl then Some e.2 else None) (ng_sent n).

Definition pub_step (ctl : Z) (l : PubLink) (ev : PubEv) : PubLink :=
  match ev with
  | PeBind ok track => mkPubLink (pl_publisher l) (maybe_bind_upstream_alias ok track (pl_neg l)) (pl_read l)
  | PeRead ok =>
      match messages_to ctl (pl_neg l) !! pl_read l with
      | Some m => mkPubLink (publisher_control (inr (Some m)) ok (pl_publisher l)) (pl_neg l) (S (pl_read l))
      | None => l
      end
  | PeGroup track =>
      match resolve_track_ref (group_ref track (pl_publisher l)) (ng_publishers (pl_neg l)) ctl with
      | inr (_, pubs) => mkPubLink (pl_publisher l) (mkNeg pubs (ng_next_alias (pl_neg l)) (ng_sent (pl_neg l))) (pl_read l)
      | inl _ => l
      end
  end.

Definition pub_new : PubLink := mkPubLink publisher_new (mkNeg ∅ 1 []) 0.

(** The aliases handed out do not reach the end of their type. *)
Definition pub_inv (k : Z) (l : PubLink) : Prop :=
  aliases_agree (pl_publisher l) (pl_neg l) ∧ neg_inv (pl_neg l) ∧ told (pl_neg l) ∧ ng_next_alias (pl_neg l) ≤ k.

(** What was bound stays bound, and the messages about it are true. *)
Lemma bind_told send_ok track n : told n →
  told (maybe_bind_upstream_alias send_ok track n) ∧
  ∀ t reg a, ng_publishers n !! t = Some reg → pr_alias reg = Some a → ng_publishers (maybe_bind_upstream_alias send_ok track n) !! t = Some reg.
Proof.
  intros Ht. unfold maybe_bind_upstream_alias. destruct (ng_publishers n !! track) as [reg|] eqn:Er; [|done].
  destruct (pr_alias reg) as [b|] eqn:Ea; [done|]. destruct (send_ok (pr_control reg)); [|done].
  assert (∀ t r a, ng_publishers n !! t = Some r → pr_alias r = Some a → <[track:=mkReg (pr_control reg) (Some (ng_next_alias n))]> (ng_publishers n) !! t = Some r) as Hk.
  { intros t r a Hr Ha. rewrite lookup_insert_ne; [done|]. intros <-. rewrite Er in Hr. simplify_eq. }
  split; [|exact Hk]. intros c sid a t st prio [Hin|Hin]%elem_of_app.
  - destruct (Ht _ _ _ _ _ _ Hin) as (r & Hr & Ha). exists r. split; [|done]. by apply (Hk _ _ a).
  - apply list_elem_of_singleton in Hin. injection Hin as -> -> -> -> -> ->. eexists. cbn. by rewrite lookup_insert_eq.
Qed.

Lemma pub_step_inv ctl k l ev : pub_inv k l → k < u64_max → pub_inv (k + 1) (pub_step ctl l ev).
Proof.
  intros (Hal & Hneg & Htold & Hk) Hlt. destruct ev as [ok track|ok|track]; cbn [pub_step].
  - destruct (bind_told ok track (pl_neg l) Htold) as [Ht' Hkeep]. split_and!; cbn.
    + intros t a Hta. destruct (Hal t a Hta) as (reg & Hr & Ha). exists reg. split; [|done]. by apply (Hkeep _ _ a).
    + apply bind_inv_neg; [done|lia].
    + done.
    + unfold maybe_bind_upstream_alias. destruct (ng_publishers (pl_neg l) !! track) as [reg|]; [|lia]. destruct (pr_alias reg); [lia|].
      destruct Hneg as (_ & _ & Hpos). assert (wrap64 (ng_next_alias (pl_neg l) + 1) = ng_next_alias (pl_neg l) + 1) as E by (unfold wrap64, u64_max in *; apply Z.mod_small; lia).
      destruct (ok (pr_control reg)); cbn; rewrite E; lia.
  - destruct (messages_to ctl (pl_neg l) !! pl_read l) as [m|] eqn:Em; [|split_and!; done || lia].
    split_and!; cbn; [|done|done|lia]. unfold publisher_control. destruct (pu_task (pl_publisher l)); [|done]. destruct m; try done.
    intros t a Ht. cbn in Ht. destruct (decide (track = t)) as [<-|]; [|rewrite lookup_insert_ne in Ht by done; by apply Hal].
    rewrite lookup_insert_eq in Ht. injection Ht as <-. apply list_elem_of_lookup_2 in Em. unfold messages_to in Em.
    apply list_elem_of_omap in Em as ([c m'] & Hin & Hm). cbn in Hm. destruct (c =? ctl); [|done]. injection Hm as ->. by apply (Htold _ _ _ _ _ _ Hin).
  - destruct (resolve_track_ref _ _ ctl) as [|[t pubs]] eqn:Er; [split_and!; done || lia|].
    assert (pubs = ng_publishers (pl_neg l) ∨ ∃ t, ng_publishers (pl_neg l) !! t = None ∧ pubs = <[t := mkReg ctl None]> (ng_publishers (pl_neg l))) as Hp.
    { unfold resolve_track_ref in Er. destruct (group_ref _ _) as [a|t'].
      - destruct (List.find _ _) as [[]|]; [|done]. injection Er as _ <-. by left.
      - destruct (ng_publishers (pl_neg l) !! t') eqn:Et; injection Er as _ <-; [by left|]. right. by exists t'. }
    destruct Hp as [->|(t' & Hnone & ->)]; [destruct (pl_neg l); split_and!; cbn in *; done || lia|].
    assert (∀ t r a, <[t' := mkReg ctl None]> (ng_publishers (pl_neg l)) !! t = Some r → pr_alias r = Some a → ng_publishers (pl_neg l) !! t = Some r) as Hback.
    { intros t0 r a. destruct (decide (t' = t0)) as [<-|]; [rewrite lookup_insert_eq; intros [= <-]; done|by rewrite lookup_insert_ne by done]. }
    assert (∀ t r a, ng_publishers (pl_neg l) !! t = Some r → pr_alias r = Some a → <[t' := mkReg ctl None]> (ng_publishers (pl_neg l)) !! t = Some r) as Hfwd.
    { intros t0 r a Hr _. rewrite lookup_insert_ne; [done|]. intros <-. congruence. }
    destruct Hneg as (N1 & N2 & N3). split; [|split; [|split]]; cbn.
    + intros t0 a Ha. destruct (Hal t0 a Ha) as (reg & Hr & Ha'). exists reg. split; [|done]. by apply (Hfwd _ _ a).
    + split; [|split; [|done]]; cbn.
      * intros t0 r a Hr Ha. by apply (N1 t0 r a); [apply (Hback _ _ a)|].
      * intros t1 t2 r1 r2 a H1 H2 A1 A2. by apply (N2 t1 t2 r1 r2 a); [apply (Hback _ _ a)|apply (Hback _ _ a)|..].
    + intros c sid a t0 st prio Hin. destruct (Htold _ _ _ _ _ _ Hin) as (reg & Hr & Ha'). exists reg. split; [|done]. by apply (Hfwd _ _ a).
    + lia.
Qed.

Lemma pub_run_inv ctl evs k l : pub_inv k l → k + zlen evs ≤ u64_max → pub_inv (k + zlen evs) (foldl (pub_step ctl) l evs).
Proof.
  revert k l. induction evs as [|ev evs IH]; intros k l Hinv Hk; cbn [foldl]; [by rewrite Z.add_0_r|].
  rewrite zlen_cons in *. pose proof (zlen_nonneg evs). replace (k + (1 + zlen evs)) with ((k + 1) + zlen evs) by lia. apply IH; [apply pub_step_inv; [done|lia]|lia].
Qed.

End publisher_proofs.

(** [C34] Whatever the order in which the relay negotiates aliases, the publisher
    reads of them and groups begin, a group that the publisher writes (with an
    alias or with the full name of the track) and that the network cuts into
    any chunks is published by the relay on that track, with exactly its
    objects, in order. *)
Theorem published_group_arrives `{BC : Broadcast} {HO : HashOrder TrackId PublisherReg} ctl evs track g objs w w' chunks h :
  zlen evs < u64_max →
  let l := foldl (pub_step ctl) pub_new evs in
  wf_msg (GroupHeader (group_ref track (pl_publisher l)) g) → Forall wf_object objs →
  begin_group track g (pl_publisher l) = Some w → write_objects objs w = Some w' → concat chunks = gw_stream w' →
  ∃ pubs, handle_group_stream (length objs + 1) (map Chunk chunks ++ [Eof]) (ng_publishers (pl_neg l)) ctl h =
    (h ← publish_all track objs h; Some (pubs, h, Done)).
Proof.
  intros Hlen l Hwf Hobjs Eb Ew Hc. destruct (pub_run_inv ctl evs 1 pub_new) as (Hal & Hn & _); [|lia|].
  { split; [|split; [|split]]; cbn.
    - intros t a. unfold publisher_new. cbn. by rewrite lookup_empty.
    - split; [|split; [|done]]; cbn; intros *; by rewrite lookup_empty.
    - intros c sid a t st prio Hin. by apply elem_of_nil in Hin.
    - done. }
  fold l in Hal, Hn. unfold begin_group in Eb. apply bind_Some in Eb as (hdr & Eh & [= <-]).
  apply write_objects_frames in Ew as (frames & Ef & Hs & Hg & Hall). cbn in Hs, Hg, Hall. rewrite Hs in Hc.
  destruct (group_ref_resolves track _ _ ctl Hal Hn) as [pubs Hr]. exists pubs. unfold handle_group_stream.
  destruct (reader_read_message _ hdr [] chunks (concat frames) [Eof] Hwf Eh Hc) as (buf' & chunks' & -> & Hrest).
  cbn [mbind option_bind wire]. rewrite Hr, (ingest_stream track g objs frames) by done. rewrite with_own_group by done.
  by destruct (publish_all _ _ _).
Qed.

(** A group with the full name, then an alias, then a group with it. *)
Definition ex_negotiation : list PubEv := [PeGroup ex_track; PeBind (λ _, true) ex_track; PeRead true].

Lemma published_group_arrives_witness : ∃ w w' pubs,
  group_ref ex_track (pl_publisher (foldl (@pub_step ex_order 3) pub_new ex_negotiation)) = Alias 1 ∧
  begin_group ex_track 200 (pl_publisher (foldl (@pub_step ex_order 3) pub_new ex_negotiation)) = Some w ∧
  write_objects [mkObj 200 1 9 255 []] w = Some w' ∧
  @handle_group_stream ring_broadcast ex_order 2 (map Chunk [take 3 (gw_stream w'); drop 3 (gw_stream w')] ++ [Eof])
    (ng_publishers (pl_neg (foldl (@pub_step ex_order 3) pub_new ex_negotiation))) 3 (@hub_new ring_broadcast 4) =
  (h ← @publish_all ring_broadcast ex_track [mkObj 200 1 9 255 []] (@hub_new ring_broadcast 4); Some (pubs, h, Done)).
Proof.
  destruct (begin_group ex_track 200 (pl_publisher (foldl (@pub_step ex_order 3) pub_new ex_negotiation))) as [w|] eqn:Eb; [|by vm_compute in Eb].
  destruct (write_objects [mkObj 200 1 9 255 []] w) as [w'|] eqn:Ew; [|vm_compute in Eb; injection Eb as <-; by vm_compute in Ew].
  destruct (@published_group_arrives ring_broadcast ex_order 3 ex_negotiation ex_track 200 [mkObj 200 1 9 255 []] w w'
    [take 3 (gw_stream w'); drop 3 (gw_stream w')] (@hub_new ring_broadcast 4)) as [pubs E].
  - vm_compute. reflexivity.
  - vm_compute. repeat split; congruence.
  - repeat constructor; vm_compute; congruence.
  - exact Eb.
  - exact Ew.
  - cbn. rewrite app_nil_r. apply take_drop.
  - exists w, w', pubs. split; [vm_compute; reflexivity|]. split; [reflexivity|]. split; [exact Ew|]. exact E.
Defined.

(** ** The calls of a subscriber *)

Definition called (evs : list SubEv) : list Z := omap (λ ev, match ev with SeCall sid _ _ _ => Some sid | _ => None end) evs.

(** The control task got an answer to [sid]. *)
Definition answered (evs : list SubEv) (sid : Z) (r : list Z + unit) : Prop :=
  match r with
  | inr _ => SeControl (inr (Some (SubscribeOk sid))) ∈ evs
  | inl reason => ∃ code, SeControl (inr (Some (SubscribeError sid code reason))) ∈ evs
  end.

(** What holds of call [i] after the events [evs]. *)
Definition call_ok (evs : list SubEv) (s : SubscriberSt) (i : nat) (c : Call) : Prop :=
  match cl_phase c with
  | PhRoute | PhPending => cl_oneshot c = OsOpen ∧ su_pending s !! cl_sid c = None
  | PhSend | PhWait | PhSendFailed =>
      (cl_oneshot c = OsOpen ∧ su_pending s !! cl_sid c = Some i) ∨ (∃ r, cl_oneshot c = OsSent r ∧ answered evs (cl_sid c) r)
  | PhOk => cl_oneshot c = OsSent (inr tt) ∧ answered evs (cl_sid c) (inr tt)
  | PhRemove reason => cl_oneshot c = OsSent (inl reason) ∧ answered evs (cl_sid c) (inl reason)
  | PhRefused reason => cl_oneshot c = OsSent (inl reason) ∧ answered evs (cl_sid c) (inl reason) ∧ su_routes s !! cl_sid c = None
  | PhAborted => False
  end ∧
  match cl_phase c with
  | PhRoute => su_routes s !! cl_sid c = None
  | PhRefused _ => True
  | _ => SeUnroute (cl_sid c) ∉ evs → su_routes s !! cl_sid c = Some i
  end.

Record sub_inv (evs : list SubEv) (s : SubscriberSt) : Prop := {
  sv_sids : cl_sid <$> su_calls s = called evs;
  sv_calls : ∀ i c, su_calls s !! i = Some c → call_ok evs s i c;
  sv_pending : ∀ sid i, su_pending s !! sid = Some i → ∃ c, su_calls s !! i = Some c ∧ cl_sid c = sid ∧ cl_oneshot c = OsOpen;
  sv_routes : ∀ sid i, su_routes s !! sid = Some i → ∃ c, su_calls s !! i = Some c ∧ cl_sid c = sid
}.

Lemma call_unique evs s i j c d : sub_inv evs s → NoDup (called evs) → su_calls s !! i = Some c → su_calls s !! j = Some d → cl_sid c = cl_sid d → i = j.
Proof.
  intros H Hnd Hi Hj E. rewrite <-(sv_sids _ _ H) in Hnd. eapply NoDup_lookup; [done|..].
  - rewrite list_lookup_fmap, Hi. cbn. done.
  - rewrite list_lookup_fmap, Hj. cbn. by rewrite E.
Qed.

Lemma answered_more evs ev sid r : answered evs sid r → answered (evs ++ [ev]) sid r.
Proof. destruct r; cbn; [intros [code H]; exists code|intros H]; apply elem_of_app; by left. Qed.

(** A call that is not touched, when the tables keep its entries. *)
Lemma call_ok_mono evs ev s s' i c : call_ok evs s i c → su_pending s' !! cl_sid c = su_pending s !! cl_sid c →
  (su_routes s' !! cl_sid c = su_routes s !! cl_sid c ∨ (ev = SeUnroute (cl_sid c) ∧ su_routes s' !! cl_sid c = None)) →
  call_ok (evs ++ [ev]) s' i c.
Proof.
  intros [H1 H2] Hp Hr. split.
  - assert (su_routes s !! cl_sid c = None → su_routes s' !! cl_sid c = None) as Hn by (destruct Hr as [->|[_ ->]]; done).
    destruct (cl_phase c); rewrite ?Hp; try exact H1.
    all: first [destruct H1 as [?|(r & ? & ?)]; [by left|right; exists r; split; [done|by apply answered_more]]
               |destruct H1 as (? & ? & ?); split_and!; [done|by apply answered_more|by apply Hn]
               |destruct H1 as (? & ?); split; [done|by apply (answered_more _ _ _ _)]].
  - destruct Hr as [->|[-> E]].
    + destruct (cl_phase c); try done; intros Hn; apply H2; intros Hin; apply Hn, elem_of_app; by left.
    + destruct (cl_phase c); try done; intros Hn; exfalso; apply Hn, elem_of_app; right; by left.
Qed.

(** Call [i] is changed to [c'], the tables only at its subscription. *)
Lemma sub_inv_change evs ev s s' i c c' : sub_inv evs s → NoDup (called evs) → called (evs ++ [ev]) = called evs →
  su_calls s !! i = Some c → su_calls s' = <[i := c']> (su_calls s) → cl_sid c' = cl_sid c →
  (∀ sid, sid ≠ cl_sid c → su_pending s' !! sid = su_pending s !! sid ∧ su_routes s' !! sid = su_routes s !! sid) →
  call_ok (evs ++ [ev]) s' i c' →
  (∀ j, su_pending s' !! cl_sid c = Some j → j = i ∧ cl_oneshot c' = OsOpen) →
  (∀ j, su_routes s' !! cl_sid c = Some j → j = i) → sub_inv (evs ++ [ev]) s'.
Proof.
  intros H Hnd Hcal Hi Ec Hsid Hother Hok Hp Hr. pose proof (lookup_lt_Some _ _ _ Hi) as Hlt. constructor.
  - rewrite Ec, Hcal, <-(sv_sids _ _ H), list_fmap_insert, Hsid. apply list_insert_id. by rewrite list_lookup_fmap, Hi.
  - intros j d Hj. rewrite Ec in Hj. destruct (decide (i = j)) as [<-|Hne].
    + rewrite list_lookup_insert_eq in Hj by done. by simplify_eq.
    + rewrite list_lookup_insert_ne in Hj by done. destruct (Hother (cl_sid d)) as [Hp' Hr'].
      { intros E. apply Hne. symmetry. by eapply (call_unique evs s j i d c). }
      apply (call_ok_mono evs ev s); [by apply (sv_calls _ _ H)|done|by left].
  - intros sid j Hj. rewrite Ec. destruct (decide (sid = cl_sid c)) as [->|Hne].
    + destruct (Hp j Hj) as [-> Ho]. exists c'. rewrite list_lookup_insert_eq by done. done.
    + rewrite (proj1 (Hother sid Hne)) in Hj. destruct (sv_pending _ _ H sid j Hj) as (d & Hd & Hds & Hdo). exists d.
      rewrite list_lookup_insert_ne; [done|]. intros <-. simplify_eq.
  - intros sid j Hj. rewrite Ec. destruct (decide (sid = cl_sid c)) as [->|Hne].
    + rewrite (Hr j Hj). exists c'. by rewrite list_lookup_insert_eq by done.
    + rewrite (proj2 (Hother sid Hne)) in Hj. destruct (sv_routes _ _ H sid j Hj) as (d & Hd & Hds). exists d.
      rewrite list_lookup_insert_ne; [done|]. intros <-. simplify_eq.
Qed.

(** The tables change only where no call is concerned. *)
Lemma sub_inv_same evs ev s s' : sub_inv evs s → called (evs ++ [ev]) = called evs → su_calls s' = su_calls s → su_pending s' = su_pending s →
  (∀ sid, su_routes s' !! sid = su_routes s !! sid ∨ (ev = SeUnroute sid ∧ su_routes s' !! sid = None)) → sub_inv (evs ++ [ev]) s'.
Proof.
  intros H Hcal Ec Ep Hr. constructor.
  - by rewrite Ec, Hcal, (sv_sids _ _ H).
  - intros i c Hi. rewrite Ec in Hi. apply (call_ok_mono evs ev s); [by apply (sv_calls _ _ H)|by rewrite Ep|apply Hr].
  - rewrite Ec, Ep. apply (sv_pending _ _ H).
  - rewrite Ec. intros sid i Hi. destruct (Hr sid) as [E|[_ E]]; rewrite E in Hi; [|done]. by apply (sv_routes _ _ H).
Qed.

Lemma called_other evs ev : (∀ a b c d, ev ≠ SeCall a b c d) → called (evs ++ [ev]) = called evs.
Proof. intros Hn. unfold called. rewrite omap_app. destruct ev; cbn; rewrite ?app_nil_r; try done. by destruct (Hn sid track start prio). Qed.

Lemma alter_insert {A} (f : A → A) i x (l : list A) : l !! i = Some x → alter f i l = <[i := f x]> l.
Proof.
  intros Hi. apply list_eq. intros j. destruct (decide (i = j)) as [<-|].
  - rewrite list_lookup_alter_eq, list_lookup_insert_eq by (by apply lookup_lt_Some in Hi). by rewrite Hi.
  - by rewrite list_lookup_alter_ne, list_lookup_insert_ne by done.
Qed.

Lemma call_step_inv evs s i ok : sub_inv evs s → NoDup (called evs) → sub_inv (evs ++ [SeStep i ok]) (call_step i ok s).
Proof.
  intros H Hnd. assert (called (evs ++ [SeStep i ok]) = called evs) as Hcal by by apply called_other.
  assert (sub_inv (evs ++ [SeStep i ok]) s) as Hsame by (apply (sub_inv_same evs _ s); [done..|]; intros; by left).
  unfold call_step. destruct (su_calls s !! i) as [c|] eqn:Hi; [|done]. pose proof (sv_calls _ _ H i c Hi) as Hok. unfold call_ok in Hok.
  assert (∀ sid, su_pending s !! sid = Some i → sid = cl_sid c ∧ cl_oneshot c = OsOpen) as Hpi.
  { intros sid Hs. destruct (sv_pending _ _ H sid i Hs) as (d & Hd & <- & Hdo). by simplify_eq. }
  assert (∀ j, su_pending s !! cl_sid c = Some j → j = i) as Hpj.
  { intros j Hj. destruct (sv_pending _ _ H _ j Hj) as (d & Hd & Hds & _). by eapply (call_unique evs s j i d c). }
  assert (∀ j, su_routes s !! cl_sid c = Some j → j = i) as Hrj.
  { intros j Hj. destruct (sv_routes _ _ H _ j Hj) as (d & Hd & Hds). by eapply (call_unique evs s j i d c). }
  assert (∀ ph, with_phase ph c = mkCall (cl_sid c) (cl_track c) (cl_start c) (cl_prio c) ph (cl_oneshot c)) as Hph by done.
  destruct (cl_phase c) eqn:Epc; try done.
  - (* the route *)
    destruct Hok as [[Ho Hp] Hr]. eapply (sub_inv_change evs _ s _ i c (with_phase PhPending c)); try done.
    + cbn. by apply alter_insert.
    + intros sid Hne. cbn. by rewrite lookup_insert_ne by done.
    + split; cbn; [done|]. intros _. by rewrite lookup_insert_eq.
    + cbn. intros j Hj. congruence.
    + cbn. intros j. rewrite lookup_insert_eq. by intros [= <-].
  - (* the answer channel *)
    destruct Hok as [[Ho Hp] Hr]. rewrite Hp. eapply (sub_inv_change evs _ s _ i c (with_phase PhSend c)); try done.
    + cbn. by apply alter_insert.
    + intros sid Hne. cbn. by rewrite lookup_insert_ne by done.
    + split; cbn; [left; split; [done|by rewrite lookup_insert_eq]|]. intros Hn. apply Hr. intros Hin. apply Hn, elem_of_app. by left.
    + cbn. intros j. rewrite lookup_insert_eq. by intros [= <-].
  - (* the message *)
    destruct Hok as [Ho Hr]. assert (∀ ph s', su_calls s' = <[i := with_phase ph c]> (su_calls s) → su_pending s' = su_pending s → su_routes s' = su_routes s →
      ph = PhWait ∨ ph = PhSendFailed → sub_inv (evs ++ [SeStep i ok]) s') as Hgo.
    { intros ph s' E1 E2 E3 Hphs. eapply (sub_inv_change evs _ s _ i c (with_phase ph c)); try done.
      - intros sid Hne. by rewrite E2, E3.
      - assert (call_ok (evs ++ [SeStep i ok]) s' i c) as [K1 K2].
        { apply (call_ok_mono evs _ s); [by apply (sv_calls _ _ H)|by rewrite E2|left; by rewrite E3]. }
        rewrite Epc in K1, K2. by destruct Hphs as [->| ->].
      - rewrite E2. intros j Hj. pose proof (Hpj j Hj) as ->. split; [done|]. by apply (Hpi (cl_sid c)).
      - by rewrite E3. }
    destruct ok; eapply Hgo; try done; cbn; try (by apply alter_insert); by auto.
  - (* the answer *)
    destruct Hok as [Ho Hr]. assert (∀ ph, (match cl_oneshot c with OsSent (inr _) => ph = PhOk | OsSent (inl reason) => ph = PhRemove reason | _ => False end) →
      sub_inv (evs ++ [SeStep i ok]) (set_phase i ph s)) as Hgo.
    { intros ph Hph'. assert (∃ r, cl_oneshot c = OsSent r ∧ answered evs (cl_sid c) r) as (r & Er & Ha).
      { destruct Ho as [[Ho _]|Ho]; [by rewrite Ho in Hph'|done]. }
      rewrite Er in Hph'. eapply (sub_inv_change evs _ s _ i c (with_phase ph c)); try done.
      - cbn. by apply alter_insert.
      - assert (SeUnroute (cl_sid c) ∉ evs ++ [SeStep i ok] → su_routes s !! cl_sid c = Some i) as Hr'.
        { intros Hn. apply Hr. intros Hin. apply Hn, elem_of_app. by left. }
        apply (answered_more _ (SeStep i ok)) in Ha. destruct r as [reason|[]]; subst ph; split; cbn; rewrite ?Er; done.
      - cbn. intros j Hj. pose proof (Hpj j Hj) as ->. destruct (Hpi _ Hj) as [_ Hx]. congruence. }
    destruct (cl_oneshot c) as [|[reason|[]]|] eqn:Eo; [done|by apply Hgo|by apply Hgo|]. by destruct Ho as [[? _]|(r & ? & _)].
  - (* the route goes *)
    destruct Hok as [[Ho Ha] Hr]. eapply (sub_inv_change evs _ s _ i c (with_phase (PhRefused reason) c)); try done.
    + cbn. by apply alter_insert.
    + intros sid Hne. cbn. by rewrite lookup_delete_ne by done.
    + split; cbn; [|done]. split_and!; [done|by apply (answered_more _ _ _ (inl reason))|by rewrite lookup_delete_eq].
    + cbn. intros j Hj. pose proof (Hpj j Hj) as ->. destruct (Hpi _ Hj) as [_ Hx]. congruence.
    + cbn. intros j. by rewrite lookup_delete_eq.
Qed.

Lemma answer_inv evs s sid r ev : sub_inv evs s → NoDup (called evs) → called (evs ++ [ev]) = called evs → answered (evs ++ [ev]) sid r →
  sub_inv (evs ++ [ev]) (answer sid r s).
Proof.
  intros H Hnd Hcal Hans. unfold answer. destruct (su_pending s !! sid) as [i|] eqn:Hp.
  2:{ apply (sub_inv_same evs _ s); [done..|]. intros; by left. }
  destruct (sv_pending _ _ H sid i Hp) as (c & Hi & <- & Ho). eapply (sub_inv_change evs _ s _ i c (with_oneshot (OsSent r) c)); try done.
  - cbn. by apply alter_insert.
  - intros sid Hne. cbn. by rewrite lookup_delete_ne by done.
  - pose proof (sv_calls _ _ H i c Hi) as [K1 K2]. split; cbn.
    + destruct (cl_phase c); cbn; try (right; by exists r); try done; [by destruct K1 as [_ K1]; rewrite K1 in Hp..| | |]; destruct K1 as (K1 & _); congruence.
    + destruct (cl_phase c); try done; intros Hn; apply K2; intros Hin; apply Hn, elem_of_app; by left.
  - cbn. intros j. by rewrite lookup_delete_eq.
  - cbn. intros j Hj. destruct (sv_routes _ _ H _ j Hj) as (d & Hd & Hds). by eapply (call_unique evs s j i d c).
Qed.

Lemma subscriber_step_inv evs ev s : sub_inv evs s → NoDup (called (evs ++ [ev])) → sub_inv (evs ++ [ev]) (subscriber_step ev s).
Proof.
  intros H Hnd. assert (NoDup (called evs)) as Hnd' by (unfold called in *; rewrite omap_app in Hnd; by apply NoDup_app in Hnd as [? _]).
  destruct ev as [sid track start prio|i ok|r|sid|sid]; cbn [subscriber_step].
  - unfold called in Hnd. rewrite omap_app in Hnd. cbn in Hnd. apply NoDup_app in Hnd as (_ & Hnew & _).
    assert (∀ i c, su_calls s !! i = Some c → cl_sid c ≠ sid) as Hne.
    { intros i c Hi E. apply (Hnew sid); [|by left]. fold (called evs). rewrite <-(sv_sids _ _ H). apply list_elem_of_fmap. exists c. split; [done|]. by apply list_elem_of_lookup_2 in Hi. }
    assert (su_pending s !! sid = None ∧ su_routes s !! sid = None) as [Hp Hr].
    { split; [destruct (su_pending s !! sid) as [i|] eqn:E|destruct (su_routes s !! sid) as [i|] eqn:E]; try done.
      - destruct (sv_pending _ _ H _ _ E) as (c & Hc & Hs & _). by destruct (Hne i c).
      - destruct (sv_routes _ _ H _ _ E) as (c & Hc & Hs). by destruct (Hne i c). }
    constructor; cbn.
    + unfold called. rewrite fmap_app, omap_app. by rewrite (sv_sids _ _ H).
    + intros i c [Hi|[_ Hi]]%lookup_app_Some.
      * apply (call_ok_mono evs _ s); [by apply (sv_calls _ _ H)|done|by left].
      * apply list_lookup_singleton_Some in Hi as [_ <-]. done.
    + intros sid' i Hi. destruct (sv_pending _ _ H _ _ Hi) as (c & Hc & ? & ?). exists c. by rewrite (lookup_app_l_Some _ _ _ _ Hc).
    + intros sid' i Hi. destruct (sv_routes _ _ H _ _ Hi) as (c & Hc & ?). exists c. by rewrite (lookup_app_l_Some _ _ _ _ Hc).
  - by apply call_step_inv.
  - assert (called (evs ++ [SeControl r]) = called evs) as Hcal by by apply called_other.
    assert (∀ s', su_calls s' = su_calls s → su_pending s' = su_pending s → su_routes s' = su_routes s → sub_inv (evs ++ [SeControl r]) s') as Hsame.
    { intros s' E1 E2 E3. apply (sub_inv_same evs _ s); [done..|]. intros. left. by rewrite E3. }
    unfold subscriber_control. destruct (su_task s); [|by apply Hsame]. destruct r as [e|[[]|]]; try (by apply Hsame).
    + apply answer_inv; try done. cbn. apply elem_of_app. right. by left.
    + apply answer_inv; try done. cbn. eexists. apply elem_of_app. right. by left.
  - apply (sub_inv_same evs _ s); try done; [by apply called_other|]. intros sid'. cbn. destruct (decide (sid = sid')) as [<-|].
    + right. by rewrite lookup_delete_eq.
    + left. by rewrite lookup_delete_ne by done.
  - apply (sub_inv_same evs _ s); try done; [by apply called_other|]. intros; by left.
Qed.

Lemma called_app evs evs' : called (evs ++ evs') = called evs ++ called evs'.
Proof. apply omap_app. Qed.

Lemma subscriber_run_inv evs : NoDup (called evs) → sub_inv evs (subscriber_run evs subscriber_new).
Proof.
  induction evs as [|ev evs IH] using rev_ind; intros Hnd.
  { constructor; [done|..]; intros *; cbn; rewrite ?lookup_nil, ?lookup_empty; done. }
  unfold subscriber_run. rewrite foldl_app. cbn [foldl]. apply subscriber_step_inv; [|done]. apply IH.
  rewrite called_app in Hnd. by apply NoDup_app in Hnd as [? _].
Qed.

(** While subscription numbers are not used twice, in whatever order the calls,
    the control task and [unsubscribe] run: a call succeeds only when its own
    subscription was accepted, and then its objects are routed to it unless it
    was unsubscribed; it is refused only with the reason of its own answer,
    and leaves no route; none is aborted, and one without an answer is still
    waiting or could not be sent. *)
Theorem subscribe_outcomes evs i c : NoDup (called evs) → su_calls (subscriber_run evs subscriber_new) !! i = Some c →
  match cl_phase c with
  | PhOk => answered evs (cl_sid c) (inr tt) ∧
      (SeUnroute (cl_sid c) ∉ evs → su_routes (subscriber_run evs subscriber_new) !! cl_sid c = Some i)
  | PhRefused reason => answered evs (cl_sid c) (inl reason) ∧ su_routes (subscriber_run evs subscriber_new) !! cl_sid c = None
  | PhAborted => False
  | PhWait => cl_oneshot c = OsOpen ∨ ∃ r, answered evs (cl_sid c) r
  | _ => True
  end.
Proof.
  intros Hnd Hi. pose proof (sv_calls _ _ (subscriber_run_inv evs Hnd) i c Hi) as [H1 H2]. destruct (cl_phase c); try done.
  - destruct H1 as [[? _]|(r & _ & ?)]; [by left|right; by exists r].
  - by destruct H1.
  - by destruct H1 as (_ & ? & ?).
Qed.

(** Two calls cross, one is accepted and the other refused. *)
Definition ex_calls : list SubEv :=
  [SeCall 4 ex_track NextObject 0; SeCall 5 ex_track LatestGroup 1; SeStep 0 true; SeStep 1 true; SeStep 1 true; SeStep 0 true; SeStep 0 true; SeStep 1 true;
   SeControl (inr (Some (SubscribeError 5 1 [110]))); SeControl (inr (Some (SubscribeOk 4))); SeStep 0 true; SeStep 1 true; SeStep 1 true].

Lemma subscribe_outcomes_witness :
  cl_phase <$> su_calls (subscriber_run ex_calls subscriber_new) = [PhOk; PhRefused [110]] ∧
  ∃ c, su_calls (subscriber_run ex_calls subscriber_new) !! 0%nat = Some c ∧ cl_phase c = PhOk ∧
    (SeUnroute 4 ∉ ex_calls → su_routes (subscriber_run ex_calls subscriber_new) !! 4 = Some 0%nat).
Proof.
  split; [vm_compute; reflexivity|].
  destruct (su_calls (subscriber_run ex_calls subscriber_new) !! 0%nat) as [c|] eqn:E; [|by vm_compute in E].
  exists c. split; [reflexivity|]. assert (cl_phase c = PhOk ∧ cl_sid c = 4) as [Hp Hs] by (vm_compute in E; by injection E as <-).
  split; [exact Hp|]. pose proof (subscribe_outcomes ex_calls 0 c) as H. rewrite Hp, Hs in H. apply H; [|exact E].
  apply (bool_decide_unpack _). vm_compute. exact I.
Defined.

Lemma called_prefix evs evs' : NoDup (called (evs ++ evs')) → NoDup (called evs).
Proof. rewrite called_app. by intros [? _]%NoDup_app. Qed.

(** A step with the task gone leaves a waiting call as it is. *)
Lemma waiting_stays evs ev s i c : sub_inv evs s → NoDup (called evs) → su_task s = false → su_calls s !! i = Some c →
  cl_phase c = PhWait → cl_oneshot c = OsOpen →
  su_task (subscriber_step ev s) = false ∧ su_calls (subscriber_step ev s) !! i = Some c.
Proof.
  intros H Hnd Ht Hi Hp Ho. destruct ev as [sid track start prio|j ok|r|sid|sid]; cbn [subscriber_step]; try done.
  - split; [done|]. cbn. by apply lookup_app_l_Some.
  - unfold call_step. destruct (su_calls s !! j) as [d|] eqn:Hj; [|done]. destruct (decide (j = i)) as [->|Hne].
    { rewrite Hi in Hj. injection Hj as <-. by rewrite Hp, Ho. }
    pose proof (sv_calls _ _ H j d Hj) as [K1 _]. destruct (cl_phase d) eqn:Epd; try done.
    all: try (destruct K1 as [_ K1]; rewrite K1). all: try (destruct ok). all: try (destruct (cl_oneshot d) as [|[]|]).
    all: split; [done|]; cbn; try done; by rewrite list_lookup_alter_ne by done.
  - unfold subscriber_control. by rewrite Ht.
Qed.

(** Once the control task has ended (the relay said GOAWAY, or the control
    stream ended or failed), a call of [subscribe] that waits for its answer
    waits forever: its answer channel stays in the table of the subscriber, so
    the error meant for this case is never returned. *)
Theorem lost_control_hangs evs evs' i c : NoDup (called (evs ++ evs')) →
  let s := subscriber_run evs subscriber_new in
  su_task s = false → su_calls s !! i = Some c → cl_phase c = PhWait → cl_oneshot c = OsOpen →
  su_calls (subscriber_run evs' s) !! i = Some c.
Proof.
  intros Hnd s Ht Hi Hp Ho. enough (su_task (subscriber_run evs' s) = false ∧ su_calls (subscriber_run evs' s) !! i = Some c) as [_ ?] by done.
  induction evs' as [|ev evs' IH] using rev_ind; [done|]. rewrite app_assoc in Hnd. destruct IH as [Ht' Hi']; [by apply called_prefix in Hnd|].
  unfold subscriber_run. rewrite foldl_app. cbn [foldl]. apply (waiting_stays (evs ++ evs')); try done.
  - unfold s, subscriber_run. rewrite <-foldl_app. apply subscriber_run_inv. by apply called_prefix in Hnd.
  - by apply called_prefix in Hnd.
Qed.

Lemma lost_control_hangs_witness : ∃ c,
  su_calls (subscriber_run [SeCall 4 ex_track NextObject 0; SeStep 0 true; SeStep 0 true; SeStep 0 true; SeControl (inr (Some (Goaway [98])))] subscriber_new) !! 0%nat = Some c ∧
  su_calls (subscriber_run (replicate 20 (SeStep 0 true))
    (subscriber_run [SeCall 4 ex_track NextObject 0; SeStep 0 true; SeStep 0 true; SeStep 0 true; SeControl (inr (Some (Goaway [98])))] subscriber_new)) !! 0%nat = Some c.
Proof.
  destruct (su_calls (subscriber_run [SeCall 4 ex_track NextObject 0; SeStep 0 true; SeStep 0 true; SeStep 0 true; SeControl (inr (Some (Goaway [98])))] subscriber_new) !! 0%nat) as [c|] eqn:E; [|by vm_compute in E].
  exists c. split; [reflexivity|]. apply lost_control_hangs.
  - apply (bool_decide_unpack _). vm_compute. exact I.
  - reflexivity.
  - exact E.
  - vm_compute in E. by injection E as <-.
  - vm_compute in E. by injection E as <-.
Defined.

(** ** A subscriber and its relay *)

Section answered.
Context {BC : Broadcast}.
Variables (conn : Z) (send_ok : Z → bool).
Hypothesis conn_ok : send_ok conn = true.

(** The subscriber, what the relay keeps for it, how many of the subscriber's
    messages the relay has handled and how many of the relay's the
    subscriber. *)
Record Served := mkServed {
  sr_sub : SubscriberSt;
  sr_ctx : RelayCtx (BC := BC);
  sr_conn : ConnState (BC := BC);
  sr_taken : nat;
  sr_given : nat
}.

Inductive ServedEv :=
  | SvSub (ev : SubEv)
  | SvRelay
  | SvClient
  | SvAnnounce (ns : list Z).

(** A call or a step of the subscriber, the relay handles a message, the
    control task reads one, or another connection announces a namespace. *)
Definition served_step (ev : ServedEv) (s : Served) : option Served :=
  match ev with
  | SvSub ev => Some (mkServed (subscriber_step ev (sr_sub s)) (sr_ctx s) (sr_conn s) (sr_taken s) (sr_given s))
  | SvRelay =>
      match su_out (sr_sub s) !! sr_taken s with
      | Some m =>
          '(x, c, _) ← control_step send_ok m (sr_ctx s) (sr_conn s);
          Some (mkServed (sr_sub s) x c (S (sr_taken s)) (sr_given s))
      | None => Some s
      end
  | SvClient =>
      match messages_to conn (cx_neg (sr_ctx s)) !! sr_given s with
      | Some m => Some (mkServed (subscriber_step (SeControl (inr (Some m))) (sr_sub s)) (sr_ctx s) (sr_conn s) (sr_taken s) (S (sr_given s)))
      | None => Some s
      end
  | SvAnnounce ns =>
      Some (mkServed (sr_sub s) (mkCtx (announce_namespace ns (cx_hub (sr_ctx s))) (cx_neg (sr_ctx s))) (sr_conn s) (sr_taken s) (sr_given s))
  end.

Fixpoint served_run (evs : list ServedEv) (s : Served) : option Served :=
  match evs with
  | [] => Some s
  | ev :: evs' => s ← served_step ev s; served_run evs' s
  end.

Definition served_new (x : RelayCtx) : Served := mkServed subscriber_new x (mkConn conn ∅ ∅ 0) 0 0.

(** The events the subscriber chooses: its sends may fail; the control task
    reads only what the relay sent. *)
Definition own_event (ev : ServedEv) : Prop :=
  match ev with SvSub (SeControl _) => False | _ => True end.

(** The request of a subscription, and its answer. *)
Definition asks (sid : Z) (m : Message) : Prop := match m with Subscribe s _ _ _ _ => s = sid | _ => False end.
Definition tells (sid : Z) (m : Message) : Prop := match m with SubscribeOk s => s = sid | SubscribeError s _ _ => s = sid | _ => False end.

Definition request (m : Message) : Prop := match m with Subscribe _ _ _ _ _ => True | Unsubscribe _ => True | _ => False end.
Definition reply (m : Message) : Prop := match m with SubscribeOk _ => True | SubscribeError _ _ _ => True | Subscribe _ _ _ _ _ => True | _ => False end.

(** A waiting call without an answer has its request or its answer on the
    way. *)
Definition on_way (s : Served) : Prop :=
  ∀ i c, su_calls (sr_sub s) !! i = Some c → cl_phase c = PhWait → cl_oneshot c = OsOpen →
    Exists (asks (cl_sid c)) (drop (sr_taken s) (su_out (sr_sub s))) ∨
    Exists (tells (cl_sid c)) (drop (sr_given s) (messages_to conn (cx_neg (sr_ctx s)))).

(** Another call than [i] has the number [sid]. *)
Definition shared (sids : list Z) (i : nat) (sid : Z) : Prop := ∃ j, j ≠ i ∧ sids !! j = Some sid.

(** The relay's answer [r] to [sid] is among the messages [ms]. *)
Definition answer_in (ms : list Message) (sid : Z) (r : list Z + unit) : Prop :=
  match r with
  | inr _ => SubscribeOk sid ∈ ms
  | inl reason => ∃ code, SubscribeError sid code reason ∈ ms
  end.

(** The answer channel of call [i] and where the call stands, with the table
    of answer channels [pending] and the messages [ms] of the relay. *)
Definition channel_ok (pending : gmap Z nat) (sids : list Z) (ms : list Message) (i : nat) (c : Call) : Prop :=
  match cl_oneshot c with
  | OsOpen =>
      match cl_phase c with
      | PhRoute | PhPending => True
      | PhSend | PhWait | PhSendFailed => pending !! cl_sid c = Some i
      | _ => False
      end
  | OsSent r => answer_in ms (cl_sid c) r ∧
      match cl_phase c with
      | PhSend | PhWait | PhSendFailed => True
      | PhOk => r = inr tt
      | PhRemove reason | PhRefused reason => r = inl reason
      | _ => False
      end
  | OsDropped => shared sids i (cl_sid c) ∧
      match cl_phase c with PhSend | PhWait | PhSendFailed | PhAborted => True | _ => False end
  end.

(** A table entry is the open channel of a call that has passed its second
    step. *)
Definition entries_ok (pending : gmap Z nat) (calls : list Call) : Prop :=
  ∀ sid i, pending !! sid = Some i → ∃ c, calls !! i = Some c ∧ cl_sid c = sid ∧ cl_oneshot c = OsOpen ∧
    match cl_phase c with PhSend | PhWait | PhSendFailed => True | _ => False end.

Record chan_inv (ms : list Message) (s : SubscriberSt) : Prop := {
  ch_calls : ∀ i c, su_calls s !! i = Some c → channel_ok (su_pending s) (cl_sid <$> su_calls s) ms i c;
  ch_entries : entries_ok (su_pending s) (su_calls s)
}.

Record served_inv (evs : list ServedEv) (s : Served) : Prop := {
  si_chan : chan_inv (messages_to conn (cx_neg (sr_ctx s))) (sr_sub s);
  si_task : su_task (sr_sub s) = true;
  si_out : Forall request (su_out (sr_sub s));
  si_replies : Forall reply (messages_to conn (cx_neg (sr_ctx s)));
  si_hub : hub_inv (cx_hub (sr_ctx s));
  si_conn : cn_id (sr_conn s) = conn;
  si_failed : ∀ i c, su_calls (sr_sub s) !! i = Some c → cl_phase c = PhSendFailed → SvSub (SeStep i false) ∈ evs;
  si_counts : (sr_taken s ≤ length (su_out (sr_sub s)) ∧ sr_given s ≤ length (messages_to conn (cx_neg (sr_ctx s))))%nat;
  si_way : on_way s
}.

(** What the relay adds to the messages for this connection. *)
Lemma control_step_replies m x c : hub_inv (cx_hub x) → cn_id c = conn → request m →
  ∃ x' c' l, control_step send_ok m x c = Some (x', c', Continue) ∧ hub_inv (cx_hub x') ∧ cn_id c' = conn ∧
    messages_to conn (cx_neg x') = messages_to conn (cx_neg x) ++ l ∧ Forall reply l ∧
    ∀ sid, asks sid m → Exists (tells sid) l.
Proof.
  intros Hh Hc Hm. assert (∀ n m, messages_to conn (mkNeg (ng_publishers n) (ng_next_alias n) (ng_sent n ++ [(conn, m)])) = messages_to conn n ++ [m]) as Hlog.
  { intros n m0. unfold messages_to. cbn. rewrite omap_app. cbn. by rewrite Z.eqb_refl. }
  destruct m as [| | |sid al t st pr| | |sid| | |]; try done; cbn [control_step].
  - rewrite Hc, conn_ok. destruct (namespace_announced (tr_namespace t) (cx_hub x)); cbn [negb].
    + destruct (hub_subscribe_total t st (cx_hub x) Hh) as (h1 & sub & E). cbn [log_sent cx_hub cx_neg]. rewrite E. cbn [mbind option_bind].
      set (n1 := mkNeg _ _ _). assert (∃ l, messages_to conn (maybe_bind_upstream_alias send_ok t n1) = messages_to conn n1 ++ l ∧ Forall reply l) as (l & El & Hl).
      { unfold maybe_bind_upstream_alias. destruct (ng_publishers n1 !! t) as [reg|]; [|exists []; by rewrite app_nil_r].
        destruct (pr_alias reg); [exists []; by rewrite app_nil_r|]. destruct (send_ok (pr_control reg)); [|exists []; by rewrite app_nil_r].
        unfold messages_to. cbn [ng_sent]. rewrite omap_app. eexists. split; [done|]. cbn. destruct (pr_control reg =? conn); repeat constructor. }
      eexists _, _, (SubscribeOk sid :: l). split; [done|]. split; [by eapply hub_subscribe_inv|]. split; [done|]. cbn [cx_neg].
      rewrite El. unfold n1. rewrite Hlog, <-app_assoc. split; [done|]. split; [by constructor|]. intros s Hs. apply Exists_cons. left. by cbn in *.
    + eexists _, _, [SubscribeError sid ERR_NAMESPACE_NOT_FOUND (NOT_ANNOUNCED ++ tr_namespace t)]. split; [done|]. cbn [log_sent cx_neg cx_hub]. rewrite Hlog.
      split_and!; try done; [by constructor|]. intros s Hs. apply Exists_cons. left. by cbn in *.
  - destruct (cn_forwarders c !! sid); eexists _, _, []; rewrite app_nil_r; split_and!; try done; by constructor.
Qed.

Lemma Exists_more {A} (P : A → Prop) n (l l' : list A) : Exists P (drop n l) → Exists P (drop n (l ++ l')).
Proof. intros H. rewrite drop_app. apply Exists_app. by left. Qed.

Lemma Exists_last {A} (P : A → Prop) n (l : list A) x : (n ≤ length l)%nat → P x → Exists P (drop n (l ++ [x])).
Proof. intros Hn Hx. rewrite drop_app_le by done. apply Exists_app. right. by constructor. Qed.

(** *** What the steps do to the answer channels *)

Lemma shared_more sids sids' i sid : shared sids i sid → shared (sids ++ sids') i sid.
Proof. intros (j & Hj & E). exists j. split; [done|]. by apply lookup_app_l_Some. Qed.

Lemma answer_in_more ms l sid r : answer_in ms sid r → answer_in (ms ++ l) sid r.
Proof. destruct r as [reason|]; cbn; [intros [code ?]; exists code|]; rewrite elem_of_app; by left. Qed.

Lemma channel_ok_mono pending pending' sids sids' ms l i c :
  channel_ok pending sids ms i c → (pending !! cl_sid c = Some i → pending' !! cl_sid c = Some i) →
  channel_ok pending' (sids ++ sids') (ms ++ l) i c.
Proof.
  intros H Hp. unfold channel_ok in *. destruct (cl_oneshot c); [|destruct H; split; [by apply answer_in_more|done]|destruct H; split; [by apply shared_more|done]].
  destruct (cl_phase c); auto.
Qed.

Lemma channel_ok_same pending pending' sids ms i c :
  channel_ok pending sids ms i c → (pending !! cl_sid c = Some i → pending' !! cl_sid c = Some i) →
  channel_ok pending' sids ms i c.
Proof. intros H Hp. pose proof (channel_ok_mono _ pending' _ [] _ [] i c H Hp) as H'. by rewrite !app_nil_r in H'. Qed.

Lemma chan_inv_more ms l s : chan_inv ms s → chan_inv (ms ++ l) s.
Proof.
  intros [H1 H2]. constructor; [|done]. intros i c Hi.
  pose proof (channel_ok_mono _ (su_pending s) _ [] _ l i c (H1 i c Hi) id) as H'. by rewrite app_nil_r in H'.
Qed.

Lemma alter_sids (f : Call → Call) (i : nat) (l : list Call) : (∀ c, cl_sid (f c) = cl_sid c) → cl_sid <$> alter f i l = cl_sid <$> l.
Proof.
  intros Hf. apply list_eq. intros j. rewrite !list_lookup_fmap. destruct (decide (i = j)) as [<-|].
  - rewrite list_lookup_alter_eq. destruct (l !! i); cbn; [by rewrite Hf|done].
  - by rewrite list_lookup_alter_ne.
Qed.

(** A step of one call that leaves the table alone. *)
Lemma chan_inv_phase ms s s' i c ph :
  chan_inv ms s → su_calls s !! i = Some c → su_calls s' = su_calls s → su_pending s' = su_pending s →
  channel_ok (su_pending s) (cl_sid <$> su_calls s) ms i (with_phase ph c) →
  (cl_oneshot c = OsOpen → match cl_phase c with PhSend | PhWait | PhSendFailed => match ph with PhSend | PhWait | PhSendFailed => True | _ => False end | _ => True end) →
  chan_inv ms (set_phase i ph s').
Proof.
  intros [H1 H2] Hi Ec Ep Hok Hkeep. constructor; cbn; rewrite ?Ec, ?Ep.
  - rewrite alter_sids by done. intros j d Hj. destruct (decide (i = j)) as [<-|].
    + rewrite list_lookup_alter_eq, Hi in Hj. by injection Hj as <-.
    + rewrite list_lookup_alter_ne in Hj by done. by apply H1.
  - intros sid j Hj. destruct (H2 sid j Hj) as (d & Hd & Hs & Ho & Hph). destruct (decide (i = j)) as [<-|].
    + rewrite Hi in Hd. injection Hd as <-. exists (with_phase ph c). rewrite list_lookup_alter_eq, Hi. split_and!; try done. cbn.
      specialize (Hkeep Ho). by destruct (cl_phase c).
    + exists d. by rewrite list_lookup_alter_ne.
Qed.

(** The second step of a call: its channel replaces the one of an earlier
    call with the same number, which is dropped. *)
Lemma chan_inv_pending ms s i c :
  chan_inv ms s → su_calls s !! i = Some c → cl_phase c = PhPending → chan_inv ms (call_step i true s).
Proof.
  intros [H1 H2] Hi Hp. unfold call_step. rewrite Hi, Hp.
  assert (Ho : cl_oneshot c = OsOpen).
  { pose proof (H1 i c Hi) as K. unfold channel_ok in K. rewrite Hp in K. by destruct (cl_oneshot c) as [| |]; [|destruct K..]. }
  set (s1 := match su_pending s !! cl_sid c with Some j => drop_sender j s | None => s end).
  assert (Ep : su_pending s1 = su_pending s) by (subst s1; by case_match).
  assert (Es : cl_sid <$> su_calls s1 = cl_sid <$> su_calls s).
  { subst s1. case_match; [|done]. cbn. apply alter_sids. intros d. by destruct (cl_oneshot d). }
  assert (Hs1 : ∀ j d, su_calls s1 !! j = Some d →
    (su_pending s !! cl_sid c ≠ Some j ∧ su_calls s !! j = Some d) ∨
    (su_pending s !! cl_sid c = Some j ∧ j ≠ i ∧ cl_sid d = cl_sid c ∧ cl_oneshot d = OsDropped ∧
     match cl_phase d with PhSend | PhWait | PhSendFailed => True | _ => False end)).
  { subst s1. intros j d Hj. destruct (su_pending s !! cl_sid c) as [k|] eqn:Ek; [|by left].
    cbn in Hj. destruct (decide (k = j)) as [->|Hne]; [|rewrite list_lookup_alter_ne in Hj by done; left; split; [congruence|done]].
    right. destruct (H2 _ _ Ek) as (d0 & Hd0 & Hs0 & Ho0 & Hp0). rewrite list_lookup_alter_eq, Hd0 in Hj. cbn in Hj. rewrite Ho0 in Hj. injection Hj as <-.
    cbn. split; [done|]. split; [|done]. intros ->. rewrite Hi in Hd0. injection Hd0 as <-. by rewrite Hp in Hp0. }
  assert (Hi1 : su_calls s1 !! i = Some c).
  { subst s1. destruct (su_pending s !! cl_sid c) as [k|] eqn:Ek; [|done]. cbn.
    destruct (H2 _ _ Ek) as (d0 & Hd0 & _ & _ & Hp0). rewrite list_lookup_alter_ne; [done|]. intros ->. rewrite Hi in Hd0. injection Hd0 as <-. by rewrite Hp in Hp0. }
  constructor; cbn; rewrite Ep.
  - rewrite alter_sids, Es by done. intros j d Hj. destruct (decide (i = j)) as [<-|Hne].
    + rewrite list_lookup_alter_eq, Hi1 in Hj. injection Hj as <-. unfold channel_ok. cbn. rewrite Ho. apply lookup_insert_eq.
    + rewrite list_lookup_alter_ne in Hj by done. destruct (Hs1 j d Hj) as [[Hnp Hd]|(Hpj & _ & Hsd & Hod & Hpd)].
      * apply (channel_ok_same (su_pending s)); [by apply H1|]. intros Hj'. rewrite lookup_insert_ne; [done|]. intros Esid. rewrite <-Esid in Hj'. done.
      * unfold channel_ok. rewrite Hod. split; [|by destruct (cl_phase d)]. exists i. split; [done|]. by rewrite list_lookup_fmap, Hi, Hsd.
  - intros sid j Hj. destruct (decide (sid = cl_sid c)) as [->|Hne].
    + rewrite lookup_insert_eq in Hj. injection Hj as <-. exists (with_phase PhSend c). rewrite list_lookup_alter_eq, Hi1. done.
    + rewrite lookup_insert_ne in Hj by done. destruct (H2 sid j Hj) as (d & Hd & Hs & Hod & Hpd).
      assert (Hd1 : su_calls s1 !! j = Some d).
      { subst s1. destruct (su_pending s !! cl_sid c) as [k|] eqn:Ek; [|done]. cbn. rewrite list_lookup_alter_ne; [done|]. intros ->.
        destruct (H2 _ _ Ek) as (d0 & Hd0 & Hs0 & _). congruence. }
      exists d. rewrite list_lookup_alter_ne; [done|]. intros ->. congruence.
Qed.

Lemma call_step_chan ms s i ok : chan_inv ms s → chan_inv ms (call_step i ok s).
Proof.
  intros H. destruct (su_calls s !! i) as [c|] eqn:Hi; [|unfold call_step; by rewrite Hi].
  pose proof (ch_calls _ _ H i c Hi) as K. destruct (cl_phase c) eqn:Hp.
  2: { pose proof (chan_inv_pending ms s i c H Hi Hp) as H'. unfold call_step in *. rewrite Hi, Hp in *. done. }
  all: unfold call_step; rewrite Hi, Hp; unfold channel_ok in K; rewrite Hp in K; try done.
  - apply (chan_inv_phase ms s _ i c); try done; try (by rewrite Hp); unfold channel_ok; cbn; destruct (cl_oneshot c); try done; by destruct K.
  - destruct ok; (apply (chan_inv_phase ms s _ i c); try done; try (by rewrite Hp)); unfold channel_ok; cbn; by destruct (cl_oneshot c).
  - destruct (cl_oneshot c) as [|[reason|[]]|] eqn:Eo; try done;
      (apply (chan_inv_phase ms s _ i c); try done; try (by rewrite Eo)); unfold channel_ok; cbn; rewrite Eo; destruct K; split; done.
  - apply (chan_inv_phase ms s _ i c); try done; try (by rewrite Hp); unfold channel_ok; cbn; by destruct (cl_oneshot c).
Qed.

Lemma answer_chan ms s sid r : chan_inv ms s → answer_in ms sid r → chan_inv ms (answer sid r s).
Proof.
  intros [H1 H2] Ha. unfold answer. destruct (su_pending s !! sid) as [i|] eqn:Ep; [|done].
  destruct (H2 sid i Ep) as (c & Hi & Hs & Ho & Hph). constructor; cbn.
  - rewrite alter_sids by done. intros j d Hj. destruct (decide (i = j)) as [<-|Hne].
    + rewrite list_lookup_alter_eq, Hi in Hj. injection Hj as <-. unfold channel_ok. cbn. rewrite Hs. split; [done|]. by destruct (cl_phase c).
    + rewrite list_lookup_alter_ne in Hj by done. apply (channel_ok_same (su_pending s)); [by apply H1|].
      intros Hj'. rewrite lookup_delete_ne; [done|]. intros ->. congruence.
  - intros sid' j [Hne Hj]%lookup_delete_Some. destruct (H2 sid' j Hj) as (d & Hd & Hsd & ?). exists d.
    rewrite list_lookup_alter_ne; [done|]. intros ->. rewrite Hi in Hd. congruence.
Qed.

Lemma own_chan ms ev s : chan_inv ms s → own_event (SvSub ev) → chan_inv ms (subscriber_step ev s).
Proof.
  intros H Hown. destruct ev as [sid track start prio|i ok|r|sid|sid]; cbn [subscriber_step]; try done.
  - destruct H as [H1 H2]. constructor; cbn.
    + rewrite fmap_app. intros i c [Hi|[_ Hi]]%lookup_app_Some.
      * pose proof (channel_ok_mono _ (su_pending s) _ (cl_sid <$> [mkCall sid track start prio PhRoute OsOpen]) _ [] i c (H1 i c Hi) id) as H'. by rewrite app_nil_r in H'.
      * apply list_lookup_singleton_Some in Hi as [_ <-]. done.
    + intros sid' i Hi. destruct (H2 sid' i Hi) as (c & Hc & ?). exists c. split; [by apply lookup_app_l_Some|done].
  - by apply call_step_chan.
  - destruct H as [H1 H2]. by constructor.
  - destruct H as [H1 H2]. by constructor.
Qed.

(** What an event of the subscriber's own does to the messages and the
    waiting calls. *)
Definition own_effect (ev : SubEv) (s s' : SubscriberSt) : Prop :=
  su_task s' = su_task s ∧
  (∃ l, su_out s' = su_out s ++ l ∧ Forall request l) ∧
  (∀ i c, su_calls s' !! i = Some c → cl_phase c = PhSendFailed → (∃ d, su_calls s !! i = Some d ∧ cl_phase d = PhSendFailed) ∨ ev = SeStep i false) ∧
  (∀ i c, su_calls s' !! i = Some c → cl_phase c = PhWait → cl_oneshot c = OsOpen →
     su_calls s !! i = Some c ∨ ∃ m, su_out s' = su_out s ++ [m] ∧ asks (cl_sid c) m).

Lemma own_effect_same ev s s' : su_task s' = su_task s → su_out s' = su_out s → su_calls s' = su_calls s → own_effect ev s s'.
Proof. intros E1 E2 E3. unfold own_effect. rewrite E1, E2, E3. split_and!; [done|exists []; by rewrite app_nil_r|eauto|eauto]. Qed.

(** ... of one call, to a phase that is neither waiting nor failed. *)
Lemma own_effect_phase ev s s' j d ph :
  su_calls s !! j = Some d → su_task s' = su_task s → su_out s' = su_out s → ph ≠ PhWait → ph ≠ PhSendFailed →
  (∀ i c, i ≠ j → su_calls s' !! i = Some c → ∃ c0, su_calls s !! i = Some c0 ∧ cl_phase c = cl_phase c0 ∧ (cl_oneshot c = OsOpen → c = c0)) →
  own_effect ev s (set_phase j ph s').
Proof.
  intros Hj E1 E2 Hw Hf Hother. unfold own_effect. cbn. rewrite E1, E2. split_and!; [done|exists []; by rewrite app_nil_r|..].
  - intros i c Hi Hp. destruct (decide (i = j)) as [->|Hne].
    + rewrite list_lookup_alter_eq in Hi. destruct (su_calls s' !! j); [|done]. injection Hi as <-. done.
    + rewrite list_lookup_alter_ne in Hi by done. destruct (Hother i c Hne Hi) as (c0 & ? & ? & _). left. exists c0. split; [done|congruence].
  - intros i c Hi Hp Ho. destruct (decide (i = j)) as [->|Hne].
    + rewrite list_lookup_alter_eq in Hi. destruct (su_calls s' !! j); [|done]. injection Hi as <-. done.
    + rewrite list_lookup_alter_ne in Hi by done. destruct (Hother i c Hne Hi) as (c0 & ? & _ & ->); by auto.
Qed.

Lemma own_step ev s : own_event (SvSub ev) → own_effect ev s (subscriber_step ev s).
Proof.
  destruct ev as [sid track start prio|j ok|r|sid|sid]; cbn [own_event subscriber_step]; try done; intros _.
  - unfold own_effect. split_and!; [done|exists []; by rewrite app_nil_r|..].
    + intros i c [Hi|[_ Hi]]%lookup_app_Some Hp; [eauto|]. by apply list_lookup_singleton_Some in Hi as [_ <-].
    + intros i c [Hi|[_ Hi]]%lookup_app_Some Hp _; [by left|]. by apply list_lookup_singleton_Some in Hi as [_ <-].
  - unfold call_step. destruct (su_calls s !! j) as [d|] eqn:Hj; [|by apply own_effect_same].
    assert (Hsame : ∀ s', su_calls s' = su_calls s → ∀ i c, i ≠ j → su_calls s' !! i = Some c →
      ∃ c0, su_calls s !! i = Some c0 ∧ cl_phase c = cl_phase c0 ∧ (cl_oneshot c = OsOpen → c = c0)) by (intros s' -> i c _ ?; eauto).
    destruct (cl_phase d) eqn:Ep; try (by apply own_effect_same).
    + eapply own_effect_phase; try done. by apply Hsame.
    + eapply own_effect_phase; try done; try (by case_match). intros i c Hne. cbn. case_match; [|eauto]. cbn. intros Hi.
      destruct (decide (i = n)) as [->|]; [|rewrite list_lookup_alter_ne in Hi by done; eauto].
      rewrite list_lookup_alter_eq in Hi. destruct (su_calls s !! n) as [c0|] eqn:E0; [|done]. injection Hi as <-. exists c0. split; [done|].
      by destruct (cl_oneshot c0) eqn:E1; cbn; [|rewrite E1..].
    + unfold own_effect. destruct ok; cbn; (split_and!; [done|first [by exists []; rewrite app_nil_r|eexists; split; [done|by repeat constructor]]|..]);
        intros i c Hi Hp; (destruct (decide (j = i)) as [<-|]; [rewrite list_lookup_alter_eq, Hj in Hi; injection Hi as <-|rewrite list_lookup_alter_ne in Hi by done; by eauto]); try done; eauto. intros _. right. by eexists.
    + destruct (cl_oneshot d) as [|[]|]; try (by apply own_effect_same); eapply own_effect_phase; try done; by apply Hsame.
    + eapply own_effect_phase; try done. by apply Hsame.
  - by apply own_effect_same.
  - unfold own_effect. split_and!; [done|eexists; split; [done|by repeat constructor]|eauto|eauto].
Qed.

(** A message of the relay to the control task. *)
Lemma reply_step ms m s : chan_inv ms s → su_task s = true → reply m → m ∈ ms →
  let s' := subscriber_step (SeControl (inr (Some m))) s in
  chan_inv ms s' ∧ su_task s' = true ∧ su_out s' = su_out s ∧
  (∀ i c, su_calls s' !! i = Some c → ∃ d, su_calls s !! i = Some d ∧ cl_phase c = cl_phase d) ∧
  (∀ i c, su_calls s' !! i = Some c → cl_phase c = PhWait → cl_oneshot c = OsOpen → su_calls s !! i = Some c ∧ ¬ tells (cl_sid c) m).
Proof.
  intros H Ht Hm Hin. cbv zeta. cbn [subscriber_step]. unfold subscriber_control. rewrite Ht.
  assert (∀ sid r, answer_in ms sid r → (∀ sid', tells sid' m ↔ sid' = sid) →
    chan_inv ms (answer sid r s) ∧ su_task (answer sid r s) = true ∧ su_out (answer sid r s) = su_out s ∧
    (∀ i c, su_calls (answer sid r s) !! i = Some c → ∃ d, su_calls s !! i = Some d ∧ cl_phase c = cl_phase d) ∧
    (∀ i c, su_calls (answer sid r s) !! i = Some c → cl_phase c = PhWait → cl_oneshot c = OsOpen → su_calls s !! i = Some c ∧ ¬ tells (cl_sid c) m)) as Hgo.
  { intros sid r Ha Htell. split; [by apply answer_chan|].
    assert (Hopen : ∀ i c, su_calls s !! i = Some c → cl_phase c = PhWait → cl_oneshot c = OsOpen → su_pending s !! cl_sid c = Some i).
    { intros i c Hi Hp Ho. pose proof (ch_calls _ _ H i c Hi) as K. unfold channel_ok in K. by rewrite Ho, Hp in K. }
    unfold answer. destruct (su_pending s !! sid) as [j|] eqn:Ep.
    - cbn. split_and!; [done|done|..].
      + intros i c Hi. destruct (decide (j = i)) as [<-|]; [|rewrite list_lookup_alter_ne in Hi by done; eauto].
        rewrite list_lookup_alter_eq in Hi. destruct (su_calls s !! j) as [d|]; [|done]. injection Hi as <-. eauto.
      + intros i c Hi Hp Ho. destruct (decide (j = i)) as [<-|Hne].
        { rewrite list_lookup_alter_eq in Hi. destruct (su_calls s !! j) as [d|]; [|done]. injection Hi as <-. done. }
        rewrite list_lookup_alter_ne in Hi by done. split; [done|]. rewrite Htell. intros E.
        pose proof (Hopen i c Hi Hp Ho) as K. congruence.
    - split_and!; [done|done|eauto|]. intros i c Hi Hp Ho. split; [done|]. rewrite Htell. intros E.
      pose proof (Hopen i c Hi Hp Ho) as K. congruence. }
  destruct m; try done.
  - split_and!; eauto.
  - by apply Hgo.
  - apply Hgo; [by eexists|done].
Qed.

Lemma served_step_inv evs ev s : served_inv evs s → own_event ev →
  ∃ s', served_step ev s = Some s' ∧ served_inv (evs ++ [ev]) s'.
Proof.
  intros H Hown. pose proof (si_counts _ _ H) as [Hc1 Hc2].
  assert (Hfail : ∀ i c, su_calls (sr_sub s) !! i = Some c → cl_phase c = PhSendFailed → SvSub (SeStep i false) ∈ evs ++ [ev]).
  { intros i c Hi Hp. apply elem_of_app. left. by eapply (si_failed _ _ H). }
  assert (Hsame : served_inv (evs ++ [ev]) s) by (destruct H; by constructor).
  destruct ev as [ev| | |ns]; cbn [served_step].
  - destruct (own_step ev (sr_sub s) Hown) as (E1 & (l & E2 & Hl) & E3 & E4).
    eexists. split; [done|]. constructor; cbn; try apply H.
    + apply own_chan; [apply H|done].
    + rewrite E1. apply H.
    + rewrite E2. apply Forall_app. split; [apply H|done].
    + intros i c Hi Hp. destruct (E3 i c Hi Hp) as [(d & Hd & Hdp)| ->]; [by eapply Hfail|]. apply elem_of_app. right. by left.
    + rewrite E2, length_app. lia.
    + intros i c Hi Hp Ho. cbn. destruct (E4 i c Hi Hp Ho) as [Hold|(m & Em & Hm)].
      * destruct (si_way _ _ H i c Hold Hp Ho) as [?|?]; [left; rewrite E2; by apply Exists_more|by right].
      * left. rewrite Em. by apply Exists_last.
  - destruct (su_out (sr_sub s) !! sr_taken s) as [m|] eqn:Em; [|by exists s].
    assert (request m) as Hm by (pose proof (si_out _ _ H) as Hf; rewrite Forall_forall in Hf; apply Hf; by apply list_elem_of_lookup_2 in Em).
    destruct (control_step_replies m (sr_ctx s) (sr_conn s) (si_hub _ _ H) (si_conn _ _ H) Hm) as (x & c & l & E & Hh & Hcn & Hms & Hl & Hask).
    rewrite E. cbn [mbind option_bind]. eexists. split; [done|].
    assert (drop (sr_taken s) (su_out (sr_sub s)) = m :: drop (S (sr_taken s)) (su_out (sr_sub s))) as Hd by by apply drop_S.
    constructor; cbn; try apply H; try done.
    + rewrite Hms. apply chan_inv_more, H.
    + rewrite Hms. apply Forall_app. split; [apply H|done].
    + rewrite Hms, length_app. apply lookup_lt_Some in Em. lia.
    + intros i d Hi Hp Ho. cbn. rewrite Hms. destruct (si_way _ _ H i d Hi Hp Ho) as [Hw|Hw].
      * rewrite Hd in Hw. apply Exists_cons in Hw as [Hw|Hw]; [|by left]. right. rewrite drop_app_le by lia. apply Exists_app. right. by apply Hask.
      * right. by apply Exists_more.
  - destruct (messages_to conn (cx_neg (sr_ctx s)) !! sr_given s) as [m|] eqn:Em; [|by exists s].
    assert (reply m) as Hm by (pose proof (si_replies _ _ H) as Hf; rewrite Forall_forall in Hf; apply Hf; by apply list_elem_of_lookup_2 in Em).
    destruct (reply_step _ m (sr_sub s) (si_chan _ _ H) (si_task _ _ H) Hm) as (E0 & E1 & E2 & E3 & E4); [by apply list_elem_of_lookup_2 in Em|].
    eexists. split; [done|].
    assert (drop (sr_given s) (messages_to conn (cx_neg (sr_ctx s))) = m :: drop (S (sr_given s)) (messages_to conn (cx_neg (sr_ctx s)))) as Hd by by apply drop_S.
    constructor; cbn [sr_sub sr_ctx sr_conn sr_taken sr_given]; try apply H; try done.
    + rewrite E2. apply H.
    + intros i c Hi Hp. destruct (E3 i c Hi) as (d & Hdd & Hdp). apply (Hfail i d Hdd). congruence.
    + rewrite E2. apply lookup_lt_Some in Em. lia.
    + intros i c Hi Hp Ho. cbn [sr_sub sr_ctx sr_taken sr_given] in *. destruct (E4 i c Hi Hp Ho) as [Hold Hnt]. rewrite E2.
      destruct (si_way _ _ H i c Hold Hp Ho) as [?|Hw]; [by left|right]. rewrite Hd in Hw. by apply Exists_cons in Hw as [?|?].
  - eexists. split; [done|]. destruct Hsame. constructor; done.
Qed.

Lemma served_run_inv more : ∀ evs s, served_inv evs s → Forall own_event more →
  ∃ s', served_run more s = Some s' ∧ served_inv (evs ++ more) s'.
Proof.
  induction more as [|ev more IH]; intros evs s H Hown; [exists s; by rewrite app_nil_r|]. apply Forall_cons in Hown as [Ho Hown].
  destruct (served_step_inv evs ev s H Ho) as (s1 & E & H1). cbn [served_run]. rewrite E. cbn [mbind option_bind].
  destruct (IH _ s1 H1 Hown) as (s2 & E2 & H2). exists s2. split; [done|]. by rewrite <-app_assoc in H2.
Qed.

(** Nothing is on its way and no call can go on. *)
Definition settled (s : Served) : Prop :=
  length (su_out (sr_sub s)) = sr_taken s ∧ length (messages_to conn (cx_neg (sr_ctx s))) = sr_given s ∧
  ∀ i, subscriber_step (SeStep i true) (sr_sub s) = sr_sub s.

(** How call [i] has returned: accepted or refused by an answer of the relay
    to its number, or with the error of its own send, or aborted because
    another call took its number. *)
Definition returned (evs : list ServedEv) (s : Served) (i : nat) (c : Call) : Prop :=
  match cl_phase c with
  | PhOk => answer_in (messages_to conn (cx_neg (sr_ctx s))) (cl_sid c) (inr tt)
  | PhRefused reason => answer_in (messages_to conn (cx_neg (sr_ctx s))) (cl_sid c) (inl reason)
  | PhSendFailed => SvSub (SeStep i false) ∈ evs
  | PhAborted => shared (cl_sid <$> su_calls (sr_sub s)) i (cl_sid c)
  | _ => False
  end.

Lemma settled_done evs s i c : served_inv evs s → settled s → su_calls (sr_sub s) !! i = Some c → returned evs s i c.
Proof.
  intros H (Ht & Hg & Hst) Hi. specialize (Hst i). cbn [subscriber_step] in Hst. unfold call_step in Hst. rewrite Hi in Hst.
  pose proof (ch_calls _ _ (si_chan _ _ H) i c Hi) as K. unfold channel_ok in K. unfold returned.
  assert (∀ ph s', is_Some (su_calls s' !! i) → set_phase i ph s' = sr_sub s → cl_phase c = ph) as Hneq.
  { intros ph s' [d Hd] E. apply (f_equal (λ s, su_calls s !! i)) in E. cbn in E. rewrite list_lookup_alter_eq, Hd, Hi in E. cbn in E. injection E as E. by rewrite <-E. }
  assert (Hsome : is_Some (su_calls (sr_sub s) !! i)) by eauto.
  destruct (cl_phase c) eqn:Ep.
  - by apply Hneq in Hst.
  - apply Hneq in Hst; [done|]. cbn. destruct (su_pending (sr_sub s) !! cl_sid c) as [n|]; [|exact Hsome]. cbn.
    destruct (decide (n = i)) as [->|].
    + rewrite list_lookup_alter_eq, Hi. by eexists.
    + rewrite list_lookup_alter_ne by done. exact Hsome.
  - by apply Hneq in Hst.
  - destruct (cl_oneshot c) as [|[]|] eqn:Eo; try (by apply Hneq in Hst). exfalso.
    destruct (si_way _ _ H i c Hi Ep Eo) as [Hw|Hw]; rewrite drop_ge in Hw by lia; by inversion Hw.
  - by apply Hneq in Hst.
  - destruct (cl_oneshot c); [done|by destruct K as [K ->]|by destruct K].
  - destruct (cl_oneshot c); [done|by destruct K as [K ->]|by destruct K].
  - by apply (si_failed _ _ H i c).
  - destruct (cl_oneshot c); [done|by destruct K|by destruct K].
Qed.

End answered.

(** [C20] A subscriber and its relay over a control channel that keeps the order of
    messages and on which the relay's answers get through, with any
    interleaving of the calls, the control tasks of both and the announcements
    of others: nothing panics, and when no message is on its way and no call
    can go on, every call of [subscribe] has returned.  It is accepted or
    refused as the relay answered to its subscription number; or its own send
    failed; or it was aborted, which happens only when another call used the
    same number. *)
Theorem subscriptions_settle `{BC : Broadcast} conn send_ok x evs :
  send_ok conn = true → hub_inv (cx_hub x) → messages_to conn (cx_neg x) = [] → Forall own_event evs →
  ∃ s, served_run conn send_ok evs (served_new conn x) = Some s ∧
    (settled conn s → ∀ i c, su_calls (sr_sub s) !! i = Some c →
      match cl_phase c with
      | PhOk => SubscribeOk (cl_sid c) ∈ messages_to conn (cx_neg (sr_ctx s))
      | PhRefused reason => ∃ code, SubscribeError (cl_sid c) code reason ∈ messages_to conn (cx_neg (sr_ctx s))
      | PhSendFailed => SvSub (SeStep i false) ∈ evs
      | PhAborted => ∃ j d, j ≠ i ∧ su_calls (sr_sub s) !! j = Some d ∧ cl_sid d = cl_sid c
      | _ => False
      end).
Proof.
  intros Hok Hh Hm Hown. destruct (served_run_inv conn send_ok Hok evs [] (served_new conn x)) as (s & E & H); [|done|].
  - constructor; cbn; try done.
    + by rewrite Hm.
    + lia.
  - exists s. split; [done|]. intros Hs i c Hi. pose proof (settled_done conn evs s i c H Hs Hi) as Hr. unfold returned in Hr.
    destruct (cl_phase c); try done. destruct Hr as (j & Hj & Es). rewrite list_lookup_fmap in Es.
    destruct (su_calls (sr_sub s) !! j) as [d|] eqn:Ed; [|done]. exists j, d. split_and!; [done|done|]. by injection Es.
Qed.

(** Four calls: of the first two, which cross, one is refused; the third and
    the fourth have the same number, and the send of a fifth fails. *)
Definition ex_served : list ServedEv :=
  [SvSub (SeCall 4 (mkTrack [109] [118]) NextObject 0); SvSub (SeStep 0 true); SvSub (SeStep 0 true); SvSub (SeStep 0 true); SvRelay; SvAnnounce [108];
   SvSub (SeCall 5 ex_track LatestGroup 1); SvSub (SeStep 1 true); SvSub (SeStep 1 true); SvSub (SeStep 1 true); SvRelay; SvClient; SvClient;
   SvSub (SeStep 1 true); SvSub (SeStep 0 true); SvSub (SeStep 0 true);
   SvSub (SeCall 6 ex_track NextObject 0); SvSub (SeStep 2 true); SvSub (SeStep 2 true); SvSub (SeStep 2 true);
   SvSub (SeCall 6 ex_track NextObject 0); SvSub (SeStep 3 true); SvSub (SeStep 3 true); SvSub (SeStep 3 true); SvRelay; SvRelay; SvClient; SvClient;
   SvSub (SeStep 2 true); SvSub (SeStep 3 true);
   SvSub (SeCall 7 ex_track NextObject 0); SvSub (SeStep 4 true); SvSub (SeStep 4 true); SvSub (SeStep 4 false)].

Lemma subscriptions_settle_witness : ∃ s,
  served_run (BC := ring_broadcast) 9 (λ _, true) ex_served (served_new 9 ex_ctx) = Some s ∧
  (settled 9 s → ∀ i c, su_calls (sr_sub s) !! i = Some c → cl_phase c = PhAborted →
     ∃ j d, j ≠ i ∧ su_calls (sr_sub s) !! j = Some d ∧ cl_sid d = cl_sid c) ∧
  cl_phase <$> su_calls (sr_sub s) = [PhRefused (NOT_ANNOUNCED ++ [109]); PhOk; PhAborted; PhOk; PhSendFailed].
Proof.
  destruct (@subscriptions_settle ring_broadcast 9 (λ _, true) ex_ctx ex_served) as (s & E & Hs).
  - reflexivity.
  - split; [reflexivity|]. intros t st Hst. discriminate Hst.
  - reflexivity.
  - unfold ex_served. repeat constructor.
  - exists s. split; [exact E|]. split; [|vm_compute in E; by injection E as <-].
    intros Hset i c Hi Hp. specialize (Hs Hset i c Hi). by rewrite Hp in Hs.
Defined.
