(* ===== verification/MoqServer.v ===== *)
(** * Media relay: connections and shutdown

    Models the life of the server of [crates/moq-live/src/relay.rs]: the
    accept loop, a connection from its control channel over SETUP, its entry
    in the table of connections and its control loop to its removal, and the
    shutdown that announces itself to the connections in the table.

    Connections and the shutdown interleave at will; a step is what happens
    under one lock or up to one wait.  What the control channel returns and
    whether a send succeeds come with the step.  The GM-PQ handshake of the
    control channel is that of [MoqGmAccept]; here only its outcome counts. *)

From S2P Require Import Prelude Bytes MoqCodec MoqDropQueue MoqCache MoqHub MoqRelay.

Section server.
Context {BC : Broadcast}.

(** A connection: opening its control channel, before SETUP, before the
    answer, before its entry in the table, serving, waiting for its forwarders
    after the peer closed its half, before its removal, ended. *)
Inductive ConnPc :=
  | CnControl
  | CnSetup
  | CnAnswer (role : Role)
  | CnRegister (role : Role)
  | CnServing (c : ConnState (BC := BC))
  | CnDraining (c : ConnState (BC := BC))
  | CnLeaving (c : ConnState (BC := BC))
  | CnEnded.

(** [shutdown]: not begun, telling the connections, waiting, closing them,
    over.  The snapshot of the table is kept. *)
Inductive ShutPc :=
  | ShIdle
  | ShTelling (rest all : list Z)
  | ShWaiting (all : list Z)
  | ShClosing (rest : list Z)
  | ShDone.

(** What a connection sees of the shutdown, in order. *)
Inductive Notice :=
  | Told (i : Z)
  | ClosedConn (i : Z)
  | ClosedEndpoint.

Record ServerSt := mkServerSt {
  ss_ctx : RelayCtx (BC := BC);
  ss_conns : gmap Z ConnPc;
  ss_table : gset Z;
  ss_open : bool;
  ss_shut : ShutPc;
  ss_log : list Notice
}.

Definition server_start (x : RelayCtx) : ServerSt := mkServerSt x ∅ ∅ true ShIdle [].

Definition set_conn (i : Z) (pc : ConnPc) (s : ServerSt) : ServerSt :=
  mkServerSt (ss_ctx s) (<[i := pc]> (ss_conns s)) (ss_table s) (ss_open s) (ss_shut s) (ss_log s).
Definition set_ctx (x : RelayCtx) (s : ServerSt) : ServerSt :=
  mkServerSt x (ss_conns s) (ss_table s) (ss_open s) (ss_shut s) (ss_log s).
Definition set_table (t : gset Z) (s : ServerSt) : ServerSt :=
  mkServerSt (ss_ctx s) (ss_conns s) t (ss_open s) (ss_shut s) (ss_log s).
Definition set_shut (pc : ShutPc) (log : list Notice) (s : ServerSt) : ServerSt :=
  mkServerSt (ss_ctx s) (ss_conns s) (ss_table s) (ss_open s) pc (ss_log s ++ log).

Inductive ServerEv :=
  | SeAccept (i : Z)
  | SeControl (i : Z) (ok : bool)
  | SeSetup (i : Z) (r : IoError + option Message)
  | SeAnswer (i : Z) (ok : bool)
  | SeRegister (i : Z)
  | SeMessage (i : Z) (r : IoError + option Message) (send_ok : Z → bool)
  | SeDrain (i : Z) (finished : gset Z)
  | SeLeave (i : Z)
  | SeShutdown (snapshot : list Z)
  | SeTell (ok : bool)
  | SeSlept
  | SeClose.

(** [handle_connection], one step. *)
Definition conn_step (ev : ServerEv) (s : ServerSt) : option ServerSt :=
  match ev with
  | SeControl i ok =>
      match ss_conns s !! i with
      | Some CnControl => Some (set_conn i (if ok then CnSetup else CnEnded) s)
      | _ => None
      end
  | SeSetup i r =>
      match ss_conns s !! i with
      | Some CnSetup =>
          Some (set_conn i (match r with inl _ => CnEnded | inr m => match accept_setup m with inr role => CnAnswer role | inl _ => CnEnded end end) s)
      | _ => None
      end
  | SeAnswer i ok =>
      match ss_conns s !! i with
      | Some (CnAnswer role) => Some (set_conn i (if ok then CnRegister role else CnEnded) s)
      | _ => None
      end
  | SeRegister i =>
      match ss_conns s !! i with
      | Some (CnRegister _) => Some (set_conn i (CnServing (mkConn i ∅ ∅ 0)) (set_table ({[i]} ∪ ss_table s) s))
      | _ => None
      end
  | SeMessage i r send_ok =>
      match ss_conns s !! i with
      | Some (CnServing c) =>
          match r with
          | inl _ => Some (set_conn i (CnLeaving c) s)
          | inr None => Some (set_conn i (CnDraining c) s)
          | inr (Some m) =>
              '(x, c, e) ← control_step send_ok m (ss_ctx s) c;
              Some (set_conn i (match e with Continue => CnServing c | Draining => CnDraining c | _ => CnLeaving c end) (set_ctx x s))
          end
      | _ => None
      end
  | SeDrain i finished =>
      match ss_conns s !! i with
      | Some (CnDraining c) =>
          if bool_decide (cn_forwarders c = ∅) then Some (set_conn i (CnLeaving c) s)
          else Some (set_conn i (CnDraining (mkConn (cn_id c) (filter (λ e, e.2 ∉ finished) (cn_forwarders c)) (cn_tasks c) (cn_next_task c))) s)
      | _ => None
      end
  | SeLeave i =>
      match ss_conns s !! i with
      | Some (CnLeaving c) => Some (set_conn i CnEnded (set_table (ss_table s ∖ {[i]}) s))
      | _ => None
      end
  | _ => None
  end.

(** [shutdown], one step: the snapshot is the table in any order. *)
Definition shutdown_step (ev : ServerEv) (s : ServerSt) : option ServerSt :=
  match ev, ss_shut s with
  | SeShutdown l, ShIdle => if bool_decide (l ≡ₚ elements (ss_table s)) then Some (set_shut (ShTelling l l) [] s) else None
  | SeTell ok, ShTelling (i :: rest) all => Some (set_shut (ShTelling rest all) (if ok then [Told i] else []) s)
  | SeTell _, ShTelling [] all => Some (set_shut (ShWaiting all) [] s)
  | SeSlept, ShWaiting all => Some (set_shut (ShClosing all) [] s)
  | SeClose, ShClosing (i :: rest) => Some (set_shut (ShClosing rest) [ClosedConn i] s)
  | SeClose, ShClosing [] =>
      Some (mkServerSt (ss_ctx s) (ss_conns s) (ss_table s) false ShDone (ss_log s ++ [ClosedEndpoint]))
  | _, _ => None
  end.

(** A connection is accepted while the endpoint is open; its number is that of
    no connection before it. *)
Definition server_step (ev : ServerEv) (s : ServerSt) : option ServerSt :=
  match ev with
  | SeAccept i => if ss_open s && bool_decide (ss_conns s !! i = None) then Some (set_conn i CnControl s) else None
  | SeShutdown _ | SeTell _ | SeSlept | SeClose => shutdown_step ev s
  | _ => conn_step ev s
  end.

Fixpoint server_run (evs : list ServerEv) (s : ServerSt) : option ServerSt :=
  match evs with
  | [] => Some s
  | ev :: evs' => s ← server_step ev s; server_run evs' s
  end.

(** ** The table and the notices *)

Definition in_table (pc : ConnPc) : bool := match pc with CnServing _ | CnDraining _ | CnLeaving _ => true | _ => false end.

(** The notices a shutdown has given at its point, when no send fails. *)
Definition notices (pc : ShutPc) : list Notice → Prop := λ log,
  match pc with
  | ShIdle => log = []
  | ShTelling rest all => ∃ told, all = told ++ rest ∧ log = Told <$> told
  | ShWaiting all => log = Told <$> all
  | ShClosing rest => ∃ closed, log = (Told <$> closed ++ rest) ++ (ClosedConn <$> closed)
  | ShDone => ∃ all, log = (Told <$> all) ++ (ClosedConn <$> all) ++ [ClosedEndpoint]
  end.

Definition snapshot_of (pc : ShutPc) (log : list Notice) : list Z :=
  match pc with
  | ShIdle => []
  | ShTelling _ all | ShWaiting all => all
  | _ => omap (λ n, match n with Told i => Some i | _ => None end) log
  end.

Definition tells_all (ev : ServerEv) : Prop := match ev with SeTell ok => ok = true | _ => True end.

Record server_ok (s : ServerSt) : Prop := {
  so_table : ∀ i, i ∈ ss_table s ↔ ∃ pc, ss_conns s !! i = Some pc ∧ in_table pc = true;
  so_notices : notices (ss_shut s) (ss_log s);
  so_nodup : NoDup (snapshot_of (ss_shut s) (ss_log s));
  so_open : ss_open s = false → ss_shut s = ShDone
}.

(** A connection moves on without a change of the table. *)
Lemma ok_conn s i o pc : server_ok s → ss_conns s !! i = o → from_option in_table false o = in_table pc → server_ok (set_conn i pc s).
Proof.
  intros [H1 H2 H3 H4] Ei Et. split; cbn; try done. intros j. rewrite H1. destruct (decide (i = j)) as [<-|Hn].
  - rewrite lookup_insert_eq, Ei. destruct o as [pc0|]; cbn in Et; [|split; intros (p & ? & ?); simplify_eq; congruence]. split; intros (p & [= <-] & Hp); eexists; split; [done|congruence|done|congruence].
  - by rewrite lookup_insert_ne.
Qed.

Lemma ok_ctx s x : server_ok s → server_ok (set_ctx x s).
Proof. intros [H1 H2 H3 H4]. by split. Qed.

Lemma conn_step_ok ev s s' : server_ok s → conn_step ev s = Some s' → server_ok s'.
Proof.
  intros Hok H. destruct ev as [|i ok|i r|i ok|i|i r send_ok|i fin|i| | | |]; try done; cbn in H;
    destruct (ss_conns s !! i) as [pc|] eqn:Ei; try done; destruct pc as [| |role|role|c|c|c|]; try done.
  - simplify_eq. eapply ok_conn; [done..|]. by destruct ok.
  - simplify_eq. eapply ok_conn; [done..|]. by repeat case_match.
  - simplify_eq. eapply ok_conn; [done..|]. by destruct ok.
  - simplify_eq. destruct Hok as [H1 H2 H3 H4]. split; cbn; try done. intros j. rewrite elem_of_union, elem_of_singleton, H1.
    destruct (decide (i = j)) as [<-|Hn]; [rewrite lookup_insert_eq|rewrite lookup_insert_ne by done].
    + split; [|by left]. intros _. by eexists.
    + split; [intros [?|?]; [congruence|done]|by right].
  - destruct r as [e|[m|]]; [simplify_eq; by eapply ok_conn|..|simplify_eq; by eapply ok_conn].
    apply bind_Some in H as ([[x c'] e] & _ & [= <-]). eapply (ok_conn (set_ctx x s)); [by apply ok_ctx|done|]. by destruct e.
  - case_bool_decide; simplify_eq; by eapply ok_conn.
  - simplify_eq. destruct Hok as [H1 H2 H3 H4]. split; cbn; try done. intros j. rewrite elem_of_difference, elem_of_singleton, H1.
    destruct (decide (i = j)) as [<-|Hn]; [rewrite lookup_insert_eq|rewrite lookup_insert_ne by done].
    + split; [by intros [_ []]|]. by intros (pc & [= <-] & ?).
    + split; [by intros [? _]|intros ?; split; [done|congruence]].
Qed.

Lemma told_of l k : omap (λ n, match n with Told i => Some i | _ => None end) ((Told <$> l) ++ (ClosedConn <$> k)) = l.
Proof.
  rewrite omap_app. assert (E : omap (λ n, match n with Told i => Some i | _ => None end) (ClosedConn <$> k) = @nil Z) by by induction k.
  rewrite E, app_nil_r. clear E. induction l as [|x l IH]; [done|]. cbn. by rewrite IH.
Qed.

Lemma shutdown_step_ok ev s s' : server_ok s → tells_all ev → shutdown_step ev s = Some s' → server_ok s'.
Proof.
  intros [H1 H2 H3 H4] Ht H. unfold shutdown_step in H. destruct ev as [| | | | | | | |l|ok| |]; try done; destruct (ss_shut s) as [|[|i rest] all|all|[|i rest]|] eqn:Es; try done; cbn in H2, H3.
  - case_bool_decide as Hp; simplify_eq. split; cbn; [done| | |]; [exists []; by rewrite H2| |by intros ?%H4]. rewrite Hp. apply NoDup_elements.
  - simplify_eq. destruct H2 as (told & -> & E). rewrite app_nil_r in H3. split; cbn; [done|by rewrite E, !app_nil_r|by rewrite app_nil_r|by intros ?%H4].
  - simplify_eq. cbn in Ht. subst ok. destruct H2 as (told & -> & E). split; cbn; [done| |done|by intros ?%H4].
    exists (told ++ [i]). rewrite E, fmap_app, <-app_assoc. done.
  - simplify_eq. split; cbn; [done|exists []; by rewrite H2, !app_nil_r| |by intros ?%H4]. rewrite H2, app_nil_r.
    pose proof (told_of all []) as E. cbn in E. rewrite app_nil_r in E. by rewrite E.
  - simplify_eq. destruct H2 as (closed & E). split; cbn; [done| | |done].
    + exists closed. rewrite E, app_nil_r, <-app_assoc. done.
    + rewrite omap_app. cbn. by rewrite app_nil_r.
  - simplify_eq. destruct H2 as (closed & E). split; cbn; [done| | |by intros ?%H4].
    + exists (closed ++ [i]). rewrite E, !fmap_app, <-!app_assoc. done.
    + rewrite omap_app. cbn. by rewrite app_nil_r.
Qed.

Lemma server_step_ok ev s s' : server_ok s → tells_all ev → server_step ev s = Some s' → server_ok s'.
Proof.
  intros Hok Ht H. destruct ev; cbn [server_step] in H; try (by eapply conn_step_ok); try (by eapply shutdown_step_ok).
  destruct (ss_open s); [|done]. case_bool_decide as Hi; [|done]. cbn in H. simplify_eq. by eapply ok_conn.
Qed.

(** However connections and the shutdown interleave, the table holds
    exactly the connections that are being served; and if no send fails, the
    shutdown tells every connection that was in the table when it began, once,
    before it closes any, closes each of them once and the endpoint last. *)
Theorem shutdown_tells_served x evs s : Forall tells_all evs → server_run evs (server_start x) = Some s →
  (∀ i, i ∈ ss_table s ↔ ∃ pc, ss_conns s !! i = Some pc ∧ in_table pc = true) ∧ notices (ss_shut s) (ss_log s) ∧
  NoDup (snapshot_of (ss_shut s) (ss_log s)) ∧ (ss_open s = false → ss_shut s = ShDone).
Proof.
  assert (Hi : ∀ evs t, server_ok t → Forall tells_all evs → server_run evs t = Some s → server_ok s).
  { clear. intros evs. induction evs as [|ev evs IH]; cbn; intros t Ht Hf H; [by simplify_eq|].
    apply Forall_cons in Hf as [He Hf]. apply bind_Some in H as (t1 & E & H). eapply IH; [|done|done]. by eapply server_step_ok. }
  intros Hf H. apply Hi in H; [by destruct H| |done]. split; cbn; [|done|constructor|done].
  intros i. rewrite elem_of_empty, lookup_empty. split; [done|]. by intros (? & ? & _).
Qed.
End server.

(** ** Evaluation *)

(** A connection from SETUP to the table. *)
Definition ex_serve_conn (i : Z) : list ServerEv :=
  [SeAccept i; SeControl i true; SeSetup i (inr (Some (Setup PROTO_VERSION Publisher))); SeAnswer i true; SeRegister i].

(** Two connections are served, one of which leaves; the shutdown tells and
    closes the other; a third that comes while it waits is served and never
    told. *)
Definition ex_shutdown : list ServerEv :=
  ex_serve_conn 1 ++ ex_serve_conn 2 ++ [SeMessage 1 (inr (Some (Announce [108]))) (λ _, true); SeMessage 2 (inl InvalidData) (λ _, true); SeLeave 2;
    SeShutdown [1]; SeTell true; SeTell true] ++ ex_serve_conn 3 ++ [SeSlept; SeClose; SeClose].

Definition ex_notices (s : ServerSt (BC := ring_broadcast)) : list Notice * list Z * bool :=
  (ss_log s, elements (ss_table s), match ss_conns s !! 3 with Some (CnServing _) => true | _ => false end).

(** A connection that is accepted while the shutdown waits is served and
    cut off with the endpoint, without the notice that the shutdown gives to
    the others. *)
Theorem late_connection_untold :
  option_map ex_notices (server_run ex_shutdown (server_start ex_ctx)) = Some ([Told 1; ClosedConn 1; ClosedEndpoint], [3; 1], true).
Proof. vm_compute. reflexivity. Qed.

Lemma shutdown_tells_served_witness : ∃ s, server_run ex_shutdown (server_start ex_ctx) = Some s ∧
  notices (ss_shut s) (ss_log s) ∧ NoDup (snapshot_of (ss_shut s) (ss_log s)).
Proof.
  assert (H : bool_decide (is_Some (option_map ex_notices (server_run ex_shutdown (server_start ex_ctx)))) = true) by (vm_compute; reflexivity).
  destruct (server_run ex_shutdown (server_start ex_ctx)) as [s|] eqn:E; [|discriminate H].
  exists s. split; [reflexivity|].
  destruct (shutdown_tells_served ex_ctx ex_shutdown s) as (_ & H1 & H2 & _); [|exact E|by split].
  unfold ex_shutdown, ex_serve_conn. repeat constructor.
Defined.
