(* ===== verification/RustStr.v ===== *)
(** * Strings

    What the code uses of Rust's strings.  A string is the list of its code
    points; its length and its byte offsets are those of UTF-8.  Hexadecimal
    digits are read two bytes at a time with [from_str_radix], which panics on
    an offset within a character. *)

From Stdlib Require String Ascii.
From S2P Require Import Prelude Bytes.

Definition utf8_len (c : Z) : Z :=
  if c <? 0x80 then 1 else if c <? 0x800 then 2 else if c <? 0x10000 then 3 else 4.

Definition str_len (s : list Z) : Z := foldr (λ c n, utf8_len c + n) 0 s.

(** [char::is_whitespace] *)
Definition is_whitespace (c : Z) : bool :=
  (9 <=? c) && (c <=? 13) || (c =? 0x20) || (c =? 0x85) || (c =? 0xA0) || (c =? 0x1680) ||
  (0x2000 <=? c) && (c <=? 0x200A) || (c =? 0x2028) || (c =? 0x2029) || (c =? 0x202F) || (c =? 0x205F) || (c =? 0x3000).

Fixpoint drop_ws (s : list Z) : list Z :=
  match s with
  | [] => []
  | c :: s' => if is_whitespace c then drop_ws s' else s
  end.

Definition trim (s : list Z) : list Z := reverse (drop_ws (reverse (drop_ws s))).

(** Up to the next whitespace, and from there on. *)
Fixpoint span_word (s : list Z) : list Z * list Z :=
  match s with
  | [] => ([], [])
  | c :: s' => if is_whitespace c then ([], s) else let '(w, r) := span_word s' in (c :: w, r)
  end.

(** [next] of [split_whitespace]: a word and the rest, if there is a word. *)
Definition next_word (s : list Z) : option (list Z * list Z) :=
  match drop_ws s with
  | [] => None
  | s' => Some (span_word s')
  end.

(** [lines]: a line ends with a line feed, or a carriage return and a line
    feed; what follows the last one is a line unless it is empty. *)
Definition strip_cr (l : list Z) : list Z :=
  match reverse l with
  | 13 :: r => reverse r
  | _ => l
  end.

Fixpoint lines_from (acc s : list Z) : list (list Z) :=
  match s with
  | [] => match acc with [] => [] | _ => [reverse acc] end
  | c :: s' => if c =? 10 then strip_cr (reverse acc) :: lines_from [] s' else lines_from (c :: acc) s'
  end.

Definition lines (s : list Z) : list (list Z) := lines_from [] s.

(** The string up to byte [n] and the rest; [None] if [n] is not on the
    boundary of a character. *)
Fixpoint split_bytes (n : Z) (s : list Z) : option (list Z * list Z) :=
  if n =? 0 then Some ([], s) else
  match s with
  | [] => None
  | c :: s' => if n <? utf8_len c then None else '(a, b) ← split_bytes (n - utf8_len c) s'; Some (c :: a, b)
  end.

Definition hex_digit (c : Z) : option Z :=
  if (48 <=? c) && (c <=? 57) then Some (c - 48) else
  if (97 <=? c) && (c <=? 102) then Some (c - 87) else
  if (65 <=? c) && (c <=? 70) then Some (c - 55) else None.

Fixpoint hex_value (acc : Z) (s : list Z) : option Z :=
  match s with
  | [] => Some acc
  | c :: s' => d ← hex_digit c; if u8_max <? acc * 16 + d then None else hex_value (acc * 16 + d) s'
  end.

(** [u8::from_str_radix(s, 16)], an error as [None]: a plus sign may come
    before the digits. *)
Definition from_str_radix16 (s : list Z) : option Z :=
  match s with
  | [] => None
  | [43] => None
  | 43 :: digits => hex_value 0 digits
  | _ => hex_value 0 s
  end.

(** A loop over [n] pairs of digits, two bytes at a time: [None] is the panic of a
    slice within a character, [Some None] an invalid digit. *)
Fixpoint hex_loop (n : nat) (s : list Z) : option (option (list Z)) :=
  match n with
  | O => Some (Some [])
  | S n' =>
      '(two, rest) ← split_bytes 2 s;
      match from_str_radix16 two with
      | None => Some None
      | Some b => r ← hex_loop n' rest; Some ((b ::.) <$> r)
      end
  end.

(** ** Printing *)

Definition hex_char (d : Z) : Z := if d <? 10 then 48 + d else 87 + d.
Definition print_hex (fp : list Z) : list Z := concat (map (λ b, [hex_char (b / 16); hex_char (b mod 16)]) fp).

(** The decimal digits of an unsigned number. *)
Fixpoint decimal (fuel : nat) (n : Z) : list Z :=
  match fuel with
  | O => []
  | S f => if n <? 10 then [48 + n] else decimal f (n / 10) ++ [48 + n mod 10]
  end.

(** Twenty digits are enough for 64 bits. *)
Definition dec_u64 (n : Z) : list Z := decimal 20 n.

(** The code points of an ASCII literal. *)
Fixpoint chars (s : String.string) : list Z :=
  match s with
  | String.EmptyString => []
  | String.String a s' => Z.of_N (Ascii.N_of_ascii a) :: chars s'
  end.

Definition word (s : list Z) : Prop := s ≠ [] ∧ Forall (λ c, is_whitespace c = false) s.

(** ** Words and lines *)

Lemma drop_ws_word s r : word s → drop_ws (s ++ r) = s ++ r.
Proof. intros [Hn Hw]. destruct s as [|c s]; [done|]. apply Forall_cons in Hw as [Hc _]. cbn. by rewrite Hc. Qed.

Lemma span_word_app s r : Forall (λ c, is_whitespace c = false) s →
  (match r with [] => True | c :: _ => is_whitespace c = true end) → span_word (s ++ r) = (s, r).
Proof.
  intros Hs Hr. induction Hs as [|c s Hc _ IH]; cbn.
  - destruct r as [|c r]; [done|]. cbn. by rewrite Hr.
  - by rewrite Hc, IH.
Qed.

Lemma next_word_app s r : word s → (match r with [] => True | c :: _ => is_whitespace c = true end) →
  next_word (s ++ r) = Some (s, r).
Proof.
  intros Hw Hr. unfold next_word. rewrite drop_ws_word by done. destruct Hw as [Hn Hw].
  destruct s as [|c s]; [done|]. rewrite <-span_word_app by done. done.
Qed.

Lemma word_reverse s : word s → word (reverse s).
Proof.
  intros [Hn Hw]. split; [|by apply Forall_reverse]. intros E. apply (f_equal reverse) in E.
  by rewrite reverse_involutive in E.
Qed.

(** A line that starts and ends with a word is not trimmed. *)
Lemma trim_words a m b : word a → word b → trim (a ++ m ++ b) = a ++ m ++ b.
Proof.
  intros Ha Hb. unfold trim. rewrite drop_ws_word by done. rewrite !reverse_app, <-app_assoc.
  rewrite drop_ws_word by by apply word_reverse. by rewrite !reverse_app, !reverse_involutive, app_assoc.
Qed.

Lemma drop_ws_last c s : is_whitespace c = false → ∃ s', drop_ws (s ++ [c]) = s' ++ [c].
Proof.
  intros Hc. induction s as [|x s [s' IH]]; cbn.
  - rewrite Hc. by exists [].
  - destruct (is_whitespace x); [by exists s'|by exists (x :: s)].
Qed.

Lemma trim_head c s : is_whitespace c = false → ∃ s', trim (c :: s) = c :: s'.
Proof.
  intros Hc. unfold trim. cbn [drop_ws]. rewrite Hc, reverse_cons. destruct (drop_ws_last c (reverse s) Hc) as [s' ->].
  exists (reverse s'). by rewrite reverse_app.
Qed.

Lemma strip_cr_cons c s : c ≠ 13 → ∃ s', strip_cr (c :: s) = c :: s'.
Proof.
  intros Hc. unfold strip_cr. rewrite reverse_cons. destruct (reverse s) as [|x r] eqn:E; cbn.
  - exists s. repeat (case_match; try done).
  - exists (match x with 13 => reverse r | _ => s end). repeat case_match; try done. by rewrite reverse_app.
Qed.

Lemma strip_cr_last s c : c ≠ 13 → strip_cr (s ++ [c]) = s ++ [c].
Proof. intros Hc. unfold strip_cr. rewrite reverse_snoc. repeat case_match; done. Qed.

Lemma lines_from_line acc body s : 10 ∉ body →
  lines_from acc (body ++ 10 :: s) = strip_cr (reverse acc ++ body) :: lines_from [] s.
Proof.
  revert acc. induction body as [|c body IH]; intros acc Hb; cbn.
  - by rewrite app_nil_r.
  - apply not_elem_of_cons in Hb as [Hc Hb]. rewrite (proj2 (Z.eqb_neq c 10)) by done. rewrite IH by done.
    by rewrite reverse_cons, <-app_assoc.
Qed.

(** ** Hexadecimal *)

Lemma hex_char_facts d : 0 ≤ d < 16 →
  hex_digit (hex_char d) = Some d ∧ hex_char d ≠ 43 ∧ hex_char d ≠ 13 ∧ hex_char d ≠ 10 ∧
  utf8_len (hex_char d) = 1 ∧ is_whitespace (hex_char d) = false.
Proof.
  intros Hd. assert (∃ n, (n < 16)%nat ∧ d = Z.of_nat n) as (n & Hn & ->) by (exists (Z.to_nat d); lia).
  do 16 (destruct n as [|n]; [by vm_compute|]). lia.
Qed.

Lemma nibbles b : is_byte b → 0 ≤ b / 16 < 16 ∧ 0 ≤ b mod 16 < 16 ∧ b / 16 * 16 + b mod 16 = b.
Proof.
  unfold is_byte, is_u8, u8_max. intros Hb. pose proof (Z.div_mod b 16). pose proof (Z.mod_pos_bound b 16).
  pose proof (Z.div_pos b 16). pose proof (Z.div_lt_upper_bound b 16 16). lia.
Qed.

Lemma print_hex_cons b fp : print_hex (b :: fp) = hex_char (b / 16) :: hex_char (b mod 16) :: print_hex fp.
Proof. done. Qed.

Lemma split_two a b s : utf8_len a = 1 → utf8_len b = 1 → split_bytes 2 (a :: b :: s) = Some ([a; b], s).
Proof.
  intros Ha Hb. cbn [split_bytes]. rewrite Ha. change (2 - 1) with 1. change (2 =? 0) with false. change (2 <? 1) with false.
  cbv iota. rewrite Hb. change (1 =? 0) with false. change (1 <? 1) with false. cbv iota. change (1 - 1) with 0.
  by destruct s.
Qed.

Lemma hex_loop_print fp : Forall is_byte fp → hex_loop (length fp) (print_hex fp) = Some (Some fp).
Proof.
  induction 1 as [|b fp Hb _ IH]; [done|]. rewrite print_hex_cons. cbn [length hex_loop].
  destruct (nibbles b Hb) as (H1 & H2 & H3).
  destruct (hex_char_facts _ H1) as (Ha & Ha' & _ & _ & Hla & _), (hex_char_facts _ H2) as (Hc & _ & _ & _ & Hlc & _).
  rewrite split_two by done. cbn [mbind option_bind].
  assert (from_str_radix16 [hex_char (b / 16); hex_char (b mod 16)] = Some b) as ->.
  { transitivity (hex_value 0 [hex_char (b / 16); hex_char (b mod 16)]).
    - unfold from_str_radix16. repeat case_match; simplify_eq; done.
    - cbn [hex_value]. rewrite Ha, Hc. cbn [mbind option_bind]. unfold u8_max, is_byte, is_u8, u8_max in *.
      rewrite !(proj2 (Z.ltb_ge _ _)) by lia. f_equal. lia. }
  rewrite IH. done.
Qed.

Lemma print_hex_facts fp : Forall is_byte fp →
  Forall (λ c, is_whitespace c = false) (print_hex fp) ∧ 10 ∉ print_hex fp ∧ str_len (print_hex fp) = 2 * zlen fp ∧
  (fp ≠ [] → ∃ s c, print_hex fp = s ++ [c] ∧ c ≠ 13).
Proof.
  induction 1 as [|b fp Hb _ (IH1 & IH2 & IH3 & IH4)].
  { split_and!; [constructor|apply not_elem_of_nil|done|done]. }
  rewrite print_hex_cons. destruct (nibbles b Hb) as (H1 & H2 & _).
  destruct (hex_char_facts _ H1) as (_ & _ & ? & ? & Hla & ?), (hex_char_facts _ H2) as (_ & _ & Hc & ? & Hlc & ?). split_and!.
  - by repeat constructor.
  - rewrite !not_elem_of_cons. by split_and!.
  - cbn [str_len foldr]. fold (str_len (print_hex fp)). rewrite IH3, zlen_cons. lia.
  - intros _. destruct fp as [|b' fp]; [by exists [hex_char (b / 16)], (hex_char (b mod 16))|].
    destruct IH4 as (s & c & -> & Hc'); [done|]. by exists (hex_char (b / 16) :: hex_char (b mod 16) :: s), c.
Qed.

Lemma word_no_lf s : word s → 10 ∉ s.
Proof. intros [_ Hw] Hin. rewrite Forall_forall in Hw. by specialize (Hw _ Hin). Qed.

Lemma hex_word fp : Forall is_byte fp → zlen fp = 32 → word (print_hex fp).
Proof.
  intros Hb Hl. split; [|by apply print_hex_facts]. destruct fp as [|b fp]; [done|]. by rewrite print_hex_cons.
Qed.
