(* ===== verification/XdpMetrics.v ===== *)
(** * XDP edge: the metrics text

    Models [crates/xdp-edge/src/metrics.rs]: the text of the counters for the
    scraper, with the printing of floating point numbers to a fixed number of
    digits, which rounds the exact value to the nearest and a tie to the even
    digit. *)

From Stdlib Require Import SpecFloat.
From stdpp Require Import strings.
From S2P Require Import Prelude Bytes F64 RustStr Simulator.

(** The nearest integer to [q / p], a tie to the even one. *)
Definition round_even (q p : Z) : Z :=
  let n := q / p in
  match Z.compare (2 * (q mod p)) p with
  | Lt => n
  | Gt => n + 1
  | Eq => if Z.even n then n else n + 1
  end.

(** [10 ^ d] times the value of a number, as an integer. *)
Definition scaled (d : nat) (m e : Z) : Z :=
  if 0 <=? e then m * 10 ^ Z.of_nat d * 2 ^ e else round_even (m * 10 ^ Z.of_nat d) (2 ^ (- e)).

(** [d] digits with leading zeros. *)
Fixpoint padded (d : nat) (n : Z) : list Z :=
  match d with
  | O => []
  | S d' => padded d' (n / 10) ++ [48 + n mod 10]
  end.

(** All digits of a number: as many as it has binary digits are enough. *)
Definition digits_of (n : Z) : list Z := decimal (S (Z.to_nat (Z.log2 n))) n.

Definition fixed_int (d : nat) (n : Z) : list Z := digits_of (n / 10 ^ Z.of_nat d) ++ chars "." ++ padded d (n mod 10 ^ Z.of_nat d).

(** [format!("{:.d}", x)] *)
Definition fixed (d : nat) (x : f64) : list Z :=
  let sign (s : bool) := if s then chars "-" else [] in
  match x with
  | S754_zero s => sign s ++ fixed_int d 0
  | S754_infinity s => sign s ++ chars "inf"
  | S754_nan => chars "NaN"
  | S754_finite s m e => sign s ++ fixed_int d (scaled d (Zpos m) e)
  end.

(** [writeln!] of a comment and of a sample. *)
Definition help (name text : string) : list Z := chars "# HELP " ++ chars name ++ chars " " ++ chars text ++ [10].
Definition type_of (name kind : string) : list Z := chars "# TYPE " ++ chars name ++ chars " " ++ chars kind ++ [10].
Definition sample (name value : list Z) : list Z := name ++ chars " " ++ value ++ [10].
Definition labelled (name key value : string) : list Z := chars name ++ chars "{" ++ chars key ++ chars "=" ++ [34] ++ chars value ++ [34] ++ chars "}".

Definition pps_of (window_packets : Z) (window_secs : f64) : f64 :=
  if f_ltb (f_of_Z 0) window_secs then f_div (f_of_Z window_packets) window_secs else f_of_Z 0.

Definition hit_ratio_of (hits lookups : Z) : f64 :=
  if 0 <? lookups then f_div (f_of_Z hits) (f_of_Z lookups) else f_of_Z 0.

(** [None] is the overflow of the sum of the lookups. *)
Definition render_metrics (stats : SimStats) (conntrack_entries evictions window_packets : Z) (window_secs : f64)
    (backends_alive lut_version : Z) : option (list Z) :=
  let pps := pps_of window_packets window_secs in
  lookups ← add_chk u64_max (conn_hits stats) (conn_misses stats);
  let hit_ratio := hit_ratio_of (conn_hits stats) lookups in
  Some (
    help "xdp_edge_packets_total" "Packets processed by XDP pipeline, by action." ++
    type_of "xdp_edge_packets_total" "counter" ++
    sample (labelled "xdp_edge_packets_total" "action" "forward") (dec_u64 (forwarded stats)) ++
    sample (labelled "xdp_edge_packets_total" "action" "drop_ratelimit") (dec_u64 (dropped_rate stats)) ++
    sample (labelled "xdp_edge_packets_total" "action" "drop_synflood") (dec_u64 (dropped_synflood stats)) ++
    sample (labelled "xdp_edge_packets_total" "action" "pass") (dec_u64 (passed stats)) ++
    help "xdp_edge_conntrack_lookups_total" "Conntrack lookups, by result." ++
    type_of "xdp_edge_conntrack_lookups_total" "counter" ++
    sample (labelled "xdp_edge_conntrack_lookups_total" "result" "hit") (dec_u64 (conn_hits stats)) ++
    sample (labelled "xdp_edge_conntrack_lookups_total" "result" "miss") (dec_u64 (conn_misses stats)) ++
    help "xdp_edge_conntrack_hit_ratio" "Conntrack hit ratio (0-1)." ++
    type_of "xdp_edge_conntrack_hit_ratio" "gauge" ++
    sample (chars "xdp_edge_conntrack_hit_ratio") (fixed 6 hit_ratio) ++
    help "xdp_edge_conntrack_entries" "Current conntrack entries." ++
    type_of "xdp_edge_conntrack_entries" "gauge" ++
    sample (chars "xdp_edge_conntrack_entries") (dec_u64 conntrack_entries) ++
    help "xdp_edge_conntrack_evictions_total" "LRU evictions from conntrack." ++
    type_of "xdp_edge_conntrack_evictions_total" "counter" ++
    sample (chars "xdp_edge_conntrack_evictions_total") (dec_u64 evictions) ++
    help "xdp_edge_pps" "Packet throughput in the sampling window." ++
    type_of "xdp_edge_pps" "gauge" ++
    sample (chars "xdp_edge_pps") (fixed 1 pps) ++
    help "xdp_edge_backends_alive" "Backends currently in the Maglev set." ++
    type_of "xdp_edge_backends_alive" "gauge" ++
    sample (chars "xdp_edge_backends_alive") (dec_u64 backends_alive) ++
    help "xdp_edge_lut_version" "Active Maglev LUT version." ++
    type_of "xdp_edge_lut_version" "gauge" ++
    sample (chars "xdp_edge_lut_version") (dec_u64 lut_version)).

(** ** What a scraper reads *)

(** The samples of a text: the lines that are not comments, cut at the first
    space. *)
Definition scrape_line (l : list Z) : option (list Z * list Z) :=
  match l with
  | 35 :: _ => None
  | _ => match span_word l with (name, _ :: value) => Some (name, value) | _ => None end
  end.

Definition scrape (t : list Z) : list (list Z * list Z) := omap scrape_line (lines t).

(** The number a sequence of digits stands for. *)
Definition number (s : list Z) : Z := foldl (λ a c, a * 10 + (c - 48)) 0 s.

Definition plain (c : Z) : Prop := 33 ≤ c ≤ 126.
Definition digit (c : Z) : Prop := 48 ≤ c ≤ 57.

#[local] Instance plain_dec c : Decision (plain c).
Proof. unfold plain. apply _. Defined.

Lemma number_snoc s c : number (s ++ [c]) = number s * 10 + (c - 48).
Proof. unfold number. by rewrite foldl_app. Qed.

Lemma decimal_ok fuel n : 0 ≤ n < 10 ^ Z.of_nat fuel → number (decimal fuel n) = n ∧ Forall digit (decimal fuel n) ∧ decimal fuel n ≠ [] ∨ fuel = O.
Proof.
  revert n. induction fuel as [|fuel IH]; intros n Hn; [by right|]. left. cbn [decimal]. destruct (Z.ltb_spec n 10).
  - split; [unfold number; cbn; lia|]. split; [|done]. constructor; [unfold digit; lia|done].
  - rewrite Nat2Z.inj_succ, Z.pow_succ_r in Hn by lia. pose proof (Z.div_mod n 10). pose proof (Z.mod_pos_bound n 10).
    destruct (IH (n / 10)) as [(E & Hd & Hne)| ->]; [split; [apply Z.div_pos; lia|apply Z.div_lt_upper_bound; lia]| |cbn in Hn; lia].
    rewrite number_snoc, E. split; [lia|]. split; [|by destruct (decimal fuel (n / 10))].
    apply Forall_app. split; [done|]. constructor; [unfold digit; lia|done].
Qed.

Lemma dec_u64_ok n : is_u64 n → number (dec_u64 n) = n ∧ Forall digit (dec_u64 n).
Proof.
  intros Hn. destruct (decimal_ok 20 n) as [(H1 & H2 & _)|]; [|done|done].
  unfold is_u64, u64_max in Hn. change (10 ^ Z.of_nat 20) with 100000000000000000000. lia.
Qed.

Lemma padded_ok d n : 0 ≤ n < 10 ^ Z.of_nat d → Forall digit (padded d n) ∧ length (padded d n) = d ∧ ∀ s, number (s ++ padded d n) = number s * 10 ^ Z.of_nat d + n.
Proof.
  revert n. induction d as [|d IH]; intros n Hn.
  - split; [constructor|]. split; [done|]. intros s. cbn in *. rewrite app_nil_r. lia.
  - cbn [padded]. rewrite Nat2Z.inj_succ, Z.pow_succ_r in * by lia. pose proof (Z.div_mod n 10). pose proof (Z.mod_pos_bound n 10).
    destruct (IH (n / 10)) as (H1 & H2 & H3); [split; [apply Z.div_pos; lia|apply Z.div_lt_upper_bound; lia]|].
    split; [apply Forall_app; split; [done|]; constructor; [unfold digit; lia|done]|]. split; [rewrite length_app, H2; cbn; lia|].
    intros s. rewrite app_assoc, number_snoc, H3. lia.
Qed.

Lemma digits_of_ok n : 0 ≤ n → number (digits_of n) = n ∧ Forall digit (digits_of n).
Proof.
  intros Hn. destruct (decimal_ok (S (Z.to_nat (Z.log2 n))) n) as [(H1 & H2 & _)|]; [|done|done]. split; [done|].
  rewrite Nat2Z.inj_succ, Z2Nat.id by apply Z.log2_nonneg. destruct (Z.eq_dec n 0) as [->|]; [done|].
  pose proof (Z.log2_spec n ltac:(lia)) as [_ H]. eapply Z.lt_le_trans; [exact H|]. apply Z.pow_le_mono_l. lia.
Qed.

(** The rounded value is within half a unit. *)
Lemma round_even_close q p : 0 < p → 2 * Z.abs (round_even q p * p - q) ≤ p.
Proof.
  intros Hp. unfold round_even. pose proof (Z.div_mod q p). pose proof (Z.mod_pos_bound q p Hp). cbv zeta.
  destruct (Z.compare_spec (2 * (q mod p)) p); [destruct (Z.even (q / p))|..]; nia.
Qed.

Lemma round_even_nonneg q p : 0 ≤ q → 0 < p → 0 ≤ round_even q p.
Proof. intros Hq Hp. pose proof (Z.div_pos q p Hq Hp). unfold round_even. cbv zeta. destruct (_ ?= _); [destruct (Z.even _)|..]; lia. Qed.

Lemma digit_plain s : Forall digit s → Forall plain s.
Proof. intros H. apply (Forall_impl _ _ _ H). unfold digit, plain. lia. Qed.

Lemma pow10_pos d : 0 < 10 ^ Z.of_nat d.
Proof. apply Z.pow_pos_nonneg; lia. Qed.

Lemma scaled_nonneg d m e : 0 ≤ m → 0 ≤ scaled d m e.
Proof.
  intros Hm. pose proof (pow10_pos d). unfold scaled. destruct (Z.leb_spec 0 e).
  - pose proof (Z.pow_nonneg 2 e). nia.
  - apply round_even_nonneg; [nia|apply Z.pow_pos_nonneg; lia].
Qed.

(** A number is printed as its integer part, a point and [d] digits. *)
Lemma fixed_int_ok d n : 0 ≤ n → ∃ ip fp, fixed_int d n = ip ++ chars "." ++ fp ∧ Forall digit ip ∧ Forall digit fp ∧ length fp = d ∧ number (ip ++ fp) = n.
Proof.
  intros Hn. pose proof (pow10_pos d) as Hp. unfold fixed_int. do 2 eexists. split; [done|].
  destruct (digits_of_ok (n / 10 ^ Z.of_nat d)) as [E1 D1]; [apply Z.div_pos; lia|].
  destruct (padded_ok d (n mod 10 ^ Z.of_nat d)) as (D2 & L & E2); [apply Z.mod_pos_bound; lia|].
  split_and!; [done..|]. rewrite E2, E1. pose proof (Z.div_mod n (10 ^ Z.of_nat d)). lia.
Qed.

Lemma fixed_plain d x : Forall plain (fixed d x).
Proof.
  assert (Hs : ∀ s : bool, Forall plain (if s then chars "-" else [])) by (intros []; [by apply (bool_decide_unpack _)|done]).
  assert (Hi : ∀ n, 0 ≤ n → Forall plain (fixed_int d n)).
  { intros n Hn. destruct (fixed_int_ok d n Hn) as (ip & fp & -> & D1 & D2 & _). rewrite !Forall_app.
    split_and!; [by apply digit_plain|by apply (bool_decide_unpack _)|by apply digit_plain]. }
  unfold fixed. destruct x as [s|s| |s m e]; rewrite ?Forall_app.
  - split; [apply Hs|apply Hi; lia].
  - split; [apply Hs|by apply (bool_decide_unpack _)].
  - by apply (bool_decide_unpack _).
  - split; [apply Hs|apply Hi, scaled_nonneg; lia].
Qed.

(** No line break within a line. *)
Definition unbroken (c : Z) : Prop := c ≠ 10 ∧ c ≠ 13.
#[local] Instance unbroken_dec c : Decision (unbroken c).
Proof. unfold unbroken. apply _. Defined.

Lemma plain_unbroken s : Forall plain s → Forall unbroken s.
Proof. intros H. apply (Forall_impl _ _ _ H). unfold plain, unbroken. lia. Qed.

Lemma plain_word s : Forall plain s → Forall (λ c, is_whitespace c = false) s.
Proof.
  intros H. apply (Forall_impl _ _ _ H). intros c [H1 H2]. unfold is_whitespace.
  repeat match goal with |- context [?a =? ?b] => destruct (Z.eqb_spec a b); [lia|] end.
  repeat match goal with |- context [?a <=? ?b] => destruct (Z.leb_spec a b); try lia end; done.
Qed.

Lemma scrape_line_cons body rest : Forall unbroken body → scrape (body ++ 10 :: rest) = option_list (scrape_line body) ++ scrape rest.
Proof.
  intros Hb. unfold scrape, lines. rewrite lines_from_line.
  - cbn [reverse rev_append app omap list_omap]. assert (E : strip_cr body = body).
    { destruct body as [|c body _] using rev_ind; [done|]. apply strip_cr_last. apply Forall_app in Hb as [_ Hb]. by inversion Hb as [|? ? []]. }
    rewrite E. by destruct (scrape_line body).
  - intros Hi. by eapply Forall_forall in Hb as [? _].
Qed.

Lemma scrape_comment prefix name text rest : Forall unbroken (chars name) → Forall unbroken (chars text) → Forall unbroken prefix →
  scrape (((35 :: prefix) ++ chars name ++ chars " " ++ chars text ++ [10]) ++ rest) = scrape rest.
Proof.
  intros H1 H2 H3. replace (((35 :: prefix) ++ chars name ++ chars " " ++ chars text ++ [10]) ++ rest)
    with ((35 :: prefix ++ chars name ++ chars " " ++ chars text) ++ 10 :: rest) by (cbn [app]; by rewrite <-!app_assoc).
  rewrite scrape_line_cons; [done|]. constructor; [done|]. rewrite !Forall_app. split_and!; [done..|by apply (bool_decide_unpack _)|done].
Qed.

Lemma scrape_help name text rest : Forall unbroken (chars name) → Forall unbroken (chars text) → scrape (help name text ++ rest) = scrape rest.
Proof. intros. apply (scrape_comment (chars " HELP ")); [done..|by apply (bool_decide_unpack _)]. Qed.

Lemma scrape_type name kind rest : Forall unbroken (chars name) → Forall unbroken (chars kind) → scrape (type_of name kind ++ rest) = scrape rest.
Proof. intros. apply (scrape_comment (chars " TYPE ")); [done..|by apply (bool_decide_unpack _)]. Qed.

Lemma scrape_sample name value rest : Forall plain name → match name with [] => False | c :: _ => c ≠ 35 end → Forall plain value →
  scrape (sample name value ++ rest) = (name, value) :: scrape rest.
Proof.
  intros Hn Hh Hv. unfold sample. replace ((name ++ chars " " ++ value ++ [10]) ++ rest) with ((name ++ 32 :: value) ++ 10 :: rest)
    by (rewrite <-!app_assoc; reflexivity).
  rewrite scrape_line_cons.
  - assert (E : scrape_line (name ++ 32 :: value) = Some (name, value)); [|by rewrite E].
    unfold scrape_line. pose proof (span_word_app name (32 :: value) (plain_word _ Hn) eq_refl) as E. rewrite E.
    destruct name as [|c name]; [done|]. cbn [app]. repeat case_match; done.
  - apply Forall_app. split; [by apply plain_unbroken|]. constructor; [done|by apply plain_unbroken].
Qed.

(** What the scraper is to read. *)
Definition expected (stats : SimStats) (conntrack_entries evictions : Z) (hit_ratio pps : f64) (backends_alive lut_version : Z) : list (list Z * list Z) :=
  [(labelled "xdp_edge_packets_total" "action" "forward", dec_u64 (forwarded stats));
   (labelled "xdp_edge_packets_total" "action" "drop_ratelimit", dec_u64 (dropped_rate stats));
   (labelled "xdp_edge_packets_total" "action" "drop_synflood", dec_u64 (dropped_synflood stats));
   (labelled "xdp_edge_packets_total" "action" "pass", dec_u64 (passed stats));
   (labelled "xdp_edge_conntrack_lookups_total" "result" "hit", dec_u64 (conn_hits stats));
   (labelled "xdp_edge_conntrack_lookups_total" "result" "miss", dec_u64 (conn_misses stats));
   (chars "xdp_edge_conntrack_hit_ratio", fixed 6 hit_ratio);
   (chars "xdp_edge_conntrack_entries", dec_u64 conntrack_entries);
   (chars "xdp_edge_conntrack_evictions_total", dec_u64 evictions);
   (chars "xdp_edge_pps", fixed 1 pps);
   (chars "xdp_edge_backends_alive", dec_u64 backends_alive);
   (chars "xdp_edge_lut_version", dec_u64 lut_version)].

(** The text of the metrics is well formed: a scraper reads exactly the
    twelve samples, every counter with its value and the two measurements as
    their decimals. *)
Theorem metrics_scraped stats entries evictions packets secs alive version t :
  Forall is_u64 [passed stats; dropped_rate stats; dropped_synflood stats; forwarded stats; conn_hits stats; conn_misses stats; entries; evictions; alive; version] →
  render_metrics stats entries evictions packets secs alive version = Some t →
  scrape t = expected stats entries evictions (hit_ratio_of (conn_hits stats) (conn_hits stats + conn_misses stats)) (pps_of packets secs) alive version ∧
  Forall (λ n, number (dec_u64 n) = n)
    [passed stats; dropped_rate stats; dropped_synflood stats; forwarded stats; conn_hits stats; conn_misses stats; entries; evictions; alive; version].
Proof.
  intros Hu H. split; [|eapply Forall_impl; [exact Hu|]; intros n Hn; by apply dec_u64_ok].
  assert (Hd : ∀ n, n ∈ [passed stats; dropped_rate stats; dropped_synflood stats; forwarded stats; conn_hits stats; conn_misses stats; entries; evictions; alive; version] →
    Forall plain (dec_u64 n)).
  { intros n Hn. apply digit_plain, dec_u64_ok. by eapply Forall_forall in Hu. }
  unfold render_metrics in H. apply bind_Some in H as (lookups & El & H). cbv zeta in H. apply (inj Some) in H. subst t.
  apply add_chk_Some in El as [-> _]. rewrite <-(app_nil_r (sample (chars "xdp_edge_lut_version") _)).
  repeat first [rewrite scrape_help by by apply (bool_decide_unpack _)
               |rewrite scrape_type by by apply (bool_decide_unpack _)
               |rewrite scrape_sample; [|by apply (bool_decide_unpack _)|done|first [apply fixed_plain|apply Hd; set_solver]]].
  done.
Qed.

(** A finite number is printed with the asked number of digits after the
    point, and what is printed is the exact value, or differs from it by at
    most half a unit of the last digit. *)
Theorem fixed_accurate d s m e : ∃ ip fp,
  fixed d (S754_finite s m e) = (if s then chars "-" else []) ++ ip ++ chars "." ++ fp ∧ Forall digit (ip ++ fp) ∧ length fp = d ∧
  (0 ≤ e → number (ip ++ fp) = Zpos m * 10 ^ Z.of_nat d * 2 ^ e) ∧
  (e < 0 → 2 * Z.abs (number (ip ++ fp) * 2 ^ (- e) - Zpos m * 10 ^ Z.of_nat d) ≤ 2 ^ (- e)).
Proof.
  destruct (fixed_int_ok d (scaled d (Zpos m) e)) as (ip & fp & E & D1 & D2 & L & N); [apply scaled_nonneg; lia|].
  exists ip, fp. cbn [fixed]. rewrite E. split_and!; [done|by apply Forall_app|done|..]; intros He; rewrite N; unfold scaled.
  - by rewrite (proj2 (Z.leb_le 0 e)).
  - rewrite (proj2 (Z.leb_gt 0 e)) by done. apply round_even_close. apply Z.pow_pos_nonneg; lia.
Qed.

Definition ex_stats : SimStats := mkStats 3 100 50 900 800 100.
Definition ex_text : list Z := default [] (render_metrics ex_stats 42 7 1000 (f_of_Z 8) 3 5).

Lemma metrics_scraped_witness :
  scrape ex_text = expected ex_stats 42 7 (hit_ratio_of 800 (800 + 100)) (pps_of 1000 (f_of_Z 8)) 3 5 ∧
  Forall (λ n, number (dec_u64 n) = n) [3; 100; 50; 900; 800; 100; 42; 7; 3; 5] ∧
  (fixed 6 (hit_ratio_of 800 900), fixed 1 (pps_of 1000 (f_of_Z 8))) = (chars "0.888889", chars "125.0").
Proof.
  destruct (metrics_scraped ex_stats 42 7 1000 (f_of_Z 8) 3 5 ex_text) as [H1 H2].
  - repeat (apply Forall_cons; split; [by_eval|]). by apply Forall_nil.
  - vm_compute. reflexivity.
  - split; [exact H1|]. split; [exact H2|]. vm_compute. reflexivity.
Defined.
