(* ===== verification/GmCrypto.v ===== *)
(** * GM-PQ: primitives and sealed packets

    Models [crates/gm-pq-stack/src/crypto.rs] and the error type of [lib.rs].
    The algorithms of [libsmx] (SM3, HMAC and HKDF over SM3, SM4 in GCM mode)
    are parameters: the class [Primitives] has their documented behaviour,
    namely their output lengths, that HKDF expands to up to 255 blocks, and that
    GCM decryption accepts exactly what encryption produces.  No theorem assumes that a primitive is secure. *)

From S2P Require Import Prelude Bytes.

(** The variants of [Error]; the texts they carry are left out. *)
Inductive GmError :=
  | Sm
  | InvalidEncoding
  | AuthFailed
  | HandshakeState
  | Replay
  | PeerAuth
  | GmIo.

#[export] Instance GmError_eq_dec : EqDecision GmError.
Proof. solve_decision. Defined.

Class Primitives := {
  sm3_digest : list Z → list Z;
  hmac_sm3 : list Z → list Z → list Z;
  hkdf_extract : option (list Z) → list Z → list Z;
  hkdf_expand_raw : list Z → list Z → Z → option (list Z);
  sm4_encrypt_gcm : list Z → list Z → list Z → list Z → list Z * list Z;
  sm4_decrypt_gcm : list Z → list Z → list Z → list Z → list Z → option (list Z);
  zlen_sm3 m : zlen (sm3_digest m) = 32;
  zlen_hmac k m : zlen (hmac_sm3 k m) = 32;
  zlen_extract s m : zlen (hkdf_extract s m) = 32;
  expand_ok k m n : 0 ≤ n ≤ 255 * 32 → ∃ o, hkdf_expand_raw k m n = Some o ∧ zlen o = n;
  zlen_gcm k n a p : zlen (sm4_encrypt_gcm k n a p).1 = zlen p ∧ zlen (sm4_encrypt_gcm k n a p).2 = 16;
  gcm_exact k n a c t p : sm4_decrypt_gcm k n a c t = Some p ↔ sm4_encrypt_gcm k n a p = (c, t)
}.

(** A concrete choice, for evaluation only: a checksum for the hashes, and a
    cipher that keeps the plaintext and tags it. *)
Definition checksum (n : nat) (l : list Z) : list Z :=
  to_be n (foldl (λ a b, (a * 257 + b + 1) mod 2 ^ 256) 7 l).

Definition toy_decrypt (k n a c t : list Z) : option (list Z) :=
  if bool_decide (checksum 16 (k ++ n ++ a ++ c) = t) then Some c else None.

#[refine] Definition toy_primitives : Primitives := {|
  sm3_digest := checksum 32;
  hmac_sm3 k m := checksum 32 (k ++ [1] ++ m);
  hkdf_extract s m := checksum 32 (default [] s ++ [2] ++ m);
  hkdf_expand_raw k m n := Some (take (Z.to_nat n) (checksum 32 (k ++ [3] ++ m) ++ replicate (Z.to_nat n) 0));
  sm4_encrypt_gcm k n a p := (p, checksum 16 (k ++ n ++ a ++ p));
  sm4_decrypt_gcm := toy_decrypt
|}.
Proof.
  - intros m. unfold zlen, checksum. by rewrite length_to_be.
  - intros k m. unfold zlen, checksum. by rewrite length_to_be.
  - intros k m. unfold zlen, checksum. by rewrite length_to_be.
  - intros k m n Hn. eexists. split; [done|]. unfold zlen. rewrite length_take, length_app, length_replicate. lia.
  - intros k n a p. split; [done|]. unfold zlen, checksum. cbn [snd]. by rewrite length_to_be.
  - intros k n a c t p. unfold toy_decrypt. case_bool_decide as H.
    + subst. split; intros; simplify_eq; done.
    + split; [done|]. intros [= -> <-]. by destruct H.
Defined.

Section crypto.
Context {PR : Primitives}.

(** [KDF_DOMAIN], in ASCII. *)
Definition KDF_DOMAIN : list Z := [103; 109; 45; 112; 113; 45; 115; 116; 97; 99; 107; 32; 118; 48; 46; 49].

(** The hasher is fed the parts one after the other. *)
Definition sm3 (parts : list (list Z)) : list Z := sm3_digest (concat parts).

(** A collision of SM3 exhibited by two given inputs. *)
Definition sm3_collision (x y : list Z) : Prop := x ≠ y ∧ sm3_digest x = sm3_digest y.

(** The library refuses an output of more than 255 blocks, which panics. *)
Definition hkdf_expand (prk info : list Z) (len : Z) : option (list Z) := hkdf_expand_raw prk (KDF_DOMAIN ++ info) len.

Definition hkdf_sm3 (salt : option (list Z)) (ikm info : list Z) (len : Z) : option (list Z) :=
  hkdf_expand (hkdf_extract salt ikm) info len.

Record Aead := mkAead {
  ae_key : list Z;
  ae_tx_seq : Z
}.

Definition aead_new (key : list Z) : Aead := mkAead key 0.

Definition aead_nonce (seq : Z) : list Z := [0; 0; 0; 0] ++ to_be 8 seq.

Definition seal_with_seq (a : Aead) (seq : Z) (aad plaintext : list Z) : list Z :=
  let '(ct, tag) := sm4_encrypt_gcm (ae_key a) (aead_nonce seq) aad plaintext in
  to_be 8 seq ++ ct ++ tag.

(** The panic when the sequence numbers are exhausted is [None]. *)
Definition aead_seal (a : Aead) (aad plaintext : list Z) : option (Aead * list Z) :=
  let seq := ae_tx_seq a in
  next ← add_chk u64_max seq 1;
  Some (mkAead (ae_key a) next, seal_with_seq a seq aad plaintext).

Definition aead_open (a : Aead) (aad packet : list Z) : res GmError (Z * list Z) :=
  if zlen packet <? 8 + 16 then err InvalidEncoding else
  s ← slice packet 0 8;
  let seq := from_be s in
  let ct_end := zlen packet - 16 in
  ct ← slice packet 8 ct_end;
  tag ← slice packet ct_end (zlen packet);
  match sm4_decrypt_gcm (ae_key a) (aead_nonce seq) aad ct tag with
  | Some pt => ok (seq, pt)
  | None => err AuthFailed
  end.

(** ** Sealing and opening *)

Lemma zlen_hash parts : zlen (sm3 parts) = 32.
Proof. apply zlen_sm3. Qed.

Lemma zlen_seal a seq aad pt : zlen (seal_with_seq a seq aad pt) = 24 + zlen pt.
Proof.
  unfold seal_with_seq. pose proof (zlen_gcm (ae_key a) (aead_nonce seq) aad pt) as H.
  destruct (sm4_encrypt_gcm _ _ _ _) as [ct tag]. cbn in H. rewrite !zlen_app.
  unfold zlen at 1. rewrite length_to_be. lia.
Qed.

Lemma open_seal k m m' seq aad pt : is_u64 seq →
  aead_open (mkAead k m) aad (seal_with_seq (mkAead k m') seq aad pt) = ok (seq, pt).
Proof.
  intros Hs. unfold aead_open. rewrite zlen_seal. pose proof (zlen_nonneg pt).
  rewrite (proj2 (Z.ltb_ge _ _)) by lia. unfold seal_with_seq. cbn [ae_key].
  pose proof (zlen_gcm k (aead_nonce seq) aad pt) as [H1 H2].
  destruct (sm4_encrypt_gcm k (aead_nonce seq) aad pt) as [ct tag] eqn:E. cbn [fst snd] in *.
  assert (zlen (to_be 8 seq) = 8) as H8 by (unfold zlen; by rewrite length_to_be).
  rewrite slice_head by done. cbn [mbind option_bind].
  rewrite (slice_app3 _ _ _ 8) by lia. cbn [mbind option_bind]. rewrite app_assoc, slice_tail by (rewrite ?zlen_app; lia).
  cbn [mbind option_bind]. unfold is_u64, u64_max in Hs. rewrite from_to_be by lia.
  by rewrite (proj2 (gcm_exact _ _ _ _ _ _) E).
Qed.

(** What opens is what sealing produces: any other packet is refused. *)
Lemma open_exact a aad p : Forall is_byte p →
  ∃ x, aead_open a aad p = Some x ∧
    match x with
    | inr (seq, pt) => is_u64 seq ∧ p = seal_with_seq a seq aad pt
    | inl e => e = (if zlen p <? 24 then InvalidEncoding else AuthFailed) ∧
        ∀ seq pt, is_u64 seq → p ≠ seal_with_seq a seq aad pt
    end.
Proof.
  intros Hb. unfold aead_open. change (8 + 16) with 24. destruct (Z.ltb_spec (zlen p) 24) as [Hz|Hz].
  { eexists. split; [done|]. split; [done|]. intros seq pt _ ->. rewrite zlen_seal in Hz. pose proof (zlen_nonneg pt). lia. }
  rewrite !slice_ok by lia. cbn [mbind option_bind].
  change (drop (Z.to_nat 0) p) with p. change (Z.to_nat (8 - 0)) with 8%nat. change (Z.to_nat 8) with 8%nat.
  set (n := zlen p) in *. set (s := take 8 p). set (ct := take _ (drop 8 p)). set (tag := take _ (drop _ p)).
  assert (p = s ++ ct ++ tag) as Ep.
  { unfold s, ct, tag. rewrite <-(take_drop 8 p) at 1. f_equal.
    rewrite <-(take_drop (Z.to_nat (n - 16 - 8)) (drop 8 p)) at 1. f_equal. rewrite drop_drop.
    replace (8 + Z.to_nat (n - 16 - 8))%nat with (Z.to_nat (n - 16)) by lia.
    symmetry. apply take_ge. rewrite length_drop. unfold n, zlen in *. lia. }
  assert (length s = 8%nat) as Hs by (unfold s, n, zlen in *; rewrite length_take; lia).
  assert (Forall is_byte s) as Hsb by by apply Forall_take.
  assert (to_be 8 (from_be s) = s) as Hts.
  { unfold to_be, from_be. rewrite <-Hs, <-(length_reverse s), to_from_le by (by apply Forall_reverse). apply reverse_involutive. }
  assert (is_u64 (from_be s)) as Hu.
  { pose proof (from_le_bound (reverse s)) as Hf. rewrite Forall_reverse in Hf. specialize (Hf Hsb).
    unfold zlen in Hf. rewrite length_reverse, Hs in Hf. unfold is_u64, u64_max, from_be. lia. }
  destruct (sm4_decrypt_gcm _ _ _ ct tag) as [pt|] eqn:Ed.
  - eexists. split; [done|]. cbn. split; [done|]. apply gcm_exact in Ed. unfold seal_with_seq. by rewrite Ed, Hts.
  - eexists. split; [done|]. cbn. split; [done|]. intros seq pt Hseq Hp. rewrite Ep in Hp. unfold seal_with_seq in Hp.
    destruct (sm4_encrypt_gcm (ae_key a) (aead_nonce seq) aad pt) as [ct' tag'] eqn:E.
    assert (s = to_be 8 seq ∧ ct ++ tag = ct' ++ tag') as [E1 E2].
    { apply app_inj_1 in Hp; [done|]. by rewrite Hs, length_to_be. }
    pose proof (zlen_gcm (ae_key a) (aead_nonce seq) aad pt) as [_ Ht]. rewrite E in Ht. cbn in Ht.
    apply app_inj_2 in E2 as [-> ->].
    + assert (from_be s = seq) as Es.
      { rewrite E1. apply from_to_be. unfold is_u64, u64_max in Hseq. lia. }
      rewrite Es in Ed. rewrite (proj2 (gcm_exact _ _ _ _ _ _) E) in Ed. done.
    + unfold tag, zlen in *. rewrite length_take, length_drop. unfold n, zlen in *. lia.
Qed.

End crypto.

#[global] Arguments seal_with_seq : simpl never.
#[global] Arguments aead_open : simpl never.
