(* ===== verification/GmSession.v ===== *)
(** * GM-PQ: the replay window and the transport session

    Models [crates/gm-pq-stack/src/handshake/session.rs].  The module
    [WindowSpec] is what the bitmap window promises: it remembers every number
    it accepted and refuses repetitions and numbers that are 64 or more below
    the greatest. *)

From S2P Require Import Prelude Bytes GmCrypto.

Definition WINDOW_SIZE : Z := 64.

Record ReplayWindow := mkWin {
  rw_highest : Z;
  rw_bitmap : Z;
  rw_initialized : bool
}.

Definition window_new : ReplayWindow := mkWin 0 0 false.

(** [x << n] on [u64], for [n] below 64. *)
Definition shl64 (x n : Z) : Z := Z.shiftl x n mod 2 ^ 64.

(** An error leaves the window as it was. *)
Definition check_and_mark (seq : Z) (w : ReplayWindow) : GmError + ReplayWindow :=
  if negb (rw_initialized w) then inr (mkWin seq 1 true) else
  if rw_highest w <? seq then
    let shift := seq - rw_highest w in
    let bitmap := if WINDOW_SIZE <=? shift then 1 else Z.lor (shl64 (rw_bitmap w) shift) 1 in
    inr (mkWin seq bitmap (rw_initialized w))
  else
    let delta := rw_highest w - seq in
    if WINDOW_SIZE <=? delta then inl Replay else
    let bit := shl64 1 delta in
    if negb (Z.land (rw_bitmap w) bit =? 0) then inl Replay else
    inr (mkWin (rw_highest w) (Z.lor (rw_bitmap w) bit) (rw_initialized w)).

(** A run of the window over sequence numbers: which were accepted. *)
Fixpoint window_run (seqs : list Z) (w : ReplayWindow) : list bool * ReplayWindow :=
  match seqs with
  | [] => ([], w)
  | s :: seqs' =>
      match check_and_mark s w with
      | inl _ => let '(l, w) := window_run seqs' w in (false :: l, w)
      | inr w => let '(l, w) := window_run seqs' w in (true :: l, w)
      end
  end.

Module WindowSpec.

(** [seen] holds the accepted numbers. *)
Definition accepts (seen : list Z) (s : Z) : bool :=
  bool_decide (s ∉ seen) && forallb (λ x, x - s <? 64) seen.

Fixpoint run (seqs seen : list Z) : list bool * list Z :=
  match seqs with
  | [] => ([], seen)
  | s :: seqs' =>
      if accepts seen s
      then let '(l, k) := run seqs' (s :: seen) in (true :: l, k)
      else let '(l, k) := run seqs' seen in (false :: l, k)
  end.

End WindowSpec.

(** ** The session *)

Section session.
Context {PR : Primitives}.

Record Session := mkSess {
  se_tx : Aead;
  se_rx : Aead;
  se_window : ReplayWindow;
  se_id : list Z
}.

Definition session_new (tx_key rx_key session_id : list Z) : Session :=
  mkSess (aead_new tx_key) (aead_new rx_key) window_new session_id.

Definition session_send (plaintext : list Z) (s : Session) : option (Session * list Z) :=
  '(tx, packet) ← aead_seal (se_tx s) (se_id s) plaintext;
  Some (mkSess tx (se_rx s) (se_window s) (se_id s), packet).

(** An error leaves the session as it was. *)
Definition session_recv (packet : list Z) (s : Session) : res GmError (Session * list Z) :=
  '(seq, pt) ←? aead_open (se_rx s) (se_id s) packet;
  match check_and_mark seq (se_window s) with
  | inl e => err e
  | inr w => ok (mkSess (se_tx s) (se_rx s) w (se_id s), pt)
  end.

Fixpoint send_all (ms : list (list Z)) (s : Session) : option (Session * list (list Z)) :=
  match ms with
  | [] => Some (s, [])
  | m :: ms' =>
      '(s, p) ← session_send m s; '(s, ps) ← send_all ms' s; Some (s, p :: ps)
  end.

Fixpoint recv_all (packets : list (list Z)) (s : Session) : option (Session * list (GmError + list Z)) :=
  match packets with
  | [] => Some (s, [])
  | p :: ps =>
      r ← session_recv p s;
      match r with
      | inl e => '(s, l) ← recv_all ps s; Some (s, inl e :: l)
      | inr (s, pt) => '(s, l) ← recv_all ps s; Some (s, inr pt :: l)
      end
  end.

End session.

(** What arrives: the [n]-th packet of the peer, or bytes of another origin. *)
Inductive Arrival :=
  | Sent (n : Z)
  | Forged (b : list Z).

Module SessionSpec.

(** For each arrival, the message it delivers or the error. *)
Fixpoint run (arr : list Arrival) (seen : list Z) : list (GmError + Z) :=
  match arr with
  | [] => []
  | Sent n :: arr' =>
      if WindowSpec.accepts seen n then inr n :: run arr' (n :: seen) else inl Replay :: run arr' seen
  | Forged b :: arr' =>
      inl (if zlen b <? 24 then InvalidEncoding else AuthFailed) :: run arr' seen
  end.

End SessionSpec.

(** ** The bitmap is the set *)

Definition tracks (seen : list Z) (w : ReplayWindow) : Prop :=
  if rw_initialized w then
    rw_highest w ∈ seen ∧ (∀ x, x ∈ seen → x ≤ rw_highest w) ∧ 0 ≤ rw_bitmap w < 2 ^ 64 ∧
    ∀ i, 0 ≤ i < 64 → Z.testbit (rw_bitmap w) i = bool_decide (rw_highest w - i ∈ seen)
  else seen = [].

Lemma testbit_shl64 x n i : 0 ≤ x → 0 ≤ n → 0 ≤ i < 64 →
  Z.testbit (shl64 x n) i = if i <? n then false else Z.testbit x (i - n).
Proof.
  intros Hx Hn Hi. unfold shl64. rewrite Z.mod_pow2_bits_low by lia. rewrite Z.shiftl_spec by lia.
  destruct (Z.ltb_spec i n); [|done]. apply Z.testbit_neg_r. lia.
Qed.

Lemma shl64_bound x n : 0 ≤ shl64 x n < 2 ^ 64.
Proof. unfold shl64. apply Z.mod_pos_bound. lia. Qed.

Lemma lor_bound64 a b : 0 ≤ a < 2 ^ 64 → 0 ≤ b < 2 ^ 64 → 0 ≤ Z.lor a b < 2 ^ 64.
Proof.
  intros Ha Hb. assert (Z.lor a b = Z.lor a b mod 2 ^ 64) as ->; [|apply Z.mod_pos_bound; lia].
  rewrite <-(Z.mod_small a (2 ^ 64)), <-(Z.mod_small b (2 ^ 64)) by done.
  apply Z.bits_inj'. intros i Hi. destruct (Z.lt_ge_cases i 64).
  - by rewrite Z.mod_pow2_bits_low by lia.
  - rewrite Z.mod_pow2_bits_high, Z.lor_spec, !Z.mod_pow2_bits_high by lia. done.
Qed.

Lemma testbit_one64 d i : 0 ≤ d < 64 → 0 ≤ i < 64 → Z.testbit (shl64 1 d) i = (i =? d).
Proof.
  intros Hd Hi. rewrite testbit_shl64 by lia. destruct (Z.ltb_spec i d), (Z.eqb_spec i d); try lia; try done.
  - subst. by rewrite Z.sub_diag.
  - change 1 with (2 ^ 0). apply Z.pow2_bits_false. lia.
Qed.

Lemma land_one64 x d : 0 ≤ d < 64 → (Z.land x (shl64 1 d) =? 0) = negb (Z.testbit x d).
Proof.
  intros Hd. assert (shl64 1 d = 2 ^ d) as ->.
  { unfold shl64. rewrite Z.shiftl_1_l. apply Z.mod_small. split; [lia|]. apply Z.pow_lt_mono_r; lia. }
  destruct (Z.testbit x d) eqn:E; cbn.
  - apply Z.eqb_neq. intros H. apply (f_equal (λ z, Z.testbit z d)) in H.
    by rewrite Z.land_spec, E, Z.pow2_bits_true, Z.bits_0 in H by lia.
  - apply Z.eqb_eq, Z.bits_inj'. intros i Hi. rewrite Z.land_spec, Z.bits_0.
    destruct (decide (i = d)) as [->|]; [by rewrite E|]. rewrite Z.pow2_bits_false by lia. by rewrite andb_false_r.
Qed.

(** One number: the bitmap decides as the set does, and goes on tracking it. *)
Lemma check_and_mark_tracks seen w s : tracks seen w →
  match check_and_mark s w with
  | inr w' => WindowSpec.accepts seen s = true ∧ tracks (s :: seen) w'
  | inl e => e = Replay ∧ WindowSpec.accepts seen s = false
  end.
Proof.
  unfold tracks at 1, check_and_mark, WindowSpec.accepts. destruct (rw_initialized w) eqn:Ei; cbn [negb].
  2:{ intros ->. split; [done|]. cbn. split_and!; [set_solver|set_solver by lia|lia|lia|].
      intros i Hi. change 1 with (2 ^ 0). destruct (decide (i = 0)) as [->|].
      - rewrite bool_decide_true; [done|]. rewrite list_elem_of_singleton. lia.
      - rewrite Z.pow2_bits_false by lia. rewrite bool_decide_false; [done|]. rewrite list_elem_of_singleton. lia. }
  intros (Hh & Hle & Hb & Hbits). unfold WINDOW_SIZE. destruct (Z.ltb_spec (rw_highest w) s) as [Hs|Hs].
  - split.
    + rewrite bool_decide_true by (intros ?%Hle; lia). apply forallb_forall. intros x Hx%list_elem_of_In%Hle. apply Z.ltb_lt. lia.
    + unfold tracks. cbn. split_and!; [set_solver|intros x [->|?%Hle]%elem_of_cons; lia|..].
      * case_match; [lia|]. apply lor_bound64; [apply shl64_bound|lia].
      * case_match; [lia|]. apply lor_bound64; [apply shl64_bound|lia].
      * intros i Hi. assert (Z.testbit 1 i = (i =? 0)) as H1.
        { change 1 with (2 ^ 0). destruct (Z.eqb_spec i 0) as [->|]; [done|]. apply Z.pow2_bits_false. lia. }
        destruct (Z.leb_spec 64 (s - rw_highest w)).
        -- rewrite H1. apply eq_bool_prop_intro. rewrite !Is_true_true, Z.eqb_eq, bool_decide_eq_true, elem_of_cons.
           split; [left; lia|]. intros [?|?%Hle]; lia.
        -- rewrite Z.lor_spec, H1, testbit_shl64 by lia. apply eq_bool_prop_intro.
           rewrite !Is_true_true, orb_true_iff, Z.eqb_eq, bool_decide_eq_true, elem_of_cons.
           destruct (Z.ltb_spec i (s - rw_highest w)).
           ++ split; [intros [?|?]; [done|left; lia]|]. intros [?|?%Hle]; [right; lia|lia].
           ++ rewrite Hbits, bool_decide_eq_true by lia.
              replace (rw_highest w - (i - (s - rw_highest w))) with (s - i) by lia.
              split; [intros [?|?]; [by right|left; lia]|]. intros [?|?]; [right; lia|by left].
  - destruct (Z.leb_spec 64 (rw_highest w - s)) as [Hd|Hd].
    { split; [done|]. apply andb_false_iff. right. apply not_true_iff_false. rewrite forallb_forall.
      intros H. specialize (H (rw_highest w)). rewrite Z.ltb_lt, <-list_elem_of_In in H. specialize (H Hh). lia. }
    rewrite land_one64, negb_involutive by lia. rewrite Hbits by lia.
    replace (rw_highest w - (rw_highest w - s)) with s by lia. case_bool_decide as Hin.
    { by rewrite bool_decide_false by naive_solver. }
    split.
    + rewrite bool_decide_true by done. apply forallb_forall. intros x Hx%list_elem_of_In%Hle. apply Z.ltb_lt. lia.
    + unfold tracks. cbn. split_and!; [set_solver|intros x [->|?%Hle]%elem_of_cons; lia|..].
      * apply lor_bound64; [lia|apply shl64_bound].
      * apply lor_bound64; [lia|apply shl64_bound].
      * intros i Hi. rewrite Z.lor_spec, Hbits, testbit_one64 by lia. apply eq_bool_prop_intro.
        rewrite !Is_true_true, orb_true_iff, Z.eqb_eq, !bool_decide_eq_true, elem_of_cons.
        split; [intros [?|?]; [by right|left; lia]|]. intros [?|?]; [right; lia|by left].
Qed.

Lemma window_run_spec seqs seen w : tracks seen w →
  (window_run seqs w).1 = (WindowSpec.run seqs seen).1.
Proof.
  revert seen w. induction seqs as [|s seqs IH]; intros seen w Ht; [done|]. cbn.
  pose proof (check_and_mark_tracks seen w s Ht) as Hs. destruct (check_and_mark s w) as [e|w']; destruct Hs as [? Hs].
  - rewrite Hs. specialize (IH seen w Ht). destruct (window_run seqs w), (WindowSpec.run seqs seen). cbn in *. by subst.
  - rewrite H. specialize (IH (s :: seen) w' Hs). destruct (window_run seqs w'), (WindowSpec.run seqs (s :: seen)). cbn in *. by subst.
Qed.

Section session_proofs.
Context {PR : Primitives}.

Definition wire_of (ps : list (list Z)) (a : Arrival) : option (list Z) :=
  match a with Sent n => vget ps n | Forged b => Some b end.

(** Bytes of another origin: not sealed under the key of the session. *)
Definition foreign (key sid : list Z) (a : Arrival) : Prop :=
  match a with
  | Sent _ => True
  | Forged b => Forall is_byte b ∧ ∀ seq pt, is_u64 seq → b ≠ seal_with_seq (aead_new key) seq sid pt
  end.

Definition delivers (ms : list (list Z)) (r : GmError + list Z) (o : GmError + Z) : Prop :=
  match o with
  | inl e => r = inl e
  | inr n => ∃ m, vget ms n = Some m ∧ r = inr m
  end.

Definition delivered (l : list (GmError + Z)) : list Z :=
  omap (λ r, match r with inr n => Some n | inl _ => None end) l.

Lemma send_all_spec ms tx rx w sid : 0 ≤ ae_tx_seq tx → ae_tx_seq tx + zlen ms ≤ u64_max →
  ∃ s' ps, send_all ms (mkSess tx rx w sid) = Some (s', ps) ∧
    ∀ n p, vget ps n = Some p → ∃ m, vget ms n = Some m ∧
      p = seal_with_seq (aead_new (ae_key tx)) (ae_tx_seq tx + n) sid m.
Proof.
  revert tx. induction ms as [|m ms IH]; intros tx Hp Hn; cbn.
  { eexists _, _. split; [done|]. intros n p Hv. apply vget_bound in Hv. change (zlen []) with 0 in Hv. lia. }
  rewrite zlen_cons in Hn. pose proof (zlen_nonneg ms).
  unfold session_send, aead_seal. cbn [se_tx se_id]. rewrite add_chk_ok by lia. cbn [mbind option_bind].
  destruct (IH (mkAead (ae_key tx) (ae_tx_seq tx + 1))) as (s' & ps & E & Hs); cbn [ae_tx_seq]; [lia..|].
  cbn [se_rx se_window]. rewrite E. cbn [mbind option_bind]. eexists _, _. split; [done|].
  intros n p. rewrite !vget_cons. destruct (Z.eqb_spec n 0) as [->|Hn0].
  - intros [= <-]. exists m. split; [done|]. by rewrite Z.add_0_r.
  - intros (m' & Hm & ->)%Hs. exists m'. split; [done|]. cbn [ae_key ae_tx_seq]. f_equal. lia.
Qed.

(** One arrival: the session decides as its specification. *)
Lemma recv_arrival ms ps a p seen s key sid :
  (∀ n p, vget ps n = Some p → is_u64 n ∧ ∃ m, vget ms n = Some m ∧ p = seal_with_seq (aead_new key) n sid m) →
  wire_of ps a = Some p → foreign key sid a → ae_key (se_rx s) = key → se_id s = sid → tracks seen (se_window s) →
  match a with
  | Sent n =>
      if WindowSpec.accepts seen n
      then ∃ w m, vget ms n = Some m ∧ tracks (n :: seen) w ∧
        session_recv p s = ok (mkSess (se_tx s) (se_rx s) w (se_id s), m)
      else session_recv p s = err Replay
  | Forged b => session_recv p s = err (if zlen b <? 24 then InvalidEncoding else AuthFailed)
  end.
Proof.
  intros Hps Hw Hf Hk Hid Ht. destruct s as [tx [k q] w sid']. cbn in *. subst. unfold session_recv. cbn [se_rx se_id se_window se_tx].
  destruct a as [n|b]; cbn in Hw.
  - apply Hps in Hw as (Hn & m & Hm & ->). unfold aead_new. try_with (open_seal key q 0 n sid m Hn).
    pose proof (check_and_mark_tracks seen w n Ht) as Hc.
    destruct (check_and_mark n w) as [e|w']; destruct Hc as [H1 H2].
    + rewrite H2. by rewrite H1.
    + rewrite H1. eauto.
  - simplify_eq. destruct Hf as [Hb Hf]. destruct (open_exact (mkAead key q) sid p Hb) as (x & -> & Hx). cbn [try_bind].
    destruct x as [e|[seq pt]]; [by destruct Hx as [-> _]|]. destruct Hx as [Hu ->]. by destruct (Hf seq pt Hu).
Qed.

Lemma recv_all_spec ms ps arr packets seen s key sid :
  (∀ n p, vget ps n = Some p → is_u64 n ∧ ∃ m, vget ms n = Some m ∧ p = seal_with_seq (aead_new key) n sid m) →
  mapM (wire_of ps) arr = Some packets → Forall (foreign key sid) arr →
  ae_key (se_rx s) = key → se_id s = sid → tracks seen (se_window s) →
  ∃ s' l, recv_all packets s = Some (s', l) ∧ Forall2 (delivers ms) l (SessionSpec.run arr seen).
Proof.
  intros Hps. revert packets seen s. induction arr as [|a arr IH]; intros packets seen s Hm Hf Hk Hid Ht; cbn in Hm.
  { assert (packets = []) as -> by (by injection Hm). eexists _, _. split; [done|]. constructor. }
  apply bind_Some in Hm as (p & Hp & Hm). apply bind_Some in Hm as (packets' & Hm' & Hm). assert (packets = p :: packets') as -> by (by injection Hm). clear Hm; rename Hm' into Hm.
  apply Forall_cons in Hf as [Hfa Hf]. cbn [recv_all SessionSpec.run].
  pose proof (recv_arrival ms ps a p seen s key sid Hps Hp Hfa Hk Hid Ht) as Ha.
  destruct a as [n|b]; [destruct (WindowSpec.accepts seen n)|].
  - destruct Ha as (w & m & Hvm & Hw & ->). cbn [mbind option_bind ok].
    destruct (IH packets' (n :: seen) (mkSess (se_tx s) (se_rx s) w (se_id s))) as (s' & l & -> & Hl); [done..|].
    cbn [mbind option_bind]. eexists _, _. split; [done|]. constructor; [|done]. by exists m.
  - rewrite Ha. cbn [mbind option_bind err]. destruct (IH packets' seen s) as (s' & l & -> & Hl); [done..|].
    cbn [mbind option_bind]. eexists _, _. split; [done|]. by constructor.
  - rewrite Ha. cbn [mbind option_bind err]. destruct (IH packets' seen s) as (s' & l & -> & Hl); [done..|].
    cbn [mbind option_bind]. eexists _, _. split; [done|]. by constructor.
Qed.

Lemma delivered_once arr seen : NoDup (delivered (SessionSpec.run arr seen)) ∧
  ∀ n, n ∈ delivered (SessionSpec.run arr seen) → n ∉ seen.
Proof.
  revert seen. induction arr as [|a arr IH]; intros seen; cbn.
  { split; [constructor|]. by intros n ?%elem_of_nil. }
  destruct a as [n|b]; [|apply IH]. destruct (WindowSpec.accepts seen n) eqn:E; [|apply IH].
  apply andb_true_iff in E as [Hn%bool_decide_eq_true _]. destruct (IH (n :: seen)) as [H1 H2]. cbn. split.
  - constructor; [|done]. intros Hin%H2. by destruct Hin; left.
  - intros x [->|Hx]%elem_of_cons; [done|]. apply H2 in Hx. set_solver.
Qed.

End session_proofs.

(** [C22] The 64-bit window decides on every sequence of numbers exactly as a
    receiver that remembers all it accepted: it refuses what it has seen and
    what is 64 or more below the greatest, and nothing else. *)
Theorem replay_window_exact seqs : (window_run seqs window_new).1 = (WindowSpec.run seqs []).1.
Proof. by apply window_run_spec. Qed.

(** [C21] Two ends of a session with swapped keys: whatever the network loses,
    reorders, repeats or injects, each arrival delivers the message with its
    number or the error its specification prescribes, nothing panics, and no
    message is delivered twice. *)
Theorem session_delivers_once `{Primitives} k1 k2 sid ms : zlen ms ≤ u64_max →
  ∃ s ps, send_all ms (session_new k1 k2 sid) = Some (s, ps) ∧
    ∀ arr packets, mapM (wire_of ps) arr = Some packets → Forall (foreign k1 sid) arr →
      ∃ s' l, recv_all packets (session_new k2 k1 sid) = Some (s', l) ∧
        Forall2 (delivers ms) l (SessionSpec.run arr []) ∧ NoDup (delivered (SessionSpec.run arr [])).
Proof.
  intros Hn. destruct (send_all_spec ms (aead_new k1) (aead_new k2) window_new sid) as (s & ps & E & Hps); [done|done|].
  exists s, ps. split; [done|]. intros arr packets Hm Hf.
  destruct (recv_all_spec ms ps arr packets [] (session_new k2 k1 sid) k1 sid) as (s' & l & El & Hl); try done.
  - intros n p (m & Hvm & ->)%Hps. split; [|by exists m]. apply vget_bound in Hvm. unfold is_u64. lia.
  - exists s', l. split; [done|]. split; [done|]. apply delivered_once.
Qed.

(** The third message overtakes the others, the first is repeated, and a
    packet is injected. *)
Lemma session_delivers_once_witness :
  SessionSpec.run [Sent 2; Sent 0; Forged [1; 2]; Sent 0; Sent 1] [] = [inr 2; inr 0; inl InvalidEncoding; inl Replay; inr 1] ∧
  ∃ s ps, send_all (PR := toy_primitives) [[7]; [8; 9]; []] (session_new [1] [2] [3]) = Some (s, ps) ∧
    ∃ packets, mapM (wire_of ps) [Sent 2; Sent 0; Forged [1; 2]; Sent 0; Sent 1] = Some packets ∧
    ∃ s' l, recv_all (PR := toy_primitives) packets (session_new [2] [1] [3]) = Some (s', l) ∧
      Forall2 (delivers [[7]; [8; 9]; []]) l [inr 2; inr 0; inl InvalidEncoding; inl Replay; inr 1].
Proof.
  split; [reflexivity|].
  destruct (@session_delivers_once toy_primitives [1] [2] [3] [[7]; [8; 9]; []]) as (s & ps & E & H); [vm_compute; congruence|].
  exists s, ps. split; [exact E|]. vm_compute in E. injection E as <- <-.
  eexists. split; [reflexivity|].
  match goal with |- context [recv_all ?pk _] => destruct (H [Sent 2; Sent 0; Forged [1; 2]; Sent 0; Sent 1] pk) as (s' & l & E & Hl & _) end.
  - reflexivity.
  - rewrite !Forall_cons. refine (conj I (conj I (conj (conj _ _) (conj I (conj I _))))); [by repeat constructor| |constructor].
    intros seq pt _ Hb. apply (f_equal zlen) in Hb. rewrite zlen_seal in Hb.
    pose proof (zlen_nonneg pt). change (zlen [1; 2]) with 2 in Hb. lia.
  - exists s', l. split; [exact E|]. exact Hl.
Defined.
