(* ===== verification/GmCookie.v ===== *)
(** * GM-PQ: the stateless cookie challenge

    Models [crates/gm-pq-stack/src/handshake/cookie.rs].  The clock is an
    argument: [now] is the result of [now_secs], and the random secret of
    [CookieIssuer::new] is an argument of [cookie_new].  The module
    [CookieSpec] says which cookies are good. *)

From S2P Require Import Prelude Bytes GmCrypto.

Definition DEFAULT_COOKIE_TTL_SECS : Z := 30.
Definition COOKIE_LEN : Z := 8 + 32.
Definition HMAC_KEY_LABEL : list Z := [103; 109; 45; 112; 113; 45; 115; 116; 97; 99; 107; 47; 99; 111; 111; 107; 105; 101; 47; 118; 49].

Section cookie.
Context {PR : Primitives}.

Record CookieIssuer := mkCookie {
  ck_secret : list Z;
  ck_ttl_secs : Z
}.

Definition cookie_new (random : list Z) (ttl_secs : Z) : CookieIssuer := mkCookie random ttl_secs.
Definition cookie_from_secret (secret : list Z) (ttl_secs : Z) : CookieIssuer := mkCookie secret ttl_secs.

Definition cookie_mac (ts : Z) (client_tag e_pk : list Z) (c : CookieIssuer) : list Z :=
  let key := sm3 [HMAC_KEY_LABEL; ck_secret c] in
  hmac_sm3 key (concat [to_be 8 ts; client_tag; e_pk]).

Definition cookie_issue (now : Z) (client_tag e_pk : list Z) (c : CookieIssuer) : list Z :=
  let ts := now in
  let tag := cookie_mac ts client_tag e_pk c in
  to_be 8 ts ++ tag.

(** The comparison that accumulates the differences of all bytes. *)
Fixpoint ct_diff (diff : Z) (expect got : list Z) : Z :=
  match expect, got with
  | a :: expect', b :: got' => ct_diff (Z.lor diff (Z.lxor a b)) expect' got'
  | _, _ => diff
  end.

Definition cookie_verify (now : Z) (client_tag e_pk cookie : list Z) (c : CookieIssuer) : res GmError unit :=
  if negb (zlen cookie =? COOKIE_LEN) then err InvalidEncoding else
  b ← slice cookie 0 8;
  let ts := from_be b in
  limit ← add_chk u64_max now 5;
  if (limit <? ts) || (ck_ttl_secs c <? Z.max 0 (now - ts)) then err HandshakeState else
  let expect := cookie_mac ts client_tag e_pk c in
  got ← slice cookie 8 (zlen cookie);
  if negb (ct_diff 0 expect got =? 0) then err HandshakeState else ok tt.

(** ** The comparison is equality *)

Lemma ct_diff_zero expect got d : length expect = length got →
  ct_diff d expect got = 0 ↔ d = 0 ∧ expect = got.
Proof.
  revert got d. induction expect as [|a l IH]; intros [|b got] d Hl; try done; cbn.
  { naive_solver. }
  rewrite IH by (cbn in Hl; lia). rewrite Z.lor_eq_0_iff, Z.lxor_eq_0_iff. naive_solver.
Qed.

Lemma zlen_mac ts t e c : zlen (cookie_mac ts t e c) = 32.
Proof. apply zlen_hmac. Qed.

End cookie.

Module CookieSpec.
Section spec.
Context {PR : Primitives}.

(** A good cookie: issued under this secret for this client and this key,
    not too old and not from the future. *)
Definition good (now : Z) (client_tag e_pk cookie : list Z) (c : CookieIssuer) : Prop :=
  ∃ ts, is_u64 ts ∧ ts ≤ now + 5 ∧ now - ts ≤ ck_ttl_secs c ∧ cookie = cookie_issue ts client_tag e_pk c.

End spec.
End CookieSpec.

Section cookie_proofs.
Context {PR : Primitives}.

Lemma verify_good now t e k c : Forall is_byte k → 0 ≤ ck_ttl_secs c → now + 5 ≤ u64_max →
  ∃ x, cookie_verify now t e k c = Some x ∧
    match x with
    | inr _ => CookieSpec.good now t e k c
    | inl er => er = (if zlen k =? COOKIE_LEN then HandshakeState else InvalidEncoding) ∧ ¬ CookieSpec.good now t e k c
    end.
Proof.
  intros Hb Httl Hnow. unfold cookie_verify, CookieSpec.good, cookie_issue.
  destruct (Z.eqb_spec (zlen k) COOKIE_LEN) as [Hl|Hl]; cbn [negb].
  2:{ eexists. split; [done|]. split; [done|]. intros (ts & _ & _ & _ & ->). destruct Hl. rewrite zlen_app, zlen_mac.
      unfold zlen. by rewrite length_to_be. }
  unfold COOKIE_LEN in Hl. rewrite !slice_ok by lia. cbn [mbind option_bind]. rewrite add_chk_ok by done. cbn [mbind option_bind].
  change (drop (Z.to_nat 0) k) with k. change (Z.to_nat (8 - 0)) with 8%nat. change (Z.to_nat 8) with 8%nat.
  rewrite (take_ge (drop 8 k)) by (rewrite length_drop; unfold zlen in *; lia).
  set (b := take 8 k). assert (length b = 8%nat) as Hlb by (unfold b; rewrite length_take; unfold zlen in *; lia).
  assert (to_be 8 (from_be b) = b ∧ is_u64 (from_be b)) as [Hts Hu].
  { rewrite <-Hlb. apply to_from_be_u64; [by apply Forall_take|lia]. }
  assert (∀ ts, is_u64 ts → k = to_be 8 ts ++ cookie_mac ts t e c → ts = from_be b) as Hinv.
  { intros ts Hu' ->. unfold b. rewrite take_app_length' by by rewrite length_to_be. rewrite from_to_be; [done|]. unfold is_u64, u64_max in Hu'. lia. }
  destruct (_ || _) eqn:Et.
  - eexists. split; [done|]. split; [done|]. intros (ts & Hu' & H1 & H2 & Hk). rewrite (Hinv ts Hu' Hk) in *.
    apply orb_true_iff in Et as [?%Z.ltb_lt|?%Z.ltb_lt]; lia.
  - apply orb_false_iff in Et as [?%Z.ltb_ge ?%Z.ltb_ge].
    assert (length (cookie_mac (from_be b) t e c) = length (drop 8 k)) as Hlen.
    { rewrite length_drop. pose proof (zlen_mac (from_be b) t e c). unfold zlen in *. lia. }
    destruct (Z.eqb_spec (ct_diff 0 (cookie_mac (from_be b) t e c) (drop 8 k)) 0) as [Hd|Hd]; cbn [negb].
    + eexists. split; [done|]. exists (from_be b). split; [done|]. split; [lia|]. split; [lia|].
      apply ct_diff_zero in Hd as [_ Hd]; [|done]. rewrite Hts, Hd. unfold b. by rewrite take_drop.
    + eexists. split; [done|]. split; [done|]. intros (ts & Hu' & H1 & H2 & Hk). destruct Hd.
      rewrite <-(Hinv ts Hu' Hk). rewrite Hk, drop_app_length' by by rewrite length_to_be.
      by apply ct_diff_zero.
Qed.

(** The issuer's own cookie, within its time. *)
Lemma verify_issued now now' t e c : is_u64 now → now ≤ now' + 5 → now' - now ≤ ck_ttl_secs c → 0 ≤ ck_ttl_secs c → now' + 5 ≤ u64_max →
  zlen (cookie_issue now t e c) = COOKIE_LEN ∧ cookie_verify now' t e (cookie_issue now t e c) c = ok tt.
Proof.
  intros Hu H1 H2 H3 H4. unfold cookie_verify, cookie_issue. assert (zlen (to_be 8 now) = 8) as H8 by (unfold zlen; by rewrite length_to_be).
  rewrite zlen_app, H8, zlen_mac. split; [done|]. change (negb (8 + 32 =? COOKIE_LEN)) with false. cbv iota.
  rewrite slice_head by done. cbn [mbind option_bind]. rewrite add_chk_ok by done. cbn [mbind option_bind].
  rewrite from_to_be by (unfold is_u64, u64_max in Hu; lia).
  rewrite (proj2 (Z.ltb_ge (now' + 5) now)), (proj2 (Z.ltb_ge (ck_ttl_secs c) _)) by lia. cbn [orb].
  rewrite slice_tail by (rewrite ?zlen_app, ?zlen_mac; lia). cbn [mbind option_bind].
  by rewrite (proj2 (ct_diff_zero _ _ 0 eq_refl)).
Qed.

(** A collision of HMAC-SM3 under the issuer's key exhibited by two given
    inputs. *)
Definition hmac_collision (c : CookieIssuer) (x y : list Z) : Prop :=
  let key := sm3 [HMAC_KEY_LABEL; ck_secret c] in x ≠ y ∧ hmac_sm3 key x = hmac_sm3 key y.

(** A cookie that is good for two clients or two keys is a collision. *)
Lemma good_binds now now' t e t' e' k c : zlen e = zlen e' →
  CookieSpec.good now t e k c → CookieSpec.good now' t' e' k c →
  t = t' ∧ e = e' ∨ hmac_collision c (take 8 k ++ t ++ e) (take 8 k ++ t' ++ e').
Proof.
  intros Hl (ts & Hu & _ & _ & ->) (ts' & Hu' & _ & _ & E). unfold cookie_issue in E.
  apply app_inj_1 in E as [E1 E2]; [|by rewrite !length_to_be].
  assert (ts = ts') as <-.
  { apply (f_equal from_be) in E1. unfold is_u64, u64_max in *. by rewrite !from_to_be in E1 by lia. }
  unfold cookie_mac in E2. cbn [concat] in E2. rewrite !app_nil_r in E2.
  destruct (decide (to_be 8 ts ++ t ++ e = to_be 8 ts ++ t' ++ e')) as [Heq|Hne].
  - left. apply app_inv_head in Heq. apply app_inj_2 in Heq; [done|]. unfold zlen in Hl. lia.
  - right. unfold cookie_issue. rewrite take_app_length' by by rewrite length_to_be. by split.
Qed.

End cookie_proofs.

(** A cookie is accepted exactly when it was issued under this secret for
    this client tag and this ephemeral key, at most the time to live ago and
    at most five seconds ahead of the clock; anything else is an error and
    nothing panics.  A cookie accepted for another tag or another key of the
    same length makes the two authenticated inputs collide under HMAC-SM3. *)
Theorem cookie_challenge_exact `{Primitives} now t e k c :
  Forall is_byte k → 0 ≤ ck_ttl_secs c → now + 5 ≤ u64_max →
  (CookieSpec.good now t e k c → cookie_verify now t e k c = ok tt) ∧
  (¬ CookieSpec.good now t e k c →
     cookie_verify now t e k c = err (if zlen k =? COOKIE_LEN then HandshakeState else InvalidEncoding)) ∧
  (∀ t' e', zlen e = zlen e' → cookie_verify now t e k c = ok tt → cookie_verify now t' e' k c = ok tt →
     t = t' ∧ e = e' ∨ hmac_collision c (take 8 k ++ t ++ e) (take 8 k ++ t' ++ e')).
Proof.
  intros Hb Ht Hn. destruct (verify_good now t e k c Hb Ht Hn) as (x & -> & Hx). split; [|split].
  - destruct x as [er|[]]; [|done]. destruct Hx; tauto.
  - destruct x as [er|[]]; [|tauto]. by destruct Hx as [-> _].
  - intros t' e' Hl Hk Hk'. destruct (verify_good now t' e' k c Hb Ht Hn) as (x' & Ex & Hx'). rewrite Hk' in Ex.
    unfold ok in *. simplify_eq. by eapply good_binds.
Qed.

Lemma cookie_challenge_exact_witness :
  let c := @cookie_from_secret [5] 30 in
  let k := @cookie_issue toy_primitives 100 [1; 2] [9; 9] c in
  @cookie_verify toy_primitives 120 [1; 2] [9; 9] k c = ok tt ∧
  @cookie_verify toy_primitives 131 [1; 2] [9; 9] k c = err HandshakeState.
Proof.
  intros c k. assert (Forall is_byte k) as Hk by (vm_compute; repeat constructor; done). split.
  - apply (@cookie_challenge_exact toy_primitives 120 [1; 2] [9; 9] k c Hk); [done|done|].
    exists 100. split; [done|]. split; [lia|]. split; [cbn; lia|]. reflexivity.
  - refine (proj1 (proj2 (@cookie_challenge_exact toy_primitives 131 [1; 2] [9; 9] k c Hk _ _)) _); [done|done|].
    intros (ts & Hu & _ & H & E). apply app_inj_1 in E as [E _]; [|reflexivity].
    apply (f_equal from_be) in E. unfold is_u64, u64_max in Hu. rewrite !from_to_be in E by lia. cbn in H. lia.
Defined.
