(* ===== verification/GmPsk.v ===== *)
(** * GM-PQ: resumption tickets

    Models [crates/gm-pq-stack/src/handshake/psk.rs].  The clock is an
    argument, and so are the random bytes of a fresh ticket. *)

From S2P Require Import Prelude Bytes GmCrypto.

Definition TICKET_PLAIN_LEN : Z := 1 + 32 + 16 + 8 + 32.
Definition TICKET_LEN : Z := 12 + TICKET_PLAIN_LEN + 16.
Definition TICKET_KEY_INFO : list Z := [116; 105; 99; 107; 101; 116; 45; 107; 101; 121].
(** The additional data of a sealed ticket, ["ticket"]. *)
Definition TICKET_AAD : list Z := [116; 105; 99; 107; 101; 116].

Record TicketIssuer := mkIssuer { ti_key : list Z }.

Record TicketPayload := mkPayload {
  tp_psk : list Z;
  tp_ticket_id : list Z;
  tp_expires_at : Z;
  tp_client_pk_fingerprint : list Z
}.

(** What [getrandom] fills in while a ticket is issued. *)
Record TicketRandom := mkRandom {
  tk_psk : list Z;
  tk_id : list Z;
  tk_nonce : list Z
}.

Section tickets.
Context {PR : Primitives}.

Definition issuer_from_master (master : list Z) : option TicketIssuer :=
  key ← hkdf_expand (sm3 [master]) TICKET_KEY_INFO 16;
  if zlen key =? 16 then Some (mkIssuer key) else None.

Definition issuer_new (random : list Z) : option TicketIssuer := issuer_from_master random.

Definition ticket_plain (r : TicketRandom) (expires_at : Z) (fp : list Z) : list Z :=
  [1] ++ tk_psk r ++ tk_id r ++ to_be 8 expires_at ++ fp.

(** The sum of the clock and the time to live is checked. *)
Definition ticket_issue (r : TicketRandom) (now : Z) (client_static_pk : list Z) (ttl_secs : Z) (i : TicketIssuer)
    : option (list Z * list Z) :=
  expires_at ← add_chk u64_max now ttl_secs;
  let fp := sm3 [client_static_pk] in
  let '(ct, tag) := sm4_encrypt_gcm (ti_key i) (tk_nonce r) TICKET_AAD (ticket_plain r expires_at fp) in
  Some (tk_nonce r ++ ct ++ tag, tk_psk r).

Definition ticket_open (now : Z) (ticket : list Z) (i : TicketIssuer) : res GmError TicketPayload :=
  if negb (zlen ticket =? TICKET_LEN) then err InvalidEncoding else
  nonce ← slice ticket 0 12;
  ct ← slice ticket 12 (zlen ticket - 16);
  tag ← slice ticket (zlen ticket - 16) (zlen ticket);
  match sm4_decrypt_gcm (ti_key i) nonce TICKET_AAD ct tag with
  | None => err AuthFailed
  | Some plain =>
      if negb (zlen plain =? TICKET_PLAIN_LEN) then err InvalidEncoding else
      version ← vget plain 0;
      if negb (version =? 1) then err InvalidEncoding else
      e ← slice plain 49 57;
      let expires_at := from_be e in
      if expires_at <? now then err HandshakeState else
      psk ← slice plain 1 33;
      id ← slice plain 33 49;
      fp ← slice plain 57 89;
      ok (mkPayload psk id expires_at fp)
  end.

End tickets.

(** ** The one-time cache *)

Record TicketCache := mkTCache { tc_seen : gmap (list Z) Z }.

Definition tcache_new : TicketCache := mkTCache ∅.

Definition gc (now : Z) (c : TicketCache) : TicketCache := mkTCache (filter (λ e, now < e.2) (tc_seen c)).

(** The expired entries are purged in any case. *)
Definition check_and_insert (now : Z) (ticket_id : list Z) (expires_at : Z) (c : TicketCache)
    : TicketCache * (GmError + unit) :=
  let c := gc now c in
  match tc_seen c !! ticket_id with
  | Some _ => (c, inl Replay)
  | None => (mkTCache (<[ticket_id := expires_at]> (tc_seen c)), inr tt)
  end.

(** Tickets offered to one cache, each with the time of the offer. *)
Fixpoint offers (l : list (Z * list Z * Z)) (c : TicketCache) : TicketCache * list bool :=
  match l with
  | [] => (c, [])
  | (now, id, exp) :: l' =>
      let '(c, r) := check_and_insert now id exp c in
      let '(c, rs) := offers l' c in
      (c, (match r with inr _ => true | inl _ => false end) :: rs)
  end.

(** ** Tickets open to what was sealed *)

Section ticket_proofs.
Context {PR : Primitives}.

Definition good_random (r : TicketRandom) : Prop :=
  zlen (tk_psk r) = 32 ∧ zlen (tk_id r) = 16 ∧ zlen (tk_nonce r) = 12.

Lemma zlen_ticket_plain r exp fp : good_random r → zlen fp = 32 → zlen (ticket_plain r exp fp) = TICKET_PLAIN_LEN.
Proof.
  intros (H1 & H2 & _) H3. unfold ticket_plain. rewrite !zlen_app, H1, H2, H3. unfold zlen. by rewrite length_to_be.
Qed.

(** Where the fields are. *)
Lemma ticket_plain_fields r exp fp : good_random r → zlen fp = 32 →
  let plain := ticket_plain r exp fp in
  vget plain 0 = Some 1 ∧ slice plain 49 57 = Some (to_be 8 exp) ∧ slice plain 1 33 = Some (tk_psk r) ∧
  slice plain 33 49 = Some (tk_id r) ∧ slice plain 57 89 = Some fp.
Proof.
  intros (H1 & H2 & _) H3. cbv zeta. unfold ticket_plain.
  assert (zlen (to_be 8 exp) = 8) as H8 by (unfold zlen; by rewrite length_to_be).
  assert (zlen [1] = 1) as Hv by done.
  split; [done|]. split; [|split; [|split]].
  - rewrite !app_assoc, <-app_assoc. apply slice_app3; rewrite !zlen_app; lia.
  - apply slice_app3; lia.
  - rewrite app_assoc. apply slice_app3; rewrite !zlen_app; lia.
  - rewrite !app_assoc. apply slice_tail; rewrite !zlen_app; lia.
Qed.

Lemma open_issued r now pk ttl i ticket psk now' : good_random r → 0 ≤ now → 0 ≤ ttl →
  ticket_issue r now pk ttl i = Some (ticket, psk) →
  psk = tk_psk r ∧
  ticket_open now' ticket i =
    if now + ttl <? now' then err HandshakeState
    else ok (mkPayload psk (tk_id r) (now + ttl) (sm3 [pk])).
Proof.
  intros Hr Hn Ht Hi. unfold ticket_issue in Hi. apply bind_Some in Hi as (exp & [-> Hx]%add_chk_Some & Hi).
  set (plain := ticket_plain r (now + ttl) (sm3 [pk])) in *.
  assert (zlen plain = TICKET_PLAIN_LEN) as Hp by (apply zlen_ticket_plain; [done|apply zlen_hash]).
  pose proof (zlen_gcm (ti_key i) (tk_nonce r) TICKET_AAD plain) as [Hc Htag].
  destruct (sm4_encrypt_gcm (ti_key i) (tk_nonce r) TICKET_AAD plain) as [ct tag] eqn:E. cbn [fst snd] in Hc, Htag.
  injection Hi as <- <-. split; [done|]. destruct Hr as (Hr1 & Hr2 & Hr3). unfold TICKET_PLAIN_LEN in Hp.
  unfold ticket_open. rewrite !zlen_app, Hr3, Hc, Htag, Hp. change (12 + (1 + 32 + 16 + 8 + 32 + 16)) with 117. cbn [negb].
  rewrite slice_head by done. cbn [mbind option_bind].
  rewrite (slice_app3 (tk_nonce r) ct tag 12) by lia. cbn [mbind option_bind].
  rewrite app_assoc, slice_tail by (rewrite ?zlen_app; lia). cbn [mbind option_bind].
  rewrite (proj2 (gcm_exact _ _ _ _ _ _) E), Hp. cbn [negb Z.eqb Pos.eqb Z.add Pos.add Pos.succ TICKET_PLAIN_LEN].
  unfold plain. destruct (ticket_plain_fields r (now + ttl) (sm3 [pk])) as (-> & -> & -> & -> & ->); [done|apply zlen_hash|].
  cbn [mbind option_bind negb Z.eqb Pos.eqb]. rewrite from_to_be by (unfold u64_max in Hx; lia).
  by destruct (now + ttl <? now').
Qed.

Lemma issue_ok r now pk ttl i : good_random r → now + ttl ≤ u64_max →
  ∃ ticket, ticket_issue r now pk ttl i = Some (ticket, tk_psk r) ∧ zlen ticket = TICKET_LEN.
Proof.
  intros Hr Hn. unfold ticket_issue. rewrite add_chk_ok by done. cbn [mbind option_bind].
  pose proof (zlen_ticket_plain r (now + ttl) (sm3 [pk]) Hr (zlen_hash _)) as Hp.
  pose proof (zlen_gcm (ti_key i) (tk_nonce r) TICKET_AAD (ticket_plain r (now + ttl) (sm3 [pk]))) as [H1 H2].
  destruct (sm4_encrypt_gcm _ _ _ _) as [ct tag]. cbn [fst snd] in H1, H2. eexists. split; [done|].
  destruct Hr as (_ & _ & H3). rewrite !zlen_app, H1, H2, H3, Hp. done.
Qed.

(** Any bytes: opening never panics, and what it returns was sealed under
    the ticket key. *)
Lemma ticket_open_total now ticket i : ∃ x, ticket_open now ticket i = Some x ∧
  match x with
  | inl _ => True
  | inr p => ∃ nonce plain, sm4_encrypt_gcm (ti_key i) nonce TICKET_AAD plain = (drop 12 (take 101 ticket), drop 101 ticket) ∧
      ticket = nonce ++ drop 12 ticket ∧
      plain = [1] ++ tp_psk p ++ tp_ticket_id p ++ take 8 (drop 49 plain) ++ tp_client_pk_fingerprint p ∧
      tp_expires_at p = from_be (take 8 (drop 49 plain)) ∧ now ≤ tp_expires_at p
  end.
Proof.
  unfold ticket_open, TICKET_LEN, TICKET_PLAIN_LEN. destruct (Z.eqb_spec (zlen ticket) (12 + (1 + 32 + 16 + 8 + 32) + 16)) as [Hl|]; cbn [negb]; [|by eexists].
  change (12 + (1 + 32 + 16 + 8 + 32) + 16) with 117 in Hl. rewrite !Hl, !slice_ok by lia. cbn [mbind option_bind].
  change (drop (Z.to_nat 0) ticket) with ticket. change (Z.to_nat (12 - 0)) with 12%nat. change (Z.to_nat 12) with 12%nat.
  change (Z.to_nat (117 - 16 - 12)) with 89%nat. change (Z.to_nat (117 - 16)) with 101%nat. change (Z.to_nat (117 - (117 - 16))) with 16%nat.
  destruct (sm4_decrypt_gcm _ _ _ _ _) as [plain|] eqn:E; [|by eexists]. apply gcm_exact in E.
  destruct (Z.eqb_spec (zlen plain) (1 + 32 + 16 + 8 + 32)) as [Hp|]; cbn [negb]; [|by eexists].
  change (1 + 32 + 16 + 8 + 32) with 89 in Hp. rewrite !slice_ok by lia.
  destruct plain as [|v plain]; [by cbn in Hp|]. rewrite vget_cons. cbn [Z.eqb mbind option_bind].
  destruct (Z.eqb_spec v 1) as [->|]; cbn [negb]; [|by eexists].
  match goal with |- context [from_be ?e <? now] => destruct (Z.ltb_spec (from_be e) now) as [|Hx]; [by eexists|] end.
  eexists. split; [done|]. eexists _, _. split; [|split; [|split; [|split; [reflexivity|exact Hx]]]].
  - rewrite E. f_equal; [|apply take_ge; rewrite length_drop; unfold zlen in *; lia].
    by rewrite take_drop_commute.
  - by rewrite take_drop.
  - cbn [tp_psk tp_ticket_id tp_client_pk_fingerprint app]. f_equal. rewrite zlen_cons in Hp. unfold zlen in Hp.
    change (Z.to_nat (33 - 1)) with 32%nat. change (Z.to_nat 1) with 1%nat. change (Z.to_nat (49 - 33)) with 16%nat.
    change (Z.to_nat 33) with 33%nat. change (Z.to_nat (89 - 57)) with 32%nat. change (Z.to_nat 57) with 57%nat. cbn [drop].
    rewrite (take_ge (drop 56 plain)) by (rewrite length_drop; lia).
    assert (drop 56 plain = drop 8 (drop 48 plain)) as -> by (by rewrite drop_drop). rewrite (take_drop 8).
    assert (drop 48 plain = drop 16 (drop 32 plain)) as -> by (by rewrite drop_drop). rewrite (take_drop 16). by rewrite take_drop.
Qed.

End ticket_proofs.

(** ** A ticket is taken once *)

Lemma gc_keeps now id exp c : tc_seen c !! id = Some exp → now < exp → tc_seen (gc now c) !! id = Some exp.
Proof. intros H1 H2. cbn. by apply map_lookup_filter_Some. Qed.

(** ... and forgets a ticket at its expiry time. *)
Lemma gc_drops now id exp c : tc_seen c !! id = Some exp → exp ≤ now → tc_seen (gc now c) !! id = None.
Proof. intros H1 H2. cbn. apply map_lookup_filter_None. right. intros x Hx. simplify_eq. cbn. lia. Qed.

Lemma accepted_recorded now id exp c :
  (check_and_insert now id exp c).2 = inr tt → tc_seen (check_and_insert now id exp c).1 !! id = Some exp.
Proof. unfold check_and_insert. case_match; [done|]. intros _. cbn. by rewrite lookup_insert_eq. Qed.

Lemma offers_keep l id exp c : Forall (λ o, o.1.1 < exp) l → tc_seen c !! id = Some exp →
  tc_seen (offers l c).1 !! id = Some exp.
Proof.
  revert c. induction l as [|[[now id'] exp'] l IH]; intros c Hl Hc; [done|]. apply Forall_cons in Hl as [Hn Hl]. cbn in Hn.
  cbn [offers]. unfold check_and_insert. pose proof (gc_keeps now id exp c Hc Hn) as Hg.
  destruct (tc_seen (gc now c) !! id') as [e|] eqn:E; cbn [fst].
  - specialize (IH _ Hl Hg). destruct (offers l (gc now c)) as [c' rs]. done.
  - assert (id' ≠ id) as Hne by congruence.
    specialize (IH (mkTCache (<[id':=exp']> (tc_seen (gc now c)))) Hl). destruct (offers l _) as [c' rs] eqn:Eo.
    cbn in IH |- *. apply IH. by rewrite lookup_insert_ne.
Qed.

(** A ticket that the cache has let through is refused, whatever else is
    offered in between, as long as its expiry time is not reached. *)
Theorem ticket_taken_once c id exp now0 between now exp' :
  (check_and_insert now0 id exp c).2 = inr tt →
  Forall (λ o, o.1.1 < exp) between → now < exp →
  let c1 := (check_and_insert now0 id exp c).1 in
  (check_and_insert now id exp' (offers between c1).1).2 = inl Replay.
Proof.
  intros H0 Hb Hn c1. pose proof (accepted_recorded now0 id exp c H0) as Hc. fold c1 in Hc.
  pose proof (offers_keep between id exp c1 Hb Hc) as Hk. pose proof (gc_keeps now id exp _ Hk Hn) as Hg.
  unfold check_and_insert. by rewrite Hg.
Qed.

Lemma ticket_taken_once_witness :
  (check_and_insert 120 [7] 200 (offers [(110, [8], 300); (150, [7], 200)] (check_and_insert 100 [7] 200 tcache_new).1).1).2 = inl Replay.
Proof.
  apply (ticket_taken_once tcache_new [7] 200 100 [(110, [8], 300); (150, [7], 200)] 120 200).
  - vm_compute. reflexivity.
  - repeat constructor.
  - lia.
Defined.

(** At the very second of its expiry a ticket still opens, but the cache
    has forgotten it: the same ticket is let through any number of times. *)
Theorem ticket_replayed_at_expiry `{Primitives} r now pk ttl i ticket psk c :
  good_random r → 0 ≤ now → 0 ≤ ttl → ticket_issue r now pk ttl i = Some (ticket, psk) →
  (check_and_insert (now + ttl) (tk_id r) (now + ttl) c).2 = inr tt →
  ticket_open (now + ttl) ticket i = ok (mkPayload psk (tk_id r) (now + ttl) (sm3 [pk])) ∧
  let c1 := (check_and_insert (now + ttl) (tk_id r) (now + ttl) c).1 in
  (check_and_insert (now + ttl) (tk_id r) (now + ttl) c1).2 = inr tt.
Proof.
  intros Hr Hn Ht Hi H0. destruct (open_issued r now pk ttl i ticket psk (now + ttl) Hr Hn Ht Hi) as [_ Ho].
  rewrite Z.ltb_irrefl in Ho. split; [done|]. intros c1.
  assert (tc_seen (gc (now + ttl) c1) !! tk_id r = None) as Hg.
  { unfold c1, check_and_insert in *. case_match; [done|]. cbn. apply map_lookup_filter_None. right. intros x Hx.
    rewrite lookup_insert_eq in Hx. injection Hx as <-. cbn. lia. }
  unfold check_and_insert. by rewrite Hg.
Qed.

Lemma ticket_replayed_at_expiry_witness :
  let r := mkRandom (replicate 32 1) (replicate 16 2) (replicate 12 3) in
  let c1 := (check_and_insert 160 (tk_id r) 160 tcache_new).1 in
  (check_and_insert 160 (tk_id r) 160 c1).2 = inr tt.
Proof.
  intros r.
  destruct (@ticket_issue toy_primitives r 100 [4] 60 (mkIssuer (replicate 16 9))) as [[ticket psk]|] eqn:E; [|vm_compute in E; congruence].
  refine (proj2 (@ticket_replayed_at_expiry toy_primitives r 100 [4] 60 (mkIssuer (replicate 16 9)) ticket psk tcache_new _ _ _ E _)).
  - repeat split.
  - lia.
  - lia.
  - vm_compute. reflexivity.
Defined.

(** A ticket opens to the secret, the identifier, the expiry time and the
    fingerprint it was issued with until its expiry and is refused after;
    whatever bytes are offered, opening never panics, and what it accepts
    is a plaintext sealed under the ticket key. *)
Theorem ticket_roundtrip `{Primitives} r now pk ttl i : good_random r → 0 ≤ now → 0 ≤ ttl → now + ttl ≤ u64_max →
  (∃ ticket, ticket_issue r now pk ttl i = Some (ticket, tk_psk r) ∧
    ∀ now', ticket_open now' ticket i =
      if now + ttl <? now' then err HandshakeState
      else ok (mkPayload (tk_psk r) (tk_id r) (now + ttl) (sm3 [pk]))) ∧
  ∀ now' bytes, ∃ x, ticket_open now' bytes i = Some x ∧
    match x with
    | inl _ => True
    | inr p => now' ≤ tp_expires_at p ∧ ∃ nonce e, from_be e = tp_expires_at p ∧
        (let '(ct, tag) := sm4_encrypt_gcm (ti_key i) nonce TICKET_AAD ([1] ++ tp_psk p ++ tp_ticket_id p ++ e ++ tp_client_pk_fingerprint p) in
         bytes = nonce ++ ct ++ tag)
    end.
Proof.
  intros Hr Hn Ht Hx. split.
  - destruct (ticket_issue r now pk ttl i) as [[ticket psk]|] eqn:E.
    + destruct (open_issued r now pk ttl i ticket psk 0 Hr Hn Ht E) as [-> _]. exists ticket. split; [done|].
      intros now'. by destruct (open_issued r now pk ttl i ticket (tk_psk r) now' Hr Hn Ht E).
    + unfold ticket_issue in E. rewrite add_chk_ok in E by done. cbn [mbind option_bind] in E. by case_match.
  - intros now' bytes. destruct (ticket_open_total now' bytes i) as (x & -> & H'). exists x. split; [done|].
    destruct x as [|p]; [done|]. destruct H' as (nonce & plain & E & Eb & Ep & Ee & Hle). split; [done|].
    exists nonce, (take 8 (drop 49 plain)). split; [done|]. rewrite <-Ep, E. rewrite Eb at 1. f_equal.
    rewrite <-(take_drop 89 (drop 12 bytes)). rewrite take_drop_commute, drop_drop. done.
Qed.

Lemma ticket_roundtrip_witness :
  ∃ ticket, @ticket_issue toy_primitives (mkRandom (replicate 32 1) (replicate 16 2) (replicate 12 3)) 100 [4] 60 (mkIssuer (replicate 16 9)) = Some (ticket, replicate 32 1) ∧
    @ticket_open toy_primitives 161 ticket (mkIssuer (replicate 16 9)) = err HandshakeState.
Proof.
  destruct (@ticket_roundtrip toy_primitives (mkRandom (replicate 32 1) (replicate 16 2) (replicate 12 3)) 100 [4] 60 (mkIssuer (replicate 16 9)))
    as [(ticket & E & H) _]; [repeat split|lia|lia|unfold u64_max; lia|].
  exists ticket. split; [exact E|]. exact (H 161).
Defined.
