(* ===== verification/GmTrust.v ===== *)
(** * GM-PQ: trust anchors

    Models [crates/gm-pq-stack/src/trust.rs].  The trait [TrustAnchor] is the record [TrustAnchor] of its one method, with
    the pin file and the permissive anchor as its instances. *)

From S2P Require Import Prelude Bytes RustStr GmCrypto.

(** ** Pins *)

Inductive Role := RInitiator | RResponder.

Record TrustAnchor := mkAnchor { anchor_verify : Role → list Z → GmError + unit }.

Record PinFileAnchor := mkPins { pins : gmap (list Z) (list Z) }.

Definition decode_hex32 (s : list Z) : option (option (list Z)) :=
  if negb (str_len s =? 64) then Some None else hex_loop 32 s.

Definition parse_line (line : list Z) (pins : gmap (list Z) (list Z)) : res GmError (gmap (list Z) (list Z)) :=
  let line := trim line in
  match line with
  | [] => ok pins
  | 35 :: _ => ok pins
  | _ =>
      match next_word line with
      | None => err InvalidEncoding
      | Some (name, rest) =>
          match next_word rest with
          | None => err InvalidEncoding
          | Some (hex_fp, _) =>
              d ← decode_hex32 hex_fp;
              match d with
              | None => err InvalidEncoding
              | Some fp =>
                  match pins !! fp with
                  | Some _ => err InvalidEncoding
                  | None => ok (<[fp := name]> pins)
                  end
              end
          end
      end
  end.

Fixpoint parse_lines (l : list (list Z)) (pins : gmap (list Z) (list Z)) : res GmError (gmap (list Z) (list Z)) :=
  match l with
  | [] => ok pins
  | line :: l' => pins ←? parse_line line pins; parse_lines l' pins
  end.

Definition pin_parse (data : list Z) : res GmError PinFileAnchor :=
  pins ←? parse_lines (lines data) ∅;
  if bool_decide (pins = ∅) then err InvalidEncoding else ok (mkPins pins).

Section anchors.
Context {PR : Primitives}.

Definition pins_from_keys (entries : list (list Z * list Z)) : PinFileAnchor :=
  mkPins (foldl (λ p e, <[sm3 [e.2] := e.1]> p) ∅ entries).

Definition pin_lookup (static_pk : list Z) (a : PinFileAnchor) : option (list Z) := pins a !! sm3 [static_pk].

Definition pin_verify (a : PinFileAnchor) (_role : Role) (static_pk : list Z) : GmError + unit :=
  match pin_lookup static_pk a with Some _ => inr tt | None => inl PeerAuth end.

Definition pin_anchor (a : PinFileAnchor) : TrustAnchor := mkAnchor (pin_verify a).

End anchors.

Definition AllowAllAnchor : TrustAnchor := mkAnchor (λ _ _, inr tt).

(** ** Printing a pin file *)

Inductive PinLine :=
  | Pin (name fp : list Z)
  | Remark (text : list Z)
  | Blank.

Definition print_line (l : PinLine) : list Z :=
  match l with
  | Pin name fp => name ++ 32 :: print_hex fp
  | Remark text => 35 :: text
  | Blank => []
  end.

Definition print_file (ls : list PinLine) : list Z := concat (map (λ l, print_line l ++ [10]) ls).

Definition good_line (l : PinLine) : Prop :=
  match l with
  | Pin name fp => word name ∧ head name ≠ Some 35 ∧ Forall is_byte fp ∧ zlen fp = 32
  | Remark text => 10 ∉ text
  | Blank => True
  end.

Definition entries (ls : list PinLine) : list (list Z * list Z) :=
  omap (λ l, match l with Pin name fp => Some (fp, name) | _ => None end) ls.

(** ** Reading back *)

Lemma print_line_no_lf l : good_line l → 10 ∉ print_line l.
Proof.
  destruct l as [name fp|text|]; cbn; [|intros H; by apply not_elem_of_cons|intros _; apply not_elem_of_nil].
  intros (Hw & _ & Hb & _). rewrite not_elem_of_app, not_elem_of_cons. split_and!; [by apply word_no_lf|done|by apply print_hex_facts].
Qed.

Lemma parse_pin name fp pins : good_line (Pin name fp) → pins !! fp = None →
  parse_line (strip_cr (print_line (Pin name fp))) pins = ok (<[fp := name]> pins).
Proof.
  intros (Hw & Hh & Hb & Hl) Hp. cbn [print_line]. pose proof (hex_word fp Hb Hl) as Hx.
  destruct (print_hex_facts fp Hb) as (_ & _ & Hlen & Hlast).
  assert (strip_cr (name ++ 32 :: print_hex fp) = name ++ [32] ++ print_hex fp) as ->.
  { destruct Hlast as (s & c & -> & Hc); [by intros ->|]. cbn [app]. rewrite app_comm_cons, app_assoc. by apply strip_cr_last. }
  unfold parse_line. rewrite trim_words by done.
  rewrite (next_word_app name ([32] ++ print_hex fp)) by done.
  assert (next_word ([32] ++ print_hex fp) = Some (print_hex fp, [])) as ->.
  { pose proof (next_word_app (print_hex fp) [] Hx I) as Hn. rewrite app_nil_r in Hn. exact Hn. }
  unfold decode_hex32. rewrite Hlen, Hl. change (negb (2 * 32 =? 64)) with false. cbv iota.
  assert (length fp = 32%nat) as Hl' by (unfold zlen in Hl; lia). rewrite <-Hl', hex_loop_print by done.
  cbn [mbind option_bind]. rewrite Hp. destruct name as [|c name]; [by destruct Hw|].
  cbn [app]. cbn in Hh. repeat (case_match; try done).
Qed.

Lemma parse_remark text pins : parse_line (strip_cr (print_line (Remark text))) pins = ok pins.
Proof.
  cbn [print_line]. destruct (strip_cr_cons 35 text) as [s ->]; [done|]. unfold parse_line.
  destruct (trim_head 35 s) as [s' ->]; done.
Qed.

Lemma parse_lines_print ls p : Forall good_line ls → NoDup (entries ls).*1 →
  (∀ fp, fp ∈ (entries ls).*1 → p !! fp = None) →
  parse_lines (lines (print_file ls)) p = ok (list_to_map (entries ls) ∪ p).
Proof.
  unfold lines. revert p. induction ls as [|l ls IH]; intros p Hg Hnd Hp.
  { cbn. by rewrite (left_id_L ∅ (∪)). }
  apply Forall_cons in Hg as [Hl Hg]. cbn [print_file map concat]. fold (print_file ls).
  rewrite <-app_assoc. cbn [app]. rewrite lines_from_line by by apply print_line_no_lf. cbn [reverse rev_append app parse_lines].
  destruct l as [name fp|text|].
  - cbn [entries omap list_omap fmap list_fmap fst] in *. fold (entries ls) in *. apply NoDup_cons in Hnd as [Hn Hnd].
    try_with (parse_pin name fp p Hl (Hp fp ltac:(left))). rewrite IH; [|done|done|].
    + f_equal. rewrite list_to_map_cons, <-insert_union_l. symmetry. apply insert_union_r. by apply not_elem_of_list_to_map.
    + intros x Hx. rewrite lookup_insert_ne by (intros <-; done). apply Hp. by right.
  - try_with (parse_remark text p). by apply IH.
  - cbn [print_line]. assert (parse_line (strip_cr []) p = ok p) as Hb by done. try_with Hb. by apply IH.
Qed.

Section pin_files.
Context {PR : Primitives}.

(** Which keys a table of fingerprints lets through. *)
Lemma pin_verify_spec l role pk :
  pin_verify (mkPins (list_to_map l)) role pk = inr tt ↔ sm3 [pk] ∈ l.*1.
Proof.
  unfold pin_verify, pin_lookup. cbn [pins]. destruct (list_to_map l !! sm3 [pk]) as [x|] eqn:E.
  - split; [|done]. intros _. apply elem_of_list_to_map_2 in E. apply list_elem_of_fmap. by exists (sm3 [pk], x).
  - split; [done|]. intros Hin. by apply not_elem_of_list_to_map in E.
Qed.

End pin_files.

(** A pin file with comments and blank lines is read back as exactly its
    pins, and the anchor then lets through exactly the keys whose
    fingerprint is pinned. *)
Theorem pin_file_exact `{Primitives} ls : Forall good_line ls → NoDup (entries ls).*1 → entries ls ≠ [] →
  ∃ a, pin_parse (print_file ls) = ok a ∧
    ∀ role pk, pin_verify a role pk = inr tt ↔ sm3 [pk] ∈ (entries ls).*1.
Proof.
  intros Hg Hnd Hne. exists (mkPins (list_to_map (entries ls))). split; [|intros; apply pin_verify_spec].
  unfold pin_parse. rewrite parse_lines_print; [|done..|]; [|intros; apply lookup_empty].
  cbn [try_bind ok]. rewrite (right_id_L ∅ (∪)). rewrite bool_decide_false; [done|].
  destruct (entries ls) as [|[fp name] l]; [done|]. cbn. apply insert_non_empty.
Qed.

Lemma pin_file_exact_witness :
  let fp := replicate 32 0xA7 in
  ∃ a, pin_parse (print_file [Remark [32; 13]; Pin [103; 119] fp; Blank]) = ok a ∧
    ∀ role pk, @pin_verify toy_primitives a role pk = inr tt ↔ @sm3 toy_primitives [pk] ∈ [fp].
Proof.
  intros fp. apply (@pin_file_exact toy_primitives [Remark [32; 13]; Pin [103; 119] fp; Blank]).
  - repeat constructor; cbn; try done. set_solver.
  - apply NoDup_singleton.
  - done.
Defined.

(** A fingerprint of 64 bytes with a character of more than one byte at
    an even offset panics the parser instead of being refused; one with
    plus signs is taken for hexadecimal. *)
Theorem pin_parse_panics :
  pin_parse ([103; 32; 97; 233] ++ replicate 61 97) = None ∧
  pin_parse ([103; 32] ++ concat (replicate 32 [43; 49])) = ok (mkPins {[ replicate 32 1 := [103] ]}).
Proof. split; vm_compute; reflexivity. Qed.
