(* ===== verification/GmKem.v ===== *)
(** * GM-PQ: key encapsulation

    Models [crates/gm-pq-stack/src/kem]: the traits [Kem] and [StaticAuth]
    ([mod.rs]) are classes of operations, with what the handshake relies on
    as separate classes of laws; [sm2.rs], [mlkem.rs] and [hybrid.rs] are
    their instances.  The curve operations of [libsmx] and the lattice
    operations of [ml_kem] are the classes [Sm2Lib] and [MlKemLib]; the laws
    of the instances are proved from theirs.  Randomness is an argument of
    the operation that draws it.  The probability that a well-formed ML-KEM
    ciphertext fails to decapsulate, below 2^-160, is left out. *)

From S2P Require Import Prelude Bytes GmCrypto.

(** [?] on results that cannot panic. *)
Definition sbind {A B} (r : GmError + A) (k : A → GmError + B) : GmError + B :=
  match r with inl e => inl e | inr a => k a end.

Notation "x ←! r ; k" := (sbind r (λ x, k)) (at level 20, r at level 100, k at level 200, right associativity).
Notation "' x ←! r ; k" := (sbind r (λ x, k)) (at level 20, x pattern, r at level 100, k at level 200, right associativity).

Lemma sbind_inr {A B} (r : GmError + A) (k : A → GmError + B) b :
  sbind r k = inr b ↔ ∃ a, r = inr a ∧ k a = inr b.
Proof. destruct r; cbn; naive_solver. Qed.

(** ** The interfaces *)

Class Kem := {
  NAME : list Z;
  PUBLIC_KEY_LEN : Z;
  CIPHERTEXT_LEN : Z;
  SecretKey : Type;
  KemRand : Type;
  keypair : KemRand → GmError + (SecretKey * list Z);
  encapsulate : KemRand → list Z → GmError + (list Z * list Z);
  decapsulate : SecretKey → list Z → GmError + list Z;
  public_of : SecretKey → list Z;
  validate_public : list Z → GmError + unit
}.

Class KemLaws (K : Kem) : Prop := {
  kem_len_nonneg : 0 ≤ PUBLIC_KEY_LEN ∧ 0 ≤ CIPHERTEXT_LEN;
  keypair_public r sk pk : keypair r = inr (sk, pk) → pk = public_of sk;
  public_valid sk : validate_public (public_of sk) = inr tt;
  validate_len pk : validate_public pk = inr tt → zlen pk = PUBLIC_KEY_LEN;
  encap_len r pk ct ss : encapsulate r pk = inr (ct, ss) → zlen ct = CIPHERTEXT_LEN ∧ zlen ss = 32;
  encap_decap r sk ct ss : encapsulate r (public_of sk) = inr (ct, ss) → decapsulate sk ct = inr ss;
  decap_len sk ct ss : decapsulate sk ct = inr ss → zlen ct = CIPHERTEXT_LEN ∧ zlen ss = 32
}.

Class StaticAuth (K : Kem) := {
  SIGNATURE_LEN : Z;
  SignRand : Type;
  sign : SignRand → SecretKey → list Z → GmError + list Z;
  verify : list Z → list Z → list Z → GmError + unit
}.

Class StaticAuthLaws (K : Kem) (A : StaticAuth K) : Prop := {
  sig_len_nonneg : 0 ≤ SIGNATURE_LEN;
  sign_verify r sk h sig : sign r sk h = inr sig →
    zlen sig = SIGNATURE_LEN ∧ verify (public_of sk) h sig = inr tt
}.

(** Generating keys, encapsulating to a generated key and signing do not
    fail. *)
Class KemTotal (K : Kem) (A : StaticAuth K) : Prop := {
  keypair_total rng e : keypair rng ≠ inl e;
  encap_total rng sk e : encapsulate rng (public_of sk) ≠ inl e;
  sign_total rng sk h e : sign rng sk h ≠ inl e
}.

(** ** SM2 *)

Class Sm2Lib := {
  Sm2Key : Type;
  Sm2Rand : Type;
  sm2_generate : Sm2Rand → Sm2Key;
  sm2_public : Sm2Key → list Z;
  sm2_ecdh : Sm2Key → list Z → option (list Z);
  sm2_sign : Sm2Rand → list Z → Sm2Key → list Z;
  sm2_verify : list Z → list Z → list Z → bool;
  sm2_public_len sk : zlen (sm2_public sk) = 65;
  sm2_ecdh_len sk pk s : sm2_ecdh sk pk = Some s → zlen s = 32;
  sm2_ecdh_public a b : is_Some (sm2_ecdh a (sm2_public b));
  sm2_ecdh_sym a b : sm2_ecdh a (sm2_public b) = sm2_ecdh b (sm2_public a);
  sm2_sign_len r h sk : zlen (sm2_sign r h sk) = 64;
  sm2_sign_verify r h sk : sm2_verify h (sm2_public sk) (sm2_sign r h sk) = true
}.

Section sm2.
Context {L : Sm2Lib}.

Definition SM2_LEN : Z := 65.

Definition sm2_validate (pk : list Z) : GmError + unit :=
  if negb (zlen pk =? SM2_LEN) then inl InvalidEncoding else inr tt.

Definition sm2_keypair (r : Sm2Rand) : GmError + (Sm2Key * list Z) :=
  let sk := sm2_generate r in inr (sk, sm2_public sk).

(** An invalid point is an error of the library. *)
Definition sm2_exchange (sk : Sm2Key) (peer : list Z) : GmError + list Z :=
  match sm2_ecdh sk peer with Some s => inr s | None => inl Sm end.

Definition sm2_encapsulate (r : Sm2Rand) (peer_public : list Z) : GmError + (list Z * list Z) :=
  _ ←! sm2_validate peer_public;
  let eph_sk := sm2_generate r in
  ss ←! sm2_exchange eph_sk peer_public;
  inr (sm2_public eph_sk, ss).

Definition sm2_decapsulate (sk : Sm2Key) (ct : list Z) : GmError + list Z :=
  _ ←! sm2_validate ct; sm2_exchange sk ct.

Instance Sm2Kem : Kem := {|
  NAME := [83; 77; 50; 45; 69; 67; 68; 72];
  PUBLIC_KEY_LEN := SM2_LEN;
  CIPHERTEXT_LEN := SM2_LEN;
  SecretKey := Sm2Key;
  KemRand := Sm2Rand;
  keypair := sm2_keypair;
  encapsulate := sm2_encapsulate;
  decapsulate := sm2_decapsulate;
  public_of := sm2_public;
  validate_public := sm2_validate
|}.

Definition sm2_sign_hash (r : Sm2Rand) (sk : Sm2Key) (transcript_hash : list Z) : GmError + list Z :=
  inr (sm2_sign r transcript_hash sk).

Definition sm2_verify_hash (pk transcript_hash sig : list Z) : GmError + unit :=
  _ ←! sm2_validate pk;
  if negb (zlen sig =? 64) then inl InvalidEncoding else
  if sm2_verify transcript_hash pk sig then inr tt else inl PeerAuth.

Instance Sm2Auth : StaticAuth Sm2Kem := {|
  SIGNATURE_LEN := 64;
  SignRand := Sm2Rand;
  sign := sm2_sign_hash : _ → @SecretKey Sm2Kem → _;
  verify := sm2_verify_hash
|}.

Lemma sm2_validate_public sk : sm2_validate (sm2_public sk) = inr tt.
Proof. unfold sm2_validate. by rewrite sm2_public_len. Qed.

#[global] Instance sm2_laws : KemLaws Sm2Kem.
Proof.
  split.
  - done.
  - intros r sk pk [= <- <-]. done.
  - apply sm2_validate_public.
  - intros pk. cbn. unfold sm2_validate. destruct (Z.eqb_spec (zlen pk) SM2_LEN); done.
  - intros r pk ct ss. cbn. unfold sm2_encapsulate, sm2_exchange. intros (? & _ & H)%sbind_inr.
    apply sbind_inr in H as (s & H & [= <- <-]). case_match eqn:E; [|done]. simplify_eq.
    split; [apply sm2_public_len|by eapply sm2_ecdh_len].
  - intros r sk ct ss. cbn. unfold sm2_encapsulate, sm2_decapsulate, sm2_exchange. rewrite sm2_validate_public. cbn.
    intros (s & H & [= <- <-])%sbind_inr. rewrite sm2_validate_public. cbn. by rewrite sm2_ecdh_sym.
  - intros sk ct ss. cbn. unfold sm2_decapsulate, sm2_exchange. intros (? & Hv & H)%sbind_inr. unfold sm2_validate in Hv.
    destruct (Z.eqb_spec (zlen ct) SM2_LEN); [|done]. case_match eqn:E; [|done]. simplify_eq. split; [done|]. by eapply sm2_ecdh_len.
Qed.

#[global] Instance sm2_auth_laws : StaticAuthLaws Sm2Kem Sm2Auth.
Proof.
  split; [done|]. cbn. intros r sk h sig [= <-]. split; [apply sm2_sign_len|]. unfold sm2_verify_hash.
  rewrite sm2_validate_public. cbn [sbind]. rewrite sm2_sign_len, sm2_sign_verify. done.
Qed.

End sm2.

(** ** ML-KEM *)

Class MlKemLib := {
  MlKey : Type;
  MlRand : Type;
  ml_generate : MlRand → MlKey;
  ml_public : MlKey → list Z;
  ml_valid : list Z → bool;
  ml_encapsulate : MlRand → list Z → list Z * list Z;
  ml_decapsulate : MlKey → list Z → list Z;
  ml_public_len dk : zlen (ml_public dk) = 1184;
  ml_public_valid dk : ml_valid (ml_public dk) = true;
  ml_encap_len r ek : zlen (ml_encapsulate r ek).1 = 1088 ∧ zlen (ml_encapsulate r ek).2 = 32;
  ml_decap_len dk ct : zlen (ml_decapsulate dk ct) = 32;
  ml_correct r dk : ml_decapsulate dk (ml_encapsulate r (ml_public dk)).1 = (ml_encapsulate r (ml_public dk)).2
}.

Section mlkem.
Context {L : MlKemLib}.

Definition mlkem_validate (pk : list Z) : GmError + unit :=
  if negb (zlen pk =? 1184) then inl InvalidEncoding else inr tt.

Definition mlkem_keypair (r : MlRand) : GmError + (MlKey * list Z) :=
  let dk := ml_generate r in inr (dk, ml_public dk).

Definition mlkem_encapsulate (r : MlRand) (peer_public : list Z) : GmError + (list Z * list Z) :=
  _ ←! mlkem_validate peer_public;
  if ml_valid peer_public then inr (ml_encapsulate r peer_public) else inl InvalidEncoding.

Definition mlkem_decapsulate (dk : MlKey) (ct : list Z) : GmError + list Z :=
  if negb (zlen ct =? 1088) then inl InvalidEncoding else inr (ml_decapsulate dk ct).

Instance MlKem768Kem : Kem := {|
  NAME := [77; 76; 45; 75; 69; 77; 45; 55; 54; 56];
  PUBLIC_KEY_LEN := 1184;
  CIPHERTEXT_LEN := 1088;
  SecretKey := MlKey;
  KemRand := MlRand;
  keypair := mlkem_keypair;
  encapsulate := mlkem_encapsulate;
  decapsulate := mlkem_decapsulate;
  public_of := ml_public;
  validate_public := mlkem_validate
|}.

#[global] Instance mlkem_laws : KemLaws MlKem768Kem.
Proof.
  split.
  - done.
  - intros r sk pk [= <- <-]. done.
  - intros sk. cbn. unfold mlkem_validate. by rewrite ml_public_len.
  - intros pk. cbn. unfold mlkem_validate. destruct (Z.eqb_spec (zlen pk) 1184); done.
  - intros r pk ct ss. cbn. unfold mlkem_encapsulate. intros (? & _ & H)%sbind_inr. case_match; [|done].
    simplify_eq. pose proof (ml_encap_len r pk) as Hl. by rewrite H in Hl.
  - intros r sk ct ss. cbn. unfold mlkem_encapsulate, mlkem_decapsulate. intros (? & _ & H)%sbind_inr. case_match; [|done].
    injection H as H. pose proof (ml_encap_len r (ml_public sk)) as [Hl _]. pose proof (ml_correct r sk) as Hc.
    rewrite H in Hl, Hc. cbn in Hl, Hc. by rewrite Hl, Hc.
  - intros sk ct ss. cbn. unfold mlkem_decapsulate. destruct (Z.eqb_spec (zlen ct) 1088); cbn; [|done].
    intros [= <-]. split; [done|]. apply ml_decap_len.
Qed.

End mlkem.

(** ** The hybrid *)

Definition COMBINER_LABEL : list Z := [103; 109; 45; 112; 113; 45; 115; 116; 97; 99; 107; 47; 104; 121; 98; 114; 105; 100; 47; 118; 49].

Definition combine `{Primitives} (ss_c ct_c pk_c ss_p ct_p pk_p : list Z) : list Z :=
  sm3 [[0x01]; ss_c; ss_p; ct_c; ct_p; pk_c; pk_p; COMBINER_LABEL].

(** What the combiner hashes. *)
Definition combiner_input (ss_c ct_c pk_c ss_p ct_p pk_p : list Z) : list Z :=
  concat [[0x01]; ss_c; ss_p; ct_c; ct_p; pk_c; pk_p; COMBINER_LABEL].

Section hybrid.
Context {PR : Primitives} (C P : Kem).

Abbreviation pkl_c := (@PUBLIC_KEY_LEN C).
Abbreviation ctl_c := (@CIPHERTEXT_LEN C).

Record HybridSecretKey := mkHybridKey {
  hk_classical : @SecretKey C;
  hk_pq : @SecretKey P
}.

Definition hybrid_pkl : Z := pkl_c + @PUBLIC_KEY_LEN P.
Definition hybrid_ctl : Z := ctl_c + @CIPHERTEXT_LEN P.

(** [split_at], within the length. *)
Definition split_z (n : Z) (l : list Z) : list Z * list Z := (take (Z.to_nat n) l, drop (Z.to_nat n) l).

Definition hybrid_validate (pk : list Z) : GmError + unit :=
  if negb (zlen pk =? hybrid_pkl) then inl InvalidEncoding else
  let '(pk_c, pk_p) := split_z pkl_c pk in
  _ ←! @validate_public C pk_c; _ ←! @validate_public P pk_p; inr tt.

Definition hybrid_keypair (r : @KemRand C * @KemRand P) : GmError + (HybridSecretKey * list Z) :=
  '(sk_c, pk_c) ←! @keypair C r.1;
  '(sk_p, pk_p) ←! @keypair P r.2;
  inr (mkHybridKey sk_c sk_p, pk_c ++ pk_p).

Definition hybrid_encapsulate (r : @KemRand C * @KemRand P) (peer_public : list Z) : GmError + (list Z * list Z) :=
  _ ←! hybrid_validate peer_public;
  let '(pk_c, pk_p) := split_z pkl_c peer_public in
  '(ct_c, ss_c) ←! @encapsulate C r.1 pk_c;
  '(ct_p, ss_p) ←! @encapsulate P r.2 pk_p;
  inr (ct_c ++ ct_p, combine ss_c ct_c pk_c ss_p ct_p pk_p).

Definition hybrid_decapsulate (sk : HybridSecretKey) (ct : list Z) : GmError + list Z :=
  if negb (zlen ct =? hybrid_ctl) then inl InvalidEncoding else
  let '(ct_c, ct_p) := split_z ctl_c ct in
  ss_c ←! @decapsulate C (hk_classical sk) ct_c;
  ss_p ←! @decapsulate P (hk_pq sk) ct_p;
  inr (combine ss_c ct_c (@public_of C (hk_classical sk)) ss_p ct_p (@public_of P (hk_pq sk))).

Definition hybrid_public (sk : HybridSecretKey) : list Z := @public_of C (hk_classical sk) ++ @public_of P (hk_pq sk).

Definition HybridKem : Kem := {|
  NAME := [83; 77; 50; 45; 69; 67; 68; 72; 43; 77; 76; 45; 75; 69; 77; 45; 55; 54; 56];
  PUBLIC_KEY_LEN := hybrid_pkl;
  CIPHERTEXT_LEN := hybrid_ctl;
  SecretKey := HybridSecretKey;
  KemRand := @KemRand C * @KemRand P;
  keypair := hybrid_keypair;
  encapsulate := hybrid_encapsulate;
  decapsulate := hybrid_decapsulate;
  public_of := hybrid_public;
  validate_public := hybrid_validate
|}.

Context (A : StaticAuth C).

Definition hybrid_sign (r : @SignRand C A) (sk : HybridSecretKey) (h : list Z) : GmError + list Z :=
  @sign C A r (hk_classical sk) h.

Definition hybrid_verify (pk h sig : list Z) : GmError + unit :=
  _ ←! hybrid_validate pk; @verify C A (split_z pkl_c pk).1 h sig.

Definition HybridAuth : StaticAuth HybridKem := {|
  SIGNATURE_LEN := @SIGNATURE_LEN C A;
  SignRand := @SignRand C A;
  sign := hybrid_sign : _ → @SecretKey HybridKem → _;
  verify := hybrid_verify
|}.

Context {LC : KemLaws C} {LP : KemLaws P}.

Lemma split_z_app n a b : zlen a = n → split_z n (a ++ b) = (a, b).
Proof. intros <-. unfold split_z, zlen. rewrite Nat2Z.id, take_app_length, drop_app_length. done. Qed.

Lemma kem_public_len (K : Kem) `{!KemLaws K} sk : zlen (public_of sk) = PUBLIC_KEY_LEN.
Proof. apply validate_len, public_valid. Qed.

Lemma hybrid_public_valid sk : hybrid_validate (hybrid_public sk) = inr tt.
Proof.
  unfold hybrid_validate, hybrid_public, hybrid_pkl. rewrite zlen_app, !kem_public_len by done. rewrite Z.eqb_refl. cbn [negb].
  rewrite split_z_app by by apply kem_public_len. by rewrite !public_valid.
Qed.

#[global] Instance hybrid_laws : KemLaws HybridKem.
Proof.
  split.
  - destruct (@kem_len_nonneg C _), (@kem_len_nonneg P _). cbn. unfold hybrid_pkl, hybrid_ctl. lia.
  - intros r sk pk. cbn. unfold hybrid_keypair. intros ([a b] & H1 & H)%sbind_inr. apply sbind_inr in H as ([c d] & H2 & [= <- <-]).
    apply keypair_public in H1 as ->. by apply keypair_public in H2 as ->.
  - apply hybrid_public_valid.
  - intros pk. cbn. unfold hybrid_validate. by destruct (Z.eqb_spec (zlen pk) hybrid_pkl).
  - intros r pk ct ss. cbn. unfold hybrid_encapsulate. intros (? & _ & H)%sbind_inr. destruct (split_z _ pk) as [pk_c pk_p].
    apply sbind_inr in H as ([ct_c ss_c] & H1 & H). apply sbind_inr in H as ([ct_p ss_p] & H2 & [= <- <-]).
    apply encap_len in H1 as [H1 _], H2 as [H2 _]. rewrite zlen_app, H1, H2. split; [done|]. apply zlen_hash.
  - intros r sk ct ss. cbn. unfold hybrid_encapsulate. rewrite hybrid_public_valid. cbn [sbind]. unfold hybrid_public.
    rewrite split_z_app by by apply kem_public_len.
    intros ([ct_c ss_c] & H1 & H)%sbind_inr. apply sbind_inr in H as ([ct_p ss_p] & H2 & [= <- <-]).
    pose proof (encap_len _ _ _ _ H1) as [L1 _]. pose proof (encap_len _ _ _ _ H2) as [L2 _].
    unfold hybrid_decapsulate, hybrid_ctl. rewrite zlen_app, L1, L2, Z.eqb_refl. cbn [negb]. rewrite split_z_app by done.
    by rewrite (encap_decap _ _ _ _ H1), (encap_decap _ _ _ _ H2).
  - intros sk ct ss. cbn. unfold hybrid_decapsulate. destruct (Z.eqb_spec (zlen ct) hybrid_ctl); cbn [negb]; [|done].
    destruct (split_z _ ct) as [ct_c ct_p]. intros (ss_c & _ & H)%sbind_inr. apply sbind_inr in H as (ss_p & _ & [= <-]).
    split; [done|]. apply zlen_hash.
Qed.

#[global] Instance hybrid_auth_laws `{!StaticAuthLaws C A} : StaticAuthLaws HybridKem HybridAuth.
Proof.
  split; [exact (@sig_len_nonneg C A _)|]. intros r sk h sig H. apply (@sign_verify C A _) in H as [H1 H2]. split; [exact H1|].
  cbn. unfold hybrid_verify. rewrite hybrid_public_valid. cbn [sbind]. unfold hybrid_public.
  rewrite split_z_app by by apply kem_public_len. exact H2.
Qed.

(** What a decapsulated secret is made of. *)
Lemma hybrid_decap_inv sk ct ss : hybrid_decapsulate sk ct = inr ss →
  ∃ ct_c ct_p ss_c ss_p, ct = ct_c ++ ct_p ∧ zlen ct_c = ctl_c ∧ zlen ct_p = @CIPHERTEXT_LEN P ∧
    @decapsulate C (hk_classical sk) ct_c = inr ss_c ∧ @decapsulate P (hk_pq sk) ct_p = inr ss_p ∧
    ss = combine ss_c ct_c (@public_of C (hk_classical sk)) ss_p ct_p (@public_of P (hk_pq sk)).
Proof.
  unfold hybrid_decapsulate. destruct (Z.eqb_spec (zlen ct) hybrid_ctl) as [Hl|]; cbn [negb]; [|done]. unfold split_z.
  intros (ss_c & H1 & H)%sbind_inr. apply sbind_inr in H as (ss_p & H2 & [= <-]).
  pose proof (decap_len _ _ _ H1) as [L1 _]. pose proof (decap_len _ _ _ H2) as [L2 _].
  eexists _, _, ss_c, ss_p. split_and!; [symmetry; apply take_drop|done..].
Qed.

(** The combiner loses nothing: different inputs of the right lengths with
    the same output are a collision. *)
Lemma combine_inj a1 a2 a3 a4 a5 a6 b1 b2 b3 b4 b5 b6 :
  zlen a1 = zlen b1 → zlen a4 = zlen b4 → zlen a2 = zlen b2 → zlen a5 = zlen b5 → zlen a3 = zlen b3 → zlen a6 = zlen b6 →
  combine a1 a2 a3 a4 a5 a6 = combine b1 b2 b3 b4 b5 b6 →
  (a1 = b1 ∧ a2 = b2 ∧ a3 = b3 ∧ a4 = b4 ∧ a5 = b5 ∧ a6 = b6) ∨
  sm3_collision (combiner_input a1 a2 a3 a4 a5 a6) (combiner_input b1 b2 b3 b4 b5 b6).
Proof.
  unfold zlen. intros H1 H4 H2 H5 H3 H6 E.
  destruct (decide (combiner_input a1 a2 a3 a4 a5 a6 = combiner_input b1 b2 b3 b4 b5 b6)) as [Heq|Hne]; [|right; by split].
  left. unfold combiner_input in Heq. cbn [concat app] in Heq. injection Heq as Heq. apply app_inj_1 in Heq as [-> Heq]; [|lia]. apply app_inj_1 in Heq as [-> Heq]; [|lia].
  apply app_inj_1 in Heq as [-> Heq]; [|lia]. apply app_inj_1 in Heq as [-> Heq]; [|lia].
  apply app_inj_1 in Heq as [-> Heq]; [|lia]. apply app_inj_1 in Heq as [-> _]; [|lia]. done.
Qed.

End hybrid.

(** [Mode] and its names. *)
Inductive Mode := Sm2Only | MlKemOnly | Hybrid.

Definition mode_name `{Primitives} {L1 : Sm2Lib} {L2 : MlKemLib} (m : Mode) : list Z :=
  match m with
  | Sm2Only => @NAME Sm2Kem
  | MlKemOnly => @NAME MlKem768Kem
  | Hybrid => @NAME (HybridKem Sm2Kem MlKem768Kem)
  end.

(** ** Concrete libraries, for evaluation only *)

Definition last_byte (l : list Z) : Z := default 0 (last l).
Definition padded (n : nat) (b : Z) : list Z := replicate n 4 ++ [b].

Lemma last_padded n b : last_byte (padded n b) = b.
Proof. unfold last_byte, padded. by rewrite last_snoc. Qed.

Lemma zlen_padded n b : zlen (padded n b) = Z.of_nat n + 1.
Proof. unfold zlen, padded. rewrite length_app, length_replicate. cbn. lia. Qed.

#[refine] Definition toy_sm2 : Sm2Lib := {|
  Sm2Key := Z; Sm2Rand := Z;
  sm2_generate r := r;
  sm2_public sk := padded 64 (sk mod 256);
  sm2_ecdh sk pk := Some (padded 31 (sk mod 256 * last_byte pk mod 256));
  sm2_sign r h sk := checksum 64 (h ++ [sk mod 256]);
  sm2_verify h pk sig := bool_decide (sig = checksum 64 (h ++ [last_byte pk]))
|}.
Proof.
  - intros. by rewrite zlen_padded.
  - intros sk pk s [= <-]. by rewrite zlen_padded.
  - by eexists.
  - intros a b. by rewrite !last_padded, Z.mul_comm.
  - intros. unfold zlen, checksum. by rewrite length_to_be.
  - intros. apply bool_decide_eq_true. by rewrite last_padded.
Defined.

#[refine] Definition toy_mlkem : MlKemLib := {|
  MlKey := Z; MlRand := Z;
  ml_generate r := r;
  ml_public dk := padded 1183 (dk mod 256);
  ml_valid _ := true;
  ml_encapsulate r ek := (padded 1087 (r mod 256), padded 31 ((last_byte ek + r mod 256) mod 256));
  ml_decapsulate dk ct := padded 31 ((dk mod 256 + last_byte ct) mod 256)
|}.
Proof.
  - intros. by rewrite zlen_padded.
  - done.
  - intros. cbn [fst snd]. by rewrite !zlen_padded.
  - intros. by rewrite zlen_padded.
  - intros. cbn [fst snd]. by rewrite !last_padded.
Defined.

(** Over the two libraries the hybrid scheme never fails. *)
#[global] Instance hybrid_total `{Primitives} {L1 : Sm2Lib} {L2 : MlKemLib} :
  KemTotal (HybridKem Sm2Kem MlKem768Kem) (HybridAuth Sm2Kem MlKem768Kem Sm2Auth).
Proof.
  split.
  - intros [r1 r2] e. done.
  - intros r sk e E. change (hybrid_encapsulate Sm2Kem MlKem768Kem r (hybrid_public Sm2Kem MlKem768Kem sk) = inl e) in E.
    unfold hybrid_encapsulate in E. rewrite hybrid_public_valid in E by apply _. cbn [sbind] in E.
    unfold hybrid_public in E. rewrite split_z_app in E by apply sm2_public_len. cbn in E.
    unfold sm2_encapsulate, mlkem_encapsulate in E. rewrite sm2_validate_public in E. cbn in E. unfold sm2_exchange in E.
    destruct (sm2_ecdh_public (sm2_generate r.1) (hk_classical _ _ sk)) as [s Hs]. cbn in Hs. destruct (sm2_ecdh _ _) as [s'|]; [|done]. cbn in E.
    unfold mlkem_validate in E. rewrite ml_public_len in E. cbn in E. rewrite ml_public_valid in E. cbn in E.
    by destruct (ml_encapsulate _ _).
  - intros r sk h e. done.
Qed.

(** [x] is what the hybrid scheme hashes when it decapsulates. *)
Definition hashed_secret `{Primitives} {L1 : Sm2Lib} {L2 : MlKemLib} (sk : HybridSecretKey Sm2Kem MlKem768Kem) (ct x : list Z) : Prop :=
  ∃ ct_c ct_p ss_c ss_p, ct = ct_c ++ ct_p ∧
    @decapsulate Sm2Kem (hk_classical _ _ sk) ct_c = inr ss_c ∧ @decapsulate MlKem768Kem (hk_pq _ _ sk) ct_p = inr ss_p ∧
    x = combiner_input ss_c ct_c (@public_of Sm2Kem (hk_classical _ _ sk)) ss_p ct_p (@public_of MlKem768Kem (hk_pq _ _ sk)).

(** The hybrid scheme over the two libraries recovers every encapsulated
    secret, and its secrets are bound to everything that went into them: two
    decapsulations with the same result used the same ciphertext and public
    key, or what they hashed collides under SM3. *)
Theorem hybrid_kem_correct `{Primitives} {L1 : Sm2Lib} {L2 : MlKemLib} :
  let K := HybridKem Sm2Kem MlKem768Kem in
  (∀ r sk, ∃ ct ss, @encapsulate K r (@public_of K sk) = inr (ct, ss) ∧ zlen ct = 1153 ∧ @decapsulate K sk ct = inr ss) ∧
  (∀ sk sk' ct ct' ss, @decapsulate K sk ct = inr ss → @decapsulate K sk' ct' = inr ss →
     ct = ct' ∧ @public_of K sk = @public_of K sk' ∨
     ∃ x y, hashed_secret sk ct x ∧ hashed_secret sk' ct' y ∧ sm3_collision x y).
Proof.
  intros K. split.
  - intros r sk. destruct (@encapsulate K r (@public_of K sk)) as [e|[ct ss]] eqn:E.
    + by destruct (@encap_total K (HybridAuth Sm2Kem MlKem768Kem Sm2Auth) _ r sk e E).
    + pose proof (@encap_len K _ _ _ _ _ E) as [Hl _]. exists ct, ss. split; [done|]. split; [exact Hl|by eapply (@encap_decap K _)].
  - intros sk sk' ct ct' ss H1 H2.
    apply hybrid_decap_inv in H1 as (c1 & p1 & s1 & q1 & -> & Lc1 & Lp1 & D1 & E1 & ->); [|apply _..].
    apply hybrid_decap_inv in H2 as (c2 & p2 & s2 & q2 & -> & Lc2 & Lp2 & D2 & E2 & Hc); [|apply _..].
    pose proof (decap_len _ _ _ D1) as [_ ?]. pose proof (decap_len _ _ _ D2) as [_ ?].
    pose proof (decap_len _ _ _ E1) as [_ ?]. pose proof (decap_len _ _ _ E2) as [_ ?].
    apply combine_inj in Hc as [(_ & -> & Hp & _ & -> & Hq)|Hcol]; [| |congruence..| |].
    + left. split; [done|]. change (hybrid_public Sm2Kem MlKem768Kem sk = hybrid_public Sm2Kem MlKem768Kem sk'). unfold hybrid_public. by rewrite Hp, Hq.
    + right. eexists _, _. split; [by exists c1, p1, s1, q1|]. split; [by exists c2, p2, s2, q2|exact Hcol].
    + by rewrite !(kem_public_len Sm2Kem).
    + by rewrite !(kem_public_len MlKem768Kem).
Qed.

Lemma hybrid_kem_correct_witness :
  let K := @HybridKem toy_primitives (@Sm2Kem toy_sm2) (@MlKem768Kem toy_mlkem) in
  let sk := mkHybridKey (@Sm2Kem toy_sm2) (@MlKem768Kem toy_mlkem) 20 21 in
  ∃ ct ss, @encapsulate K (1, 2) (@public_of K sk) = inr (ct, ss) ∧ zlen ct = 1153 ∧ @decapsulate K sk ct = inr ss.
Proof. intros K sk. exact (proj1 (@hybrid_kem_correct toy_primitives toy_sm2 toy_mlkem) (1, 2) sk). Defined.
