(* ===== verification/GmHandshake.v ===== *)
(** * GM-PQ: the handshake

    Models [crates/gm-pq-stack/src/handshake/mod.rs]: the three messages of
    the Noise XX pattern over any key encapsulation ([Kem]), with the
    optional proof of possession ([StaticAuth]) and pre-shared key.  The
    methods take [&mut self] and can fail half-way, so they are computations
    in a state-and-error monad: the state is kept on an error, and [None] is
    a panic.  Randomness is an argument of the method that draws it. *)

From S2P Require Import Prelude Bytes GmCrypto GmSession GmTrust GmKem.

(** ** Methods that fail half-way *)

Definition hs (S A : Type) : Type := S → option (S * (GmError + A)).

Definition hret {S A} (a : A) : hs S A := λ s, Some (s, inr a).
Definition herr {S A} (e : GmError) : hs S A := λ s, Some (s, inl e).
Definition hbind {S A B} (m : hs S A) (k : A → hs S B) : hs S B := λ s,
  match m s with
  | None => None
  | Some (s', inl e) => Some (s', inl e)
  | Some (s', inr a) => k a s'
  end.
Definition hget {S} : hs S S := λ s, Some (s, inr s).
Definition hmod {S} (f : S → S) : hs S unit := λ s, Some (f s, inr tt).
Definition hsum {S A} (r : GmError + A) : hs S A := λ s, Some (s, r).
Definition hopt {S A} (o : option A) : hs S A := λ s, a ← o; Some (s, inr a).
Definition hres {S A} (r : res GmError A) : hs S A := λ s, x ← r; Some (s, x).
(** [ok_or] with an error of the state machine. *)
Definition hsome {S A} (o : option A) : hs S A := match o with Some a => hret a | None => herr HandshakeState end.

Notation "x ⟵ m ; k" := (hbind m (λ x, k)) (at level 20, m at level 100, k at level 200, right associativity).
Notation "' x ⟵ m ; k" := (hbind m (λ x, k)) (at level 20, x pattern, m at level 100, k at level 200, right associativity).

Lemma hbind_inr {S A B} (m : hs S A) (k : A → hs S B) s s' b :
  hbind m k s = Some (s', inr b) ↔ ∃ s1 a, m s = Some (s1, inr a) ∧ k a s1 = Some (s', inr b).
Proof. unfold hbind. destruct (m s) as [[s1 [e|a]]|]; naive_solver. Qed.

(** One step of a run whose first action is known. *)
Lemma hbind_step {S A B} (m : hs S A) (k : A → hs S B) s s1 a :
  m s = Some (s1, inr a) → hbind m k s = k a s1.
Proof. unfold hbind. by intros ->. Qed.

(** ** The symmetric state *)

Definition PROLOGUE : list Z := [103; 109; 45; 112; 113; 45; 115; 116; 97; 99; 107; 45; 104; 97; 110; 100; 115; 104; 97; 107; 101; 47; 118; 49].
Definition INFO_STATIC_ENC : list Z := [115; 116; 97; 116; 105; 99; 45; 107; 101; 121; 45; 101; 110; 99].
Definition INFO_SPLIT : list Z := [116; 114; 97; 110; 115; 112; 111; 114; 116; 45; 115; 112; 108; 105; 116].
Definition INFO_EARLY : list Z := [101; 97; 114; 108; 121; 45; 100; 97; 116; 97].
Definition PSK_LABEL : list Z := [112; 115; 107].

Record SymmetricState := mkSS {
  ss_ck : list Z;
  ss_h : list Z
}.

Section symmetric.
Context {PR : Primitives}.

Definition ss_new (proto_name : list Z) : SymmetricState :=
  let h := sm3 [PROLOGUE; proto_name] in mkSS h h.

Definition mix_hash (data : list Z) (s : SymmetricState) : SymmetricState := mkSS (ss_ck s) (sm3 [ss_h s; data]).
Definition mix_key (ikm : list Z) (s : SymmetricState) : SymmetricState := mkSS (hkdf_extract (Some (ss_ck s)) ikm) (ss_h s).

Definition ss_new_with_psk (proto_name psk : list Z) : SymmetricState := mix_key (PSK_LABEL ++ psk) (ss_new proto_name).

(** The conversion to 16 bytes panics on another length. *)
Definition encryption_key (info : list Z) (s : SymmetricState) : option (list Z) :=
  k ← hkdf_expand (ss_ck s) info 16;
  if zlen k =? 16 then Some k else None.

Definition early_data_aead (s : SymmetricState) : option Aead :=
  k ← encryption_key INFO_EARLY s; Some (aead_new k).

Definition ss_split (s : SymmetricState) : option (list Z * list Z * list Z) :=
  material ← hkdf_expand (ss_ck s) INFO_SPLIT 32;
  k1 ← slice material 0 16;
  k2 ← slice material 16 (zlen material);
  if zlen k2 =? 16 then Some (k1, k2, ss_h s) else None.

(** Sealed static keys travel without the sequence number, which is 0. *)
Definition seal_static (a : Aead) (aad pk : list Z) : option (list Z) :=
  let packet := seal_with_seq a 0 aad pk in slice packet 8 (zlen packet).

Definition open_static (a : Aead) (aad data : list Z) : res GmError (Z * list Z) :=
  r ← aead_open a aad (to_be 8 0 ++ data);
  match r with
  | inl AuthFailed => err PeerAuth
  | inl e => err e
  | inr x => ok x
  end.

End symmetric.

(** ** The parties *)

Section parties.
Context {PR : Primitives} {K : Kem}.

Record Initiator := mkInit {
  in_ss : SymmetricState;
  in_static_sk : option SecretKey;
  in_static_pk : list Z;
  in_eph_sk : option SecretKey;
  in_enc_peer_static : option (list Z);
  in_peer_eph_pk : option (list Z);
  in_peer_ct_ee : option (list Z);
  in_peer_static : option (list Z)
}.

Record Responder := mkResp {
  re_ss : SymmetricState;
  re_static_sk : SecretKey;
  re_static_pk : list Z;
  re_eph_sk : option SecretKey;
  re_peer_eph_pk : option (list Z);
  re_done : option (list Z * list Z * list Z)
}.

Definition in_mod (f : SymmetricState → SymmetricState) (i : Initiator) : Initiator :=
  mkInit (f (in_ss i)) (in_static_sk i) (in_static_pk i) (in_eph_sk i) (in_enc_peer_static i) (in_peer_eph_pk i) (in_peer_ct_ee i) (in_peer_static i).

Definition re_mod (f : SymmetricState → SymmetricState) (r : Responder) : Responder :=
  mkResp (f (re_ss r)) (re_static_sk r) (re_static_pk r) (re_eph_sk r) (re_peer_eph_pk r) (re_done r).

Definition initiator_new (static_sk : SecretKey) (static_pk : list Z) : Initiator :=
  mkInit (ss_new NAME) (Some static_sk) static_pk None None None None None.

Definition initiator_new_with_psk (static_sk : SecretKey) (static_pk psk : list Z) : Initiator :=
  in_mod (λ _, ss_new_with_psk NAME psk) (initiator_new static_sk static_pk).

Definition into_static_keys (i : Initiator) : GmError + (SecretKey * list Z) :=
  match in_static_sk i with Some sk => inr (sk, in_static_pk i) | None => inl HandshakeState end.

Definition write_msg1 (rng : KemRand) : hs Initiator (list Z) :=
  i ⟵ hget;
  match in_eph_sk i with
  | Some _ => herr HandshakeState
  | None =>
      '(e_sk, e_pk) ⟵ hsum (keypair rng);
      _ ⟵ hmod (in_mod (mix_hash e_pk));
      _ ⟵ hmod (λ i, mkInit (in_ss i) (in_static_sk i) (in_static_pk i) (Some e_sk) (in_enc_peer_static i) (in_peer_eph_pk i) (in_peer_ct_ee i) (in_peer_static i));
      hret e_pk
  end.

Definition seal_early_data (plaintext : list Z) : hs Initiator (list Z) :=
  i ⟵ hget;
  match in_eph_sk i with
  | None => herr HandshakeState
  | Some _ =>
      aead ⟵ hopt (early_data_aead (in_ss i));
      let packet := seal_with_seq aead 0 (ss_h (in_ss i)) plaintext in
      hopt (slice packet 8 (zlen packet))
  end.

Definition read_msg2 (msg : list Z) : hs Initiator unit :=
  let expect := PUBLIC_KEY_LEN + CIPHERTEXT_LEN in
  if zlen msg <? expect + 16 then herr InvalidEncoding else
  eph_pk ⟵ hopt (slice msg 0 PUBLIC_KEY_LEN);
  ct_ee ⟵ hopt (slice msg PUBLIC_KEY_LEN expect);
  enc_static ⟵ hopt (slice msg expect (zlen msg));
  _ ⟵ hsum (validate_public eph_pk);
  _ ⟵ hmod (in_mod (mix_hash eph_pk));
  _ ⟵ hmod (in_mod (mix_hash ct_ee));
  i ⟵ hget;
  eph_sk ⟵ hsome (in_eph_sk i);
  ss_ee ⟵ hsum (decapsulate eph_sk ct_ee);
  _ ⟵ hmod (in_mod (mix_key ss_ee));
  hmod (λ i, mkInit (in_ss i) (in_static_sk i) (in_static_pk i) (in_eph_sk i) (Some enc_static) (Some eph_pk) (Some ct_ee) (in_peer_static i)).

(** [signer] and [peer_check] are the optional closures; the first also
    takes the randomness it draws. *)
Definition write_msg3_inner (rng_se rng_ss : KemRand) (signer : option (list Z → GmError + list Z))
    (peer_check : option (list Z → GmError + unit)) : hs Initiator (list Z * Session) :=
  i ⟵ hget;
  enc_static ⟵ hsome (in_enc_peer_static i);
  _ ⟵ hmod (λ i, mkInit (in_ss i) (in_static_sk i) (in_static_pk i) (in_eph_sk i) None (in_peer_eph_pk i) (in_peer_ct_ee i) (in_peer_static i));
  i ⟵ hget;
  peer_eph_pk ⟵ hopt (in_peer_eph_pk i);
  _ ⟵ hmod (λ i, mkInit (in_ss i) (in_static_sk i) (in_static_pk i) (in_eph_sk i) (in_enc_peer_static i) None (in_peer_ct_ee i) (in_peer_static i));
  key_s ⟵ hopt (encryption_key INFO_STATIC_ENC (in_ss i));
  '(_, s_r_pk) ⟵ hres (open_static (aead_new key_s) (ss_h (in_ss i)) enc_static);
  _ ⟵ hsum (validate_public s_r_pk);
  _ ⟵ hsum (match peer_check with Some check => check s_r_pk | None => inr tt end);
  _ ⟵ hmod (λ i, mkInit (in_ss i) (in_static_sk i) (in_static_pk i) (in_eph_sk i) (in_enc_peer_static i) (in_peer_eph_pk i) (in_peer_ct_ee i) (Some s_r_pk));
  _ ⟵ hmod (in_mod (mix_hash enc_static));
  '(ct_se, ss_se) ⟵ hsum (encapsulate rng_se peer_eph_pk);
  '(ct_ss, ss_ss) ⟵ hsum (encapsulate rng_ss s_r_pk);
  _ ⟵ hmod (in_mod (mix_key (ss_se ++ ss_ss)));
  _ ⟵ hmod (in_mod (mix_hash ct_se));
  _ ⟵ hmod (in_mod (mix_hash ct_ss));
  i ⟵ hget;
  plaintext ⟵ hsum (match signer with
                     | Some sign => sig ←! sign (ss_h (in_ss i)); inr (in_static_pk i ++ sig)
                     | None => inr (in_static_pk i)
                     end);
  key3 ⟵ hopt (encryption_key INFO_STATIC_ENC (in_ss i));
  enc_si ⟵ hopt (seal_static (aead_new key3) (ss_h (in_ss i)) plaintext);
  _ ⟵ hmod (in_mod (mix_hash enc_si));
  i ⟵ hget;
  '(k_i2r, k_r2i, session_id) ⟵ hopt (ss_split (in_ss i));
  hret (ct_se ++ ct_ss ++ enc_si, session_new k_i2r k_r2i session_id).

Definition write_msg3 (rng_se rng_ss : KemRand) : hs Initiator (list Z * Session) :=
  write_msg3_inner rng_se rng_ss None None.

Definition responder_new (static_sk : SecretKey) (static_pk : list Z) : Responder :=
  mkResp (ss_new NAME) static_sk static_pk None None None.

Definition responder_new_with_psk (static_sk : SecretKey) (static_pk psk : list Z) : Responder :=
  re_mod (λ _, ss_new_with_psk NAME psk) (responder_new static_sk static_pk).

Definition read_msg1 (msg : list Z) : hs Responder unit :=
  _ ⟵ hsum (validate_public msg);
  _ ⟵ hmod (re_mod (mix_hash msg));
  hmod (λ r, mkResp (re_ss r) (re_static_sk r) (re_static_pk r) (re_eph_sk r) (Some msg) (re_done r)).

Definition open_early_data (data : list Z) : hs Responder (list Z) :=
  r ⟵ hget;
  match re_peer_eph_pk r with
  | None => herr HandshakeState
  | Some _ =>
      aead ⟵ hopt (early_data_aead (re_ss r));
      '(_, pt) ⟵ hres (open_static aead (ss_h (re_ss r)) data);
      hret pt
  end.

Definition write_msg2 (rng_e rng_ee : KemRand) : hs Responder (list Z) :=
  r ⟵ hget;
  peer_eph ⟵ hsome (re_peer_eph_pk r);
  '(e_sk, e_pk) ⟵ hsum (keypair rng_e);
  _ ⟵ hmod (re_mod (mix_hash e_pk));
  '(ct_ee, ss_ee) ⟵ hsum (encapsulate rng_ee peer_eph);
  _ ⟵ hmod (re_mod (mix_hash ct_ee));
  _ ⟵ hmod (re_mod (mix_key ss_ee));
  r ⟵ hget;
  key_s ⟵ hopt (encryption_key INFO_STATIC_ENC (re_ss r));
  enc_static ⟵ hopt (seal_static (aead_new key_s) (ss_h (re_ss r)) (re_static_pk r));
  _ ⟵ hmod (re_mod (mix_hash enc_static));
  _ ⟵ hmod (λ r, mkResp (re_ss r) (re_static_sk r) (re_static_pk r) (Some e_sk) (re_peer_eph_pk r) (re_done r));
  hret (e_pk ++ ct_ee ++ enc_static).

Definition read_msg3_inner (msg : list Z) : hs Responder (Session * list Z * list Z) :=
  let expect := 2 * CIPHERTEXT_LEN in
  if zlen msg <? expect + 16 then herr InvalidEncoding else
  ct_se ⟵ hopt (slice msg 0 CIPHERTEXT_LEN);
  ct_ss ⟵ hopt (slice msg CIPHERTEXT_LEN expect);
  enc_static ⟵ hopt (slice msg expect (zlen msg));
  r ⟵ hget;
  eph_sk ⟵ hsome (re_eph_sk r);
  _ ⟵ hmod (λ r, mkResp (re_ss r) (re_static_sk r) (re_static_pk r) None (re_peer_eph_pk r) (re_done r));
  ss_se ⟵ hsum (decapsulate eph_sk ct_se);
  ss_ss ⟵ hsum (decapsulate (re_static_sk r) ct_ss);
  _ ⟵ hmod (re_mod (mix_key (ss_se ++ ss_ss)));
  _ ⟵ hmod (re_mod (mix_hash ct_se));
  _ ⟵ hmod (re_mod (mix_hash ct_ss));
  r ⟵ hget;
  let h_sign := ss_h (re_ss r) in
  key3 ⟵ hopt (encryption_key INFO_STATIC_ENC (re_ss r));
  '(_, static_plain) ⟵ hres (open_static (aead_new key3) (ss_h (re_ss r)) enc_static);
  _ ⟵ hmod (re_mod (mix_hash enc_static));
  r ⟵ hget;
  '(k_i2r, k_r2i, session_id) ⟵ hopt (ss_split (re_ss r));
  _ ⟵ hmod (λ r, mkResp (re_ss r) (re_static_sk r) (re_static_pk r) (re_eph_sk r) (re_peer_eph_pk r) (Some (k_r2i, k_i2r, session_id)));
  hret (session_new k_r2i k_i2r session_id, static_plain, h_sign).

Definition read_msg3 (msg : list Z) : hs Responder Session :=
  '(session, static_plain, _) ⟵ read_msg3_inner msg;
  if negb (zlen static_plain =? PUBLIC_KEY_LEN) then herr InvalidEncoding else
  _ ⟵ hsum (validate_public static_plain);
  hret session.

Context {A : StaticAuth K}.

Definition write_msg3_with_auth (rng_se rng_ss : KemRand) (rng_sign : SignRand) (anchor : TrustAnchor) : hs Initiator (list Z * Session) :=
  i ⟵ hget;
  sk ⟵ hsome (in_static_sk i);
  _ ⟵ hmod (λ i, mkInit (in_ss i) None (in_static_pk i) (in_eph_sk i) (in_enc_peer_static i) (in_peer_eph_pk i) (in_peer_ct_ee i) (in_peer_static i));
  write_msg3_inner rng_se rng_ss (Some (sign rng_sign sk)) (Some (anchor_verify anchor RResponder)).

Definition read_msg3_with_auth (msg : list Z) (anchor : TrustAnchor) : hs Responder (Session * list Z) :=
  '(session, static_plain, h_sign) ⟵ read_msg3_inner msg;
  if negb (zlen static_plain =? PUBLIC_KEY_LEN + SIGNATURE_LEN) then herr InvalidEncoding else
  pk ⟵ hopt (slice static_plain 0 PUBLIC_KEY_LEN);
  sig ⟵ hopt (slice static_plain PUBLIC_KEY_LEN (zlen static_plain));
  _ ⟵ hsum (validate_public pk);
  _ ⟵ hsum (verify pk h_sign sig);
  _ ⟵ hsum (anchor_verify anchor RInitiator pk);
  hret (session, pk).

End parties.

(** ** Keys and sealed static keys *)

(** Runs the next known actions of a method. *)
Ltac hrun :=
  cbn [hbind hret herr hget hmod hsum hopt hres hsome mbind option_bind ok err sbind
       in_mod re_mod in_ss in_static_sk in_static_pk in_eph_sk in_enc_peer_static in_peer_eph_pk in_peer_ct_ee in_peer_static
       re_ss re_static_sk re_static_pk re_eph_sk re_peer_eph_pk re_done].

(** What the primitive actions do when they succeed. *)
Lemma hget_inr {S} (s s1 a : S) : hget s = Some (s1, inr a) → s1 = s ∧ a = s.
Proof. unfold hget. naive_solver. Qed.
Lemma hmod_inr {S} (f : S → S) s s1 a : hmod f s = Some (s1, inr a) → s1 = f s.
Proof. unfold hmod. naive_solver. Qed.
Lemma hret_inr {S X} (x : X) (s s1 : S) a : hret x s = Some (s1, inr a) → s1 = s ∧ a = x.
Proof. unfold hret. naive_solver. Qed.
Lemma hsum_inr {S X} (r : GmError + X) (s s1 : S) a : hsum r s = Some (s1, inr a) → s1 = s ∧ r = inr a.
Proof. unfold hsum. naive_solver. Qed.
Lemma hopt_inr {S X} (o : option X) (s s1 : S) a : hopt o s = Some (s1, inr a) → s1 = s ∧ o = Some a.
Proof. unfold hopt. destruct o; naive_solver. Qed.
Lemma hres_inr {S X} (r : res GmError X) (s s1 : S) a : hres r s = Some (s1, inr a) → s1 = s ∧ r = ok a.
Proof. unfold hres, ok. destruct r; naive_solver. Qed.
Lemma hsome_inr {S X} (o : option X) (s s1 : S) a : hsome o s = Some (s1, inr a) → s1 = s ∧ o = Some a.
Proof. unfold hsome, hret, herr. destruct o; naive_solver. Qed.

(** Takes a successful run apart, one action after the other. *)
Ltac hinv1 H :=
  let s1 := fresh "s" in let a := fresh "a" in let E := fresh "E" in
  apply hbind_inr in H as (s1 & a & E & H);
  try first [ apply hget_inr in E as [-> ->] | apply hmod_inr in E as -> | apply hret_inr in E as [-> ->]
            | apply hsum_inr in E as [-> E] | apply hopt_inr in E as [-> E] | apply hres_inr in E as [-> E]
            | apply hsome_inr in E as [-> E] ];
  try match type of a with
      | (_ * _ * _)%type => destruct a as [[? ?] ?]
      | (_ * _)%type => destruct a as [? ?]
      | unit => destruct a
      end;
  cbn [in_mod re_mod in_ss in_static_sk in_static_pk in_eph_sk in_enc_peer_static in_peer_eph_pk in_peer_ct_ee in_peer_static re_ss re_static_sk re_static_pk re_eph_sk re_peer_eph_pk re_done] in H.
Ltac hinv H := repeat hinv1 H.

Section keys.
Context {PR : Primitives}.

Lemma encryption_key_ok info s : ∃ k, encryption_key info s = Some k.
Proof.
  unfold encryption_key, hkdf_expand. destruct (expand_ok (ss_ck s) (KDF_DOMAIN ++ info) 16) as (k & -> & Hk); [lia|].
  cbn [mbind option_bind]. rewrite Hk. by exists k.
Qed.

Lemma early_aead_ok s : ∃ a, early_data_aead s = Some (aead_new a).
Proof. unfold early_data_aead. destruct (encryption_key_ok INFO_EARLY s) as [k ->]. by exists k. Qed.

Lemma ss_split_ok s : ∃ k1 k2, ss_split s = Some (k1, k2, ss_h s).
Proof.
  unfold ss_split, hkdf_expand. destruct (expand_ok (ss_ck s) (KDF_DOMAIN ++ INFO_SPLIT) 32) as (m & -> & Hm); [lia|].
  cbn [mbind option_bind]. rewrite !slice_ok by lia. cbn [mbind option_bind].
  assert (zlen (take (Z.to_nat (zlen m - 16)) (drop (Z.to_nat 16) m)) = 16) as ->; [|eauto].
  rewrite Hm. unfold zlen in *. rewrite length_take, length_drop. lia.
Qed.

Lemma split_id s k1 k2 id : ss_split s = Some (k1, k2, id) → id = ss_h s.
Proof. destruct (ss_split_ok s) as (? & ? & ->). naive_solver. Qed.

Lemma seal_static_spec k aad pt : ∃ c, seal_static (aead_new k) aad pt = Some c ∧
  seal_with_seq (aead_new k) 0 aad pt = to_be 8 0 ++ c ∧ zlen c = zlen pt + 16.
Proof.
  unfold seal_static. pose proof (zlen_seal (aead_new k) 0 aad pt) as Hl. pose proof (zlen_nonneg pt).
  unfold seal_with_seq in *. destruct (sm4_encrypt_gcm _ _ _ _) as [ct tag].
  assert (zlen (to_be 8 0) = 8) as H8 by done. rewrite slice_tail by done. eexists. split; [done|]. split; [done|].
  rewrite zlen_app in Hl. lia.
Qed.

Lemma static_roundtrip k aad pt : ∃ c, seal_static (aead_new k) aad pt = Some c ∧ zlen c = zlen pt + 16 ∧
  open_static (aead_new k) aad c = ok (0, pt).
Proof.
  destruct (seal_static_spec k aad pt) as (c & E & Hs & Hl). exists c. split; [done|]. split; [done|].
  unfold open_static. rewrite <-Hs. unfold aead_new. by rewrite open_seal.
Qed.

Lemma open_static_total a aad data : is_Some (open_static a aad data).
Proof.
  unfold open_static, aead_open. assert (zlen (to_be 8 0) = 8) as H8 by done. pose proof (zlen_nonneg data).
  destruct (Z.ltb_spec (zlen (to_be 8 0 ++ data)) (8 + 16)) as [|Hl]; [by eexists|].
  rewrite zlen_app, H8 in Hl. rewrite !slice_ok by (rewrite ?zlen_app; lia). cbn [mbind option_bind].
  destruct (sm4_decrypt_gcm _ _ _ _ _); by eexists.
Qed.

End keys.

(** ** An honest run *)

Section honest.
Context {PR : Primitives} {K : Kem} {A : StaticAuth K} {KL : KemLaws K} {AL : StaticAuthLaws K A}.

(** The randomness of a whole run. *)
Record HsRandom := mkHsRandom {
  hr_e_i : KemRand;
  hr_e_r : KemRand;
  hr_ee : KemRand;
  hr_se : KemRand;
  hr_ss : KemRand;
  hr_sign : SignRand
}.

Definition completed {S X} (r : option (S * (GmError + X))) : option (S * X) :=
  match r with Some (s, inr x) => Some (s, x) | _ => None end.

(** The three messages delivered as sent, both sides completing. *)
Definition exchange (g : HsRandom) (anchor_i anchor_r : TrustAnchor) (i : Initiator) (r : Responder)
    : option (Initiator * Responder * Session * Session * list Z) :=
  '(i, m1) ← completed (write_msg1 (hr_e_i g) i);
  '(r, _) ← completed (read_msg1 m1 r);
  '(r, m2) ← completed (write_msg2 (hr_e_r g) (hr_ee g) r);
  '(i, _) ← completed (read_msg2 m2 i);
  '(i, (m3, session_i)) ← completed (write_msg3_with_auth (hr_se g) (hr_ss g) (hr_sign g) anchor_i i);
  '(r, (session_r, pk)) ← completed (read_msg3_with_auth m3 anchor_r r);
  Some (i, r, session_i, session_r, pk).

(** After the first message both sides have the same symmetric state. *)
Lemma msg1_agree rng e_sk i r : in_ss i = re_ss r → in_eph_sk i = None → keypair rng = inr (e_sk, public_of e_sk) →
  ∃ ss, write_msg1 rng i = Some (mkInit ss (in_static_sk i) (in_static_pk i) (Some e_sk) (in_enc_peer_static i) (in_peer_eph_pk i) (in_peer_ct_ee i) (in_peer_static i), inr (public_of e_sk)) ∧
    read_msg1 (public_of e_sk) r = Some (mkResp ss (re_static_sk r) (re_static_pk r) (re_eph_sk r) (Some (public_of e_sk)) (re_done r), inr tt).
Proof.
  intros Hss He Hk. exists (mix_hash (public_of e_sk) (in_ss i)). split.
  - unfold write_msg1. hrun. rewrite He. hrun. rewrite Hk. hrun. done.
  - unfold read_msg1. hrun. rewrite public_valid. hrun. by rewrite Hss.
Qed.

(** After the second the initiator lags by the hash of the sealed key. *)
Lemma msg2_agree rng_e rng_ee e_i e_r ct_ee ss_ee i r :
  in_ss i = re_ss r → in_eph_sk i = Some e_i → re_peer_eph_pk r = Some (public_of e_i) →
  keypair rng_e = inr (e_r, public_of e_r) → encapsulate rng_ee (public_of e_i) = inr (ct_ee, ss_ee) →
  ∃ ss enc k m2, write_msg2 rng_e rng_ee r = Some (mkResp (mix_hash enc ss) (re_static_sk r) (re_static_pk r) (Some e_r) (re_peer_eph_pk r) (re_done r), inr m2) ∧
    read_msg2 m2 i = Some (mkInit ss (in_static_sk i) (in_static_pk i) (in_eph_sk i) (Some enc) (Some (public_of e_r)) (Some ct_ee) (in_peer_static i), inr tt) ∧
    encryption_key INFO_STATIC_ENC ss = Some k ∧ open_static (aead_new k) (ss_h ss) enc = ok (0, re_static_pk r).
Proof.
  intros Hss He Hp Hk Hc. set (ss := mix_key ss_ee (mix_hash ct_ee (mix_hash (public_of e_r) (in_ss i)))).
  destruct (encryption_key_ok INFO_STATIC_ENC ss) as [k Ek].
  destruct (static_roundtrip k (ss_h ss) (re_static_pk r)) as (enc & Es & Hl & Eo).
  exists ss, enc, k, (public_of e_r ++ ct_ee ++ enc). split; [|split; [|split; [done|done]]].
  - unfold write_msg2. hrun. rewrite Hp. hrun. rewrite Hk. hrun. rewrite Hc. hrun. rewrite <-Hss. fold ss. rewrite Ek. hrun. rewrite Es. hrun. by rewrite <-Hss, Hp.
  - pose proof (kem_public_len K e_r) as Hpl. pose proof (encap_len _ _ _ _ Hc) as [Hcl _]. pose proof (zlen_nonneg (re_static_pk r)).
    unfold read_msg2. rewrite !zlen_app, Hpl, Hcl, Hl. rewrite (proj2 (Z.ltb_ge _ _)) by lia.
    rewrite slice_head by done. rewrite (slice_app3 _ ct_ee enc) by lia.
    assert (slice (public_of e_r ++ ct_ee ++ enc) (PUBLIC_KEY_LEN + CIPHERTEXT_LEN) (PUBLIC_KEY_LEN + (CIPHERTEXT_LEN + (zlen (re_static_pk r) + 16))) = Some enc) as ->.
    { rewrite app_assoc. apply slice_tail; rewrite ?zlen_app; lia. }
    hrun. rewrite public_valid. hrun. rewrite He. hrun. rewrite (encap_decap _ _ _ _ Hc). unfold hmod. hrun. by rewrite ?He.
Qed.

(** The third message: the initiator's side. *)
Lemma msg3_written rng_se rng_ss signer check e_r s_r enc k ct_se ss_se ct_ss ss_ss sig i :
  in_enc_peer_static i = Some enc → in_peer_eph_pk i = Some (public_of e_r) →
  encryption_key INFO_STATIC_ENC (in_ss i) = Some k → open_static (aead_new k) (ss_h (in_ss i)) enc = ok (0, public_of s_r) →
  check (public_of s_r) = inr tt →
  encapsulate rng_se (public_of e_r) = inr (ct_se, ss_se) → encapsulate rng_ss (public_of s_r) = inr (ct_ss, ss_ss) →
  let ss := mix_hash ct_ss (mix_hash ct_se (mix_key (ss_se ++ ss_ss) (mix_hash enc (in_ss i)))) in
  signer (ss_h ss) = inr sig →
  ∃ i' k3 enc_si k1 k2, write_msg3_inner rng_se rng_ss (Some signer) (Some check) i =
      Some (i', inr (ct_se ++ ct_ss ++ enc_si, session_new k1 k2 (ss_h (mix_hash enc_si ss)))) ∧
    in_peer_static i' = Some (public_of s_r) ∧
    encryption_key INFO_STATIC_ENC ss = Some k3 ∧ zlen enc_si = zlen (in_static_pk i ++ sig) + 16 ∧
    open_static (aead_new k3) (ss_h ss) enc_si = ok (0, in_static_pk i ++ sig) ∧
    ss_split (mix_hash enc_si ss) = Some (k1, k2, ss_h (mix_hash enc_si ss)).
Proof.
  intros He Hp Hk Ho Hc H1 H2 ss Hs. destruct (encryption_key_ok INFO_STATIC_ENC ss) as [k3 E3].
  destruct (static_roundtrip k3 (ss_h ss) (in_static_pk i ++ sig)) as (enc_si & E4 & Hl & E5).
  destruct (ss_split_ok (mix_hash enc_si ss)) as (k1 & k2 & E6).
  eexists _, k3, enc_si, k1, k2. split; [|split; [|done]].
  - unfold write_msg3_inner. hrun. rewrite He. hrun. rewrite Hp. hrun. rewrite Hk. hrun. rewrite Ho. hrun. rewrite public_valid. hrun.
    rewrite Hc. hrun. rewrite H1. hrun. rewrite H2. hrun. fold ss. rewrite Hs. hrun. rewrite E3. hrun. rewrite E4. hrun.
    fold ss. rewrite E6. hrun. reflexivity.
  - reflexivity.
Qed.

(** The responder's side. *)
Lemma msg3_inner_read e_r enc_si k3 k1 k2 ct_se ss_se ct_ss ss_ss plain r :
  re_eph_sk r = Some e_r → zlen ct_se = CIPHERTEXT_LEN → zlen ct_ss = CIPHERTEXT_LEN →
  decapsulate e_r ct_se = inr ss_se → decapsulate (re_static_sk r) ct_ss = inr ss_ss →
  let ss := mix_hash ct_ss (mix_hash ct_se (mix_key (ss_se ++ ss_ss) (re_ss r))) in
  encryption_key INFO_STATIC_ENC ss = Some k3 → zlen enc_si = zlen plain + 16 →
  open_static (aead_new k3) (ss_h ss) enc_si = ok (0, plain) →
  ss_split (mix_hash enc_si ss) = Some (k1, k2, ss_h (mix_hash enc_si ss)) →
  ∃ r', read_msg3_inner (ct_se ++ ct_ss ++ enc_si) r =
    Some (r', inr (session_new k2 k1 (ss_h (mix_hash enc_si ss)), plain, ss_h ss)).
Proof.
  intros He Hl1 Hl2 Hd1 Hd2 ss Hk Hl Ho Hsp. eexists. unfold read_msg3_inner.
  pose proof (zlen_nonneg plain). destruct (@kem_len_nonneg K _).
  rewrite !zlen_app, Hl1, Hl2, Hl, (proj2 (Z.ltb_ge _ _)) by lia.
  rewrite slice_head by done. rewrite (slice_app3 ct_se ct_ss enc_si) by lia.
  rewrite (app_assoc ct_se), (slice_tail (ct_se ++ ct_ss) enc_si) by (rewrite ?zlen_app; lia).
  hrun. rewrite He. hrun. rewrite Hd1. hrun. rewrite Hd2. hrun. fold ss. rewrite Hk. hrun. rewrite Ho. hrun. fold ss. rewrite Hsp. hrun.
  reflexivity.
Qed.

Lemma msg3_read anchor e_r s_i enc_si k3 k1 k2 ct_se ss_se ct_ss ss_ss sig rs r :
  re_eph_sk r = Some e_r → zlen ct_se = CIPHERTEXT_LEN → zlen ct_ss = CIPHERTEXT_LEN →
  decapsulate e_r ct_se = inr ss_se → decapsulate (re_static_sk r) ct_ss = inr ss_ss →
  let ss := mix_hash ct_ss (mix_hash ct_se (mix_key (ss_se ++ ss_ss) (re_ss r))) in
  encryption_key INFO_STATIC_ENC ss = Some k3 → zlen enc_si = zlen (public_of s_i ++ sig) + 16 →
  open_static (aead_new k3) (ss_h ss) enc_si = ok (0, public_of s_i ++ sig) →
  sign rs s_i (ss_h ss) = inr sig →
  ss_split (mix_hash enc_si ss) = Some (k1, k2, ss_h (mix_hash enc_si ss)) →
  anchor_verify anchor RInitiator (public_of s_i) = inr tt →
  ∃ r', read_msg3_with_auth (ct_se ++ ct_ss ++ enc_si) anchor r =
    Some (r', inr (session_new k2 k1 (ss_h (mix_hash enc_si ss)), public_of s_i)).
Proof.
  intros He Hl1 Hl2 Hd1 Hd2 ss Hk Hl Ho Hs Hsp Ha.
  destruct (msg3_inner_read e_r enc_si k3 k1 k2 ct_se ss_se ct_ss ss_ss (public_of s_i ++ sig) r) as [r' E]; [done..|].
  exists r'. unfold read_msg3_with_auth. rewrite (hbind_step _ _ _ _ _ E).
  apply sign_verify in Hs as [Hsl Hv]. pose proof (kem_public_len K s_i) as Hpl. fold ss.
  rewrite !zlen_app, Hpl, Hsl, Z.eqb_refl. cbn [negb]. rewrite slice_head by done. rewrite slice_tail by (rewrite ?zlen_app; lia).
  hrun. rewrite public_valid. hrun. rewrite Hv. hrun. rewrite Ha. hrun. reflexivity.
Qed.

(** Both ends of an honest run. *)
Lemma exchange_agrees `{!KemTotal K A} g ai ar s_i s_r i r :
  in_ss i = re_ss r → in_eph_sk i = None → in_static_sk i = Some s_i → in_static_pk i = public_of s_i →
  re_static_sk r = s_r → re_static_pk r = public_of s_r →
  anchor_verify ai RResponder (public_of s_r) = inr tt → anchor_verify ar RInitiator (public_of s_i) = inr tt →
  ∃ i' r' k1 k2 id, exchange g ai ar i r =
      Some (i', r', session_new k1 k2 id, session_new k2 k1 id, public_of s_i) ∧
    in_peer_static i' = Some (public_of s_r).
Proof.
  intros Hss He Hsk Hpk <- Hrp Ha1 Ha2. unfold exchange.
  destruct (keypair (hr_e_i g)) as [?|[e_i p_i]] eqn:K1; [by destruct (keypair_total _ _ K1)|]. pose proof (keypair_public _ _ _ K1) as ->.
  destruct (keypair (hr_e_r g)) as [?|[e_r p_r]] eqn:K2; [by destruct (keypair_total _ _ K2)|]. pose proof (keypair_public _ _ _ K2) as ->.
  destruct (encapsulate (hr_ee g) (public_of e_i)) as [?|[ct_ee ss_ee]] eqn:C1; [by destruct (encap_total _ _ _ C1)|].
  destruct (encapsulate (hr_se g) (public_of e_r)) as [?|[ct_se ss_se]] eqn:C2; [by destruct (encap_total _ _ _ C2)|].
  destruct (encapsulate (hr_ss g) (public_of (re_static_sk r))) as [?|[ct_ss ss_ss]] eqn:C3; [by destruct (encap_total _ _ _ C3)|].
  destruct (msg1_agree _ _ i r Hss He K1) as (ss1 & W1 & R1). rewrite W1. cbn [completed mbind option_bind].
  rewrite R1. cbn [completed mbind option_bind].
  match goal with |- context [completed (write_msg2 _ _ ?x)] => set (r1 := x) end.
  match goal with |- context [completed (read_msg2 _ ?x)] => set (i1 := x) end.
  destruct (msg2_agree (hr_e_r g) (hr_ee g) e_i e_r ct_ee ss_ee i1 r1) as (ss2 & enc & k & m2 & W2 & R2 & Hk & Ho); [done..|].
  rewrite W2. cbn [completed mbind option_bind]. rewrite R2. cbn [completed mbind option_bind].
  set (ss := mix_hash ct_ss (mix_hash ct_se (mix_key (ss_se ++ ss_ss) (mix_hash enc ss2)))).
  destruct (sign (hr_sign g) s_i (ss_h ss)) as [?|sig] eqn:S1; [by destruct (sign_total _ _ _ _ S1)|].
  cbn [re_static_pk r1] in Ho. rewrite Hrp in Ho.
  destruct (msg3_written (hr_se g) (hr_ss g) (sign (hr_sign g) s_i) (anchor_verify ai RResponder) e_r (re_static_sk r) enc k ct_se ss_se ct_ss ss_ss sig
    (mkInit ss2 None (in_static_pk i) (Some e_i) (Some enc) (Some (public_of e_r)) (Some ct_ee) (in_peer_static i)))
    as (i' & k3 & enc_si & k1 & k2 & W3 & Hps & Hk3 & Hl3 & Ho3 & Hsp); [done..|].
  assert (write_msg3_with_auth (hr_se g) (hr_ss g) (hr_sign g) ai
    (mkInit ss2 (in_static_sk i1) (in_static_pk i1) (in_eph_sk i1) (Some enc) (Some (public_of e_r)) (Some ct_ee) (in_peer_static i1)) =
    Some (i', inr (ct_se ++ ct_ss ++ enc_si, session_new k1 k2 (ss_h (mix_hash enc_si ss))))) as ->.
  { unfold write_msg3_with_auth. rewrite (hbind_step _ _ _ _ _ eq_refl). cbn [in_static_sk i1]. rewrite Hsk.
    rewrite (hbind_step _ _ _ _ _ eq_refl), (hbind_step _ _ _ _ _ eq_refl). exact W3. }
  cbn [completed mbind option_bind].
  destruct (msg3_read ar e_r s_i enc_si k3 k1 k2 ct_se ss_se ct_ss ss_ss sig (hr_sign g)
    (mkResp (mix_hash enc ss2) (re_static_sk r) (re_static_pk r) (Some e_r) (Some (public_of e_i)) (re_done r))) as [r' R3]; try done.
  - by apply encap_len in C2 as [? _].
  - by apply encap_len in C3 as [? _].
  - by eapply encap_decap.
  - by eapply encap_decap.
  - by rewrite <-Hpk.
  - by rewrite <-Hpk.
  - change (mkResp _ _ _ _ _ _) with (mkResp (mix_hash enc ss2) (re_static_sk r) (re_static_pk r) (Some e_r) (Some (public_of e_i)) (re_done r)).
    rewrite R3. cbn [completed mbind option_bind]. eexists _, _, _, _, _. split; [reflexivity|done].
Qed.

End honest.

(** ** Any run *)

Section any_run.
Context {PR : Primitives} {K : Kem} {A : StaticAuth K} {KL : KemLaws K}.

(** The transcript hash of the messages' parts. *)
Definition transcript (l : list (list Z)) : list Z := foldl (λ h d, sm3 [h; d]) (sm3 [PROLOGUE; NAME]) l.

Lemma transcript_snoc l d : transcript (l ++ [d]) = sm3 [transcript l; d].
Proof. unfold transcript. by rewrite foldl_app. Qed.

Lemma zlen_transcript l : zlen (transcript l) = 32.
Proof. destruct l as [|d l _] using rev_ind; [|rewrite transcript_snoc]; apply zlen_hash. Qed.

(** What is hashed on the way, each time with the hash before it. *)
Definition hash_inputs (l : list (list Z)) : list (list Z) := imap (λ k d, transcript (take k l) ++ d) l.

Lemma hash_inputs_snoc l d : hash_inputs (l ++ [d]) = hash_inputs l ++ [transcript l ++ d].
Proof.
  unfold hash_inputs. rewrite imap_app. cbn [imap]. f_equal.
  - apply imap_ext. intros k x Hk%lookup_lt_Some. by rewrite take_app_le by lia.
  - rewrite Nat.add_0_r. by rewrite take_app_length.
Qed.

(** Two transcripts collide at one of their steps. *)
Definition transcripts_collide (l l' : list (list Z)) : Prop :=
  ∃ k x y, hash_inputs l !! k = Some x ∧ hash_inputs l' !! k = Some y ∧ sm3_collision x y.

Lemma transcripts_collide_snoc l l' d d' : length l = length l' →
  transcripts_collide l l' ∨ sm3_collision (transcript l ++ d) (transcript l' ++ d') → transcripts_collide (l ++ [d]) (l' ++ [d']).
Proof.
  intros Hl [(k & x & y & Hx & Hy & Hc)|Hc]; unfold transcripts_collide; rewrite !hash_inputs_snoc.
  - exists k, x, y. split_and!; [by apply lookup_app_l_Some..|done].
  - exists (length (hash_inputs l)), (transcript l ++ d), (transcript l' ++ d'). split_and!; [by apply list_lookup_middle| |done].
    apply list_lookup_middle. unfold hash_inputs. by rewrite !length_imap.
Qed.

(** Equal hashes of as many parts come from equal parts, or two of the
    hashed inputs collide. *)
Lemma transcript_inj l l' : length l = length l' → transcript l = transcript l' →
  l = l' ∨ transcripts_collide l l'.
Proof.
  revert l'. induction l as [|d l IH] using rev_ind; intros l' Hl E.
  { left. by destruct l'. }
  destruct l' as [|d' l' _] using rev_ind; [rewrite length_app in Hl; cbn in Hl; lia|].
  rewrite !length_app in Hl. cbn in Hl. rewrite !transcript_snoc in E. unfold sm3 in E. cbn [concat] in E. rewrite !app_nil_r in E.
  destruct (decide (transcript l ++ d = transcript l' ++ d')) as [Heq|Hne].
  2: { right. apply transcripts_collide_snoc; [lia|]. right. by split. }
  apply app_inj_1 in Heq as [Ht ->].
  - destruct (IH l') as [->|]; [lia|done|by left|]. right. apply transcripts_collide_snoc; [lia|by left].
  - pose proof (zlen_transcript l). pose proof (zlen_transcript l'). unfold zlen in *. lia.
Qed.

Lemma write_msg1_inv rng i i1 m : write_msg1 rng i = Some (i1, inr m) →
  ss_h (in_ss i1) = sm3 [ss_h (in_ss i); m] ∧ ss_ck (in_ss i1) = ss_ck (in_ss i) ∧
  ∃ e_sk, keypair rng = inr (e_sk, m) ∧ in_eph_sk i1 = Some e_sk.
Proof.
  unfold write_msg1. intros H. hinv H. destruct (in_eph_sk i); [done|]. hinv H. apply hret_inr in H as [-> ->]. eauto.
Qed.

Lemma read_msg2_inv m i i2 a : read_msg2 m i = Some (i2, inr a) →
  ∃ epk ct enc, m = epk ++ ct ++ enc ∧ zlen epk = PUBLIC_KEY_LEN ∧ zlen ct = CIPHERTEXT_LEN ∧
    ss_h (in_ss i2) = sm3 [sm3 [ss_h (in_ss i); epk]; ct] ∧ in_enc_peer_static i2 = Some enc ∧
    ∃ e_sk ss_ee, in_eph_sk i = Some e_sk ∧ decapsulate e_sk ct = inr ss_ee ∧ ss_ck (in_ss i2) = ss_ck (mix_key ss_ee (in_ss i)).
Proof.
  unfold read_msg2. destruct (Z.ltb_spec (zlen m) (PUBLIC_KEY_LEN + CIPHERTEXT_LEN + 16)) as [|Hl]; [done|].
  intros H. hinv H. apply hmod_inr in H as ->.
  match goal with H1 : slice m 0 _ = Some ?x, H2 : slice m PUBLIC_KEY_LEN _ = Some ?y, H3 : slice m _ (zlen m) = Some ?z |- _ =>
    destruct (slice_three _ _ _ _ _ _ H1 H2 H3) as (-> & ? & ?); exists x, y, z end.
  split; [done|]. split; [done|]. split; [lia|]. split; [done|]. split; [done|]. eauto.
Qed.

Lemma write_msg3_inv rse rss signer check i i3 m s enc : write_msg3_inner rse rss signer (Some check) i = Some (i3, inr (m, s)) →
  in_enc_peer_static i = Some enc →
  ∃ pk ct_se ct_ss enc_si k, m = ct_se ++ ct_ss ++ enc_si ∧ zlen ct_se = CIPHERTEXT_LEN ∧ zlen ct_ss = CIPHERTEXT_LEN ∧
    se_id s = sm3 [sm3 [sm3 [sm3 [ss_h (in_ss i); enc]; ct_se]; ct_ss]; enc_si] ∧
    in_peer_static i3 = Some pk ∧ check pk = inr tt ∧ validate_public pk = inr tt ∧
    encryption_key INFO_STATIC_ENC (in_ss i) = Some k ∧ (∃ q, open_static (aead_new k) (ss_h (in_ss i)) enc = ok (q, pk)).
Proof.
  unfold write_msg3_inner. intros H He. hinv H. apply hret_inr in H as [-> [= -> ->]]. simplify_eq.
  match goal with Hv : validate_public ?pk = inr _, H2 : encapsulate _ ?pk = inr (?y, _), H1 : encapsulate _ _ = inr (?x, _), H3 : seal_static _ _ _ = Some ?z,
    H4 : encryption_key _ (in_ss i) = Some ?k, H5 : ss_split _ = Some _ |- _ =>
    assert_fails (constr_eq x y); exists pk, x, y, z, k;
    pose proof (encap_len _ _ _ _ H1) as [? _]; pose proof (encap_len _ _ _ _ H2) as [? _];
    apply split_id in H5; rename H5 into Hid end.
  split; [done|]. split; [done|]. split; [done|]. split; [exact Hid|].
  split; [done|]. split; [done|]. split; [done|]. split; [done|]. eauto.
Qed.

Lemma read_msg1_inv m r r1 a : read_msg1 m r = Some (r1, inr a) → ss_h (re_ss r1) = sm3 [ss_h (re_ss r); m].
Proof. unfold read_msg1. intros H. hinv H. by apply hmod_inr in H as ->. Qed.

Lemma write_msg2_inv rng_e rng_ee r r2 m : write_msg2 rng_e rng_ee r = Some (r2, inr m) →
  ∃ epk ct enc, m = epk ++ ct ++ enc ∧ zlen epk = PUBLIC_KEY_LEN ∧ zlen ct = CIPHERTEXT_LEN ∧
    ss_h (re_ss r2) = sm3 [sm3 [sm3 [ss_h (re_ss r); epk]; ct]; enc].
Proof.
  unfold write_msg2. intros H. hinv H. apply hret_inr in H as [-> ->].
  match goal with H1 : keypair _ = inr (_, ?x), H2 : encapsulate _ _ = inr (?y, _), H3 : seal_static _ _ _ = Some ?z |- _ =>
    pose proof (keypair_public _ _ _ H1) as ->; pose proof (encap_len _ _ _ _ H2) as [? _]; eexists _, y, z end.
  split; [done|]. split; [by apply kem_public_len|]. split; [done|]. done.
Qed.

Lemma read_msg3_inv m r r3 s plain h : read_msg3_inner m r = Some (r3, inr (s, plain, h)) →
  ∃ ct_se ct_ss enc, m = ct_se ++ ct_ss ++ enc ∧ zlen ct_se = CIPHERTEXT_LEN ∧ zlen ct_ss = CIPHERTEXT_LEN ∧
    h = sm3 [sm3 [ss_h (re_ss r); ct_se]; ct_ss] ∧ se_id s = sm3 [h; enc].
Proof.
  unfold read_msg3_inner. destruct (Z.ltb_spec (zlen m) (2 * CIPHERTEXT_LEN + 16)) as [|Hl]; [done|].
  intros H. hinv H. apply hret_inr in H as [-> [= -> -> ->]].
  match goal with H1 : slice m 0 _ = Some ?x, H2 : slice m CIPHERTEXT_LEN _ = Some ?y, H3 : slice m _ (zlen m) = Some ?z, H5 : ss_split _ = Some _ |- _ =>
    apply split_id in H5 as ->; destruct (slice_three _ _ _ _ _ _ H1 H2 H3) as (-> & ? & ?); exists x, y, z end.
  split; [done|]. split; [done|]. split; [lia|]. done.
Qed.

(** ** The sides of a run against any peer *)

Definition initiator_run (g : HsRandom) (anchor : TrustAnchor) (m2 : list Z) (i : Initiator)
    : option (Initiator * list Z * list Z * Session) :=
  '(i, m1) ← completed (write_msg1 (hr_e_i g) i);
  '(i, _) ← completed (read_msg2 m2 i);
  '(i, (m3, s)) ← completed (write_msg3_with_auth (hr_se g) (hr_ss g) (hr_sign g) anchor i);
  Some (i, m1, m3, s).

Definition responder_run (g : HsRandom) (anchor : TrustAnchor) (m1 m3 : list Z) (r : Responder)
    : option (Responder * list Z * Session * list Z) :=
  '(r, _) ← completed (read_msg1 m1 r);
  '(r, m2) ← completed (write_msg2 (hr_e_r g) (hr_ee g) r);
  '(r, (s, pk)) ← completed (read_msg3_with_auth m3 anchor r);
  Some (r, m2, s, pk).

Lemma completed_Some {S X} (x : option (S * (GmError + X))) s v : completed x = Some (s, v) ↔ x = Some (s, inr v).
Proof. unfold completed. repeat case_match; naive_solver. Qed.

Lemma initiator_run_inv g anchor m2 i i' m1 m3 s : initiator_run g anchor m2 i = Some (i', m1, m3, s) → ss_h (in_ss i) = transcript [] →
  ∃ epk ct enc ct_se ct_ss enc_si pk, m2 = epk ++ ct ++ enc ∧ zlen epk = PUBLIC_KEY_LEN ∧ zlen ct = CIPHERTEXT_LEN ∧
    m3 = ct_se ++ ct_ss ++ enc_si ∧ zlen ct_se = CIPHERTEXT_LEN ∧ zlen ct_ss = CIPHERTEXT_LEN ∧
    se_id s = transcript [m1; epk; ct; enc; ct_se; ct_ss; enc_si] ∧
    in_peer_static i' = Some pk ∧ anchor_verify anchor RResponder pk = inr tt ∧ validate_public pk = inr tt ∧
    ∃ e_sk ss_ee key q, keypair (hr_e_i g) = inr (e_sk, m1) ∧ decapsulate e_sk ct = inr ss_ee ∧
      encryption_key INFO_STATIC_ENC (mix_key ss_ee (in_ss i)) = Some key ∧
      open_static (aead_new key) (transcript [m1; epk; ct]) enc = ok (q, pk).
Proof.
  unfold initiator_run. intros H Hh. apply bind_Some in H as ([i1 m1'] & H1%completed_Some & H).
  apply bind_Some in H as ([i2 []] & H2%completed_Some & H). apply bind_Some in H as ([i3 [m3' s']] & H3%completed_Some & [= -> -> -> ->]).
  apply write_msg1_inv in H1 as (H1 & Hck1 & e_sk & Hkp & Hes).
  apply read_msg2_inv in H2 as (epk & ct & enc & -> & Hp & Hc & H2 & He & e_sk' & ss_ee & Hes' & Hd & Hck2). simplify_eq.
  unfold write_msg3_with_auth in H3. do 3 hinv1 H3.
  apply (write_msg3_inv _ _ _ _ _ _ _ _ enc) in H3 as (pk & ct_se & ct_ss & enc_si & k & -> & Hse & Hss & Hid & Hps & Hck & Hv & Hk & q & Ho); [|done].
  cbn [in_ss] in *. rewrite H2, H1, Hh in Hid. rewrite H2, H1, Hh in Ho.
  exists epk, ct, enc, ct_se, ct_ss, enc_si, pk. do 10 (split; [eauto|]). exists e_sk, ss_ee, k, q. split_and!; [done..| |done].
  rewrite <-Hk. unfold encryption_key. cbn [in_ss]. rewrite Hck2. unfold mix_key. cbn [ss_ck]. by rewrite Hck1.
Qed.

Lemma responder_run_inv g anchor m1 m3 r r' m2 s pk : responder_run g anchor m1 m3 r = Some (r', m2, s, pk) → ss_h (re_ss r) = transcript [] →
  ∃ epk ct enc ct_se ct_ss enc_si sig, m2 = epk ++ ct ++ enc ∧ zlen epk = PUBLIC_KEY_LEN ∧ zlen ct = CIPHERTEXT_LEN ∧
    m3 = ct_se ++ ct_ss ++ enc_si ∧ zlen ct_se = CIPHERTEXT_LEN ∧ zlen ct_ss = CIPHERTEXT_LEN ∧
    se_id s = transcript [m1; epk; ct; enc; ct_se; ct_ss; enc_si] ∧
    anchor_verify anchor RInitiator pk = inr tt ∧ verify pk (transcript [m1; epk; ct; enc; ct_se; ct_ss]) sig = inr tt.
Proof.
  unfold responder_run. intros H Hh. apply bind_Some in H as ([r1 []] & H1%completed_Some & H).
  apply bind_Some in H as ([r2 m2'] & H2%completed_Some & H). apply bind_Some in H as ([r3 [s' pk']] & H3%completed_Some & [= -> -> -> ->]).
  apply read_msg1_inv in H1. apply write_msg2_inv in H2 as (epk & ct & enc & -> & Hp & Hc & H2).
  unfold read_msg3_with_auth in H3. apply hbind_inr in H3 as (r4 & [[s4 plain] h] & E & H3).
  apply read_msg3_inv in E as (ct_se & ct_ss & enc_si & -> & Hse & Hss & -> & Hid).
  destruct (negb _); [done|]. hinv H3. apply hret_inr in H3 as [-> [= -> ->]]. rewrite H2, H1, Hh in *.
  exists epk, ct, enc, ct_se, ct_ss, enc_si. eexists. split_and!; eauto.
Qed.

End any_run.

(** ** No panic, whatever arrives and in whatever order *)

Create HintDb handshake.

(** A method runs to a result, success or error, in a state with [I]. *)
Definition safe_at {S X} (I : S → Prop) (m : hs S X) (s : S) : Prop := ∃ s' x, m s = Some (s', x) ∧ I s'.

Section safe.
Context {S : Type} (I : S → Prop).

Lemma safe_get {X} (k : S → hs S X) s : safe_at I (k s) s → safe_at I (hbind hget k) s.
Proof. done. Qed.
Lemma safe_mod {X} f (k : unit → hs S X) s : safe_at I (k tt) (f s) → safe_at I (hbind (hmod f) k) s.
Proof. done. Qed.
Lemma safe_sum {X Y} (r : GmError + Y) (k : Y → hs S X) s :
  I s → (∀ y, r = inr y → safe_at I (k y) s) → safe_at I (hbind (hsum r) k) s.
Proof. intros Hs Hk. unfold safe_at, hbind, hsum. destruct r as [e|y]; [by eexists _, _|]. by apply Hk. Qed.
Lemma safe_opt {X Y} (o : option Y) (k : Y → hs S X) s :
  is_Some o → (∀ y, o = Some y → safe_at I (k y) s) → safe_at I (hbind (hopt o) k) s.
Proof. intros [y ->] Hk. by apply Hk. Qed.
Lemma safe_res {X Y} (r : res GmError Y) (k : Y → hs S X) s :
  I s → is_Some r → (∀ y, safe_at I (k y) s) → safe_at I (hbind (hres r) k) s.
Proof. intros Hs [[e|y] ->] Hk; [by eexists _, _|]. by apply Hk. Qed.
Lemma safe_some {X Y} (o : option Y) (k : Y → hs S X) s :
  I s → (∀ y, o = Some y → safe_at I (k y) s) → safe_at I (hbind (hsome o) k) s.
Proof. intros Hs Hk. destruct o as [y|]; [by apply Hk|]. by eexists _, _. Qed.
Lemma safe_ret {X} (x : X) s : I s → safe_at I (hret x) s.
Proof. intros. by eexists _, _. Qed.
Lemma safe_err {X} e s : I s → safe_at I (herr e : hs S X) s.
Proof. intros. by eexists _, _. Qed.
Lemma safe_last_mod f s : I (f s) → safe_at I (hmod f) s.
Proof. intros. by eexists _, _. Qed.
Lemma safe_last_opt {X} (o : option X) s : I s → is_Some o → safe_at I (hopt o) s.
Proof. intros ? [? ->]. by eexists _, _. Qed.
End safe.

Ltac hsafe1 :=
  first [ apply safe_get | apply safe_mod | apply safe_sum; [|intros ? ?] | apply safe_opt; [|intros ? ?]
        | apply safe_res; [| |intros ?] | apply safe_some; [|intros ? ?] | apply safe_ret | apply safe_err
        | apply safe_last_mod | apply safe_last_opt ];
  try match goal with |- safe_at _ (let '(_, _) := ?p in _) _ => destruct p as [? ?] end.

Section no_panic.
Context {PR : Primitives} {K : Kem} {A : StaticAuth K} {KL : KemLaws K} {AL : StaticAuthLaws K A}.

Inductive InitCall :=
  | CMsg1 (rng : KemRand)
  | CSealEarly (plaintext : list Z)
  | CRead2 (msg : list Z)
  | CMsg3 (rng_se rng_ss : KemRand)
  | CMsg3Auth (rng_se rng_ss : KemRand) (rng_sign : SignRand) (anchor : TrustAnchor).

Inductive RespCall :=
  | CRead1 (msg : list Z)
  | COpenEarly (data : list Z)
  | CMsg2 (rng_e rng_ee : KemRand)
  | CRead3 (msg : list Z)
  | CRead3Auth (msg : list Z) (anchor : TrustAnchor).

Definition init_call (c : InitCall) (i : Initiator) : option Initiator :=
  match c with
  | CMsg1 rng => fst <$> write_msg1 rng i
  | CSealEarly pt => fst <$> seal_early_data pt i
  | CRead2 m => fst <$> read_msg2 m i
  | CMsg3 a b => fst <$> write_msg3 a b i
  | CMsg3Auth a b c anchor => fst <$> write_msg3_with_auth a b c anchor i
  end.

Definition resp_call (c : RespCall) (r : Responder) : option Responder :=
  match c with
  | CRead1 m => fst <$> read_msg1 m r
  | COpenEarly d => fst <$> open_early_data d r
  | CMsg2 a b => fst <$> write_msg2 a b r
  | CRead3 m => fst <$> read_msg3 m r
  | CRead3Auth m anchor => fst <$> read_msg3_with_auth m anchor r
  end.

Fixpoint init_calls (cs : list InitCall) (i : Initiator) : option Initiator :=
  match cs with [] => Some i | c :: cs' => i ← init_call c i; init_calls cs' i end.

Fixpoint resp_calls (cs : list RespCall) (r : Responder) : option Responder :=
  match cs with [] => Some r | c :: cs' => r ← resp_call c r; resp_calls cs' r end.

(** The sealed key and the ephemeral key of message 2 come together. *)
Definition init_ok (i : Initiator) : Prop := is_Some (in_enc_peer_static i) → is_Some (in_peer_eph_pk i).

Lemma slices_ok (m : list Z) a b : 0 ≤ a → 0 ≤ b → a + b + 16 ≤ zlen m →
  is_Some (slice m 0 a) ∧ is_Some (slice m a (a + b)) ∧ is_Some (slice m (a + b) (zlen m)).
Proof. intros. rewrite !slice_ok by lia. eauto. Qed.

Lemma seal_static_some k aad pt : is_Some (seal_static (aead_new k) aad pt).
Proof. destruct (seal_static_spec k aad pt) as (c & -> & _). by eexists. Qed.

Lemma encryption_key_some info s : is_Some (encryption_key info s).
Proof. destruct (encryption_key_ok info s) as [k ->]. by eexists. Qed.

Lemma ss_split_some s : is_Some (ss_split s).
Proof. destruct (ss_split_ok s) as (? & ? & ->). by eexists. Qed.

Lemma early_aead_some s : is_Some (early_data_aead s).
Proof. destruct (early_aead_ok s) as [k ->]. by eexists. Qed.

#[local] Hint Resolve open_static_total seal_static_some encryption_key_some ss_split_some early_aead_some : handshake.

Lemma write_msg3_safe a b signer check i : init_ok i → safe_at init_ok (write_msg3_inner a b signer check) i.
Proof.
  intros Hi. unfold write_msg3_inner. hsafe1. apply safe_some; [done|intros enc He]. hsafe1. apply safe_opt.
  { cbn [in_peer_eph_pk]. apply Hi. by eexists. }
  intros pk Hp. hsafe1. set (i1 := mkInit _ _ _ _ _ _ _ _). assert (∀ ss p e, init_ok (mkInit ss (in_static_sk i) (in_static_pk i) (in_eph_sk i) None p (in_peer_ct_ee i) e)) as Hn.
  { intros ss p e [? [=]]. }
  repeat (hsafe1; try (first [apply Hn | by eauto with handshake])).
Qed.

Ltac hsafe := repeat (hsafe1; try (first [done | by eauto with handshake])).

Lemma init_call_safe c i : init_ok i → ∃ i', init_call c i = Some i' ∧ init_ok i'.
Proof.
  intros Hi.
  assert (∀ X (m : hs Initiator X), safe_at init_ok m i → ∃ i', fst <$> m i = Some i' ∧ init_ok i') as Hs.
  { intros X m (i' & x & -> & Hi'). by exists i'. }
  destruct c as [rng|pt|m|a b|a b d anchor]; cbn [init_call]; apply Hs.
  - unfold write_msg1. apply safe_get. destruct (in_eph_sk i); [by apply safe_err|]. hsafe.
  - unfold seal_early_data. apply safe_get. destruct (in_eph_sk i); [|by apply safe_err]. hsafe.
    pose proof (zlen_nonneg pt). rewrite slice_ok by (rewrite ?zlen_seal; lia). by eexists.
  - unfold read_msg2. destruct (Z.ltb_spec (zlen m) (PUBLIC_KEY_LEN + CIPHERTEXT_LEN + 16)); [by apply safe_err|].
    destruct (@kem_len_nonneg K _). destruct (slices_ok m PUBLIC_KEY_LEN CIPHERTEXT_LEN) as (? & ? & ?); [lia..|].
    hsafe. intros _. by eexists.
  - by apply write_msg3_safe.
  - unfold write_msg3_with_auth. apply safe_get. apply safe_some; [done|]. intros sk Hk. apply safe_mod. by apply write_msg3_safe.
Qed.

Lemma read_msg3_safe m r : safe_at (λ _, True) (read_msg3_inner m) r.
Proof.
  unfold read_msg3_inner. destruct (Z.ltb_spec (zlen m) (2 * CIPHERTEXT_LEN + 16)); [by apply safe_err|].
  destruct (@kem_len_nonneg K _). destruct (slices_ok m CIPHERTEXT_LEN CIPHERTEXT_LEN) as (? & ? & ?); [lia..|].
  replace (2 * CIPHERTEXT_LEN) with (CIPHERTEXT_LEN + CIPHERTEXT_LEN) by lia. hsafe.
Qed.

Lemma safe_bind {S X Y} (I : S → Prop) (m : hs S X) (k : X → hs S Y) s :
  safe_at I m s → (∀ s' x, I s' → safe_at I (k x) s') → safe_at I (hbind m k) s.
Proof. intros (s' & [e|x] & E & Hs) Hk; unfold safe_at, hbind; rewrite E; [eauto|by apply Hk]. Qed.

Lemma resp_call_safe c r : ∃ r', resp_call c r = Some r'.
Proof.
  assert (∀ X (m : hs Responder X), safe_at (λ _, True) m r → ∃ r', fst <$> m r = Some r') as Hs.
  { intros X m (r' & x & -> & _). by exists r'. }
  destruct c as [m|d|a b|m|m anchor]; cbn [resp_call]; apply Hs.
  - unfold read_msg1. hsafe.
  - unfold open_early_data. apply safe_get. destruct (re_peer_eph_pk r); [|by apply safe_err]. hsafe.
  - unfold write_msg2. hsafe.
  - unfold read_msg3. apply safe_bind; [apply read_msg3_safe|]. intros s [[s' plain] h] _. destruct (negb _); [by apply safe_err|]. hsafe.
  - unfold read_msg3_with_auth. apply safe_bind; [apply read_msg3_safe|]. intros s [[s' plain] h] _.
    destruct (Z.eqb_spec (zlen plain) (PUBLIC_KEY_LEN + SIGNATURE_LEN)); cbn [negb]; [|by apply safe_err].
    destruct (@kem_len_nonneg K _). pose proof sig_len_nonneg.
    apply safe_opt; [rewrite slice_ok by lia; by eexists|]. intros pk _. apply safe_opt; [rewrite slice_ok by lia; by eexists|]. intros sig _. hsafe.
Qed.

Lemma init_calls_safe cs i : init_ok i → is_Some (init_calls cs i).
Proof.
  revert i. induction cs as [|c cs IH]; intros i Hi; [by eexists|]. cbn. destruct (init_call_safe c i Hi) as (i' & -> & Hi'). by apply IH.
Qed.

Lemma resp_calls_safe cs r : is_Some (resp_calls cs r).
Proof. revert r. induction cs as [|c cs IH]; intros r; [by eexists|]. cbn. destruct (resp_call_safe c r) as [r' ->]. apply IH. Qed.

End no_panic.

Section starts.
Context {PR : Primitives} {K : Kem}.

(** A party with its static key, with or without a pre-shared key. *)
Definition start_initiator (psk : option (list Z)) (sk : SecretKey) : Initiator :=
  match psk with
  | None => initiator_new sk (public_of sk)
  | Some p => initiator_new_with_psk sk (public_of sk) p
  end.

Definition start_responder (psk : option (list Z)) (sk : SecretKey) : Responder :=
  match psk with
  | None => responder_new sk (public_of sk)
  | Some p => responder_new_with_psk sk (public_of sk) p
  end.

Context {A : StaticAuth K} `{!KemLaws K, !StaticAuthLaws K A, !KemTotal K A}.

Lemma start_agrees g ai ar psk s_i s_r :
  anchor_verify ai RResponder (public_of s_r) = inr tt → anchor_verify ar RInitiator (public_of s_i) = inr tt →
  ∃ i r k1 k2 id, exchange g ai ar (start_initiator psk s_i) (start_responder psk s_r) =
      Some (i, r, session_new k1 k2 id, session_new k2 k1 id, public_of s_i) ∧
    in_peer_static i = Some (public_of s_r).
Proof. intros. apply (exchange_agrees g ai ar s_i s_r); by destruct psk. Qed.

(** The two sides of an honest run. *)
Lemma runs_meet g ai ar psk s_i s_r :
  anchor_verify ai RResponder (public_of s_r) = inr tt → anchor_verify ar RInitiator (public_of s_i) = inr tt →
  ∃ i r m1 m2 m3 k1 k2 id,
    initiator_run g ai m2 (start_initiator psk s_i) = Some (i, m1, m3, session_new k1 k2 id) ∧
    responder_run g ar m1 m3 (start_responder psk s_r) = Some (r, m2, session_new k2 k1 id, public_of s_i).
Proof.
  intros Ha Hb. destruct (start_agrees g ai ar psk s_i s_r Ha Hb) as (i & r & k1 & k2 & id & E & _).
  unfold exchange in E. apply bind_Some in E as ([i1 m1] & H1 & E). apply bind_Some in E as ([r1 u1] & H2 & E).
  apply bind_Some in E as ([r2 m2] & H3 & E). apply bind_Some in E as ([i2 u2] & H4 & E).
  apply bind_Some in E as ([i3 [m3 si]] & H5 & E). apply bind_Some in E as ([r3 [sr pk]] & H6 & E). injection E as -> -> -> -> ->.
  exists i, r, m1, m2, m3, k1, k2, id. unfold initiator_run, responder_run. rewrite H1, H2. cbn [mbind option_bind].
  rewrite H3, H4. cbn [mbind option_bind]. by rewrite H5, H6.
Qed.

End starts.

(** When the three messages arrive as sent and each side trusts the
    other's key, both sides complete: they hold sessions with the same
    identifier and swapped keys, and each knows the other's static key. *)
Theorem handshake_completes `{Primitives} (K : Kem) (A : StaticAuth K) `{!KemLaws K, !StaticAuthLaws K A, !KemTotal K A}
    g ai ar psk s_i s_r :
  anchor_verify ai RResponder (public_of s_r) = inr tt → anchor_verify ar RInitiator (public_of s_i) = inr tt →
  ∃ i r k1 k2 id, exchange g ai ar (start_initiator psk s_i) (start_responder psk s_r) =
      Some (i, r, session_new k1 k2 id, session_new k2 k1 id, public_of s_i) ∧
    in_peer_static i = Some (public_of s_r).
Proof. apply start_agrees. Qed.

Definition toy_hybrid : Kem := @HybridKem toy_primitives (@Sm2Kem toy_sm2) (@MlKem768Kem toy_mlkem).
Definition toy_auth : StaticAuth toy_hybrid := @HybridAuth toy_primitives (@Sm2Kem toy_sm2) (@MlKem768Kem toy_mlkem) (@Sm2Auth toy_sm2).
Definition toy_key (a b : Z) : @SecretKey toy_hybrid := mkHybridKey (@Sm2Kem toy_sm2) (@MlKem768Kem toy_mlkem) a b.
Definition toy_random : @HsRandom toy_hybrid toy_auth := @mkHsRandom toy_hybrid toy_auth (1, 2) (3, 4) (5, 6) (7, 8) (9, 10) 11.

#[global] Instance toy_hybrid_laws : KemLaws toy_hybrid.
Proof. unfold toy_hybrid. apply _. Qed.
#[global] Instance toy_auth_laws : StaticAuthLaws toy_hybrid toy_auth.
Proof. unfold toy_auth, toy_hybrid. apply _. Qed.
#[global] Instance toy_total : KemTotal toy_hybrid toy_auth.
Proof. unfold toy_auth, toy_hybrid. apply _. Qed.

Lemma handshake_completes_witness :
  ∃ i r k1 k2 id, @exchange toy_primitives toy_hybrid toy_auth toy_random AllowAllAnchor AllowAllAnchor
      (start_initiator (PR := toy_primitives) (Some [1; 2]) (toy_key 20 21)) (start_responder (PR := toy_primitives) (Some [1; 2]) (toy_key 30 31)) =
    Some (i, r, session_new k1 k2 id, session_new k2 k1 id, public_of (toy_key 20 21)) ∧
    in_peer_static i = Some (public_of (toy_key 30 31)).
Proof.
  apply (@handshake_completes toy_primitives toy_hybrid toy_auth _ _ _ toy_random AllowAllAnchor AllowAllAnchor (Some [1; 2]) (toy_key 20 21) (toy_key 30 31));
    reflexivity.
Defined.

(** The parts of the three messages in the order they are hashed. *)
Definition hs_parts `{K : Kem} (m1 m2 m3 : list Z) : list (list Z) :=
  let p := Z.to_nat PUBLIC_KEY_LEN in let c := Z.to_nat CIPHERTEXT_LEN in
  [m1; take p m2; take c (drop p m2); drop c (drop p m2); take c m3; take c (drop c m3); drop c (drop c m3)].

Lemma hs_parts_app `{K : Kem} m1 epk ct enc ct_se ct_ss enc_si :
  zlen epk = PUBLIC_KEY_LEN → zlen ct = CIPHERTEXT_LEN → zlen ct_se = CIPHERTEXT_LEN → zlen ct_ss = CIPHERTEXT_LEN →
  hs_parts m1 (epk ++ ct ++ enc) (ct_se ++ ct_ss ++ enc_si) = [m1; epk; ct; enc; ct_se; ct_ss; enc_si].
Proof.
  unfold hs_parts. intros Hp Hc He Hs.
  assert (Z.to_nat PUBLIC_KEY_LEN = length epk) as -> by (unfold zlen in *; lia).
  rewrite take_app_length, !drop_app_length.
  assert (Z.to_nat CIPHERTEXT_LEN = length ct) as E1 by (unfold zlen in *; lia).
  assert (Z.to_nat CIPHERTEXT_LEN = length ct_se) as E2 by (unfold zlen in *; lia).
  assert (Z.to_nat CIPHERTEXT_LEN = length ct_ss) as E3 by (unfold zlen in *; lia).
  repeat f_equal; by rewrite ?E1, ?take_app_length, ?drop_app_length, <-?E1, ?E2, ?take_app_length, ?drop_app_length, <-?E2, ?E3, ?take_app_length, ?drop_app_length.
Qed.

(** [C18] Against any network, with or without a pre-shared key: if both sides
    complete and end up with the same session identifier, then each received
    exactly the messages the other sent, or at one of the steps of the
    transcript the two sides hashed inputs that collide under SM3. *)
Theorem session_id_binds `{Primitives} (K : Kem) (A : StaticAuth K) `{!KemLaws K}
    gi gr ai ar psk psk' s_i s_r m1 m2 m3 m1' m2' m3' i r s s' pk :
  initiator_run gi ai m2' (start_initiator psk s_i) = Some (i, m1, m3, s) →
  responder_run gr ar m1' m3' (start_responder psk' s_r) = Some (r, m2, s', pk) →
  se_id s = se_id s' →
  m1' = m1 ∧ m2' = m2 ∧ m3' = m3 ∨ transcripts_collide (hs_parts m1 m2' m3) (hs_parts m1' m2 m3').
Proof.
  intros Hi Hr Hid.
  apply initiator_run_inv in Hi as (e1 & c1 & n1 & a1 & b1 & d1 & pk1 & -> & L1 & L2 & -> & L3 & L4 & E1 & _); [|by destruct psk].
  apply responder_run_inv in Hr as (e2 & c2 & n2 & a2 & b2 & d2 & sg & -> & M1 & M2 & -> & M3 & M4 & E & _); [|by destruct psk'].
  rewrite !hs_parts_app by done. rewrite E1, E in Hid. apply transcript_inj in Hid as [Hl|Hc]; [|by right|done]. left. by simplify_eq.
Qed.

Lemma session_id_binds_witness : ∃ i r m1 m2 m3 k1 k2 id,
  @initiator_run toy_primitives toy_hybrid toy_auth toy_random AllowAllAnchor m2 (@start_initiator toy_primitives toy_hybrid None (toy_key 20 21)) = Some (i, m1, m3, session_new k1 k2 id) ∧
  @responder_run toy_primitives toy_hybrid toy_auth toy_random AllowAllAnchor m1 m3 (@start_responder toy_primitives toy_hybrid None (toy_key 30 31)) = Some (r, m2, session_new k2 k1 id, public_of (toy_key 20 21)) ∧
  (m1 = m1 ∧ m2 = m2 ∧ m3 = m3 ∨ @transcripts_collide toy_primitives toy_hybrid (@hs_parts toy_hybrid m1 m2 m3) (@hs_parts toy_hybrid m1 m2 m3)).
Proof.
  destruct (@runs_meet toy_primitives toy_hybrid toy_auth _ _ _ toy_random AllowAllAnchor AllowAllAnchor None (toy_key 20 21) (toy_key 30 31) eq_refl eq_refl)
    as (i & r & m1 & m2 & m3 & k1 & k2 & id & Ei & Er).
  exists i, r, m1, m2, m3, k1, k2, id. split; [exact Ei|]. split; [exact Er|].
  exact (@session_id_binds toy_primitives toy_hybrid toy_auth _ _ _ _ _ _ _ _ _ _ _ _ _ _ _ _ _ _ _ _ Ei Er eq_refl).
Defined.

(** [C19] Neither side completes with a peer its trust anchor refuses: the
    initiator's session comes with a key the anchor accepts that was sealed,
    over the transcript so far, under the key derived from the secret
    encapsulated to its own ephemeral key; the responder's with a key the
    anchor accepts and a signature by it over the transcript. *)
Theorem handshake_authenticates `{Primitives} (K : Kem) (A : StaticAuth K) `{!KemLaws K} g anchor psk sk :
  (∀ m2 i m1 m3 s, initiator_run g anchor m2 (start_initiator psk sk) = Some (i, m1, m3, s) →
     ∃ pk epk ct enc e_sk ss_ee key q, in_peer_static i = Some pk ∧ anchor_verify anchor RResponder pk = inr tt ∧
       m2 = epk ++ ct ++ enc ∧ keypair (hr_e_i g) = inr (e_sk, m1) ∧ decapsulate e_sk ct = inr ss_ee ∧
       encryption_key INFO_STATIC_ENC (mix_key ss_ee (in_ss (start_initiator psk sk))) = Some key ∧
       open_static (aead_new key) (transcript [m1; epk; ct]) enc = ok (q, pk)) ∧
  (∀ m1 m3 r m2 s pk, responder_run g anchor m1 m3 (start_responder psk sk) = Some (r, m2, s, pk) →
     ∃ epk ct enc ct_se ct_ss enc_si sig, anchor_verify anchor RInitiator pk = inr tt ∧
       m2 = epk ++ ct ++ enc ∧ m3 = ct_se ++ ct_ss ++ enc_si ∧
       verify pk (transcript [m1; epk; ct; enc; ct_se; ct_ss]) sig = inr tt).
Proof.
  split.
  - intros m2 i m1 m3 s Hi.
    apply initiator_run_inv in Hi as (e & c & n & a & b & d & pk & Hm & _ & _ & _ & _ & _ & _ & Hp & Ha & _ & es & se & k & q & H1 & H2 & H3 & H4);
      [|by destruct psk].
    by exists pk, e, c, n, es, se, k, q.
  - intros m1 m3 r m2 s pk Hr.
    apply responder_run_inv in Hr as (e & c & n & a & b & d & sg & Hm & _ & _ & Hm3 & _ & _ & _ & Ha & Hv); [|by destruct psk].
    by exists e, c, n, a, b, d, sg.
Qed.

Lemma handshake_authenticates_witness : ∃ r m1 m2 m3 k1 k2 id,
  @responder_run toy_primitives toy_hybrid toy_auth toy_random AllowAllAnchor m1 m3 (@start_responder toy_primitives toy_hybrid None (toy_key 30 31)) = Some (r, m2, session_new k2 k1 id, public_of (toy_key 20 21)) ∧
  ∃ epk ct enc ct_se ct_ss enc_si sig, anchor_verify AllowAllAnchor RInitiator (public_of (toy_key 20 21)) = inr tt ∧
    m2 = epk ++ ct ++ enc ∧ m3 = ct_se ++ ct_ss ++ enc_si ∧
    @verify toy_hybrid toy_auth (public_of (toy_key 20 21)) (@transcript toy_primitives toy_hybrid [m1; epk; ct; enc; ct_se; ct_ss]) sig = inr tt.
Proof.
  destruct (@runs_meet toy_primitives toy_hybrid toy_auth _ _ _ toy_random AllowAllAnchor AllowAllAnchor None (toy_key 20 21) (toy_key 30 31) eq_refl eq_refl)
    as (i & r & m1 & m2 & m3 & k1 & k2 & id & Ei & Er).
  exists r, m1, m2, m3, k1, k2, id. split; [exact Er|].
  exact (proj2 (@handshake_authenticates toy_primitives toy_hybrid toy_auth _ toy_random AllowAllAnchor None (toy_key 30 31)) _ _ _ _ _ _ Er).
Defined.

(** Whatever bytes arrive, and in whatever order the methods of either
    side are called, nothing panics: every call returns a result or an
    error. *)
Theorem handshake_never_panics `{Primitives} (K : Kem) (A : StaticAuth K) `{!KemLaws K, !StaticAuthLaws K A} :
  (∀ psk sk cs, is_Some (init_calls cs (start_initiator psk sk))) ∧
  (∀ psk sk cs, is_Some (resp_calls cs (start_responder psk sk))).
Proof.
  split; intros psk sk cs.
  - apply init_calls_safe. destruct psk; by intros [? [=]].
  - apply resp_calls_safe.
Qed.

Definition toy_calls : list (@InitCall toy_hybrid toy_auth) :=
  let r : @KemRand toy_hybrid := (1, 2) in [CRead2 [1; 2; 3]; CMsg1 r; CRead2 []; CMsg1 r].

Lemma handshake_never_panics_witness :
  is_Some (@init_calls toy_primitives toy_hybrid toy_auth toy_calls (@start_initiator toy_primitives toy_hybrid None (toy_key 20 21))).
Proof. exact (proj1 (@handshake_never_panics toy_primitives toy_hybrid toy_auth _ _) None (toy_key 20 21) toy_calls). Defined.
