(* ===== verification/GmApi.v ===== *)
(** * GM-PQ: the integration API

    Models [crates/gm-pq-stack/src/api.rs]: frames on a byte stream, the
    client's full and resumed handshakes, the server with its cookie
    challenge, its tickets and its fallback, and the message channel.  A
    byte stream is the bytes that will arrive, after which it ends, and the
    bytes written; writing does not fail.  The clock is read at the fields of
    [ServerClock].  The scheme is any [Kem] of moderate sizes; [DefaultHybrid]
    is the one the code uses. *)

From S2P Require Import Prelude Bytes GmCrypto GmSession GmTrust GmKem GmHandshake GmCookie GmPsk.

Definition T_MSG1 : Z := 0x01.
Definition T_COOKIE : Z := 0x02.
Definition T_MSG1_RETRY : Z := 0x03.
Definition T_MSG2 : Z := 0x04.
Definition T_MSG3 : Z := 0x05.
Definition T_MSG1_PSK : Z := 0x06.
Definition T_PSK_REJECT : Z := 0x07.

(** ["TKT1"] *)
Definition TICKET_PUSH_PREFIX : list Z := [84; 75; 84; 49].
Definition MAX_FRAME : Z := 2 ^ 20.

(** ** Frames *)

Record Stream := mkStream {
  st_in : list Z;
  st_out : list Z
}.

Definition write_all (b : list Z) : hs Stream unit := hmod (λ s, mkStream (st_in s) (st_out s ++ b)).

(** At the end of the stream, an I/O error. *)
Definition read_exact (n : Z) : hs Stream (list Z) := λ s,
  if zlen (st_in s) <? n then Some (s, inl GmIo)
  else Some (mkStream (drop (Z.to_nat n) (st_in s)) (st_out s), inr (take (Z.to_nat n) (st_in s))).

Definition write_frame (ty : Z) (payload : list Z) : hs Stream unit :=
  _ ⟵ write_all [ty];
  _ ⟵ write_all (to_be 4 (as_u32 (zlen payload)));
  write_all payload.

Definition read_frame : hs Stream (Z * list Z) :=
  hdr ⟵ read_exact 5;
  ty ⟵ hopt (vget hdr 0);
  l ⟵ hopt (slice hdr 1 5);
  let n := from_be l in
  if MAX_FRAME <? n then herr InvalidEncoding else
  buf ⟵ read_exact n;
  hret (ty, buf).

Definition expect_frame (want : Z) : hs Stream (list Z) :=
  '(got, payload) ⟵ read_frame;
  if negb (got =? want) then herr HandshakeState else hret payload.

(** A method of a local object within a computation on the stream. *)
Definition hlocal {S T X} (m : hs T X) (t : T) : hs S (T * X) := λ s,
  match m t with
  | None => None
  | Some (_, inl e) => Some (s, inl e)
  | Some (t', inr x) => Some (s, inr (t', x))
  end.

Section api.
Context {PR : Primitives}.

(** ** The channel *)

Definition send_msg (data : list Z) (session : Session) : hs Stream Session :=
  '(session, packet) ⟵ hopt (session_send data session);
  _ ⟵ write_all (to_be 4 (as_u32 (zlen packet)));
  _ ⟵ write_all packet;
  hret session.

Definition recv_msg (session : Session) : hs Stream (Session * list Z) :=
  hdr ⟵ read_exact 4;
  let n := from_be hdr in
  if MAX_FRAME <? n then herr InvalidEncoding else
  buf ⟵ read_exact n;
  hres (session_recv buf session).

Definition strip_prefix (p l : list Z) : option (list Z) :=
  if bool_decide (take (length p) l = p) then Some (drop (length p) l) else None.

Definition recv_ticket_push (session : Session) : hs Stream (Session * option (list Z * list Z)) :=
  '(session, msg) ⟵ recv_msg session;
  body ⟵ hsome (strip_prefix TICKET_PUSH_PREFIX msg);
  if zlen body <? 2 + 32 then herr InvalidEncoding else
  b ⟵ hopt (slice body 0 2);
  let tlen := from_be b in
  if negb (zlen body =? 2 + tlen + 32) then herr InvalidEncoding else
  ticket ⟵ hopt (slice body 2 (2 + tlen));
  psk ⟵ hopt (slice body (2 + tlen) (zlen body));
  hret (session, Some (ticket, psk)).

Context {K : Kem} {A : StaticAuth K}.

(** ** The client *)

Record ClientOutcome := mkClient {
  co_session : Session;
  co_peer_static : list Z;
  co_resumption : option (list Z * list Z);
  co_resumed : bool;
  co_early_data_accepted : bool
}.

Definition client_connect_full (g : HsRandom) (static_sk : SecretKey) (static_pk : list Z) (anchor : TrustAnchor) : hs Stream ClientOutcome :=
  let init := initiator_new static_sk static_pk in
  '(init, e_pk) ⟵ hlocal (write_msg1 (hr_e_i g)) init;
  _ ⟵ write_frame T_MSG1 e_pk;
  cookie ⟵ expect_frame T_COOKIE;
  let retry := cookie ++ e_pk in
  _ ⟵ write_frame T_MSG1_RETRY retry;
  m2 ⟵ expect_frame T_MSG2;
  '(init, _) ⟵ hlocal (read_msg2 m2) init;
  '(init, (m3, session)) ⟵ hlocal (write_msg3_with_auth (hr_se g) (hr_ss g) (hr_sign g) anchor) init;
  _ ⟵ write_frame T_MSG3 m3;
  let peer_static := default [] (in_peer_static init) in
  '(session, resumption) ⟵ recv_ticket_push session;
  hret (mkClient session peer_static resumption false false).

(** [g'] is the randomness of a fallback. *)
Definition client_connect_resume (g g' : HsRandom) (static_sk : SecretKey) (static_pk : list Z) (anchor : TrustAnchor)
    (ticket psk : list Z) (early_data : option (list Z)) : hs Stream ClientOutcome :=
  let init := initiator_new_with_psk static_sk static_pk psk in
  '(init, e_pk) ⟵ hlocal (write_msg1 (hr_e_i g)) init;
  sealed ⟵ match early_data with
           | Some ed => '(_, c) ⟵ hlocal (seal_early_data ed) init; hret c
           | None => hret []
           end;
  _ ⟵ write_frame T_MSG1_PSK (ticket ++ e_pk ++ sealed);
  '(ty, m2_raw) ⟵ read_frame;
  if ty =? T_PSK_REJECT then
    '(sk, pk) ⟵ hsum (into_static_keys init);
    client_connect_full g' sk pk anchor
  else if ty =? T_MSG2 then
    match m2_raw with
    | [] => herr InvalidEncoding
    | accepted :: m2 =>
        '(init, _) ⟵ hlocal (read_msg2 m2) init;
        '(init, (m3, session)) ⟵ hlocal (write_msg3_with_auth (hr_se g) (hr_ss g) (hr_sign g) anchor) init;
        _ ⟵ write_frame T_MSG3 m3;
        let peer_static := default [] (in_peer_static init) in
        '(session, resumption) ⟵ recv_ticket_push session;
        hret (mkClient session peer_static resumption true (accepted =? 1))
    end
  else herr HandshakeState.

(** ** The server *)

Record ServerConfig := mkServerConfig {
  sc_cookie : CookieIssuer;
  sc_tickets : TicketIssuer;
  sc_anchor : TrustAnchor;
  sc_client_tag : list Z;
  sc_ticket_ttl_secs : Z
}.

(** The clock where it is read: issuing and verifying a cookie, opening a
    ticket, the ticket cache, issuing a ticket. *)
Record ServerClock := mkClock {
  now_cookie : Z;
  now_verify : Z;
  now_open : Z;
  now_cache : Z;
  now_ticket : Z
}.

Record ServerOutcome := mkServer {
  so_session : Session;
  so_peer_static : list Z;
  so_early_data : option (list Z);
  so_resumed : bool
}.

Definition cookie_roundtrip (cfg : ServerConfig) (t : ServerClock) (e_pk : list Z) : hs Stream (list Z) :=
  retry ⟵ expect_frame T_MSG1_RETRY;
  if zlen retry <? COOKIE_LEN then herr InvalidEncoding else
  cookie_echo ⟵ hopt (slice retry 0 COOKIE_LEN);
  e_pk2 ⟵ hopt (slice retry COOKIE_LEN (zlen retry));
  if negb (bool_decide (e_pk2 = e_pk)) then herr HandshakeState else
  _ ⟵ hres (cookie_verify (now_verify t) (sc_client_tag cfg) e_pk cookie_echo (sc_cookie cfg));
  hret e_pk.

(** The channel and the push of a fresh ticket over it. *)
Definition finish_server (cfg : ServerConfig) (t : ServerClock) (rt : TicketRandom) (session : Session) (client_pk : list Z)
    : hs Stream Session :=
  '(ticket, psk) ⟵ hopt (ticket_issue rt (now_ticket t) client_pk (sc_ticket_ttl_secs cfg) (sc_tickets cfg));
  send_msg (TICKET_PUSH_PREFIX ++ to_be 2 (zlen ticket) ++ ticket ++ psk) session.

Definition full_handshake (cfg : ServerConfig) (t : ServerClock) (g : HsRandom) (rt : TicketRandom)
    (static_sk : SecretKey) (static_pk e_pk : list Z) : hs Stream ServerOutcome :=
  let resp := responder_new static_sk static_pk in
  '(resp, _) ⟵ hlocal (read_msg1 e_pk) resp;
  '(resp, m2) ⟵ hlocal (write_msg2 (hr_e_r g) (hr_ee g)) resp;
  _ ⟵ write_frame T_MSG2 m2;
  m3 ⟵ expect_frame T_MSG3;
  '(resp, (session, client_pk)) ⟵ hlocal (read_msg3_with_auth m3 (sc_anchor cfg)) resp;
  session ⟵ finish_server cfg t rt session client_pk;
  hret (mkServer session client_pk None false).

(** The outcome of a method whose error is caught. *)
Definition caught {S X} (r : option (S * (GmError + X))) : option (option (S * X)) :=
  match r with
  | None => None
  | Some (_, inl _) => Some None
  | Some (s, inr x) => Some (Some (s, x))
  end.

(** The part before the first message of a resumption is answered: [inr] is
    the responder, the early data and the fingerprint of the ticket, [inl]
    the fallback.  The cache is consulted as soon as the ticket is open. *)
Definition resume_open (cfg : ServerConfig) (t : ServerClock) (static_sk : SecretKey) (static_pk payload : list Z) (cache : TicketCache)
    : option (TicketCache * (unit + (Responder * option (list Z) * list Z))) :=
  if zlen payload <? TICKET_LEN + PUBLIC_KEY_LEN then Some (cache, inl tt) else
  ticket ← slice payload 0 TICKET_LEN;
  e_pk ← slice payload TICKET_LEN (TICKET_LEN + PUBLIC_KEY_LEN);
  enc_early ← slice payload (TICKET_LEN + PUBLIC_KEY_LEN) (zlen payload);
  p ← ticket_open (now_open t) ticket (sc_tickets cfg);
  match p with
  | inl _ => Some (cache, inl tt)
  | inr p =>
      let '(cache, fresh) := check_and_insert (now_cache t) (tp_ticket_id p) (tp_expires_at p) cache in
      match fresh with
      | inl _ => Some (cache, inl tt)
      | inr _ =>
          r1 ← caught (read_msg1 e_pk (responder_new_with_psk static_sk static_pk (tp_psk p)));
          match r1 with
          | None => Some (cache, inl tt)
          | Some (resp, _) =>
              match enc_early with
              | [] => Some (cache, inr (resp, None, tp_client_pk_fingerprint p))
              | _ =>
                  r2 ← caught (open_early_data enc_early resp);
                  match r2 with
                  | None => Some (cache, inl tt)
                  | Some (_, ed) => Some (cache, inr (resp, Some ed, tp_client_pk_fingerprint p))
                  end
              end
          end
      end
  end.

Definition resume_finish (cfg : ServerConfig) (t : ServerClock) (g : HsRandom) (rt : TicketRandom)
    (resp : Responder) (early_data : option (list Z)) (fingerprint : list Z) : hs Stream ServerOutcome :=
  '(resp, m2) ⟵ hlocal (write_msg2 (hr_e_r g) (hr_ee g)) resp;
  _ ⟵ write_frame T_MSG2 ((match early_data with Some _ => 1 | None => 0 end) :: m2);
  m3 ⟵ expect_frame T_MSG3;
  '(_, (session, client_pk)) ⟵ hlocal (read_msg3_with_auth m3 (sc_anchor cfg)) resp;
  if negb (bool_decide (sm3 [client_pk] = fingerprint)) then herr PeerAuth else
  session ⟵ finish_server cfg t rt session client_pk;
  hret (mkServer session client_pk early_data true).

(** The stream and the shared cache of tickets. *)
Definition cookie_then_full (cfg : ServerConfig) (t : ServerClock) (g : HsRandom) (rt : TicketRandom)
    (static_sk : SecretKey) (static_pk e_pk : list Z) : hs Stream ServerOutcome :=
  _ ⟵ write_frame T_COOKIE (cookie_issue (now_cookie t) (sc_client_tag cfg) e_pk (sc_cookie cfg));
  e_pk ⟵ cookie_roundtrip cfg t e_pk;
  full_handshake cfg t g rt static_sk static_pk e_pk.

Definition server_accept (cfg : ServerConfig) (t : ServerClock) (g : HsRandom) (rt : TicketRandom)
    (static_sk : SecretKey) (static_pk : list Z) (cache : TicketCache) (s : Stream)
    : option (TicketCache * Stream * (GmError + ServerOutcome)) :=
  '(s, first) ← read_frame s;
  match first with
  | inl e => Some (cache, s, inl e)
  | inr (ty, payload) =>
      if ty =? T_MSG1 then
        '(s, r) ← cookie_then_full cfg t g rt static_sk static_pk payload s;
        Some (cache, s, r)
      else if ty =? T_MSG1_PSK then
        '(cache, attempt) ← resume_open cfg t static_sk static_pk payload cache;
        match attempt with
        | inr (resp, early_data, fingerprint) =>
            '(s, r) ← resume_finish cfg t g rt resp early_data fingerprint s;
            Some (cache, s, r)
        | inl _ =>
            '(s, r) ← (_ ⟵ write_frame T_PSK_REJECT [];
                       e_pk ⟵ expect_frame T_MSG1;
                       cookie_then_full cfg t g rt static_sk static_pk e_pk) s;
            Some (cache, s, r)
        end
      else Some (cache, s, inl HandshakeState)
  end.

End api.

(** ** Frames are read as written *)

Definition frame (ty : Z) (payload : list Z) : list Z := [ty] ++ to_be 4 (zlen payload) ++ payload.
Definition msg_frame (packet : list Z) : list Z := to_be 4 (zlen packet) ++ packet.

Lemma as_len_small n : 0 ≤ n ≤ MAX_FRAME → as_u32 n = n.
Proof. intros. unfold as_u32. apply Z.mod_small. unfold MAX_FRAME in *. lia. Qed.

Lemma write_frame_ok ty p s : zlen p ≤ MAX_FRAME →
  write_frame ty p s = Some (mkStream (st_in s) (st_out s ++ frame ty p), inr tt).
Proof.
  intros Hl. unfold write_frame, write_all, frame, hbind, hmod. cbn [st_in st_out]. rewrite as_len_small by (pose proof (zlen_nonneg p); lia).
  by rewrite <-!app_assoc.
Qed.

Lemma read_exact_app a rest out n : zlen a = n → read_exact n (mkStream (a ++ rest) out) = Some (mkStream rest out, inr a).
Proof.
  intros <-. unfold read_exact. cbn [st_in st_out]. rewrite zlen_app. pose proof (zlen_nonneg rest).
  rewrite (proj2 (Z.ltb_ge _ _)) by lia. unfold zlen. by rewrite Nat2Z.id, take_app_length, drop_app_length.
Qed.

Lemma from_to_be4 n : 0 ≤ n ≤ MAX_FRAME → from_be (to_be 4 n) = n.
Proof. intros. apply from_to_be. unfold MAX_FRAME in *. lia. Qed.

Lemma read_frame_ok ty p rest out : zlen p ≤ MAX_FRAME →
  read_frame (mkStream (frame ty p ++ rest) out) = Some (mkStream rest out, inr (ty, p)).
Proof.
  intros Hl. pose proof (zlen_nonneg p). unfold read_frame, frame. rewrite <-!app_assoc. rewrite (app_assoc [ty]).
  rewrite (hbind_step _ _ _ _ _ (read_exact_app ([ty] ++ to_be 4 (zlen p)) (p ++ rest) out 5 eq_refl)).
  assert (vget ([ty] ++ to_be 4 (zlen p)) 0 = Some ty) as Hv by done.
  assert (slice ([ty] ++ to_be 4 (zlen p)) 1 5 = Some (to_be 4 (zlen p))) as Hs by by apply slice_tail.
  rewrite Hv, Hs. cbn [hbind hopt mbind option_bind]. rewrite from_to_be4 by lia.
  rewrite (proj2 (Z.ltb_ge _ _)) by lia. by rewrite (hbind_step _ _ _ _ _ (read_exact_app p rest out _ eq_refl)).
Qed.

Lemma expect_frame_ok ty p rest out : zlen p ≤ MAX_FRAME →
  expect_frame ty (mkStream (frame ty p ++ rest) out) = Some (mkStream rest out, inr p).
Proof. intros Hl. unfold expect_frame. rewrite (hbind_step _ _ _ _ _ (read_frame_ok ty p rest out Hl)). by rewrite Z.eqb_refl. Qed.

Lemma hlocal_ok {S T X} (m : hs T X) t t' x (s : S) : m t = Some (t', inr x) → hlocal m t s = Some (s, inr (t', x)).
Proof. intros E. unfold hlocal. by rewrite E. Qed.

Section api_proofs.
Context {PR : Primitives}.

(** The first message of a fresh session. *)
Lemma first_message k1 k2 id data : zlen data ≤ 1000 → ∃ packet,
  session_send data (session_new k2 k1 id) = Some (mkSess (mkAead k2 1) (aead_new k1) window_new id, packet) ∧
  session_recv packet (session_new k1 k2 id) = ok (mkSess (aead_new k1) (aead_new k2) (mkWin 0 1 true) id, data) ∧ zlen packet ≤ MAX_FRAME.
Proof.
  intros Hl. exists (seal_with_seq (aead_new k2) 0 id data). split; [done|]. split.
  - unfold session_recv, session_new, aead_new. cbn [se_rx se_id]. rewrite open_seal by done. done.
  - rewrite zlen_seal. unfold MAX_FRAME. lia.
Qed.

Lemma send_msg_ok data s s' packet st : session_send data s = Some (s', packet) → zlen packet ≤ MAX_FRAME →
  send_msg data s st = Some (mkStream (st_in st) (st_out st ++ msg_frame packet), inr s').
Proof.
  intros E Hl. unfold send_msg, write_all, msg_frame. rewrite E. unfold hbind, hmod, hopt, hret. cbn [mbind option_bind st_in st_out]. rewrite as_len_small by (pose proof (zlen_nonneg packet); lia).
  by rewrite <-app_assoc.
Qed.

Lemma recv_msg_ok packet c c' data rest out : session_recv packet c = ok (c', data) → zlen packet ≤ MAX_FRAME →
  recv_msg c (mkStream (msg_frame packet ++ rest) out) = Some (mkStream rest out, inr (c', data)).
Proof.
  intros E Hl. pose proof (zlen_nonneg packet). unfold recv_msg, msg_frame. rewrite <-app_assoc.
  rewrite (hbind_step _ _ _ _ _ (read_exact_app (to_be 4 (zlen packet)) (packet ++ rest) out 4 eq_refl)).
  rewrite from_to_be4 by lia. rewrite (proj2 (Z.ltb_ge _ _)) by lia.
  rewrite (hbind_step _ _ _ _ _ (read_exact_app packet rest out _ eq_refl)). unfold hres. by rewrite E.
Qed.

Definition ticket_push (ticket psk : list Z) : list Z := TICKET_PUSH_PREFIX ++ to_be 2 (zlen ticket) ++ ticket ++ psk.

Lemma recv_push_ok packet c c' ticket psk rest out : session_recv packet c = ok (c', ticket_push ticket psk) → zlen packet ≤ MAX_FRAME →
  zlen ticket = TICKET_LEN → zlen psk = 32 →
  recv_ticket_push c (mkStream (msg_frame packet ++ rest) out) = Some (mkStream rest out, inr (c', Some (ticket, psk))).
Proof.
  intros E Hl Ht Hp. unfold recv_ticket_push. rewrite (hbind_step _ _ _ _ _ (recv_msg_ok packet c c' _ rest out E Hl)).
  assert (strip_prefix TICKET_PUSH_PREFIX (ticket_push ticket psk) = Some (to_be 2 (zlen ticket) ++ ticket ++ psk)) as -> by done.
  rewrite (hbind_step _ _ _ _ _ eq_refl). rewrite !zlen_app, Ht, Hp. change (zlen (to_be 2 TICKET_LEN)) with 2.
  change (2 + (TICKET_LEN + 32) <? 2 + 32) with false. cbv iota.
  assert (slice (to_be 2 TICKET_LEN ++ ticket ++ psk) 0 2 = Some (to_be 2 TICKET_LEN)) as -> by by apply slice_head.
  rewrite (hbind_step _ _ _ _ _ eq_refl). change (from_be (to_be 2 TICKET_LEN)) with TICKET_LEN.
  change (negb (2 + (TICKET_LEN + 32) =? 2 + TICKET_LEN + 32)) with false. cbv iota.
  rewrite (slice_app3 (to_be 2 TICKET_LEN) ticket psk) by (rewrite ?Ht; done). rewrite (hbind_step _ _ _ _ _ eq_refl).
  rewrite app_assoc. rewrite (slice_tail (to_be 2 TICKET_LEN ++ ticket) psk) by (rewrite ?zlen_app, ?Ht, ?Hp; done). done.
Qed.

(** ** An honest handshake, step by step *)

Context {K : Kem} {A : StaticAuth K} `{!KemLaws K, !StaticAuthLaws K A, !KemTotal K A}.

Lemma write_msg1_len rng i i1 m : write_msg1 rng i = Some (i1, inr m) → zlen m = PUBLIC_KEY_LEN ∧ in_static_pk i1 = in_static_pk i ∧ is_Some (in_eph_sk i1) ∧ in_static_sk i1 = in_static_sk i.
Proof.
  unfold write_msg1. intros H. hinv H. destruct (in_eph_sk i); [done|]. hinv H. apply hret_inr in H as [-> ->].
  match goal with H : keypair _ = inr _ |- _ => apply keypair_public in H as -> end. split; [by apply kem_public_len|]. by eauto.
Qed.

Lemma read_msg1_static m r r1 a : read_msg1 m r = Some (r1, inr a) → re_static_pk r1 = re_static_pk r.
Proof. unfold read_msg1. intros H. hinv H. by apply hmod_inr in H as ->. Qed.

Lemma write_msg2_len a b r r2 m : write_msg2 a b r = Some (r2, inr m) →
  zlen m = PUBLIC_KEY_LEN + CIPHERTEXT_LEN + zlen (re_static_pk r) + 16.
Proof.
  unfold write_msg2. intros H. hinv H. apply hret_inr in H as [-> ->].
  match goal with H1 : keypair _ = inr _, H2 : encapsulate _ _ = inr _, H3 : seal_static (aead_new ?k) ?h ?p = Some ?c |- _ =>
    destruct (seal_static_spec k h p) as (c' & Hc & _ & Hl); rewrite H3 in Hc; injection Hc as <-;
    apply encap_len in H2 as [? _]; apply keypair_public in H1 as -> end.
  rewrite !zlen_app, (kem_public_len K). lia.
Qed.

Lemma read_msg2_static m i i2 a : read_msg2 m i = Some (i2, inr a) → in_static_pk i2 = in_static_pk i.
Proof. unfold read_msg2. destruct (_ <? _); [done|]. intros H. hinv H. by apply hmod_inr in H as ->. Qed.

Lemma write_msg3_len a b c anchor i i3 m s : write_msg3_with_auth a b c anchor i = Some (i3, inr (m, s)) →
  zlen m = CIPHERTEXT_LEN + CIPHERTEXT_LEN + zlen (in_static_pk i) + SIGNATURE_LEN + 16.
Proof.
  unfold write_msg3_with_auth. intros H. do 3 hinv1 H. unfold write_msg3_inner in H. hinv H. apply hret_inr in H as [-> [= -> ->]].
  repeat match goal with H : sbind _ _ = inr _ |- _ => apply sbind_inr in H as (? & ? & [= <-]) end.
  repeat match goal with H : encapsulate _ _ = inr _ |- _ => apply encap_len in H as [? _] end.
  match goal with H1 : sign _ _ _ = inr _, H3 : seal_static (aead_new ?k) ?h ?p = Some ?c |- _ =>
    destruct (seal_static_spec k h p) as (c' & Hc & _ & Hl); rewrite H3 in Hc; injection Hc as <-;
    apply sign_verify in H1 as [? _] end.
  rewrite zlen_app in Hl. rewrite !zlen_app. lia.
Qed.

(** The steps of the two sides, and the lengths of the messages. *)
Record HonestRun (gc gs : HsRandom) (ai ar : TrustAnchor) (psk : option (list Z)) (s_i s_r : SecretKey) := {
  hn_i1 : Initiator; hn_i2 : Initiator; hn_i3 : Initiator;
  hn_r1 : Responder; hn_r2 : Responder; hn_r3 : Responder;
  hn_m1 : list Z; hn_m2 : list Z; hn_m3 : list Z;
  hn_k1 : list Z; hn_k2 : list Z; hn_id : list Z;
  hn_w1 : write_msg1 (hr_e_i gc) (start_initiator psk s_i) = Some (hn_i1, inr hn_m1);
  hn_d1 : read_msg1 hn_m1 (start_responder psk s_r) = Some (hn_r1, inr tt);
  hn_w2 : write_msg2 (hr_e_r gs) (hr_ee gs) hn_r1 = Some (hn_r2, inr hn_m2);
  hn_d2 : read_msg2 hn_m2 hn_i1 = Some (hn_i2, inr tt);
  hn_w3 : write_msg3_with_auth (hr_se gc) (hr_ss gc) (hr_sign gc) ai hn_i2 = Some (hn_i3, inr (hn_m3, session_new hn_k1 hn_k2 hn_id));
  hn_d3 : read_msg3_with_auth hn_m3 ar hn_r2 = Some (hn_r3, inr (session_new hn_k2 hn_k1 hn_id, public_of s_i));
  hn_peer : in_peer_static hn_i3 = Some (public_of s_r);
  hn_l1 : zlen hn_m1 = PUBLIC_KEY_LEN;
  hn_l2 : zlen hn_m2 = PUBLIC_KEY_LEN + CIPHERTEXT_LEN + PUBLIC_KEY_LEN + 16;
  hn_l3 : zlen hn_m3 = CIPHERTEXT_LEN + CIPHERTEXT_LEN + PUBLIC_KEY_LEN + SIGNATURE_LEN + 16
}.

#[global] Arguments hn_m1 {gc gs ai ar psk s_i s_r} _.
#[global] Arguments hn_m2 {gc gs ai ar psk s_i s_r} _.
#[global] Arguments hn_m3 {gc gs ai ar psk s_i s_r} _.
#[global] Arguments hn_k1 {gc gs ai ar psk s_i s_r} _.
#[global] Arguments hn_k2 {gc gs ai ar psk s_i s_r} _.
#[global] Arguments hn_id {gc gs ai ar psk s_i s_r} _.

Lemma honest_run gc gs ai ar psk s_i s_r :
  anchor_verify ai RResponder (public_of s_r) = inr tt → anchor_verify ar RInitiator (public_of s_i) = inr tt →
  inhabited (HonestRun gc gs ai ar psk s_i s_r).
Proof.
  intros Ha Hb. set (g := mkHsRandom (hr_e_i gc) (hr_e_r gs) (hr_ee gs) (hr_se gc) (hr_ss gc) (hr_sign gc)).
  destruct (start_agrees g ai ar psk s_i s_r Ha Hb) as (i & r & k1 & k2 & id & E & Hp).
  unfold exchange in E. cbn [hr_e_i hr_e_r hr_ee hr_se hr_ss hr_sign g] in E.
  apply bind_Some in E as ([i1 m1] & H1%completed_Some & E). apply bind_Some in E as ([r1 []] & H2%completed_Some & E).
  apply bind_Some in E as ([r2 m2] & H3%completed_Some & E). apply bind_Some in E as ([i2 []] & H4%completed_Some & E).
  apply bind_Some in E as ([i3 [m3 si]] & H5%completed_Some & E). apply bind_Some in E as ([r3 [sr pk]] & H6%completed_Some & E).
  injection E as -> -> -> -> ->.
  pose proof (write_msg1_len _ _ _ _ H1) as (L1 & P1 & _). pose proof (write_msg2_len _ _ _ _ _ H3) as L2. pose proof (write_msg3_len _ _ _ _ _ _ _ _ H5) as L3.
  rewrite (read_msg1_static _ _ _ _ H2) in L2. rewrite (read_msg2_static _ _ _ _ H4), P1 in L3.
  assert (in_static_pk (start_initiator psk s_i) = public_of s_i ∧ re_static_pk (start_responder psk s_r) = public_of s_r) as [Q1 Q2] by by destruct psk.
  rewrite Q1 in L3. rewrite Q2 in L2. rewrite (kem_public_len K) in L2, L3.
  constructor. exact {| hn_w1 := H1; hn_d1 := H2; hn_w2 := H3; hn_d2 := H4; hn_w3 := H5; hn_d3 := H6; hn_peer := Hp; hn_l1 := L1; hn_l2 := L2; hn_l3 := L3 |}.
Qed.

(** Frames of the scheme's messages are within the limit. *)
Class KemSmall (K' : Kem) (A' : StaticAuth K') : Prop := kem_small : PUBLIC_KEY_LEN + CIPHERTEXT_LEN + SIGNATURE_LEN ≤ 2 ^ 17.
Context `{!KemSmall K A}.

(** Sessions of two ends that fit together: the keys swapped, and the one
    message the server has sent read by the client. *)
Definition matched (c s : Session) : Prop :=
  ae_key (se_tx c) = ae_key (se_rx s) ∧ ae_key (se_rx c) = ae_key (se_tx s) ∧ se_id c = se_id s ∧
  ae_tx_seq (se_tx c) = 0 ∧ se_window s = window_new ∧ ae_tx_seq (se_tx s) = 1 ∧ se_window c = mkWin 0 1 true.

(** The clock of an honest server. *)
Definition clock_ok (cfg : ServerConfig) (t : ServerClock) : Prop :=
  is_u64 (now_cookie t) ∧ now_cookie t ≤ now_verify t + 5 ∧ now_verify t - now_cookie t ≤ ck_ttl_secs (sc_cookie cfg) ∧
  0 ≤ ck_ttl_secs (sc_cookie cfg) ∧ now_verify t + 5 ≤ u64_max ∧
  0 ≤ now_ticket t ∧ 0 ≤ sc_ticket_ttl_secs cfg ∧ now_ticket t + sc_ticket_ttl_secs cfg ≤ u64_max.

Lemma sizes : 0 ≤ PUBLIC_KEY_LEN ∧ 0 ≤ CIPHERTEXT_LEN ∧ 0 ≤ SIGNATURE_LEN ∧ PUBLIC_KEY_LEN + CIPHERTEXT_LEN + SIGNATURE_LEN ≤ 2 ^ 17.
Proof. pose proof kem_small. destruct (@kem_len_nonneg K _). pose proof sig_len_nonneg. lia. Qed.

Ltac small := unfold MAX_FRAME; destruct sizes as (? & ? & ? & ?); lia.

(** The server's side after the cookie or the ticket: the push. *)
Lemma finish_server_ok cfg t rt k1 k2 id pk : clock_ok cfg t → good_random rt →
  ∃ ticket s' c' packet, ticket_issue rt (now_ticket t) pk (sc_ticket_ttl_secs cfg) (sc_tickets cfg) = Some (ticket, tk_psk rt) ∧ zlen ticket = TICKET_LEN ∧
    (∀ st, finish_server cfg t rt (session_new k2 k1 id) pk st = Some (mkStream (st_in st) (st_out st ++ msg_frame packet), inr s')) ∧
    (∀ rest out, recv_ticket_push (session_new k1 k2 id) (mkStream (msg_frame packet ++ rest) out) = Some (mkStream rest out, inr (c', Some (ticket, tk_psk rt)))) ∧
    matched c' s'.
Proof.
  intros Hc Hr. destruct Hc as (_ & _ & _ & _ & _ & Hn & Ht & Hx).
  destruct (issue_ok rt (now_ticket t) pk (sc_ticket_ttl_secs cfg) (sc_tickets cfg) Hr Hx) as (ticket & E & Hl).
  destruct (first_message k1 k2 id (ticket_push ticket (tk_psk rt))) as (packet & E1 & E2 & Hpl).
  { unfold ticket_push. rewrite !zlen_app, Hl. destruct Hr as (-> & _). change (zlen (to_be 2 TICKET_LEN)) with 2. vm_compute. congruence. }
  exists ticket, (mkSess (mkAead k2 1) (aead_new k1) window_new id), (mkSess (aead_new k1) (aead_new k2) (mkWin 0 1 true) id), packet.
  split; [done|]. split; [done|]. split_and!.
  - intros st. unfold finish_server. rewrite E. rewrite (hbind_step _ _ _ _ _ eq_refl). by apply send_msg_ok.
  - intros rest out. apply recv_push_ok; [done|done|done|]. by destruct Hr.
  - done.
Qed.

Ltac hgo E := rewrite (hbind_step _ _ _ _ _ E); cbv beta iota zeta.

(** The bytes of a full handshake in each direction. *)
Definition full_c2s (m1 ck m3 : list Z) : list Z := frame T_MSG1 m1 ++ frame T_MSG1_RETRY (ck ++ m1) ++ frame T_MSG3 m3.
Definition full_s2c (ck m2 push : list Z) : list Z := frame T_COOKIE ck ++ frame T_MSG2 m2 ++ msg_frame push.

Lemma client_full_ok gc gs ai ar s_i s_r (H : HonestRun gc gs ai ar None s_i s_r) ck packet c' tp rest out :
  zlen ck = COOKIE_LEN →
  (∀ rest out, recv_ticket_push (session_new (hn_k1 H) (hn_k2 H) (hn_id H)) (mkStream (msg_frame packet ++ rest) out) = Some (mkStream rest out, inr (c', tp))) →
  client_connect_full gc s_i (public_of s_i) ai (mkStream (full_s2c ck (hn_m2 H) packet ++ rest) out) =
    Some (mkStream rest (out ++ full_c2s (hn_m1 H) ck (hn_m3 H)), inr (mkClient c' (public_of s_r) tp false false)).
Proof.
  destruct H as [i1 i2 i3 r1 r2 r3 m1 m2 m3 k1 k2 id w1 d1 w2 d2 w3 d3 hp l1 l2 l3]. cbn [hn_k1 hn_k2 hn_id hn_m1 hn_m2 hn_m3].
  intros Hck Hpush. unfold client_connect_full, full_s2c, full_c2s. cbn [start_initiator] in w1. unfold COOKIE_LEN in Hck.
  hgo (hlocal_ok _ _ _ _ (mkStream ((frame T_COOKIE ck ++ frame T_MSG2 m2 ++ msg_frame packet) ++ rest) out) w1).
  rewrite <-!app_assoc. hgo (write_frame_ok T_MSG1 m1 (mkStream (frame T_COOKIE ck ++ frame T_MSG2 m2 ++ msg_frame packet ++ rest) out) ltac:(small)).
  cbn [st_in st_out]. hgo (expect_frame_ok T_COOKIE ck (frame T_MSG2 m2 ++ msg_frame packet ++ rest) (out ++ frame T_MSG1 m1) ltac:(small)).
  hgo (write_frame_ok T_MSG1_RETRY (ck ++ m1) (mkStream (frame T_MSG2 m2 ++ msg_frame packet ++ rest) (out ++ frame T_MSG1 m1)) ltac:(rewrite zlen_app; small)).
  cbn [st_in st_out]. hgo (expect_frame_ok T_MSG2 m2 (msg_frame packet ++ rest) ((out ++ frame T_MSG1 m1) ++ frame T_MSG1_RETRY (ck ++ m1)) ltac:(small)).
  hgo (hlocal_ok _ _ _ _ (mkStream (msg_frame packet ++ rest) ((out ++ frame T_MSG1 m1) ++ frame T_MSG1_RETRY (ck ++ m1))) d2).
  hgo (hlocal_ok _ _ _ _ (mkStream (msg_frame packet ++ rest) ((out ++ frame T_MSG1 m1) ++ frame T_MSG1_RETRY (ck ++ m1))) w3).
  hgo (write_frame_ok T_MSG3 m3 (mkStream (msg_frame packet ++ rest) ((out ++ frame T_MSG1 m1) ++ frame T_MSG1_RETRY (ck ++ m1))) ltac:(small)).
  cbn [st_in st_out]. hgo (Hpush rest (((out ++ frame T_MSG1 m1) ++ frame T_MSG1_RETRY (ck ++ m1)) ++ frame T_MSG3 m3)).
  rewrite hp. cbn [default]. by rewrite <-!app_assoc.
Qed.

Lemma server_full_ok cfg t gc gs ai rt s_i s_r (H : HonestRun gc gs ai (sc_anchor cfg) None s_i s_r) packet s' rest out :
  clock_ok cfg t →
  (∀ st, finish_server cfg t rt (session_new (hn_k2 H) (hn_k1 H) (hn_id H)) (public_of s_i) st =
     Some (mkStream (st_in st) (st_out st ++ msg_frame packet), inr s')) →
  let ck := cookie_issue (now_cookie t) (sc_client_tag cfg) (hn_m1 H) (sc_cookie cfg) in
  zlen ck = COOKIE_LEN ∧
  cookie_then_full cfg t gs rt s_r (public_of s_r) (hn_m1 H)
      (mkStream (frame T_MSG1_RETRY (ck ++ hn_m1 H) ++ frame T_MSG3 (hn_m3 H) ++ rest) out) =
    Some (mkStream rest (out ++ full_s2c ck (hn_m2 H) packet), inr (mkServer s' (public_of s_i) None false)).
Proof.
  destruct H as [i1 i2 i3 r1 r2 r3 m1 m2 m3 k1 k2 id w1 d1 w2 d2 w3 d3 hp l1 l2 l3]. cbn [hn_k1 hn_k2 hn_id hn_m1 hn_m2 hn_m3].
  intros (Hc1 & Hc2 & Hc3 & Hc4 & Hc5 & _) Hf. set (ck := cookie_issue _ _ m1 _). cbn [start_responder] in d1.
  destruct (verify_issued (now_cookie t) (now_verify t) (sc_client_tag cfg) m1 (sc_cookie cfg)) as [Hck Hv]; [done..|]. fold ck in Hck, Hv. split; [done|].
  unfold cookie_then_full, full_s2c. fold ck. pose proof Hck as Hck'. unfold COOKIE_LEN in Hck'.
  hgo (write_frame_ok T_COOKIE ck (mkStream (frame T_MSG1_RETRY (ck ++ m1) ++ frame T_MSG3 m3 ++ rest) out) ltac:(small)). cbn [st_in st_out].
  assert (cookie_roundtrip cfg t m1 (mkStream (frame T_MSG1_RETRY (ck ++ m1) ++ frame T_MSG3 m3 ++ rest) (out ++ frame T_COOKIE ck)) =
    Some (mkStream (frame T_MSG3 m3 ++ rest) (out ++ frame T_COOKIE ck), inr m1)) as Hrt.
  { unfold cookie_roundtrip. hgo (expect_frame_ok T_MSG1_RETRY (ck ++ m1) (frame T_MSG3 m3 ++ rest) (out ++ frame T_COOKIE ck) ltac:(rewrite zlen_app; small)).
    rewrite zlen_app, Hck. pose proof (zlen_nonneg m1). rewrite (proj2 (Z.ltb_ge _ _)) by lia.
    rewrite slice_head by done. rewrite slice_tail by (rewrite ?zlen_app; lia). cbn [hbind hopt mbind option_bind].
    rewrite bool_decide_true by done. cbn [negb]. unfold hbind, hres. rewrite Hv. done. }
  hgo Hrt. unfold full_handshake.
  hgo (hlocal_ok _ _ _ _ (mkStream (frame T_MSG3 m3 ++ rest) (out ++ frame T_COOKIE ck)) d1).
  hgo (hlocal_ok _ _ _ _ (mkStream (frame T_MSG3 m3 ++ rest) (out ++ frame T_COOKIE ck)) w2).
  hgo (write_frame_ok T_MSG2 m2 (mkStream (frame T_MSG3 m3 ++ rest) (out ++ frame T_COOKIE ck)) ltac:(small)). cbn [st_in st_out].
  hgo (expect_frame_ok T_MSG3 m3 rest ((out ++ frame T_COOKIE ck) ++ frame T_MSG2 m2) ltac:(small)).
  hgo (hlocal_ok _ _ _ _ (mkStream rest ((out ++ frame T_COOKIE ck) ++ frame T_MSG2 m2)) d3).
  hgo (Hf (mkStream rest ((out ++ frame T_COOKIE ck) ++ frame T_MSG2 m2))). cbn [st_in st_out]. by rewrite <-!app_assoc.
Qed.

(** ** Resumption *)

Lemma msg1_sync rng psk s_i s_r i1 r1 m : write_msg1 rng (start_initiator psk s_i) = Some (i1, inr m) →
  read_msg1 m (start_responder psk s_r) = Some (r1, inr tt) →
  in_ss i1 = re_ss r1 ∧ is_Some (in_eph_sk i1) ∧ is_Some (re_peer_eph_pk r1).
Proof.
  unfold write_msg1, read_msg1. intros H1 H2. hinv H1. destruct (in_eph_sk _); [done|]. hinv H1. apply hret_inr in H1 as [-> ->].
  hinv H2. apply hmod_inr in H2 as ->. destruct psk; (split; [reflexivity|]); cbn; eauto.
Qed.

(** Early data: what the client seals is what the server opens. *)
Lemma early_data_ok ed i1 r1 : in_ss i1 = re_ss r1 → is_Some (in_eph_sk i1) → is_Some (re_peer_eph_pk r1) →
  ∃ c, seal_early_data ed i1 = Some (i1, inr c) ∧ open_early_data c r1 = Some (r1, inr ed) ∧ zlen c = zlen ed + 16.
Proof.
  intros Hss [e He] [p Hp]. destruct (early_aead_ok (in_ss i1)) as [k Hk].
  destruct (seal_static_spec k (ss_h (in_ss i1)) ed) as (c & Hc & Hs & Hl). exists c. split; [|split; [|done]].
  - unfold seal_early_data. hgo (eq_refl (hget i1)). rewrite He, Hk. hgo (eq_refl (hopt (Some (aead_new k)) i1)).
    unfold seal_static in Hc. rewrite Hc. done.
  - unfold open_early_data. hgo (eq_refl (hget r1)). rewrite Hp, <-Hss, Hk. hgo (eq_refl (hopt (Some (aead_new k)) r1)).
    unfold hbind, hres, open_static. rewrite <-Hs. unfold aead_new. by rewrite open_seal.
Qed.

(** The bytes of a resumed handshake in each direction. *)
Definition resume_payload (ticket m1 sealed : list Z) : list Z := ticket ++ m1 ++ sealed.
Definition early_flag (early : option (list Z)) : Z := match early with Some _ => 1 | None => 0 end.
Definition resume_c2s (ticket m1 sealed m3 : list Z) : list Z := frame T_MSG1_PSK (resume_payload ticket m1 sealed) ++ frame T_MSG3 m3.
Definition resume_s2c (flag : Z) (m2 push : list Z) : list Z := frame T_MSG2 (flag :: m2) ++ msg_frame push.

Lemma client_resume_ok gc g' gs ai ar psk s_i s_r (H : HonestRun gc gs ai ar (Some psk) s_i s_r) ticket early sealed packet c' tp rest out :
  zlen ticket = TICKET_LEN → zlen sealed ≤ 2 ^ 19 →
  (match early with Some ed => seal_early_data ed (hn_i1 _ _ _ _ _ _ _ H) = Some (hn_i1 _ _ _ _ _ _ _ H, inr sealed) | None => sealed = [] end) →
  (∀ rest out, recv_ticket_push (session_new (hn_k1 H) (hn_k2 H) (hn_id H)) (mkStream (msg_frame packet ++ rest) out) = Some (mkStream rest out, inr (c', tp))) →
  client_connect_resume gc g' s_i (public_of s_i) ai ticket psk early (mkStream (resume_s2c (early_flag early) (hn_m2 H) packet ++ rest) out) =
    Some (mkStream rest (out ++ resume_c2s ticket (hn_m1 H) sealed (hn_m3 H)),
      inr (mkClient c' (public_of s_r) tp true (match early with Some _ => true | None => false end))).
Proof.
  destruct H as [i1 i2 i3 r1 r2 r3 m1 m2 m3 k1 k2 id w1 d1 w2 d2 w3 d3 hp l1 l2 l3]. cbn [hn_k1 hn_k2 hn_id hn_m1 hn_m2 hn_m3 hn_i1].
  intros Ht Hse He Hpush. unfold client_connect_resume, resume_s2c, resume_c2s. cbn [start_initiator] in w1.
  change (zlen ticket = 117) in Ht.
  set (st := mkStream ((frame T_MSG2 (early_flag early :: m2) ++ msg_frame packet) ++ rest) out).
  hgo (hlocal_ok _ _ _ _ st w1).
  assert ((match early with Some ed => '(_, c) ⟵ hlocal (seal_early_data ed) i1; hret c | None => hret [] end) st = Some (st, inr sealed)) as Hs.
  { destruct early as [ed|]; [|by subst]. by hgo (hlocal_ok _ _ _ _ st He). }
  hgo Hs. unfold st. rewrite <-!app_assoc.
  hgo (write_frame_ok T_MSG1_PSK (ticket ++ m1 ++ sealed) (mkStream (frame T_MSG2 (early_flag early :: m2) ++ msg_frame packet ++ rest) out) ltac:(rewrite !zlen_app; small)).
  cbn [st_in st_out]. hgo (read_frame_ok T_MSG2 (early_flag early :: m2) (msg_frame packet ++ rest) (out ++ frame T_MSG1_PSK (ticket ++ m1 ++ sealed)) ltac:(rewrite zlen_cons; small)).
  change (T_MSG2 =? T_PSK_REJECT) with false. change (T_MSG2 =? T_MSG2) with true. cbv iota.
  hgo (hlocal_ok _ _ _ _ (mkStream (msg_frame packet ++ rest) (out ++ frame T_MSG1_PSK (ticket ++ m1 ++ sealed))) d2).
  hgo (hlocal_ok _ _ _ _ (mkStream (msg_frame packet ++ rest) (out ++ frame T_MSG1_PSK (ticket ++ m1 ++ sealed))) w3).
  hgo (write_frame_ok T_MSG3 m3 (mkStream (msg_frame packet ++ rest) (out ++ frame T_MSG1_PSK (ticket ++ m1 ++ sealed))) ltac:(small)).
  cbn [st_in st_out]. hgo (Hpush rest ((out ++ frame T_MSG1_PSK (ticket ++ m1 ++ sealed)) ++ frame T_MSG3 m3)).
  rewrite hp. cbn [default]. rewrite <-!app_assoc. by destruct early.
Qed.

(** The server with a good ticket: it registers the ticket and opens the
    early data; with a ticket the cache has seen it falls back. *)
Lemma resume_open_ok cfg t psk s_r m1 r1 ticket early sealed p cache :
  zlen ticket = TICKET_LEN → zlen m1 = PUBLIC_KEY_LEN →
  ticket_open (now_open t) ticket (sc_tickets cfg) = ok p → tp_psk p = psk →
  read_msg1 m1 (start_responder (Some psk) s_r) = Some (r1, inr tt) →
  (match early with Some ed => open_early_data sealed r1 = Some (r1, inr ed) ∧ sealed ≠ [] | None => sealed = [] end) →
  resume_open cfg t s_r (public_of s_r) (resume_payload ticket m1 sealed) cache =
    let '(cache', fresh) := check_and_insert (now_cache t) (tp_ticket_id p) (tp_expires_at p) cache in
    Some (cache', match fresh with inr _ => inr (r1, early, tp_client_pk_fingerprint p) | inl _ => inl tt end).
Proof.
  intros Ht Hm Ho <- Hr He. unfold resume_open, resume_payload. pose proof (zlen_nonneg sealed).
  rewrite !zlen_app, Ht, Hm. rewrite (proj2 (Z.ltb_ge _ _)) by lia.
  rewrite slice_head by done. rewrite (slice_app3 ticket m1 sealed TICKET_LEN (TICKET_LEN + PUBLIC_KEY_LEN)) by lia.
  assert (slice (ticket ++ m1 ++ sealed) (TICKET_LEN + PUBLIC_KEY_LEN) (TICKET_LEN + (PUBLIC_KEY_LEN + zlen sealed)) = Some sealed) as ->.
  { rewrite app_assoc. apply slice_tail; rewrite ?zlen_app; lia. }
  cbn [mbind option_bind]. rewrite Ho. cbn [mbind option_bind ok].
  destruct (check_and_insert _ _ _ cache) as [cache' [e|[]]]; [done|].
  cbn [start_responder] in Hr. rewrite Hr. cbn [caught mbind option_bind].
  destruct early as [ed|]; [|by subst]. destruct He as [He Hne]. destruct sealed as [|b sealed]; [done|].
  rewrite He. done.
Qed.

Lemma server_resume_ok cfg t gc gs ai rt psk s_i s_r (H : HonestRun gc gs ai (sc_anchor cfg) (Some psk) s_i s_r) early packet s' rest out :
  (∀ st, finish_server cfg t rt (session_new (hn_k2 H) (hn_k1 H) (hn_id H)) (public_of s_i) st =
     Some (mkStream (st_in st) (st_out st ++ msg_frame packet), inr s')) →
  resume_finish cfg t gs rt (hn_r1 _ _ _ _ _ _ _ H) early (sm3 [public_of s_i]) (mkStream (frame T_MSG3 (hn_m3 H) ++ rest) out) =
    Some (mkStream rest (out ++ resume_s2c (early_flag early) (hn_m2 H) packet), inr (mkServer s' (public_of s_i) early true)).
Proof.
  destruct H as [i1 i2 i3 r1 r2 r3 m1 m2 m3 k1 k2 id w1 d1 w2 d2 w3 d3 hp l1 l2 l3]. cbn [hn_k1 hn_k2 hn_id hn_m1 hn_m2 hn_m3 hn_r1].
  intros Hf. unfold resume_finish, resume_s2c.
  hgo (hlocal_ok _ _ _ _ (mkStream (frame T_MSG3 m3 ++ rest) out) w2).
  change (match early with Some _ => 1 | None => 0 end) with (early_flag early).
  hgo (write_frame_ok T_MSG2 (early_flag early :: m2) (mkStream (frame T_MSG3 m3 ++ rest) out) ltac:(rewrite zlen_cons; small)). cbn [st_in st_out].
  hgo (expect_frame_ok T_MSG3 m3 rest (out ++ frame T_MSG2 (early_flag early :: m2)) ltac:(small)).
  hgo (hlocal_ok _ _ _ _ (mkStream rest (out ++ frame T_MSG2 (early_flag early :: m2))) d3).
  rewrite bool_decide_true by done. cbn [negb]. hgo (Hf (mkStream rest (out ++ frame T_MSG2 (early_flag early :: m2)))).
  cbn [st_in st_out]. by rewrite <-!app_assoc.
Qed.

(** A full handshake of two ends that trust each other. *)
Lemma full_run cfg t gc gs rt ai s_i s_r cache :
  anchor_verify ai RResponder (public_of s_r) = inr tt → anchor_verify (sc_anchor cfg) RInitiator (public_of s_i) = inr tt →
  clock_ok cfg t → good_random rt →
  ∃ c2s s2c ticket sc ss,
    (∀ rest out, client_connect_full gc s_i (public_of s_i) ai (mkStream (s2c ++ rest) out) =
       Some (mkStream rest (out ++ c2s), inr (mkClient sc (public_of s_r) (Some (ticket, tk_psk rt)) false false))) ∧
    (∀ rest out, server_accept cfg t gs rt s_r (public_of s_r) cache (mkStream (c2s ++ rest) out) =
       Some (cache, mkStream rest (out ++ s2c), inr (mkServer ss (public_of s_i) None false))) ∧
    matched sc ss ∧
    ∀ now, now ≤ now_ticket t + sc_ticket_ttl_secs cfg → ticket_open now ticket (sc_tickets cfg) =
      ok (mkPayload (tk_psk rt) (tk_id rt) (now_ticket t + sc_ticket_ttl_secs cfg) (sm3 [public_of s_i])).
Proof.
  intros Ha Hb Hc Hr. destruct (honest_run gc gs ai (sc_anchor cfg) None s_i s_r Ha Hb) as [R].
  destruct (finish_server_ok cfg t rt (hn_k1 R) (hn_k2 R) (hn_id R) (public_of s_i) Hc Hr) as (ticket & s' & c' & packet & Ei & Hl & Hf & Hp & Hm).
  set (ck := cookie_issue (now_cookie t) (sc_client_tag cfg) (hn_m1 R) (sc_cookie cfg)).
  pose proof (λ rest out, server_full_ok cfg t gc gs ai rt s_i s_r R packet s' rest out Hc Hf) as Hs.
  destruct (Hs [] []) as [Hck _].
  exists (full_c2s (hn_m1 R) ck (hn_m3 R)), (full_s2c ck (hn_m2 R) packet), ticket, c', s'. split_and!.
  - intros rest out. by apply client_full_ok.
  - intros rest out. unfold server_accept, full_c2s. rewrite <-!app_assoc. rewrite read_frame_ok.
    + cbn [mbind option_bind]. change (T_MSG1 =? T_MSG1) with true. cbv iota. unfold ck. by rewrite (proj2 (Hs rest out)).
    + destruct sizes as (? & ? & ? & ?). rewrite (hn_l1 _ _ _ _ _ _ _ R). unfold MAX_FRAME. lia.
  - done.
  - intros now Hn. destruct Hc as (_ & _ & _ & _ & _ & Hn0 & Ht0 & _).
    destruct (open_issued rt (now_ticket t) (public_of s_i) (sc_ticket_ttl_secs cfg) (sc_tickets cfg) ticket (tk_psk rt) now Hr Hn0 Ht0 Ei) as [_ ->].
    by rewrite (proj2 (Z.ltb_ge _ _)) by lia.
Qed.

(** A resumption with a ticket the cache has not seen. *)
Lemma resume_run cfg t gc g' gs rt ai s_i s_r r0 now0 ttl0 ticket psk early cache :
  anchor_verify ai RResponder (public_of s_r) = inr tt → anchor_verify (sc_anchor cfg) RInitiator (public_of s_i) = inr tt →
  clock_ok cfg t → good_random rt → good_random r0 → 0 ≤ now0 → 0 ≤ ttl0 →
  ticket_issue r0 now0 (public_of s_i) ttl0 (sc_tickets cfg) = Some (ticket, psk) →
  now_open t ≤ now0 + ttl0 → (check_and_insert (now_cache t) (tk_id r0) (now0 + ttl0) cache).2 = inr tt →
  (match early with Some ed => zlen ed ≤ 2 ^ 18 | None => True end) →
  ∃ payload m3 s2c cache' ticket' sc ss,
    (∀ rest out, client_connect_resume gc g' s_i (public_of s_i) ai ticket psk early (mkStream (s2c ++ rest) out) =
       Some (mkStream rest (out ++ frame T_MSG1_PSK payload ++ frame T_MSG3 m3),
         inr (mkClient sc (public_of s_r) (Some (ticket', tk_psk rt)) true (match early with Some _ => true | None => false end)))) ∧
    (∀ rest out, server_accept cfg t gs rt s_r (public_of s_r) cache (mkStream ((frame T_MSG1_PSK payload ++ frame T_MSG3 m3) ++ rest) out) =
       Some (cache', mkStream rest (out ++ s2c), inr (mkServer ss (public_of s_i) early true))) ∧
    matched sc ss ∧
    (∀ t', now_open t' ≤ now0 + ttl0 →
       ∃ cache'' x, resume_open cfg t' s_r (public_of s_r) payload cache' = Some (cache'', x) ∧
         (x = inl tt ↔ now_cache t' < now0 + ttl0)).
Proof.
  intros Ha Hb Hc Hr Hr0 Hn0 Ht0 Ei Hop Hfresh Hed.
  destruct (honest_run gc gs ai (sc_anchor cfg) (Some psk) s_i s_r Ha Hb) as [R].
  destruct (finish_server_ok cfg t rt (hn_k1 R) (hn_k2 R) (hn_id R) (public_of s_i) Hc Hr) as (ticket' & s' & c' & packet & _ & _ & Hf & Hp & Hm).
  destruct (msg1_sync _ _ _ _ _ _ _ (hn_w1 _ _ _ _ _ _ _ R) (hn_d1 _ _ _ _ _ _ _ R)) as (Hss & Hei & Hri).
  assert (zlen ticket = TICKET_LEN) as Hlt.
  { destruct (issue_ok r0 now0 (public_of s_i) ttl0 (sc_tickets cfg) Hr0) as (tk & E & Hl); [|congruence].
    unfold ticket_issue in Ei. by apply bind_Some in Ei as (x & [-> ?]%add_chk_Some & _). }
  assert (∃ sealed, zlen sealed ≤ 2 ^ 19 ∧
    (match early with Some ed => seal_early_data ed (hn_i1 _ _ _ _ _ _ _ R) = Some (hn_i1 _ _ _ _ _ _ _ R, inr sealed) | None => sealed = [] end) ∧
    (match early with Some ed => open_early_data sealed (hn_r1 _ _ _ _ _ _ _ R) = Some (hn_r1 _ _ _ _ _ _ _ R, inr ed) ∧ sealed ≠ [] | None => sealed = [] end)) as (sealed & Hsl & Hs1 & Hs2).
  { destruct early as [ed|]; [|by exists []]. destruct (early_data_ok ed _ _ Hss Hei Hri) as (c & E1 & E2 & Hl). exists c.
    split; [lia|]. split; [done|]. split; [done|]. intros ->. pose proof (zlen_nonneg ed). change (zlen []) with 0 in Hl. lia. }
  assert (∀ now, now ≤ now0 + ttl0 → ticket_open now ticket (sc_tickets cfg) = ok (mkPayload psk (tk_id r0) (now0 + ttl0) (sm3 [public_of s_i]))) as Hopen.
  { intros now Hn. destruct (open_issued r0 now0 (public_of s_i) ttl0 (sc_tickets cfg) ticket psk now Hr0 Hn0 Ht0 Ei) as [_ ->].
    by rewrite (proj2 (Z.ltb_ge _ _)) by lia. }
  pose proof (λ t' Hn c, resume_open_ok cfg t' psk s_r (hn_m1 R) (hn_r1 _ _ _ _ _ _ _ R) ticket early sealed _ c Hlt (hn_l1 _ _ _ _ _ _ _ R) (Hopen (now_open t') Hn) eq_refl (hn_d1 _ _ _ _ _ _ _ R) Hs2) as Hro.
  cbn [tp_ticket_id tp_expires_at tp_client_pk_fingerprint] in Hro.
  pose proof (accepted_recorded _ _ _ _ Hfresh) as Hin.
  destruct (check_and_insert (now_cache t) (tk_id r0) (now0 + ttl0) cache) as [cache' fr] eqn:Eci. cbn [fst snd] in Hfresh, Hin. subst fr.
  exists (resume_payload ticket (hn_m1 R) sealed), (hn_m3 R), (resume_s2c (early_flag early) (hn_m2 R) packet), cache', ticket', c', s'. split_and!.
  - intros rest out. by apply client_resume_ok.
  - intros rest out. unfold server_accept. rewrite <-!app_assoc. rewrite read_frame_ok.
    + cbn [mbind option_bind]. change (T_MSG1_PSK =? T_MSG1) with false. change (T_MSG1_PSK =? T_MSG1_PSK) with true. cbv iota.
      rewrite (Hro t Hop cache), Eci. cbn [mbind option_bind]. by rewrite (server_resume_ok cfg t gc gs ai rt psk s_i s_r R early packet s' rest out Hf).
    + destruct sizes as (? & ? & ? & ?). unfold resume_payload. rewrite !zlen_app, (hn_l1 _ _ _ _ _ _ _ R), Hlt. change TICKET_LEN with 117. unfold MAX_FRAME. lia.
  - done.
  - intros t' Hn1. rewrite (Hro t' Hn1 cache'). unfold check_and_insert.
    destruct (decide (now_cache t' < now0 + ttl0)) as [Hn2|Hn2].
    + rewrite (gc_keeps _ _ _ _ Hin Hn2). by eexists _, _.
    + rewrite (gc_drops _ _ _ _ Hin) by lia. eexists _, _. split; [done|]. split; [done|lia].
Qed.

End api_proofs.

(** A client and a server that trust each other complete the full
    handshake over a byte stream: each side reads exactly the bytes the other
    writes, the cookie challenge passes, they end with matching sessions and
    the other's key, and the client holds a ticket that opens to its secret
    until it expires. *)
Theorem full_handshake_end_to_end `{Primitives} (K : Kem) (A : StaticAuth K)
    `{!KemLaws K, !StaticAuthLaws K A, !KemTotal K A, !KemSmall K A} cfg t gc gs rt ai s_i s_r cache :
  anchor_verify ai RResponder (public_of s_r) = inr tt → anchor_verify (sc_anchor cfg) RInitiator (public_of s_i) = inr tt →
  clock_ok cfg t → good_random rt →
  ∃ c2s s2c ticket sc ss,
    (∀ rest out, client_connect_full gc s_i (public_of s_i) ai (mkStream (s2c ++ rest) out) =
       Some (mkStream rest (out ++ c2s), inr (mkClient sc (public_of s_r) (Some (ticket, tk_psk rt)) false false))) ∧
    (∀ rest out, server_accept cfg t gs rt s_r (public_of s_r) cache (mkStream (c2s ++ rest) out) =
       Some (cache, mkStream rest (out ++ s2c), inr (mkServer ss (public_of s_i) None false))) ∧
    matched sc ss ∧
    ∀ now, now ≤ now_ticket t + sc_ticket_ttl_secs cfg → ticket_open now ticket (sc_tickets cfg) =
      ok (mkPayload (tk_psk rt) (tk_id rt) (now_ticket t + sc_ticket_ttl_secs cfg) (sm3 [public_of s_i])).
Proof. apply full_run. Qed.

#[global] Instance default_hybrid_small `{Primitives} {L1 : Sm2Lib} {L2 : MlKemLib} :
  KemSmall (HybridKem Sm2Kem MlKem768Kem) (HybridAuth Sm2Kem MlKem768Kem Sm2Auth).
Proof. vm_compute. congruence. Qed.

#[global] Instance toy_small : KemSmall toy_hybrid toy_auth.
Proof. unfold toy_auth, toy_hybrid. apply _. Qed.

Definition ex_config : ServerConfig := mkServerConfig (mkCookie [5] 30) (mkIssuer (replicate 16 9)) AllowAllAnchor [127; 0; 0; 1] 3600.
Definition ex_clock : ServerClock := mkClock 1000 1001 1000 1000 1002.
Definition ex_ticket_random (n : Z) : TicketRandom := mkRandom (replicate 32 n) (replicate 16 n) (replicate 12 n).

Lemma ex_clock_ok : clock_ok ex_config ex_clock.
Proof. repeat split; vm_compute; congruence. Qed.

Lemma full_handshake_end_to_end_witness : ∃ c2s s2c ticket sc ss,
  (∀ rest out, @client_connect_full toy_primitives toy_hybrid toy_auth toy_random (toy_key 20 21) (public_of (toy_key 20 21)) AllowAllAnchor (mkStream (s2c ++ rest) out) =
     Some (mkStream rest (out ++ c2s), inr (mkClient sc (public_of (toy_key 30 31)) (Some (ticket, replicate 32 7)) false false))) ∧
  (∀ rest out, @server_accept toy_primitives toy_hybrid toy_auth ex_config ex_clock toy_random (ex_ticket_random 7) (toy_key 30 31) (public_of (toy_key 30 31)) tcache_new (mkStream (c2s ++ rest) out) =
     Some (tcache_new, mkStream rest (out ++ s2c), inr (mkServer ss (public_of (toy_key 20 21)) None false))) ∧
  matched sc ss ∧
  ∀ now, now ≤ 4602 → @ticket_open toy_primitives now ticket (mkIssuer (replicate 16 9)) = ok (mkPayload (replicate 32 7) (replicate 16 7) 4602 (@sm3 toy_primitives [public_of (toy_key 20 21)])).
Proof.
  apply (@full_handshake_end_to_end toy_primitives toy_hybrid toy_auth _ _ _ _ ex_config ex_clock toy_random toy_random (ex_ticket_random 7) AllowAllAnchor (toy_key 20 21) (toy_key 30 31) tcache_new).
  - reflexivity.
  - reflexivity.
  - exact ex_clock_ok.
  - repeat split.
Defined.

(** A ticket from an earlier handshake resumes: with a fresh cache entry
    both sides complete at once with matching sessions, the early data
    arrives unchanged, and the client learns that it was accepted; the same
    first message sent again while the ticket opens is refused exactly as long
    as the ticket cache's clock is before the ticket's expiry time. *)
Theorem resumption_end_to_end `{Primitives} (K : Kem) (A : StaticAuth K)
    `{!KemLaws K, !StaticAuthLaws K A, !KemTotal K A, !KemSmall K A} cfg t gc g' gs rt ai s_i s_r r0 now0 ttl0 ticket psk early cache :
  anchor_verify ai RResponder (public_of s_r) = inr tt → anchor_verify (sc_anchor cfg) RInitiator (public_of s_i) = inr tt →
  clock_ok cfg t → good_random rt → good_random r0 → 0 ≤ now0 → 0 ≤ ttl0 →
  ticket_issue r0 now0 (public_of s_i) ttl0 (sc_tickets cfg) = Some (ticket, psk) →
  now_open t ≤ now0 + ttl0 → (check_and_insert (now_cache t) (tk_id r0) (now0 + ttl0) cache).2 = inr tt →
  (match early with Some ed => zlen ed ≤ 2 ^ 18 | None => True end) →
  ∃ payload m3 s2c cache' ticket' sc ss,
    (∀ rest out, client_connect_resume gc g' s_i (public_of s_i) ai ticket psk early (mkStream (s2c ++ rest) out) =
       Some (mkStream rest (out ++ frame T_MSG1_PSK payload ++ frame T_MSG3 m3),
         inr (mkClient sc (public_of s_r) (Some (ticket', tk_psk rt)) true (match early with Some _ => true | None => false end)))) ∧
    (∀ rest out, server_accept cfg t gs rt s_r (public_of s_r) cache (mkStream ((frame T_MSG1_PSK payload ++ frame T_MSG3 m3) ++ rest) out) =
       Some (cache', mkStream rest (out ++ s2c), inr (mkServer ss (public_of s_i) early true))) ∧
    matched sc ss ∧
    (∀ t', now_open t' ≤ now0 + ttl0 →
       ∃ cache'' x, resume_open cfg t' s_r (public_of s_r) payload cache' = Some (cache'', x) ∧
         (x = inl tt ↔ now_cache t' < now0 + ttl0)).
Proof. apply resume_run. Qed.

Lemma resumption_end_to_end_witness :
  ∃ ticket psk, @ticket_issue toy_primitives (ex_ticket_random 8) 900 (public_of (toy_key 20 21)) 200 (mkIssuer (replicate 16 9)) = Some (ticket, psk) ∧
  ∃ payload m3 s2c cache' ticket' sc ss,
  (∀ rest out, @client_connect_resume toy_primitives toy_hybrid toy_auth toy_random toy_random (toy_key 20 21) (public_of (toy_key 20 21)) AllowAllAnchor ticket psk (Some [1; 2; 3]) (mkStream (s2c ++ rest) out) =
     Some (mkStream rest (out ++ frame T_MSG1_PSK payload ++ frame T_MSG3 m3), inr (mkClient sc (public_of (toy_key 30 31)) (Some (ticket', replicate 32 7)) true true))) ∧
  (∀ rest out, @server_accept toy_primitives toy_hybrid toy_auth ex_config ex_clock toy_random (ex_ticket_random 7) (toy_key 30 31) (public_of (toy_key 30 31)) tcache_new
      (mkStream ((frame T_MSG1_PSK payload ++ frame T_MSG3 m3) ++ rest) out) =
     Some (cache', mkStream rest (out ++ s2c), inr (mkServer ss (public_of (toy_key 20 21)) (Some [1; 2; 3]) true))).
Proof.
  destruct (@issue_ok toy_primitives (ex_ticket_random 8) 900 (public_of (toy_key 20 21)) 200 (mkIssuer (replicate 16 9))) as (ticket & E & _); [repeat split|unfold u64_max; lia|].
  exists ticket, (tk_psk (ex_ticket_random 8)). split; [exact E|].
  destruct (@resumption_end_to_end toy_primitives toy_hybrid toy_auth _ _ _ _ ex_config ex_clock toy_random toy_random toy_random (ex_ticket_random 7) AllowAllAnchor (toy_key 20 21) (toy_key 30 31)
    (ex_ticket_random 8) 900 200 ticket (tk_psk (ex_ticket_random 8)) (Some [1; 2; 3]) tcache_new) as (payload & m3 & s2c & cache' & ticket' & sc & ss & H1 & H2 & _).
  - reflexivity.
  - reflexivity.
  - exact ex_clock_ok.
  - repeat split.
  - repeat split.
  - lia.
  - lia.
  - exact E.
  - cbn. lia.
  - vm_compute. reflexivity.
  - vm_compute. congruence.
  - exists payload, m3, s2c, cache', ticket', sc, ss. split; [exact H1|exact H2].
Defined.

(** ** Any client *)

Section any_client.
Context {PR : Primitives} {K : Kem} {A : StaticAuth K} `{!KemLaws K, !StaticAuthLaws K A}.

Abbreviation safe := (safe_at (λ _, True)).

Lemma safe_read_exact n (s : Stream) : safe (read_exact n) s.
Proof. unfold safe_at, read_exact. destruct (_ <? n); by eexists _, _. Qed.

Lemma safe_read_frame s : safe read_frame s.
Proof.
  unfold read_frame. destruct (Z.ltb_spec (zlen (st_in s)) 5) as [Hl|Hl].
  - unfold safe_at, hbind. assert (read_exact 5 s = Some (s, inl GmIo)) as ->; [|eauto].
    unfold read_exact. by rewrite (proj2 (Z.ltb_lt _ _)) by lia.
  - set (hdr := take (Z.to_nat 5) (st_in s)). set (s1 := mkStream (drop (Z.to_nat 5) (st_in s)) (st_out s)).
    assert (read_exact 5 s = Some (s1, inr hdr)) as E.
    { unfold read_exact. by rewrite (proj2 (Z.ltb_ge _ _)) by lia. }
    assert (zlen hdr = 5) as Hh by (unfold hdr, zlen in *; rewrite length_take; lia).
    unfold safe_at. rewrite (hbind_step _ _ _ _ _ E). apply safe_opt; [apply vget_lt_is_Some; lia|]. intros ty _.
    apply safe_opt; [rewrite slice_ok by lia; by eexists|]. intros l _. destruct (_ <? _); [by apply safe_err|].
    apply safe_bind; [apply safe_read_exact|]. intros. by apply safe_ret.
Qed.

Lemma safe_expect_frame ty s : safe (expect_frame ty) s.
Proof. unfold expect_frame. apply safe_bind; [apply safe_read_frame|]. intros s' [got p] _. destruct (negb _); by eexists _, _. Qed.

Lemma safe_write_frame ty p s : safe (write_frame ty p) s.
Proof. by eexists _, _. Qed.

Lemma cookie_verify_total now t e k c : now + 5 ≤ u64_max → is_Some (cookie_verify now t e k c).
Proof.
  intros Hn. unfold cookie_verify. destruct (Z.eqb_spec (zlen k) COOKIE_LEN) as [Hl|]; cbn [negb]; [|by eexists]. unfold COOKIE_LEN in Hl.
  rewrite !slice_ok by lia. cbn [mbind option_bind]. rewrite add_chk_ok by done. cbn [mbind option_bind]. destruct (_ || _); [by eexists|].
  destruct (negb _); by eexists.
Qed.

Lemma resp_total c r : is_Some (resp_call c r).
Proof. destruct (resp_call_safe c r) as [r' ->]. by eexists. Qed.

Lemma fmap_fst_some {S X} (x : option (S * X)) : is_Some (fst <$> x) → is_Some x.
Proof. intros [? ?]. by destruct x. Qed.

Lemma read3_result m anchor r r' s pk : read_msg3_with_auth m anchor r = Some (r', inr (s, pk)) →
  (∃ k1 k2 id, s = session_new k1 k2 id) ∧ anchor_verify anchor RInitiator pk = inr tt.
Proof.
  unfold read_msg3_with_auth. intros H. apply hbind_inr in H as (r1 & [[s1 plain] h] & E & H). destruct (negb _); [done|].
  hinv H. apply hret_inr in H as [-> [= -> ->]]. split; [|done].
  unfold read_msg3_inner in E. destruct (_ <? _); [done|]. hinv E. apply hret_inr in E as [-> [= -> _ _]]. eauto.
Qed.

(** What a run of the server guarantees of its result. *)
Definition guarded {X} (Q : X → Prop) (m : hs Stream X) (s : Stream) : Prop :=
  ∃ s' x, m s = Some (s', x) ∧ match x with inl _ => True | inr v => Q v end.

Lemma guarded_bind {X Y} (P : X → Prop) (Q : Y → Prop) m (k : X → hs Stream Y) s :
  guarded P m s → (∀ s' x, P x → guarded Q (k x) s') → guarded Q (hbind m k) s.
Proof. intros (s' & [e|x] & E & Hx) Hk; unfold guarded, hbind; rewrite E; [eauto|by apply Hk]. Qed.

Lemma guarded_safe {X} (m : hs Stream X) s : safe m s → guarded (λ _, True) m s.
Proof. intros (s' & x & E & _). exists s', x. split; [done|]. by destruct x. Qed.

Lemma guarded_local {T X} (m : hs T X) t (s : Stream) : is_Some (m t) → guarded (λ p, m t = Some (p.1, inr p.2)) (hlocal m t) s.
Proof. intros [[t' [e|x]] E]; unfold guarded, hlocal; rewrite E; by eexists _, _. Qed.

Lemma guarded_ret {X} (Q : X → Prop) x s : Q x → guarded Q (hret x) s.
Proof. intros. by eexists _, _. Qed.
Lemma guarded_err {X} (Q : X → Prop) e s : guarded Q (herr e) s.
Proof. by eexists _, _. Qed.

Lemma guarded_finish cfg t rt k1 k2 id pk s : now_ticket t + sc_ticket_ttl_secs cfg ≤ u64_max → 
  guarded (λ _, True) (finish_server cfg t rt (session_new k1 k2 id) pk) s.
Proof.
  intros Hn. unfold finish_server, ticket_issue. rewrite add_chk_ok by done. cbn [mbind option_bind].
  destruct (sm4_encrypt_gcm _ _ _ _) as [ct tag]. by eexists _, _.
Qed.

(** The server's last step, with the key its anchor accepted. *)
Definition trusted (cfg : ServerConfig) (o : ServerOutcome) : Prop := anchor_verify (sc_anchor cfg) RInitiator (so_peer_static o) = inr tt.

Lemma guarded_finish_read m cfg r s :
  guarded (λ p, (∃ k1 k2 id, p.2.1 = session_new k1 k2 id) ∧ anchor_verify (sc_anchor cfg) RInitiator p.2.2 = inr tt)
    (hlocal (read_msg3_with_auth m (sc_anchor cfg)) r) s.
Proof.
  destruct (guarded_local (read_msg3_with_auth m (sc_anchor cfg)) r s) as (s' & x & E & Hx).
  { apply fmap_fst_some, (resp_total (CRead3Auth m (sc_anchor cfg)) r). }
  exists s', x. split; [done|]. destruct x as [|[r' [ses pk]]]; [done|]. by eapply read3_result.
Qed.

Lemma guarded_roundtrip cfg t e_pk s : now_verify t + 5 ≤ u64_max → guarded (λ _, True) (cookie_roundtrip cfg t e_pk) s.
Proof.
  intros Hn. apply guarded_safe. unfold cookie_roundtrip. apply safe_bind; [apply safe_expect_frame|]. intros s' retry _.
  destruct (Z.ltb_spec (zlen retry) COOKIE_LEN) as [|Hl]; [by apply safe_err|]. unfold COOKIE_LEN in *.
  apply safe_opt; [rewrite slice_ok by lia; by eexists|]. intros c _. apply safe_opt; [rewrite slice_ok by lia; by eexists|]. intros e _.
  destruct (negb _); [by apply safe_err|]. apply safe_res; [done|by apply cookie_verify_total|]. intros y. by apply safe_ret.
Qed.

Lemma guarded_full cfg t g rt sk pk e_pk s : now_ticket t + sc_ticket_ttl_secs cfg ≤ u64_max →
  guarded (λ o, trusted cfg o ∧ so_resumed o = false) (full_handshake cfg t g rt sk pk e_pk) s.
Proof.
  intros Hn. unfold full_handshake.
  eapply guarded_bind; [apply guarded_local, fmap_fst_some, (resp_total (CRead1 e_pk))|]. intros s1 [r1 []] _.
  eapply guarded_bind; [apply guarded_local, fmap_fst_some, (resp_total (CMsg2 (hr_e_r g) (hr_ee g)))|]. intros s2 [r2 m2] _.
  eapply guarded_bind; [apply guarded_safe, safe_write_frame|]. intros s3 _ _.
  eapply guarded_bind; [apply guarded_safe, safe_expect_frame|]. intros s4 m3 _.
  eapply guarded_bind; [apply guarded_finish_read|]. intros s5 [r3 [ses cpk]] [(k1 & k2 & id & Hs) Ha]. cbn [fst snd] in *. subst ses.
  eapply guarded_bind; [by apply guarded_finish|]. intros s6 ses _. by apply guarded_ret.
Qed.

Lemma guarded_cookie_full cfg t g rt sk pk e_pk s : now_verify t + 5 ≤ u64_max → now_ticket t + sc_ticket_ttl_secs cfg ≤ u64_max →
  guarded (λ o, trusted cfg o ∧ so_resumed o = false) (cookie_then_full cfg t g rt sk pk e_pk) s.
Proof.
  intros Hv Hn. unfold cookie_then_full. eapply guarded_bind; [apply guarded_safe, safe_write_frame|]. intros s1 _ _.
  eapply guarded_bind; [by apply guarded_roundtrip|]. intros s2 e _. by apply guarded_full.
Qed.

Lemma guarded_resume cfg t g rt r ed fp s : now_ticket t + sc_ticket_ttl_secs cfg ≤ u64_max →
  guarded (λ o, trusted cfg o ∧ sm3 [so_peer_static o] = fp) (resume_finish cfg t g rt r ed fp) s.
Proof.
  intros Hn. unfold resume_finish.
  eapply guarded_bind; [apply guarded_local, fmap_fst_some, (resp_total (CMsg2 (hr_e_r g) (hr_ee g)))|]. intros s2 [r2 m2] _.
  eapply guarded_bind; [apply guarded_safe, safe_write_frame|]. intros s3 _ _.
  eapply guarded_bind; [apply guarded_safe, safe_expect_frame|]. intros s4 m3 _.
  eapply guarded_bind; [apply guarded_finish_read|]. intros s5 [r3 [ses cpk]] [(k1 & k2 & id & Hs) Ha]. cbn [fst snd] in *. subst ses.
  case_bool_decide as Hf; cbn [negb]; [|apply guarded_err].
  eapply guarded_bind; [by apply guarded_finish|]. intros s6 ses _. by apply guarded_ret.
Qed.

(** The ticket a connection presents: its first frame asks for a resumption,
    is long enough, and carries a ticket that opens. *)
Definition presented (cfg : ServerConfig) (t : ServerClock) (s : Stream) : option TicketPayload :=
  match read_frame s with
  | Some (_, inr (ty, payload)) =>
      if (ty =? T_MSG1_PSK) && negb (zlen payload <? TICKET_LEN + PUBLIC_KEY_LEN) then
        ticket ← slice payload 0 TICKET_LEN;
        match ticket_open (now_open t) ticket (sc_tickets cfg) with Some (inr p) => Some p | _ => None end
      else None
  | _ => None
  end.

(** What a connection leaves in the ticket cache. *)
Definition cache_after (t : ServerClock) (o : option TicketPayload) (cache : TicketCache) : TicketCache :=
  match o with
  | Some p => (check_and_insert (now_cache t) (tp_ticket_id p) (tp_expires_at p) cache).1
  | None => cache
  end.

(** A resumption is only attempted with a ticket that opens and that the
    cache has not seen, and every ticket that opens is put into the cache. *)
Lemma resume_open_total cfg t sk pk payload cache s s1 : read_frame s = Some (s1, inr (T_MSG1_PSK, payload)) →
  ∃ x, resume_open cfg t sk pk payload cache = Some (cache_after t (presented cfg t s) cache, x) ∧
  match x with
  | inl _ => True
  | inr (_, _, fp) => ∃ p, presented cfg t s = Some p ∧ tp_client_pk_fingerprint p = fp ∧
      (check_and_insert (now_cache t) (tp_ticket_id p) (tp_expires_at p) cache).2 = inr tt
  end.
Proof.
  intros Hrd. unfold presented. rewrite Hrd. change (T_MSG1_PSK =? T_MSG1_PSK) with true. cbn [andb].
  unfold resume_open. destruct (@kem_len_nonneg K _). destruct (Z.ltb_spec (zlen payload) (TICKET_LEN + PUBLIC_KEY_LEN)) as [|Hl]; cbn [negb]; [by eexists|].
  change TICKET_LEN with 117 in *. rewrite !slice_ok by lia. cbn [mbind option_bind].
  match goal with |- context [ticket_open _ ?tk _] => destruct (ticket_open_total (now_open t) tk (sc_tickets cfg)) as (x & Ho & _) end.
  rewrite Ho. cbn [mbind option_bind]. destruct x as [|p]; [by eexists|]. cbn [cache_after].
  destruct (check_and_insert _ _ _ cache) as [cache' [|[]]] eqn:Eci; cbn [fst]; [by eexists|].
  match goal with |- context [caught (read_msg1 ?m ?r)] => destruct (fmap_fst_some _ (resp_total (CRead1 m) r)) as [[r1 [e|[]]] ->] end; cbn [caught mbind option_bind]; [by eexists|].
  match goal with |- context [match ?e with [] => _ | _ => _ end] => destruct e as [|b l] end.
  - eexists. split; [done|]. cbn. exists p. split; [done|]. split; [done|]. by rewrite Eci.
  - destruct (fmap_fst_some _ (resp_total (COpenEarly (b :: l)) r1)) as [[r2 [e|ed]] ->]; cbn [caught mbind option_bind]; [by eexists|].
    eexists. split; [done|]. cbn. exists p. split; [done|]. split; [done|]. by rewrite Eci.
Qed.

(** What a session is given for. *)
Definition accept_ok (cfg : ServerConfig) (t : ServerClock) (s : Stream) (cache : TicketCache) (r : GmError + ServerOutcome) : Prop :=
  match r with
  | inl _ => True
  | inr o => anchor_verify (sc_anchor cfg) RInitiator (so_peer_static o) = inr tt ∧
      (so_resumed o = true → ∃ p, presented cfg t s = Some p ∧
         tp_client_pk_fingerprint p = sm3 [so_peer_static o] ∧
         (check_and_insert (now_cache t) (tp_ticket_id p) (tp_expires_at p) cache).2 = inr tt)
  end.

(** The server on any bytes. *)
Lemma server_accept_any cfg t g rt sk pk cache s :
  now_verify t + 5 ≤ u64_max → now_ticket t + sc_ticket_ttl_secs cfg ≤ u64_max →
  ∃ s' r, server_accept cfg t g rt sk pk cache s = Some (cache_after t (presented cfg t s) cache, s', r) ∧
    accept_ok cfg t s cache r.
Proof.
  intros Hv Hn. unfold server_accept. destruct (safe_read_frame s) as (s1 & x & Hrd & _). rewrite Hrd. cbn [mbind option_bind].
  destruct x as [e|[ty payload]]; [unfold presented; rewrite Hrd; by eexists _, _|].
  destruct (Z.eqb_spec ty T_MSG1) as [->|Hty].
  { assert (presented cfg t s = None) as -> by (unfold presented; by rewrite Hrd).
    destruct (guarded_cookie_full cfg t g rt sk pk payload s1 Hv Hn) as (s2 & r & -> & Hr). cbn [mbind option_bind].
    eexists _, _. split; [done|]. destruct r as [|o]; [done|]. destruct Hr as [Ht Hf]. split; [done|]. by rewrite Hf. }
  destruct (Z.eqb_spec ty T_MSG1_PSK) as [->|Hty2].
  2:{ assert (presented cfg t s = None) as ->; [|by eexists _, _]. unfold presented. rewrite Hrd. by rewrite (proj2 (Z.eqb_neq _ _) Hty2). }
  destruct (resume_open_total cfg t sk pk payload cache s s1 Hrd) as (x & -> & Hx). cbn [mbind option_bind]. destruct x as [u|[[r0 ed] fp]].
  - assert (guarded (λ o, trusted cfg o ∧ so_resumed o = false)
      (_ ⟵ write_frame T_PSK_REJECT []; e_pk ⟵ expect_frame T_MSG1; cookie_then_full cfg t g rt sk pk e_pk) s1) as (s2 & r & -> & Hr).
    { eapply guarded_bind; [apply guarded_safe, safe_write_frame|]. intros s2 _ _.
      eapply guarded_bind; [apply guarded_safe, safe_expect_frame|]. intros s3 e _. by apply guarded_cookie_full. }
    cbn [mbind option_bind]. eexists _, _. split; [done|]. destruct r as [|o]; [done|]. destruct Hr as [Ht Hf]. split; [done|]. by rewrite Hf.
  - destruct (guarded_resume cfg t g rt r0 ed fp s1 Hn) as (s2 & r & -> & Hr). cbn [mbind option_bind].
    eexists _, _. split; [done|]. destruct r as [|o]; [done|]. destruct Hr as [Ht Hf]. split; [done|]. intros _. by rewrite Hf.
Qed.

(** *** Connections in sequence *)

(** A connection: the server's clock and randomness, and the client's bytes. *)
Record Conn := mkConn {
  cn_clock : ServerClock;
  cn_random : HsRandom;
  cn_ticket_random : TicketRandom;
  cn_stream : Stream
}.

(** The server accepts connections one after the other, with one cache. *)
Fixpoint serve (cfg : ServerConfig) (sk : SecretKey) (pk : list Z) (l : list Conn) (cache : TicketCache)
    : option (TicketCache * list (GmError + ServerOutcome)) :=
  match l with
  | [] => Some (cache, [])
  | c :: l' =>
      '(cache, _, r) ← server_accept cfg (cn_clock c) (cn_random c) (cn_ticket_random c) sk pk cache (cn_stream c);
      '(cache, rs) ← serve cfg sk pk l' cache;
      Some (cache, r :: rs)
  end.

Definition conn_ok (cfg : ServerConfig) (c : Conn) : Prop :=
  now_verify (cn_clock c) + 5 ≤ u64_max ∧ now_ticket (cn_clock c) + sc_ticket_ttl_secs cfg ≤ u64_max.

(** A ticket in the cache stays there until the clock reaches its expiry. *)
Lemma cache_after_keeps t o id exp cache :
  tc_seen cache !! id = Some exp → now_cache t < exp → tc_seen (cache_after t o cache) !! id = Some exp.
Proof.
  intros Hc Hn. destruct o as [p|]; [|done]. cbn [cache_after]. unfold check_and_insert.
  pose proof (gc_keeps (now_cache t) id exp cache Hc Hn) as Hg.
  destruct (tc_seen (gc (now_cache t) cache) !! tp_ticket_id p) eqn:E; cbn [fst tc_seen]; [done|].
  rewrite lookup_insert_ne; [done|congruence].
Qed.

(** ... and while it is there it resumes nothing. *)
Lemma serve_spent cfg sk pk l : ∀ cache cache' rs id exp,
  Forall (conn_ok cfg) l → serve cfg sk pk l cache = Some (cache', rs) → tc_seen cache !! id = Some exp →
  ∀ j c o p, l !! j = Some c → rs !! j = Some (inr o) → so_resumed o = true →
    presented cfg (cn_clock c) (cn_stream c) = Some p → tp_ticket_id p = id →
    ∃ k ck, (k ≤ j)%nat ∧ l !! k = Some ck ∧ exp ≤ now_cache (cn_clock ck).
Proof.
  induction l as [|c0 l IH]; intros cache cache' rs id exp Hok E Hin j c o p Hj Ho Hres Hp Hid; [done|]. cbn [serve] in E.
  inversion Hok as [|? ? [Hv Hn] Hok']; subst.
  destruct (decide (exp ≤ now_cache (cn_clock c0))) as [Hx|Hx]; [exists 0%nat, c0; split; [lia|done]|].
  destruct (server_accept_any cfg (cn_clock c0) (cn_random c0) (cn_ticket_random c0) sk pk cache (cn_stream c0) Hv Hn) as (s1 & r & Ea & Hacc).
  rewrite Ea in E. cbn [mbind option_bind] in E. apply bind_Some in E as ([c2 rs'] & E & [= <- <-]).
  destruct j as [|j]; cbn in Hj, Ho; simplify_eq.
  - assert (now_cache (cn_clock c) < exp) as Hlt by lia. destruct Hacc as [_ Hacc]. destruct (Hacc Hres) as (p' & Hp' & _ & Hfresh). exfalso. rewrite Hp in Hp'. injection Hp' as <-.
    unfold check_and_insert in Hfresh. rewrite (gc_keeps (now_cache (cn_clock c)) _ exp cache Hin Hlt) in Hfresh. done.
  - destruct (IH _ _ _ (tp_ticket_id p) exp Hok' E (cache_after_keeps _ _ _ exp _ Hin (proj1 (Z.nle_gt _ _) Hx)) j c o p Hj Ho Hres Hp eq_refl) as (k & ck & Hk & Hl & Hle).
    exists (S k), ck. split; [lia|done].
Qed.

(** What a sequence of connections guarantees. *)
Definition serve_ok (cfg : ServerConfig) (l : list Conn) (rs : list (GmError + ServerOutcome)) : Prop :=
  ∀ i c o, l !! i = Some c → rs !! i = Some (inr o) →
    anchor_verify (sc_anchor cfg) RInitiator (so_peer_static o) = inr tt ∧
    (so_resumed o = true → ∃ p, presented cfg (cn_clock c) (cn_stream c) = Some p ∧
       tp_client_pk_fingerprint p = sm3 [so_peer_static o] ∧
       ∀ j c' o' p', (i < j)%nat → l !! j = Some c' → rs !! j = Some (inr o') → so_resumed o' = true →
         presented cfg (cn_clock c') (cn_stream c') = Some p' → tp_ticket_id p' = tp_ticket_id p →
         ∃ k ck, (i < k ≤ j)%nat ∧ l !! k = Some ck ∧ tp_expires_at p ≤ now_cache (cn_clock ck)).

Lemma serve_total cfg sk pk l : ∀ cache, Forall (conn_ok cfg) l →
  ∃ cache' rs, serve cfg sk pk l cache = Some (cache', rs) ∧ length rs = length l ∧ serve_ok cfg l rs.
Proof.
  induction l as [|c0 l IH]; intros cache Hok; cbn [serve]; [by eexists _, []|].
  inversion Hok as [|? ? [Hv Hn] Hok']; subst.
  destruct (server_accept_any cfg (cn_clock c0) (cn_random c0) (cn_ticket_random c0) sk pk cache (cn_stream c0) Hv Hn) as (s1 & r & -> & Hacc).
  cbn [mbind option_bind]. set (c1 := cache_after _ _ _). destruct (IH c1 Hok') as (c2 & rs & E & Hl & Hs).
  rewrite E. cbn [mbind option_bind]. exists c2, (r :: rs). split; [done|]. split; [cbn; lia|].
  intros [|i] c o Hc Ho; cbn in Hc, Ho; simplify_eq.
  - destruct Hacc as [Ha Hr]. split; [done|]. intros Hres. destruct (Hr Hres) as (p & Hp & Hf & Hfresh).
    exists p. split; [done|]. split; [done|]. intros [|j] c' o' p' Hj Hc' Ho' Hres' Hp' Hid; [lia|]. cbn in Hc', Ho'.
    assert (Hin : tc_seen c1 !! tp_ticket_id p = Some (tp_expires_at p)).
    { unfold c1. rewrite Hp. by apply accepted_recorded. }
    destruct (serve_spent cfg sk pk l c1 c2 rs _ _ Hok' E Hin j c' o' p' Hc' Ho' Hres' Hp' Hid) as (k & ck & Hk & Hlk & Hle).
    exists (S k), ck. split; [lia|done].
  - destruct (Hs i c o Hc Ho) as [Ha Hr]. split; [done|]. intros Hres. destruct (Hr Hres) as (p & Hp & Hf & Hsp).
    exists p. split; [done|]. split; [done|]. intros [|j] c' o' p' Hj Hc' Ho' Hres' Hp' Hid; [lia|]. cbn in Hc', Ho'.
    destruct (Hsp j c' o' p' ltac:(lia) Hc' Ho' Hres' Hp' Hid) as (k & ck & Hk & Hlk & Hle). exists (S k), ck. split; [lia|done].
Qed.

End any_client.

(** [C16] Whatever bytes the clients of a sequence of connections send, the
    server answers every connection, with a session or an error, and never
    panics.  A session is only given to a client whose key the trust anchor
    accepts; a resumed one only for a ticket that opens and that was issued to
    that key; and a ticket that has resumed a session resumes another one only
    after a connection at which the clock of the ticket cache has reached the
    ticket's expiry time (at that very second the ticket still opens: see
    [ticket_replayed_at_expiry]). *)
Theorem server_accept_safe `{Primitives} (K : Kem) (A : StaticAuth K) `{!KemLaws K, !StaticAuthLaws K A} cfg sk pk l cache :
  Forall (conn_ok cfg) l →
  ∃ cache' rs, serve cfg sk pk l cache = Some (cache', rs) ∧ length rs = length l ∧
  ∀ i c o, l !! i = Some c → rs !! i = Some (inr o) →
    anchor_verify (sc_anchor cfg) RInitiator (so_peer_static o) = inr tt ∧
    (so_resumed o = true → ∃ p, presented cfg (cn_clock c) (cn_stream c) = Some p ∧
       tp_client_pk_fingerprint p = sm3 [so_peer_static o] ∧
       ∀ j c' o' p', (i < j)%nat → l !! j = Some c' → rs !! j = Some (inr o') → so_resumed o' = true →
         presented cfg (cn_clock c') (cn_stream c') = Some p' → tp_ticket_id p' = tp_ticket_id p →
         ∃ k ck, (i < k ≤ j)%nat ∧ l !! k = Some ck ∧ tp_expires_at p ≤ now_cache (cn_clock ck)).
Proof. apply serve_total. Qed.

(** A client resumes with its ticket; the same bytes come again on a second
    connection. *)
Lemma server_accept_safe_witness : ∃ bytes cache' o r p,
  let conn := mkConn ex_clock toy_random (ex_ticket_random 7) (mkStream bytes []) in
  @serve toy_primitives toy_hybrid toy_auth ex_config (toy_key 30 31) (public_of (toy_key 30 31)) [conn; conn] tcache_new = Some (cache', [inr o; r]) ∧
  so_resumed o = true ∧ so_peer_static o = public_of (toy_key 20 21) ∧
  @presented toy_primitives toy_hybrid ex_config ex_clock (mkStream bytes []) = Some p ∧
  tp_client_pk_fingerprint p = @sm3 toy_primitives [public_of (toy_key 20 21)] ∧
  ∀ o', r = inr o' → so_resumed o' = true → tp_expires_at p ≤ 1000.
Proof.
  destruct (@issue_ok toy_primitives (ex_ticket_random 8) 900 (public_of (toy_key 20 21)) 200 (mkIssuer (replicate 16 9))) as (ticket & E & _); [repeat split|unfold u64_max; lia|].
  destruct (@resume_run toy_primitives toy_hybrid toy_auth _ _ _ _ ex_config ex_clock toy_random toy_random toy_random (ex_ticket_random 7) AllowAllAnchor (toy_key 20 21) (toy_key 30 31)
    (ex_ticket_random 8) 900 200 ticket (tk_psk (ex_ticket_random 8)) (Some [1; 2; 3]) tcache_new) as (payload & m3 & s2c & cache1 & ticket' & sc & ss & _ & H2 & _).
  - reflexivity.
  - reflexivity.
  - exact ex_clock_ok.
  - repeat split.
  - repeat split.
  - lia.
  - lia.
  - exact E.
  - cbn. lia.
  - vm_compute. reflexivity.
  - vm_compute. congruence.
  - specialize (H2 [] []). rewrite app_nil_r in H2. set (bytes := frame T_MSG1_PSK payload ++ frame T_MSG3 m3) in *. clearbody bytes.
    set (conn := mkConn ex_clock toy_random (ex_ticket_random 7) (mkStream bytes [])).
    destruct (@server_accept_safe toy_primitives toy_hybrid toy_auth _ _ ex_config (toy_key 30 31) (public_of (toy_key 30 31)) [conn; conn] tcache_new) as (cache' & rs & Es & Hl & Hsafe).
    { repeat constructor; vm_compute; congruence. }
    pose proof Es as Es0. cbn [serve] in Es0. cbn [conn cn_clock cn_random cn_ticket_random cn_stream] in Es0. rewrite H2 in Es0. cbn [mbind option_bind] in Es0.
    apply bind_Some in Es0 as ([c3 rs'] & Es1 & Eq). assert (∃ r, rs = [inr (mkServer ss (public_of (toy_key 20 21)) (Some [1; 2; 3]) true); r]) as (r & ->).
    { injection Eq as _ <-. destruct rs' as [|r [|]]; try discriminate Hl. by exists r. }
    destruct (Hsafe 0%nat conn (mkServer ss (public_of (toy_key 20 21)) (Some [1; 2; 3]) true) eq_refl eq_refl) as [_ Hp].
    destruct (Hp eq_refl) as (p & Hpr & Hf & Hagain).
    exists bytes, cache', (mkServer ss (public_of (toy_key 20 21)) (Some [1; 2; 3]) true), r, p. cbv zeta.
    split; [exact Es|]. split; [reflexivity|]. split; [reflexivity|]. split; [exact Hpr|]. split; [exact Hf|].
    intros o' -> Hres. destruct (Hagain 1%nat conn o' p ltac:(lia) eq_refl eq_refl Hres Hpr eq_refl) as ([|[|k]] & ck & Hk & Hck & Hle); [lia| |lia].
    injection Hck as <-. exact Hle.
Defined.
