(* ===== verification/MoqGmPq.v ===== *)
(** * Media relay: the GM-PQ session layer

    Models [crates/moq-live/src/gmpq.rs]: the bridge between a QUIC stream and
    the blocking code of [GmApi], that is the shared buffers, the two shuttle
    tasks, the worker's message loop and the handles of the application; and
    the two handshake workers with the shared ticket cache and the client's
    ticket.  The tasks and the worker are steps that interleave at will.

    A worker inside [recv_msg] takes the bytes of a whole message at once: no
    other step reads the inbound buffer, so when it takes them within the call
    cannot be seen.  Writing to the bridge never blocks or fails.  The clock,
    the randomness and the time a handshake takes are arguments or left out. *)

From S2P Require Import Prelude Bytes GmCrypto GmSession GmCookie GmPsk GmTrust GmKem GmHandshake GmApi.

(** ["moq-live-resume"] *)
Definition EARLY_DATA_PROBE : list Z := [109; 111; 113; 45; 108; 105; 118; 101; 45; 114; 101; 115; 117; 109; 101].

(** ** The bridge *)

Record BridgeShared := mkBridge {
  br_inbound : list Z;
  br_outbox : list (list Z);
  br_wire : list Z;
  br_closed : bool
}.

Definition make_bridge : BridgeShared := mkBridge [] [] [] false.

Definition shared_push_inbound (bytes : list Z) (b : BridgeShared) : BridgeShared :=
  mkBridge (br_inbound b ++ bytes) (br_outbox b) (br_wire b) (br_closed b).
Definition shared_push_wire (bytes : list Z) (b : BridgeShared) : BridgeShared :=
  mkBridge (br_inbound b) (br_outbox b) (br_wire b ++ bytes) (br_closed b).
Definition shared_close (b : BridgeShared) : BridgeShared :=
  mkBridge (br_inbound b) (br_outbox b) (br_wire b) true.

Inductive BridgeError := SessionClosed.

Definition shared_push_outbox (msg : list Z) (b : BridgeShared) : BridgeError + BridgeShared :=
  if br_closed b then inl SessionClosed
  else inr (mkBridge (br_inbound b) (br_outbox b ++ [msg]) (br_wire b) (br_closed b)).

(** [BlockingEnd::read] into a buffer of [n] bytes: bytes, the end, or a wait. *)
Inductive ReadResult := ReadBytes (bytes : list Z) (b : BridgeShared) | ReadEof | ReadWaits.

Definition end_read (n : Z) (b : BridgeShared) : ReadResult :=
  match br_inbound b with
  | [] => if br_closed b then ReadEof else ReadWaits
  | l => let k := Z.to_nat (Z.min n (zlen l)) in
         ReadBytes (take k l) (mkBridge (drop k l) (br_outbox b) (br_wire b) (br_closed b))
  end.

(** [BlockingEnd::write] *)
Definition end_write (bytes : list Z) (b : BridgeShared) : BridgeShared * Z := (shared_push_wire bytes b, zlen bytes).

(** ** One end of a session *)

(** Where the worker stands in [message_loop]. *)
Inductive WorkerPc := WOutbox | WWait | WRecv | WGone.

Record Side := mkSide {
  sd_bridge : BridgeShared;
  sd_pc : WorkerPc;
  sd_session : Session;
  sd_inbox : list (list Z);
  sd_receiver : bool;
  sd_in_done : bool;
  sd_out_done : bool
}.

Definition side_new (s : Session) : Side := mkSide make_bridge WOutbox s [] true false false.

Definition with_bridge (b : BridgeShared) (x : Side) : Side :=
  mkSide b (sd_pc x) (sd_session x) (sd_inbox x) (sd_receiver x) (sd_in_done x) (sd_out_done x).
Definition at_worker (pc : WorkerPc) (x : Side) : Side :=
  mkSide (sd_bridge x) pc (sd_session x) (sd_inbox x) (sd_receiver x) (sd_in_done x) (sd_out_done x).
Definition with_sess (s : Session) (x : Side) : Side :=
  mkSide (sd_bridge x) (sd_pc x) s (sd_inbox x) (sd_receiver x) (sd_in_done x) (sd_out_done x).
Definition close_and_leave (x : Side) : Side := at_worker WGone (with_bridge (shared_close (sd_bridge x)) x).

Section side.
Context {PR : Primitives}.

(** [recv_msg] on the bytes that have arrived. *)
Definition recv_now (x : Side) : option (list Z * (GmError + Session * list Z)) :=
  '(s, r) ← recv_msg (sd_session x) (mkStream (br_inbound (sd_bridge x)) []);
  Some (st_in s, r).

(** A step of the worker; one that has to wait leaves the state, [None] is a
    panic. *)
Definition worker_step (x : Side) : option Side :=
  let b := sd_bridge x in
  match sd_pc x with
  | WOutbox =>
      match br_outbox b with
      | plaintext :: rest =>
          let b := mkBridge (br_inbound b) rest (br_wire b) (br_closed b) in
          '(s, r) ← send_msg plaintext (sd_session x) (mkStream [] (br_wire b));
          match r with
          | inr session => Some (with_sess session (with_bridge (mkBridge (br_inbound b) rest (st_out s) (br_closed b)) x))
          | inl _ => Some (close_and_leave (with_bridge b x))
          end
      | [] => Some (at_worker WWait x)
      end
  | WWait =>
      match br_inbound b, br_outbox b with
      | [], [] => if br_closed b then Some (at_worker WGone x) else Some x
      | _, out =>
          if br_closed b then Some (at_worker WGone x)
          else match out with
               | _ :: _ => Some (at_worker WOutbox x)
               | [] => Some (at_worker WRecv x)
               end
      end
  | WRecv =>
      '(rest, r) ← recv_now x;
      match r with
      | inr (session, plaintext) =>
          let x := with_sess session (with_bridge (mkBridge rest (br_outbox b) (br_wire b) (br_closed b)) x) in
          if sd_receiver x
          then Some (mkSide (sd_bridge x) WOutbox (sd_session x) (sd_inbox x ++ [plaintext]) true (sd_in_done x) (sd_out_done x))
          else Some (close_and_leave x)
      | inl GmIo => if br_closed b then Some (close_and_leave x) else Some x
      | inl _ => Some (close_and_leave x)
      end
  | WGone => Some x
  end.

(** The inbound task: the next chunk, or the end of the stream. *)
Definition inbound_step (chunk : option (list Z)) (x : Side) : Side :=
  if sd_in_done x then x else
  match chunk with
  | Some bytes => with_bridge (shared_push_inbound bytes (sd_bridge x)) x
  | None => mkSide (shared_close (sd_bridge x)) (sd_pc x) (sd_session x) (sd_inbox x) (sd_receiver x) true (sd_out_done x)
  end.

Definition out_finish (x : Side) : Side :=
  mkSide (shared_close (sd_bridge x)) (sd_pc x) (sd_session x) (sd_inbox x) (sd_receiver x) (sd_in_done x) true.

(** The outbound task: what it writes to the stream; a write that fails may
    have written the first bytes. *)
Definition outbound_step (fails : option nat) (x : Side) : Side * list Z :=
  if sd_out_done x then (x, []) else
  let b := sd_bridge x in
  match br_wire b with
  | [] => if br_closed b then (out_finish x, []) else (x, [])
  | bytes =>
      let x := with_bridge (mkBridge (br_inbound b) (br_outbox b) [] (br_closed b)) x in
      match fails with
      | Some k => (out_finish x, take k bytes)
      | None => (x, bytes)
      end
  end.

(** [GmPqSender::send] *)
Definition app_send (msg : list Z) (x : Side) : BridgeError + Side :=
  match shared_push_outbox msg (sd_bridge x) with
  | inl e => inl e
  | inr b => inr (with_bridge b x)
  end.

(** The application drops the receiving half. *)
Definition drop_receiver (x : Side) : Side :=
  mkSide (sd_bridge x) (sd_pc x) (sd_session x) (sd_inbox x) false (sd_in_done x) (sd_out_done x).

End side.

(** ** Two ends over a QUIC stream *)

(** What can happen at an end: the application sends or drops its receiver,
    the worker runs, [n] bytes of the stream arrive, the stream ends (also
    when the connection breaks), the outbound task runs. *)
Inductive SideEv :=
  | EvSend (msg : list Z)
  | EvDrop
  | EvWorker
  | EvChunk (n : nat)
  | EvEnd
  | EvOut (fails : option nat).

(** An end with the bytes on their way to it and the messages its application
    could hand over. *)
Record Half := mkHalf {
  hf_side : Side;
  hf_stream : list Z;
  hf_sent : list (list Z)
}.

Section pair.
Context {PR : Primitives}.

Definition half_new (s : Session) : Half := mkHalf (side_new s) [] [].

(** An event at [x]; the bytes it writes are on their way to [y]. *)
Definition half_step (ev : SideEv) (x y : Half) : option (Half * Half) :=
  let s := hf_side x in
  match ev with
  | EvSend msg =>
      Some (match app_send msg s with
            | inl _ => x
            | inr s => mkHalf s (hf_stream x) (hf_sent x ++ [msg])
            end, y)
  | EvDrop => Some (mkHalf (drop_receiver s) (hf_stream x) (hf_sent x), y)
  | EvWorker => s ← worker_step s; Some (mkHalf s (hf_stream x) (hf_sent x), y)
  | EvChunk n =>
      Some (if sd_in_done s then x
            else mkHalf (inbound_step (Some (take n (hf_stream x))) s) (drop n (hf_stream x)) (hf_sent x), y)
  | EvEnd => Some (mkHalf (inbound_step None s) (hf_stream x) (hf_sent x), y)
  | EvOut fails =>
      let '(s, bytes) := outbound_step fails s in
      Some (mkHalf s (hf_stream x) (hf_sent x), mkHalf (hf_side y) (hf_stream y ++ bytes) (hf_sent y))
  end.

Definition pair_step (e : bool * SideEv) (xy : Half * Half) : option (Half * Half) :=
  if e.1 then half_step e.2 xy.1 xy.2
  else '(y, x) ← half_step e.2 xy.2 xy.1; Some (x, y).

Fixpoint pair_run (evs : list (bool * SideEv)) (xy : Half * Half) : option (Half * Half) :=
  match evs with
  | [] => Some xy
  | e :: evs' => xy ← pair_step e xy; pair_run evs' xy
  end.

End pair.

(** ** The bytes of a session *)

Section link.
Context {PR : Primitives}.
Variables (k sid : list Z).

(** The messages [ms] on the wire, numbered from [n]. *)
Fixpoint frames (n : Z) (ms : list (list Z)) : list Z :=
  match ms with
  | [] => []
  | m :: ms' => msg_frame (seal_with_seq (aead_new k) n sid m) ++ frames (n + 1) ms'
  end.

Definition fits (m : list Z) : Prop := zlen m ≤ MAX_FRAME - 24.

Fixpoint seen_upto (n : nat) : list Z :=
  match n with O => [] | S n' => Z.of_nat n' :: seen_upto n' end.

Lemma frames_app n l l' : frames n (l ++ l') = frames n l ++ frames (n + zlen l) l'.
Proof.
  revert n. induction l as [|m l IH]; intros n; cbn [frames app]; [by rewrite Z.add_0_r|].
  rewrite IH, zlen_cons, <-app_assoc. do 3 f_equal. lia.
Qed.

Lemma frames_nil n l : frames n l = [] → l = [].
Proof. destruct l; [done|]. cbn [frames]. unfold msg_frame. intros H%(f_equal length). rewrite !length_app, length_to_be in H. cbn in H. lia. Qed.

Lemma accepts_next n : WindowSpec.accepts (seen_upto n) (Z.of_nat n) = true.
Proof.
  assert (∀ x, x ∈ seen_upto n → x < Z.of_nat n) as H.
  { induction n as [|n IH]; cbn; intros x; [by rewrite elem_of_nil|]. intros [->|?%IH]%elem_of_cons; lia. }
  unfold WindowSpec.accepts. rewrite bool_decide_true by (intros ?%H; lia).
  apply forallb_forall. intros x Hx%list_elem_of_In%H. apply Z.ltb_lt. lia.
Qed.

(** The next message, whole. *)
Lemma session_recv_next n m s : ae_key (se_rx s) = k → se_id s = sid → tracks (seen_upto n) (se_window s) → Z.of_nat n ≤ u64_max →
  ∃ w, session_recv (seal_with_seq (aead_new k) (Z.of_nat n) sid m) s = ok (mkSess (se_tx s) (se_rx s) w (se_id s), m) ∧
    tracks (seen_upto (S n)) w.
Proof.
  intros Hk Hid Ht Hn. destruct s as [tx [k' q] w sid']. cbn in *. subst. unfold session_recv. cbn [se_rx se_id se_window se_tx].
  unfold aead_new. try_with (open_seal k q 0 (Z.of_nat n) sid m ltac:(unfold is_u64; lia)).
  pose proof (check_and_mark_tracks _ _ (Z.of_nat n) Ht) as Hc. rewrite accepts_next in Hc.
  destruct (check_and_mark (Z.of_nat n) w) as [e|w']; destruct Hc as [H1 H2]; [done|]. by exists w'.
Qed.

(** A part of a message makes the reader wait. *)
Lemma recv_short packet s a z : zlen packet ≤ MAX_FRAME → msg_frame packet = a ++ z → z ≠ [] →
  ∃ st, recv_msg s (mkStream a []) = Some (st, inl GmIo).
Proof.
  intros Hl E Hz. unfold recv_msg, msg_frame in *. pose proof (zlen_nonneg packet).
  assert (length (to_be 4 (zlen packet)) = 4%nat) as H4 by apply length_to_be.
  destruct (decide (length a < 4)%nat) as [Hs|Hs].
  - unfold hbind at 1, read_exact at 1. cbn [st_in]. rewrite (proj2 (Z.ltb_lt _ _)) by (unfold zlen; lia). by eexists.
  - assert (a = to_be 4 (zlen packet) ++ drop 4 a) as Ea.
    { rewrite <-(take_drop 4 a) at 1. f_equal. apply (f_equal (take 4)) in E.
      rewrite take_app_length' in E by lia. by rewrite take_app_le in E by lia. }
    rewrite Ea in E. rewrite <-app_assoc in E. apply app_inv_head in E. rewrite Ea.
    rewrite (hbind_step _ _ _ _ _ (read_exact_app (to_be 4 (zlen packet)) (drop 4 a) [] 4 eq_refl)).
    rewrite from_to_be4 by lia. rewrite (proj2 (Z.ltb_ge _ _)) by lia.
    unfold hbind, read_exact. cbn [st_in]. rewrite (proj2 (Z.ltb_lt _ _)); [by eexists|].
    rewrite E, zlen_app. destruct z; [done|]. rewrite zlen_cons. pose proof (zlen_nonneg z0). lia.
Qed.

(** What the worker gets from the bytes that have arrived: the next message
    or nothing yet. *)
Lemma recv_next n rest s inbound more : frames (Z.of_nat n) rest = inbound ++ more → Forall fits rest →
  ae_key (se_rx s) = k → se_id s = sid → tracks (seen_upto n) (se_window s) → Z.of_nat n + zlen rest ≤ u64_max →
  (∃ st, recv_msg s (mkStream inbound []) = Some (st, inl GmIo) ∧ (more = [] → inbound = [])) ∨
  (∃ m rest' w left, rest = m :: rest' ∧ tracks (seen_upto (S n)) w ∧ frames (Z.of_nat (S n)) rest' = left ++ more ∧
    recv_msg s (mkStream inbound []) = Some (mkStream left [], inr (mkSess (se_tx s) (se_rx s) w (se_id s), m))).
Proof.
  intros E Hf Hk Hid Ht Hn. destruct rest as [|m rest]; cbn [frames] in E.
  { symmetry in E. apply app_nil in E as [-> ->]. left. by eexists. }
  apply Forall_cons in Hf as [Hm Hf]. rewrite zlen_cons in Hn. pose proof (zlen_nonneg rest).
  set (packet := seal_with_seq (aead_new k) (Z.of_nat n) sid m) in *.
  assert (zlen packet ≤ MAX_FRAME) as Hl by (unfold packet, fits in *; rewrite zlen_seal; lia).
  assert (frames (Z.of_nat n + 1) rest = frames (Z.of_nat (S n)) rest) as Hfr by (f_equal; lia).
  apply app_eq_inv in E as [(l & E1 & E2)|(l & E1 & E2)].
  - destruct l as [|c l].
    + rewrite app_nil_r in E1. destruct (session_recv_next n m s) as (w & Er & Hw); [done..|lia|].
      right. exists m, rest, w, []. split_and!; [done..|by rewrite <-Hfr, E2|].
      rewrite <-E1. fold packet in Er. rewrite <-(app_nil_r (msg_frame packet)). by apply recv_msg_ok.
    + left. destruct (recv_short packet s inbound (c :: l)) as [st Est]; [done..|]. exists st. split; [done|].
      intros ->. cbn in E2. done.
  - destruct (session_recv_next n m s) as (w & Er & Hw); [done..|lia|].
    right. exists m, rest, w, l. split_and!; [done..|by rewrite <-Hfr|]. rewrite E1. by apply recv_msg_ok.
Qed.

(** The bytes of one direction, from [x] to [y], after [base] messages that
    have been read. *)
Record carries (base : nat) (x y : Half) (sealed : list (list Z)) (tail : list Z) : Prop := {
  ca_sent : sealed ++ br_outbox (sd_bridge (hf_side x)) = hf_sent x;
  ca_fits : Forall fits (hf_sent x);
  ca_tx : se_tx (sd_session (hf_side x)) = mkAead k (Z.of_nat base + zlen sealed);
  ca_rx : ae_key (se_rx (sd_session (hf_side y))) = k;
  ca_ids : se_id (sd_session (hf_side x)) = sid ∧ se_id (sd_session (hf_side y)) = sid;
  ca_prefix : sd_inbox (hf_side y) `prefix_of` sealed;
  ca_bytes : sd_pc (hf_side y) ≠ WGone →
    tracks (seen_upto (base + length (sd_inbox (hf_side y)))) (se_window (sd_session (hf_side y))) ∧
    frames (Z.of_nat base) (sd_inbox (hf_side y)) ++ br_inbound (sd_bridge (hf_side y)) ++ hf_stream y ++ tail = frames (Z.of_nat base) sealed;
  ca_tail : sd_out_done (hf_side x) = false → tail = br_wire (sd_bridge (hf_side x))
}.

Definition link (base : nat) (x y : Half) : Prop := ∃ sealed tail, carries base x y sealed tail.

End link.

(** An end by itself: what has stopped has closed the bridge, and a worker in
    [recv_msg] has found bytes. *)
Definition end_ok (x : Half) : Prop :=
  (br_closed (sd_bridge (hf_side x)) = false →
    sd_pc (hf_side x) ≠ WGone ∧ sd_in_done (hf_side x) = false ∧ sd_out_done (hf_side x) = false) ∧
  (sd_pc (hf_side x) = WRecv → br_inbound (sd_bridge (hf_side x)) ≠ []).

Section steps.
Context {PR : Primitives}.
Variables (k1 k2 sid : list Z) (n1 n2 : nat).

(** The state of a link between [x] and [y], both directions. *)
Definition linked (x y : Half) : Prop := link k1 sid n1 x y ∧ link k2 sid n2 y x ∧ end_ok x ∧ end_ok y.

Lemma linked_send m x y : linked x y → fits m →
  ∃ x', half_step (EvSend m) x y = Some (x', y) ∧ linked x' y ∧ zlen (hf_sent x') ≤ zlen (hf_sent x) + 1.
Proof.
  intros H; pose proof H as ((sealed & tail & H1) & (sealed' & tail' & H2) & E1 & E2). intros Hm. unfold half_step, app_send, shared_push_outbox.
  destruct (br_closed _) eqn:Ec; (eexists; split; [done|]).
  - split; [exact H|cbn; lia].
  - split; [|cbn; rewrite zlen_app; change (zlen [m]) with 1; lia]. split_and!; [..|done].
    + exists sealed, tail. destruct H1. constructor; cbn; try done.
      * rewrite app_assoc. by f_equal.
      * apply Forall_app. split; [done|]. by constructor.
    + exists sealed', tail'. by destruct H2.
    + destruct E1 as [Ea Eb]. split; cbn; [|done]. intros _. by apply Ea.
Qed.

Lemma linked_drop x y : linked x y → ∃ x', half_step EvDrop x y = Some (x', y) ∧ linked x' y ∧ hf_sent x' = hf_sent x.
Proof.
  intros H; pose proof H as ((sealed & tail & H1) & (sealed' & tail' & H2) & E1 & E2). eexists. split; [done|]. split; [|done]. split_and!; [..|done].
  - exists sealed, tail. by destruct H1.
  - exists sealed', tail'. by destruct H2.
  - by destruct E1.
Qed.

Lemma linked_chunk n x y : linked x y → ∃ x', half_step (EvChunk n) x y = Some (x', y) ∧ linked x' y ∧ hf_sent x' = hf_sent x.
Proof.
  intros H; pose proof H as ((sealed & tail & H1) & (sealed' & tail' & H2) & E1 & E2). eexists. split; [done|].
  unfold inbound_step. destruct (sd_in_done (hf_side x)) eqn:Ed.
  { split; [exact H|done]. }
  split; [|done]. split_and!; [..|done].
  - exists sealed, tail. by destruct H1.
  - exists sealed', tail'. destruct H2. constructor; cbn; try done. intros Hp. destruct (ca_bytes0 Hp) as [Ht <-].
    split; [done|]. rewrite <-!app_assoc, (app_assoc (take n _)), take_drop. done.
  - destruct E1 as [Ea Eb]. split; cbn; [done|]. intros Hp [He _]%app_nil. by apply (Eb Hp).
Qed.

Lemma linked_end x y : linked x y → ∃ x', half_step EvEnd x y = Some (x', y) ∧ linked x' y ∧ hf_sent x' = hf_sent x.
Proof.
  intros H; pose proof H as ((sealed & tail & H1) & (sealed' & tail' & H2) & E1 & E2). eexists. split; [done|]. split; [|done].
  unfold inbound_step. destruct (sd_in_done (hf_side x)) eqn:Ed; (split_and!; [..|done]).
  - exists sealed, tail. by destruct H1.
  - exists sealed', tail'. by destruct H2.
  - by destruct E1.
  - exists sealed, tail. by destruct H1.
  - exists sealed', tail'. by destruct H2.
  - by destruct E1.
Qed.

Lemma linked_out fails x y : linked x y →
  ∃ x' y', half_step (EvOut fails) x y = Some (x', y') ∧ linked x' y' ∧ hf_sent x' = hf_sent x ∧ hf_sent y' = hf_sent y.
Proof.
  intros H; pose proof H as ((sealed & tail & H1) & (sealed' & tail' & H2) & E1 & E2). unfold half_step, outbound_step.
  destruct (sd_out_done (hf_side x)) eqn:Ed; [|destruct (br_wire (sd_bridge (hf_side x))) as [|b0 l] eqn:Ew; [destruct (br_closed _) eqn:Ec|destruct fails as [n|]]].
  all: eexists _, _; split; [done|]; (split; [|done]); rewrite ?app_nil_r; split_and!.
  all: try (by exists sealed', tail'; destruct H2; constructor).
  all: try (by destruct E1; split).
  all: try exact E2.
  all: try (by exists sealed, tail; destruct H1; constructor).
  - exists sealed, (drop n (b0 :: l)). destruct H1. constructor; cbn -[take drop]; try done. intros Hp.
    destruct (ca_bytes0 Hp) as [Ht <-]. split; [done|]. rewrite (ca_tail0 Ed), Ew.
    by rewrite <-app_assoc, take_drop.
  - exists sealed, []. destruct H1. constructor; cbn; try done. intros Hp.
    destruct (ca_bytes0 Hp) as [Ht <-]. split; [done|]. rewrite (ca_tail0 Ed), Ew. by rewrite app_nil_r.
Qed.

(** Steps of the worker that only move it. *)
Lemma linked_moves pc x y : linked x y → pc ≠ WGone ∨ br_closed (sd_bridge (hf_side x)) = true →
  (pc = WRecv → br_inbound (sd_bridge (hf_side x)) ≠ []) → sd_pc (hf_side x) ≠ WGone →
  linked (mkHalf (at_worker pc (hf_side x)) (hf_stream x) (hf_sent x)) y.
Proof.
  intros H; pose proof H as ((sealed & tail & H1) & (sealed' & tail' & H2) & E1 & E2). intros Hpc Hr Hg. split_and!; [..|done].
  - exists sealed, tail. by destruct H1.
  - exists sealed', tail'. destruct H2. constructor; cbn; try done. intros _. by apply ca_bytes0.
  - destruct E1 as [Ea _]. split; cbn; [|done]. intros Hc. destruct (Ea Hc) as (_ & ? & ?). split_and!; try done.
    destruct Hpc as [|Hpc]; [done|]. by rewrite Hc in Hpc.
Qed.

(** Leaving with the bridge closed, whatever was read. *)
Lemma linked_leaves b s x y : linked x y → se_tx s = se_tx (sd_session (hf_side x)) → se_id s = se_id (sd_session (hf_side x)) →
  se_rx s = se_rx (sd_session (hf_side x)) →
  br_outbox b = br_outbox (sd_bridge (hf_side x)) → br_wire b = br_wire (sd_bridge (hf_side x)) →
  linked (mkHalf (close_and_leave (with_sess s (with_bridge b (hf_side x)))) (hf_stream x) (hf_sent x)) y.
Proof.
  intros H; pose proof H as ((sealed & tail & H1) & (sealed' & tail' & H2) & E1 & E2). intros Ht Hid Hrx Ho Hw. split_and!; [..|done].
  - exists sealed, tail. destruct H1. constructor; cbn; try done; [by rewrite Ho|congruence|by rewrite Hid|by rewrite Hw].
  - exists sealed', tail'. destruct H2. constructor; cbn; try done; [by rewrite Hrx|by rewrite Hid].
  - split; [done|]. done.
Qed.

Lemma worker_seals m rest x y : linked x y → sd_pc (hf_side x) = WOutbox → br_outbox (sd_bridge (hf_side x)) = m :: rest →
  Z.of_nat n1 + zlen (hf_sent x) ≤ u64_max →
  ∃ s, worker_step (hf_side x) = Some s ∧ linked (mkHalf s (hf_stream x) (hf_sent x)) y.
Proof.
  intros H; pose proof H as ((sealed & tail & H1) & (sealed' & tail' & H2) & E1 & E2). intros Hpc Ho Hn.
  pose proof (ca_sent _ _ _ _ _ _ _ H1) as Es. rewrite Ho in Es. pose proof (zlen_nonneg sealed). pose proof (zlen_nonneg rest).
  assert (Z.of_nat n1 + zlen sealed + 1 ≤ u64_max) as Hb by (rewrite <-Es, zlen_app, zlen_cons in Hn; lia).
  assert (fits m) as Hm by (pose proof (ca_fits _ _ _ _ _ _ _ H1) as Hf; rewrite <-Es in Hf; apply Forall_app in Hf as [_ Hf]; by apply Forall_cons in Hf as [? _]).
  set (packet := seal_with_seq (aead_new k1) (Z.of_nat n1 + zlen sealed) sid m).
  assert (session_send m (sd_session (hf_side x)) =
    Some (mkSess (mkAead k1 (Z.of_nat n1 + zlen sealed + 1)) (se_rx (sd_session (hf_side x))) (se_window (sd_session (hf_side x))) sid, packet)) as Esend.
  { unfold session_send, aead_seal. rewrite (ca_tx _ _ _ _ _ _ _ H1), (proj1 (ca_ids _ _ _ _ _ _ _ H1)). cbn [ae_tx_seq ae_key].
    by rewrite add_chk_ok by lia. }
  assert (zlen packet ≤ MAX_FRAME) as Hl by (unfold packet, fits in *; rewrite zlen_seal; lia).
  unfold worker_step. rewrite Hpc, Ho. rewrite (send_msg_ok _ _ _ _ _ Esend Hl). cbn [mbind option_bind]. eexists. split; [done|].
  split_and!; [..|done].
  - exists (sealed ++ [m]), (tail ++ msg_frame packet). destruct H1. constructor; cbn; try done.
    + by rewrite <-app_assoc.
    + f_equal. rewrite zlen_app. change (zlen [m]) with 1. lia.
    + split; [done|]. by destruct ca_ids0.
    + by apply prefix_app_r.
    + intros Hp. destruct (ca_bytes0 Hp) as [Ht Eb]. split; [done|]. rewrite frames_app, <-Eb. cbn [frames].
      by rewrite <-!app_assoc, app_nil_r.
    + intros Hd. by rewrite (ca_tail0 Hd).
  - exists sealed', tail'. destruct H2. constructor; cbn; try done. by destruct ca_ids0.
  - destruct E1 as [Ea Eb]. split; cbn; [done|]. by rewrite Hpc.
Qed.

(** What a worker that reads finds, from the bytes of the other direction. *)
Lemma worker_finds x y : linked x y → sd_pc (hf_side x) ≠ WGone → Z.of_nat n2 + zlen (hf_sent y) ≤ u64_max →
  (∃ st, recv_msg (sd_session (hf_side x)) (mkStream (br_inbound (sd_bridge (hf_side x))) []) = Some (st, inl GmIo) ∧
    (hf_stream x = [] → sd_out_done (hf_side y) = false → br_wire (sd_bridge (hf_side y)) = [] →
      br_inbound (sd_bridge (hf_side x)) = [])) ∨
  (∃ m w left, recv_msg (sd_session (hf_side x)) (mkStream (br_inbound (sd_bridge (hf_side x))) []) =
      Some (mkStream left [], inr (mkSess (se_tx (sd_session (hf_side x))) (se_rx (sd_session (hf_side x))) w (se_id (sd_session (hf_side x))), m)) ∧
    ∀ b, b = mkBridge left (br_outbox (sd_bridge (hf_side x))) (br_wire (sd_bridge (hf_side x))) (br_closed (sd_bridge (hf_side x))) →
      link k2 sid n2 y (mkHalf (mkSide b WOutbox (mkSess (se_tx (sd_session (hf_side x))) (se_rx (sd_session (hf_side x))) w (se_id (sd_session (hf_side x))))
        (sd_inbox (hf_side x) ++ [m]) true (sd_in_done (hf_side x)) (sd_out_done (hf_side x))) (hf_stream x) (hf_sent x))).
Proof.
  intros (_ & (sealed & tail & H) & _) Hpc Hn. destruct (ca_bytes _ _ _ _ _ _ _ H Hpc) as [Ht Eb].
  destruct (ca_prefix _ _ _ _ _ _ _ H) as [rest Er]. rewrite Er, frames_app in Eb. apply app_inv_head in Eb.
  assert (Forall fits rest) as Hf.
  { pose proof (ca_fits _ _ _ _ _ _ _ H) as Hf. rewrite <-(ca_sent _ _ _ _ _ _ _ H), Er in Hf. rewrite !Forall_app in Hf. tauto. }
  assert (Z.of_nat (n2 + length (sd_inbox (hf_side x))) + zlen rest ≤ u64_max) as Hb.
  { rewrite <-(ca_sent _ _ _ _ _ _ _ H), Er, !zlen_app in Hn. pose proof (zlen_nonneg (br_outbox (sd_bridge (hf_side y)))). unfold zlen at 1 in Hn. lia. }
  unfold zlen at 1 in Eb. rewrite <-Nat2Z.inj_add in Eb. symmetry in Eb.
  destruct (recv_next k2 sid _ _ (sd_session (hf_side x)) _ _ Eb Hf) as [(st & E & Hm)|(m & rest' & w & left & -> & Hw & E2 & E)];
    [by apply H|by apply H|done|done| |].
  - left. exists st. split; [done|]. intros Hs Hd Hwi. apply Hm. by rewrite Hs, (ca_tail _ _ _ _ _ _ _ H Hd), Hwi.
  - right. exists m, w, left. split; [done|]. intros b ->. exists sealed, tail. destruct H. constructor; cbn; try done.
    + rewrite Er. exists rest'. by rewrite <-app_assoc.
    + intros _. rewrite length_app. cbn [length]. rewrite Nat.add_1_r, Nat.add_succ_r. split; [done|]. rewrite Er, !frames_app. cbn [frames].
      rewrite app_nil_r, <-!app_assoc. do 2 f_equal. rewrite <-E2. f_equal. unfold zlen. lia.
Qed.

Lemma linked_worker x y : linked x y → Z.of_nat n1 + zlen (hf_sent x) ≤ u64_max → Z.of_nat n2 + zlen (hf_sent y) ≤ u64_max →
  ∃ x', half_step EvWorker x y = Some (x', y) ∧ linked x' y ∧ hf_sent x' = hf_sent x.
Proof.
  intros H Hx Hy. assert (∃ s, worker_step (hf_side x) = Some s ∧ linked (mkHalf s (hf_stream x) (hf_sent x)) y) as (s & Es & Hs);
    [|unfold half_step; rewrite Es; cbn [mbind option_bind]; eexists; done].
  assert (∀ b s, b = sd_bridge (hf_side x) → s = sd_session (hf_side x) →
    linked (mkHalf (close_and_leave (with_sess s (with_bridge b (hf_side x)))) (hf_stream x) (hf_sent x)) y) as Hleave
    by (intros b s -> ->; by apply linked_leaves).
  assert (linked (mkHalf (hf_side x) (hf_stream x) (hf_sent x)) y) as Hsame by by destruct x.
  destruct (sd_pc (hf_side x)) eqn:Hpc.
  - destruct (br_outbox (sd_bridge (hf_side x))) as [|m rest] eqn:Ho; [|by apply (worker_seals m rest)].
    unfold worker_step. rewrite Hpc, Ho. eexists. split; [done|]. apply linked_moves; try done; [by left|by rewrite Hpc].
  - assert (∀ pc, pc ≠ WGone ∨ br_closed (sd_bridge (hf_side x)) = true → (pc = WRecv → br_inbound (sd_bridge (hf_side x)) ≠ []) →
      linked (mkHalf (at_worker pc (hf_side x)) (hf_stream x) (hf_sent x)) y) as Hmv
      by (intros; apply linked_moves; try done; by rewrite Hpc).
    unfold worker_step. rewrite Hpc. destruct (br_inbound _) eqn:Ei, (br_outbox _) eqn:Eo, (br_closed _) eqn:Ec.
    all: eexists; split; [done|]; first [exact Hsame|apply Hmv; [by auto|done]].
  - unfold worker_step, recv_now. rewrite Hpc. destruct (worker_finds x y H) as [(st & E & _)|(m & w & left & E & Hl)]; [by rewrite Hpc|done| |]; rewrite E; cbn [mbind option_bind].
    + destruct (br_closed _) eqn:Ec; eexists; (split; [done|]); [by apply (Hleave _ _ eq_refl eq_refl)|exact Hsame].
    + cbn [sd_receiver with_sess with_bridge]. destruct (sd_receiver _); eexists; (split; [done|]).
      * specialize (Hl _ eq_refl). destruct H as ((sealed & tail & H1) & _ & E1 & E2). split_and!; [|exact Hl| |done].
        -- exists sealed, tail. by destruct H1.
        -- destruct E1 as [Ea _]. split; cbn; [|done]. intros Hc. by destruct (Ea Hc) as (_ & ? & ?).
      * by apply linked_leaves.
  - unfold worker_step. rewrite Hpc. eexists. split; [done|]. exact Hsame.
Qed.

Definition ev_fits (ev : SideEv) : Prop := match ev with EvSend m => fits m | _ => True end.

Lemma linked_half ev x y : linked x y → ev_fits ev → Z.of_nat n1 + zlen (hf_sent x) ≤ u64_max → Z.of_nat n2 + zlen (hf_sent y) ≤ u64_max →
  ∃ x' y', half_step ev x y = Some (x', y') ∧ linked x' y' ∧ zlen (hf_sent x') ≤ zlen (hf_sent x) + 1 ∧ hf_sent y' = hf_sent y.
Proof.
  intros H Hf Hx Hy. destruct ev as [m| | |n| |fails].
  - destruct (linked_send m x y H Hf) as (x' & ? & ? & ?). by exists x', y.
  - destruct (linked_drop x y H) as (x' & ? & ? & Hs). exists x', y. rewrite Hs. split_and!; try done. lia.
  - destruct (linked_worker x y H) as (x' & ? & ? & Hs); [done..|]. exists x', y. rewrite Hs. split_and!; try done. lia.
  - destruct (linked_chunk n x y H) as (x' & ? & ? & Hs). exists x', y. rewrite Hs. split_and!; try done. lia.
  - destruct (linked_end x y H) as (x' & ? & ? & Hs). exists x', y. rewrite Hs. split_and!; try done. lia.
  - destruct (linked_out fails x y H) as (x' & y' & ? & ? & Hs & ?). exists x', y'. rewrite Hs. split_and!; try done. lia.
Qed.

(** Nothing more happens at [x] by itself. *)
Definition idle (x : Half) : Prop :=
  br_closed (sd_bridge (hf_side x)) = false ∧ hf_stream x = [] ∧
  worker_step (hf_side x) = Some (hf_side x) ∧ outbound_step None (hf_side x) = (hf_side x, []).

Lemma idle_empty x y : linked x y → idle x → idle y → Z.of_nat n2 + zlen (hf_sent y) ≤ u64_max →
  br_outbox (sd_bridge (hf_side x)) = [] ∧ br_inbound (sd_bridge (hf_side x)) = [] ∧ br_wire (sd_bridge (hf_side x)) = [].
Proof.
  assert (∀ z, end_ok z → idle z → br_wire (sd_bridge (hf_side z)) = [] ∧ sd_out_done (hf_side z) = false ∧ sd_pc (hf_side z) ≠ WGone) as Hout.
  { intros z [Ha _] (Hc & _ & _ & Ho). destruct (Ha Hc) as (? & _ & Hd). unfold outbound_step in Ho. rewrite Hd in Ho.
    by destruct (br_wire _). }
  intros H Ix Iy Hn. pose proof H as (_ & _ & E1 & E2). destruct (Hout _ E1 Ix) as (Hw & Hd & Hg). destruct (Hout _ E2 Iy) as (Hw' & Hd' & _).
  destruct Ix as (Hc & Hs & Hst & _). unfold worker_step in Hst. destruct (sd_pc (hf_side x)) eqn:Hpc; [| | |done].
  - exfalso. destruct (br_outbox _) eqn:Eo.
    + injection Hst as Hst. apply (f_equal sd_pc) in Hst. cbn in Hst. congruence.
    + unfold send_msg in Hst. apply bind_Some in Hst as ([st r] & _ & Hst). destruct r; injection Hst as Hst.
      * apply (f_equal sd_pc) in Hst. cbn in Hst. congruence.
      * apply (f_equal (length ∘ br_outbox ∘ sd_bridge)) in Hst. cbn in Hst. rewrite Eo in Hst. cbn in Hst. lia.
  - destruct (br_inbound _), (br_outbox _); try done.
    all: rewrite Hc in Hst; injection Hst as Hst; apply (f_equal sd_pc) in Hst; cbn in Hst; congruence.
  - exfalso. unfold recv_now in Hst. destruct (worker_finds x y H) as [(st & E & Hi)|(m & w & left & E & _)]; [by rewrite Hpc|done| |].
    + apply (proj2 E1 Hpc), Hi; done.
    + rewrite E in Hst. cbn [mbind option_bind] in Hst. cbn [sd_receiver with_sess with_bridge] in Hst.
      destruct (sd_receiver _); injection Hst as Hst; apply (f_equal sd_pc) in Hst; cbn in Hst; congruence.
Qed.

End steps.

Section runs.
Context {PR : Primitives}.
Variables (k1 k2 sid : list Z) (n1 n2 : nat).

Lemma linked_sym x y : linked k1 k2 sid n1 n2 x y → linked k2 k1 sid n2 n1 y x.
Proof. intros (? & ? & ? & ?). done. Qed.

Lemma idle_delivered x y : linked k1 k2 sid n1 n2 x y → idle x → idle y →
  Z.of_nat n1 + zlen (hf_sent x) ≤ u64_max → Z.of_nat n2 + zlen (hf_sent y) ≤ u64_max → sd_inbox (hf_side y) = hf_sent x.
Proof.
  intros H Ix Iy Hx Hy. destruct (idle_empty _ _ _ _ _ x y H Ix Iy Hy) as (Ho & _ & Hw).
  destruct (idle_empty _ _ _ _ _ y x (linked_sym _ _ H) Iy Ix Hx) as (_ & Hi & _).
  destruct H as ((sealed & tail & H) & _ & [Ea _] & [Eb _]). destruct (Ea (proj1 Ix)) as (_ & _ & Hd). destruct (Eb (proj1 Iy)) as (Hg & _ & _).
  destruct H. destruct (ca_bytes0 Hg) as [_ Hb]. rewrite Ho, app_nil_r in ca_sent0. subst sealed.
  destruct ca_prefix0 as [rest Er]. rewrite Er, frames_app in Hb. apply app_inv_head in Hb.
  rewrite Hi, (proj1 (proj2 Iy)), (ca_tail0 Hd), Hw in Hb. symmetry in Hb. apply frames_nil in Hb as ->.
  by rewrite app_nil_r in Er.
Qed.

(** Two sessions with swapped keys, after [n1] and [n2] messages. *)
Definition in_step (c s : Session) : Prop :=
  se_tx c = mkAead k1 (Z.of_nat n1) ∧ ae_key (se_rx s) = k1 ∧ tracks (seen_upto n1) (se_window s) ∧
  se_tx s = mkAead k2 (Z.of_nat n2) ∧ ae_key (se_rx c) = k2 ∧ tracks (seen_upto n2) (se_window c) ∧
  se_id c = sid ∧ se_id s = sid.

Lemma linked_new c s : in_step c s → linked k1 k2 sid n1 n2 (half_new c) (half_new s).
Proof.
  intros (H1 & H2 & H3 & H4 & H5 & H6 & H7 & H8).
  split_and!; [| |done|done]; exists [], []; constructor; cbn; try done; rewrite ?Z.add_0_r, ?Nat.add_0_r; done.
Qed.

Lemma bridge_run evs x y : linked k1 k2 sid n1 n2 x y → Forall (λ e, ev_fits e.2) evs →
  Z.of_nat n1 + zlen (hf_sent x) + zlen evs ≤ u64_max → Z.of_nat n2 + zlen (hf_sent y) + zlen evs ≤ u64_max →
  ∃ x' y', pair_run evs (x, y) = Some (x', y') ∧ linked k1 k2 sid n1 n2 x' y' ∧
    Z.of_nat n1 + zlen (hf_sent x') ≤ u64_max ∧ Z.of_nat n2 + zlen (hf_sent y') ≤ u64_max.
Proof.
  revert x y. induction evs as [|[d ev] evs IH]; intros x y H Hf Hx Hy.
  { exists x, y. rewrite Z.add_0_r in Hx, Hy. done. }
  apply Forall_cons in Hf as [Hev Hf]. rewrite zlen_cons in Hx, Hy. pose proof (zlen_nonneg evs). cbn [pair_run]. unfold pair_step. cbn [fst snd].
  destruct d.
  - destruct (linked_half k1 k2 sid n1 n2 ev x y H Hev) as (x' & y' & E & H' & Hs & Es); [lia..|]. rewrite E. cbn [mbind option_bind].
    apply IH; [done|done|lia|]. rewrite Es. lia.
  - destruct (linked_half k2 k1 sid n2 n1 ev y x (linked_sym _ _ H) Hev) as (y' & x' & E & H' & Hs & Es); [lia..|]. rewrite E. cbn [mbind option_bind].
    apply IH; [by destruct H' as (? & ? & ? & ?)|done|rewrite Es; lia|lia].
Qed.

(** What a run from two such sessions gives the applications. *)
Definition delivers_in_order (evs : list (bool * SideEv)) (c s : Session) : Prop :=
  ∃ x y, pair_run evs (half_new c, half_new s) = Some (x, y) ∧
    sd_inbox (hf_side y) `prefix_of` hf_sent x ∧ sd_inbox (hf_side x) `prefix_of` hf_sent y ∧
    (idle x → idle y → sd_inbox (hf_side y) = hf_sent x ∧ sd_inbox (hf_side x) = hf_sent y).

End runs.

Lemma in_step_delivers `{Primitives} k1 k2 sid n1 n2 evs c s : in_step k1 k2 sid n1 n2 c s → Forall (λ e, ev_fits e.2) evs →
  Z.of_nat n1 + zlen evs ≤ u64_max → Z.of_nat n2 + zlen evs ≤ u64_max → delivers_in_order evs c s.
Proof.
  intros Hs Hf H1 H2. destruct (bridge_run k1 k2 sid n1 n2 evs _ _ (linked_new _ _ _ _ _ _ _ Hs) Hf) as (x & y & E & Hl & Hx & Hy); [by rewrite Z.add_0_r..|].
  exists x, y. split; [done|]. assert (∀ a n x y, link a sid n x y → sd_inbox (hf_side y) `prefix_of` hf_sent x) as Hp.
  { intros a n x0 y0 (sealed & tail & Hc). destruct Hc. rewrite <-ca_sent0. by apply prefix_app_r. }
  pose proof Hl as (L1 & L2 & _). split_and!; [by apply (Hp k1 n1)|by apply (Hp k2 n2)|]. intros Ix Iy.
  split; [by apply (idle_delivered k1 k2 sid n1 n2)|]. apply (idle_delivered k2 k1 sid n2 n1); try done. by apply linked_sym.
Qed.

(** The control session over a reliable stream, with any interleaving of the
    two applications, workers and shuttle tasks and any point where the stream
    breaks: nothing panics, each application gets a prefix of what the other
    handed over, in order, and when neither end is closed and neither has a
    step left, all of it (there is no deadlock). *)
Theorem gm_link_in_order `{Primitives} k1 k2 sid evs : Forall (λ e, ev_fits e.2) evs → zlen evs ≤ u64_max →
  ∃ x y, pair_run evs (half_new (session_new k1 k2 sid), half_new (session_new k2 k1 sid)) = Some (x, y) ∧
    sd_inbox (hf_side y) `prefix_of` hf_sent x ∧ sd_inbox (hf_side x) `prefix_of` hf_sent y ∧
    (idle x → idle y → sd_inbox (hf_side y) = hf_sent x ∧ sd_inbox (hf_side x) = hf_sent y).
Proof. intros Hf Hn. by apply (in_step_delivers k1 k2 sid 0 0). Qed.

(** The messages of both ends cross, and one of them arrives in two pieces. *)
Definition ex_crossing : list (bool * SideEv) :=
  [(true, EvSend [1; 2]); (false, EvSend [7]); (true, EvWorker); (true, EvSend [3]); (true, EvWorker); (true, EvOut None);
   (false, EvWorker); (false, EvWorker); (false, EvChunk 20); (false, EvWorker); (false, EvWorker); (false, EvChunk 100); (false, EvWorker);
   (false, EvWorker); (false, EvWorker); (false, EvWorker); (false, EvWorker); (false, EvOut None);
   (true, EvWorker); (true, EvWorker); (true, EvChunk 100); (true, EvWorker); (true, EvWorker); (true, EvWorker); (true, EvWorker); (false, EvWorker)].

Lemma gm_link_in_order_witness : ∃ x y,
  pair_run (PR := toy_primitives) ex_crossing (half_new (session_new [1] [2] [3]), half_new (session_new [2] [1] [3])) = Some (x, y) ∧
  sd_inbox (hf_side y) = [[1; 2]; [3]] ∧ sd_inbox (hf_side x) = [[7]] ∧ hf_sent x = [[1; 2]; [3]].
Proof.
  destruct (@gm_link_in_order toy_primitives [1] [2] [3] ex_crossing) as (x & y & E & _ & _ & Hi).
  - unfold ex_crossing. rewrite !Forall_cons. unfold fits, MAX_FRAME. cbn. done.
  - vm_compute. done.
  - exists x, y. split; [exact E|]. assert (idle (PR := toy_primitives) x ∧ idle (PR := toy_primitives) y) as [Ix Iy].
    { vm_compute in E. injection E as <- <-. vm_compute. done. }
    destruct (Hi Ix Iy) as [-> ->]. clear Hi Ix Iy. vm_compute in E. by injection E as <- <-.
Defined.

(** ** A bridge that closes, a message that stops *)

Section stops.
Context {PR : Primitives}.

(** A step of the other end only adds to the bytes on their way. *)
Lemma half_step_other ev y x y' x' : half_step ev y x = Some (y', x') → hf_side x' = hf_side x ∧ hf_sent x' = hf_sent x.
Proof.
  destruct ev; cbn [half_step]; intros E; try (by simplify_eq).
  - apply bind_Some in E as (s & _ & E). by simplify_eq.
  - destruct (outbound_step fails (hf_side y)). by simplify_eq.
Qed.

(** What every event at the first end keeps holds after a run. *)
Lemma pair_run_keeps (P : Side → list (list Z) → Prop) (Q : SideEv → Prop) evs x y x' y' :
  (∀ ev x y x' y', P (hf_side x) (hf_sent x) → Q ev → half_step ev x y = Some (x', y') → P (hf_side x') (hf_sent x')) →
  P (hf_side x) (hf_sent x) → Forall (λ e, e.1 = true → Q e.2) evs → pair_run evs (x, y) = Some (x', y') → P (hf_side x') (hf_sent x').
Proof.
  intros Hstep. revert x y. induction evs as [|[d ev] evs IH]; intros x y HP HQ E; cbn in E; [by simplify_eq|].
  apply Forall_cons in HQ as [Hq HQ]. unfold pair_step in E. cbn [fst snd] in E, Hq. destruct d.
  - apply bind_Some in E as ([x1 y1] & E1 & E). by apply (IH x1 y1); [apply (Hstep ev x y x1 y1); [..|apply Hq|]|..].
  - apply bind_Some in E as ([x1 y1] & E1 & E). apply bind_Some in E1 as ([y2 x2] & E1 & [= -> ->]).
    apply half_step_other in E1 as [E1 E2]. apply (IH x1 y1); [by rewrite E1, E2|done|done].
Qed.

Definition deaf (inbox : list (list Z)) (s : Side) : Prop :=
  br_closed (sd_bridge s) = true ∧ sd_pc s ≠ WRecv ∧ sd_inbox s = inbox.

Lemma deaf_worker inbox s s' : deaf inbox s → worker_step s = Some s' → deaf inbox s'.
Proof.
  intros (Hc & Hp & Hi) E. unfold worker_step in E. destruct (sd_pc s) eqn:Epc; [..|done|]; [destruct (br_outbox _)|destruct (br_inbound _), (br_outbox _); rewrite Hc in E|].
  2: apply bind_Some in E as ([st r] & _ & E); destruct r.
  all: injection E as <-; unfold deaf; cbn; split_and!; rewrite ?Epc; done.
Qed.

Lemma deaf_step inbox ev x y x' y' : deaf inbox (hf_side x) → half_step ev x y = Some (x', y') → deaf inbox (hf_side x').
Proof.
  intros H. pose proof H as (Hc & Hp & Hi). destruct ev; cbn [half_step]; intros E.
  - unfold app_send, shared_push_outbox in E. rewrite Hc in E. by simplify_eq.
  - simplify_eq. by split_and!.
  - apply bind_Some in E as (s & E & E'). simplify_eq. by apply (deaf_worker _ (hf_side x)).
  - destruct (sd_in_done _) eqn:Ed; simplify_eq; [done|]. unfold inbound_step. cbn. rewrite Ed. by split_and!.
  - simplify_eq. unfold inbound_step. cbn. by destruct (sd_in_done _).
  - unfold outbound_step in E. destruct (sd_out_done _), (br_wire (sd_bridge (hf_side x))), fails; rewrite ?Hc in E; simplify_eq; by split_and!.
Qed.

(** A worker inside [recv_msg] with a part of a message. *)
Definition stalled (session : Session) (queued : list (list Z)) (inbound : list Z) (s : Side) (sent : list (list Z)) : Prop :=
  br_closed (sd_bridge s) = false ∧ sd_pc s = WRecv ∧ sd_session s = session ∧ br_inbound (sd_bridge s) = inbound ∧
  ∃ l, sent = queued ++ l ∧ br_outbox (sd_bridge s) = l.

(** Nothing arrives at this end and it does not break. *)
Definition no_input (ev : SideEv) : Prop :=
  match ev with EvChunk _ => False | EvEnd => False | EvOut (Some _) => False | _ => True end.

Lemma stalled_step session queued inbound ev x y x' y' :
  (∃ st, recv_msg session (mkStream inbound []) = Some (st, inl GmIo)) →
  stalled session queued inbound (hf_side x) (hf_sent x) → no_input ev → half_step ev x y = Some (x', y') →
  stalled session queued inbound (hf_side x') (hf_sent x').
Proof.
  intros [st Est] H Hn. pose proof H as (Hc & Hp & Hs & Hi & l & El & Eo). destruct ev as [m| | | | |[]]; cbn in Hn; try done; cbn [half_step]; intros E.
  - unfold app_send, shared_push_outbox in E. rewrite Hc in E. simplify_eq. split_and!; try done. eexists. split; [|done]. cbn. by rewrite El, app_assoc.
  - injection E as <- _. split_and!; try done. by exists l.
  - apply bind_Some in E as (s & E & E'). simplify_eq. unfold worker_step, recv_now in E. rewrite Hp, Est in E. cbn [mbind option_bind] in E.
    rewrite Hc in E. by simplify_eq.
  - unfold outbound_step in E. destruct (sd_out_done _), (br_wire (sd_bridge (hf_side x))); rewrite ?Hc in E; injection E as <- _; split_and!; try done; by exists l.
Qed.

End stops.

(** Once the stream of the peer has ended (or this end has closed), a worker
    that is not inside [recv_msg] hands nothing more to the application,
    although whole messages may be in its buffer. *)
Theorem closed_end_deaf `{Primitives} evs x y x' y' :
  br_closed (sd_bridge (hf_side x)) = true → sd_pc (hf_side x) ≠ WRecv → pair_run evs (x, y) = Some (x', y') →
  sd_inbox (hf_side x') = sd_inbox (hf_side x).
Proof.
  intros Hc Hp E. apply (pair_run_keeps (λ s _, deaf (sd_inbox (hf_side x)) s) (λ _, True)) in E; [by apply E|..].
  - intros ev a b a' b' Hd _. by apply deaf_step.
  - done.
  - by apply Forall_true.
Qed.

(** The first end has received all of a message and the end of the stream. *)
Definition ex_ended : list (bool * SideEv) :=
  [(false, EvSend [1; 2]); (false, EvWorker); (false, EvOut None); (true, EvChunk 100); (true, EvEnd)].

Lemma closed_end_deaf_witness : ∃ x y x' y',
  pair_run (PR := toy_primitives) ex_ended (half_new (session_new [1] [2] [3]), half_new (session_new [2] [1] [3])) = Some (x, y) ∧
  br_inbound (sd_bridge (hf_side x)) = msg_frame (seal_with_seq (PR := toy_primitives) (aead_new [2]) 0 [3] [1; 2]) ∧
  pair_run (PR := toy_primitives) (replicate 10 (true, EvWorker)) (x, y) = Some (x', y') ∧ sd_inbox (hf_side x') = [].
Proof.
  destruct (pair_run (PR := toy_primitives) ex_ended _) as [[x y]|] eqn:E; [|by vm_compute in E].
  destruct (pair_run (PR := toy_primitives) (replicate 10 (true, EvWorker)) (x, y)) as [[x' y']|] eqn:E'.
  - exists x, y, x', y'. split; [reflexivity|]. split; [vm_compute in E; by injection E as <- <-|]. split; [exact E'|].
    rewrite (@closed_end_deaf toy_primitives (replicate 10 (true, EvWorker)) x y x' y'); [..|exact E']; vm_compute in E; by injection E as <- <-.
  - exfalso. vm_compute in E. injection E as <- <-. by vm_compute in E'.
Defined.

(** While a message has arrived only in part, the worker is inside [recv_msg]:
    until the rest arrives it sends nothing, and what the application hands
    over is queued. *)
Theorem part_message_blocks_sending `{Primitives} evs x y x' y' :
  sd_pc (hf_side x) = WRecv → br_closed (sd_bridge (hf_side x)) = false → br_outbox (sd_bridge (hf_side x)) = [] →
  (∃ st, recv_msg (sd_session (hf_side x)) (mkStream (br_inbound (sd_bridge (hf_side x))) []) = Some (st, inl GmIo)) →
  Forall (λ e, e.1 = true → no_input e.2) evs → pair_run evs (x, y) = Some (x', y') →
  sd_session (hf_side x') = sd_session (hf_side x) ∧ hf_sent x' = hf_sent x ++ br_outbox (sd_bridge (hf_side x')).
Proof.
  intros Hp Hc Ho Hr Hf E.
  apply (pair_run_keeps (stalled (sd_session (hf_side x)) (hf_sent x) (br_inbound (sd_bridge (hf_side x)))) no_input) in E; [..|done].
  - destruct E as (_ & _ & Hs & _ & l & El & Eo). by rewrite El, Eo.
  - intros ev a b a' b'. by apply stalled_step.
  - split_and!; try done. exists []. by rewrite app_nil_r.
Qed.

(** One byte of the peer is enough. *)
Lemma part_message_blocks_sending_witness : ∃ x y x' y',
  pair_run (PR := toy_primitives) [(false, EvSend [1; 2]); (false, EvWorker); (false, EvOut None); (true, EvChunk 1); (true, EvWorker); (true, EvWorker)]
    (half_new (session_new [1] [2] [3]), half_new (session_new [2] [1] [3])) = Some (x, y) ∧
  pair_run (PR := toy_primitives) [(true, EvSend [7]); (true, EvWorker); (true, EvOut None); (true, EvWorker)] (x, y) = Some (x', y') ∧
  br_outbox (sd_bridge (hf_side x')) = [[7]] ∧ hf_sent x' = [] ++ [[7]].
Proof.
  destruct (pair_run (PR := toy_primitives) [(false, EvSend [1; 2]); (false, EvWorker); (false, EvOut None); (true, EvChunk 1); (true, EvWorker); (true, EvWorker)] _) as [[x y]|] eqn:E; [|by vm_compute in E].
  destruct (pair_run (PR := toy_primitives) [(true, EvSend [7]); (true, EvWorker); (true, EvOut None); (true, EvWorker)] (x, y)) as [[x' y']|] eqn:E'.
  - exists x, y, x', y'. split; [reflexivity|]. split; [exact E'|].
    destruct (@part_message_blocks_sending toy_primitives [(true, EvSend [7]); (true, EvWorker); (true, EvOut None); (true, EvWorker)] x y x' y') as [_ Hs]; [..|exact E'|].
    1-4: vm_compute in E; injection E as <- <-; vm_compute; eauto.
    { repeat constructor. }
    vm_compute in E. injection E as <- <-. vm_compute in E'. injection E' as <- <-. split; [reflexivity|exact Hs].
  - exfalso. vm_compute in E. injection E as <- <-. by vm_compute in E'.
Defined.
