(* ===== verification/MoqGmAccept.v ===== *)
(** * Media relay: GM-PQ handshakes of many connections

    Models the rest of [crates/moq-live/src/gmpq.rs]: the identities, the two
    handshake workers, and the server's side of several connections at once,
    whose workers share the lock of the ticket cache.

    A worker runs the handshake on the bytes that have arrived so far: it
    waits where the handshake runs out of them.  The randomness and the clock
    of a handshake are given when it starts; the time it takes is left out. *)

From S2P Require Import Prelude Bytes GmCrypto GmSession GmCookie GmPsk GmTrust GmKem GmHandshake GmApi MoqGmPq.

Record GmPqInfo := mkInfo {
  gi_session_id : list Z;
  gi_peer_static_key : list Z;
  gi_resumed : bool;
  gi_early_data : option (list Z)
}.

(** ["early_data_accepted=true"], ["early_data_accepted=false"] *)
Definition accepted_label (accepted : bool) : list Z :=
  [101; 97; 114; 108; 121; 95; 100; 97; 116; 97; 95; 97; 99; 99; 101; 112; 116; 101; 100; 61] ++
  (if accepted then [116; 114; 117; 101] else [102; 97; 108; 115; 101]).

(** What a handshake has come to: it waits for bytes, it failed, or the
    session starts with the bytes that are left; each with what it wrote. *)
Inductive Handshake :=
  | HsWaits (wire : list Z)
  | HsFailed (wire : list Z) (e : GmError)
  | HsReady (wire left : list Z) (session : Session) (info : GmPqInfo).

Definition hs_wire (h : Handshake) : list Z :=
  match h with HsWaits w => w | HsFailed w _ => w | HsReady w _ _ _ => w end.

(** An error of the handshake; running out of bytes is one only when the
    bridge is closed. *)
Definition hs_error (closed : bool) (wire : list Z) (e : GmError) : Handshake :=
  match e with
  | GmIo => if closed then HsFailed wire GmIo else HsWaits wire
  | _ => HsFailed wire e
  end.

Section workers.
Context {PR : Primitives} {K : Kem} {A : StaticAuth K}.

Record ServerIdentity := mkServerId {
  si_sk : SecretKey;
  si_pk : list Z;
  si_cookie : CookieIssuer;
  si_tickets : TicketIssuer;
  si_cache : TicketCache;
  si_anchor : PinFileAnchor;
  si_ticket_ttl_secs : Z
}.

Definition server_identity_new (cookie_secret ticket_key : list Z) (sk : SecretKey) (pk : list Z) (anchor : PinFileAnchor) (ticket_ttl_secs : Z)
    : option ServerIdentity :=
  tickets ← issuer_new ticket_key;
  Some (mkServerId sk pk (cookie_new cookie_secret 30) tickets tcache_new anchor ticket_ttl_secs).

Record ClientIdentity := mkClientId {
  ci_sk : SecretKey;
  ci_pk : list Z;
  ci_anchor : PinFileAnchor;
  ci_ticket : option (list Z * list Z)
}.

Definition client_identity_new (sk : SecretKey) (pk : list Z) (anchor : PinFileAnchor) : ClientIdentity := mkClientId sk pk anchor None.

Definition with_cache (c : TicketCache) (id : ServerIdentity) : ServerIdentity :=
  mkServerId (si_sk id) (si_pk id) (si_cookie id) (si_tickets id) c (si_anchor id) (si_ticket_ttl_secs id).

Definition server_config (id : ServerIdentity) (client_tag : list Z) : ServerConfig :=
  mkServerConfig (si_cookie id) (si_tickets id) (pin_anchor (si_anchor id)) client_tag (si_ticket_ttl_secs id).

(** The worker of [server_handshake], with the lock of the cache held; a
    handshake that waits has not released the cache. *)
Definition server_worker (id : ServerIdentity) (client_tag : list Z) (t : ServerClock) (g : HsRandom) (rt : TicketRandom)
    (closed : bool) (inbound : list Z) : option (ServerIdentity * Handshake) :=
  '(cache, s, r) ← server_accept (server_config id client_tag) t g rt (si_sk id) (si_pk id) (si_cache id) (mkStream inbound []);
  match r with
  | inl e =>
      let h := hs_error closed (st_out s) e in
      Some (match h with HsWaits _ => id | _ => with_cache cache id end, h)
  | inr (mkServer session peer early_data resumed) =>
      Some (with_cache cache id, HsReady (st_out s) (st_in s) session (mkInfo (se_id session) peer resumed early_data))
  end.

(** The worker of [client_handshake], with the ticket it read from the slot. *)
Definition client_worker (id : ClientIdentity) (g g' : HsRandom) (closed : bool) (inbound : list Z) : option (ClientIdentity * Handshake) :=
  '(s, r) ← match ci_ticket id with
            | Some (t, psk) =>
                client_connect_resume g g' (ci_sk id) (ci_pk id) (pin_anchor (ci_anchor id)) t psk (Some EARLY_DATA_PROBE) (mkStream inbound [])
            | None => client_connect_full g (ci_sk id) (ci_pk id) (pin_anchor (ci_anchor id)) (mkStream inbound [])
            end;
  match r with
  | inl e => Some (id, hs_error closed (st_out s) e)
  | inr (mkClient session peer resumption resumed accepted) =>
      let id := match resumption with
                | Some t => mkClientId (ci_sk id) (ci_pk id) (ci_anchor id) (Some t)
                | None => id
                end in
      Some (id, HsReady (st_out s) (st_in s) session
                  (mkInfo (se_id session) peer resumed (if resumed then Some (accepted_label accepted) else None)))
  end.

(** The message loop starts on the bridge of the handshake. *)
Definition side_start (wire left : list Z) (closed : bool) (session : Session) : Side :=
  mkSide (mkBridge left [] wire closed) WOutbox session [] true false false.

(** ** Many connections *)

(** Where the worker of a connection stands. *)
Inductive AttemptPc :=
  | ALock
  | AHandshake (t : ServerClock) (g : HsRandom) (rt : TicketRandom)
  | AFailed (e : GmError)
  | ASession (info : GmPqInfo) (session : Session).

(** A connection: its address, all the bytes received and written, and
    whether the bridge is closed. *)
Record Attempt := mkAttempt {
  at_tag : list Z;
  at_in : list Z;
  at_out : list Z;
  at_closed : bool;
  at_pc : AttemptPc
}.

Record Acceptor := mkAcceptor {
  ac_id : ServerIdentity;
  ac_holder : option nat;
  ac_attempts : list Attempt
}.

Inductive AcceptEv :=
  | AcConnect (tag : list Z)
  | AcBytes (i : nat) (bytes : list Z)
  | AcEnd (i : nat)
  | AcLock (i : nat) (t : ServerClock) (g : HsRandom) (rt : TicketRandom)
  | AcRun (i : nat).

Definition attempt_at (a : Attempt) (out : list Z) (closed : bool) (pc : AttemptPc) : Attempt :=
  mkAttempt (at_tag a) (at_in a) out closed pc.

(** The worker of connection [i] holds the lock and goes as far as it can. *)
Definition attempt_run (i : nat) (a : Attempt) (ac : Acceptor) : option Acceptor :=
  match at_pc a with
  | AHandshake t g rt =>
      '(id, h) ← server_worker (ac_id ac) (at_tag a) t g rt (at_closed a) (at_in a);
      Some match h with
           | HsWaits wire => mkAcceptor id (ac_holder ac) (<[i := attempt_at a wire (at_closed a) (at_pc a)]> (ac_attempts ac))
           | HsFailed wire e => mkAcceptor id None (<[i := attempt_at a wire true (AFailed e)]> (ac_attempts ac))
           | HsReady wire _ session info =>
               mkAcceptor id None (<[i := attempt_at a wire (at_closed a) (ASession info session)]> (ac_attempts ac))
           end
  | _ => Some ac
  end.

(** [None] is a panic; an event for a connection that is not there, or a step
    that has to wait, does nothing. *)
Definition accept_step (ev : AcceptEv) (ac : Acceptor) : option Acceptor :=
  match ev with
  | AcConnect tag => Some (mkAcceptor (ac_id ac) (ac_holder ac) (ac_attempts ac ++ [mkAttempt tag [] [] false ALock]))
  | AcBytes i bytes =>
      Some match ac_attempts ac !! i with
           | Some a => mkAcceptor (ac_id ac) (ac_holder ac)
               (<[i := mkAttempt (at_tag a) (at_in a ++ bytes) (at_out a) (at_closed a) (at_pc a)]> (ac_attempts ac))
           | None => ac
           end
  | AcEnd i =>
      Some match ac_attempts ac !! i with
           | Some a => mkAcceptor (ac_id ac) (ac_holder ac) (<[i := attempt_at a (at_out a) true (at_pc a)]> (ac_attempts ac))
           | None => ac
           end
  | AcLock i t g rt =>
      Some match ac_holder ac, ac_attempts ac !! i with
           | None, Some a =>
               match at_pc a with
               | ALock => mkAcceptor (ac_id ac) (Some i) (<[i := attempt_at a (at_out a) (at_closed a) (AHandshake t g rt)]> (ac_attempts ac))
               | _ => ac
               end
           | _, _ => ac
           end
  | AcRun i =>
      match ac_attempts ac !! i with
      | Some a => attempt_run i a ac
      | None => Some ac
      end
  end.

Fixpoint accept_run (evs : list AcceptEv) (ac : Acceptor) : option Acceptor :=
  match evs with
  | [] => Some ac
  | ev :: evs' => ac ← accept_step ev ac; accept_run evs' ac
  end.

Definition acceptor_new (id : ServerIdentity) : Acceptor := mkAcceptor id None [].

End workers.

(** ** The lock of the ticket cache *)

Section acceptor_proofs.
Context {PR : Primitives} {K : Kem} {A : StaticAuth K} `{!KemLaws K, !StaticAuthLaws K A}.

Definition clock_fits (ttl : Z) (t : ServerClock) : Prop := now_verify t + 5 ≤ u64_max ∧ now_ticket t + ttl ≤ u64_max.

Definition ev_clock (ttl : Z) (ev : AcceptEv) : Prop :=
  match ev with AcLock _ t _ _ => clock_fits ttl t | _ => True end.

(** What a connection satisfies: a handshake holds the lock, and a session is
    with a pinned peer. *)
Definition attempt_ok (anchor : PinFileAnchor) (ttl : Z) (holder : option nat) (i : nat) (a : Attempt) : Prop :=
  match at_pc a with
  | AHandshake t _ _ => holder = Some i ∧ clock_fits ttl t
  | ASession info _ => is_Some (pin_lookup (gi_peer_static_key info) anchor)
  | _ => holder ≠ Some i
  end.

Definition acceptor_ok (anchor : PinFileAnchor) (ttl : Z) (ac : Acceptor) : Prop :=
  si_anchor (ac_id ac) = anchor ∧ si_ticket_ttl_secs (ac_id ac) = ttl ∧
  (∀ i, ac_holder ac = Some i → i < length (ac_attempts ac))%nat ∧
  ∀ i a, ac_attempts ac !! i = Some a → attempt_ok anchor ttl (ac_holder ac) i a.

Lemma server_worker_ok id tag t g rt closed inbound : clock_fits (si_ticket_ttl_secs id) t →
  ∃ id' h, server_worker id tag t g rt closed inbound = Some (id', h) ∧
    si_anchor id' = si_anchor id ∧ si_ticket_ttl_secs id' = si_ticket_ttl_secs id ∧
    match h with HsReady _ _ _ info => is_Some (pin_lookup (gi_peer_static_key info) (si_anchor id)) | _ => True end.
Proof.
  intros [Hv Hn]. destruct (server_accept_any (server_config id tag) t g rt (si_sk id) (si_pk id) (si_cache id) (mkStream inbound []) Hv Hn)
    as (s & r & E & Hr).
  unfold server_worker. rewrite E. cbn [mbind option_bind]. destruct r as [e|[session peer ed resumed]].
  - eexists _, _. split; [done|]. destruct (hs_error closed (st_out s) e) eqn:Eh; cbn; try done.
    unfold hs_error in Eh. repeat case_match; done.
  - eexists _, _. split; [done|]. destruct Hr as [Hp _]. cbn in Hp |- *. split_and!; try done. unfold pin_verify in Hp.
    by destruct (pin_lookup peer (si_anchor id)).
Qed.

(** Replacing a connection by one that is as good. *)
Lemma acceptor_update anchor ttl id holder ac i a : acceptor_ok anchor ttl ac → si_anchor id = anchor → si_ticket_ttl_secs id = ttl →
  (i < length (ac_attempts ac))%nat → attempt_ok anchor ttl holder i a →
  (∀ j, holder = Some j → j = i ∨ ac_holder ac = Some j) →
  (∀ j, ac_holder ac = Some j → j = i ∨ holder = Some j) →
  acceptor_ok anchor ttl (mkAcceptor id holder (<[i := a]> (ac_attempts ac))).
Proof.
  intros (H1 & H2 & H3 & H4) Ha Ht Hi Hok Hh Hh'. split_and!; cbn; try done.
  - intros j Hj. rewrite length_insert. destruct (Hh j Hj) as [->|]; [done|]. by apply H3.
  - intros j b Hb. destruct (decide (i = j)) as [->|Hne].
    + rewrite list_lookup_insert_eq in Hb by done. by simplify_eq.
    + rewrite list_lookup_insert_ne in Hb by done. specialize (H4 j b Hb). unfold attempt_ok in *. destruct (at_pc b); try done.
      * intros Hj. apply H4. destruct (Hh j Hj); congruence.
      * destruct H4 as [H4 ?]. split; [|done]. destruct (Hh' j H4); congruence.
      * intros Hj. apply H4. destruct (Hh j Hj); congruence.
Qed.

Lemma accept_step_ok anchor ttl ev ac : acceptor_ok anchor ttl ac → ev_clock ttl ev →
  ∃ ac', accept_step ev ac = Some ac' ∧ acceptor_ok anchor ttl ac'.
Proof.
  intros H Hev. pose proof H as (H1 & H2 & H3 & H4). destruct ev as [tag|i bytes|i|i t g rt|i]; cbn [accept_step].
  - eexists. split; [done|]. split_and!; cbn; try done.
    + intros i Hi. rewrite length_app. specialize (H3 i Hi). lia.
    + intros i a [Ha|[Hl Ha]]%lookup_app_Some; [by apply H4|]. apply list_lookup_singleton_Some in Ha as [E <-].
      unfold attempt_ok. cbn. intros Hi%H3. lia.
  - eexists. split; [done|]. destruct (_ !! i) as [a|] eqn:Ea; [|done]. apply acceptor_update; try done.
    + by apply lookup_lt_Some in Ea.
    + by apply H4 in Ea.
    + by right.
    + by right.
  - eexists. split; [done|]. destruct (_ !! i) as [a|] eqn:Ea; [|done]. apply acceptor_update; try done.
    + by apply lookup_lt_Some in Ea.
    + by apply H4 in Ea.
    + by right.
    + by right.
  - eexists. split; [done|]. destruct (ac_holder ac) as [|] eqn:Eh; [done|]. destruct (_ !! i) as [a|] eqn:Ea; [|done].
    destruct (at_pc a) eqn:Epc; try done. apply acceptor_update; try done.
    + by apply lookup_lt_Some in Ea.
    + intros j [= ->]. by left.
    + by rewrite Eh.
  - destruct (_ !! i) as [a|] eqn:Ea; [|by eexists]. unfold attempt_run. destruct (at_pc a) as [|t g rt| |] eqn:Epc; try by eexists.
    pose proof (H4 i a Ea) as Ha. unfold attempt_ok in Ha. rewrite Epc in Ha. destruct Ha as [Hh Hc]. pose proof (lookup_lt_Some _ _ _ Ea) as Hi.
    destruct (server_worker_ok (ac_id ac) (at_tag a) t g rt (at_closed a) (at_in a)) as (id & h & E & Hid & Htt & Hw); [by rewrite H2|].
    rewrite E. cbn [mbind option_bind]. eexists. split; [done|].
    destruct h; (apply acceptor_update; [done|by rewrite Hid|by rewrite Htt|done|..]); try done.
    + by right.
    + by right.
    + rewrite Hh. intros j [= ->]. by left.
    + unfold attempt_ok, attempt_at. cbn. by rewrite <-H1.
    + rewrite Hh. intros j [= ->]. by left.
Qed.

Lemma accept_run_ok anchor ttl evs ac : acceptor_ok anchor ttl ac → Forall (ev_clock ttl) evs →
  ∃ ac', accept_run evs ac = Some ac' ∧ acceptor_ok anchor ttl ac'.
Proof.
  revert ac. induction evs as [|ev evs IH]; intros ac H Hf; [by eexists|]. apply Forall_cons in Hf as [He Hf]. cbn [accept_run].
  destruct (accept_step_ok anchor ttl ev ac H He) as (ac1 & -> & H'). cbn [mbind option_bind]. by apply IH.
Qed.

(** No byte and no end of connection [i] arrives. *)
Definition not_from (i : nat) (ev : AcceptEv) : Prop :=
  match ev with AcBytes j _ => j ≠ i | AcEnd j => j ≠ i | _ => True end.

(** The first connection has the lock and has sent nothing; the others wait
    for the lock and nothing was written to them. *)
Definition starved (t : ServerClock) (g : HsRandom) (rt : TicketRandom) (ac : Acceptor) : Prop :=
  ac_holder ac = Some 0%nat ∧
  (∃ a, ac_attempts ac !! 0%nat = Some a ∧ at_in a = [] ∧ at_closed a = false ∧ at_pc a = AHandshake t g rt) ∧
  ∀ j a, ac_attempts ac !! S j = Some a → at_pc a = ALock ∧ at_out a = [].

Lemma server_worker_silent id tag t g rt : server_worker id tag t g rt false [] = Some (id, HsWaits []).
Proof. done. Qed.

Lemma starved_step t g rt ev ac : starved t g rt ac → not_from 0 ev → ∃ ac', accept_step ev ac = Some ac' ∧ starved t g rt ac'.
Proof.
  intros H Hn. pose proof H as (Hh & (a & Ea & Hin & Hcl & Hpc) & Ho). destruct ev as [tag|i bytes|i|i t' g' rt'|i]; cbn [accept_step].
  - eexists. split; [done|]. split_and!; cbn; [done|exists a; by rewrite lookup_app_l by (by apply lookup_lt_Some in Ea)|].
    intros j b [Hb|[_ Hb]]%lookup_app_Some; [by apply (Ho j)|]. by apply list_lookup_singleton_Some in Hb as [_ <-].
  - cbn in Hn. destruct i as [|i]; [done|]. eexists. split; [done|]. destruct (_ !! S i) as [b|] eqn:Eb; [|done].
    split_and!; cbn; [done|exists a; by rewrite list_lookup_insert_ne by done|]. intros j c Hc.
    destruct (decide (i = j)) as [->|]; [|rewrite list_lookup_insert_ne in Hc by congruence; by apply (Ho j)].
    rewrite list_lookup_insert_eq in Hc by (by apply lookup_lt_Some in Eb). simplify_eq. by apply (Ho j b).
  - cbn in Hn. destruct i as [|i]; [done|]. eexists. split; [done|]. destruct (_ !! S i) as [b|] eqn:Eb; [|done].
    split_and!; cbn; [done|exists a; by rewrite list_lookup_insert_ne by done|]. intros j c Hc.
    destruct (decide (i = j)) as [->|]; [|rewrite list_lookup_insert_ne in Hc by congruence; by apply (Ho j)].
    rewrite list_lookup_insert_eq in Hc by (by apply lookup_lt_Some in Eb). simplify_eq. by apply (Ho j b).
  - eexists. split; [done|]. by rewrite Hh.
  - destruct i as [|i].
    + rewrite Ea. unfold attempt_run. rewrite Hpc, Hin, Hcl, server_worker_silent. cbn [mbind option_bind]. eexists. split; [done|].
      split_and!; cbn; [done| |].
      * eexists. rewrite list_lookup_insert_eq by (by apply lookup_lt_Some in Ea). split; [done|]. cbn. rewrite Hin. done.
      * intros j b Hb. rewrite list_lookup_insert_ne in Hb by done. by apply (Ho j).
    + destruct (_ !! S i) as [b|] eqn:Eb; [|by eexists]. unfold attempt_run. destruct (Ho i b Eb) as [-> _]. by eexists.
Qed.

Lemma starved_run t g rt evs ac : starved t g rt ac → Forall (not_from 0) evs → ∃ ac', accept_run evs ac = Some ac' ∧ starved t g rt ac'.
Proof.
  revert ac. induction evs as [|ev evs IH]; intros ac H Hf; [by eexists|]. apply Forall_cons in Hf as [He Hf]. cbn [accept_run].
  destruct (starved_step t g rt ev ac H He) as (ac1 & -> & H'). cbn [mbind option_bind]. by apply IH.
Qed.

End acceptor_proofs.

(** Any number of connections, any bytes from them and any order of their
    workers: the server never panics, two handshakes never run at once on the
    ticket cache they share, and a session is only with a peer whose key is
    pinned. *)
Theorem acceptor_safe `{Primitives} (K : Kem) (A : StaticAuth K) `{!KemLaws K, !StaticAuthLaws K A} id evs :
  Forall (ev_clock (si_ticket_ttl_secs id)) evs →
  ∃ ac, accept_run evs (acceptor_new id) = Some ac ∧
    (∀ i j a b t g rt t' g' rt', ac_attempts ac !! i = Some a → at_pc a = AHandshake t g rt →
       ac_attempts ac !! j = Some b → at_pc b = AHandshake t' g' rt' → i = j) ∧
    (∀ i a info session, ac_attempts ac !! i = Some a → at_pc a = ASession info session →
       is_Some (pin_lookup (gi_peer_static_key info) (si_anchor id))).
Proof.
  intros Hf. destruct (accept_run_ok (si_anchor id) (si_ticket_ttl_secs id) evs (acceptor_new id)) as (ac & E & _ & _ & _ & Hok); [by split_and!|done|].
  exists ac. split; [done|]. split.
  - intros i j a b t g rt t' g' rt' Ha Hpa Hb Hpb. apply Hok in Ha, Hb. unfold attempt_ok in Ha, Hb. rewrite Hpa in Ha. rewrite Hpb in Hb.
    destruct Ha, Hb. congruence.
  - intros i a info session Ha Hp. apply Hok in Ha. unfold attempt_ok in Ha. by rewrite Hp in Ha.
Qed.

(** An identity, and two connections of which the first is silent. *)
Definition ex_server_id : ServerIdentity (K := toy_hybrid) :=
  mkServerId (K := toy_hybrid) (toy_key 30 31) (public_of (toy_key 30 31)) (mkCookie [5] 30) (mkIssuer (replicate 16 9)) tcache_new (mkPins ∅) 3600.
Definition ex_accepts : list AcceptEv :=
  [AcConnect [1]; AcConnect [2]; AcLock 0 ex_clock toy_random (ex_ticket_random 7); AcBytes 1 [1; 0; 0; 0; 1; 7]; AcLock 1 ex_clock toy_random (ex_ticket_random 8);
   AcRun 0; AcRun 1; AcBytes 0 [9; 0; 0; 0; 1; 7]; AcRun 0; AcLock 1 ex_clock toy_random (ex_ticket_random 8); AcRun 1].

Lemma acceptor_safe_witness : ∃ ac,
  accept_run (PR := toy_primitives) (A := toy_auth) ex_accepts (acceptor_new ex_server_id) = Some ac ∧ ac_holder ac = Some 1%nat ∧
  match ac_attempts ac with a :: _ => at_closed a | [] => false end = true.
Proof.
  destruct (@acceptor_safe toy_primitives toy_hybrid toy_auth _ _ ex_server_id ex_accepts) as (ac & E & _).
  - change (si_ticket_ttl_secs ex_server_id) with 3600. unfold ex_accepts. rewrite !Forall_cons, Forall_nil. unfold ev_clock, clock_fits, ex_clock, u64_max.
    cbn [now_verify now_ticket]. split_and!; first [exact I|lia].
  - exists ac. split; [exact E|].
    assert (match accept_run (PR := toy_primitives) (A := toy_auth) ex_accepts (acceptor_new ex_server_id) with
            | Some ac => (ac_holder ac, match ac_attempts ac with a :: _ => at_closed a | [] => false end)
            | None => (None, false)
            end = (Some 1%nat, true)) as Hv by (vm_compute; reflexivity).
    rewrite E in Hv. split; [exact (f_equal fst Hv)|exact (f_equal snd Hv)].
Defined.

(** A client that connects and sends nothing keeps the ticket cache locked:
    as long as it is silent no other connection gets past the lock, whatever
    it sends, and not a byte is written to it. *)
Theorem silent_client_starves `{Primitives} (K : Kem) (A : StaticAuth K) id tag t g rt evs : Forall (not_from 0) evs →
  ∃ ac, accept_run (AcConnect tag :: AcLock 0 t g rt :: evs) (acceptor_new id) = Some ac ∧
    ∀ j a, ac_attempts ac !! S j = Some a → at_pc a = ALock ∧ at_out a = [].
Proof.
  intros Hf. cbn [accept_run accept_step acceptor_new ac_attempts app mbind option_bind ac_holder lookup list_lookup at_pc].
  match goal with |- context [accept_run evs ?x] => destruct (starved_run t g rt evs x) as (ac & E & _ & _ & Ho) end; [|done|by exists ac].
  split_and!; cbn; [done|by eexists|done].
Qed.

Lemma silent_client_starves_witness : ∃ ac,
  accept_run (PR := toy_primitives) (A := toy_auth)
    (AcConnect [1] :: AcLock 0 ex_clock toy_random (ex_ticket_random 7) ::
     [AcConnect [2]; AcBytes 1 [1; 0; 0; 0; 1; 7]; AcRun 0; AcLock 1 ex_clock toy_random (ex_ticket_random 8); AcRun 1]) (acceptor_new ex_server_id) = Some ac ∧
  (∃ a, ac_attempts ac !! 1%nat = Some a ∧ at_pc a = ALock ∧ at_out a = []).
Proof.
  destruct (@silent_client_starves toy_primitives toy_hybrid toy_auth ex_server_id [1] ex_clock toy_random (ex_ticket_random 7)
    [AcConnect [2]; AcBytes 1 [1; 0; 0; 0; 1; 7]; AcRun 0; AcLock 1 ex_clock toy_random (ex_ticket_random 8); AcRun 1]) as (ac & E & Ho).
  - repeat constructor; cbn; lia.
  - exists ac. split; [exact E|]. assert (∃ a, ac_attempts ac !! 1%nat = Some a) as [a Ha].
    { apply lookup_lt_is_Some. cbn in E. injection E as <-. cbn. lia. }
    exists a. split; [exact Ha|]. by apply (Ho 0%nat).
Defined.

(** ** A control session from the handshake on *)

Section control.
Context {PR : Primitives} {K : Kem} {A : StaticAuth K} `{!KemLaws K, !StaticAuthLaws K A, !KemTotal K A, !KemSmall K A}.

(** Two ends whose keys are in each other's pin file. *)
Definition pinned_pair (ci : ClientIdentity) (si : ServerIdentity) : Prop :=
  ci_pk ci = public_of (ci_sk ci) ∧ si_pk si = public_of (si_sk si) ∧
  is_Some (pin_lookup (si_pk si) (ci_anchor ci)) ∧ is_Some (pin_lookup (ci_pk ci) (si_anchor si)).

Lemma pinned_verify a role pk : is_Some (pin_lookup pk a) → anchor_verify (pin_anchor a) role pk = inr tt.
Proof. intros [n E]. cbn. unfold pin_verify. by rewrite E. Qed.

(** Sessions fresh from a handshake. *)
Lemma matched_delivers evs c s : matched c s → Forall (λ e, ev_fits e.2) evs → zlen evs < u64_max → delivers_in_order evs c s.
Proof.
  intros (H1 & H2 & H3 & H4 & H5 & H6 & H7) Hf Hn. destruct c as [[kc qc] rc wc idc], s as [[ks qs] rs ws ids]. cbn in *. subst.
  apply (in_step_delivers (ae_key rs) (ae_key rc) ids 0 1); [|done|lia|lia].
  split_and!; try done. cbn. split_and!; try done.
  - by left.
  - intros x [->|Hx]%elem_of_cons; [done|]. by apply elem_of_nil in Hx.
  - intros i Hi. change 1 with (2 ^ 0). destruct (decide (i = 0)) as [->|].
    + rewrite bool_decide_true; [done|]. by left.
    + rewrite Z.pow2_bits_false by lia. rewrite bool_decide_false; [done|]. rewrite list_elem_of_singleton. lia.
Qed.

End control.

(** [C15] The first connection of a client, over a stream that carries the bytes of
    each end to the other: both handshakes complete whatever has already been
    sent after them, with the same session and each other's key, the client
    keeps a ticket, and the control messages of both ends arrive in order. *)
Theorem control_session_established `{Primitives} (K : Kem) (A : StaticAuth K)
    `{!KemLaws K, !StaticAuthLaws K A, !KemTotal K A, !KemSmall K A} (ci : ClientIdentity) (si : ServerIdentity) tag t gc g' gs rt :
  pinned_pair ci si → ci_ticket ci = None → clock_ok (server_config si tag) t → good_random rt →
  ∃ c2s s2c ticket sc ss id,
    (∀ closed rest, client_worker ci gc g' closed (s2c ++ rest) =
       Some (mkClientId (ci_sk ci) (ci_pk ci) (ci_anchor ci) (Some (ticket, tk_psk rt)), HsReady c2s rest sc (mkInfo id (si_pk si) false None))) ∧
    (∀ closed rest, server_worker si tag t gs rt closed (c2s ++ rest) =
       Some (si, HsReady s2c rest ss (mkInfo id (ci_pk ci) false None))) ∧
    ∀ evs, Forall (λ e, ev_fits e.2) evs → zlen evs < u64_max → delivers_in_order evs sc ss.
Proof.
  intros (Hcp & Hsp & Hc & Hs) Hn Hk Hr.
  destruct (full_run (server_config si tag) t gc gs rt (pin_anchor (ci_anchor ci)) (ci_sk ci) (si_sk si) (si_cache si)) as (c2s & s2c & ticket & sc & ss & E1 & E2 & Hm & _).
  1,2: apply pinned_verify; by rewrite <-?Hcp, <-?Hsp.
  1,2: done.
  exists c2s, s2c, ticket, sc, ss, (se_id sc). pose proof Hm as (_ & _ & Hid & _). split_and!.
  - intros closed rest. unfold client_worker. rewrite Hn, Hcp, E1. by rewrite Hsp.
  - intros closed rest. unfold server_worker. rewrite Hsp, E2. cbn [mbind option_bind st_in st_out app]. rewrite Hcp, Hid. by destruct si.
  - intros evs Hf Hl. by apply matched_delivers.
Qed.

(** [C17] The next connection, with a ticket that has not expired and that the
    cache does not hold: one round trip, the server gets the probe as early
    data and the client learns that it was accepted, and messages arrive in
    order both ways.  The ticket is recorded as used: its first message sent
    again, while the ticket still opens, is refused exactly as long as the
    cache's clock is before the expiry time; in the second of the expiry the
    ticket opens and is taken again. *)
Theorem control_session_resumed `{Primitives} (K : Kem) (A : StaticAuth K)
    `{!KemLaws K, !StaticAuthLaws K A, !KemTotal K A, !KemSmall K A} (ci : ClientIdentity) (si : ServerIdentity) tag t gc g' gs rt r0 now0 ttl0 ticket psk :
  pinned_pair ci si → ci_ticket ci = Some (ticket, psk) → clock_ok (server_config si tag) t → good_random rt →
  good_random r0 → 0 ≤ now0 → 0 ≤ ttl0 → ticket_issue r0 now0 (ci_pk ci) ttl0 (si_tickets si) = Some (ticket, psk) →
  now_open t ≤ now0 + ttl0 → (check_and_insert (now_cache t) (tk_id r0) (now0 + ttl0) (si_cache si)).2 = inr tt →
  ∃ payload m3 s2c cache ticket' sc ss id,
    (∀ closed rest, client_worker ci gc g' closed (s2c ++ rest) =
       Some (mkClientId (ci_sk ci) (ci_pk ci) (ci_anchor ci) (Some (ticket', tk_psk rt)),
         HsReady (frame T_MSG1_PSK payload ++ frame T_MSG3 m3) rest sc (mkInfo id (si_pk si) true (Some (accepted_label true))))) ∧
    (∀ closed rest, server_worker si tag t gs rt closed ((frame T_MSG1_PSK payload ++ frame T_MSG3 m3) ++ rest) =
       Some (with_cache cache si, HsReady s2c rest ss (mkInfo id (ci_pk ci) true (Some EARLY_DATA_PROBE)))) ∧
    (∀ t', now_open t' ≤ now0 + ttl0 →
       ∃ cache' x, resume_open (server_config si tag) t' (si_sk si) (si_pk si) payload cache = Some (cache', x) ∧
         (x = inl tt ↔ now_cache t' < now0 + ttl0)) ∧
    ∀ evs, Forall (λ e, ev_fits e.2) evs → zlen evs < u64_max → delivers_in_order evs sc ss.
Proof.
  intros (Hcp & Hsp & Hc & Hs) Hn Hk Hr Hr0 Hn0 Ht0 Hi Ho Hf.
  destruct (resume_run (server_config si tag) t gc g' gs rt (pin_anchor (ci_anchor ci)) (ci_sk ci) (si_sk si) r0 now0 ttl0 ticket psk (Some EARLY_DATA_PROBE) (si_cache si))
    as (payload & m3 & s2c & cache & ticket' & sc & ss & E1 & E2 & Hm & Hag).
  1,2: apply pinned_verify; by rewrite <-?Hcp, <-?Hsp.
  all: try done.
  { by rewrite <-Hcp. }
  exists payload, m3, s2c, cache, ticket', sc, ss, (se_id sc). pose proof Hm as (_ & _ & Hid & _). split_and!.
  - intros closed rest. unfold client_worker. rewrite Hn, Hcp, E1. by rewrite Hsp.
  - intros closed rest. unfold server_worker. rewrite Hsp, E2. cbn [mbind option_bind st_in st_out app]. by rewrite Hcp, Hid.
  - by rewrite Hsp.
  - intros evs Hf' Hl. by apply matched_delivers.
Qed.

(** Two ends that have each other in their pin file. *)
Definition ex_pin (sk : @SecretKey toy_hybrid) : PinFileAnchor := pins_from_keys (PR := toy_primitives) [([97], public_of sk)].
Definition ex_client : ClientIdentity (K := toy_hybrid) :=
  client_identity_new (K := toy_hybrid) (toy_key 20 21) (public_of (toy_key 20 21)) (ex_pin (toy_key 30 31)).
Definition ex_server : ServerIdentity (K := toy_hybrid) :=
  mkServerId (K := toy_hybrid) (toy_key 30 31) (public_of (toy_key 30 31)) (mkCookie [5] 30) (mkIssuer (replicate 16 9)) tcache_new (ex_pin (toy_key 20 21)) 3600.

Lemma ex_pin_found sk : is_Some (pin_lookup (PR := toy_primitives) (public_of sk) (ex_pin sk)).
Proof. unfold pin_lookup, ex_pin, pins_from_keys. cbn [foldl pins fst snd]. rewrite lookup_insert_eq. eauto. Qed.

Lemma ex_pinned_pair ticket : pinned_pair (PR := toy_primitives) (mkClientId (K := toy_hybrid) (ci_sk ex_client) (ci_pk ex_client) (ci_anchor ex_client) ticket) ex_server.
Proof. split; [reflexivity|]. split; [reflexivity|]. split; apply ex_pin_found. Qed.

Lemma ex_server_clock : clock_ok (server_config (PR := toy_primitives) ex_server [127; 0; 0; 1]) ex_clock.
Proof.
  unfold clock_ok, server_config, ex_server, ex_clock, is_u64, u64_max.
  cbn [sc_cookie sc_ticket_ttl_secs si_cookie si_ticket_ttl_secs ck_ttl_secs now_cookie now_verify now_ticket]. lia.
Qed.

Lemma control_session_established_witness : ∃ c2s s2c ticket sc ss id,
  client_worker (PR := toy_primitives) (A := toy_auth) ex_client toy_random toy_random false (s2c ++ [1; 2]) =
    Some (mkClientId (ci_sk ex_client) (ci_pk ex_client) (ci_anchor ex_client) (Some (ticket, replicate 32 7)), HsReady c2s [1; 2] sc (mkInfo id (si_pk ex_server) false None)) ∧
  server_worker (PR := toy_primitives) (A := toy_auth) ex_server [127; 0; 0; 1] ex_clock toy_random (ex_ticket_random 7) false (c2s ++ []) =
    Some (ex_server, HsReady s2c [] ss (mkInfo id (ci_pk ex_client) false None)) ∧
  delivers_in_order (PR := toy_primitives) ex_crossing sc ss.
Proof.
  destruct (@control_session_established toy_primitives toy_hybrid toy_auth _ _ _ _ ex_client ex_server [127; 0; 0; 1] ex_clock toy_random toy_random toy_random (ex_ticket_random 7))
    as (c2s & s2c & ticket & sc & ss & id & H1 & H2 & H3).
  - exact (ex_pinned_pair None).
  - reflexivity.
  - exact ex_server_clock.
  - repeat split.
  - exists c2s, s2c, ticket, sc, ss, id. split; [exact (H1 false [1; 2])|]. split; [exact (H2 false [])|]. apply H3.
    + unfold ex_crossing. rewrite !Forall_cons, Forall_nil. cbn [snd ev_fits]. unfold fits, zlen, MAX_FRAME. cbn [length]. split_and!; first [exact I|lia].
    + reflexivity.
Defined.

Lemma control_session_resumed_witness : ∃ ticket psk payload m3 s2c cache ticket' sc ss id,
  client_worker (PR := toy_primitives) (A := toy_auth) (mkClientId (K := toy_hybrid) (ci_sk ex_client) (ci_pk ex_client) (ci_anchor ex_client) (Some (ticket, psk)))
      toy_random toy_random false (s2c ++ []) =
    Some (mkClientId (ci_sk ex_client) (ci_pk ex_client) (ci_anchor ex_client) (Some (ticket', replicate 32 7)),
      HsReady (frame T_MSG1_PSK payload ++ frame T_MSG3 m3) [] sc (mkInfo id (si_pk ex_server) true (Some (accepted_label true)))) ∧
  server_worker (PR := toy_primitives) (A := toy_auth) ex_server [127; 0; 0; 1] ex_clock toy_random (ex_ticket_random 7) false ((frame T_MSG1_PSK payload ++ frame T_MSG3 m3) ++ []) =
    Some (with_cache cache ex_server, HsReady s2c [] ss (mkInfo id (ci_pk ex_client) true (Some EARLY_DATA_PROBE))).
Proof.
  destruct (@issue_ok toy_primitives (ex_ticket_random 8) 900 (ci_pk ex_client) 200 (mkIssuer (replicate 16 9))) as (ticket & E & _); [repeat split|unfold u64_max; lia|].
  exists ticket, (tk_psk (ex_ticket_random 8)).
  destruct (@control_session_resumed toy_primitives toy_hybrid toy_auth _ _ _ _
    (mkClientId (K := toy_hybrid) (ci_sk ex_client) (ci_pk ex_client) (ci_anchor ex_client) (Some (ticket, tk_psk (ex_ticket_random 8)))) ex_server
    [127; 0; 0; 1] ex_clock toy_random toy_random toy_random (ex_ticket_random 7) (ex_ticket_random 8) 900 200 ticket (tk_psk (ex_ticket_random 8)))
    as (payload & m3 & s2c & cache & ticket' & sc & ss & id & H1 & H2 & _).
  - apply ex_pinned_pair.
  - reflexivity.
  - exact ex_server_clock.
  - repeat split.
  - repeat split.
  - lia.
  - lia.
  - exact E.
  - cbn. lia.
  - vm_compute. reflexivity.
  - exists payload, m3, s2c, cache, ticket', sc, ss, id. split; [exact (H1 false [])|exact (H2 false [])].
Defined.
