(* ===== verification/P2pProto.v ===== *)
(** * P2P mesh: the relay protocol

    Models [crates/p2p-mesh/src/proto.rs]: frames, their encoding, and their
    transport over a byte stream.  A byte stream is the bytes that will
    arrive and what happens after them: the peer closes, or an I/O error.  An
    IPv6 socket address keeps its flow label and scope, which the encoding
    drops.  A string is the list of its UTF-8 bytes. *)

From S2P Require Import Prelude Bytes.

(** ** Data *)

Definition NodeId : Type := list Z.

Inductive SocketAddr :=
  | V4 (octets : list Z) (port : Z)
  | V6 (octets : list Z) (port flowinfo scope_id : Z).

#[export] Instance SocketAddr_eq_dec : EqDecision SocketAddr.
Proof. solve_decision. Defined.

Definition TAG_HELLO : Z := 1.
Definition TAG_HELLO_ACK : Z := 2.
Definition TAG_PUNCH_REQ : Z := 3.
Definition TAG_EXCHANGE : Z := 4.
Definition TAG_RELAY_DATA : Z := 5.
Definition TAG_STATS_QUERY : Z := 6.
Definition TAG_STATS_REPORT : Z := 7.
Definition TAG_ERROR : Z := 255.

Definition CAND_PUNCH : Z := 0.
Definition CAND_QUIC : Z := 1.

Definition Candidates : Type := list (SocketAddr * Z).

Definition MAX_FRAME : Z := 4 * 1024 * 1024.

Inductive Frame :=
  | Hello (node_id : NodeId) (cands : Candidates)
  | HelloAck (observed : SocketAddr)
  | PunchRequest (target : NodeId)
  | Exchange (peer : NodeId) (cands : Candidates)
  | RelayData (to from : NodeId) (payload : list Z)
  | StatsQuery
  | StatsReport (text : list Z)
  | FError (msg : list Z).

#[export] Instance Frame_eq_dec : EqDecision Frame.
Proof. solve_decision. Defined.

(** The messages of [bad], and the errors of the stream itself. *)
Inductive IoError :=
  | FrameTruncated
  | InvalidUtf8
  | UnknownAddressFamily
  | UnknownFrameTag
  | InvalidFrameLength
  | UnexpectedEof
  | OtherIo.

#[export] Instance IoError_eq_dec : EqDecision IoError.
Proof. solve_decision. Defined.

(** ** The cursor *)

Record Cursor := mkCursor {
  cu_buf : list Z;
  cu_pos : Z
}.

(** A method of the cursor. *)
Definition cur (A : Type) : Type := Cursor → res IoError (A * Cursor).

Definition cret {A} (a : A) : cur A := λ c, ok (a, c).
Definition cerr {A} (e : IoError) : cur A := λ _, err e.
Definition cbind {A B} (m : cur A) (k : A → cur B) : cur B := λ c, '(a, c) ←? m c; k a c.

Declare Scope cursor_scope.
Notation "x ⇐ m ; k" := (cbind m (λ x, k))
  (at level 20, m at level 100, k at level 200, right associativity) : cursor_scope.
Open Scope cursor_scope.

Definition cu_take (n : Z) : cur (list Z) := λ c,
  match add_chk u64_max (cu_pos c) n with
  | None => None
  | Some e =>
      if zlen (cu_buf c) <? e then err FrameTruncated
      else match slice (cu_buf c) (cu_pos c) e with
           | None => None
           | Some s => ok (s, mkCursor (cu_buf c) e)
           end
  end.

(** The conversions of slices to arrays unwrap: another length panics. *)
Definition exactly (n : Z) (s : list Z) : cur (list Z) := λ c, if zlen s =? n then ok (s, c) else None.

Definition cu_u8 : cur Z := s ⇐ cu_take 1; λ c, match vget s 0 with Some b => ok (b, c) | None => None end.
Definition cu_u16 : cur Z := s ⇐ cu_take 2; a ⇐ exactly 2 s; cret (from_be a).
Definition cu_u32 : cur Z := s ⇐ cu_take 4; a ⇐ exactly 4 s; cret (from_be a).
Definition cu_id : cur NodeId := s ⇐ cu_take 32; exactly 32 s.
Definition cu_bytes : cur (list Z) := n ⇐ cu_u32; cu_take n.
Definition cu_string : cur (list Z) := b ⇐ cu_bytes; if utf8_valid b then cret b else cerr InvalidUtf8.

Definition cu_addr : cur SocketAddr :=
  ver ⇐ cu_u8;
  port ⇐ cu_u16;
  if ver =? 4 then s ⇐ cu_take 4; o ⇐ exactly 4 s; cret (V4 o port)
  else if ver =? 6 then s ⇐ cu_take 16; o ⇐ exactly 16 s; cret (V6 o port 0 0)
  else cerr UnknownAddressFamily.

Fixpoint cands_loop (n : nat) : cur Candidates :=
  match n with
  | O => cret []
  | S n' => kind ⇐ cu_u8; a ⇐ cu_addr; out ⇐ cands_loop n'; cret ((a, kind) :: out)
  end.

Definition cu_cands : cur Candidates := n ⇐ cu_u8; cands_loop (Z.to_nat n).

(** ** Encoding *)

Definition put_u32 (v : Z) : list Z := to_be 4 v.
Definition put_id (id : NodeId) : list Z := id.
Definition put_bytes (b : list Z) : list Z := put_u32 (as_u32 (zlen b)) ++ b.

Definition put_addr (a : SocketAddr) : list Z :=
  match a with
  | V4 o port => [4] ++ to_be 2 port ++ o
  | V6 o port _ _ => [6] ++ to_be 2 port ++ o
  end.

Definition put_cands (cands : Candidates) : list Z :=
  [as_u8 (zlen cands)] ++ concat (map (λ '(a, kind), [kind] ++ put_addr a) cands).

Definition encode (f : Frame) : list Z :=
  match f with
  | Hello node_id cands => [TAG_HELLO] ++ put_id node_id ++ put_cands cands
  | HelloAck observed => [TAG_HELLO_ACK] ++ put_addr observed
  | PunchRequest target => [TAG_PUNCH_REQ] ++ put_id target
  | Exchange peer cands => [TAG_EXCHANGE] ++ put_id peer ++ put_cands cands
  | RelayData to from payload => [TAG_RELAY_DATA] ++ put_id to ++ put_id from ++ put_bytes payload
  | StatsQuery => [TAG_STATS_QUERY]
  | StatsReport text => [TAG_STATS_REPORT] ++ put_bytes text
  | FError msg => [TAG_ERROR] ++ put_bytes msg
  end.

(** ** Decoding *)

Definition decode_frame : cur Frame :=
  tag ⇐ cu_u8;
  if tag =? TAG_HELLO then id ⇐ cu_id; cs ⇐ cu_cands; cret (Hello id cs)
  else if tag =? TAG_HELLO_ACK then a ⇐ cu_addr; cret (HelloAck a)
  else if tag =? TAG_PUNCH_REQ then id ⇐ cu_id; cret (PunchRequest id)
  else if tag =? TAG_EXCHANGE then id ⇐ cu_id; cs ⇐ cu_cands; cret (Exchange id cs)
  else if tag =? TAG_RELAY_DATA then to ⇐ cu_id; from ⇐ cu_id; b ⇐ cu_bytes; cret (RelayData to from b)
  else if tag =? TAG_STATS_QUERY then cret StatsQuery
  else if tag =? TAG_STATS_REPORT then s ⇐ cu_string; cret (StatsReport s)
  else if tag =? TAG_ERROR then s ⇐ cu_string; cret (FError s)
  else cerr UnknownFrameTag.

Definition decode (buf : list Z) : res IoError Frame :=
  '(f, _) ←? decode_frame (mkCursor buf 0); ok f.

(** ** Frames on a stream *)

Inductive StreamEnd := Closed | Broken.

Record NetIn := mkNetIn {
  ni_data : list Z;
  ni_end : StreamEnd
}.

(** [read_exact]: too few bytes are an error, whichever way the stream ends. *)
Definition net_read_exact (n : Z) (r : NetIn) : (IoError + list Z) * NetIn :=
  if zlen (ni_data r) <? n
  then (inl (match ni_end r with Closed => UnexpectedEof | Broken => OtherIo end), mkNetIn [] (ni_end r))
  else (inr (take (Z.to_nat n) (ni_data r)), mkNetIn (drop (Z.to_nat n) (ni_data r)) (ni_end r)).

(** What [write_frame] puts on the wire. *)
Definition write_frame (f : Frame) : list Z :=
  let body := encode f in
  to_be 4 (as_u32 (zlen body)) ++ body.

(** [None] is a panic. *)
Definition read_frame (r : NetIn) : option ((IoError + option Frame) * NetIn) :=
  match net_read_exact 4 r with
  | (inl UnexpectedEof, r) => Some (inr None, r)
  | (inl e, r) => Some (inl e, r)
  | (inr len_buf, r) =>
      let len := from_be len_buf in
      if (len =? 0) || (MAX_FRAME <? len) then Some (inl InvalidFrameLength, r)
      else match net_read_exact len r with
           | (inl e, r) => Some (inl e, r)
           | (inr body, r) =>
               match decode body with
               | None => None
               | Some (inl e) => Some (inl e, r)
               | Some (inr f) => Some (inr (Some f), r)
               end
           end
  end.

(** ** What is well formed *)

Definition wf_id (id : NodeId) : Prop := zlen id = 32 ∧ Forall is_byte id.

(** The addresses that survive the encoding: no flow label, no scope. *)
Definition wf_addr (a : SocketAddr) : Prop :=
  match a with
  | V4 o port => zlen o = 4 ∧ Forall is_byte o ∧ is_u16 port
  | V6 o port fl sc => zlen o = 16 ∧ Forall is_byte o ∧ is_u16 port ∧ fl = 0 ∧ sc = 0
  end.

Definition wf_cand (c : SocketAddr * Z) : Prop := wf_addr c.1 ∧ is_u8 c.2.
Definition wf_cands (cs : Candidates) : Prop := zlen cs ≤ u8_max ∧ Forall wf_cand cs.
Definition wf_bytes (b : list Z) : Prop := zlen b ≤ u32_max ∧ Forall is_byte b.
Definition wf_string (b : list Z) : Prop := wf_bytes b ∧ utf8_valid b = true.

Definition wf_frame (f : Frame) : Prop :=
  match f with
  | Hello id cs | Exchange id cs => wf_id id ∧ wf_cands cs
  | HelloAck a => wf_addr a
  | PunchRequest id => wf_id id
  | RelayData to from b => wf_id to ∧ wf_id from ∧ wf_bytes b
  | StatsQuery => True
  | StatsReport s | FError s => wf_string s
  end.

(** ** Readers that are exact *)

(** The cursor stands before [s]; the buffer is one that fits in memory. *)
Definition stands (c : Cursor) (s : list Z) : Prop :=
  0 ≤ cu_pos c ∧ zlen (cu_buf c) + u32_max ≤ u64_max ∧ Forall is_byte s ∧
  ∃ p, cu_buf c = p ++ s ∧ zlen p = cu_pos c.

(** [rd] never panics and reads exactly what [enc] writes of the values in
    [wf], leaving the rest. *)
Class Wire {A} (rd : cur A) (enc : A → list Z) (wf : A → Prop) : Prop := {
  wire_total c s : stands c s → is_Some (rd c);
  wire_sound c s a c' : stands c s → rd c = ok (a, c') → wf a ∧ ∃ rest, s = enc a ++ rest ∧ stands c' rest;
  wire_complete c a rest : stands c (enc a ++ rest) → wf a → ∃ c', rd c = ok (a, c') ∧ stands c' rest
}.

Lemma stands_adv c x s : stands c (x ++ s) → stands (mkCursor (cu_buf c) (cu_pos c + zlen x)) s.
Proof.
  intros (Hp & Hl & [_ Hb]%Forall_app & p & Hbuf & Hlen). pose proof (zlen_nonneg x). split; [cbn; lia|]. split; [done|]. split; [done|].
  exists (p ++ x). rewrite <-app_assoc, zlen_app. split; [done|cbn; lia].
Qed.

#[export] Instance wire_take n : 0 ≤ n ≤ u32_max → Wire (cu_take n) (λ s, s) (λ s, zlen s = n ∧ Forall is_byte s).
Proof.
  intros Hn.
  assert (∀ c s, stands c s → (zlen s < n ∧ cu_take n c = err FrameTruncated) ∨
    ∃ x rest, s = x ++ rest ∧ zlen x = n ∧ cu_take n c = ok (x, mkCursor (cu_buf c) (cu_pos c + n))) as Hc.
  { intros c s (Hp & Hl & Hb & p & Hbuf & Hlen). unfold cu_take. pose proof (zlen_nonneg s).
    rewrite Hbuf, zlen_app in Hl. rewrite add_chk_ok by lia. rewrite Hbuf, zlen_app.
    destruct (Z.ltb_spec (zlen p + zlen s) (cu_pos c + n)); [left; split; [lia|done]|right].
    exists (take (Z.to_nat n) s), (drop (Z.to_nat n) s). rewrite take_drop.
    assert (zlen (take (Z.to_nat n) s) = n) as Ht by (unfold zlen in *; rewrite length_take; lia).
    split; [done|]. split; [done|]. rewrite <-(take_drop (Z.to_nat n) s) at 1. by rewrite slice_app3 by lia. }
  split.
  - intros c s Hs. destruct (Hc c s Hs) as [[_ ->]|(x & r & _ & _ & ->)]; by eexists.
  - intros c s a c' Hs E. destruct (Hc c s Hs) as [[_ E']|(x & r & -> & Hx & E')]; rewrite E' in E; [done|].
    unfold ok in E. simplify_eq. split.
    + split; [done|]. destruct Hs as (_ & _ & [? _]%Forall_app & _). done.
    + exists r. split; [done|]. by apply stands_adv.
  - intros c a rest Hs [Ha _]. destruct (Hc c _ Hs) as [[Hl _]|(x & r & E & Hx & ->)].
    + rewrite zlen_app in Hl. pose proof (zlen_nonneg rest). lia.
    + apply app_inj_1 in E as [-> ->]; [|unfold zlen in *; lia]. eexists. split; [done|]. rewrite <-Hx. by apply stands_adv.
Qed.

Lemma wire_ext {A} (rd : cur A) enc enc' wf wf' : Wire rd enc wf →
  (∀ a, wf a ↔ wf' a) → (∀ a, wf a → enc a = enc' a) → Wire rd enc' wf'.
Proof.
  intros [Ht Hs Hc] Hwf Henc. split.
  - exact Ht.
  - intros c s a c' Hst E. destruct (Hs _ _ _ _ Hst E) as [Ha Hr]. split; [by apply Hwf|]. by rewrite <-Henc.
  - intros c a rest Hst Ha%Hwf. apply Hc; [|done]. by rewrite Henc.
Qed.

Lemma wire_ret {A} (a : A) : Wire (cret a) (λ _, []) (λ b, b = a).
Proof.
  split; intros c.
  - intros s _. by eexists.
  - intros s b c' Hs [= -> ->]. split; [done|]. by exists s.
  - intros b rest Hs ->. by exists c.
Qed.

Lemma wire_err {A} e enc : Wire (A := A) (cerr e) enc (λ _, False).
Proof. split; intros c; [intros s _; by eexists|intros s a c' _ [=]|done]. Qed.

Lemma wire_bind {A B} (rd : cur A) (k : A → cur B) enc1 wf1 enc2 wf2 enc wf :
  Wire rd enc1 wf1 → (∀ a, wf1 a → Wire (k a) (enc2 a) (wf2 a)) →
  (∀ b, wf b ↔ ∃ a, wf1 a ∧ wf2 a b) → (∀ a b, wf1 a → wf2 a b → enc b = enc1 a ++ enc2 a b) →
  Wire (x ⇐ rd; k x) enc wf.
Proof.
  intros H1 H2 Hwf Henc. split; unfold cbind.
  - intros c s Hs. apply try_bind_total; [by eapply wire_total|]. intros [a c1] E.
    destruct (wire_sound _ _ _ _ Hs E) as (Ha & r & _ & Hr). eapply (wire_total (Wire := H2 a Ha)), Hr.
  - intros c s b c' Hs ([a c1] & E1 & E2)%try_bind_ok.
    destruct (wire_sound _ _ _ _ Hs E1) as (Ha & r & -> & Hr).
    destruct (wire_sound (Wire := H2 a Ha) _ _ _ _ Hr E2) as (Hb & r' & -> & Hr').
    split; [apply Hwf; eauto|]. exists r'. by rewrite (Henc a b), <-app_assoc.
  - intros c b rest Hs (a & Ha & Hb)%Hwf. rewrite (Henc a b Ha Hb), <-app_assoc in Hs.
    destruct (wire_complete _ _ _ Hs Ha) as (c1 & E1 & Hs1).
    destruct (wire_complete (Wire := H2 a Ha) _ _ _ Hs1 Hb) as (c2 & E2 & Hs2).
    exists c2. by rewrite E1.
Qed.

(** A reader followed by a constructor. *)
Lemma wire_map {A B} (rd : cur A) (f : A → B) enc1 wf1 enc wf :
  Wire rd enc1 wf1 → (∀ b, wf b ↔ ∃ a, wf1 a ∧ b = f a) → (∀ a, wf1 a → enc (f a) = enc1 a) →
  Wire (x ⇐ rd; cret (f x)) enc wf.
Proof.
  intros H1 Hwf Henc. eapply (wire_bind _ _ _ _ (λ _ _, []) (λ a b, b = f a)); [done|intros; apply wire_ret|done|].
  intros a b Ha ->. by rewrite app_nil_r, Henc.
Qed.

Lemma wire_exactly n : 0 ≤ n ≤ u32_max → Wire (s ⇐ cu_take n; exactly n s) (λ s, s) (λ s, zlen s = n ∧ Forall is_byte s).
Proof.
  intros Hn. eapply (wire_bind _ _ _ _ (λ _ _, []) (λ a b, b = a)); [by apply wire_take| | |].
  - intros a [Ha _]. replace (exactly n a) with (cret a); [apply wire_ret|]. unfold exactly. by rewrite Ha, Z.eqb_refl.
  - naive_solver.
  - intros a b _ ->. by rewrite app_nil_r.
Qed.

Lemma cbind_assoc {A B C} (m : cur A) (k : A → cur B) (h : B → cur C) c :
  (x ⇐ m; y ⇐ k x; h y) c = (y ⇐ (x ⇐ m; k x); h y) c.
Proof. unfold cbind. by destruct (m c) as [[?|[? ?]]|]. Qed.

Lemma wire_eq {A} (rd rd' : cur A) enc wf : (∀ c, rd c = rd' c) → Wire rd enc wf → Wire rd' enc wf.
Proof. intros E [H1 H2 H3]. split; intros c; rewrite <-E; eauto. Qed.

Lemma wire_u8 : Wire cu_u8 (λ b, [b]) is_u8.
Proof.
  eapply (wire_bind _ _ _ _ (λ _ _, []) (λ a b, a = [b])); [apply wire_take; by vm_compute| | |].
  - intros a [Ha Hb]. destruct a as [|b [|]]; rewrite ?zlen_cons in Ha; try (unfold zlen in Ha; cbn in Ha; lia).
    eapply wire_ext; [apply (wire_ret b)|naive_solver|done].
  - intros b. split.
    + intros Hb. exists [b]. split; [|done]. split; [done|]. constructor; [exact Hb|constructor].
    + intros (a & [_ Ha] & ->). by inversion Ha.
  - intros a b _ ->. done.
Qed.

Lemma to_from_array n b : zlen b = Z.of_nat n → Forall is_byte b → to_be n (from_be b) = b.
Proof. intros Hl Hb. replace n with (length b) by (unfold zlen in Hl; lia). by apply to_from_be. Qed.

Lemma from_be_range n b : zlen b = Z.of_nat n → Forall is_byte b → 0 ≤ from_be b < 256 ^ Z.of_nat n.
Proof.
  intros <- Hb. unfold from_be. pose proof (from_le_bound (reverse b)) as H. unfold zlen in *. rewrite length_reverse in H. apply H. by apply Forall_reverse.
Qed.

Lemma wire_int n mx : Z.of_nat n ≤ u32_max → 256 ^ Z.of_nat n = mx + 1 →
  Wire (s ⇐ cu_take (Z.of_nat n); a ⇐ exactly (Z.of_nat n) s; cret (from_be a)) (to_be n) (λ v, 0 ≤ v ≤ mx).
Proof.
  intros Hn Hmx. eapply wire_eq; [intros c; symmetry; apply cbind_assoc|].
  eapply wire_map; [apply wire_exactly; lia| |].
  - intros v. split.
    + intros Hv. exists (to_be n v). split; [split; [unfold zlen; by rewrite length_to_be|apply to_be_bytes]|].
      symmetry. apply from_to_be. lia.
    + intros (a & [Ha Hb] & ->). pose proof (from_be_range n a Ha Hb). lia.
  - intros a [Ha Hb]. by apply to_from_array.
Qed.

Lemma wire_u16 : Wire cu_u16 (to_be 2) is_u16.
Proof. by apply (wire_int 2 u16_max). Qed.
Lemma wire_u32 : Wire cu_u32 put_u32 is_u32.
Proof. by apply (wire_int 4 u32_max). Qed.
Lemma wire_id : Wire cu_id put_id wf_id.
Proof. apply wire_exactly. by vm_compute. Qed.

Lemma wire_bytes : Wire cu_bytes put_bytes wf_bytes.
Proof.
  eapply (wire_bind _ _ _ _ (λ _ b, b)); [apply wire_u32|intros n Hn; apply wire_take; by unfold is_u32, u32_max in *| |].
  - intros b. unfold wf_bytes, is_u32. pose proof (zlen_nonneg b). split; [|intros (n & ? & <- & ?); intuition lia].
    intros [Hl Hb]. exists (zlen b). intuition lia.
  - intros n b Hn [<- _]. unfold put_bytes, as_u32. rewrite Z.mod_small; [done|]. unfold is_u32, u32_max in Hn. lia.
Qed.

Lemma wire_string : Wire cu_string put_bytes wf_string.
Proof.
  eapply (wire_bind _ _ _ _ (λ _ _, []) (λ a b, b = a ∧ utf8_valid a = true)); [apply wire_bytes| | |].
  - intros a _. destruct (utf8_valid a).
    + eapply wire_ext; [apply wire_ret|naive_solver|done].
    + eapply wire_ext; [apply wire_err|naive_solver|naive_solver].
  - unfold wf_string. naive_solver.
  - intros a b _ [-> _]. by rewrite app_nil_r.
Qed.

Definition addr_family (a : SocketAddr) : Z := match a with V4 _ _ => 4 | V6 _ _ _ _ => 6 end.
Definition addr_port (a : SocketAddr) : Z := match a with V4 _ p | V6 _ p _ _ => p end.
Definition addr_octets (a : SocketAddr) : list Z := match a with V4 o _ | V6 o _ _ _ => o end.

Lemma wire_addr : Wire cu_addr put_addr wf_addr.
Proof.
  eapply (wire_bind _ _ _ _ (λ _ a, to_be 2 (addr_port a) ++ addr_octets a) (λ ver a, wf_addr a ∧ addr_family a = ver)); [apply wire_u8| | |].
  - intros ver _.
    eapply (wire_bind _ _ _ _ (λ _ a, addr_octets a) (λ port a, wf_addr a ∧ addr_family a = ver ∧ addr_port a = port)); [apply wire_u16| | |].
    + intros port Hport. destruct (Z.eqb_spec ver 4) as [->|H4]; [|destruct (Z.eqb_spec ver 6) as [->|H6]].
      * eapply wire_eq; [intros c; symmetry; apply cbind_assoc|].
        eapply (wire_map _ (λ o, V4 o port)); [by apply (wire_exactly 4)| |done].
        intros [o p|]; unfold wf_addr; cbn; naive_solver.
      * eapply wire_eq; [intros c; symmetry; apply cbind_assoc|].
        eapply (wire_map _ (λ o, V6 o port 0 0)); [by apply (wire_exactly 16)| |done].
        intros [|o p fl sc]; unfold wf_addr; cbn; naive_solver.
      * eapply wire_ext; [apply wire_err| |done]. intros [|]; cbn; naive_solver.
    + intros [o p|o p fl sc]; unfold wf_addr; cbn; naive_solver.
    + intros port a _ (_ & _ & <-). done.
  - intros a. split; [|naive_solver]. intros Ha. exists (addr_family a). split; [by destruct a; vm_compute|done].
  - intros ver [o p|o p fl sc] _ [_ <-]; done.
Qed.

Definition put_cand (c : SocketAddr * Z) : list Z := [c.2] ++ put_addr c.1.

Lemma put_cands_eq cs : put_cands cs = [as_u8 (zlen cs)] ++ concat (map put_cand cs).
Proof. unfold put_cands. do 2 f_equal. by apply map_ext; intros [? ?]. Qed.

Lemma wire_cands_loop n :
  Wire (cands_loop n) (λ cs, concat (map put_cand cs)) (λ cs, length cs = n ∧ Forall wf_cand cs).
Proof.
  induction n as [|n IH]; cbn [cands_loop].
  { eapply wire_ext; [apply wire_ret| |].
    - intros [|? cs]; cbn; split; [done|done|done|intros [? _]; done].
    - intros ? ->. done. }
  eapply (wire_bind _ _ _ _ (λ _ cs, match cs with [] => [] | c :: cs' => put_addr c.1 ++ concat (map put_cand cs') end)
    (λ kind cs, ∃ a cs', cs = (a, kind) :: cs' ∧ wf_addr a ∧ length cs' = n ∧ Forall wf_cand cs')); [apply wire_u8| | |].
  - intros kind Hk.
    eapply (wire_bind _ _ _ _ (λ _ cs, match cs with [] => [] | _ :: cs' => concat (map put_cand cs') end)
      (λ a cs, ∃ cs', cs = (a, kind) :: cs' ∧ length cs' = n ∧ Forall wf_cand cs')); [apply wire_addr| | |].
    + intros a Ha. eapply (wire_map _ (λ out, (a, kind) :: out)); [apply IH|naive_solver|done].
    + naive_solver.
    + intros a cs Ha (cs' & -> & _). done.
  - intros cs. unfold wf_cand. split.
    + intros [Hl Hc]. destruct cs as [|[a k] cs]; [done|]. inversion Hc as [|? ? [Ha Hk] Hcs]; subst. exists k. cbn in *. eauto 10.
    + intros (k & Hk & a & cs' & -> & Ha & <- & Hcs). split; [done|]. by constructor.
  - intros k cs Hk (a & cs' & -> & _). done.
Qed.

Lemma wire_cands : Wire cu_cands put_cands wf_cands.
Proof.
  eapply (wire_bind _ _ _ _ (λ _ cs, concat (map put_cand cs)) (λ n cs, zlen cs = n ∧ Forall wf_cand cs)); [apply wire_u8| | |].
  - intros n Hn. eapply wire_ext; [apply wire_cands_loop| |done]. unfold is_u8, zlen in *. intros cs. intuition lia.
  - intros cs. unfold wf_cands, is_u8. pose proof (zlen_nonneg cs). split; [|intros (n & ? & <- & ?); intuition lia].
    intros [Hl Hc]. exists (zlen cs). intuition lia.
  - intros n cs Hn [<- _]. rewrite put_cands_eq. unfold as_u8. rewrite Z.mod_small; [done|]. unfold is_u8, u8_max in Hn. lia.
Qed.

Definition frame_tag (f : Frame) : Z :=
  match f with
  | Hello _ _ => TAG_HELLO
  | HelloAck _ => TAG_HELLO_ACK
  | PunchRequest _ => TAG_PUNCH_REQ
  | Exchange _ _ => TAG_EXCHANGE
  | RelayData _ _ _ => TAG_RELAY_DATA
  | StatsQuery => TAG_STATS_QUERY
  | StatsReport _ => TAG_STATS_REPORT
  | FError _ => TAG_ERROR
  end.

Lemma wire_frame : Wire decode_frame encode wf_frame.
Proof.
  eapply (wire_bind _ _ _ _ (λ _ f, tail (encode f)) (λ t f, wf_frame f ∧ frame_tag f = t)); [apply wire_u8| | |].
  - intros t _. destruct (Z.eqb_spec t TAG_HELLO) as [->|?].
    { eapply (wire_bind _ _ _ _ (λ _ f, match f with Hello _ cs => put_cands cs | _ => [] end) (λ id f, ∃ cs, f = Hello id cs ∧ wf_cands cs)); [apply wire_id| | |].
      - intros id _. eapply (wire_map _ (Hello id)); [apply wire_cands|naive_solver|done].
      - intros []; cbn; naive_solver.
      - intros id f _ (cs & -> & _). done. }
    destruct (Z.eqb_spec t TAG_HELLO_ACK) as [->|?].
    { eapply (wire_map _ HelloAck); [apply wire_addr| |done]. intros []; cbn; naive_solver. }
    destruct (Z.eqb_spec t TAG_PUNCH_REQ) as [->|?].
    { eapply (wire_map _ PunchRequest); [apply wire_id| |done]. intros []; cbn; naive_solver. }
    destruct (Z.eqb_spec t TAG_EXCHANGE) as [->|?].
    { eapply (wire_bind _ _ _ _ (λ _ f, match f with Exchange _ cs => put_cands cs | _ => [] end) (λ id f, ∃ cs, f = Exchange id cs ∧ wf_cands cs)); [apply wire_id| | |].
      - intros id _. eapply (wire_map _ (Exchange id)); [apply wire_cands|naive_solver|done].
      - intros []; cbn; naive_solver.
      - intros id f _ (cs & -> & _). done. }
    destruct (Z.eqb_spec t TAG_RELAY_DATA) as [->|?].
    { eapply (wire_bind _ _ _ _ (λ _ f, match f with RelayData _ fr b => put_id fr ++ put_bytes b | _ => [] end)
        (λ to f, ∃ fr b, f = RelayData to fr b ∧ wf_id fr ∧ wf_bytes b)); [apply wire_id| | |].
      - intros to _. eapply (wire_bind _ _ _ _ (λ _ f, match f with RelayData _ fr b => put_bytes b | _ => [] end)
          (λ fr f, ∃ b, f = RelayData to fr b ∧ wf_bytes b)); [apply wire_id| | |].
        + intros fr _. eapply (wire_map _ (RelayData to fr)); [apply wire_bytes|naive_solver|done].
        + naive_solver.
        + intros fr f _ (b & -> & _). done.
      - intros f. split; [|intros (to & ? & fr & b & -> & ? & ?); done].
        intros [Hf Ht]. destruct f; try discriminate Ht. destruct Hf as (? & ? & ?). eauto 10.
      - intros to f _ (fr & b & -> & _). done. }
    destruct (Z.eqb_spec t TAG_STATS_QUERY) as [->|?].
    { eapply wire_ext; [apply wire_ret| |by intros ? ->]. intros []; cbn; naive_solver. }
    destruct (Z.eqb_spec t TAG_STATS_REPORT) as [->|?].
    { eapply (wire_map _ StatsReport); [apply wire_string| |done]. intros []; cbn; naive_solver. }
    destruct (Z.eqb_spec t TAG_ERROR) as [->|?].
    { eapply (wire_map _ FError); [apply wire_string| |done]. intros []; cbn; naive_solver. }
    eapply wire_ext; [apply wire_err| |done]. intros f. split; [done|]. intros [_ <-]. by destruct f.
  - intros f. split; [|by intros (t & _ & ? & _)]. intros Hf. exists (frame_tag f). split; [|done]. by destruct f; vm_compute.
  - intros t f _ [_ <-]. by destruct f.
Qed.

(** ** Encodings are bytes *)

Lemma put_addr_bytes a : wf_addr a → Forall is_byte (put_addr a).
Proof.
  destruct a as [o p|o p fl sc]; intros H; cbn [put_addr]; repeat apply Forall_app_2; try apply to_be_bytes; try (apply H);
    constructor; [by vm_compute|constructor|by vm_compute|constructor].
Qed.

Lemma put_cands_bytes cs : Forall wf_cand cs → Forall is_byte (put_cands cs).
Proof.
  intros Hc. rewrite put_cands_eq. apply Forall_app_2.
  - constructor; [|constructor]. pose proof (Z.mod_pos_bound (zlen cs) 256). unfold is_byte, is_u8, u8_max, as_u8. lia.
  - apply Forall_concat, Forall_map. eapply Forall_impl; [exact Hc|]. intros [a k] [Ha Hk]. constructor; [done|by apply put_addr_bytes].
Qed.

Lemma put_bytes_bytes b : Forall is_byte b → Forall is_byte (put_bytes b).
Proof. intros Hb. apply Forall_app_2; [apply to_be_bytes|done]. Qed.

Lemma encode_bytes f : wf_frame f → Forall is_byte (encode f).
Proof.
  assert (∀ t l, is_byte t → Forall is_byte l → Forall is_byte ([t] ++ l)) as H1 by (by constructor).
  destruct f; cbn [wf_frame encode]; intros Hf; try (apply H1; [by vm_compute|]).
  - apply Forall_app_2; [apply Hf|apply put_cands_bytes, Hf].
  - by apply put_addr_bytes.
  - apply Hf.
  - apply Forall_app_2; [apply Hf|apply put_cands_bytes, Hf].
  - destruct Hf as (? & ? & ?). apply Forall_app_2; [apply H|]. apply Forall_app_2; [apply H0|]. by apply put_bytes_bytes, H2.
  - constructor.
  - apply put_bytes_bytes, Hf.
  - apply put_bytes_bytes, Hf.
Qed.

Lemma stands_start buf : Forall is_byte buf → zlen buf + u32_max ≤ u64_max → stands (mkCursor buf 0) buf.
Proof. intros Hb Hl. split; [done|]. split; [done|]. split; [done|]. by exists []. Qed.

Lemma decode_exact buf f : Forall is_byte buf → zlen buf + u32_max ≤ u64_max →
  decode buf = ok f ↔ wf_frame f ∧ ∃ rest, buf = encode f ++ rest.
Proof.
  intros Hb Hl. pose proof (stands_start buf Hb Hl) as Hs. unfold decode. split.
  - intros ([f' c] & E & [= <-])%try_bind_ok. destruct (wire_sound (Wire := wire_frame) _ _ _ _ Hs E) as (Hf & rest & -> & _). eauto.
  - intros (Hf & rest & ->). destruct (wire_complete (Wire := wire_frame) _ _ _ Hs Hf) as (c' & -> & _). done.
Qed.

Lemma decode_total buf : Forall is_byte buf → zlen buf + u32_max ≤ u64_max → is_Some (decode buf).
Proof.
  intros Hb Hl. unfold decode. apply try_bind_total; [|intros [? ?] _; by eexists].
  eapply (wire_total (Wire := wire_frame)), stands_start; done.
Qed.

Lemma frame_decode_encode f : wf_frame f → zlen (encode f) + u32_max ≤ u64_max → decode (encode f) = ok f.
Proof. intros Hf Hl. apply decode_exact; [by apply encode_bytes|done|]. split; [done|]. exists []. by rewrite app_nil_r. Qed.

(** ** Reading frames *)

(** [while let Some(f) = read_frame(..)? { .. }]: the frames read and how
    the loop ends. *)
Fixpoint read_frames (fuel : nat) (r : NetIn) : option (list Frame * (IoError + unit)) :=
  match fuel with
  | O => None
  | S n =>
      '(x, r) ← read_frame r;
      match x with
      | inl e => Some ([], inl e)
      | inr None => Some ([], inr tt)
      | inr (Some f) => '(fs, e) ← read_frames n r; Some (f :: fs, e)
      end
  end.

Definition sendable (f : Frame) : Prop := wf_frame f ∧ zlen (encode f) ≤ MAX_FRAME.

Lemma zlen_encode_pos f : 0 < zlen (encode f).
Proof. destruct f; cbn [encode app]; rewrite zlen_cons; match goal with |- 0 < _ + zlen ?l => pose proof (zlen_nonneg l) | |- 0 < zlen ?l + _ => pose proof (zlen_nonneg l) end; lia. Qed.

Lemma frame_header f n : zlen (encode f) ≤ u32_max → n = zlen (encode f) → from_be (to_be 4 (as_u32 n)) = n.
Proof. intros Hl ->. pose proof (zlen_nonneg (encode f)). unfold as_u32. rewrite Z.mod_small by (unfold u32_max in Hl; lia). apply from_to_be. unfold u32_max in Hl. lia. Qed.

Lemma net_read_app x s e n : n = zlen x → net_read_exact n (mkNetIn (x ++ s) e) = (inr x, mkNetIn s e).
Proof.
  intros ->. unfold net_read_exact. cbn [ni_data ni_end]. rewrite zlen_app. pose proof (zlen_nonneg s).
  rewrite (proj2 (Z.ltb_ge _ _)) by lia. unfold zlen. by rewrite Nat2Z.id, take_app_length, drop_app_length.
Qed.

Lemma zlen_to_be n x : zlen (to_be n x) = Z.of_nat n.
Proof. unfold zlen. by rewrite length_to_be. Qed.

Lemma mesh_read_frame_ok f s e : sendable f → read_frame (mkNetIn (write_frame f ++ s) e) = Some (inr (Some f), mkNetIn s e).
Proof.
  intros [Hf Hl]. unfold read_frame, write_frame. rewrite <-app_assoc, net_read_app by by rewrite zlen_to_be.
  rewrite (frame_header f) by (unfold MAX_FRAME, u32_max in *; lia). pose proof (zlen_encode_pos f).
  rewrite (proj2 (Z.eqb_neq _ _)), (proj2 (Z.ltb_ge _ _)) by lia. cbn [orb]. rewrite net_read_app by done.
  by rewrite frame_decode_encode by (unfold MAX_FRAME, u32_max, u64_max in *; (done || lia)).
Qed.

Lemma read_frame_short s : zlen s < 4 → read_frame (mkNetIn s Closed) = Some (inr None, mkNetIn [] Closed).
Proof. intros Hs. unfold read_frame, net_read_exact. cbn [ni_data ni_end]. by rewrite (proj2 (Z.ltb_lt _ _)). Qed.

Lemma read_frame_cut f b : zlen (encode f) ≤ MAX_FRAME → (∃ r, r ≠ [] ∧ encode f = b ++ r) →
  ∃ r, read_frame (mkNetIn (to_be 4 (as_u32 (zlen (encode f))) ++ b) Closed) = Some (inl UnexpectedEof, r).
Proof.
  intros Hl (r & Hr & Hb). unfold read_frame. rewrite net_read_app by by rewrite zlen_to_be.
  rewrite (frame_header f) by (unfold MAX_FRAME, u32_max in *; lia). pose proof (zlen_encode_pos f).
  rewrite (proj2 (Z.eqb_neq _ _)), (proj2 (Z.ltb_ge MAX_FRAME _)) by lia. cbn [orb]. unfold net_read_exact. cbn [ni_data ni_end].
  rewrite (proj2 (Z.ltb_lt _ _)); [by eexists|]. rewrite Hb, zlen_app. destruct r; [done|]. rewrite zlen_cons. pose proof (zlen_nonneg r). lia.
Qed.

Lemma read_frames_prefix fs s e n : Forall sendable fs →
  read_frames (length fs + n) (mkNetIn (concat (map write_frame fs) ++ s) e) =
  '(l, x) ← read_frames n (mkNetIn s e); Some (fs ++ l, x).
Proof.
  induction 1 as [|f fs Hf _ IH]; cbn [length Nat.add map concat].
  { cbn [app]. by destruct (read_frames n _) as [[? ?]|]. }
  cbn [read_frames]. rewrite <-app_assoc, mesh_read_frame_ok by done. cbn [mbind option_bind]. rewrite IH.
  by destruct (read_frames n _) as [[? ?]|].
Qed.

(** What a read of a stream of bytes gives: never a panic, and frames that
    are well formed and within the limit. *)
Lemma read_frame_spec r : Forall is_byte (ni_data r) → ∃ x r', read_frame r = Some (x, r') ∧ Forall is_byte (ni_data r') ∧
  match x with inr (Some f) => sendable f | _ => True end.
Proof.
  intros Hb. assert (∀ n, 0 ≤ n → ∃ y r1, net_read_exact n r = (y, r1) ∧ Forall is_byte (ni_data r1)) as Hx.
  { intros n _. unfold net_read_exact. destruct (_ <? _); eexists _, _; (split; [done|]); cbn; [constructor|by apply Forall_drop]. }
  unfold read_frame. destruct (Hx 4) as (y & r1 & E & Hr1); [lia|]. rewrite E. destruct y as [e|lb].
  { destruct e; eexists _, _; eauto. }
  destruct ((from_be lb =? 0) || (MAX_FRAME <? from_be lb)) eqn:El; [eexists _, _; eauto|].
  apply orb_false_iff in El as [_ El%Z.ltb_ge]. unfold net_read_exact. destruct (Z.ltb_spec (zlen (ni_data r1)) (from_be lb)) as [|Hlen].
  { eexists _, _. split; [done|]. split; [constructor|done]. }
  set (body := take _ (ni_data r1)). assert (Forall is_byte body) as Hbody by by apply Forall_take.
  assert (zlen body ≤ MAX_FRAME) as Hbl. { unfold body, zlen in *. rewrite length_take. unfold MAX_FRAME in *. lia. }
  destruct (decode_total body) as [[e|f] Ed]; [done|unfold MAX_FRAME, u32_max, u64_max in *; lia|rewrite Ed..].
  - eexists _, _. split; [done|]. split; [by apply Forall_drop|done].
  - eexists _, _. split; [done|]. split; [by apply Forall_drop|].
    apply decode_exact in Ed as (Hf & rest & Hr); [|done|unfold MAX_FRAME, u32_max, u64_max in *; lia].
    split; [done|]. rewrite Hr, zlen_app in Hbl. pose proof (zlen_nonneg rest). lia.
Qed.

(** [C38] Decoding never panics, whatever the bytes, and accepts exactly the
    encodings of well-formed frames, followed by anything. *)
Theorem relay_codec_exact buf : Forall is_byte buf → zlen buf + u32_max ≤ u64_max →
  is_Some (decode buf) ∧ ∀ f, decode buf = ok f ↔ wf_frame f ∧ ∃ rest, buf = encode f ++ rest.
Proof. intros Hb Hl. split; [by apply decode_total|]. intros f. by apply decode_exact. Qed.

Lemma relay_codec_exact_witness :
  let buf := encode (RelayData (replicate 32 1) (replicate 32 2) [7; 8]) ++ [99] in
  Forall is_byte buf ∧ decode buf = ok (RelayData (replicate 32 1) (replicate 32 2) [7; 8]).
Proof.
  intros buf. assert (Forall is_byte buf) as Hb by (vm_compute; repeat constructor; done). split; [done|].
  apply (relay_codec_exact buf Hb); [by vm_compute|]. split; [|by exists [99]].
  cbn. unfold wf_id, wf_bytes. split_and!; try done; repeat constructor; done.
Defined.

(** Frames written one after the other are read back one by one; when the
    stream then closes within a frame, the loop ends with an error, unless
    fewer than the four bytes of the length have come, which it takes for the
    end.  A frame greater than the limit is written all the same, and refused
    when it is read. *)
Theorem relay_stream_exact fs f k : Forall sendable fs → sendable f → (k < length (write_frame f))%nat →
  read_frames (length fs + 1) (mkNetIn (concat (map write_frame fs) ++ take k (write_frame f)) Closed) =
    Some (fs, if Z.of_nat k <? 4 then inr tt else inl UnexpectedEof) ∧
  (∀ g, MAX_FRAME < zlen (encode g) ≤ u32_max →
     read_frames (length fs + 1) (mkNetIn (concat (map write_frame fs) ++ write_frame g) Closed) = Some (fs, inl InvalidFrameLength)).
Proof.
  intros Hfs Hf Hk. split.
  - rewrite read_frames_prefix by done. cbn [read_frames].
    destruct (Z.ltb_spec (Z.of_nat k) 4) as [H4|H4].
    + rewrite read_frame_short by (unfold zlen; rewrite length_take; lia). cbn. by rewrite app_nil_r.
    + assert (take k (write_frame f) = to_be 4 (as_u32 (zlen (encode f))) ++ take (k - 4) (encode f)) as ->.
      { unfold write_frame. rewrite take_app, length_to_be. f_equal. apply take_ge. rewrite length_to_be. lia. }
      destruct (read_frame_cut f (take (k - 4) (encode f))) as [r ->]; [apply Hf| |cbn; by rewrite app_nil_r].
      exists (drop (k - 4) (encode f)). split; [|by rewrite take_drop].
      intros Hd%(f_equal length). rewrite length_drop in Hd. unfold write_frame in Hk. rewrite length_app, length_to_be in Hk. cbn in Hd. lia.
  - intros g [Hg Hu]. rewrite read_frames_prefix by done. cbn [read_frames]. unfold read_frame, write_frame.
    rewrite net_read_app by by rewrite zlen_to_be. rewrite (frame_header g) by done.
    rewrite (proj2 (Z.ltb_lt _ _)) by done. rewrite orb_true_r. cbn. by rewrite app_nil_r.
Qed.

Lemma relay_stream_exact_witness :
  let fs := [StatsQuery; PunchRequest (replicate 32 3)] in
  read_frames 3 (mkNetIn (concat (map write_frame fs) ++ [0; 0; 0]) Closed) = Some (fs, inr tt).
Proof.
  intros fs. refine (proj1 (relay_stream_exact fs StatsQuery 3 _ _ _)).
  - repeat constructor; try done; unfold wf_frame, wf_id; repeat constructor; done.
  - split; [done|by vm_compute].
  - vm_compute. lia.
Defined.

(** The number of candidates is cut to a byte: a registration with more than
    255 of them is read back with the first ones only, as many as the
    remainder by 256. *)
Theorem candidates_truncated id cs : wf_id id → Forall wf_cand cs → zlen (encode (Hello id cs)) ≤ MAX_FRAME →
  decode (encode (Hello id cs)) = ok (Hello id (take (Z.to_nat (zlen cs mod 256)) cs)).
Proof.
  intros Hid Hcs Hl. pose proof (Z.mod_pos_bound (zlen cs) 256). pose proof (Z.mod_le (zlen cs) 256). pose proof (zlen_nonneg cs).
  set (n := Z.to_nat (zlen cs mod 256)). assert (zlen (take n cs) = zlen cs mod 256) as Hn.
  { unfold zlen at 1. rewrite length_take. unfold zlen in *. lia. }
  assert (zlen cs mod 256 ≤ u8_max) by (unfold u8_max; lia).
  apply decode_exact; [| |split].
  - apply Forall_app_2; [constructor; [by vm_compute|constructor]|]. apply Forall_app_2; [apply Hid|by apply put_cands_bytes].
  - unfold MAX_FRAME, u32_max, u64_max in *. lia.
  - split; [done|]. split; [by rewrite Hn|by apply Forall_take].
  - exists (concat (map put_cand (drop n cs))). cbn [encode]. rewrite !put_cands_eq, Hn. unfold as_u8.
    rewrite Z.mod_mod by done. rewrite <-!app_assoc. do 3 f_equal. rewrite <-concat_app, <-map_app. by rewrite take_drop.
Qed.

Lemma candidates_truncated_witness :
  decode (encode (Hello (replicate 32 1) (replicate 257 (V4 [127; 0; 0; 1] 80, 0)))) = ok (Hello (replicate 32 1) [(V4 [127; 0; 0; 1] 80, 0)]).
Proof.
  apply (candidates_truncated (replicate 32 1) (replicate 257 (V4 [127; 0; 0; 1] 80, 0))).
  - split; [done|]. repeat constructor; done.
  - apply Forall_replicate. split; [|by vm_compute]. repeat constructor; by vm_compute.
  - by vm_compute.
Defined.
