(* ===== verification/P2pPunch.v ===== *)
(** * P2P mesh: hole punching

    Models [crates/p2p-mesh/src/holepunch/mod.rs]: the state machine, the
    punch packet, the driver as a function of the sequence of socket and timer
    events it waits for, and the list of candidate addresses.  Sending on the
    socket is an output whose outcome the code ignores. *)

From S2P Require Import Prelude Bytes P2pProto.

(** ["PMP1"] *)
Definition PUNCH_MAGIC : list Z := [80; 77; 80; 49].
Definition PUNCH_PACKET_LEN : Z := 4 + 32.

Inductive PunchState :=
  | Idle
  | WaitCandidates
  | Punching
  | Direct (src : SocketAddr)
  | Failed.

Inductive PunchEvent :=
  | Begin
  | EvCandidates (addrs : list SocketAddr)
  | PacketFrom (src : SocketAddr)
  | Tick.

Inductive PunchAction :=
  | SendPunch (addr : SocketAddr)
  | Established (addr : SocketAddr)
  | FallbackToRelay.

Record PunchMachine := mkPunch {
  pm_state : PunchState;
  pm_peer_addrs : list SocketAddr;
  pm_attempts : Z;
  pm_max_attempts : Z
}.

Definition punch_new (max_attempts : Z) : PunchMachine := mkPunch Idle [] 0 max_attempts.

Definition set_state (s : PunchState) (m : PunchMachine) : PunchMachine :=
  mkPunch s (pm_peer_addrs m) (pm_attempts m) (pm_max_attempts m).

(** The counter of attempts is a [u32]. *)
Definition handle (ev : PunchEvent) (m : PunchMachine) : option (PunchMachine * list PunchAction) :=
  match pm_state m, ev with
  | Idle, Begin => Some (set_state WaitCandidates m, [])
  | (WaitCandidates | Punching), EvCandidates addrs =>
      Some (mkPunch Punching addrs 1 (pm_max_attempts m), SendPunch <$> addrs)
  | (WaitCandidates | Punching), PacketFrom src => Some (set_state (Direct src) m, [Established src])
  | Punching, Tick =>
      if pm_max_attempts m <=? pm_attempts m then Some (set_state Failed m, [FallbackToRelay])
      else
        a ← add_chk u32_max (pm_attempts m) 1;
        Some (mkPunch Punching (pm_peer_addrs m) a (pm_max_attempts m), SendPunch <$> pm_peer_addrs m)
  | _, _ => Some (m, [])
  end.

Definition encode_punch_packet (id : NodeId) : list Z := PUNCH_MAGIC ++ id.

Definition decode_punch_packet (buf : list Z) : option (option NodeId) :=
  if negb (zlen buf =? PUNCH_PACKET_LEN) then Some None else
  magic ← slice buf 0 4;
  if negb (bool_decide (magic = PUNCH_MAGIC)) then Some None else
  id ← slice buf 4 36;
  Some (if zlen id =? 32 then Some id else None).

(** ** The driver *)

(** What the driver waits for: a result of the socket or the timer. *)
Inductive DriveInput :=
  | RecvError
  | Recv (buf : list Z) (src : SocketAddr)
  | Ticker.

(** The packets sent so far, and how the driver stands. *)
Inductive DriveOut :=
  | Running (sent : list (list Z * SocketAddr))
  | Returned (sent : list (list Z * SocketAddr)) (direct : option SocketAddr).

(** The execution of the backlogged actions: the packets they send and the
    value returned. *)
Fixpoint run_actions (packet : list Z) (pending : list PunchAction) : list (list Z * SocketAddr) * option (option SocketAddr) :=
  match pending with
  | [] => ([], None)
  | SendPunch addr :: pending' => let '(sent, r) := run_actions packet pending' in ((packet, addr) :: sent, r)
  | Established addr :: _ => ([], Some (Some addr))
  | FallbackToRelay :: _ => ([], Some None)
  end.

Fixpoint drive_loop (packet : list Z) (peer_id : NodeId) (inputs : list DriveInput) (pending : list PunchAction)
    (m : PunchMachine) : option DriveOut :=
  let '(sent, r) := run_actions packet pending in
  match r with
  | Some direct => Some (Returned sent direct)
  | None =>
      match inputs with
      | [] => Some (Running sent)
      | i :: inputs' =>
          '(m, pending) ← match i with
            | RecvError => Some (m, [])
            | Recv buf src =>
                from ← decode_punch_packet buf;
                if bool_decide (from = Some peer_id) then handle (PacketFrom src) m else Some (m, [])
            | Ticker => handle Tick m
            end;
          o ← drive_loop packet peer_id inputs' pending m;
          Some (match o with
                | Running s => Running (sent ++ s)
                | Returned s d => Returned (sent ++ s) d
                end)
      end
  end.

Definition drive (our_id peer_id : NodeId) (peer_addrs : list SocketAddr) (max_attempts : Z)
    (inputs : list DriveInput) : option DriveOut :=
  '(m, _) ← handle Begin (punch_new max_attempts);
  '(m, actions) ← handle (EvCandidates peer_addrs) m;
  drive_loop (encode_punch_packet our_id) peer_id inputs actions m.

(** ** Candidate addresses *)

Definition LOCALHOST : list Z := [127; 0; 0; 1].

Definition push_new (ips : list (list Z)) (ip : list Z) : list (list Z) :=
  if bool_decide (ip ∈ ips) then ips else ips ++ [ip].

(** [is_loopback] and [is_unspecified] of an IPv4 address. *)
Definition usable (ip : list Z) : bool :=
  negb (bool_decide (head ip = Some 127)) && negb (bool_decide (ip = [0; 0; 0; 0])).

(** [egress] is the local address of a socket connected outwards, and
    [resolved] what the host's name resolves to; nothing where a call fails. *)
Definition local_ipv4_addrs (egress : option SocketAddr) (resolved : list SocketAddr) : list (list Z) :=
  let out := match egress with Some (V4 v4 _) => if usable v4 then [v4] else [] | _ => [] end in
  foldl (λ out a, match a with V4 v4 _ => if usable v4 then push_new out v4 else out | V6 _ _ _ _ => out end) out resolved.

Definition build_candidates (punch_port quic_port : Z) (extra_ips : list (list Z)) (observed : option SocketAddr) : Candidates :=
  let ips := foldl push_new [LOCALHOST] extra_ips in
  let ips := match observed with
             | Some (V4 v4 _) => push_new ips v4
             | _ => ips
             end in
  concat (map (λ ip, [(V4 ip punch_port, CAND_PUNCH); (V4 ip quic_port, CAND_QUIC)]) ips).

(** ** What the driver promises *)

(** The packet of the peer that counts. *)
Definition punch_from (peer_id : NodeId) (i : DriveInput) : option SocketAddr :=
  match i with
  | Recv buf src => if bool_decide (buf = encode_punch_packet peer_id) then Some src else None
  | _ => None
  end.

Definition is_ticker (i : DriveInput) : bool := match i with Ticker => true | _ => false end.

Module PunchSpec.

(** With [left] rounds still to send: the first packet of the peer opens the
    path, the tick after the last round gives up, every other tick sends a
    round. *)
Fixpoint run (round : list (list Z * SocketAddr)) (peer_id : NodeId) (inputs : list DriveInput) (left : nat) : DriveOut :=
  match inputs with
  | [] => Running []
  | i :: inputs' =>
      match punch_from peer_id i with
      | Some src => Returned [] (Some src)
      | None =>
          if is_ticker i then
            match left with
            | O => Returned [] None
            | S left' =>
                match run round peer_id inputs' left' with
                | Running s => Running (round ++ s)
                | Returned s d => Returned (round ++ s) d
                end
            end
          else run round peer_id inputs' left
      end
  end.

End PunchSpec.

Definition prepend (s : list (list Z * SocketAddr)) (o : DriveOut) : DriveOut :=
  match o with Running t => Running (s ++ t) | Returned t d => Returned (s ++ t) d end.

Lemma decode_punch_spec peer_id buf : zlen peer_id = 32 →
  ∃ from, decode_punch_packet buf = Some from ∧ (from = Some peer_id ↔ buf = encode_punch_packet peer_id).
Proof.
  intros Hid. unfold decode_punch_packet. destruct (Z.eqb_spec (zlen buf) PUNCH_PACKET_LEN) as [Hl|Hl]; cbn [negb].
  2: { eexists. split; [done|]. split; [done|]. intros ->. destruct Hl. unfold encode_punch_packet, PUNCH_PACKET_LEN.
       rewrite zlen_app, Hid. done. }
  unfold PUNCH_PACKET_LEN in Hl. rewrite <-(take_drop 4 buf).
  assert (zlen (take 4 buf) = 4) as H4 by (unfold zlen in *; rewrite length_take; lia).
  assert (zlen (drop 4 buf) = 32) as H32 by (unfold zlen in *; rewrite length_drop; lia).
  rewrite slice_head by done. cbn [mbind option_bind].
  rewrite slice_tail by (rewrite ?zlen_app; lia). cbn [mbind option_bind]. rewrite H32. cbn.
  destruct (decide (take 4 buf = PUNCH_MAGIC)) as [->|Hm].
  - rewrite bool_decide_eq_true_2 by done. cbn. eexists. split; [done|]. unfold encode_punch_packet. split.
    + by intros [= ->].
    + by intros [= ->].
  - rewrite bool_decide_eq_false_2 by done. cbn. eexists. split; [done|]. split; [done|].
    unfold encode_punch_packet. intros E. apply (app_inj_1 _ PUNCH_MAGIC) in E as [? _]; [done|]. unfold zlen in H4. cbn. lia.
Qed.

Lemma run_sends packet addrs : run_actions packet (SendPunch <$> addrs) = ((λ a, (packet, a)) <$> addrs, None).
Proof. induction addrs as [|a l IH]; [done|]. cbn [run_actions fmap list_fmap]. by rewrite IH. Qed.

Section drive.
Context (packet : list Z) (peer_id : NodeId) (addrs : list SocketAddr) (max_attempts : Z).
Hypothesis Hid : zlen peer_id = 32.
Hypothesis Hmax : is_u32 max_attempts.

Abbreviation round := ((λ a, (packet, a)) <$> addrs).

(** The machine punching after [a] rounds. *)
Definition punching (a : Z) : PunchMachine := mkPunch Punching addrs a max_attempts.

Lemma drive_loop_spec inputs : ∀ a pending, 1 ≤ a → (pending = [] ∨ pending = SendPunch <$> addrs) →
  drive_loop packet peer_id inputs pending (punching a) =
  Some (prepend (run_actions packet pending).1 (PunchSpec.run round peer_id inputs (Z.to_nat (max_attempts - a)))).
Proof.
  induction inputs as [|i inputs IH]; intros a pending Ha Hp.
  { assert ((run_actions packet pending).2 = None) as Hr by (destruct Hp as [-> | ->]; [done|by rewrite run_sends]).
    cbn [drive_loop]. destruct (run_actions packet pending) as [s r]. cbn in Hr. subst r. cbn. by rewrite app_nil_r. }
  assert ((run_actions packet pending).2 = None) as Hr by (destruct Hp as [-> | ->]; [done|by rewrite run_sends]).
  cbn [drive_loop]. destruct (run_actions packet pending) as [s r]. cbn in Hr. subst r. cbn [fst].
  destruct i as [|buf src|]; cbn [mbind option_bind PunchSpec.run punch_from is_ticker].
  - rewrite IH by (by auto). cbn [mbind option_bind run_actions fst]. by destruct (PunchSpec.run _ _ _ _).
  - destruct (decode_punch_spec peer_id buf Hid) as (from & -> & Hf). cbn [mbind option_bind].
    destruct (decide (buf = encode_punch_packet peer_id)) as [E|E].
    + rewrite (bool_decide_eq_true_2 (from = _)), (bool_decide_eq_true_2 (buf = _)) by tauto. cbn [handle punching pm_state mbind option_bind].
      destruct inputs; cbn; by rewrite ?app_nil_r.
    + rewrite (bool_decide_eq_false_2 (from = _)), (bool_decide_eq_false_2 (buf = _)) by tauto. cbn [mbind option_bind].
      rewrite IH by (by auto). cbn [mbind option_bind run_actions fst]. by destruct (PunchSpec.run _ _ _ _).
  - cbn [handle punching pm_state pm_max_attempts pm_attempts pm_peer_addrs]. destruct (Z.leb_spec max_attempts a) as [Hle|Hlt].
    + replace (Z.to_nat (max_attempts - a)) with O by lia. cbn [mbind option_bind]. destruct inputs; cbn; by rewrite ?app_nil_r.
    + rewrite add_chk_ok by (unfold is_u32 in Hmax; lia). cbn [mbind option_bind].
      change (mkPunch Punching addrs (a + 1) max_attempts) with (punching (a + 1)).
      rewrite IH by (by auto with lia). replace (Z.to_nat (max_attempts - a)) with (S (Z.to_nat (max_attempts - (a + 1)))) by lia.
      rewrite run_sends. cbn [mbind option_bind fst]. by destruct (PunchSpec.run _ _ _ _); cbn; rewrite app_assoc.
Qed.

End drive.

(** *** Facts of the specification *)

Definition sent_of (o : DriveOut) : list (list Z * SocketAddr) := match o with Running s | Returned s _ => s end.
Definition ticks (inputs : list DriveInput) : nat := length (filter (λ i, is_ticker i = true) inputs).

Lemma spec_returns round peer_id inputs left : (left < ticks inputs)%nat →
  ∃ s d, PunchSpec.run round peer_id inputs left = Returned s d.
Proof.
  revert left. induction inputs as [|i inputs IH]; intros left Hl; [cbn in Hl; lia|].
  unfold ticks in *. rewrite filter_cons in Hl. cbn [PunchSpec.run].
  destruct (punch_from peer_id i) as [src|]; [eauto|].
  destruct (is_ticker i) eqn:Ei; [|apply IH; by destruct (decide (false = true))].
  destruct left as [|left]; [eauto|]. destruct (decide (true = true)); [|done]. cbn in Hl.
  destruct (IH left) as (s & d & ->); [lia|]. eauto.
Qed.

Lemma spec_direct round peer_id inputs left s src : PunchSpec.run round peer_id inputs left = Returned s (Some src) →
  Recv (encode_punch_packet peer_id) src ∈ inputs.
Proof.
  revert left s. induction inputs as [|i inputs IH]; intros left s; cbn [PunchSpec.run]; [done|].
  destruct (punch_from peer_id i) as [src'|] eqn:Ep.
  { intros [= <- ->]. apply elem_of_cons; left. destruct i as [|buf src'|]; try done. cbn in Ep. case_bool_decide; by simplify_eq. }
  destruct (is_ticker i); [|intros H; apply elem_of_cons; right; by eapply IH].
  destruct left as [|left]; [done|]. destruct (PunchSpec.run _ _ _ _) eqn:E; [done|]. intros [= <- ->]. apply elem_of_cons; right. by eapply IH.
Qed.

Lemma spec_gives_up round peer_id inputs left s : PunchSpec.run round peer_id inputs left = Returned s None →
  (left < ticks inputs)%nat.
Proof.
  revert left s. induction inputs as [|i inputs IH]; intros left s; cbn [PunchSpec.run]; [done|].
  unfold ticks in *. rewrite filter_cons. destruct (punch_from peer_id i) as [src'|]; [done|].
  destruct (is_ticker i); [|intros H; destruct (decide (false = true)); [done|by eapply IH]].
  destruct (decide (true = true)); [|done]. destruct left as [|left]; [cbn; lia|].
  destruct (PunchSpec.run _ _ _ _) eqn:E; [done|]. intros [= <- ->]. apply IH in E. cbn. lia.
Qed.

Lemma spec_sent round peer_id inputs left : ∃ n, (n ≤ left)%nat ∧
  sent_of (PunchSpec.run round peer_id inputs left) = concat (replicate n round).
Proof.
  revert left. induction inputs as [|i inputs IH]; intros left; cbn [PunchSpec.run]; [exists O; split; [lia|done]|].
  destruct (punch_from peer_id i); [exists O; split; [lia|done]|]. destruct (is_ticker i); [|apply IH].
  destruct left as [|left]; [exists O; split; [lia|done]|]. destruct (IH left) as (n & Hn & E).
  exists (S n). split; [lia|]. cbn [replicate concat]. rewrite <-E. by destruct (PunchSpec.run _ _ _ _).
Qed.

(** No packet of the peer in [inputs]. *)
Definition quiet (peer_id : NodeId) (inputs : list DriveInput) : Prop :=
  ∀ src, Recv (encode_punch_packet peer_id) src ∉ inputs.

Lemma quiet_cons peer_id i inputs : quiet peer_id (i :: inputs) → punch_from peer_id i = None ∧ quiet peer_id inputs.
Proof.
  intros Hq. split; [|intros src Hin; apply (Hq src); by apply elem_of_cons; right].
  destruct i as [|buf src|]; cbn; [done| |done]. case_bool_decide as E; [|done].
  destruct (Hq src). rewrite E. by apply elem_of_cons; left.
Qed.

(** Before the peer's first packet and the last tick, every tick is a round. *)
Lemma spec_quiet round peer_id pre rest left : quiet peer_id pre → (ticks pre ≤ left)%nat →
  PunchSpec.run round peer_id (pre ++ rest) left =
  prepend (concat (replicate (ticks pre) round)) (PunchSpec.run round peer_id rest (left - ticks pre)).
Proof.
  revert left. induction pre as [|i pre IH]; intros left Hq Hl.
  { cbn. rewrite Nat.sub_0_r. by destruct (PunchSpec.run _ _ _ _). }
  apply quiet_cons in Hq as [Hp Hq]. cbn [app PunchSpec.run]. rewrite Hp.
  unfold ticks in *. rewrite filter_cons in *. destruct (is_ticker i).
  - destruct (decide (true = true)); [|done]. cbn [length] in *. destruct left as [|left]; [lia|].
    rewrite (IH left Hq) by lia. cbn [replicate concat Nat.sub].
    by destruct (PunchSpec.run _ _ _ _); cbn; rewrite app_assoc.
  - destruct (decide (false = true)); [done|]. by apply IH.
Qed.

Lemma drive_spec our_id peer_id addrs max_attempts inputs : zlen peer_id = 32 → is_u32 max_attempts →
  let round := (λ a, (encode_punch_packet our_id, a)) <$> addrs in
  drive our_id peer_id addrs max_attempts inputs =
  Some (prepend round (PunchSpec.run round peer_id inputs (Z.to_nat (max_attempts - 1)))).
Proof.
  intros Hid Hmax round. unfold drive, punch_new. cbn [handle set_state pm_state mbind option_bind pm_max_attempts].
  change (mkPunch Punching addrs 1 max_attempts) with (punching addrs max_attempts 1).
  rewrite drive_loop_spec by (auto; lia). by rewrite run_sends.
Qed.

(** [C36] With [R] the given number of rounds, at least one: if the peer's first
    packet comes before the [R]-th tick, punching ends there with the direct
    path at that packet's source, one round sent at the start and one at each
    tick before; otherwise it gives up at the [R]-th tick, with [R] rounds
    sent; until one of the two it goes on.  It reports a direct path only at
    an address the peer's packet came from, and sends nothing but whole rounds
    of its own packet to the candidates. *)
Theorem punch_drive_correct our_id peer_id addrs max_attempts inputs : zlen peer_id = 32 → is_u32 max_attempts →
  let R := Z.to_nat (Z.max 1 max_attempts) in
  let rounds n := concat (replicate n ((λ a, (encode_punch_packet our_id, a)) <$> addrs)) in
  ∃ o, drive our_id peer_id addrs max_attempts inputs = Some o ∧
    (∀ pre src post, inputs = pre ++ Recv (encode_punch_packet peer_id) src :: post → quiet peer_id pre →
       (ticks pre < R)%nat → o = Returned (rounds (S (ticks pre))) (Some src)) ∧
    (∀ pre post, inputs = pre ++ Ticker :: post → quiet peer_id pre → S (ticks pre) = R → o = Returned (rounds R) None) ∧
    (quiet peer_id inputs → (ticks inputs < R)%nat → o = Running (rounds (S (ticks inputs)))) ∧
    (∃ n, (1 ≤ n ≤ R)%nat ∧ sent_of o = rounds n) ∧
    match o with
    | Running _ => (ticks inputs < R)%nat
    | Returned _ (Some src) => Recv (encode_punch_packet peer_id) src ∈ inputs
    | Returned _ None => (R ≤ ticks inputs)%nat
    end.
Proof.
  intros Hid Hmax R rounds. pose proof (drive_spec our_id peer_id addrs max_attempts inputs Hid Hmax) as E. cbn zeta in E.
  set (round := (λ a, (encode_punch_packet our_id, a)) <$> addrs) in *. set (left := Z.to_nat (max_attempts - 1)) in *.
  assert (R = S left) as HR by (unfold R, left; lia). clearbody R left.
  eexists. split; [exact E|]. split_and!.
  - intros pre src post -> Hq Hl. rewrite spec_quiet by (done || lia). cbn [PunchSpec.run punch_from].
    rewrite bool_decide_true by done. cbn. by rewrite app_nil_r.
  - intros pre post -> Hq Hl. rewrite spec_quiet by (done || lia). cbn [PunchSpec.run punch_from is_ticker].
    replace (left - ticks pre)%nat with O by lia. cbn. rewrite app_nil_r, <-Hl. done.
  - intros Hq Hl. rewrite <-(app_nil_r inputs) at 1. rewrite spec_quiet by (done || lia). cbn. by rewrite app_nil_r.
  - destruct (spec_sent round peer_id inputs left) as (n & Hn & Hs). exists (S n). split; [lia|].
    unfold rounds. cbn [replicate concat]. rewrite <-Hs. by destruct (PunchSpec.run _ _ _ _).
  - destruct (PunchSpec.run round peer_id inputs left) as [s|s [src|]] eqn:Er; cbn [prepend].
    + destruct (decide (left < ticks inputs)%nat) as [Hlt|Hge]; [|lia].
      destruct (spec_returns round peer_id inputs left Hlt) as (? & ? & E'). congruence.
    + by eapply spec_direct.
    + apply spec_gives_up in Er. lia.
Qed.

(** A run that finds the path after one tick, and one that gives up; with the
    limit 0 one round is sent. *)
Lemma punch_drive_correct_witness :
  let me : NodeId := replicate 32 1 in let peer : NodeId := replicate 32 2 in
  let inputs := [Ticker; Recv [1; 2] (V4 [10; 0; 0; 9] 5); Recv (encode_punch_packet peer) (V4 [10; 0; 0; 7] 6); Ticker] in
  (∃ s, drive me peer [V4 [10; 0; 0; 7] 4] 20 inputs = Some (Returned s (Some (V4 [10; 0; 0; 7] 6))) ∧ length s = 2%nat) ∧
  (∃ s, drive me peer [V4 [10; 0; 0; 7] 4] 0 inputs = Some (Returned s None) ∧ length s = 1%nat).
Proof.
  intros me peer inputs. split.
  - destruct (punch_drive_correct me peer [V4 [10; 0; 0; 7] 4] 20 inputs) as (o & E & H & _);
      [done|by vm_compute|].
    rewrite (H [Ticker; Recv [1; 2] (V4 [10; 0; 0; 9] 5)] (V4 [10; 0; 0; 7] 6) [Ticker] eq_refl) in E.
    + eexists. split; [exact E|]. reflexivity.
    + intros src Hin. apply elem_of_cons in Hin as [Hin|Hin%list_elem_of_singleton]; discriminate Hin.
    + vm_compute. lia.
  - destruct (punch_drive_correct me peer [V4 [10; 0; 0; 7] 4] 0 inputs) as (o & E & _ & H & _);
      [done|by vm_compute|].
    rewrite (H [] [Recv [1; 2] (V4 [10; 0; 0; 9] 5); Recv (encode_punch_packet peer) (V4 [10; 0; 0; 7] 6); Ticker] eq_refl) in E.
    + eexists. split; [exact E|]. reflexivity.
    + intros src Hin. by apply not_elem_of_nil in Hin.
    + reflexivity.
Defined.

(** ** Candidates *)

Lemma elem_of_push_new ips ip x : x ∈ push_new ips ip ↔ x ∈ ips ∨ x = ip.
Proof. unfold push_new. case_bool_decide; set_solver. Qed.

Lemma NoDup_push_new ips ip : NoDup ips → NoDup (push_new ips ip).
Proof. unfold push_new. case_bool_decide; [done|]. intros H'. apply NoDup_app. split; [done|]. split; [set_solver|apply NoDup_singleton]. Qed.

Lemma push_all_spec extra : ∀ ips, NoDup ips →
  NoDup (foldl push_new ips extra) ∧ ∀ x, x ∈ foldl push_new ips extra ↔ x ∈ ips ∨ x ∈ extra.
Proof.
  induction extra as [|ip extra IH]; intros ips Hn; cbn [foldl]; [set_solver|].
  destruct (IH (push_new ips ip) (NoDup_push_new _ _ Hn)) as [H1 H2]. split; [done|]. intros x. rewrite H2, elem_of_push_new. set_solver.
Qed.

Lemma elem_of_pairs p q ips a k :
  (a, k) ∈ concat (map (λ ip, [(V4 ip p, CAND_PUNCH); (V4 ip q, CAND_QUIC)]) ips) ↔
  ∃ ip, ip ∈ ips ∧ (a = V4 ip p ∧ k = CAND_PUNCH ∨ a = V4 ip q ∧ k = CAND_QUIC).
Proof. induction ips as [|ip ips IH]; cbn [map concat]; [set_solver|]. rewrite elem_of_app, IH. set_solver. Qed.

Lemma NoDup_pairs p q ips : NoDup ips → NoDup (concat (map (λ ip, [(V4 ip p, CAND_PUNCH); (V4 ip q, CAND_QUIC)]) ips)).
Proof.
  induction 1 as [|ip ips Hip _ IH]; cbn [map concat]; [constructor|]. apply NoDup_app. split; [|split; [|done]].
  - apply NoDup_cons. split; [|apply NoDup_singleton]. intros [?|[]%not_elem_of_nil]%elem_of_cons. done.
  - intros [a k] Hx Hin. apply elem_of_pairs in Hin as (ip' & Hin & Hak). set_solver.
Qed.

(** The candidates are the loopback address, the interfaces' addresses and
    the observed address when it is IPv4, each once with the punching port and
    once with the QUIC port. *)
Theorem candidates_exact punch_port quic_port extra observed :
  NoDup (build_candidates punch_port quic_port extra observed) ∧
  ∀ a k, (a, k) ∈ build_candidates punch_port quic_port extra observed ↔
    ∃ ip, (ip = LOCALHOST ∨ ip ∈ extra ∨ ∃ port, observed = Some (V4 ip port)) ∧
      (a = V4 ip punch_port ∧ k = CAND_PUNCH ∨ a = V4 ip quic_port ∧ k = CAND_QUIC).
Proof.
  unfold build_candidates. destruct (push_all_spec extra [LOCALHOST]) as [Hn He]; [apply NoDup_singleton|].
  set (ips := foldl push_new [LOCALHOST] extra) in *.
  set (all := match observed with Some (V4 v4 _) => push_new ips v4 | _ => ips end).
  assert (NoDup all ∧ ∀ ip, ip ∈ all ↔ (ip = LOCALHOST ∨ ip ∈ extra ∨ ∃ port, observed = Some (V4 ip port))) as [Ha1 Ha2].
  { unfold all. destruct observed as [[v4 port|]|]; (split; [try done; by apply NoDup_push_new|]); intros ip; rewrite ?elem_of_push_new, He, elem_of_cons; set_solver. }
  split; [by apply NoDup_pairs|]. intros a k. rewrite elem_of_pairs. by setoid_rewrite Ha2.
Qed.

Lemma resolved_spec resolved : ∀ out, NoDup out →
  let res := foldl (λ out a, match a with V4 v4 _ => if usable v4 then push_new out v4 else out | V6 _ _ _ _ => out end) out resolved in
  NoDup res ∧ ∀ ip, ip ∈ res ↔ ip ∈ out ∨ usable ip = true ∧ ∃ port, V4 ip port ∈ resolved.
Proof.
  induction resolved as [|a l IH]; intros out Hn; [split; [done|]; intros ip; set_solver|]. cbn [foldl].
  set (out' := match a with V4 v4 _ => _ | V6 _ _ _ _ => _ end).
  assert (NoDup out' ∧ ∀ ip, ip ∈ out' ↔ ip ∈ out ∨ usable ip = true ∧ ∃ port, a = V4 ip port) as [Hn' Ho].
  { unfold out'. destruct a as [v4 port|]; [|split; [done|]; naive_solver]. destruct (usable v4) eqn:Eu.
    - split; [by apply NoDup_push_new|]. intros ip. rewrite elem_of_push_new. naive_solver.
    - split; [done|]. intros ip. split; [by left|]. intros [?|(? & ? & [= <- _])]; [done|congruence]. }
  destruct (IH out' Hn') as [H1 H2]. split; [exact H1|]. intros ip. rewrite H2, Ho. setoid_rewrite elem_of_cons. naive_solver.
Qed.

(** The addresses of the host: the usable IPv4 addresses of the outward
    socket and of the resolved name, each once; so the candidates made of
    them hold the loopback address once and no unspecified one. *)
Theorem local_addrs_exact egress resolved : let out := local_ipv4_addrs egress resolved in
  NoDup out ∧ LOCALHOST ∉ out ∧
  ∀ ip, ip ∈ out ↔ usable ip = true ∧ ((∃ port, egress = Some (V4 ip port)) ∨ ∃ port, V4 ip port ∈ resolved).
Proof.
  intros out. unfold local_ipv4_addrs in out. set (o0 := match egress with Some _ => _ | None => _ end) in out.
  assert (NoDup o0 ∧ ∀ ip, ip ∈ o0 ↔ usable ip = true ∧ ∃ port, egress = Some (V4 ip port)) as [Hn Ho].
  { unfold o0. destruct egress as [[v4 port|]|]; [destruct (usable v4) eqn:Eu|..].
    - split; [apply NoDup_singleton|]. intros ip. rewrite list_elem_of_singleton. naive_solver.
    - split; [constructor|]. intros ip. split; [by intros ?%not_elem_of_nil|]. intros (? & ? & [= <- _]). congruence.
    - split; [constructor|]. intros ip. split; [by intros ?%not_elem_of_nil|]. naive_solver.
    - split; [constructor|]. intros ip. split; [by intros ?%not_elem_of_nil|]. naive_solver. }
  destruct (resolved_spec resolved o0 Hn) as [H1 H2]. fold out in H1, H2.
  assert (∀ ip, ip ∈ out ↔ usable ip = true ∧ ((∃ port, egress = Some (V4 ip port)) ∨ ∃ port, V4 ip port ∈ resolved)) as H3
    by (intros ip; rewrite H2, Ho; naive_solver).
  split; [exact H1|]. split; [|exact H3]. rewrite H3. by intros [? _].
Qed.
