(* ===== verification/P2pPath.v ===== *)
(** * P2P mesh: path selection

    Models [crates/p2p-mesh/src/path/mod.rs]: moving averages of round-trip
    time and loss in binary64, and the choice between the direct and the relay
    path with margin, hysteresis and dwell time.  An instant is an integer
    number of nanoseconds; the clock's earliest instant, below which a
    subtraction panics, is the parameter [instant_min], which differs between
    platforms.  A duration is a number of nanoseconds. *)

From S2P Require Import Prelude F64.

Definition Duration : Type := Z.
Definition Instant : Type := Z.

Definition from_millis (ms : Z) : Duration := ms * 1000000.
Definition from_secs (s : Z) : Duration := s * 1000000000.

(** Whole seconds plus the rest in nanoseconds. *)
Definition as_secs_f64 (d : Duration) : f64 :=
  f_add (f_of_Z (d / 1000000000)) (f_div (f_of_Z (d mod 1000000000)) (f_of_Z 1000000000)).

(** An earlier [now] gives zero. *)
Definition duration_since (now earlier : Instant) : Duration := Z.max 0 (now - earlier).

Definition instant_sub (instant_min : Z) (now : Instant) (d : Duration) : option Instant :=
  if instant_min <=? now - d then Some (now - d) else None.

(** A decimal literal [n / d]: the nearest double, which the division gives. *)
Definition lit (n d : Z) : f64 := f_div (f_of_Z n) (f_of_Z d).

(** [f64::clamp]; a NaN stays. *)
Definition f_clamp (lo hi x : f64) : f64 :=
  let x := if f_ltb x lo then lo else x in
  if f_ltb hi x then hi else x.

Definition RELAY_PENALTY_MS : f64 := f_of_Z 5.
Definition LOSS_WEIGHT : f64 := f_of_Z 10.

Inductive PathKind := PDirect | PRelay.

#[export] Instance PathKind_eq_dec : EqDecision PathKind.
Proof. solve_decision. Defined.

Record PathSwitch := mkSwitch {
  sw_from : PathKind;
  sw_to : PathKind
}.

Record PathSample := mkSample {
  sa_rtt : option Duration;
  sa_loss : option f64
}.

Definition ewma_sample (v e : f64) : f64 := f_add (f_mul (lit 7 10) e) (f_mul (lit 3 10) v).

Record PathMetrics := mkMetrics {
  me_rtt_ms : option f64;
  me_loss : option f64
}.

Definition no_metrics : PathMetrics := mkMetrics None None.

Definition effective (penalty_ms : f64) (m : PathMetrics) : option f64 :=
  rtt ← me_rtt_ms m;
  let loss := match me_loss m with Some l => f_clamp (f_of_Z 0) (f_of_Z 1) l | None => f_of_Z 0 end in
  Some (f_add (f_mul rtt (f_add (f_of_Z 1) (f_mul LOSS_WEIGHT loss))) penalty_ms).

Record PathManager := mkPaths {
  pa_active : PathKind;
  pa_direct_up : bool;
  pa_relay : PathMetrics;
  pa_direct : PathMetrics;
  pa_switch_margin : f64;
  pa_min_dwell : Duration;
  pa_last_switch : Instant
}.

Definition path_new (instant_min : Z) (now : Instant) : option PathManager :=
  past ← instant_sub instant_min now (from_secs 3600);
  Some (mkPaths PRelay false no_metrics no_metrics (lit 8 10) (from_millis 500) past).

Definition path_metrics (kind : PathKind) (p : PathManager) : option f64 * option f64 :=
  let m := match kind with PDirect => pa_direct p | PRelay => pa_relay p end in
  (me_rtt_ms m, me_loss m).

Definition on_direct_up (p : PathManager) : PathManager :=
  mkPaths (pa_active p) true (pa_relay p) (pa_direct p) (pa_switch_margin p) (pa_min_dwell p) (pa_last_switch p).

Definition switch_to (to : PathKind) (now : Instant) (p : PathManager) : PathManager * PathSwitch :=
  (mkPaths to (pa_direct_up p) (pa_relay p) (pa_direct p) (pa_switch_margin p) (pa_min_dwell p) now,
   mkSwitch (pa_active p) to).

Definition switched (r : PathManager * PathSwitch) : PathManager * option PathSwitch := (r.1, Some r.2).

Definition on_direct_down (now : Instant) (p : PathManager) : PathManager * option PathSwitch :=
  let p := mkPaths (pa_active p) false (pa_relay p) no_metrics (pa_switch_margin p) (pa_min_dwell p) (pa_last_switch p) in
  match pa_active p with
  | PDirect => switched (switch_to PRelay now p)
  | PRelay => (p, None)
  end.

Definition decide_path (now : Instant) (p : PathManager) : PathManager * option PathSwitch :=
  if duration_since now (pa_last_switch p) <? pa_min_dwell p then (p, None) else
  match pa_active p with
  | PRelay =>
      if negb (pa_direct_up p) then (p, None) else
      match effective (f_of_Z 0) (pa_direct p) with
      | None => (p, None)
      | Some d =>
          let better := match effective RELAY_PENALTY_MS (pa_relay p) with
                        | Some r => f_ltb d (f_mul r (pa_switch_margin p))
                        | None => true
                        end in
          if better then switched (switch_to PDirect now p) else (p, None)
      end
  | PDirect =>
      if negb (pa_direct_up p) then switched (switch_to PRelay now p) else
      match effective (f_of_Z 0) (pa_direct p), effective RELAY_PENALTY_MS (pa_relay p) with
      | Some d, Some r => if f_ltb r (f_mul d (lit 5 10)) then switched (switch_to PRelay now p) else (p, None)
      | _, _ => (p, None)
      end
  end.

(** The update of the averages of one path. *)
Definition add_sample (s : PathSample) (m : PathMetrics) : PathMetrics :=
  let rtt := match sa_rtt s with
             | Some rtt =>
                 let ms := f_mul (as_secs_f64 rtt) (f_of_Z 1000) in
                 Some (match me_rtt_ms m with Some e => ewma_sample ms e | None => ms end)
             | None => me_rtt_ms m
             end in
  let loss := match sa_loss s with
              | Some l => Some (match me_loss m with Some e => ewma_sample l e | None => l end)
              | None => me_loss m
              end in
  mkMetrics rtt loss.

Definition on_sample (kind : PathKind) (sample : PathSample) (now : Instant) (p : PathManager) : PathManager * option PathSwitch :=
  decide_path now
    match kind with
    | PDirect => mkPaths (pa_active p) (pa_direct_up p) (pa_relay p) (add_sample sample (pa_direct p)) (pa_switch_margin p) (pa_min_dwell p) (pa_last_switch p)
    | PRelay => mkPaths (pa_active p) (pa_direct_up p) (add_sample sample (pa_relay p)) (pa_direct p) (pa_switch_margin p) (pa_min_dwell p) (pa_last_switch p)
    end.

(** ** Sequences of operations *)

Inductive PathOp :=
  | OpUp
  | OpDown (now : Instant)
  | OpSample (kind : PathKind) (sample : PathSample) (now : Instant).

Definition path_op (o : PathOp) (p : PathManager) : PathManager * option PathSwitch :=
  match o with
  | OpUp => (on_direct_up p, None)
  | OpDown now => on_direct_down now p
  | OpSample kind s now => on_sample kind s now p
  end.

(** The switches reported, each with the operation that reported it. *)
Fixpoint path_run (ops : list PathOp) (p : PathManager) : PathManager * list (PathOp * PathSwitch) :=
  match ops with
  | [] => (p, [])
  | o :: ops' =>
      let '(p, s) := path_op o p in
      let '(p, log) := path_run ops' p in
      (p, match s with Some sw => (o, sw) :: log | None => log end)
  end.

(** ** What the manager promises *)

Module PathSpec.

(** The direct link as the operations say. *)
Definition link_up (ops : list PathOp) : bool :=
  foldl (λ up o, match o with OpUp => true | OpDown _ => false | OpSample _ _ _ => up end) false ops.

(** The averages of the samples of the direct path since it was last lost. *)
Definition direct_since (ops : list PathOp) : PathMetrics :=
  foldl (λ m o, match o with OpDown _ => no_metrics | OpSample PDirect s _ => add_sample s m | _ => m end) no_metrics ops.

Definition op_time (o : PathOp) : Instant := match o with OpUp => 0 | OpDown now | OpSample _ _ now => now end.

(** Each switch leaves the path in use; one that a sample causes comes no
    sooner than the dwell time after the one before, and the loss of the link
    leads to the relay. *)
Fixpoint log_ok (cur : PathKind) (last : Instant) (log : list (PathOp * PathSwitch)) : Prop :=
  match log with
  | [] => True
  | (o, sw) :: log' =>
      sw_from sw = cur ∧ sw_to sw ≠ cur ∧
      match o with
      | OpUp => False
      | OpDown _ => sw_to sw = PRelay
      | OpSample _ _ now => from_millis 500 ≤ now - last
      end ∧ log_ok (sw_to sw) (op_time o) log'
  end.

Fixpoint in_use (cur : PathKind) (log : list (PathOp * PathSwitch)) : PathKind :=
  match log with [] => cur | (_, sw) :: log' => in_use (sw_to sw) log' end.

End PathSpec.

(** The state after some operations: link and averages as specified, the
    direct path in use only while it is up and measured. *)
Definition path_inv (up : bool) (m : PathMetrics) (p : PathManager) : Prop :=
  pa_direct_up p = up ∧ pa_direct p = m ∧ pa_min_dwell p = from_millis 500 ∧
  (pa_active p = PDirect → up = true ∧ is_Some (me_rtt_ms m)).

Definition step_up (o : PathOp) (up : bool) : bool := match o with OpUp => true | OpDown _ => false | OpSample _ _ _ => up end.
Definition step_metrics (o : PathOp) (m : PathMetrics) : PathMetrics :=
  match o with OpDown _ => no_metrics | OpSample PDirect s _ => add_sample s m | _ => m end.

(** What one operation may report. *)
Definition report_ok (o : PathOp) (p p' : PathManager) (s : option PathSwitch) : Prop :=
  match s with
  | None => pa_active p' = pa_active p ∧ pa_last_switch p' = pa_last_switch p
  | Some sw => sw_from sw = pa_active p ∧ sw_to sw ≠ pa_active p ∧ pa_active p' = sw_to sw ∧ pa_last_switch p' = PathSpec.op_time o ∧
      match o with
      | OpUp => False
      | OpDown _ => sw_to sw = PRelay
      | OpSample _ _ now => from_millis 500 ≤ now - pa_last_switch p
      end
  end.

Lemma effective_sampled pen m x : effective pen m = Some x → is_Some (me_rtt_ms m).
Proof. unfold effective. by destruct (me_rtt_ms m). Qed.

Lemma decide_path_ok now p : (pa_active p = PDirect → pa_direct_up p = true ∧ is_Some (me_rtt_ms (pa_direct p))) → pa_min_dwell p = from_millis 500 →
  let '(p', s) := decide_path now p in
  path_inv (pa_direct_up p) (pa_direct p) p' ∧
  match s with
  | None => pa_active p' = pa_active p ∧ pa_last_switch p' = pa_last_switch p
  | Some sw => sw_from sw = pa_active p ∧ sw_to sw ≠ pa_active p ∧ pa_active p' = sw_to sw ∧ pa_last_switch p' = now ∧
      from_millis 500 ≤ now - pa_last_switch p
  end.
Proof.
  intros Hact Hd. unfold decide_path, path_inv.
  destruct (Z.ltb_spec (duration_since now (pa_last_switch p)) (pa_min_dwell p)) as [|Hdw]; [done|].
  assert (from_millis 500 ≤ now - pa_last_switch p) by (unfold duration_since, from_millis in *; lia).
  destruct (pa_active p) eqn:Ea.
  - destruct (pa_direct_up p) eqn:Eu; cbn [negb]; [|by destruct Hact].
    destruct (effective _ (pa_direct p)) as [d|] eqn:Ed; [|by rewrite Ea].
    destruct (effective _ (pa_relay p)) as [r|]; [|by rewrite Ea]. destruct (f_ltb _ _); [|by rewrite Ea].
    unfold switched, switch_to. cbn. by rewrite Ea, Eu.
  - destruct (pa_direct_up p) eqn:Eu; cbn [negb]; [|by rewrite Ea].
    destruct (effective _ (pa_direct p)) as [d|] eqn:Ed; [|by rewrite Ea]. apply effective_sampled in Ed.
    destruct (match effective _ (pa_relay p) with Some _ => _ | None => true end); [|by rewrite Ea].
    unfold switched, switch_to. cbn. by rewrite Ea, Eu.
Qed.

Lemma path_op_ok o p up m : path_inv up m p →
  let '(p', s) := path_op o p in path_inv (step_up o up) (step_metrics o m) p' ∧ report_ok o p p' s.
Proof.
  intros (Hu & Hm & Hd & Ha). destruct o as [|now|kind s now]; cbn [path_op step_up step_metrics].
  - unfold path_inv. cbn. naive_solver.
  - unfold on_direct_down. cbn [pa_active]. destruct (pa_active p) eqn:Ea; unfold path_inv, report_ok; cbn; rewrite Ea; naive_solver.
  - unfold on_sample. set (q := match kind with PDirect => _ | PRelay => _ end).
    pose proof (decide_path_ok now q) as H. destruct (decide_path now q) as [p' s'].
    assert (pa_direct_up q = up ∧ pa_direct q = step_metrics (OpSample kind s now) m ∧ pa_active q = pa_active p ∧
      pa_last_switch q = pa_last_switch p ∧ pa_min_dwell q = from_millis 500) as (E1 & E2 & E3 & E4 & E5).
    { unfold q. destruct kind; cbn; subst; done. }
    rewrite E1, E2, E3, E4 in H. destruct H as [H1 H2]; [|done|].
    + intros E. destruct (Ha E) as [-> Hs]. split; [done|]. destruct kind; cbn; [|done].
      destruct (sa_rtt s); cbn; [by eexists|done].
    + split; [done|]. destruct s'; cbn; naive_solver.
Qed.

Lemma path_run_ok ops : ∀ p up m, path_inv up m p →
  let '(p', log) := path_run ops p in
  path_inv (foldl (λ u o, step_up o u) up ops) (foldl (λ m o, step_metrics o m) m ops) p' ∧
  PathSpec.log_ok (pa_active p) (pa_last_switch p) log ∧ pa_active p' = PathSpec.in_use (pa_active p) log.
Proof.
  induction ops as [|o ops IH]; intros p up m Hp; cbn [path_run foldl]; [done|].
  pose proof (path_op_ok o p up m Hp) as H. destruct (path_op o p) as [p1 s]. destruct H as [H1 H2].
  specialize (IH p1 _ _ H1). destruct (path_run ops p1) as [p' log]. destruct IH as (I1 & I2 & I3). split; [done|].
  destruct s as [sw|]; cbn in H2 |- *.
  - destruct H2 as (E1 & E2 & E3 & E4 & E5). rewrite E3 in I2, I3. rewrite E4 in I2. naive_solver.
  - destruct H2 as [E1 E2]. rewrite E1, E2 in I2. by rewrite E1 in I3.
Qed.

(** [C37] Through every sequence of samples and changes of the link: the switches
    reported form a chain that ends at the path in use, a switch for
    measurements comes no sooner than half a second after the one before, the
    loss of the link leads to the relay at once, and the direct path is in use
    only while the link is up and has been measured since it came up. *)
Theorem path_switches_sound instant_min now p ops p' log :
  path_new instant_min now = Some p → path_run ops p = (p', log) →
  PathSpec.log_ok PRelay (now - from_secs 3600) log ∧
  pa_active p' = PathSpec.in_use PRelay log ∧
  (pa_active p' = PDirect → PathSpec.link_up ops = true ∧ is_Some (me_rtt_ms (PathSpec.direct_since ops))).
Proof.
  unfold path_new, instant_sub. intros Hn Hr. destruct (Z.leb_spec instant_min (now - from_secs 3600)); [|done].
  cbn [mbind option_bind] in Hn. injection Hn as <-.
  pose proof (path_run_ok ops (mkPaths PRelay false no_metrics no_metrics (lit 8 10) (from_millis 500) (now - from_secs 3600)) false no_metrics) as H1.
  rewrite Hr in H1. destruct H1 as ((_ & _ & _ & Ha) & Hl & Hu); [by split_and!|]. split; [done|]. split; [done|].
  intros E. destruct (Ha E) as [H2 H3]. split; [exact H2|exact H3].
Qed.

Definition ex_now : Instant := from_secs 4000.
Definition ex_ops : list PathOp :=
  [OpSample PRelay (mkSample (Some (from_millis 40)) (Some (f_of_Z 0))) ex_now; OpUp;
   OpSample PDirect (mkSample (Some (from_millis 20)) (Some (f_of_Z 0))) (ex_now + from_millis 100);
   OpSample PDirect (mkSample (Some (from_millis 300)) (Some (f_of_Z 1))) (ex_now + from_millis 400);
   OpSample PDirect (mkSample (Some (from_millis 300)) (Some (f_of_Z 1))) (ex_now + from_millis 700); OpDown (ex_now + from_millis 800)].

Lemma path_switches_sound_witness : ∃ p p' log, path_new 0 ex_now = Some p ∧ path_run ex_ops p = (p', log) ∧
  log.*2 = [mkSwitch PRelay PDirect; mkSwitch PDirect PRelay] ∧ PathSpec.log_ok PRelay (ex_now - from_secs 3600) log.
Proof.
  eexists _, _, _. split; [reflexivity|]. split; [vm_compute; reflexivity|]. split; [reflexivity|].
  refine (proj1 (path_switches_sound 0 ex_now _ ex_ops _ _ eq_refl _)). vm_compute. reflexivity.
Defined.

(** Where the clock starts when the machine boots, no manager can be made in
    the first hour: the subtraction panics. *)
Theorem path_new_panics_after_boot now : path_new 0 now = None ↔ now < from_secs 3600.
Proof.
  unfold path_new, instant_sub. destruct (Z.leb_spec 0 (now - from_secs 3600)); cbn [mbind option_bind]; split; try done; lia.
Qed.
