(* ===== verification/P2pCrypto.v ===== *)
(** * P2P mesh: identities and the relay-path session

    Models [crates/p2p-mesh/src/identity/mod.rs] (less the files), [crypto.rs]
    and the binding of [gmpq.rs].  The libraries (SHA-256, Ed25519, X25519,
    ChaCha20-Poly1305) are the class [MeshPrimitives] with their documented
    laws; randomness is an argument. *)

From S2P Require Import Prelude Bytes RustStr P2pProto GmCrypto.

Class MeshPrimitives := {
  sha256 : list Z → list Z;
  SigningKey : Type;
  from_seed : list Z → SigningKey;
  verifying_key : SigningKey → list Z;
  ed_sign : SigningKey → list Z → list Z;
  ed_verify : list Z → list Z → list Z → bool;
  StaticSecret : Type;
  x_public : StaticSecret → list Z;
  x_dh : StaticSecret → list Z → list Z;
  chacha_encrypt : list Z → list Z → list Z → option (list Z);
  chacha_decrypt : list Z → list Z → list Z → option (list Z);
  zlen_sha256 m : zlen (sha256 m) = 32;
  verifying_key_ok k : zlen (verifying_key k) = 32 ∧ Forall is_byte (verifying_key k);
  zlen_ed_sign k m : zlen (ed_sign k m) = 64;
  ed_correct k m : ed_verify (verifying_key k) m (ed_sign k m) = true;
  zlen_x_public s : zlen (x_public s) = 32;
  x_agree a b : x_dh a (x_public b) = x_dh b (x_public a);
  chacha_exact k n p c : chacha_decrypt k n c = Some p ↔ chacha_encrypt k n p = Some c;
  chacha_total k n p : zlen p ≤ u32_max → is_Some (chacha_encrypt k n p);
  zlen_chacha k n p c : chacha_encrypt k n p = Some c → zlen c = zlen p + 16
}.

(** A concrete choice, for evaluation only: checksums, a key exchange that
    adds, and a cipher that masks every byte with the first of the key and
    appends a checksum. *)
Definition mask (k p : list Z) : list Z := Z.lxor (default 0 (head k)) <$> p.
Definition toy_tag (k n p : list Z) : list Z := checksum 16 (k ++ n ++ p).

Lemma mask_mask k p : mask k (mask k p) = p.
Proof.
  unfold mask. rewrite <-list_fmap_compose. rewrite <-(list_fmap_id p) at 2. apply list_fmap_ext. intros i x _. cbn.
  by rewrite <-Z.lxor_assoc, Z.lxor_nilpotent, Z.lxor_0_l.
Qed.

Lemma length_mask k p : length (mask k p) = length p.
Proof. unfold mask. apply length_fmap. Qed.

#[refine] Definition toy_mesh : MeshPrimitives := {|
  sha256 := checksum 32;
  SigningKey := Z;
  from_seed := λ s, from_be s;
  verifying_key := λ k, to_be 32 k;
  ed_sign := λ k m, checksum 64 (to_be 32 k ++ m);
  ed_verify := λ v m s, bool_decide (s = checksum 64 (v ++ m));
  StaticSecret := Z;
  x_public := λ s, to_be 32 s;
  x_dh := λ s p, to_be 32 (from_be p + s mod 256 ^ 32);
  chacha_encrypt := λ k n p, Some (mask k p ++ toy_tag k n p);
  chacha_decrypt := λ k n c, let p := mask k (take (length c - 16) c) in if bool_decide (c = mask k p ++ toy_tag k n p) then Some p else None
|}.
Proof.
  all: unfold toy_tag, checksum, zlen.
  - intros m. by rewrite length_to_be.
  - intros k. by rewrite length_to_be; split; [|apply to_be_bytes].
  - intros k m. by rewrite length_to_be.
  - intros k m. by apply bool_decide_eq_true_2.
  - intros s. by rewrite length_to_be.
  - intros a b. rewrite !from_to_be_mod. f_equal. change (Z.of_nat 32) with 32. lia.
  - intros k n p c. cbv zeta. case_bool_decide as Hc; split; intros E; simplify_eq.
    + by rewrite <-Hc.
    + f_equal. rewrite length_app, length_to_be. replace (length (mask k p) + 16 - 16)%nat with (length (mask k p)) by lia.
      by rewrite take_app_length, mask_mask.
    + destruct Hc. rewrite length_app, length_to_be. replace (length (mask k p) + 16 - 16)%nat with (length (mask k p)) by lia.
      by rewrite take_app_length, !mask_mask.
  - intros k n p _. by eexists.
  - intros k n p c [= <-]. rewrite length_app, length_mask, length_to_be. lia.
Defined.

Section mesh.
Context {MP : MeshPrimitives}.

(** ** Identities *)

Record NodeIdentity := mkIdentity { ni_sk : SigningKey }.

Definition identity_from_seed (seed : list Z) : NodeIdentity := mkIdentity (from_seed seed).
Definition node_id (me : NodeIdentity) : NodeId := verifying_key (ni_sk me).
Definition id_sign (me : NodeIdentity) (msg : list Z) : list Z := ed_sign (ni_sk me) msg.
Definition id_verify (id : NodeId) (msg sig : list Z) : bool := ed_verify id msg sig.

(** [HEX[(x >> 4)]] and [HEX[(x & 0xf)]] are the digits of [print_hex]. *)
Definition hex_encode (b : list Z) : list Z := print_hex b.
Definition to_hex (id : NodeId) : list Z := hex_encode id.
Definition short (id : NodeId) : list Z := hex_encode (take 8 (sha256 id)).

Inductive IdentityError := BadHex.

(** [None] is a panic. *)
Definition from_hex (s : list Z) : option (IdentityError + NodeId) :=
  let s := trim s in
  if negb (str_len s =? 64) then Some (inl BadHex) else
  r ← hex_loop 32 s;
  Some (match r with Some out => inr out | None => inl BadHex end).

(** ** Sessions *)

Definition HS_TAG : Z := 0x48.
Definition HS_KIND_INIT : Z := 0x01.
Definition HS_KIND_RESP : Z := 0x02.
Definition HS_MSG_LEN : Z := 2 + 32 + 64.

(** The keys stand for the ciphers made from them. *)
Record SessionCipher := mkCipher {
  sc_send : list Z;
  sc_recv : list Z;
  sc_send_ctr : Z;
  sc_recv_ctr : Z
}.

Record HsState := mkHs {
  hs_eph : StaticSecret;
  hs_peer : NodeId
}.

Inductive CryptoError := MalformedHandshake | BadInitSignature | BadRespSignature | EncryptionFailed | DecryptionFailed.

(** ["p2p-mesh/hs-init"], ["p2p-mesh/hs-resp"] and ["p2p-mesh/hs-v1"]. *)
Definition CTX_INIT : list Z := [112; 50; 112; 45; 109; 101; 115; 104; 47; 104; 115; 45; 105; 110; 105; 116].
Definition CTX_RESP : list Z := [112; 50; 112; 45; 109; 101; 115; 104; 47; 104; 115; 45; 114; 101; 115; 112].
Definition KDF_LABEL : list Z := [112; 50; 112; 45; 109; 101; 115; 104; 47; 104; 115; 45; 118; 49].

Definition sign_ctx (tag eph_pub : list Z) (from to : NodeId) : list Z := tag ++ eph_pub ++ from ++ to.

(** The slices convert to arrays of 32 and 64 bytes. *)
Definition parse_hs_msg (msg : list Z) (kind : Z) : res CryptoError (list Z * list Z) :=
  if negb (zlen msg =? HS_MSG_LEN) then err MalformedHandshake else
  t ← vget msg 0;
  if negb (t =? HS_TAG) then err MalformedHandshake else
  k ← vget msg 1;
  if negb (k =? kind) then err MalformedHandshake else
  eph_pub ← slice msg 2 34;
  sig ← slice msg 34 98;
  ok (eph_pub, sig).

Definition new_eph (rng : StaticSecret) : StaticSecret * list Z := (rng, x_public rng).

Inductive HsRole := HsInitiator | HsResponder.

Definition kdf (shared dir : list Z) (i r : NodeId) : list Z := sha256 (KDF_LABEL ++ shared ++ dir ++ i ++ r).

(** ["i2r"] and ["r2i"]. *)
Definition derive (shared : list Z) (initiator responder : NodeId) (role : HsRole) : SessionCipher :=
  let k_i2r := kdf shared [105; 50; 114] initiator responder in
  let k_r2i := kdf shared [114; 50; 105] initiator responder in
  let '(send, recv) := match role with HsInitiator => (k_i2r, k_r2i) | HsResponder => (k_r2i, k_i2r) end in
  mkCipher send recv 0 0.

Definition hs_start (rng : StaticSecret) (me : NodeIdentity) (peer : NodeId) : HsState * list Z :=
  let '(eph, eph_pub) := new_eph rng in
  let my_id := node_id me in
  let sig := id_sign me (sign_ctx CTX_INIT eph_pub my_id peer) in
  (mkHs eph peer, [HS_TAG; HS_KIND_INIT] ++ eph_pub ++ sig).

Definition hs_accept (rng : StaticSecret) (me : NodeIdentity) (peer : NodeId) (msg : list Z)
    : res CryptoError (SessionCipher * list Z) :=
  '(peer_pub, sig) ←? parse_hs_msg msg HS_KIND_INIT;
  if negb (id_verify peer (sign_ctx CTX_INIT peer_pub peer (node_id me)) sig) then err BadInitSignature else
  let '(eph, eph_pub) := new_eph rng in
  let shared := x_dh eph peer_pub in
  let cipher := derive shared peer (node_id me) HsResponder in
  let sig_r := id_sign me (sign_ctx CTX_RESP eph_pub (node_id me) peer) in
  ok (cipher, [HS_TAG; HS_KIND_RESP] ++ eph_pub ++ sig_r).

Definition hs_finish (me : NodeIdentity) (hs : HsState) (msg : list Z) : res CryptoError SessionCipher :=
  '(peer_pub, sig) ←? parse_hs_msg msg HS_KIND_RESP;
  if negb (id_verify (hs_peer hs) (sign_ctx CTX_RESP peer_pub (hs_peer hs) (node_id me)) sig) then err BadRespSignature else
  let shared := x_dh (hs_eph hs) peer_pub in
  ok (derive shared (node_id me) (hs_peer hs) HsInitiator).

Definition nonce_bytes (ctr : Z) : list Z := replicate 4 0 ++ to_be 8 ctr.

(** The counters are [u64]. *)
Definition cipher_seal (plaintext : list Z) (s : SessionCipher) : res CryptoError (SessionCipher * list Z) :=
  match chacha_encrypt (sc_send s) (nonce_bytes (sc_send_ctr s)) plaintext with
  | None => err EncryptionFailed
  | Some ct =>
      match add_chk u64_max (sc_send_ctr s) 1 with
      | None => None
      | Some n => ok (mkCipher (sc_send s) (sc_recv s) n (sc_recv_ctr s), ct)
      end
  end.

Definition cipher_open (ciphertext : list Z) (s : SessionCipher) : res CryptoError (SessionCipher * list Z) :=
  match chacha_decrypt (sc_recv s) (nonce_bytes (sc_recv_ctr s)) ciphertext with
  | None => err DecryptionFailed
  | Some pt =>
      match add_chk u64_max (sc_recv_ctr s) 1 with
      | None => None
      | Some n => ok (mkCipher (sc_send s) (sc_recv s) (sc_send_ctr s) n, pt)
      end
  end.

(** ** The binding of the GM-PQ channel *)

Context {PR : Primitives}.

(** ["BND1"] and ["p2p-mesh/gmpq-bind"]. *)
Definition BIND_PREFIX : list Z := [66; 78; 68; 49].
Definition BIND_LABEL : list Z := [112; 50; 112; 45; 109; 101; 115; 104; 47; 103; 109; 112; 113; 45; 98; 105; 110; 100].

Definition binding_msg (gm_pk : list Z) (id : NodeId) (session_id : list Z) : list Z := BIND_LABEL ++ sm3 [gm_pk] ++ id ++ session_id.

Definition sign_binding (me : NodeIdentity) (gm_pk session_id : list Z) : list Z :=
  id_sign me (binding_msg gm_pk (node_id me) session_id).

Definition verify_binding (peer : NodeId) (peer_gm_pk session_id sig : list Z) : bool :=
  id_verify peer (binding_msg peer_gm_pk peer session_id) sig.

Definition pin_fingerprint (pk : list Z) : list Z := hex_encode (sm3 [pk]).

Definition build_bind (me : NodeIdentity) (gm_pk session_id : list Z) : list Z :=
  BIND_PREFIX ++ node_id me ++ sign_binding me gm_pk session_id.

Inductive BindError := MalformedBind | WrongBindPeer | BadBindSignature.

Definition starts_with (p l : list Z) : bool := bool_decide (take (length p) l = p).

Definition parse_bind (plaintext : list Z) (expected_peer : NodeId) (peer_gm_pk session_id : list Z) : res BindError NodeId :=
  if negb (zlen plaintext =? 4 + 32 + 64) || negb (starts_with BIND_PREFIX plaintext) then err MalformedBind else
  id ← slice plaintext 4 36;
  sig ← slice plaintext 36 100;
  if negb (bool_decide (id = expected_peer)) then err WrongBindPeer else
  if negb (verify_binding id peer_gm_pk session_id sig) then err BadBindSignature else
  ok id.

End mesh.

(** ** Lemmas *)

Section facts.
Context {MP : MeshPrimitives} {PR : Primitives}.

Lemma zlen_node_id me : zlen (node_id me) = 32.
Proof. apply verifying_key_ok. Qed.

Lemma parse_hs_total msg kind : is_Some (parse_hs_msg msg kind).
Proof.
  unfold parse_hs_msg. destruct (Z.eqb_spec (zlen msg) HS_MSG_LEN) as [Hl|]; cbn [negb]; [|by eexists]. unfold HS_MSG_LEN in Hl.
  destruct msg as [|t [|k msg]]; rewrite ?zlen_cons in Hl; [done|unfold zlen in Hl; cbn in Hl; lia|].
  cbn [mbind option_bind]. change (vget (t :: k :: msg) 0) with (Some t). cbn [mbind option_bind].
  destruct (negb (t =? HS_TAG)); [by eexists|]. change (vget (t :: k :: msg) 1) with (Some k). cbn [mbind option_bind].
  destruct (negb (k =? kind)); [by eexists|]. rewrite !slice_ok by (rewrite ?zlen_cons; lia). by eexists.
Qed.

Lemma parse_hs_ok kind eph sig : zlen eph = 32 → zlen sig = 64 → parse_hs_msg ([HS_TAG; kind] ++ eph ++ sig) kind = ok (eph, sig).
Proof.
  intros He Hs. unfold parse_hs_msg. rewrite !zlen_app, He, Hs. cbn [negb]. change (zlen [HS_TAG; kind] + (32 + 64) =? HS_MSG_LEN) with true.
  cbn [negb]. change (vget ([HS_TAG; kind] ++ eph ++ sig) 0) with (Some HS_TAG). cbn [mbind option_bind]. rewrite Z.eqb_refl. cbn [negb].
  change (vget ([HS_TAG; kind] ++ eph ++ sig) 1) with (Some kind). cbn [mbind option_bind]. rewrite Z.eqb_refl. cbn [negb].
  rewrite (slice_app3 [HS_TAG; kind] eph sig 2 34) by (rewrite ?He; done). cbn [mbind option_bind].
  rewrite (app_assoc [HS_TAG; kind] eph sig), slice_tail; [done|rewrite zlen_app, He; done|rewrite !zlen_app, He, Hs; done].
Qed.

Lemma parse_hs_inv msg kind eph sig : parse_hs_msg msg kind = ok (eph, sig) →
  msg = [HS_TAG; kind] ++ eph ++ sig ∧ zlen eph = 32 ∧ zlen sig = 64.
Proof.
  unfold parse_hs_msg. destruct (Z.eqb_spec (zlen msg) HS_MSG_LEN) as [Hl|]; cbn [negb]; [|done]. unfold HS_MSG_LEN in Hl.
  intros (t & Ht & H)%bind_Some. destruct (Z.eqb_spec t HS_TAG) as [->|]; cbn [negb] in H; [|done].
  apply bind_Some in H as (k & Hk & H). destruct (Z.eqb_spec k kind) as [->|]; cbn [negb] in H; [|done].
  apply bind_Some in H as (e & He & H). apply bind_Some in H as (s & Hs & [= -> ->]).
  destruct msg as [|t' [|k' msg]]; try done. cbn in Ht, Hk. injection Ht as ->. injection Hk as ->.
  pose proof (length_slice _ _ _ _ He). pose proof (length_slice _ _ _ _ Hs).
  split; [|lia]. cbn [app]. do 2 f_equal. apply slice_Some in He as (_ & _ & ->), Hs as (_ & _ & ->).
  rewrite !zlen_cons in Hl. change (drop (Z.to_nat 2) (HS_TAG :: kind :: msg)) with msg. change (drop (Z.to_nat 34) (HS_TAG :: kind :: msg)) with (drop 32 msg).
  change (Z.to_nat (34 - 2)) with 32%nat. rewrite (take_ge (drop 32 msg)) by (rewrite length_drop; unfold zlen in Hl; lia). by rewrite take_drop.
Qed.

(** The contexts of signatures say who speaks to whom. *)
Lemma sign_ctx_inj t e f r t' e' f' r' : zlen t = 16 → zlen t' = 16 → zlen e = 32 → zlen e' = 32 → zlen f = 32 → zlen f' = 32 →
  sign_ctx t e f r = sign_ctx t' e' f' r' → t = t' ∧ e = e' ∧ f = f' ∧ r = r'.
Proof.
  unfold sign_ctx, zlen. intros ? ? ? ? ? ? E. apply app_inj_1 in E as [-> E]; [|lia]. apply app_inj_1 in E as [-> E]; [|lia].
  by apply app_inj_1 in E as [-> ->]; [|lia].
Qed.

Lemma hs_accept_total rng me peer msg : is_Some (hs_accept rng me peer msg).
Proof.
  unfold hs_accept. apply try_bind_total; [apply parse_hs_total|]. intros [pp sg] _. by destruct (negb _); eexists.
Qed.

Lemma hs_finish_total me hs msg : is_Some (hs_finish me hs msg).
Proof.
  unfold hs_finish. apply try_bind_total; [apply parse_hs_total|]. intros [pp sg] _. by destruct (negb _); eexists.
Qed.

Lemma hs_accept_inv rng me peer msg s resp : hs_accept rng me peer msg = ok (s, resp) →
  ∃ eph sig, msg = [HS_TAG; HS_KIND_INIT] ++ eph ++ sig ∧ zlen eph = 32 ∧ zlen sig = 64 ∧
    id_verify peer (sign_ctx CTX_INIT eph peer (node_id me)) sig = true ∧ s = derive (x_dh rng eph) peer (node_id me) HsResponder ∧
    resp = [HS_TAG; HS_KIND_RESP] ++ x_public rng ++ id_sign me (sign_ctx CTX_RESP (x_public rng) (node_id me) peer).
Proof.
  unfold hs_accept. intros ([eph sig] & (-> & He & Hs)%parse_hs_inv & H)%try_bind_ok.
  destruct (id_verify _ _ _) eqn:Ev; cbn [negb] in H; [|done]. cbn [new_eph] in H. injection H as <- <-. by exists eph, sig.
Qed.

Lemma hs_finish_inv me hs msg s : hs_finish me hs msg = ok s →
  ∃ eph sig, msg = [HS_TAG; HS_KIND_RESP] ++ eph ++ sig ∧ zlen eph = 32 ∧ zlen sig = 64 ∧
    id_verify (hs_peer hs) (sign_ctx CTX_RESP eph (hs_peer hs) (node_id me)) sig = true ∧
    s = derive (x_dh (hs_eph hs) eph) (node_id me) (hs_peer hs) HsInitiator.
Proof.
  unfold hs_finish. intros ([eph sig] & (-> & He & Hs)%parse_hs_inv & H)%try_bind_ok.
  destruct (id_verify _ _ _) eqn:Ev; cbn [negb] in H; [|done]. injection H as <-. by exists eph, sig.
Qed.

(** ** Agreement *)

(** What one end sends, the other can open next; and the reverse. *)
Definition mirror (a b : SessionCipher) : Prop :=
  sc_send a = sc_recv b ∧ sc_recv a = sc_send b ∧ sc_send_ctr a = sc_recv_ctr b ∧ sc_recv_ctr a = sc_send_ctr b.

Lemma accept_started ra rb a b : ∃ s resp, hs_accept rb b (node_id a) (hs_start ra a (node_id b)).2 = ok (s, resp) ∧
  s = derive (x_dh rb (x_public ra)) (node_id a) (node_id b) HsResponder ∧
  hs_finish a (hs_start ra a (node_id b)).1 resp = ok (derive (x_dh ra (x_public rb)) (node_id a) (node_id b) HsInitiator).
Proof.
  unfold hs_accept, hs_start, new_eph, hs_finish. cbn [fst snd hs_peer hs_eph].
  rewrite parse_hs_ok by (apply zlen_x_public || apply zlen_ed_sign). cbn [try_bind ok].
  unfold id_verify, id_sign, node_id. rewrite ed_correct. cbn [negb]. eexists _, _. split; [done|]. split; [done|].
  rewrite parse_hs_ok by (apply zlen_x_public || apply zlen_ed_sign). cbn [try_bind ok]. by rewrite ed_correct.
Qed.

Lemma derive_mirror k k' i r : k = k' → mirror (derive k i r HsInitiator) (derive k' i r HsResponder).
Proof. by intros ->. Qed.

Fixpoint seal_all (ms : list (list Z)) (s : SessionCipher) : res CryptoError (SessionCipher * list (list Z)) :=
  match ms with
  | [] => ok (s, [])
  | m :: ms' => '(s, c) ←? cipher_seal m s; '(s, cs) ←? seal_all ms' s; ok (s, c :: cs)
  end.

Fixpoint open_all (cs : list (list Z)) (s : SessionCipher) : res CryptoError (SessionCipher * list (list Z)) :=
  match cs with
  | [] => ok (s, [])
  | c :: cs' => '(s, m) ←? cipher_open c s; '(s, ms) ←? open_all cs' s; ok (s, m :: ms)
  end.

Lemma seal_open m a b : mirror a b → zlen m ≤ u32_max → sc_send_ctr a + 1 ≤ u64_max →
  ∃ a' b' c, cipher_seal m a = ok (a', c) ∧ cipher_open c b = ok (b', m) ∧ mirror a' b' ∧ sc_send_ctr a' = sc_send_ctr a + 1.
Proof.
  intros (H1 & H2 & H3 & H4) Hm Hc. unfold cipher_seal, cipher_open. rewrite <-H1, <-H3.
  destruct (chacha_total (sc_send a) (nonce_bytes (sc_send_ctr a)) m Hm) as [c E].
  eexists _, _, c. rewrite E, (proj2 (chacha_exact _ _ _ _) E). rewrite add_chk_ok by done. by split_and!.
Qed.

Lemma seal_open_all ms : ∀ a b, mirror a b → Forall (λ m, zlen m ≤ u32_max) ms → sc_send_ctr a + zlen ms ≤ u64_max →
  ∃ a' b' cs, seal_all ms a = ok (a', cs) ∧ open_all cs b = ok (b', ms) ∧ mirror a' b'.
Proof.
  induction ms as [|m ms IH]; intros a b Hm Hf Hc; [by exists a, b, []|].
  apply Forall_cons in Hf as [Hf1 Hf2]. rewrite zlen_cons in Hc. pose proof (zlen_nonneg ms).
  destruct (seal_open m a b Hm Hf1) as (a1 & b1 & c & E1 & E2 & Hm1 & Hc1); [lia|].
  destruct (IH a1 b1 Hm1 Hf2) as (a2 & b2 & cs & E3 & E4 & Hm2); [lia|].
  exists a2, b2, (c :: cs). cbn [seal_all open_all]. rewrite E1, E2. cbn [try_bind ok]. rewrite E3, E4. done.
Qed.

End facts.

(** Two honest nodes that run the handshake end with mirrored sessions, and
    whatever the one then sends in order the other opens in order. *)
Theorem mesh_session_end_to_end `{MeshPrimitives} ra rb (a b : NodeIdentity) ms :
  Forall (λ m, zlen m ≤ u32_max) ms → zlen ms ≤ u64_max →
  ∃ sb resp sa sa' sb' cs,
    hs_accept rb b (node_id a) (hs_start ra a (node_id b)).2 = ok (sb, resp) ∧
    hs_finish a (hs_start ra a (node_id b)).1 resp = ok sa ∧ mirror sa sb ∧
    seal_all ms sa = ok (sa', cs) ∧ open_all cs sb = ok (sb', ms) ∧ mirror sa' sb'.
Proof.
  intros Hm Hl. destruct (accept_started ra rb a b) as (sb & resp & E1 & -> & E2).
  assert (mirror (derive (x_dh ra (x_public rb)) (node_id a) (node_id b) HsInitiator) (derive (x_dh rb (x_public ra)) (node_id a) (node_id b) HsResponder)) as Hmi
    by apply derive_mirror, x_agree.
  destruct (seal_open_all ms _ _ Hmi Hm Hl) as (sa' & sb' & cs & E3 & E4 & Hmi'). by eexists _, resp, _, sa', sb', cs.
Qed.

Lemma mesh_session_end_to_end_witness :
  let a := @mkIdentity toy_mesh 5 in let b := @mkIdentity toy_mesh 9 in
  ∃ sb resp sa sa' sb' cs,
    @hs_accept toy_mesh 22 b (@node_id toy_mesh a) (@hs_start toy_mesh 11 a (@node_id toy_mesh b)).2 = ok (sb, resp) ∧
    @hs_finish toy_mesh a (@hs_start toy_mesh 11 a (@node_id toy_mesh b)).1 resp = ok sa ∧ mirror sa sb ∧
    @seal_all toy_mesh [[1; 2]; []] sa = ok (sa', cs) ∧ @open_all toy_mesh cs sb = ok (sb', [[1; 2]; []]) ∧ mirror sa' sb'.
Proof.
  intros a b. apply (@mesh_session_end_to_end toy_mesh 11 22 a b [[1; 2]; []]); [repeat constructor; by vm_compute|by vm_compute].
Defined.

(** Whatever message arrives, a side that accepts it has a signature by the
    peer over this kind of message, this ephemeral key, the peer and itself,
    and no other kind, key or party gives the same signed bytes; nothing
    panics. *)
Theorem mesh_handshake_binds_parties `{MeshPrimitives} rng (me : NodeIdentity) hs peer msg : zlen peer = 32 → zlen (hs_peer hs) = 32 →
  is_Some (hs_accept rng me peer msg) ∧ is_Some (hs_finish me hs msg) ∧
  (∀ s resp, hs_accept rng me peer msg = ok (s, resp) →
     ∃ eph sig, msg = [HS_TAG; HS_KIND_INIT] ++ eph ++ sig ∧ id_verify peer (sign_ctx CTX_INIT eph peer (node_id me)) sig = true ∧
       ∀ t e f r, zlen t = 16 → zlen e = 32 → zlen f = 32 → sign_ctx t e f r = sign_ctx CTX_INIT eph peer (node_id me) →
         t = CTX_INIT ∧ e = eph ∧ f = peer ∧ r = node_id me) ∧
  (∀ s, hs_finish me hs msg = ok s →
     ∃ eph sig, msg = [HS_TAG; HS_KIND_RESP] ++ eph ++ sig ∧ id_verify (hs_peer hs) (sign_ctx CTX_RESP eph (hs_peer hs) (node_id me)) sig = true ∧
       ∀ t e f r, zlen t = 16 → zlen e = 32 → zlen f = 32 → sign_ctx t e f r = sign_ctx CTX_RESP eph (hs_peer hs) (node_id me) →
         t = CTX_RESP ∧ e = eph ∧ f = hs_peer hs ∧ r = node_id me).
Proof.
  intros Hp Hh. split; [apply hs_accept_total|]. split; [apply hs_finish_total|]. split.
  - intros s resp (eph & sig & -> & He & _ & Hv & _)%hs_accept_inv. exists eph, sig. split; [done|]. split; [done|].
    intros t e f r Ht Hel Hf. by apply sign_ctx_inj.
  - intros s (eph & sig & -> & He & _ & Hv & _)%hs_finish_inv. exists eph, sig. split; [done|]. split; [done|].
    intros t e f r Ht Hel Hf. by apply sign_ctx_inj.
Qed.

Lemma mesh_handshake_binds_parties_witness :
  let a := @mkIdentity toy_mesh 5 in let b := @mkIdentity toy_mesh 9 in
  is_Some (@hs_accept toy_mesh 22 b (@node_id toy_mesh a) (@hs_start toy_mesh 11 a (@node_id toy_mesh b)).2) ∧
  is_Some (@hs_finish toy_mesh b (@mkHs toy_mesh 3 (@node_id toy_mesh a)) [1]).
Proof.
  intros a b. split.
  - refine (proj1 (@mesh_handshake_binds_parties toy_mesh 22 b (@mkHs toy_mesh 3 (@node_id toy_mesh a)) (@node_id toy_mesh a) _ _ _)); reflexivity.
  - refine (proj1 (proj2 (@mesh_handshake_binds_parties toy_mesh 22 b (@mkHs toy_mesh 3 (@node_id toy_mesh a)) (@node_id toy_mesh a) [1] _ _))); reflexivity.
Defined.

(** The binding of the GM-PQ channel: what an honest peer builds is accepted,
    whatever bytes arrive nothing panics, and what is accepted is the expected
    node's signature over its GM key's fingerprint, its own identifier and
    this very session; bytes signed for another node or session differ. *)
Theorem bind_exact `{MeshPrimitives} `{Primitives} (b : NodeIdentity) pk sid peer pt : zlen peer = 32 →
  parse_bind (build_bind b pk sid) (node_id b) pk sid = ok (node_id b) ∧
  is_Some (parse_bind pt peer pk sid) ∧
  ∀ id, parse_bind pt peer pk sid = ok id →
    id = peer ∧ ∃ sig, pt = BIND_PREFIX ++ peer ++ sig ∧ id_verify peer (binding_msg pk peer sid) sig = true ∧
    ∀ pk' id' sid', zlen id' = 32 → binding_msg pk' id' sid' = binding_msg pk peer sid →
      id' = peer ∧ sid' = sid ∧ (pk' = pk ∨ sm3_collision pk' pk).
Proof.
  intros Hp. split; [|split].
  - unfold parse_bind, build_bind. assert (zlen (sign_binding b pk sid) = 64) as Hs by apply zlen_ed_sign. pose proof (zlen_node_id b) as Hn.
    rewrite !zlen_app, Hs, Hn. cbn [negb orb].
    rewrite (slice_app3 BIND_PREFIX (node_id b) (sign_binding b pk sid) 4 36) by (rewrite ?Hn; done). cbn [mbind option_bind].
    rewrite (app_assoc BIND_PREFIX), (slice_tail (BIND_PREFIX ++ node_id b)) by (rewrite !zlen_app, ?Hs, Hn; done). cbn [mbind option_bind].
    rewrite bool_decide_eq_true_2 by done. cbn [negb]. unfold verify_binding, sign_binding, id_verify, id_sign, node_id. by rewrite ed_correct.
  - unfold parse_bind. destruct (negb (zlen pt =? 4 + 32 + 64) || _) eqn:E; [by eexists|].
    apply orb_false_iff in E as [E%negb_false_iff%Z.eqb_eq _]. rewrite !slice_ok by lia. cbn [mbind option_bind].
    destruct (negb (bool_decide _)); [by eexists|]. destruct (negb _); by eexists.
  - intros id. unfold parse_bind. destruct (negb (zlen pt =? 4 + 32 + 64) || _) eqn:E; [done|].
    apply orb_false_iff in E as [E%negb_false_iff%Z.eqb_eq Hst%negb_false_iff%bool_decide_eq_true].
    intros (i & Hi & H1)%bind_Some. apply bind_Some in H1 as (sig & Hs & H1).
    case_bool_decide as Hip; cbn [negb] in H1; [subst i|done]. destruct (verify_binding _ _ _ _) eqn:Ev; cbn [negb] in H1; [|done].
    injection H1 as <-. split; [done|]. exists sig. split; [|split; [done|]].
    + change (length BIND_PREFIX) with 4%nat in Hst. apply slice_Some in Hi as (_ & _ & ->), Hs as (_ & _ & ->).
      rewrite <-Hst at 1. change (Z.to_nat 4) with 4%nat. change (Z.to_nat (36 - 4)) with 32%nat. change (Z.to_nat 36) with (4 + 32)%nat.
      rewrite (take_ge (drop (4 + 32) pt)) by (rewrite length_drop; unfold zlen in E; lia). rewrite <-drop_drop, take_drop. by rewrite take_drop.
    + intros pk' id' sid' Hi' Eb. unfold binding_msg in Eb. apply app_inv_head in Eb.
      apply app_inj_1 in Eb as [E1 Eb]; [|pose proof (zlen_hash [pk]); pose proof (zlen_hash [pk']); unfold zlen in *; lia].
      apply app_inj_1 in Eb as [-> ->]; [|unfold zlen in *; lia]. split; [done|]. split; [done|].
      unfold sm3 in E1. cbn [concat] in E1. rewrite !app_nil_r in E1. destruct (decide (pk' = pk)); [by left|right; by split].
Qed.

Lemma bind_exact_witness :
  let b := @mkIdentity toy_mesh 9 in
  @parse_bind toy_mesh toy_primitives (@build_bind toy_mesh toy_primitives b [7] (replicate 32 1)) (@node_id toy_mesh b) [7] (replicate 32 1) = ok (@node_id toy_mesh b).
Proof.
  intros b. refine (proj1 (@bind_exact toy_mesh toy_primitives b [7] (replicate 32 1) (@node_id toy_mesh b) [] _)). reflexivity.
Defined.

Lemma word_trim s : word s → trim s = s.
Proof.
  intros Hw. unfold trim. pose proof (drop_ws_word s [] Hw) as H1. rewrite app_nil_r in H1. rewrite H1.
  pose proof (drop_ws_word (reverse s) [] (word_reverse s Hw)) as H2. rewrite app_nil_r in H2. by rewrite H2, reverse_involutive.
Qed.

(** An identifier is read back from its hexadecimal form; 64 bytes with a
    character of several bytes at an odd place panic. *)
Theorem node_id_hex (id : NodeId) : wf_id id →
  from_hex (to_hex id) = Some (inr id) ∧ from_hex ([97; 233] ++ replicate 61 97) = None.
Proof.
  intros [Hl Hb]. split; [|vm_compute; reflexivity]. unfold from_hex, to_hex, hex_encode.
  destruct (print_hex_facts id Hb) as (_ & _ & Hlen & _). rewrite word_trim by by apply hex_word.
  rewrite Hlen, Hl. change (negb (2 * 32 =? 64)) with false. cbv iota.
  assert (length id = 32%nat) as Hl' by (unfold zlen in Hl; lia). rewrite <-Hl', hex_loop_print by done. done.
Qed.

Lemma node_id_hex_witness : from_hex (to_hex (replicate 32 171)) = Some (inr (replicate 32 171)).
Proof. apply (node_id_hex (replicate 32 171)). split; [done|]. apply Forall_replicate. by vm_compute. Defined.
