(* ===== verification/P2pRelay.v ===== *)
(** * P2P mesh: the relay

    Models [crates/p2p-mesh/src/relay/server.rs] and [client.rs]: the sessions
    and counters behind their lock, the handler of a connection with a program
    point before every critical section and every send, the writer task with
    its bounded channel, and the client's registration.  The bytes a client
    sends are a stream that is read with the frame reader of [P2pProto].  The
    steps of the connections interleave at will; a send waits while the
    channel is full.  [cn_read] and [rl_history] record what happened and are
    read by no step. *)

From S2P Require Import Prelude Bytes RustStr P2pProto P2pCrypto.

(** ** State *)

Record NodeTraffic := mkTraffic {
  up_bytes : Z;
  down_bytes : Z;
  relayed_msgs : Z
}.

Definition no_traffic : NodeTraffic := mkTraffic 0 0 0.

(** A sending end is the number of its connection. *)
Record Session := mkSession {
  ses_tx : nat;
  ses_cands : Candidates
}.

Record ServerState := mkServer {
  sessions : gmap NodeId Session;
  stats : gmap NodeId NodeTraffic
}.

(** Where a handler stands. *)
Inductive Pc :=
  | PcFirst
  | PcRegistered
  | PcLoop
  | PcRelay (to : NodeId) (ttx : nat) (payload : list Z)
  | PcClosing
  | PcDone.

Record Conn := mkConn {
  cn_rd : NetIn;
  cn_peer_addr : option SocketAddr;
  cn_me : option NodeId;
  cn_pc : Pc;
  cn_pending : list (nat * Frame);
  cn_read : list Frame
}.

(** The channel of a connection, what its writer has written, and whether a
    write has failed. *)
Record Mailbox := mkMailbox {
  mb_queue : list Frame;
  mb_wire : list Frame;
  mb_broken : bool
}.

Record Relay := mkRelay {
  rl_state : ServerState;
  rl_conns : gmap nat Conn;
  rl_boxes : gmap nat Mailbox;
  rl_history : list (NodeId * NodeId * list Z)
}.

Definition CHANNEL_CAPACITY : nat := 256.

Definition server_default : ServerState := mkServer ∅ ∅.
Definition relay_new : Relay := mkRelay server_default ∅ ∅ [].

(** ** The text of the statistics *)

Section server.
Context {HO : HashOrder NodeId NodeTraffic}.
Context {MP : MeshPrimitives}.

(** ["{} up={}B down={}B msgs={}\n"] *)
Definition stats_line (e : NodeId * NodeTraffic) : list Z :=
  let '(id, t) := e in
  short id ++ [32; 117; 112; 61] ++ dec_u64 (up_bytes t) ++ [66; 32; 100; 111; 119; 110; 61] ++ dec_u64 (down_bytes t) ++
  [66; 32; 109; 115; 103; 115; 61] ++ dec_u64 (relayed_msgs t) ++ [10].

Definition stats_report (st : ServerState) : list Z := concat (map stats_line (hm_iter (stats st))).

(** ["first frame must be Hello"], ["target is not online"] and ["recipient
    is not online"]. *)
Definition MSG_FIRST : list Z :=
  [102; 105; 114; 115; 116; 32; 102; 114; 97; 109; 101; 32; 109; 117; 115; 116; 32; 98; 101; 32; 72; 101; 108; 108; 111].
Definition MSG_TARGET : list Z :=
  [116; 97; 114; 103; 101; 116; 32; 105; 115; 32; 110; 111; 116; 32; 111; 110; 108; 105; 110; 101].
Definition MSG_RECIPIENT : list Z :=
  [114; 101; 99; 105; 112; 105; 101; 110; 116; 32; 105; 115; 32; 110; 111; 116; 32; 111; 110; 108; 105; 110; 101].

(** ** The handler of a connection *)

Definition at_pc (pc : Pc) (pending : list (nat * Frame)) (c : Conn) : Conn :=
  mkConn (cn_rd c) (cn_peer_addr c) (cn_me c) pc pending (cn_read c).

(** After a frame has been read. *)
Definition having_read (rd : NetIn) (f : Frame) (c : Conn) : Conn :=
  mkConn rd (cn_peer_addr c) (cn_me c) (cn_pc c) (cn_pending c) (cn_read c ++ [f]).

Definition with_me (id : NodeId) (c : Conn) : Conn :=
  mkConn (cn_rd c) (cn_peer_addr c) (Some id) (cn_pc c) (cn_pending c) (cn_read c).

Definition default_stats (id : NodeId) (st : ServerState) : ServerState :=
  match stats st !! id with
  | Some _ => st
  | None => mkServer (sessions st) (<[id := no_traffic]> (stats st))
  end.

(** The first frame, read by connection [i]. *)
Definition first_frame (i : nat) (c : Conn) (st : ServerState) : option (Conn * ServerState) :=
  '(x, rd) ← read_frame (cn_rd c);
  match x with
  | inl _ => Some (at_pc PcDone [] c, st)
  | inr (Some (Hello node_id cands)) =>
      Some (at_pc PcRegistered [] (with_me node_id (having_read rd (Hello node_id cands) c)),
            mkServer (<[node_id := mkSession i cands]> (sessions st)) (stats st))
  | inr _ => Some (at_pc PcDone [(i, FError MSG_FIRST)] c, st)
  end.

(** The counters of a message forwarded, under one lock. *)
Definition count_relayed (me to : NodeId) (n : Z) (st : ServerState) : option ServerState :=
  let st := default_stats me st in
  up ← stats st !! me;
  u ← add_chk u64_max (up_bytes up) n;
  m ← add_chk u64_max (relayed_msgs up) 1;
  let st := default_stats to (mkServer (sessions st) (<[me := mkTraffic u (down_bytes up) m]> (stats st))) in
  down ← stats st !! to;
  d ← add_chk u64_max (down_bytes down) n;
  Some (mkServer (sessions st) (<[to := mkTraffic (up_bytes down) d (relayed_msgs down)]> (stats st))).

(** One frame of the main loop. *)
Definition loop_frame (i : nat) (me : NodeId) (f : Frame) (c : Conn) (st : ServerState) : Conn * ServerState :=
  match f with
  | Hello node_id cands =>
      if bool_decide (node_id = me) then
        (c, match sessions st !! me with
            | Some s => mkServer (<[me := mkSession (ses_tx s) cands]> (sessions st)) (stats st)
            | None => st
            end)
      else (c, st)
  | PunchRequest target =>
      let my_cands := match sessions st !! me with Some s => ses_cands s | None => [] end in
      match sessions st !! target with
      | Some tgt => (at_pc PcLoop [(i, Exchange target (ses_cands tgt)); (ses_tx tgt, Exchange me my_cands)] c, st)
      | None => (at_pc PcLoop [(i, FError MSG_TARGET)] c, st)
      end
  | RelayData to _ payload =>
      match sessions st !! to with
      | Some tgt => (at_pc (PcRelay to (ses_tx tgt) payload) [] c, st)
      | None => (at_pc PcLoop [(i, FError MSG_RECIPIENT)] c, st)
      end
  | StatsQuery => (at_pc PcLoop [(i, StatsReport (stats_report st))] c, st)
  | _ => (c, st)
  end.

Definition loop_read (i : nat) (me : NodeId) (c : Conn) (st : ServerState) : option (Conn * ServerState) :=
  '(x, rd) ← read_frame (cn_rd c);
  match x with
  | inl _ => Some (at_pc PcDone [] c, st)
  | inr None => Some (at_pc PcClosing [] c, st)
  | inr (Some f) => Some (loop_frame i me f (having_read rd f c) st)
  end.

Definition UNSPECIFIED : SocketAddr := V4 [0; 0; 0; 0] 0.

(** The next step of connection [i] with nothing left to send: the handler
    and the lock it takes.  The last component is what is forwarded. *)
Definition handler_step (i : nat) (c : Conn) (st : ServerState)
    : option (Conn * ServerState * list (NodeId * NodeId * list Z)) :=
  match cn_pc c, cn_me c with
  | PcFirst, _ => '(c, st) ← first_frame i c st; Some (c, st, [])
  | PcRegistered, Some me =>
      Some (at_pc PcLoop [(i, HelloAck (default UNSPECIFIED (cn_peer_addr c)))] c, default_stats me st, [])
  | PcLoop, Some me => '(c, st) ← loop_read i me c st; Some (c, st, [])
  | PcRelay to ttx payload, Some me =>
      st ← count_relayed me to (zlen payload) st;
      Some (at_pc PcLoop [(ttx, RelayData to me payload)] c, st, [(me, to, payload)])
  | PcClosing, Some me => Some (at_pc PcDone [] c, mkServer (delete me (sessions st)) (stats st), [])
  | _, _ => Some (c, st, [])
  end.

(** ** The relay *)

Inductive RelayEv :=
  | Accept (i : nat) (rd : NetIn) (peer : option SocketAddr)
  | Run (i : nat)
  | WriteOut (i : nat) (fails : bool).

(** [tx.send(f)]: it waits while the channel is full, and has no effect once
    the receiver is gone. *)
Definition box_send (f : Frame) (b : Mailbox) : option Mailbox :=
  if mb_broken b then Some b
  else if bool_decide (length (mb_queue b) < CHANNEL_CAPACITY)%nat then Some (mkMailbox (mb_queue b ++ [f]) (mb_wire b) false)
  else None.

(** The writer task of a connection takes a frame and writes it. *)
Definition box_write (fails : bool) (b : Mailbox) : Mailbox :=
  match mb_queue b with
  | [] => b
  | f :: q => if fails then mkMailbox [] (mb_wire b) true else mkMailbox q (mb_wire b ++ [f]) (mb_broken b)
  end.

(** A step that cannot be taken leaves the state; [None] is a panic. *)
Definition relay_step (ev : RelayEv) (r : Relay) : option Relay :=
  match ev with
  | Accept i rd peer =>
      Some (match rl_conns r !! i with
            | Some _ => r
            | None => mkRelay (rl_state r) (<[i := mkConn rd peer None PcFirst [] []]> (rl_conns r))
                        (<[i := mkMailbox [] [] false]> (rl_boxes r)) (rl_history r)
            end)
  | Run i =>
      match rl_conns r !! i with
      | None => Some r
      | Some c =>
          match cn_pending c with
          | (t, f) :: rest =>
              Some (match rl_boxes r !! t with
                    | None => r
                    | Some b =>
                        match box_send f b with
                        | None => r
                        | Some b' => mkRelay (rl_state r) (<[i := at_pc (cn_pc c) rest c]> (rl_conns r)) (<[t := b']> (rl_boxes r)) (rl_history r)
                        end
                    end)
          | [] =>
              '(c', st, h) ← handler_step i c (rl_state r);
              Some (mkRelay st (<[i := c']> (rl_conns r)) (rl_boxes r) (rl_history r ++ h))
          end
      end
  | WriteOut i fails =>
      Some (match rl_boxes r !! i with
            | Some b => mkRelay (rl_state r) (rl_conns r) (<[i := box_write fails b]> (rl_boxes r)) (rl_history r)
            | None => r
            end)
  end.

Fixpoint relay_run (evs : list RelayEv) (r : Relay) : option Relay :=
  match evs with [] => Some r | ev :: evs' => r ← relay_step ev r; relay_run evs' r end.

End server.

(** ** The client *)

Inductive ConnectError := CeIo (e : IoError) | CeRefused (msg : list Z) | CeUnexpected (got : option Frame).

(** The outgoing side of a connection: it takes everything, or fails after so
    many more bytes.  A write yields the bytes that went out, the room left and
    whether it succeeded. *)
Definition net_write (bytes : list Z) (room : option nat) : list Z * option nat * bool :=
  match room with
  | None => (bytes, None, true)
  | Some n => if (length bytes <=? n)%nat then (bytes, Some (n - length bytes)%nat, true) else (take n bytes, Some 0%nat, false)
  end.

(** [RelayClient::connect]: what is written and what the answer makes of it;
    [None] is a panic. *)
Definition client_connect (node_id : NodeId) (cands : Candidates) (room : option nat) (rd : NetIn)
    : option (list Z * (ConnectError + SocketAddr) * option nat * NetIn) :=
  let '(written, room, sent) := net_write (write_frame (Hello node_id cands)) room in
  if negb sent then Some (written, inl (CeIo OtherIo), room, rd) else
  '(x, rd) ← read_frame rd;
  Some (written,
    match x with
    | inl e => inl (CeIo e)
    | inr (Some (HelloAck observed)) => inr observed
    | inr (Some (FError msg)) => inl (CeRefused msg)
    | inr other => inl (CeUnexpected other)
    end, room, rd).

(** A second registration. *)
Definition update_addrs (node_id : NodeId) (cands : Candidates) (room : option nat) : list Z * option nat * bool :=
  net_write (write_frame (Hello node_id cands)) room.

(** The frames the client's other methods write. *)
Definition punch_request (target : NodeId) : list Z := write_frame (PunchRequest target).
Definition send_data (node_id to : NodeId) (payload : list Z) : list Z := write_frame (RelayData to node_id payload).
Definition stats_query : list Z := write_frame StatsQuery.

(** What goes out of [bytes] with that much room. *)
Definition within (room : option nat) (bytes : list Z) : list Z :=
  match room with None => bytes | Some n => take n bytes end.

Lemma net_write_within bytes room : (net_write bytes room).1.1 = within room bytes.
Proof.
  unfold net_write, within. destruct room as [n|]; [|done]. destruct (Nat.leb_spec (length bytes) n); [|done].
  by rewrite take_ge.
Qed.

Lemma net_write_then a b room room' w : net_write a room = (w, room', true) →
  w = a ∧ within room (a ++ b) = a ++ within room' b.
Proof.
  unfold net_write, within. destruct room as [n|]; [|by intros [= <- <-]].
  destruct (Nat.leb_spec (length a) n) as [Hn|Hn]; [|done]. intros [= <- <-]. split; [done|].
  by rewrite take_app_ge.
Qed.

(** ** What the relay promises *)

(** Connection [t] has registered as [id]. *)
Definition registered (conns : gmap nat Conn) (t : nat) (id : NodeId) : Prop :=
  ∃ c, conns !! t = Some c ∧ cn_me c = Some id.

(** Some connection registered as [id] has sent the frame [f]. *)
Definition has_sent (conns : gmap nat Conn) (id : NodeId) (f : Frame) : Prop :=
  ∃ i c, conns !! i = Some c ∧ cn_me c = Some id ∧ f ∈ cn_read c.

(** A frame that may be on its way to connection [t]. *)
Definition authentic (conns : gmap nat Conn) (t : nat) (f : Frame) : Prop :=
  match f with
  | RelayData to from payload => registered conns t to ∧ ∃ claimed, has_sent conns from (RelayData to claimed payload)
  | Exchange peer cands => cands = [] ∨ has_sent conns peer (Hello peer cands)
  | _ => True
  end.

(** The traffic that the messages forwarded amount to. *)
Definition bytes_of (p : NodeId * NodeId * list Z → bool) (h : list (NodeId * NodeId * list Z)) : Z :=
  foldr (λ e n, if p e then zlen e.2 + n else n) 0 h.
Definition count_of (p : NodeId * NodeId * list Z → bool) (h : list (NodeId * NodeId * list Z)) : Z :=
  foldr (λ e n, if p e then 1 + n else n) 0 h.
Definition sent_by (id : NodeId) (e : NodeId * NodeId * list Z) : bool := bool_decide (e.1.1 = id).
Definition sent_to (id : NodeId) (e : NodeId * NodeId * list Z) : bool := bool_decide (e.1.2 = id).

Definition traffic_of (id : NodeId) (h : list (NodeId * NodeId * list Z)) : NodeTraffic :=
  mkTraffic (bytes_of (sent_by id) h) (bytes_of (sent_to id) h) (count_of (sent_by id) h).

(** The counters have room for one more message. *)
Definition room (h : list (NodeId * NodeId * list Z)) : Prop :=
  bytes_of (λ _, true) h + MAX_FRAME ≤ u64_max ∧ count_of (λ _, true) h + 1 ≤ u64_max.

Section relay_inv.
Context {HO : HashOrder NodeId NodeTraffic} {MP : MeshPrimitives}.

(** Connections keep their identity and their record grows. *)
Definition conns_grow (m m' : gmap nat Conn) : Prop :=
  ∀ i c, m !! i = Some c → ∃ c', m' !! i = Some c' ∧ (∀ id, cn_me c = Some id → cn_me c' = Some id) ∧ (∀ f, f ∈ cn_read c → f ∈ cn_read c').

Lemma registered_grow m m' t id : conns_grow m m' → registered m t id → registered m' t id.
Proof. intros Hg (c & Hc & Hm). destruct (Hg _ _ Hc) as (c' & ? & Hm' & _). exists c'. auto. Qed.

Lemma has_sent_grow m m' id f : conns_grow m m' → has_sent m id f → has_sent m' id f.
Proof. intros Hg (i & c & Hc & Hm & Hf). destruct (Hg _ _ Hc) as (c' & ? & ? & ?). exists i, c'. auto. Qed.

Lemma authentic_grow m m' t f : conns_grow m m' → authentic m t f → authentic m' t f.
Proof.
  intros Hg. destruct f; cbn; try done.
  - intros [->|?]; [by left|right; by eapply has_sent_grow].
  - intros (? & cl & ?). split; [by eapply registered_grow|]. exists cl. by eapply has_sent_grow.
Qed.

Lemma conns_grow_refl m : conns_grow m m.
Proof. intros i c Hc. eauto. Qed.

Lemma conns_grow_insert m i c c' : m !! i = Some c → (∀ id, cn_me c = Some id → cn_me c' = Some id) → (∀ f, f ∈ cn_read c → f ∈ cn_read c') →
  conns_grow m (<[i := c']> m).
Proof.
  intros Hi H1 H2 j d Hd. destruct (decide (j = i)) as [->|Hne].
  - rewrite lookup_insert_eq. exists c'. split; [done|]. rewrite Hi in Hd. injection Hd as <-. auto.
  - rewrite lookup_insert_ne by done. eauto.
Qed.

(** The state of the handler of connection [i]. *)
Definition conn_ok (conns : gmap nat Conn) (c : Conn) : Prop :=
  (match cn_pc c with PcFirst | PcDone => True | _ => is_Some (cn_me c) end) ∧
  (cn_pc c = PcFirst → cn_me c = None) ∧
  Forall (λ '(t, f), authentic conns t f) (cn_pending c) ∧
  Forall is_byte (ni_data (cn_rd c)) ∧
  match cn_pc c with
  | PcRelay to ttx payload =>
      registered conns ttx to ∧ zlen payload ≤ MAX_FRAME ∧ ∃ claimed, RelayData to claimed payload ∈ cn_read c
  | _ => True
  end.

Definition session_ok (conns : gmap nat Conn) (id : NodeId) (s : Session) : Prop :=
  registered conns (ses_tx s) id ∧ has_sent conns id (Hello id (ses_cands s)).

Record relay_inv (r : Relay) : Prop := {
  ri_sessions id s : sessions (rl_state r) !! id = Some s → session_ok (rl_conns r) id s;
  ri_conns i c : rl_conns r !! i = Some c → conn_ok (rl_conns r) c;
  ri_boxes t b : rl_boxes r !! t = Some b → Forall (authentic (rl_conns r) t) (mb_queue b ++ mb_wire b);
  ri_history : Forall (λ '(from, to, payload), ∃ claimed, has_sent (rl_conns r) from (RelayData to claimed payload)) (rl_history r);
  ri_stats id : default no_traffic (stats (rl_state r) !! id) = traffic_of id (rl_history r)
}.

Lemma conn_ok_grow m m' c : conns_grow m m' → conn_ok m c → conn_ok m' c.
Proof.
  intros Hg (H1 & H2 & H3 & H4 & H5). split; [done|]. split; [done|]. split; [|split; [done|]].
  - eapply Forall_impl; [exact H3|]. intros [t f] Hf. by eapply authentic_grow.
  - destruct (cn_pc c); try done. destruct H5 as (? & ? & ?). split; [by eapply registered_grow|done].
Qed.

Lemma session_ok_grow m m' id s : conns_grow m m' → session_ok m id s → session_ok m' id s.
Proof. intros Hg [? ?]. split; [by eapply registered_grow|by eapply has_sent_grow]. Qed.

(** The parts of the invariant that growth preserves. *)
Lemma relay_inv_conns r m' : relay_inv r → conns_grow (rl_conns r) m' → (∀ i c, m' !! i = Some c → conn_ok m' c) →
  relay_inv (mkRelay (rl_state r) m' (rl_boxes r) (rl_history r)).
Proof.
  intros [H1 H2 H3 H4 H5] Hg Hc. split; cbn; [|done| | |done].
  - intros id s Hs. eapply session_ok_grow; eauto.
  - intros t b Hb. eapply Forall_impl; [by apply H3|]. intros f Hf. by eapply authentic_grow.
  - eapply Forall_impl; [exact H4|]. intros [[from to] p] [cl Hcl]. exists cl. by eapply has_sent_grow.
Qed.

(** *** The counters *)

Lemma bytes_of_snoc p h e : bytes_of p (h ++ [e]) = bytes_of p h + (if p e then zlen e.2 else 0).
Proof. unfold bytes_of. induction h as [|x h IH]; cbn; [destruct (p e); lia|]. destruct (p x); rewrite IH; lia. Qed.

Lemma count_of_snoc p h e : count_of p (h ++ [e]) = count_of p h + (if p e then 1 else 0).
Proof. unfold count_of. induction h as [|x h IH]; cbn; [destruct (p e); lia|]. destruct (p x); rewrite IH; lia. Qed.

Lemma bytes_of_le p h : 0 ≤ bytes_of p h ≤ bytes_of (λ _, true) h.
Proof. unfold bytes_of. induction h as [|x h IH]; cbn; [lia|]. pose proof (zlen_nonneg x.2). destruct (p x); lia. Qed.

Lemma count_of_le p h : 0 ≤ count_of p h ≤ count_of (λ _, true) h.
Proof. unfold count_of. induction h as [|x h IH]; cbn; [lia|]. destruct (p x); lia. Qed.

Lemma default_stats_spec id st :
  sessions (default_stats id st) = sessions st ∧ stats (default_stats id st) !! id = Some (default no_traffic (stats st !! id)) ∧
  ∀ id', default no_traffic (stats (default_stats id st) !! id') = default no_traffic (stats st !! id').
Proof.
  unfold default_stats. destruct (stats st !! id) as [t|] eqn:E; [by rewrite E|]. cbn. split; [done|]. rewrite lookup_insert_eq. split; [done|].
  intros id'. destruct (decide (id' = id)) as [->|]; [by rewrite lookup_insert_eq, E|by rewrite lookup_insert_ne].
Qed.

Lemma count_relayed_inv me to p st st' h : (∀ id, default no_traffic (stats st !! id) = traffic_of id h) →
  count_relayed me to (zlen p) st = Some st' →
  sessions st' = sessions st ∧ ∀ id, default no_traffic (stats st' !! id) = traffic_of id (h ++ [(me, to, p)]).
Proof.
  intros Hst. unfold count_relayed. destruct (default_stats_spec me st) as (Hs1 & Hl1 & Hd1). rewrite Hl1. cbn [mbind option_bind].
  intros (u & [-> _]%add_chk_Some & H)%bind_Some. apply bind_Some in H as (m & [-> _]%add_chk_Some & H).
  rewrite Hst in H. cbn [traffic_of up_bytes down_bytes relayed_msgs] in H. cbv zeta in H.
  match type of H with context [default_stats to ?q] => set (st1 := q) in H end.
  assert (∀ id, default no_traffic (stats st1 !! id) = mkTraffic (bytes_of (sent_by id) (h ++ [(me, to, p)])) (bytes_of (sent_to id) h) (count_of (sent_by id) (h ++ [(me, to, p)]))) as H1.
  { intros i. unfold st1. cbn [stats]. rewrite bytes_of_snoc, count_of_snoc. cbn [snd].
    change (sent_by i (me, to, p)) with (bool_decide (me = i)). destruct (decide (i = me)) as [->|Hne].
    - rewrite lookup_insert_eq. cbn [from_option id]. by rewrite bool_decide_eq_true_2.
    - rewrite lookup_insert_ne, Hd1, Hst by done. rewrite bool_decide_eq_false_2 by done. unfold traffic_of. f_equal; lia. }
  destruct (default_stats_spec to st1) as (Hs2 & Hl2 & Hd2). rewrite Hl2, H1 in H. cbn [mbind option_bind up_bytes down_bytes relayed_msgs] in H.
  apply bind_Some in H as (d & [-> _]%add_chk_Some & [= <-]). cbn [sessions stats]. split; [by rewrite Hs2|].
  intros i. unfold traffic_of. rewrite (bytes_of_snoc (sent_to i)). cbn [snd].
  change (sent_to i (me, to, p)) with (bool_decide (to = i)). destruct (decide (i = to)) as [->|Hne].
  - rewrite lookup_insert_eq. cbn [from_option id]. by rewrite bool_decide_eq_true_2.
  - rewrite lookup_insert_ne, Hd2, H1 by done. rewrite bool_decide_eq_false_2 by done. f_equal. lia.
Qed.

Lemma count_relayed_total me to (p : list Z) st h : (∀ id, default no_traffic (stats st !! id) = traffic_of id h) → room h → zlen p ≤ MAX_FRAME →
  is_Some (count_relayed me to (zlen p) st).
Proof.
  intros Hst [Hr1 Hr2] Hp. unfold count_relayed. destruct (default_stats_spec me st) as (Hs1 & Hl1 & Hd1). rewrite Hl1. cbn [mbind option_bind].
  rewrite Hst. cbn [traffic_of up_bytes down_bytes relayed_msgs].
  pose proof (bytes_of_le (sent_by me) h). pose proof (bytes_of_le (sent_to to) h). pose proof (count_of_le (sent_by me) h).
  rewrite !add_chk_ok by lia. cbn [mbind option_bind]. cbv zeta. match goal with |- context [default_stats to ?q] => set (st1 := q) end.
  destruct (default_stats_spec to st1) as (_ & -> & _). cbn [mbind option_bind].
  assert (down_bytes (default no_traffic (stats st1 !! to)) = bytes_of (sent_to to) h) as ->.
  { unfold st1. cbn [stats]. destruct (decide (to = me)) as [->|Hne].
    - rewrite lookup_insert_eq. cbn. done.
    - rewrite lookup_insert_ne, Hd1, Hst by done. done. }
  rewrite add_chk_ok by lia. by eexists.
Qed.

(** *** The steps *)

(** The obligations of a step of connection [i] from [c] to [c']. *)
Lemma relay_inv_step r i c c' st' h : relay_inv r → rl_conns r !! i = Some c →
  (∀ id, cn_me c = Some id → cn_me c' = Some id) → (∀ f, f ∈ cn_read c → f ∈ cn_read c') →
  (conns_grow (rl_conns r) (<[i := c']> (rl_conns r)) →
    conn_ok (<[i := c']> (rl_conns r)) c' ∧
    (∀ id s, sessions st' !! id = Some s → session_ok (<[i := c']> (rl_conns r)) id s) ∧
    Forall (λ '(from, to, payload), ∃ claimed, has_sent (<[i := c']> (rl_conns r)) from (RelayData to claimed payload)) h ∧
    (∀ id, default no_traffic (stats st' !! id) = traffic_of id (rl_history r ++ h))) →
  relay_inv (mkRelay st' (<[i := c']> (rl_conns r)) (rl_boxes r) (rl_history r ++ h)).
Proof.
  intros [H1 H2 H3 H4 H5] Hi Hme Hrd Hob.
  assert (conns_grow (rl_conns r) (<[i := c']> (rl_conns r))) as Hg by by eapply conns_grow_insert.
  destruct (Hob Hg) as (O1 & O2 & O3 & O4). split; cbn [rl_state rl_conns rl_boxes rl_history]; [done| | | |done].
  - intros j d Hd. destruct (decide (j = i)) as [->|Hne].
    + rewrite lookup_insert_eq in Hd. by injection Hd as <-.
    + rewrite lookup_insert_ne in Hd by done. eapply conn_ok_grow; eauto.
  - intros t b Hb. eapply Forall_impl; [by apply H3|]. intros f Hf. by eapply authentic_grow.
  - apply Forall_app. split; [|done]. eapply Forall_impl; [exact H4|]. intros [[from to] p] [cl Hcl]. exists cl. by eapply has_sent_grow.
Qed.

Lemma has_sent_here (m : gmap nat Conn) i c id f : cn_me c = Some id → f ∈ cn_read c → has_sent (<[i := c]> m) id f.
Proof. intros ? ?. exists i, c. rewrite lookup_insert_eq. done. Qed.

Lemma registered_here (m : gmap nat Conn) i c id : cn_me c = Some id → registered (<[i := c]> m) i id.
Proof. exists c. rewrite lookup_insert_eq. done. Qed.

(** A connection that goes on without anything to send. *)
Lemma conn_ok_idle m (c : Conn) pc : Forall is_byte (ni_data (cn_rd c)) → (match pc with PcFirst => False | PcRelay _ _ _ => False | PcDone => True | _ => is_Some (cn_me c) end) →
  conn_ok m (at_pc pc [] c).
Proof. intros Hb Hpc. split; [by destruct pc|]. split; [by destruct pc|]. split; [constructor|]. split; [done|]. by destruct pc. Qed.

Lemma first_frame_inv r i c c' st' : relay_inv r → rl_conns r !! i = Some c → cn_pc c = PcFirst →
  first_frame i c (rl_state r) = Some (c', st') →
  relay_inv (mkRelay st' (<[i := c']> (rl_conns r)) (rl_boxes r) (rl_history r ++ [])).
Proof.
  intros Hr Hi Hpc H. pose proof (ri_conns _ Hr _ _ Hi) as (_ & Hnone & _ & Hb & _). specialize (Hnone Hpc).
  unfold first_frame in H. destruct (read_frame_spec (cn_rd c) Hb) as (x & rd & E & Hb' & Hx). rewrite E in H. cbn [mbind option_bind] in H.
  destruct x as [e|[f|]]; [|destruct f|]; injection H as <- <-; eapply relay_inv_step;
    try done; try (intros id Hid; congruence); try (intros f' Hf'; cbn; set_solver); intros Hg;
    (split; [|split; [|split; [constructor|rewrite app_nil_r; apply (ri_stats _ Hr)]]]);
    try (intros id s Hs; eapply session_ok_grow; [done|by eapply ri_sessions]);
    try (by apply conn_ok_idle); try (split; [done|]; split; [done|]; split; [by repeat constructor|done]).
  intros id s Hs. cbn [sessions] in Hs. destruct (decide (id = node_id)) as [->|Hne].
  - rewrite lookup_insert_eq in Hs. injection Hs as <-. split; cbn.
    + by apply registered_here.
    + apply has_sent_here; [done|]. cbn. set_solver.
  - rewrite lookup_insert_ne in Hs by done. eapply session_ok_grow; [done|by eapply ri_sessions].
Qed.

(** A read frame does not touch the identity. *)
Lemma loop_frame_inv r i me f c rd c' st' : relay_inv r → rl_conns r !! i = Some c → cn_pc c = PcLoop → cn_me c = Some me → cn_pending c = [] →
  Forall is_byte (ni_data rd) → sendable f → loop_frame i me f (having_read rd f c) (rl_state r) = (c', st') →
  relay_inv (mkRelay st' (<[i := c']> (rl_conns r)) (rl_boxes r) (rl_history r ++ [])).
Proof.
  intros Hr Hi Hpc Hme Hpend Hb [Hwf Hmax] H.
  assert (∀ c', cn_me c' = Some me → cn_read c' = cn_read c ++ [f] → cn_pc c' = PcLoop → Forall is_byte (ni_data (cn_rd c')) →
    (∀ m', m' = <[i := c']> (rl_conns r) → conns_grow (rl_conns r) m' → Forall (λ '(t, g), authentic m' t g) (cn_pending c')) →
    relay_inv (mkRelay (rl_state r) (<[i := c']> (rl_conns r)) (rl_boxes r) (rl_history r ++ []))) as Hsame.
  { intros d Hd1 Hd2 Hd3 Hd4 Hd5. eapply relay_inv_step; [done|done|congruence|intros g Hg; rewrite Hd2; set_solver|]. intros Hg.
    split; [|split; [|split; [constructor|rewrite app_nil_r; apply (ri_stats _ Hr)]]].
    - split; [rewrite Hd3, Hd1; by eexists|]. split; [by rewrite Hd3|]. split; [by apply Hd5|]. split; [done|by rewrite Hd3].
    - intros id s Hs. eapply session_ok_grow; [done|by eapply ri_sessions]. }
  assert (∀ id s m', sessions (rl_state r) !! id = Some s → conns_grow (rl_conns r) m' →
    registered m' (ses_tx s) id ∧ has_sent m' id (Hello id (ses_cands s))) as Hses.
  { intros id s m' Hs Hg. eapply session_ok_grow; [done|by eapply ri_sessions]. }
  destruct f as [nid cands|obs|target|peer cands|to from payload| |text|msg]; cbn [loop_frame] in H.
  - case_bool_decide as Hid; [subst nid|injection H as <- <-; by apply Hsame; [..|intros; cbn; rewrite Hpend]].
    injection H as <- <-. destruct (sessions (rl_state r) !! me) as [s|] eqn:Es; [|by apply Hsame; [..|intros; cbn; rewrite Hpend]].
    eapply relay_inv_step; [done|done|done|intros g Hg; cbn; set_solver|]. intros Hg.
    split; [|split; [|split; [constructor|rewrite app_nil_r; apply (ri_stats _ Hr)]]].
    + split; [cbn; rewrite Hpc, Hme; by eexists|]. split; [by cbn; rewrite Hpc|]. split; [cbn; rewrite Hpend; constructor|]. split; [done|by cbn; rewrite Hpc].
    + intros id s' Hs'. cbn [sessions] in Hs'. destruct (decide (id = me)) as [->|Hne].
      * rewrite lookup_insert_eq in Hs'. injection Hs' as <-. split; [by apply (Hses me s)|].
        apply has_sent_here; [done|]. cbn. set_solver.
      * rewrite lookup_insert_ne in Hs' by done. by apply Hses.
  - injection H as <- <-. apply Hsame; [done..|]. intros; cbn; by rewrite Hpend.
  - destruct (sessions (rl_state r) !! target) as [tgt|] eqn:Et; injection H as <- <-; apply Hsame; try done; intros m' -> Hg; cbn [cn_pending at_pc].
    + constructor; [right; by apply (Hses target tgt)|]. constructor; [|constructor]. cbn.
      destruct (sessions (rl_state r) !! me) as [s|] eqn:Es; [|by left]. right. by apply (Hses me s).
    + by repeat constructor.
  - injection H as <- <-. apply Hsame; [done..|]. intros; cbn; by rewrite Hpend.
  - destruct (sessions (rl_state r) !! to) as [tgt|] eqn:Et; injection H as <- <-.
    + eapply relay_inv_step; [done|done|done|intros g Hg; cbn; set_solver|]. intros Hg.
      split; [|split; [intros id s Hs; by apply Hses|split; [constructor|rewrite app_nil_r; apply (ri_stats _ Hr)]]].
      split; [cbn; rewrite Hme; by eexists|]. split; [done|]. split; [constructor|]. split; [done|]. cbn.
      split; [by apply (Hses to tgt)|]. split; [|exists from; set_solver].
      cbn [encode] in Hmax. unfold put_bytes in Hmax. rewrite !zlen_app in Hmax.
      pose proof (zlen_nonneg [TAG_RELAY_DATA]). pose proof (zlen_nonneg (put_id to)). pose proof (zlen_nonneg (put_id from)). pose proof (zlen_nonneg (put_u32 (as_u32 (zlen payload)))). lia.
    + apply Hsame; try done. intros; cbn; by repeat constructor.
  - injection H as <- <-. apply Hsame; try done. intros; cbn; by repeat constructor.
  - injection H as <- <-. apply Hsame; [done..|]. intros; cbn; by rewrite Hpend.
  - injection H as <- <-. apply Hsame; [done..|]. intros; cbn; by rewrite Hpend.
Qed.

Lemma handler_step_inv r i c c' st' h : relay_inv r → rl_conns r !! i = Some c → cn_pending c = [] →
  handler_step i c (rl_state r) = Some (c', st', h) →
  relay_inv (mkRelay st' (<[i := c']> (rl_conns r)) (rl_boxes r) (rl_history r ++ h)).
Proof.
  intros Hr Hi Hpend H. pose proof (ri_conns _ Hr _ _ Hi) as (Hs & _ & _ & Hb & Hpc). unfold handler_step in H.
  destruct (cn_pc c) eqn:Epc.
  - apply bind_Some in H as ([c1 st1] & H & [= <- <- <-]). by eapply first_frame_inv.
  - destruct Hs as [me Hme]. rewrite Hme in H. injection H as <- <- <-.
    destruct (default_stats_spec me (rl_state r)) as (E1 & _ & E2).
    eapply relay_inv_step; [done|done|done|done|]. intros Hg. split; [|split; [|split; [constructor|rewrite app_nil_r; intros id; rewrite E2; apply (ri_stats _ Hr)]]].
    + split; [cbn; rewrite Hme; by eexists|]. split; [done|]. split; [by repeat constructor|done].
    + rewrite E1. intros id s Hs. eapply session_ok_grow; [done|by eapply ri_sessions].
  - destruct Hs as [me Hme]. rewrite Hme in H. apply bind_Some in H as ([c1 st1] & H & [= <- <- <-]).
    unfold loop_read in H. destruct (read_frame_spec (cn_rd c) Hb) as (x & rd & E & Hb' & Hx). rewrite E in H. cbn [mbind option_bind] in H.
    destruct x as [e|[f|]].
    + injection H as <- <-. eapply relay_inv_step; [done|done|done|done|]. intros Hg.
      split; [by apply conn_ok_idle|split; [|split; [constructor|rewrite app_nil_r; apply (ri_stats _ Hr)]]].
      intros id s Hs. eapply session_ok_grow; [done|by eapply ri_sessions].
    + injection H as H. by eapply loop_frame_inv.
    + injection H as <- <-. eapply relay_inv_step; [done|done|done|done|]. intros Hg.
      split; [by apply conn_ok_idle; [|by eexists]|split; [|split; [constructor|rewrite app_nil_r; apply (ri_stats _ Hr)]]].
      intros id s Hs. eapply session_ok_grow; [done|by eapply ri_sessions].
  - destruct Hs as [me Hme]. rewrite Hme in H. apply bind_Some in H as (st1 & H & [= <- <- <-]).
    apply (count_relayed_inv _ _ _ _ _ (rl_history r)) in H as [E1 E2]; [|apply (ri_stats _ Hr)]. destruct Hpc as (Hreg & Hlen & cl & Hcl).
    eapply relay_inv_step; [done|done|done|done|]. intros Hg.
    assert (has_sent (<[i := at_pc PcLoop [(ttx, RelayData to me payload)] c]> (rl_conns r)) me (RelayData to cl payload)) as Hhs by by apply has_sent_here.
    split; [|split; [|split; [|done]]].
    + split; [cbn; rewrite Hme; by eexists|]. split; [done|]. split; [|done]. constructor; [|constructor]. split; [by eapply registered_grow|by exists cl].
    + rewrite E1. intros id s Hs. eapply session_ok_grow; [done|by eapply ri_sessions].
    + constructor; [by exists cl|constructor].
  - destruct Hs as [me Hme]. rewrite Hme in H. injection H as <- <- <-. eapply relay_inv_step; [done|done|done|done|]. intros Hg.
    split; [by apply conn_ok_idle|split; [|split; [constructor|rewrite app_nil_r; apply (ri_stats _ Hr)]]].
    intros id s Hs. cbn [sessions] in Hs. apply lookup_delete_Some in Hs as [_ Hs]. eapply session_ok_grow; [done|by eapply ri_sessions].
  - injection H as <- <- <-. rewrite insert_id by done. rewrite app_nil_r. by destruct r.
Qed.

Lemma handler_step_total r i c : relay_inv r → rl_conns r !! i = Some c → room (rl_history r) → is_Some (handler_step i c (rl_state r)).
Proof.
  intros Hr Hi Hroom. pose proof (ri_conns _ Hr _ _ Hi) as (Hs & _ & _ & Hb & Hpc). unfold handler_step.
  destruct (read_frame_spec (cn_rd c) Hb) as (x & rd & E & _ & _). destruct (cn_pc c).
  - unfold first_frame. rewrite E. cbn [mbind option_bind]. destruct x as [|[[]|]]; by eexists.
  - destruct (cn_me c); by eexists.
  - destruct (cn_me c); [|by eexists]. unfold loop_read. rewrite E. cbn [mbind option_bind]. destruct x as [|[f|]]; try by eexists.
    destruct (loop_frame _ _ _ _ _). by eexists.
  - destruct (cn_me c) as [me|]; [|by eexists]. destruct Hpc as (_ & Hlen & _).
    destruct (count_relayed_total me to payload (rl_state r) (rl_history r)) as [st ->]; [apply (ri_stats _ Hr)|done|done|]. by eexists.
  - destruct (cn_me c); by eexists.
  - by eexists.
Qed.

(** The streams of accepted connections hold bytes. *)
Definition ev_ok (ev : RelayEv) : Prop := match ev with Accept _ rd _ => Forall is_byte (ni_data rd) | _ => True end.

Lemma relay_step_inv ev r r' : relay_inv r → ev_ok ev → relay_step ev r = Some r' → relay_inv r'.
Proof.
  intros Hr Hev H. destruct ev as [i rd peer|i|i fails]; cbn [relay_step] in H.
  - destruct (rl_conns r !! i) as [|] eqn:Ei; [by injection H as <-|]. injection H as <-.
    assert (conns_grow (rl_conns r) (<[i := mkConn rd peer None PcFirst [] []]> (rl_conns r))) as Hg.
    { intros j d Hd. assert (j ≠ i) by congruence. rewrite lookup_insert_ne by done. eauto. }
    pose proof Hr as [H1 H2 H3 H4 H5]. split; cbn [rl_state rl_conns rl_boxes rl_history]; [| | | |done].
    + intros id s Hs. eapply session_ok_grow; eauto.
    + intros j d Hd. destruct (decide (j = i)) as [->|Hne].
      * rewrite lookup_insert_eq in Hd. injection Hd as <-. split; [done|]. split; [done|]. split; [constructor|done].
      * rewrite lookup_insert_ne in Hd by done. eapply conn_ok_grow; eauto.
    + intros t b Hb. destruct (decide (t = i)) as [->|Hne].
      * rewrite lookup_insert_eq in Hb. injection Hb as <-. constructor.
      * rewrite lookup_insert_ne in Hb by done. eapply Forall_impl; [by apply H3|]. intros f Hf. by eapply authentic_grow.
    + eapply Forall_impl; [exact H4|]. intros [[from to] p] [cl Hcl]. exists cl. by eapply has_sent_grow.
  - destruct (rl_conns r !! i) as [c|] eqn:Ei; [|by injection H as <-].
    destruct (cn_pending c) as [|[t f] rest] eqn:Ep.
    + apply bind_Some in H as ([[c' st'] h] & Hs & [= <-]). by eapply handler_step_inv.
    + injection H as <-. destruct (rl_boxes r !! t) as [b|] eqn:Eb; [|done]. destruct (box_send f b) as [b'|] eqn:Es; [|done].
      pose proof (ri_conns _ Hr _ _ Ei) as (C1 & C2 & C3 & C4 & C5). rewrite Ep in C3. apply Forall_cons in C3 as [Hf Hrest].
      assert (conns_grow (rl_conns r) (<[i := at_pc (cn_pc c) rest c]> (rl_conns r))) as Hg by by eapply conns_grow_insert.
      pose proof Hr as [H1 H2 H3 H4 H5]. split; cbn [rl_state rl_conns rl_boxes rl_history]; [| | | |done].
      * intros id s Hs. eapply session_ok_grow; eauto.
      * intros j d Hd. destruct (decide (j = i)) as [->|Hne].
        -- rewrite lookup_insert_eq in Hd. injection Hd as <-. eapply conn_ok_grow; [done|]. done.
        -- rewrite lookup_insert_ne in Hd by done. eapply conn_ok_grow; eauto.
      * intros t' b'' Hb. destruct (decide (t' = t)) as [->|Hne].
        -- rewrite lookup_insert_eq in Hb. injection Hb as <-. eapply (Forall_impl (authentic (rl_conns r) t)); [|intros g Hgg; by eapply authentic_grow].
           specialize (H3 _ _ Eb). unfold box_send in Es. destruct (mb_broken b); [by injection Es as <-|]. case_bool_decide; [|done]. injection Es as <-.
           cbn. apply Forall_app in H3 as [? ?]. rewrite !Forall_app. split; [split; [done|by repeat constructor]|done].
        -- rewrite lookup_insert_ne in Hb by done. eapply Forall_impl; [by apply H3|]. intros g Hgg. by eapply authentic_grow.
      * eapply Forall_impl; [exact H4|]. intros [[from to] p] [cl Hcl]. exists cl. by eapply has_sent_grow.
  - injection H as <-. destruct (rl_boxes r !! i) as [b|] eqn:Eb; [|done]. pose proof Hr as [H1 H2 H3 H4 H5].
    split; cbn [rl_state rl_conns rl_boxes rl_history]; [done|done| |done|done].
    intros t b' Hb. destruct (decide (t = i)) as [->|Hne]; [|rewrite lookup_insert_ne in Hb by done; by apply H3].
    rewrite lookup_insert_eq in Hb. injection Hb as <-. specialize (H3 _ _ Eb). unfold box_write. destruct (mb_queue b) as [|f q] eqn:Eq; [by rewrite Eq|].
    cbn in H3. apply Forall_cons in H3 as [Hf H3]. apply Forall_app in H3 as [? ?]. destruct fails; cbn; [done|].
    rewrite !Forall_app. split; [done|]. split; [done|by repeat constructor].
Qed.

Lemma relay_new_inv : relay_inv relay_new.
Proof.
  split; cbn.
  - intros id s Hs. by rewrite lookup_empty in Hs.
  - intros i c Hc. by rewrite lookup_empty in Hc.
  - intros t b Hb. by rewrite lookup_empty in Hb.
  - constructor.
  - intros id. by rewrite lookup_empty.
Qed.

Lemma relay_run_inv evs : ∀ r r', relay_inv r → Forall ev_ok evs → relay_run evs r = Some r' → relay_inv r'.
Proof.
  induction evs as [|ev evs IH]; intros r r' Hr Hev H; cbn in H; [by injection H as <-|].
  apply Forall_cons in Hev as [He Hev]. apply bind_Some in H as (r1 & H1 & H). eapply IH; [|done|done]. by eapply relay_step_inv.
Qed.

End relay_inv.

Lemma relay_step_total {HO : HashOrder NodeId NodeTraffic} {MP : MeshPrimitives} r ev : relay_inv r → room (rl_history r) → is_Some (relay_step ev r).
Proof.
  intros Hinv Hroom. destruct ev as [i rd peer|i|i fails]; cbn [relay_step]; [by eexists| |by eexists].
  destruct (rl_conns r !! i) as [c|] eqn:Ei; [|by eexists]. destruct (cn_pending c) as [|[t f] rest]; [|by eexists].
  destruct (handler_step_total r i c Hinv Ei Hroom) as [[[c' st] h] ->]. by eexists.
Qed.

(** [C12] In every interleaving of the connections, whatever bytes they send: a
    message on its way to a connection is addressed to the node that
    connection registered as, was sent by a connection registered as the node
    it names as sender, whatever sender that one claimed, and has the payload
    sent; candidates are those a node registered itself.  No further step
    panics while the counters have room for one more message. *)
Theorem relay_forwards_authentic {HO : HashOrder NodeId NodeTraffic} {MP : MeshPrimitives} evs r :
  Forall ev_ok evs → relay_run evs relay_new = Some r →
  (∀ t b f, rl_boxes r !! t = Some b → f ∈ mb_queue b ++ mb_wire b → authentic (rl_conns r) t f) ∧
  (room (rl_history r) → ∀ ev, is_Some (relay_step ev r)).
Proof.
  intros Hev Hr. pose proof (relay_run_inv evs _ _ relay_new_inv Hev Hr) as Hinv. split.
  - intros t b f Hb Hf. pose proof (ri_boxes _ Hinv _ _ Hb) as Hall. rewrite Forall_forall in Hall. by apply Hall.
  - intros Hroom ev. by apply relay_step_total.
Qed.

(** The counters are exactly the traffic of the messages forwarded, each of
    which a node has sent. *)
Theorem relay_counters_exact {HO : HashOrder NodeId NodeTraffic} {MP : MeshPrimitives} evs r :
  Forall ev_ok evs → relay_run evs relay_new = Some r →
  (∀ id, default no_traffic (stats (rl_state r) !! id) = traffic_of id (rl_history r)) ∧
  Forall (λ '(from, to, payload), ∃ claimed, has_sent (rl_conns r) from (RelayData to claimed payload)) (rl_history r).
Proof.
  intros Hev Hr. pose proof (relay_run_inv evs _ _ relay_new_inv Hev Hr) as Hinv. split; [apply (ri_stats _ Hinv)|apply (ri_history _ Hinv)].
Qed.

(** ** Concrete runs *)

Definition ex_a : NodeId := replicate 32 1.
Definition ex_b : NodeId := replicate 32 2.
Definition ex_addr : SocketAddr := V4 [10; 0; 0; 1] 99.
Definition stream (fs : list Frame) (rest : list Z) : NetIn := mkNetIn (concat (map write_frame fs) ++ rest) Closed.

Abbreviation ex_run := (@relay_run (@default_order NodeId NodeTraffic _ _) toy_mesh).

(** Node A registers; node B registers and sends it a message. *)
Definition ex_talk : list RelayEv :=
  [Accept 0 (stream [Hello ex_a []] []) (Some ex_addr); Run 0; Run 0; Run 0; WriteOut 0 false;
   Accept 1 (stream [Hello ex_b []; RelayData ex_a ex_a [7; 8]] []) None; Run 1; Run 1; Run 1; Run 1; Run 1; Run 1; WriteOut 0 false].

Definition ex_state : option Relay := Eval vm_compute in ex_run ex_talk relay_new.

Lemma relay_forwards_authentic_witness : ∃ r b, ex_run ex_talk relay_new = Some r ∧ rl_boxes r !! 0%nat = Some b ∧
  mb_wire b = [HelloAck ex_addr; RelayData ex_a ex_b [7; 8]] ∧ authentic (rl_conns r) 0 (RelayData ex_a ex_b [7; 8]).
Proof.
  assert (∃ r, ex_state = Some r) as [r Er] by (by eexists).
  assert (ex_run ex_talk relay_new = Some r) as E by (rewrite <-Er; vm_compute; reflexivity).
  assert (rl_boxes r !! 0%nat = Some (mkMailbox [] [HelloAck ex_addr; RelayData ex_a ex_b [7; 8]] false)) as Eb
    by (injection Er as <-; vm_compute; reflexivity).
  exists r, (mkMailbox [] [HelloAck ex_addr; RelayData ex_a ex_b [7; 8]] false). split; [exact E|]. split; [exact Eb|]. split; [reflexivity|].
  refine (proj1 (@relay_forwards_authentic (@default_order NodeId NodeTraffic _ _) toy_mesh ex_talk r _ E) 0%nat _ _ Eb _).
  - repeat constructor; vm_compute; repeat constructor; done.
  - cbn [mb_queue mb_wire app]. apply elem_of_cons; right. apply elem_of_cons; left. reflexivity.
Defined.

Lemma relay_counters_exact_witness : ∃ r, ex_run ex_talk relay_new = Some r ∧
  default no_traffic (stats (rl_state r) !! ex_b) = traffic_of ex_b (rl_history r) ∧ traffic_of ex_b (rl_history r) = mkTraffic 2 0 1.
Proof.
  assert (∃ r, ex_state = Some r) as [r Er] by (by eexists).
  assert (ex_run ex_talk relay_new = Some r) as E by (rewrite <-Er; vm_compute; reflexivity).
  exists r. split; [exact E|]. split.
  - refine (proj1 (@relay_counters_exact (@default_order NodeId NodeTraffic _ _) toy_mesh ex_talk r _ E) ex_b).
    repeat constructor; vm_compute; repeat constructor; done.
  - injection Er as <-. vm_compute. reflexivity.
Defined.

(** A node is in the table before its registration is acknowledged: a message
    for it can be sent in between, and the client that waits for the
    acknowledgement takes it for a protocol error. *)
Theorem hello_ack_overtaken : ∃ r b,
  ex_run [Accept 0 (stream [Hello ex_a []] []) (Some ex_addr); Run 0;
          Accept 1 (stream [Hello ex_b []; RelayData ex_a ex_b [7]] []) None; Run 1; Run 1; Run 1; Run 1; Run 1; Run 1;
          Run 0; Run 0; WriteOut 0 false; WriteOut 0 false] relay_new = Some r ∧
  rl_boxes r !! 0%nat = Some b ∧ mb_wire b = [RelayData ex_a ex_b [7]; HelloAck ex_addr] ∧
  ∃ w rest, client_connect ex_a [] None (stream (mb_wire b) []) = Some (w, inl (CeUnexpected (Some (RelayData ex_a ex_b [7]))), None, rest).
Proof.
  eexists _, _. split; [vm_compute; reflexivity|]. split; [vm_compute; reflexivity|]. split; [reflexivity|].
  eexists _, _. vm_compute. reflexivity.
Qed.

(** A connection that ends with a bad frame is not taken out of the table:
    messages to its node are counted and queued as if it were there. *)
Theorem bad_frame_leaves_session : ∃ r c s,
  ex_run [Accept 0 (stream [Hello ex_a []] [0; 0; 0; 0]) None; Run 0; Run 0; Run 0; Run 0;
          Accept 1 (stream [Hello ex_b []; RelayData ex_a ex_b [7]] []) None; Run 1; Run 1; Run 1; Run 1; Run 1; Run 1] relay_new = Some r ∧
  rl_conns r !! 0%nat = Some c ∧ cn_pc c = PcDone ∧ sessions (rl_state r) !! ex_a = Some s ∧ ses_tx s = 0%nat ∧
  default no_traffic (stats (rl_state r) !! ex_b) = mkTraffic 1 0 1.
Proof. eexists _, _, _. split; [vm_compute; reflexivity|]. split; [vm_compute; reflexivity|]. vm_compute. by split_and!. Qed.

(** A node that connects again replaces its session; when the former
    connection then closes, the new one is taken out of the table and the node
    cannot be reached although it is connected. *)
Theorem reconnect_is_unregistered : ∃ r c,
  ex_run [Accept 0 (stream [Hello ex_a []] []) None; Run 0; Run 0; Run 0;
          Accept 1 (stream [Hello ex_a []] []) None; Run 1; Run 1; Run 1; Run 0; Run 0] relay_new = Some r ∧
  rl_conns r !! 1%nat = Some c ∧ cn_pc c = PcLoop ∧ cn_me c = Some ex_a ∧ sessions (rl_state r) !! ex_a = None.
Proof. eexists _, _. split; [vm_compute; reflexivity|]. split; [vm_compute; reflexivity|]. vm_compute. by split_and!. Qed.
