(* ===== verification/P2pQuic.v ===== *)
(** * P2P mesh: the direct connections

    Models [crates/p2p-mesh/src/quic/mod.rs]: the certificates that carry a
    node's public key, the verifiers that pin it, the messages on a stream and
    the dialler's retries.  TLS, QUIC and the certificate generator are
    libraries: a certificate is its DER bytes, a connection attempt its
    result. *)

From S2P Require Import Prelude Bytes P2pProto P2pCrypto.

(** ** Certificates *)

Definition ED25519_SPKI_PREFIX : list Z := [0x30; 0x2a; 0x30; 0x05; 0x06; 0x03; 0x2b; 0x65; 0x70; 0x03; 0x21; 0x00].

Definition pkcs8_v2_der (seed pubkey : list Z) : list Z :=
  [0x30; 0x53; 0x02; 0x01; 0x01; 0x30; 0x05; 0x06; 0x03; 0x2b; 0x65; 0x70; 0x04; 0x22; 0x04; 0x20] ++ seed ++
  [0xa1; 0x23; 0x03; 0x21; 0x00] ++ pubkey.

(** [windows(pat.len()).position(|w| w == pat)] *)
Fixpoint position (pat l : list Z) : option nat :=
  if bool_decide (take (length pat) l = pat) then Some 0%nat else
  match l with
  | [] => None
  | _ :: l' => S <$> position pat l'
  end.

(** [der.get(a..b)] is [None] out of range. *)
Definition extract_node_id (der : list Z) : option NodeId :=
  pos ← position ED25519_SPKI_PREFIX der;
  key ← slice der (Z.of_nat pos + 12) (Z.of_nat pos + 44);
  if zlen key =? 32 then Some key else None.

Inductive SignatureScheme := ED25519 | OtherScheme.

Record DigitallySignedStruct := mkDss { ds_scheme : SignatureScheme; ds_signature : list Z }.

Inductive TlsError := OnlyEd25519 | CertMissingKey | BadSignatureLength | CertificateVerifyFailed | PeerMismatch | Tls13Only.

Section verifiers.
Context {MP : MeshPrimitives}.

Definition verify_tls13 (message cert : list Z) (dss : DigitallySignedStruct) : TlsError + unit :=
  match ds_scheme dss with
  | OtherScheme => inl OnlyEd25519
  | ED25519 =>
      match extract_node_id cert with
      | None => inl CertMissingKey
      | Some id =>
          let sig := ds_signature dss in
          if negb (zlen sig =? 64) then inl BadSignatureLength else
          if negb (id_verify id message sig) then inl CertificateVerifyFailed else
          inr tt
      end
  end.

(** The dialling side pins [expected]. *)
Definition verify_server_cert (expected : NodeId) (end_entity : list Z) : TlsError + unit :=
  match extract_node_id end_entity with
  | None => inl CertMissingKey
  | Some id => if negb (bool_decide (id = expected)) then inl PeerMismatch else inr tt
  end.

Definition verify_client_cert (end_entity : list Z) : TlsError + unit :=
  match extract_node_id end_entity with
  | None => inl CertMissingKey
  | Some _ => inr tt
  end.

(** The same for both verifiers. *)
Definition verify_tls12_signature : TlsError + unit := inl Tls13Only.

Definition supported_verify_schemes : list SignatureScheme := [ED25519].

(** [certs] is the peer's chain, if the library has one. *)
Definition conn_peer_id (certs : option (list (list Z))) : option NodeId :=
  certs ← certs;
  first ← head certs;
  extract_node_id first.

End verifiers.

(** ** Messages *)

Definition MAX_MSG : Z := 4 * 1024 * 1024.

(** What [write_msg] puts on a fresh stream before it finishes it. *)
Definition write_msg (payload : list Z) : list Z := to_be 4 (as_u32 (zlen payload)) ++ payload.

Inductive MsgError := MsgEof | MessageTooLarge.

Definition read_msg (r : NetIn) : MsgError + list Z :=
  match net_read_exact 4 r with
  | (inl _, _) => inl MsgEof
  | (inr len_buf, r) =>
      let len := from_be len_buf in
      if MAX_MSG <? len then inl MessageTooLarge else
      match net_read_exact len r with
      | (inl _, _) => inl MsgEof
      | (inr buf, _) => inr buf
      end
  end.

(** ** Dialling *)

Section dial.
Context {E C : Type} (default_err : E).

(** The results of making the client's configuration and of connecting, at
    the [i]-th try. *)
Context (client_config : nat → option E) (connect : nat → E + C).

(** [n] tries are left; also the number of pauses. *)
Fixpoint open_loop (n i : nat) (last_err : option E) : (E + C) * nat :=
  match n with
  | O => (inl (default default_err last_err), O)
  | S n' =>
      match client_config i with
      | Some e => (inl e, O)
      | None =>
          match connect i with
          | inr conn => (inr conn, O)
          | inl e => let '(r, k) := open_loop n' (S i) (Some e) in (r, S k)
          end
      end
  end.

Definition simultaneous_open (retries : Z) : (E + C) * nat := open_loop (Z.to_nat (Z.max retries 1)) 0 None.

End dial.

(** ** What the layer promises *)

Lemma position_spec pat l i : position pat l = Some i →
  take (length pat) (drop i l) = pat ∧ ∀ j, (j < i)%nat → take (length pat) (drop j l) ≠ pat.
Proof.
  revert i. induction l as [|x l IH]; intros i; cbn [position]; case_bool_decide as Hp; try done.
  - intros [= <-]. rewrite drop_0. split; [done|lia].
  - intros [= <-]. rewrite drop_0. split; [done|lia].
  - intros (k & Hk & ->)%fmap_Some. destruct (IH k Hk) as [H1 H2]. split; [done|].
    intros [|j] Hj; [done|]. apply H2. lia.
Qed.

Lemma position_complete pat l i : take (length pat) (drop i l) = pat → (∀ j, (j < i)%nat → take (length pat) (drop j l) ≠ pat) →
  (i ≤ length l)%nat → position pat l = Some i.
Proof.
  revert l. induction i as [|i IH]; intros l H1 H2 Hl.
  - rewrite drop_0 in H1. destruct l; cbn [position]; by rewrite bool_decide_eq_true_2.
  - destruct l as [|x l]; cbn in Hl; [lia|]. cbn [position]. rewrite bool_decide_eq_false_2 by (apply (H2 0%nat); lia).
    rewrite IH; [done|done| |lia]. intros j Hj. apply (H2 (S j)). lia.
Qed.

(** The bytes before the key do not hold the prefix. *)
Definition carries (der : list Z) (id : NodeId) : Prop :=
  ∃ pre post, der = pre ++ ED25519_SPKI_PREFIX ++ id ++ post ∧
    ∀ j, (j < length pre)%nat → take 12 (drop j der) ≠ ED25519_SPKI_PREFIX.

Lemma extract_carries der id : zlen id = 32 → carries der id → extract_node_id der = Some id.
Proof.
  intros Hid (pre & post & E & Hpre). unfold extract_node_id. rewrite (position_complete _ _ (length pre)); cycle 1.
  - rewrite E, drop_app_length. apply take_app_length.
  - exact Hpre.
  - rewrite E, length_app. lia.
  - cbn [mbind option_bind]. rewrite E, (app_assoc pre), (slice_app3 (pre ++ ED25519_SPKI_PREFIX) id post).
    + cbn [mbind option_bind]. by rewrite Hid.
    + rewrite zlen_app. done.
    + rewrite zlen_app, Hid. unfold zlen. change (length ED25519_SPKI_PREFIX) with 12%nat. lia.
Qed.

(** [C13] Dial by public key.  A dialler whose two checks pass talks to a peer that
    signed the handshake with the key it expects; an acceptor whose checks
    pass takes the peer for the node whose key signed; and the honest node's
    certificate, whose bytes before the key do not hold the marker the code
    looks for, with its signature passes the checks of both. *)
Theorem quic_identity_authentic `{MeshPrimitives} expected cert message dss :
  (verify_server_cert expected cert = inr tt → verify_tls13 message cert dss = inr tt →
     id_verify expected message (ds_signature dss) = true ∧ zlen (ds_signature dss) = 64 ∧ conn_peer_id (Some [cert]) = Some expected) ∧
  (verify_client_cert cert = inr tt → verify_tls13 message cert dss = inr tt →
     ∃ id, conn_peer_id (Some [cert]) = Some id ∧ id_verify id message (ds_signature dss) = true) ∧
  (∀ me, carries cert (node_id me) → let dss := mkDss ED25519 (id_sign me message) in
     verify_server_cert (node_id me) cert = inr tt ∧ verify_client_cert cert = inr tt ∧ verify_tls13 message cert dss = inr tt ∧
     ∀ other, other ≠ node_id me → verify_server_cert other cert = inl PeerMismatch).
Proof.
  unfold verify_server_cert, verify_client_cert, verify_tls13, conn_peer_id. cbn [mbind option_bind head]. split_and!.
  - destruct (extract_node_id cert) as [id|]; [|done]. case_bool_decide as Hid; [subst id|done]. intros _. destruct (ds_scheme dss); [|done].
    destruct (Z.eqb_spec (zlen (ds_signature dss)) 64) as [Hl|]; [|done]. cbn [negb]. by destruct (id_verify _ _ _).
  - destruct (extract_node_id cert) as [id|]; [|done]. intros _. destruct (ds_scheme dss); [|done]. destruct (negb (_ =? _)); [done|].
    destruct (id_verify id _ _) eqn:Ev; [|done]. intros _. by exists id.
  - intros me Hc. rewrite (extract_carries _ _ (zlen_node_id me) Hc). cbn [ds_scheme ds_signature]. rewrite bool_decide_eq_true_2 by done.
    unfold id_sign, id_verify, node_id. rewrite zlen_ed_sign, ed_correct. split_and!; try done. intros other Ho. by rewrite bool_decide_eq_false_2.
Qed.

(** What the reader makes of a stream that the writer wrote, whole: the
    length on the wire is taken modulo [2^32] and may not exceed 4 MiB.  So
    every message of up to 4 MiB arrives as it was sent; longer ones are
    written without an error and then refused by the reader, or cut. *)
Theorem quic_message_exact payload e : let n := zlen payload mod 2 ^ 32 in
  read_msg (mkNetIn (write_msg payload) e) = (if MAX_MSG <? n then inl MessageTooLarge else inr (take (Z.to_nat n) payload)) ∧
  (zlen payload ≤ MAX_MSG → read_msg (mkNetIn (write_msg payload) e) = inr payload).
Proof.
  intros n. assert (read_msg (mkNetIn (write_msg payload) e) = (if MAX_MSG <? n then inl MessageTooLarge else inr (take (Z.to_nat n) payload))) as Hr.
  { unfold read_msg, write_msg. rewrite net_read_app by by rewrite zlen_to_be.
    assert (from_be (to_be 4 (as_u32 (zlen payload))) = n) as ->.
    { unfold n, as_u32. apply from_to_be. split; [apply Z.mod_pos_bound; lia|]. by apply Z.mod_pos_bound. }
    destruct (MAX_MSG <? n); [done|]. unfold net_read_exact. cbn [ni_data]. rewrite (proj2 (Z.ltb_ge _ _)); [done|].
    unfold n. apply Z.mod_le; [apply zlen_nonneg|lia]. }
  split; [exact Hr|]. intros Hl. rewrite Hr. pose proof (zlen_nonneg payload).
  assert (n = zlen payload) as -> by (unfold n; apply Z.mod_small; unfold MAX_MSG in Hl; lia).
  rewrite (proj2 (Z.ltb_ge _ _)) by done. unfold zlen. by rewrite Nat2Z.id, firstn_all.
Qed.

Lemma open_loop_spec {E C} (d : E) (cfg : nat → option E) (connect : nat → E + C) n : ∀ i last,
  (∀ j, cfg j = None) → (0 < n)%nat ∨ is_Some last →
  let '(r, k) := open_loop d cfg connect n i last in
  (k ≤ n)%nat ∧ (∀ j, (j < k)%nat → ∃ e, connect (i + j)%nat = inl e) ∧
  match r with
  | inr c => (k < n)%nat ∧ connect (i + k)%nat = inr c
  | inl e => k = n ∧ (if n is S m then connect (i + m)%nat = inl e else last = Some e)
  end.
Proof.
  induction n as [|n IH]; intros i last Hc Hn; cbn [open_loop].
  - split; [lia|]. split; [intros j Hj; lia|]. split; [done|]. destruct Hn as [Hn|[e ->]]; [lia|done].
  - rewrite Hc. destruct (connect i) as [e|c] eqn:Ei.
    + specialize (IH (S i) (Some e) Hc (or_intror (ex_intro _ e eq_refl))). destruct (open_loop d cfg connect n (S i) (Some e)) as [r k].
      destruct IH as (H1 & H2 & H3). split; [lia|]. split.
      * intros [|j] Hj; [exists e; by rewrite Nat.add_0_r|]. replace (i + S j)%nat with (S i + j)%nat by lia. apply H2. lia.
      * destruct r as [e'|c].
        -- destruct H3 as [-> H3]. split; [done|]. destruct n as [|m]; [injection H3 as <-; by rewrite Nat.add_0_r|].
           by replace (i + S m)%nat with (S i + m)%nat by lia.
        -- destruct H3 as [H3 H4]. split; [lia|]. by replace (i + S k)%nat with (S i + k)%nat by lia.
    + split; [lia|]. split; [intros j Hj; lia|]. split; [lia|]. by rewrite Nat.add_0_r.
Qed.

(** The dialler tries at least once and stops: it returns the first try that
    connects, after one pause per failed try, or, when all fail, the error of
    the last one; the text kept for the case without any error is never
    used. *)
Theorem dial_first_success {E C} (d : E) cfg (connect : nat → E + C) retries : (∀ i, cfg i = None) →
  let n := Z.to_nat (Z.max retries 1) in
  let '(r, k) := simultaneous_open d cfg connect retries in
  (∀ j, (j < k)%nat → ∃ e, connect j = inl e) ∧
  match r with
  | inr c => (k < n)%nat ∧ connect k = inr c
  | inl e => k = n ∧ connect (n - 1)%nat = inl e
  end.
Proof.
  intros Hc n. unfold simultaneous_open. fold n. assert (0 < n)%nat as Hn by (unfold n; lia).
  pose proof (open_loop_spec d cfg connect n 0 None Hc (or_introl Hn)) as Hs.
  destruct (open_loop d cfg connect n 0 None) as [r k]. destruct Hs as (_ & H1 & H2). split; [exact H1|].
  destruct r as [e|c]; [|exact H2]. destruct H2 as [-> H2]. split; [done|]. destruct n as [|m] eqn:En; [unfold n in En; lia|].
  cbn in H2. by rewrite Nat.sub_succ, Nat.sub_0_r.
Qed.

Lemma dial_first_success_witness : (2 < 8)%nat ∧ (λ i, if (i <? 2)%nat then inl 7 else inr i : Z + nat) 2%nat = inr 2%nat.
Proof.
  exact (proj2 (dial_first_success 0 (λ _, None) (λ i, if (i <? 2)%nat then inl 7 else inr i : Z + nat) 8 (λ _, eq_refl))).
Defined.

(** The template's lengths are those of its parts: the outer one counts all
    that follows, and the seed and the key stand where they say. *)
Lemma pkcs8_layout seed pk : zlen seed = 32 → zlen pk = 32 →
  zlen (pkcs8_v2_der seed pk) = 2 + 0x53 ∧ slice (pkcs8_v2_der seed pk) 16 48 = Some seed ∧ slice (pkcs8_v2_der seed pk) 53 85 = Some pk.
Proof.
  intros Hs Hp. unfold pkcs8_v2_der. set (h := [0x30; _; _; _; _; _; _; _; _; _; _; _; _; _; _; _]). set (t := [0xa1; _; _; _; _]). split_and!.
  - rewrite !zlen_app, Hs, Hp. done.
  - apply slice_app3; [done|by rewrite Hs].
  - rewrite (app_assoc h), (app_assoc (h ++ seed)). apply slice_tail; rewrite !zlen_app, Hs, ?Hp; done.
Qed.
