(* ===== verification/P2pNode.v ===== *)
(** * P2P mesh: the node

    Models the actor of [crates/p2p-mesh/src/node.rs]: the peer table, the
    punch scheduler, the two handshakes of the relay path with the queue of
    waiting messages, the direct connections, the probes, and the GM-PQ
    channel.  Every handler is a computation on the actor's state that emits
    outputs in order; [None] is a panic.

    The parameters: [feature] is the compile-time feature [gm-pq]; [rng] and
    [gmrng] are the random draws, in order; the clocks are read once per
    event.  A QUIC connection is its stable number; whether a write on it
    succeeds, and its counters, come with the event.  Failures to hand a frame
    to the relay, which the code ignores, are not distinguished.  The text of
    a log line is a constructor of [LogMsg]. *)

From S2P Require Import Prelude Bytes F64 P2pProto P2pPunch P2pPath P2pCrypto.
From S2P Require Import RustStr GmCrypto GmSession GmCookie GmTrust GmKem GmHandshake.

Definition INNER_DATA : Z := 0x01.
Definition INNER_PING : Z := 0x02.
Definition INNER_PONG : Z := 0x03.
Definition LOSS_WINDOW : Z := 20.

Definition GM_TAG : Z := 0x47.
Definition GM_MSG1 : Z := 0x01.
Definition GM_COOKIE : Z := 0x02.
Definition GM_MSG1_RETRY : Z := 0x03.
Definition GM_MSG2 : Z := 0x04.
Definition GM_MSG3 : Z := 0x05.
Definition GM_DATA : Z := 0xD0.
Definition GM_KICK : Z := 0x4B.

Record NodeConfig := mkConfig {
  cf_enable_punch : bool;
  cf_punch_max_attempts : Z;
  cf_probe_interval : Duration;
  cf_gmpq : bool
}.

Inductive Suite := SuiteX25519 | SuiteGmPq.

Inductive LogMsg :=
  | LogSelf | LogPunchRequestFailed | LogNoPunchCandidates | LogRelayError (msg : list Z)
  | LogEncryption | LogInitRejected | LogRespRejected | LogUnknownHandshake | LogEarlyCiphertext | LogDecryption
  | LogNoQuicCandidates | LogPunchTimeout | LogDirectSendFailed
  | LogGmTimeout | LogGmCookie | LogGmMsg1 | LogGmMsg2 | LogGmMsg3
  | LogGmBind (e : BindError) | LogGmEarlyData | LogGmUnbound | LogGmReplay.

Inductive NodeEvent :=
  | EvPunchStarted (peer : NodeId)
  | EvPunchResult (peer : NodeId) (direct : option SocketAddr)
  | EvDirectReady (peer : NodeId)
  | EvPathSwitch (peer : NodeId) (from to : PathKind)
  | EvRttSample (peer : NodeId) (path : PathKind) (rtt_ms loss_pct : f64)
  | EvSessionReady (peer : NodeId) (suite : Suite)
  | EvMessage (from : NodeId) (via : PathKind) (payload : list Z)
  | EvLog (m : LogMsg).

Inductive CloseReason := NoIdentity | Duplicate | Superseded.

(** What the actor does to the outside. *)
Inductive Out :=
  | OEvent (ev : NodeEvent)
  | OData (to : NodeId) (payload : list Z)
  | OPunchRequest (target : NodeId)
  | OPunch (to : SocketAddr)
  | OConnect (peer : NodeId) (target : SocketAddr)
  | OWrite (conn : nat) (payload : list Z)
  | OClose (conn : nat) (why : CloseReason)
  | OReader (conn : nat) (peer : NodeId)
  | OTimer (peer : NodeId) (gen : Z).

(** The order on identifiers is that of their bytes. *)
Fixpoint id_ltb (a b : NodeId) : bool :=
  match a, b with
  | [], [] => false
  | [], _ => true
  | _, [] => false
  | x :: a', y :: b' => if x =? y then id_ltb a' b' else x <? y
  end.

Section node.
Context {MP : MeshPrimitives} {PR : Primitives} {K : Kem} {SA : StaticAuth K}.
Context (feature : bool) (instant_min : Z) (rng : nat → StaticSecret) (gmrng : nat → HsRandom).

(** ** State *)

Inductive GmState :=
  | ServerWaitMsg1
  | ServerWaitRetry (e_pk : list Z)
  | ServerWaitMsg3 (resp : Responder)
  | ClientWaitCookie (init : Initiator) (e_pk : list Z)
  | ClientWaitMsg2 (init : Initiator)
  | ReadyUnbound (session : Session) (peer_gm_pk : list Z)
  | Ready (session : Session).

Record Peer := mkPeer {
  pe_session : option SessionCipher;
  pe_gm : option GmState;
  pe_gm_failed : bool;
  pe_gm_gen : Z;
  pe_hs : option HsState;
  pe_pending : list (list Z);
  pe_paths : PathManager;
  pe_direct : option (nat * bool);
  pe_quic_cands : list SocketAddr;
  pe_pings : gmap Z Instant;
  pe_outcomes : list bool;
  pe_counters : option (Z * Z)
}.

Record Actor := mkActor {
  ac_identity : NodeIdentity;
  ac_gm_id : option (SecretKey * list Z);
  ac_gm_cookie : option CookieIssuer;
  ac_gm_anchor : option PinFileAnchor;
  ac_cfg : NodeConfig;
  ac_peers : gmap NodeId Peer;
  ac_punching : gmap NodeId PunchMachine;
  ac_budget : gmap NodeId Z;
  ac_ping_seq : Z;
  ac_draws : nat;
  ac_now : Instant;
  ac_wall : Z
}.

Context {HO1 : HashOrder NodeId Peer} {HO2 : HashOrder NodeId PunchMachine} {HO3 : HashOrder Z Instant}.

(** ** Computations *)

Definition act (A : Type) : Type := Actor → option (Actor * list Out * A).

Definition aret {A} (x : A) : act A := λ a, Some (a, [], x).
Definition abind {A B} (m : act A) (k : A → act B) : act B := λ a,
  '(a, o, x) ← m a;
  '(a, o', y) ← k x a;
  Some (a, o ++ o', y).
Definition aget : act Actor := λ a, Some (a, [], a).
Definition amod (f : Actor → Actor) : act unit := λ a, Some (f a, [], tt).
Definition aout (o : Out) : act unit := λ a, Some (a, [o], tt).
Definition aopt {A} (x : option A) : act A := λ a, y ← x; Some (a, [], y).
Definition emit (ev : NodeEvent) : act unit := aout (OEvent ev).
Definition log (m : LogMsg) : act unit := emit (EvLog m).

Notation "x ⇠ m ; k" := (abind m (λ x, k))
  (at level 20, m at level 100, k at level 200, right associativity).
Notation "' p ⇠ m ; k" := (abind m (λ p, k))
  (at level 20, p pattern, m at level 100, k at level 200, right associativity).

Fixpoint aeach {A} (f : A → act unit) (l : list A) : act unit :=
  match l with
  | [] => aret tt
  | x :: l' => _ ⇠ f x; aeach f l'
  end.

Definition set_peers (m : gmap NodeId Peer) (a : Actor) : Actor :=
  mkActor (ac_identity a) (ac_gm_id a) (ac_gm_cookie a) (ac_gm_anchor a) (ac_cfg a) m (ac_punching a) (ac_budget a) (ac_ping_seq a) (ac_draws a) (ac_now a) (ac_wall a).
Definition set_punching (m : gmap NodeId PunchMachine) (a : Actor) : Actor :=
  mkActor (ac_identity a) (ac_gm_id a) (ac_gm_cookie a) (ac_gm_anchor a) (ac_cfg a) (ac_peers a) m (ac_budget a) (ac_ping_seq a) (ac_draws a) (ac_now a) (ac_wall a).
Definition set_budget (m : gmap NodeId Z) (a : Actor) : Actor :=
  mkActor (ac_identity a) (ac_gm_id a) (ac_gm_cookie a) (ac_gm_anchor a) (ac_cfg a) (ac_peers a) (ac_punching a) m (ac_ping_seq a) (ac_draws a) (ac_now a) (ac_wall a).
Definition set_ping_seq (n : Z) (a : Actor) : Actor :=
  mkActor (ac_identity a) (ac_gm_id a) (ac_gm_cookie a) (ac_gm_anchor a) (ac_cfg a) (ac_peers a) (ac_punching a) (ac_budget a) n (ac_draws a) (ac_now a) (ac_wall a).
Definition set_draws (n : nat) (a : Actor) : Actor :=
  mkActor (ac_identity a) (ac_gm_id a) (ac_gm_cookie a) (ac_gm_anchor a) (ac_cfg a) (ac_peers a) (ac_punching a) (ac_budget a) (ac_ping_seq a) n (ac_now a) (ac_wall a).
Definition set_clock (now : Instant) (wall : Z) (a : Actor) : Actor :=
  mkActor (ac_identity a) (ac_gm_id a) (ac_gm_cookie a) (ac_gm_anchor a) (ac_cfg a) (ac_peers a) (ac_punching a) (ac_budget a) (ac_ping_seq a) (ac_draws a) now wall.

(** The next random draw. *)
Definition draw : act nat := a ⇠ aget; _ ⇠ amod (set_draws (S (ac_draws a))); aret (ac_draws a).

(** [peers.get(&id).unwrap()] and its update. *)
Definition get_peer (id : NodeId) : act Peer := a ⇠ aget; aopt (ac_peers a !! id).
Definition put_peer (id : NodeId) (p : Peer) : act unit := amod (λ a, set_peers (<[id := p]> (ac_peers a)) a).
Definition mod_peer (id : NodeId) (f : Peer → Peer) : act unit := p ⇠ get_peer id; put_peer id (f p).

Definition with_session (s : option SessionCipher) (p : Peer) : Peer :=
  mkPeer s (pe_gm p) (pe_gm_failed p) (pe_gm_gen p) (pe_hs p) (pe_pending p) (pe_paths p) (pe_direct p) (pe_quic_cands p) (pe_pings p) (pe_outcomes p) (pe_counters p).
Definition with_gm (g : option GmState) (p : Peer) : Peer :=
  mkPeer (pe_session p) g (pe_gm_failed p) (pe_gm_gen p) (pe_hs p) (pe_pending p) (pe_paths p) (pe_direct p) (pe_quic_cands p) (pe_pings p) (pe_outcomes p) (pe_counters p).
Definition with_gm_failed (b : bool) (p : Peer) : Peer :=
  mkPeer (pe_session p) (pe_gm p) b (pe_gm_gen p) (pe_hs p) (pe_pending p) (pe_paths p) (pe_direct p) (pe_quic_cands p) (pe_pings p) (pe_outcomes p) (pe_counters p).
Definition with_gm_gen (n : Z) (p : Peer) : Peer :=
  mkPeer (pe_session p) (pe_gm p) (pe_gm_failed p) n (pe_hs p) (pe_pending p) (pe_paths p) (pe_direct p) (pe_quic_cands p) (pe_pings p) (pe_outcomes p) (pe_counters p).
Definition with_hs (h : option HsState) (p : Peer) : Peer :=
  mkPeer (pe_session p) (pe_gm p) (pe_gm_failed p) (pe_gm_gen p) h (pe_pending p) (pe_paths p) (pe_direct p) (pe_quic_cands p) (pe_pings p) (pe_outcomes p) (pe_counters p).
Definition with_pending (l : list (list Z)) (p : Peer) : Peer :=
  mkPeer (pe_session p) (pe_gm p) (pe_gm_failed p) (pe_gm_gen p) (pe_hs p) l (pe_paths p) (pe_direct p) (pe_quic_cands p) (pe_pings p) (pe_outcomes p) (pe_counters p).
Definition with_paths (m : PathManager) (p : Peer) : Peer :=
  mkPeer (pe_session p) (pe_gm p) (pe_gm_failed p) (pe_gm_gen p) (pe_hs p) (pe_pending p) m (pe_direct p) (pe_quic_cands p) (pe_pings p) (pe_outcomes p) (pe_counters p).
Definition with_direct (d : option (nat * bool)) (p : Peer) : Peer :=
  mkPeer (pe_session p) (pe_gm p) (pe_gm_failed p) (pe_gm_gen p) (pe_hs p) (pe_pending p) (pe_paths p) d (pe_quic_cands p) (pe_pings p) (pe_outcomes p) (pe_counters p).
Definition with_quic_cands (l : list SocketAddr) (p : Peer) : Peer :=
  mkPeer (pe_session p) (pe_gm p) (pe_gm_failed p) (pe_gm_gen p) (pe_hs p) (pe_pending p) (pe_paths p) (pe_direct p) l (pe_pings p) (pe_outcomes p) (pe_counters p).
Definition with_pings (m : gmap Z Instant) (l : list bool) (p : Peer) : Peer :=
  mkPeer (pe_session p) (pe_gm p) (pe_gm_failed p) (pe_gm_gen p) (pe_hs p) (pe_pending p) (pe_paths p) (pe_direct p) (pe_quic_cands p) m l (pe_counters p).
Definition with_counters (c : option (Z * Z)) (p : Peer) : Peer :=
  mkPeer (pe_session p) (pe_gm p) (pe_gm_failed p) (pe_gm_gen p) (pe_hs p) (pe_pending p) (pe_paths p) (pe_direct p) (pe_quic_cands p) (pe_pings p) (pe_outcomes p) c.

(** ** Peers *)

Definition peer_new (now : Instant) : option Peer :=
  paths ← path_new instant_min now;
  Some (mkPeer None None false 0 None [] paths None [] ∅ [] None).

Definition relay_loss_pct (p : Peer) : f64 :=
  match pe_outcomes p with
  | [] => f_of_Z 0
  | l => f_mul (f_div (f_of_Z (zlen (filter (λ ok, ok = false) l))) (f_of_Z (zlen l))) (f_of_Z 100)
  end.

Definition ensure_peer (id : NodeId) : act unit :=
  a ⇠ aget;
  match ac_peers a !! id with
  | Some _ => aret tt
  | None => p ⇠ aopt (peer_new (ac_now a)); put_peer id p
  end.

(** The window of outcomes. *)
Definition push_outcome (ok : bool) (l : list bool) : list bool :=
  (if LOSS_WINDOW <=? zlen l then tail l else l) ++ [ok].

Definition emit_switch (peer : NodeId) (sw : option PathSwitch) : act unit :=
  match sw with
  | Some s => emit (EvPathSwitch peer (sw_from s) (sw_to s))
  | None => aret tt
  end.

(** ** Direct path: the punched address *)

Definition addr_ip (a : SocketAddr) : list Z := addr_octets a.

Definition on_punch_done (peer : NodeId) (addr : option SocketAddr) : act unit :=
  match addr with
  | Some src =>
      a ⇠ aget;
      _ ⇠ match ac_peers a !! peer with
           | Some p => put_peer peer (with_paths (on_direct_up (pe_paths p)) p)
           | None => aret tt
           end;
      _ ⇠ emit (EvPunchResult peer (Some src));
      p ⇠ get_peer peer;
      let target := match filter (λ c, addr_ip c = addr_ip src) (pe_quic_cands p) with
                    | c :: _ => Some c
                    | [] => head (pe_quic_cands p)
                    end in
      match target with
      | None => log LogNoQuicCandidates
      | Some target => aout (OConnect peer target)
      end
  | None =>
      _ ⇠ emit (EvPunchResult peer None);
      log LogPunchTimeout
  end.

(** ** Hole punching *)

Definition apply_punch_action (peer : NodeId) (x : PunchAction) : act unit :=
  match x with
  | SendPunch addr => aout (OPunch addr)
  | Established src =>
      _ ⇠ amod (λ a, set_punching (delete peer (ac_punching a)) a);
      on_punch_done peer (Some src)
  | FallbackToRelay =>
      _ ⇠ amod (λ a, set_punching (delete peer (ac_punching a)) a);
      on_punch_done peer None
  end.

Definition apply_punch_actions (peer : NodeId) (actions : list PunchAction) : act unit :=
  aeach (apply_punch_action peer) actions.

(** An event for the machine of [peer], if there is one. *)
Definition punch_event (peer : NodeId) (m : PunchMachine) (ev : PunchEvent) : act unit :=
  '(m, actions) ⇠ aopt (handle ev m);
  _ ⇠ amod (λ a, set_punching (<[peer := m]> (ac_punching a)) a);
  apply_punch_actions peer actions.

Definition on_punch_packet (from : NodeId) (src : SocketAddr) : act unit :=
  a ⇠ aget;
  match ac_punching a !! from with
  | Some m => punch_event from m (PacketFrom src)
  | None =>
      match ac_peers a !! from with
      | None => aret tt
      | Some _ =>
          let left := default 5 (ac_budget a !! from) in
          if 0 <? left then
            _ ⇠ amod (set_budget (<[from := left - 1]> (ac_budget a)));
            aout (OPunch src)
          else amod (set_budget (<[from := left]> (ac_budget a)))
      end
  end.

Definition on_punch_tick : act unit :=
  a ⇠ aget;
  aeach (λ peer,
    a ⇠ aget;
    match ac_punching a !! peer with
    | Some m => punch_event peer m Tick
    | None => aret tt
    end) (hm_iter (ac_punching a)).*1.

(** ** Control plane *)

(** [ok] says whether the request could be handed to the relay. *)
Definition on_connect_peer (peer : NodeId) (ok : bool) : act unit :=
  a ⇠ aget;
  if bool_decide (peer = node_id (ac_identity a)) then log LogSelf else
  _ ⇠ ensure_peer peer;
  if cf_enable_punch (ac_cfg a) && match ac_punching a !! peer with Some _ => false | None => true end then
    if ok then _ ⇠ aout (OPunchRequest peer); emit (EvPunchStarted peer)
    else log LogPunchRequestFailed
  else aret tt.

(** ** Relay data plane *)

(** A frame of the GM-PQ channel. *)
Definition gm_send (peer : NodeId) (kind : Z) (body : list Z) : act unit := aout (OData peer ([GM_TAG; kind] ++ body)).

Definition gm_start (peer : NodeId) : act unit :=
  a ⇠ aget;
  let me := node_id (ac_identity a) in
  match ac_gm_id a with
  | None => aret tt
  | Some (sk, pk) =>
      p ⇠ get_peer peer;
      if (match pe_gm p with Some _ => true | None => false end) || pe_gm_failed p then aret tt else
      _ ⇠ (if id_ltb me peer then
              n ⇠ draw;
              '(init, r) ⇠ aopt (write_msg1 (hr_e_i (gmrng n)) (initiator_new sk pk));
              match r with
              | inr e_pk =>
                  _ ⇠ mod_peer peer (with_gm (Some (ClientWaitCookie init e_pk)));
                  gm_send peer GM_MSG1 e_pk
              | inl _ => mod_peer peer (with_gm_failed true)
              end
            else
              _ ⇠ mod_peer peer (with_gm (Some ServerWaitMsg1));
              gm_send peer GM_KICK []);
      p ⇠ get_peer peer;
      gen ⇠ aopt (add_chk u64_max (pe_gm_gen p) 1);
      _ ⇠ put_peer peer (with_gm_gen gen p);
      aout (OTimer peer gen)
  end.

(** Starts the X25519 handshake. *)
Definition start_hs (pid : NodeId) : act unit :=
  a ⇠ aget;
  n ⇠ draw;
  let '(hs, msg) := hs_start (rng n) (ac_identity a) pid in
  _ ⇠ mod_peer pid (with_hs (Some hs));
  aout (OData pid msg).

Definition relay_send_inner (pid : NodeId) (inner : list Z) : act unit :=
  _ ⇠ ensure_peer pid;
  p ⇠ get_peer pid;
  match (if feature then pe_gm p else None) with
  | Some (Ready session) =>
      '(session, pkt) ⇠ aopt (session_send inner session);
      _ ⇠ put_peer pid (with_gm (Some (Ready session)) p);
      gm_send pid GM_DATA pkt
  | _ =>
      match pe_session p with
      | Some sess =>
          r ⇠ aopt (cipher_seal inner sess);
          match r with
          | inr (sess, ct) =>
              _ ⇠ put_peer pid (with_session (Some sess) p);
              aout (OData pid ct)
          | inl _ => log LogEncryption
          end
      | None =>
          _ ⇠ put_peer pid (with_pending (pe_pending p ++ [inner]) p);
          a ⇠ aget;
          if feature && cf_gmpq (ac_cfg a) && negb (pe_gm_failed p) && (match ac_gm_id a with Some _ => true | None => false end) then
            match pe_gm p with None => gm_start pid | Some _ => aret tt end
          else
            match pe_hs p with None => start_hs pid | Some _ => aret tt end
      end
  end.

Definition flush_pending (pid : NodeId) : act unit :=
  p ⇠ get_peer pid;
  _ ⇠ put_peer pid (with_pending [] p);
  aeach (relay_send_inner pid) (pe_pending p).

Definition on_plain_inner (from : NodeId) (inner : list Z) : act unit :=
  match inner with
  | [] => aret tt
  | t :: rest =>
      if t =? INNER_DATA then emit (EvMessage from PRelay rest)
      else if (t =? INNER_PING) && (9 <=? zlen inner) then
        b ⇠ aopt (slice inner 1 9);
        relay_send_inner from ([INNER_PONG] ++ b)
      else if (t =? INNER_PONG) && (9 <=? zlen inner) then
        b ⇠ aopt (slice inner 1 9);
        let id := from_be b in
        p ⇠ get_peer from;
        match pe_pings p !! id with
        | None => aret tt
        | Some t0 =>
            a ⇠ aget;
            let rtt := duration_since (ac_now a) t0 in
            let rtt_ms := f_mul (as_secs_f64 rtt) (f_of_Z 1000) in
            let p := with_pings (delete id (pe_pings p)) (push_outcome true (pe_outcomes p)) p in
            let loss := f_div (relay_loss_pct p) (f_of_Z 100) in
            let '(paths, sw) := on_sample PRelay (mkSample (Some rtt) (Some loss)) (ac_now a) (pe_paths p) in
            _ ⇠ put_peer from (with_paths paths p);
            _ ⇠ emit (EvRttSample from PRelay rtt_ms (f_mul loss (f_of_Z 100)));
            emit_switch from sw
        end
      else aret tt
  end.

(** *** The GM-PQ channel *)

Definition gm_anchor (a : Actor) : TrustAnchor :=
  match ac_gm_anchor a with Some x => pin_anchor x | None => AllowAllAnchor end.

(** What becomes of a packet of the session. *)
Inductive GmOut := GBound | GPlain (pt : list Z) | GDrop (m : LogMsg) | GIgnore.

(** [peers.get_mut(&from).unwrap().gm.take()] *)
Definition take_gm (from : NodeId) : act (option GmState) :=
  p ⇠ get_peer from;
  _ ⇠ put_peer from (with_gm None p);
  aret (pe_gm p).

(** The end of the handshake on either side: the session's first packet binds
    it to the node's identity. *)
Definition send_bind (from : NodeId) (session : Session) (peer_gm_pk : list Z) : act (list Z) :=
  a ⇠ aget;
  '(_, pk) ⇠ aopt (ac_gm_id a);
  '(session, pkt) ⇠ aopt (session_send (build_bind (ac_identity a) pk (se_id session)) session);
  _ ⇠ mod_peer from (with_gm (Some (ReadyUnbound session peer_gm_pk)));
  aret pkt.

Definition gm_on_retry (from : NodeId) (body e_pk : list Z) : act unit :=
  a ⇠ aget;
  issuer ⇠ aopt (ac_gm_cookie a);
  verified ⇠ (if zlen body <? COOKIE_LEN then aret false else
    let echo := take (Z.to_nat COOKIE_LEN) body in
    let e_pk2 := drop (Z.to_nat COOKIE_LEN) body in
    if negb (bool_decide (e_pk2 = e_pk)) then aret false else
    r ⇠ aopt (cookie_verify (ac_wall a) from e_pk echo issuer);
    aret (match r with inr _ => true | inl _ => false end));
  if negb verified then log LogGmCookie else
  '(sk, pk) ⇠ aopt (ac_gm_id a);
  n ⇠ draw;
  '(resp, r) ⇠ aopt (read_msg1 e_pk (responder_new sk pk));
  match r with
  | inl _ => log LogGmMsg1
  | inr _ =>
      '(resp, m2) ⇠ aopt (write_msg2 (hr_e_r (gmrng n)) (hr_ee (gmrng n)) resp);
      match m2 with
      | inl _ => log LogGmMsg1
      | inr m2 =>
          _ ⇠ mod_peer from (with_gm (Some (ServerWaitMsg3 resp)));
          gm_send from GM_MSG2 m2
      end
  end.

Definition gm_on_msg2 (from : NodeId) (body : list Z) (init : Initiator) : act unit :=
  a ⇠ aget;
  n ⇠ draw;
  '(init, r) ⇠ aopt (read_msg2 body init);
  match r with
  | inl _ => log LogGmMsg2
  | inr _ =>
      '(init, r) ⇠ aopt (write_msg3_with_auth (hr_se (gmrng n)) (hr_ss (gmrng n)) (hr_sign (gmrng n)) (gm_anchor a) init);
      match r with
      | inl _ => log LogGmMsg2
      | inr (m3, session) =>
          pkt ⇠ send_bind from session (default [] (in_peer_static init));
          _ ⇠ gm_send from GM_MSG3 m3;
          gm_send from GM_DATA pkt
      end
  end.

Definition gm_on_msg3 (from : NodeId) (body : list Z) (resp : Responder) : act unit :=
  a ⇠ aget;
  '(_, r) ⇠ aopt (read_msg3_with_auth body (gm_anchor a) resp);
  match r with
  | inl _ => log LogGmMsg3
  | inr (session, client_pk) =>
      pkt ⇠ send_bind from session client_pk;
      gm_send from GM_DATA pkt
  end.

Definition gm_on_data (from : NodeId) (body : list Z) : act unit :=
  p ⇠ get_peer from;
  out ⇠ match pe_gm p with
         | Some (ReadyUnbound session peer_gm_pk) =>
             r ⇠ aopt (session_recv body session);
             match r with
             | inl _ => aret (GDrop LogGmUnbound)
             | inr (session, pt) =>
                 _ ⇠ put_peer from (with_gm (Some (ReadyUnbound session peer_gm_pk)) p);
                 if starts_with BIND_PREFIX pt then
                   b ⇠ aopt (parse_bind pt from peer_gm_pk (se_id session));
                   aret (match b with inr _ => GBound | inl e => GDrop (LogGmBind e) end)
                 else aret (GDrop LogGmEarlyData)
             end
         | Some (Ready session) =>
             r ⇠ aopt (session_recv body session);
             match r with
             | inl _ => aret (GDrop LogGmReplay)
             | inr (session, pt) =>
                 _ ⇠ put_peer from (with_gm (Some (Ready session)) p);
                 aret (GPlain pt)
             end
         | _ => aret GIgnore
         end;
  match out with
  | GBound =>
      g ⇠ take_gm from;
      _ ⇠ match g with
           | Some (ReadyUnbound session _) => mod_peer from (with_gm (Some (Ready session)))
           | _ => aret tt
           end;
      _ ⇠ emit (EvSessionReady from SuiteGmPq);
      flush_pending from
  | GPlain pt => on_plain_inner from pt
  | GDrop m => log m
  | GIgnore => aret tt
  end.

Definition on_gm_frame (from : NodeId) (kind : Z) (body : list Z) : act unit :=
  a ⇠ aget;
  if negb (cf_gmpq (ac_cfg a)) || (match ac_gm_id a with Some _ => false | None => true end) then aret tt else
  let me := node_id (ac_identity a) in
  if kind =? GM_KICK then
    p ⇠ get_peer from;
    if (match pe_gm p with Some _ => false | None => true end) && negb (pe_gm_failed p) then
      if id_ltb me from then gm_start from
      else mod_peer from (with_gm (Some ServerWaitMsg1))
    else aret tt
  else if kind =? GM_MSG1 then
    if id_ltb me from then aret tt else
    p ⇠ get_peer from;
    match pe_gm p with
    | None | Some ServerWaitMsg1 =>
        issuer ⇠ aopt (ac_gm_cookie a);
        let cookie := cookie_issue (ac_wall a) from body issuer in
        _ ⇠ put_peer from (with_gm (Some (ServerWaitRetry body)) p);
        gm_send from GM_COOKIE cookie
    | Some _ => aret tt
    end
  else if kind =? GM_COOKIE then
    g ⇠ take_gm from;
    match g with
    | Some (ClientWaitCookie init e_pk) =>
        _ ⇠ mod_peer from (with_gm (Some (ClientWaitMsg2 init)));
        gm_send from GM_MSG1_RETRY (body ++ e_pk)
    | _ => aret tt
    end
  else if kind =? GM_MSG1_RETRY then
    g ⇠ take_gm from;
    match g with
    | Some (ServerWaitRetry e_pk) => gm_on_retry from body e_pk
    | _ => aret tt
    end
  else if kind =? GM_MSG2 then
    g ⇠ take_gm from;
    match g with
    | Some (ClientWaitMsg2 init) => gm_on_msg2 from body init
    | _ => aret tt
    end
  else if kind =? GM_MSG3 then
    g ⇠ take_gm from;
    match g with
    | Some (ServerWaitMsg3 resp) => gm_on_msg3 from body resp
    | _ => aret tt
    end
  else if kind =? GM_DATA then gm_on_data from body
  else aret tt.

Definition on_gm_check (peer : NodeId) (gen : Z) : act unit :=
  a ⇠ aget;
  match ac_peers a !! peer with
  | None => aret tt
  | Some p =>
      if negb (pe_gm_gen p =? gen) then aret tt else
      match pe_gm p with
      | None | Some (Ready _) => aret tt
      | Some _ =>
          let p := with_gm_failed true (with_gm None p) in
          _ ⇠ put_peer peer p;
          _ ⇠ log LogGmTimeout;
          match pe_pending p, pe_hs p, pe_session p with
          | _ :: _, None, None => start_hs peer
          | _, _, _ => aret tt
          end
      end
  end.

(** *** The X25519 channel *)

Definition on_hs_init (from : NodeId) (payload : list Z) : act unit :=
  a ⇠ aget;
  let me := node_id (ac_identity a) in
  p ⇠ get_peer from;
  match pe_session p with
  | Some _ => aret tt
  | None =>
      if (match pe_hs p with Some _ => true | None => false end) && id_ltb me from then aret tt else
      n ⇠ draw;
      r ⇠ aopt (hs_accept (rng n) (ac_identity a) from payload);
      match r with
      | inr (cipher, resp) =>
          _ ⇠ mod_peer from (λ p, with_hs None (with_session (Some cipher) p));
          _ ⇠ aout (OData from resp);
          _ ⇠ emit (EvSessionReady from SuiteX25519);
          flush_pending from
      | inl _ => log LogInitRejected
      end
  end.

Definition on_hs_resp (from : NodeId) (payload : list Z) : act unit :=
  a ⇠ aget;
  p ⇠ get_peer from;
  match pe_session p, pe_hs p with
  | Some _, _ => aret tt
  | None, None => aret tt
  | None, Some hs =>
      _ ⇠ put_peer from (with_hs None p);
      r ⇠ aopt (hs_finish (ac_identity a) hs payload);
      match r with
      | inr cipher =>
          _ ⇠ mod_peer from (with_session (Some cipher));
          _ ⇠ emit (EvSessionReady from SuiteX25519);
          flush_pending from
      | inl _ => log LogRespRejected
      end
  end.

Definition on_ciphertext (from : NodeId) (payload : list Z) : act unit :=
  p ⇠ get_peer from;
  match pe_session p with
  | None => log LogEarlyCiphertext
  | Some sess =>
      r ⇠ aopt (cipher_open payload sess);
      match r with
      | inl _ => log LogDecryption
      | inr (sess, inner) =>
          _ ⇠ put_peer from (with_session (Some sess) p);
          on_plain_inner from inner
      end
  end.

Definition on_relay_data (from : NodeId) (payload : list Z) : act unit :=
  _ ⇠ ensure_peer from;
  if feature && bool_decide (head payload = Some GM_TAG) then
    let kind := default 0 (vget payload 1) in
    body ⇠ aopt (slice payload 2 (zlen payload));
    on_gm_frame from kind body
  else if bool_decide (head payload = Some HS_TAG) then
    match vget payload 1 with
    | Some k =>
        if k =? HS_KIND_INIT then on_hs_init from payload
        else if k =? HS_KIND_RESP then on_hs_resp from payload
        else log LogUnknownHandshake
    | None => log LogUnknownHandshake
    end
  else on_ciphertext from payload.

Definition of_kind (k : Z) (cands : Candidates) : list SocketAddr := (filter (λ c, c.2 = k) cands).*1.

Definition on_relay_frame (f : Frame) : act unit :=
  match f with
  | Exchange peer cands =>
      _ ⇠ ensure_peer peer;
      _ ⇠ mod_peer peer (with_quic_cands (of_kind CAND_QUIC cands));
      a ⇠ aget;
      if negb (cf_enable_punch (ac_cfg a)) || (match ac_punching a !! peer with Some _ => true | None => false end) then aret tt else
      match of_kind CAND_PUNCH cands with
      | [] => log LogNoPunchCandidates
      | punch_addrs =>
          '(m, _) ⇠ aopt (handle Begin (punch_new (cf_punch_max_attempts (ac_cfg a))));
          '(m, actions) ⇠ aopt (handle (EvCandidates punch_addrs) m);
          _ ⇠ amod (λ a, set_punching (<[peer := m]> (ac_punching a)) a);
          _ ⇠ emit (EvPunchStarted peer);
          apply_punch_actions peer actions
      end
  | RelayData _ from payload => on_relay_data from payload
  | FError msg => log (LogRelayError msg)
  | _ => aret tt
  end.

(** ** Direct path *)

(** [peer] is the identity in the connection's certificate. *)
Definition on_new_conn (conn : nat) (peer : option NodeId) (outgoing : bool) : act unit :=
  match peer with
  | None => aout (OClose conn NoIdentity)
  | Some peer_id =>
      _ ⇠ ensure_peer peer_id;
      a ⇠ aget;
      let prefer_outgoing := id_ltb (node_id (ac_identity a)) peer_id in
      p ⇠ get_peer peer_id;
      let keep_old := match pe_direct p with
                      | Some (_, old_outgoing) => eqb old_outgoing prefer_outgoing || negb (eqb outgoing prefer_outgoing)
                      | None => false
                      end in
      if keep_old then aout (OClose conn Duplicate) else
      _ ⇠ match pe_direct p with Some (old, _) => aout (OClose old Superseded) | None => aret tt end;
      _ ⇠ put_peer peer_id (with_direct (Some (conn, outgoing)) (with_paths (on_direct_up (pe_paths p)) p));
      _ ⇠ match pe_direct p with None => emit (EvDirectReady peer_id) | Some _ => aret tt end;
      aout (OReader conn peer_id)
  end.

(** The direct path is gone. *)
Definition direct_lost (peer : NodeId) (p : Peer) : act unit :=
  a ⇠ aget;
  let '(paths, sw) := on_direct_down (ac_now a) (pe_paths p) in
  _ ⇠ put_peer peer (with_paths paths (with_direct None p));
  emit_switch peer sw.

Definition on_conn_closed (peer : NodeId) (sid : nat) : act unit :=
  a ⇠ aget;
  match ac_peers a !! peer with
  | None => aret tt
  | Some p =>
      match pe_direct p with
      | Some (c, _) => if bool_decide (c = sid) then direct_lost peer p else aret tt
      | None => aret tt
      end
  end.

(** [wr] says whether a write on the direct connection succeeds. *)
Definition on_send_to (peer : NodeId) (payload : list Z) (wr : bool) : act unit :=
  _ ⇠ ensure_peer peer;
  p ⇠ get_peer peer;
  sent ⇠ match pa_active (pe_paths p), pe_direct p with
          | PDirect, Some (conn, _) =>
              if wr then _ ⇠ aout (OWrite conn payload); aret true
              else
                _ ⇠ log LogDirectSendFailed;
                _ ⇠ direct_lost peer p;
                aret false
          | _, _ => aret false
          end;
  if (sent : bool) then aret tt else relay_send_inner peer ([INNER_DATA] ++ payload).

(** ** Probes *)

Definition DURATION_MAX : Z := u64_max * 1000000000 + 999999999.

(** The sample of the direct path and the events it is worth. *)
Definition probe_direct (qstats : nat → Z * Z * Duration) (pid : NodeId) : act (list NodeEvent) :=
  p ⇠ get_peer pid;
  match pe_direct p with
  | None => aret []
  | Some (conn, _) =>
      a ⇠ aget;
      let '(sent, lost, rtt) := qstats conn in
      let interval_loss := match pe_counters p with
                           | Some (s0, l0) =>
                               let ds := sat_sub sent s0 in
                               let dl := sat_sub lost l0 in
                               if 0 <? ds then f_div (f_of_Z dl) (f_of_Z ds) else f_of_Z 0
                           | None => f_of_Z 0
                           end in
      let p := with_counters (Some (sent, lost)) p in
      let '(paths, sw) := on_sample PDirect (mkSample (Some rtt) (Some interval_loss)) (ac_now a) (pe_paths p) in
      _ ⇠ put_peer pid (with_paths paths p);
      aret ([EvRttSample pid PDirect (f_mul (as_secs_f64 rtt) (f_of_Z 1000)) (f_mul interval_loss (f_of_Z 100))] ++
            match sw with Some s => [EvPathSwitch pid (sw_from s) (sw_to s)] | None => [] end)
  end.

Definition expire_ping (pp : gmap Z Instant * list bool) (id : Z) : gmap Z Instant * list bool :=
  (delete id pp.1, push_outcome false pp.2).

Definition probe_relay (pid : NodeId) : act unit :=
  a ⇠ aget;
  p ⇠ get_peer pid;
  limit ⇠ aopt (mul_chk DURATION_MAX (cf_probe_interval (ac_cfg a)) 3);
  let expired := (filter (λ e, limit < duration_since (ac_now a) e.2) (hm_iter (pe_pings p))).*1 in
  let '(pings, outcomes) := foldl expire_ping (pe_pings p, pe_outcomes p) expired in
  let p := with_pings pings outcomes p in
  _ ⇠ put_peer pid p;
  let has_session := match pe_session p with Some _ => true | None => false end ||
                     feature && match pe_gm p with Some (Ready _) => true | _ => false end in
  if has_session then
    id ⇠ aopt (add_chk u64_max (ac_ping_seq a) 1);
    _ ⇠ amod (set_ping_seq id);
    _ ⇠ put_peer pid (with_pings (<[id := ac_now a]> (pe_pings p)) (pe_outcomes p) p);
    relay_send_inner pid ([INNER_PING] ++ to_be 8 id)
  else aret tt.

Fixpoint probe_all (qstats : nat → Z * Z * Duration) (pids : list NodeId) : act (list NodeEvent) :=
  match pids with
  | [] => aret []
  | pid :: pids' =>
      evs ⇠ probe_direct qstats pid;
      _ ⇠ probe_relay pid;
      evs' ⇠ probe_all qstats pids';
      aret (evs ++ evs')
  end.

Definition on_probe_tick (qstats : nat → Z * Z * Duration) : act unit :=
  a ⇠ aget;
  evs ⇠ probe_all qstats (hm_iter (ac_peers a)).*1;
  aeach emit evs.

(** ** The loop *)

Inductive NodeInput :=
  | InConnect (peer : NodeId) (ok : bool)
  | InSendTo (peer : NodeId) (payload : list Z) (wr : bool)
  | InProbe (qstats : nat → Z * Z * Duration)
  | InGmCheck (peer : NodeId) (gen : Z)
  | InFrame (f : Frame)
  | InConn (conn : nat) (peer : option NodeId) (outgoing : bool)
  | InConnClosed (peer : NodeId) (sid : nat)
  | InPunch (buf : list Z) (src : SocketAddr)
  | InPunchTick.

Definition node_handle (i : NodeInput) : act unit :=
  match i with
  | InConnect peer ok => on_connect_peer peer ok
  | InSendTo peer payload wr => on_send_to peer payload wr
  | InProbe qstats => on_probe_tick qstats
  | InGmCheck peer gen => if feature then on_gm_check peer gen else aret tt
  | InFrame f => on_relay_frame f
  | InConn conn peer outgoing => on_new_conn conn peer outgoing
  | InConnClosed peer sid => on_conn_closed peer sid
  | InPunch buf src =>
      from ⇠ aopt (decode_punch_packet buf);
      match from with Some id => on_punch_packet id src | None => aret tt end
  | InPunchTick => on_punch_tick
  end.

(** One event, at the given readings of the clocks. *)
Definition node_step (now : Instant) (wall : Z) (i : NodeInput) (a : Actor) : option (Actor * list Out) :=
  '(a, o, _) ← node_handle i (set_clock now wall a);
  Some (a, o).

Definition actor_new (identity : NodeIdentity) (gm_id : option (SecretKey * list Z)) (gm_cookie : option CookieIssuer)
    (gm_anchor : option PinFileAnchor) (cfg : NodeConfig) : Actor :=
  mkActor identity gm_id gm_cookie gm_anchor cfg ∅ ∅ ∅ 0 0 0 0.

End node.
