(* ===== verification/P2pNodeLink.v ===== *)
(** * P2P mesh: what the node promises

    Theorems about the actor of [P2pNode]: the payloads that panic it or end a
    session, and how two nodes settle on one direct connection.  That it never
    panics in the default build is in [P2pNodeSafe], how two nodes talk over a
    relay in [P2pLink]. *)

From S2P Require Import Prelude Bytes F64 P2pProto P2pPunch P2pPath P2pCrypto P2pNode.
From S2P Require Import RustStr GmCrypto GmSession GmCookie GmTrust GmKem GmHandshake.

(** ** Computations *)

Section acts.
Context {MP : MeshPrimitives} {PR : Primitives} {K : Kem}.

Lemma abind_Some {A B} (m : act A) (k : A → act B) a a' o y :
  abind m k a = Some (a', o, y) ↔ ∃ a1 o1 x o2, m a = Some (a1, o1, x) ∧ k x a1 = Some (a', o2, y) ∧ o = o1 ++ o2.
Proof.
  unfold abind. split.
  - intros ([[a1 o1] x] & H1 & H)%bind_Some. apply bind_Some in H as ([[a2 o2] y'] & H2 & [= -> <- ->]). eauto 10.
  - intros (a1 & o1 & x & o2 & -> & H & ->). cbn [mbind option_bind]. by rewrite H.
Qed.

Lemma abind_step {A B} (m : act A) (k : A → act B) a a1 o1 x : m a = Some (a1, o1, x) →
  abind m k a = '(a', o2, y) ← k x a1; Some (a', o1 ++ o2, y).
Proof. intros E. unfold abind. by rewrite E. Qed.

(** A step without output. *)
Lemma abind_quiet {A B} (m : act A) (k : A → act B) a a1 x : m a = Some (a1, [], x) → abind m k a = k x a1.
Proof. intros E. rewrite (abind_step _ _ _ _ _ _ E). by destruct (k x a1) as [[[? ?] ?]|]. Qed.

Lemma get_peer_ok id a p : ac_peers a !! id = Some p → get_peer id a = Some (a, [], p).
Proof. intros E. unfold get_peer, aget. rewrite (abind_quiet _ _ _ a a) by done. unfold aopt. by rewrite E. Qed.

Lemma put_peer_eq id p a : put_peer id p a = Some (set_peers (<[id := p]> (ac_peers a)) a, [], tt).
Proof. done. Qed.

Lemma mod_peer_ok id f a p : ac_peers a !! id = Some p → mod_peer id f a = Some (set_peers (<[id := f p]> (ac_peers a)) a, [], tt).
Proof. intros E. unfold mod_peer. by rewrite (abind_quiet _ _ _ a p) by by apply get_peer_ok. Qed.

Lemma ensure_peer_known instant_min id a p : ac_peers a !! id = Some p → ensure_peer instant_min id a = Some (a, [], tt).
Proof. intros E. unfold ensure_peer, aget. rewrite (abind_quiet _ _ _ a a) by done. by rewrite E. Qed.

Lemma set_peers_twice m m' a : set_peers m (set_peers m' a) = set_peers m a.
Proof. done. Qed.

End acts.

(** [aq] runs one quiet action whose result is known by one of the lemmas
    above or by computation. *)
Ltac aq :=
  first
    [ rewrite abind_quiet with (1 := get_peer_ok _ _ _ ltac:(eassumption))
    | erewrite abind_quiet by reflexivity
    | erewrite abind_quiet by (by apply get_peer_ok)
    | erewrite abind_quiet by (by eapply ensure_peer_known) ].

(** The messages handed to the application. *)
Definition messages (os : list Out) : list (NodeId * PathKind * list Z) :=
  omap (λ o, match o with OEvent (EvMessage f v m) => Some (f, v, m) | _ => None end) os.

(** ** A payload of one byte *)

(** With the feature compiled in, a relayed payload that consists of the
    channel's marker alone panics the actor, whatever its state. *)
Theorem gm_marker_panics {MP : MeshPrimitives} {PR : Primitives} {K : Kem} {SA : StaticAuth K}
    {HO1 : HashOrder NodeId Peer} {HO2 : HashOrder NodeId PunchMachine} {HO3 : HashOrder Z Instant}
    instant_min rng gmrng now wall to from a :
  node_step true instant_min rng gmrng now wall (InFrame (RelayData to from [GM_TAG])) a = None.
Proof.
  unfold node_step. cbn [node_handle on_relay_frame]. unfold on_relay_data, abind at 1.
  by destruct (ensure_peer instant_min from (set_clock now wall a)) as [[[? ?] ?]|].
Qed.

(** ** A stray frame of the GM-PQ handshake *)

(** The frames whose handlers take the state out of the peer. *)
Definition taking_kinds : list Z := [GM_COOKIE; GM_MSG1_RETRY; GM_MSG2; GM_MSG3].

(** With the feature compiled in and the channel in use: a handshake frame
    that is not the one awaited discards the state, whatever it was.  An
    established session is lost without a trace in the log, to a payload of
    two bytes that carries no proof of who sent it. *)
Theorem gm_stray_frame_drops_session {MP : MeshPrimitives} {PR : Primitives} {K : Kem} {SA : StaticAuth K}
    {HO1 : HashOrder NodeId Peer} {HO2 : HashOrder NodeId PunchMachine} {HO3 : HashOrder Z Instant}
    instant_min rng gmrng now wall to from a p s kind body :
  ac_peers a !! from = Some p → pe_gm p = Some (Ready s) → cf_gmpq (ac_cfg a) = true → is_Some (ac_gm_id a) →
  kind ∈ taking_kinds →
  node_step true instant_min rng gmrng now wall (InFrame (RelayData to from ([GM_TAG; kind] ++ body))) a =
    Some (set_clock now wall (set_peers (<[from := with_gm None p]> (ac_peers a)) a), []).
Proof.
  intros Hp Hg Hc [gid Hid] Hk. unfold node_step. cbn [node_handle on_relay_frame]. set (a1 := set_clock now wall a).
  assert (ac_peers a1 !! from = Some p) as Hp1 by done.
  assert (take_gm from a1 = Some (set_peers (<[from := with_gm None p]> (ac_peers a1)) a1, [], Some (Ready s))) as Ht.
  { unfold take_gm. rewrite (abind_quiet _ _ _ a1 p) by by apply get_peer_ok. rewrite (abind_quiet _ _ _ _ _ (put_peer_eq _ _ _)). by rewrite <-Hg. }
  assert (slice ([GM_TAG; kind] ++ body) 2 (zlen ([GM_TAG; kind] ++ body)) = Some body) as Hs by (apply slice_tail; [done|by rewrite zlen_app]).
  unfold on_relay_data. rewrite (abind_quiet _ _ _ a1 tt) by by eapply ensure_peer_known.
  rewrite bool_decide_eq_true_2 by done. cbn [andb]. rewrite Hs. rewrite (abind_quiet _ _ _ a1 body) by done.
  change (default 0 (vget ([GM_TAG; kind] ++ body) 1)) with kind. unfold on_gm_frame, aget. rewrite (abind_quiet _ _ _ a1 a1) by done.
  change (ac_cfg a1) with (ac_cfg a). change (ac_gm_id a1) with (ac_gm_id a). rewrite Hc, Hid. cbn [negb orb].
  unfold taking_kinds in Hk. rewrite !elem_of_cons, elem_of_nil in Hk. destruct Hk as [->|[->|[->|[->|[]]]]].
  all: cbv beta iota zeta delta [GM_COOKIE GM_MSG1_RETRY GM_MSG2 GM_MSG3 GM_KICK GM_MSG1 GM_DATA Z.eqb Pos.eqb].
  all: by rewrite (abind_quiet _ _ _ _ _ Ht).
Qed.

(** ** A ciphertext that looks like a handshake *)

Section tagged.
Context {MP : MeshPrimitives} {PR : Primitives} {K : Kem} {SA : StaticAuth K}.
Context (instant_min : Z) (rng : nat → StaticSecret) (gmrng : nat → HsRandom).

Abbreviation data := (on_relay_data false instant_min rng gmrng).

Lemma data_tagged from c a p s : ac_peers a !! from = Some p → pe_session p = Some s → head c = Some HS_TAG →
  ∃ o, data from c a = Some (a, o, tt) ∧ messages o = [].
Proof.
  intros Hp Hs Hc. unfold on_relay_data. rewrite (abind_quiet _ _ _ a tt) by by eapply ensure_peer_known. cbn [andb].
  rewrite bool_decide_eq_true_2 by done. destruct (vget c 1) as [k|]; [|by eexists].
  destruct (k =? HS_KIND_INIT).
  { unfold on_hs_init, aget. rewrite (abind_quiet _ _ _ a a) by done. rewrite (abind_quiet _ _ _ a p) by by apply get_peer_ok.
    rewrite Hs. by eexists. }
  destruct (k =? HS_KIND_RESP); [|by eexists].
  unfold on_hs_resp, aget. rewrite (abind_quiet _ _ _ a a) by done. rewrite (abind_quiet _ _ _ a p) by by apply get_peer_ok.
  rewrite Hs. by eexists.
Qed.

Lemma data_undecryptable from c a p s : ac_peers a !! from = Some p → pe_session p = Some s →
  chacha_decrypt (sc_recv s) (nonce_bytes (sc_recv_ctr s)) c = None → ∃ o, data from c a = Some (a, o, tt) ∧ messages o = [].
Proof.
  intros Hp Hs Hd. destruct (decide (head c = Some HS_TAG)) as [Ht|Ht]; [by eapply data_tagged|].
  unfold on_relay_data. rewrite (abind_quiet _ _ _ a tt) by by eapply ensure_peer_known. cbn [andb].
  rewrite bool_decide_eq_false_2 by done. unfold on_ciphertext. rewrite (abind_quiet _ _ _ a p) by by apply get_peer_ok.
  rewrite Hs. unfold cipher_open. rewrite Hd. by eexists.
Qed.

Lemma datas_dropped from p s cs : ∀ a, ac_peers a !! from = Some p → pe_session p = Some s →
  Forall (λ c, head c = Some HS_TAG ∨ chacha_decrypt (sc_recv s) (nonce_bytes (sc_recv_ctr s)) c = None) cs →
  ∃ o, aeach (data from) cs a = Some (a, o, tt) ∧ messages o = [].
Proof.
  induction cs as [|c cs IH]; intros a Hp Hs Hcs; [by eexists|]. apply Forall_cons in Hcs as [Hc Hcs].
  assert (∃ o, data from c a = Some (a, o, tt) ∧ messages o = []) as (o1 & E1 & M1)
    by (destruct Hc; [by eapply data_tagged|by eapply data_undecryptable]).
  destruct (IH a Hp Hs Hcs) as (o2 & E2 & M2). exists (o1 ++ o2). cbn [aeach]. rewrite (abind_step _ _ _ _ _ _ E1), E2.
  cbn. split; [done|]. unfold messages in *. by rewrite omap_app, M1, M2.
Qed.

End tagged.

(** In the default build, a ciphertext whose first byte is the marker of a
    handshake message is taken for one and dropped without counting it; from
    then on no later ciphertext of the session is delivered, unless it also
    decrypts under the number that was missed. *)
Theorem tagged_ciphertext_ends_session {MP : MeshPrimitives} {PR : Primitives} {K : Kem} {SA : StaticAuth K}
    instant_min rng gmrng from a p (s sa : SessionCipher) m1 ms sa1 c1 sa2 cs :
  ac_peers a !! from = Some p → pe_session p = Some s → mirror sa s →
  cipher_seal m1 sa = ok (sa1, c1) → seal_all ms sa1 = ok (sa2, cs) → head c1 = Some HS_TAG →
  Forall (λ c, chacha_decrypt (sc_recv s) (nonce_bytes (sc_recv_ctr s)) c = None) cs →
  chacha_decrypt (sc_recv s) (nonce_bytes (sc_recv_ctr s)) c1 = Some m1 ∧
  ∃ o, aeach (on_relay_data false instant_min rng gmrng from) (c1 :: cs) a = Some (a, o, tt) ∧ messages o = [].
Proof.
  intros Hp Hs (Hk & _ & Hn & _) Hseal _ Ht Hcs. split.
  - unfold cipher_seal in Hseal. destruct (chacha_encrypt _ _ m1) as [c|] eqn:E; [|done].
    destruct (add_chk _ _ _); [|done]. injection Hseal as _ <-. rewrite <-Hk, <-Hn. by apply chacha_exact.
  - eapply datas_dropped; [done|done|]. constructor; [by left|]. eapply Forall_impl; [exact Hcs|]. intros c Hc. by right.
Qed.

(** A concrete session: the third argument is the initiator's draw, for which
    the toy cipher masks the first byte of a message into the marker. *)
Definition ex_a : NodeIdentity := @mkIdentity toy_mesh 5.
Definition ex_b : NodeIdentity := @mkIdentity toy_mesh 9.
Definition ex_key : list Z := @x_dh toy_mesh 2083 (@x_public toy_mesh 22).
Definition ex_cipher (role : HsRole) : SessionCipher := @derive toy_mesh ex_key (@node_id toy_mesh ex_a) (@node_id toy_mesh ex_b) role.
Definition ex_paths : PathManager := mkPaths PRelay false no_metrics no_metrics (lit 8 10) (from_millis 500) 0.
Definition ex_peer : @Peer toy_mesh toy_hybrid := mkPeer (Some (ex_cipher HsResponder)) None false 0 None [] ex_paths None [] ∅ [] None.
Definition ex_actor : @Actor toy_mesh toy_hybrid :=
  mkActor ex_b None None None (mkConfig true 20 0 false) {[ @node_id toy_mesh ex_a := ex_peer ]} ∅ ∅ 0 0 0 0.

Definition ex_sealed : option (list (list Z)) := Eval vm_compute in
  match @seal_all toy_mesh [[1; 7]; [1; 9]] (ex_cipher HsInitiator) with Some (inr (_, cs)) => Some cs | _ => None end.

Lemma tagged_ciphertext_ends_session_witness : ∃ c1 c2 o, ex_sealed = Some [c1; c2] ∧
  aeach (@on_relay_data toy_mesh toy_primitives toy_hybrid toy_auth false 0 (λ _, 0) (λ _, toy_random)
    (@node_id toy_mesh ex_a)) [c1; c2] ex_actor = Some (ex_actor, o, tt) ∧ messages o = [].
Proof.
  assert (∃ sa1 c1, @cipher_seal toy_mesh [1; 7] (ex_cipher HsInitiator) = ok (sa1, c1) ∧ head c1 = Some HS_TAG ∧
    ∃ sa2 c2, @seal_all toy_mesh [[1; 9]] sa1 = ok (sa2, [c2]) ∧ ex_sealed = Some [c1; c2] ∧
    @chacha_decrypt toy_mesh (sc_recv (ex_cipher HsResponder)) (nonce_bytes 0) c2 = None)
    as (sa1 & c1 & E1 & Ht & sa2 & c2 & E2 & E3 & Hd).
  { eexists _, _. split; [vm_compute; reflexivity|]. split; [reflexivity|]. eexists _, _. split; [vm_compute; reflexivity|].
    split; [reflexivity|]. vm_compute. reflexivity. }
  exists c1, c2.
  destruct (proj2 (@tagged_ciphertext_ends_session toy_mesh toy_primitives toy_hybrid toy_auth 0 (λ _, 0) (λ _, toy_random)
    (@node_id toy_mesh ex_a) ex_actor ex_peer (ex_cipher HsResponder) (ex_cipher HsInitiator) [1; 7] [[1; 9]] sa1 c1 sa2 [c2]
    (lookup_singleton_eq _ _) eq_refl (derive_mirror _ _ _ _ eq_refl) E1 E2 Ht (Forall_cons_2 _ _ _ Hd (Forall_nil_2 _)))) as (o & Eo & Mo).
  exists o. split; [exact E3|]. split; [exact Eo|exact Mo].
Defined.

(** ** One direct connection *)

(** The connection kept of those seen, in the order they were seen: the first
    of the preferred direction, or else the first. *)
Definition kept (prefer : bool) (l : list (nat * bool)) : option (nat * bool) :=
  match filter (λ c, c.2 = prefer) l with c :: _ => Some c | [] => head l end.

Definition closed (os : list Out) : list nat :=
  omap (λ o, match o with OClose c _ => Some c | _ => None end) os.

Section direct.
Context {MP : MeshPrimitives} {K : Kem} (instant_min : Z).

Definition see_conns (peer : NodeId) (l : list (nat * bool)) : act unit :=
  aeach (λ c, on_new_conn instant_min c.1 (Some peer) c.2) l.

Lemma kept_snoc prefer l c : kept prefer (l ++ [c]) =
  match kept prefer l with
  | None => Some c
  | Some old => if eqb old.2 prefer || negb (eqb c.2 prefer) then Some old else Some c
  end.
Proof.
  unfold kept. rewrite filter_app. destruct (filter (λ c, c.2 = prefer) l) as [|x k] eqn:El.
  - cbn [app]. rewrite filter_cons, filter_nil. destruct l as [|y l]; cbn [head app].
    + by destruct (decide _).
    + assert (y.2 ≠ prefer) as Hy. { intros Hy. rewrite filter_cons_True in El by done. done. }
      rewrite (proj2 (eqb_false_iff _ _)) by done. cbn [orb]. destruct (decide (c.2 = prefer)) as [->|Hc].
      * by rewrite eqb_reflx.
      * by rewrite (proj2 (eqb_false_iff _ _)) by done.
  - cbn [app]. assert (x.2 = prefer) as ->.
    { assert (x ∈ filter (λ c, c.2 = prefer) l) as [? _]%list_elem_of_filter by (rewrite El; set_solver). done. }
    by rewrite eqb_reflx.
Qed.

Lemma on_new_conn_ok a peer p c outgoing : ac_peers a !! peer = Some p →
  let prefer := id_ltb (node_id (ac_identity a)) peer in
  let keep_old := match pe_direct p with Some (_, old) => eqb old prefer || negb (eqb outgoing prefer) | None => false end in
  ∃ o p', on_new_conn instant_min c (Some peer) outgoing a = Some (set_peers (<[peer := p']> (ac_peers a)) a, o, tt) ∧
    pe_direct p' = (if keep_old then pe_direct p else Some (c, outgoing)) ∧
    closed o = (if keep_old then [c] else match pe_direct p with Some (old, _) => [old] | None => [] end).
Proof.
  intros Hp prefer keep_old. unfold on_new_conn. rewrite (abind_quiet _ _ _ a tt) by by eapply ensure_peer_known.
  unfold aget. rewrite (abind_quiet _ _ _ a a) by done. rewrite (abind_quiet _ _ _ a p) by by apply get_peer_ok.
  fold prefer. change (match pe_direct p with Some (_, old_outgoing) => eqb old_outgoing prefer || negb (eqb outgoing prefer) | None => false end) with keep_old.
  destruct keep_old eqn:Ek.
  - exists [OClose c Duplicate], p. split; [|done]. unfold aout. do 3 f_equal. destruct a. unfold set_peers. cbn in *. f_equal. by rewrite insert_id.
  - destruct (pe_direct p) as [[old d]|]; eexists _, _; (split; [reflexivity|done]).
Qed.

Lemma see_conns_spec peer l : ∀ a p seen, ac_peers a !! peer = Some p →
  pe_direct p = kept (id_ltb (node_id (ac_identity a)) peer) seen →
  ∃ a' o p', see_conns peer l a = Some (a', o, tt) ∧ ac_peers a' !! peer = Some p' ∧
    pe_direct p' = kept (id_ltb (node_id (ac_identity a)) peer) (seen ++ l).
Proof.
  induction l as [|[c out] l IH]; intros a p seen Hp Hd.
  { exists a, [], p. by rewrite app_nil_r. }
  unfold see_conns in *. cbn [aeach]. destruct (on_new_conn_ok a peer p c out Hp) as (o1 & p1 & E1 & D1 & _).
  cbn [fst snd]. rewrite (abind_step _ _ _ _ _ _ E1). set (a1 := set_peers (<[peer := p1]> (ac_peers a)) a) in *.
  assert (pe_direct p1 = kept (id_ltb (node_id (ac_identity a)) peer) (seen ++ [(c, out)])) as Hd1.
  { rewrite D1, kept_snoc, Hd. destruct (kept _ seen) as [[old d]|]; [|done]. cbn [snd]. by destruct (_ || _). }
  assert (ac_peers a1 !! peer = Some p1) as Hp1 by (cbn; by rewrite lookup_insert_eq).
  destruct (IH a1 p1 (seen ++ [(c, out)]) Hp1 Hd1) as (a' & o & p' & E & Hp' & Hd').
  rewrite E. cbn [mbind option_bind]. exists a', (o1 ++ o), p'. by rewrite cons_middle, app_assoc.
Qed.

Lemma kept_only prefer l c : filter (λ x, x.2 = prefer) l = [(c, prefer)] → kept prefer l = Some (c, prefer).
Proof. intros E. unfold kept. by rewrite E. Qed.

Lemma id_ltb_asym a : ∀ b, id_ltb a b = true → id_ltb b a = false.
Proof.
  induction a as [|x a IH]; intros [|y b]; cbn [id_ltb]; [done..|].
  rewrite (Z.eqb_sym y x). destruct (Z.eqb_spec x y) as [->|?]; [apply IH|]. intros ?%Z.ltb_lt. apply Z.ltb_ge. lia.
Qed.

Definition other_end (l : list (nat * bool)) : list (nat * bool) := (λ c, (c.1, negb c.2)) <$> l.

Lemma filter_other_end b l : filter (λ x, x.2 = negb b) (other_end l) = other_end (filter (λ x, x.2 = b) l).
Proof.
  unfold other_end. induction l as [|[c d] l IH]; [done|]. rewrite fmap_cons, !filter_cons, IH. cbn [snd fst].
  by destruct b, d.
Qed.

(** [C14] Both nodes of a pair dial each other, and the connections can come up
    in a different order at the two ends, any number of those dialled by
    the node with the larger identifier among them.  If the node with the
    smaller one dialled [c] only, both ends keep [c] and no other: what the
    ends keep does not depend on the orders. *)
Theorem direct_converges a b pa pb c la lb :
  id_ltb (node_id (ac_identity a)) (node_id (ac_identity b)) = true →
  ac_peers a !! node_id (ac_identity b) = Some pa → pe_direct pa = None →
  ac_peers b !! node_id (ac_identity a) = Some pb → pe_direct pb = None →
  lb ≡ₚ other_end la → filter (λ x, x.2 = true) la = [(c, true)] →
  ∃ a' oa pa' b' ob pb',
    see_conns (node_id (ac_identity b)) la a = Some (a', oa, tt) ∧ ac_peers a' !! node_id (ac_identity b) = Some pa' ∧
    see_conns (node_id (ac_identity a)) lb b = Some (b', ob, tt) ∧ ac_peers b' !! node_id (ac_identity a) = Some pb' ∧
    pe_direct pa' = Some (c, true) ∧ pe_direct pb' = Some (c, false).
Proof.
  intros Hlt Ha Da Hb Db Hperm Hc.
  destruct (see_conns_spec (node_id (ac_identity b)) la a pa [] Ha Da) as (a' & oa & pa' & Ea & Ha' & Ka).
  destruct (see_conns_spec (node_id (ac_identity a)) lb b pb [] Hb Db) as (b' & ob & pb' & Eb & Hb' & Kb).
  exists a', oa, pa', b', ob, pb'. split_and!; [done..| |].
  - rewrite Ka, Hlt. by apply kept_only.
  - rewrite Kb, (id_ltb_asym _ _ Hlt). apply kept_only, Permutation_singleton_r.
    rewrite Hperm. pose proof (filter_other_end true la) as E. cbn [negb app] in *.
    by rewrite E, Hc.
Qed.

End direct.

Definition ex_empty : @Peer toy_mesh toy_hybrid := mkPeer None None false 0 None [] ex_paths None [] ∅ [] None.
Definition ex_node (me other : NodeIdentity) : @Actor toy_mesh toy_hybrid :=
  mkActor me None None None (mkConfig true 20 0 false) {[ @node_id toy_mesh other := ex_empty ]} ∅ ∅ 0 0 0 0.

Lemma direct_converges_witness : ∃ a' oa pa' b' ob pb',
  @see_conns toy_mesh toy_hybrid 0 (@node_id toy_mesh ex_b) [(7%nat, false); (3%nat, true); (8%nat, false)] (ex_node ex_a ex_b) = Some (a', oa, tt) ∧
  ac_peers a' !! @node_id toy_mesh ex_b = Some pa' ∧
  @see_conns toy_mesh toy_hybrid 0 (@node_id toy_mesh ex_a) [(8%nat, true); (7%nat, true); (3%nat, false)] (ex_node ex_b ex_a) = Some (b', ob, tt) ∧
  ac_peers b' !! @node_id toy_mesh ex_a = Some pb' ∧ pe_direct pa' = Some (3%nat, true) ∧ pe_direct pb' = Some (3%nat, false).
Proof.
  apply (@direct_converges toy_mesh toy_hybrid 0 (ex_node ex_a ex_b) (ex_node ex_b ex_a) ex_empty ex_empty 3);
    [reflexivity|apply lookup_singleton_eq|reflexivity|apply lookup_singleton_eq|reflexivity| |reflexivity].
  cbn. rewrite (Permutation_swap (7%nat, true) (8%nat, true)). apply perm_skip. apply Permutation_swap.
Defined.

Definition ex_gm_peer : @Peer toy_mesh toy_hybrid :=
  mkPeer None (Some (Ready (session_new [1] [2] (replicate 32 3)))) false 1 None [] ex_paths None [] ∅ [] None.
Definition ex_gm_actor : @Actor toy_mesh toy_hybrid :=
  mkActor ex_b (Some (toy_key 20 21, public_of (toy_key 20 21))) None None (mkConfig true 20 0 true) {[ @node_id toy_mesh ex_a := ex_gm_peer ]} ∅ ∅ 0 0 0 0.

Lemma gm_stray_frame_drops_session_witness :
  @node_step toy_mesh toy_primitives toy_hybrid toy_auth true 0 (λ _, 0) (λ _, toy_random) default_order default_order default_order 5 6
    (InFrame (RelayData (@node_id toy_mesh ex_b) (@node_id toy_mesh ex_a) [GM_TAG; GM_COOKIE])) ex_gm_actor =
  Some (set_clock 5 6 (set_peers (<[@node_id toy_mesh ex_a := with_gm None ex_gm_peer]> (ac_peers ex_gm_actor)) ex_gm_actor), []).
Proof.
  apply (@gm_stray_frame_drops_session toy_mesh toy_primitives toy_hybrid toy_auth default_order default_order default_order 0 (λ _, 0) (λ _, toy_random)
    5 6 (@node_id toy_mesh ex_b) (@node_id toy_mesh ex_a) ex_gm_actor ex_gm_peer (session_new [1] [2] (replicate 32 3)) GM_COOKIE []);
    [apply lookup_singleton_eq|reflexivity|reflexivity|by eexists|by constructor].
Defined.
