(* ===== verification/P2pNodeSafe.v ===== *)
(** * P2P mesh: the node never panics

    The actor of [P2pNode] in the default build, over any run of events: what
    the relay, the peers, the sockets and the application may hand it.  The
    invariant says that every address being punched belongs to a peer in the
    table, and bounds the counters by the number of events so far. *)

From S2P Require Import Prelude Bytes P2pProto P2pPunch P2pPath P2pCrypto P2pNode P2pNodeLink.
From S2P Require Import RustStr GmCrypto GmSession GmCookie GmTrust GmKem GmHandshake.

Section safe.
Context {MP : MeshPrimitives} {PR : Primitives} {K : Kem} {SA : StaticAuth K}.
Context {HO1 : HashOrder NodeId Peer} {HO2 : HashOrder NodeId PunchMachine} {HO3 : HashOrder Z Instant}.
Context (instant_min : Z) (rng : nat → StaticSecret) (gmrng : nat → HsRandom).

(** The number of messages sealed for a peer or waiting to be, and of those
    opened. *)
Definition load (p : Peer) : Z := default 0 (sc_send_ctr <$> pe_session p) + zlen (pe_pending p).
Definition opened (p : Peer) : Z := default 0 (sc_recv_ctr <$> pe_session p).

Record inv (B : Z) (a : Actor) : Prop := mkInv {
  inv_punching id m : ac_punching a !! id = Some m → is_Some (ac_peers a !! id) ∧ pm_max_attempts m ≤ u32_max;
  inv_peers id p : ac_peers a !! id = Some p → load p ≤ B ∧ opened p ≤ B;
  inv_seq : ac_ping_seq a ≤ B;
  inv_attempts : cf_punch_max_attempts (ac_cfg a) ≤ u32_max;
  inv_interval : cf_probe_interval (ac_cfg a) * 3 ≤ DURATION_MAX;
  inv_now : instant_min + from_secs 3600 ≤ ac_now a
}.

Lemma inv_mono B B' a : inv B a → B ≤ B' → inv B' a.
Proof. intros [H1 H2 H3 H4 H5 H6] Hb. split; try done; [|lia]. intros id p Hp. apply H2 in Hp. lia. Qed.

Lemma dom_put id (p : Peer) a : is_Some (ac_peers a !! id) → dom (<[id := p]> (ac_peers a)) = dom (ac_peers a).
Proof. intros Hs. rewrite dom_insert_L. apply elem_of_dom in Hs. set_solver. Qed.

Lemma inv_put B a id p : inv B a → load p ≤ B → opened p ≤ B → inv B (set_peers (<[id := p]> (ac_peers a)) a).
Proof.
  intros [H1 H2 H3 H4 H5 H6] Hl Ho. split; try done.
  - intros id' m Hm. cbn in *. destruct (H1 id' m Hm) as [Hs Hm']. split; [|done]. destruct (decide (id = id')) as [->|].
    + by rewrite lookup_insert_eq.
    + by rewrite lookup_insert_ne.
  - intros id' p' Hp. cbn in Hp. apply lookup_insert_Some in Hp as [[-> <-]|[_ Hp]]; [done|by apply H2 in Hp].
Qed.

(** [m] does not panic, keeps the invariant and the peers. *)
Definition runs {A} (B : Z) (m : act A) (a : Actor) : Prop :=
  ∃ a' o x, m a = Some (a', o, x) ∧ inv B a' ∧ dom (ac_peers a') = dom (ac_peers a).

Lemma runs_bind {A C} B (m : act A) (f : A → act C) a : runs B m a →
  (∀ a1 o x, m a = Some (a1, o, x) → inv B a1 → dom (ac_peers a1) = dom (ac_peers a) → runs B (f x) a1) → runs B (abind m f) a.
Proof.
  intros (a1 & o & x & E & Hi & Hd) Hf. destruct (Hf a1 o x E Hi Hd) as (a2 & o2 & y & E2 & Hi2 & Hd2).
  exists a2, (o ++ o2), y. rewrite (abind_step _ _ _ _ _ _ E), E2. split; [done|]. split; [done|congruence].
Qed.

Lemma runs_quiet {A C} B (m : act A) (f : A → act C) a a1 x : m a = Some (a1, [], x) → dom (ac_peers a1) = dom (ac_peers a) →
  runs B (f x) a1 → runs B (abind m f) a.
Proof.
  intros E Hd (a2 & o & y & E2 & Hi & Hd2). exists a2, o, y. rewrite (abind_quiet _ _ _ _ _ E). split; [done|]. split; [done|congruence].
Qed.

Lemma runs_done {A} B (m : act A) a a' o x : m a = Some (a', o, x) → inv B a' → dom (ac_peers a') = dom (ac_peers a) → runs B m a.
Proof. intros. by exists a', o, x. Qed.

Lemma runs_ret {A} B (x : A) a : inv B a → runs B (aret x) a.
Proof. intros. by eapply runs_done. Qed.

Lemma runs_out B o a : inv B a → runs B (aout o) a.
Proof. intros. by eapply runs_done. Qed.

Lemma runs_get {C} B (f : Actor → act C) a : runs B (f a) a → runs B (abind aget f) a.
Proof. intros. by eapply runs_quiet. Qed.

Lemma runs_get_peer {C} B (f : Peer → act C) a id p : ac_peers a !! id = Some p → runs B (f p) a → runs B (abind (get_peer id) f) a.
Proof. intros Hp Hr. eapply runs_quiet; [by apply get_peer_ok|done|done]. Qed.

Lemma runs_opt {A C} B (v : option A) (f : A → act C) a x : v = Some x → runs B (f x) a → runs B (abind (aopt v) f) a.
Proof. intros -> Hr. by eapply runs_quiet. Qed.

Lemma runs_put B id p a : inv B a → is_Some (ac_peers a !! id) → load p ≤ B → opened p ≤ B → runs B (put_peer id p) a.
Proof. intros Hi Hs Hl Ho. eapply runs_done; [apply put_peer_eq|by apply inv_put|by apply dom_put]. Qed.

Lemma known_dom id a a1 p : ac_peers a !! id = Some p → dom (ac_peers a1) = dom (ac_peers a) → ∃ p1, ac_peers a1 !! id = Some p1.
Proof. intros Hp Hd. assert (id ∈ dom (ac_peers a1)) as [p1 H1]%elem_of_dom by (rewrite Hd; by apply elem_of_dom_2 in Hp). by exists p1. Qed.

Lemma runs_each {A} B (f : A → act unit) l : ∀ a, inv B a →
  (∀ x a1, x ∈ l → inv B a1 → dom (ac_peers a1) = dom (ac_peers a) → runs B (f x) a1) → runs B (aeach f l) a.
Proof.
  induction l as [|x l IH]; intros a Hi Hf; [by apply runs_ret|]. cbn [aeach]. apply runs_bind.
  - apply Hf; [set_solver|done|done].
  - intros a1 o u _ Hi1 Hd1. apply IH; [done|]. intros y a2 Hy Hi2 Hd2. apply Hf; [set_solver|done|congruence].
Qed.

(** ** Sending *)

Abbreviation send := (relay_send_inner false instant_min rng gmrng).

Lemma runs_draw {C} B (f : nat → act C) a : (runs B (f (ac_draws a)) (set_draws (S (ac_draws a)) a)) → runs B (abind draw f) a.
Proof. intros Hr. by eapply runs_quiet. Qed.

Lemma inv_draws B n a : inv B a → inv B (set_draws n a).
Proof. by intros [H1 H2 H3 H4 H5 H6]; split. Qed.

(** One message: the load grows by one at most. *)
Lemma send_fine B a id p m : inv B a → ac_peers a !! id = Some p → load p + 1 ≤ B → B ≤ u64_max →
  ∃ a' o p', send id m a = Some (a', o, tt) ∧ inv B a' ∧ dom (ac_peers a') = dom (ac_peers a) ∧ ac_peers a' !! id = Some p' ∧
    load p' ≤ load p + 1 ∧ (is_Some (pe_session p) → is_Some (pe_session p')).
Proof.
  intros Hi Hp Hl Hb. destruct (inv_peers _ _ Hi _ _ Hp) as [_ Ho]. unfold relay_send_inner.
  rewrite (abind_quiet _ _ _ a tt) by by eapply ensure_peer_known. rewrite (abind_quiet _ _ _ a p) by by apply get_peer_ok.
  destruct (pe_session p) as [s|] eqn:Es.
  - unfold load in Hl. rewrite Es in Hl. cbn in Hl. pose proof (zlen_nonneg (pe_pending p)). unfold cipher_seal.
    destruct (chacha_encrypt _ _ m) as [c|]; [rewrite add_chk_ok by lia|].
    + set (s' := mkCipher _ _ _ _). rewrite (abind_quiet _ _ _ a (inr (s', c))) by done. rewrite (abind_quiet _ _ _ _ _ (put_peer_eq _ _ _)).
      eexists _, _, (with_session (Some s') p). split; [done|]. split.
      { apply inv_put; [done|unfold load; cbn; lia|unfold opened in *; rewrite Es in Ho; cbn in *; lia]. }
      split; [by apply dom_put|]. split; [apply lookup_insert_eq|]. split; [unfold load; rewrite Es; cbn; lia|by eexists].
    + rewrite (abind_quiet _ _ _ a (inl EncryptionFailed)) by done. eexists _, _, p. split; [done|]. rewrite Es.
      split_and!; try done. lia.
  - rewrite (abind_quiet _ _ _ _ _ (put_peer_eq _ _ _)). set (p1 := with_pending _ p). set (a1 := set_peers _ a).
    assert (load p1 = load p + 1) as Hl1 by (unfold load, p1; cbn; rewrite Es, zlen_app; change (zlen [m]) with 1; cbn; lia).
    assert (inv B a1) as Hi1. { apply inv_put; [done|lia|exact Ho]. }
    unfold aget. rewrite (abind_quiet _ _ _ a1 a1) by done. cbn [andb]. assert (ac_peers a1 !! id = Some p1) as Hp1 by apply lookup_insert_eq.
    assert (dom (ac_peers a1) = dom (ac_peers a)) as Hd1 by by apply dom_put.
    destruct (pe_hs p) as [hs|]; [exists a1, [], p1; split_and!; try done; lia|].
    unfold start_hs, aget. rewrite (abind_quiet _ _ _ a1 a1) by done. erewrite (abind_quiet draw) by reflexivity.
    destruct (hs_start _ _ _) as [hs msg]. set (a2 := set_draws _ a1). assert (ac_peers a2 !! id = Some p1) as Hp2 by done.
    rewrite (abind_quiet _ _ _ _ _ (mod_peer_ok _ _ _ _ Hp2)). eexists _, _, (with_hs (Some hs) p1). split; [done|]. split.
    { apply inv_put; [by apply inv_draws|change (load p1 ≤ B); lia|exact Ho]. }
    split; [cbn; rewrite dom_insert_L, <-Hd1; apply elem_of_dom_2 in Hp1; set_solver|]. split; [apply lookup_insert_eq|].
    split; [change (load p1 ≤ load p + 1); lia|by intros [? ?]].
Qed.

Lemma send_runs B B' a id p m : inv B a → ac_peers a !! id = Some p → B + 1 ≤ B' → B' ≤ u64_max → runs B' (send id m) a.
Proof.
  intros Hi Hp Hb Hb'. destruct (inv_peers _ _ Hi _ _ Hp) as [Hl _].
  destruct (send_fine B' a id p m) as (a' & o & p' & E & Hi' & Hd & _); [eapply inv_mono; [done|lia]|done|lia|done|]. by eapply runs_done.
Qed.

Lemma sends_run B ms : ∀ a id p, inv B a → ac_peers a !! id = Some p → is_Some (pe_session p) → load p + zlen ms ≤ B → B ≤ u64_max →
  runs B (aeach (send id) ms) a.
Proof.
  induction ms as [|m ms IH]; intros a id p Hi Hp Hs Hl Hb; [by apply runs_ret|]. rewrite zlen_cons in Hl. pose proof (zlen_nonneg ms).
  destruct (send_fine B a id p m Hi Hp) as (a1 & o & p1 & E & Hi1 & Hd & Hp1 & Hl1 & Hs1); [lia|done|]. cbn [aeach].
  apply runs_bind; [by eapply runs_done|]. intros a2 o2 u E2 _ _. rewrite E in E2. injection E2 as <- <- <-.
  eapply IH; [done..|by apply Hs1|lia|done].
Qed.

Lemma flush_runs B a id p : inv B a → ac_peers a !! id = Some p → is_Some (pe_session p) → B ≤ u64_max →
  runs B (flush_pending false instant_min rng gmrng id) a.
Proof.
  intros Hi Hp Hs Hb. unfold flush_pending. destruct (inv_peers _ _ Hi _ _ Hp) as [Hl Ho]. eapply runs_get_peer; [done|].
  assert (load (with_pending [] p) + zlen (pe_pending p) = load p) as Hl0
    by (unfold load; cbn [with_pending pe_session pe_pending]; change (zlen []) with 0; lia). pose proof (zlen_nonneg (pe_pending p)).
  eapply runs_quiet; [apply put_peer_eq|by apply dom_put|]. eapply (sends_run B _ _ id (with_pending [] p));
    [apply inv_put; [done|lia|exact Ho]|apply lookup_insert_eq|done|lia|done].
Qed.

(** ** Receiving *)

Lemma runs_switch B id sw a : inv B a → runs B (emit_switch id sw) a.
Proof. intros Hi. destruct sw; [by apply runs_out|by apply runs_ret]. Qed.

Lemma plain_runs B B' a id p inner : inv B a → ac_peers a !! id = Some p → B + 1 ≤ B' → B' ≤ u64_max →
  runs B' (on_plain_inner false instant_min rng gmrng id inner) a.
Proof.
  intros Hi Hp Hb Hb'. assert (inv B' a) as Hi' by (eapply inv_mono; [done|lia]). unfold on_plain_inner.
  destruct inner as [|t rest]; [by apply runs_ret|]. destruct (t =? INNER_DATA); [by apply runs_out|].
  destruct ((t =? INNER_PING) && _) eqn:E1.
  { apply andb_true_iff in E1 as [_ E1%Z.leb_le]. destruct (slice (t :: rest) 1 9) as [b|] eqn:Es; [|rewrite slice_ok in Es by lia; done].
    eapply runs_opt; [done|]. by eapply (send_runs B). }
  destruct ((t =? INNER_PONG) && _) eqn:E2; [|by apply runs_ret].
  apply andb_true_iff in E2 as [_ E2%Z.leb_le]. destruct (slice (t :: rest) 1 9) as [b|] eqn:Es; [|rewrite slice_ok in Es by lia; done].
  eapply runs_opt; [done|]. eapply runs_get_peer; [done|]. destruct (pe_pings p !! _); [|by apply runs_ret]. apply runs_get.
  destruct (on_sample _ _ _ _) as [paths sw]. destruct (inv_peers _ _ Hi' _ _ Hp) as [Hl Ho].
  apply runs_bind; [apply runs_put; [done|by eexists|exact Hl|exact Ho]|]. intros a1 o1 u1 _ Hi1 _. apply runs_bind; [by apply runs_out|]. intros a2 o2 u2 _ Hi2 _. by apply runs_switch.
Qed.

Lemma ciphertext_runs B B' a id p c : inv B a → ac_peers a !! id = Some p → B + 2 ≤ B' → B' ≤ u64_max →
  runs B' (on_ciphertext false instant_min rng gmrng id c) a.
Proof.
  intros Hi Hp Hb Hb'. assert (inv (B + 1) a) as Hi1 by (eapply inv_mono; [done|lia]). assert (inv B' a) as Hi' by (eapply inv_mono; [done|lia]).
  destruct (inv_peers _ _ Hi _ _ Hp) as [Hl Ho]. unfold on_ciphertext. eapply runs_get_peer; [done|].
  destruct (pe_session p) as [s|] eqn:Es; [|by apply runs_out]. unfold opened in Ho. rewrite Es in Ho. cbn in Ho. unfold cipher_open.
  destruct (chacha_decrypt _ _ c) as [m|]; [|eapply runs_opt; [done|by apply runs_out]].
  rewrite add_chk_ok by lia. eapply runs_opt; [done|]. cbv beta iota. set (s' := mkCipher _ _ _ _).
  assert (load (with_session (Some s') p) = load p) as Hl' by (unfold load; cbn; by rewrite Es).
  eapply runs_quiet; [apply put_peer_eq|by apply dom_put|].
  eapply (plain_runs (B + 1)); [apply inv_put; [done|lia|unfold opened; cbn; lia]|apply lookup_insert_eq|lia|done].
Qed.

Lemma hs_init_runs B a id p c : inv B a → 0 ≤ B → ac_peers a !! id = Some p → B ≤ u64_max → runs B (on_hs_init false instant_min rng gmrng id c) a.
Proof.
  intros Hi H0 Hp Hb. destruct (inv_peers _ _ Hi _ _ Hp) as [Hl Ho]. unfold on_hs_init. apply runs_get. eapply runs_get_peer; [done|].
  destruct (pe_session p) as [s|] eqn:Es; [by apply runs_ret|].
  match goal with |- runs _ (if ?t then _ else _) _ => destruct t end; [by apply runs_ret|]. apply runs_draw.
  assert (inv B (set_draws (S (ac_draws a)) a)) as Hi2 by by apply inv_draws. set (a2 := set_draws _ a) in *.
  destruct (hs_accept_total (rng (ac_draws a)) (ac_identity a) id c) as [r Er]. eapply runs_opt; [done|].
  destruct r as [e|[s resp]]; [by apply runs_out|]. destruct (hs_accept_inv _ _ _ _ _ _ Er) as (? & ? & _ & _ & _ & _ & -> & _).
  set (s := derive _ _ _ _). set (p1 := with_hs None (with_session (Some s) p)). assert (load p1 = load p) as Hl1 by (unfold load; cbn; by rewrite Es).
  assert (ac_peers a2 !! id = Some p) as Hp2 by done.
  eapply runs_quiet; [exact (mod_peer_ok _ _ _ _ Hp2)|by apply dom_put|]. set (a3 := set_peers _ a2).
  assert (inv B a3) as Hi3. { apply inv_put; [done|unfold p1 in *; lia|unfold opened; cbn; lia]. }
  assert (ac_peers a3 !! id = Some p1) as Hp3 by apply lookup_insert_eq.
  eapply runs_bind; [by apply runs_out|]. intros a4 o4 u4 [= <- <- <-] _ _. eapply runs_bind; [by apply runs_out|]. intros a5 o5 u5 [= <- <- <-] _ _.
  eapply flush_runs; [done|exact Hp3|by eexists|done].
Qed.

Lemma hs_resp_runs B a id p c : inv B a → 0 ≤ B → ac_peers a !! id = Some p → B ≤ u64_max → runs B (on_hs_resp false instant_min rng gmrng id c) a.
Proof.
  intros Hi H0 Hp Hb. destruct (inv_peers _ _ Hi _ _ Hp) as [Hl Ho]. unfold on_hs_resp. apply runs_get. eapply runs_get_peer; [done|].
  destruct (pe_session p) as [s|] eqn:Es; [by apply runs_ret|]. destruct (pe_hs p) as [hs|]; [|by apply runs_ret].
  eapply runs_quiet; [apply put_peer_eq|by apply dom_put|]. set (a1 := set_peers _ a).
  assert (inv B a1) as Hi1 by (by apply inv_put). assert (ac_peers a1 !! id = Some (with_hs None p)) as Hp1 by apply lookup_insert_eq.
  destruct (hs_finish_total (ac_identity a) hs c) as [r Er]. eapply runs_opt; [done|].
  destruct r as [e|s]; [by apply runs_out|]. destruct (hs_finish_inv _ _ _ _ Er) as (? & ? & _ & _ & _ & _ & ->).
  set (s := derive _ _ _ _). set (p1 := with_session (Some s) (with_hs None p)).
  assert (load p1 = load p) as Hl1 by (unfold load; cbn; by rewrite Es).
  eapply runs_quiet; [exact (mod_peer_ok _ _ _ _ Hp1)|by apply dom_put|]. set (a3 := set_peers _ a1).
  assert (inv B a3) as Hi3. { apply inv_put; [done|unfold p1 in *; lia|unfold opened; cbn; lia]. }
  assert (ac_peers a3 !! id = Some p1) as Hp3 by apply lookup_insert_eq.
  eapply runs_bind; [by apply runs_out|]. intros a4 o4 u4 [= <- <- <-] _ _. eapply flush_runs; [done|exact Hp3|by eexists|done].
Qed.

(** The peer is in the table afterwards. *)
Lemma ensure_runs B a id : inv B a → 0 ≤ B → ∃ a1 p, ensure_peer instant_min id a = Some (a1, [], tt) ∧ inv B a1 ∧
  ac_peers a1 !! id = Some p ∧ dom (ac_peers a1) = {[id]} ∪ dom (ac_peers a) ∧ ac_cfg a1 = ac_cfg a ∧ ac_identity a1 = ac_identity a ∧ ac_punching a1 = ac_punching a.
Proof.
  intros Hi H0. unfold ensure_peer, aget. rewrite (abind_quiet _ _ _ a a) by done. destruct (ac_peers a !! id) as [p|] eqn:Ep.
  - exists a, p. split_and!; try done. apply elem_of_dom_2 in Ep. set_solver.
  - pose proof (inv_now _ _ Hi) as Hn. unfold peer_new, path_new, instant_sub. rewrite (proj2 (Z.leb_le _ _)) by lia. cbn [mbind option_bind].
    rewrite (abind_quiet _ _ _ a _) by done. eexists _, _. split; [apply put_peer_eq|].
    split; [apply inv_put; [done|by unfold load; cbn|by unfold opened; cbn]|]. split; [apply lookup_insert_eq|]. split; [apply dom_insert_L|done].
Qed.

(** [m] may add one peer. *)
Definition stays {A} (B : Z) (m : act A) (a : Actor) : Prop :=
  ∃ a' o x, m a = Some (a', o, x) ∧ inv B a' ∧ (size (ac_peers a') ≤ S (size (ac_peers a)))%nat.

Lemma runs_stays {A} B (m : act A) a : runs B m a → stays B m a.
Proof. intros (a' & o & x & E & Hi & Hd). exists a', o, x. split; [done|]. split; [done|]. rewrite <-!size_dom, Hd. lia. Qed.

Lemma ensure_stays {A} B B' id (m : act A) a : inv B a → 0 ≤ B →
  (∀ a1 p, inv B a1 → ac_peers a1 !! id = Some p → ac_cfg a1 = ac_cfg a → runs B' m a1) → stays B' (abind (ensure_peer instant_min id) (λ _, m)) a.
Proof.
  intros Hi H0 Hm. destruct (ensure_runs B a id Hi H0) as (a1 & p & E & Hi1 & Hp & Hd & Hc & _).
  destruct (Hm a1 p Hi1 Hp Hc) as (a2 & o & x & E2 & Hi2 & Hd2). exists a2, o, x. rewrite (abind_quiet _ _ _ _ _ E). split; [done|]. split; [done|].
  rewrite <-!size_dom, Hd2, Hd, size_union_alt, size_singleton. assert (dom (ac_peers a) ∖ {[id]} ⊆ dom (ac_peers a)) as Hs by set_solver.
  apply subseteq_size in Hs. lia.
Qed.

Lemma relay_data_stays B B' a id c : inv B a → 0 ≤ B → B + 2 ≤ B' → B' ≤ u64_max → stays B' (on_relay_data false instant_min rng gmrng id c) a.
Proof.
  intros Hi H0 Hb Hb'. unfold on_relay_data. eapply (ensure_stays B); [done|done|]. intros a1 p Hi1 Hp _. cbn [andb].
  assert (inv B' a1) as Hi1' by (eapply inv_mono; [done|lia]). case_bool_decide; [|by eapply (ciphertext_runs B)].
  destruct (vget c 1) as [k|]; [|by apply runs_out]. destruct (k =? HS_KIND_INIT); [eapply hs_init_runs; [done|lia|done..]|].
  destruct (k =? HS_KIND_RESP); [eapply hs_resp_runs; [done|lia|done..]|by apply runs_out].
Qed.

(** ** Punching *)

Lemma inv_punch_put B a id m : inv B a → is_Some (ac_peers a !! id) → pm_max_attempts m ≤ u32_max → inv B (set_punching (<[id := m]> (ac_punching a)) a).
Proof.
  intros [H1 H2 H3 H4 H5 H6] Hs Hm. split; try done. intros id' m' Hp. cbn in *.
  apply lookup_insert_Some in Hp as [[-> <-]|[_ Hp]]; [done|by apply H1].
Qed.

Lemma inv_punch_del B a id : inv B a → inv B (set_punching (delete id (ac_punching a)) a).
Proof. intros [H1 H2 H3 H4 H5 H6]. split; try done. intros id' m' Hp. cbn in *. apply lookup_delete_Some in Hp as [_ Hp]. by apply H1. Qed.

Lemma handle_ok ev m : pm_max_attempts m ≤ u32_max → ∃ m' acts, handle ev m = Some (m', acts) ∧ pm_max_attempts m' = pm_max_attempts m.
Proof.
  intros Hm. unfold handle. destruct (pm_state m), ev; try by eexists _, _. destruct (Z.leb_spec (pm_max_attempts m) (pm_attempts m)); [by eexists _, _|].
  rewrite add_chk_ok by lia. by eexists _, _.
Qed.

Lemma punch_done_runs B a id addr : inv B a → is_Some (ac_peers a !! id) → runs B (on_punch_done id addr) a.
Proof.
  intros Hi [p Hp]. destruct (inv_peers _ _ Hi _ _ Hp) as [Hl Ho]. unfold on_punch_done. destruct addr as [src|].
  - apply runs_get. rewrite Hp. eapply runs_quiet; [apply put_peer_eq|by apply dom_put|]. set (a1 := set_peers _ a).
    assert (inv B a1) as Hi1 by (apply inv_put; [done|exact Hl|exact Ho]).
    apply runs_bind; [by apply runs_out|]. intros a2 o2 u2 [= <- <- <-] _ _. eapply runs_get_peer; [apply lookup_insert_eq|].
    match goal with |- runs _ (match ?t with _ => _ end) _ => destruct t end; by apply runs_out.
  - apply runs_bind; [by apply runs_out|]. intros a2 o2 u2 _ Hi2 _. by apply runs_out.
Qed.

Lemma punch_actions_run B a id acts : inv B a → is_Some (ac_peers a !! id) → runs B (apply_punch_actions id acts) a.
Proof.
  intros Hi Hs. apply runs_each; [done|]. intros x a1 _ Hi1 Hd. assert (is_Some (ac_peers a1 !! id)) as Hs1 by by apply elem_of_dom; rewrite Hd; apply elem_of_dom.
  destruct x as [addr|src|]; [by apply runs_out|..].
  all: eapply runs_quiet; [done|done|]; apply punch_done_runs; [by apply inv_punch_del|done].
Qed.

Lemma punch_event_runs B a id m ev : inv B a → ac_punching a !! id = Some m → runs B (punch_event id m ev) a.
Proof.
  intros Hi Hm. destruct (inv_punching _ _ Hi _ _ Hm) as [Hs Hx]. unfold punch_event. destruct (handle_ok ev m Hx) as (m' & acts & E & Hx').
  eapply runs_opt; [done|]. cbv beta iota. eapply runs_quiet; [done|done|]. apply punch_actions_run; [apply inv_punch_put; [done|done|lia]|done].
Qed.

Lemma punch_tick_runs B a : inv B a → runs B on_punch_tick a.
Proof.
  intros Hi. unfold on_punch_tick. apply runs_get. apply runs_each; [done|]. intros id a1 _ Hi1 _. apply runs_get.
  destruct (ac_punching a1 !! id) as [m|] eqn:Em; [by apply punch_event_runs|by apply runs_ret].
Qed.

Lemma punch_packet_runs B a id src : inv B a → runs B (on_punch_packet id src) a.
Proof.
  intros Hi. unfold on_punch_packet. apply runs_get. destruct (ac_punching a !! id) as [m|] eqn:Em; [by apply punch_event_runs|].
  destruct (ac_peers a !! id); [|by apply runs_ret]. assert (∀ b, inv B (set_budget b a)) as Hb by (intros b; by destruct Hi; split).
  destruct (0 <? _); [|by eapply runs_done]. eapply runs_quiet; [done|done|]. by apply runs_out.
Qed.

Lemma decode_punch_total buf : is_Some (decode_punch_packet buf).
Proof.
  unfold decode_punch_packet. destruct (Z.eqb_spec (zlen buf) PUNCH_PACKET_LEN) as [Hl|]; cbn [negb]; [|by eexists]. unfold PUNCH_PACKET_LEN in Hl.
  rewrite !slice_ok by lia. cbn [mbind option_bind]. destruct (negb _); by eexists.
Qed.

Lemma frame_stays B B' a f : inv B a → 0 ≤ B → B + 2 ≤ B' → B' ≤ u64_max → stays B' (on_relay_frame false instant_min rng gmrng f) a.
Proof.
  intros Hi H0 Hb Hb'. assert (inv B' a) as Hi' by (eapply inv_mono; [done|lia]).
  destruct f; cbn [on_relay_frame]; try (apply runs_stays; by apply runs_ret || by apply runs_out).
  - eapply (ensure_stays B'); [done|lia|]. intros a1 p Hi1 Hp Hcf. destruct (inv_peers _ _ Hi1 _ _ Hp) as [Hl Ho].
    eapply runs_quiet; [exact (mod_peer_ok _ _ _ _ Hp)|by apply dom_put|]. apply runs_get. set (a2 := set_peers _ a1).
    assert (inv B' a2) as Hi2 by (apply inv_put; [done|exact Hl|exact Ho]). assert (is_Some (ac_peers a2 !! peer)) as Hs2 by (eexists; apply lookup_insert_eq).
    destruct (_ || _); [by apply runs_ret|]. destruct (of_kind CAND_PUNCH _) as [|x l]; [by apply runs_out|]. cbn [handle punch_new pm_state].
    eapply runs_opt; [done|]. cbv beta iota. eapply runs_opt; [done|]. cbv beta iota. eapply runs_quiet; [done|done|].
    set (a3 := set_punching _ a2). assert (inv B' a3) as Hi3 by (apply inv_punch_put; [done|done|apply (inv_attempts _ _ Hi2)]).
    apply runs_bind; [by apply runs_out|]. intros a4 o4 u4 [= <- <- <-] _ _. by apply punch_actions_run.
  - by eapply (relay_data_stays B).
Qed.

(** ** The direct path, the probes and the application *)

Lemma direct_lost_runs B a id p : inv B a → ac_peers a !! id = Some p → runs B (direct_lost id p) a.
Proof.
  intros Hi Hp. destruct (inv_peers _ _ Hi _ _ Hp) as [Hl Ho]. unfold direct_lost. apply runs_get. destruct (on_direct_down _ _) as [paths sw].
  apply runs_bind; [apply runs_put; [done|by eexists|exact Hl|exact Ho]|]. intros a1 o1 u1 _ Hi1 _. by apply runs_switch.
Qed.

Lemma conn_closed_runs B a id sid : inv B a → runs B (on_conn_closed id sid) a.
Proof.
  intros Hi. unfold on_conn_closed. apply runs_get. destruct (ac_peers a !! id) as [p|] eqn:Ep; [|by apply runs_ret].
  destruct (pe_direct p) as [[c ?]|]; [|by apply runs_ret]. case_bool_decide; [by apply direct_lost_runs|by apply runs_ret].
Qed.

Lemma new_conn_stays B a conn peer outgoing : inv B a → 0 ≤ B → stays B (on_new_conn instant_min conn peer outgoing) a.
Proof.
  intros Hi H0. unfold on_new_conn. destruct peer as [id|]; [|apply runs_stays; by apply runs_out].
  eapply (ensure_stays B); [done|done|]. intros a1 p Hi1 Hp _. destruct (inv_peers _ _ Hi1 _ _ Hp) as [Hl Ho]. apply runs_get.
  eapply runs_get_peer; [done|]. match goal with |- runs _ (if ?t then _ else _) _ => destruct t end; [by apply runs_out|].
  apply runs_bind; [destruct (pe_direct p) as [[old ?]|]; [by apply runs_out|by apply runs_ret]|]. intros a2 o2 u2 E2 Hi2 Hd2.
  assert (a2 = a1) as -> by (destruct (pe_direct p) as [[? ?]|]; by injection E2 as <- _).
  apply runs_bind; [apply runs_put; [done|by eexists|exact Hl|exact Ho]|]. intros a3 o3 u3 _ Hi3 _.
  apply runs_bind; [destruct (pe_direct p); [by apply runs_ret|by apply runs_out]|]. intros a4 o4 u4 _ Hi4 _. by apply runs_out.
Qed.

Lemma send_to_stays B B' a id m wr : inv B a → 0 ≤ B → B + 1 ≤ B' → B' ≤ u64_max → stays B' (on_send_to false instant_min rng gmrng id m wr) a.
Proof.
  intros Hi H0 Hb Hb'. unfold on_send_to. eapply (ensure_stays B); [done|done|]. intros a1 p Hi1 Hp _. eapply runs_get_peer; [done|].
  set (step := match pa_active (pe_paths p) with PDirect => _ | PRelay => _ end : act bool).
  assert (runs B step a1) as (a2 & o & sent & E & Hi2 & Hd).
  { unfold step. destruct (pa_active (pe_paths p)); [|by apply runs_ret]. destruct (pe_direct p) as [[conn ?]|]; [|by apply runs_ret]. destruct wr.
    - apply runs_bind; [by apply runs_out|]. intros a2 o2 u2 _ Hi2 _. by apply runs_ret.
    - apply runs_bind; [by apply runs_out|]. intros a2 o2 u2 [= <- <- <-] _ _. apply runs_bind; [by apply direct_lost_runs|].
      intros a3 o3 u3 _ Hi3 _. by apply runs_ret. }
  assert (runs B' step a1) as Hs by (exists a2, o, sent; split_and!; [done|eapply inv_mono; [done|lia]|done]).
  apply runs_bind; [exact Hs|]. intros a3 o3 sent3 E3 _ _. rewrite E in E3. injection E3 as <- <- <-. destruct sent; [apply runs_ret; eapply inv_mono; [done|lia]|].
  destruct (known_dom _ _ _ _ Hp Hd) as [p2 Hp2]. by eapply (send_runs B).
Qed.


Lemma stays_get {A} B (f : Actor → act A) a : stays B (f a) a → stays B (abind aget f) a.
Proof. intros (a' & o & x & E & Hi & Hd). exists a', o, x. by rewrite (abind_quiet aget _ a a a) by done. Qed.

Lemma connect_stays B a id ok : inv B a → 0 ≤ B → stays B (on_connect_peer instant_min id ok) a.
Proof.
  intros Hi H0. unfold on_connect_peer. apply stays_get. case_bool_decide; [apply runs_stays; by apply runs_out|].
  eapply (ensure_stays B); [done|done|]. intros a1 p Hi1 _ _. destruct (_ && _); [|by apply runs_ret]. destruct ok; [|by apply runs_out].
  apply runs_bind; [by apply runs_out|]. intros a2 o2 u2 _ Hi2 _. by apply runs_out.
Qed.

Lemma probe_direct_runs B a qstats id p : inv B a → ac_peers a !! id = Some p → runs B (probe_direct qstats id) a.
Proof.
  intros Hi Hp. destruct (inv_peers _ _ Hi _ _ Hp) as [Hl Ho]. unfold probe_direct. eapply runs_get_peer; [done|].
  destruct (pe_direct p) as [[conn ?]|]; [|by apply runs_ret]. apply runs_get. destruct (qstats conn) as [[sent lost] rtt].
  destruct (on_sample _ _ _ _) as [paths sw]. apply runs_bind; [apply runs_put; [done|by eexists|exact Hl|exact Ho]|].
  intros a1 o1 u1 _ Hi1 _. by apply runs_ret.
Qed.

Lemma inv_ping_seq B n a : inv B a → n ≤ B → inv B (set_ping_seq n a).
Proof. intros [H1 H2 H3 H4 H5 H6] Hn. by split. Qed.

Lemma probe_relay_runs B B' a id p : inv B a → ac_peers a !! id = Some p → B + 1 ≤ B' → B' ≤ u64_max →
  runs B' (probe_relay false instant_min rng gmrng id) a.
Proof.
  intros Hi Hp Hb Hb'. assert (inv B' a) as Hi' by (eapply inv_mono; [done|lia]). destruct (inv_peers _ _ Hi _ _ Hp) as [Hl Ho].
  unfold probe_relay. apply runs_get. eapply runs_get_peer; [done|]. eapply runs_opt; [apply mul_chk_ok, (inv_interval _ _ Hi)|].
  destruct (foldl expire_ping _ _) as [pings outcomes]. set (p1 := with_pings pings outcomes p).
  eapply runs_quiet; [apply put_peer_eq|by apply dom_put|]. set (a1 := set_peers _ a).
  assert (inv B' a1) as Hi1 by (apply inv_put; [done|change (load p ≤ B'); lia|change (opened p ≤ B'); lia]).
  match goal with |- runs _ (if ?t then _ else _) _ => destruct t end; [|by apply runs_ret].
  pose proof (inv_seq _ _ Hi) as Hq. eapply runs_opt; [apply add_chk_ok; lia|]. eapply runs_quiet; [done|done|]. set (a2 := set_ping_seq _ a1).
  assert (inv B' a2) as Hi2 by (apply inv_ping_seq; [done|lia]).
  eapply runs_quiet; [apply put_peer_eq|apply dom_put; eexists; apply lookup_insert_eq|]. set (p2 := with_pings _ _ p1). set (a3 := set_peers _ a2).
  assert (inv B' a3) as Hi3 by (apply inv_put; [done|change (load p ≤ B'); lia|change (opened p ≤ B'); lia]).
  destruct (send_fine B' a3 id p2 ([INNER_PING] ++ to_be 8 (ac_ping_seq a + 1)) Hi3) as (a' & o & p' & E & Hi4 & Hd & _);
    [apply lookup_insert_eq|change (load p + 1 ≤ B'); lia|done|]. by eapply runs_done.
Qed.

Lemma probe_all_runs qstats ids : ∀ B B' a, inv B a → (∀ id, id ∈ ids → id ∈ dom (ac_peers a)) → B + zlen ids ≤ B' → B' ≤ u64_max →
  runs B' (probe_all false instant_min rng gmrng qstats ids) a.
Proof.
  induction ids as [|id ids IH]; intros B B' a Hi Hin Hb Hb'; [apply runs_ret; eapply inv_mono; [done|change (zlen []) with 0 in Hb; lia]|].
  rewrite zlen_cons in Hb. pose proof (zlen_nonneg ids). cbn [probe_all].
  assert (∃ p, ac_peers a !! id = Some p) as [p Hp] by (apply elem_of_dom, Hin; set_solver).
  assert (∀ {A} (m : act A) B1 B2 a1, runs B1 m a1 → B1 ≤ B2 → runs B2 m a1) as Hw.
  { intros A m B1 B2 a1 (a2 & o & x & E & H1 & H2) Hle. exists a2, o, x. split; [done|]. split; [by eapply inv_mono|done]. }
  destruct (probe_direct_runs B a qstats id p Hi Hp) as (a1 & o1 & evs & E1 & Hi1 & Hd1). destruct (known_dom _ _ _ _ Hp Hd1) as [p1 Hp1].
  destruct (probe_relay_runs B (B + 1) a1 id p1 Hi1 Hp1) as (a2 & o2 & u & E2 & Hi2 & Hd2); [lia|lia|].
  assert (runs B' (probe_all false instant_min rng gmrng qstats ids) a2) as Hr.
  { apply (IH (B + 1)); [done| |lia|done]. intros id' Hid. rewrite Hd2, Hd1. apply Hin. set_solver. }
  apply runs_bind; [eapply (Hw _ _ B); [by eapply runs_done|lia]|]. intros a1' o1' evs' E1' _ _. rewrite E1 in E1'. injection E1' as <- <- <-.
  apply runs_bind; [eapply (Hw _ _ (B + 1)); [by eapply runs_done|lia]|]. intros a2' o2' u' E2' _ _. rewrite E2 in E2'. injection E2' as <- <- <-.
  apply runs_bind; [exact Hr|]. intros a3 o3 evs3 _ Hi3 _. by apply runs_ret.
Qed.

Lemma probe_tick_runs B B' a qstats : inv B a → B + Z.of_nat (size (ac_peers a)) ≤ B' → B' ≤ u64_max →
  runs B' (on_probe_tick false instant_min rng gmrng qstats) a.
Proof.
  intros Hi Hb Hb'. unfold on_probe_tick. apply runs_get. apply runs_bind.
  - apply (probe_all_runs qstats _ B); [done| | |done].
    + intros id Hid. rewrite hm_iter_perm in Hid. apply list_elem_of_fmap in Hid as ([id' p] & -> & Hid). apply elem_of_map_to_list in Hid. by apply elem_of_dom_2 in Hid.
    + unfold zlen. rewrite hm_iter_perm, length_fmap, length_map_to_list. done.
  - intros a1 o1 evs _ Hi1 _. apply runs_each; [done|]. intros ev a2 _ Hi2 _. by apply runs_out.
Qed.

(** ** Runs *)

Lemma inv_clock B now wall a : inv B a → instant_min + from_secs 3600 ≤ now → inv B (set_clock now wall a).
Proof. intros [H1 H2 H3 H4 H5 H6] Hn. by split. Qed.

Lemma handle_stays B B' a i : inv B a → 0 ≤ B → B + Z.of_nat (size (ac_peers a)) + 2 ≤ B' → B' ≤ u64_max →
  stays B' (node_handle false instant_min rng gmrng i) a.
Proof.
  intros Hi H0 Hb Hb'. assert (inv B' a) as Hi' by (eapply inv_mono; [done|lia]). assert (0 ≤ B') by lia.
  destruct i as [id ok|id m wr|qstats|id gen|f|conn peer outgoing|id sid|buf src|]; cbn [node_handle].
  - by apply connect_stays.
  - eapply (send_to_stays B); [done|done|lia|done].
  - apply runs_stays. eapply (probe_tick_runs B); [done|lia|done].
  - apply runs_stays. by apply runs_ret.
  - eapply (frame_stays B); [done|done|lia|done].
  - by apply new_conn_stays.
  - apply runs_stays. by apply conn_closed_runs.
  - apply runs_stays. destruct (decode_punch_total buf) as [from E]. eapply runs_opt; [done|]. destruct from; [by apply punch_packet_runs|by apply runs_ret].
  - apply runs_stays. by apply punch_tick_runs.
Qed.

(** A run of events, each with the readings of the clocks. *)
Fixpoint node_run (evs : list (Instant * Z * NodeInput)) (a : Actor) : option (Actor * list Out) :=
  match evs with
  | [] => Some (a, [])
  | (now, wall, i) :: evs' =>
      '(a, o) ← node_step false instant_min rng gmrng now wall i a;
      '(a, o') ← node_run evs' a;
      Some (a, o ++ o')
  end.

Lemma node_run_total evs : ∀ n B a, inv B a → 0 ≤ B → Z.of_nat (size (ac_peers a)) ≤ n →
  Forall (λ e, instant_min + from_secs 3600 ≤ e.1.1) evs → B + zlen evs * (n + zlen evs + 2) ≤ u64_max → is_Some (node_run evs a).
Proof.
  induction evs as [|[[now wall] i] evs IH]; intros n B a Hi H0 Hn Hf Hb; [by eexists|]. apply Forall_cons in Hf as [Hnow Hf].
  rewrite zlen_cons in Hb. pose proof (zlen_nonneg evs). cbn [node_run]. unfold node_step.
  destruct (handle_stays B (B + n + 2) (set_clock now wall a) i) as (a1 & o & u & E & Hi1 & Hs1); [by apply inv_clock|done|cbn; lia|nia|].
  rewrite E. cbn [mbind option_bind]. destruct (IH (n + 1) (B + n + 2) a1 Hi1) as [[a2 o2] E2]; [lia|cbn in Hs1; lia|done|nia|].
  rewrite E2. by eexists.
Qed.

End safe.

(** [C11] The default build of the node, started with a punch limit that fits its
    type and a probe interval of which three fit a duration, at least an hour
    after the clock's origin: whatever events it handles, a number whose
    square fits the counters, in whatever order, it never panics. *)
Theorem node_never_panics {MP : MeshPrimitives} {PR : Primitives} {K : Kem} {SA : StaticAuth K}
    {HO1 : HashOrder NodeId Peer} {HO2 : HashOrder NodeId PunchMachine} {HO3 : HashOrder Z Instant}
    instant_min rng gmrng identity gm_id gm_cookie gm_anchor cfg evs :
  cf_punch_max_attempts cfg ≤ u32_max → cf_probe_interval cfg * 3 ≤ DURATION_MAX →
  Forall (λ e, instant_min + from_secs 3600 ≤ e.1.1) evs → zlen evs * (zlen evs + 2) ≤ u64_max →
  is_Some (node_run instant_min rng gmrng evs (actor_new identity gm_id gm_cookie gm_anchor cfg)).
Proof.
  intros Hm Hv Hf Hb. destruct evs as [|[[now wall] i] evs]; [by eexists|].
  assert (instant_min + from_secs 3600 ≤ now) as Hnow by (apply Forall_cons in Hf as [? _]; done).
  set (a := actor_new identity gm_id gm_cookie gm_anchor cfg).
  change (node_run instant_min rng gmrng ((now, wall, i) :: evs) a) with (node_run instant_min rng gmrng ((now, wall, i) :: evs) (set_clock now wall a)).
  eapply (node_run_total instant_min rng gmrng _ 0 0); [|done|done|done|lia].
  by split.
Qed.

Lemma node_never_panics_witness : is_Some (@node_run toy_mesh toy_primitives toy_hybrid toy_auth default_order default_order default_order 0
  (λ _, 11) (λ _, toy_random)
  [(4000000000000, 0, InSendTo [1] [2; 3] true); (4000000000000, 0, InFrame (RelayData [5] [1] [72])); (4000000000001, 0, InProbe (λ _, (0, 0, 0))); (4000000000001, 0, InPunchTick)]
  (actor_new ex_a None None None (mkConfig true 20 0 false))).
Proof.
  apply (@node_never_panics toy_mesh toy_primitives toy_hybrid toy_auth default_order default_order default_order 0 (λ _, 11) (λ _, toy_random)
    ex_a None None None (mkConfig true 20 0 false)); [by vm_compute|by vm_compute|repeat constructor; by vm_compute|by vm_compute].
Defined.
