(* ===== verification/P2pLink.v ===== *)
(** * P2P mesh: two nodes over a relay

    Two actors of [P2pNode] in the default build, whose relayed payloads pass
    through queues that keep the order.  Either may send at any time, and the
    queues may advance in any interleaving; the handshakes of both can cross.
    The theorem at the end shows that the nodes settle on one session and
    that every message arrives once and in order. *)

From S2P Require Import Prelude Bytes P2pProto P2pPunch P2pPath P2pCrypto P2pNode P2pNodeLink.
From S2P Require Import RustStr GmCrypto GmSession GmCookie GmTrust GmKem GmHandshake.

(** ** One node *)

Section one_node.
Context {MP : MeshPrimitives} {PR : Primitives} {K : Kem} {SA : StaticAuth K}.
Context {HO1 : HashOrder NodeId Peer} {HO2 : HashOrder NodeId PunchMachine} {HO3 : HashOrder Z Instant}.
Context (instant_min : Z) (rng : nat → StaticSecret) (gmrng : nat → HsRandom).

(** The session, the handshake under way and the waiting messages. *)
Definition View : Type := option SessionCipher * option HsState * list (list Z).

Definition peer_view (p : Peer) : View := (pe_session p, pe_hs p, pe_pending p).

(** What the actor of [me], which has drawn [n] times, holds for [peer]. *)
Definition known (me : NodeIdentity) (peer : NodeId) (n : nat) (v : View) (a : Actor) : Prop :=
  ac_identity a = me ∧ ac_draws a = n ∧
  ∃ p, ac_peers a !! peer = Some p ∧ peer_view p = v ∧ pe_direct p = None.

Definition at_end (me : NodeIdentity) (peer : NodeId) (n : nat) (v : View) (a : Actor) : Prop :=
  ac_identity a = me ∧ ac_draws a = n ∧
  match ac_peers a !! peer with
  | Some p => peer_view p = v ∧ pe_direct p = None
  | None => v = (None, None, [])
  end.

Lemma known_at_end me peer n v a : known me peer n v a → at_end me peer n v a.
Proof. intros (H1 & H2 & p & H3 & H4 & H5). split; [done|]. split; [done|]. by rewrite H3. Qed.

Lemma at_end_clock me peer n v a now wall : at_end me peer n v a → at_end me peer n v (set_clock now wall a).
Proof. done. Qed.

Lemma known_put me peer n v a p : ac_identity a = me → ac_draws a = n → peer_view p = v → pe_direct p = None →
  known me peer n v (set_peers (<[peer := p]> (ac_peers a)) a).
Proof. intros H1 H2 H3 H4. split; [done|]. split; [done|]. exists p. split; [apply lookup_insert_eq|done]. Qed.

Lemma ensure_at_end me peer n v a : at_end me peer n v a → instant_min + from_secs 3600 ≤ ac_now a →
  ∃ a', ensure_peer instant_min peer a = Some (a', [], tt) ∧ known me peer n v a'.
Proof.
  intros (H1 & H2 & H3) Hn. unfold ensure_peer, aget. rewrite (abind_quiet _ _ _ a a) by done.
  destruct (ac_peers a !! peer) as [p|] eqn:Ep.
  - exists a. split; [done|]. split; [done|]. split; [done|]. by exists p.
  - assert (∃ pm, path_new instant_min (ac_now a) = Some pm) as [pm Epm].
    { unfold path_new, instant_sub. destruct (Z.leb_spec instant_min (ac_now a - from_secs 3600)); [by eexists|lia]. }
    assert (∃ p, peer_new instant_min (ac_now a) = Some p ∧ peer_view p = (None, None, []) ∧ pe_direct p = None) as (p & E & Hv & Hd).
    { unfold peer_new. rewrite Epm. cbn [mbind option_bind]. by eexists. }
    rewrite (abind_quiet _ _ _ a p) by (unfold aopt; by rewrite E). eexists. split; [apply put_peer_eq|].
    subst v. by apply known_put.
Qed.

(** *** Sending *)

Abbreviation send := (relay_send_inner false instant_min rng gmrng).

Lemma send_sealed me peer n s h pd a m s' c : known me peer n (Some s, h, pd) a → cipher_seal m s = ok (s', c) →
  ∃ a', send peer m a = Some (a', [OData peer c], tt) ∧ known me peer n (Some s', h, pd) a'.
Proof.
  intros (H1 & H2 & p & Hp & [= Hs Hh Hpd] & Hd) E. unfold relay_send_inner.
  rewrite (abind_quiet _ _ _ a tt) by by eapply ensure_peer_known. rewrite (abind_quiet _ _ _ a p) by by apply get_peer_ok.
  rewrite Hs. rewrite (abind_quiet _ _ _ a (inr (s', c))) by (unfold aopt; by rewrite E).
  rewrite (abind_quiet _ _ _ _ _ (put_peer_eq _ _ _)). eexists. split; [done|].
  apply known_put; [done..| |done]. unfold peer_view. cbn. by rewrite Hh, Hpd.
Qed.

Lemma send_first me peer n pd a m : known me peer n (None, None, pd) a →
  ∃ a', send peer m a = Some (a', [OData peer (hs_start (rng n) me peer).2], tt) ∧
    known me peer (S n) (None, Some (hs_start (rng n) me peer).1, pd ++ [m]) a'.
Proof.
  intros (H1 & H2 & p & Hp & [= Hs Hh Hpd] & Hd). unfold relay_send_inner.
  rewrite (abind_quiet _ _ _ a tt) by by eapply ensure_peer_known. rewrite (abind_quiet _ _ _ a p) by by apply get_peer_ok.
  rewrite Hs. rewrite (abind_quiet _ _ _ _ _ (put_peer_eq _ _ _)). unfold aget. set (a1 := set_peers _ a).
  rewrite (abind_quiet _ _ _ a1 a1) by done. cbn [andb]. rewrite Hh. unfold start_hs, aget. rewrite (abind_quiet _ _ _ a1 a1) by done.
  set (a2 := set_draws (S n) a1). rewrite (abind_quiet draw _ a1 a2 n) by (unfold draw, abind, aget, amod, aret; cbn; by rewrite H2).
  change (ac_identity a1) with (ac_identity a). rewrite H1. destruct (hs_start (rng n) me peer) as [hs msg]. cbn [fst snd].
  assert (ac_peers a2 !! peer = Some (with_pending (pe_pending p ++ [m]) p)) as Hp2 by apply lookup_insert_eq.
  rewrite (abind_quiet _ _ _ _ _ (mod_peer_ok _ _ _ _ Hp2)). eexists. split; [done|].
  apply known_put; [done..| |done]. unfold peer_view. cbn. by rewrite Hs, Hpd.
Qed.

Lemma send_waiting me peer n h pd a m : known me peer n (None, Some h, pd) a →
  ∃ a', send peer m a = Some (a', [], tt) ∧ known me peer n (None, Some h, pd ++ [m]) a'.
Proof.
  intros (H1 & H2 & p & Hp & [= Hs Hh Hpd] & Hd). unfold relay_send_inner.
  rewrite (abind_quiet _ _ _ a tt) by by eapply ensure_peer_known. rewrite (abind_quiet _ _ _ a p) by by apply get_peer_ok.
  rewrite Hs. rewrite (abind_quiet _ _ _ _ _ (put_peer_eq _ _ _)). unfold aget. set (a1 := set_peers _ a).
  rewrite (abind_quiet _ _ _ a1 a1) by done. cbn [andb]. rewrite Hh. eexists. split; [done|].
  apply known_put; [done..| |done]. unfold peer_view. cbn. by rewrite Hs, Hh, Hpd.
Qed.

Lemma sends_sealed me peer n h ms : ∀ s pd a s' cs, known me peer n (Some s, h, pd) a → seal_all ms s = ok (s', cs) →
  ∃ a', aeach (send peer) ms a = Some (a', OData peer <$> cs, tt) ∧ known me peer n (Some s', h, pd) a'.
Proof.
  induction ms as [|m ms IH]; intros s pd a s' cs Hk E; [injection E as <- <-; by exists a|].
  cbn [seal_all] in E. apply try_bind_ok in E as ([s1 c] & E1 & E). apply try_bind_ok in E as ([s2 cs2] & E2 & E). injection E as <- <-.
  destruct (send_sealed _ _ _ _ _ _ _ _ _ _ Hk E1) as (a1 & F1 & Hk1). destruct (IH _ _ _ _ _ Hk1 E2) as (a2 & F2 & Hk2).
  exists a2. split; [|done]. cbn [aeach]. by rewrite (abind_step _ _ _ _ _ _ F1), F2.
Qed.

Lemma flush_sealed me peer n s h pd a s' cs : known me peer n (Some s, h, pd) a → seal_all pd s = ok (s', cs) →
  ∃ a', flush_pending false instant_min rng gmrng peer a = Some (a', OData peer <$> cs, tt) ∧ known me peer n (Some s', h, []) a'.
Proof.
  intros (H1 & H2 & p & Hp & [= Hs Hh Hpd] & Hd) E. unfold flush_pending. rewrite (abind_quiet _ _ _ a p) by by apply get_peer_ok.
  rewrite (abind_quiet _ _ _ _ _ (put_peer_eq _ _ _)), Hpd. eapply sends_sealed; [|done].
  apply known_put; [done..| |done]. unfold peer_view. cbn. by rewrite Hs, Hh.
Qed.

(** *** Receiving *)

Abbreviation data := (on_relay_data false instant_min rng gmrng).

Lemma data_init_accepted me peer n h pd a rest s resp s' cs : at_end me peer n (None, h, pd) a →
  instant_min + from_secs 3600 ≤ ac_now a → h = None ∨ id_ltb (node_id me) peer = false →
  hs_accept (rng n) me peer ([HS_TAG; HS_KIND_INIT] ++ rest) = ok (s, resp) → seal_all pd s = ok (s', cs) →
  ∃ a', data peer ([HS_TAG; HS_KIND_INIT] ++ rest) a =
      Some (a', OData peer resp :: OEvent (EvSessionReady peer SuiteX25519) :: (OData peer <$> cs), tt) ∧
    known me peer (S n) (Some s', None, []) a'.
Proof.
  intros Ha Hn Hh E1 E2. destruct (ensure_at_end _ _ _ _ _ Ha Hn) as (a1 & F1 & H1 & H2 & p & Hp & [= Hs Hhs Hpd] & Hd).
  unfold on_relay_data. rewrite (abind_quiet _ _ _ _ _ F1). cbn [andb].
  rewrite bool_decide_eq_true_2 by done. change (vget ([HS_TAG; HS_KIND_INIT] ++ rest) 1) with (Some HS_KIND_INIT).
  cbv beta iota. rewrite Z.eqb_refl. unfold on_hs_init, aget. rewrite (abind_quiet _ _ _ a1 a1) by done.
  rewrite (abind_quiet _ _ _ a1 p) by by apply get_peer_ok. rewrite Hs, Hhs, H1.
  assert (match h with Some _ => true | None => false end && id_ltb (node_id me) peer = false) as ->
    by (destruct Hh as [->| ->]; [done|by destruct h]).
  set (a2 := set_draws (S n) a1). rewrite (abind_quiet draw _ a1 a2 n) by (unfold draw, abind, aget, amod, aret; cbn; by rewrite H2).
  rewrite (abind_quiet _ _ _ a2 (inr (s, resp))) by (unfold aopt; by rewrite E1).
  assert (ac_peers a2 !! peer = Some p) as Hp2 by done. rewrite (abind_quiet _ _ _ _ _ (mod_peer_ok _ _ _ _ Hp2)). set (a3 := set_peers _ a2).
  assert (known me peer (S n) (Some s, None, pd) a3) as Hk3. { apply known_put; [done..| |done]. unfold peer_view. cbn. by rewrite Hpd. }
  destruct (flush_sealed _ _ _ _ _ _ _ _ _ Hk3 E2) as (a4 & F4 & Hk4). exists a4. split; [|done].
  unfold emit, aout. by do 2 (erewrite abind_step by reflexivity); rewrite F4.
Qed.

Lemma data_init_ignored me peer n h pd a rest : known me peer n (None, Some h, pd) a → id_ltb (node_id me) peer = true →
  data peer ([HS_TAG; HS_KIND_INIT] ++ rest) a = Some (a, [], tt).
Proof.
  intros (H1 & H2 & p & Hp & [= Hs Hhs Hpd] & Hd) Hlt.
  unfold on_relay_data. rewrite (abind_quiet _ _ _ a tt) by by eapply ensure_peer_known. cbn [andb].
  rewrite bool_decide_eq_true_2 by done. change (vget ([HS_TAG; HS_KIND_INIT] ++ rest) 1) with (Some HS_KIND_INIT).
  cbv beta iota. rewrite Z.eqb_refl. unfold on_hs_init, aget. rewrite (abind_quiet _ _ _ a a) by done.
  rewrite (abind_quiet _ _ _ a p) by by apply get_peer_ok. by rewrite Hs, Hhs, H1, Hlt.
Qed.

Lemma data_resp_accepted me peer n h pd a rest s s' cs : known me peer n (None, Some h, pd) a →
  hs_finish me h ([HS_TAG; HS_KIND_RESP] ++ rest) = ok s → seal_all pd s = ok (s', cs) →
  ∃ a', data peer ([HS_TAG; HS_KIND_RESP] ++ rest) a = Some (a', OEvent (EvSessionReady peer SuiteX25519) :: (OData peer <$> cs), tt) ∧
    known me peer n (Some s', None, []) a'.
Proof.
  intros (H1 & H2 & p & Hp & [= Hs Hhs Hpd] & Hd) E1 E2.
  unfold on_relay_data. rewrite (abind_quiet _ _ _ a tt) by by eapply ensure_peer_known. cbn [andb].
  rewrite bool_decide_eq_true_2 by done. change (vget ([HS_TAG; HS_KIND_RESP] ++ rest) 1) with (Some HS_KIND_RESP).
  cbv beta iota. change (HS_KIND_RESP =? HS_KIND_INIT) with false. rewrite Z.eqb_refl. cbv iota.
  unfold on_hs_resp, aget. rewrite (abind_quiet _ _ _ a a) by done. rewrite (abind_quiet _ _ _ a p) by by apply get_peer_ok.
  rewrite Hs, Hhs, H1, (abind_quiet _ _ _ _ _ (put_peer_eq _ _ _)). set (a1 := set_peers _ a).
  rewrite (abind_quiet _ _ _ a1 (inr s)) by (unfold aopt; by rewrite E1).
  assert (ac_peers a1 !! peer = Some (with_hs None p)) as Hp1 by apply lookup_insert_eq.
  rewrite (abind_quiet _ _ _ _ _ (mod_peer_ok _ _ _ _ Hp1)). set (a2 := set_peers _ a1).
  assert (known me peer n (Some s, None, pd) a2) as Hk2. { apply known_put; [done..| |done]. unfold peer_view. cbn. by rewrite Hpd. }
  destruct (flush_sealed _ _ _ _ _ _ _ _ _ Hk2 E2) as (a3 & F3 & Hk3). exists a3. split; [|done].
  unfold emit, aout. by erewrite abind_step by reflexivity; rewrite F3.
Qed.

Lemma data_opened me peer n s h pd a c s' m : known me peer n (Some s, h, pd) a → head c ≠ Some HS_TAG →
  cipher_open c s = ok (s', INNER_DATA :: m) →
  ∃ a', data peer c a = Some (a', [OEvent (EvMessage peer PRelay m)], tt) ∧ known me peer n (Some s', h, pd) a'.
Proof.
  intros (H1 & H2 & p & Hp & [= Hs Hhs Hpd] & Hd) Hc E.
  unfold on_relay_data. rewrite (abind_quiet _ _ _ a tt) by by eapply ensure_peer_known. cbn [andb].
  rewrite bool_decide_eq_false_2 by done. unfold on_ciphertext. rewrite (abind_quiet _ _ _ a p) by by apply get_peer_ok.
  rewrite Hs. rewrite (abind_quiet _ _ _ a (inr (s', INNER_DATA :: m))) by (unfold aopt; by rewrite E).
  rewrite (abind_quiet _ _ _ _ _ (put_peer_eq _ _ _)). eexists. split; [done|].
  apply known_put; [done..| |done]. unfold peer_view. cbn. by rewrite Hhs, Hpd.
Qed.

End one_node.

(** ** Messages in flight *)

Section flight.
Context {MP : MeshPrimitives}.

(** [ms] can be sent under the key [k] from the first number on: every one is
    short enough for the cipher and its ciphertext does not begin with the
    marker of a handshake message. *)
Definition clear_at (k : list Z) (i : nat) (m : list Z) : Prop :=
  ∃ c, chacha_encrypt k (nonce_bytes (Z.of_nat i)) (INNER_DATA :: m) = Some c ∧ head c ≠ Some HS_TAG.

Definition clear (k : list Z) (ms : list (list Z)) : Prop := ∀ i m, ms !! i = Some m → clear_at k i m.

(** [cs] are the ciphertexts of [ms], numbered from [n] on. *)
Inductive flight (k : list Z) : nat → list (list Z) → list (list Z) → Prop :=
  | flight_nil n : flight k n [] []
  | flight_cons n c m cs ms : chacha_encrypt k (nonce_bytes (Z.of_nat n)) (INNER_DATA :: m) = Some c → head c ≠ Some HS_TAG →
      flight k (S n) cs ms → flight k n (c :: cs) (m :: ms).

Lemma flight_snoc k c m cs : ∀ n ms, flight k n cs ms →
  chacha_encrypt k (nonce_bytes (Z.of_nat (n + length ms))) (INNER_DATA :: m) = Some c → head c ≠ Some HS_TAG →
  flight k n (cs ++ [c]) (ms ++ [m]).
Proof.
  induction cs as [|c' cs IH]; intros n ms Hf; inversion Hf; subst; cbn [app length]; intros E Hc.
  - rewrite Nat.add_0_r in E. by repeat constructor.
  - constructor; [done..|]. apply IH; [done| |done]. by replace (S n + length ms0)%nat with (n + S (length ms0))%nat by lia.
Qed.

Lemma flight_length k cs : ∀ n ms, flight k n cs ms → length cs = length ms.
Proof. induction cs as [|c cs IH]; intros n ms Hf; inversion Hf; subst; [done|]. cbn. f_equal. by eapply IH. Qed.

Lemma seal_clear k kr n r m : clear_at k n m → Z.of_nat n < u64_max →
  ∃ c, cipher_seal (INNER_DATA :: m) (mkCipher k kr (Z.of_nat n) r) = ok (mkCipher k kr (Z.of_nat (S n)) r, c) ∧
    chacha_encrypt k (nonce_bytes (Z.of_nat n)) (INNER_DATA :: m) = Some c ∧ head c ≠ Some HS_TAG.
Proof.
  intros (c & E & Hc) Hn. exists c. unfold cipher_seal. cbn [sc_send sc_send_ctr sc_recv sc_recv_ctr]. rewrite E.
  rewrite add_chk_ok by lia. by replace (Z.of_nat n + 1) with (Z.of_nat (S n)) by lia.
Qed.

Lemma seal_all_clear k kr r ms : ∀ n, (∀ i m, ms !! i = Some m → clear_at k (n + i) m) → Z.of_nat (n + length ms) ≤ u64_max →
  ∃ cs, seal_all (cons INNER_DATA <$> ms) (mkCipher k kr (Z.of_nat n) r) = ok (mkCipher k kr (Z.of_nat (n + length ms)) r, cs) ∧ flight k n cs ms.
Proof.
  induction ms as [|m ms IH]; intros n Hcl Hn.
  { exists []. rewrite Nat.add_0_r. split; [done|constructor]. }
  cbn [length] in Hn. destruct (seal_clear k kr n r m) as (c & E & Ec & Hc); [rewrite <-(Nat.add_0_r n); by apply Hcl|lia|].
  destruct (IH (S n)) as (cs & Es & Hf); [intros i x Hx; replace (S n + i)%nat with (n + S i)%nat by lia; by apply Hcl|lia|].
  exists (c :: cs). rewrite fmap_cons. cbn [seal_all]. rewrite E. cbn [try_bind ok]. rewrite Es. cbn [try_bind ok length].
  replace (n + S (length ms))%nat with (S n + length ms)%nat by lia. split; [done|]. by constructor.
Qed.

Lemma open_flight k ks n r c m cs ms : flight k n (c :: cs) (m :: ms) → Z.of_nat n < u64_max →
  cipher_open c (mkCipher ks k r (Z.of_nat n)) = ok (mkCipher ks k r (Z.of_nat (S n)), INNER_DATA :: m) ∧
  head c ≠ Some HS_TAG ∧ flight k (S n) cs ms.
Proof.
  intros Hf Hn. inversion Hf; subst. split_and!; [|done..]. unfold cipher_open. cbn [sc_send sc_send_ctr sc_recv sc_recv_ctr].
  rewrite (proj2 (chacha_exact _ _ _ _)) by done. rewrite add_chk_ok by lia. by replace (Z.of_nat n + 1) with (Z.of_nat (S n)) by lia.
Qed.

Lemma clear_prefix k l1 l2 : l1 `prefix_of` l2 → clear k l2 → clear k l1.
Proof. intros [l ->] Hc i m Hi. apply Hc. rewrite lookup_app. by rewrite Hi. Qed.

Lemma clear_last k l m l2 : (l ++ [m]) `prefix_of` l2 → clear k l2 → clear_at k (length l) m.
Proof. intros Hp Hc. apply (clear_prefix _ _ _ Hp Hc). rewrite lookup_app_r by lia. by rewrite Nat.sub_diag. Qed.

End flight.

(** ** Two nodes *)

Section link.
Context {MP : MeshPrimitives} {PR : Primitives} {K : Kem} {SA : StaticAuth K}.
Context {HO1 : HashOrder NodeId Peer} {HO2 : HashOrder NodeId PunchMachine} {HO3 : HashOrder Z Instant}.
Context (instant_min : Z) (gmrng : nat → HsRandom).

(** An end: the node, the payloads that the relay has for it, and the
    messages its application sent and was given. *)
Record End := mkEnd {
  e_actor : Actor;
  e_in : list (list Z);
  e_sent : list (list Z);
  e_got : list (list Z)
}.

Definition relayed (peer : NodeId) (os : list Out) : list (list Z) :=
  omap (λ o, match o with OData to p => if bool_decide (to = peer) then Some p else None | _ => None end) os.

Definition delivered (peer : NodeId) (os : list Out) : list (list Z) :=
  omap (λ o, match o with OEvent (EvMessage from _ m) => if bool_decide (from = peer) then Some m else None | _ => None end) os.

(** The end [x] handles an event; [y] is the other end. *)
Definition end_acts (rng : nat → StaticSecret) (peer : NodeId) (now : Instant) (i : NodeInput) (x y : End) : option (End * End) :=
  '(a, o) ← node_step false instant_min rng gmrng now 0 i (e_actor x);
  Some (mkEnd a (e_in x) (e_sent x) (e_got x ++ delivered peer o),
        mkEnd (e_actor y) (e_in y ++ relayed peer o) (e_sent y) (e_got y)).

Definition end_send (rng : nat → StaticSecret) (peer : NodeId) (now : Instant) (m : list Z) (x y : End) : option (End * End) :=
  end_acts rng peer now (InSendTo peer m true) (mkEnd (e_actor x) (e_in x) (e_sent x ++ [m]) (e_got x)) y.

Definition end_deliver (rng : nat → StaticSecret) (me peer : NodeId) (now : Instant) (x y : End) : option (End * End) :=
  match e_in x with
  | [] => Some (x, y)
  | p :: ps => end_acts rng peer now (InFrame (RelayData me peer p)) (mkEnd (e_actor x) ps (e_sent x) (e_got x)) y
  end.

(** *** What an end is in, and how it moves *)

Definition ticking (now : Instant) : Prop := instant_min + from_secs 3600 ≤ now.

Definition push (ps : list (list Z)) (y : End) : End := mkEnd (e_actor y) (e_in y ++ ps) (e_sent y) (e_got y).

Section moves.
Context (rng : nat → StaticSecret) (me : NodeIdentity) (peer : NodeId) (n : nat).

Definition fresh (x : End) : Prop := at_end me peer n (None, None, []) (e_actor x) ∧ e_sent x = [] ∧ e_got x = [].

Definition waiting (x : End) : Prop :=
  known me peer (S n) (None, Some (hs_start (rng n) me peer).1, cons INNER_DATA <$> e_sent x) (e_actor x) ∧ e_got x = [].

Definition live (ks kr : list Z) (x : End) : Prop :=
  ∃ j, known me peer j (Some (mkCipher ks kr (Z.of_nat (length (e_sent x))) (Z.of_nat (length (e_got x)))), None, []) (e_actor x).

Lemma relayed_datas cs : relayed peer (OData peer <$> cs) = cs.
Proof. unfold relayed. induction cs as [|c cs IH]; [done|]. cbn. rewrite bool_decide_eq_true_2 by done. cbn. by f_equal. Qed.

Lemma delivered_datas cs : delivered peer (OData peer <$> cs) = [].
Proof. unfold delivered. by induction cs as [|c cs IH]. Qed.

Lemma relayed_one c : relayed peer [OData peer c] = [c].
Proof. apply (relayed_datas [c]). Qed.

Lemma sends_over_relay now m v j a : at_end me peer j v a → ticking now →
  ∃ a1, known me peer j v a1 ∧ on_send_to false instant_min rng gmrng peer m true (set_clock now 0 a) =
    relay_send_inner false instant_min rng gmrng peer (INNER_DATA :: m) a1.
Proof.
  intros Ha Hn. destruct (ensure_at_end instant_min me peer j v (set_clock now 0 a) Ha Hn) as (a1 & F1 & Hk). exists a1. split; [done|].
  unfold on_send_to. rewrite (abind_quiet _ _ _ _ _ F1). destruct Hk as (_ & _ & p & Hp & _ & Hd).
  rewrite (abind_quiet _ _ _ a1 p) by by apply get_peer_ok. rewrite Hd. rewrite (abind_quiet _ _ _ a1 false); [done|].
  by destruct (pa_active (pe_paths p)).
Qed.


(** The queue and the records of [x]. *)
Definition holds (ins sent got : list (list Z)) (x : End) : Prop := e_in x = ins ∧ e_sent x = sent ∧ e_got x = got.

Lemma end_acts_ok now i x y a o : node_step false instant_min rng gmrng now 0 i (e_actor x) = Some (a, o) → delivered peer o = [] →
  end_acts rng peer now i x y = Some (mkEnd a (e_in x) (e_sent x) (e_got x), push (relayed peer o) y).
Proof. intros E Hd. unfold end_acts. rewrite E. cbn [mbind option_bind]. by rewrite Hd, app_nil_r. Qed.

Lemma send_live now m x y ks kr : live ks kr x → ticking now → clear_at ks (length (e_sent x)) m → Z.of_nat (length (e_sent x)) < u64_max →
  ∃ x' c, end_send rng peer now m x y = Some (x', push [c] y) ∧ live ks kr x' ∧ holds (e_in x) (e_sent x ++ [m]) (e_got x) x' ∧
    chacha_encrypt ks (nonce_bytes (Z.of_nat (length (e_sent x)))) (INNER_DATA :: m) = Some c ∧ head c ≠ Some HS_TAG.
Proof.
  intros [j Hk] Hn Hcl Hc. destruct (sends_over_relay now m _ _ _ (known_at_end _ _ _ _ _ Hk) Hn) as (a1 & Hk1 & E).
  destruct (seal_clear ks kr _ (Z.of_nat (length (e_got x))) m Hcl Hc) as (c & Es & Ec & Hh).
  destruct (send_sealed instant_min rng gmrng _ _ _ _ _ _ _ _ _ _ Hk1 Es) as (a2 & E2 & Hk2).
  eexists _, c. split.
  - unfold end_send. erewrite end_acts_ok; [by rewrite relayed_one|unfold node_step; cbn [node_handle e_actor]; by rewrite E, E2|done].
  - split; [|done]. exists j. cbn [e_sent e_got e_actor]. rewrite length_app, Nat.add_1_r. done.
Qed.

Lemma send_fresh now m x y : fresh x → ticking now →
  ∃ x', end_send rng peer now m x y = Some (x', push [(hs_start (rng n) me peer).2] y) ∧ waiting x' ∧ holds (e_in x) [m] [] x'.
Proof.
  intros (Ha & Hs & Hg) Hn. destruct (sends_over_relay now m _ _ _ Ha Hn) as (a1 & Hk1 & E).
  destruct (send_first instant_min rng gmrng _ _ _ _ _ (INNER_DATA :: m) Hk1) as (a2 & E2 & Hk2).
  eexists. split.
  - unfold end_send. erewrite end_acts_ok; [by rewrite relayed_one|unfold node_step; cbn [node_handle e_actor]; by rewrite E, E2|done].
  - unfold waiting, holds. cbn [e_sent e_got e_actor e_in]. by rewrite Hs, Hg.
Qed.

Lemma send_wait now m x y : waiting x → ticking now →
  ∃ x', end_send rng peer now m x y = Some (x', push [] y) ∧ waiting x' ∧ holds (e_in x) (e_sent x ++ [m]) [] x'.
Proof.
  intros (Hk & Hg) Hn. destruct (sends_over_relay now m _ _ _ (known_at_end _ _ _ _ _ Hk) Hn) as (a1 & Hk1 & E).
  destruct (send_waiting instant_min rng gmrng _ _ _ _ _ _ (INNER_DATA :: m) Hk1) as (a2 & E2 & Hk2).
  eexists. split.
  - unfold end_send. rewrite (end_acts_ok _ _ _ _ a2 []); [done|unfold node_step; cbn [node_handle e_actor]; by rewrite E, E2|done].
  - unfold waiting, holds. cbn [e_sent e_got e_actor e_in]. rewrite fmap_app. by rewrite Hg.
Qed.

(** A payload for [x]: the frame's handler, at the reading [now]. *)
Lemma end_deliver_ok now x y p ps a o : e_in x = p :: ps →
  on_relay_data false instant_min rng gmrng peer p (set_clock now 0 (e_actor x)) = Some (a, o, tt) →
  end_deliver rng (node_id me) peer now x y =
    Some (mkEnd a ps (e_sent x) (e_got x ++ delivered peer o), push (relayed peer o) y).
Proof.
  intros Ei E. unfold end_deliver. rewrite Ei. unfold end_acts, node_step. cbn [node_handle on_relay_frame e_actor]. by rewrite E.
Qed.

(** [x], not yet live, is handed the other's first message and accepts it. *)
Lemma deliver_init now x y rest ps h j ks kr resp : e_in x = ([HS_TAG; HS_KIND_INIT] ++ rest) :: ps → ticking now →
  at_end me peer j (None, h, cons INNER_DATA <$> e_sent x) (e_actor x) → e_got x = [] → h = None ∨ id_ltb (node_id me) peer = false →
  hs_accept (rng j) me peer ([HS_TAG; HS_KIND_INIT] ++ rest) = ok (mkCipher ks kr 0 0, resp) →
  clear ks (e_sent x) → Z.of_nat (length (e_sent x)) ≤ u64_max →
  ∃ x' cs, end_deliver rng (node_id me) peer now x y = Some (x', push (resp :: cs) y) ∧ live ks kr x' ∧ holds ps (e_sent x) [] x' ∧
    flight ks 0 cs (e_sent x).
Proof.
  intros Ei Hn Ha Hg Hh E Hcl Hl. destruct (seal_all_clear ks kr 0 (e_sent x) 0 Hcl Hl) as (cs & Es & Hf).
  destruct (data_init_accepted instant_min rng gmrng _ _ _ _ _ (set_clock now 0 (e_actor x)) _ _ _ _ _ Ha Hn Hh E Es) as (a' & F & Hk).
  eexists _, cs. split; [|split; [|split; [|exact Hf]]].
  - rewrite (end_deliver_ok _ _ _ _ _ _ _ Ei F). unfold relayed. cbn [omap list_omap]. rewrite bool_decide_eq_true_2 by done.
    fold (relayed peer (OData peer <$> cs)). rewrite relayed_datas. done.
  - exists (S j). cbn [e_sent e_got e_actor]. unfold delivered. cbn [omap list_omap]. fold (delivered peer (OData peer <$> cs)).
    by rewrite delivered_datas, Hg.
  - unfold holds. cbn [e_in e_sent e_got]. unfold delivered. cbn [omap list_omap]. fold (delivered peer (OData peer <$> cs)).
    by rewrite delivered_datas, Hg.
Qed.

Lemma deliver_stray now x y rest ps : e_in x = ([HS_TAG; HS_KIND_INIT] ++ rest) :: ps → waiting x → id_ltb (node_id me) peer = true →
  ∃ x', end_deliver rng (node_id me) peer now x y = Some (x', push [] y) ∧ waiting x' ∧ holds ps (e_sent x) [] x'.
Proof.
  intros Ei (Hk & Hg) Hlt.
  assert (known me peer (S n) (None, Some (hs_start (rng n) me peer).1, cons INNER_DATA <$> e_sent x) (set_clock now 0 (e_actor x))) as Hk' by done.
  eexists. split; [exact (end_deliver_ok _ _ _ _ _ _ _ Ei (data_init_ignored instant_min rng gmrng _ _ _ _ _ _ rest Hk' Hlt))|].
  unfold waiting, holds. cbn [e_in e_sent e_got e_actor]. by rewrite Hg.
Qed.

Lemma deliver_resp now x y rest ps ks kr : e_in x = ([HS_TAG; HS_KIND_RESP] ++ rest) :: ps → waiting x →
  hs_finish me (hs_start (rng n) me peer).1 ([HS_TAG; HS_KIND_RESP] ++ rest) = ok (mkCipher ks kr 0 0) →
  clear ks (e_sent x) → Z.of_nat (length (e_sent x)) ≤ u64_max →
  ∃ x' cs, end_deliver rng (node_id me) peer now x y = Some (x', push cs y) ∧ live ks kr x' ∧ holds ps (e_sent x) [] x' ∧ flight ks 0 cs (e_sent x).
Proof.
  intros Ei (Hk & Hg) E Hcl Hl. destruct (seal_all_clear ks kr 0 (e_sent x) 0 Hcl Hl) as (cs & Es & Hf).
  assert (known me peer (S n) (None, Some (hs_start (rng n) me peer).1, cons INNER_DATA <$> e_sent x) (set_clock now 0 (e_actor x))) as Hk' by done.
  destruct (data_resp_accepted instant_min rng gmrng _ _ _ _ _ _ _ _ _ _ Hk' E Es) as (a' & F & Hk2).
  eexists _, cs. split; [|split; [|split; [|exact Hf]]].
  - rewrite (end_deliver_ok _ _ _ _ _ _ _ Ei F). unfold relayed. cbn [omap list_omap].
    fold (relayed peer (OData peer <$> cs)). rewrite relayed_datas. done.
  - exists (S n). cbn [e_sent e_got e_actor]. unfold delivered. cbn [omap list_omap]. fold (delivered peer (OData peer <$> cs)).
    by rewrite delivered_datas, Hg.
  - unfold holds. cbn [e_in e_sent e_got]. unfold delivered. cbn [omap list_omap]. fold (delivered peer (OData peer <$> cs)).
    by rewrite delivered_datas, Hg.
Qed.

Lemma deliver_data now x y c cs m ms ks kr : e_in x = c :: cs → live ks kr x → flight kr (length (e_got x)) (c :: cs) (m :: ms) →
  Z.of_nat (length (e_got x)) < u64_max →
  ∃ x', end_deliver rng (node_id me) peer now x y = Some (x', push [] y) ∧ live ks kr x' ∧ holds cs (e_sent x) (e_got x ++ [m]) x' ∧
    flight kr (S (length (e_got x))) cs ms.
Proof.
  intros Ei [j Hk] Hf Hl. destruct (open_flight kr ks _ (Z.of_nat (length (e_sent x))) _ _ _ _ Hf Hl) as (E & Hc & Hf').
  assert (known me peer j (Some (mkCipher ks kr (Z.of_nat (length (e_sent x))) (Z.of_nat (length (e_got x)))), None, []) (set_clock now 0 (e_actor x))) as Hk' by done.
  destruct (data_opened instant_min rng gmrng _ _ _ _ _ _ _ _ _ _ Hk' Hc E) as (a' & F & Hk2).
  assert (delivered peer [OEvent (EvMessage peer PRelay m)] = [m]) as Hdel by (unfold delivered; cbn; by rewrite bool_decide_eq_true_2 by done).
  eexists. split; [exact (end_deliver_ok _ _ _ _ _ _ _ Ei F)|]. rewrite Hdel. split; [|done].
  exists j. cbn [e_sent e_got e_actor]. by rewrite length_app, Nat.add_1_r.
Qed.

End moves.

(** *** The pair *)

Section pair.
Context (L H : NodeIdentity) (rngL rngH : nat → StaticSecret) (nL nH : nat).

Definition keys_of (s : SessionCipher) : list Z * list Z := (sc_send s, sc_recv s).

(** The keys of [L] for sending and receiving, if [L] began the handshake
    that counts and [H] had not, or had; or if [H] did. *)
Definition link_keys : list (list Z * list Z) :=
  [ keys_of (derive (x_dh (rngL nL) (x_public (rngH nH))) (node_id L) (node_id H) HsInitiator);
    keys_of (derive (x_dh (rngL nL) (x_public (rngH (S nH)))) (node_id L) (node_id H) HsInitiator);
    keys_of (derive (x_dh (rngL nL) (x_public (rngH nH))) (node_id H) (node_id L) HsResponder) ].

Definition init_low : list Z := (hs_start (rngL nL) L (node_id H)).2.
Definition init_high : list Z := (hs_start (rngH nH) H (node_id L)).2.

(** An answer to the handshake of [me] that gives it the keys. *)
Definition answers (me : NodeIdentity) (hs : HsState) (ks kr resp : list Z) : Prop :=
  ∃ rest, resp = [HS_TAG; HS_KIND_RESP] ++ rest ∧ hs_finish me hs resp = ok (mkCipher ks kr 0 0).

(** How the ends of the link can stand; the number counts the handshake
    messages that are still to be handled. *)
Inductive linked : nat → End → End → Prop :=
  | linked_idle x y : fresh L (node_id H) nL x → fresh H (node_id L) nH y → e_in x = [] → e_in y = [] → linked 0 x y
  | linked_low x y : waiting rngL L (node_id H) nL x → fresh H (node_id L) nH y → e_in x = [] → e_in y = [init_low] → linked 2 x y
  | linked_high x y : fresh L (node_id H) nL x → waiting rngH H (node_id L) nH y → e_in x = [init_high] → e_in y = [] → linked 2 x y
  | linked_both stray x y : waiting rngL L (node_id H) nL x → waiting rngH H (node_id L) nH y →
      e_in x = (if stray : bool then [init_high] else []) → e_in y = [init_low] → linked (if stray then 3 else 2) x y
  | linked_high_live stray x y kl kh resp cs : (kl, kh) ∈ link_keys → waiting rngL L (node_id H) nL x → live H (node_id L) kh kl y →
      answers L (hs_start (rngL nL) L (node_id H)).1 kl kh resp → e_in x = (if stray : bool then [init_high] else []) ++ resp :: cs →
      e_in y = [] → flight kh 0 cs (e_sent y) → e_got y = [] → linked (if stray then 2 else 1) x y
  | linked_low_live x y kl kh resp cs : (kl, kh) ∈ link_keys → live L (node_id H) kl kh x → waiting rngH H (node_id L) nH y →
      answers H (hs_start (rngH nH) H (node_id L)).1 kh kl resp → e_in x = [] → e_in y = resp :: cs →
      flight kl 0 cs (e_sent x) → e_got x = [] → linked 1 x y
  | linked_live x y kl kh mx my : (kl, kh) ∈ link_keys → live L (node_id H) kl kh x → live H (node_id L) kh kl y →
      flight kh (length (e_got x)) (e_in x) mx → e_got x ++ mx = e_sent y →
      flight kl (length (e_got y)) (e_in y) my → e_got y ++ my = e_sent x → linked 0 x y.

Lemma accept_keys ra rb (a b : NodeIdentity) : let s := derive (x_dh ra (x_public rb)) (node_id a) (node_id b) HsInitiator in
  ∃ rest resp, (hs_start ra a (node_id b)).2 = [HS_TAG; HS_KIND_INIT] ++ rest ∧
    hs_accept rb b (node_id a) ([HS_TAG; HS_KIND_INIT] ++ rest) = ok (mkCipher (sc_recv s) (sc_send s) 0 0, resp) ∧
    answers a (hs_start ra a (node_id b)).1 (sc_send s) (sc_recv s) resp.
Proof.
  intros s. destruct (accept_started ra rb a b) as (s' & resp & E1 & Es & E2). eexists _, resp. split; [reflexivity|].
  split.
  - etrans; [exact E1|]. rewrite Es. unfold s. rewrite (x_agree rb ra). done.
  - destruct (hs_accept_inv _ _ _ _ _ _ E1) as (e & sg & _ & _ & _ & _ & _ & Hr). eexists. split; [exact Hr|]. exact E2.
Qed.

(** What happens next: an application sends, or the relay hands the first
    payload of a queue to its node; [true] is the end of [L]. *)
Inductive LinkOp := LSend (low : bool) (now : Instant) (m : list Z) | LDeliver (low : bool) (now : Instant).

Definition op_now (op : LinkOp) : Instant := match op with LSend _ now _ => now | LDeliver _ now => now end.

Definition sends (low : bool) (ops : list LinkOp) : list (list Z) :=
  omap (λ op, match op with LSend l _ m => if eqb l low then Some m else None | LDeliver _ _ => None end) ops.

Definition link_step (op : LinkOp) (xy : End * End) : option (End * End) :=
  let '(x, y) := xy in
  match op with
  | LSend true now m => end_send rngL (node_id H) now m x y
  | LSend false now m => '(y, x) ← end_send rngH (node_id L) now m y x; Some (x, y)
  | LDeliver true now => end_deliver rngL (node_id L) (node_id H) now x y
  | LDeliver false now => '(y, x) ← end_deliver rngH (node_id H) (node_id L) now y x; Some (x, y)
  end.

Fixpoint link_run (ops : list LinkOp) (xy : End * End) : option (End * End) :=
  match ops with
  | [] => Some xy
  | op :: ops' => xy ← link_step op xy; link_run ops' xy
  end.

(** Both queues advance, [k] times. *)
Fixpoint rounds (k : nat) (now : Instant) : list LinkOp :=
  match k with
  | O => []
  | S k' => LDeliver true now :: LDeliver false now :: rounds k' now
  end.

Context (TL TH : list (list Z)).
Context (Hlt : id_ltb (node_id L) (node_id H) = true).
Context (Hclear : Forall (λ ks, clear ks.1 TL ∧ clear ks.2 TH) link_keys).
Context (HTL : Z.of_nat (length TL) ≤ u64_max) (HTH : Z.of_nat (length TH) ≤ u64_max).

Lemma keys_clear kl kh : (kl, kh) ∈ link_keys → clear kl TL ∧ clear kh TH.
Proof. intros Hk. rewrite Forall_forall in Hclear. exact (Hclear _ Hk). Qed.

Lemma prefix_len {A} (l l' : list A) b : l `prefix_of` l' → Z.of_nat (length l') ≤ b → Z.of_nat (length l) ≤ b.
Proof. intros Hp%prefix_length Hb. lia. Qed.

Lemma prefix_len_snoc {A} (l l' : list A) m b : (l ++ [m]) `prefix_of` l' → Z.of_nat (length l') ≤ b → Z.of_nat (length l) < b.
Proof. intros Hp%prefix_length Hb. rewrite length_app in Hp. cbn in Hp. lia. Qed.

Lemma send_low now m r x y : linked r x y → ticking now → (e_sent x ++ [m]) `prefix_of` TL →
  ∃ r' x' y', end_send rngL (node_id H) now m x y = Some (x', y') ∧ linked r' x' y' ∧ (r' ≤ 3)%nat ∧
    e_sent x' = e_sent x ++ [m] ∧ e_sent y' = e_sent y.
Proof.
  intros Hlk Hn Hp. pose proof (prefix_len_snoc _ _ _ _ Hp HTL) as Hl.
  destruct Hlk as [x y Hx Hy Ix Iy|x y Hx Hy Ix Iy|x y Hx Hy Ix Iy|stray x y Hx Hy Ix Iy
    |stray x y kl kh resp cs Hk Hx Hy Ha Ix Iy Hf Hg|x y kl kh resp cs Hk Hx Hy Ha Ix Iy Hf Hg|x y kl kh mx my Hk Hx Hy Fx Gx Fy Gy].
  - destruct (send_fresh rngL L _ nL now m x y Hx Hn) as (x' & E & Hx' & Jx & Sx & _). destruct Hx as (_ & S0 & _).
    eexists _, _, _. split; [exact E|]. split; [apply linked_low; [done..|congruence|cbn; by rewrite Iy]|]. rewrite S0. split; [lia|done].
  - destruct (send_wait rngL L _ nL now m x y Hx Hn) as (x' & E & Hx' & Jx & Sx & _).
    eexists _, _, _. split; [exact E|]. split; [apply linked_low; [done..|congruence|cbn; by rewrite Iy]|]. split; [lia|done].
  - destruct (send_fresh rngL L _ nL now m x y Hx Hn) as (x' & E & Hx' & Jx & Sx & _). destruct Hx as (_ & S0 & _).
    eexists _, _, _. split; [exact E|]. split; [apply (linked_both true); [done..|congruence|cbn; by rewrite Iy]|]. rewrite S0. split; [lia|done].
  - destruct (send_wait rngL L _ nL now m x y Hx Hn) as (x' & E & Hx' & Jx & Sx & _).
    eexists _, _, _. split; [exact E|]. split; [apply (linked_both stray); [done..|congruence|cbn; by rewrite Iy]|]. split; [destruct stray; lia|done].
  - destruct (send_wait rngL L _ nL now m x y Hx Hn) as (x' & E & Hx' & Jx & Sx & _).
    eexists _, _, _. split; [exact E|]. split; [eapply (linked_high_live stray); [done..|by rewrite Jx|cbn; by rewrite Iy|done|done]|].
    split; [destruct stray; lia|done].
  - destruct (keys_clear _ _ Hk) as [Cl _].
    destruct (send_live rngL L _ now m x y kl kh Hx Hn (clear_last _ _ _ _ Hp Cl) Hl) as (x' & c & E & Hx' & (Jx & Sx & Qx) & Ec & Hc).
    eexists 1%nat, _, _. split; [exact E|]. split; [|split; [lia|done]].
    eapply (linked_low_live _ _ _ _ resp (cs ++ [c])); [done..|congruence|cbn; by rewrite Iy| |congruence].
    rewrite Sx. by apply flight_snoc.
  - destruct (keys_clear _ _ Hk) as [Cl _].
    destruct (send_live rngL L _ now m x y kl kh Hx Hn (clear_last _ _ _ _ Hp Cl) Hl) as (x' & c & E & Hx' & (Jx & Sx & Qx) & Ec & Hc).
    eexists 0%nat, _, _. split; [exact E|]. split; [|split; [lia|done]].
    eapply (linked_live _ _ _ _ mx (my ++ [m])); [done..|by rewrite Jx, Qx|by rewrite Qx| |].
    + cbn. apply flight_snoc; [done| |done]. by rewrite <-length_app, Gy.
    + cbn. by rewrite app_assoc, Gy, Sx.
Qed.

Lemma send_high now m r x y : linked r x y → ticking now → (e_sent y ++ [m]) `prefix_of` TH →
  ∃ r' x' y', end_send rngH (node_id L) now m y x = Some (y', x') ∧ linked r' x' y' ∧ (r' ≤ 3)%nat ∧
    e_sent x' = e_sent x ∧ e_sent y' = e_sent y ++ [m].
Proof.
  intros Hlk Hn Hp. pose proof (prefix_len_snoc _ _ _ _ Hp HTH) as Hl.
  destruct Hlk as [x y Hx Hy Ix Iy|x y Hx Hy Ix Iy|x y Hx Hy Ix Iy|stray x y Hx Hy Ix Iy
    |stray x y kl kh resp cs Hk Hx Hy Ha Ix Iy Hf Hg|x y kl kh resp cs Hk Hx Hy Ha Ix Iy Hf Hg|x y kl kh mx my Hk Hx Hy Fx Gx Fy Gy].
  - destruct (send_fresh rngH H _ nH now m y x Hy Hn) as (y' & E & Hy' & Jy & Sy & _). destruct Hy as (_ & S0 & _).
    eexists _, _, _. split; [exact E|]. split; [apply linked_high; [done..|cbn; by rewrite Ix|congruence]|]. rewrite S0. split; [lia|done].
  - destruct (send_fresh rngH H _ nH now m y x Hy Hn) as (y' & E & Hy' & Jy & Sy & _). destruct Hy as (_ & S0 & _).
    eexists _, _, _. split; [exact E|]. split; [apply (linked_both true); [done..|cbn; by rewrite Ix|congruence]|]. rewrite S0. split; [lia|done].
  - destruct (send_wait rngH H _ nH now m y x Hy Hn) as (y' & E & Hy' & Jy & Sy & _).
    eexists _, _, _. split; [exact E|]. split; [apply linked_high; [done..|cbn; by rewrite Ix|congruence]|]. split; [lia|done].
  - destruct (send_wait rngH H _ nH now m y x Hy Hn) as (y' & E & Hy' & Jy & Sy & _).
    eexists _, _, _. split; [exact E|]. split; [apply (linked_both stray); [done..|cbn; by rewrite Ix, app_nil_r|congruence]|]. split; [destruct stray; lia|done].
  - destruct (keys_clear _ _ Hk) as [_ Ch].
    destruct (send_live rngH H _ now m y x kh kl Hy Hn (clear_last _ _ _ _ Hp Ch) Hl) as (y' & c & E & Hy' & (Jy & Sy & Qy) & Ec & Hc).
    eexists (if stray then 2 else 1)%nat, _, _. split; [exact E|]. split; [|split; [destruct stray; lia|done]].
    eapply (linked_high_live stray _ _ _ _ resp (cs ++ [c])); [done..|cbn; by rewrite Ix, <-app_assoc|congruence| |congruence].
    rewrite Sy. by apply flight_snoc.
  - destruct (send_wait rngH H _ nH now m y x Hy Hn) as (y' & E & Hy' & Jy & Sy & _).
    eexists _, _, _. split; [exact E|]. split; [eapply linked_low_live; [done..|cbn; by rewrite Ix|by rewrite Jy|done|done]|].
    split; [lia|done].
  - destruct (keys_clear _ _ Hk) as [_ Ch].
    destruct (send_live rngH H _ now m y x kh kl Hy Hn (clear_last _ _ _ _ Hp Ch) Hl) as (y' & c & E & Hy' & (Jy & Sy & Qy) & Ec & Hc).
    eexists 0%nat, _, _. split; [exact E|]. split; [|split; [lia|done]].
    eapply (linked_live _ _ _ _ (mx ++ [m]) my); [done..| | |by rewrite Jy, Qy|by rewrite Qy].
    + cbn. apply flight_snoc; [done| |done]. by rewrite <-length_app, Gx.
    + cbn. by rewrite app_assoc, Gx, Sy.
Qed.

(** The messages that are still to be delivered. *)
Definition due (x y : End) : nat := (length (e_sent x) - length (e_got y)) + (length (e_sent y) - length (e_got x)).

Lemma deliver_low now r x y : linked r x y → ticking now → e_in x ≠ [] → e_sent x `prefix_of` TL → e_sent y `prefix_of` TH →
  ∃ r' x' y', end_deliver rngL (node_id L) (node_id H) now x y = Some (x', y') ∧ linked r' x' y' ∧
    e_sent x' = e_sent x ∧ e_sent y' = e_sent y ∧ (r' + due x' y' < r + due x y)%nat.
Proof.
  intros Hlk Hn Hne Px Py. pose proof (prefix_len _ _ _ Px HTL) as Lx. pose proof (prefix_len _ _ _ Py HTH) as Ly.
  destruct Hlk as [x y Hx Hy Ix Iy|x y Hx Hy Ix Iy|x y Hx Hy Ix Iy|stray x y Hx Hy Ix Iy
    |stray x y kl kh resp cs Hk Hx Hy Ha Ix Iy Hf Hg|x y kl kh resp cs Hk Hx Hy Ha Ix Iy Hf Hg|x y kl kh mx my Hk Hx Hy Fx Gx Fy Gy]; try done.
  - destruct (accept_keys (rngH nH) (rngL nL) H L) as (rest & resp & Ei & E & Ha). set (s := derive _ _ _ _) in *.
    assert ((sc_recv s, sc_send s) ∈ link_keys) as Hk. { unfold link_keys, s. rewrite (x_agree (rngH nH)). set_solver. }
    destruct (keys_clear _ _ Hk) as [Cl _]. unfold init_high in Ix. rewrite Ei in Ix. destruct Hx as (Hx & Sx & Qx).
    destruct (deliver_init rngL L (node_id H) now x y rest [] None nL (sc_recv s) (sc_send s) resp Ix Hn) as (x' & cs & F & Hx' & (Jx & Tx & Rx) & Hf);
      [by rewrite Sx|done|by left|done|by apply (clear_prefix _ _ _ Px)|done|].
    exists 1%nat, x', (push (resp :: cs) y). split; [exact F|]. split; [|unfold due; cbn [push e_sent e_got]; rewrite Tx, Rx, Qx; split_and!; [done..|lia]].
    apply (linked_low_live _ _ (sc_recv s) (sc_send s) resp cs); [done..|cbn; by rewrite Iy|by rewrite Tx|done].
  - destruct stray; [|done]. destruct (deliver_stray rngL L (node_id H) nL now x y _ [] Ix Hx Hlt) as (x' & F & Hx' & Jx & Tx & Rx).
    exists 2%nat, x', (push [] y). split; [exact F|]. destruct Hx as [_ Qx].
    split; [|unfold due; cbn [push e_sent e_got]; rewrite Tx, Rx, Qx; split_and!; [done..|lia]].
    apply (linked_both false); [done..|cbn; by rewrite Iy].
  - destruct stray.
    + destruct (deliver_stray rngL L (node_id H) nL now x y _ (resp :: cs) Ix Hx Hlt) as (x' & F & Hx' & Jx & Tx & Rx).
      exists 1%nat, x', (push [] y). split; [exact F|]. destruct Hx as [_ Qx].
      split; [|unfold due; cbn [push e_sent e_got]; rewrite Tx, Rx, Qx; split_and!; [done..|lia]].
      apply (linked_high_live false _ _ kl kh resp cs); [done..|cbn; by rewrite Iy|done|done].
    + destruct Ha as (rest & -> & E). destruct (keys_clear _ _ Hk) as [Cl _].
      destruct (deliver_resp rngL L (node_id H) nL now x y rest cs kl kh Ix Hx E) as (x' & cs' & F & Hx' & (Jx & Tx & Rx) & Hf');
        [by apply (clear_prefix _ _ _ Px)|done|].
      exists 0%nat, x', (push cs' y). split; [exact F|]. destruct Hx as [_ Qx].
      split; [|unfold due; cbn [push e_sent e_got]; rewrite Tx, Rx, Qx; split_and!; [done..|lia]].
      apply (linked_live _ _ kl kh (e_sent y) (e_sent x)); cbn [push e_sent e_got e_in]; rewrite ?Rx, ?Jx, ?Iy, ?Hg; try done; by rewrite Tx.
  - destruct (e_in x) as [|c cs] eqn:Ix; [done|]. destruct mx as [|m mx]; [by inversion Fx|].
    assert (length (e_got x) < length (e_sent y))%nat as Hlen by (rewrite <-Gx, length_app; cbn; lia).
    destruct (deliver_data rngL L (node_id H) now x y c cs m mx kl kh Ix Hx Fx) as (x' & F & Hx' & (Jx & Tx & Rx) & Hf'); [lia|].
    exists 0%nat, x', (push [] y). split; [exact F|].
    split; [|unfold due; cbn [push e_sent e_got]; rewrite Tx, Rx, length_app; cbn [length]; split_and!; [done..|lia]].
    apply (linked_live _ _ kl kh mx my); cbn [push e_sent e_got e_in]; rewrite ?Rx, ?Jx, ?app_nil_r; try done.
    + by rewrite length_app, Nat.add_1_r.
    + by rewrite <-app_assoc.
    + by rewrite Tx.
Qed.

Lemma deliver_high now r x y : linked r x y → ticking now → e_in y ≠ [] → e_sent x `prefix_of` TL → e_sent y `prefix_of` TH →
  ∃ r' x' y', end_deliver rngH (node_id H) (node_id L) now y x = Some (y', x') ∧ linked r' x' y' ∧
    e_sent x' = e_sent x ∧ e_sent y' = e_sent y ∧ (r' + due x' y' < r + due x y)%nat.
Proof.
  intros Hlk Hn Hne Px Py. pose proof (prefix_len _ _ _ Px HTL) as Lx. pose proof (prefix_len _ _ _ Py HTH) as Ly.
  destruct Hlk as [x y Hx Hy Ix Iy|x y Hx Hy Ix Iy|x y Hx Hy Ix Iy|stray x y Hx Hy Ix Iy
    |stray x y kl kh resp cs Hk Hx Hy Ha Ix Iy Hf Hg|x y kl kh resp cs Hk Hx Hy Ha Ix Iy Hf Hg|x y kl kh mx my Hk Hx Hy Fx Gx Fy Gy]; try done.
  - destruct (accept_keys (rngL nL) (rngH nH) L H) as (rest & resp & Ei & E & Ha). set (s := derive _ _ _ _) in *.
    assert ((sc_send s, sc_recv s) ∈ link_keys) as Hk by (unfold link_keys, s; set_solver).
    destruct (keys_clear _ _ Hk) as [_ Ch]. unfold init_low in Iy. rewrite Ei in Iy. destruct Hy as (Hy & Sy & Qy).
    destruct (deliver_init rngH H (node_id L) now y x rest [] None nH (sc_recv s) (sc_send s) resp Iy Hn) as (y' & cs & F & Hy' & (Jy & Ty & Ry) & Hf);
      [by rewrite Sy|done|by left|done|by apply (clear_prefix _ _ _ Py)|done|].
    exists 1%nat, (push (resp :: cs) x), y'. split; [exact F|].
    split; [|unfold due; cbn [push e_sent e_got]; rewrite Ty, Ry, Qy; split_and!; [done..|lia]].
    apply (linked_high_live false _ _ (sc_send s) (sc_recv s) resp cs); [done..|cbn; by rewrite Ix|done|by rewrite Ty|done].
  - destruct (accept_keys (rngL nL) (rngH (S nH)) L H) as (rest & resp & Ei & E & Ha). set (s := derive _ _ _ _) in *.
    assert ((sc_send s, sc_recv s) ∈ link_keys) as Hk by (unfold link_keys, s; set_solver).
    destruct (keys_clear _ _ Hk) as [_ Ch]. unfold init_low in Iy. rewrite Ei in Iy. destruct Hy as (Hy & Qy).
    destruct (deliver_init rngH H (node_id L) now y x rest [] (Some (hs_start (rngH nH) H (node_id L)).1) (S nH) (sc_recv s) (sc_send s) resp Iy Hn)
      as (y' & cs & F & Hy' & (Jy & Ty & Ry) & Hf);
      [by apply known_at_end|done|right; by apply id_ltb_asym|done|by apply (clear_prefix _ _ _ Py)|done|].
    exists (if stray then 2 else 1)%nat, (push (resp :: cs) x), y'. split; [exact F|].
    split; [|unfold due; cbn [push e_sent e_got]; rewrite Ty, Ry, Qy; split_and!; [done..|destruct stray; lia]].
    apply (linked_high_live stray _ _ (sc_send s) (sc_recv s) resp cs); [done..|cbn; by rewrite Ix|done|by rewrite Ty|done].
  - destruct Ha as (rest & -> & E). destruct (keys_clear _ _ Hk) as [_ Ch].
    destruct (deliver_resp rngH H (node_id L) nH now y x rest cs kh kl Iy Hy E) as (y' & cs' & F & Hy' & (Jy & Ty & Ry) & Hf');
      [by apply (clear_prefix _ _ _ Py)|done|].
    exists 0%nat, (push cs' x), y'. split; [exact F|]. destruct Hy as [_ Qy].
    split; [|unfold due; cbn [push e_sent e_got]; rewrite Ty, Ry, Qy; split_and!; [done..|lia]].
    apply (linked_live _ _ kl kh (e_sent y) (e_sent x)); cbn [push e_sent e_got e_in]; rewrite ?Ry, ?Jy, ?Ix, ?Hg; try done; by rewrite Ty.
  - destruct (e_in y) as [|c cs] eqn:Iy; [done|]. destruct my as [|m my]; [by inversion Fy|].
    assert (length (e_got y) < length (e_sent x))%nat as Hlen by (rewrite <-Gy, length_app; cbn; lia).
    destruct (deliver_data rngH H (node_id L) now y x c cs m my kh kl Iy Hy Fy) as (y' & F & Hy' & (Jy & Ty & Ry) & Hf'); [lia|].
    exists 0%nat, (push [] x), y'. split; [exact F|].
    split; [|unfold due; cbn [push e_sent e_got]; rewrite Ty, Ry, length_app; cbn [length]; split_and!; [done..|lia]].
    apply (linked_live _ _ kl kh mx my); cbn [push e_sent e_got e_in]; rewrite ?Ry, ?Jy, ?app_nil_r; try done.
    + by rewrite Ty.
    + by rewrite length_app, Nat.add_1_r.
    + by rewrite <-app_assoc.
Qed.

Lemma linked_step op ops r x y : linked r x y → ticking (op_now op) → (r ≤ 3)%nat →
  e_sent x ++ sends true (op :: ops) = TL → e_sent y ++ sends false (op :: ops) = TH →
  ∃ r' x' y', link_step op (x, y) = Some (x', y') ∧ linked r' x' y' ∧ (r' ≤ 3)%nat ∧
    e_sent x' ++ sends true ops = TL ∧ e_sent y' ++ sends false ops = TH.
Proof.
  intros Hlk Hn Hr Ex Ey. destruct op as [[|] now m|[|] now]; cbn in Ex, Ey; unfold link_step.
  - destruct (send_low now m r x y Hlk Hn) as (r' & x' & y' & E & Hl & Hr' & Sx & Sy); [exists (sends true ops); by rewrite <-app_assoc|].
    exists r', x', y'. rewrite Sx, Sy, <-app_assoc. by split_and!.
  - destruct (send_high now m r x y Hlk Hn) as (r' & x' & y' & E & Hl & Hr' & Sx & Sy); [exists (sends false ops); by rewrite <-app_assoc|].
    exists r', x', y'. rewrite E, Sx, Sy, <-app_assoc. by split_and!.
  - destruct (decide (e_in x = [])) as [Hi|Hi]; [exists r, x, y; unfold end_deliver; by rewrite Hi|].
    destruct (deliver_low now r x y Hlk Hn Hi) as (r' & x' & y' & E & Hl & Sx & Sy & Hd); [by eexists..|].
    exists r', x', y'. rewrite Sx, Sy. split_and!; try done. destruct Hl; try (destruct stray); lia.
  - destruct (decide (e_in y = [])) as [Hi|Hi]; [exists r, x, y; unfold end_deliver; by rewrite Hi|].
    destruct (deliver_high now r x y Hlk Hn Hi) as (r' & x' & y' & E & Hl & Sx & Sy & Hd); [by eexists..|].
    exists r', x', y'. rewrite E, Sx, Sy. split_and!; try done. destruct Hl; try (destruct stray); lia.
Qed.

Lemma linked_run ops : ∀ r x y, linked r x y → (r ≤ 3)%nat → Forall (λ op, ticking (op_now op)) ops →
  e_sent x ++ sends true ops = TL → e_sent y ++ sends false ops = TH →
  ∃ r' x' y', link_run ops (x, y) = Some (x', y') ∧ linked r' x' y' ∧ (r' ≤ 3)%nat ∧ e_sent x' = TL ∧ e_sent y' = TH.
Proof.
  induction ops as [|op ops IH]; intros r x y Hlk Hr Hn Ex Ey.
  { exists r, x, y. cbn in Ex, Ey. rewrite app_nil_r in *. done. }
  apply Forall_cons in Hn as [Hn Hns]. destruct (linked_step op ops r x y Hlk Hn Hr Ex Ey) as (r1 & x1 & y1 & E & Hl & Hr1 & Ex1 & Ey1).
  cbn [link_run]. rewrite E. by eapply IH.
Qed.

Lemma step_low now x y : link_step (LDeliver true now) (x, y) = end_deliver rngL (node_id L) (node_id H) now x y.
Proof. done. Qed.

Lemma step_high now x y : link_step (LDeliver false now) (x, y) = '(y, x) ← end_deliver rngH (node_id H) (node_id L) now y x; Some (x, y).
Proof. done. Qed.

(** A round on a link with anything in its queues makes progress. *)
Lemma linked_round now r x y : linked r x y → ticking now → (e_in x ≠ [] ∨ e_in y ≠ []) → e_sent x = TL → e_sent y = TH →
  ∃ r' x' y', link_run [LDeliver true now; LDeliver false now] (x, y) = Some (x', y') ∧ linked r' x' y' ∧
    e_sent x' = TL ∧ e_sent y' = TH ∧ (r' + due x' y' < r + due x y)%nat.
Proof.
  intros Hlk Hn Hne Ex Ey.
  assert (∃ r1 x1 y1, end_deliver rngL (node_id L) (node_id H) now x y = Some (x1, y1) ∧ linked r1 x1 y1 ∧ e_sent x1 = TL ∧ e_sent y1 = TH ∧
    (r1 + due x1 y1 ≤ r + due x y)%nat ∧ (e_in y1 = [] → (r1 + due x1 y1 < r + due x y)%nat)) as (r1 & x1 & y1 & E1 & Hl1 & Sx1 & Sy1 & Hd1 & Hd2).
  { destruct (decide (e_in x = [])) as [Hi|Hi].
    - exists r, x, y. unfold end_deliver. rewrite Hi. split_and!; try done. intros Hi2. by destruct Hne.
    - destruct (deliver_low now r x y Hlk Hn Hi) as (r1 & x1 & y1 & E & Hl & Sx & Sy & Hd); [by rewrite Ex|by rewrite Ey|].
      exists r1, x1, y1. rewrite Sx, Sy. split_and!; try done; lia. }
  cbn [link_run]. rewrite step_low, E1. cbn [mbind option_bind]. rewrite step_high.
  destruct (decide (e_in y1 = [])) as [Hi|Hi].
  - exists r1, x1, y1. unfold end_deliver. rewrite Hi. cbn [mbind option_bind]. split_and!; try done. by apply Hd2.
  - destruct (deliver_high now r1 x1 y1 Hl1 Hn Hi) as (r2 & x2 & y2 & E2 & Hl2 & Sx2 & Sy2 & Hd3); [by rewrite Sx1|by rewrite Sy1|].
    exists r2, x2, y2. rewrite E2. cbn [mbind option_bind]. rewrite Sx2, Sy2. split_and!; try done. lia.
Qed.

Lemma link_run_app ops1 : ∀ ops2 xy, link_run (ops1 ++ ops2) xy = xy ← link_run ops1 xy; link_run ops2 xy.
Proof. induction ops1 as [|op ops IH]; intros ops2 xy; [done|]. cbn. destruct (link_step op xy); [apply IH|done]. Qed.

Lemma rounds_idle now k x y : e_in x = [] → e_in y = [] → link_run (rounds k now) (x, y) = Some (x, y).
Proof.
  intros Hx Hy. induction k as [|k IH]; [done|]. cbn [rounds link_run]. rewrite step_low. unfold end_deliver at 1. rewrite Hx. cbn [mbind option_bind].
  rewrite step_high. unfold end_deliver at 1. by rewrite Hy.
Qed.

Lemma linked_drain now k : ∀ r x y, linked r x y → ticking now → e_sent x = TL → e_sent y = TH → (r + due x y ≤ k)%nat →
  ∃ r' x' y', link_run (rounds k now) (x, y) = Some (x', y') ∧ linked r' x' y' ∧ e_sent x' = TL ∧ e_sent y' = TH ∧ e_in x' = [] ∧ e_in y' = [].
Proof.
  induction k as [|k IH]; intros r x y Hlk Hn Sx Sy Hk.
  all: destruct (decide (e_in x = [] ∧ e_in y = [])) as [[Hx Hy]|Hne];
    [exists r, x, y; rewrite rounds_idle by done; done|].
  all: assert (e_in x ≠ [] ∨ e_in y ≠ []) as Hne' by (destruct (decide (e_in x = [])); [right; naive_solver|by left]).
  all: destruct (linked_round now r x y Hlk Hn Hne' Sx Sy) as (r1 & x1 & y1 & E & Hl & Sx1 & Sy1 & Hd).
  { lia. }
  destruct (IH r1 x1 y1) as (r2 & x2 & y2 & E2 & H2); [done..|lia|]. exists r2, x2, y2. split; [|done].
  change (rounds (S k) now) with ([LDeliver true now; LDeliver false now] ++ rounds k now). rewrite link_run_app, E. done.
Qed.

(** The two ends of a settled link. *)
Lemma linked_settled r x y : linked r x y → e_in x = [] → e_in y = [] →
  e_got y = e_sent x ∧ e_got x = e_sent y ∧
  (e_sent x ≠ [] ∨ e_sent y ≠ [] → ∃ kl kh, (kl, kh) ∈ link_keys ∧ live L (node_id H) kl kh x ∧ live H (node_id L) kh kl y).
Proof.
  intros Hlk Ix Iy. destruct Hlk as [x y Hx Hy _ _|x y _ _ _ I|x y _ _ I _|stray x y _ _ _ I
    |stray x y kl kh resp cs _ _ _ _ I _ _ _|x y kl kh resp cs _ _ _ _ _ I _ _|x y kl kh mx my Hk Hx Hy Fx Gx Fy Gy];
    try (rewrite Ix in I; done); try (rewrite Iy in I; done).
  - destruct Hx as (_ & -> & ->), Hy as (_ & -> & ->). split; [done|]. split; [done|]. by intros [|].
  - rewrite Ix in I. by destruct stray.
  - rewrite Ix in Fx. rewrite Iy in Fy. inversion Fx; inversion Fy; subst. rewrite app_nil_r in *. split; [done|]. split; [done|]. intros _. by exists kl, kh.
Qed.

Lemma linked_prefix r x y : linked r x y → e_got y `prefix_of` e_sent x ∧ e_got x `prefix_of` e_sent y.
Proof.
  intros Hlk. destruct Hlk as [x y Hx Hy _ _|x y Hx Hy _ I|x y Hx Hy I _|stray x y Hx Hy _ I
    |stray x y kl kh resp cs _ Hx _ _ I _ _ Q|x y kl kh resp cs _ _ Hy _ _ I _ Q|x y kl kh mx my Hk Hx Hy Fx Gx Fy Gy].
  7: split; [by exists my|by exists mx].
  all: repeat match goal with Hf : fresh _ _ _ _ |- _ => destruct Hf as (_ & _ & ?) | Hw : waiting _ _ _ _ _ |- _ => destruct Hw as [_ ?] end.
  all: split; match goal with E : e_got ?z = [] |- e_got ?z `prefix_of` _ => rewrite E end; apply prefix_nil.
Qed.

End pair.

End link.

(** [C10] Two nodes of the default build that do not know each other, [L] the one
    with the smaller identifier, send to each other at any times, over a relay
    that keeps the order of either direction and delivers in any
    interleaving; both may begin the handshake.  As long as no ciphertext of
    the session looks like a handshake message, nothing panics, each
    application is given a prefix of what the other sent, in order and without
    duplicates, and once the queues have advanced often enough all of it, with
    both nodes on one session. *)
Theorem relay_link_delivers {MP : MeshPrimitives} {PR : Primitives} {K : Kem} {SA : StaticAuth K}
    {HO1 : HashOrder NodeId Peer} {HO2 : HashOrder NodeId PunchMachine} {HO3 : HashOrder Z Instant}
    instant_min gmrng (L H : NodeIdentity) rngL rngH nL nH a b ops :
  id_ltb (node_id L) (node_id H) = true →
  at_end L (node_id H) nL (None, None, []) a → at_end H (node_id L) nH (None, None, []) b →
  Forall (λ op, ticking instant_min (op_now op)) ops →
  zlen (sends true ops) ≤ u64_max → zlen (sends false ops) ≤ u64_max →
  Forall (λ ks, clear ks.1 (sends true ops) ∧ clear ks.2 (sends false ops)) (link_keys L H rngL rngH nL nH) →
  ∃ x y, link_run instant_min gmrng L H rngL rngH ops (mkEnd a [] [] [], mkEnd b [] [] []) = Some (x, y) ∧
    e_got y `prefix_of` sends true ops ∧ e_got x `prefix_of` sends false ops ∧
    ∀ k now, ticking instant_min now → (length (sends true ops) + length (sends false ops) + 3 ≤ k)%nat →
      ∃ x' y', link_run instant_min gmrng L H rngL rngH (rounds k now) (x, y) = Some (x', y') ∧
        e_in x' = [] ∧ e_in y' = [] ∧ e_got y' = sends true ops ∧ e_got x' = sends false ops ∧
        (sends true ops ≠ [] ∨ sends false ops ≠ [] →
         ∃ kl kh, (kl, kh) ∈ link_keys L H rngL rngH nL nH ∧ live L (node_id H) kl kh x' ∧ live H (node_id L) kh kl y').
Proof.
  intros Hlt Ha Hb Hn Hl Hh Hcl.
  assert (linked L H rngL rngH nL nH 0 (mkEnd a [] [] []) (mkEnd b [] [] [])) as H0 by (by apply linked_idle).
  destruct (linked_run instant_min gmrng L H rngL rngH nL nH _ _ Hlt Hcl Hl Hh ops 0 _ _ H0) as (r & x & y & E & Hlk & Hr & Sx & Sy); [lia|done..|].
  destruct (linked_prefix _ _ _ _ _ _ _ _ _ Hlk) as [Px Py]. rewrite Sx in Px. rewrite Sy in Py.
  exists x, y. split; [done|]. split; [done|]. split; [done|]. intros k now Htk Hk.
  destruct (linked_drain instant_min gmrng L H rngL rngH nL nH _ _ Hlt Hcl Hl Hh now k r x y Hlk Htk Sx Sy) as (r' & x' & y' & E' & Hlk' & Sx' & Sy' & Ix & Iy).
  { unfold due. rewrite Sx, Sy. lia. }
  destruct (linked_settled _ _ _ _ _ _ _ _ _ Hlk' Ix Iy) as (Gy & Gx & Hkeys). rewrite Sx', Sy' in *.
  by exists x', y'.
Qed.

Definition ex_alone (me : NodeIdentity) : @Actor toy_mesh toy_hybrid :=
  actor_new me None None None (mkConfig true 20 0 false).

(** The handshakes of both cross. *)
Definition ex_crossing : list LinkOp :=
  [LSend true 4000000000000 [7; 8]; LSend false 4000000000000 [9]; LDeliver false 4000000000000; LSend true 4000000000000 []; LDeliver true 4000000000000].

Definition ex_run : list LinkOp → End * End → option (End * End) :=
  @link_run toy_mesh toy_primitives toy_hybrid toy_auth default_order default_order default_order 0 (λ _, toy_random) ex_a ex_b (λ _, 11) (λ n, 20 + Z.of_nat n).

Lemma relay_link_delivers_witness :
  ∃ x y, ex_run ex_crossing (mkEnd (ex_alone ex_a) [] [] [], mkEnd (ex_alone ex_b) [] [] []) = Some (x, y) ∧
    ∃ x' y', ex_run (rounds 6 4000000000000) (x, y) = Some (x', y') ∧ e_got y' = [[7; 8]; []] ∧ e_got x' = [[9]].
Proof.
  destruct (@relay_link_delivers toy_mesh toy_primitives toy_hybrid toy_auth default_order default_order default_order 0 (λ _, toy_random) ex_a ex_b
    (λ _, 11) (λ n, 20 + Z.of_nat n) 0 0 (ex_alone ex_a) (ex_alone ex_b) ex_crossing) as (x & y & E & _ & _ & Hd).
  - reflexivity.
  - split; [reflexivity|]. split; [reflexivity|]. reflexivity.
  - split; [reflexivity|]. split; [reflexivity|]. reflexivity.
  - repeat constructor; by vm_compute.
  - by vm_compute.
  - by vm_compute.
  - unfold link_keys. apply Forall_cons. split; [split|apply Forall_cons; split; [split|apply Forall_singleton; split]].
    all: intros i m Hi; destruct i as [|[|i]]; try discriminate Hi; injection Hi as <-; eexists; (split; [vm_compute; reflexivity|vm_compute; discriminate]).
  - exists x, y. split; [exact E|]. destruct (Hd 6%nat 4000000000000) as (x' & y' & E' & _ & _ & Gy & Gx & _); [by vm_compute|by vm_compute; lia|].
    exists x', y'. split; [exact E'|]. split; [exact Gy|exact Gx].
Defined.
