(* ===== verification/P2pMcp.v ===== *)
(** * P2P mesh: the tool server

    Models [crates/p2p-mesh/src/mcp.rs]: the requests, the tools, and the loop
    that reads one line at a time and waits for its tool to finish.

    The handler of a line is a program: it ends with a reply, panics, or waits
    for room in the node's channel of commands or for an event of the node.
    The steps of the server interleave with those of the node's tasks; what
    the node makes of a command or of a packet is given with its step.  The
    parser of JSON and the [Debug] text of a string are parameters.  An object
    is the list of its entries, a string that of its code points.
    [sy_history] records what was sent to the server and is read by no step. *)

From stdpp Require Import strings.
From S2P Require Import Prelude Bytes F64 RustStr P2pProto P2pPunch P2pPath P2pCrypto P2pRelay P2pNode.

(** ** JSON *)

Inductive Number :=
  | PosInt (n : Z)
  | NegInt (n : Z)
  | Float (x : f64).

Inductive Value :=
  | Null
  | Bool (b : bool)
  | Num (n : Number)
  | Str (s : list Z)
  | Arr (l : list Value)
  | Obj (entries : list (list Z * Value)).

Fixpoint entry (k : list Z) (es : list (list Z * Value)) : option Value :=
  match es with
  | [] => None
  | (k', v) :: es' => if decide (k' = k) then Some v else entry k es'
  end.

Definition get (k : string) (v : Value) : option Value :=
  match v with Obj es => entry (chars k) es | _ => None end.

Definition as_str (v : Value) : option (list Z) := match v with Str s => Some s | _ => None end.
Definition as_u64 (v : Value) : option Z := match v with Num (PosInt n) => Some n | _ => None end.

(** [json!] of an object with these keys. *)
Definition object (es : list (string * Value)) : Value := Obj ((λ e, (chars e.1, e.2)) <$> es).
Definition text (s : string) : Value := Str (chars s).

(** An integer that fits [i64]. *)
Definition int (n : Z) : Value := Num (if n <? 0 then NegInt n else PosInt n).

(** ** UTF-8 *)

Definition encode_char (c : Z) : list Z :=
  if c <? 0x80 then [c]
  else if c <? 0x800 then [0xC0 + c / 64; 0x80 + c mod 64]
  else if c <? 0x10000 then [0xE0 + c / 4096; 0x80 + c / 64 mod 64; 0x80 + c mod 64]
  else [0xF0 + c / 262144; 0x80 + c / 4096 mod 64; 0x80 + c / 64 mod 64; 0x80 + c mod 64].

Definition as_bytes (s : list Z) : list Z := concat (encode_char <$> s).

(** The bits of a leading byte that [n] continuation bytes follow. *)
Definition lead_bits (n : nat) (b : Z) : Z := b mod (2 ^ (6 - Z.of_nat n)).

(** [String::from_utf8_lossy]: the longest beginning of a character that
    cannot be completed becomes one replacement character.  [st] is that of
    [utf8_run], [acc] the bits read. *)
Fixpoint lossy_run (st : nat * Z * Z) (acc : Z) (s : list Z) : list Z :=
  match s with
  | [] => match st.1.1 with O => [] | S _ => [0xFFFD] end
  | b :: s' =>
      let start :=
        match utf8_lead b with
        | Some (O, _, _) => b :: lossy_run (0%nat, 0, 0) 0 s'
        | Some (n, lo, hi) => lossy_run (n, lo, hi) (lead_bits n b) s'
        | None => 0xFFFD :: lossy_run (0%nat, 0, 0) 0 s'
        end in
      match st with
      | (O, _, _) => start
      | (S n, lo, hi) =>
          if in_rng lo hi b then
            match n with
            | O => acc * 64 + b mod 64 :: lossy_run (0%nat, 0, 0) 0 s'
            | S _ => lossy_run (n, 0x80, 0xBF) (acc * 64 + b mod 64) s'
            end
          else 0xFFFD :: start
      end
  end.

Definition from_utf8_lossy (b : list Z) : list Z := lossy_run (0%nat, 0, 0) 0 b.

(** ** Requests *)

Definition PROTOCOL_VERSION : string := "2024-11-05".
Definition SERVER_NAME : string := "directwire-mcp".
Definition SERVER_VERSION : string := "0.1.0".

Definition PARSE_ERROR : Z := -32700.
Definition INVALID_REQUEST : Z := -32600.
Definition METHOD_NOT_FOUND : Z := -32601.
Definition INTERNAL_ERROR : Z := -32603.
Definition APP_ERROR : Z := -32000.

Record RpcError := mkRpcError {
  re_code : Z;
  re_message : list Z
}.

Definition err_value (code : Z) (message : list Z) : Value := object [("code", int code); ("message", Str message)].

Definition tool_result (t : list Z) (is_error : bool) : Value :=
  object [("content", Arr [object [("type", text "text"); ("text", Str t)]]); ("isError", Bool is_error)].

Definition tool (name description : string) (properties : list (string * Value)) (required : option (list string)) : Value :=
  object [("name", text name); ("description", text description);
          ("inputSchema", object ([("type", text "object"); ("properties", object properties)] ++
                                  match required with Some r => [("required", Arr (text <$> r))] | None => [] end))].

Definition property (type description : string) : Value := object [("type", text type); ("description", text description)].

Definition tools_list : Value :=
  object [("tools", Arr
    [tool "peer_connect"
       "Begin a session with a peer by its 64-char hex public key (NodeId). Starts NAT hole punching and falls back to the relay if no direct path opens."
       [("target", property "string" "peer NodeId as 64-char hex (ed25519 public key)")] (Some ["target"]);
     tool "peer_send"
       "Send an encrypted message to a peer. Delivered over the direct path when one is established, otherwise over the relay."
       [("target", property "string" "peer NodeId as 64-char hex"); ("payload", property "string" "message text")] (Some ["target"; "payload"]);
     tool "peer_recv"
       "Wait for the next inbound message from any peer. Returns the sender NodeId and the message text."
       [("timeout_ms", property "integer" "optional timeout in milliseconds; default blocks indefinitely")] None;
     tool "peer_status"
       "Report this node's identity: the 64-char hex NodeId and its short display form." [] None])].

(** The commands the node takes. *)
Inductive NodeCmd :=
  | ConnectPeer (peer : NodeId)
  | SendTo (peer : NodeId) (payload : list Z)
  | ProbeTick
  | GmCheck (peer : NodeId) (gen : Z)
  | Shutdown.

(** What the handler of a line does: reply or not, panic, send a command, or
    take an event, with a limit on the wait. *)
Inductive Prog :=
  | Ret (r : option Value)
  | Panic
  | Cmd (c : NodeCmd) (k : Prog)
  | Recv (timeout_ms : option Z) (k : RpcError + NodeId * list Z → Prog).

Section server.
Context {MP : MeshPrimitives}.
Context (from_str : list Z → option Value) (debug_str : list Z → list Z).

(** [None] is a panic: of [from_hex], or of the slice at byte 16. *)
Definition parse_target (s : list Z) : option (list Z + NodeId) :=
  r ← from_hex s;
  match r with
  | inr id => Some (inr id)
  | inl _ =>
      '(front, _) ← split_bytes (Z.min (str_len s) 16) s;
      Some (inl (chars "'target' must be a 64-char hex NodeId, got " ++ debug_str front))
  end.

Definition connect_text (target : NodeId) : list Z := chars "punching/connecting to peer " ++ short target.
Definition send_text (target : NodeId) (payload : list Z) : list Z :=
  chars "sent " ++ dec_u64 (zlen payload) ++ chars " bytes to peer " ++ short target.
Definition status_text (id : NodeId) : list Z := chars "node_id=" ++ to_hex id ++ chars " node_short=" ++ short id.
Definition recv_text (m : NodeId * list Z) : list Z := chars "from=" ++ to_hex m.1 ++ chars " payload=" ++ from_utf8_lossy m.2.

(** What [peer_recv] waits: a limit of zero is none. *)
Definition recv_limit (timeout_ms : option Z) : option Z :=
  match timeout_ms with Some ms => if 0 <? ms then Some ms else None | None => None end.

(** [call_tool]: [k] takes the tool's result. *)
Definition tool_ok (k : Value → Prog) (t : list Z) : Prog := k (tool_result t false).
Definition tool_err (k : Value → Prog) (t : list Z) : Prog := k (tool_result (chars "error: " ++ t) true).

Definition with_target (k : Value → Prog) (s : list Z) (f : NodeId → Prog) : Prog :=
  match parse_target s with
  | None => Panic
  | Some (inl e) => tool_err k e
  | Some (inr id) => f id
  end.

Definition call_tool (me : NodeId) (name : list Z) (args : Value) (k : Value → Prog) : Prog :=
  let arg key := v ← get key args; as_str v in
  if decide (name = chars "peer_status") then tool_ok k (status_text me)
  else if decide (name = chars "peer_connect") then
    match arg "target" with
    | None => tool_err k (chars "missing string arg 'target'")
    | Some t => with_target k t (λ id, Cmd (ConnectPeer id) (tool_ok k (connect_text id)))
    end
  else if decide (name = chars "peer_send") then
    match arg "target", arg "payload" with
    | None, _ => tool_err k (chars "missing string arg 'target'")
    | _, None => tool_err k (chars "missing string arg 'payload'")
    | Some t, Some p => with_target k t (λ id, Cmd (SendTo id (as_bytes p)) (tool_ok k (send_text id (as_bytes p))))
    end
  else if decide (name = chars "peer_recv") then
    Recv (recv_limit (v ← get "timeout_ms" args; as_u64 v))
      (λ r, match r with inr m => tool_ok k (recv_text m) | inl e => tool_err k (re_message e) end)
  else tool_err k (chars "unknown tool: " ++ name).

Definition reply (id : Value) (r : RpcError + Value) : Value :=
  object [("jsonrpc", text "2.0"); ("id", id);
          match r with inr v => ("result", v) | inl e => ("error", err_value (re_code e) (re_message e)) end].

Definition initialize_result : Value :=
  object [("protocolVersion", text PROTOCOL_VERSION);
          ("capabilities", object [("tools", object [("listChanged", Bool false)])]);
          ("serverInfo", object [("name", text SERVER_NAME); ("version", text SERVER_VERSION)])].

Definition handle_line (me : NodeId) (line : list Z) : Prog :=
  match from_str line with
  | None => Ret (Some (reply Null (inl (mkRpcError PARSE_ERROR (chars "parse error")))))
  | Some v =>
      let id := get "id" v in
      match m ← get "method" v; as_str m with
      | None => Ret (Some (reply (default Null id) (inl (mkRpcError INVALID_REQUEST (chars "invalid request")))))
      | Some method =>
          let params := default Null (get "params" v) in
          let finish r := Ret ((λ id, reply id r) <$> id) in
          if decide (method = chars "initialize") then finish (inr initialize_result)
          else if bool_decide (method = chars "notifications/initialized") && bool_decide (id = None) then Ret None
          else if decide (method = chars "ping") then finish (inr (Obj []))
          else if decide (method = chars "tools/list") then finish (inr tools_list)
          else if decide (method = chars "tools/call") then
            call_tool me (default [] (n ← get "name" params; as_str n)) (default Null (get "arguments" params)) (λ v, finish (inr v))
          else match id with
               | None => Ret None
               | Some _ => finish (inl (mkRpcError METHOD_NOT_FOUND (chars "method not found")))
               end
      end
  end.

(** ** The server and the node's tasks *)

Inductive HandleEvent :=
  | Registered (relay observed : SocketAddr)
  | Ev (e : NodeEvent).

(** A line of standard input, or one that is not text. *)
Inductive Input :=
  | Line (l : list Z)
  | BadText.

(** Where [run] stands: before it reads a line, within a handler (with the
    time at which its wait ends, once it has begun), ended by a panic, by the
    end of the input, or by an error. *)
Inductive SvPc :=
  | SvRead
  | SvRunning (p : Prog) (deadline : option Z)
  | SvPanicked
  | SvClosed
  | SvFailed.

Record Sys := mkSys {
  sy_now : Z;
  sy_cmds : list NodeCmd;
  sy_events : list HandleEvent;
  sy_emitting : list HandleEvent;
  sy_actor : bool;
  sy_open : bool;
  sy_pc : SvPc;
  sy_stdin : list Input;
  sy_eof : bool;
  sy_out : list Value;
  sy_history : list HandleEvent
}.

Definition CHANNEL : nat := 256.

Definition with_pc (pc : SvPc) (s : Sys) : Sys :=
  mkSys (sy_now s) (sy_cmds s) (sy_events s) (sy_emitting s) (sy_actor s) (sy_open s) pc (sy_stdin s) (sy_eof s) (sy_out s) (sy_history s).
Definition with_cmds (l : list NodeCmd) (s : Sys) : Sys :=
  mkSys (sy_now s) l (sy_events s) (sy_emitting s) (sy_actor s) (sy_open s) (sy_pc s) (sy_stdin s) (sy_eof s) (sy_out s) (sy_history s).
Definition with_events (l : list HandleEvent) (s : Sys) : Sys :=
  mkSys (sy_now s) (sy_cmds s) l (sy_emitting s) (sy_actor s) (sy_open s) (sy_pc s) (sy_stdin s) (sy_eof s) (sy_out s) (sy_history s).
Definition with_emitting (l : list HandleEvent) (s : Sys) : Sys :=
  mkSys (sy_now s) (sy_cmds s) (sy_events s) l (sy_actor s) (sy_open s) (sy_pc s) (sy_stdin s) (sy_eof s) (sy_out s) (sy_history s).
Definition with_stdin (l : list Input) (s : Sys) : Sys :=
  mkSys (sy_now s) (sy_cmds s) (sy_events s) (sy_emitting s) (sy_actor s) (sy_open s) (sy_pc s) l (sy_eof s) (sy_out s) (sy_history s).
Definition with_out (v : option Value) (s : Sys) : Sys :=
  mkSys (sy_now s) (sy_cmds s) (sy_events s) (sy_emitting s) (sy_actor s) (sy_open s) (sy_pc s) (sy_stdin s) (sy_eof s) (sy_out s ++ option_list v) (sy_history s).

(** A command is sent once the channel has room; that the node is gone is
    ignored. *)
Definition send_cmd (c : NodeCmd) (s : Sys) : option Sys :=
  if negb (sy_actor s) then Some s
  else if (length (sy_cmds s) <? CHANNEL)%nat then Some (with_cmds (sy_cmds s ++ [c]) s)
  else None.

(** An event of one of the node's tasks. *)
Definition push_event (ev : HandleEvent) (s : Sys) : option Sys :=
  if sy_open s && (length (sy_events s) <? CHANNEL)%nat then
    Some (mkSys (sy_now s) (sy_cmds s) (sy_events s ++ [ev]) (sy_emitting s) (sy_actor s) (sy_open s) (sy_pc s)
                (sy_stdin s) (sy_eof s) (sy_out s) (sy_history s ++ [ev]))
  else None.

Definition trim_end (s : list Z) : list Z := reverse (drop_ws (reverse s)).

(** [run] up to its next wait; [None] while it waits. *)
Definition server_step (me : NodeId) (s : Sys) : option Sys :=
  match sy_pc s with
  | SvRead =>
      match sy_stdin s with
      | Line l :: rest =>
          let l := trim_end l in
          Some (with_pc (match l with [] => SvRead | _ => SvRunning (handle_line me l) None end) (with_stdin rest s))
      | BadText :: rest => Some (with_pc SvFailed (with_stdin rest s))
      | [] => if sy_eof s then Some (with_pc SvClosed s) else None
      end
  | SvRunning (Ret r) _ => Some (with_pc SvRead (with_out r s))
  | SvRunning Panic _ => Some (with_pc SvPanicked s)
  | SvRunning (Cmd c k) _ => s ← send_cmd c s; Some (with_pc (SvRunning k None) s)
  | SvRunning (Recv (Some ms) k) None => Some (with_pc (SvRunning (Recv (Some ms) k) (Some (sy_now s + ms))) s)
  | SvRunning (Recv _ k) _ =>
      match sy_events s with
      | Ev (EvMessage from _ payload) :: rest => Some (with_pc (SvRunning (k (inr (from, payload))) None) (with_events rest s))
      | _ :: rest => Some (with_events rest s)
      | [] =>
          if sy_open s then None
          else Some (with_pc (SvRunning (k (inl (mkRpcError INTERNAL_ERROR (chars "node event stream closed")))) None) s)
      end
  | _ => None
  end.

(** The timer of a wait with a limit.  The runtime bounds how many events a
    task takes at once, so it may fire while there are events left. *)
Definition timer_step (s : Sys) : option Sys :=
  match sy_pc s with
  | SvRunning (Recv _ k) (Some d) =>
      if sy_now s <? d then None
      else Some (with_pc (SvRunning (k (inl (mkRpcError APP_ERROR (chars "timed out waiting for a message")))) None) s)
  | _ => None
  end.

Inductive SysEv :=
  | SySrv
  | SyTimer
  | SyTick (ms : nat)
  | SyTake (outs : list HandleEvent)
  | SyInput (outs : list HandleEvent)
  | SyEmit
  | SyStop
  | SyGone
  | SyTaskEvent (ev : HandleEvent)
  | SyTaskCmd (c : NodeCmd).

(** The server; the clock; the node's actor takes a command or an input of the
    network, sends one of the events that come of it, or ends; the tasks of
    its connections send events, its timers commands, until they end. *)
Definition sys_step (me : NodeId) (ev : SysEv) (s : Sys) : option Sys :=
  match ev with
  | SySrv => server_step me s
  | SyTimer => timer_step s
  | SyTick ms =>
      Some (mkSys (sy_now s + Z.of_nat ms) (sy_cmds s) (sy_events s) (sy_emitting s) (sy_actor s) (sy_open s) (sy_pc s)
                  (sy_stdin s) (sy_eof s) (sy_out s) (sy_history s))
  | SyTake outs =>
      match sy_actor s, sy_emitting s, sy_cmds s with
      | true, [], _ :: cmds => Some (with_emitting outs (with_cmds cmds s))
      | _, _, _ => None
      end
  | SyInput outs =>
      match sy_actor s, sy_emitting s with
      | true, [] => Some (with_emitting outs s)
      | _, _ => None
      end
  | SyEmit =>
      match sy_emitting s with
      | [] => None
      | ev :: outs => s ← push_event ev s; Some (with_emitting outs s)
      end
  | SyStop =>
      match sy_actor s, sy_emitting s with
      | true, [] => Some (mkSys (sy_now s) [] (sy_events s) [] false (sy_open s) (sy_pc s) (sy_stdin s) (sy_eof s) (sy_out s) (sy_history s))
      | _, _ => None
      end
  | SyGone =>
      if sy_actor s then None
      else Some (mkSys (sy_now s) (sy_cmds s) (sy_events s) (sy_emitting s) false false (sy_pc s) (sy_stdin s) (sy_eof s) (sy_out s) (sy_history s))
  | SyTaskEvent ev => push_event ev s
  | SyTaskCmd c => if sy_actor s && (length (sy_cmds s) <? CHANNEL)%nat then Some (with_cmds (sy_cmds s ++ [c]) s) else None
  end.

Fixpoint sys_run (me : NodeId) (evs : list SysEv) (s : Sys) : option Sys :=
  match evs with
  | [] => Some s
  | ev :: evs' => s ← sys_step me ev s; sys_run me evs' s
  end.

(** [Node::start] has sent the first event. *)
Definition sys_new (relay observed : SocketAddr) (inputs : list Input) (eof : bool) : Sys :=
  mkSys 0 [] [Registered relay observed] [] true true SvRead inputs eof [] [Registered relay observed].

(** ** Every request is answered once, in order *)

(** What holds of the reply a program may end with. *)
Fixpoint ends (P : option Value → Prop) (p : Prog) : Prop :=
  match p with
  | Ret r => P r
  | Panic => True
  | Cmd _ k => ends P k
  | Recv _ k => ∀ r, ends P (k r)
  end.

(** The identifier the reply to a line bears, if there is to be one. *)
Definition answer_id (line : list Z) : option Value :=
  match from_str line with
  | None => Some Null
  | Some v =>
      match m ← get "method" v; as_str m with
      | None => Some (default Null (get "id" v))
      | Some _ => get "id" v
      end
  end.

Definition asked (i : Input) : option Value :=
  match i with
  | Line l => match trim_end l with [] => None | l => answer_id l end
  | BadText => None
  end.

Definition replies_to (id : Value) (v : Value) : Prop := ∃ r, v = reply id r.

Definition reply_for (id : option Value) (r : option Value) : Prop :=
  match id, r with
  | None, None => True
  | Some i, Some v => replies_to i v
  | _, _ => False
  end.

Lemma call_tool_ends P me name args k : (∀ v, ends P (k v)) → ends P (call_tool me name args k).
Proof.
  intros Hk. unfold call_tool, with_target, tool_ok, tool_err. repeat case_decide; try apply Hk.
  all: repeat case_match; cbn; try done; try apply Hk. intros []; apply Hk.
Qed.

Lemma handle_line_ends me line : ends (reply_for (answer_id line)) (handle_line me line).
Proof.
  unfold handle_line, answer_id. destruct (from_str line) as [v|]; [|by eexists].
  destruct (m ← get "method" v; as_str m) as [method|]; [|by eexists].
  destruct (get "id" v) as [id|]; cbn [fmap option_fmap option_map]; repeat case_match; try (cbn; done); try (by eexists).
  all: try (match goal with H : _ && bool_decide (Some _ = None) = true |- _ => apply andb_prop in H as [_ H]; by apply bool_decide_eq_true in H end).
  all: apply call_tool_ends; intros w; cbn; try done; by eexists.
Qed.

(** [handled] are the lines that are done with and [current] the one at hand. *)
Record replying (inputs : list Input) (s : Sys) (handled current : list Input) : Prop := {
  rp_inputs : inputs = handled ++ current ++ sy_stdin s;
  rp_out : Forall2 replies_to (omap asked handled) (sy_out s);
  rp_pc : match sy_pc s with
          | SvRead => current = []
          | SvRunning p _ => ∃ i, current = [i] ∧ ends (reply_for (asked i)) p
          | _ => (length current ≤ 1)%nat
          end
}.

Lemma replying_frame inputs s s' handled current : replying inputs s handled current →
  sy_stdin s' = sy_stdin s → sy_out s' = sy_out s → sy_pc s' = sy_pc s → replying inputs s' handled current.
Proof. intros [H1 H2 H3] E1 E2 E3. split; [by rewrite E1|by rewrite E2|by rewrite E3]. Qed.

(** A step within a handler. *)
Lemma replying_within inputs s s' handled current i p' d : replying inputs s handled current → current = [i] →
  sy_stdin s' = sy_stdin s → sy_out s' = sy_out s → sy_pc s' = SvRunning p' d → ends (reply_for (asked i)) p' → replying inputs s' handled current.
Proof. intros [H1 H2 H3] -> E1 E2 E3 He. split; [by rewrite E1|by rewrite E2|rewrite E3; eauto]. Qed.

Lemma push_event_frame ev s s' : push_event ev s = Some s' →
  s' = mkSys (sy_now s) (sy_cmds s) (sy_events s ++ [ev]) (sy_emitting s) (sy_actor s) (sy_open s) (sy_pc s)
             (sy_stdin s) (sy_eof s) (sy_out s) (sy_history s ++ [ev]) ∧ sy_open s = true ∧ (length (sy_events s) < CHANNEL)%nat.
Proof.
  unfold push_event. destruct (sy_open s); [|done]. cbn [andb]. destruct (Nat.ltb_spec (length (sy_events s)) CHANNEL); [|done].
  by intros [= <-].
Qed.

Lemma send_cmd_frame c s s' : send_cmd c s = Some s' → s' = with_cmds (sy_cmds s') s.
Proof. unfold send_cmd. intros H. destruct s. repeat case_match; by simplify_eq/=. Qed.

(** A step of a task other than the server leaves the server alone. *)
Lemma others_frame me ev s s' : ev ≠ SySrv → ev ≠ SyTimer → sys_step me ev s = Some s' →
  sy_stdin s' = sy_stdin s ∧ sy_out s' = sy_out s ∧ sy_pc s' = sy_pc s.
Proof.
  intros H1 H2 H. destruct ev; try done; cbn in H; unfold mbind, option_bind in H; repeat case_match; simplify_eq/=; try done.
  all: by match goal with E : push_event _ _ = Some _ |- _ => apply push_event_frame in E as (-> & _) end.
Qed.

Lemma server_step_replying inputs me s s' handled current : replying inputs s handled current → server_step me s = Some s' →
  ∃ handled current, replying inputs s' handled current.
Proof.
  intros Hr H. pose proof Hr as [H1 H2 H3]. unfold server_step in H. destruct (sy_pc s) as [|p d| | |] eqn:Ep; try done.
  - subst current. destruct (sy_stdin s) as [|[l|] rest] eqn:Es.
    + case_match; simplify_eq. exists handled, []. split; cbn; [by rewrite Es|done|lia].
    + simplify_eq. destruct (trim_end l) as [|c l'] eqn:Et.
      * exists (handled ++ [Line l]), []. split; cbn; [by rewrite <-app_assoc| |done].
        rewrite omap_app. cbn. by rewrite Et, app_nil_r.
      * exists handled, [Line l]. split; cbn; [done|done|]. eexists. split; [done|]. cbn. rewrite Et. apply handle_line_ends.
    + simplify_eq. exists handled, [BadText]. split; cbn; [done|done|lia].
  - destruct H3 as (i & -> & He). destruct p as [r| |c k|t k].
    + simplify_eq. exists (handled ++ [i]), []. split; cbn; [by rewrite <-app_assoc| |done].
      rewrite omap_app. apply Forall2_app; [done|]. cbn in He |- *. destruct (asked i), r; cbn; try done. by repeat constructor.
    + simplify_eq. exists handled, [i]. by split; cbn.
    + apply bind_Some in H as (s1 & E & [= <-]). apply send_cmd_frame in E. rewrite E. exists handled, [i].
      by eapply replying_within.
    + exists handled, [i]. cbn in He.
      destruct t as [ms|]; [destruct d|]; repeat case_match; simplify_eq; (eapply replying_within; [done|done|done|done|cbn;done|]);
        first [by apply He | done | idtac].
Qed.

Lemma event_cases ev : ev = SySrv ∨ ev = SyTimer ∨ (ev ≠ SySrv ∧ ev ≠ SyTimer).
Proof. destruct ev; auto. Qed.

Lemma sys_step_replying inputs me ev s s' handled current : replying inputs s handled current → sys_step me ev s = Some s' →
  ∃ handled current, replying inputs s' handled current.
Proof.
  intros Hr H. destruct (event_cases ev) as [->|[->|[H1 H2]]]; [by eapply server_step_replying|..].
  - pose proof Hr as [_ _ H3]. cbn in H. unfold timer_step in H. destruct (sy_pc s) as [|[| | |t k] [d|]| | |]; try done.
    destruct (sy_now s <? d); simplify_eq. destruct H3 as (i & -> & He).
    exists handled, [i]. eapply replying_within; [done..|]. apply He.
  - apply others_frame in H as (E1 & E2 & E3); [|done..]. exists handled, current. by eapply replying_frame.
Qed.

Lemma sys_run_ind (P : Sys → Prop) me evs s s' : (∀ ev s s', P s → sys_step me ev s = Some s' → P s') →
  P s → sys_run me evs s = Some s' → P s'.
Proof.
  intros Hs. revert s. induction evs as [|ev evs IH]; cbn; intros s Hp H; [by simplify_eq|].
  apply bind_Some in H as (s1 & E & H). by eapply IH, H; eapply Hs.
Qed.

(** [C23] However the server and the node's tasks interleave, the replies
    written so far are those to the lines that have been handled, in the order
    of the lines, one for each request and none for a notification, and each
    bears the identifier of its request. *)
Theorem replies_in_order me evs relay observed inputs eof s : sys_run me evs (sys_new relay observed inputs eof) = Some s →
  ∃ handled current, inputs = handled ++ current ++ sy_stdin s ∧ (length current ≤ 1)%nat ∧ (sy_pc s = SvRead → current = []) ∧
    Forall2 replies_to (omap asked handled) (sy_out s).
Proof.
  intros H. assert (∃ handled current, replying inputs s handled current) as (handled & current & [H1 H2 H3]).
  { eapply (sys_run_ind (λ s, ∃ handled current, replying inputs s handled current)), H.
    - intros ev t t' (h & c & Hr) Ht. by eapply sys_step_replying.
    - exists [], []. by split. }
  exists handled, current. split_and!; [done| |intros E; by rewrite E in H3|done].
  destruct (sy_pc s); [by subst current; cbn; lia|destruct H3 as (i & -> & _); done|done..].
Qed.

(** ** The agent gets every message once, in order *)

Definition messages (evs : list HandleEvent) : list (NodeId * list Z) :=
  omap (λ e, match e with Ev (EvMessage from _ payload) => Some (from, payload) | _ => None end) evs.

(** The text of a tool's result. *)
Definition reply_text (v : Value) : option (list Z) :=
  c ← r ← get "result" v; get "content" r;
  match c with Arr [t] => x ← get "text" t; as_str x | _ => None end.

(** The reply of a tool that returned a message. *)
Definition received (v : Value) : option (list Z) :=
  t ← reply_text v; if bool_decide (take 5 t = chars "from=") then Some t else None.

Definition held (pc : SvPc) : list Value := match pc with SvRunning (Ret (Some v)) _ => [v] | _ => [] end.

(** A program that takes no message, and one that reports the message it
    takes. *)
Inductive reporting : Prog → Prop :=
  | rep_ret r : (∀ v, r = Some v → received v = None) → reporting (Ret r)
  | rep_panic : reporting Panic
  | rep_cmd c r : (∀ v, r = Some v → received v = None) → reporting (Cmd c (Ret r))
  | rep_recv t k : (∀ m, ∃ v, k (inr m) = Ret (Some v) ∧ received v = Some (recv_text m)) →
      (∀ e, ∃ v, k (inl e) = Ret (Some v) ∧ received v = None) → reporting (Recv t k).

Lemma received_text id t b : received (reply id (inr (tool_result t b))) = if bool_decide (take 5 t = chars "from=") then Some t else None.
Proof. done. Qed.

Lemma call_tool_reporting me name args id : reporting (call_tool me name args (λ v, Ret (Some (reply id (inr v))))).
Proof.
  assert (Hn : ∀ t b, bool_decide (take 5 t = chars "from=") = false → ∀ v, Some (reply id (inr (tool_result t b))) = Some v → received v = None).
  { intros t b Ht v [= <-]. by rewrite received_text, Ht. }
  unfold call_tool, with_target, tool_ok, tool_err. repeat case_decide.
  - constructor. by apply Hn.
  - repeat case_match; constructor; by apply Hn.
  - repeat case_match; constructor; by apply Hn.
  - constructor.
    + intros m. eexists. split; [done|]. by rewrite received_text.
    + intros e. eexists. split; [done|]. by rewrite received_text.
  - constructor. by apply Hn.
Qed.

Lemma handle_line_reporting me line : is_Some (answer_id line) → reporting (handle_line me line).
Proof.
  unfold handle_line, answer_id. destruct (from_str line) as [v|]; [|by constructor; intros ? [= <-]].
  destruct (m ← get "method" v; as_str m) as [method|]; [|by constructor; intros ? [= <-]].
  intros (id & ->). cbn [fmap option_fmap option_map]. repeat case_match; try (constructor; intros ? [= <-]; done).
  apply call_tool_reporting.
Qed.

(** What the node sent to the server is what the agent got and what is on its
    way to it. *)
Record accounted (s : Sys) : Prop := {
  ac_exact : recv_text <$> messages (sy_history s) = omap received (sy_out s ++ held (sy_pc s)) ++ (recv_text <$> messages (sy_events s));
  ac_pc : match sy_pc s with SvRunning p _ => reporting p ∨ ∃ v, p = Ret (Some v) | _ => True end;
  ac_stdin : Forall (λ i, match i with Line l => trim_end l ≠ [] → is_Some (answer_id (trim_end l)) | BadText => True end) (sy_stdin s)
}.

Lemma held_quiet p d : reporting p → omap received (held (SvRunning p d)) = [].
Proof. destruct 1 as [[v|] Hr| | |]; cbn; try done. by rewrite (Hr v eq_refl). Qed.

(** The server goes on without taking or reporting a message. *)
Lemma accounted_quiet s s' : accounted s → omap received (held (sy_pc s)) = [] → omap received (held (sy_pc s')) = [] →
  sy_history s' = sy_history s → sy_out s' = sy_out s → messages (sy_events s') = messages (sy_events s) → (∀ i, i ∈ sy_stdin s' → i ∈ sy_stdin s) →
  match sy_pc s' with SvRunning p _ => reporting p ∨ ∃ v, p = Ret (Some v) | _ => True end → accounted s'.
Proof.
  intros [H1 H2 H3] Hh Hh' E1 E2 E3 E4 Hp. split; [|done|].
  - rewrite E1, E2, E3, H1, !omap_app. by rewrite Hh, Hh'.
  - apply Forall_forall. intros i Hi%E4. by eapply Forall_forall in H3.
Qed.

Lemma server_step_accounted me s s' : accounted s → server_step me s = Some s' → accounted s'.
Proof.
  intros Ha H. pose proof Ha as [H1 H2 H3]. unfold server_step in H. destruct (sy_pc s) as [|p d| | |] eqn:Ep; try done.
  - destruct (sy_stdin s) as [|[l|] rest] eqn:Es.
    + case_match; simplify_eq. eapply accounted_quiet; [exact Ha|by rewrite ?Ep..].
    + simplify_eq. assert (∀ i, i ∈ rest → i ∈ sy_stdin s) by (rewrite Es; by constructor).
      destruct (trim_end l) as [|c l'] eqn:Et; [eapply accounted_quiet; [exact Ha|by rewrite ?Ep..]|].
      apply Forall_cons in H3 as [Hl _]. rewrite Et in Hl. apply (handle_line_reporting me) in Hl; [|done].
      eapply accounted_quiet; [exact Ha|by rewrite Ep|by apply held_quiet|done..|by left].
    + simplify_eq. eapply accounted_quiet; [exact Ha|by rewrite ?Ep..|rewrite Es; by constructor|done].
  - destruct p as [r| |c k|t k].
    + simplify_eq. split; cbn [sy_history sy_out sy_pc sy_events sy_stdin with_pc with_out held]; [|done|done].
      rewrite H1, app_nil_r. by destruct r.
    + simplify_eq. eapply accounted_quiet; [exact Ha|by rewrite ?Ep..].
    + apply bind_Some in H as (s1 & E & [= <-]). apply send_cmd_frame in E. rewrite E.
      destruct H2 as [H2|(? & [=])]. inversion H2 as [| |c' r Hr|]; subst.
      eapply accounted_quiet; [exact Ha|by rewrite Ep|by apply held_quiet; constructor|done..|left; by constructor].
    + destruct H2 as [H2|(? & [=])]. inversion H2 as [| | |t' k' Hm He]; subst.
      assert (Hq : accounted (with_pc (SvRunning (k (inl (mkRpcError INTERNAL_ERROR (chars "node event stream closed")))) None) s)).
      { destruct (He (mkRpcError INTERNAL_ERROR (chars "node event stream closed"))) as (v & -> & Hv).
        eapply accounted_quiet; [exact Ha|by rewrite Ep|cbn; by rewrite Hv|done..|right; by eexists]. }
      assert (Hs : ∀ e rest, sy_events s = e :: rest → messages [e] = [] → accounted (with_events rest s)).
      { intros e rest Ee Hn. eapply accounted_quiet; [exact Ha|cbn; by rewrite ?Ep..| |done|cbn; rewrite Ep; by left].
        cbn. rewrite Ee. unfold messages in Hn |- *. change (e :: rest) with ([e] ++ rest). by rewrite omap_app, Hn. }
      assert (Ht : ∀ from via payload rest, sy_events s = Ev (EvMessage from via payload) :: rest →
                accounted (with_pc (SvRunning (k (inr (from, payload))) None) (with_events rest s))).
      { intros from via payload rest Ee. destruct (Hm (from, payload)) as (v & -> & Hv).
        split; cbn [sy_history sy_out sy_pc sy_events sy_stdin with_pc with_events held]; [|right; by eexists|done].
        rewrite H1, Ee, !omap_app. cbn. rewrite Hv, app_nil_r, <-app_assoc. done. }
      destruct t as [ms|]; [destruct d|]; repeat case_match; simplify_eq; eauto.
      eapply accounted_quiet; [exact Ha|by rewrite ?Ep..|cbn; by left].
Qed.

Lemma sys_step_accounted me ev s s' : accounted s → sys_step me ev s = Some s' → accounted s'.
Proof.
  intros Ha H. destruct (event_cases ev) as [->|[->|[H1 H2]]]; [by eapply server_step_accounted|..].
  - pose proof Ha as [_ H2 _]. cbn in H. unfold timer_step in H. destruct (sy_pc s) as [|[| | |t k] [d|]| | |] eqn:Ep; try done.
    destruct (sy_now s <? d); simplify_eq. destruct H2 as [H2|(? & [=])]. inversion H2 as [| | |t' k' Hm He]; subst.
    destruct (He (mkRpcError APP_ERROR (chars "timed out waiting for a message"))) as (v & -> & Hv).
    eapply accounted_quiet; [exact Ha|by rewrite Ep|cbn; by rewrite Hv|done..|right; by eexists].
  - apply others_frame in H as Hf; [|done..]. destruct Hf as (E1 & E2 & E3). destruct Ha as [A1 A2 A3].
    assert (He : ∃ l, sy_history s' = sy_history s ++ l ∧ sy_events s' = sy_events s ++ l).
    { destruct ev; try done; cbn in H; unfold mbind, option_bind in H; repeat case_match; simplify_eq/=; try (exists []; by rewrite !app_nil_r).
      all: match goal with E : push_event _ _ = Some _ |- _ => apply push_event_frame in E as (-> & _) end; by eexists. }
    destruct He as (l & El & Er). split; [|by rewrite E3|by rewrite E1].
    rewrite E2, E3, El, Er. unfold messages in A1 |- *. by rewrite !omap_app, !fmap_app, A1, omap_app, <-!app_assoc.
Qed.

(** If every line asks for an answer, the messages the node sent to the
    server are those the agent was given, in the order sent, followed by the
    one about to be written and those that wait: none is lost to a time-out,
    given twice or out of order. *)
Theorem messages_exact me evs relay observed inputs eof s :
  Forall (λ i, match i with Line l => trim_end l ≠ [] → is_Some (answer_id (trim_end l)) | BadText => True end) inputs →
  sys_run me evs (sys_new relay observed inputs eof) = Some s →
  recv_text <$> messages (sy_history s) = omap received (sy_out s ++ held (sy_pc s)) ++ (recv_text <$> messages (sy_events s)).
Proof.
  intros Hi H. eapply (sys_run_ind accounted) in H; [by destruct H|intros; by eapply sys_step_accounted|].
  split; cbn; [done|done|done].
Qed.

(** ** A server that only sends *)

(** The channel of events is full, so the node's actor waits to send one, the
    channel of commands is full, and the server waits to send one. *)
Definition stalled (s : Sys) : Prop :=
  (∃ c k d, sy_pc s = SvRunning (Cmd c k) d) ∧ sy_actor s = true ∧ (CHANNEL ≤ length (sy_cmds s))%nat ∧
  (CHANNEL ≤ length (sy_events s))%nat ∧ sy_emitting s ≠ [].

Lemma push_event_full ev s : (CHANNEL ≤ length (sy_events s))%nat → push_event ev s = None.
Proof. intros H. unfold push_event. destruct (Nat.ltb_spec (length (sy_events s)) CHANNEL); [lia|]. by rewrite andb_false_r. Qed.

Lemma stall_stays me ev s s' : stalled s → sys_step me ev s = Some s' → stalled s' ∧ sy_out s' = sy_out s ∧ sy_stdin s' = sy_stdin s.
Proof.
  intros Hs H. pose proof Hs as ((c & k & d & Ep) & Ha & Hc & He & Hm). destruct ev; cbn [sys_step] in H.
  - unfold server_step, send_cmd in H. rewrite Ep, Ha in H. cbn [negb] in H.
    destruct (Nat.ltb_spec (length (sy_cmds s)) CHANNEL); [lia|done].
  - unfold timer_step in H. by rewrite Ep in H.
  - by simplify_eq.
  - rewrite Ha in H. by destruct (sy_emitting s).
  - rewrite Ha in H. by destruct (sy_emitting s).
  - destruct (sy_emitting s); [done|]. by rewrite push_event_full in H.
  - rewrite Ha in H. by destruct (sy_emitting s).
  - by rewrite Ha in H.
  - by rewrite push_event_full in H.
  - rewrite Ha in H. cbn [andb] in H. destruct (Nat.ltb_spec (length (sy_cmds s)) CHANNEL); [lia|done].
Qed.

(** [C40] Once the events the agent has not asked for fill their channel and
    its sends the other, the server and its node wait for each other: whatever
    happens, no line is read and no reply written any more. *)
Theorem unread_events_stall me evs s s' : stalled s → sys_run me evs s = Some s' →
  stalled s' ∧ sy_out s' = sy_out s ∧ sy_stdin s' = sy_stdin s.
Proof.
  intros Hs. apply (sys_run_ind (λ t, stalled t ∧ sy_out t = sy_out s ∧ sy_stdin t = sy_stdin s)); [|done].
  intros ev t t' (Ht & E1 & E2) Hstep. destruct (stall_stays _ _ _ _ Ht Hstep) as (? & ? & ?). split_and!; [done|congruence..].
Qed.

(** ** A target that is cut within a character *)

Definition call_of (line : list Z) (name target : list Z) : Prop :=
  ∃ v params args, from_str line = Some v ∧ (get "method" v ≫= as_str) = Some (chars "tools/call") ∧ get "params" v = Some params ∧
    (get "name" params ≫= as_str) = Some name ∧ get "arguments" params = Some args ∧ (get "target" args ≫= as_str) = Some target.

Lemma call_panics me line target : call_of line (chars "peer_connect") target → parse_target target = None → handle_line me line = Panic.
Proof.
  intros (v & params & args & Ev & Em & Ep & En & Ea & Et) Hp. unfold handle_line.
  rewrite Ev. cbv zeta. change (m ← get "method" v; as_str m) with (get "method" v ≫= as_str). rewrite Em, Ep. cbn [from_option id].
  change (n ← get "name" params; as_str n) with (get "name" params ≫= as_str).
  rewrite En, Ea. repeat (rewrite decide_False by (vm_compute; discriminate)).
  rewrite (bool_decide_eq_false_2 (chars "tools/call" = _)) by (vm_compute; discriminate). cbn [andb].
  repeat (rewrite decide_False by (vm_compute; discriminate)). rewrite decide_True by done.
  cbn [from_option id]. unfold call_tool. cbv zeta. rewrite decide_False by (vm_compute; discriminate). rewrite decide_True by done.
  change (v0 ← get "target" args; as_str v0) with (get "target" args ≫= as_str). rewrite Et. unfold with_target. by rewrite Hp.
Qed.

(** Byte 16 is not the start of a character. *)
Lemma parse_target_panics s : str_len (trim s) ≠ 64 → 16 ≤ str_len s → split_bytes 16 s = None → parse_target s = None.
Proof.
  intros H1 H2 H3. unfold parse_target, from_hex. rewrite (proj2 (Z.eqb_neq _ _)) by done. cbn.
  rewrite Z.min_r by lia. by rewrite H3.
Qed.

Lemma panicked_stays me evs s s' : sy_pc s = SvPanicked → sys_run me evs s = Some s' → sy_pc s' = SvPanicked ∧ sy_out s' = sy_out s.
Proof.
  intros Hp. apply (sys_run_ind (λ t, sy_pc t = SvPanicked ∧ sy_out t = sy_out s)); [|done].
  intros ev t t' [E1 E2] H. destruct (event_cases ev) as [->|[->|[H1 H2]]].
  - cbn in H. unfold server_step in H. by rewrite E1 in H.
  - cbn in H. unfold timer_step in H. by rewrite E1 in H.
  - apply others_frame in H as (_ & F2 & F3); [|done..]. by rewrite F2, F3.
Qed.

(** A call of [peer_connect] whose target is not 64 bytes long and has a
    character across its sixteenth byte is not refused: the error text slices
    the target within the character, the server panics, and neither this call
    nor any later one is answered. *)
Theorem split_target_kills me s l rest target : sy_pc s = SvRead → sy_stdin s = Line l :: rest → trim_end l ≠ [] →
  call_of (trim_end l) (chars "peer_connect") target → str_len (trim target) ≠ 64 → 16 ≤ str_len target → split_bytes 16 target = None →
  ∃ s', sys_run me [SySrv; SySrv] s = Some s' ∧ sy_pc s' = SvPanicked ∧ sy_out s' = sy_out s ∧
    ∀ evs t, sys_run me evs s' = Some t → sy_pc t = SvPanicked ∧ sy_out t = sy_out s.
Proof.
  intros Hp Hs Hl Hc H1 H2 H3. pose proof (call_panics me _ _ Hc (parse_target_panics _ H1 H2 H3)) as He.
  assert (E : sys_step me SySrv s = Some (with_pc (SvRunning Panic None) (with_stdin rest s))).
  { cbn [sys_step]. unfold server_step. rewrite Hp, Hs. cbv zeta. destruct (trim_end l) as [|c l'] eqn:Et; [done|]. by rewrite He. }
  cbn [sys_run]. rewrite E. cbn [mbind option_bind].
  eexists. split; [done|]. split_and!; [done|done|]. intros evs t Ht. by apply panicked_stays in Ht.
Qed.
End server.

(** ** Texts survive the way through the node *)

Definition scalar (c : Z) : Prop := 0 ≤ c < 0xD800 ∨ 0xE000 ≤ c < 0x110000.

Lemma base64 a b : 0 ≤ b < 64 → (a * 64 + b) / 64 = a ∧ (a * 64 + b) mod 64 = b.
Proof. intros H. rewrite Z.div_add_l, Z.div_small, Z.add_0_r by lia. by rewrite Z.add_comm, Z.mod_add, Z.mod_small by lia. Qed.

Lemma base64_split c : ∃ a b, c = a * 64 + b ∧ 0 ≤ b < 64.
Proof. exists (c / 64), (c mod 64). pose proof (Z.mod_pos_bound c 64). pose proof (Z.div_mod c 64). lia. Qed.

(** The bytes of a character by the groups of its bits. *)
Inductive encoded : Z → list Z → Prop :=
  | enc1 c : 0 ≤ c < 0x80 → encoded c [c]
  | enc2 a b : 2 ≤ a < 32 → 0 ≤ b < 64 → encoded (a * 64 + b) [0xC0 + a; 0x80 + b]
  | enc3 a b d : 0 ≤ a < 16 → 0 ≤ b < 64 → 0 ≤ d < 64 → (a = 0 → 32 ≤ b) → (a = 13 → b < 32) →
      encoded ((a * 64 + b) * 64 + d) [0xE0 + a; 0x80 + b; 0x80 + d]
  | enc4 a b d e : 0 ≤ a < 5 → 0 ≤ b < 64 → 0 ≤ d < 64 → 0 ≤ e < 64 → (a = 0 → 16 ≤ b) → (a = 4 → b < 16) →
      encoded (((a * 64 + b) * 64 + d) * 64 + e) [0xF0 + a; 0x80 + b; 0x80 + d; 0x80 + e].

Lemma encoded_ok c l : encoded c l → scalar c ∧ encode_char c = l.
Proof.
  unfold scalar, encode_char. change 262144 with (64 * (64 * 64)). change 4096 with (64 * 64).
  destruct 1 as [c|a b|a b d|a b d e]; (split; [lia|]);
    repeat match goal with |- context [?x <? ?y] => destruct (Z.ltb_spec x y); try lia end; try done.
  - destruct (base64 a b) as [-> ->]; done.
  - destruct (base64 (a * 64 + b) d) as [E ->]; [done|]. rewrite <-Z.div_div, E by lia. by destruct (base64 a b) as [-> ->].
  - destruct (base64 ((a * 64 + b) * 64 + d) e) as [E ->]; [done|]. rewrite <-!Z.div_div, E by lia.
    destruct (base64 (a * 64 + b) d) as [-> ->]; [done|]. by destruct (base64 a b) as [-> ->].
Qed.

Lemma scalar_encoded c : scalar c → encoded c (encode_char c).
Proof.
  intros Hc. assert (∃ l, encoded c l) as (l & Hl); [|by destruct (encoded_ok _ _ Hl) as [_ ->]].
  unfold scalar in Hc. destruct (decide (c < 0x80)); [eexists; constructor; lia|].
  destruct (base64_split c) as (x & d & -> & Hd). destruct (decide (x < 32)); [eexists; apply enc2; lia|].
  destruct (base64_split x) as (y & b & -> & Hb). destruct (decide (y < 16)); [eexists; apply enc3; lia|].
  destruct (base64_split y) as (a & b' & -> & Hb'). eexists. apply enc4; lia.
Qed.

Ltac leb_cases := repeat match goal with |- context [?x <=? ?y] => destruct (Z.leb_spec x y); try lia end.

(** A leading byte and what it asks for. *)
Lemma lead2 a : 2 ≤ a < 32 → utf8_lead (0xC0 + a) = Some (1%nat, 0x80, 0xBF).
Proof. intros. unfold utf8_lead, in_rng. leb_cases. done. Qed.

Lemma lead3 a : 0 ≤ a < 16 → ∃ lo hi, utf8_lead (0xE0 + a) = Some (2%nat, lo, hi) ∧ lo = (if a =? 0 then 0xA0 else 0x80) ∧ hi = (if a =? 13 then 0x9F else 0xBF).
Proof.
  intros. unfold utf8_lead, in_rng. do 2 eexists. split; [|split; reflexivity].
  destruct (Z.eqb_spec a 0) as [->|]; [done|]. destruct (Z.eqb_spec a 13) as [->|]; [done|].
  destruct (Z.eqb_spec (224 + a) 224); [lia|]. leb_cases; done.
Qed.

Lemma lead4 a : 0 ≤ a < 5 → ∃ lo hi, utf8_lead (0xF0 + a) = Some (3%nat, lo, hi) ∧ lo = (if a =? 0 then 0x90 else 0x80) ∧ hi = (if a =? 4 then 0x8F else 0xBF).
Proof.
  intros. assert (a = 0 ∨ a = 1 ∨ a = 2 ∨ a = 3 ∨ a = 4) as [->|[->|[->|[->| ->]]]] by lia; do 2 eexists; (split; [reflexivity|split; reflexivity]).
Qed.

Lemma cont_bits b : 0 ≤ b < 64 → (0x80 + b) mod 64 = b.
Proof. intros. change 128 with (2 * 64). rewrite Z.add_comm, Z.mod_add, Z.mod_small by lia. done. Qed.

Lemma in_rng_true lo hi b : lo ≤ b ≤ hi → in_rng lo hi b = true.
Proof. intros. unfold in_rng. by leb_cases. Qed.

Lemma lossy_encoded c l r : encoded c l → from_utf8_lossy (l ++ r) = c :: from_utf8_lossy r.
Proof.
  unfold from_utf8_lossy. destruct 1 as [c Hc|a b Ha Hb|a b d Ha Hb Hd H0 H13|a b d e Ha Hb Hd He H0 H4].
  - cbn [app lossy_run]. unfold utf8_lead, in_rng. leb_cases. done.
  - cbn [app lossy_run]. rewrite lead2 by lia. cbn [lossy_run]. rewrite in_rng_true by lia.
    unfold lead_bits. cbn. rewrite cont_bits by lia. replace (192 + a) with (a + 6 * 32) by lia. by rewrite Z.mod_add, Z.mod_small by lia.
  - destruct (lead3 a Ha) as (lo & hi & El & Elo & Ehi). cbn [app lossy_run]. rewrite El. cbn [lossy_run].
    rewrite !in_rng_true by (repeat case_match; lia).
    unfold lead_bits. cbn. rewrite !cont_bits by lia. replace (224 + a) with (a + 14 * 16) by lia. by rewrite Z.mod_add, Z.mod_small by lia.
  - destruct (lead4 a Ha) as (lo & hi & El & Elo & Ehi). cbn [app lossy_run]. rewrite El. cbn [lossy_run].
    rewrite !in_rng_true by (repeat case_match; lia).
    unfold lead_bits. cbn. rewrite !cont_bits by lia. replace (240 + a) with (a + 30 * 8) by lia. by rewrite Z.mod_add, Z.mod_small by lia.
Qed.

Lemma lossy_as_bytes s : Forall scalar s → from_utf8_lossy (as_bytes s) = s.
Proof.
  induction 1 as [|c s Hc _ IH]; [done|]. unfold as_bytes. cbn [fmap list_fmap concat]. rewrite lossy_encoded with (c := c) by by apply scalar_encoded.
  by f_equal.
Qed.

Lemma in_rng_bounds lo hi b : in_rng lo hi b = true → lo ≤ b ≤ hi.
Proof. unfold in_rng. intros [?%Z.leb_le ?%Z.leb_le]%andb_prop. done. Qed.

(** A valid sequence begins with a character. *)
Lemma valid_head x r : utf8_valid (x :: r) = true → ∃ c l r', encoded c l ∧ x :: r = l ++ r' ∧ utf8_valid r' = true.
Proof.
  unfold utf8_valid. cbn [utf8_run]. destruct (utf8_lead x) as [[[n lo] hi]|] eqn:El; [|done].
  assert (Hx : (n = 0%nat ∧ 0 ≤ x < 0x80) ∨ (n = 1%nat ∧ 0xC2 ≤ x ≤ 0xDF ∧ lo = 0x80 ∧ hi = 0xBF) ∨
    (n = 2%nat ∧ 0xE0 ≤ x < 0xF0 ∧ 0x80 ≤ lo ∧ hi ≤ 0xBF ∧ (x = 0xE0 → lo = 0xA0) ∧ (x = 0xED → hi = 0x9F)) ∨
    (n = 3%nat ∧ 0xF0 ≤ x < 0xF5 ∧ 0x80 ≤ lo ∧ hi ≤ 0xBF ∧ (x = 0xF0 → lo = 0x90) ∧ (x = 0xF4 → hi = 0x8F))).
  { unfold utf8_lead in El. repeat case_match; simplify_eq.
    all: repeat match goal with
         | H : in_rng _ _ _ = true |- _ => apply in_rng_bounds in H
         | H : in_rng _ _ _ || in_rng _ _ _ = true |- _ => apply orb_prop in H as [?%in_rng_bounds|?%in_rng_bounds]
         | H : (_ =? _) = true |- _ => apply Z.eqb_eq in H
         end; lia. }
  clear El. destruct Hx as [(-> & Hx)|[(-> & Hx & -> & ->)|[(-> & Hx)|(-> & Hx)]]]; intros Hr.
  - exists x, [x], r. split; [by apply enc1|]. split; [done|by destruct r].
  - destruct r as [|b r]; [done|]. cbn [utf8_run] in Hr. apply andb_prop in Hr as [?%in_rng_bounds Hr].
    exists ((x - 0xC0) * 64 + (b - 0x80)), [x; b], r. split; [|split; [done|by destruct r]].
    replace [x; b] with [0xC0 + (x - 0xC0); 0x80 + (b - 0x80)] by (repeat f_equal; lia). apply enc2; lia.
  - destruct r as [|b [|d r]]; cbn [utf8_run] in Hr; [done|by rewrite andb_false_r in Hr|].
    apply andb_prop in Hr as [?%in_rng_bounds Hr]. apply andb_prop in Hr as [?%in_rng_bounds Hr].
    exists (((x - 0xE0) * 64 + (b - 0x80)) * 64 + (d - 0x80)), [x; b; d], r. split; [|split; [done|by destruct r]].
    replace [x; b; d] with [0xE0 + (x - 0xE0); 0x80 + (b - 0x80); 0x80 + (d - 0x80)] by (repeat f_equal; lia). apply enc3; lia.
  - destruct r as [|b [|d [|e r]]]; cbn [utf8_run] in Hr; [done|by rewrite ?andb_false_r in Hr..|].
    apply andb_prop in Hr as [?%in_rng_bounds Hr]. apply andb_prop in Hr as [?%in_rng_bounds Hr]. apply andb_prop in Hr as [?%in_rng_bounds Hr].
    exists ((((x - 0xF0) * 64 + (b - 0x80)) * 64 + (d - 0x80)) * 64 + (e - 0x80)), [x; b; d; e], r. split; [|split; [done|by destruct r]].
    replace [x; b; d; e] with [0xF0 + (x - 0xF0); 0x80 + (b - 0x80); 0x80 + (d - 0x80); 0x80 + (e - 0x80)] by (repeat f_equal; lia). apply enc4; lia.
Qed.

Lemma valid_text b : utf8_valid b = true → ∃ s, Forall scalar s ∧ b = as_bytes s.
Proof.
  induction b as [b IH] using (induction_ltof1 _ (@length Z)); unfold ltof in IH. intros H.
  destruct b as [|x r]; [exists []; by split|]. destruct (valid_head _ _ H) as (c & l & r' & Hc & E & Hr).
  rewrite E in IH |- *. destruct (IH r') as (s & Hs & ->); [|done|].
  { rewrite length_app. destruct Hc; cbn; lia. }
  destruct (encoded_ok _ _ Hc) as [Hsc El]. exists (c :: s). split; [by constructor|]. unfold as_bytes. cbn. by rewrite El.
Qed.

(** The text an agent sends is the text the agent of the peer that gets
    the bytes reads; and every payload that is UTF-8 is shown as it is. *)
Theorem payload_text_exact `{MP : MeshPrimitives} from :
  (∀ s, Forall scalar s → recv_text (from, as_bytes s) = chars "from=" ++ to_hex from ++ chars " payload=" ++ s) ∧
  (∀ b, utf8_valid b = true → as_bytes (from_utf8_lossy b) = b).
Proof.
  split; [intros s Hs; unfold recv_text; cbn [fst snd]; by rewrite lossy_as_bytes|].
  intros b (s & Hs & ->)%valid_text. by rewrite lossy_as_bytes.
Qed.

(** ** Evaluation *)

Definition ex_call (id : Z) (name : string) (args : list (string * Value)) : Value :=
  object [("jsonrpc", text "2.0"); ("id", int id); ("method", text "tools/call");
          ("params", object [("name", text name); ("arguments", object args)])].

Definition ex_peer : NodeId := replicate 32 171.

(** Six Chinese characters of three bytes each. *)
Definition ex_target : list Z := [20013; 25991; 20013; 25991; 20013; 25991].

(** A parser that knows five lines. *)
Definition ex_parse (line : list Z) : option Value :=
  match line with
  | [65] => Some (ex_call 1 "peer_send" [("target", Str (to_hex ex_peer)); ("payload", text "hi")])
  | [66] => Some (ex_call 2 "peer_recv" [("timeout_ms", int 100)])
  | [67] => Some (ex_call 3 "peer_connect" [("target", Str ex_target)])
  | [68] => Some (object [("jsonrpc", text "2.0"); ("method", text "notifications/initialized")])
  | [69] => Some (object [("jsonrpc", text "2.0"); ("id", int 4); ("method", text "ping")])
  | _ => None
  end.

Definition ex_relay_addr : SocketAddr := V4 [127; 0; 0; 1] 9100.
Abbreviation ex_serve evs lines := (@sys_run toy_mesh ex_parse id ex_peer evs (sys_new ex_relay_addr ex_relay_addr (Line <$> lines) false)).

(** A send, a wait that takes a message, a wait that ends, an empty line and
    one that is not JSON. *)
Definition ex_session : list SysEv :=
  replicate 3 SySrv ++ [SyTake [Ev (EvMessage ex_peer PRelay (as_bytes [104; 233]))]; SyEmit] ++
  replicate 5 SySrv ++ replicate 2 SySrv ++ [SyTick 100; SyTimer; SySrv] ++ replicate 3 SySrv.
Definition ex_lines : list (list Z) := [[65; 10]; [66; 10]; [66; 10]; [10]; [123; 10]].

Definition ex_seen (s : Sys) : bool * list (option Value) * list (NodeId * list Z) :=
  (match sy_pc s with SvRead => true | _ => false end, get "id" <$> sy_out s, messages (sy_history s)).

Lemma run_seen {A} (f : Sys → A) (o : option Sys) a : option_map f o = Some a → ∃ s, o = Some s ∧ f s = a.
Proof. destruct o as [s|]; [|done]. intros [= H]. by exists s. Qed.

Lemma ex_ends : ∃ s, ex_serve (replicate 2 SySrv ++ ex_session) ([68; 10] :: ex_lines) = Some s ∧
  ex_seen s = (true, [Some (int 1); Some (int 2); Some (int 2); Some Null], [(ex_peer, as_bytes [104; 233])]).
Proof. apply (run_seen ex_seen). vm_compute. reflexivity. Qed.

Lemma replies_in_order_witness : ∃ s, ex_seen s = (true, [Some (int 1); Some (int 2); Some (int 2); Some Null], [(ex_peer, as_bytes [104; 233])]) ∧
  ∃ handled current, Line <$> [68; 10] :: ex_lines = handled ++ current ++ sy_stdin s ∧
    (length current ≤ 1)%nat ∧ (sy_pc s = SvRead → current = []) ∧ Forall2 replies_to (omap (asked ex_parse) handled) (sy_out s).
Proof.
  destruct ex_ends as (s & E & Hs). exists s. split; [exact Hs|].
  exact (@replies_in_order toy_mesh ex_parse id ex_peer _ ex_relay_addr ex_relay_addr _ false s E).
Defined.

Lemma ex_got : ∃ s, ex_serve ex_session ex_lines = Some s ∧ messages (sy_history s) = [(ex_peer, as_bytes [104; 233])].
Proof. apply (run_seen (λ s, messages (sy_history s))). vm_compute. reflexivity. Qed.

Lemma messages_exact_witness : ∃ s, messages (sy_history s) = [(ex_peer, as_bytes [104; 233])] ∧
  @recv_text <$> messages (sy_history s) = omap (@received) (sy_out s ++ held (sy_pc s)) ++ (@recv_text <$> messages (sy_events s)).
Proof.
  destruct ex_got as (s & E & Hs). exists s. split; [exact Hs|].
  refine (@messages_exact toy_mesh ex_parse id ex_peer _ ex_relay_addr ex_relay_addr _ false s _ E).
  apply Forall_fmap. repeat (apply Forall_cons; split; [vm_compute; intros; first [by eexists | done]|]). by apply Forall_nil.
Defined.

(** The agent sends 513 times: the node reports an event for each message it
    takes, the 257th event does not fit, and then neither does the 257th
    message that waits. *)
Definition ex_sends : list SysEv :=
  concat (replicate 255 (replicate 3 SySrv ++ [SyTake [Ev (EvLog LogSelf)]; SyEmit])) ++
  replicate 3 SySrv ++ [SyTake [Ev (EvLog LogSelf)]] ++ replicate (256 * 3) SySrv ++ [SySrv].

Definition stalledb (s : Sys) : bool :=
  match sy_pc s with SvRunning (Cmd _ _) _ => true | _ => false end && sy_actor s && (CHANNEL <=? length (sy_cmds s))%nat &&
  (CHANNEL <=? length (sy_events s))%nat && match sy_emitting s with [] => false | _ => true end.

Lemma stalledb_stalled s : stalledb s = true → stalled s.
Proof.
  unfold stalledb, stalled. destruct (sy_pc s) as [|[| |c k|]| | |]; try done. intros [[[[_ Ha]%andb_prop Hc%Nat.leb_le]%andb_prop He%Nat.leb_le]%andb_prop Hm]%andb_prop.
  split_and!; [by eauto|done|done|done|by destruct (sy_emitting s)].
Qed.

Lemma ex_stalls : ∃ s, ex_serve ex_sends (replicate 600 [65; 10]) = Some s ∧ (length (sy_out s) = 512 ∧ length (sy_stdin s) = 87)%nat ∧ stalled s.
Proof.
  destruct (run_seen (λ s, (length (sy_out s), length (sy_stdin s), stalledb s)) (ex_serve ex_sends (replicate 600 [65; 10])) (512%nat, 87%nat, true))
    as (s & E & H); [vm_compute; reflexivity|].
  exists s. split; [exact E|]. apply pair_eq in H as [[H1 H2]%pair_eq H3]. split; [split; [exact H1|exact H2]|by apply stalledb_stalled].
Qed.

Lemma unread_events_stall_witness : ∃ s, (length (sy_out s) = 512 ∧ length (sy_stdin s) = 87)%nat ∧
  ∃ s', @sys_run toy_mesh ex_parse id ex_peer [SyTick 1000; SyTick 1000] s = Some s' ∧ stalled s' ∧ sy_out s' = sy_out s ∧ sy_stdin s' = sy_stdin s.
Proof.
  destruct ex_stalls as (s & _ & Hl & Hs). exists s. split; [exact Hl|]. eexists. split; [reflexivity|].
  apply (@unread_events_stall toy_mesh ex_parse id ex_peer [SyTick 1000; SyTick 1000] s); [exact Hs|reflexivity].
Defined.

Definition ex_cut : Sys := sys_new ex_relay_addr ex_relay_addr (Line <$> [[67; 10]; [69; 10]]) false.

Lemma split_target_kills_witness : ∃ s', @sys_run toy_mesh ex_parse id ex_peer [SySrv; SySrv] ex_cut = Some s' ∧ sy_pc s' = SvPanicked ∧
  sy_out s' = sy_out ex_cut ∧ ∀ evs t, @sys_run toy_mesh ex_parse id ex_peer evs s' = Some t → sy_pc t = SvPanicked ∧ sy_out t = sy_out ex_cut.
Proof.
  apply (@split_target_kills toy_mesh ex_parse id ex_peer ex_cut [67; 10] [Line [69; 10]] ex_target).
  - reflexivity.
  - reflexivity.
  - vm_compute. discriminate.
  - do 3 eexists. split_and!; vm_compute; reflexivity.
  - vm_compute. discriminate.
  - vm_compute. discriminate.
  - vm_compute. reflexivity.
Defined.
