(* ===== verification/NetSim.v ===== *)
(** * Network simulation: the relays that inject delay and loss

    Models [crates/net-sim/src/lib.rs]: the generator of random numbers, the
    UDP relay (its queue of packets to forward, the loop that sends what is
    due and takes in what arrives under the conditions, the counters and the
    log) and the TCP relay.

    Instants are nanoseconds, and [Instant + Duration] does not overflow.  An
    iteration of the loop has as arguments what it reads of the outside: the
    clock, the results of its sends and the packet that arrived, if any.  The
    order of packets due at the same instant is that of Rust's binary heap and
    is left open by the class [HeapPick].  Tracing is left out. *)

From Stdlib Require Import SpecFloat.
From S2P Require Import Prelude F64.

(** ** Conditions *)

Record Conditions := mkConditions {
  cd_rtt : Z;
  cd_loss : f64;
  cd_jitter : Z;
  cd_reorder : f64;
  cd_bandwidth : option Z;
  cd_seed : Z
}.

Definition conditions_default : Conditions := mkConditions 200000 (S754_zero false) 0 (S754_zero false) None 0xD1EC700.
Definition ideal : Conditions := conditions_default.
Definition with_rtt (rtt : Z) : Conditions :=
  mkConditions rtt (cd_loss conditions_default) (cd_jitter conditions_default) (cd_reorder conditions_default)
    (cd_bandwidth conditions_default) (cd_seed conditions_default).
Definition rtt_ms (ms : Z) : Conditions := with_rtt (ms * 1000000).

(** ** Random numbers *)

Definition GAMMA : Z := 0x9E3779B97F4A7C15.

(** The mixing of [next_u64]. *)
Definition splitmix (z : Z) : Z :=
  let z := wrap64 (Z.lxor z (Z.shiftr z 30) * 0xBF58476D1CE4E5B9) in
  let z := wrap64 (Z.lxor z (Z.shiftr z 27) * 0x94D049BB133111EB) in
  Z.lxor z (Z.shiftr z 31).

Definition next_u64 (r : Z) : Z * Z :=
  let r := wrap64 (r + GAMMA) in (r, splitmix r).

(** [2^-53] *)
Definition two_m53 : f64 := f_div (f_of_Z 1) (f_of_Z (2 ^ 53)).

Definition next_f64 (r : Z) : Z * f64 :=
  let '(r, u) := next_u64 r in (r, f_mul (f_of_Z (Z.shiftr u 11)) two_m53).

(** [below(0)] divides by zero, which panics. *)
Definition below (n : Z) (r : Z) : option (Z * Z) :=
  if n =? 0 then None else let '(r, u) := next_u64 r in Some (r, u mod n).

(** ** The queue *)

Record Pending (Addr : Type) := mkPending {
  pd_send_at : Z;
  pd_dest : Addr;
  pd_bytes : list Z
}.

#[global] Arguments mkPending {Addr} _ _ _.
#[global] Arguments pd_send_at {Addr} _.
#[global] Arguments pd_dest {Addr} _.
#[global] Arguments pd_bytes {Addr} _.

(** Which packet is at the top of the heap: one with the least instant. *)
Class HeapPick (Addr : Type) := {
  pick : list (Pending Addr) → nat;
  pick_least l : l ≠ [] → ∃ p, l !! pick l = Some p ∧ ∀ q, q ∈ l → pd_send_at p ≤ pd_send_at q
}.

(** [Duration::from_secs_f64]: the nearest nanosecond, ties to even; a
    negative, infinite or too large number, or NaN, panics. *)
Definition round_div (n d : Z) : Z :=
  let q := n / d in
  match Z.compare (2 * (n mod d)) d with
  | Lt => q
  | Gt => q + 1
  | Eq => if Z.even q then q else q + 1
  end.

Definition from_secs_f64 (x : f64) : option Z :=
  match x with
  | S754_zero _ => Some 0
  | S754_finite false m e =>
      let n := Zpos m * 10 ^ 9 in
      let ns := if 0 <=? e then n * 2 ^ e else round_div n (2 ^ (- e)) in
      if ns <? 2 ^ 64 * 10 ^ 9 then Some ns else None
  | _ => None
  end.

(** The time a packet of [len] bytes takes at [rate] bytes per second. *)
Definition wire_time (len rate : Z) : option Z := from_secs_f64 (f_div (f_of_Z len) (f_of_Z rate)).

(** ** The UDP relay *)

Record ProxyStats := mkProxyStats {
  ps_received : Z;
  ps_sent : Z;
  ps_send_errors : Z;
  ps_loss_dropped : Z
}.

Definition stats_new : ProxyStats := mkProxyStats 0 0 0 0.
Definition count_received (s : ProxyStats) : ProxyStats := mkProxyStats (wrap64 (ps_received s + 1)) (ps_sent s) (ps_send_errors s) (ps_loss_dropped s).
Definition count_sent (s : ProxyStats) : ProxyStats := mkProxyStats (ps_received s) (wrap64 (ps_sent s + 1)) (ps_send_errors s) (ps_loss_dropped s).
Definition count_error (s : ProxyStats) : ProxyStats := mkProxyStats (ps_received s) (ps_sent s) (wrap64 (ps_send_errors s + 1)) (ps_loss_dropped s).
Definition count_lost (s : ProxyStats) : ProxyStats := mkProxyStats (ps_received s) (ps_sent s) (ps_send_errors s) (wrap64 (ps_loss_dropped s + 1)).

Inductive LogKind := LogRecv | LogSend.

(** The log of the last 512 events. *)
Definition log_push {A} (x : A) (l : list A) : list A :=
  (if 512 <=? zlen l then tail l else l) ++ [x].

Section relay.
Context {Addr : Type} `{EqDecision Addr} {HP : HeapPick Addr}.

Record Relay := mkRelay {
  rl_rng : Z;
  rl_client : option Addr;
  rl_pending : list (Pending Addr);
  rl_next_slot : Z;
  rl_stats : ProxyStats;
  rl_log : list (Z * LogKind * Z)
}.

Definition relay_new (conds : Conditions) (now : Z) : Relay := mkRelay (cd_seed conds) None [] now stats_new [].

Definition with_slot (t : Z) (r : Relay) : Relay := mkRelay (rl_rng r) (rl_client r) (rl_pending r) t (rl_stats r) (rl_log r).
Definition with_pending (l : list (Pending Addr)) (r : Relay) : Relay :=
  mkRelay (rl_rng r) (rl_client r) l (rl_next_slot r) (rl_stats r) (rl_log r).
Definition with_stats (f : ProxyStats → ProxyStats) (r : Relay) : Relay :=
  mkRelay (rl_rng r) (rl_client r) (rl_pending r) (rl_next_slot r) (f (rl_stats r)) (rl_log r).
Definition logged (x : Z * LogKind * Z) (r : Relay) : Relay :=
  mkRelay (rl_rng r) (rl_client r) (rl_pending r) (rl_next_slot r) (rl_stats r) (log_push x (rl_log r)).
Definition with_rng (g : Z) (r : Relay) : Relay :=
  mkRelay g (rl_client r) (rl_pending r) (rl_next_slot r) (rl_stats r) (rl_log r).

(** What happens to packets. *)
Inductive Fate :=
  | Sent (now : Z) (p : Pending Addr)
  | Failed (p : Pending Addr)
  | Lost (dest : Addr) (bytes : list Z)
  | Queued (now : Z) (p : Pending Addr)
  | Cleared (l : list (Pending Addr)).

(** The head of the queue and when the bandwidth lets it go; the slot is taken
    whether it goes now or not. *)
Definition slot_for (conds : Conditions) (p : Pending Addr) (r : Relay) : option (Z * Relay) :=
  match cd_bandwidth conds with
  | Some rate =>
      d ← wire_time (zlen (pd_bytes p)) rate;
      let slot := Z.max (rl_next_slot r) (pd_send_at p) in
      Some (slot, with_slot (slot + d) r)
  | None => Some (pd_send_at p, r)
  end.

(** Popping the head and sending it, with the result and the time of the
    send. *)
Definition send_head (now : Z) (p : Pending Addr) (res : bool * Z) (r : Relay) : Relay * Fate :=
  let r := with_pending (delete (pick (rl_pending r)) (rl_pending r)) r in
  if res.1 then (logged (res.2, LogSend, zlen (pd_bytes p)) (with_stats count_sent r), Sent now p)
  else (with_stats count_error r, Failed p).

(** The loop over the packets that are due: [fuel] is the length of the
    queue, and the results of further sends than given are successes. *)
Fixpoint send_due (fuel : nat) (conds : Conditions) (now : Z) (results : list (bool * Z)) (r : Relay) : option (Relay * list Fate) :=
  match fuel with
  | O => Some (r, [])
  | S fuel' =>
      match rl_pending r !! pick (rl_pending r) with
      | None => Some (r, [])
      | Some p =>
          if bool_decide (cd_bandwidth conds = Some 0) then Some (with_pending [] r, [Cleared (rl_pending r)]) else
          '(send_at, r) ← slot_for conds p r;
          if now <? send_at then Some (r, [])
          else
            let '(r, f) := send_head now p (default (true, 0) (head results)) r in
            '(r, fs) ← send_due fuel' conds now (tail results) r;
            Some (r, f :: fs)
      end
  end.

(** [x as i64] *)
Definition as_i64 (x : Z) : Z := (x + 2 ^ 63) mod 2 ^ 64 - 2 ^ 63.

(** Half the jitter, in whole microseconds. *)
Definition half_jitter (conds : Conditions) : Z := Z.quot (as_i64 (cd_jitter conds / 1000)) 2.

(** The jitter of a packet in microseconds, from a draw of [below(2 * j)]. *)
Definition jitter_of (j draw : Z) : Z := Z.max (draw - j) 0.

(** When a packet that arrives at [now] is to be sent. *)
Definition departure (conds : Conditions) (now : Z) (g : Z) : option (Z * Z) :=
  let hop := cd_rtt conds / 2 in
  let j := half_jitter conds in
  '(g, send_at) ← (if 0 <? j then
                     '(g, draw) ← below (2 * j) g;
                     Some (g, now + hop + jitter_of j draw * 1000)
                   else Some (g, now + hop));
  let send_at := if send_at <? now then now else send_at in
  if f_ltb (S754_zero false) (cd_reorder conds)
  then let '(g, x) := next_f64 g in
       Some (g, if f_ltb x (cd_reorder conds) && (0 <? hop) then now + hop / 2 else send_at)
  else Some (g, send_at).

(** A packet that has arrived, [ts] microseconds after the start. *)
Definition take_in (conds : Conditions) (server : Addr) (now : Z) (src : Addr) (bytes : list Z) (ts : Z) (r : Relay) : option (Relay * list Fate) :=
  let routed :=
    if decide (src = server) then
      c ← rl_client r; Some (c, r)
    else
      Some (server, mkRelay (rl_rng r) (Some (default src (rl_client r))) (rl_pending r) (rl_next_slot r) (rl_stats r) (rl_log r)) in
  match routed with
  | None => Some (r, [])
  | Some (dest, r) =>
      let r := logged (ts, LogRecv, zlen bytes) (with_stats count_received r) in
      let '(g, lost) :=
        if f_ltb (S754_zero false) (cd_loss conds)
        then let '(g, x) := next_f64 (rl_rng r) in (g, f_ltb x (cd_loss conds))
        else (rl_rng r, false) in
      let r := with_rng g r in
      if lost : bool then Some (with_stats count_lost r, [Lost dest bytes])
      else
        '(g, send_at) ← departure conds now (rl_rng r);
        let p := mkPending send_at dest bytes in
        Some (with_pending (p :: rl_pending r) (with_rng g r), [Queued now p])
  end.

(** What an iteration of the loop reads of the outside. *)
Record Poll := mkPoll {
  po_now : Z;
  po_results : list (bool * Z);
  po_arrival : option (Addr * list Z * Z)
}.

Definition relay_poll (conds : Conditions) (server : Addr) (po : Poll) (r : Relay) : option (Relay * list Fate) :=
  '(r, fs) ← send_due (length (rl_pending r)) conds (po_now po) (po_results po) r;
  match po_arrival po with
  | None => Some (r, fs)
  | Some (src, bytes, ts) =>
      '(r, fs') ← take_in conds server (po_now po) src bytes ts r;
      Some (r, fs ++ fs')
  end.

Fixpoint relay_udp (conds : Conditions) (server : Addr) (polls : list Poll) (r : Relay) : option (Relay * list Fate) :=
  match polls with
  | [] => Some (r, [])
  | po :: polls' =>
      '(r, fs) ← relay_poll conds server po r;
      '(r, fs') ← relay_udp conds server polls' r;
      Some (r, fs ++ fs')
  end.

End relay.

(** ** The generator *)

Fixpoint draws (n : nat) (r : Z) : list Z :=
  match n with
  | O => []
  | S n' => let '(r, u) := next_u64 r in u :: draws n' r
  end.

Lemma shiftr_below c k : 0 < k → 0 ≤ c → c = Z.shiftr c k → c = 0.
Proof.
  intros Hk Hc E. rewrite Z.shiftr_div_pow2 in E by lia. pose proof (Z.pow_gt_1 2 k ltac:(lia)) as [Hp _]. specialize (Hp Hk).
  destruct (Z.eq_dec c 0) as [|Hn]; [done|]. pose proof (Z.div_lt c (2 ^ k)). lia.
Qed.

Lemma xorshift_inj k a b : 0 < k → 0 ≤ a → 0 ≤ b → Z.lxor a (Z.shiftr a k) = Z.lxor b (Z.shiftr b k) → a = b.
Proof.
  intros Hk Ha Hb E. apply Z.lxor_eq. apply (shiftr_below _ k Hk); [by apply Z.lxor_nonneg|].
  rewrite Z.shiftr_lxor. apply Z.bits_inj'. intros i Hi. apply (f_equal (λ z, Z.testbit z i)) in E. rewrite !Z.lxor_spec in *.
  by destruct (Z.testbit a i), (Z.testbit b i), (Z.testbit (Z.shiftr a k) i), (Z.testbit (Z.shiftr b k) i).
Qed.

Lemma wrap64_bound x : 0 ≤ wrap64 x < 2 ^ 64.
Proof. apply Z.mod_pos_bound. lia. Qed.

Lemma wrap64_mul_inj m m' a b : wrap64 (m * m') = 1 → 0 ≤ a < 2 ^ 64 → 0 ≤ b < 2 ^ 64 → wrap64 (a * m) = wrap64 (b * m) → a = b.
Proof.
  unfold wrap64. intros Hm Ha Hb E. rewrite <-(Z.mod_small a (2 ^ 64)), <-(Z.mod_small b (2 ^ 64)) by done.
  rewrite <-(Z.mul_1_r a), <-(Z.mul_1_r b), <-Hm, !Zmult_mod_idemp_r, !Z.mul_assoc.
  by rewrite <-(Zmult_mod_idemp_l (a * m)), <-(Zmult_mod_idemp_l (b * m)), E.
Qed.

Lemma lxor_bound64 a b : 0 ≤ a < 2 ^ 64 → 0 ≤ b < 2 ^ 64 → 0 ≤ Z.lxor a b < 2 ^ 64.
Proof.
  intros Ha Hb. split; [apply Z.lxor_nonneg; lia|]. assert (Z.lxor a b = Z.lxor a b mod 2 ^ 64) as ->; [|apply Z.mod_pos_bound; lia].
  rewrite <-(Z.mod_small a (2 ^ 64)), <-(Z.mod_small b (2 ^ 64)) by done.
  apply Z.bits_inj'. intros i Hi. destruct (Z.lt_ge_cases i 64).
  - by rewrite Z.mod_pow2_bits_low by lia.
  - rewrite Z.mod_pow2_bits_high, Z.lxor_spec, !Z.mod_pow2_bits_high by lia. done.
Qed.

Lemma xorshift_bound a k : 0 ≤ k → 0 ≤ a < 2 ^ 64 → 0 ≤ Z.lxor a (Z.shiftr a k) < 2 ^ 64.
Proof.
  intros Hk Ha. apply lxor_bound64; [done|]. rewrite Z.shiftr_div_pow2 by done. pose proof (Z.pow_pos_nonneg 2 k ltac:(lia) Hk).
  split; [apply Z.div_pos; lia|]. apply Z.div_lt_upper_bound; [done|]. nia.
Qed.

Lemma splitmix_bound z : is_u64 (splitmix z).
Proof. unfold splitmix, is_u64, u64_max. pose proof (xorshift_bound _ 31 ltac:(lia) (wrap64_bound (Z.lxor (wrap64 (Z.lxor z (Z.shiftr z 30) * 0xBF58476D1CE4E5B9)) (Z.shiftr (wrap64 (Z.lxor z (Z.shiftr z 30) * 0xBF58476D1CE4E5B9)) 27) * 0x94D049BB133111EB))). lia. Qed.

(** The mixing loses nothing. *)
Lemma splitmix_inj a b : 0 ≤ a < 2 ^ 64 → 0 ≤ b < 2 ^ 64 → splitmix a = splitmix b → a = b.
Proof.
  intros Ha Hb E. unfold splitmix in E.
  apply xorshift_inj in E; [|lia|apply wrap64_bound|apply wrap64_bound].
  apply (wrap64_mul_inj _ 0x319642b2d24d8ec3) in E; [|by vm_compute|apply xorshift_bound; [lia|apply wrap64_bound]..].
  apply xorshift_inj in E; [|lia|apply wrap64_bound|apply wrap64_bound].
  apply (wrap64_mul_inj _ 0x96de1b173f119089) in E; [|by vm_compute|by apply xorshift_bound..].
  apply xorshift_inj in E; lia.
Qed.

Lemma draws_elem n r u : u ∈ draws n r → ∃ i, 1 ≤ i ≤ Z.of_nat n ∧ u = splitmix (wrap64 (r + i * GAMMA)).
Proof.
  revert r. induction n as [|n IH]; intros r; cbn [draws next_u64]; [by rewrite elem_of_nil|]. intros [->|H]%elem_of_cons.
  - exists 1. split; [lia|]. by rewrite Z.mul_1_l.
  - apply IH in H as (i & Hi & ->). exists (i + 1). split; [lia|]. f_equal. unfold wrap64. rewrite Z.add_mod_idemp_l by lia. f_equal. lia.
Qed.

(** A whole period of the generator has no number twice: every number of 64
    bits occurs exactly once in [2^64] draws, whatever the seed. *)
Theorem rng_full_period n r : Z.of_nat n ≤ 2 ^ 64 → NoDup (draws n r) ∧ Forall is_u64 (draws n r).
Proof.
  revert r. induction n as [|n IH]; intros r Hn; cbn [draws next_u64]; [by split; constructor|]. destruct (IH (wrap64 (r + GAMMA))) as [IH1 IH2]; [lia|].
  split; constructor; try done; [|apply splitmix_bound]. intros (i & Hi & E)%draws_elem.
  apply splitmix_inj in E; [|apply wrap64_bound..]. unfold wrap64 in E. rewrite Z.add_mod_idemp_l in E by lia.
  assert (wrap64 (i * GAMMA) = wrap64 (0 * GAMMA)) as E0.
  { unfold wrap64. rewrite <-(Z.add_simpl_l (r + GAMMA) (i * GAMMA)), Zminus_mod, <-E, <-Zminus_mod. by rewrite Z.sub_diag. }
  apply (wrap64_mul_inj _ 0xf1de83e19937733d) in E0; [|by vm_compute|lia|lia]. lia.
Qed.

Lemma rng_full_period_witness : NoDup (draws 5 42) ∧ draws 2 42 = [13679457532755275413; 2949826092126892291].
Proof. split; [apply (rng_full_period 5 42); lia|by vm_compute]. Defined.

(** ** The unit interval *)

Lemma digits2_iter m n : digits2_pos (Pos.iter xO m n) = (digits2_pos m + n)%positive.
Proof. induction n as [|n IH] using Pos.peano_ind; [by cbn; rewrite Pos.add_1_r|]. rewrite Pos.iter_succ. cbn. rewrite IH. lia. Qed.

(** The digits of a number below [2^53]. *)
Lemma digits2_bound m : 2 ^ (Zpos (digits2_pos m) - 1) ≤ Zpos m.
Proof.
  induction m as [m IH|m IH|]; cbn [digits2_pos]; [| |done].
  - rewrite Pos2Z.inj_succ, Z.sub_succ_l, Z.pow_succ_r by lia. lia.
  - rewrite Pos2Z.inj_succ, Z.sub_succ_l, Z.pow_succ_r by lia. lia.
Qed.

(** A number of 53 digits is not rounded. *)
Lemma round_53 m e : digits2_pos m = 53%positive → -1074 ≤ e ≤ 971 → binary_round_aux 53 1024 false (Zpos m) e loc_Exact = S754_finite false m e.
Proof.
  intros Hd He. assert (shr_fexp 53 1024 (Zpos m) e loc_Exact = (Build_shr_record (Zpos m) false false, e)) as E.
  { unfold shr_fexp, Zdigits2, fexp, emin. rewrite Hd. replace (Z.max (53 + e - 53) (3 - 1024 - 53) - e) with 0 by lia. done. }
  unfold binary_round_aux. rewrite E. cbn [shr_m loc_of_shr_record round_nearest_even]. rewrite E. cbn [shr_m].
  by rewrite (proj2 (Z.leb_le _ _)) by lia.
Qed.

(** Integers below [2^53] are exact. *)
Lemma f_of_Z_exact k : 0 < k < 2 ^ 53 → ∃ m e, f_of_Z k = S754_finite false m e ∧ digits2_pos m = 53%positive ∧ -52 ≤ e ≤ 0.
Proof.
  intros Hk. destruct k as [|p|p]; [lia| |lia]. unfold f_of_Z, binary_normalize, binary_round. rewrite Z.add_0_r.
  assert (Zpos (digits2_pos p) ≤ 53) as Hd.
  { pose proof (digits2_bound p) as H. destruct (Z.le_gt_cases (Zpos (digits2_pos p)) 53) as [|Hgt]; [done|].
    pose proof (Z.pow_le_mono_r 2 53 (Zpos (digits2_pos p) - 1) ltac:(lia) ltac:(lia)). lia. }
  unfold shl_align, fexp, emin. rewrite Z.sub_0_r. replace (Z.max (Zpos (digits2_pos p) - 53) (3 - 1024 - 53)) with (Zpos (digits2_pos p) - 53) by lia.
  destruct (Zpos (digits2_pos p) - 53) as [|q|q] eqn:Eq; [|lia|].
  - exists p, 0. rewrite round_53 by lia. split; [done|]. lia.
  - assert (digits2_pos (Pos.iter xO p q) = 53%positive) as H53 by (rewrite digits2_iter; lia).
    exists (Pos.iter xO p q), (Zneg q). rewrite round_53 by lia. split; [done|]. split; [done|]. lia.
Qed.

Lemma mul_two_m53 m e : digits2_pos m = 53%positive → -52 ≤ e ≤ 0 → f_mul (S754_finite false m e) two_m53 = S754_finite false m (e - 53).
Proof.
  intros Hd He. assert (two_m53 = S754_finite false 4503599627370496 (-105)) as -> by by vm_compute.
  unfold f_mul, SFmul. rewrite Pos.mul_comm. cbn [xorb].
  set (m' := (m~0~0~0~0~0~0~0~0~0~0~0~0~0~0~0~0~0~0~0~0~0~0~0~0~0~0~0~0~0~0~0~0~0~0~0~0~0~0~0~0~0~0~0~0~0~0~0~0~0~0~0~0)%positive). change (4503599627370496 * m)%positive with m'.
  assert (digits2_pos m' = 105%positive) as Hd' by (unfold m'; cbn [digits2_pos]; rewrite Hd; done).
  assert (shr_fexp 53 1024 (Zpos m') (e + -105) loc_Exact = (Build_shr_record (Zpos m) false false, e - 53)) as E.
  { unfold shr_fexp, Zdigits2, fexp, emin. rewrite Hd'. replace (Z.max (105 + (e + -105) - 53) (3 - 1024 - 53) - (e + -105)) with 52 by lia.
    unfold shr. cbn. f_equal. lia. }
  unfold binary_round_aux. rewrite E. cbn [shr_m loc_of_shr_record round_nearest_even].
  assert (shr_fexp 53 1024 (Zpos m) (e - 53) loc_Exact = (Build_shr_record (Zpos m) false false, e - 53)) as E2.
  { unfold shr_fexp, Zdigits2, fexp, emin. rewrite Hd. replace (Z.max (53 + (e - 53) - 53) (3 - 1024 - 53) - (e - 53)) with 0 by lia. done. }
  rewrite E2. cbn [shr_m]. by rewrite (proj2 (Z.leb_le _ _)) by lia.
Qed.

(** [next_f64] is in the unit interval, 1 excluded. *)
Lemma next_f64_unit r : f_leb (S754_zero false) (next_f64 r).2 = true ∧ f_ltb (next_f64 r).2 (f_of_Z 1) = true.
Proof.
  unfold next_f64, next_u64. cbn [snd]. set (u := splitmix _). pose proof (splitmix_bound (wrap64 (r + GAMMA))) as Hu. fold u in Hu. unfold is_u64, u64_max in Hu.
  assert (0 ≤ Z.shiftr u 11 < 2 ^ 53) as Hk by (rewrite Z.shiftr_div_pow2 by lia; split; [apply Z.div_pos; lia|apply Z.div_lt_upper_bound; lia]).
  assert (f_of_Z 1 = S754_finite false 4503599627370496 (-52)) as -> by by vm_compute.
  destruct (decide (Z.shiftr u 11 = 0)) as [->|Hne]; [by vm_compute|].
  destruct (f_of_Z_exact (Z.shiftr u 11)) as (m & e & -> & Hd & He); [lia|]. rewrite mul_two_m53 by done.
  split; [done|]. unfold f_ltb, SFltb, SFcompare. assert ((e - 53 ?= -52) = Lt) as -> by (apply Z.compare_lt_iff; lia). done.
Qed.

(** ** What becomes of the packets *)

Section fates.
Context {Addr : Type} `{EqDecision Addr} {HP : HeapPick Addr}.

Definition queued_of (fs : list (Fate (Addr := Addr))) : list (Pending Addr) := omap (λ f, match f with Queued _ p => Some p | _ => None end) fs.
Definition sent_of (fs : list (Fate (Addr := Addr))) : list (Pending Addr) := omap (λ f, match f with Sent _ p => Some p | _ => None end) fs.
Definition failed_of (fs : list (Fate (Addr := Addr))) : list (Pending Addr) := omap (λ f, match f with Failed p => Some p | _ => None end) fs.
Definition lost_of (fs : list (Fate (Addr := Addr))) : list (Addr * list Z) := omap (λ f, match f with Lost d b => Some (d, b) | _ => None end) fs.

(** The counters after the fates [fs]. *)
Definition counted (fs : list (Fate (Addr := Addr))) (s s' : ProxyStats) : Prop :=
  ps_received s' = wrap64 (ps_received s + zlen (queued_of fs) + zlen (lost_of fs)) ∧
  ps_sent s' = wrap64 (ps_sent s + zlen (sent_of fs)) ∧
  ps_send_errors s' = wrap64 (ps_send_errors s + zlen (failed_of fs)) ∧
  ps_loss_dropped s' = wrap64 (ps_loss_dropped s + zlen (lost_of fs)).

Definition stats_u64 (s : ProxyStats) : Prop :=
  is_u64 (ps_received s) ∧ is_u64 (ps_sent s) ∧ is_u64 (ps_send_errors s) ∧ is_u64 (ps_loss_dropped s).

Lemma wrap64_u64 x : is_u64 x → wrap64 x = x.
Proof. intros Hx. unfold is_u64, u64_max in Hx. unfold wrap64. apply Z.mod_small. lia. Qed.

Lemma wrap64_add x y : wrap64 (wrap64 x + y) = wrap64 (x + y).
Proof. unfold wrap64. by rewrite Z.add_mod_idemp_l by lia. Qed.

Lemma counted_nil s : stats_u64 s → counted [] s s.
Proof. intros (? & ? & ? & ?). unfold counted. cbn. rewrite !Z.add_0_r, !wrap64_u64 by done. done. Qed.

Lemma counted_app fs fs' s s' s'' : counted fs s s' → counted fs' s' s'' → counted (fs ++ fs') s s''.
Proof.
  unfold counted, queued_of, sent_of, failed_of, lost_of. rewrite !omap_app, !zlen_app. intros (-> & -> & -> & ->) (-> & -> & -> & ->).
  rewrite <-!Z.add_assoc, !wrap64_add. split_and!; f_equal; lia.
Qed.

Lemma counted_u64 fs s s' : counted fs s s' → stats_u64 s'.
Proof.
  intros (H1 & H2 & H3 & H4). unfold stats_u64, is_u64, u64_max. rewrite H1, H2, H3, H4.
  pose proof (wrap64_bound (ps_received s + zlen (queued_of fs) + zlen (lost_of fs))). pose proof (wrap64_bound (ps_sent s + zlen (sent_of fs))).
  pose proof (wrap64_bound (ps_send_errors s + zlen (failed_of fs))). pose proof (wrap64_bound (ps_loss_dropped s + zlen (lost_of fs))). lia.
Qed.

Lemma log_push_bound {A} (x : A) l : zlen l ≤ 512 → zlen (log_push x l) ≤ 512.
Proof.
  intros Hl. unfold log_push. rewrite zlen_app. change (zlen [x]) with 1. destruct (Z.leb_spec 512 (zlen l)); [|lia].
  destruct l; [done|]. rewrite zlen_cons in *. cbn [tail]. lia.
Qed.

(** Packets that fit the relay's buffer and whose time on the wire is
    defined. *)
Definition rate_ok (conds : Conditions) : Prop :=
  match cd_bandwidth conds with
  | Some rate => rate ≠ 0 ∧ Forall (λ n, is_Some (wire_time n rate)) (seqZ 0 65537)
  | None => True
  end.

Definition pending_ok (p : Pending Addr) : Prop := zlen (pd_bytes p) ≤ 65536.

Lemma slot_for_ok conds p r : rate_ok conds → pending_ok p → ∃ at_ r', slot_for conds p r = Some (at_, r') ∧
  pd_send_at p ≤ at_ ∧ (cd_bandwidth conds = None → at_ = pd_send_at p) ∧ ∃ t, r' = with_slot t r.
Proof.
  unfold rate_ok, slot_for, pending_ok. intros Hr Hp. destruct (cd_bandwidth conds) as [rate|].
  - destruct Hr as [_ Hr]. rewrite Forall_forall in Hr. destruct (Hr (zlen (pd_bytes p))) as [d Ed].
    { apply elem_of_seqZ. pose proof (zlen_nonneg (pd_bytes p)). lia. }
    rewrite Ed. cbn [mbind option_bind]. eexists _, _. split; [done|]. split; [lia|]. split; [done|]. by eexists.
  - eexists _, _. split; [done|]. split; [done|]. split; [done|]. exists (rl_next_slot r). by destruct r.
Qed.

(** The packets of the queue are sent, fail, or stay; what is sent is due, and
    without a bound on the bandwidth nothing that is due stays. *)
Lemma send_due_ok fuel conds now results r : rate_ok conds → Forall pending_ok (rl_pending r) → (length (rl_pending r) ≤ fuel)%nat →
  stats_u64 (rl_stats r) → zlen (rl_log r) ≤ 512 →
  ∃ r' fs, send_due fuel conds now results r = Some (r', fs) ∧
    rl_pending r ≡ₚ sent_of fs ++ failed_of fs ++ rl_pending r' ∧ queued_of fs = [] ∧ lost_of fs = [] ∧
    counted fs (rl_stats r) (rl_stats r') ∧ zlen (rl_log r') ≤ 512 ∧
    (∀ f, f ∈ fs → match f with Sent t p => t = now ∧ pd_send_at p ≤ now | Failed _ => True | _ => False end) ∧
    (cd_bandwidth conds = None → ∀ p, p ∈ rl_pending r' → now < pd_send_at p) ∧
    rl_client r' = rl_client r ∧ rl_rng r' = rl_rng r.
Proof.
  intros Hr. revert results r. induction fuel as [|fuel IH]; intros results r Hp Hl Hs Hlog; cbn [send_due].
  { assert (rl_pending r = []) as E by (apply nil_length_inv; lia). exists r, []. rewrite E. split_and!; try done.
    - by apply counted_nil.
    - intros f Hf. by apply elem_of_nil in Hf.
    - intros _ p Hin. by apply elem_of_nil in Hin. }
  destruct (rl_pending r !! pick (rl_pending r)) as [p|] eqn:Ep.
  2:{ assert (rl_pending r = []) as E.
      { destruct (decide (rl_pending r = [])) as [|Hne]; [done|]. destruct (pick_least _ Hne) as (q & Eq & _). congruence. }
      exists r, []. rewrite E. split_and!; try done.
      - by apply counted_nil.
      - intros f Hf. by apply elem_of_nil in Hf.
      - intros _ q Hin. by apply elem_of_nil in Hin. }
  assert (rl_pending r ≠ []) as Hne by (intros E; by rewrite E in Ep).
  destruct (pick_least _ Hne) as (p' & Ep' & Hmin). rewrite Ep in Ep'. injection Ep' as <-.
  assert (pending_ok p) as Hok by (rewrite Forall_forall in Hp; apply Hp; by apply list_elem_of_lookup_2 in Ep).
  rewrite bool_decide_false by (unfold rate_ok in Hr; intros E; rewrite E in Hr; by destruct Hr).
  destruct (slot_for_ok conds p r Hr Hok) as (at_ & r1 & Es & Hat & Hnone & t & ->). rewrite Es. cbn [mbind option_bind].
  destruct (Z.ltb_spec now at_) as [Hlt|Hge].
  { exists (with_slot t r), []. split_and!; try done.
    - by apply counted_nil.
    - intros f Hf. by apply elem_of_nil in Hf.
    - intros Hn q Hq. rewrite (Hnone Hn) in Hlt. specialize (Hmin q Hq). cbn in *. lia. }
  pose proof (delete_Permutation _ _ _ Ep) as Hperm.
  set (l := delete (pick (rl_pending r)) (rl_pending r)) in *.
  assert (Forall pending_ok l) as Hpl by (rewrite Hperm in Hp; by apply Forall_cons in Hp as [_ ?]).
  assert (length l ≤ fuel)%nat as Hll by (apply Permutation_length in Hperm; cbn in Hperm; lia).
  destruct (send_head now p (default (true, 0) (head results)) (with_slot t r)) as [r1 f] eqn:Eh.
  assert (rl_pending r1 = l ∧ rl_client r1 = rl_client r ∧ rl_rng r1 = rl_rng r ∧ zlen (rl_log r1) ≤ 512 ∧ counted [f] (rl_stats r) (rl_stats r1) ∧
    (f = Sent now p ∨ f = Failed p)) as (H1 & H2 & H3 & H4 & H5 & H6).
  { destruct Hs as (? & ? & ? & ?). unfold send_head in Eh. destruct (fst _); injection Eh as <- <-; (split_and!; try done).
    all: try (by apply log_push_bound). all: try by auto.
    all: unfold counted; cbn; rewrite ?Z.add_0_r; split_and!; rewrite ?wrap64_u64 by done; done. }
  destruct (IH (tail results) r1) as (r2 & fs & E & Hq & Hqu & Hlo & Hc & Hlg & Hf & Hd & Hcl & Hrn);
    [by rewrite H1|by rewrite H1|by eapply counted_u64|done|].
  rewrite E. cbn [mbind option_bind]. exists r2, (f :: fs). rewrite H1 in Hq. split_and!; try done.
  - rewrite Hperm, Hq. destruct H6 as [->| ->]; unfold sent_of, failed_of; cbn [omap list_omap]; fold (sent_of fs) (failed_of fs); [done|]. apply Permutation_middle.
  - by destruct H6 as [->| ->].
  - by destruct H6 as [->| ->].
  - by apply (counted_app [f] fs _ _ _ H5).
  - intros f0 [->|Hf0]%elem_of_cons; [|by apply Hf]. destruct H6 as [->| ->]; [|done]. split; [done|lia].
  - congruence.
  - congruence.
Qed.

(** A packet that arrives at [arr] leaves after half the hop at the earliest
    and the whole hop without reordering, and at most the jitter later. *)
Definition delayed (conds : Conditions) (arr : Z) (p : Pending Addr) : Prop :=
  let hop := cd_rtt conds / 2 in
  arr + hop / 2 ≤ pd_send_at p ∧ pd_send_at p ≤ arr + hop + Z.max 0 (half_jitter conds - 1) * 1000 ∧
  (f_ltb (S754_zero false) (cd_reorder conds) = false → arr + hop ≤ pd_send_at p).

Lemma departure_ok conds now g dest bytes : 0 ≤ cd_rtt conds →
  ∃ g' t, departure conds now g = Some (g', t) ∧ delayed conds now (mkPending t dest bytes).
Proof.
  intros Hrtt. unfold departure, delayed. cbn [pd_send_at]. set (hop := cd_rtt conds / 2). set (j := half_jitter conds).
  assert (0 ≤ hop) as Hhop by (apply Z.div_pos; lia). assert (0 ≤ hop / 2 ≤ hop) as Hh2 by (pose proof (Z.div_mod hop 2 ltac:(lia)); pose proof (Z.mod_pos_bound hop 2 ltac:(lia)); lia).
  assert (∃ g1 t, (if 0 <? j then '(g, draw) ← below (2 * j) g; Some (g, now + hop + jitter_of j draw * 1000) else Some (g, now + hop)) = Some (g1, t) ∧
    now + hop ≤ t ≤ now + hop + Z.max 0 (j - 1) * 1000) as (g1 & t & E & Ht).
  { destruct (Z.ltb_spec 0 j) as [Hj|Hj]; [|eexists _, _; split; [done|lia]].
    unfold below, next_u64, jitter_of. rewrite (proj2 (Z.eqb_neq _ _)) by lia. cbn [mbind option_bind]. eexists _, _. split; [done|].
    pose proof (Z.mod_pos_bound (splitmix (wrap64 (g + GAMMA))) (2 * j) ltac:(lia)). lia. }
  rewrite E. cbn [mbind option_bind]. rewrite (proj2 (Z.ltb_ge t now)) by lia.
  destruct (f_ltb (S754_zero false) (cd_reorder conds)); [|eexists _, _; split; [done|lia]].
  destruct (next_f64 g1) as [g2 x]. eexists _, _. split; [done|]. destruct (f_ltb x _ && (0 <? hop)); (split; [lia|split; [lia|done]]).
Qed.

(** Where a packet from [src] goes, and the client the relay then knows. *)
Definition route (server src : Addr) (client : option Addr) : option Addr * option Addr :=
  if decide (src = server) then (client, client) else (Some server, Some (default src client)).

Lemma take_in_ok conds server now src bytes ts r : 0 ≤ cd_rtt conds → stats_u64 (rl_stats r) → zlen (rl_log r) ≤ 512 →
  ∃ r' fs, take_in conds server now src bytes ts r = Some (r', fs) ∧ sent_of fs = [] ∧ failed_of fs = [] ∧
    rl_pending r' = queued_of fs ++ rl_pending r ∧ counted fs (rl_stats r) (rl_stats r') ∧ zlen (rl_log r') ≤ 512 ∧
    rl_client r' = (route server src (rl_client r)).2 ∧
    match (route server src (rl_client r)).1 with
    | None => fs = []
    | Some dest => fs = [Lost dest bytes] ∨ ∃ p, fs = [Queued now p] ∧ pd_dest p = dest ∧ pd_bytes p = bytes ∧ delayed conds now p
    end.
Proof.
  intros Hrtt Hs Hlog. unfold take_in, route. set (routed := if decide (src = server) then _ else _).
  assert (match routed with
          | None => (route server src (rl_client r)) = (None, rl_client r)
          | Some (dest, r1) => (route server src (rl_client r)) = (Some dest, rl_client r1) ∧ rl_pending r1 = rl_pending r ∧ rl_stats r1 = rl_stats r ∧ rl_log r1 = rl_log r
          end) as Hrt.
  { unfold routed, route. destruct (decide (src = server)); [|done]. by destruct (rl_client r) eqn:E; cbn; rewrite ?E. }
  unfold route in Hrt. destruct routed as [[dest r1]|].
  2:{ rewrite Hrt. eexists _, _. split; [done|]. split_and!; try done. by apply counted_nil. }
  destruct Hrt as (Er & H1 & H2 & H3). rewrite Er. cbn [fst snd]. set (r2 := logged _ _).
  match goal with |- context [let '(g, lost) := ?x in _] => destruct x as [g lost] eqn:El end.
  pose proof Hs as (? & ? & ? & ?). destruct lost.
  - eexists _, _. split; [done|]. split_and!; try done; [..|by left].
    + unfold counted. cbn. rewrite H2, ?Z.add_0_r. split_and!; rewrite ?wrap64_u64 by done; done.
    + cbn. rewrite H3. by apply log_push_bound.
  - destruct (departure_ok conds now g dest bytes Hrtt) as (g' & t & E & Hd). cbn [with_rng rl_rng]. rewrite E. cbn [mbind option_bind].
    eexists _, _. split; [done|]. split_and!; try done.
    + cbn. by rewrite H1.
    + unfold counted. cbn. rewrite H2, ?Z.add_0_r. split_and!; rewrite ?wrap64_u64 by done; done.
    + cbn. rewrite H3. by apply log_push_bound.
    + right. eexists. split; [done|]. done.
Qed.

Definition poll_ok (po : Poll (Addr := Addr)) : Prop :=
  match po_arrival po with Some (_, bytes, _) => zlen bytes ≤ 65536 | None => True end.

(** What holds of a relay between polls. *)
Definition relay_ok (r : Relay (Addr := Addr)) : Prop :=
  Forall pending_ok (rl_pending r) ∧ stats_u64 (rl_stats r) ∧ zlen (rl_log r) ≤ 512.

(** The packets that the polls hand to the relay, with where they are to go. *)
Fixpoint arrivals (server : Addr) (client : option Addr) (polls : list (Poll (Addr := Addr))) : list (Addr * list Z) :=
  match polls with
  | [] => []
  | po :: polls' =>
      match po_arrival po with
      | None => arrivals server client polls'
      | Some (src, bytes, _) =>
          let '(dest, client) := route server src client in
          (match dest with Some d => [(d, bytes)] | None => [] end) ++ arrivals server client polls'
      end
  end.

Definition content (p : Pending Addr) : Addr * list Z := (pd_dest p, pd_bytes p).

Definition fate_ok (conds : Conditions) (f : Fate (Addr := Addr)) : Prop :=
  match f with
  | Sent now p => pd_send_at p ≤ now
  | Queued arr p => delayed conds arr p
  | Cleared _ => False
  | _ => True
  end.

Lemma relay_poll_ok conds server po r : rate_ok conds → 0 ≤ cd_rtt conds → poll_ok po → relay_ok r →
  ∃ r' fs, relay_poll conds server po r = Some (r', fs) ∧ relay_ok r' ∧
    queued_of fs ++ rl_pending r ≡ₚ sent_of fs ++ failed_of fs ++ rl_pending r' ∧
    counted fs (rl_stats r) (rl_stats r') ∧ Forall (fate_ok conds) fs ∧
    (∀ f, f ∈ fs → match f with Sent t _ => t = po_now po | Queued t _ => t = po_now po | _ => True end) ∧
    (cd_bandwidth conds = None → ∀ p, p ∈ rl_pending r' → po_now po < pd_send_at p ∨ p ∈ queued_of fs) ∧
    (∀ rest, arrivals server (rl_client r) (po :: rest) ≡ₚ (content <$> queued_of fs) ++ lost_of fs ++ arrivals server (rl_client r') rest).
Proof.
  intros Hr Hrtt Hpo (Hp & Hs & Hlog). unfold relay_poll, poll_ok in *.
  destruct (send_due_ok (length (rl_pending r)) conds (po_now po) (po_results po) r) as (r1 & fs & E & Hq & Hqu & Hlo & Hc & Hlg & Hf & Hd & Hcl & Hrn); [done..|].
  rewrite E. cbn [mbind option_bind].
  assert (Forall pending_ok (rl_pending r1)) as Hp1 by (rewrite Hq in Hp; apply Forall_app in Hp as [_ Hp]; by apply Forall_app in Hp as [_ Hp]).
  assert (Forall (fate_ok conds) fs) as Hfo by (apply Forall_forall; intros f Hin; specialize (Hf f Hin); destruct f; try done; destruct Hf as [-> Hf]; exact Hf).
  destruct (po_arrival po) as [[[src bytes] ts]|] eqn:Ea.
  - destruct (take_in_ok conds server (po_now po) src bytes ts r1 Hrtt) as (r2 & fs' & E' & Hs0 & Hf0 & Hpe & Hc' & Hlg' & Hcl' & Hfate); [by eapply counted_u64|done|].
    rewrite E'. cbn [mbind option_bind]. exists r2, (fs ++ fs'). split; [done|].
    assert (queued_of (fs ++ fs') = queued_of fs' ∧ lost_of (fs ++ fs') = lost_of fs' ∧ sent_of (fs ++ fs') = sent_of fs ∧ failed_of (fs ++ fs') = failed_of fs) as (-> & -> & -> & ->).
    { unfold queued_of, lost_of, sent_of, failed_of in *. rewrite !omap_app. by rewrite Hqu, Hlo, Hs0, Hf0, !app_nil_r. }
    rewrite Hcl in Hfate, Hcl'.
    assert (Forall pending_ok (queued_of fs') ∧ Forall (fate_ok conds) fs' ∧
      (∀ f, f ∈ fs' → match f with Sent t _ => t = po_now po | Queued t _ => t = po_now po | _ => True end) ∧
      (match (route server src (rl_client r)).1 with Some d => [(d, bytes)] | None => [] end) = (content <$> queued_of fs') ++ lost_of fs') as (Hpq & Hfq & Hft & Hcont).
    { destruct ((route server src (rl_client r)).1) as [dest|].
      - destruct Hfate as [->|(p & -> & Hdst & Hb & Hdel)].
        + split_and!; [constructor|constructor; [exact I|constructor]|intros f ->%list_elem_of_singleton; done|done].
        + split_and!; [constructor; [unfold pending_ok; by rewrite Hb|constructor]|constructor; [exact Hdel|constructor]|intros f ->%list_elem_of_singleton; done|].
          unfold content. cbn. by rewrite Hdst, Hb.
      - subst fs'. split_and!; [constructor|constructor|intros f Hin; by apply elem_of_nil in Hin|done]. }
    split_and!.
    + split_and!; [|by eapply counted_u64|done]. rewrite Hpe. by apply Forall_app.
    + rewrite Hpe, Hq. rewrite !(app_assoc (sent_of fs)), !(app_assoc (queued_of fs')), (Permutation_app_comm (queued_of fs')).
      rewrite <-!app_assoc. f_equiv. rewrite !app_assoc. f_equiv. apply Permutation_app_comm.
    + by eapply counted_app.
    + by apply Forall_app.
    + intros f [Hin|Hin]%elem_of_app; [|by apply Hft]. specialize (Hf f Hin). destruct f; try done. by destruct Hf.
    + intros Hn p Hin. rewrite Hpe in Hin. apply elem_of_app in Hin as [?|?]; [by right|left; by apply Hd].
    + intros rest. cbn [arrivals]. rewrite Ea. rewrite Hcl'. destruct (route server src (rl_client r)) as [dest client]. cbn [fst snd] in *. by rewrite Hcont, <-app_assoc.
  - exists r1, fs. rewrite Hqu, Hlo. split_and!; try done.
    + split_and!; [done|by eapply counted_u64|done].
    + intros f Hin. specialize (Hf f Hin). destruct f; try done. by destruct Hf.
    + intros Hn p Hin. left. by apply Hd.
    + intros rest. cbn [arrivals]. by rewrite Ea, Hcl.
Qed.

Lemma relay_udp_ok conds server polls r : rate_ok conds → 0 ≤ cd_rtt conds → Forall poll_ok polls → relay_ok r →
  ∃ r' fs, relay_udp conds server polls r = Some (r', fs) ∧ relay_ok r' ∧
    queued_of fs ++ rl_pending r ≡ₚ sent_of fs ++ failed_of fs ++ rl_pending r' ∧
    counted fs (rl_stats r) (rl_stats r') ∧ Forall (fate_ok conds) fs ∧
    arrivals server (rl_client r) polls ≡ₚ (content <$> queued_of fs) ++ lost_of fs.
Proof.
  intros Hr Hrtt. revert r. induction polls as [|po polls IH]; intros r Hpo Hok.
  { exists r, []. split_and!; try done. apply counted_nil. by destruct Hok as (_ & ? & _). }
  apply Forall_cons in Hpo as [Hp1 Hpo]. cbn [relay_udp].
  destruct (relay_poll_ok conds server po r Hr Hrtt Hp1 Hok) as (r1 & fs & E & Hok1 & Hq & Hc & Hf & _ & _ & Ha). rewrite E. cbn [mbind option_bind].
  destruct (IH r1 Hpo Hok1) as (r2 & fs' & E' & Hok2 & Hq' & Hc' & Hf' & Ha'). rewrite E'. cbn [mbind option_bind].
  exists r2, (fs ++ fs'). split; [done|]. split; [done|].
  unfold queued_of, lost_of, sent_of, failed_of in *. rewrite !omap_app. split_and!.
  - rewrite (Permutation_app_comm (omap _ fs)), <-app_assoc, Hq.
    rewrite (app_assoc (omap _ fs')), (Permutation_app_comm (omap _ fs')). rewrite <-!app_assoc. f_equiv.
    rewrite (app_assoc (omap _ fs')), (Permutation_app_comm (omap _ fs')), <-app_assoc, Hq'.
    rewrite !app_assoc. f_equiv. f_equiv. apply Permutation_app_comm.
  - by eapply counted_app.
  - by apply Forall_app.
  - rewrite Ha, Ha', fmap_app, <-!app_assoc. f_equiv. rewrite !app_assoc. f_equiv. apply Permutation_app_comm.
Qed.

End fates.

(** The UDP relay, whatever arrives, whichever sends fail and however long the
    polls are apart: every packet that arrives goes to the other end, with its
    bytes as they were, exactly once, or is lost by the injected loss, or fails
    when sent, or is still queued; the counters say how many of each; the log
    has at most 512 entries; and a packet is never sent before its delay. *)
Theorem relay_conserves {Addr : Type} `{EqDecision Addr} {HP : HeapPick Addr} conds (server : Addr) t0 polls :
  rate_ok conds → 0 ≤ cd_rtt conds → Forall poll_ok polls →
  ∃ r fs, relay_udp conds server polls (relay_new conds t0) = Some (r, fs) ∧
    arrivals server None polls ≡ₚ (content <$> sent_of fs) ++ (content <$> failed_of fs) ++ (content <$> rl_pending r) ++ lost_of fs ∧
    rl_stats r = mkProxyStats (wrap64 (zlen (arrivals server None polls))) (wrap64 (zlen (sent_of fs))) (wrap64 (zlen (failed_of fs))) (wrap64 (zlen (lost_of fs))) ∧
    zlen (rl_log r) ≤ 512 ∧
    ∀ now p, Sent now p ∈ fs → pd_send_at p ≤ now ∧ ∃ arr, Queued arr p ∈ fs ∧ delayed conds arr p.
Proof.
  intros Hr Hrtt Hpo. destruct (relay_udp_ok conds server polls (relay_new conds t0) Hr Hrtt Hpo) as (r & fs & E & Hok & Hq & Hc & Hf & Ha).
  { split_and!; done. }
  cbn [relay_new rl_pending rl_client rl_stats] in *. rewrite app_nil_r in Hq. exists r, fs. split; [done|]. split_and!.
  - rewrite Ha, Hq, !fmap_app. by rewrite <-!app_assoc.
  - destruct Hc as (H1 & H2 & H3 & H4). cbn in H1, H2, H3, H4. destruct (rl_stats r) as [a b c d]. cbn in *. subst. f_equal.
    f_equal. unfold zlen. rewrite Ha, length_app, length_fmap. lia.
  - by destruct Hok as (_ & _ & ?).
  - intros now p Hin. rewrite Forall_forall in Hf. split; [by apply (Hf _ Hin)|].
    assert (p ∈ queued_of fs) as Hp.
    { rewrite Hq. apply elem_of_app. left. unfold sent_of. apply list_elem_of_omap. by exists (Sent now p). }
    unfold queued_of in Hp. apply list_elem_of_omap in Hp as (f & Hfin & Ef). destruct f as [| | |arr q|]; simplify_eq. exists arr. split; [done|].
    by apply (Hf _ Hfin).
Qed.

(** Without a bound on the bandwidth a poll leaves no packet that is due: what
    is still queued was already queued with a later instant, or has just
    arrived. *)
Theorem relay_prompt {Addr : Type} `{EqDecision Addr} {HP : HeapPick Addr} conds (server : Addr) t0 polls po :
  cd_bandwidth conds = None → 0 ≤ cd_rtt conds → Forall poll_ok polls → poll_ok po →
  ∃ r fs r' fs', relay_udp conds server polls (relay_new conds t0) = Some (r, fs) ∧ relay_poll conds server po r = Some (r', fs') ∧
    ∀ p, p ∈ rl_pending r' → po_now po < pd_send_at p ∨ p ∈ queued_of fs'.
Proof.
  intros Hn Hrtt Hpo Hp. assert (rate_ok conds) as Hr by (unfold rate_ok; by rewrite Hn).
  destruct (relay_udp_ok conds server polls (relay_new conds t0) Hr Hrtt Hpo) as (r & fs & E & Hok & _); [split_and!; done|].
  destruct (relay_poll_ok conds server po r Hr Hrtt Hp Hok) as (r' & fs' & E' & _ & _ & _ & _ & _ & Hd & _).
  exists r, fs, r', fs'. split_and!; [done..|]. by apply Hd.
Qed.

(** One heap order, for evaluation: the first packet with the least instant. *)
Fixpoint first_least {Addr} (best : Z) (i k : nat) (l : list (Pending Addr)) : nat :=
  match l with
  | [] => k
  | p :: l' => if pd_send_at p <? best then first_least (pd_send_at p) (S i) i l' else first_least best (S i) k l'
  end.

Definition pick_first {Addr} (l : list (Pending Addr)) : nat :=
  match l with [] => 0%nat | p :: l' => first_least (pd_send_at p) 1 0 l' end.

Lemma first_least_spec {Addr} (l : list (Pending Addr)) pre best k :
  (∃ p, pre !! k = Some p ∧ pd_send_at p = best ∧ ∀ q, q ∈ pre → best ≤ pd_send_at q) →
  ∃ p, (pre ++ l) !! first_least best (length pre) k l = Some p ∧ ∀ q, q ∈ pre ++ l → pd_send_at p ≤ pd_send_at q.
Proof.
  revert pre best k. induction l as [|x l IH]; intros pre best k (p & Hp & Hb & Hmin); cbn [first_least].
  { exists p. rewrite app_nil_r. split; [done|]. intros q Hq. rewrite Hb. by apply Hmin. }
  replace (pre ++ x :: l) with ((pre ++ [x]) ++ l) by by rewrite <-app_assoc.
  replace (S (length pre)) with (length (pre ++ [x])) by (rewrite length_app; cbn; lia).
  destruct (Z.ltb_spec (pd_send_at x) best).
  - apply IH. exists x. split; [by rewrite lookup_app_r, Nat.sub_diag|]. split; [done|]. intros q [Hq| ->%list_elem_of_singleton]%elem_of_app; [|done].
    specialize (Hmin q Hq). lia.
  - apply IH. exists p. split; [by apply lookup_app_l_Some|]. split; [done|]. intros q [Hq| ->%list_elem_of_singleton]%elem_of_app; [by apply Hmin|lia].
Qed.

#[refine] Definition first_heap {Addr} : HeapPick Addr := {| pick := pick_first |}.
Proof.
  intros [|p l] Hne; [done|]. apply (first_least_spec l [p] (pd_send_at p) 0). exists p. split; [done|]. split; [done|].
  intros q ->%list_elem_of_singleton. done.
Defined.

(** A client [1] and a server [9], 20 ms between them: a request and, after it
    is through, the answer. *)
Definition ex_polls : list (Poll (Addr := Z)) :=
  [mkPoll 0 [] (Some (1, [7; 7], 5)); mkPoll 5000000 [] (Some (1, [8], 5005)); mkPoll 10000000 [] None;
   mkPoll 15000000 [(false, 0)] (Some (9, [3], 15001)); mkPoll 25000000 [] None].

Lemma relay_conserves_witness :
  let run := relay_udp (HP := first_heap) (rtt_ms 20) 9 ex_polls (relay_new (rtt_ms 20) 0) in
  match run with
  | Some (r, fs) =>
      rl_stats r = mkProxyStats 3 2 1 0 ∧
      sent_of fs = [mkPending 10000000 9 [7; 7]; mkPending 25000000 1 [3]] ∧ failed_of fs = [mkPending 15000000 9 [8]] ∧
      arrivals 9 None ex_polls ≡ₚ (content <$> sent_of fs) ++ (content <$> failed_of fs) ++ (content <$> rl_pending r) ++ lost_of fs
  | None => False
  end.
Proof.
  cbv zeta. destruct (@relay_conserves Z _ first_heap (rtt_ms 20) 9 0 ex_polls) as (r & fs & E & Ha & _).
  - exact I.
  - vm_compute. congruence.
  - unfold ex_polls. repeat constructor; unfold poll_ok; cbn; try exact I; vm_compute; congruence.
  - rewrite E. split; [|split; [|split; [|exact Ha]]]; vm_compute in E; injection E as <- <-; reflexivity.
Defined.

Lemma relay_prompt_witness : ∃ r fs r' fs',
  relay_udp (HP := first_heap) (rtt_ms 20) 9 (take 1 ex_polls) (relay_new (rtt_ms 20) 0) = Some (r, fs) ∧
  relay_poll (HP := first_heap) (rtt_ms 20) 9 (mkPoll 10000000 [] None) r = Some (r', fs') ∧
  ∀ p, p ∈ rl_pending r' → 10000000 < pd_send_at p ∨ p ∈ queued_of fs'.
Proof.
  apply (@relay_prompt Z _ first_heap (rtt_ms 20) 9 0 (take 1 ex_polls) (mkPoll 10000000 [] None)).
  - reflexivity.
  - vm_compute. congruence.
  - constructor; [vm_compute; congruence|constructor].
  - exact I.
Defined.

Section loss.
Context {Addr : Type} `{EqDecision Addr} {HP : HeapPick Addr}.

Lemma send_due_only_sends fuel conds now results r r' fs : send_due (Addr := Addr) fuel conds now results r = Some (r', fs) → queued_of fs = [] ∧ lost_of fs = [].
Proof.
  revert results r r' fs. induction fuel as [|fuel IH]; intros results r r' fs; cbn [send_due]; [by intros [= _ <-]|].
  destruct (_ !! pick _) as [p|]; [|by intros [= _ <-]]. destruct (bool_decide _); [by intros [= _ <-]|].
  intros E. apply bind_Some in E as ([t r1] & _ & E). destruct (now <? t); [by injection E as _ <-|].
  destruct (send_head _ _ _ _) as [r2 f] eqn:Eh. apply bind_Some in E as ([r3 fs'] & E & [= _ <-]). apply IH in E as [E1 E2].
  unfold send_head in Eh. destruct (fst _); injection Eh as _ <-; done.
Qed.

(** With a loss of 1 a packet that arrives is not queued, with a loss of 0 it
    is not lost. *)
Lemma take_in_loss conds server now src bytes ts r r' fs : take_in (Addr := Addr) conds server now src bytes ts r = Some (r', fs) →
  (cd_loss conds = f_of_Z 1 → queued_of fs = []) ∧ (f_ltb (S754_zero false) (cd_loss conds) = false → lost_of fs = []).
Proof.
  unfold take_in. destruct (if decide (src = server) then _ else _) as [[dest r1]|]; [|by intros [= _ <-]].
  set (r2 := logged _ _). intros E. split.
  - intros Hl. rewrite Hl in E. assert (f_ltb (S754_zero false) (f_of_Z 1) = true) as H1 by by vm_compute. rewrite H1 in E.
    destruct (next_f64 (rl_rng r2)) as [g x] eqn:En. pose proof (next_f64_unit (rl_rng r2)) as [_ Hx]. rewrite En in Hx. cbn [snd] in Hx. rewrite Hx in E.
    by injection E as _ <-.
  - intros Hl. rewrite Hl in E. apply bind_Some in E as ([g t] & _ & [= _ <-]). done.
Qed.

Lemma relay_udp_loss conds server polls r r' fs : relay_udp (Addr := Addr) conds server polls r = Some (r', fs) →
  (cd_loss conds = f_of_Z 1 → queued_of fs = []) ∧ (f_ltb (S754_zero false) (cd_loss conds) = false → lost_of fs = []).
Proof.
  revert r r' fs. induction polls as [|po polls IH]; intros r r' fs E; cbn [relay_udp] in E; [by injection E as _ <-|].
  apply bind_Some in E as ([r1 fs1] & E1 & E). apply bind_Some in E as ([r2 fs2] & E2 & [= _ <-]). apply IH in E2 as [H1 H2].
  unfold relay_poll in E1. apply bind_Some in E1 as ([r3 fs3] & E3 & E1). apply send_due_only_sends in E3 as [H3 H4].
  assert ((cd_loss conds = f_of_Z 1 → queued_of fs1 = []) ∧ (f_ltb (S754_zero false) (cd_loss conds) = false → lost_of fs1 = [])) as [H5 H6].
  { destruct (po_arrival po) as [[[src bytes] ts]|]; [|by injection E1 as _ <-]. apply bind_Some in E1 as ([r4 fs4] & E4 & [= _ <-]).
    apply take_in_loss in E4 as [H5 H6]. unfold queued_of, lost_of in *. rewrite !omap_app, H3, H4. done. }
  unfold queued_of, lost_of in *. rewrite !omap_app. split; intros Hl; [by rewrite (H5 Hl), (H1 Hl)|by rewrite (H6 Hl), (H2 Hl)].
Qed.

End loss.

(** The ends of the loss rate: at 1 not one packet is ever sent, since the
    generator stays below 1; at 0 none is lost. *)
Theorem loss_extremes {Addr : Type} `{EqDecision Addr} {HP : HeapPick Addr} conds (server : Addr) t0 polls :
  rate_ok conds → 0 ≤ cd_rtt conds → Forall poll_ok polls →
  ∃ r fs, relay_udp conds server polls (relay_new conds t0) = Some (r, fs) ∧
    (cd_loss conds = f_of_Z 1 → sent_of fs = [] ∧ rl_pending r = [] ∧ lost_of fs ≡ₚ arrivals server None polls) ∧
    (cd_loss conds = S754_zero false → lost_of fs = []).
Proof.
  intros Hr Hrtt Hpo. destruct (relay_udp_ok conds server polls (relay_new conds t0) Hr Hrtt Hpo) as (r & fs & E & _ & Hq & _ & _ & Ha); [split_and!; done|].
  exists r, fs. split; [done|]. destruct (relay_udp_loss _ _ _ _ _ _ E) as [H1 H0]. split.
  - intros Hl. rewrite (H1 Hl) in Hq, Ha. cbn in Hq. symmetry in Hq. apply Permutation_nil_r in Hq. apply app_nil in Hq as [-> Hq]. apply app_nil in Hq as [_ ->].
    split_and!; [done..|]. by rewrite Ha.
  - intros Hl. apply H0. by rewrite Hl.
Qed.

Lemma loss_extremes_witness : ∃ r fs,
  relay_udp (HP := first_heap) (mkConditions 200000 (f_of_Z 1) 0 (S754_zero false) None 99) 9 ex_polls
    (relay_new (mkConditions 200000 (f_of_Z 1) 0 (S754_zero false) None 99) 0) = Some (r, fs) ∧ sent_of fs = [].
Proof.
  destruct (@loss_extremes Z _ first_heap (mkConditions 200000 (f_of_Z 1) 0 (S754_zero false) None 99) 9 0 ex_polls) as (r & fs & E & H & _).
  - exact I.
  - cbn. lia.
  - unfold ex_polls. repeat constructor; unfold poll_ok; cbn; try exact I; vm_compute; congruence.
  - exists r, fs. split; [exact E|]. by apply H.
Defined.

(** ** The bound on the bandwidth *)

Section starved.
Context {Addr : Type} `{EqDecision Addr} {HP : HeapPick Addr}.

(** Polls at the given instants at which nothing arrives. *)
Definition idle_polls (times : list Z) : list (Poll (Addr := Addr)) := (λ t, mkPoll t [] None) <$> times.

(** Each instant is at most [d] after the one before. *)
Fixpoint close_polls (d prev : Z) (times : list Z) : Prop :=
  match times with
  | [] => True
  | t :: times' => t ≤ prev + d ∧ close_polls d t times'
  end.

Lemma one_pick (p : Pending Addr) : [p] !! pick [p] = Some p.
Proof. destruct (pick_least [p]) as (q & E & _); [done|]. rewrite E. by apply list_elem_of_lookup_2, list_elem_of_singleton in E as ->. Qed.

Lemma poll_waits conds server p rate d now r : cd_bandwidth conds = Some rate → rate ≠ 0 → wire_time (zlen (pd_bytes p)) rate = Some d →
  rl_pending r = [p] → now < Z.max (rl_next_slot r) (pd_send_at p) →
  relay_poll conds server (mkPoll now [] None) r = Some (with_slot (Z.max (rl_next_slot r) (pd_send_at p) + d) r, []).
Proof.
  intros Hb Hr Hd Hp Hn. unfold relay_poll. cbn [po_now po_results po_arrival]. rewrite Hp. cbn [length send_due]. rewrite Hp, one_pick.
  rewrite bool_decide_false by (rewrite Hb; congruence). unfold slot_for. rewrite Hb, Hd. cbn [mbind option_bind].
  by rewrite (proj2 (Z.ltb_lt _ _)).
Qed.

End starved.

(** A packet alone in the queue of a relay with a bandwidth: each poll that
    comes before its instant takes a slot for it, so if it is not due at the
    first poll and the polls are no further apart than the time the packet
    takes on the wire, it is never sent. *)
Theorem bandwidth_starves {Addr : Type} `{EqDecision Addr} {HP : HeapPick Addr} conds (server : Addr) p rate d r t times :
  cd_bandwidth conds = Some rate → rate ≠ 0 → wire_time (zlen (pd_bytes p)) rate = Some d → 0 ≤ d →
  rl_pending r = [p] → t < pd_send_at p → close_polls d t times →
  ∃ slot, relay_udp conds server (idle_polls (t :: times)) r = Some (with_slot slot r, []).
Proof.
  intros Hb Hr Hd Hd0 Hp Ht Hc. assert (t < Z.max (rl_next_slot r) (pd_send_at p)) as Hlt by lia. clear Ht.
  revert t r Hp Hlt Hc. induction times as [|t' times IH]; intros t r Hp Hlt Hc; unfold idle_polls; cbn [fmap list_fmap relay_udp];
    rewrite (poll_waits conds server p rate d t r Hb Hr Hd Hp Hlt); cbn [mbind option_bind app].
  { by eexists. }
  destruct Hc as [Hc1 Hc2]. specialize (IH t' (with_slot (Z.max (rl_next_slot r) (pd_send_at p) + d) r) Hp).
  destruct IH as [slot E]; [cbn; lia|done|]. cbn [relay_udp fmap list_fmap idle_polls] in E. exists slot.
  unfold idle_polls in E. cbn [fmap list_fmap relay_udp] in E. rewrite E. done.
Qed.

(** 1,500 bytes at a million bytes per second, polls every millisecond. *)
Lemma bandwidth_starves_witness : ∃ slot,
  wire_time (zlen (replicate 1500 0)) 1000000 = Some 1500000 ∧
  relay_udp (Addr := Z) (HP := first_heap) (mkConditions 200000 (S754_zero false) 0 (S754_zero false) (Some 1000000) 1) 9
    (idle_polls (0 :: [1000000; 2000000; 3000000; 4000000; 5000000]))
    (mkRelay 1 (Some 1) [mkPending 100000 9 (replicate 1500 0)] 0 stats_new []) =
  Some (with_slot slot (mkRelay 1 (Some 1) [mkPending 100000 9 (replicate 1500 0)] 0 stats_new []), []).
Proof.
  destruct (@bandwidth_starves Z _ first_heap (mkConditions 200000 (S754_zero false) 0 (S754_zero false) (Some 1000000) 1) 9
    (mkPending 100000 9 (replicate 1500 0)) 1000000 1500000 (mkRelay 1 (Some 1) [mkPending 100000 9 (replicate 1500 0)] 0 stats_new []) 0
    [1000000; 2000000; 3000000; 4000000; 5000000]) as [slot E].
  - reflexivity.
  - lia.
  - vm_compute. reflexivity.
  - lia.
  - reflexivity.
  - cbn. lia.
  - cbn. lia.
  - exists slot. split; [vm_compute; reflexivity|exact E].
Defined.

(** Of the [2 j] draws, [j + 1] add no jitter and each other amount has one:
    the added delay is not uniform. *)
Theorem jitter_clipped j : 0 < j →
  length (filter (λ draw, jitter_of j draw = 0) (seqZ 0 (2 * j))) = Z.to_nat (j + 1) ∧
  ∀ x, 0 < x < j → filter (λ draw, jitter_of j draw = x) (seqZ 0 (2 * j)) = [j + x].
Proof.
  intros Hj. split.
  - replace (2 * j) with ((j + 1) + (j - 1)) by lia. rewrite seqZ_app, filter_app by lia.
    rewrite filter_all_in, filter_none_in, app_nil_r, length_seqZ; [done|..].
    + intros x Hx%elem_of_seqZ. unfold jitter_of. lia.
    + intros x Hx%elem_of_seqZ. unfold jitter_of. lia.
  - intros x Hx. replace (2 * j) with ((j + x) + (1 + (j - x - 1))) by lia. rewrite seqZ_app, filter_app by lia.
    rewrite filter_none_in by (intros y Hy%elem_of_seqZ; unfold jitter_of; lia). rewrite seqZ_app, filter_app by lia.
    rewrite (filter_none_in _ (seqZ _ (j - x - 1))) by (intros y Hy%elem_of_seqZ; unfold jitter_of; lia).
    rewrite app_nil_r. cbn [app]. rewrite Z.add_0_l. apply filter_all_in. intros y ->%list_elem_of_singleton. unfold jitter_of. lia.
Qed.

Lemma jitter_clipped_witness : length (filter (λ draw, jitter_of 500 draw = 0) (seqZ 0 1000)) = 501%nat.
Proof. apply (jitter_clipped 500). lia. Defined.

(** ** The TCP relay *)

(** What a read returns, and whether a write succeeds. *)
Inductive ReadOutcome := ReadData (bytes : list Z) (write_ok : bool) | ReadEnd | ReadError.

(** [relay_stream]: the time its sleeps take and the bytes it has written;
    it returns at the end, at an error, or goes on with further reads. *)
Fixpoint relay_stream (hop : Z) (reads : list ReadOutcome) : Z * list Z * bool :=
  match reads with
  | [] => (0, [], false)
  | ReadData bytes ok :: reads' =>
      if ok then let '(t, out, ended) := relay_stream hop reads' in (hop + t, bytes ++ out, ended) else (hop, [], true)
  | ReadEnd :: _ => (0, [], true)
  | ReadError :: _ => (0, [], true)
  end.

(** The two threads of a connection, each with a handle of both sockets: the
    relay closes a socket when both have returned. *)
Record TcpLink := mkTcpLink {
  tl_up_done : bool;
  tl_down_done : bool;
  tl_to_server : list Z;
  tl_to_client : list Z
}.

Inductive TcpEv :=
  | TcpUp (o : ReadOutcome)
  | TcpDown (o : ReadOutcome).

Definition stream_step (o : ReadOutcome) (done : bool) (out : list Z) : bool * list Z :=
  if done then (done, out) else
  match o with
  | ReadData bytes true => (false, out ++ bytes)
  | _ => (true, out)
  end.

Definition tcp_step (l : TcpLink) (ev : TcpEv) : TcpLink :=
  match ev with
  | TcpUp o => let '(d, out) := stream_step o (tl_up_done l) (tl_to_server l) in mkTcpLink d (tl_down_done l) out (tl_to_client l)
  | TcpDown o => let '(d, out) := stream_step o (tl_down_done l) (tl_to_client l) in mkTcpLink (tl_up_done l) d (tl_to_server l) out
  end.

Definition tcp_new : TcpLink := mkTcpLink false false [] [].

(** The server sees the end of the client's bytes. *)
Definition server_sees_end (l : TcpLink) : bool := tl_up_done l && tl_down_done l.

Definition up_reads (evs : list TcpEv) : list ReadOutcome := omap (λ e, match e with TcpUp o => Some o | _ => None end) evs.
Definition down_reads (evs : list TcpEv) : list ReadOutcome := omap (λ e, match e with TcpDown o => Some o | _ => None end) evs.

Lemma stream_steps reads : ∀ done out,
  foldl (λ '(d, o) r, stream_step r d o) (done, out) reads =
    (if done then (true, out) else ((relay_stream 0 reads).2, out ++ (relay_stream 0 reads).1.2)).
Proof.
  induction reads as [|r reads IH]; intros done out; cbn [foldl relay_stream].
  { destruct done; [done|]. by rewrite app_nil_r. }
  unfold stream_step at 2. destruct done; [by rewrite IH|]. destruct r as [bytes [|]| |]; rewrite IH; cbn; rewrite ?app_nil_r; try done.
  destruct (relay_stream 0 reads) as [[t o] e]. cbn. by rewrite app_assoc.
Qed.

(** The threads of a connection do what [relay_stream] does on what they read,
    whatever the order of their steps: each end gets the bytes of the other
    in order. *)
Lemma tcp_run_streams evs : ∀ l, foldl tcp_step l evs =
  let '(d1, o1) := foldl (λ '(d, o) r, stream_step r d o) (tl_up_done l, tl_to_server l) (up_reads evs) in
  let '(d2, o2) := foldl (λ '(d, o) r, stream_step r d o) (tl_down_done l, tl_to_client l) (down_reads evs) in
  mkTcpLink d1 d2 o1 o2.
Proof.
  induction evs as [|ev evs IH]; intros l; cbn [foldl]; [by destruct l|]. rewrite IH. unfold up_reads, down_reads.
  destruct ev as [o|o]; cbn [omap list_omap foldl tcp_step].
  - destruct (stream_step o (tl_up_done l) (tl_to_server l)) as [d out]. done.
  - destruct (stream_step o (tl_down_done l) (tl_to_client l)) as [d out]. done.
Qed.

(** Both directions of the TCP relay carry the bytes in order, but the end of
    one does not pass: the server sees the end of the client's bytes only
    after its own direction has ended too. *)
Theorem tcp_relay_streams evs :
  let l := foldl tcp_step tcp_new evs in
  tl_to_server l = (relay_stream 0 (up_reads evs)).1.2 ∧ tl_to_client l = (relay_stream 0 (down_reads evs)).1.2 ∧
  server_sees_end l = (relay_stream 0 (up_reads evs)).2 && (relay_stream 0 (down_reads evs)).2.
Proof. cbv zeta. rewrite tcp_run_streams, !stream_steps. done. Qed.

(** A thread sleeps once per read: [n] chunks take [n] hops. *)
Lemma relay_stream_time hop reads : Forall (λ r, ∃ b, r = ReadData b true) reads → (relay_stream hop reads).1.1 = hop * zlen reads.
Proof.
  induction 1 as [|r reads [b ->] _ IH]; cbn [relay_stream]; [by rewrite Z.mul_0_r|].
  destruct (relay_stream hop reads) as [[t o] e]. cbn in *. rewrite zlen_cons. lia.
Qed.
