(* ===== verification/FuzzEngine.v ===== *)
(** * Fuzz harness: the mutator, the engine and the driver

    Models [fuzz-harness/src/mutator.rs] (the generator, the eight byte-level
    mutations and [next]), [engine.rs] ([run]: the loop over corpus and mutated
    inputs, the record of crashes and the files written for them) and the
    command line and hex dump of [bin/driver.rs].

    [None] in the mutator is a panic of the harness itself: an index, a range
    or a subtraction out of bounds.  A target is a function that says whether
    it panicked, and with which payload.  The engine has as argument the
    elapsed time it reads before each iteration.  Whether a crash file could
    be written is ignored by the code; the model lists the attempts. *)

From Stdlib Require String.
From S2P Require Import Prelude Bytes RustStr.

Import String.StringSyntax.
#[local] Open Scope string_scope.
#[local] Open Scope list_scope.
#[local] Open Scope Z_scope.

(** ** The generator ([Rng]) *)

Definition rng_next_u64 (r : Z) : Z * Z :=
  let r := wrap64 (r + 0x9E3779B97F4A7C15) in
  let z := wrap64 (Z.lxor r (Z.shiftr r 30) * 0xBF58476D1CE4E5B9) in
  let z := wrap64 (Z.lxor z (Z.shiftr z 27) * 0x94D049BB133111EB) in
  (r, Z.lxor z (Z.shiftr z 31)).

Definition rng_below (n r : Z) : Z * Z :=
  if n =? 0 then (r, 0) else let '(r, u) := rng_next_u64 r in (r, u mod n).

Definition rng_byte (r : Z) : Z * Z :=
  let '(r, u) := rng_next_u64 r in (r, as_u8 u).

(** ** Interesting values *)

Definition INTERESTING : list Z :=
  [0x00; 0x01; 0x02; 0x03; 0x07; 0x08; 0x0f; 0x10; 0x1f; 0x20; 0x21; 0x7e; 0x7f;
   0x80; 0x81; 0xfe; 0xff; 0x40; 0xbf; 0x80; 0xbf; 0xc0; 0xbf; 0xc2; 0xa2; 0xe2; 0x82; 0xac].

Definition INTERESTING_U32 : list Z :=
  [0; 1; u32_max; u32_max - 1; 0x7fffffff; 0x00ffffff; Z.shiftl 1 24; Z.shiftl 16 20; Z.shiftl 17 20].

(** [Directwire\0\x00varint\xC0\x80\xE2\x82\xAC\xFF] *)
Definition LABEL : list Z :=
  [68; 105; 114; 101; 99; 116; 119; 105; 114; 101; 0; 0; 118; 97; 114; 105; 110; 116; 0xC0; 0x80; 0xE2; 0x82; 0xAC; 0xFF].

(** ** The mutator *)

Record Mutator := mkMutator { mu_rng : Z; mu_max_ops : Z }.

Definition mutator_new (seed : Z) : Mutator := mkMutator seed 16.

(** [Vec::insert] and [splice(i..i, x)]: [x] before position [i], which may
    be the end. *)
Definition splice_at (buf : list Z) (i : Z) (x : list Z) : option (list Z) :=
  a ← slice buf 0 i;
  b ← slice buf i (zlen buf);
  Some (a ++ x ++ b).

(** [drain(a..b)] *)
Definition drain (buf : list Z) (a b : Z) : option (list Z) :=
  _ ← slice buf a b;
  x ← slice buf 0 a;
  y ← slice buf b (zlen buf);
  Some (x ++ y).

(** A random segment [a..b] of a buffer of [len] bytes. *)
Definition segment (len r : Z) : option (Z * Z * Z) :=
  let '(r, a) := rng_below len r in
  w ← sub_chk len a;
  let '(r, d) := rng_below w r in
  e ← add_chk u64_max (a + 1) d;
  Some (r, a, Z.min e len).

(** [copy_from_slice] into [buf[i..i + 4]] *)
Definition write4 (buf : list Z) (i v : Z) : option (list Z) :=
  _ ← slice buf i (i + 4);
  x ← slice buf 0 i;
  y ← slice buf (i + 4) (zlen buf);
  Some (x ++ to_le 4 v ++ y).

Definition mutate (r : Z) (buf : list Z) (max_len : Z) : option (Z * list Z) :=
  let len := zlen buf in
  let '(r, op) := rng_below 8 r in
  if op =? 0 then
    if 0 <? len then
      let '(r, i) := rng_below len r in
      let '(r, k) := rng_below 8 r in
      b ← vget buf i;
      buf ← vset buf i (Z.lxor b (Z.shiftl 1 k));
      Some (r, buf)
    else Some (r, buf)
  else if op =? 1 then
    if 0 <? len then
      let '(r, i) := rng_below len r in
      let '(r, k) := rng_below (zlen INTERESTING) r in
      v ← vget INTERESTING k;
      buf ← vset buf i v;
      Some (r, buf)
    else Some (r, buf)
  else if op =? 2 then
    if len <? max_len then
      let '(r, i) := if len =? 0 then (r, 0) else rng_below len r in
      let '(r, k) := rng_below (zlen INTERESTING) r in
      v ← vget INTERESTING k;
      buf ← splice_at buf i [v];
      Some (r, buf)
    else Some (r, buf)
  else if op =? 3 then
    if 1 <? len then
      '(r, a, b) ← segment len r;
      buf ← drain buf a b;
      Some (r, buf)
    else Some (r, buf)
  else if op =? 4 then
    if (0 <? len) && (len <? max_len) then
      '(r, a, b) ← segment len r;
      copy ← slice buf a b;
      let '(r, ins) := if len =? 0 then (r, 0) else rng_below len r in
      room ← sub_chk max_len len;
      let n := Z.min (zlen copy) room in
      buf ← splice_at buf ins (take (Z.to_nat n) copy);
      Some (r, buf)
    else Some (r, buf)
  else if op =? 5 then
    if 4 <=? len then
      w ← sub_chk len 3;
      let '(r, i) := rng_below w r in
      let '(r, k) := rng_below (zlen INTERESTING_U32) r in
      v ← vget INTERESTING_U32 k;
      buf ← write4 buf i v;
      Some (r, buf)
    else Some (r, buf)
  else if op =? 6 then
    if (0 <? len) && (len <? max_len) then
      let '(r, i) := rng_below len r in
      rest ← sub_chk len i;
      room ← sub_chk max_len len;
      let n := Z.min (Z.max rest 1) room in
      copy ← slice buf i (Z.min (i + n) len);
      Some (r, buf ++ copy)
    else Some (r, buf)
  else if op =? 7 then
    if len <? max_len then
      room ← sub_chk max_len len;
      let n := Z.min (zlen LABEL) room in
      s ← slice LABEL 0 n;
      Some (r, buf ++ s)
    else Some (r, buf)
  else None.

Fixpoint mutate_n (n : nat) (r : Z) (buf : list Z) (max_len : Z) : option (Z * list Z) :=
  match n with
  | O => Some (r, buf)
  | S n' => '(r, buf) ← mutate r buf max_len; mutate_n n' r buf max_len
  end.

(** [next] *)
Definition mutator_next (base : list Z) (max_len : Z) (m : Mutator) : option (Mutator * list Z) :=
  let '(r, half) := rng_below 2 (mu_rng m) in
  let buf := if half =? 1 then base else [] in
  let '(r, k) := rng_below (mu_max_ops m) r in
  let ops := 1 + k in
  '(r, buf) ← mutate_n (Z.to_nat ops) r buf max_len;
  Some (mkMutator r (mu_max_ops m), take (Z.to_nat max_len) buf).

(** ** The engine *)

(** The payload of a panic, as [catch_unwind] returns it. *)
Inductive Payload :=
| PStr (s : list Z)
| PString (s : list Z)
| POther.

(** "非字符串 panic payload" *)
Definition NOT_A_STRING : list Z :=
  [0x975E; 0x5B57; 0x7B26; 0x4E32; 0x20; 112; 97; 110; 105; 99; 0x20; 112; 97; 121; 108; 111; 97; 100].

Definition panic_msg (e : Payload) : list Z :=
  match e with
  | PStr s => s
  | PString s => s
  | POther => NOT_A_STRING
  end.

Record Crash := mkCrash {
  cr_target : list Z;
  cr_panic_msg : list Z;
  cr_input : list Z;
  cr_file : list Z
}.

Record RunStats := mkRunStats {
  st_iterations : Z;
  st_crashes : Z;
  st_last_crash : option Crash
}.

Definition CRASH_LIMIT : Z := 100.

(** [{seq:04}] *)
Definition pad4 (n : Z) : list Z := let d := dec_u64 n in replicate (4 - length d) 48 ++ d.

(** The name of a crash file within [save_dir]. *)
Definition crash_file (target_name : list Z) (seq : Z) : list Z :=
  target_name ++ [45] ++ pad4 seq ++ chars ".bin".

(** What the loop carries: the statistics, the mutator and the files it has
    tried to write. *)
Record Engine := mkEngine {
  en_stats : RunStats;
  en_mutator : Mutator;
  en_files : list (list Z * list Z)
}.

Definition engine_new (seed : Z) : Engine := mkEngine (mkRunStats 0 0 None) (mutator_new seed) [].

Record RunArgs := mkRunArgs {
  ra_target_name : list Z;
  ra_f : list Z → option Payload;
  ra_corpus : list (list Z);
  ra_max_len : Z;
  ra_iterations : Z;
  ra_time_budget : option Z
}.

(** The two conditions that end the loop before an iteration. *)
Definition budget_spent (a : RunArgs) (elapsed : Z) (e : Engine) : bool :=
  (0 <? ra_iterations a) && (ra_iterations a <=? st_iterations (en_stats e)) ||
  match ra_time_budget a with Some b => b <=? elapsed | None => false end.

(** The input of an iteration: the corpus entry itself every eighth time, a
    mutation of it otherwise. *)
Definition choose_input (a : RunArgs) (e : Engine) : option (Mutator * list Z) :=
  let m := en_mutator e in
  '(m, base) ← (match ra_corpus a with
                | [] => Some (m, [])
                | _ => let '(r, k) := rng_below (zlen (ra_corpus a)) (mu_rng m) in
                       base ← vget (ra_corpus a) k;
                       Some (mkMutator r (mu_max_ops m), base)
                end);
  if st_iterations (en_stats e) mod 8 =? 0 then Some (m, base) else mutator_next base (ra_max_len a) m.

(** One iteration; the flag says that the loop breaks after it. *)
Definition engine_iter (a : RunArgs) (e : Engine) : option (Engine * bool) :=
  '(m, input) ← choose_input a e;
  let s := en_stats e in
  its ← add_chk u64_max (st_iterations s) 1;
  match ra_f a input with
  | None => Some (mkEngine (mkRunStats its (st_crashes s) (st_last_crash s)) m (en_files e), false)
  | Some p =>
      seq ← add_chk u64_max (st_crashes s) 1;
      let file := crash_file (ra_target_name a) seq in
      Some (mkEngine (mkRunStats its seq (Some (mkCrash (ra_target_name a) (panic_msg p) input file))) m
              (en_files e ++ [(file, input)]), CRASH_LIMIT <=? seq)
  end.

(** The loop, for at most [fuel] rounds; [elapsed] is the clock at the [i]-th
    round.  [Some (inl e)]: still running. *)
Fixpoint engine_loop (fuel : nat) (a : RunArgs) (elapsed : nat → Z) (i : nat) (e : Engine) : option (Engine + Engine) :=
  match fuel with
  | O => Some (inl e)
  | S fuel' =>
      if budget_spent a (elapsed i) e then Some (inr e)
      else '(e, stop) ← engine_iter a e;
           if stop : bool then Some (inr e) else engine_loop fuel' a elapsed (S i) e
  end.

(** [engine::run] *)
Definition engine_run (fuel : nat) (a : RunArgs) (elapsed : nat → Z) (seed : Z) : option (Engine + Engine) :=
  engine_loop fuel a elapsed 0 (engine_new seed).

(** ** The driver *)

Definition DEFAULT_SEED : Z := 0x5eed0000f00d.
Definition DEFAULT_MAX_LEN : Z := 8192.

(** [hex] *)
Definition hex_digit (k : Z) : Z := if k <? 10 then 48 + k else 87 + k.
Definition hex (bytes : list Z) : list Z :=
  concat (map (λ b, [hex_digit (Z.shiftr b 4); hex_digit (Z.land b 0xf)]) bytes).

Record Options := mkOptions {
  op_time_secs : option Z;
  op_iters : Z;
  op_seed : Z;
  op_max_len : Z;
  op_save_dir : list Z
}.

Definition options_new : Options := mkOptions None 0 DEFAULT_SEED DEFAULT_MAX_LEN (chars "fuzz-crashes").

(** [str::parse::<u64>]: an optional plus sign and decimal digits, at least
    one, without overflow. *)
Fixpoint parse_digits (s : list Z) (acc : Z) : option Z :=
  match s with
  | [] => Some acc
  | c :: s' => if (48 <=? c) && (c <=? 57) && (acc * 10 + (c - 48) <=? u64_max)
               then parse_digits s' (acc * 10 + (c - 48)) else None
  end.

Definition parse_u64 (s : list Z) : option Z :=
  match s with
  | [] => None
  | [43] => None
  | 43 :: s' => parse_digits s' 0
  | _ => parse_digits s 0
  end.

(** The arguments after the target; [None] is [usage()], which exits. *)
Fixpoint parse_args (args : list (list Z)) (o : Options) : option Options :=
  match args with
  | [] => Some o
  | k :: rest =>
      if bool_decide (k = chars "--time") then
        match rest with
        | [] => None
        | v :: rest' => n ← parse_u64 v; parse_args rest' (mkOptions (Some n) (op_iters o) (op_seed o) (op_max_len o) (op_save_dir o))
        end
      else if bool_decide (k = chars "--iters") then
        match rest with
        | [] => None
        | v :: rest' => n ← parse_u64 v; parse_args rest' (mkOptions (op_time_secs o) n (op_seed o) (op_max_len o) (op_save_dir o))
        end
      else if bool_decide (k = chars "--seed") then
        match rest with
        | [] => None
        | v :: rest' => n ← parse_u64 v; parse_args rest' (mkOptions (op_time_secs o) (op_iters o) n (op_max_len o) (op_save_dir o))
        end
      else if bool_decide (k = chars "--max-len") then
        match rest with
        | [] => None
        | v :: rest' => n ← parse_u64 v; parse_args rest' (mkOptions (op_time_secs o) (op_iters o) (op_seed o) n (op_save_dir o))
        end
      else if bool_decide (k = chars "--save-dir") then
        match rest with
        | [] => None
        | v :: rest' => parse_args rest' (mkOptions (op_time_secs o) (op_iters o) (op_seed o) (op_max_len o) v)
        end
      else None
  end.

(** The status [main] ends with, once the arguments are read and the directory
    for crash files is there. *)
Definition exit_code (s : RunStats) : Z := match st_last_crash s with Some _ => 1 | None => 0 end.

(** ** The mutator never panics *)

Lemma rng_below_lt n r r' v : 0 < n → rng_below n r = (r', v) → 0 ≤ v < n.
Proof.
  intros Hn. unfold rng_below. rewrite (proj2 (Z.eqb_neq n 0)) by lia. destruct (rng_next_u64 r) as [r1 u].
  intros [= _ <-]. by apply Z.mod_pos_bound.
Qed.

Lemma lxor_bit_byte b k : is_byte b → 0 ≤ k < 8 → is_byte (Z.lxor b (Z.shiftl 1 k)).
Proof.
  unfold is_byte, is_u8, u8_max. intros Hb Hk. rewrite Z.shiftl_1_l. pose proof (Z.pow_pos_nonneg 2 k ltac:(lia) ltac:(lia)) as Hp.
  assert (0 ≤ Z.lxor b (2 ^ k)) as H0 by (apply Z.lxor_nonneg; lia). split; [done|].
  destruct (Z.eq_dec (Z.lxor b (2 ^ k)) 0) as [->|Hn]; [lia|].
  assert (Z.lxor b (2 ^ k) < 2 ^ 8); [|lia]. apply Z.log2_lt_pow2; [lia|].
  eapply Z.le_lt_trans; [apply Z.log2_lxor; lia|]. apply Z.max_lub_lt; [|rewrite Z.log2_pow2; lia].
  destruct (Z.eq_dec b 0) as [->|]; [done|]. apply Z.log2_lt_pow2; lia.
Qed.

Lemma slice_Forall {A} (P : A → Prop) (l : list A) a b k : Forall P l → slice l a b = Some k → Forall P k.
Proof. intros Hl (_ & _ & ->)%slice_Some. by apply Forall_take, Forall_drop. Qed.

Lemma splice_at_ok buf i x : 0 ≤ i ≤ zlen buf → Forall is_byte buf → Forall is_byte x →
  ∃ buf', splice_at buf i x = Some buf' ∧ Forall is_byte buf' ∧ zlen buf' = zlen buf + zlen x.
Proof.
  intros Hi Hb Hx. unfold splice_at. destruct (slice buf 0 i) as [a|] eqn:Ea; [|by rewrite slice_ok in Ea by lia].
  destruct (slice buf i (zlen buf)) as [b|] eqn:Eb; [|by rewrite slice_ok in Eb by lia]. cbn.
  eexists. split; [done|]. split.
  - rewrite !Forall_app. eauto using slice_Forall.
  - apply length_slice in Ea, Eb. rewrite !zlen_app. lia.
Qed.

Lemma drain_ok buf a b : 0 ≤ a ≤ b → b ≤ zlen buf → Forall is_byte buf →
  ∃ buf', drain buf a b = Some buf' ∧ Forall is_byte buf' ∧ zlen buf' = zlen buf - (b - a).
Proof.
  intros Ha Hb Hf. unfold drain. rewrite (slice_ok buf a b) by lia. cbn.
  destruct (slice buf 0 a) as [x|] eqn:Ex; [|by rewrite slice_ok in Ex by lia].
  destruct (slice buf b (zlen buf)) as [y|] eqn:Ey; [|by rewrite slice_ok in Ey by lia]. cbn.
  eexists. split; [done|]. split.
  - rewrite !Forall_app. eauto using slice_Forall.
  - apply length_slice in Ex, Ey. rewrite !zlen_app. lia.
Qed.

Lemma write4_ok buf i v : 0 ≤ i → i + 4 ≤ zlen buf → Forall is_byte buf →
  ∃ buf', write4 buf i v = Some buf' ∧ Forall is_byte buf' ∧ zlen buf' = zlen buf.
Proof.
  intros Hi Hb Hf. unfold write4. rewrite (slice_ok buf i (i + 4)) by lia. cbn [mbind option_bind].
  destruct (slice buf 0 i) as [x|] eqn:Ex; [|by rewrite slice_ok in Ex by lia].
  destruct (slice buf (i + 4) (zlen buf)) as [y|] eqn:Ey; [|by rewrite slice_ok in Ey by lia]. cbn [mbind option_bind].
  eexists. split; [done|]. split.
  - rewrite !Forall_app. split_and!; eauto using slice_Forall. apply to_le_bytes.
  - apply length_slice in Ex, Ey. rewrite !zlen_app. unfold zlen in *. rewrite length_to_le. lia.
Qed.

Lemma segment_ok len r : 0 < len ≤ u64_max → ∃ r' a b, segment len r = Some (r', a, b) ∧ 0 ≤ a < b ∧ b ≤ len.
Proof.
  intros Hl. unfold segment. destruct (rng_below len r) as [r1 a] eqn:Ea. apply rng_below_lt in Ea; [|lia].
  unfold sub_chk. rewrite (proj2 (Z.leb_le a len)) by lia. cbn [mbind option_bind].
  destruct (rng_below (len - a) r1) as [r2 d] eqn:Ed. apply rng_below_lt in Ed; [|lia].
  rewrite add_chk_ok by lia. cbn. eexists _, _, _. split; [done|]. lia.
Qed.

Lemma interesting_bytes : Forall is_byte INTERESTING.
Proof. unfold is_byte, is_u8, u8_max. repeat constructor; lia. Qed.

Lemma label_bytes : Forall is_byte LABEL.
Proof. unfold is_byte, is_u8, u8_max. repeat constructor; lia. Qed.

(** A value of [INTERESTING] at a position drawn below its length. *)
Lemma interesting_ok r r' k : rng_below (zlen INTERESTING) r = (r', k) → ∃ v, vget INTERESTING k = Some v ∧ is_byte v.
Proof.
  intros E%rng_below_lt; [|done]. destruct (vget_lt_is_Some INTERESTING k E) as [v Hv]. exists v. split; [done|].
  apply vget_Some in Hv as [_ Hv]. exact (Forall_lookup_1 _ _ _ _ interesting_bytes Hv).
Qed.

Lemma vset_bytes buf i v : 0 ≤ i < zlen buf → is_byte v → Forall is_byte buf →
  ∃ buf', vset buf i v = Some buf' ∧ Forall is_byte buf' ∧ zlen buf' = zlen buf.
Proof.
  intros Hi Hv Hb. rewrite vset_ok by done. eexists. split; [done|]. split; [by apply Forall_insert|apply zlen_insert].
Qed.

(** What one mutation guarantees of its buffer. *)
Definition mutated (buf : list Z) (max_len : Z) (o : option (Z * list Z)) : Prop :=
  ∃ r buf', o = Some (r, buf') ∧ Forall is_byte buf' ∧ zlen buf' ≤ Z.max (zlen buf) max_len.

Lemma mutated_same buf max_len r : Forall is_byte buf → mutated buf max_len (Some (r, buf)).
Proof. intros H. exists r, buf. split_and!; [done..|lia]. Qed.

Lemma mutated_bind buf max_len r (o : option (list Z)) : (∃ buf', o = Some buf' ∧ Forall is_byte buf' ∧ zlen buf' ≤ Z.max (zlen buf) max_len) →
  mutated buf max_len (buf ← o; Some (r, buf)).
Proof. intros (b & -> & Hb & Hl). exists r, b. by split_and!. Qed.

Ltac draw E := match goal with |- context [rng_below ?n ?r] =>
  let r' := fresh "r" in let v := fresh "v" in destruct (rng_below n r) as [r' v] eqn:E end.

Lemma mutate_ok r buf max_len : Forall is_byte buf → zlen buf ≤ u64_max → mutated buf max_len (mutate r buf max_len).
Proof.
  intros Hb Hl. unfold mutate. draw Eo. apply rng_below_lt in Eo; [|lia].
  pose proof (mutated_same buf max_len) as Hsame. pose proof (zlen_nonneg buf) as Hz0.
  destruct (v =? 0) eqn:E0; [|destruct (v =? 1) eqn:E1; [|destruct (v =? 2) eqn:E2; [|destruct (v =? 3) eqn:E3; [|
    destruct (v =? 4) eqn:E4; [|destruct (v =? 5) eqn:E5; [|destruct (v =? 6) eqn:E6; [|destruct (v =? 7) eqn:E7; [|lia]]]]]]]].
  - case_match eqn:Hc; [|by apply Hsame]. draw Ei. apply rng_below_lt in Ei; [|lia]. draw Ek. apply rng_below_lt in Ek; [|lia].
    destruct (vget_lt_is_Some buf v0 Ei) as [b Hv]. rewrite Hv. cbn [mbind option_bind]. apply mutated_bind.
    destruct (vset_bytes buf v0 (Z.lxor b (Z.shiftl 1 v1)) Ei) as (b' & ? & ? & ?); [|done|exists b'; split_and!; [done..|lia]].
    apply lxor_bit_byte; [|done]. apply vget_Some in Hv as [_ Hv]. by eapply Forall_lookup_1.
  - case_match eqn:Hc; [|by apply Hsame]. draw Ei. apply rng_below_lt in Ei; [|lia]. draw Ek. apply interesting_ok in Ek as (x & -> & Hx).
    cbn [mbind option_bind]. apply mutated_bind.
    destruct (vset_bytes buf v0 x Ei) as (b' & ? & ? & ?); [done..|]. exists b'; split_and!; [done..|lia].
  - case_match eqn:Hc; [|by apply Hsame].
    assert (∃ r' i, (if zlen buf =? 0 then (r0, 0) else rng_below (zlen buf) r0) = (r', i) ∧ 0 ≤ i ≤ zlen buf) as (r' & i & -> & Hi).
    { destruct (zlen buf =? 0) eqn:Ez; [exists r0, 0; split; [done|lia]|]. draw Ei. apply rng_below_lt in Ei; [|lia].
      eexists _, _. split; [done|lia]. }
    draw Ek. apply interesting_ok in Ek as (x & -> & Hx). cbn [mbind option_bind]. apply mutated_bind.
    destruct (splice_at_ok buf i [x]) as (b' & ? & ? & Hz); [done|done|by apply Forall_singleton|].
    exists b'. split_and!; [done..|]. rewrite zlen_cons, zlen_nil in Hz. lia.
  - case_match eqn:Hc; [|by apply Hsame]. destruct (segment_ok (zlen buf) r0) as (r' & a & b & -> & ? & ?); [lia|].
    cbn [mbind option_bind]. apply mutated_bind. destruct (drain_ok buf a b) as (b' & ? & ? & ?); [lia..|done|].
    exists b'. split_and!; [done..|lia].
  - case_match eqn:Hc; [|by apply Hsame]. destruct (segment_ok (zlen buf) r0) as (r' & a & b & -> & ? & ?); [lia|].
    cbn [mbind option_bind]. destruct (slice buf a b) as [copy|] eqn:Es; [|by rewrite slice_ok in Es by lia].
    cbn [mbind option_bind]. rewrite (proj2 (Z.eqb_neq (zlen buf) 0)) by lia. draw Ei. apply rng_below_lt in Ei; [|lia].
    unfold sub_chk. rewrite (proj2 (Z.leb_le _ max_len)) by lia. cbn [mbind option_bind]. apply mutated_bind.
    set (n := Z.min (zlen copy) (max_len - zlen buf)).
    destruct (splice_at_ok buf v0 (take (Z.to_nat n) copy)) as (b' & ? & ? & Hz); [lia|done|by eapply Forall_take, slice_Forall|].
    exists b'. split_and!; [done..|]. rewrite Hz. unfold zlen at 2. rewrite length_take. subst n. unfold zlen in *. lia.
  - case_match eqn:Hc; [|by apply Hsame]. unfold sub_chk. rewrite (proj2 (Z.leb_le 3 _)) by lia. cbn [mbind option_bind].
    draw Ei. apply rng_below_lt in Ei; [|lia]. draw Ek. apply rng_below_lt in Ek; [|done].
    destruct (vget_lt_is_Some INTERESTING_U32 v1 Ek) as [x ->]. cbn [mbind option_bind]. apply mutated_bind.
    destruct (write4_ok buf v0 x) as (b' & ? & ? & ?); [lia..|done|]. exists b'. split_and!; [done..|lia].
  - case_match eqn:Hc; [|by apply Hsame]. draw Ei. apply rng_below_lt in Ei; [|lia]. unfold sub_chk.
    rewrite !(proj2 (Z.leb_le _ _)) by lia. cbn [mbind option_bind].
    destruct (slice buf v0 _) as [copy|] eqn:Es; [|by rewrite slice_ok in Es by lia]. cbn [mbind option_bind].
    eexists _, _. split; [done|]. split; [apply Forall_app; split; [done|by eapply slice_Forall]|].
    apply length_slice in Es. rewrite zlen_app. lia.
  - case_match eqn:Hc; [|by apply Hsame]. unfold sub_chk. rewrite (proj2 (Z.leb_le _ max_len)) by lia. cbn [mbind option_bind].
    pose proof (zlen_nonneg LABEL). destruct (slice LABEL 0 _) as [s|] eqn:Es; [|rewrite slice_ok in Es; [done|lia|lia]]. cbn [mbind option_bind].
    eexists _, _. split; [done|]. split; [apply Forall_app; split; [done|eapply slice_Forall, Es; apply label_bytes]|].
    apply length_slice in Es. rewrite zlen_app. lia.
Qed.

Lemma mutate_n_ok n max_len : max_len ≤ u64_max → ∀ r buf, Forall is_byte buf → zlen buf ≤ u64_max →
  mutated buf max_len (mutate_n n r buf max_len).
Proof.
  intros Hm. induction n as [|n IH]; intros r buf Hb Hl; cbn [mutate_n]; [by apply mutated_same|].
  destruct (mutate_ok r buf max_len Hb Hl) as (r1 & b1 & -> & Hb1 & Hl1). cbn [mbind option_bind].
  destruct (IH r1 b1 Hb1 ltac:(lia)) as (r2 & b2 & -> & Hb2 & Hl2). exists r2, b2. split_and!; [done..|lia].
Qed.

Lemma mutator_next_ok base max_len m : Forall is_byte base → zlen base ≤ u64_max → 0 ≤ max_len ≤ u64_max →
  ∃ m' input, mutator_next base max_len m = Some (m', input) ∧ mu_max_ops m' = mu_max_ops m ∧
    Forall is_byte input ∧ zlen input ≤ max_len.
Proof.
  intros Hb Hl Hm. unfold mutator_next. draw E1. draw E2.
  set (buf := if v =? 1 then base else []).
  assert (Forall is_byte buf ∧ zlen buf ≤ u64_max) as [Hbb Hbl] by (unfold buf; case_match; [done|by split; [constructor|]]).
  destruct (mutate_n_ok (Z.to_nat (1 + v0)) max_len ltac:(lia) r0 buf Hbb Hbl) as (r' & b' & -> & Hb' & _).
  cbn [mbind option_bind]. eexists _, _. split; [done|]. split; [done|]. split; [by apply Forall_take|].
  unfold zlen. rewrite length_take. lia.
Qed.

(** ** The engine *)

Definition args_ok (a : RunArgs) : Prop :=
  Forall (λ b, Forall is_byte b ∧ zlen b ≤ u64_max) (ra_corpus a) ∧ 0 ≤ ra_max_len a ≤ u64_max.

(** The inputs the engine may try: corpus entries and inputs within the limit. *)
Definition fed (a : RunArgs) (d : list Z) : Prop :=
  Forall is_byte d ∧ (d ∈ ra_corpus a ∨ zlen d ≤ ra_max_len a).

(** The crash files of a list of crashing inputs, numbered from [1]. *)
Definition crash_files (a : RunArgs) (ds : list (list Z)) : list (list Z * list Z) :=
  imap (λ i d, (crash_file (ra_target_name a) (Z.of_nat i + 1), d)) ds.

(** The statistics and the files after [k] iterations in which the target
    panicked on the inputs [ds]. *)
Definition logged (a : RunArgs) (k : Z) (ds : list (list Z)) (e : Engine) : Prop :=
  st_iterations (en_stats e) = k ∧ st_crashes (en_stats e) = zlen ds ∧ zlen ds ≤ k ∧ en_files e = crash_files a ds ∧
  Forall (λ d, fed a d ∧ is_Some (ra_f a d)) ds ∧
  match last ds with
  | None => st_last_crash (en_stats e) = None
  | Some d => ∃ p, ra_f a d = Some p ∧
      st_last_crash (en_stats e) = Some (mkCrash (ra_target_name a) (panic_msg p) d (crash_file (ra_target_name a) (zlen ds)))
  end.

Lemma choose_input_ok a e : args_ok a → ∃ m d, choose_input a e = Some (m, d) ∧ fed a d.
Proof.
  intros [Hc Hm]. unfold choose_input.
  assert (∃ m base, (match ra_corpus a with
                | [] => Some (en_mutator e, [])
                | _ => let '(r, k) := rng_below (zlen (ra_corpus a)) (mu_rng (en_mutator e)) in
                       base ← vget (ra_corpus a) k;
                       Some (mkMutator r (mu_max_ops (en_mutator e)), base)
                end) = Some (m, base) ∧ (base ∈ ra_corpus a ∨ base = [])) as (m & base & -> & Hb).
  { destruct (ra_corpus a) as [|c cs] eqn:Ec; [by eauto 10|]. rewrite <-Ec in *. draw Ek. apply rng_below_lt in Ek; [|by rewrite Ec].
    destruct (vget_lt_is_Some _ _ Ek) as [b Hv]. rewrite Hv. cbn. eexists _, _. split; [done|]. left.
    apply vget_Some in Hv as [_ Hv]. by eapply list_elem_of_lookup_2. }
  cbn [mbind option_bind].
  assert (Forall is_byte base ∧ zlen base ≤ u64_max) as [Hb1 Hb2].
  { destruct Hb as [Hb| ->]; [|by split; [constructor|]]. by apply (proj1 (Forall_forall _ _) Hc). }
  case_match.
  - exists m, base. split; [done|]. split; [done|]. destruct Hb as [?| ->]; [by left|right; rewrite zlen_nil; lia].
  - destruct (mutator_next_ok base (ra_max_len a) m Hb1 Hb2 Hm) as (m' & d & -> & _ & ? & ?). exists m', d. split; [done|]. split; auto.
Qed.

Lemma crash_files_snoc a ds d : crash_files a (ds ++ [d]) = crash_files a ds ++ [(crash_file (ra_target_name a) (zlen ds + 1), d)].
Proof. unfold crash_files. rewrite imap_app. cbn. by rewrite Nat.add_0_r. Qed.

(** One iteration counts itself and, if the target panicked, one crash. *)
Lemma engine_iter_ok a k ds e : args_ok a → logged a k ds e → 0 ≤ k < u64_max →
  ∃ e' stop d, engine_iter a e = Some (e', stop) ∧ fed a d ∧
    ((ra_f a d = None ∧ logged a (k + 1) ds e' ∧ stop = false) ∨
     (is_Some (ra_f a d) ∧ logged a (k + 1) (ds ++ [d]) e' ∧ stop = (CRASH_LIMIT <=? zlen ds + 1))).
Proof.
  intros Ha (Hi & Hcr & Hk & Hf & Hds & Hlast) Hb. unfold engine_iter.
  destruct (choose_input_ok a e Ha) as (m & d & -> & Hd). cbn [mbind option_bind].
  rewrite Hi, (add_chk_ok u64_max k 1) by lia. cbn [mbind option_bind]. destruct (ra_f a d) as [p|] eqn:Ep.
  - rewrite Hcr, add_chk_ok by lia. cbn [mbind option_bind]. eexists _, _, d. split; [done|]. split; [done|]. right.
    split; [by rewrite Ep|]. split; [|done]. unfold logged. cbn [en_stats st_iterations st_crashes st_last_crash en_files].
    assert (zlen (ds ++ [d]) = zlen ds + 1) as Hz by by rewrite zlen_app.
    rewrite Hz, last_snoc, crash_files_snoc, Hf. split_and!; [done|done|lia|done| |].
    + apply Forall_app. split; [done|]. apply Forall_singleton. split; [done|]. by rewrite Ep.
    + by exists p.
  - eexists _, _, d. split; [done|]. split; [done|]. left. split; [done|]. split; [|done].
    unfold logged. cbn [en_stats st_iterations st_crashes st_last_crash en_files]. split_and!; try done. lia.
Qed.

(** The loop: it ends when a budget is spent or at the hundredth crash. *)
Lemma engine_loop_ok a elapsed : args_ok a → 0 < ra_iterations a ≤ u64_max → ∀ fuel i k ds e, logged a k ds e →
  zlen ds < CRASH_LIMIT → 0 ≤ k ≤ ra_iterations a → ra_iterations a - k < Z.of_nat fuel →
  ∃ e' k' ds', engine_loop fuel a elapsed i e = Some (inr e') ∧ logged a k' ds' e' ∧ zlen ds' ≤ CRASH_LIMIT ∧ k' ≤ ra_iterations a ∧
    (k' = ra_iterations a ∨ zlen ds' = CRASH_LIMIT ∨ ∃ b j, ra_time_budget a = Some b ∧ b ≤ elapsed j).
Proof.
  intros Ha Hit. induction fuel as [|fuel IH]; intros i k ds e Hl Hds Hk Hfuel; [lia|]. cbn [engine_loop].
  destruct (budget_spent a (elapsed i) e) eqn:Eb.
  - exists e, k, ds. split; [done|]. split; [done|]. split; [lia|]. split; [lia|].
    unfold budget_spent in Eb. destruct Hl as (Hi & _). rewrite Hi in Eb.
    apply orb_true_iff in Eb as [Eb|Eb]; [left; lia|]. right. right.
    destruct (ra_time_budget a) as [b|] eqn:Et; [|done]. exists b, i. split; [done|lia].
  - assert (k < ra_iterations a).
    { unfold budget_spent in Eb. destruct Hl as (Hi & _). rewrite Hi in Eb. lia. }
    destruct (engine_iter_ok a k ds e Ha Hl ltac:(lia)) as (e' & stop & d & -> & _ & [(_ & Hl' & ->)|(_ & Hl' & ->)]); cbn [mbind option_bind].
    + destruct (IH (S i) (k + 1) ds e' Hl' Hds ltac:(lia) ltac:(lia)) as (e2 & k2 & ds2 & ? & ?). exists e2, k2, ds2. by split.
    + assert (zlen (ds ++ [d]) = zlen ds + 1) as Hz by by rewrite zlen_app.
      destruct (CRASH_LIMIT <=? zlen ds + 1) eqn:Es.
      * exists e', (k + 1), (ds ++ [d]). rewrite Hz. split_and!; [done|done|lia|lia|right; left; lia].
      * destruct (IH (S i) (k + 1) (ds ++ [d]) e' Hl' ltac:(lia) ltac:(lia) ltac:(lia)) as (e2 & k2 & ds2 & ? & ?). exists e2, k2, ds2. by split.
Qed.

(** The names of up to a hundred crash files are different. *)
Lemma crash_names_distinct a ds : zlen ds ≤ CRASH_LIMIT → NoDup (crash_files a ds).*1.
Proof.
  intros Hl.
  assert ((crash_files a ds).*1 = (λ s, ra_target_name a ++ [45] ++ s ++ chars ".bin") <$> (pad4 <$> ((λ i, Z.of_nat i + 1) <$> seq 0 (length ds)))) as ->.
  { unfold crash_files, crash_file.
    apply list_eq. intros i. rewrite !list_lookup_fmap, list_lookup_imap.
    destruct (decide (i < length ds)%nat) as [Hi|Hi].
    - rewrite (lookup_seq_lt 0 (length ds) i Hi). destruct (lookup_lt_is_Some_2 ds i Hi) as [d ->]. done.
    - rewrite lookup_seq_ge by lia. by rewrite (lookup_ge_None_2 ds) by lia. }
  apply NoDup_fmap_2.
  { intros s t E. apply app_inv_head, app_inv_head, app_inv_tail in E. done. }
  assert (NoDup (pad4 <$> ((λ i, Z.of_nat i + 1) <$> seq 0 100))) as Hall by (apply (bool_decide_unpack _); by vm_compute).
  replace 100%nat with (length ds + (100 - length ds))%nat in Hall by (unfold zlen, CRASH_LIMIT in Hl; lia).
  rewrite seq_app, !fmap_app in Hall. by apply NoDup_app in Hall as [? _].
Qed.

Lemma logged_new a seed : logged a 0 [] (engine_new seed).
Proof. split_and!; done || constructor. Qed.

(** A run with an iteration budget ends, without a panic of the harness,
    after at most that many iterations and a hundred crashes; fewer than the
    budget only at the hundredth crash or when the time is spent.  There is
    one file per crash, no two with the same name, each holding an input of
    the corpus or within the length limit on which the target panics; the
    exit code of the driver is [0] exactly if no input made the target
    panic. *)
Theorem fuzz_run_complete a elapsed seed fuel : args_ok a → 0 < ra_iterations a ≤ u64_max → ra_iterations a < Z.of_nat fuel →
  ∃ e k ds, engine_run fuel a elapsed seed = Some (inr e) ∧ st_iterations (en_stats e) = k ∧ st_crashes (en_stats e) = zlen ds ∧
    0 ≤ zlen ds ≤ CRASH_LIMIT ∧ k ≤ ra_iterations a ∧
    (k = ra_iterations a ∨ zlen ds = CRASH_LIMIT ∨ ∃ b j, ra_time_budget a = Some b ∧ b ≤ elapsed j) ∧
    en_files e = crash_files a ds ∧ NoDup (en_files e).*1 ∧
    Forall (λ d, fed a d ∧ is_Some (ra_f a d)) ds ∧
    (exit_code (en_stats e) = 0 ↔ ds = []).
Proof.
  intros Ha Hi Hf.
  destruct (engine_loop_ok a elapsed Ha Hi fuel 0 0 [] (engine_new seed) (logged_new a seed)) as (e & k & ds & E & Hl & Hc & Hk & Hend);
    [done|lia|lia|].
  destruct Hl as (H1 & H2 & H3 & H4 & H5 & H6). exists e, k, ds. split; [exact E|]. pose proof (zlen_nonneg ds).
  split_and!; try done. { rewrite H4. by apply crash_names_distinct. }
  unfold exit_code. destruct (last ds) as [d|] eqn:El.
  - destruct H6 as (p & _ & ->). split; [done|]. by intros ->.
  - rewrite H6. apply last_None in El. done.
Qed.

(** ** Runs *)

(** A target that panics on an input that starts with [0xff]. *)
Definition picky (d : list Z) : option Payload :=
  match d with 255 :: _ => Some (PStr (chars "boom")) | _ => None end.

Definition picky_args (n : Z) : RunArgs := mkRunArgs (chars "picky") picky [[255; 1; 2]; [3]] 16 n None.

Lemma fuzz_run_complete_witness :
  args_ok (picky_args 40) ∧ ∃ e k ds, engine_run 41 (picky_args 40) (λ _, 0) DEFAULT_SEED = Some (inr e) ∧ st_iterations (en_stats e) = k ∧ st_crashes (en_stats e) = zlen ds ∧
    0 ≤ zlen ds ≤ CRASH_LIMIT ∧ k ≤ 40 ∧
    (k = 40 ∨ zlen ds = CRASH_LIMIT ∨ ∃ b j, ra_time_budget (picky_args 40) = Some b ∧ b ≤ (λ _, 0) (j : nat)) ∧
    en_files e = crash_files (picky_args 40) ds ∧ NoDup (en_files e).*1 ∧
    Forall (λ d, fed (picky_args 40) d ∧ is_Some (ra_f (picky_args 40) d)) ds ∧
    (exit_code (en_stats e) = 0 ↔ ds = []).
Proof.
  assert (args_ok (picky_args 40)) as Ha.
  { split; [|done]. unfold picky_args, is_byte, is_u8, u8_max. cbn [ra_corpus]. apply (bool_decide_unpack _); by vm_compute. }
  split; [exact Ha|]. apply (fuzz_run_complete (picky_args 40) (λ _, 0) DEFAULT_SEED 41); [exact Ha|done|done].
Defined.

(** The crashes of that run, the corpus entries among them. *)
Example picky_run :
  option_map (λ r, match r with inr e => (st_iterations (en_stats e), st_crashes (en_stats e), (en_files e).*2) | inl _ => (0, 0, []) end)
    (engine_run 41 (picky_args 40) (λ _, 0) DEFAULT_SEED) =
  Some (40, 7, [[255; 1; 2]; [255; 191; 0; 254; 0; 0; 1; 1; 114; 226; 0; 0; 102; 97]; [255; 1; 2];
    [255; 255; 255; 255; 255; 255; 255; 0; 99; 116; 119; 105; 114; 101; 0; 0]; [255; 1; 2]; [255; 1; 2];
    [255; 1; 255; 2; 68; 126; 31; 0; 0; 0; 16; 1; 64; 68; 105; 114]]).
Proof. vm_compute. reflexivity. Qed.

(** The length limit is one on mutated inputs only: a corpus entry is tried
    whole, whatever its length. *)
Example corpus_not_limited :
  option_map (λ r, match r with inr e => (en_files e).*2 | inl _ => [] end)
    (engine_run 2 (mkRunArgs (chars "picky") picky [[255; 1; 2]] 1 1 None) (λ _, 0) DEFAULT_SEED) = Some [[255; 1; 2]].
Proof. vm_compute. reflexivity. Qed.

(** Without a budget, a run on a target that never panics does not end: the
    case of the driver called with neither [--time] nor [--iters]. *)
Lemma run_without_budget a elapsed seed fuel : args_ok a → ra_iterations a = 0 → ra_time_budget a = None →
  (∀ d, fed a d → ra_f a d = None) → Z.of_nat fuel ≤ u64_max →
  ∃ e, engine_run fuel a elapsed seed = Some (inl e) ∧ st_iterations (en_stats e) = Z.of_nat fuel ∧ en_files e = [].
Proof.
  intros Ha Hi Ht Hf. unfold engine_run.
  assert (∀ fuel i k e, logged a k [] e → 0 ≤ k → k + Z.of_nat fuel ≤ u64_max →
    ∃ e', engine_loop fuel a elapsed i e = Some (inl e') ∧ logged a (k + Z.of_nat fuel) [] e') as H.
  { clear fuel. induction fuel as [|fuel IH]; intros i k e Hl Hk Hb; cbn [engine_loop].
    - exists e. split; [done|]. by rewrite Z.add_0_r.
    - assert (budget_spent a (elapsed i) e = false) as -> by (unfold budget_spent; by rewrite Hi, Ht).
      destruct (engine_iter_ok a k [] e Ha Hl ltac:(lia)) as (e' & stop & d & -> & Hd & [(_ & Hl' & ->)|([p Hp] & _)]); [|by rewrite Hf in Hp].
      cbn [mbind option_bind]. destruct (IH (S i) (k + 1) e' Hl' ltac:(lia) ltac:(lia)) as (e2 & E2 & Hl2). exists e2. split; [done|].
      by replace (k + Z.of_nat (S fuel)) with (k + 1 + Z.of_nat fuel) by lia. }
  intros Hb. destruct (H fuel 0%nat 0 (engine_new seed) (logged_new a seed) ltac:(lia) ltac:(lia)) as (e & E & Hl).
  exists e. split; [exact E|]. by destruct Hl as (-> & _ & _ & -> & _).
Qed.

(** ** The driver's numbers *)

Lemma hex_digit_char k : hex_digit k = hex_char k.
Proof. done. Qed.

(** The hex dump of the driver is the one the other crates print. *)
Lemma hex_print bytes : hex bytes = print_hex bytes.
Proof.
  unfold hex, print_hex. f_equal. apply map_ext. intros b. rewrite Z.shiftr_div_pow2 by lia.
  change 0xf with (Z.ones 4). by rewrite Z.land_ones by lia.
Qed.

Lemma parse_digits_app s t acc : parse_digits (s ++ t) acc = parse_digits s acc ≫= parse_digits t.
Proof. revert acc. induction s as [|c s IH]; intros acc; cbn; [done|]. case_match; [apply IH|done]. Qed.

Lemma parse_decimal fuel n : 0 ≤ n ≤ u64_max → n < 10 ^ Z.of_nat fuel → (0 < fuel)%nat → parse_digits (decimal fuel n) 0 = Some n.
Proof.
  revert n. induction fuel as [|fuel IH]; intros n Hn Hp Hf; [lia|]. cbn [decimal].
  assert (∀ acc d, 0 ≤ d ≤ 9 → 0 ≤ acc → acc * 10 + d ≤ u64_max → parse_digits [48 + d] acc = Some (acc * 10 + d)) as Hd.
  { intros acc d ? ? ?. cbn [parse_digits]. replace (48 + d - 48) with d by lia.
    by rewrite !(proj2 (Z.leb_le _ _)) by lia. }
  destruct (n <? 10) eqn:E; [by rewrite Hd by lia|].
  rewrite Nat2Z.inj_succ, Z.pow_succ_r in Hp by lia. pose proof (Z.div_mod n 10 ltac:(lia)). pose proof (Z.mod_pos_bound n 10 ltac:(lia)).
  destruct fuel as [|fuel]; [cbn in Hp; lia|].
  rewrite parse_digits_app, IH; [|lia|lia|lia]. cbn [mbind option_bind]. rewrite Hd by lia. f_equal. lia.
Qed.

Lemma decimal_head fuel n : (0 < fuel)%nat → 0 ≤ n → ∃ c s, decimal fuel n = c :: s ∧ 48 ≤ c ≤ 57.
Proof.
  revert n. induction fuel as [|fuel IH]; intros n Hf Hn; [lia|]. cbn [decimal]. destruct (n <? 10) eqn:E.
  - exists (48 + n), []. split; [done|lia].
  - pose proof (Z.mod_pos_bound n 10 ltac:(lia)). destruct fuel as [|fuel].
    + cbn. eexists _, []. split; [done|lia].
    + destruct (IH (n / 10)) as (c & s & -> & ?); [lia|apply Z.div_pos; lia|]. by eexists _, _.
Qed.

(** A printed number is read back. *)
Lemma parse_print_u64 n : is_u64 n → parse_u64 (dec_u64 n) = Some n.
Proof.
  intros Hn. unfold dec_u64. destruct (decimal_head 20 n) as (c & s & E & Hc); [lia|unfold is_u64 in Hn; lia|].
  assert (parse_digits (decimal 20 n) 0 = Some n) as Hp by (apply parse_decimal; [done|unfold is_u64, u64_max in Hn; cbn; lia|lia]).
  unfold parse_u64. rewrite E in *. repeat case_match; simplify_eq; try done; lia.
Qed.

(** The options of a run that gives every number. *)
Lemma parse_args_numbers t n s l : is_u64 t → is_u64 n → is_u64 s → is_u64 l →
  parse_args [chars "--time"; dec_u64 t; chars "--iters"; dec_u64 n; chars "--seed"; dec_u64 s; chars "--max-len"; dec_u64 l] options_new =
  Some (mkOptions (Some t) n s l (chars "fuzz-crashes")).
Proof.
  intros Ht Hn Hs Hl. cbn [parse_args]. 
  repeat match goal with |- context [bool_decide (chars ?a = chars ?b)] =>
    let v := eval vm_compute in (bool_decide (chars a = chars b)) in change (bool_decide (chars a = chars b)) with v end.
  cbn beta iota. rewrite !parse_print_u64 by done. done.
Qed.
