(* ===== verification/FuzzTargets.v ===== *)
(** * Fuzz harness: the targets of the message codecs and of the packet pipeline

    Models [fuzz] of [fuzz-harness/src/targets/moq_message.rs],
    [p2p_proto.rs] and [xdp_pipeline.rs] over the definitions of the code they
    call, with the corpus of the last.  A target is an [option unit]: [None] is
    a panic, which the harness counts as a crash.  The theorems show that no
    input makes these three targets panic. *)

From stdpp Require Import strings.
From S2P Require Import Prelude F64 XdpPacket SynFlood ConnTrack Maglev TokenBucket Simulator Bytes RustStr MoqCodec.
From S2P Require Import GmCrypto P2pProto P2pPunch P2pCrypto FuzzEngine.

(** A [for] loop whose body may panic. *)
Fixpoint for_each {A} (f : A → option unit) (l : list A) : option unit :=
  match l with
  | [] => Some tt
  | x :: l' => _ ← f x; for_each f l'
  end.

Lemma for_each_ok {A} (f : A → option unit) l : (∀ x, x ∈ l → f x = Some tt) → for_each f l = Some tt.
Proof.
  induction l as [|x l IH]; intros H; cbn; [done|]. rewrite H by set_solver. cbn. apply IH. set_solver.
Qed.

(** [let _ = r], for a call that returns a result or panics. *)
Definition ignore {A} (r : option A) : option unit := _ ← r; Some tt.

Lemma ignore_ok {A} (r : option A) : is_Some r → ignore r = Some tt.
Proof. by intros [x ->]. Qed.

(** [(a..b).step_by(k)] *)
Definition step_by (a b k : Z) : list Z := map (λ i, a + k * i) (seqZ 0 ((b - a + k - 1) / k)).

Lemma elem_of_step_by x a b k : 0 < k → x ∈ step_by a b k → a ≤ x < b.
Proof.
  intros Hk. unfold step_by. rewrite list_elem_of_fmap. intros (i & -> & Hi). apply elem_of_seqZ in Hi.
  split; [nia|]. assert (k * (i + 1) ≤ b - a + k - 1); [|nia].
  etrans; [|apply (Z.mul_div_le (b - a + k - 1) k Hk)]. apply Z.mul_le_mono_nonneg_l; lia.
Qed.

(** ** moq_message *)

Definition moq_messages : list Message :=
  [Setup PROTO_VERSION Both;
   Announce (chars "live/cam");
   Subscribe 1 1 (mkTrack (chars "live/cam") (chars "video")) LatestGroup 0;
   Goaway (chars "bye");
   GroupHeader (Alias 7) 3;
   GroupHeader (Full (mkTrack (chars "live/cam") (chars "audio"))) 4;
   ObjectMsg (mkObj 0 0 5 1000 (chars "payload"))].

Definition moq_corpus : option (list (list Z)) := mapM message_encode moq_messages.

Definition moq_fuzz (data : list Z) : option unit :=
  let n := Z.min (zlen data) 4096 in
  _ ← for_each (λ i, s ← slice data i (zlen data); ignore (varint_decode s)) (seqZ 0 n);
  r ← message_decode data;
  _ ← (match r with
       | inr msg => enc ← message_encode msg; ignore (message_decode enc)
       | inl _ => Some tt
       end);
  for_each (λ e, s ← slice data 0 e; ignore (message_decode s)) (step_by 1 n 64).

(** ** p2p_proto *)

Definition proto_id : NodeId := replicate 32 3.
Definition proto_cands : Candidates := [(V4 [192; 168; 1; 2] 9000, CAND_PUNCH); (V4 [10; 0; 0; 1] 443, CAND_QUIC)].
Definition loopback6 : SocketAddr := V6 (replicate 15 0 ++ [1]) 1 0 0.

Definition proto_frames : list Frame :=
  [Hello proto_id []; HelloAck (V4 [127; 0; 0; 1] 1234); RelayData proto_id proto_id [1; 2; 3]; FError (chars "x");
   Hello proto_id proto_cands; Hello proto_id (proto_cands ++ [(loopback6, CAND_PUNCH)])].

Definition proto_corpus : list (list Z) :=
  take 4 (map encode proto_frames) ++ [encode_punch_packet proto_id] ++ drop 4 (map encode proto_frames).

Section fuzz.
Context {MP : MeshPrimitives} {PR : Primitives}.

Definition proto_fuzz (data : list Z) : option unit :=
  _ ← ignore (decode data);
  let n := Z.min (zlen data) 256 in
  _ ← for_each (λ e, s ← slice data 0 e; ignore (decode s)) (seqZ 0 n);
  _ ← ignore (decode_punch_packet data);
  let peer := replicate 32 7 in
  let gm_pk := replicate 32 0x42 in
  let sid := replicate 32 0x24 in
  ignore (parse_bind data peer gm_pk sid).

End fuzz.

(** ** xdp_pipeline *)

Definition PKT_LEN : Z := 18.

Definition pkt_bytes (src_ip dst_ip src_port dst_port proto flags len : Z) : list Z :=
  to_le 4 src_ip ++ to_le 4 dst_ip ++ to_le 2 src_port ++ to_le 2 dst_port ++ [proto] ++ [flags] ++ to_le 4 len.

Definition xdp_corpus : list (list Z) :=
  [pkt_bytes 0x0a000001 0x0a000002 1234 443 PROTO_TCP TCP_SYN 60;
   pkt_bytes 0x0a000001 0x0a000002 1234 443 PROTO_TCP TCP_ACK 1500;
   pkt_bytes 0xc0000201 0xc0000202 80 54321 PROTO_TCP (Z.lor TCP_SYN TCP_ACK) 40;
   pkt_bytes 0x0a000001 0x0a000002 9999 53 17 0 512].

Definition xdp_cfg : SimConfig :=
  mkSimConfig (rate_per_sec default_sim_config) (rate_burst default_sim_config) 256 256
    (conntrack_timeout_ns default_sim_config) (syn_window_ns default_sim_config) 8 (syn_ack_ratio default_sim_config).

(** [u32::from_le_bytes(chunk[a..b].try_into().unwrap())] *)
Definition le_field (chunk : list Z) (a b : Z) : option Z := s ← slice chunk a b; Some (from_le s).

Definition packet_of (chunk : list Z) : option Packet :=
  src ← le_field chunk 0 4;
  dst ← le_field chunk 4 8;
  sp ← le_field chunk 8 10;
  dp ← le_field chunk 10 12;
  proto ← vget chunk 12;
  flags ← vget chunk 13;
  len ← le_field chunk 14 18;
  Some (mkPacket (mkFiveTuple src dst sp dp proto) flags len).

Definition advance (now : Z) (chunk : list Z) : option Z :=
  b ← vget chunk 0;
  Some (wrap64 (now + (1000 + b * 1000000))).

Definition xdp_step (st : XdpSimulator * Z) (chunk : list Z) : option (XdpSimulator * Z) :=
  let '(sim, now) := st in
  pkt ← packet_of chunk;
  '(sim, _) ← process pkt now sim;
  now ← advance now chunk;
  Some (sim, now).

(** [chunks_exact(PKT_LEN)]; the fuel is the number of bytes. *)
Fixpoint chunks_exact (fuel : nat) (data : list Z) : list (list Z) :=
  match fuel with
  | O => []
  | S f => if zlen data <? PKT_LEN then []
           else take (Z.to_nat PKT_LEN) data :: chunks_exact f (drop (Z.to_nat PKT_LEN) data)
  end.

Fixpoint xdp_steps (st : XdpSimulator * Z) (chunks : list (list Z)) : option (XdpSimulator * Z) :=
  match chunks with
  | [] => Some st
  | c :: cs => st ← xdp_step st c; xdp_steps st cs
  end.

Definition xdp_fuzz (data : list Z) : option unit :=
  sim ← sim_new xdp_cfg [0x0a000001; 0x0a000002; 0x0a000003] 127;
  '(sim, _) ← xdp_steps (sim, 1000000) (chunks_exact (length data) data);
  if conntrack_len sim <=? conntrack_capacity xdp_cfg then Some tt else None.

(** ** Decoded messages can be encoded *)

Section fits.
Context (N : Z).

Definition fits_str (s : list Z) : Prop := zlen s ≤ N.
Definition fits_int (v : Z) : Prop := 0 ≤ v ≤ VARINT_MAX.

(** Every number of the message is within the range of a varint and every
    string has at most [N] bytes. *)
Definition fits (m : Message) : Prop :=
  match m with
  | Setup v _ => fits_int v
  | Announce s | AnnounceOk s | Goaway s => fits_str s
  | Subscribe i a t _ p => fits_int i ∧ fits_int a ∧ fits_str (tr_namespace t) ∧ fits_str (tr_name t) ∧ is_u8 p
  | SubscribeOk i | Unsubscribe i => fits_int i
  | SubscribeError i c s => fits_int i ∧ fits_int c ∧ fits_str s
  | GroupHeader (Alias a) g => fits_int a ∧ fits_int g
  | GroupHeader (Full t) g => fits_str (tr_namespace t) ∧ fits_str (tr_name t) ∧ fits_int g
  | ObjectMsg o => group_id o = 0 ∧ fits_int (object_id o) ∧ is_u8 (priority o) ∧ fits_int (timestamp_ms o) ∧ fits_str (payload o)
  end.

(** [rd_spec], on a buffer of at most [N] bytes. *)
Definition rd_fits {A} (f : Reader → res MoqCodec.IoError (A * Reader)) (Q : A → Prop) : Prop :=
  ∀ r, rd_ok r → zlen (rd_buf r) ≤ N → ∃ x, f r = Some x ∧
    match x with inl _ => True | inr (a, r') => Q a ∧ rd_ok r' ∧ zlen (rd_buf r') ≤ N end.

Lemma rd_fits_bind {A B} (f : Reader → res MoqCodec.IoError (A * Reader)) Q (g : A * Reader → res MoqCodec.IoError (B * Reader)) P r :
  rd_fits f Q → rd_ok r → zlen (rd_buf r) ≤ N →
  (∀ a r', Q a → rd_ok r' → zlen (rd_buf r') ≤ N →
     ∃ x, g (a, r') = Some x ∧ match x with inl _ => True | inr (b, r'') => P b ∧ rd_ok r'' ∧ zlen (rd_buf r'') ≤ N end) →
  ∃ x, try_bind (f r) g = Some x ∧ match x with inl _ => True | inr (b, r'') => P b ∧ rd_ok r'' ∧ zlen (rd_buf r'') ≤ N end.
Proof.
  intros Hf Hr Hn Hg. destruct (Hf r Hr Hn) as ([e|[a r']] & -> & H); cbn [try_bind]; [by eexists|].
  destruct H as (? & ? & ?). by apply Hg.
Qed.

(** Reading does not change the buffer. *)
Lemma rd_varint_buf r v r' : rd_varint r = ok (v, r') → rd_buf r' = rd_buf r.
Proof.
  unfold rd_varint. intros (s & _ & H)%bind_Some. apply try_bind_ok in H as ([v' n] & _ & H). by injection H as _ <-.
Qed.

Lemma rd_varint_fits : rd_fits rd_varint fits_int.
Proof.
  intros r Hr Hn. destruct (rd_varint_spec r Hr) as ([e|[v r']] & E & H); rewrite E; [by eexists|].
  eexists. split; [done|]. destruct H. apply rd_varint_buf in E. by rewrite E.
Qed.

Lemma rd_bytes_fits : rd_fits rd_bytes fits_str.
Proof.
  intros r Hr Hn. unfold rd_bytes. eapply rd_fits_bind; [apply rd_varint_fits|done|done|].
  intros len r' Hlen [Hb Hp] Hn'. unfold sub_chk. rewrite (proj2 (Z.leb_le _ _)) by lia. cbn [mbind option_bind].
  destruct (Z.ltb_spec (zlen (rd_buf r') - rd_pos r') len); [by eexists|].
  destruct (slice (rd_buf r') _ _) as [o|] eqn:Es; [|unfold fits_int in Hlen; rewrite slice_ok in Es by lia; done]. cbn [mbind option_bind].
  eexists. split; [done|]. apply length_slice in Es. unfold fits_str, rd_ok. unfold fits_int in Hlen. cbn [rd_buf rd_pos]. split_and!; try done; lia.
Qed.

Lemma rd_string_fits : rd_fits rd_string fits_str.
Proof.
  intros r Hr Hn. unfold rd_string. eapply rd_fits_bind; [apply rd_bytes_fits|done|done|].
  intros s r' Hs Hr' Hn'. case_match; eexists; (split; [done|]); [by split_and!|done].
Qed.

Lemma rd_track_fits : rd_fits rd_track (λ t, fits_str (tr_namespace t) ∧ fits_str (tr_name t)).
Proof.
  intros r Hr Hn. unfold rd_track. eapply rd_fits_bind; [apply rd_string_fits|done|done|].
  intros ns r1 ? ? ?. eapply rd_fits_bind; [apply rd_string_fits|done|done|]. intros nm r2 ? ? ?.
  eexists. split; [done|]. by split_and!.
Qed.

Ltac fit_step :=
  match goal with
  | |- ∃ x, try_bind (rd_varint _) _ = _ ∧ _ => eapply rd_fits_bind; [apply rd_varint_fits|done|done|cbn beta; intros ? ? ? ? ?]
  | |- ∃ x, try_bind (rd_string _) _ = _ ∧ _ => eapply rd_fits_bind; [apply rd_string_fits|done|done|cbn beta; intros ? ? ? ? ?]
  | |- ∃ x, try_bind (rd_track _) _ = _ ∧ _ => eapply rd_fits_bind; [apply rd_track_fits|done|done|cbn beta; intros ? ? [? ?] ? ?]
  | |- ∃ x, try_bind (rd_bytes _) _ = _ ∧ _ => eapply rd_fits_bind; [apply rd_bytes_fits|done|done|cbn beta; intros ? ? ? ? ?]
  end.

Lemma decode_payload_fits t : rd_fits (decode_payload t) fits.
Proof.
  intros r Hr Hn. unfold decode_payload, role_from_u64, start_from_u64. repeat case_match.
  all: repeat (fit_step || case_match || (progress cbn [try_bind ok err]) || rewrite try_bind_assoc).
  all: eexists; (split; [reflexivity|]); first [exact I|split; [|by split]].
  all: cbn [fits group_id object_id priority timestamp_ms payload]; split_and?; try done; apply as_u8_is_u8.
Qed.

(** The encoding of a message that fits, and a bound on its payload. *)
Lemma encode_str_ok s out : zlen s ≤ VARINT_MAX → encode_str s out = Some (out ++ vi_bytes (zlen s) ++ s).
Proof. intros H. unfold encode_str. rewrite varint_encode_spec by (pose proof (zlen_nonneg s); lia). cbn. by rewrite app_assoc. Qed.

Lemma encode_payload_fits m : fits m → N ≤ VARINT_MAX → ∃ pl t, encode_payload m = Some (pl, t) ∧ zlen pl ≤ 64 + 2 * Z.max 0 N.
Proof.
  intros Hm HN. pose proof VARINT_MAX_eq as HV.
  assert (∀ v, is_u8 v → fits_int v) as H8 by (unfold is_u8, fits_int, u8_max; lia).
  assert (∀ r, fits_int (role_u64 r)) as Hr by (intros []; unfold fits_int; cbn; lia).
  assert (∀ r, fits_int (start_u64 r)) as Hs by (intros []; unfold fits_int; cbn; lia).
  assert (fits_int REF_ALIAS ∧ fits_int REF_FULL) as [Ha Hf] by (unfold fits_int, REF_ALIAS, REF_FULL; lia).
  assert (∀ s, fits_str s → zlen s ≤ VARINT_MAX) as Hstr by (unfold fits_str; lia).
  assert (∀ s, fits_str s → fits_int (zlen s)) as Hlen by (intros s; pose proof (zlen_nonneg s); unfold fits_str, fits_int; lia).
  destruct m; cbn [fits] in Hm; repeat match goal with H : _ ∧ _ |- _ => destruct H | t : TrackRef |- _ => destruct t end;
    cbn [encode_payload];
    repeat (rewrite varint_encode_spec by (apply Hr || apply Hs || (by apply H8) || (by apply Hlen) || assumption); cbn [mbind option_bind]);
    repeat (rewrite encode_str_ok by auto; cbn [mbind option_bind]);
    repeat (rewrite varint_encode_spec by (apply Hr || apply Hs || (by apply H8) || (by apply Hlen) || assumption); cbn [mbind option_bind]);
    eexists _, _; (split; [reflexivity|]); rewrite ?zlen_app, ?zlen_nil;
    repeat match goal with |- context [zlen (vi_bytes ?v)] => generalize (zlen_vi_bytes v); generalize (zlen (vi_bytes v)); intros ? ? end;
    unfold fits_str in *; repeat match goal with |- context [zlen ?s] => generalize dependent (zlen s); intros ? end; lia.
Qed.

End fits.

Lemma message_decode_inv f m : message_decode f = ok m →
  ∃ t pl r, decode_payload t (mkReader pl 0) = ok (m, r) ∧ zlen pl ≤ zlen f ∧ (Forall is_byte f → Forall is_byte pl).
Proof.
  unfold message_decode. intros ([t n1] & E1 & H)%try_bind_ok. apply bind_Some in H as (f1 & _ & H).
  apply try_bind_ok in H as ([len n2] & _ & H). apply bind_Some in H as (pl & Es & H). case_match; [done|].
  apply try_bind_ok in H as ([m' r] & Ed & H). case_match; [done|]. injection H as <-. exists t, pl, r. split; [done|].
  pose proof (length_slice _ _ _ _ Es). pose proof Es as Es'. apply slice_Some in Es' as (? & ? & ->). split; [lia|].
  intros Hf. by apply Forall_take, Forall_drop.
Qed.

(** A message that was decoded has an encoding, which decodes to it. *)
Lemma reencode_decoded data m : Forall is_byte data → zlen data ≤ 2 ^ 60 → message_decode data = ok m →
  ∃ enc, message_encode m = Some enc ∧ message_decode enc = ok m.
Proof.
  intros Hb Hl E. destruct (message_decode_inv _ _ E) as (t & pl & r & Ed & Hpl & Hbp). specialize (Hbp Hb).
  pose proof VARINT_MAX_eq as HV.
  assert (rd_ok (mkReader pl 0)) as Hok by (split; [done|cbn; pose proof (zlen_nonneg pl); lia]).
  destruct (decode_payload_fits (zlen pl) t (mkReader pl 0) Hok ltac:(cbn; lia)) as (x & Ex & Hx).
  rewrite Ed in Ex. injection Ex as <-. destruct Hx as [Hfit _].
  destruct (message_decode_total data Hb) as (x & Ex & Hwf). rewrite E in Ex. injection Ex as <-.
  destruct (encode_payload_fits (zlen pl) m Hfit ltac:(lia)) as (pl' & t' & Ep & Hz).
  pose proof (encode_payload_type _ _ _ Ep) as Ht. pose proof (zlen_nonneg pl'). pose proof (zlen_nonneg pl).
  assert (∃ enc, message_encode m = Some enc) as [enc Ee].
  { unfold message_encode. rewrite Ep. cbn [mbind option_bind]. rewrite varint_encode_spec by lia. cbn [mbind option_bind].
    rewrite varint_encode_spec by lia. by eexists. }
  exists enc. split; [done|]. rewrite (message_decode_encode m enc Hwf Ee). f_equal.
  destruct m; try done. cbn in Hfit. destruct Hfit as (Hg & _), object. cbn in Hg |- *. by subst.
Qed.

Lemma moq_fuzz_ok data : Forall is_byte data → zlen data ≤ 2 ^ 60 → moq_fuzz data = Some tt.
Proof.
  intros Hb Hl. unfold moq_fuzz.
  assert (∀ a e s, slice data a e = Some s → is_Some (message_decode s)) as Hdec.
  { intros a e s Hs. destruct (message_decode_total s) as (x & -> & _); [by eapply slice_Forall|done]. }
  rewrite (for_each_ok _ (seqZ 0 _)). 2: { intros i Hi%elem_of_seqZ. destruct (slice data i (zlen data)) as [s|] eqn:Es; [|by rewrite slice_ok in Es by lia].
    cbn [mbind option_bind]. apply ignore_ok. destruct (varint_decode_total s) as [->|(? & ? & -> & _)]; [by eapply slice_Forall|done|done]. }
  cbn [mbind option_bind]. destruct (message_decode_total data Hb) as ([e|m] & E & _); rewrite E; cbn [mbind option_bind].
  2: destruct (reencode_decoded data m Hb Hl E) as (enc & -> & Hd); cbn [mbind option_bind]; rewrite (ignore_ok (message_decode enc)) by (by rewrite Hd).
  all: cbn [mbind option_bind]; apply for_each_ok; intros i Hi%elem_of_step_by; [|lia];
    destruct (slice data 0 i) as [s|] eqn:Es; [|rewrite slice_ok in Es by lia; done]; apply ignore_ok, (Hdec 0 i s Es).
Qed.

(** No input makes the target of the MoQ codec panic; a frame that decodes is
    a message whose encoding exists and decodes to the same message. *)
Theorem moq_target_safe data : Forall is_byte data → zlen data ≤ 2 ^ 60 →
  moq_fuzz data = Some tt ∧
  ∀ m, message_decode data = ok m → ∃ enc, message_encode m = Some enc ∧ message_decode enc = ok m.
Proof. intros Hb Hl. split; [by apply moq_fuzz_ok|intros m; by apply reencode_decoded]. Qed.

Lemma moq_target_safe_witness :
  moq_fuzz [2; 3; 2; 104; 105] = Some tt ∧
  ∀ m, message_decode [2; 3; 2; 104; 105] = ok m → ∃ enc, message_encode m = Some enc ∧ message_decode enc = ok m.
Proof. apply (moq_target_safe [2; 3; 2; 104; 105]); [apply (bool_decide_unpack _); by vm_compute|done]. Defined.

(** ** The mesh codecs *)

Lemma punch_decoder_total buf : is_Some (decode_punch_packet buf).
Proof. destruct (decode_punch_spec (replicate 32 0) buf) as (x & -> & _); done. Qed.

Lemma parse_bind_total `{MeshPrimitives} `{Primitives} pt peer pk sid : is_Some (parse_bind pt peer pk sid).
Proof.
  unfold parse_bind. destruct (zlen pt =? 4 + 32 + 64) eqn:E; [|by eexists]. cbn [negb orb].
  destruct (starts_with BIND_PREFIX pt); [|by eexists]. cbn [negb]. rewrite !slice_ok by lia. cbn [mbind option_bind].
  repeat case_match; by eexists.
Qed.

Lemma proto_fuzz_ok `{MeshPrimitives} `{Primitives} data : Forall is_byte data → zlen data + u32_max ≤ u64_max →
  proto_fuzz data = Some tt.
Proof.
  intros Hb Hl. unfold proto_fuzz. rewrite (ignore_ok (decode data)) by by apply decode_total. cbn [mbind option_bind].
  rewrite (for_each_ok _ (seqZ 0 _)). 2: { intros i Hi%elem_of_seqZ. destruct (slice data 0 i) as [s|] eqn:Es; [|rewrite slice_ok in Es by lia; done].
    cbn [mbind option_bind]. apply ignore_ok, decode_total; [by eapply slice_Forall|]. apply length_slice in Es. lia. }
  cbn [mbind option_bind]. rewrite (ignore_ok (decode_punch_packet data)) by apply punch_decoder_total. cbn [mbind option_bind].
  apply ignore_ok, parse_bind_total.
Qed.

(** ** The packet pipeline *)

Lemma lru_lookup_capacity k now a : LruSpec.capacity (LruSpec.lookup k now a).1 = LruSpec.capacity a.
Proof. unfold LruSpec.lookup. by repeat case_match. Qed.

Lemma lru_insert_capacity k v a : LruSpec.capacity (LruSpec.insert k v a) = LruSpec.capacity a.
Proof. unfold LruSpec.insert. by repeat case_match. Qed.

Lemma represents_capacity c a : represents c a → LruSpec.capacity a = ct_capacity c.
Proof. by intros (xs & _ & _ & ? & _). Qed.

Lemma route_capacity pkt now s s' act a : represents (conntrack s) a → ct_evictions (conntrack s) < u64_max →
  route pkt now s = Some (s', act) → ct_capacity (conntrack s') = ct_capacity (conntrack s).
Proof.
  intros Ha He. unfold route. destruct (ct_lookup_represents _ _ (tuple pkt) now Ha) as (ct & -> & Hct). cbn [mbind option_bind].
  assert (ct_capacity ct = ct_capacity (conntrack s)) as Hc.
  { rewrite <-(represents_capacity _ _ Hct), lru_lookup_capacity. by apply represents_capacity. }
  assert (ct_evictions ct < u64_max) as Hev.
  { rewrite <-(represents_evictions _ _ Hct). destruct (lru_lookup_frame (tuple pkt) now a) as [-> _]. by rewrite (represents_evictions _ _ Ha). }
  destruct (LruSpec.lookup (tuple pkt) now a).2 as [e|].
  - intros (st & _ & H)%bind_Some. by injection H as <- _.
  - unfold route_miss. intros (st & _ & H)%bind_Some. apply bind_Some in H as (b & _ & H).
    destruct (ct_insert_represents ct _ (tuple pkt) (mkConnEntry b now) Hct Hev) as (ct' & Ei & Hct'). rewrite Ei in H. cbn [mbind option_bind] in H.
    apply bind_Some in H as (st' & _ & H). injection H as <- _. cbn [conntrack]. rewrite <-Hc, <-(represents_capacity _ _ Hct'), lru_insert_capacity.
    by apply represents_capacity.
Qed.

Lemma process_capacity pkt now s s' act a : represents (conntrack s) a → ct_evictions (conntrack s) < u64_max →
  process pkt now s = Some (s', act) → ct_capacity (conntrack s') = ct_capacity (conntrack s).
Proof.
  intros Ha He. unfold process. intros ([lim ok] & _ & H)%bind_Some. destruct ok; cbn [negb] in H.
  - apply bind_Some in H as ([g fl] & _ & H). destruct fl.
    + apply bind_Some in H as (st & _ & H). by injection H as <- _.
    + eapply (route_capacity _ _ (mkSim lim g (conntrack s) (maglev s) (stats s))); done.
  - apply bind_Some in H as (st & _ & H). by injection H as <- _.
Qed.

Lemma packet_of_ok chunk : zlen chunk = PKT_LEN → is_Some (packet_of chunk).
Proof.
  unfold PKT_LEN. intros H. unfold packet_of, le_field. rewrite !slice_ok by lia. cbn [mbind option_bind].
  destruct (vget_lt_is_Some chunk 12) as [? ->]; [lia|]. destruct (vget_lt_is_Some chunk 13) as [? ->]; [lia|]. by eexists.
Qed.

Lemma chunks_none (data : list Z) : Forall (λ c : list Z, zlen c = PKT_LEN) [] ∧ PKT_LEN * zlen (@nil (list Z)) ≤ zlen data.
Proof. split; [by apply Forall_nil|]. pose proof (zlen_nonneg data). change (zlen (@nil (list Z))) with 0. lia. Qed.

Lemma chunks_exact_len n data : Forall (λ c, zlen c = PKT_LEN) (chunks_exact n data) ∧ PKT_LEN * zlen (chunks_exact n data) ≤ zlen data.
Proof.
  revert data. induction n as [|n IH]; intros data; cbn [chunks_exact]; [by apply chunks_none|].
  destruct (Z.ltb_spec (zlen data) PKT_LEN) as [H|H]; [by apply chunks_none|].
  destruct (IH (drop (Z.to_nat PKT_LEN) data)) as [H1 H2]. unfold PKT_LEN in *.
  assert (zlen (take (Z.to_nat 18) data) = 18) as Ht by (unfold zlen in *; rewrite length_take; lia).
  assert (zlen (drop (Z.to_nat 18) data) = zlen data - 18) as Hd by (unfold zlen in *; rewrite length_drop; lia).
  split; [by constructor|]. rewrite zlen_cons. lia.
Qed.

Lemma steps_ok chunks : ∀ s a now n, 0 ≤ n → n + zlen chunks ≤ u32_max → sim_ok s a → room (n + zlen chunks) s →
  Forall (λ c, zlen c = PKT_LEN) chunks →
  ∃ s' a' now', xdp_steps (s, now) chunks = Some (s', now') ∧ sim_ok s' a' ∧ ct_capacity (conntrack s') = ct_capacity (conntrack s).
Proof.
  induction chunks as [|c cs IH]; intros s a now n Hn Hl Hok Hroom Hf; cbn [xdp_steps]; [by exists s, a, now|].
  apply Forall_cons in Hf as [Hc Hf]. rewrite zlen_cons in *. pose proof (zlen_nonneg cs). unfold xdp_step.
  destruct (packet_of_ok c Hc) as [pkt ->]. cbn [mbind option_bind].
  destruct (process_ok pkt now s a (n + zlen cs)) as (s1 & act & a1 & Ep & Hok1 & Hr1 & _);
    [lia|done|by replace (n + zlen cs + 1) with (n + (1 + zlen cs)) by lia|]. rewrite Ep. cbn [mbind option_bind].
  unfold advance. destruct (vget_lt_is_Some c 0) as [b ->]; [unfold PKT_LEN in Hc; lia|]. cbn [mbind option_bind].
  destruct (IH s1 a1 (wrap64 (now + (1000 + b * 1000000))) n Hn ltac:(lia) Hok1 Hr1 Hf) as (s2 & a2 & now2 & E2 & ? & Hcap).
  exists s2, a2, now2. split; [done|]. split; [done|]. rewrite Hcap. eapply process_capacity; [apply Hok| |done].
  destruct Hroom as [(_ & _ & _ & _ & _ & ?) _]. lia.
Qed.

Lemma represents_len c a : represents c a → ct_len c ≤ ct_capacity c.
Proof. intros (xs & H & _). pose proof (inv_size _ _ H). pose proof (inv_length _ _ H). pose proof (inv_cap _ _ H). pose proof (zlen_nonneg (ct_free c)). lia. Qed.

Lemma xdp_fuzz_ok data : zlen data ≤ u32_max → xdp_fuzz data = Some tt.
Proof.
  intros Hl. unfold xdp_fuzz. destruct (chunks_exact_len (length data) data) as [Hc Hz]. unfold PKT_LEN in Hz.
  set (cs := chunks_exact (length data) data) in *. pose proof (zlen_nonneg cs).
  destruct (sim_new_ok xdp_cfg [0x0a000001; 0x0a000002; 0x0a000003] 127 (0 + zlen cs)) as (s & a & En & Hok & _ & Hroom & _);
    [by vm_compute|lia|by apply is_prime_sound|lia|done|by vm_compute|].
  assert (ct_capacity (conntrack s) = 256) as Hcap.
  { unfold sim_new in En. apply bind_Some in En as (mg & _ & En). apply bind_Some in En as (mg' & _ & En).
    apply bind_Some in En as (ct & Ec & En). injection En as <-. unfold ct_new in Ec. cbn in Ec. by injection Ec as <-. }
  rewrite En. cbn [mbind option_bind].
  destruct (steps_ok cs s a 1000000 0 ltac:(lia) ltac:(lia) Hok Hroom Hc) as (s' & a' & now' & -> & [Hrep _] & Hcap').
  cbn [mbind option_bind]. rewrite (proj2 (Z.leb_le _ _)); [done|]. change (conntrack_capacity xdp_cfg) with 256. rewrite <-Hcap, <-Hcap'.
  by eapply represents_len.
Qed.

(** No input makes the target of the mesh codecs panic. *)
Theorem proto_target_safe `{MeshPrimitives} `{Primitives} data : Forall is_byte data → zlen data + u32_max ≤ u64_max →
  proto_fuzz data = Some tt.
Proof. apply proto_fuzz_ok. Qed.

Lemma proto_target_safe_witness :
  @proto_fuzz toy_mesh toy_primitives (@build_bind toy_mesh toy_primitives (@mkIdentity toy_mesh 9) [7] (replicate 32 1)) = Some tt.
Proof. apply (@proto_target_safe toy_mesh toy_primitives); [apply (bool_decide_unpack _); by vm_compute|by vm_compute]. Defined.

(** No input makes the target of the packet pipeline panic, and its assertion
    that the connection table stays within its capacity holds. *)
Theorem xdp_target_safe data : zlen data ≤ u32_max → xdp_fuzz data = Some tt.
Proof. apply xdp_fuzz_ok. Qed.

Lemma xdp_target_safe_witness : xdp_fuzz (concat xdp_corpus) = Some tt.
Proof. apply (xdp_target_safe (concat xdp_corpus)). by vm_compute. Defined.

(** A simulated packet of the corpus is read back as it was written. *)
Lemma packet_of_pkt_bytes src dst sp dp proto flags len : is_u32 src → is_u32 dst → is_u16 sp → is_u16 dp → is_u32 len →
  zlen (pkt_bytes src dst sp dp proto flags len) = PKT_LEN ∧
  packet_of (pkt_bytes src dst sp dp proto flags len) = Some (mkPacket (mkFiveTuple src dst sp dp proto) flags len).
Proof.
  unfold is_u32, is_u16, u32_max, u16_max. intros H1 H2 H3 H4 H5. split; [done|].
  change (packet_of (pkt_bytes src dst sp dp proto flags len)) with
    (Some (mkPacket (mkFiveTuple (from_le (to_le 4 src)) (from_le (to_le 4 dst)) (from_le (to_le 2 sp)) (from_le (to_le 2 dp)) proto) flags (from_le (to_le 4 len)))).
  by rewrite !from_to_le by (cbn; lia).
Qed.

(** The seeds are well formed: each decodes to the message it was made from. *)
Lemma moq_corpus_decodes : ∃ l, moq_corpus = Some l ∧ message_decode <$> l = ok <$> moq_messages.
Proof. eexists. split; [vm_compute; reflexivity|]. by vm_compute. Qed.

Lemma proto_corpus_decodes :
  decode <$> map encode proto_frames = ok <$> proto_frames ∧
  decode_punch_packet (encode_punch_packet proto_id) = Some (Some proto_id).
Proof. split; by vm_compute. Qed.
