(* ===== verification/FuzzHoma.v ===== *)
(** * Fuzz harness: the target of the Homa transport

    Models [fuzz-harness/src/targets/homa_transport.rs]: the dispatch of a
    packet to the two cores, the loop that feeds their packets back to them,
    and [fuzz], with its corpus.  [None] is a panic.  Addresses and instants
    are as in the models of the cores; [peer] is the address of the other
    side and [now] the instant the run starts at.

    The stream part of the target never feeds a packet: the length of a
    datagram is taken from its first byte, which is also the packet type, and
    a valid type gives a datagram shorter than a header.  The feedback part
    can panic: its message has a fixed id, and an input that is itself a DATA
    packet with that id and another length reaches the unchecked copy of the
    receiver.  On every other input of up to [10240] bytes the target
    returns. *)

From S2P Require Import Prelude Bytes HomaPacket HomaSender HomaReceiver FuzzEngine.

Definition MAX_FUZZ_MSG_LEN : Z := Z.shiftl 1 20.

Definition fuzz_cfg : TransportConfig :=
  mkCfg 1200 10240 4096 1000000 1000000 1000000 1000000 16000000 (send_timeout default_transport_config) 16 2 2000000.

(** The two cores. *)
Record Cores := mkCores { c_send : SenderCore; c_recv : ReceiverCore }.

Definition corpus : list (list Z) :=
  [encode (mkPkt Data 0 1 100 0 3) [97; 98; 99];
   encode (mkPkt Grant 2 1 0 10240 4096) [];
   encode (mkPkt Resend 1 1 0 0 1200) [];
   encode (mkPkt Busy 0 1 0 0 0) [];
   encode (mkPkt Data 0 42 4800 0 1200) (replicate 1200 0xab);
   encode (mkPkt Data 3 7 64 0 64) (replicate 64 0x55)].

Section target.
Context `{!HashOrder MsgKey InMsg} `{!HashOrder MsgKey OutMsg}.

Definition dispatch (src : Z) (pkt : Packet) (payload : list Z) (now : Z) (c : Cores) : option (Cores * list Action) :=
  match typ pkt with
  | Data =>
      if msg_len pkt <=? MAX_FUZZ_MSG_LEN then
        '(r, a) ← handle_data src pkt payload now (c_recv c);
        Some (mkCores (c_send c) r, a)
      else Some (c, [])
  | Grant => '(s, a) ← handle_grant src pkt now (c_send c); Some (mkCores s (c_recv c), a)
  | Resend => '(s, a) ← handle_resend src pkt now (c_send c); Some (mkCores s (c_recv c), a)
  | Busy => Some (mkCores (handle_busy src pkt now (c_send c)) (c_recv c), [])
  end.

(** [if let Ok((pkt, payload)) = Packet::decode(bytes) { dispatch(..) }] *)
Definition feed (src : Z) (bytes : list Z) (now : Z) (c : Cores) : option (Cores * list Action) :=
  d ← decode bytes;
  match d with
  | inl _ => Some (c, [])
  | inr (pkt, payload) => dispatch src pkt payload now c
  end.

Fixpoint echo_back (now : Z) (actions : list Action) (c : Cores) : option (Cores * list Action) :=
  match actions with
  | [] => Some (c, [])
  | Send dest bytes :: rest =>
      '(c, a) ← feed dest bytes now c;
      '(c, b) ← echo_back now rest c;
      Some (c, a ++ b)
  | Deliver _ _ _ :: rest => echo_back now rest c
  end.

(** Parts 1 and 2 for one datagram: feed it and echo what comes back. *)
Definition feed_echo (peer : Z) (bytes : list Z) (now : Z) (c : Cores) : option Cores :=
  '(c, actions) ← feed peer bytes now c;
  '(c, _) ← echo_back now actions c;
  Some c.

(** The length of the datagram at [off]. *)
Definition step_of (data : list Z) (off : Z) : option Z := b ← vget data off; Some (b mod 64 + 1).

Fixpoint stream (n : nat) (peer : Z) (data : list Z) (off now : Z) (c : Cores) : option Cores :=
  match n with
  | O => Some c
  | S n' =>
      if zlen data <=? off then Some c else
      step ← step_of data off;
      let e := Z.min (off + step) (zlen data) in
      s ← slice data off e;
      c ← feed_echo peer s now c;
      stream n' peer data e now c
  end.

(** One round of part 3. *)
Definition round (now : Z) (c : Cores) (actions : list Action) : option (Cores * list Action) :=
  '(c, next) ← echo_back now actions c;
  let t := now + 1000000 in
  '(s, a) ← sender_tick t (c_send c);
  '(r, b) ← receiver_tick t (c_recv c);
  Some (mkCores s r, next ++ a ++ b).

Fixpoint rounds (n : nat) (now : Z) (c : Cores) (actions : list Action) : option Cores :=
  match n with
  | O => Some c
  | S n' => '(c, actions) ← round now c actions; rounds n' now c actions
  end.

Definition FEEDBACK_ID : Z := 0x77777777.

Definition fuzz (peer : Z) (data : list Z) (now : Z) : option unit :=
  let c := mkCores (sender_new fuzz_cfg) (receiver_new fuzz_cfg) in
  c ← feed_echo peer data now c;
  c ← stream 32 peer data 0 now c;
  '(s, actions) ← start_retransmit peer FEEDBACK_ID data now (c_send c);
  c ← rounds 4 now (mkCores s (c_recv c)) actions;
  let s := confirm peer FEEDBACK_ID (c_send c) in
  '(s, a) ← sender_tick (now + 32000000) s;
  '(r, b) ← receiver_tick (now + 32000000) (c_recv c);
  Some tt.

(** ** The stream part feeds nothing *)

Lemma decode_err_short b d : zlen (b :: d) < HEADER_LEN → decode (b :: d) = Some (inl TooShort).
Proof. intros H. unfold decode. by rewrite (proj2 (Z.ltb_lt _ _)) by lia. Qed.

(** A datagram of the stream is too short or of unknown type. *)
Lemma stream_datagram_rejected data off s : Forall is_byte data → 0 ≤ off < zlen data →
  (∃ step, step_of data off = Some step ∧ slice data off (Z.min (off + step) (zlen data)) = Some s) →
  ∃ e, decode s = Some (inl e).
Proof.
  intros Hb Ho (step & Hs & Hsl). unfold step_of in Hs. destruct (vget data off) as [b|] eqn:Ev; [|done]. injection Hs as <-.
  pose proof (Z.mod_pos_bound b 64 ltac:(lia)) as Hm.
  apply slice_Some in Hsl as (_ & _ & Es). apply vget_Some in Ev as [_ Ev].
  pose proof (Forall_lookup_1 _ _ _ _ Hb Ev) as Hbb.
  rewrite (drop_S _ _ _ Ev) in Es.
  assert (∃ k, Z.to_nat (Z.min (off + (b mod 64 + 1)) (zlen data) - off) = S k) as [k Hk].
  { exists (Z.to_nat (Z.min (off + (b mod 64 + 1)) (zlen data) - off - 1)). lia. }
  rewrite Hk in Es. cbn [take] in Es. set (t := take k _) in Es. subst s.
  destruct (Z.ltb_spec (zlen (b :: t)) HEADER_LEN) as [Hl|Hl]; [by eexists; apply decode_err_short|].
  assert (zlen (b :: t) ≤ b mod 64 + 1) as Hlen.
  { rewrite zlen_cons. unfold t, zlen. rewrite length_take. unfold zlen in Hk. lia. }
  assert (4 ≤ b) as H4.
  { unfold HEADER_LEN in Hl. unfold is_byte, is_u8 in Hbb. destruct (Z.lt_ge_cases b 64) as [Hlt|Hge]; [|lia].
    rewrite Z.mod_small in Hlen by lia. lia. }
  exists UnknownType. unfold decode. rewrite (proj2 (Z.ltb_ge _ _)) by lia. change (vget (b :: t) 0) with (Some b). cbn [mbind option_bind].
  unfold from_u8. rewrite !(proj2 (Z.eqb_neq b _)) by lia. done.
Qed.

(** The part of the target that cuts its input into datagrams changes
    nothing, whatever the input. *)
Lemma stream_idle n peer data off now c : Forall is_byte data → 0 ≤ off → stream n peer data off now c = Some c.
Proof.
  intros Hb. revert off. induction n as [|n IH]; intros off Ho; cbn [stream]; [done|].
  destruct (Z.leb_spec (zlen data) off) as [H|H]; [done|].
  destruct (vget_lt_is_Some data off ltac:(lia)) as [b Hv].
  assert (step_of data off = Some (b mod 64 + 1)) as Es by (unfold step_of; by rewrite Hv).
  pose proof (Z.mod_pos_bound b 64 ltac:(lia)). rewrite Es. cbn [mbind option_bind].
  destruct (slice data off _) as [s|] eqn:Esl; [|by rewrite slice_ok in Esl by lia]. cbn [mbind option_bind].
  destruct (stream_datagram_rejected data off s Hb ltac:(lia)) as (e & Ed); [by eexists|].
  unfold feed_echo, feed. rewrite Ed. cbn. apply IH. lia.
Qed.

End target.

Definition in_order : HashOrder MsgKey InMsg := default_order.
Definition out_order : HashOrder MsgKey OutMsg := default_order.
#[local] Existing Instances in_order out_order.

(** The seeds of the corpus are run without a panic. *)
Example corpus_runs : Forall (λ d, fuzz 1 d 0 = Some tt) (take 4 corpus ++ drop 5 corpus).
Proof. repeat (apply Forall_cons; split; [vm_compute; reflexivity|]). apply Forall_nil. done. Qed.

(** An input of 24 bytes that makes the target panic: a DATA packet with the
    id of the feedback message, a claimed length of one byte and a payload of
    two.  The receiver sizes its buffer by the claim and refuses the payload;
    the first packet of the feedback message, 24 bytes long, is then copied
    into it. *)
Definition crash_input : list Z := encode (mkPkt Data 0 FEEDBACK_ID 1 0 2) [0; 0].

Theorem homa_target_crashes : zlen crash_input = 24 ∧ Forall is_byte crash_input ∧ fuzz 1 crash_input 0 = None.
Proof. split; [done|]. split; [apply (bool_decide_unpack _); by vm_compute|vm_compute; reflexivity]. Qed.
