(* ===== verification/FuzzHomaSafe.v ===== *)
(** * Fuzz harness: when the target of the Homa transport returns

    The target of [FuzzHoma] returns on every input of up to [10240] bytes
    that is not itself a DATA packet with the id of the feedback message.  The
    receiver may then hold a message that no sender sent (the input as a
    packet) beside the feedback message; the invariant keeps the two apart. *)

From S2P Require Import Prelude Bytes HomaPacket HomaSender HomaReceiver FuzzEngine FuzzHoma.

Section safe.
Context `{!HashOrder MsgKey InMsg} `{!HashOrder MsgKey OutMsg} (peer : Z) (D : list Z).

Abbreviation key := (peer, FEEDBACK_ID).
Abbreviation ps := 1200.

(** ** The receiver *)

(** What is known of a message in reassembly: enough for the arithmetic of the
    scheduler, and that the feedback message agrees with its data. *)
Definition msg_inv (k : MsgKey) (m : InMsg) : Prop :=
  received_bytes m ≤ total_len m ∧ 0 ≤ unanswered_resends m ≤ MAX_UNANSWERED_RESENDS ∧
  (k = key → 0 < zlen D ∧ in_ok D ps m ∧ complete_msg m = false).

Definition recv_inv (r : ReceiverCore) : Prop :=
  r_cfg r = fuzz_cfg ∧ ∀ k m, incoming r !! k = Some m → msg_inv k m.

(** A packet the target may feed back: a control packet to anyone, or a chunk
    of the feedback message from the peer. *)
Definition chunk_packet (i : Z) : list Z :=
  let e := Z.min (i * ps + ps) (zlen D) in encode (data_header D FEEDBACK_ID (i * ps) e) (sub D (i * ps) e).

Definition fine (a : Action) : Prop :=
  match a with
  | Deliver _ _ _ => True
  | Send dest b => (∃ t prio mid off len, t ≠ Data ∧ b = control_packet t prio mid off len) ∨
      (dest = peer ∧ ∃ i, 0 ≤ i ∧ (i * ps < zlen D ∨ i = 0) ∧ b = chunk_packet i)
  end.

Lemma sends_fine a : Forall is_send a → Forall fine a.
Proof. intros H. eapply Forall_impl; [exact H|]. intros [d b|]; [by left|done]. Qed.

(** Scheduling changes neither what was received nor the resend counters. *)
Definition calm (r r' : ReceiverCore) : Prop :=
  r_cfg r' = r_cfg r ∧ ∀ k m', incoming r' !! k = Some m' →
    ∃ m, incoming r !! k = Some m ∧ core m' = core m ∧ unanswered_resends m' = unanswered_resends m.

Lemma calm_refl r : calm r r.
Proof. split; [done|]. eauto. Qed.

Lemma calm_trans r1 r2 r3 : calm r1 r2 → calm r2 r3 → calm r1 r3.
Proof.
  intros [E1 H1] [E2 H2]. split; [congruence|]. intros k m3 (m2 & Hm2 & ? & ?)%H2. destruct (H1 _ _ Hm2) as (m1 & ? & ? & ?).
  exists m1. split; [done|]. split; congruence.
Qed.

Lemma msg_inv_core k m m' : core m' = core m → unanswered_resends m' = unanswered_resends m → msg_inv k m → msg_inv k m'.
Proof.
  intros E1 E2 (H1 & H2 & H3). unfold msg_inv. assert (received_bytes m' = received_bytes m ∧ total_len m' = total_len m) as [-> ->].
  { destruct m, m'. unfold core in E1. cbn in *. by injection E1 as -> -> -> ->. }
  rewrite E2. split; [done|]. split; [done|]. intros Hk. destruct (H3 Hk) as (? & Hok & ?). destruct (in_ok_core D ps m m' E1 Hok) as [? ->]. done.
Qed.

Lemma recv_inv_calm r r' : calm r r' → recv_inv r → recv_inv r'.
Proof.
  intros [E H] [Ec Hr]. split; [congruence|]. intros k m' (m & Hm & E1 & E2)%H. eapply msg_inv_core; [done|done|]. by apply Hr.
Qed.

Lemma issue_grant_calm k now force r : calm r (issue_grant k now force r).1.
Proof.
  unfold issue_grant. destruct (incoming r !! k) as [m|] eqn:Hm; [|apply calm_refl].
  destruct (_ && _); [apply calm_refl|]. destruct (_ && _); [apply calm_refl|]. split; [done|]. cbn. intros k' m'.
  destruct (decide (k' = k)) as [->|Hn]; [rewrite lookup_insert_eq|rewrite lookup_insert_ne by done; by eauto].
  intros [= <-]. by exists m.
Qed.

Lemma issue_grants_calm keys now r : calm r (issue_grants keys now r).1.
Proof.
  revert r. induction keys as [|k keys IH]; intros r; cbn [issue_grants]; [apply calm_refl|].
  pose proof (issue_grant_calm k now false r) as H1. destruct (issue_grant k now false r) as [r1 a].
  pose proof (IH r1) as H2. destruct (issue_grants keys now r1) as [r2 b]. by eapply calm_trans.
Qed.

Lemma schedule_fine now r : recv_inv r → ∃ r' a, schedule now r = Some (r', a) ∧ recv_inv r' ∧ Forall fine a.
Proof.
  intros Hr. unfold schedule, select.
  assert (is_Some (candidates r)) as [cands ->].
  { unfold candidates. apply mapM_is_Some_2, Forall_forall. intros [k m] [_ Hin]%list_elem_of_filter. rewrite elem_of_hm_iter in Hin.
    destruct (proj2 Hr _ _ Hin) as (? & _). unfold remaining, sub_chk. simpl. rewrite (proj2 (Z.leb_le _ _)) by lia. simpl. eauto. }
  cbn [mbind option_bind]. set (sel := add_starving _ _ _ _).
  pose proof (issue_grants_calm sel now (with_granting sel r)) as F. pose proof (issue_grants_frame sel now (with_granting sel r)) as [_ S].
  destruct (issue_grants sel now _) as [r' a]. do 2 eexists. split; [done|].
  split; [|by apply sends_fine]. eapply recv_inv_calm; [exact F|]. exact Hr.
Qed.

Lemma starve_fine now q r : recv_inv r → ∃ r' a, starve_loop now q r = Some (r', a) ∧ recv_inv r' ∧ Forall fine a.
Proof.
  intros Hr. induction q as [|[t k] q IH]; cbn [starve_loop].
  - do 2 eexists. split; [done|]. split; [exact Hr|apply Forall_nil_2].
  - destruct (now <? t). { do 2 eexists. split; [done|]. split; [exact Hr|apply Forall_nil_2]. }
    destruct (starved now k r); [|done]. apply schedule_fine. exact Hr.
Qed.

(** A message that was just written: complete, or as the invariant wants it. *)
Lemma after_chunk_fine k src now is_new m r : recv_inv (with_incoming (delete k (incoming r)) r) → incoming r !! k = Some m →
  (complete_msg m = false → msg_inv k m) → ∃ r' a, after_chunk k src now is_new m r = Some (r', a) ∧ recv_inv r' ∧ Forall fine a.
Proof.
  intros [Hc Hr] Hm Hi. unfold after_chunk. cbn in Hc. destruct (complete_msg m) eqn:Ec.
  - set (dl := deliver k src (buf m) r). assert (recv_inv dl.1 ∧ Forall fine dl.2) as [Hd1 Hd2].
    { subst dl. unfold deliver. destruct (COMPLETED_CACHE <? _); [destruct (completed_order r ++ [k])|]; (split; [split; [done|exact Hr]|by apply Forall_singleton]). }
    rewrite (surjective_pairing dl). destruct (schedule_fine now dl.1 Hd1) as (r' & a & -> & ? & ?). cbn [mbind option_bind].
    do 2 eexists. split; [done|]. split; [done|]. by apply Forall_app.
  - assert (recv_inv r) as Hrr.
    { split; [done|]. intros k' m' Hk'. destruct (decide (k' = k)) as [->|]; [rewrite Hm in Hk'; injection Hk' as <-; by apply Hi|].
      apply Hr. cbn. by rewrite lookup_delete_ne. }
    assert (∃ r1 a, (if is_new then schedule now r
               else if bool_decide (k ∈ granting r) then Some (issue_grant k now false r)
               else Some (r, [])) = Some (r1, a) ∧ recv_inv r1 ∧ Forall fine a) as (r1 & a & -> & H1 & Ha).
    { destruct is_new; [by apply schedule_fine|]. case_bool_decide.
      - pose proof (issue_grant_calm k now false r) as F. pose proof (issue_grant_frame k now false r) as [_ S].
        destruct (issue_grant _ _ _ _) as [r1 a]. exists r1, a. split; [done|]. split; [by eapply recv_inv_calm|by apply sends_fine].
      - exists r, []. split; [done|]. split; [done|apply Forall_nil_2]. }
    cbn [mbind option_bind]. unfold starve_check. destruct (starve_fine now (starve_queue r1) r1 H1) as (r2 & b & -> & ? & ?).
    cbn [mbind option_bind]. do 2 eexists. split; [done|]. split; [done|]. by apply Forall_app.
Qed.

(** The part of [handle_data] before the chunk is written. *)
Lemma handle_data_new src pkt payload now r : recv_inv r → incoming r !! (src, msg_id pkt) = None →
  0 ≤ msg_len pkt → 0 ≤ offset pkt → (src, msg_id pkt) ≠ key ∨ msg_len pkt = 0 →
  ∃ r' a, handle_data src pkt payload now r = Some (r', a) ∧ recv_inv r' ∧ Forall fine a.
Proof.
  intros [Hc Hr] Hn Hl Ho Hk. unfold handle_data. set (k := (src, msg_id pkt)) in *.
  case_bool_decide; [exists r, []; split; [done|]; split; [by split|apply Forall_nil_2]|].
  destruct (MAX_MSG_LEN <? msg_len pkt); [exists r, []; split; [done|]; split; [by split|apply Forall_nil_2]|].
  rewrite bool_decide_eq_true_2 by done. cbn [andb]. destruct (_ <=? _).
  { do 2 eexists. split; [done|]. split; [by split|]. apply Forall_singleton. left. by exists Busy, 0, (msg_id pkt), 0, 0. }
  cbn [push_starve with_queue incoming r_cfg]. rewrite Hn, Hc. change (packet_size fuzz_cfg) with ps.
  unfold chunk_count. change (ps =? 0) with false. cbv iota. cbn [mbind option_bind].
  set (m0 := fresh_msg _ _ _ _). set (rp := with_incoming _ _).
  destruct (msg_len pkt =? 0) eqn:Ez.
  - set (dl := deliver k src [] rp). assert (recv_inv dl.1 ∧ Forall fine dl.2) as [Hd1 Hd2].
    { subst dl. unfold deliver. destruct (COMPLETED_CACHE <? _); [destruct (completed_order rp ++ [k])|];
        (split; [split; [done|]|by apply Forall_singleton]); cbn; rewrite delete_insert_eq, delete_id by done; exact Hr. }
    rewrite (surjective_pairing dl). destruct (schedule_fine now dl.1 Hd1) as (r' & a & -> & ? & ?). cbn [mbind option_bind].
    do 2 eexists. split; [done|]. split; [done|]. by apply Forall_app.
  - assert (∃ m1, write_chunk ps (offset pkt) (msg_len pkt) payload now m0 = Some m1 ∧ received_bytes m1 ≤ total_len m1 ∧ unanswered_resends m1 = 0) as (m1 & -> & Hm1 & Hu).
    { unfold write_chunk. change (ps =? 0) with false. cbv iota. destruct (vget (received m0) (offset pkt / ps)) as [[|]|] eqn:Ev; cbn [andb].
      1, 3: exists m0; split; [done|]; cbn; lia.
      destruct (Z.leb_spec (offset pkt + zlen payload) (msg_len pkt)) as [Hle|]; [|exists m0; split; [done|]; cbn; lia].
      destruct (copy_into_ok (buf m0) (offset pkt) payload) as [b' ->]; [done|cbn; unfold zlen in *; rewrite length_replicate; lia|]. cbn [mbind option_bind].
      rewrite vset_ok by (by apply vget_bound in Ev). cbn [mbind option_bind]. eexists. split; [done|]. cbn. lia. }
    cbn [mbind option_bind]. destruct (after_chunk_fine k src now true m1 (with_incoming (<[k:=m1]> (incoming rp)) rp)) as (r' & a & E & Hx).
    + split; [done|]. cbn. rewrite insert_insert_eq, delete_insert_eq, delete_id by done. exact Hr.
    + cbn. apply lookup_insert_eq.
    + intros _. split; [done|]. split; [rewrite Hu; unfold MAX_UNANSWERED_RESENDS; lia|]. intros ->. destruct Hk as [Hk|Hk]; [by destruct Hk|lia].
    + exists r', a. done.
Qed.

Hypothesis Hlen : zlen D ≤ 10240.

(** A chunk of the feedback message. *)
Lemma handle_data_chunk pkt i now r : recv_inv r → 0 < zlen D → msg_id pkt = FEEDBACK_ID → msg_len pkt = zlen D → 0 ≤ i → i * ps < zlen D →
  offset pkt = i * ps → ∃ r' a, handle_data peer pkt (chunk D ps i) now r = Some (r', a) ∧ recv_inv r' ∧ Forall fine a.
Proof.
  intros [Hc Hr] HD Hid Hml Hi Hi' Ho. unfold handle_data. rewrite Hid, Hml, Ho.
  case_bool_decide as Hcm; [exists r, []; split; [done|]; split; [by split|apply Forall_nil_2]|].
  change MAX_MSG_LEN with 16777216. rewrite (proj2 (Z.ltb_ge _ _)) by lia.
  set (new := bool_decide (incoming r !! key = None)). destruct (_ && _).
  { do 2 eexists. split; [done|]. split; [by split|]. apply Forall_singleton. left. by exists Busy, 0, FEEDBACK_ID, 0, 0. }
  set (rp := if new then push_starve now key r else r).
  assert (incoming rp = incoming r ∧ r_cfg rp = fuzz_cfg) as [Ei Ec] by (subst rp; by destruct new).
  rewrite Ei, Hc. change (packet_size fuzz_cfg) with ps. change (unscheduled_bytes fuzz_cfg) with 10240.
  assert (∃ m0, (match incoming r !! key with
        | Some m => Some m
        | None => chunks ← chunk_count (zlen D) ps; Some (fresh_msg (zlen D) (Z.min 10240 (zlen D)) chunks now)
        end) = Some m0 ∧ in_ok D ps m0 ∧ 0 ≤ unanswered_resends m0 ≤ MAX_UNANSWERED_RESENDS) as (m0 & -> & Hok & Hu).
  { destruct (incoming r !! key) as [m|] eqn:Hm.
    - destruct (Hr _ _ Hm) as (_ & ? & H3). destruct (H3 eq_refl) as (_ & ? & _). eauto.
    - destruct (chunk_count (zlen D) ps) as [n|] eqn:En; [|done]. destruct (chunk_count_bounds (zlen D) ps n ltac:(lia) HD En) as [_ ?].
      eexists. split; [done|]. split; [apply fresh_in_ok; [lia|done|lia]|done]. }
  cbn [mbind option_bind]. rewrite (proj2 (Z.eqb_neq (zlen D) 0)) by lia.
  destruct (write_chunk_ok D ps m0 i now ltac:(lia) Hok Hi Hi') as (m1 & Ew & Hok1 & _). rewrite Ew. cbn [mbind option_bind].
  assert (unanswered_resends m1 = 0 ∨ unanswered_resends m1 = unanswered_resends m0) as Hu1.
  { unfold write_chunk in Ew. change (ps =? 0) with false in Ew. cbv iota in Ew. destruct (_ && _).
    - apply bind_Some in Ew as (b' & _ & Ew). apply bind_Some in Ew as (rec & _ & Ew). injection Ew as <-. by left.
    - injection Ew as <-. by right. }
  match goal with |- context [after_chunk key peer now new m1 ?x] => set (r1 := x) end.
  assert (incoming r1 = <[key := m1]> (incoming r)) as Ei1 by (subst r1; cbn; by rewrite insert_insert_eq).
  destruct (after_chunk_fine key peer now new m1 r1) as (r' & a & E & Hx).
  - split; [exact Ec|]. cbn [with_incoming incoming]. rewrite Ei1, delete_insert_eq. intros k m [_ Hk]%lookup_delete_Some. by apply Hr.
  - rewrite Ei1. apply lookup_insert_eq.
  - intros Hcp. destruct Hok1 as [Ht Hb Hcc Hby Hs].
    destruct (recv_sum_complete ps (zlen D) (received_bytes m1) (received m1) ltac:(lia) HD Hcc Hs) as [? _].
    split; [lia|]. split; [unfold MAX_UNANSWERED_RESENDS in *; lia|]. intros _. done.
  - exists r', a. done.
Qed.

(** The clock of the receiver. *)
Lemma rtick_key_fine now k r : recv_inv r → ∃ r' a, rtick_key now k r = Some (r', a) ∧ recv_inv r' ∧ Forall fine a.
Proof.
  intros Hi. pose proof Hi as [Hc Hr]. unfold rtick_key. assert (∃ r' a, Some (r, @nil Action) = Some (r', a) ∧ recv_inv r' ∧ Forall fine a) as Hsame.
  { exists r, []. split; [done|]. split; [done|apply Forall_nil_2]. }
  destruct (incoming r !! k) as [m|] eqn:Hm; [|done]. destruct (_ <? _); [done|]. pose proof (Hr _ _ Hm) as Hmi.
  assert (∀ m', core m' = core m → 0 ≤ unanswered_resends m' ≤ MAX_UNANSWERED_RESENDS → recv_inv (with_incoming (<[k := m']> (incoming r)) r)) as Hset.
  { intros m' E Hu. split; [done|]. cbn. intros k' m2. destruct (decide (k' = k)) as [->|]; [rewrite lookup_insert_eq|rewrite lookup_insert_ne by done; apply Hr].
    intros [= <-]. destruct Hmi as (H1 & H2 & H3). assert (received_bytes m' = received_bytes m ∧ total_len m' = total_len m) as [E1 E2].
    { destruct m, m'. unfold core in E. cbn in *. by injection E as -> -> -> ->. }
    split; [by rewrite E1, E2|]. split; [done|]. intros Hk. destruct (H3 Hk) as (? & Hok & ?). destruct (in_ok_core D ps m m' E Hok) as [? ->]. done. }
  set (touch := mkInMsg (total_len m) (buf m) (received m) (received_bytes m) (granted_to m) now (last_grant m) (unanswered_resends m)).
  assert (∃ r' a, (if grant_timeout (r_cfg r) <=? duration_since now (last_progress m) then
      let r := with_incoming (<[k := touch]> (incoming r)) r in
      if bool_decide (k ∈ granting r) then Some (issue_grant k now true r) else Some (r, [])
    else Some (r, [])) = Some (r', a) ∧ recv_inv r' ∧ Forall fine a) as Hstall.
  { destruct (_ <=? _); [|done]. cbv zeta. match goal with |- context [with_incoming ?i r] => set (r1 := with_incoming i r) end.
    assert (recv_inv r1) as Hr1 by (apply Hset; [done|apply Hmi]). case_bool_decide.
    - pose proof (issue_grant_calm k now true r1) as F. pose proof (issue_grant_frame k now true r1) as [_ S].
      destruct (issue_grant _ _ _ _) as [r2 a]. exists r2, a. split; [done|]. split; [by eapply recv_inv_calm|by apply sends_fine].
    - exists r1, []. split; [done|]. split; [done|apply Forall_nil_2]. }
  cbv zeta. destruct (first_missing_offset _ m) as [off|]; [|done]. destruct (off <? granted_to m); [|done].
  destruct Hmi as (H1 & H2 & H3). unfold MAX_UNANSWERED_RESENDS in H2. rewrite add_chk_ok by (unfold u32_max; lia). cbn [mbind option_bind].
  do 2 eexists. split; [done|]. split; [|apply Forall_singleton; left; by eexists Resend, _, _, _, _].
  destruct (Z.ltb_spec MAX_UNANSWERED_RESENDS (unanswered_resends m + 1)).
  - split; [done|]. cbn. rewrite delete_insert_eq. intros k' m' [_ Hk]%lookup_delete_Some. by apply Hr.
  - apply Hset; [done|]. cbn. lia.
Qed.

Lemma rtick_keys_fine now ks : ∀ r, recv_inv r → ∃ r' a, rtick_keys now ks r = Some (r', a) ∧ recv_inv r' ∧ Forall fine a.
Proof.
  induction ks as [|k ks IH]; intros r Hr; cbn [rtick_keys]; [exists r, []; split; [done|]; split; [done|apply Forall_nil_2]|].
  destruct (rtick_key_fine now k r Hr) as (r1 & a & -> & H1 & Ha). cbn [mbind option_bind].
  destruct (IH r1 H1) as (r2 & b & -> & ? & ?). do 2 eexists. split; [done|]. split; [done|]. by apply Forall_app.
Qed.

Lemma receiver_tick_fine now r : recv_inv r → ∃ r' a, receiver_tick now r = Some (r', a) ∧ recv_inv r' ∧ Forall fine a.
Proof.
  intros Hr. unfold receiver_tick. destruct (rtick_keys_fine now (hm_iter (incoming r)).*1 r Hr) as (r1 & a & -> & H1 & Ha). cbn [mbind option_bind].
  destruct (schedule_fine now r1 H1) as (r2 & b & -> & ? & ?). do 2 eexists. split; [done|]. split; [done|]. by apply Forall_app.
Qed.

(** ** The sender *)

(** It has nothing to send, or the whole feedback message behind it. *)
Definition send_inv (n : Z) (s : SenderCore) : Prop :=
  s_cfg s = fuzz_cfg ∧ 0 ≤ retransmits s ≤ n ∧
  (out s = ∅ ∨ ∃ m, out s = {[key := m]} ∧ o_data m = D ∧ next_send m = zlen D ∧ o_granted_to m = zlen D ∧ is_Some (done_at m)).

Lemma chunk_range_bounds i : 0 ≤ i → i * ps < zlen D ∨ i = 0 → 0 ≤ i * ps ≤ Z.min (i * ps + ps) (zlen D).
Proof. pose proof (zlen_nonneg D). lia. Qed.

Lemma chunk_fine dest i st e : dest = peer → 0 ≤ i → i * ps < zlen D ∨ i = 0 → st = i * ps → e = Z.min (st + ps) (zlen D) →
  fine (Send dest (encode (data_header D FEEDBACK_ID st e) (sub D st e))).
Proof. intros -> Hi Hd -> ->. right. split; [done|]. exists i. by split_and!. Qed.

Lemma grant_fine src pkt now n s : send_inv n s → handle_grant src pkt now s = Some (s, []).
Proof.
  intros (_ & _ & [Ho|(m & Ho & Hd & Hn & Hg & _)]); unfold handle_grant; rewrite Ho; [done|].
  destruct (decide (key = (src, msg_id pkt))) as [<-|Hne]; [|by rewrite lookup_singleton_ne].
  rewrite lookup_singleton_eq, Hd, Hg. by rewrite (proj2 (Z.leb_le _ _)) by lia.
Qed.

Lemma send_inv_update n s m m' : send_inv n s → out s = {[key := m]} → o_data m' = D → next_send m' = zlen D → o_granted_to m' = zlen D → is_Some (done_at m') →
  send_inv n (with_out (<[key := m']> (out s)) s).
Proof.
  intros (H1 & H2 & _) Ho ? ? ? ?. split; [done|]. split; [done|]. right. exists m'. split; [|by split_and!]. cbn. by rewrite Ho, insert_singleton_eq.
Qed.

Lemma resend_loop_fine fuel : ∀ off en acts, resend_loop fuel peer FEEDBACK_ID ps D off en = Some acts → 0 ≤ off → en ≤ zlen D → Forall fine acts.
Proof.
  induction fuel as [|fuel IH]; intros off en acts E Ho He; [done|]. cbn [resend_loop] in E.
  destruct (Z.ltb_spec off en) as [Hlt|]; [|injection E as <-; apply Forall_nil_2].
  unfold chunk_range in E. change (ps =? 0) with false in E. cbv iota in E. cbn [mbind option_bind] in E.
  pose proof (Z.mul_div_le off ps ltac:(lia)). pose proof (Z.div_pos off ps ltac:(lia) ltac:(lia)).
  rewrite data_packet_ok in E by lia. cbn [mbind option_bind] in E. apply bind_Some in E as (rest & Er & E). injection E as <-.
  apply Forall_cons. split; [apply (chunk_fine peer (off / ps)); [done|lia|left; lia|done|done]|]. eapply IH; [exact Er|lia|done].
Qed.

Lemma resend_fine src pkt now n s : send_inv n s → 0 ≤ offset pkt → 0 ≤ length_ pkt →
  ∃ s' a, handle_resend src pkt now s = Some (s', a) ∧ send_inv n s' ∧ Forall fine a.
Proof.
  intros Hs Ho Hl. pose proof Hs as (Hcf & _ & [He|(m & Hm & Hd & Hn & Hg & Hdn)]); unfold handle_resend.
  { rewrite He, lookup_empty. exists s, []. split; [done|]. split; [done|apply Forall_nil_2]. }
  rewrite Hm. destruct (decide (key = (src, msg_id pkt))) as [Ek|Hne].
  2: { rewrite lookup_singleton_ne by done. exists s, []. split; [done|]. split; [done|apply Forall_nil_2]. }
  injection Ek as <- <-. rewrite lookup_singleton_eq, Hd, Hcf. change (packet_size fuzz_cfg) with ps. pose proof (zlen_nonneg D).
  set (st := Z.min (offset pkt) (zlen D)). set (en := Z.min (st + length_ pkt) (zlen D)).
  destruct (resend_loop_ok (S (length D)) peer FEEDBACK_ID ps D st en) as (acts & E & _); [lia|lia|lia|unfold zlen in *; lia|].
  rewrite E. cbn [mbind option_bind]. rewrite Hn, (proj2 (Z.ltb_ge (zlen D) en)) by lia. do 2 eexists. split; [done|]. split.
  - rewrite <-Hm. apply (send_inv_update n s m); cbn; try done. lia.
  - eapply resend_loop_fine; [exact E|lia|lia].
Qed.

Lemma busy_fine src pkt now n s : send_inv n s → send_inv n (handle_busy src pkt now s).
Proof.
  intros Hs. pose proof Hs as (_ & _ & [He|(m & Hm & Hd & Hn & Hg & Hdn)]); unfold handle_busy.
  { by rewrite He, lookup_empty. }
  rewrite Hm. destruct (decide (key = (src, msg_id pkt))) as [Ek|Hne]; [|by rewrite lookup_singleton_ne].
  injection Ek as <- <-. rewrite lookup_singleton_eq, <-Hm. by apply (send_inv_update n s m).
Qed.

Lemma sender_tick_fine now n s : send_inv n s → n < u64_max → ∃ s' a, sender_tick now s = Some (s', a) ∧ send_inv (n + 1) s' ∧ Forall fine a.
Proof.
  intros Hs Hu. pose proof Hs as (Hcf & Hrt & Ho). unfold sender_tick.
  set (kept := filter _ (out s)). assert (kept = ∅ ∨ ∃ m, kept = {[key := m]} ∧ out s = {[key := m]} ∧ o_data m = D ∧ next_send m = zlen D ∧ o_granted_to m = zlen D ∧ is_Some (done_at m)) as Hk.
  { subst kept. destruct Ho as [->|(m & Hm & ?)]; [left; apply map_filter_empty|]. rewrite Hm.
    destruct (decide (lingers now (linger (s_cfg s)) m)) as [Hl|Hl].
    - right. exists m. split; [|done]. by rewrite map_filter_singleton_True.
    - left. by rewrite map_filter_singleton_False. }
  destruct Hk as [->|(m & Hk & Hm & Hd & Hn & Hg & Hdn)].
  { assert ((hm_iter (∅ : gmap MsgKey OutMsg)).*1 = []) as ->.
    { apply Permutation_nil_r. rewrite hm_iter_perm. by rewrite map_to_list_empty. }
    cbn [tick_keys]. do 2 eexists. split; [done|]. split; [|apply Forall_nil_2]. split; [done|]. split; [cbn; lia|by left]. }
  assert ((hm_iter kept).*1 = [key]) as ->.
  { apply Permutation_singleton_r. rewrite hm_iter_perm, Hk. by rewrite map_to_list_singleton. }
  cbn [tick_keys]. unfold tick_key. cbn [with_out out s_cfg retransmits]. rewrite Hk, lookup_singleton_eq, bool_decide_eq_true_2 by done.
  rewrite Hd. destruct (_ && _).
  - rewrite Hcf. change (packet_size fuzz_cfg) with ps. pose proof (zlen_nonneg D). rewrite data_packet_ok by lia. cbn [mbind option_bind].
    rewrite add_chk_ok by lia. cbn [mbind option_bind]. do 2 eexists. split; [done|]. split.
    + split; [done|]. split; [cbn; lia|]. right. eexists. cbn. rewrite insert_singleton_eq. split; [done|]. by split_and!.
    + apply Forall_singleton. apply (chunk_fine peer 0); [done|lia|by right|done|lia].
  - cbn [mbind option_bind]. do 2 eexists. split; [done|]. split; [|apply Forall_nil_2]. split; [done|]. split; [cbn; lia|]. right. exists m. done.
Qed.

(** ** Feeding back *)

Lemma decode_control t prio mid off len : t ≠ Data → ∃ p, decode (control_packet t prio mid off len) = Some (inr (p, [])) ∧ typ p = t ∧ 0 ≤ offset p ∧ 0 ≤ length_ p.
Proof.
  intros Ht. unfold control_packet, encode. rewrite decode_fields by apply length_to_le. cbn [typ]. rewrite from_to_u8.
  rewrite bool_decide_eq_false_2 by done. cbn [andb]. eexists. split; [done|]. split; [done|]. cbn [offset length_].
  split; apply from_le_bound, to_le_bytes.
Qed.

Definition inv (n : Z) (c : Cores) : Prop := send_inv n (c_send c) ∧ recv_inv (c_recv c).

(** Control packets go to the sender. *)
Lemma dispatch_control src p pl now n c : typ p ≠ Data → 0 ≤ offset p → 0 ≤ length_ p → inv n c →
  ∃ c' a, dispatch src p pl now c = Some (c', a) ∧ inv n c' ∧ Forall fine a.
Proof.
  intros Ht Ho Hl [Hs Hr]. unfold dispatch. destruct (typ p); [done|..].
  - rewrite (grant_fine _ _ _ _ _ Hs). cbn [mbind option_bind]. do 2 eexists. split; [done|]. split; [by split|apply Forall_nil_2].
  - destruct (resend_fine src p now n _ Hs Ho Hl) as (s' & a & -> & ? & ?). cbn [mbind option_bind]. do 2 eexists. split; [done|]. by split.
  - do 2 eexists. split; [done|]. split; [|apply Forall_nil_2]. split; [by apply busy_fine|done].
Qed.

Lemma feed_fine dest b now n c : fine (Send dest b) → inv n c → ∃ c' a, feed dest b now c = Some (c', a) ∧ inv n c' ∧ Forall fine a.
Proof.
  intros [(t & prio & mid & off & len & Ht & ->)|(-> & i & Hi & Hid & ->)] Hc; unfold feed.
  - destruct (decode_control t prio mid off len Ht) as (p & -> & Hp & ? & ?). cbn [mbind option_bind]. apply dispatch_control; [by rewrite Hp|done..].
  - unfold chunk_packet. pose proof (chunk_range_bounds i Hi Hid). rewrite decode_data by (unfold u32_max, is_u64, u64_max, FEEDBACK_ID; lia).
    cbn [mbind option_bind]. unfold dispatch. cbn [typ msg_len]. change MAX_FUZZ_MSG_LEN with 1048576. rewrite (proj2 (Z.leb_le _ _)) by lia.
    destruct Hc as [Hs Hr]. set (p := mkPkt _ _ _ _ _ _).
    assert (∃ r' a, handle_data peer p (sub D (i * ps) (Z.min (i * ps + ps) (zlen D))) now (c_recv c) = Some (r', a) ∧ recv_inv r' ∧ Forall fine a) as (r' & a & -> & ? & ?).
    { pose proof (zlen_nonneg D). destruct (Z.eq_dec (zlen D) 0) as [Hz|Hz].
      - apply handle_data_new; [done| |cbn; lia|cbn; lia|by right]. destruct (incoming (c_recv c) !! (peer, msg_id p)) as [m|] eqn:Em; [|done].
        destruct (proj2 Hr _ _ Em) as (_ & _ & H3). destruct (H3 eq_refl). lia.
      - apply (handle_data_chunk p i now); try done; lia. }
    cbn [mbind option_bind]. do 2 eexists. split; [done|]. by split.
Qed.

Lemma echo_fine now n acts : ∀ c, Forall fine acts → inv n c → ∃ c' a, echo_back now acts c = Some (c', a) ∧ inv n c' ∧ Forall fine a.
Proof.
  induction acts as [|[dest b|src mid d] acts IH]; intros c Hf Hc; cbn [echo_back]; [exists c, []; split; [done|]; split; [done|apply Forall_nil_2]|..].
  - apply Forall_cons in Hf as [Ha Hf]. destruct (feed_fine dest b now n c Ha Hc) as (c1 & a & -> & H1 & Hfa). cbn [mbind option_bind].
    destruct (IH c1 Hf H1) as (c2 & b2 & -> & ? & ?). cbn [mbind option_bind]. do 2 eexists. split; [done|]. split; [done|]. by apply Forall_app.
  - apply Forall_cons in Hf as [_ Hf]. by apply IH.
Qed.

Lemma rounds_fine k now : ∀ n c acts, Forall fine acts → inv n c → n + Z.of_nat k ≤ u64_max → ∃ c', rounds k now c acts = Some c' ∧ inv (n + Z.of_nat k) c'.
Proof.
  induction k as [|k IH]; intros n c acts Hf Hc Hn; cbn [rounds]; [exists c; split; [done|]; by rewrite Z.add_0_r|].
  unfold round. destruct (echo_fine now n acts c Hf Hc) as (c1 & a1 & -> & [Hs1 Hr1] & Ha1). cbn [mbind option_bind].
  destruct (sender_tick_fine (now + 1000000) n _ Hs1) as (s2 & a2 & -> & Hs2 & Ha2); [lia|]. cbn [mbind option_bind].
  destruct (receiver_tick_fine (now + 1000000) _ Hr1) as (r2 & a3 & -> & Hr2 & Ha3). cbn [mbind option_bind].
  destruct (IH (n + 1) (mkCores s2 r2) (a1 ++ a2 ++ a3)) as (c' & E & Hc'); [by rewrite !Forall_app|by split|lia|].
  exists c'. split; [exact E|]. by replace (n + Z.of_nat (S k)) with (n + 1 + Z.of_nat k) by lia.
Qed.

End safe.

Section target_safe.
Context `{!HashOrder MsgKey InMsg} `{!HashOrder MsgKey OutMsg} (peer : Z) (D : list Z) (Hlen : zlen D ≤ 10240).

Abbreviation key := (peer, FEEDBACK_ID).

(** ** The beginning of a run *)

Lemma chunks_fine n n' acts : chunks key D 1200 n n' acts → (∃ i, 0 ≤ i ∧ n = i * 1200) ∨ n = zlen D → Forall (fine peer D) acts.
Proof.
  induction 1 as [n|n e n' acts Hn He Hc IH]; intros Hi; [apply Forall_nil_2|].
  destruct Hi as [(i & Hi & ->)| ->]; [|lia]. apply Forall_cons. split; [apply (chunk_fine peer D peer i); try done; lia|].
  apply IH. destruct (Z.le_gt_cases (i * 1200 + 1200) (zlen D)); [left; exists (i + 1); lia|right; lia].
Qed.

(** The feedback message is sent whole at once. *)
Lemma start_fine now s : s_cfg s = fuzz_cfg → retransmits s = 0 → out s = ∅ →
  ∃ s' a, start_retransmit peer FEEDBACK_ID D now s = Some (s', a) ∧ send_inv peer D 0 s' ∧ Forall (fine peer D) a.
Proof.
  intros Hc Hr Ho. unfold start_retransmit, start_inner, pump. rewrite Hc. change (unscheduled_bytes fuzz_cfg) with 10240.
  pose proof (zlen_nonneg D). rewrite (Z.min_r 10240) by lia. cbn [with_out out s_cfg]. rewrite lookup_insert_eq. cbn [done_at o_data next_send o_granted_to retransmit].
  rewrite bool_decide_eq_false_2 by (by intros []). rewrite Z.min_id, Hc. change (packet_size fuzz_cfg) with 1200.
  destruct (pump_loop_ok (S (length D)) key 1200 (zlen D) D 0) as (next & acts & -> & Hch & Hb & Hl); [lia|lia|lia|unfold zlen in *; lia|].
  cbn [mbind option_bind]. assert (next = zlen D) as -> by (destruct (0 <? zlen D) eqn:?; lia). rewrite Z.leb_refl, Z.max_id.
  do 2 eexists. split; [done|]. split; [|eapply chunks_fine; [exact Hch|left; exists 0; lia]].
  split; [done|]. split; [cbn; lia|]. right. eexists. cbn. rewrite Ho, insert_insert_eq. split; [done|]. split_and!; done.
Qed.

(** A sender with nothing to send ignores every packet. *)
Lemma dispatch_idle src p pl now c c' a : out (c_send c) = ∅ → dispatch src p pl now c = Some (c', a) → c_send c' = c_send c.
Proof.
  intros Ho. unfold dispatch. destruct (typ p).
  - destruct (_ <=? _); [|by intros [= <- _]]. intros ([r b] & _ & H)%bind_Some. by injection H as <- _.
  - unfold handle_grant. rewrite Ho, lookup_empty. cbn. by intros [= <- _].
  - unfold handle_resend. rewrite Ho, lookup_empty. cbn. by intros [= <- _].
  - unfold handle_busy. rewrite Ho, lookup_empty. by intros [= <- _].
Qed.

Lemma feed_idle src b now c c' a : out (c_send c) = ∅ → feed src b now c = Some (c', a) → c_send c' = c_send c.
Proof.
  intros Ho. unfold feed. intros ([e|[p pl]] & _ & H)%bind_Some; [by injection H as <- _|]. by eapply dispatch_idle.
Qed.

Lemma echo_idle now acts : ∀ c c' a, out (c_send c) = ∅ → echo_back now acts c = Some (c', a) → c_send c' = c_send c.
Proof.
  induction acts as [|[d b|s m x] acts IH]; intros c c' a Ho; cbn [echo_back]; [by intros [= <- _]|..].
  - intros ([c1 a1] & H1 & H)%bind_Some. apply bind_Some in H as ([c2 a2] & H2 & H). injection H as <- _.
    apply feed_idle in H1; [|done]. apply IH in H2; [congruence|by rewrite H1].
  - by apply IH.
Qed.

Definition start_cores : Cores := mkCores (sender_new fuzz_cfg) (receiver_new fuzz_cfg).

Lemma start_inv : inv peer D 0 start_cores.
Proof. split; [split; [done|split; [done|by left]]|]. split; [done|]. intros k m H. change (incoming (c_recv start_cores)) with (∅ : gmap MsgKey InMsg) in H. by rewrite lookup_empty in H. Qed.

(** The input itself as a packet, unless it is one of the feedback message. *)
Lemma first_feed now : Forall is_byte D →
  (∀ p pl, decode D = Some (inr (p, pl)) → typ p = Data → msg_len p ≤ MAX_FUZZ_MSG_LEN → msg_id p ≠ FEEDBACK_ID) →
  ∃ c, feed_echo peer D now start_cores = Some c ∧ inv peer D 0 c ∧ c_send c = sender_new fuzz_cfg.
Proof.
  intros Hb Hid. unfold feed_echo.
  assert (∃ c a, feed peer D now start_cores = Some (c, a) ∧ inv peer D 0 c ∧ Forall (fine peer D) a) as (c1 & a & Ef & H1 & Ha).
  { unfold feed. destruct (Z.ltb_spec (zlen D) HEADER_LEN) as [Hs|Hs].
    { unfold decode. rewrite (proj2 (Z.ltb_lt _ _)) by done. cbn. do 2 eexists. split; [done|]. split; [apply start_inv|apply Forall_nil_2]. }
    destruct (split_header D Hs) as (b0 & b1 & f1 & f2 & f3 & f4 & pl & ED & L1 & L2 & L3 & L4).
    assert (Forall is_byte f2 ∧ Forall is_byte f3 ∧ Forall is_byte f4) as (F2 & F3 & F4).
    { rewrite ED in Hb. rewrite !Forall_cons, !Forall_app in Hb. tauto. }
    pose proof (decode_fields b0 b1 f1 f2 f3 f4 pl L1 L2 L3 L4) as Ed. rewrite <-ED in Ed.
    destruct (from_u8 b0) as [t|]; [|rewrite Ed; cbn; do 2 eexists; split; [done|]; split; [apply start_inv|apply Forall_nil_2]].
    destruct (_ && _); [rewrite Ed; cbn; do 2 eexists; split; [done|]; split; [apply start_inv|apply Forall_nil_2]|].
    set (p := mkPkt _ _ _ _ _ _) in Ed. rewrite Ed. cbn [mbind option_bind].
    assert (0 ≤ msg_len p ∧ 0 ≤ offset p ∧ 0 ≤ length_ p) as (P1 & P2 & P3).
    { subst p. cbn [msg_len offset length_]. split_and!; by apply from_le_bound. }
    destruct (decide (typ p = Data)) as [Et|Et].
    - unfold dispatch. rewrite Et. destruct (Z.leb_spec (msg_len p) MAX_FUZZ_MSG_LEN) as [Hl|]; [|do 2 eexists; split; [done|]; split; [apply start_inv|apply Forall_nil_2]].
      destruct (handle_data_new peer D peer p pl now (c_recv start_cores)) as (r & a & -> & Hr & Ha); [apply start_inv|by apply lookup_empty|done|done| |].
      + left. intros [= E]. by apply (Hid p pl Ed Et Hl).
      + cbn [mbind option_bind]. do 2 eexists. split; [done|]. split; [|done]. split; [apply start_inv|done].
    - apply dispatch_control; try done. apply start_inv. }
  rewrite Ef. cbn [mbind option_bind]. destruct (echo_fine peer D Hlen now 0 a c1 Ha H1) as (c2 & a2 & Ee & H2 & _). rewrite Ee. cbn [mbind option_bind].
  exists c2. split; [done|]. split; [done|]. apply feed_idle in Ef; [|done]. apply echo_idle in Ee; [|by rewrite Ef]. by rewrite Ee, Ef.
Qed.

Lemma confirm_fine n s : send_inv peer D n s → send_inv peer D n (confirm peer FEEDBACK_ID s).
Proof.
  intros Hs. pose proof Hs as (H1 & H2 & [He|(m & Hm & _ & _ & _ & [d Hd])]); unfold confirm.
  - by rewrite He, lookup_empty.
  - rewrite Hm, lookup_singleton_eq, Hd. split; [done|]. split; [done|]. left. cbn. apply delete_singleton_eq.
Qed.

End target_safe.

(** The target of the Homa transport returns on every input of at most
    [10240] bytes (the engine's limit is [8192]) that is not a DATA packet
    with the id of the feedback message; the stream part aside, which feeds
    nothing, that is every packet a peer can send first. *)
Theorem homa_target_safe `{!HashOrder MsgKey InMsg} `{!HashOrder MsgKey OutMsg} peer data now :
  Forall is_byte data → zlen data ≤ 10240 →
  (∀ p pl, decode data = Some (inr (p, pl)) → typ p = Data → msg_len p ≤ MAX_FUZZ_MSG_LEN → msg_id p ≠ FEEDBACK_ID) →
  fuzz peer data now = Some tt.
Proof.
  intros Hb Hl Hid. unfold fuzz. destruct (first_feed peer data Hl now Hb Hid) as (c & E & [Hs Hr] & Es). unfold start_cores in E. rewrite E. cbn [mbind option_bind].
  rewrite stream_idle by done. cbn [mbind option_bind].
  destruct (start_fine peer data Hl now (c_send c)) as (s & acts & -> & Hs1 & Ha); [by rewrite Es..|]. cbn [mbind option_bind].
  destruct (rounds_fine peer data Hl 4 now 0 (mkCores s (c_recv c)) acts Ha) as (c2 & -> & [Hs2 Hr2]); [by split|by unfold u64_max|]. cbn [mbind option_bind].
  destruct (sender_tick_fine peer data (now + 32000000) (0 + Z.of_nat 4) (confirm peer FEEDBACK_ID (c_send c2))) as (s3 & a3 & -> & _); [by apply confirm_fine|by unfold u64_max|].
  cbn [mbind option_bind]. destruct (receiver_tick_fine peer data (now + 32000000) (c_recv c2) Hr2) as (r3 & b3 & -> & _). done.
Qed.

Lemma homa_target_safe_witness :
  @fuzz in_order out_order 1 (encode (mkPkt Data 0 1 100 0 3) [97; 98; 99]) 0 = Some tt.
Proof.
  apply (@homa_target_safe in_order out_order 1 (encode (mkPkt Data 0 1 100 0 3) [97; 98; 99]) 0).
  - apply (bool_decide_unpack _). by vm_compute.
  - by vm_compute.
  - intros p pl E _ _. assert (decode (encode (mkPkt Data 0 1 100 0 3) [97; 98; 99]) = Some (inr (mkPkt Data 0 1 100 0 3, [97; 98; 99]))) as E' by by vm_compute.
    rewrite E' in E. by injection E as <- _.
Defined.
