(* ===== verification/FuzzGm.v ===== *)
(** * Fuzz harness: the target of the GM-PQ handshake

    Models [fuzz-harness/src/targets/gmpq_handshake.rs]: the pool of static
    keys, the eight phases of [fuzz] over the handshake, the early data and
    the cookies of [gm-pq-stack], and the corpus with its valid third
    messages.  [None] is a panic: an [unwrap] or [expect] of an error, a
    failed assertion, or a panic of the code under test.

    The key encapsulation and signature scheme is the interface [Kem] and
    [StaticAuth] of the handshake; the random numbers of the operating system
    and the readings of the clock are arguments. *)

From S2P Require Import Prelude Bytes GmCrypto GmSession GmCookie GmTrust GmKem GmHandshake GmApi.

Section target.
Context {PR : Primitives} {K : Kem} {A : StaticAuth K}.

Definition POOL_SIZE : Z := 8.
Definition PSK : list Z := replicate 32 0x42.

Record KeyPool := mkPool {
  kp_init : list (SecretKey * list Z);
  kp_resp : list (SecretKey * list Z)
}.

(** [.expect(..)] and [.unwrap()] on a result. *)
Definition expect {X} (r : GmError + X) : option X := match r with inr x => Some x | inl _ => None end.

Definition make_pool (rs : list KemRand) : option (list (SecretKey * list Z)) := mapM (λ r, expect (keypair r)) rs.

Definition pool (ri rr : list KemRand) : option KeyPool :=
  i ← make_pool ri;
  r ← make_pool rr;
  Some (mkPool i r).

Definition idx (b : option Z) : Z := default 0 b mod POOL_SIZE.

(** The clock at the three cookie calls. *)
Record Clock := mkFuzzClock { fc_issue : Z; fc_verify : Z; fc_verify2 : Z }.

(** [assert_eq!] and [assert!] *)
Definition assert (b : bool) : option unit := if b then Some tt else None.

(** [get(n..).unwrap_or(&[])] and [get(..n).unwrap_or(l)] *)
Definition tail_from (n : Z) (l : list Z) : list Z := default [] (slice l n (zlen l)).
Definition head_to (n : Z) (l : list Z) : list Z := default l (slice l 0 n).

(** Phase 0: the client reads the input as message 2. *)
Definition phase_msg2 (g : HsRandom) (k : SecretKey * list Z) (body : list Z) : option unit :=
  let i := initiator_new k.1 k.2 in
  '(i, _) ← write_msg1 (hr_e_i g) i;
  '(i, _) ← read_msg2 body i;
  Some tt.

(** Phase 1: the server reads the input as message 1. *)
Definition phase_msg1 (g : HsRandom) (k : SecretKey * list Z) (body : list Z) : option unit :=
  let r := responder_new k.1 k.2 in
  '(r, x) ← read_msg1 body r;
  match x with
  | inr _ => '(r, _) ← write_msg2 (hr_e_r g) (hr_ee g) r; Some tt
  | inl _ => Some tt
  end.

(** Phases 2 and 7: after two valid messages the server reads the input as
    message 3. *)
Definition phase_msg3 (g : HsRandom) (i : Initiator) (r : Responder) (body : list Z) : option unit :=
  '(i, m1) ← completed (write_msg1 (hr_e_i g) i);
  '(r, _) ← completed (read_msg1 m1 r);
  '(r, _) ← completed (write_msg2 (hr_e_r g) (hr_ee g) r);
  '(r, _) ← read_msg3 body r;
  Some tt.

(** Phases 3 and 4: a whole handshake with mutual authentication. *)
Definition phase_golden (g : HsRandom) (i : Initiator) (r : Responder) : option (Initiator * Session * Session) :=
  '(i, m1) ← completed (write_msg1 (hr_e_i g) i);
  '(r, _) ← completed (read_msg1 m1 r);
  '(r, m2) ← completed (write_msg2 (hr_e_r g) (hr_ee g) r);
  '(i, _) ← completed (read_msg2 m2 i);
  '(i, (m3, sess_a)) ← completed (write_msg3_with_auth (hr_se g) (hr_ss g) (hr_sign g) AllowAllAnchor i);
  '(r, (sess_b, _)) ← completed (read_msg3_with_auth m3 AllowAllAnchor r);
  _ ← assert (bool_decide (se_id sess_a = se_id sess_b));
  Some (i, sess_a, sess_b).

(** Phase 5: early data, then the rest of the handshake. *)
Definition phase_early (g : HsRandom) (i : Initiator) (r : Responder) (body : list Z) : option unit :=
  '(i, m1) ← completed (write_msg1 (hr_e_i g) i);
  '(i, sealed) ← completed (seal_early_data body i);
  '(r, _) ← completed (read_msg1 m1 r);
  '(r, opened) ← completed (open_early_data sealed r);
  _ ← assert (bool_decide (opened = body));
  '(r, m2) ← completed (write_msg2 (hr_e_r g) (hr_ee g) r);
  '(i, _) ← completed (read_msg2 m2 i);
  '(i, (m3, _)) ← completed (write_msg3 (hr_se g) (hr_ss g) i);
  '(r, _) ← completed (read_msg3 m3 r);
  Some tt.

(** Phase 6: cookies. *)
Definition phase_cookie (t : Clock) (body : list Z) : option unit :=
  let issuer := cookie_from_secret (replicate 32 0x5e) 60 in
  let legal_tag := replicate 16 0xaa in
  let legal_pk := replicate 65 0xbb in
  let cookie := cookie_issue (fc_issue t) legal_tag legal_pk issuer in
  x ← cookie_verify (fc_verify t) legal_tag legal_pk cookie issuer;
  _ ← assert (match x with inr _ => true | inl _ => false end);
  let f_tag := head_to 16 body in
  let f_pk := tail_from 16 body in
  y ← cookie_verify (fc_verify2 t) f_tag f_pk body issuer;
  Some tt.

Definition fuzz (p : KeyPool) (g : HsRandom) (t : Clock) (data : list Z) : option unit :=
  ki ← vget (kp_init p) (idx (vget data 1));
  kr ← vget (kp_resp p) (idx (vget data 2));
  let phase := default 0 (head data) mod 8 in
  let body := tail_from 3 data in
  if phase =? 0 then phase_msg2 g ki body
  else if phase =? 1 then phase_msg1 g kr body
  else if phase =? 2 then phase_msg3 g (initiator_new ki.1 ki.2) (responder_new kr.1 kr.2) body
  else if phase =? 3 then
    '(i, _, _) ← phase_golden g (initiator_new ki.1 ki.2) (responder_new kr.1 kr.2);
    assert (bool_decide (in_peer_static i = Some kr.2))
  else if phase =? 4 then
    _ ← phase_golden g (initiator_new_with_psk ki.1 ki.2 PSK) (responder_new_with_psk kr.1 kr.2 PSK);
    Some tt
  else if phase =? 5 then
    phase_early g (initiator_new_with_psk ki.1 ki.2 PSK) (responder_new_with_psk kr.1 kr.2 PSK) body
  else if phase =? 6 then phase_cookie t body
  else phase_msg3 g (initiator_new_with_psk ki.1 ki.2 PSK) (responder_new_with_psk kr.1 kr.2 PSK) body.

(** A handshake without authentication, for the third message of the corpus. *)
Definition corpus_msg3 (g : HsRandom) (ri rr : KemRand) : option (list Z) :=
  '(isk, ipk) ← expect (keypair ri);
  '(rsk, rpk) ← expect (keypair rr);
  '(i, m1) ← completed (write_msg1 (hr_e_i g) (initiator_new isk ipk));
  '(r, _) ← completed (read_msg1 m1 (responder_new rsk rpk));
  '(r, m2) ← completed (write_msg2 (hr_e_r g) (hr_ee g) r);
  '(i, _) ← completed (read_msg2 m2 i);
  '(i, (m3, _)) ← completed (write_msg3 (hr_se g) (hr_ss g) i);
  Some m3.

Definition corpus (g : HsRandom) (ri rr : KemRand) : option (list (list Z)) :=
  m3 ← corpus_msg3 g ri rr;
  Some [[]; [0]; [3; 0; 0]; [4; 1; 2]; [5; 2; 1]; [6; 0; 0]; [7; 3; 3]; [2; 0; 0] ++ m3; [7; 0; 0] ++ m3;
        replicate 8 0xab; replicate 32 0xff; replicate 64 0; replicate 128 1].

End target.

Section proofs.
Context {PR : Primitives} {K : Kem} {A : StaticAuth K} {KL : KemLaws K} {AL : StaticAuthLaws K A} {KT : KemTotal K A}.

(** ** A run without authentication *)

(** The third message without a signature: both sides. *)
Lemma plain_msg3 rng_se rng_ss e_r s_i s_r enc k ct_se ss_se ct_ss ss_ss i r :
  in_enc_peer_static i = Some enc → in_peer_eph_pk i = Some (public_of e_r) → in_static_pk i = public_of s_i →
  re_eph_sk r = Some e_r → re_static_sk r = s_r → re_ss r = mix_hash enc (in_ss i) →
  encryption_key INFO_STATIC_ENC (in_ss i) = Some k → open_static (aead_new k) (ss_h (in_ss i)) enc = ok (0, public_of s_r) →
  encapsulate rng_se (public_of e_r) = inr (ct_se, ss_se) → encapsulate rng_ss (public_of s_r) = inr (ct_ss, ss_ss) →
  ∃ i' m3 k1 k2 id r', write_msg3 rng_se rng_ss i = Some (i', inr (m3, session_new k1 k2 id)) ∧
    read_msg3 m3 r = Some (r', inr (session_new k2 k1 id)).
Proof.
  intros He Hp Hpk Hre Hrs Hss Hk Ho H1 H2.
  set (ss := mix_hash ct_ss (mix_hash ct_se (mix_key (ss_se ++ ss_ss) (mix_hash enc (in_ss i))))).
  destruct (encryption_key_ok INFO_STATIC_ENC ss) as [k3 E3].
  destruct (static_roundtrip k3 (ss_h ss) (in_static_pk i)) as (enc_si & E4 & Hl & E5).
  destruct (ss_split_ok (mix_hash enc_si ss)) as (k1 & k2 & E6).
  destruct (msg3_inner_read e_r enc_si k3 k1 k2 ct_se ss_se ct_ss ss_ss (public_of s_i) r) as [r' Er].
  { done. } { by apply encap_len in H1 as [? _]. } { by apply encap_len in H2 as [? _]. } { by eapply encap_decap. }
  { rewrite Hrs. by eapply encap_decap. } { by rewrite Hss. } { by rewrite <-Hpk. } { rewrite Hss, <-Hpk. done. } { by rewrite Hss. }
  rewrite Hss in Er. fold ss in Er.
  eexists _, (ct_se ++ ct_ss ++ enc_si), k1, k2, (ss_h (mix_hash enc_si ss)), r'. split.
  - unfold write_msg3, write_msg3_inner. hrun. rewrite He. hrun. rewrite Hp. hrun. rewrite Hk. hrun. rewrite Ho. hrun. rewrite public_valid. hrun.
    rewrite H1. hrun. rewrite H2. hrun. fold ss. rewrite E3. hrun. rewrite E4. hrun. fold ss. rewrite E6. hrun. reflexivity.
  - unfold read_msg3. rewrite (hbind_step _ _ _ _ _ Er). rewrite (kem_public_len K s_i), Z.eqb_refl. cbn [negb]. rewrite public_valid. hrun. reflexivity.
Qed.

(** The six steps of a run without authentication, from parties that agree. *)
Lemma plain_run g s_i s_r i r : in_ss i = re_ss r → in_eph_sk i = None → in_static_pk i = public_of s_i →
  re_static_sk r = s_r → re_static_pk r = public_of s_r →
  ∃ i1 r1 r2 i2 i3 r3 m1 m2 m3 k1 k2 id, write_msg1 (hr_e_i g) i = Some (i1, inr m1) ∧ read_msg1 m1 r = Some (r1, inr tt) ∧
    in_ss i1 = re_ss r1 ∧ is_Some (in_eph_sk i1) ∧ is_Some (re_peer_eph_pk r1) ∧
    write_msg2 (hr_e_r g) (hr_ee g) r1 = Some (r2, inr m2) ∧ read_msg2 m2 i1 = Some (i2, inr tt) ∧
    write_msg3 (hr_se g) (hr_ss g) i2 = Some (i3, inr (m3, session_new k1 k2 id)) ∧ read_msg3 m3 r2 = Some (r3, inr (session_new k2 k1 id)).
Proof.
  intros Hss He Hpk Hrs Hrp.
  destruct (keypair (hr_e_i g)) as [?|[e_i p_i]] eqn:K1; [by destruct (keypair_total _ _ K1)|]. pose proof (keypair_public _ _ _ K1) as ->.
  destruct (keypair (hr_e_r g)) as [?|[e_r p_r]] eqn:K2; [by destruct (keypair_total _ _ K2)|]. pose proof (keypair_public _ _ _ K2) as ->.
  destruct (encapsulate (hr_ee g) (public_of e_i)) as [?|[ct_ee ss_ee]] eqn:C1; [by destruct (encap_total _ _ _ C1)|].
  destruct (encapsulate (hr_se g) (public_of e_r)) as [?|[ct_se ss_se]] eqn:C2; [by destruct (encap_total _ _ _ C2)|].
  destruct (encapsulate (hr_ss g) (public_of s_r)) as [?|[ct_ss ss_ss]] eqn:C3; [by destruct (encap_total _ _ _ C3)|].
  destruct (msg1_agree _ _ i r Hss He K1) as (ss1 & W1 & R1).
  match type of W1 with _ = Some (?x, _) => set (i1 := x) in W1 end. match type of R1 with _ = Some (?x, _) => set (r1 := x) in R1 end.
  destruct (msg2_agree (hr_e_r g) (hr_ee g) e_i e_r ct_ee ss_ee i1 r1) as (ss2 & enc & k & m2 & W2 & R2 & Hk & Ho); [done..|].
  match type of R2 with _ = Some (?x, _) => set (i2 := x) in R2 end. match type of W2 with _ = Some (?x, _) => set (r2 := x) in W2 end.
  cbn [re_static_pk r1] in Ho. rewrite Hrp in Ho.
  destruct (plain_msg3 (hr_se g) (hr_ss g) e_r s_i s_r enc k ct_se ss_se ct_ss ss_ss i2 r2) as (i3 & m3 & k1 & k2 & id & r3 & W3 & R3); try done.
  exists i1, r1, r2, i2, i3, r3, (public_of e_i), m2, m3, k1, k2, id. split_and!; try done; by eexists.
Qed.

(** ** The phases *)

Lemma fresh_init_ok i : in_enc_peer_static i = None → init_ok i.
Proof. intros H [? E]. by rewrite H in E. Qed.

Lemma init_step {X} c (m : hs Initiator X) i : init_ok i → init_call c i = fst <$> m i → ∃ i' x, m i = Some (i', x) ∧ init_ok i'.
Proof.
  intros Hi E. destruct (init_call_safe c i Hi) as (i' & Ec & Hi'). rewrite E in Ec. apply fmap_Some in Ec as ([j x] & -> & ->). by exists j, x.
Qed.

Lemma resp_step {X} c (m : hs Responder X) r : resp_call c r = fst <$> m r → is_Some (m r).
Proof. intros E. destruct (resp_call_safe c r) as [r' Ec]. rewrite E in Ec. apply fmap_Some in Ec as ([j x] & -> & _). by eexists. Qed.

Lemma phase_msg2_ok g k body : phase_msg2 g k body = Some tt.
Proof.
  unfold phase_msg2. destruct (init_step (CMsg1 (hr_e_i g)) (write_msg1 (hr_e_i g)) (initiator_new k.1 k.2)) as (i & x & -> & Hi); [by apply fresh_init_ok|done|].
  cbn [mbind option_bind]. destruct (init_step (CRead2 body) (read_msg2 body) i Hi) as (i' & y & -> & _); done.
Qed.

Lemma phase_msg1_ok g k body : phase_msg1 g k body = Some tt.
Proof.
  unfold phase_msg1. destruct (resp_step (CRead1 body) (read_msg1 body) (responder_new k.1 k.2) eq_refl) as [[r [e|u]] ->]; cbn [mbind option_bind]; [done|].
  by destruct (resp_step (CMsg2 (hr_e_r g) (hr_ee g)) (write_msg2 (hr_e_r g) (hr_ee g)) r eq_refl) as [[r' x] ->].
Qed.

(** Two parties that start a handshake together. *)
Definition paired (i : Initiator) (r : Responder) : Prop :=
  ∃ psk s_i s_r, i = start_initiator psk s_i ∧ r = start_responder psk s_r.

Lemma paired_run i r : paired i r → ∃ s_i s_r, in_ss i = re_ss r ∧ in_eph_sk i = None ∧ in_static_pk i = public_of s_i ∧
  re_static_sk r = s_r ∧ re_static_pk r = public_of s_r.
Proof. intros (psk & s_i & s_r & -> & ->). exists s_i, s_r. by destruct psk. Qed.

Lemma phase_msg3_ok g i r body : paired i r → phase_msg3 g i r body = Some tt.
Proof.
  intros Hp. destruct (paired_run i r Hp) as (s_i & s_r & H1 & H2 & H3 & H4 & H5).
  destruct (plain_run g s_i s_r i r H1 H2 H3 H4 H5) as (i1 & r1 & r2 & i2 & i3 & r3 & m1 & m2 & m3 & k1 & k2 & id & W1 & R1 & _ & _ & _ & W2 & _).
  unfold phase_msg3. rewrite W1. cbn [completed mbind option_bind]. rewrite R1. cbn [completed mbind option_bind]. rewrite W2. cbn [completed mbind option_bind].
  by destruct (resp_step (CRead3 body) (read_msg3 body) r2 eq_refl) as [[r' x] ->].
Qed.

Lemma phase_golden_ok g psk s_i s_r :
  ∃ i a b, phase_golden g (start_initiator psk s_i) (start_responder psk s_r) = Some (i, a, b) ∧ in_peer_static i = Some (public_of s_r).
Proof.
  destruct (honest_run g g AllowAllAnchor AllowAllAnchor psk s_i s_r) as [H]; [done..|]. destruct H. unfold phase_golden.
  rewrite hn_w1. cbn [completed mbind option_bind]. rewrite hn_d1. cbn [completed mbind option_bind]. rewrite hn_w2. cbn [completed mbind option_bind].
  rewrite hn_d2. cbn [completed mbind option_bind]. rewrite hn_w3. cbn [completed mbind option_bind]. rewrite hn_d3. cbn [completed mbind option_bind].
  unfold assert. rewrite bool_decide_eq_true_2 by done. cbn [mbind option_bind]. by eexists _, _, _.
Qed.

Lemma phase_early_ok g i r body : paired i r → phase_early g i r body = Some tt.
Proof.
  intros Hp. destruct (paired_run i r Hp) as (s_i & s_r & H1 & H2 & H3 & H4 & H5).
  destruct (plain_run g s_i s_r i r H1 H2 H3 H4 H5) as (i1 & r1 & r2 & i2 & i3 & r3 & m1 & m2 & m3 & k1 & k2 & id & W1 & R1 & Hs & He & Hr & W2 & R2 & W3 & R3).
  destruct (early_data_ok body i1 r1 Hs He Hr) as (c & Es & Eo & _). unfold phase_early.
  rewrite W1. cbn [completed mbind option_bind]. rewrite Es. cbn [completed mbind option_bind]. rewrite R1. cbn [completed mbind option_bind].
  rewrite Eo. cbn [completed mbind option_bind]. unfold assert. rewrite bool_decide_eq_true_2 by done. cbn [mbind option_bind].
  rewrite W2. cbn [completed mbind option_bind]. rewrite R2. cbn [completed mbind option_bind]. rewrite W3. cbn [completed mbind option_bind].
  by rewrite R3.
Qed.

(** The clock does not go back by more than five seconds between issuing a
    cookie and checking it, nor forward by more than a minute. *)
Definition clock_steady (t : Clock) : Prop :=
  is_u64 (fc_issue t) ∧ fc_issue t ≤ fc_verify t + 5 ∧ fc_verify t - fc_issue t ≤ 60 ∧ fc_verify t + 5 ≤ u64_max ∧ fc_verify2 t + 5 ≤ u64_max.

Lemma phase_cookie_ok t body : clock_steady t → phase_cookie t body = Some tt.
Proof.
  intros (H1 & H2 & H3 & H4 & H5). unfold phase_cookie.
  destruct (verify_issued (fc_issue t) (fc_verify t) (replicate 16 0xaa) (replicate 65 0xbb) (cookie_from_secret (replicate 32 0x5e) 60) H1 H2 H3) as [_ ->]; [done|done|].
  cbn [mbind option_bind ok assert]. destruct (cookie_verify_total (fc_verify2 t) (head_to 16 body) (tail_from 16 body) body (cookie_from_secret (replicate 32 0x5e) 60) H5) as [y ->]. done.
Qed.

(** ** The pool *)

Lemma make_pool_ok rs : ∃ l, make_pool rs = Some l ∧ length l = length rs ∧ Forall (λ k, k.2 = public_of k.1) l.
Proof.
  unfold make_pool. induction rs as [|r rs (l & E & Hl & Hf)]; [by exists []|]. cbn [mapM].
  destruct (keypair r) as [e|[sk pk]] eqn:Ek; [by destruct (keypair_total _ _ Ek)|]. cbn [expect mbind option_bind]. rewrite E. cbn [mbind option_bind].
  exists ((sk, pk) :: l). split; [done|]. split; [cbn; lia|]. constructor; [|done]. by apply keypair_public in Ek.
Qed.

Lemma pool_pick (l : list (SecretKey * list Z)) b : length l = 8%nat → Forall (λ k, k.2 = public_of k.1) l →
  ∃ sk, vget l (idx b) = Some (sk, public_of sk).
Proof.
  intros Hl Hf. assert (0 ≤ idx b < zlen l) as Hi.
  { unfold idx, POOL_SIZE, zlen. rewrite Hl. apply Z.mod_pos_bound. lia. }
  destruct (vget_lt_is_Some l (idx b) Hi) as [[sk pk] Hv]. exists sk. rewrite Hv. apply vget_Some in Hv as [_ Hv].
  pose proof (Forall_lookup_1 _ _ _ _ Hf Hv) as E. cbn in E. by subst.
Qed.

Lemma paired_new psk s_i s_r : paired (start_initiator psk s_i) (start_responder psk s_r).
Proof. by exists psk, s_i, s_r. Qed.

Lemma fuzz_ok ri rr p g t data : length ri = 8%nat → length rr = 8%nat → pool ri rr = Some p → clock_steady t → fuzz p g t data = Some tt.
Proof.
  intros Hi Hr Hp Ht. unfold pool in Hp. destruct (make_pool_ok ri) as (li & Ei & Li & Fi). destruct (make_pool_ok rr) as (lr & Er & Lr & Fr).
  rewrite Ei, Er in Hp. injection Hp as <-. unfold fuzz. cbn [kp_init kp_resp].
  destruct (pool_pick li (vget data 1)) as [s_i ->]; [congruence|done|]. destruct (pool_pick lr (vget data 2)) as [s_r ->]; [congruence|done|].
  cbn [mbind option_bind fst snd].
  repeat (case_match; [first [apply phase_msg2_ok | apply phase_msg1_ok | by apply phase_cookie_ok | apply phase_msg3_ok, (paired_new None) | idtac]|]).
  - destruct (phase_golden_ok g None s_i s_r) as (i & a & b & E & Hps). cbn [start_initiator start_responder] in E. rewrite E. cbn [mbind option_bind].
    unfold assert. by rewrite bool_decide_eq_true_2.
  - destruct (phase_golden_ok g (Some PSK) s_i s_r) as (i & a & b & E & _). cbn [start_initiator start_responder] in E. by rewrite E.
  - apply phase_early_ok, (paired_new (Some PSK)).
  - apply phase_msg3_ok, (paired_new (Some PSK)).
Qed.

Lemma corpus_ok g ri rr : ∃ l, corpus g ri rr = Some l ∧ length l = 13%nat.
Proof.
  unfold corpus, corpus_msg3. destruct (keypair ri) as [?|[isk ipk]] eqn:K1; [by destruct (keypair_total _ _ K1)|]. pose proof (keypair_public _ _ _ K1) as ->.
  destruct (keypair rr) as [?|[rsk rpk]] eqn:K2; [by destruct (keypair_total _ _ K2)|]. pose proof (keypair_public _ _ _ K2) as ->.
  cbn [expect mbind option_bind].
  destruct (plain_run g isk rsk (initiator_new isk (public_of isk)) (responder_new rsk (public_of rsk)))
    as (i1 & r1 & r2 & i2 & i3 & r3 & m1 & m2 & m3 & k1 & k2 & id & W1 & R1 & _ & _ & _ & W2 & R2 & W3 & _); [done..|].
  rewrite W1. cbn [completed mbind option_bind]. rewrite R1. cbn [completed mbind option_bind]. rewrite W2. cbn [completed mbind option_bind].
  rewrite R2. cbn [completed mbind option_bind]. rewrite W3. cbn [completed mbind option_bind]. by eexists.
Qed.

End proofs.

(** With a scheme that keeps its laws and does not fail, no input makes the
    target of the handshake panic: the six phases that feed the input to a
    reader return, and the assertions on the session identifiers, the peer
    key, the early data and the cookie hold.  The corpus can be built. *)
Theorem gm_target_safe `{Primitives} (K : Kem) (A : StaticAuth K) `{!KemLaws K, !StaticAuthLaws K A, !KemTotal K A} ri rr g t data :
  length ri = 8%nat → length rr = 8%nat → clock_steady t →
  (∃ p, pool ri rr = Some p ∧ fuzz p g t data = Some tt) ∧ ∀ r1 r2, is_Some (corpus g r1 r2).
Proof.
  intros Hi Hr Ht. split.
  - destruct (make_pool_ok ri) as (li & Ei & _). destruct (make_pool_ok rr) as (lr & Er & _).
    assert (pool ri rr = Some (mkPool li lr)) as Hp by (unfold pool; by rewrite Ei, Er).
    exists (mkPool li lr). split; [done|]. exact (fuzz_ok ri rr _ g t data Hi Hr Hp Ht).
  - intros r1 r2. destruct (corpus_ok g r1 r2) as (l & -> & _). by eexists.
Qed.

Definition toy_rands : list (@KemRand toy_hybrid) := replicate 8 (1, 2).

Lemma gm_target_safe_witness :
  (∃ p, @pool toy_hybrid toy_rands toy_rands = Some p ∧
     @fuzz toy_primitives toy_hybrid toy_auth p toy_random (mkFuzzClock 100 101 101) [5; 1; 2; 9; 9] = Some tt) ∧
  ∀ r1 r2, is_Some (@corpus toy_primitives toy_hybrid toy_auth toy_random r1 r2).
Proof.
  apply (@gm_target_safe toy_primitives toy_hybrid toy_auth _ _ _ toy_rands toy_rands toy_random (mkFuzzClock 100 101 101) [5; 1; 2; 9; 9]);
    [reflexivity|reflexivity|]. unfold clock_steady, is_u64, u64_max. cbn [fc_issue fc_verify fc_verify2]. lia.
Defined.
