(* ===== verification/FuzzAll.v ===== *)
(** * Fuzz harness: the registry of targets and whole runs

    Models [fuzz-harness/src/targets/mod.rs]: the record of a target, the
    registry and the lookup by name; and composes the engine with the targets.
    A target that panics is seen by the engine as a payload. *)

From stdpp Require Import strings.
From S2P Require Import Prelude Bytes RustStr HomaSender HomaReceiver GmCrypto GmKem GmHandshake P2pProto P2pPunch P2pCrypto.
From S2P Require Import FuzzEngine FuzzTargets FuzzHoma FuzzHomaSafe FuzzGm.

Record Target := mkTarget {
  tg_name : list Z;
  tg_f : list Z → option unit;
  tg_corpus : list (list Z)
}.

Section registry.
Context {MP : MeshPrimitives} {PR : Primitives} {K : Kem} {A : StaticAuth K}.
Context `{!HashOrder MsgKey InMsg} `{!HashOrder MsgKey OutMsg}.

(** What a run of the harness has from outside: the pool of keys, random
    numbers and clocks of the handshake target, the address and the instant of
    the transport target. *)
Record Outside := mkOutside {
  os_pool : @KeyPool K;
  os_random : @HsRandom K A;
  os_clock : Clock;
  os_init : @KemRand K;
  os_resp : @KemRand K;
  os_peer : Z;
  os_now : Z
}.

Definition all (o : Outside) : option (list Target) :=
  moq ← moq_corpus;
  gm ← FuzzGm.corpus (os_random o) (os_init o) (os_resp o);
  Some [mkTarget (chars "homa_transport") (λ d, FuzzHoma.fuzz (os_peer o) d (os_now o)) FuzzHoma.corpus;
        mkTarget (chars "moq_message") moq_fuzz moq;
        mkTarget (chars "gmpq_handshake") (FuzzGm.fuzz (os_pool o) (os_random o) (os_clock o)) gm;
        mkTarget (chars "p2p_proto") proto_fuzz proto_corpus;
        mkTarget (chars "xdp_pipeline") xdp_fuzz xdp_corpus].

Definition by_name (name : list Z) (o : Outside) : option (option Target) :=
  ts ← all o;
  Some (List.find (λ t, bool_decide (tg_name t = name)) ts).

(** [catch_unwind] around the target. *)
Definition observed (msg : list Z) (f : list Z → option unit) (d : list Z) : option Payload :=
  match f d with Some _ => None | None => Some (PString msg) end.

(** The arguments the driver gives the engine. *)
Definition driver_args (t : Target) (msg : list Z) (o : Options) : RunArgs :=
  mkRunArgs (tg_name t) (observed msg (tg_f t)) (tg_corpus t) (op_max_len o) (op_iters o) ((λ s, s * 1000000000) <$> op_time_secs o).

End registry.

(** ** Runs on targets that do not panic *)

(** A run on a target that returns on every input it is given ends after all
    its iterations, with no crash, no file and exit code [0]. *)
Lemma clean_run a elapsed seed fuel : args_ok a → 0 < ra_iterations a ≤ u64_max → ra_iterations a < Z.of_nat fuel → ra_time_budget a = None →
  (∀ d, fed a d → ra_f a d = None) →
  ∃ e, engine_run fuel a elapsed seed = Some (inr e) ∧ st_iterations (en_stats e) = ra_iterations a ∧
    st_crashes (en_stats e) = 0 ∧ en_files e = [] ∧ exit_code (en_stats e) = 0.
Proof.
  intros Ha Hi Hf Ht Hsafe.
  destruct (engine_loop_ok a elapsed Ha Hi fuel 0 0 [] (engine_new seed) (logged_new a seed)) as (e & k & ds & E & Hl & Hc & Hk & Hend); [done|lia|lia|].
  destruct Hl as (H1 & H2 & H3 & H4 & H5 & H6).
  assert (ds = []) as ->. { destruct ds as [|d ds]; [done|]. apply Forall_cons in H5 as [[Hd [p Hp]] _]. by rewrite Hsafe in Hp. }
  exists e. split; [exact E|]. split.
  - destruct Hend as [->|[Hz|(b & j & Hb & _)]]; [done|done|]. by rewrite Ht in Hb.
  - split; [done|]. split; [done|]. unfold exit_code. cbn in H6. by rewrite H6.
Qed.

Section runs.
Context {MP : MeshPrimitives} {PR : Primitives} {K : Kem} {A : StaticAuth K} {KL : KemLaws K} {AL : StaticAuthLaws K A} {KT : KemTotal K A}.
Context `{!HashOrder MsgKey InMsg} `{!HashOrder MsgKey OutMsg}.

Definition options_of (max_len iters : Z) : Options := mkOptions None iters DEFAULT_SEED max_len (chars "fuzz-crashes").

(** The corpus of a target is made of bytes and every entry is short. *)
Definition corpus_small (t : Target) : Prop := Forall (λ b, Forall is_byte b ∧ zlen b ≤ u32_max) (tg_corpus t).

Lemma target_run t msg max_len iters elapsed fuel : corpus_small t → 0 ≤ max_len ≤ u32_max → 0 < iters ≤ u64_max → iters < Z.of_nat fuel →
  (∀ d, Forall is_byte d → zlen d ≤ u32_max → tg_f t d = Some tt) →
  ∃ e, engine_run fuel (driver_args t msg (options_of max_len iters)) elapsed DEFAULT_SEED = Some (inr e) ∧
    st_iterations (en_stats e) = iters ∧ st_crashes (en_stats e) = 0 ∧ en_files e = [] ∧ exit_code (en_stats e) = 0.
Proof.
  intros Hc Hm Hi Hf Hs. apply (clean_run (driver_args t msg (options_of max_len iters))); try done.
  - split; [|cbn; unfold u32_max, u64_max in *; lia]. cbn. eapply Forall_impl; [exact Hc|]. intros b [? ?]. split; [done|]. unfold u32_max, u64_max in *. lia.
  - intros d [Hb Hd]. cbn in Hd |- *. unfold observed. rewrite Hs; [done|done|]. destruct Hd as [Hd|Hd]; [|lia].
    by apply (proj1 (Forall_forall _ _) Hc).
Qed.

Definition xdp_target : Target := mkTarget (chars "xdp_pipeline") xdp_fuzz xdp_corpus.

(** The registry can be built, whatever the outside. *)
Lemma all_xdp (o : Outside) : ∃ ts, all o = Some ts ∧ xdp_target ∈ ts.
Proof.
  unfold all. destruct moq_corpus_decodes as (l & -> & _). cbn [mbind option_bind].
  destruct (corpus_ok (os_random o) (os_init o) (os_resp o)) as (g & -> & _). cbn [mbind option_bind].
  eexists. split; [reflexivity|]. apply list_elem_of_lookup_2 with 4%nat. reflexivity.
Qed.

End runs.

(** Every target of the registry but the transport's: a run of the harness
    with an iteration budget ends after all its iterations with no crash, no
    file and exit code [0], whatever the clock, the limit on the length and
    the fixed outside of the run. *)
Theorem harness_runs_clean `{MeshPrimitives} `{Primitives} (K : Kem) (A : StaticAuth K) `{!KemLaws K, !StaticAuthLaws K A, !KemTotal K A}
    `{!HashOrder MsgKey InMsg} `{!HashOrder MsgKey OutMsg} ri rr (o : Outside) ts t msg max_len iters elapsed fuel :
  length ri = 8%nat → length rr = 8%nat → pool ri rr = Some (os_pool o) → clock_steady (os_clock o) →
  all o = Some ts → t ∈ ts → tg_name t ≠ chars "homa_transport" → corpus_small t →
  0 ≤ max_len ≤ u32_max → 0 < iters ≤ u64_max → iters < Z.of_nat fuel →
  ∃ e, engine_run fuel (driver_args t msg (options_of max_len iters)) elapsed DEFAULT_SEED = Some (inr e) ∧
    st_iterations (en_stats e) = iters ∧ st_crashes (en_stats e) = 0 ∧ en_files e = [] ∧ exit_code (en_stats e) = 0.
Proof.
  intros Hi Hr Hp Ht Ha Hin Hn Hc Hm Hit Hf. apply target_run; try done.
  unfold all in Ha. apply bind_Some in Ha as (moq & _ & Ha). apply bind_Some in Ha as (gm & _ & Ha). injection Ha as <-.
  intros d Hb Hl. repeat (apply elem_of_cons in Hin as [->|Hin]); [done|..|by apply not_elem_of_nil in Hin]; cbn [tg_f].
  - apply moq_fuzz_ok; [done|]. unfold u32_max in Hl. lia.
  - by apply (fuzz_ok ri rr).
  - apply proto_fuzz_ok; [done|]. unfold u32_max, u64_max in *. lia.
  - by apply xdp_fuzz_ok.
Qed.

(** A concrete outside, with the toy schemes. *)
Definition toy_pool : @KeyPool toy_hybrid := default (mkPool [] []) (pool toy_rands toy_rands).
Definition toy_outside : @Outside toy_hybrid toy_auth :=
  @mkOutside toy_hybrid toy_auth toy_pool toy_random (mkFuzzClock 100 101 101) (1, 2) (3, 4) 1 0.

Lemma toy_pool_eq : pool toy_rands toy_rands = Some (os_pool toy_outside).
Proof.
  change (os_pool toy_outside) with (default (mkPool [] []) (pool toy_rands toy_rands)).
  destruct (make_pool_ok (A := toy_auth) toy_rands) as (l & E & _). unfold pool. rewrite E. reflexivity.
Qed.

Lemma toy_all_xdp : ∃ ts, @all toy_mesh toy_primitives toy_hybrid toy_auth in_order out_order toy_outside = Some ts ∧ xdp_target ∈ ts.
Proof. exact (all_xdp toy_outside). Qed.

Lemma harness_runs_clean_witness : ∃ e, engine_run 11 (driver_args xdp_target [] (options_of 64 10)) (λ _, 0) DEFAULT_SEED = Some (inr e) ∧
  st_iterations (en_stats e) = 10 ∧ st_crashes (en_stats e) = 0 ∧ en_files e = [] ∧ exit_code (en_stats e) = 0.
Proof.
  destruct toy_all_xdp as (ts & E & Hin).
  refine (@harness_runs_clean toy_mesh toy_primitives toy_hybrid toy_auth _ _ _ in_order out_order toy_rands toy_rands toy_outside ts xdp_target [] 64 10 (λ _, 0) 11
    eq_refl eq_refl toy_pool_eq _ E Hin _ _ _ _ _).
  - unfold clock_steady, is_u64, u64_max. cbn [os_clock toy_outside fc_issue fc_verify fc_verify2]. lia.
  - discriminate.
  - apply (bool_decide_unpack _). by vm_compute.
  - unfold u32_max. lia.
  - unfold u64_max. lia.
  - lia.
Defined.
