(* ===== verification/GmRng.v ===== *)
(** * The operating system's random source

    Models [gm-pq-stack/src/rng.rs]: the adapter [SysRng] over [getrandom] with
    the interface the key generation takes.  What the system answers is an
    argument: a state, and for a number of bytes either those bytes or an error
    that may carry a number.  [None] is a panic. *)

From S2P Require Import Prelude Bytes.

Definition i32_max : Z := 2147483647.
Definition is_i32 (x : Z) : Prop := - i32_max - 1 ≤ x ≤ i32_max.

(** [getrandom::fill]: a buffer is filled whole or not at all, and the number
    in an error is the [i32] of the system. *)
Class OsRandom (St : Type) := {
  os_fill : Z → St → (option Z + list Z) * St;
  os_fill_bytes n s b s' : 0 ≤ n → os_fill n s = (inr b, s') → zlen b = n ∧ Forall is_byte b;
  os_fill_error n s e s' : os_fill n s = (inl (Some e), s') → is_i32 e
}.

Section rng.
Context {St : Type} {OS : OsRandom St}.

Definition fill_bytes (n : Z) (s : St) : option (list Z * St) :=
  match os_fill n s with
  | (inr b, s') => Some (b, s')
  | (inl _, _) => None
  end.

Definition next_u32 (s : St) : option (Z * St) :=
  '(b, s') ← fill_bytes 4 s;
  Some (from_le b, s').

Definition next_u64 (s : St) : option (Z * St) :=
  '(b, s') ← fill_bytes 8 s;
  Some (from_le b, s').

(** [NonZeroU32::new] *)
Definition non_zero (x : Z) : option Z := if x =? 0 then None else Some x.

(** The code of an error: the absolute value of the system's number, and 1 if
    there is none or it is 0. *)
Definition error_code (e : option Z) : Z := default 1 (non_zero (Z.abs (default 0 e))).

Definition try_fill_bytes (n : Z) (s : St) : (Z + list Z) * St :=
  match os_fill n s with
  | (inr b, s') => (inr b, s')
  | (inl e, s') => (inl (error_code e), s')
  end.

(** [NonZeroU32]: a code is never 0 and fits 32 bits, also for the smallest
    [i32], whose absolute value is no [i32]. *)
Lemma error_code_range e : (∀ x, e = Some x → is_i32 x) → 1 ≤ error_code e ≤ u32_max.
Proof.
  intros H. unfold error_code, non_zero. destruct e as [x|]; cbn [default from_option id]; [|done].
  specialize (H x eq_refl). unfold is_i32, i32_max in H. unfold u32_max.
  destruct (Z.abs x =? 0) eqn:E; cbn [default from_option id]; [lia|]. apply Z.eqb_neq in E. lia.
Qed.

Lemma next_u32_eq s : next_u32 s = match os_fill 4 s with (inr b, s') => Some (from_le b, s') | _ => None end.
Proof. unfold next_u32, fill_bytes. by destruct (os_fill 4 s) as [[]]. Qed.
Lemma next_u64_eq s : next_u64 s = match os_fill 8 s with (inr b, s') => Some (from_le b, s') | _ => None end.
Proof. unfold next_u64, fill_bytes. by destruct (os_fill 8 s) as [[]]. Qed.

(** A drawn number is made of the system's bytes and of nothing else: it has
    the system's bytes as its little-endian form, so each of them is in it. *)
Lemma drawn_bytes n s b s' : 0 ≤ n → os_fill n s = (inr b, s') → 0 ≤ from_le b < 256 ^ n ∧ to_le (Z.to_nat n) (from_le b) = b.
Proof.
  intros Hn E. destruct (os_fill_bytes _ _ _ _ Hn E) as [Hl Hb]. rewrite <- Hl. split; [by apply from_le_bound|].
  unfold zlen. rewrite Nat2Z.id. by apply to_from_le.
Qed.

End rng.

(** No weak randomness.  If the system fills the buffer, [fill_bytes] and
    [try_fill_bytes] return exactly its bytes, as many as were asked for, and
    the numbers are those bytes, all of them; if the system fails, the methods
    without a result panic and [try_fill_bytes] returns a code that is not
    0. *)
Theorem no_weak_randomness {St : Type} {OS : OsRandom St} (n : Z) (s : St) : 0 ≤ n →
  (∀ b s', os_fill n s = (inr b, s') →
     zlen b = n ∧ fill_bytes n s = Some (b, s') ∧ try_fill_bytes n s = (inr b, s')) ∧
  (∀ e s', os_fill n s = (inl e, s') →
     fill_bytes n s = None ∧ ∃ c, try_fill_bytes n s = (inl c, s') ∧ 1 ≤ c ≤ u32_max) ∧
  (∀ x s', next_u32 s = Some (x, s') ↔ is_u32 x ∧ os_fill 4 s = (inr (to_le 4 x), s')) ∧
  (∀ x s', next_u64 s = Some (x, s') ↔ is_u64 x ∧ os_fill 8 s = (inr (to_le 8 x), s')).
Proof.
  intros Hn. split; [|split; [|split]].
  - intros b s' E. unfold fill_bytes, try_fill_bytes. rewrite E. destruct (os_fill_bytes _ _ _ _ Hn E). done.
  - intros e s' E. unfold fill_bytes, try_fill_bytes. rewrite E. split; [done|]. eexists. split; [done|].
    apply error_code_range. intros x ->. by eapply os_fill_error.
  - intros x s'. rewrite next_u32_eq. split.
    + destruct (os_fill 4 s) as [[e|b] s1] eqn:E; [done|]. intros [= <- <-]. destruct (drawn_bytes 4 s b s1 ltac:(done) E) as [Hr Hb].
      change (Z.to_nat 4) with 4%nat in Hb. rewrite Hb. split; [|done]. unfold is_u32, u32_max. lia.
    + intros [Hx ->]. unfold is_u32, u32_max in Hx. rewrite from_to_le by (change (Z.of_nat 4) with 4; lia). done.
  - intros x s'. rewrite next_u64_eq. split.
    + destruct (os_fill 8 s) as [[e|b] s1] eqn:E; [done|]. intros [= <- <-]. destruct (drawn_bytes 8 s b s1 ltac:(done) E) as [Hr Hb].
      change (Z.to_nat 8) with 8%nat in Hb. rewrite Hb. split; [|done]. unfold is_u64, u64_max. lia.
    + intros [Hx ->]. unfold is_u64, u64_max in Hx. rewrite from_to_le by (change (Z.of_nat 8) with 8; lia). done.
Qed.

(** A source that counts, and fails with the smallest [i32] at 3. *)
#[global, refine] Instance toy_os : OsRandom Z :=
  { os_fill n s := if s =? 3 then (inl (Some (-2147483648)), s) else (inr (to_le (Z.to_nat n) s), s + 1) }.
Proof.
  - intros n s b s' Hn. destruct (s =? 3); [done|]. intros [= <- <-]. split; [|apply to_le_bytes]. unfold zlen. rewrite length_to_le. lia.
  - intros n s e s'. destruct (s =? 3); [|done]. intros [= <- <-]. done.
Defined.

Example toy_draws : next_u32 (St := Z) 258 = Some (258, 259) ∧ next_u64 (St := Z) 3 = None ∧ try_fill_bytes (St := Z) 8 3 = (inl 2147483648, 3).
Proof. done. Qed.

Lemma no_weak_randomness_witness :
  (∀ b s', os_fill (St := Z) 5 7 = (inr b, s') → zlen b = 5 ∧ fill_bytes (St := Z) 5 7 = Some (b, s') ∧ try_fill_bytes (St := Z) 5 7 = (inr b, s')) ∧
  os_fill (St := Z) 5 7 = (inr [7; 0; 0; 0; 0], 8).
Proof. split; [|done]. apply (no_weak_randomness (St := Z) 5 7). done. Defined.
