(* ===== verification/P2pFiles.v ===== *)
(** * Files of a node: the identity seed and the pin file

    Models the file operations of [p2p-mesh/src/identity/mod.rs] ([seed_bytes],
    [save], [load], [load_or_generate]) and [PinFileAnchor::from_file] of
    [gm-pq-stack/src/trust.rs].

    A file is its bytes and its permission bits.  What the operating system
    does is an argument: whether a file can be opened for writing, after how
    many bytes a write fails, whether the permissions can be changed, and the
    permissions a new file gets ([0o666] less the process' mask).  Every system
    call leaves a state of the file system, so that what others can read in
    between is visible.  The Unix build is modelled: on Windows the call that
    changes the permissions is left out. *)

From stdpp Require Import strings.
From S2P Require Import Prelude Bytes RustStr GmCrypto GmTrust P2pProto P2pCrypto P2pMcp.

(** ** The file system *)

Definition FsPath : Type := list Z.

Record File := mkFile { f_bytes : list Z; f_mode : Z }.

Abbreviation Fs := (gmap FsPath File).

Inductive FsError :=
  | NotFound
  | Denied
  | WriteFailed
  | InvalidFile.

(** What the system does with a write: the file can be opened, the bytes after
    which writing fails, the permissions can be changed, the file can be
    opened for reading, and the mask of the process. *)
Record Disk := mkDisk {
  dk_open : bool;
  dk_fails_after : option nat;
  dk_chmod : bool;
  dk_read : bool;
  dk_umask : Z
}.

(** [0o666 & !umask] *)
Definition new_mode (d : Disk) : Z := Z.ldiff 438 (dk_umask d).
(** [0o600] *)
Definition PRIVATE : Z := 384.

(** Others than the owner may read: bits [0o044]. *)
Definition others_read (mode : Z) : bool := negb (Z.land mode 36 =? 0).

(** [std::fs::write]: create or truncate, then write.  The states after the
    calls, the last one first, and the result. *)
Definition fs_write (p : FsPath) (bytes : list Z) (d : Disk) (fs : Fs) : list Fs * (FsError + unit) :=
  if negb (dk_open d) then ([], inl Denied) else
  let mode := match fs !! p with Some f => f_mode f | None => new_mode d end in
  let fs1 := <[p := mkFile [] mode]> fs in
  match dk_fails_after d with
  | Some n => ([<[p := mkFile (take n bytes) mode]> fs; fs1], inl WriteFailed)
  | None => ([<[p := mkFile bytes mode]> fs; fs1], inr tt)
  end.

(** [std::fs::set_permissions] *)
Definition fs_chmod (p : FsPath) (mode : Z) (d : Disk) (fs : Fs) : list Fs * (FsError + unit) :=
  if negb (dk_chmod d) then ([], inl Denied) else
  match fs !! p with
  | Some f => ([<[p := mkFile (f_bytes f) mode]> fs], inr tt)
  | None => ([], inl NotFound)
  end.

(** [std::fs::read] *)
Definition fs_read (p : FsPath) (d : Disk) (fs : Fs) : FsError + list Z :=
  if negb (dk_read d) then inl Denied else
  match fs !! p with Some f => inr (f_bytes f) | None => inl NotFound end.

(** The state after a list of calls. *)
Definition after (fs : Fs) (states : list Fs) : Fs := default fs (head states).

(** [std::fs::read_to_string] *)
Definition fs_read_to_string (p : FsPath) (d : Disk) (fs : Fs) : FsError + list Z :=
  match fs_read p d fs with
  | inl e => inl e
  | inr b => if utf8_valid b then inr (from_utf8_lossy b) else inl InvalidFile
  end.

(** ** The identity *)

(** [SigningKey::to_bytes] gives back the seed that [from_bytes] took. *)
Class SeedBytes (MP : MeshPrimitives) := {
  key_bytes : SigningKey → list Z;
  key_bytes_seed s : zlen s = 32 → Forall is_byte s → key_bytes (from_seed s) = s
}.

Section identity.
Context {MP : MeshPrimitives} {SB : SeedBytes MP}.

(** [SigningKey::generate] draws a seed of 32 bytes. *)
Definition generate (drawn : list Z) : NodeIdentity := mkIdentity (from_seed drawn).

Definition seed_bytes (me : NodeIdentity) : list Z := key_bytes (ni_sk me).

Definition save (me : NodeIdentity) (p : FsPath) (d : Disk) (fs : Fs) : list Fs * (FsError + unit) :=
  let w := fs_write p (seed_bytes me) d fs in
  match w.2 with
  | inl e => (w.1, inl e)
  | inr _ =>
      let c := fs_chmod p PRIVATE d (after fs w.1) in
      (c.1 ++ w.1, c.2)
  end.

(** [None] is a panic of [copy_from_slice]. *)
Definition load (p : FsPath) (d : Disk) (fs : Fs) : res FsError NodeIdentity :=
  match fs_read p d fs with
  | inl e => err e
  | inr raw =>
      if negb (zlen raw =? 32) then err InvalidFile else
      seed ← (if zlen raw =? 32 then Some raw else None);
      ok (identity_from_seed seed)
  end.

Definition load_or_generate (drawn : list Z) (p : FsPath) (d : Disk) (fs : Fs) : option (list Fs * (FsError + NodeIdentity)) :=
  match fs !! p with
  | Some _ => r ← load p d fs; Some ([], r)
  | None =>
      let id := generate drawn in
      let w := save id p d fs in
      Some (w.1, match w.2 with inl e => inl e | inr _ => inr id end)
  end.

End identity.

(** ** The pin file *)

Inductive PinError := PinIo (e : FsError) | PinInvalid (e : GmError).

(** [PinFileAnchor::from_file] *)
Definition from_file (p : FsPath) (d : Disk) (fs : Fs) : res PinError PinFileAnchor :=
  match fs_read_to_string p d fs with
  | inl e => err (PinIo e)
  | inr s =>
      r ← pin_parse s;
      Some (match r with inl e => inl (PinInvalid e) | inr a => inr a end)
  end.

(** ** What the identity file promises *)

(** A disk that does what it is asked. *)
Definition good_disk (d : Disk) : Prop := dk_open d = true ∧ dk_fails_after d = None ∧ dk_chmod d = true.

Section promises.
Context {MP : MeshPrimitives} {SB : SeedBytes MP}.

Lemma good_write p bytes d fs : good_disk d →
  ∃ s, fs_write p bytes d fs = (s, inr tt) ∧ after fs s = <[p := mkFile bytes (default (new_mode d) (f_mode <$> fs !! p))]> fs.
Proof. intros (H1 & H2 & _). unfold fs_write. rewrite H1, H2. cbn [negb]. eexists. split; [done|]. by destruct (fs !! p). Qed.

Lemma save_states me p d fs : good_disk d →
  ∃ s, save me p d fs = (s, inr tt) ∧ after fs s = <[p := mkFile (seed_bytes me) PRIVATE]> fs ∧
    <[p := mkFile (seed_bytes me) (default (new_mode d) (f_mode <$> fs !! p))]> fs ∈ s.
Proof.
  intros Hd. destruct (good_write p (seed_bytes me) d fs Hd) as (s & E & Ha). unfold save. rewrite E. cbn [fst snd]. unfold fs_chmod.
  destruct Hd as (H1 & H2 & ->). rewrite Ha, lookup_insert_eq. cbn [negb fst snd f_bytes]. eexists. split; [done|].
  split; [cbn; by rewrite insert_insert_eq|]. rewrite elem_of_app. right. unfold fs_write in E. rewrite H1, H2 in E. cbn [negb] in E. simplify_eq.
  destruct (fs !! p); left.
Qed.

Lemma load_saved (seed : list Z) p d fs mode : dk_read d = true → zlen seed = 32 → fs !! p = Some (mkFile seed mode) → load p d fs = ok (identity_from_seed seed).
Proof. intros Hr Hl H. unfold load, fs_read. rewrite Hr, H. cbn [negb f_bytes]. by rewrite Hl. Qed.

(** A file of another length is refused. *)
Lemma load_bad_length p d fs f : dk_read d = true → fs !! p = Some f → zlen (f_bytes f) ≠ 32 → load p d fs = err InvalidFile.
Proof. intros Hr H Hl. unfold load, fs_read. rewrite Hr, H. cbn [negb]. by rewrite (proj2 (Z.eqb_neq _ _) Hl). Qed.

(** [load] never panics. *)
Lemma load_total p d fs : is_Some (load p d fs).
Proof. unfold load. destruct (fs_read p d fs); [by eexists|]. destruct (zlen l =? 32); cbn; by eexists. Qed.

End promises.

(** The identity of a node is stable.  With a disk that works,
    [load_or_generate] on a path without a file makes the identity of the
    drawn seed and leaves a file that only the owner can read; from then on
    every call that can read the file returns that identity, whatever it
    would have drawn, and writes nothing, also when the disk no longer can be
    written.  A file of another length than 32 bytes is refused by every call
    and never replaced. *)
Theorem identity_stable {MP : MeshPrimitives} {SB : SeedBytes MP} (seed seed' : list Z) p d d' fs :
  good_disk d → dk_read d' = true → zlen seed = 32 → Forall is_byte seed → fs !! p = None →
  (∃ s, load_or_generate seed p d fs = Some (s, inr (identity_from_seed seed)) ∧
     f_mode <$> after fs s !! p = Some PRIVATE ∧
     load_or_generate seed' p d' (after fs s) = Some ([], inr (identity_from_seed seed))) ∧
  (∀ f fs', fs' !! p = Some f → zlen (f_bytes f) ≠ 32 → load_or_generate seed' p d' fs' = Some ([], inl InvalidFile)).
Proof.
  intros Hd Hr Hl Hb Hn. split.
  - destruct (save_states (identity_from_seed seed) p d fs Hd) as (s & E & Ha & _). exists s.
    unfold load_or_generate. rewrite Hn. unfold generate. fold (identity_from_seed seed). rewrite E. split; [done|].
    rewrite Ha, lookup_insert_eq. split; [done|].
    unfold seed_bytes, identity_from_seed at 1. cbn [ni_sk]. rewrite (key_bytes_seed seed Hl Hb).
    by rewrite (load_saved seed p d' _ PRIVATE Hr Hl) by apply lookup_insert_eq.
  - intros f fs' Hf Hlen. unfold load_or_generate. rewrite Hf. by rewrite (load_bad_length p d' fs' f Hr Hf Hlen).
Qed.

Section exposure.
Context {MP : MeshPrimitives} {SB : SeedBytes MP}.

(** Between the write and the change of the permissions the whole seed is in a
    file that has the permissions of any new file. *)
Lemma seed_exposed (me : NodeIdentity) p d fs : good_disk d → fs !! p = None →
  ∃ s r mid, save me p d fs = (s, r) ∧ mid ∈ s ∧ mid !! p = Some (mkFile (seed_bytes me) (new_mode d)).
Proof.
  intros Hd Hn. destruct (save_states me p d fs Hd) as (s & E & _ & Hin). rewrite Hn in Hin. eexists s, _, _. split; [exact E|].
  split; [exact Hin|apply lookup_insert_eq].
Qed.

(** With the usual mask [0o022] others may read it then. *)
Lemma usual_mask_exposes d : dk_umask d = 18 → others_read (new_mode d) = true.
Proof. unfold new_mode. by intros ->. Qed.

(** A write that fails part-way leaves a short file, and no later call of
    [load_or_generate] recovers. *)
Lemma failed_save_persists (seed seed' : list Z) p d d' fs n :
  dk_open d = true → dk_fails_after d = Some n → (n < 32)%nat → dk_read d' = true → fs !! p = None →
  ∃ s, load_or_generate seed p d fs = Some (s, inl WriteFailed) ∧ load_or_generate seed' p d' (after fs s) = Some ([], inl InvalidFile).
Proof.
  intros H1 H2 Hlt Hr Hn. unfold load_or_generate at 1. rewrite Hn. unfold save, fs_write. rewrite H1, H2, Hn. cbn [negb fst snd].
  eexists. split; [done|]. unfold load_or_generate. cbn [after head hd_error default from_option id]. rewrite lookup_insert_eq.
  erewrite load_bad_length; [done|exact Hr|apply lookup_insert_eq|]. cbn [f_bytes]. unfold zlen. rewrite length_take. lia.
Qed.

End exposure.

(** ** What the pin file promises *)

(** Without a readable file of text there is no anchor: an error, not an anchor
    without keys. *)
Lemma from_file_unreadable p d fs e : fs_read_to_string p d fs = inl e → from_file p d fs = err (PinIo e).
Proof. unfold from_file. by intros ->. Qed.

(** An anchor comes from the text of the file. *)
Lemma from_file_ok p d fs a : from_file p d fs = ok a ↔
  ∃ f, dk_read d = true ∧ fs !! p = Some f ∧ utf8_valid (f_bytes f) = true ∧ pin_parse (from_utf8_lossy (f_bytes f)) = ok a.
Proof.
  unfold from_file, fs_read_to_string, fs_read. destruct (dk_read d); cbn [negb].
  2: { split; [done|]. by intros (? & ? & _). }
  destruct (fs !! p) as [f|]; [|split; [done|by intros (? & _ & ? & _)]].
  destruct (utf8_valid (f_bytes f)) eqn:Hv.
  2: { split; [done|]. intros (? & _ & [= <-] & ? & _). congruence. }
  split.
  - intros H. exists f. do 3 (split; [done|]). apply bind_Some in H as ([e|a'] & -> & Heq); by simplify_eq.
  - intros (f' & _ & [= <-] & _ & ->). done.
Qed.

(** ** A run *)

(** The toy keys are numbers of 256 bits, the seeds their bytes. *)
#[global, refine] Instance toy_seed_bytes : SeedBytes toy_mesh := { key_bytes := λ k : Z, to_be 32 k }.
Proof. intros s Hl Hb. unfold zlen in Hl. replace 32%nat with (length s) by lia. by apply to_from_be. Defined.

Definition a_disk : Disk := mkDisk true None true true 18.
Definition full_disk : Disk := mkDisk true (Some 5%nat) true true 18.
Definition a_path : FsPath := [110].

Lemma identity_stable_witness :
  (∃ s, load_or_generate (MP := toy_mesh) (repeat 7 32) a_path a_disk ∅ = Some (s, inr (identity_from_seed (repeat 7 32))) ∧
     f_mode <$> after ∅ s !! a_path = Some PRIVATE ∧
     load_or_generate (MP := toy_mesh) (repeat 9 32) a_path full_disk (after ∅ s) = Some ([], inr (identity_from_seed (repeat 7 32)))) ∧
  (∀ f fs', fs' !! a_path = Some f → zlen (f_bytes f) ≠ 32 → load_or_generate (MP := toy_mesh) (repeat 9 32) a_path full_disk fs' = Some ([], inl InvalidFile)).
Proof. apply (identity_stable (MP := toy_mesh)); [done..| |done]. apply (bool_decide_unpack _). by vm_compute. Defined.
