(* ===== verification/P2pStart.v ===== *)
(** * Starting and stopping a node

    Models [Node::start] of [crates/p2p-mesh/src/node.rs] with the tasks it
    spawns, [NodeConfig::new], and [GmIdentity::generate] and
    [new_cookie_issuer] of [gmpq.rs].

    [start] is a function of what it is given by the outside: the results of
    the system calls, the answer of the relay, the random source, the files.
    It returns what it did up to its end, also when it ends with an error: the
    bytes written to the relay, the tasks spawned and the events sent.  [None]
    is a panic.  The tasks then run as a system of their own ([Host]): the
    timer of the probes, the loop that accepts QUIC connections, the actor (at
    the granularity of its channels; its handlers are in [P2pNode]) and the
    handle.  What [quinn] and [tokio] document is built in: [Endpoint::accept]
    ends only after [Endpoint::close], [tokio::time::interval] panics for a
    period of zero, and its ticks are a period apart, late ones at once. *)

From S2P Require Import Prelude Bytes F64 P2pProto P2pPunch P2pPath P2pCrypto P2pRelay P2pMcp.
From S2P Require Import RustStr GmCrypto GmSession GmCookie GmTrust GmKem GmHandshake GmRng P2pNode P2pFiles.

(** ** Configuration *)

Record StartConfig := mkStart {
  sc_relay_addr : SocketAddr;
  sc_advertise : option Candidates;
  sc_punch_tick : Duration;
  sc_pin_file : option FsPath;
  sc_node : NodeConfig
}.

Definition ms : Z := 1000000.

(** [NodeConfig::new] *)
Definition config_new (relay_addr : SocketAddr) : StartConfig :=
  mkStart relay_addr None (100 * ms) None (mkConfig true 20 (1000 * ms) false).

(** ** What [start] does *)

Inductive StartError :=
  | StBind
  | StEndpoint
  | StTcp
  | StConnect (e : ConnectError)
  | StPin (e : PinError).

Inductive StartEvent :=
  | StRegistered (relay observed : SocketAddr)
  | StGmFailed.

Inductive Task :=
  | TReader (rd : NetIn)
  | TAccept
  | TTimer (period : Duration)
  | TActor.

Record Trace := mkTrace {
  tr_written : list Z;
  tr_tasks : list Task;
  tr_events : list StartEvent
}.

Section start.
Context {MP : MeshPrimitives} {PR : Primitives} {K : Kem} {SA : StaticAuth K}.
Context {St : Type} {OS : OsRandom St}.
Context (feature : bool).

(** The outside: the ports of the two sockets, whether the endpoint and the
    connection to the relay can be made, the host's addresses, how much the
    connection takes before a write to it fails, what the relay sends, the
    randomness of the key pair and of the cookies, the files. *)
Record StartEnv := mkEnv {
  se_punch : option Z;
  se_quic : option Z;
  se_endpoint : bool;
  se_egress : option SocketAddr;
  se_resolved : list SocketAddr;
  se_tcp : bool;
  se_room : option nat;
  se_answer : NetIn;
  se_kem : KemRand;
  se_os : St;
  se_disk : Disk;
  se_fs : Fs
}.

(** The handle, and the actor that the last task runs. *)
Record Node := mkNode {
  nd_id : NodeId;
  nd_actor : Actor
}.

Definition gm_generate (r : KemRand) : option (SecretKey * list Z) :=
  match keypair r with inr kp => Some kp | inl _ => None end.

Definition new_cookie_issuer (s : St) : option CookieIssuer :=
  '(secret, _) ← fill_bytes 32 s;
  Some (cookie_new secret 30).

(** The candidates of the second registration, if there is one. *)
Definition reregister (punch_port quic_port : Z) (ips : list (list Z)) (observed : SocketAddr) : option Candidates :=
  match observed with
  | V4 v4 _ => if bool_decide (v4 ∈ ips) then None else Some (build_candidates punch_port quic_port ips (Some observed))
  | V6 _ _ _ _ => None
  end.

Definition gm_setup (cfg : StartConfig) (env : StartEnv) : option (option (SecretKey * list Z) * option CookieIssuer) :=
  if feature && cf_gmpq (sc_node cfg) then
    let gm_id := gm_generate (se_kem env) in
    ck ← new_cookie_issuer (se_os env);
    Some (gm_id, Some ck)
  else Some (None, None).

Definition load_anchor (cfg : StartConfig) (env : StartEnv) : res PinError (option PinFileAnchor) :=
  match feature, sc_pin_file cfg with
  | true, Some path =>
      r ← from_file path (se_disk env) (se_fs env);
      Some (match r with inl e => inl e | inr a => inr (Some a) end)
  | _, _ => ok None
  end.

Definition probe_task (cfg : StartConfig) : list Task :=
  if cf_probe_interval (sc_node cfg) =? 0 then [] else [TTimer (cf_probe_interval (sc_node cfg))].

(** From the answer of the relay on; a failure of the second registration is
    ignored. *)
Definition start_registered (identity : NodeIdentity) (cfg : StartConfig) (env : StartEnv) (punch_port quic_port : Z) (ips : list (list Z))
    (hello : list Z) (observed : SocketAddr) (room : option nat) (rd : NetIn) : option (Trace * (StartError + Node)) :=
  let id := node_id identity in
  let written := hello ++ match reregister punch_port quic_port ips observed with
    | Some cands => (update_addrs id cands room).1.1
    | None => []
    end in
  let tasks := [TReader rd; TAccept] ++ probe_task cfg in
  '(gm_id, gm_cookie) ← gm_setup cfg env;
  let events := [StRegistered (sc_relay_addr cfg) observed] ++
    (if feature && cf_gmpq (sc_node cfg) && negb (bool_decide (is_Some gm_id)) then [StGmFailed] else []) in
  r ← load_anchor cfg env;
  Some (match r with
        | inl e => (mkTrace written tasks events, inl (StPin e))
        | inr gm_anchor => (mkTrace written (tasks ++ [TActor]) events, inr (mkNode id (actor_new identity gm_id gm_cookie gm_anchor (sc_node cfg))))
        end).

Definition start (identity : NodeIdentity) (cfg : StartConfig) (env : StartEnv) : option (Trace * (StartError + Node)) :=
  let nothing := mkTrace [] [] [] in
  match se_punch env, se_quic env with
  | Some punch_port, Some quic_port =>
      if negb (se_endpoint env) then Some (nothing, inl StEndpoint) else
      let ips := local_ipv4_addrs (se_egress env) (se_resolved env) in
      let cands := default (build_candidates punch_port quic_port ips None) (sc_advertise cfg) in
      if negb (se_tcp env) then Some (nothing, inl StTcp) else
      '(hello, r, room, rd) ← client_connect (node_id identity) cands (se_room env) (se_answer env);
      match r with
      | inl e => Some (mkTrace hello [] [], inl (StConnect e))
      | inr observed => start_registered identity cfg env punch_port quic_port ips hello observed room rd
      end
  | _, _ => Some (nothing, inl StBind)
  end.

(** [Actor::run] begins with the interval of the punches. *)
Definition actor_boots (cfg : StartConfig) : bool := 0 <? sc_punch_tick cfg.

(** ** What a start promises *)

(** The addresses that the node announces, in the order it does. *)
Definition first_cands (cfg : StartConfig) (punch_port quic_port : Z) (ips : list (list Z)) : Candidates :=
  default (build_candidates punch_port quic_port ips None) (sc_advertise cfg).

Definition announced (cfg : StartConfig) (punch_port quic_port : Z) (ips : list (list Z)) (observed : SocketAddr) : list Candidates :=
  first_cands cfg punch_port quic_port ips :: option_list (reregister punch_port quic_port ips observed).

(** A node that started was registered: the relay's answer is read, and what
    was written are its registrations. *)
Lemma node_start_ok identity cfg env tr nd : start identity cfg env = Some (tr, inr nd) →
  ∃ punch_port quic_port observed room rd,
    let ips := local_ipv4_addrs (se_egress env) (se_resolved env) in
    let hello := write_frame (Hello (node_id identity) (first_cands cfg punch_port quic_port ips)) in
    se_punch env = Some punch_port ∧ se_quic env = Some quic_port ∧
    read_frame (se_answer env) = Some (inr (Some (HelloAck observed)), rd) ∧
    net_write hello (se_room env) = (hello, room, true) ∧
    start_registered identity cfg env punch_port quic_port ips hello observed room rd = Some (tr, inr nd).
Proof.
  unfold start. destruct (se_punch env) as [pp|]; [|done]. destruct (se_quic env) as [qp|]; [|done].
  destruct (se_endpoint env); [|done]. cbv zeta. destruct (se_tcp env); [|done]. cbn [negb].
  intros H. apply bind_Some in H as ([[[hello r] room] rd] & E & H). unfold client_connect in E.
  destruct (net_write _ _) as [[w room'] sent] eqn:Ew in E. destruct sent; cbn [negb] in E; [|by injection E as <- <- <- <-].
  apply bind_Some in E as ([x rd'] & Er & [= <- <- <- <-]). destruct x as [e|[[]|]]; try done.
  destruct (net_write_then _ [] _ _ _ Ew) as [-> _]. eexists _, _, _, _, _. split_and!; [done|done|exact Er|exact Ew|exact H].
Qed.

Lemma start_registered_ok identity cfg env pp qp ips hello observed room rd tr nd :
  start_registered identity cfg env pp qp ips hello observed room rd = Some (tr, inr nd) →
  ∃ gm_id gm_cookie anchor,
    gm_setup cfg env = Some (gm_id, gm_cookie) ∧ load_anchor cfg env = ok anchor ∧
    nd = mkNode (node_id identity) (actor_new identity gm_id gm_cookie anchor (sc_node cfg)) ∧
    tr = mkTrace (hello ++ match reregister pp qp ips observed with Some cands => (update_addrs (node_id identity) cands room).1.1 | None => [] end)
      ([TReader rd; TAccept] ++ probe_task cfg ++ [TActor])
      (StRegistered (sc_relay_addr cfg) observed ::
       (if feature && cf_gmpq (sc_node cfg) && negb (bool_decide (is_Some gm_id)) then [StGmFailed] else [])).
Proof.
  unfold start_registered. intros H. apply bind_Some in H as ([g c] & Eg & H). apply bind_Some in H as (r & El & H).
  destruct r as [e|a]; [by simplify_eq|]. injection H as <- <-. eexists _, _, _. split; [exact Eg|]. split; [exact El|]. split; [done|].
  done.
Qed.

(** The registrations as they are written, up to where the connection fails. *)
Lemma registrations_written identity cfg pp qp ips observed room room' :
  let hello := write_frame (Hello (node_id identity) (first_cands cfg pp qp ips)) in
  net_write hello room = (hello, room', true) →
  hello ++ match reregister pp qp ips observed with Some cands => (update_addrs (node_id identity) cands room').1.1 | None => [] end =
  within room (concat (map (λ cands, write_frame (Hello (node_id identity) cands)) (announced cfg pp qp ips observed))).
Proof.
  intros hello Hw. unfold announced. cbn [map concat]. fold hello.
  rewrite (proj2 (net_write_then _ _ _ _ _ Hw)). f_equal. destruct (reregister pp qp ips observed) as [cands|]; cbn [option_list map concat].
  - unfold update_addrs. rewrite net_write_within. f_equal. cbn. by rewrite app_nil_r.
  - unfold within. by destruct room' as [[]|].
Qed.

Lemma load_anchor_ok cfg env a : feature = true → load_anchor cfg env = ok a ↔
  (match sc_pin_file cfg with
   | None => a = None
   | Some path => ∃ pins, a = Some pins ∧ from_file path (se_disk env) (se_fs env) = ok pins
   end).
Proof.
  intros Hf. unfold load_anchor. rewrite Hf. destruct (sc_pin_file cfg) as [path|]; [|split; [by intros [= <-]|by intros ->]]. split.
  - intros H. apply bind_Some in H as ([e|x] & E & H); simplify_eq. by eexists.
  - by intros (pins & -> & ->).
Qed.

Lemma gm_setup_ok cfg env g c : gm_setup cfg env = Some (g, c) →
  if feature && cf_gmpq (sc_node cfg) then g = gm_generate (se_kem env) ∧ ∃ secret s, fill_bytes 32 (se_os env) = Some (secret, s) ∧ c = Some (mkCookie secret 30)
  else g = None ∧ c = None.
Proof.
  unfold gm_setup. destruct (feature && cf_gmpq (sc_node cfg)); [|by intros [= <- <-]].
  cbv zeta. intros H. apply bind_Some in H as (ck & E & [= <- <-]). unfold new_cookie_issuer in E. apply bind_Some in E as ([secret s] & E & [= <-]).
  split; [done|]. by eexists _, _.
Qed.

(** The candidates of the second registration are made without the configured
    ones. *)
Lemma reregister_spec pp qp ips observed cands : reregister pp qp ips observed = Some cands →
  ∃ v4 port, observed = V4 v4 port ∧ ¬ (v4 ∈ ips) ∧ cands = build_candidates pp qp ips (Some observed).
Proof. unfold reregister. destruct observed as [v4 port|]; [|done]. case_bool_decide; [done|]. intros [= <-]. by eexists _, _. Qed.

(** So addresses that were configured are gone from the relay's table once the
    relay has seen an address that is none of the host's; a relay that runs on
    the same host always has. *)
Lemma advertise_replaced identity cfg cands env tr nd pp qp rd v4 port :
  sc_advertise cfg = Some cands → se_room env = None → se_punch env = Some pp → se_quic env = Some qp →
  read_frame (se_answer env) = Some (inr (Some (HelloAck (V4 v4 port))), rd) →
  v4 ∉ local_ipv4_addrs (se_egress env) (se_resolved env) →
  start identity cfg env = Some (tr, inr nd) →
  tr_written tr = write_frame (Hello (node_id identity) cands) ++
    write_frame (Hello (node_id identity) (build_candidates pp qp (local_ipv4_addrs (se_egress env) (se_resolved env)) (Some (V4 v4 port)))).
Proof.
  intros Ha Hroom Hp Hq Hr Hn H. apply node_start_ok in H as (pp' & qp' & o & room & rd' & Ep & Eq & Er & Hw & H).
  assert (pp' = pp) as -> by congruence. assert (qp' = qp) as -> by congruence. assert (o = V4 v4 port) as -> by congruence.
  apply start_registered_ok in H as (g & c & a & _ & _ & _ & ->). cbn [tr_written].
  rewrite Hroom in Hw. injection Hw as <-. unfold reregister. rewrite bool_decide_eq_false_2 by done. unfold first_cands. rewrite Ha. done.
Qed.

(** A pin file that does not load ends the start after the registration, with
    the accept loop and the timer spawned. *)
Lemma pin_failure_leaves_tasks identity cfg env pp qp ips hello observed room rd g e :
  gm_setup cfg env = Some g → load_anchor cfg env = err e →
  ∃ tr, start_registered identity cfg env pp qp ips hello observed room rd = Some (tr, inl (StPin e)) ∧
    tr_tasks tr = [TReader rd; TAccept] ++ probe_task cfg ∧ ∃ rest, tr_written tr = hello ++ rest.
Proof. intros Hg He. unfold start_registered. rewrite Hg. destruct g as [g c]. cbn [mbind option_bind]. rewrite He. cbn [mbind option_bind]. eexists. split; [done|]. split; [done|]. by eexists. Qed.

(** A start does not panic if the random source works and the pin file, where
    there is one, is one that parses or is refused. *)
Lemma start_total identity cfg env :
  Forall is_byte (ni_data (se_answer env)) →
  (feature = true → cf_gmpq (sc_node cfg) = true → is_Some (fill_bytes 32 (se_os env))) →
  (∀ path, sc_pin_file cfg = Some path → is_Some (from_file path (se_disk env) (se_fs env))) →
  is_Some (start identity cfg env).
Proof.
  intros Hb Hrand Hpin. unfold start. destruct (se_punch env) as [pp|]; [|by eexists]. destruct (se_quic env) as [qp|]; [|by eexists].
  destruct (se_endpoint env); [|by eexists]. destruct (se_tcp env); [|by eexists]. cbn [negb]. cbv zeta.
  destruct (read_frame_spec (se_answer env) Hb) as (x & r & E & _). unfold client_connect.
  destruct (net_write _ _) as [[w room] []]; cbn [negb]; [|by eexists]. rewrite E. cbn [mbind option_bind].
  destruct x as [e|[[]|]]; try by eexists. unfold start_registered.
  assert (∃ g c, gm_setup cfg env = Some (g, c)) as (g & c & ->).
  { unfold gm_setup. destruct feature, (cf_gmpq (sc_node cfg)) eqn:Eg; try by eexists _, _. destruct Hrand as [[secret s] Es]; [done..|].
    unfold new_cookie_issuer. cbn [andb]. cbv zeta. rewrite Es. by eexists _, _. }
  cbn [mbind option_bind]. assert (is_Some (load_anchor cfg env)) as [r' ->]; [|by eexists].
  unfold load_anchor. destruct feature; [|by eexists]. destruct (sc_pin_file cfg) as [path|]; [|by eexists].
  destruct (Hpin path eq_refl) as [y ->]. by eexists.
Qed.

(** A start succeeds when the calls it makes do. *)
Lemma start_runs identity cfg env pp qp observed rd g a : se_room env = None →
  se_punch env = Some pp → se_quic env = Some qp → se_endpoint env = true → se_tcp env = true →
  read_frame (se_answer env) = Some (inr (Some (HelloAck observed)), rd) →
  gm_setup cfg env = Some g → load_anchor cfg env = ok a →
  ∃ tr nd, start identity cfg env = Some (tr, inr nd).
Proof.
  intros Hw Hp Hq He Ht Hr Hg Ha. unfold start. rewrite Hp, Hq, He, Ht. cbn [negb]. cbv zeta. unfold client_connect. rewrite Hw. cbn [net_write negb]. rewrite Hr. cbn [mbind option_bind].
  unfold start_registered. rewrite Hg. destruct g as [g c]. cbn [mbind option_bind]. rewrite Ha. cbn [mbind option_bind]. by eexists _, _.
Qed.

Lemma gm_setup_runs cfg env secret s : fill_bytes 32 (se_os env) = Some (secret, s) → ∃ g, gm_setup cfg env = Some g.
Proof. intros H. unfold gm_setup. destruct (feature && _); [|by eexists]. unfold new_cookie_issuer. rewrite H. by eexists. Qed.

End start.

(** [C39] No silent downgrade.  With the feature compiled in, a node that started has
    the anchor its configuration asks for: every key only if no pin file is
    configured, else the pins that the file's text parses to.  If the GM-PQ
    channel is on, its cookies are made with 32 bytes of the random source, and
    a node without a GM-PQ identity has said so in an event; if it is off there
    is neither.  What was written to the relay are the node's registrations
    and nothing else: the first one whole, after which the relay's
    acknowledgement was read, and of the second as much as the connection took
    before a write failed. *)
Theorem start_no_downgrade {MP : MeshPrimitives} {PR : Primitives} {K : Kem} {SA : StaticAuth K} {St : Type} {OS : OsRandom St}
    (identity : NodeIdentity) (cfg : StartConfig) (env : StartEnv) (tr : Trace) (nd : Node) :
  start true identity cfg env = Some (tr, inr nd) →
  nd_id nd = node_id identity ∧
  (sc_pin_file cfg = None ∧ gm_anchor (nd_actor nd) = AllowAllAnchor ∨
   ∃ path f pins, sc_pin_file cfg = Some path ∧ se_fs env !! path = Some f ∧ utf8_valid (f_bytes f) = true ∧
     pin_parse (from_utf8_lossy (f_bytes f)) = ok pins ∧ gm_anchor (nd_actor nd) = pin_anchor pins) ∧
  (if cf_gmpq (sc_node cfg) then
     (ac_gm_id (nd_actor nd) = None → StGmFailed ∈ tr_events tr) ∧
     ∃ secret s, os_fill 32 (se_os env) = (inr secret, s) ∧ zlen secret = 32 ∧ ac_gm_cookie (nd_actor nd) = Some (cookie_new secret 30)
   else ac_gm_id (nd_actor nd) = None ∧ ac_gm_cookie (nd_actor nd) = None) ∧
  ∃ punch_port quic_port observed rd, se_punch env = Some punch_port ∧ se_quic env = Some quic_port ∧
    read_frame (se_answer env) = Some (inr (Some (HelloAck observed)), rd) ∧
    let ips := local_ipv4_addrs (se_egress env) (se_resolved env) in
    write_frame (Hello (node_id identity) (first_cands cfg punch_port quic_port ips)) `prefix_of` tr_written tr ∧
    tr_written tr = within (se_room env) (concat (map (λ cands, write_frame (Hello (node_id identity) cands))
      (announced cfg punch_port quic_port ips observed))).
Proof.
  intros H. apply node_start_ok in H as (pp & qp & o & room & rd & Ep & Eq & Er & Hw & H). apply start_registered_ok in H as (g & c & a & Eg & El & -> & ->).
  split; [done|]. split; [|split].
  - apply load_anchor_ok in El; [|done]. destruct (sc_pin_file cfg) as [path|]; [right|left; by subst].
    destruct El as (pins & -> & El). apply from_file_ok in El as (f & _ & Hf & Hv & Hp). by eexists _, _, _.
  - apply gm_setup_ok in Eg. cbn [andb] in Eg. destruct (cf_gmpq (sc_node cfg)); [|exact Eg].
    destruct Eg as (-> & secret & s & Es & ->). cbn [nd_actor actor_new ac_gm_id ac_gm_cookie tr_events]. split.
    + intros ->. cbn. right. left.
    + unfold fill_bytes in Es. destruct (os_fill 32 (se_os env)) as [[e|b] s'] eqn:Eo; [done|]. injection Es as -> ->.
      eexists _, _. split; [done|]. split; [by eapply (os_fill_bytes 32)|done].
  - eexists _, _, _, _. split; [done|]. split; [done|]. split; [exact Er|]. cbn [tr_written]. cbv zeta.
    split; [by eexists|]. by apply registrations_written.
Qed.

(** *** A run *)

Definition pin_text : list Z := [103; 32] ++ replicate 64 97.
Definition ex_fs : Fs := {[ a_path := mkFile pin_text 420 ]}.
Definition ex_cfg : StartConfig :=
  mkStart (V4 [10; 0; 0; 9] 7000) None (100 * ms) (Some a_path) (mkConfig true 20 (1000 * ms) true).
Definition ex_answer : NetIn := mkNetIn (write_frame (HelloAck (V4 [10; 0; 0; 1] 99))) Closed.
Definition ex_env : @StartEnv toy_hybrid Z :=
  @mkEnv toy_hybrid Z (Some 4000) (Some 4001) true (Some (V4 [10; 0; 0; 1] 5000)) [] true None ex_answer (1, 2) 8 a_disk ex_fs.
Definition ex_pins : PinFileAnchor := mkPins {[ replicate 32 170 := [103] ]}.

Lemma ex_loads : from_file a_path a_disk ex_fs = ok ex_pins.
Proof. vm_compute. reflexivity. Qed.

(** The default configuration starts its actor; a tick of zero panics it. *)
Example config_boots a : actor_boots (config_new a) = true ∧ actor_boots (mkStart a None 0 None (sc_node (config_new a))) = false.
Proof. done. Qed.

(** A pin file with a letter of two bytes at an even place of a fingerprint. *)
Example pin_file_panics : from_file a_path a_disk {[ a_path := mkFile ([103; 32; 97; 195; 169] ++ replicate 61 97) 420 ]} = None.
Proof. vm_compute. reflexivity. Qed.

Lemma start_no_downgrade_witness :
  ∃ tr nd, @start toy_mesh toy_hybrid Z toy_os true (identity_from_seed (replicate 32 7)) ex_cfg ex_env = Some (tr, inr nd) ∧
    nd_id nd = @node_id toy_mesh (identity_from_seed (replicate 32 7)) ∧
    ∃ pins, pin_parse (from_utf8_lossy pin_text) = ok pins ∧ @gm_anchor toy_mesh toy_primitives toy_hybrid (nd_actor nd) = @pin_anchor toy_primitives pins.
Proof.
  destruct (@gm_setup_runs toy_hybrid Z toy_os true ex_cfg ex_env (to_le 32 8) 9 eq_refl) as [g Eg].
  destruct (@start_runs toy_mesh toy_hybrid Z toy_os true (identity_from_seed (replicate 32 7)) ex_cfg ex_env
    4000 4001 (V4 [10; 0; 0; 1] 99) (mkNetIn [] Closed) g (Some ex_pins) eq_refl eq_refl eq_refl eq_refl eq_refl eq_refl Eg) as (tr & nd & E).
  { apply load_anchor_ok; [done|]. exists ex_pins. split; [done|]. apply ex_loads. }
  exists tr, nd. split; [exact E|].
  destruct (@start_no_downgrade toy_mesh toy_primitives toy_hybrid toy_auth Z toy_os _ _ _ _ _ E) as (Hid & Ha & _). split; [exact Hid|].
  destruct Ha as [[? _]|(path & f & pins & [= <-] & Hf & _ & Hp & Hg)]; [done|]. exists pins. split; [|exact Hg].
  assert (f = mkFile pin_text 420) as -> by (apply (inj Some); rewrite <-Hf; reflexivity). exact Hp.
Defined.

(** ** The tasks of a node *)

Inductive QuicEv :=
  | QConn (conn : nat) (outgoing : bool)
  | QConnClosed (peer : NodeId) (sid : nat).

(** The timer: off, waiting for its next tick, waiting for room in the channel
    of commands, ended. *)
Inductive TimerPc :=
  | TmOff
  | TmTick (next : Instant)
  | TmSend (next : Instant)
  | TmEnded.

(** The accept loop: in [accept], in the handshake of a connection with its
    result, waiting for room in the channel of QUIC events, ended. *)
Inductive AcceptPc :=
  | AcAccept
  | AcIncoming (res : option nat)
  | AcSend (conn : nat)
  | AcEnded.

(** [ho_ticks]: when each [ProbeTick] was sent; [ho_taken]: the commands the
    actor took. *)
Record Host := mkHost {
  ho_now : Instant;
  ho_actor : bool;
  ho_closed : bool;
  ho_cmds : list NodeCmd;
  ho_quic : list QuicEv;
  ho_timer : TimerPc;
  ho_accept : AcceptPc;
  ho_ticks : list Instant;
  ho_taken : list NodeCmd
}.

Definition QUIC_CHANNEL : nat := 64.

Definition timer_new (now : Instant) (period : Duration) : TimerPc := if period =? 0 then TmOff else TmTick now.

Definition host_new (now : Instant) (period : Duration) : Host :=
  mkHost now true false [] [] (timer_new now period) AcAccept [] [].

(** The actor ends: its receivers are dropped with what they hold. *)
Definition actor_end (h : Host) : Host :=
  mkHost (ho_now h) false (ho_closed h) [] [] (ho_timer h) (ho_accept h) (ho_ticks h) (ho_taken h).

(** The timer's task; [None]: it waits. *)
Definition timer_task (period : Duration) (h : Host) : option Host :=
  let at_pc cmds pc ticks := mkHost (ho_now h) (ho_actor h) (ho_closed h) cmds (ho_quic h) pc (ho_accept h) ticks (ho_taken h) in
  match ho_timer h with
  | TmTick next => if next <=? ho_now h then Some (at_pc (ho_cmds h) (TmSend (next + period)) (ho_ticks h)) else None
  | TmSend next =>
      if negb (ho_actor h) then Some (at_pc (ho_cmds h) TmEnded (ho_ticks h))
      else if (length (ho_cmds h) <? CHANNEL)%nat then Some (at_pc (ho_cmds h ++ [ProbeTick]) (TmTick next) (ho_ticks h ++ [ho_now h]))
      else None
  | TmOff | TmEnded => None
  end.

(** The accept loop's task; that the actor is gone is ignored. *)
Definition accept_task (h : Host) : option Host :=
  let at_pc q pc := mkHost (ho_now h) (ho_actor h) (ho_closed h) (ho_cmds h) q (ho_timer h) pc (ho_ticks h) (ho_taken h) in
  match ho_accept h with
  | AcAccept => if ho_closed h then Some (at_pc (ho_quic h) AcEnded) else None
  | AcIncoming (Some c) => Some (at_pc (ho_quic h) (AcSend c))
  | AcIncoming None => Some (at_pc (ho_quic h) AcAccept)
  | AcSend c =>
      if negb (ho_actor h) then Some (at_pc (ho_quic h) AcAccept)
      else if (length (ho_quic h) <? QUIC_CHANNEL)%nat then Some (at_pc (ho_quic h ++ [QConn c false]) AcAccept)
      else None
  | AcEnded => None
  end.

(** A connection arrives at the endpoint. *)
Definition incoming (res : option nat) (h : Host) : option Host :=
  match ho_accept h, ho_closed h with
  | AcAccept, false => Some (mkHost (ho_now h) (ho_actor h) false (ho_cmds h) (ho_quic h) (ho_timer h) (AcIncoming res) (ho_ticks h) (ho_taken h))
  | _, _ => None
  end.

(** [Node::connect_peer], [send_to], [shutdown]; that the actor is gone is
    ignored. *)
Definition handle_send (c : NodeCmd) (h : Host) : option Host :=
  if negb (ho_actor h) then Some h
  else if (length (ho_cmds h) <? CHANNEL)%nat then
    Some (mkHost (ho_now h) true (ho_closed h) (ho_cmds h ++ [c]) (ho_quic h) (ho_timer h) (ho_accept h) (ho_ticks h) (ho_taken h))
  else None.

(** The actor takes a command: the loop ends at [Shutdown]. *)
Definition actor_take (h : Host) : option Host :=
  match ho_actor h, ho_cmds h with
  | true, c :: cmds =>
      let h := mkHost (ho_now h) true (ho_closed h) cmds (ho_quic h) (ho_timer h) (ho_accept h) (ho_ticks h) (ho_taken h ++ [c]) in
      Some (match c with Shutdown => actor_end h | _ => h end)
  | _, _ => None
  end.

Definition actor_take_quic (h : Host) : option Host :=
  match ho_actor h, ho_quic h with
  | true, _ :: q => Some (mkHost (ho_now h) true (ho_closed h) (ho_cmds h) q (ho_timer h) (ho_accept h) (ho_ticks h) (ho_taken h))
  | _, _ => None
  end.

Inductive HostEv :=
  | HTime (dt : nat)
  | HTimer
  | HAccept
  | HIncoming (res : option nat)
  | HCmd (c : NodeCmd)
  | HTake
  | HTakeQuic
  | HRelayLost
  | HDrop.

Section host.
Context (period : Duration).

(** [HRelayLost]: the loop ends when the relay's connection does; [HDrop]:
    the handle is dropped, which aborts the actor. *)
Definition host_step (ev : HostEv) (h : Host) : option Host :=
  match ev with
  | HTime dt => Some (mkHost (ho_now h + Z.of_nat dt) (ho_actor h) (ho_closed h) (ho_cmds h) (ho_quic h) (ho_timer h) (ho_accept h) (ho_ticks h) (ho_taken h))
  | HTimer => timer_task period h
  | HAccept => accept_task h
  | HIncoming res => incoming res h
  | HCmd c => handle_send c h
  | HTake => actor_take h
  | HTakeQuic => actor_take_quic h
  | HRelayLost | HDrop => Some (actor_end h)
  end.

Fixpoint host_run (evs : list HostEv) (h : Host) : option Host :=
  match evs with
  | [] => Some h
  | ev :: evs => h ← host_step ev h; host_run evs h
  end.

Lemma host_run_ind (P : Host → Prop) evs h h' : (∀ ev h h', P h → host_step ev h = Some h' → P h') → P h → host_run evs h = Some h' → P h'.
Proof.
  intros Hs. revert h. induction evs as [|ev evs IH]; intros h Hp; cbn [host_run]; [by intros [= <-]|].
  intros H. apply bind_Some in H as (h1 & E & H). eauto.
Qed.

(** The ticks so far were sent no sooner than they were due, and the timer
    stands at the next. *)
Record host_inv (t0 : Instant) (h : Host) : Prop := {
  hi_cmds : (length (ho_cmds h) ≤ CHANNEL)%nat;
  hi_quic : (length (ho_quic h) ≤ QUIC_CHANNEL)%nat;
  hi_open : ho_closed h = false ∧ ho_accept h ≠ AcEnded;
  hi_gone : ho_actor h = false → ho_cmds h = [] ∧ ho_quic h = [];
  hi_due i t : ho_ticks h !! i = Some t → t0 + Z.of_nat i * period ≤ t ≤ ho_now h;
  hi_next : match ho_timer h with
            | TmTick next => next = t0 + zlen (ho_ticks h) * period
            | TmSend next => next = t0 + (zlen (ho_ticks h) + 1) * period ∧ t0 + zlen (ho_ticks h) * period ≤ ho_now h
            | TmOff => period = 0
            | TmEnded => ho_actor h = false
            end
}.

Lemma host_inv_new t0 : host_inv t0 (host_new t0 period).
Proof.
  constructor; try done; cbn; try lia. unfold timer_new. destruct (Z.eqb_spec period 0); [done|]. unfold zlen. cbn. lia.
Qed.

Lemma timer_task_inv t0 h h' : 0 ≤ period → host_inv t0 h → timer_task period h = Some h' → host_inv t0 h'.
Proof.
  intros Hp [Hc Hq Ho Hg Hd Hn]. unfold timer_task. destruct (ho_timer h) as [|next|next|]; [done|..|done].
  - destruct (Z.leb_spec next (ho_now h)); [|done]. intros [= <-]. constructor; try done. cbn. nia.
  - destruct (ho_actor h) eqn:Ea; cbn [negb].
    2: { intros [= <-]. by constructor. }
    destruct (Nat.ltb_spec (length (ho_cmds h)) CHANNEL); [|done]. intros [= <-]. destruct Hn as [Hn1 Hn2].
    constructor; try done; cbn.
    + rewrite length_app. cbn. lia.
    + intros i t Hl. apply lookup_snoc_Some in Hl as [[_ Hl]|[-> <-]]; [by apply Hd|]. unfold zlen in Hn2. split; [exact Hn2|reflexivity].
    + unfold zlen in *. rewrite length_app. cbn. lia.
Qed.

Lemma accept_task_inv t0 h h' : host_inv t0 h → accept_task h = Some h' → host_inv t0 h'.
Proof.
  intros [Hc Hq [Ho1 Ho2] Hg Hd Hn]. unfold accept_task. rewrite Ho1.
  destruct (ho_accept h) as [|[c|]|c|]; [done|..|done]; [by intros [= <-]; constructor..|].
  destruct (ho_actor h) eqn:Ea; cbn [negb]; [|by intros [= <-]; constructor].
  destruct (Nat.ltb_spec (length (ho_quic h)) QUIC_CHANNEL); [|done]. intros [= <-]. constructor; try done; cbn; try (rewrite Ea; done).
  rewrite length_app. cbn. lia.
Qed.

Lemma actor_end_inv t0 h : host_inv t0 h → host_inv t0 (actor_end h).
Proof. intros [Hc Hq Ho Hg Hd Hn]. constructor; try done; cbn; try lia. by destruct (ho_timer h). Qed.

Lemma actor_take_inv t0 h h' : host_inv t0 h → actor_take h = Some h' → host_inv t0 h'.
Proof.
  intros Hi. unfold actor_take. destruct (ho_actor h) eqn:Ea; [|done]. destruct (ho_cmds h) as [|c cmds] eqn:Ec; [done|]. cbv zeta. intros [= <-].
  set (h1 := mkHost _ _ _ _ _ _ _ _ _). assert (host_inv t0 h1); [|destruct c; try done; by apply actor_end_inv].
  destruct Hi as [Hc Hq Ho Hg Hd Hn]. unfold h1. constructor; try done; cbn; [rewrite Ec in Hc; cbn in Hc; lia|].
  rewrite Ea in Hn. by destruct (ho_timer h).
Qed.

Lemma host_step_inv t0 ev h h' : 0 ≤ period → host_inv t0 h → host_step ev h = Some h' → host_inv t0 h'.
Proof.
  intros Hp Hi. destruct ev as [dt| | |res|c| | | |]; cbn [host_step].
  - intros [= <-]. destruct Hi as [Hc Hq Ho Hg Hd Hn]. constructor; try done; cbn.
    + intros i t Hl. apply Hd in Hl. lia.
    + destruct (ho_timer h); try done. lia.
  - by apply timer_task_inv.
  - by apply accept_task_inv.
  - unfold incoming. destruct Hi as [Hc Hq [Ho1 Ho2] Hg Hd Hn]. rewrite Ho1. destruct (ho_accept h); try done. intros [= <-]. by constructor.
  - unfold handle_send. destruct (ho_actor h) eqn:Ea; cbn [negb]; [|by intros [= <-]].
    destruct (Nat.ltb_spec (length (ho_cmds h)) CHANNEL); [|done]. intros [= <-]. destruct Hi as [Hc Hq Ho Hg Hd Hn].
    constructor; try done; cbn; [rewrite length_app; cbn; lia|]. rewrite Ea in Hn. by destruct (ho_timer h).
  - by apply actor_take_inv.
  - unfold actor_take_quic. destruct (ho_actor h) eqn:Ea; [|done]. destruct (ho_quic h) as [|e q] eqn:Eq; [done|]. intros [= <-].
    destruct Hi as [Hc Hq Ho Hg Hd Hn]. constructor; try done; cbn; [rewrite Eq in Hq; cbn in Hq; lia|]. rewrite Ea in Hn. by destruct (ho_timer h).
  - intros [= <-]. by apply actor_end_inv.
  - intros [= <-]. by apply actor_end_inv.
Qed.

(** Once the actor has ended nothing reaches it, and no probe is sent. *)
Lemma gone_stays evs h h' : ho_actor h = false → ho_cmds h = [] → ho_quic h = [] → host_run evs h = Some h' →
  ho_actor h' = false ∧ ho_cmds h' = [] ∧ ho_quic h' = [] ∧ ho_ticks h' = ho_ticks h ∧ ho_taken h' = ho_taken h.
Proof.
  intros Ha Hc Hq. apply (host_run_ind (λ h', ho_actor h' = false ∧ ho_cmds h' = [] ∧ ho_quic h' = [] ∧ ho_ticks h' = ho_ticks h ∧ ho_taken h' = ho_taken h)); [|done].
  clear Ha Hc Hq. intros ev a b (Ha & Hc & Hq & Ht & Hk). destruct ev; cbn [host_step].
  - by intros [= <-].
  - unfold timer_task. rewrite Ha. cbn [negb]. destruct (ho_timer a); [done|destruct (next <=? ho_now a); [|done]|..|done]; by intros [= <-].
  - unfold accept_task. rewrite Ha. cbn [negb]. destruct (ho_accept a) as [|[]| |]; [destruct (ho_closed a)|..]; try done; by intros [= <-].
  - unfold incoming. destruct (ho_accept a), (ho_closed a); try done; by intros [= <-].
  - unfold handle_send. rewrite Ha. by intros [= <-].
  - unfold actor_take. by rewrite Ha.
  - unfold actor_take_quic. by rewrite Ha.
  - by intros [= <-].
  - by intros [= <-].
Qed.

(** The timer ends by its next tick. *)
Lemma timer_due h next : ho_timer h = TmTick next → next ≤ ho_now h →
  ∃ h', timer_task period h = Some h' ∧ ho_timer h' = TmSend (next + period) ∧ ho_actor h' = ho_actor h.
Proof. intros Et Hn. unfold timer_task. rewrite Et, (proj2 (Z.leb_le _ _) Hn). by eexists. Qed.

Lemma timer_gone h next : ho_timer h = TmSend next → ho_actor h = false → ∃ h', timer_task period h = Some h' ∧ ho_timer h' = TmEnded.
Proof. intros Et Ha. unfold timer_task. rewrite Et, Ha. by eexists. Qed.

Lemma timer_ends h : ho_actor h = false → ho_timer h ≠ TmOff → ∃ evs h', host_run evs h = Some h' ∧ ho_timer h' = TmEnded.
Proof.
  intros Ha Ho. destruct (ho_timer h) as [|next|next|] eqn:Et; [done|..].
  - destruct (host_step (HTime (Z.to_nat (next - ho_now h))) h) as [h1|] eqn:E1; [|done]. injection E1 as E1.
    destruct (timer_due h1 next) as (h2 & E2 & Et2 & Ea2); [by rewrite <-E1|rewrite <-E1; cbn; lia|].
    destruct (timer_gone h2 _ Et2) as (h3 & E3 & Et3); [by rewrite Ea2, <-E1|].
    exists [HTime (Z.to_nat (next - ho_now h)); HTimer; HTimer], h3. split; [|done]. cbn [host_run host_step mbind option_bind].
    rewrite E1, E2. cbn [mbind option_bind]. by rewrite E3.
  - destruct (timer_gone h next Et Ha) as (h3 & E3 & Et3). exists [HTimer], h3. split; [|done]. cbn [host_run host_step]. by rewrite E3.
  - by exists [], h.
Qed.

(** The accept loop is never done: it always gets back to accepting, also
    when the actor has ended. *)
Lemma accept_sent h c : ho_accept h = AcSend c → ho_actor h = false →
  ∃ h', accept_task h = Some h' ∧ ho_accept h' = AcAccept ∧ ho_closed h' = ho_closed h.
Proof. intros Ep Ha. unfold accept_task. rewrite Ep, Ha. by eexists. Qed.

Lemma accept_met h res : ho_accept h = AcIncoming res →
  ∃ h', accept_task h = Some h' ∧ ho_actor h' = ho_actor h ∧ ho_closed h' = ho_closed h ∧
    ho_accept h' = match res with Some c => AcSend c | None => AcAccept end.
Proof. intros Ep. unfold accept_task. rewrite Ep. destruct res; by eexists. Qed.

Lemma accept_goes_on t0 h : host_inv t0 h → ho_actor h = false →
  ∃ evs h', host_run evs h = Some h' ∧ ∀ res, is_Some (host_step (HIncoming res) h').
Proof.
  intros [_ _ [Ho1 Ho2] _ _ _] Ha.
  enough (∃ evs h', host_run evs h = Some h' ∧ ho_accept h' = AcAccept ∧ ho_closed h' = false) as (evs & h' & H & Hp & Hc).
  { exists evs, h'. split; [done|]. intros res. cbn [host_step]. unfold incoming. rewrite Hp, Hc. by eexists. }
  destruct (ho_accept h) as [|res|c|] eqn:Ep; [by exists [], h| | |done].
  - destruct (accept_met h res Ep) as (h1 & E1 & Ea1 & Ec1 & Ep1). destruct res as [c|].
    + destruct (accept_sent h1 c Ep1) as (h2 & E2 & Ep2 & Ec2); [congruence|]. exists [HAccept; HAccept], h2.
      cbn [host_run host_step]. rewrite E1. cbn [mbind option_bind]. rewrite E2. split; [done|]. split; congruence.
    + exists [HAccept], h1. cbn [host_run host_step]. rewrite E1. split; [done|]. split; congruence.
  - destruct (accept_sent h c Ep Ha) as (h2 & E2 & Ep2 & Ec2). exists [HAccept], h2. cbn [host_run host_step]. rewrite E2. split; [done|]. split; congruence.
Qed.

End host.

(** The tasks of a node.  In every run the channels keep their bounds, the
    [i]-th probe is sent no sooner than [i] periods after the start, so that
    there are at most one more than the periods that passed.  Once the actor
    has ended, by a shutdown, with the relay's connection or with the handle,
    no command reaches it, no probe is sent any more and the timer's task can
    end; but the accept loop never ends and accepts connections for ever. *)
Theorem node_tasks (t0 : Instant) (period : Duration) evs h : 0 ≤ period →
  host_run period evs (host_new t0 period) = Some h →
  (length (ho_cmds h) ≤ CHANNEL)%nat ∧ (length (ho_quic h) ≤ QUIC_CHANNEL)%nat ∧
  (∀ i t, ho_ticks h !! i = Some t → t0 + Z.of_nat i * period ≤ t) ∧
  (ho_ticks h ≠ [] → (zlen (ho_ticks h) - 1) * period ≤ ho_now h - t0) ∧
  (ho_actor h = false →
    (∀ evs' h', host_run period evs' h = Some h' →
       ho_taken h' = ho_taken h ∧ ho_ticks h' = ho_ticks h ∧ ho_cmds h' = [] ∧ ho_accept h' ≠ AcEnded) ∧
    (ho_timer h ≠ TmOff → ∃ evs' h', host_run period evs' h = Some h' ∧ ho_timer h' = TmEnded) ∧
    (∃ evs' h', host_run period evs' h = Some h' ∧ ∀ res, is_Some (host_step period (HIncoming res) h'))).
Proof.
  intros Hp H. assert (∀ evs h h', host_inv period t0 h → host_run period evs h = Some h' → host_inv period t0 h') as Hrun.
  { intros evs' a b Ha. apply host_run_ind; [|done]. intros ev x y. by apply host_step_inv. }
  pose proof (Hrun evs _ h (host_inv_new period t0) H) as Hi. destruct (Hi) as [Hc Hq Ho Hg Hd Hn].
  split; [done|]. split; [done|]. split; [intros i t Hl; by apply Hd in Hl as [? _]|]. split.
  - intros Hne. destruct (ho_ticks h) as [|x l _] eqn:E using rev_ind; [done|]. pose proof (Hd (length l) x (list_lookup_middle l [] x _ eq_refl)) as Hl.
    unfold zlen. rewrite length_app, Nat2Z.inj_add. change (Z.of_nat (length [x])) with 1. unfold Instant in *. lia.
  - intros Ha. destruct (Hg Ha) as [Hc0 Hq0]. split; [|split].
    + intros evs' h' Hr. destruct (gone_stays period evs' h h' Ha Hc0 Hq0 Hr) as (_ & ? & _ & ? & ?). split; [done|]. split; [done|]. split; [done|].
      by apply (Hrun evs' h h' Hi Hr).
    + intros Ht. by apply timer_ends.
    + by apply (accept_goes_on period t0).
Qed.

Definition ex_evs : list HostEv := [HTimer; HTimer; HCmd Shutdown; HTake; HIncoming (Some 4%nat); HAccept; HTake; HAccept; HTime 25; HTimer; HTimer].
Definition ex_host : Host := mkHost 75 false false [] [] TmEnded AcAccept [50] [ProbeTick; Shutdown].

Lemma node_tasks_witness : host_run 10 ex_evs (host_new 50 10) = Some ex_host ∧
  ∃ evs' h', host_run 10 evs' ex_host = Some h' ∧ ∀ res, is_Some (host_step 10 (HIncoming res) h').
Proof.
  assert (host_run 10 ex_evs (host_new 50 10) = Some ex_host) as E by (vm_compute; reflexivity). split; [exact E|].
  destruct (node_tasks 50 10 ex_evs ex_host ltac:(lia) E) as (_ & _ & _ & _ & H). apply H. reflexivity.
Defined.
