(* ===== verification/TlsPins.v ===== *)
(** * TLS: verifiers and configurations

    Models what the crates give the TLS library: the certificate of a node,
    the verifiers and the configurations of [p2p-mesh/src/quic/mod.rs], and the
    endpoints and the pinning verifier of [moq-live/src/net.rs].

    The library itself is an interface: making a self-signed certificate from
    a private key, and signing a handshake with one.  As [rustls] documents for
    TLS 1.3, an end accepts its peer if the verifier accepts the certificate
    and the signature over the handshake: the library leaves both to the
    verifier. *)

From S2P Require Import Prelude Bytes RustStr P2pProto P2pCrypto P2pQuic P2pFiles.

(** [ServerCertVerifier] and [ClientCertVerifier]: the two have the same
    methods but for the name of the first. *)
Record Verifier := mkVerifier {
  vf_cert : list Z → TlsError + unit;
  vf_tls12 : list Z → list Z → DigitallySignedStruct → TlsError + unit;
  vf_tls13 : list Z → list Z → DigitallySignedStruct → TlsError + unit;
  vf_schemes : list SignatureScheme
}.

(** What only a [ClientCertVerifier] has. *)
Record ClientAuth := mkClientAuth {
  ca_verifier : Verifier;
  ca_offer : bool;
  ca_mandatory : bool;
  ca_roots : list (list Z)
}.

Definition passed (r : TlsError + unit) : bool := match r with inr _ => true | inl _ => false end.

(** The peer shows [cert] and signs the handshake. *)
Definition accepts (v : Verifier) (cert message : list Z) (dss : DigitallySignedStruct) : bool :=
  passed (vf_cert v cert) && passed (vf_tls13 v message cert dss).

(** Configurations, as far as the crates set them; a private key is its
    DER. *)
Record ClientConfig := mkClientConfig {
  cl_verifier : Verifier;
  cl_cert : option (list Z * list Z);
  cl_alpn : list (list Z)
}.

Record ServerConfig := mkServerConfig {
  sv_client : option ClientAuth;
  sv_cert : list Z * list Z;
  sv_alpn : list (list Z)
}.

(** ** The media relay *)

(** [moq-live/src/net.rs] *)
Definition MOQ_ALPN : list Z := [109; 111; 113; 45; 108; 105; 116; 101; 47; 48].

Definition PinnedServerCert (expected : list Z) : Verifier :=
  mkVerifier (λ end_entity, if bool_decide (end_entity = expected) then inr tt else inl PeerMismatch)
    (λ _ _ _, inr tt) (λ _ _ _, inr tt) [OtherScheme; OtherScheme; ED25519; OtherScheme; OtherScheme].

Definition client_endpoint_pinned (pinned : list Z) : ClientConfig := mkClientConfig (PinnedServerCert pinned) None [MOQ_ALPN].

Definition server_endpoint (cert key : list Z) : ServerConfig := mkServerConfig None (cert, key) [MOQ_ALPN].

(** ** The mesh *)

Definition ALPN : list Z := [112; 50; 112; 45; 109; 101; 115; 104; 47; 48].

Section mesh.
Context {MP : MeshPrimitives} {SB : SeedBytes MP}.

Definition NodeServerVerifier (expected : NodeId) : Verifier :=
  mkVerifier (verify_server_cert expected) (λ _ _ _, verify_tls12_signature) verify_tls13 supported_verify_schemes.

Definition NodeClientVerifier : ClientAuth :=
  mkClientAuth (mkVerifier verify_client_cert (λ _ _ _, verify_tls12_signature) verify_tls13 supported_verify_schemes) true true [].

(** The certificate of a private key, and a signature with one.  The documented
    behaviour: the certificate holds the public key where the certificate's
    format has it, and an Ed25519 key signs with the Ed25519 scheme. *)
Class TlsLib := {
  self_signed : list Z → option (list Z);
  tls_sign : list Z → list Z → DigitallySignedStruct;
  self_signed_carries seed : zlen seed = 32 → Forall is_byte seed →
    let pk := verifying_key (from_seed seed) in ∃ cert, self_signed (pkcs8_v2_der seed pk) = Some cert ∧ carries cert pk;
  tls_sign_ed seed m : zlen seed = 32 →
    let k := from_seed seed in tls_sign (pkcs8_v2_der seed (verifying_key k)) m = mkDss ED25519 (ed_sign k m)
}.

Context {TL : TlsLib}.

Definition node_cert (identity : NodeIdentity) : option (list Z * list Z) :=
  let der := pkcs8_v2_der (seed_bytes identity) (node_id identity) in
  cert ← self_signed der;
  Some (cert, der).

Definition client_config (identity : NodeIdentity) (expected_peer : NodeId) : option ClientConfig :=
  ck ← node_cert identity;
  Some (mkClientConfig (NodeServerVerifier expected_peer) (Some ck) [ALPN]).

Definition server_config (identity : NodeIdentity) : option ServerConfig :=
  ck ← node_cert identity;
  Some (mkServerConfig (Some NodeClientVerifier) ck [ALPN]).

(** The handshake of two configurations, each end of which signs with its key;
    [mc] and [ms] are what the client and the server sign. *)
Definition handshake (cc : ClientConfig) (sc : ServerConfig) (mc ms : list Z) : bool :=
  existsb (λ a, bool_decide (a ∈ sv_alpn sc)) (cl_alpn cc) &&
  accepts (cl_verifier cc) (sv_cert sc).1 ms (tls_sign (sv_cert sc).2 ms) &&
  match sv_client sc with
  | None => true
  | Some ca =>
      match cl_cert cc with
      | Some ck => accepts (ca_verifier ca) ck.1 mc (tls_sign ck.2 mc)
      | None => negb (ca_mandatory ca)
      end
  end.

(** A verifier that accepts only peers that have signed the handshake with the
    key in their certificate. *)
Definition proves_possession (v : Verifier) : Prop :=
  ∀ cert message dss, accepts v cert message dss = true →
    ∃ id, extract_node_id cert = Some id ∧ id_verify id message (ds_signature dss) = true.

Lemma verify_tls13_key message cert dss : passed (verify_tls13 message cert dss) = true →
  ∃ id, extract_node_id cert = Some id ∧ id_verify id message (ds_signature dss) = true.
Proof.
  unfold verify_tls13. destruct (ds_scheme dss); [|done]. destruct (extract_node_id cert) as [id|]; [|done].
  destruct (negb (zlen _ =? 64)); [done|]. destruct (id_verify id message _) eqn:E; [|done]. by exists id.
Qed.

(** A node's certificate: there is one, it shows the node's identifier and its
    key signs for it. *)
Lemma node_cert_ok seed : zlen seed = 32 → Forall is_byte seed → let me := identity_from_seed seed in
  ∃ cert der, node_cert me = Some (cert, der) ∧ extract_node_id cert = Some (node_id me) ∧
    ∀ m, tls_sign der m = mkDss ED25519 (id_sign me m).
Proof.
  intros Hl Hb. cbv zeta. destruct (self_signed_carries seed Hl Hb) as (cert & E & Hc). cbv zeta in E, Hc.
  change (node_id (identity_from_seed seed)) with (verifying_key (from_seed seed)).
  exists cert, (pkcs8_v2_der seed (verifying_key (from_seed seed))). unfold node_cert. change (seed_bytes (identity_from_seed seed)) with (key_bytes (from_seed seed)).
  rewrite (key_bytes_seed seed Hl Hb). change (node_id (identity_from_seed seed)) with (verifying_key (from_seed seed)). rewrite E.
  split; [done|]. split; [by apply extract_carries; [apply verifying_key_ok|]|].
  intros m. by apply tls_sign_ed.
Qed.

Lemma verify_own cert seed m : let me := identity_from_seed seed in extract_node_id cert = Some (node_id me) →
  passed (verify_tls13 m cert (mkDss ED25519 (id_sign me m))) = true.
Proof. intros me H. unfold verify_tls13. cbn [ds_scheme ds_signature]. rewrite H. unfold id_sign, id_verify, node_id. by rewrite zlen_ed_sign, ed_correct. Qed.

End mesh.

Arguments TlsLib : clear implicits.

(** Dial by public key, from the configurations: both nodes have one, and the
    handshake of a dialler with a node succeeds exactly if the dialler expects
    that node's identifier; each end then takes the other for what it is. *)
Theorem mesh_handshake_pins {MP : MeshPrimitives} {SB : SeedBytes MP} {TL : TlsLib MP} (seed_c seed_s : list Z) (expected : NodeId) (mc ms : list Z) :
  zlen seed_c = 32 → Forall is_byte seed_c → zlen seed_s = 32 → Forall is_byte seed_s →
  let c := identity_from_seed seed_c in let s := identity_from_seed seed_s in
  ∃ cc sc ck, client_config c expected = Some cc ∧ server_config s = Some sc ∧
    (handshake cc sc mc ms = true ↔ expected = node_id s) ∧
    cl_cert cc = Some ck ∧ conn_peer_id (Some [(sv_cert sc).1]) = Some (node_id s) ∧ conn_peer_id (Some [ck.1]) = Some (node_id c).
Proof.
  intros Hc1 Hc2 Hs1 Hs2. cbv zeta. destruct (node_cert_ok seed_c Hc1 Hc2) as (cc & kc & Ec & Xc & Sc). destruct (node_cert_ok seed_s Hs1 Hs2) as (cs & ks & Es & Xs & Ss).
  unfold client_config, server_config. cbv zeta in Ec, Xc, Sc, Es, Xs, Ss. rewrite Ec, Es. cbn [mbind option_bind]. eexists _, _, (cc, kc).
  split; [done|]. split; [done|]. split; [|split; [done|]; unfold conn_peer_id; cbn [mbind option_bind head hd_error fst snd sv_cert]; by rewrite Xs, Xc].
  unfold handshake, accepts. cbn [cl_alpn sv_alpn cl_verifier sv_cert sv_client cl_cert ca_verifier NodeServerVerifier NodeClientVerifier vf_cert vf_tls13 fst snd].
  rewrite Ss, Sc, (verify_own cs seed_s ms Xs), (verify_own cc seed_c mc Xc). unfold verify_client_cert. rewrite Xc.
  unfold verify_server_cert. rewrite Xs. cbn [existsb passed]. rewrite bool_decide_eq_true_2 by set_solver. cbn [orb andb].
  destruct (bool_decide (node_id (identity_from_seed seed_s) = expected)) eqn:E; cbn [negb passed andb].
  - apply bool_decide_eq_true in E. by rewrite E.
  - apply bool_decide_eq_false in E. split; [done|]. by intros ->.
Qed.

(** What a pinned certificate proves.  The mesh's verifiers accept only a peer
    that has signed with the key of its certificate.  The media client's
    verifier accepts every signature: it accepts exactly the pinned
    certificate, which every peer of the relay is shown, from whoever sends it,
    and its handshake with an impostor's configuration succeeds whatever key
    the impostor has. *)
Theorem pinned_cert_unproved {MP : MeshPrimitives} {TL : TlsLib MP} :
  (∀ expected, proves_possession (NodeServerVerifier expected)) ∧ proves_possession (ca_verifier NodeClientVerifier) ∧
  (∀ pinned cert message dss, accepts (PinnedServerCert pinned) cert message dss = bool_decide (cert = pinned)) ∧
  (∀ pinned cert key mc ms, handshake (client_endpoint_pinned pinned) (server_endpoint cert key) mc ms = bool_decide (cert = pinned)).
Proof.
  assert (∀ pinned cert message dss, accepts (PinnedServerCert pinned) cert message dss = bool_decide (cert = pinned)) as Hp.
  { intros. unfold accepts. cbn. by case_bool_decide. }
  split; [|split; [|split]].
  - intros expected cert message dss H. apply andb_true_iff in H as [_ H]. by apply verify_tls13_key.
  - intros cert message dss H. apply andb_true_iff in H as [_ H]. by apply verify_tls13_key.
  - exact Hp.
  - intros. unfold handshake. cbn [cl_alpn sv_alpn cl_verifier sv_cert sv_client client_endpoint_pinned server_endpoint fst snd]. rewrite Hp.
    cbn [existsb]. rewrite bool_decide_eq_true_2 by set_solver. cbn [orb andb]. by rewrite andb_true_r.
Qed.

(** A certificate that is the marker and the key, and signatures with the seed
    in the private key. *)
#[global, refine] Instance toy_tls : TlsLib toy_mesh := {
  self_signed der := (λ pk, ED25519_SPKI_PREFIX ++ pk) <$> slice der 53 85;
  tls_sign der m := mkDss ED25519 (ed_sign (MeshPrimitives := toy_mesh) (from_seed (MeshPrimitives := toy_mesh) (default [] (slice der 16 48))) m)
}.
Proof.
  - intros seed Hl Hb pk. destruct (pkcs8_layout seed pk Hl) as (_ & _ & E); [apply (@verifying_key_ok toy_mesh)|].
    exists (ED25519_SPKI_PREFIX ++ pk). rewrite E. split; [done|]. exists [], []. split; [by rewrite app_nil_r|]. intros j Hj. cbn in Hj. lia.
  - intros seed m Hl k. destruct (pkcs8_layout seed (verifying_key k) Hl) as (_ & E & _); [apply (@verifying_key_ok toy_mesh)|]. by rewrite E.
Defined.

Lemma mesh_handshake_pins_witness :
  let c := identity_from_seed (MP := toy_mesh) (repeat 1 32) in let s := identity_from_seed (MP := toy_mesh) (repeat 2 32) in
  ∃ cc sc ck, client_config c (node_id s) = Some cc ∧ server_config s = Some sc ∧
    (handshake (MP := toy_mesh) cc sc [1] [2] = true ↔ node_id s = node_id s) ∧
    cl_cert cc = Some ck ∧ conn_peer_id (Some [(sv_cert sc).1]) = Some (node_id s) ∧ conn_peer_id (Some [ck.1]) = Some (node_id c).
Proof.
  apply (mesh_handshake_pins (MP := toy_mesh) (repeat 1 32) (repeat 2 32)); try done; apply (bool_decide_unpack _); by vm_compute.
Defined.
