(* ===== verification/P2pReader.v ===== *)
(** * The relay client's reader, and the operator's view of the relay

    Models the task that [RelayClient::connect] of
    [crates/p2p-mesh/src/relay/client.rs] spawns, with the channel between it
    and [RelayClient::recv] and the drop of the client, as interleaved steps;
    and the accessors of [RelayServer] in [server.rs]. *)

From stdpp Require Import strings.
From S2P Require Import Prelude Bytes RustStr P2pProto P2pCrypto P2pRelay.

(** ** The reader *)

(** The task: reading, holding a frame for the channel, ended by itself,
    aborted. *)
Inductive ReaderPc :=
  | RdRead
  | RdSend (f : Frame)
  | RdEnded
  | RdAborted.

(** [rc_open]: the receiver of the channel lives. *)
Record Client := mkClient {
  rc_in : NetIn;
  rc_pc : ReaderPc;
  rc_chan : list Frame;
  rc_open : bool;
  rc_taken : list Frame
}.

Definition client_new (rd : NetIn) : Client := mkClient rd RdRead [] true [].

(** One step of the task; the outer [None] is a panic, the inner one that it
    waits. *)
Definition reader_step (c : Client) : option (option Client) :=
  match rc_pc c with
  | RdRead =>
      '(x, rd) ← read_frame (rc_in c);
      Some (Some (mkClient rd (match x with inr (Some f) => RdSend f | _ => RdEnded end) (rc_chan c) (rc_open c) (rc_taken c)))
  | RdSend f =>
      Some (if negb (rc_open c) then Some (mkClient (rc_in c) RdEnded (rc_chan c) false (rc_taken c))
            else if (length (rc_chan c) <? CHANNEL_CAPACITY)%nat then Some (mkClient (rc_in c) RdRead (rc_chan c ++ [f]) true (rc_taken c))
            else None)
  | RdEnded | RdAborted => Some None
  end.

(** [recv]: a frame, the end when the task has ended and the channel is empty,
    or a wait. *)
Definition recv (c : Client) : option (Client * option Frame) :=
  match rc_chan c, rc_pc c with
  | f :: rest, _ => Some (mkClient (rc_in c) (rc_pc c) rest (rc_open c) (rc_taken c ++ [f]), Some f)
  | [], RdEnded | [], RdAborted => Some (c, None)
  | [], _ => None
  end.

(** [drop]: the task is aborted, and the receiver goes. *)
Definition client_drop (c : Client) : Client :=
  mkClient (rc_in c) (match rc_pc c with RdEnded => RdEnded | _ => RdAborted end) [] false (rc_taken c).

Inductive ClientEv := CRead | CRecv | CDrop.

(** A call that would wait, and a call on a client that is gone, are no
    steps. *)
Definition client_step (ev : ClientEv) (c : Client) : option (option Client) :=
  match ev with
  | CRead => reader_step c
  | CRecv => Some (if rc_open c then fst <$> recv c else None)
  | CDrop => Some (if rc_open c then Some (client_drop c) else None)
  end.

(** A run of the steps that are possible. *)
Inductive client_runs : Client → Client → Prop :=
  | cr_refl c : client_runs c c
  | cr_step ev c c1 c2 : client_step ev c = Some (Some c1) → client_runs c1 c2 → client_runs c c2.

(** ** What the reader promises *)

(** The frame the task holds. *)
Definition held (pc : ReaderPc) : list Frame := match pc with RdSend f => [f] | _ => [] end.

(** [fs] have been read from the stream, which goes on at [rd]. *)
Definition read_so_far (rd0 : NetIn) (fs : list Frame) (rd : NetIn) : Prop :=
  ∀ n, read_frames (length fs + n) rd0 = '(l, x) ← read_frames n rd; Some (fs ++ l, x).

(** The whole stream has been read: [fs], then its end or an error. *)
Definition read_all (rd0 : NetIn) (fs : list Frame) : Prop := ∃ x, read_frames (S (length fs)) rd0 = Some (fs, x).

(** [fs] begin what is read from the stream. *)
Definition stream_prefix (rd0 : NetIn) (fs : list Frame) : Prop := ∀ n l x, read_frames n rd0 = Some (l, x) → fs `prefix_of` l.

Lemma read_frames_mono n m rd r : read_frames n rd = Some r → read_frames (m + n) rd = Some r.
Proof.
  revert rd r. induction n as [|n IH]; intros rd r; [done|]. rewrite Nat.add_succ_r. cbn [read_frames]. destruct (read_frame rd) as [[x rd']|]; [|done]. cbn [mbind option_bind].
  destruct x as [e|[f|]]; [done| |done]. intros H. apply bind_Some in H as ([fs e] & E & H). by rewrite (IH _ _ E).
Qed.

Lemma so_far_prefix rd0 fs rd : read_so_far rd0 fs rd → stream_prefix rd0 fs.
Proof.
  intros H n l x E. apply (read_frames_mono _ (length fs)) in E. rewrite H in E. apply bind_Some in E as ([l' x'] & _ & [= <- _]). by exists l'.
Qed.

Lemma all_prefix rd0 fs : read_all rd0 fs → stream_prefix rd0 fs.
Proof.
  intros [y H] n l x E. apply (read_frames_mono _ n) in H. apply (read_frames_mono _ (S (length fs))) in E. rewrite Nat.add_comm, E in H. by simplify_eq.
Qed.

Lemma stream_prefix_app rd0 fs gs : stream_prefix rd0 (fs ++ gs) → stream_prefix rd0 fs.
Proof. intros H n l x E. destruct (H n l x E) as [k ->]. exists (gs ++ k). by rewrite app_assoc. Qed.

Lemma read_so_far_nil rd : read_so_far rd [] rd.
Proof. intros n. cbn. by destruct (read_frames n rd) as [[? ?]|]. Qed.

Lemma read_so_far_snoc rd0 fs rd f rd' : read_so_far rd0 fs rd → read_frame rd = Some (inr (Some f), rd') → read_so_far rd0 (fs ++ [f]) rd'.
Proof.
  intros H E n. rewrite length_app. cbn [length]. replace (length fs + 1 + n)%nat with (length fs + S n)%nat by lia. rewrite H. cbn [read_frames].
  rewrite E. cbn [mbind option_bind]. destruct (read_frames n rd') as [[l x]|]; cbn [mbind option_bind]; [|done]. by rewrite <-app_assoc.
Qed.

Lemma read_so_far_end rd0 fs rd x rd' : read_so_far rd0 fs rd → read_frame rd = Some (x, rd') → (∀ f, x ≠ inr (Some f)) → read_all rd0 fs.
Proof.
  intros H E Hx. specialize (H 1%nat). cbn [read_frames] in H. rewrite E in H. cbn [mbind option_bind] in H. unfold read_all.
  replace (S (length fs)) with (length fs + 1)%nat by lia. rewrite H. destruct x as [e|[f|]]; [|by destruct (Hx f)|]; cbn [mbind option_bind]; rewrite app_nil_r; by eexists.
Qed.

Record reader_inv (rd0 : NetIn) (c : Client) : Prop := {
  ri_bytes : Forall is_byte (ni_data (rc_in c));
  ri_bound : (length (rc_chan c) ≤ CHANNEL_CAPACITY)%nat;
  ri_open : rc_open c = true →
    match rc_pc c with
    | RdEnded => read_all rd0 (rc_taken c ++ rc_chan c)
    | RdAborted => False
    | pc => read_so_far rd0 (rc_taken c ++ rc_chan c ++ held pc) (rc_in c)
    end;
  ri_prefix : stream_prefix rd0 (rc_taken c)
}.

Lemma reader_step_inv rd0 c : reader_inv rd0 c → ∃ r, reader_step c = Some r ∧ ∀ c', r = Some c' → reader_inv rd0 c'.
Proof.
  intros [Hb Hl Ho Hp]. unfold reader_step. destruct (rc_pc c) as [|f| |] eqn:Epc.
  - destruct (read_frame_spec _ Hb) as (x & rd & E & Hb' & _). rewrite E. cbn [mbind option_bind]. eexists. split; [done|]. intros c' [= <-].
    constructor; cbn; try done. intros Hop. specialize (Ho Hop). cbn [held] in Ho. rewrite app_nil_r in Ho.
    destruct x as [e|[f|]]; [by eapply read_so_far_end| |by eapply read_so_far_end]. rewrite app_assoc. by eapply read_so_far_snoc.
  - eexists. split; [done|]. intros c'. destruct (rc_open c) eqn:Eo; cbn [negb]; [|by intros [= <-]; constructor].
    destruct (Nat.ltb_spec (length (rc_chan c)) CHANNEL_CAPACITY); [|done]. intros [= <-]. specialize (Ho eq_refl). constructor; cbn; try done.
    + rewrite length_app. cbn. lia.
    + intros _. by rewrite app_nil_r.
  - by exists None.
  - by exists None.
Qed.

Lemma recv_inv rd0 c c' r : reader_inv rd0 c → rc_open c = true → recv c = Some (c', r) → reader_inv rd0 c'.
Proof.
  intros Hi Hop. unfold recv. destruct (rc_chan c) as [|f rest] eqn:Ec.
  - destruct (rc_pc c); try done; by intros [= <- _].
  - intros [= <- _]. destruct Hi as [Hb Hl Ho Hp]. rewrite Ec in Hl, Ho. specialize (Ho Hop). constructor; cbn; [done|cbn in Hl; lia|..].
    + intros _. destruct (rc_pc c); [..|done]; by rewrite <-app_assoc.
    + apply (stream_prefix_app _ _ (rest ++ held (rc_pc c))). rewrite <-app_assoc. cbn [app].
      destruct (rc_pc c) as [|g| |]; [by eapply so_far_prefix|by eapply so_far_prefix|cbn [held]; rewrite app_nil_r; by apply all_prefix|done].
Qed.

Lemma client_step_inv rd0 ev c : reader_inv rd0 c → ∃ r, client_step ev c = Some r ∧ ∀ c', r = Some c' → reader_inv rd0 c'.
Proof.
  intros Hi. destruct ev; cbn [client_step]; [by apply reader_step_inv|eexists; split; [done|]; intros c'..].
  - destruct (rc_open c) eqn:Eo; [|done]. intros H. apply fmap_Some in H as ([c1 r] & E & ->). by eapply recv_inv.
  - destruct (rc_open c); [|done]. intros [= <-]. destruct Hi as [Hb Hl Ho Hp]. constructor; cbn; [done|unfold CHANNEL_CAPACITY; lia|done|done].
Qed.

Lemma client_runs_inv rd0 c c' : client_runs c c' → reader_inv rd0 c → reader_inv rd0 c'.
Proof.
  induction 1 as [|ev c c1 c2 E _ IH]; [done|]. intros Hi. apply IH. destruct (client_step_inv rd0 ev c Hi) as (r & E' & Hr). apply Hr. congruence.
Qed.

Lemma client_new_inv rd : Forall is_byte (ni_data rd) → reader_inv rd (client_new rd).
Proof.
  intros Hb. constructor; cbn; [done|unfold CHANNEL_CAPACITY; lia|intros _; apply read_so_far_nil|]. intros n l x _. apply prefix_nil.
Qed.

(** What the application is handed is what the relay sent: in every
    interleaving of the task, the calls of [recv] and the drop, for any bytes
    from the relay, no step panics, the channel keeps its bound, and the
    frames handed over are the first of those in the stream, in order; when
    [recv] reports the end, they are all of them up to the end of the stream
    or the first error. *)
Theorem reader_hands_over rd c : Forall is_byte (ni_data rd) → client_runs (client_new rd) c →
  (∀ ev, is_Some (client_step ev c)) ∧ (length (rc_chan c) ≤ CHANNEL_CAPACITY)%nat ∧
  stream_prefix rd (rc_taken c) ∧
  (rc_open c = true → ∀ c', recv c = Some (c', None) → read_all rd (rc_taken c)).
Proof.
  intros Hb Hr. pose proof (client_runs_inv rd _ _ Hr (client_new_inv rd Hb)) as Hi. split; [|split; [apply Hi|split; [apply Hi|]]].
  - intros ev. destruct (client_step_inv rd ev c Hi) as (r & -> & _). by eexists.
  - intros Hop c' E. destruct Hi as [_ _ Ho _]. specialize (Ho Hop). unfold recv in E. destruct (rc_chan c); [|done]. destruct (rc_pc c); try done. by rewrite app_nil_r in Ho.
Qed.

(** ** The operator's view *)

Section operator.
Context {HO : HashOrder NodeId NodeTraffic} {MP : MeshPrimitives}.

Definition online (st : ServerState) : nat := size (sessions st).

Definition text_line (e : NodeId * NodeTraffic) : list Z :=
  let '(id, t) := e in
  [10] ++ chars "  " ++ short id ++ chars ": up=" ++ dec_u64 (up_bytes t) ++ chars "B down=" ++ dec_u64 (down_bytes t) ++ chars "B msgs=" ++ dec_u64 (relayed_msgs t).

(** The same text for the server and for its handle. *)
Definition stats_text (st : ServerState) : list Z :=
  chars "online=" ++ dec_u64 (Z.of_nat (online st)) ++ chars " nodes=" ++ dec_u64 (Z.of_nat (size (stats st))) ++
  concat (map text_line (hm_iter (stats st))).

End operator.

(** *** A run *)

Definition ex_stream : NetIn := stream [FError [120]; StatsQuery] [0; 0; 0].

Lemma reader_hands_over_witness : ∃ c, client_runs (client_new ex_stream) c ∧ rc_taken c = [FError [120]; StatsQuery] ∧ read_all ex_stream (rc_taken c).
Proof.
  set (c := mkClient (mkNetIn [] Closed) RdEnded [] true [FError [120]; StatsQuery]).
  assert (client_runs (client_new ex_stream) c) as Hr.
  { do 3 (eapply (cr_step CRead); [vm_compute; reflexivity|]). eapply (cr_step CRecv); [vm_compute; reflexivity|].
    do 2 (eapply (cr_step CRead); [vm_compute; reflexivity|]). eapply (cr_step CRecv); [vm_compute; reflexivity|]. apply cr_refl. }
  exists c. split; [exact Hr|]. split; [reflexivity|].
  eapply (reader_hands_over ex_stream c); [apply (bool_decide_unpack _); by vm_compute|exact Hr|reflexivity|reflexivity].
Defined.
