(* ===== verification/HomaPool.v ===== *)
(** * The worker pool of the RPC server

    Models [ThreadPool] of [crates/homa-rpc/src/rpc/mod.rs]: the queue of jobs
    behind a lock and a condition variable, the workers, [submit] and [drop],
    as interleaved steps.  [HomaRpc] uses the pool as a queue from which jobs
    are taken in order; here is why it is one.

    A worker's steps are those that others can see: it takes the lock, reads
    the flag, looks at the queue, begins to wait (which releases the lock), is
    woken, runs a job.  A job that panics is caught and counts as run.  The
    pool belongs to the server's thread, which alone submits and drops. *)

From S2P Require Import Prelude.

Abbreviation Job := nat.

Inductive WPc :=
  | WLock
  | WFlag
  | WPop
  | WPark
  | WWait
  | WWoken
  | WRun (j : Job)
  | WDone.

#[global] Instance wpc_eq_dec : EqDecision WPc.
Proof. solve_decision. Defined.

(** The server's thread: in [submit] before the push, before [notify_one]; in
    [drop] before [notify_all], in the joins, after them. *)
Inductive OwnerPc :=
  | OIdle
  | OPush (j : Job)
  | ONotify
  | OStop
  | OJoin
  | OEnd.

#[global] Instance owner_pc_eq_dec : EqDecision OwnerPc.
Proof. solve_decision. Defined.

Record Pool := mkPool {
  po_jobs : list Job;
  po_shutdown : bool;
  po_workers : list WPc;
  po_owner : OwnerPc;
  po_submitted : list Job;
  po_taken : list Job;
  po_ran : list Job
}.

Definition pool_new (size : nat) : Pool := mkPool [] false (replicate size WLock) OIdle [] [] [].

(** The lock is held by the worker that is within its guard. *)
Definition holds (pc : WPc) : bool := match pc with WFlag | WPop | WPark => true | _ => false end.
Definition lock_free (p : Pool) : bool := forallb (λ pc, negb (holds pc)) (po_workers p).

Definition set_worker (i : nat) (pc : WPc) (p : Pool) : Pool :=
  mkPool (po_jobs p) (po_shutdown p) (<[i := pc]> (po_workers p)) (po_owner p) (po_submitted p) (po_taken p) (po_ran p).

(** One step of worker [i]; [None]: it waits or has ended. *)
Definition worker_step (i : nat) (p : Pool) : option Pool :=
  match po_workers p !! i with
  | Some WLock | Some WWoken => if lock_free p then Some (set_worker i WFlag p) else None
  | Some WFlag => Some (set_worker i (if po_shutdown p then WDone else WPop) p)
  | Some WPop =>
      match po_jobs p with
      | j :: jobs => Some (mkPool jobs (po_shutdown p) (<[i := WRun j]> (po_workers p)) (po_owner p) (po_submitted p) (po_taken p ++ [j]) (po_ran p))
      | [] => Some (set_worker i WPark p)
      end
  | Some WPark => Some (set_worker i WWait p)
  | Some (WRun j) => Some (mkPool (po_jobs p) (po_shutdown p) (<[i := WLock]> (po_workers p)) (po_owner p) (po_submitted p) (po_taken p) (po_ran p ++ [j]))
  | Some WWait | Some WDone | None => None
  end.

Definition set_owner (pc : OwnerPc) (p : Pool) : Pool :=
  mkPool (po_jobs p) (po_shutdown p) (po_workers p) pc (po_submitted p) (po_taken p) (po_ran p).

Definition waiting (p : Pool) : bool := existsb (λ pc, bool_decide (pc = WWait)) (po_workers p).

(** One step of the server's thread; [w] is the waiter that [notify_one]
    wakes. *)
Definition owner_step (w : nat) (p : Pool) : option Pool :=
  match po_owner p with
  | OPush j =>
      if lock_free p then Some (mkPool (po_jobs p ++ [j]) (po_shutdown p) (po_workers p) ONotify (po_submitted p ++ [j]) (po_taken p) (po_ran p))
      else None
  | ONotify =>
      if waiting p then
        if bool_decide (po_workers p !! w = Some WWait) then Some (set_owner OIdle (set_worker w WWoken p)) else None
      else Some (set_owner OIdle p)
  | OStop =>
      Some (mkPool (po_jobs p) (po_shutdown p) ((λ pc, if bool_decide (pc = WWait) then WWoken else pc) <$> po_workers p) OJoin
              (po_submitted p) (po_taken p) (po_ran p))
  | OJoin => if forallb (λ pc, bool_decide (pc = WDone)) (po_workers p) then Some (set_owner OEnd p) else None
  | OIdle | OEnd => None
  end.

Inductive PoolEv :=
  | PSubmit (j : Job)
  | PDrop
  | POwner (w : nat)
  | PWorker (i : nat)
  | PSpurious (i : nat).

(** [PSubmit] and [PDrop] are calls of the server's thread; a waiter may be
    woken without a notification. *)
Definition pool_step (ev : PoolEv) (p : Pool) : option Pool :=
  match ev with
  | PSubmit j => if bool_decide (po_owner p = OIdle) then Some (set_owner (OPush j) p) else None
  | PDrop =>
      if bool_decide (po_owner p = OIdle) then
        Some (mkPool (po_jobs p) true (po_workers p) OStop (po_submitted p) (po_taken p) (po_ran p))
      else None
  | POwner w => owner_step w p
  | PWorker i => worker_step i p
  | PSpurious i => if bool_decide (po_workers p !! i = Some WWait) then Some (set_worker i WWoken p) else None
  end.

Fixpoint pool_run (evs : list PoolEv) (p : Pool) : option Pool :=
  match evs with
  | [] => Some p
  | ev :: evs => p ← pool_step ev p; pool_run evs p
  end.

(** Neither a worker nor the server's thread within a call can go on. *)
Definition quiescent (p : Pool) : Prop := (∀ i, worker_step i p = None) ∧ (∀ w, owner_step w p = None).

(** ** The invariant *)

Definition running (ws : list WPc) : list Job := omap (λ pc, match pc with WRun j => Some j | _ => None end) ws.

(** A worker that will look at the queue before it waits. *)
Definition awake (pc : WPc) : bool := match pc with WLock | WFlag | WPop | WWoken | WRun _ => true | _ => false end.

Record pool_inv (p : Pool) : Prop := {
  pi_order : po_taken p ++ po_jobs p = po_submitted p;
  pi_ran : po_taken p ≡ₚ po_ran p ++ running (po_workers p);
  pi_lock i j pc pc' : po_workers p !! i = Some pc → po_workers p !! j = Some pc' → holds pc = true → holds pc' = true → i = j;
  pi_park : WPark ∈ po_workers p → po_jobs p = [];
  pi_some : po_workers p ≠ [];
  pi_flag : po_shutdown p = true ↔ po_owner p = OStop ∨ po_owner p = OJoin ∨ po_owner p = OEnd;
  pi_end : po_shutdown p = false → WDone ∉ po_workers p;
  pi_awake : po_shutdown p = false → po_jobs p ≠ [] → po_owner p = ONotify ∨ ∃ pc, pc ∈ po_workers p ∧ awake pc = true
}.

Lemma lock_free_spec p : lock_free p = true ↔ ∀ pc, pc ∈ po_workers p → holds pc = false.
Proof.
  unfold lock_free. rewrite forallb_forall. split; intros H pc Hi; [apply list_elem_of_In in Hi|apply list_elem_of_In in Hi]; specialize (H pc Hi); by destruct (holds pc).
Qed.

Lemma waiting_false p : waiting p = false → WWait ∉ po_workers p.
Proof.
  unfold waiting. intros H Hin. apply not_true_iff_false in H. apply H, existsb_exists. exists WWait. split; [by apply list_elem_of_In|]. by rewrite bool_decide_eq_true_2.
Qed.

(** What a change of one worker does to the list. *)
Lemma worker_split (ws : list WPc) i x : ws !! i = Some x → ∃ l1 l2, ws = l1 ++ x :: l2 ∧ length l1 = i ∧ ∀ y, <[i := y]> ws = l1 ++ y :: l2.
Proof.
  intros H. exists (take i ws), (drop (S i) ws). split; [by rewrite take_drop_middle|]. apply lookup_lt_Some in H as Hl.
  split; [rewrite length_take; lia|]. intros y. by rewrite insert_take_drop.
Qed.

Lemma running_insert ws i x y : ws !! i = Some x → running (<[i := y]> ws) ++ running [x] ≡ₚ running ws ++ running [y].
Proof.
  intros H. destruct (worker_split ws i x H) as (l1 & l2 & -> & _ & Hy). rewrite Hy. unfold running. rewrite !omap_app. cbn [omap list_omap].
  destruct x, y; cbn; solve_Permutation.
Qed.

Lemma elem_of_set_worker (ws : list WPc) i x y pc : ws !! i = Some x → pc ∈ <[i := y]> ws → pc = y ∨ pc ∈ ws.
Proof. intros H Hin. apply list_elem_of_lookup in Hin as [k Hk]. apply list_lookup_insert_Some in Hk as [(_ & -> & _)|(_ & Hk)]; [by left|right; by eapply list_elem_of_lookup_2]. Qed.

Lemma elem_of_other (ws : list WPc) i x y pc : ws !! i = Some x → pc ∈ ws → pc ≠ x → pc ∈ <[i := y]> ws.
Proof.
  intros H Hin Hne. apply list_elem_of_lookup in Hin as [k Hk]. apply list_elem_of_lookup. exists k. rewrite list_lookup_insert_ne; [done|]. intros ->. congruence.
Qed.

Lemma elem_of_set_self (ws : list WPc) i x y : ws !! i = Some x → y ∈ <[i := y]> ws.
Proof. intros H. apply list_elem_of_lookup. exists i. apply list_lookup_insert_eq. by eapply lookup_lt_Some. Qed.

(** A worker goes from [x] to [y], and the queue may lose its front. *)
Lemma change_worker_inv i x y jobs taken ran p : pool_inv p → po_workers p !! i = Some x →
  taken ++ jobs = po_submitted p → taken ≡ₚ ran ++ running (<[i := y]> (po_workers p)) →
  (holds y = true → holds x = true ∨ lock_free p = true) → (po_jobs p = [] → jobs = []) → (y = WPark → jobs = []) →
  (y = WDone → po_shutdown p = true) → awake y = true ∨ awake x = false ∨ jobs = [] ∨ po_shutdown p = true →
  pool_inv (mkPool jobs (po_shutdown p) (<[i := y]> (po_workers p)) (po_owner p) (po_submitted p) taken ran).
Proof.
  intros [H1 H2 H3 H4 H5 H6 H7 H8] Hi Ho Hr Hl Hj Hp Hd Ha. constructor; cbn [po_jobs po_shutdown po_workers po_owner po_submitted po_taken po_ran]; try done.
  - intros a b pc pc' Ea Eb Hh Hh'. destruct (decide (a = i)) as [->|Na], (decide (b = i)) as [->|Nb]; [done|..].
    + rewrite list_lookup_insert_eq in Ea by by eapply lookup_lt_Some. rewrite list_lookup_insert_ne in Eb by done. injection Ea as <-.
      destruct (Hl Hh) as [Hx|Hf]; [by eapply (H3 i b x pc')|]. apply list_elem_of_lookup_2 in Eb. rewrite lock_free_spec in Hf. rewrite (Hf _ Eb) in Hh'. done.
    + rewrite list_lookup_insert_eq in Eb by by eapply lookup_lt_Some. rewrite list_lookup_insert_ne in Ea by done. injection Eb as <-.
      destruct (Hl Hh') as [Hx|Hf]; [by eapply (H3 a i pc x)|]. apply list_elem_of_lookup_2 in Ea. rewrite lock_free_spec in Hf. rewrite (Hf _ Ea) in Hh. done.
    + rewrite list_lookup_insert_ne in Ea, Eb by done. by eapply H3.
  - intros Hin. apply (elem_of_set_worker _ _ x) in Hin as [Hy|Hin]; [by apply Hp|auto|done].
  - intros E. apply (f_equal length) in E. rewrite length_insert in E. by destruct (po_workers p).
  - intros Hs Hin. apply (elem_of_set_worker _ _ x) in Hin as [Hy|Hin]; [|by apply (H7 Hs)|done]. symmetry in Hy. apply Hd in Hy. congruence.
  - intros Hs Hne. destruct (H8 Hs) as [?|(pc & Hin & Haw)]; [by auto|by left|]. right.
    destruct Ha as [Hy|[Hx|[?|?]]]; [|  |done|congruence].
    + exists y. split; [by eapply elem_of_set_self|done].
    + exists pc. split; [|done]. eapply elem_of_other; [done..|]. congruence.
Qed.

Lemma set_worker_inv i x y p : pool_inv p → po_workers p !! i = Some x → running [x] = [] → running [y] = [] →
  (holds y = true → holds x = true ∨ lock_free p = true) → (y = WPark → po_jobs p = []) →
  (y = WDone → po_shutdown p = true) → awake y = true ∨ awake x = false ∨ po_jobs p = [] ∨ po_shutdown p = true →
  pool_inv (set_worker i y p).
Proof.
  intros Hinv Hi Hx Hy Hl Hp Hd Ha. pose proof Hinv as [H1 H2 _ _ _ _ _ _]. apply (change_worker_inv i x); try done.
  rewrite H2. pose proof (running_insert _ _ _ y Hi) as E. rewrite Hx, Hy, !app_nil_r in E. by rewrite E.
Qed.

Lemma worker_step_inv i p p' : pool_inv p → worker_step i p = Some p' → pool_inv p'.
Proof.
  intros Hinv. pose proof Hinv as [H1 H2 H3 H4 H5 H6 H7 H8]. unfold worker_step. destruct (po_workers p !! i) as [pc|] eqn:Ei; [|done]. destruct pc as [| | | | | |j|]; try done.
  - destruct (lock_free p) eqn:El; [|done]. intros [= <-]. apply (set_worker_inv i WLock); auto; done.
  - intros [= <-]. destruct (po_shutdown p) eqn:Es; apply (set_worker_inv i WFlag); rewrite ?Es; auto; try done.
  - destruct (po_jobs p) as [|j jobs] eqn:Ej; intros [= <-].
    + apply (set_worker_inv i WPop); auto; try done.
    + apply (change_worker_inv i WPop); auto; try done.
      * by rewrite <-H1, <-app_assoc.
      * pose proof (running_insert _ _ _ (WRun j) Ei) as E. change (running [WPop]) with (@nil Job) in E. rewrite app_nil_r in E. rewrite E.
        change (running [WRun j]) with [j]. by rewrite app_assoc, <-H2.
      * by rewrite Ej.
  - intros [= <-]. apply (set_worker_inv i WPark); auto; done.
  - destruct (lock_free p) eqn:El; [|done]. intros [= <-]. apply (set_worker_inv i WWoken); auto; done.
  - intros [= <-]. apply (change_worker_inv i (WRun j)); auto; try done.
    pose proof (running_insert _ _ _ WLock Ei) as E. change (running [WLock]) with (@nil Job) in E. rewrite app_nil_r in E. change (running [WRun j]) with [j] in E.
    rewrite H2, <-E. solve_Permutation.
Qed.

(** Waking a waiter. *)
Lemma wake_inv i p : pool_inv p → po_workers p !! i = Some WWait → pool_inv (set_worker i WWoken p).
Proof. intros Hinv Hi. apply (set_worker_inv i WWait); auto; done. Qed.

Lemma wake_all_running ws : running ((λ pc, if bool_decide (pc = WWait) then WWoken else pc) <$> ws) = running ws.
Proof. unfold running. induction ws as [|pc ws IH]; [done|]. cbn. rewrite <-IH. by destruct pc. Qed.

Lemma owner_step_inv w p p' : pool_inv p → owner_step w p = Some p' → pool_inv p'.
Proof.
  intros Hinv. pose proof Hinv as [H1 H2 H3 H4 H5 H6 H7 H8]. unfold owner_step. destruct (po_owner p) as [|j| | | |] eqn:Eo; try done.
  - destruct (lock_free p) eqn:El; [|done]. intros [= <-]. constructor; cbn; try done.
    + by rewrite app_assoc, H1.
    + intros Hin. rewrite lock_free_spec in El. by specialize (El _ Hin).
    + rewrite H6. naive_solver.
    + by left.
  - destruct (waiting p) eqn:Ew.
    + case_bool_decide as Hw; [|done]. intros [= <-]. pose proof (wake_inv w p Hinv Hw) as [G1 G2 G3 G4 G5 G6 G7 G8]. constructor; cbn in *; try done.
      * rewrite G6, Eo. naive_solver.
      * intros _ _. right. exists WWoken. split; [by eapply elem_of_set_self|done].
    + intros [= <-]. constructor; cbn; try done; [rewrite H6; naive_solver|]. intros Hs Hne. right. apply waiting_false in Ew.
      destruct (po_workers p) as [|pc ws] eqn:Ep; [done|]. exists pc. split; [left|].
      destruct pc; try done; [by rewrite H4 in Hne by left|by destruct Ew; left|by destruct (H7 Hs); left].
  - intros [= <-]. assert (po_shutdown p = true) as Es by (apply H6; by left). constructor; cbn; try done; try congruence.
    + by rewrite wake_all_running.
    + intros a b pc pc' Ea Eb Hh Hh'. rewrite list_lookup_fmap in Ea, Eb. apply fmap_Some in Ea as (x & Ea & ->). apply fmap_Some in Eb as (y & Eb & ->).
      eapply H3; [exact Ea|exact Eb|by destruct x|by destruct y].
    + intros Hin. apply H4. apply list_elem_of_fmap in Hin as (x & Hx & Hin). by destruct x.
    + by destruct (po_workers p).
    + rewrite Es. naive_solver.
  - destruct (forallb _ _); [|done]. intros [= <-]. assert (po_shutdown p = true) as Es by (apply H6; auto). constructor; cbn; try done; try congruence.
    rewrite Es. naive_solver.
Qed.

Lemma pool_step_inv ev p p' : pool_inv p → pool_step ev p = Some p' → pool_inv p'.
Proof.
  intros Hinv. destruct ev as [j| |w|i|i]; cbn [pool_step].
  - case_bool_decide as Eo; [|done]. intros [= <-]. destruct Hinv as [H1 H2 H3 H4 H5 H6 H7 H8]. constructor; cbn; try done.
    + rewrite H6, Eo. naive_solver.
    + intros Hs Hne. right. by destruct (H8 Hs Hne) as [?|?]; [congruence|].
  - case_bool_decide as Eo; [|done]. intros [= <-]. destruct Hinv as [H1 H2 H3 H4 H5 H6 H7 H8]. constructor; cbn; try done. naive_solver.
  - by apply owner_step_inv.
  - by apply worker_step_inv.
  - case_bool_decide as Hi; [|done]. intros [= <-]. by apply wake_inv.
Qed.

Lemma pool_run_inv evs p p' : pool_inv p → pool_run evs p = Some p' → pool_inv p'.
Proof.
  revert p. induction evs as [|ev evs IH]; intros p Hi; cbn [pool_run]; [by intros [= <-]|].
  intros H. apply bind_Some in H as (p1 & E & H). eauto using pool_step_inv.
Qed.

Lemma pool_new_inv size : (0 < size)%nat → pool_inv (pool_new size).
Proof.
  intros Hs. constructor; cbn; try done.
  - by induction size as [|[|n] IH]; [lia|..|apply IH; lia].
  - intros i j pc pc' Ei Ej Hh. apply lookup_replicate in Ei as [-> _]. done.
  - destruct size; [lia|done].
  - naive_solver.
  - intros _ Hin. by apply elem_of_replicate in Hin as [? _].
Qed.

(** ** Nothing is stuck *)

(** Some worker holds the lock, or any worker can take it. *)
Lemma awake_steps p pc : pc ∈ po_workers p → awake pc = true ∨ holds pc = true → ∃ i, is_Some (worker_step i p).
Proof.
  intros Hin Ha. destruct (lock_free p) eqn:El.
  - apply list_elem_of_lookup in Hin as [i Hi]. exists i. unfold worker_step. rewrite Hi, El. destruct pc; try by eexists.
    + destruct (po_jobs p); by eexists.
    + by destruct Ha.
    + by destruct Ha.
  - unfold lock_free in El. apply not_true_iff_false in El. rewrite forallb_forall in El.
    assert (∃ x, x ∈ po_workers p ∧ holds x = true) as (x & Hx & Hh).
    { destruct (decide (Exists (λ x, holds x = true) (po_workers p))) as [He|Hn]; [by apply Exists_exists in He|].
      destruct El. intros x Hx. apply list_elem_of_In in Hx. destruct (holds x) eqn:E; [|done]. destruct Hn. apply Exists_exists. eauto. }
    apply list_elem_of_lookup in Hx as [i Hi]. exists i. unfold worker_step. rewrite Hi. destruct x; try done; destruct (po_jobs p); by eexists.
Qed.

Lemma quiescent_asleep p pc : quiescent p → pc ∈ po_workers p → pc = WWait ∨ pc = WDone.
Proof.
  intros [Hq _] Hin. destruct (decide (awake pc = true ∨ holds pc = true)) as [Ha|Hn].
  - destruct (awake_steps p pc Hin Ha) as [i [? E]]. by rewrite Hq in E.
  - destruct pc; naive_solver.
Qed.

Lemma running_asleep ws : (∀ pc, pc ∈ ws → pc = WWait ∨ pc = WDone) → running ws = [].
Proof.
  induction ws as [|pc ws IH]; [done|]. intros H. unfold running. cbn. assert (running ws = []) as E by (apply IH; intros x Hx; apply H; by right).
  unfold running in E. destruct (H pc) as [->| ->]; [left|exact E..].
Qed.

(** After the notification of a drop, no worker waits, and none of those that
    have not passed their look at the flag will. *)
Record stopping (p : Pool) : Prop := {
  sp_flag : po_shutdown p = true;
  sp_owner : po_owner p = OJoin ∨ po_owner p = OEnd;
  sp_workers pc : pc ∈ po_workers p → pc ≠ WPop ∧ pc ≠ WPark ∧ pc ≠ WWait
}.

Lemma stopping_worker i x y jobs taken ran p : stopping p → po_workers p !! i = Some x → y ≠ WPop → y ≠ WPark → y ≠ WWait →
  stopping (mkPool jobs (po_shutdown p) (<[i := y]> (po_workers p)) (po_owner p) (po_submitted p) taken ran).
Proof.
  intros [H1 H2 H3] Hi Hy1 Hy2 Hy3. constructor; cbn; [done..|]. intros pc Hin. apply (elem_of_set_worker _ _ x) in Hin as [->|Hin]; [done|auto|done].
Qed.

Lemma stopping_step ev p p' : stopping p → pool_step ev p = Some p' → stopping p'.
Proof.
  intros Hs. pose proof Hs as [H1 H2 H3]. destruct ev as [j| |w|i|i]; cbn [pool_step].
  - case_bool_decide; [|done]. destruct H2; congruence.
  - case_bool_decide; [|done]. destruct H2; congruence.
  - unfold owner_step. destruct H2 as [->| ->]; [|done]. destruct (forallb _ _); [|done]. intros [= <-]. constructor; cbn; auto.
  - unfold worker_step. destruct (po_workers p !! i) as [pc|] eqn:Ei; [|done]. pose proof (H3 pc (list_elem_of_lookup_2 _ _ _ Ei)) as (? & ? & ?).
    destruct pc; try done; [destruct (lock_free p); [|done]| |destruct (lock_free p); [|done]|]; intros [= <-]; eapply stopping_worker; eauto; by rewrite ?H1.
  - case_bool_decide as Hi; [|done]. by destruct (H3 WWait (list_elem_of_lookup_2 _ _ _ Hi)) as (_ & _ & ?).
Qed.

Lemma stopping_run evs p p' : stopping p → pool_run evs p = Some p' → stopping p'.
Proof.
  revert p. induction evs as [|ev evs IH]; intros p Hi; cbn [pool_run]; [by intros [= <-]|].
  intros H. apply bind_Some in H as (p1 & E & H). eauto using stopping_step.
Qed.

Lemma stopping_ends p : stopping p → quiescent p → po_owner p = OEnd ∧ Forall (eq WDone) (po_workers p).
Proof.
  intros [H1 H2 H3] Hq. assert (Forall (eq WDone) (po_workers p)) as Hd.
  { apply Forall_forall. intros pc Hin. destruct (quiescent_asleep p pc Hq Hin) as [->| ->]; [|done]. by destruct (H3 _ Hin) as (_ & _ & ?). }
  split; [|done]. destruct H2 as [Ho|]; [|done]. destruct Hq as [_ Hq]. specialize (Hq 0%nat). unfold owner_step in Hq. rewrite Ho in Hq.
  destruct (forallb _ _) eqn:E; [done|]. apply not_true_iff_false in E. destruct E. apply forallb_forall. intros pc Hin. apply list_elem_of_In in Hin.
  rewrite Forall_forall in Hd. rewrite <-(Hd pc Hin). done.
Qed.

(** [C27] The pool runs every job once.  In every interleaving of the workers, of
    the thread that submits, and of wake-ups without a reason, the queue is
    accessed by one worker at a time, jobs are taken in the order of their
    submission, and those taken are run or being run, each once.  No wake-up
    is lost while jobs are submitted: where nothing can go on before the pool
    is dropped, every job submitted has been run. *)
Theorem pool_runs_jobs size evs p : (0 < size)%nat → pool_run evs (pool_new size) = Some p →
  po_taken p ++ po_jobs p = po_submitted p ∧
  po_taken p ≡ₚ po_ran p ++ running (po_workers p) ∧
  (∀ i j pc pc', po_workers p !! i = Some pc → po_workers p !! j = Some pc' → holds pc = true → holds pc' = true → i = j) ∧
  (po_shutdown p = false → quiescent p → po_jobs p = [] ∧ po_ran p ≡ₚ po_submitted p).
Proof.
  intros Hs H. pose proof (pool_run_inv evs _ p (pool_new_inv size Hs) H) as [H1 H2 H3 H4 H5 H6 H7 H8].
  do 3 (split; [done|]). intros Hf Hq. assert (po_jobs p = []) as Hj.
  { destruct (decide (po_jobs p = [])) as [|Hne]; [done|]. destruct (H8 Hf Hne) as [Ho|(pc & Hin & Ha)].
    - destruct Hq as [_ Hq]. destruct (waiting p) eqn:Ew.
      + pose proof Ew as Hw. unfold waiting in Hw. apply existsb_exists in Hw as (x & Hx & Hb). apply bool_decide_eq_true in Hb as ->.
        apply list_elem_of_In, list_elem_of_lookup in Hx as [w Hw]. specialize (Hq w). unfold owner_step in Hq. rewrite Ho, Ew, bool_decide_eq_true_2 in Hq by done. done.
      + specialize (Hq 0%nat). unfold owner_step in Hq. by rewrite Ho, Ew in Hq.
    - destruct (quiescent_asleep p pc Hq Hin) as [->| ->]; done. }
  split; [done|]. rewrite <-H1, Hj, app_nil_r, H2, (running_asleep (po_workers p)), app_nil_r; [done|]. intros pc. by apply quiescent_asleep.
Qed.

(** A drop ends, whatever happens afterwards, if at its notification no worker
    stands between its look at the flag and its wait. *)
Lemma drop_ends evs p p' : pool_inv p → po_owner p = OStop → WPop ∉ po_workers p → WPark ∉ po_workers p →
  pool_run (POwner 0 :: evs) p = Some p' → quiescent p' → po_owner p' = OEnd ∧ Forall (eq WDone) (po_workers p').
Proof.
  intros Hi Ho Hp Hk H Hq. apply stopping_ends; [|done]. cbn [pool_run pool_step] in H. apply bind_Some in H as (p1 & E & H). apply (stopping_run evs p1); [|done].
  unfold owner_step in E. rewrite Ho in E. injection E as <-. constructor; cbn; [apply Hi; by left|by left|].
  intros pc Hin. apply list_elem_of_fmap in Hin as (x & -> & Hin). case_bool_decide; [done|]. split_and!; [by intros ->|by intros ->|done].
Qed.

(** A worker that has looked at the flag and the queue and has not begun to
    wait misses the notification of the drop, which does not take the lock. *)
Definition missed : list PoolEv := [PWorker 0; PWorker 0; PWorker 0; PDrop; POwner 0; PWorker 0].
Definition missed_pool : Pool := mkPool [] true [WWait] OJoin [] [] [].

(** The drop of the pool then never returns, and with it the server's: the
    worker waits, the server's thread joins it, and nothing can go on. *)
Theorem missed_drop_hangs : pool_run missed (pool_new 1) = Some missed_pool ∧ quiescent missed_pool ∧
  ∀ evs p, Forall (λ ev, ∀ i, ev ≠ PSpurious i) evs → pool_run evs missed_pool = Some p → p = missed_pool.
Proof.
  split; [reflexivity|]. assert (quiescent missed_pool) as Hq. { split; [|done]. intros [|i]; done. } split; [done|].
  intros evs p Hf. destruct evs as [|ev evs]; [by intros [= <-]|]. apply Forall_cons in Hf as [Hev _]. cbn [pool_run].
  assert (pool_step ev missed_pool = None) as ->; [|done]. destruct Hq as [Hw Ho]. destruct ev as [j| |w|i|i]; [done..|apply Ho|apply Hw|by destruct (Hev i)].
Qed.

Definition ex_jobs : list PoolEv :=
  [PWorker 0; PWorker 0; PWorker 0; PWorker 0; PSubmit 5; POwner 0; POwner 0; PWorker 0; PSubmit 6; PWorker 0; PWorker 0; POwner 0; POwner 0;
   PWorker 0; PWorker 0; PWorker 0; PWorker 0; PWorker 0; PWorker 0; PWorker 0; PWorker 0; PWorker 0].

Lemma pool_runs_jobs_witness : ∃ p, pool_run ex_jobs (pool_new 1) = Some p ∧ po_submitted p = [5; 6]%nat ∧ po_jobs p = [] ∧ po_ran p ≡ₚ [5; 6]%nat.
Proof.
  destruct (pool_run ex_jobs (pool_new 1)) as [p|] eqn:E; [|vm_compute in E; discriminate E].
  exists p. split; [done|]. destruct (pool_runs_jobs 1 ex_jobs p ltac:(lia) E) as (_ & _ & _ & H).
  vm_compute in E. injection E as <-. split; [reflexivity|]. apply H; [reflexivity|]. split; [|reflexivity]. intros [|i]; reflexivity.
Defined.
