(* ===== verification/MoqDial.v ===== *)
(** * Media relay: dialling and the opening of a control channel

    Models, of [crates/moq-live/src/client.rs], [handshake] with its use by
    [Publisher::connect], [connect_gmpq], [Subscriber::connect] and
    [connect_gmpq]; and, of [relay.rs], [open_control] with the SETUP exchange
    that begins [handle_connection].  The results of QUIC, and of the GM-PQ
    handshake that [MoqGmAccept] models, are arguments; [feature] is the
    compile-time feature [gm-pq].  [None] is a panic. *)

From S2P Require Import Prelude Bytes MoqCodec MoqDropQueue MoqCache MoqHub MoqRelay MoqClient.
From S2P Require Import GmCrypto GmKem MoqGmAccept.

Inductive DialError :=
  | DeConnect
  | DeQuic
  | DeStream
  | DeGmPq
  | DeIo (e : IoError)
  | DeUnexpected (got : option Message)
  | DeVersion (v : Z).

(** *)
Record Plane := mkPlane {
  pl_sender : ControlSender;
  pl_receiver : ControlReceiver;
  pl_info : option GmPqInfo
}.

(** What the outside does: [endpoint.connect], the QUIC handshake, the opening
    of the stream, what arrives on it, and the GM-PQ handshake with what
    arrives through the session. *)
Record DialEnv := mkDialEnv {
  dv_connect : bool;
  dv_quic : bool;
  dv_stream : bool;
  dv_raw : list ReadEvent;
  dv_gm : option GmPqInfo;
  dv_inbox : list (list Z);
  dv_ended : bool
}.

(** A wait for something that never comes is a result of its own. *)
Inductive Dialled :=
  | Waiting (p : Plane)
  | Refused (e : DialError)
  | Dialled_ok (p : Plane).

(** The control channel of either end, once there is a stream. *)
Definition open_plane (gmpq : bool) (env : DialEnv) : DialError + Plane :=
  if gmpq then
    match dv_gm env with
    | None => inl DeGmPq
    | Some info => inr (mkPlane (SecureSender []) (SecureReceiver (dv_inbox env) (dv_ended env)) (Some info))
    end
  else inr (mkPlane (RawSender []) (RawReceiver [] (dv_raw env)) None).

(** [handshake]; [gmpq] is whether there is an identity. *)
Definition handshake (feature gmpq : bool) (role : Role) (env : DialEnv) : option Dialled :=
  if negb (dv_connect env) then Some (Refused DeConnect) else
  if negb (dv_quic env) then Some (Refused DeQuic) else
  if negb (dv_stream env) then Some (Refused DeStream) else
  match open_plane (feature && gmpq) env with
  | inl e => Some (Refused e)
  | inr p =>
      s ← control_send (setup_request role) (pl_sender p);
      '(x, r) ← control_recv (pl_receiver p);
      let p := mkPlane s r (pl_info p) in
      Some (match x with
            | Pending => Waiting p
            | Ready (inl e) => Refused (DeIo e)
            | Ready (inr (Some (Setup _ _))) => Dialled_ok p
            | Ready (inr other) => Refused (DeUnexpected other)
            end)
  end.

(** [connect]: without an identity; the information is dropped. *)
Definition connect (feature : bool) (role : Role) (env : DialEnv) : option Dialled := handshake feature false role env.

(** [connect_gmpq]: [info.expect(..)] panics without the information. *)
Definition connect_gmpq (role : Role) (env : DialEnv) : option (Dialled * option GmPqInfo) :=
  d ← handshake true true role env;
  match d with
  | Dialled_ok p => info ← pl_info p; Some (d, Some info)
  | _ => Some (d, None)
  end.

(** [open_control], then the SETUP of [handle_connection]; [dv_stream] is
    [accept_bi]. *)
Definition accept (feature gmpq : bool) (env : DialEnv) : option (Dialled * option Role) :=
  if negb (dv_stream env) then Some (Refused DeStream, None) else
  match open_plane (feature && gmpq) env with
  | inl e => Some (Refused e, None)
  | inr p =>
      '(x, r) ← control_recv (pl_receiver p);
      match x with
      | Pending => Some (Waiting (mkPlane (pl_sender p) r (pl_info p)), None)
      | Ready (inl e) => Some (Refused (DeIo e), None)
      | Ready (inr (Some (Setup version role))) =>
          if negb (version =? PROTO_VERSION) then Some (Refused (DeVersion version), None) else
          s ← control_send (Setup PROTO_VERSION Both) (pl_sender p);
          Some (Dialled_ok (mkPlane s r (pl_info p)), Some role)
      | Ready (inr other) => Some (Refused (DeUnexpected other), None)
      end
  end.

(** What a plane has sent, as the other end's network input: the bytes of a
    stream in some cut, or the messages of a session. *)
Definition carried (s : ControlSender) (chunks : list (list Z)) (env : DialEnv) : Prop :=
  match s with
  | RawSender w => concat chunks = w ∧ dv_raw env = map Chunk chunks
  | SecureSender q => dv_inbox env = q
  end.

(** ** Both ends meet *)

Definition fresh_sender (g : bool) : ControlSender := if g then SecureSender [] else RawSender [].

Lemma open_plane_ok g env : (g = true → is_Some (dv_gm env)) →
  ∃ info, open_plane g env = inr (mkPlane (fresh_sender g) (if g then SecureReceiver (dv_inbox env) (dv_ended env) else RawReceiver [] (dv_raw env)) info) ∧
    (is_Some info ↔ g = true).
Proof.
  intros H. unfold open_plane. destruct g.
  - destruct (H eq_refl) as [i ->]. exists (Some i). split; [done|]. split; [done|]. by eexists.
  - exists None. split; [done|]. split; [by intros [? ?]|done].
Qed.

(** The first message of the other end arrives. *)
Lemma setup_arrives g m s chunks env : wf_msg m → control_send m (fresh_sender g) = Some s → carried s chunks env →
  ∃ r, control_recv (if g then SecureReceiver (dv_inbox env) (dv_ended env) else RawReceiver [] (dv_raw env)) = Some (Ready (inr (Some (wire m))), r).
Proof.
  intros Hwf Hs Hc. unfold control_send in Hs. apply bind_Some in Hs as (f & Ef & [= <-]). destruct g; cbn [fresh_sender carried] in Hc |- *.
  - cbn [control_recv]. rewrite Hc. cbn [app]. rewrite (message_decode_encode m f Hwf Ef). by eexists.
  - destruct Hc as [Hcat ->]. cbn [control_recv]. destruct (reader_read_message m f [] chunks [] [] Hwf Ef) as (buf & ch & E & _); [by rewrite app_nil_r|].
    rewrite app_nil_r in E. rewrite E. by eexists.
Qed.

Lemma wf_setup role : wf_msg (Setup PROTO_VERSION role).
Proof. done. Qed.

(** A client and the relay with the same settings meet.  If the stream is
    there, the GM-PQ handshake has succeeded where it is wanted, and what each
    end has sent reaches the other, a stream's bytes in any cut, then the dial
    returns a control channel and the relay takes the client's role; both ends
    have sent their SETUP and nothing else, and both have the information of
    the GM-PQ session exactly if it is wanted. *)
Theorem dial_completes (feature gmpq : bool) (role : Role) (ec es : DialEnv) chunks_c chunks_s (s_c s_s : ControlSender) :
  control_send (setup_request role) (fresh_sender (feature && gmpq)) = Some s_c →
  control_send (Setup PROTO_VERSION Both) (fresh_sender (feature && gmpq)) = Some s_s →
  carried s_c chunks_c es → carried s_s chunks_s ec →
  dv_connect ec = true → dv_quic ec = true → dv_stream ec = true → dv_stream es = true →
  (feature && gmpq = true → is_Some (dv_gm ec) ∧ is_Some (dv_gm es)) →
  ∃ pc ps, handshake feature gmpq role ec = Some (Dialled_ok pc) ∧ accept feature gmpq es = Some (Dialled_ok ps, Some role) ∧
    pl_sender pc = s_c ∧ pl_sender ps = s_s ∧
    (is_Some (pl_info pc) ↔ feature && gmpq = true) ∧ (is_Some (pl_info ps) ↔ feature && gmpq = true).
Proof.
  intros Hc Hs Cc Cs H1 H2 H3 H4 Hg. unfold handshake, accept. rewrite H1, H2, H3, H4. cbn [negb].
  destruct (open_plane_ok (feature && gmpq) ec) as (ic & Ec & Ic); [naive_solver|]. destruct (open_plane_ok (feature && gmpq) es) as (ix & Es & Is); [naive_solver|].
  rewrite Ec, Es. cbn [pl_sender pl_receiver pl_info]. rewrite Hc, Hs. cbn [mbind option_bind].
  destruct (setup_arrives _ _ _ _ ec (wf_setup Both) Hs Cs) as [rc ->]. destruct (setup_arrives _ _ _ _ es (wf_setup role) Hc Cc) as [rs ->].
  cbn [mbind option_bind wire]. rewrite Z.eqb_refl. cbn [negb]. eexists _, _. split; [done|]. split; [done|]. done.
Qed.

(** The information that [connect_gmpq] expects is always there: it panics
    only if the encoder or the decoder does. *)
Lemma connect_gmpq_informed role env : (connect_gmpq role env = None → handshake true true role env = None) ∧
  ∀ p info, connect_gmpq role env = Some (Dialled_ok p, info) → is_Some info ∧ pl_info p = info.
Proof.
  assert (∀ p, handshake true true role env = Some (Dialled_ok p) → is_Some (pl_info p)) as Hi.
  { intros p. unfold handshake. destruct (dv_connect env), (dv_quic env), (dv_stream env); try done. cbn [negb]. unfold open_plane. cbn [andb].
    destruct (dv_gm env) as [i|]; [|done]. intros H. apply bind_Some in H as (s & _ & H). apply bind_Some in H as ([x r] & _ & H).
    destruct x as [|[e|[[]|]]]; try done. injection H as <-. by eexists. }
  unfold connect_gmpq. destruct (handshake true true role env) as [d|]; [|done]. cbn [mbind option_bind]. destruct d as [p|e|p]; [done..|].
  destruct (Hi p eq_refl) as [i Ei]; rewrite Ei. cbn [mbind option_bind]. split; [done|]. intros p' info [= <- <-]. split; [by eexists|]. done.
Qed.

(** A client of another version is refused without an answer. *)
Lemma other_version_refused feature gmpq v role s chunks es : is_u64 v → v ≠ PROTO_VERSION →
  control_send (Setup v role) (fresh_sender (feature && gmpq)) = Some s → carried s chunks es → dv_stream es = true →
  (feature && gmpq = true → is_Some (dv_gm es)) → accept feature gmpq es = Some (Refused (DeVersion v), None).
Proof.
  intros Hv Hne Hs Hc H1 Hg. unfold accept. rewrite H1. cbn [negb]. destruct (open_plane_ok (feature && gmpq) es Hg) as (i & E & _). rewrite E. cbn [pl_receiver].
  destruct (setup_arrives _ (Setup v role) _ _ es Hv Hs Hc) as [r ->]. cbn [mbind option_bind wire]. by rewrite (proj2 (Z.eqb_neq _ _) Hne).
Qed.

(** *** A run *)

Definition setup_frame (role : Role) : list Z := default [] (message_encode (Setup PROTO_VERSION role)).
Definition ex_dial_env (w : list Z) : DialEnv := mkDialEnv true true true (map Chunk [take 3 w; drop 3 w]) None [] false.

Lemma dial_completes_witness : ∃ pc ps,
  handshake true false Publisher (ex_dial_env (setup_frame Both)) = Some (Dialled_ok pc) ∧
  accept true false (ex_dial_env (setup_frame Publisher)) = Some (Dialled_ok ps, Some Publisher) ∧
  pl_sender pc = RawSender (setup_frame Publisher) ∧ pl_sender ps = RawSender (setup_frame Both) ∧
  (is_Some (pl_info pc) ↔ true && false = true) ∧ (is_Some (pl_info ps) ↔ true && false = true).
Proof.
  apply (dial_completes true false Publisher (ex_dial_env (setup_frame Both)) (ex_dial_env (setup_frame Publisher))
    [take 3 (setup_frame Publisher); drop 3 (setup_frame Publisher)] [take 3 (setup_frame Both); drop 3 (setup_frame Both)]); done.
Defined.
